(* ===== verification/_CoqProject ===== *)
-Q . S2P
Prelude.v
Text.v
Secrets.v
Logical.v
Schema.v
Codec.v
Expression.v
Rule.v
Plan.v
Semantics.v
TypeSystem.v
Lookup.v
Typing.v
Incremental.v
Preflight.v
Memory.v
Sort.v
Stream.v
Nodes.v
Registry.v
Graph.v
Compiler.v
Compiled.v
Snapshots.v
Schedule.v
Automation.v
Keyset.v
Triggers.v
Leases.v
Scheduler.v
Hex.v
Executions.v
History.v
Canonical.v
Operations.v
Jobs.v
Submissions.v
Outputs.v
Lifecycle.v
Reports.v
Life.v
Refines.v
Reachable.v
Frame.v
Sample.v
Control.v
Queue.v
Recovery.v
Replay.v
Pages.v
ProfileHistory.v
SampleProfiles.v
Baselines.v
Drift.v
Drifts.v
Autocommit.v
EventStreams.v
Subscriptions.v
Workspaces.v
Scopes.v
Interleavings.v
Closing.v
Identity.v
Realms.v
Credentials.v
Authorization.v
Endpoints.v
Gatekeeping.v
Tenancy.v
Caching.v
GraphRevisions.v
Revisions.v
AuditLog.v
Retention.v
Collected.v
Maintenance.v
