(* ===== verification/Prelude.v ===== *)
(** * Stillflow: a verification of the logical plane and the control plane

    Stillflow cleans tabular data.  A user draws a graph of nodes (crate
    [stillflow-core]); the compiler (crate [stillflow-plan]) resolves it
    against a registry of node types and lowers it to a logical plan over a
    logical schema; the engine (crate [stillflow-engine]) checks the plan
    against the source schema before it reads a row ("preflight"), compiles
    it into steps, announces the schema of every step, and then executes
    chunk by chunk under a byte budget.  A plan is run by a job: the control
    plane (crate [stillflow-storage]) queues it in a database, a worker
    claims it and so starts its run, the run stages artifacts and ends with
    typed outputs, and every change of state is an event of an append-only
    stream.  Schedules submit jobs on their own, a restart reconciles the
    jobs whose worker was lost, and a maintenance pass collects what is old,
    leaving receipts in an audit log.  All this belongs to workspaces:
    members and service accounts hold roles in them, and every request of
    the API (crate [stillflow-api]) passes a gate that asks for the
    capabilities it needs.  Saved graphs are kept as revisions, and clients
    follow a job through a stream of its events.

    This development covers the part that decides: the types, schemas,
    expressions, rules and plans, the shared static semantics, node graphs,
    their registry and compiler, the engine's optimised copies of the
    semantics, preflight, the memory accounting, the sort operator and the
    stream wrapper; and the stores of schedules, executions, jobs, runs,
    events, artifacts, drift reports, audit events and tombstones, of
    workspaces with their sources, plans, graph revisions, identities and
    credential references, with every operation on them; the gate, the
    requests it guards and the event streams; and the history and comparison
    of profiles.  Rows are read and transformed by Arrow and Polars, which
    are third-party code and stay outside.

    ** Files and what they model (paths under [src/backend/crates/])

    The logical plane:

    - [Prelude]: Rust's [Result] and [?], checked and saturating [usize]
      arithmetic, and [drain]/[run], the work-list machine behind every
      iterative traversal of the source, related to structural recursion by
      the class [Tree].
    - [Text]: [str] as UTF-8 bytes, [trim().is_empty()], [BTreeMap] order.
    - [Secrets]: [stillflow-core/src/error/mod.rs], the secret screen and
      [sanitize_message].
    - [Logical]: [stillflow-core/src/logical.rs], [LogicalType] and
      [least_upper_bound].
    - [Schema]: the same file, [LogicalSchema], [SchemaBudget],
      [validate_nodes], [rename_column].
    - [Codec]: the same file, [canonical_bytes] with its two sinks.
    - [Expression]: [stillflow-core/src/expression.rs].
    - [Rule], [Plan]: [stillflow-plan/src/rule.rs] and [plan.rs]; node
      rules, Kahn's algorithm, the fingerprint.
    - [Semantics]: [stillflow-plan/src/semantics.rs]; the analyser, the
      capability gate and the effect of rules and projections on schemas.
      [ColumnResolver] is the interface to whoever owns the columns.
    - [TypeSystem]: the typing rules of expressions as a relation, which the
      analyser of [Semantics] decides.
    - [Lookup]: [stillflow-engine/src/lookup.rs], the ordinal index.
    - [Typing]: [stillflow-engine/src/typing.rs], the error mapping.
    - [Incremental]: [stillflow-engine/src/incremental.rs], the working
      schema edited in place.
    - [Preflight]: [stillflow-engine/src/preflight.rs], from plan gates to
      the prepared plan.
    - [Memory]: [stillflow-engine/src/memory.rs], the byte tracker.
    - [Sort]: [stillflow-engine/src/sort.rs] and [sort_step] of
      [preview.rs].
    - [Stream]: [stillflow-core/src/stream/mod.rs], the cancellable stream
      as a state machine over an arbitrary wrapped stream.
    - [Nodes]: [stillflow-core/src/node_graph], node configs, definitions,
      the field validators and the thirteen built-in definitions.
    - [Registry]: [registry.rs] and [composite.rs] of that directory;
      lookup, deployed packages, resolution of composites.
    - [Graph]: its [mod.rs]; limits, topology and the canonical form.
    - [Compiler]: [stillflow-plan/src/node_graph_compiler.rs]; work limits,
      lowering, composite expansion, with the reference lowering
      ([lower_path]) and the specification [CompiledOk].
    - [Compiled], [Snapshots]: the validity of emitted plans, and the budget
      of the compiler's schema snapshots.

    Schedules:

    - [Schedule]: [stillflow-core/src/automation.rs], schedules and their
      next occurrence.
    - [Automation]: [stillflow-storage/src/automation.rs] with the update
      and delete of [automation_api.rs]; one function of the tables per
      operation.
    - [Keyset]: pages of a listing by the key of its last row.
    - [Triggers]: the operations as a state machine over worlds (the tables,
      the triggers handed out, all earlier tables), the life of a row
      ([RowStep]) that every operation refines, and the invariant [WorldOk].
    - [Leases]: what holds along every run of that machine.
    - [Scheduler]: [stillflow-engine/src/scheduler.rs], one tick.
    - [Hex]: the hexadecimal text of digests and cursors.
    - [Executions]: the execution records of [automation_api.rs], with the
      table's constraints, as a second state machine.
    - [History]: its paged listings, and the history request of
      [stillflow-api/src/automation.rs] with its cursors.

    Jobs ([stillflow-storage/src/control_plane.rs] unless said otherwise):

    - [Canonical]: the canonical JSON that requests and operations are
      hashed in.
    - [Operations]: [stillflow-core/src/job_operation.rs], the five typed
      operations, with what they use of [export.rs] and [drift.rs].
    - [Jobs]: the tables, what is decoded from their rows, the event log and
      the compare-and-set of states.
    - [Submissions]: [submit_job] and everything it checks, the queue reader
      and the reconciliation candidates.
    - [Outputs]: what an operation has to publish when it succeeds, the
      commit of staged artifacts, and the drift report committed with its
      run ([profile_history.rs]).
    - [Lifecycle]: claiming, transitions, cancelling, finishing, artifacts,
      reconciliation.
    - [Reports]: bodies of artifacts and the drift reports of generic runs,
      with the pages of their findings.
    - [Life]: the abstract life of jobs: a small state ([Life]) of jobs,
      runs, artifacts and logs, the steps it may take ([LifeStep]) and its
      invariant [LifeOk].
    - [Refines]: each operation is a sequence of such steps.
    - [Reachable]: the operations on jobs, runs, events and artifacts as one
      type [JobOp] (all but the retention pass), and the tables after a
      sequence of them; [Sample]: a concrete codec and a job from its
      submission to its end, for the witnesses.
    - [Control], [Queue], [Recovery], [Replay], [Pages]: what follows for
      every state these operations reach, for the queue, for reconciliation,
      for repeated submissions and for the pages of a report; [Frame]: what
      an operation on jobs leaves alone, and that it only appends to the
      event log.
    - [EventStreams]: [stillflow-api/src/event_stream.rs], replay and
      subscription, the worker and the reader as turns of one machine;
      [Subscriptions]: its theorems.
    - [ProfileHistory]: [stillflow-storage/src/profile_history.rs], the
      recorded profiles of a dataset and the choice of a baseline;
      [Baselines]: its theorems, over the steps [HistoryStep];
      [SampleProfiles]: two recorded profiles, for the witnesses.
    - [Drift]: [stillflow-engine/src/drift.rs] with [DriftRational] of
      [stillflow-core/src/drift.rs], from a request over two profile bodies
      to the canonical report; [Drifts]: its theorems.

    Workspaces ([stillflow-storage/src/control_plane.rs]):

    - [Autocommit]: requests as programs of statements that commit one by
      one, pools that run the statements of many requests in any order, the
      rely-guarantee rule ([safe], [pool_safe_steps]) that puts safe
      requests together, and [focus], which runs a program on a part of a
      larger state.
    - [Workspaces]: workspaces, sessions, source connections, assets,
      datasets, plans and plan versions, one program per operation; the
      tables of jobs beside them.
    - [Scopes]: the invariant [Inv] of the whole store (what lies in which
      workspace, which version is published, what a job is bound to) and the
      order [directory_le] in which rows only move forward.
    - [Interleavings]: every request is safe, and what follows for every
      state that interleaved requests reach.
    - [Closing]: what holds of closed sessions when requests run one after
      another, and what other requests can spoil.

    Identities, the gate and graph revisions:

    - [Identity]: [stillflow-storage/src/identity.rs], members, roles,
      service accounts and credential references, with the providers of
      credentials; [Realms]: the invariant of these tables and that every
      request keeps it; [Credentials]: rotation and revocation.
    - [Authorization]: [authorization.rs], [envelope.rs] and [version.rs] of
      [stillflow-api/src]; request metadata, capabilities, the cache and the
      gate.
    - [Endpoints]: the requests of [stillflow-api/src/service.rs] that need
      the store only, as one type [Call] and the program [serve].
    - [Gatekeeping], [Tenancy], [Caching]: what the gate guarantees, that
      workspaces do not touch each other, and what the cache can miss.
    - [GraphRevisions]: [stillflow-storage/src/graph_revisions.rs] and its
      requests in [service.rs]; [Revisions]: its theorems.

    Maintenance:

    - [AuditLog]: [stillflow-storage/src/audit.rs].
    - [Retention]: [stillflow-storage/src/retention.rs], the plan, the
      tombstones, the deletions and their receipt; [Collected]: its
      theorems; [Maintenance]: the steps of a pass ([RetentionStep]), and
      that every operation of the control plane is made of steps of the one
      kind or the other.

    ** What the theorems show

    - Types (C1, [least_upper_bound_semilattice]): widening is the join of a
      declarative order and a partial semilattice, on nested types too.
    - Schemas (C3): the budgeted stack validator accepts exactly the
      declarative [ValidSchema]; [rename_column_atomic] shows that a rename
      is atomic.
    - Encoding (C6, [canonical_bytes_valid]): the two-pass encoder writes
      the reference encoding and valid schemas with equal bytes are equal.
    - Expressions ([validate_shape_exact], [expr_validate_exact]) and plans
      (C25, [plan_validate_deterministic],
      [fingerprint_detects_byte_change]): the iterative checks are exact,
      plan validation does not depend on hash order, and a one-byte change
      changes the fingerprint.
    - Static semantics (C29, [analyze_expr_sound], C30): the analysis
      decides the type system, type and nullability included, and rule
      effects touch only what they name.
    - Engine copies ([authorized_lookup_transparent], C33,
      [apply_rule_invariant], [propagate_schema_refines]): index, in-place
      edits and propagation are refinements of the shared semantics, for the
      rules both admit; no stale index or counter is reachable.
    - Preflight (C36, [linearize_correct], [unknown_sort_key_accepted]): the
      plan is one path, and every schema announced is valid and, when
      temporal parses have temporal targets, the one the reference semantics
      computes; sort keys are not resolved.
    - Memory (C37, [memory_accounting]): accounting invariants along every
      run and the structural peak law.
    - Sort (C38, [coarse_timestamp_panics], [compare_rows_by_key],
      [buffer_push_bounded]): the comparison is a total preorder given by
      integer keys, the output is the unique stable ordering for comparable
      key types, the buffer is bounded; [coarse_timestamp_panics] records
      the timestamps on which the comparison panics.
    - Streams ([stream_contract], [stream_transparent]): whatever the
      wrapped stream does, what is delivered is gapless and of one schema,
      and nothing follows the end; well-behaved streams pass through
      unchanged.
    - Node graphs ([validated_configs_exact], [registry_lookup_exact],
      [graph_walk_terminates]): lookup is exact, validation accepts exactly
      the graphs that are one path from source to output, and its walk
      terminates on every edge table.
    - Compilation (C40, [composite_snapshots_escape_budget],
      [compile_total], [snapshots_within_budget]): the emitted plan is the
      chain of the reference lowering; once a graph is lowered, plan
      validation cannot reject it; the schema snapshots stay within the
      charged estimate when no composite is involved, and can exceed it when
      one is.
    - Automation (C4, C9, C24, C28, [occurrences_in_order],
      [lost_last_attempt_blocks], [claims_settled_once]): the next run is
      the first one after the previous (C9); rows stay well formed (C24); a
      lease is exclusive (C28), a claim is settled once and occurrences are
      acknowledged in order and without gaps ([occurrences_in_order]); a
      scheduler tick is a run of claims, each settled at most once, and
      leaves no lease behind when it succeeds (C4).
      [lost_last_attempt_blocks] records that a lost last attempt blocks its
      schedule for good.
    - Executions (C10, C32): a request that is repeated gets the execution
      and the job it has made before; the pages of the history, joined by
      their cursors, are the whole history when they fit the response bound.
    - Identity of requests (C2): canonical bytes are equal exactly for
      documents that differ in the order of object entries at most.
    - Jobs (C5, C26, C27, C31, [typed_artifacts_follow_success],
      [queue_is_bounded]): every operation on jobs refines their abstract
      life, and a retention pass is made of steps that only take away what
      has ended (C5); so that in every state the operations on jobs reach,
      retention apart, the event streams are the histories of the states but
      for notes (C26), jobs and runs agree (C27), the end is final (C31), an
      artifact of a typed run is visible only after success
      ([typed_artifacts_follow_success]) and no queue is longer than its
      bound ([queue_is_bounded]).
    - Submission, queue and restart (C34, [reconcile_idempotent],
      [next_queued_fifo], C39): submitting again replays, reconciling again
      changes nothing, the queue is first in, first out, and its reader
      always answers.  [read_pages_complete] shows that the pages of a drift
      report are its findings.
    - Workspaces (C7, C8, [store_only_grows]): however the statements of
      requests interleave, nothing refers outside its workspace, a plan has
      one published version, jobs are bound to once published versions by
      digest, and of two publications against the same expected version one
      is refused.
    - Sessions (C35, [close_races_submission]): a closed session has no job
      left when requests run one after another, and can have one when they
      do not.
    - Event streams (C16, C17, [shown_events_agree],
      [worker_outruns_reader]): a subscriber gets the events after its
      cursor once and in order whatever happens meanwhile, and gets them all
      under every schedule that leaves room in its channel; no check of the
      stream fails on what the control plane writes; but a worker that gets
      ahead of its reader by more than the channel holds ends the
      subscription.
    - Profiles (C23, [recording_replays], [latest_baseline_exact],
      [history_pages_consecutive]): the history of a dataset is a log
      without gaps, recording again replays, pages follow one another, and
      the baseline chosen is the newest eligible entry.
    - Drift (C21, C22, [truncated_scan_compared], [zone_change_unreported]):
      a comparison is made with that baseline and its findings, ordered and
      without repetition, are the drift of the contract for complete scans
      and types told apart by name; no rational overflows and no conversion
      fails; the two examples show where the code departs from its contract.
    - Identities (C14, C15, [rotation_replaces], [keychain_rotation],
      [revocation_undone]): identities stay in their workspaces however
      requests interleave; a revoked credential stays revoked when requests
      run one after another, and can come back when they do not.
    - The gate (C11, C12, C13, [revoked_member_let_in]): with its cache the
      gate decides as the tables do when requests run one after another;
      nothing is answered or changed without the capabilities the request
      needs; a request changes rows of its own workspace only; and a race
      can leave what was revoked in the cache.
    - Graph revisions (C18, C19, C20, [history_exact],
      [migration_is_identity]): the revisions of a graph are a log without
      gaps, a save is a guarded append to it, and of two edits of the same
      revision one is refused.
    - Audit ([audit_log_append_only], [audit_append_idempotent]): the log is
      append-only, numbered without gaps, and appending again replays.
    - Retention ([run_collection_exact], [event_tombstone_stops_retention],
      [referenced_snapshot_loses_files], [artifacts_crowd_out_runs],
      [artifact_goes_with_its_run]): what the collection of a run deletes
      ([run_collection_exact]); [event_tombstone_stops_retention],
      [referenced_snapshot_loses_files] and [artifacts_crowd_out_runs]
      record that an event's tombstone stops every later pass, that a
      snapshot a run names loses its files, and that artifacts crowd out the
      runs they wait for.

    ** Representation choices

    - [usize], [u64] and [u16] values are [N]; wherever the code checks,
      saturates or wraps, the operation is written out with the 64-bit
      bound.  UUIDs are their [u128] value.  Floats are bit patterns.
    - [BTreeMap] is [gmap] with an explicit iteration order; a [HashMap]
      whose order can be observed is iterated by a parameter constrained
      only to be a permutation ([HashIter]).
    - Errors are values.  A panic (array index, failed downcast) is [None],
      [StorageError]'s constructor [Panic], or an [Internal] error shown
      unreachable where it cannot happen.
    - Work lists run on fuel equal to the weight of the stack, which
      strictly decreases; [drain_fold] shows the fuel is never exhausted.
      [kahn] gets one unit per node and [follow] one more than the number of
      nodes; [kahn_answer] and [follow_total] show that is enough.  [walk]
      and [trace_path] too get one more than the number of nodes, enough by
      [graph_walk_terminates] and [unique_path_linear]. [bsearch_base]
      halves its window, with the table length as fuel. Euclid's loop gets
      258 turns, enough for any [u128] by [gcd_loop_gcd]. The daily search
      has the code's own bound of 370 days.  The queue reader gets one turn
      more than there are queued jobs, enough by C39.
    - An operation of a store on jobs, schedules or the audit log is one
      immediate transaction and so one function of the tables, whose error
      leaves them as they were; an operation that reads before its
      transaction takes the tables it has read as an argument of its own,
      and the queue reader, which commits turn by turn, returns the tables
      with its answer.  The files that retention removes are a state of
      their own ([Disk]) that a rollback does not restore.  The operations
      of [Workspaces] are not transactions in the code but for two; there a
      statement is atomic and a request is not.  Instants are nanoseconds;
      their text order in the tables is their order as instants.
    - Columns that the schema or the readers constrain (states, identities,
      instants, event types) are typed values; columns with JSON or digests
      keep their text, since the readers have to cope with what is there.
      Constraints of a table are checked by the insert that could break them
      ([may_insert_event], [may_insert_run], [may_insert_audit],
      [insert_comparison], [may_insert_history], the deletions of
      [Retention]).
    - Outside code is a parameter: allocation success ([can_reserve]), plan
      serialisation ([to_vec]), request, connection, capabilities and
      inspected schema ([Environment]), array sizes
      ([get_array_memory_size]), the decoding and encoding of JSON documents
      (classes [Serde], [JobCodec], [HistoryCodec], [AuditCodec],
      [JsonText], and [graph_to_vec], [plan_to_vec], [package_to_value]),
      the text of floating point numbers ([float_text]), the hash, for
      streams the clock, the cancellation token and the wrapped stream, for
      credentials the keychain and external providers ([KeychainBackend],
      [ExternalCredentialBackend]), for graph revisions the decoding of
      graphs, fresh identities and the clock, for automation the calendar
      (class [Chrono], with [ChronoLaws] where a theorem needs them), the
      job factory, the job runtime, the source of fresh identities and the
      JSON of cursors and pages ([HistorySerde]), for jobs the files of
      snapshots and bundles (class [StoreFiles]), and for retention the
      range of the calendar, the removal of a directory and the collection
      of exports that follows.

    ** Not modelled

    Execution over Polars and Arrow and the FFI between them; connectors,
    HTTP, and the service around them (I/O); requests of the API that call a
    connector, the engine or the job runtime; the worker threads of the job
    runtime; the files of snapshots, bundles and exports; counters, logs and
    backups; failures of the database itself and the process-wide activity
    limits; the asynchronous loop around the scheduler's tick and the
    polling interval of event streams; serde, except as a parameter, and
    with it [NodeGraph::from_json_bytes]; the node catalog listing;
    test-only code.

    ** What could follow

    The publication of a resolved drift report
    ([drift_history_and_publish]); the requests on jobs and runs; the
    preview loop with its truncation flags ([preview.rs]); the agreement of
    the compiler's schemas with the ones preflight announces; text
    normalisation. *)

From stdpp Require Export base tactics list gmap strings sorting.
From Stdlib Require Export NArith Lia.

#[export] Set Default Goal Selector "!".

(** ** Results

    Rust's [Result<A, E>]; [?] is the monadic bind. *)

Inductive result (E A : Type) : Type :=
| Ok (a : A)
| Err (e : E).
Arguments Ok {E A} a.
Arguments Err {E A} e.

#[export] Instance result_ret E : MRet (result E) := fun A a => Ok a.
#[export] Instance result_bind E : MBind (result E) := fun A B f m =>
  match m with Ok a => f a | Err e => Err e end.
#[export] Instance result_fmap E : FMap (result E) := fun A B f m =>
  match m with Ok a => Ok (f a) | Err e => Err e end.
#[export] Instance result_eq_dec {E A} `{EqDecision E, EqDecision A} :
  EqDecision (result E A).
Proof. solve_decision. Defined.

Declare Scope rust_scope.
Delimit Scope rust_scope with rust.
Open Scope rust_scope.

(** [try! m; k] is the statement [m?;] followed by [k]. *)
Notation "'try!' m ; k" := (m ≫= fun _ => k)
  (at level 20, m at level 100, k at level 200, right associativity,
   only parsing) : rust_scope.

(** [Result::map_err], [Option::ok_or] and [Result::is_ok]. *)
Definition map_err {E F A} (f : E -> F) (m : result E A) : result F A :=
  match m with Ok a => Ok a | Err e => Err (f e) end.
Definition ok_or {E A} (o : option A) (e : E) : result E A :=
  match o with Some a => Ok a | None => Err e end.
Definition is_ok {E A} (m : result E A) : bool :=
  match m with Ok _ => true | Err _ => false end.
Definition guard_ok {E} (b : bool) (e : E) : result E unit :=
  if b then Ok tt else Err e.

Lemma bind_Ok {E A B} (m : result E A) (f : A -> result E B) b :
  m ≫= f = Ok b <-> exists a, m = Ok a /\ f a = Ok b.
Proof. destruct m; simpl; naive_solver. Qed.

Lemma bind_Err {E A B} (m : result E A) (f : A -> result E B) e : m ≫= f = Err e -> m = Err e \/ exists a, m = Ok a /\ f a = Err e.
Proof. destruct m as [a|e']; cbn; [by right; exists a|by intros [= ->]; left]. Qed.
Lemma ok_or_Err {E A} (o : option A) (e e' : E) : ok_or o e = Err e' -> e = e'.
Proof. by destruct o; [|intros [= ->]]. Qed.

Lemma fmap_Ok {E A B} (m : result E A) (f : A -> B) b :
  f <$> m = Ok b <-> exists a, m = Ok a /\ f a = b.
Proof. destruct m; simpl; naive_solver. Qed.

Lemma map_err_Ok {E F A} (f : E -> F) (m : result E A) a :
  map_err f m = Ok a <-> m = Ok a.
Proof. destruct m; simpl; naive_solver. Qed.

Lemma ok_or_Ok {E A} (o : option A) (e : E) a :
  ok_or o e = Ok a <-> o = Some a.
Proof. destruct o; simpl; naive_solver. Qed.

Lemma guard_ok_Ok {E} b (e : E) u : guard_ok b e = Ok u <-> b = true.
Proof. destruct b, u; simpl; naive_solver. Qed.

(** [for a in l { s = f(s, a)?; }] *)
Fixpoint fold_result {E S A} (f : S -> A -> result E S) (s : S) (l : list A)
  : result E S :=
  match l with
  | [] => Ok s
  | a :: l => s' ← f s a; fold_result f s' l
  end.

(** [for a in l { f(a)?; }] *)
Fixpoint each {E A} (f : A -> result E unit) (l : list A) : result E unit :=
  match l with
  | [] => Ok tt
  | a :: l => try! f a; each f l
  end.

(** [l.iter().map(f).collect::<Result<Vec<_>, _>>()] *)
Fixpoint collect {E A B} (f : A -> result E B) (l : list A) : result E (list B) :=
  match l with
  | [] => Ok []
  | a :: l => b ← f a; bs ← collect f l; Ok (b :: bs)
  end.

Lemma fold_result_ext {E S A} (f g : S -> A -> result E S) l s :
  (forall s a, a ∈ l -> f s a = g s a) -> fold_result f s l = fold_result g s l.
Proof.
  revert s. induction l as [|a l IH]; intros s Hfg; cbn; [done|].
  rewrite Hfg by set_solver. destruct (g s a); cbn; [|done]. apply IH. set_solver.
Qed.

Lemma each_Ok {E A} (f : A -> result E unit) l u :
  each f l = Ok u <-> Forall (fun a => f a = Ok tt) l.
Proof.
  destruct u; induction l as [|a l IH]; simpl; [by split; constructor|].
  rewrite bind_Ok, Forall_cons, <- IH. split.
  - by intros ([] & ? & ?).
  - intros [? ?]; eauto.
Qed.

Lemma each_ext {E A} (f g : A -> result E unit) l :
  Forall (fun a => f a = g a) l -> each f l = each g l.
Proof. induction 1 as [|a l Ha _ IH]; simpl; [done|]. by rewrite Ha, IH. Qed.

Lemma collect_Ok {E A B} (f : A -> result E B) l bs :
  collect f l = Ok bs <-> Forall2 (fun a b => f a = Ok b) l bs.
Proof.
  revert bs; induction l as [|a l IH]; intros bs; simpl.
  - split; [by intros [= <-]|]. by intros ->%Forall2_nil_inv_l.
  - rewrite bind_Ok. split.
    + intros (b & Hb & Hbs). apply bind_Ok in Hbs as (bs' & Hbs & [= <-]).
      constructor; [done|]. by apply IH.
    + intros (b & bs' & Hb & Hbs & ->)%Forall2_cons_inv_l. exists b; split; [done|].
      apply bind_Ok. exists bs'. by rewrite IH.
Qed.
Lemma collect_all {E A B} (f : A -> result E B) l : Forall (fun a => exists b, f a = Ok b) l -> exists bs, collect f l = Ok bs.
Proof. induction 1 as [|a l [b Hb] _ [bs IH]]; [by exists []|]. exists (b :: bs). cbn. rewrite Hb. cbn. by rewrite IH. Qed.

(** ** Hint databases *)

Create HintDb stillflow discriminated.
Create Rewrite HintDb result_ok.
#[export] Hint Rewrite @bind_Ok @fmap_Ok @map_err_Ok @ok_or_Ok @guard_ok_Ok
  @each_Ok @collect_Ok : result_ok.

(** Case analysis on whatever a hypothesis [... = Ok _] matches on. *)
Ltac case_result H :=
  match type of H with
  | context [match ?x with _ => _ end] =>
      lazymatch x with
      | context [match _ with _ => _ end] => fail
      | _ => let E := fresh "E" in destruct x eqn:E; simpl in H; try discriminate H
      end
  end.
Ltac simp_result H := repeat (case_result H); simplify_eq/=.

(** ** Machine integers: [usize] and [u64] on a 64-bit target *)

Definition usize_max : N := 2 ^ 64 - 1.
Definition u32_max : N := 2 ^ 32 - 1.
Definition checked_add (a b : N) : option N :=
  if (a + b <=? usize_max)%N then Some (a + b)%N else None.
Definition checked_sub (a b : N) : option N :=
  if (b <=? a)%N then Some (a - b)%N else None.
Definition checked_mul (a b : N) : option N :=
  if (a * b <=? usize_max)%N then Some (a * b)%N else None.
Definition saturating_add (a b : N) : N := N.min (a + b) usize_max.
Definition saturating_mul (a b : N) : N := N.min (a * b) usize_max.
Definition saturating_sub (a b : N) : N := (a - b)%N.
Definition wrapping_mul64 (a b : N) : N := ((a * b) mod 2 ^ 64)%N.

(** [Vec::len] as a [usize]. *)
Definition len {A} (l : list A) : N := N.of_nat (length l).

Lemma checked_add_Some a b c :
  checked_add a b = Some c <-> (c = a + b /\ a + b <= usize_max)%N.
Proof. unfold checked_add. destruct (N.leb_spec (a + b) usize_max); naive_solver lia. Qed.

Lemma checked_add_None a b : checked_add a b = None <-> (usize_max < a + b)%N.
Proof. unfold checked_add. destruct (N.leb_spec (a + b) usize_max); naive_solver lia. Qed.

Lemma checked_sub_Some a b c :
  checked_sub a b = Some c <-> (c = a - b /\ b <= a)%N.
Proof. unfold checked_sub. destruct (N.leb_spec b a); naive_solver lia. Qed.

Lemma checked_mul_Some a b c :
  checked_mul a b = Some c <-> (c = a * b /\ a * b <= usize_max)%N.
Proof. unfold checked_mul. destruct (N.leb_spec (a * b) usize_max); naive_solver lia. Qed.

Lemma len_app {A} (l k : list A) : len (l ++ k) = (len l + len k)%N.
Proof. unfold len. rewrite length_app. lia. Qed.
Lemma len_cons {A} (a : A) l : len (a :: l) = (1 + len l)%N.
Proof. unfold len. simpl. lia. Qed.
Lemma len_fmap {A B} (f : A -> B) l : len (f <$> l) = len l.
Proof. unfold len. by rewrite length_fmap. Qed.
Create Rewrite HintDb len.
#[export] Hint Rewrite @len_app @len_cons @len_fmap : len.

(** Sum of a measure over a list. *)
Definition sum_by {A} (f : A -> N) (l : list A) : N := foldr (fun a n => f a + n)%N 0%N l.

Lemma sum_by_cons {A} (f : A -> N) a l : sum_by f (a :: l) = (f a + sum_by f l)%N.
Proof. done. Qed.

Lemma sum_by_app {A} (f : A -> N) l k : sum_by f (l ++ k) = (sum_by f l + sum_by f k)%N.
Proof. induction l as [|a l IH]; simpl; [lia|]. rewrite IH. lia. Qed.

Lemma sum_by_permutation {A} (f : A -> N) l k :
  l ≡ₚ k -> sum_by f l = sum_by f k.
Proof. induction 1; simpl; lia. Qed.

Lemma sum_by_bind {A B} (f : B -> N) (g : A -> list B) l :
  sum_by f (l ≫= g) = sum_by (fun a => sum_by f (g a)) l.
Proof.
  induction l as [|a l IH]; [done|]. rewrite bind_cons, sum_by_app, IH. done.
Qed.

Lemma sum_by_fmap {A B} (f : B -> N) (g : A -> B) l :
  sum_by f (g <$> l) = sum_by (fun a => f (g a)) l.
Proof. induction l as [|a l IH]; simpl; [done|]. by rewrite <- IH. Qed.

Lemma sum_by_ext_in {A} (f g : A -> N) l :
  (forall a, a ∈ l -> f a = g a) -> sum_by f l = sum_by g l.
Proof.
  induction l as [|a l IH]; intros Hfg; simpl; [done|].
  rewrite IH, Hfg by set_solver. done.
Qed.

Lemma sum_by_add {A} (f g : A -> N) l :
  (sum_by (fun a => f a + g a) l = sum_by f l + sum_by g l)%N.
Proof. induction l as [|a l IH]; simpl; lia. Qed.

Lemma sum_by_scale {A} (c : N) (f : A -> N) l :
  (sum_by (fun a => c * f a) l = c * sum_by f l)%N.
Proof. induction l as [|a l IH]; simpl; lia. Qed.

Lemma sum_by_one {A} (l : list A) : sum_by (fun _ => 1%N) l = len l.
Proof. induction l as [|a l IH]; [done|]. rewrite len_cons, <- IH. done. Qed.

Lemma sum_by_elem {A} (f : A -> N) l a : a ∈ l -> (f a <= sum_by f l)%N.
Proof.
  induction l as [|b l IH]; intros Ha; [by apply not_elem_of_nil in Ha|].
  rewrite sum_by_cons. apply elem_of_cons in Ha as [->|Ha]; [lia|].
  specialize (IH Ha). lia.
Qed.

Lemma sum_by_le {A} (f g : A -> N) l :
  (forall a, a ∈ l -> f a <= g a)%N -> (sum_by f l <= sum_by g l)%N.
Proof.
  induction l as [|b l IH]; intros Hfg; [done|]. rewrite !sum_by_cons.
  assert (sum_by f l <= sum_by g l)%N by (apply IH; set_solver).
  assert (f b <= g b)%N by (apply Hfg; set_solver). lia.
Qed.

Lemma len_bind {A B} (f : A -> list B) l : len (l ≫= f) = sum_by (fun a => len (f a)) l.
Proof. induction l as [|a l IH]; [done|]. rewrite bind_cons, len_app, IH. done. Qed.

Lemma forallb_Forall {A} (p : A -> bool) l :
  forallb p l = true <-> Forall (fun a => p a = true) l.
Proof.
  induction l as [|a l IH]; simpl; [by split; constructor|].
  by rewrite andb_true_iff, Forall_cons, IH.
Qed.

Lemma list_bind_fmap {A B C} (f : A -> B) (g : B -> list C) l :
  (f <$> l) ≫= g = l ≫= (fun a => g (f a)).
Proof. induction l as [|a l IH]; [done|]. by rewrite fmap_cons, !bind_cons, IH. Qed.

Lemma forallb_fmap {A B} (p : B -> bool) (f : A -> B) l :
  forallb p (f <$> l) = forallb (fun a => p (f a)) l.
Proof. induction l as [|a l IH]; [done|]. by rewrite fmap_cons; simpl; rewrite IH. Qed.

Lemma forallb_bind {A B} (p : B -> bool) (g : A -> list B) l :
  forallb p (l ≫= g) = forallb (fun a => forallb p (g a)) l.
Proof. induction l as [|a l IH]; [done|]. by rewrite bind_cons, forallb_app, IH. Qed.

Lemma list_bind_assoc {A B C} (f : A -> list B) (g : B -> list C) l :
  (l ≫= f) ≫= g = l ≫= (fun a => f a ≫= g).
Proof. induction l as [|a l IH]; [done|]. by rewrite !bind_cons, bind_app, IH. Qed.

Lemma forallb_ext_in {A} (p q : A -> bool) l :
  (forall a, a ∈ l -> p a = q a) -> forallb p l = forallb q l.
Proof.
  induction l as [|a l IH]; intros Hpq; simpl; [done|].
  rewrite IH, Hpq by set_solver. done.
Qed.

Lemma sum_list_with_fmap {A B} (f : B -> nat) (g : A -> B) l :
  sum_list_with f (g <$> l) = sum_list_with (fun a => f (g a)) l.
Proof. induction l as [|a l IH]; simpl; [done|]. by rewrite <- IH. Qed.

(** ** The work-list machine

    The source never recurses over a tree it does not trust: it keeps an
    explicit stack, pops a node, updates its state and pushes children.
    [drain] is that loop.  The stack's top is the head of the list, and
    [pushes] is listed in the order of the [push] calls, so the last push is
    popped first.  [None] is fuel exhaustion. *)

Section worklist.
Context {E S A : Type}.
Context (visit : S -> A -> result E (S * list A)).

Fixpoint drain (fuel : nat) (st : S) (stack : list A) : option (result E S) :=
  match stack with
  | [] => Some (Ok st)
  | a :: rest =>
      match fuel with
      | 0 => None
      | Datatypes.S fuel =>
          match visit st a with
          | Err e => Some (Err e)
          | Ok (st', pushes) => drain fuel st' (reverse pushes ++ rest)
          end
      end
  end.
End worklist.

(** Types whose nodes have finitely many children, smaller than themselves. *)
Class Tree (A : Type) := {
  children : A -> list A;
  weight : A -> nat;
  weight_children a : sum_list_with weight (children a) < weight a;
}.

(** The nodes in the order a stack machine pops them: a node, then the trees
    of its children, last pushed first. *)
Fixpoint visits_fuel `{Tree A} (fuel : nat) (a : A) : list A :=
  match fuel with
  | 0 => []
  | S fuel => a :: (reverse (children a) ≫= visits_fuel fuel)
  end.
Definition visits `{Tree A} (a : A) : list A := visits_fuel (weight a) a.

Lemma list_bind_ext_in {A B} (f g : A -> list B) l :
  (forall a, a ∈ l -> f a = g a) -> l ≫= f = l ≫= g.
Proof.
  induction l as [|a l IH]; intros Hfg; [done|].
  rewrite !bind_cons, IH by set_solver. f_equal. apply Hfg. left.
Qed.

Section tree.
Context `{Tree A}.

Lemma weight_pos (a : A) : 0 < weight a.
Proof. pose proof (weight_children a). lia. Qed.

Lemma weight_child (a c : A) : c ∈ children a -> weight c < weight a.
Proof.
  intros Hc. pose proof (weight_children a) as Hw.
  apply list_elem_of_split in Hc as (l1 & l2 & Heq). rewrite Heq in Hw.
  rewrite sum_list_with_app in Hw. simpl in Hw. lia.
Qed.

Lemma visits_fuel_enough n (a : A) :
  weight a <= n -> visits_fuel n a = visits a.
Proof.
  unfold visits. remember (weight a) as m eqn:Hm. revert n m a Hm.
  induction n as [n IH] using lt_wf_ind; intros m a Hm Hn.
  pose proof (weight_pos a).
  destruct n as [|n], m as [|m]; simpl; try lia. f_equal.
  apply list_bind_ext_in. intros c Hc.
  assert (weight c < weight a) by (apply weight_child; set_solver).
  rewrite (IH n) with (m := weight c) by lia.
  rewrite (IH m) with (m := weight c) by lia. done.
Qed.

Lemma visits_unfold (a : A) : visits a = a :: (reverse (children a) ≫= visits).
Proof.
  unfold visits at 1. destruct (weight a) as [|n] eqn:Hw;
    [by pose proof (weight_pos a); lia|]. simpl. f_equal.
  apply list_bind_ext_in. intros c Hc. apply visits_fuel_enough.
  assert (weight c < weight a) by (apply weight_child; set_solver). lia.
Qed.

Lemma elem_of_visits_inv (x a : A) :
  x ∈ visits a <-> x = a \/ exists c, c ∈ children a /\ x ∈ visits c.
Proof.
  rewrite visits_unfold, elem_of_cons, list_elem_of_bind.
  setoid_rewrite elem_of_reverse. naive_solver.
Qed.

(** Well-founded induction over the children. *)
Lemma tree_ind (P : A -> Prop) :
  (forall a, (forall c, c ∈ children a -> P c) -> P a) -> forall a, P a.
Proof.
  intros Hstep a. remember (weight a) as n eqn:Hn. revert a Hn.
  induction n as [n IH] using lt_wf_ind; intros a ->.
  apply Hstep. intros c Hc. eapply IH; [|done]. by apply weight_child.
Qed.

Context {E S : Type} (visit : S -> A -> result E (S * list A)).
Context (visit_pushes : forall s a s' ps,
  visit s a = Ok (s', ps) -> ps = children a).

(** What one iteration does to the state. *)
Definition enter (s : S) (a : A) : result E S := fst <$> visit s a.

(** With fuel for every node, the machine is a fold over [visits]: it
    terminates, visits every node once and stops at the first error. *)
Theorem drain_fold n s stack :
  sum_list_with weight stack <= n ->
  drain visit n s stack = Some (fold_result enter s (stack ≫= visits)).
Proof.
  revert s stack. induction n as [|n IH]; intros s [|a rest] Hn; try done.
  { pose proof (weight_pos a). simpl in Hn. lia. }
  rewrite bind_cons, visits_unfold, <- app_comm_cons. cbn [drain fold_result].
  assert (enter s a = fst <$> visit s a) as -> by done.
  destruct (visit s a) as [[s' ps]|e] eqn:Hv; simpl; [|done].
  apply visit_pushes in Hv as ->. rewrite IH.
  - by rewrite bind_app.
  - rewrite sum_list_with_app, sum_list_with_reverse. simpl in Hn.
    pose proof (weight_children a). lia.
Qed.

(** The loop as a total function: the fuel is the weight of the stack, and
    the default is never reached ([run_fold]). *)
Definition run (unreachable : result E S) (s : S) (stack : list A) : result E S :=
  default unreachable (drain visit (sum_list_with weight stack) s stack).

Theorem run_fold unreachable s stack :
  run unreachable s stack = fold_result enter s (stack ≫= visits).
Proof. unfold run. by rewrite drain_fold. Qed.

Corollary run_tree unreachable s a :
  run unreachable s [a] = fold_result enter s (visits a).
Proof. by rewrite run_fold, bind_cons, app_nil_r. Qed.

Corollary drain_tree n s a :
  weight a <= n -> drain visit n s [a] = Some (fold_result enter s (visits a)).
Proof.
  intros Hn. rewrite drain_fold by (simpl; lia). by rewrite bind_cons, app_nil_r.
Qed.
End tree.

(** Sums and universal checks over the visits follow from their one-step
    unfoldings. *)
Section tree_specs.
Context `{Tree A}.

Lemma children_sum_gen (own spec : A -> N) a :
  (forall a, spec a = own a + sum_by spec (children a))%N ->
  sum_by own (visits a) = spec a.
Proof.
  intros Hspec. induction a as [a IH] using tree_ind.
  rewrite visits_unfold, Hspec, sum_by_cons. f_equal.
  rewrite sum_by_bind, (sum_by_permutation _ _ (children a)) by apply reverse_Permutation.
  by apply sum_by_ext_in.
Qed.

Lemma visits_Forall_gen (own spec : A -> Prop) a :
  (forall a, spec a <-> own a /\ Forall spec (children a)) ->
  Forall own (visits a) <-> spec a.
Proof.
  intros Hspec. induction a as [a IH] using tree_ind.
  rewrite Hspec, visits_unfold, Forall_cons. f_equiv.
  rewrite !Forall_forall. setoid_rewrite list_elem_of_bind.
  setoid_rewrite elem_of_reverse. split.
  - intros Hall c Hc. apply IH; [done|]. apply Forall_forall. eauto.
  - intros Hall x (c & Hx & Hc). apply Hall in Hc as Hs. apply IH in Hs; [|done].
    rewrite Forall_forall in Hs. auto.
Qed.
End tree_specs.

(** Folds that only check. *)
Lemma fold_result_unit {E A} (f : unit -> A -> result E unit) l :
  fold_result f tt l = each (f tt) l.
Proof.
  induction l as [|a l IH]; simpl; [done|].
  destruct (f tt a) as [[]|]; simpl; auto.
Qed.

(** ** Uniqueness checks

    [let mut seen = Set::new(); for x in l { if !seen.insert(x) { return
    Err(x) } }]: the first element already present. *)

Section unique.
Context `{Countable A}.

Fixpoint first_repeat (seen : gset A) (l : list A) : option A :=
  match l with
  | [] => None
  | x :: l => if decide (x ∈ seen) then Some x else first_repeat ({[x]} ∪ seen) l
  end.

Lemma first_repeat_None seen l :
  first_repeat seen l = None <-> NoDup l /\ (forall x, x ∈ l -> x ∉ seen).
Proof.
  revert seen; induction l as [|x l IH]; intros seen; simpl.
  - split; [|done]. intros _. split; [constructor|set_solver].
  - case_decide.
    + split; [done|]. intros [_ Hs]. set_solver.
    + rewrite IH, NoDup_cons. set_solver.
Qed.

Lemma first_repeat_empty l : first_repeat ∅ l = None <-> NoDup l.
Proof. rewrite first_repeat_None. set_solver. Qed.
End unique.

(** ** Sorted lists *)

Lemma StronglySorted_lookup {A} (R : relation A) l i j x y :
  StronglySorted R l -> i < j -> l !! i = Some x -> l !! j = Some y -> R x y.
Proof.
  intros Hs. revert i j. induction Hs as [|z l Hs IH Hz]; intros i j Hij Hi Hj; [done|].
  destruct i as [|i], j as [|j]; try lia; simpl in *.
  - simplify_eq. rewrite Forall_forall in Hz. apply Hz. by eapply list_elem_of_lookup_2.
  - eapply (IH i j); [lia|done|done].
Qed.
