(* ===== verification/Text.v ===== *)
(** * Rust text and ordered maps

    What the modelled code uses of [str] and [BTreeMap].  A Rust string is
    its UTF-8 byte sequence: a Rocq [string] read as bytes.  [BTreeMap] is a
    [gmap] iterated in ascending key order ([btree_iter]). *)

From Stdlib Require Ascii.
From S2P Require Import Prelude.

(** ** Bytes *)

Definition bytes_of (s : string) : list N := Ascii.N_of_ascii <$> String.list_ascii_of_string s.

(** [str::len]: the number of bytes. *)
Definition str_len (s : string) : N := len (bytes_of s).

Lemma bytes_of_inj s t : bytes_of s = bytes_of t -> s = t.
Proof.
  unfold bytes_of. intros Heq.
  assert (String.list_ascii_of_string s = String.list_ascii_of_string t) as Hl.
  { revert Heq. apply list_fmap_eq_inj. intros x y Hxy.
    by rewrite <- (Ascii.ascii_N_embedding x), <- (Ascii.ascii_N_embedding y), Hxy. }
  by rewrite <- (String.string_of_list_ascii_of_string s), Hl,
    String.string_of_list_ascii_of_string.
Qed.

(** [char::is_whitespace] on the UTF-8 encoding: the number of bytes of the
    whitespace character the text starts with, if it starts with one.  The
    code points are U+0009..U+000D, U+0020, U+0085, U+00A0, U+1680,
    U+2000..U+200A, U+2028, U+2029, U+202F, U+205F and U+3000. *)
Definition whitespace_width (t : list N) : option nat :=
  match t with
  | b0 :: rest =>
      if ((9 <=? b0) && (b0 <=? 13) || (b0 =? 32))%N then Some 1
      else match rest with
      | b1 :: rest =>
          if ((b0 =? 0xC2) && ((b1 =? 0x85) || (b1 =? 0xA0)))%N then Some 2
          else match rest with
          | b2 :: _ =>
              if ((b0 =? 0xE1) && (b1 =? 0x9A) && (b2 =? 0x80)
                  || (b0 =? 0xE2) && (b1 =? 0x80)
                     && ((0x80 <=? b2) && (b2 <=? 0x8A) || (b2 =? 0xA8)
                         || (b2 =? 0xA9) || (b2 =? 0xAF))
                  || (b0 =? 0xE2) && (b1 =? 0x81) && (b2 =? 0x9F)
                  || (b0 =? 0xE3) && (b1 =? 0x80) && (b2 =? 0x80))%N
              then Some 3 else None
          | [] => None
          end
      | [] => None
      end
  | [] => None
  end.

Fixpoint blank_fuel (fuel : nat) (t : list N) : bool :=
  match t, fuel with
  | [], _ => true
  | _, 0 => false
  | _, S fuel =>
      match whitespace_width t with
      | Some k => blank_fuel fuel (drop k t)
      | None => false
      end
  end.

(** [s.trim().is_empty()]: every character is whitespace.  Each step drops at
    least one byte, so the length is enough fuel. *)
Definition is_blank (s : string) : bool :=
  let t := bytes_of s in blank_fuel (length t) t.

(** [str::to_ascii_lowercase] *)
Definition lower_byte (b : N) : N :=
  if ((65 <=? b) && (b <=? 90))%N then (b + 32)%N else b.
Definition to_ascii_lowercase (t : list N) : list N := lower_byte <$> t.

(** [str::starts_with], [str::find] (byte offset) and [str::contains]. *)
Fixpoint starts_with (needle t : list N) : bool :=
  match needle, t with
  | [], _ => true
  | n :: needle, b :: t => (n =? b)%N && starts_with needle t
  | _ :: _, [] => false
  end.
Fixpoint find_sub (needle t : list N) : option nat :=
  if starts_with needle t then Some 0
  else match t with
       | [] => None
       | _ :: t => S <$> find_sub needle t
       end.
Definition contains_sub (needle t : list N) : bool :=
  match find_sub needle t with Some _ => true | None => false end.

Lemma starts_with_spec needle t :
  starts_with needle t = true <-> exists u, t = needle ++ u.
Proof.
  revert t; induction needle as [|n needle IH]; intros [|b t]; simpl.
  - naive_solver.
  - naive_solver.
  - split; [done|]. by intros [u ?].
  - rewrite andb_true_iff, N.eqb_eq, IH. naive_solver.
Qed.

Lemma contains_sub_spec needle t :
  contains_sub needle t = true <-> exists u v, t = u ++ needle ++ v.
Proof.
  unfold contains_sub. induction t as [|b t IH]; simpl.
  - destruct (starts_with needle []) eqn:Hs.
    + apply starts_with_spec in Hs as [u Hu]. split; [|done]. intros _.
      exists [], u. done.
    + split; [done|]. intros (u & v & Hu).
      symmetry in Hu. apply app_nil in Hu as [-> Hu].
      assert (starts_with needle [] = true); [|congruence].
      apply starts_with_spec. by exists v.
  - destruct (starts_with needle (b :: t)) eqn:Hs.
    + apply starts_with_spec in Hs as [u Hu]. split; [|done]. intros _.
      exists [], u. done.
    + assert (match S <$> find_sub needle t with Some _ => true | None => false end
              = match find_sub needle t with Some _ => true | None => false end) as ->
        by (by destruct (find_sub needle t)).
      rewrite IH. split.
      * intros (u & v & ->). by exists (b :: u), v.
      * intros ([|c u] & v & Hu); simplify_eq/=; [|eauto].
        assert (starts_with needle (b :: t) = true); [|congruence].
        apply starts_with_spec. by exists v.
Qed.

(** ** Ordered maps *)

(** [Ord for str]: lexicographic order of the bytes. *)
Definition str_le (s t : string) : Prop := String.compare s t <> Gt.
#[export] Instance str_le_dec : RelDecision str_le.
Proof. intros s t. unfold str_le. apply _. Defined.
#[export] Instance str_le_total : Total str_le.
Proof.
  intros s t. unfold str_le. rewrite (String.compare_antisym t s).
  destruct (String.compare s t); simpl; [left|left|right]; done.
Qed.

Lemma string_compare_refl s : String.compare s s = Eq.
Proof.
  pose proof (String.compare_antisym s s) as Hs. by destruct (String.compare s s).
Qed.
Lemma string_compare_lt_trans s t u :
  String.compare s t = Lt -> String.compare t u = Lt -> String.compare s u = Lt.
Proof.
  revert t u. induction s as [|a s IH]; intros [|b t] [|c u]; simpl; try done.
  unfold Ascii.compare. destruct (N.compare_spec (Ascii.N_of_ascii a) (Ascii.N_of_ascii b)) as [Hab|Hab|],
    (N.compare_spec (Ascii.N_of_ascii b) (Ascii.N_of_ascii c)) as [Hbc|Hbc|]; try done; intros H1 H2.
  - rewrite Hab, Hbc, N.compare_refl. eauto.
  - rewrite Hab. by apply N.compare_lt_iff in Hbc as ->.
  - rewrite <- Hbc. by apply N.compare_lt_iff in Hab as ->.
  - by rewrite (proj2 (N.compare_lt_iff _ _) (N.lt_trans _ _ _ Hab Hbc)).
Qed.

Definition key_le {V} (x y : string * V) : Prop := str_le x.1 y.1.
#[export] Instance key_le_dec {V} : RelDecision (@key_le V).
Proof. intros x y. unfold key_le. apply _. Defined.
#[export] Instance key_le_total {V} : Total (@key_le V).
Proof. intros x y. apply (total str_le). Qed.

(** Iteration of a [BTreeMap<String, V>]: ascending keys. *)
Definition btree_iter {V} (m : gmap string V) : list (string * V) :=
  merge_sort key_le (map_to_list m).

Lemma btree_iter_Permutation {V} (m : gmap string V) : btree_iter m ≡ₚ map_to_list m.
Proof. apply merge_sort_Permutation. Qed.

Lemma btree_iter_inj {V} (m1 m2 : gmap string V) :
  btree_iter m1 = btree_iter m2 -> m1 = m2.
Proof.
  intros Heq. apply map_to_list_inj.
  by rewrite <- !btree_iter_Permutation, Heq.
Qed.

Lemma elem_of_btree_iter {V} (m : gmap string V) k v :
  (k, v) ∈ btree_iter m <-> m !! k = Some v.
Proof. rewrite btree_iter_Permutation. apply elem_of_map_to_list. Qed.

