(* ===== verification/Secrets.v ===== *)
(** * The secret screen of [stillflow-core/src/error/mod.rs]

    Every value that enters a plan, a schema or an event passes
    [ensure_no_secret_fields]; user-visible messages pass
    [sanitize_message]. *)

From S2P Require Import Prelude Text.

(** [serde_json::Value]: numbers as serde_json keeps them, objects with their
    iteration order. *)
Inductive json_number :=
| PosInt (n : N)
| NegInt (z : Z)
| Float (bits : N).

Inductive json :=
| JNull
| JBool (b : bool)
| JNumber (n : json_number)
| JString (s : string)
| JArray (items : list json)
| JObject (entries : list (string * json)).

Inductive secret_error :=
| EmbeddedSecretField (key : string)
| EmbeddedSecretValue.

Definition SECRET_FIELD_NAMES : list string :=
  ["password"; "secret"; "token"; "api_key"; "apikey"; "access_key";
   "connection_string"].

Definition SECRET_VALUE_MARKERS : list string :=
  ["password="; "token="; "api_key="; "secret="; "bearer "].

Definition names_secret (names : list string) (text : string) : bool :=
  let lower := to_ascii_lowercase (bytes_of text) in
  existsb (fun name => contains_sub (bytes_of name) lower) names.

Arguments names_secret : simpl never.

Definition ensure_safe_string_value (value : string) : result secret_error unit :=
  if names_secret SECRET_VALUE_MARKERS value then Err EmbeddedSecretValue else Ok tt.

Fixpoint ensure_no_secret_fields (value : json) : result secret_error unit :=
  match value with
  | JObject map =>
      (fix go (entries : list (string * json)) : result secret_error unit :=
         match entries with
         | [] => Ok tt
         | (key, item) :: entries =>
             if names_secret SECRET_FIELD_NAMES key
             then Err (EmbeddedSecretField key)
             else try! ensure_no_secret_fields item; go entries
         end) map
  | JArray items =>
      (fix go (items : list json) : result secret_error unit :=
         match items with
         | [] => Ok tt
         | item :: items => try! ensure_no_secret_fields item; go items
         end) items
  | JString text => ensure_safe_string_value text
  | _ => Ok tt
  end.

Definition ensure_safe_event_metadata (value : json) : result secret_error unit :=
  ensure_no_secret_fields value.

(** [serde_json::to_value] of a [BTreeMap<String, String>]. *)
Definition metadata_to_value (metadata : gmap string string) : json :=
  JObject ((fun kv : string * string => (kv.1, JString kv.2)) <$> btree_iter metadata).

(** Offset of the first whitespace character or [';']. *)
Fixpoint find_terminator (t : list N) : option nat :=
  match t with
  | [] => None
  | b :: rest =>
      match whitespace_width t with
      | Some _ => Some 0
      | None => if (b =? 59)%N then Some 0 else S <$> find_terminator rest
      end
  end.

Definition redaction : list N := bytes_of "***".

(** One iteration of the marker loop: redact the value after the first
    occurrence of [marker]. *)
Definition redact_marker (sanitized marker : list N) : list N :=
  match find_sub marker (to_ascii_lowercase sanitized) with
  | Some index =>
      let start := index + length marker in
      let stop := match find_terminator (drop start sanitized) with
                  | Some offset => start + offset
                  | None => length sanitized
                  end in
      take start sanitized ++ redaction ++ drop stop sanitized
  | None => sanitized
  end.

Definition sanitize_message (message : list N) : list N :=
  foldl redact_marker message
    (bytes_of <$> ["password="; "token="; "api_key="; "secret="]).

(** ** The screen decides safety of the whole document *)

(** Induction over documents. *)
Section json_ind.
Context (P : json -> Prop)
  (Hnull : P JNull) (Hbool : forall b, P (JBool b)) (Hnum : forall n, P (JNumber n))
  (Hstr : forall s, P (JString s))
  (Harr : forall items, Forall P items -> P (JArray items))
  (Hobj : forall entries, Forall (fun e => P e.2) entries -> P (JObject entries)).

Fixpoint json_nested_ind (v : json) : P v :=
  match v with
  | JNull => Hnull
  | JBool b => Hbool b
  | JNumber n => Hnum n
  | JString s => Hstr s
  | JArray items => Harr items
      ((fix go l : Forall P l :=
          match l with [] => Forall_nil_2 _ | x :: l => Forall_cons_2 _ _ _ (json_nested_ind x) (go l) end) items)
  | JObject entries => Hobj entries
      ((fix go l : Forall (fun e => P e.2) l :=
          match l with
          | [] => Forall_nil_2 _
          | (k, x) :: l => Forall_cons_2 _ (k, x) _ (json_nested_ind x) (go l)
          end) entries)
  end.
End json_ind.

(** Every object key and every string of a document. *)
Fixpoint json_keys (v : json) : list string :=
  match v with
  | JArray items => items ≫= json_keys
  | JObject entries => entries ≫= (fun e => e.1 :: json_keys e.2)
  | _ => []
  end.
Fixpoint json_strings (v : json) : list string :=
  match v with
  | JString s => [s]
  | JArray items => items ≫= json_strings
  | JObject entries => entries ≫= (fun e => json_strings e.2)
  | _ => []
  end.

Definition embeds (names : list string) (text : string) : Prop :=
  exists name u v, name ∈ names /\
    to_ascii_lowercase (bytes_of text) = u ++ bytes_of name ++ v.

Lemma names_secret_spec names text : names_secret names text = true <-> embeds names text.
Proof.
  unfold names_secret, embeds. rewrite existsb_exists.
  setoid_rewrite contains_sub_spec. setoid_rewrite <- list_elem_of_In. naive_solver.
Qed.

Lemma ensure_safe_string_value_Ok s :
  ensure_safe_string_value s = Ok tt <-> ~ embeds SECRET_VALUE_MARKERS s.
Proof.
  unfold ensure_safe_string_value. rewrite <- names_secret_spec.
  by destruct (names_secret SECRET_VALUE_MARKERS s).
Qed.

Definition json_safe (v : json) : Prop :=
  (forall k, k ∈ json_keys v -> ~ embeds SECRET_FIELD_NAMES k) /\
  (forall s, s ∈ json_strings v -> ~ embeds SECRET_VALUE_MARKERS s).

(** The document screen accepts exactly the documents in which no object key,
    at any depth, contains a secret field name and no string, at any depth,
    contains a secret marker, ignoring ASCII case. *)
Theorem ensure_no_secret_fields_exact v :
  ensure_no_secret_fields v = Ok tt <-> json_safe v.
Proof.
  unfold json_safe.
  induction v as [|b|n|s|items IH|entries IH] using json_nested_ind; simpl;
    try (split; [set_solver|done]).
  - rewrite ensure_safe_string_value_Ok. set_solver.
  - induction IH as [|x items Hx _ IHl]; simpl; [split; [set_solver|done]|].
    rewrite bind_Ok. setoid_rewrite elem_of_app. split.
    + intros ([] & ?%Hx & ?%IHl). naive_solver.
    + intros [Hk Hs]. exists tt. rewrite Hx. split; [naive_solver|].
      apply IHl. naive_solver.
  - induction IH as [|[k x] entries Hx _ IHl]; simpl in *; [split; [set_solver|done]|].
    setoid_rewrite elem_of_cons. setoid_rewrite elem_of_app.
    destruct (names_secret SECRET_FIELD_NAMES k) eqn:Hn.
    + split; [done|]. intros [Hk _]. apply names_secret_spec in Hn. naive_solver.
    + assert (~ embeds SECRET_FIELD_NAMES k)
        by (rewrite <- names_secret_spec; congruence).
      rewrite bind_Ok. split.
      * intros ([] & ?%Hx & ?%IHl). naive_solver.
      * intros [Hk Hs]. exists tt. rewrite Hx. split; [naive_solver|].
        apply IHl. naive_solver.
Qed.

(** Metadata maps. *)
Definition metadata_safe (m : gmap string string) : Prop :=
  map_Forall (fun k v => ~ embeds SECRET_FIELD_NAMES k /\
                         ~ embeds SECRET_VALUE_MARKERS v) m.

Lemma metadata_screen m :
  ensure_no_secret_fields (metadata_to_value m) = Ok tt <-> metadata_safe m.
Proof.
  rewrite ensure_no_secret_fields_exact. unfold json_safe, metadata_safe, map_Forall.
  setoid_rewrite <- elem_of_btree_iter. simpl.
  setoid_rewrite list_elem_of_bind. setoid_rewrite list_elem_of_fmap. simpl. split.
  - intros [Hk Hs] k v Hkv. split.
    + apply Hk. exists (k, JString v). split; [set_solver|]. by exists (k, v).
    + apply Hs. exists (k, JString v). split; [set_solver|]. by exists (k, v).
  - intros Hm. split.
    + intros k ([k' v] & Hin & ([k'' v'] & [= -> ->] & Hkv)). simpl in *.
      apply Hm in Hkv. set_solver.
    + intros s ([k' v] & Hin & ([k'' v'] & [= -> ->] & Hkv)). simpl in *.
      apply Hm in Hkv. set_solver.
Qed.

#[export] Instance embeds_dec names text : Decision (embeds names text).
Proof. refine (cast_if (decide (names_secret names text = true))); by rewrite <- names_secret_spec. Defined.

(** ** Redaction *)

(** A message without markers is untouched, and the first occurrence of a
    marker keeps its value out of the result: the value up to the next
    whitespace or [';'] is replaced by [***]. *)
Theorem redact_marker_first pre value rest marker :
  find_sub marker (to_ascii_lowercase (pre ++ value ++ rest)) =
    Some (length pre - length marker) ->
  length marker <= length pre ->
  find_terminator (value ++ rest) = Some (length value) ->
  redact_marker (pre ++ value ++ rest) marker = pre ++ redaction ++ rest.
Proof.
  intros Hf Hl Ht. unfold redact_marker. rewrite Hf.
  replace (length pre - length marker + length marker) with (length pre) by lia.
  rewrite drop_app_length, Ht, take_app_length. do 2 f_equal.
  rewrite app_assoc, <- length_app. by rewrite drop_app_length.
Qed.

(** Only the first occurrence of each marker is redacted: the second value
    reaches the user. *)
Theorem sanitize_message_leaks_second :
  sanitize_message (bytes_of "token=a1; retry token=b2") =
  bytes_of "token=***; retry token=b2".
Proof. vm_compute. reflexivity. Qed.
