(* ===== verification/Logical.v ===== *)
(** * Logical types: [stillflow-core/src/logical.rs]

    The type language of schemas and expressions and its widening operation
    [least_upper_bound].  [Widens] is the declarative order of widening; the
    code computes its joins, and the laws of a partial semilattice are proved
    on all types, nested ones included. *)

From S2P Require Import Prelude Text Secrets.

(** ** Data *)

(** A UUID is its [u128] value; column ids are UUIDs. *)
Definition Uuid := N.
Definition ColumnId := Uuid.
Definition uuid_bound : N := 2 ^ 128.
Definition is_nil (id : Uuid) : bool := (id =? 0)%N.
#[export] Instance Uuid_eq_dec : EqDecision Uuid := N.eq_dec.
#[export] Instance Uuid_countable : Countable Uuid := N_countable.
#[export] Instance ColumnId_eq_dec : EqDecision ColumnId := N.eq_dec.
#[export] Instance ColumnId_countable : Countable ColumnId := N_countable.

Inductive TimeUnit := Second | Millisecond | Microsecond | Nanosecond.
#[export] Instance TimeUnit_eq_dec : EqDecision TimeUnit.
Proof. solve_decision. Defined.

(** [LogicalField], open in the type of its [data_type]. *)
Record Field (T : Type) := mkField {
  id : ColumnId;
  name : string;
  data_type : T;
  nullable : bool;
  metadata : gmap string string;
}.
Arguments mkField {T}.
Arguments id {T}.
Arguments name {T}.
Arguments data_type {T}.
Arguments nullable {T}.
Arguments metadata {T}.

Inductive LogicalType :=
| TNull
| TBoolean
| TInt8
| TInt16
| TInt32
| TInt64
| TUInt8
| TUInt16
| TUInt32
| TUInt64
| TFloat32
| TFloat64
| TUtf8
| TBinary
| TDate32
| TTimestamp (unit : TimeUnit) (timezone : option string)
| TList (element : LogicalType)
| TStruct (fields : list (Field LogicalType)).

Notation LogicalField := (Field LogicalType).

Section LogicalType_ind.
Context (P : LogicalType -> Prop)
  (Hatom : forall t, (forall e, t <> TList e) -> (forall fs, t <> TStruct fs) -> P t)
  (Hlist : forall e, P e -> P (TList e))
  (Hstruct : forall fs, Forall (fun f => P (data_type f)) fs -> P (TStruct fs)).

Fixpoint LogicalType_nested_ind (t : LogicalType) : P t.
Proof.
  refine (match t return P t with
  | TList e => Hlist e (LogicalType_nested_ind e)
  | TStruct fs => Hstruct fs
      ((fix go l : Forall (fun f : LogicalField => P (data_type f)) l :=
          match l with
          | [] => Forall_nil_2 _
          | mkField i n d u m :: l =>
              Forall_cons_2 _ (mkField i n d u m) _ (LogicalType_nested_ind d) (go l)
          end) fs)
  | _ => Hatom _ _ _
  end); discriminate.
Defined.
End LogicalType_ind.

(** Decidable equality ([derive(PartialEq, Eq)]). *)
Definition list_eqb {A} (eqb : A -> A -> bool) : list A -> list A -> bool :=
  fix go l k :=
    match l, k with
    | [], [] => true
    | a :: l, b :: k => eqb a b && go l k
    | _, _ => false
    end.
Definition field_eqb {T} (eqb : T -> T -> bool) (f g : Field T) : bool :=
  match f, g with
  | mkField i n d u m, mkField i' n' d' u' m' =>
      bool_decide (i = i') && bool_decide (n = n') && eqb d d'
      && bool_decide (u = u') && bool_decide (m = m')
  end.
Fixpoint type_eqb (s t : LogicalType) : bool :=
  match s, t with
  | TNull, TNull | TBoolean, TBoolean | TInt8, TInt8 | TInt16, TInt16
  | TInt32, TInt32 | TInt64, TInt64 | TUInt8, TUInt8 | TUInt16, TUInt16
  | TUInt32, TUInt32 | TUInt64, TUInt64 | TFloat32, TFloat32
  | TFloat64, TFloat64 | TUtf8, TUtf8 | TBinary, TBinary
  | TDate32, TDate32 => true
  | TTimestamp u z, TTimestamp u' z' => bool_decide (u = u') && bool_decide (z = z')
  | TList s, TList t => type_eqb s t
  | TStruct fs, TStruct gs => list_eqb (field_eqb type_eqb) fs gs
  | _, _ => false
  end.

Lemma type_eqb_spec s t : type_eqb s t = true <-> s = t.
Proof.
  revert t. induction s as [s Hl Hs|s IH|fs IH] using LogicalType_nested_ind; intros t.
  - destruct s, t; simpl; try (by split); try (by rewrite ?andb_true_iff, ?bool_decide_eq_true; naive_solver).
  - destruct t; simpl; rewrite ?IH; naive_solver.
  - destruct t as [| | | | | | | | | | | | | | | | |gs]; simpl; try naive_solver.
    transitivity (fs = gs); [|naive_solver]. revert gs.
    induction IH as [|[i n d u m] fs Hf _ IHf]; intros [|[i' n' d' u' m'] gs];
      simpl in *; try naive_solver.
    rewrite andb_true_iff, IHf, !andb_true_iff, !bool_decide_eq_true, Hf. naive_solver.
Qed.

#[export] Instance LogicalType_eq_dec : EqDecision LogicalType.
Proof. intros s t. refine (cast_if (decide (type_eqb s t = true))); by rewrite <- type_eqb_spec. Defined.
#[export] Instance Field_eq_dec {T} `{EqDecision T} : EqDecision (Field T).
Proof. solve_decision. Defined.

(** The variants of [LogicalError]. *)
Inductive LogicalError :=
| UnsupportedSchemaVersion (version : N)
| EmptyColumnName (column : ColumnId)
| DuplicateColumnId (column : ColumnId)
| DuplicateColumnName (column_name : string)
| UnknownColumn (column : ColumnId)
| IncompatibleTypes (left right : LogicalType)
| EmptyTimezone
| SchemaNestingDepthExceeded (depth maximum : N)
| SchemaFieldLimitExceeded (fields maximum : N)
| SchemaTextLimitExceeded (bytes maximum : N)
| UnsafeMetadata
| CanonicalEncodingOverflow
| NonFiniteFloat
| EmptyCoalesce
| SubstringStartBelowOne
| UnsafeLiteral.
#[export] Instance LogicalError_eq_dec : EqDecision LogicalError.
Proof. solve_decision. Defined.

(** ** Widening *)

Definition unit_rank (u : TimeUnit) : nat :=
  match u with Second => 0 | Millisecond => 1 | Microsecond => 2 | Nanosecond => 3 end.
(** [Ord::max] on units, ordered from coarsest to finest. *)
Definition unit_max (u v : TimeUnit) : TimeUnit :=
  if unit_rank u <=? unit_rank v then v else u.

Definition signed_rank (t : LogicalType) : option N :=
  match t with
  | TInt8 => Some 8%N | TInt16 => Some 16%N | TInt32 => Some 32%N | TInt64 => Some 64%N
  | _ => None
  end.
Definition signed_type (rank : N) : LogicalType :=
  match rank with 8%N => TInt8 | 16%N => TInt16 | 32%N => TInt32 | _ => TInt64 end.
Definition unsigned_rank (t : LogicalType) : option N :=
  match t with
  | TUInt8 => Some 8%N | TUInt16 => Some 16%N | TUInt32 => Some 32%N | TUInt64 => Some 64%N
  | _ => None
  end.
Definition unsigned_type (rank : N) : LogicalType :=
  match rank with 8%N => TUInt8 | 16%N => TUInt16 | 32%N => TUInt32 | _ => TUInt64 end.
Definition float_rank (t : LogicalType) : option N :=
  match t with TFloat32 => Some 32%N | TFloat64 => Some 64%N | _ => None end.
Definition some_bool {A} (o : option A) : bool := match o with Some _ => true | None => false end.
Definition is_numeric (t : LogicalType) : bool :=
  some_bool (signed_rank t) || some_bool (unsigned_rank t) || some_bool (float_rank t).
Definition is_null_type (t : LogicalType) : bool := match t with TNull => true | _ => false end.

(** The struct branch: positional join of equally long field lists whose
    identities, names and metadata agree. *)
Section join_struct_fields.
Context (least_upper_bound : LogicalType -> LogicalType -> result LogicalError LogicalType).

Definition join_field (incompatible : LogicalError) (left_field right_field : LogicalField)
  : result LogicalError LogicalField :=
  match left_field, right_field with
  | mkField lid lname ltype lnull lmeta, mkField rid rname rtype rnull rmeta =>
      if negb (bool_decide (lid = rid)) || negb (bool_decide (lname = rname))
         || negb (bool_decide (lmeta = rmeta))
      then Err incompatible
      else t ← least_upper_bound ltype rtype;
           Ok (mkField lid lname t (lnull || rnull) lmeta)
  end.

Definition join_struct_fields (left right : list LogicalField)
  : result LogicalError (list LogicalField) :=
  let incompatible := IncompatibleTypes (TStruct left) (TStruct right) in
  if negb (length left =? length right) then Err incompatible
  else (fix go (l r : list LogicalField) : result LogicalError (list LogicalField) :=
          match l, r with
          | lf :: l, rf :: r =>
              f ← join_field incompatible lf rf; fs ← go l r; Ok (f :: fs)
          | _, _ => Ok []
          end) left right.
End join_struct_fields.

Fixpoint least_upper_bound (self other : LogicalType) : result LogicalError LogicalType :=
  if type_eqb self other then Ok self
  else if is_null_type self then Ok other
  else if is_null_type other then Ok self
  else
    match signed_rank self, signed_rank other with
    | Some l, Some r => Ok (signed_type (N.max l r))
    | _, _ =>
    match unsigned_rank self, unsigned_rank other with
    | Some l, Some r => Ok (unsigned_type (N.max l r))
    | _, _ =>
    match float_rank self, float_rank other with
    | Some l, Some r => Ok (if (N.max l r =? 32)%N then TFloat32 else TFloat64)
    | _, _ =>
    if is_numeric self && is_numeric other then Ok TFloat64
    else
      let incompatible := Err (IncompatibleTypes self other) in
      match self, other with
      | TTimestamp lu lz, TTimestamp ru rz =>
          if bool_decide (lz = rz) then Ok (TTimestamp (unit_max lu ru) lz)
          else incompatible
      | TList l, TList r => TList <$> least_upper_bound l r
      | TStruct l, TStruct r => TStruct <$> join_struct_fields least_upper_bound l r
      | TBoolean, TBoolean | TUtf8, TUtf8 | TBinary, TBinary | TDate32, TDate32 => Ok self
      | _, _ => incompatible
      end
    end end end.

(** ** The widening order

    [Widens a b]: every value of [a] is a value of [b] without loss of
    declared precision.  This is the specification [least_upper_bound] is
    measured against. *)

Definition is_plain (t : LogicalType) : bool :=
  match t with TBoolean | TUtf8 | TBinary | TDate32 => true | _ => false end.

Inductive Widens : LogicalType -> LogicalType -> Prop :=
| W_null t : Widens TNull t
| W_signed a b l r :
    signed_rank a = Some l -> signed_rank b = Some r -> (l <= r)%N -> Widens a b
| W_unsigned a b l r :
    unsigned_rank a = Some l -> unsigned_rank b = Some r -> (l <= r)%N -> Widens a b
| W_float a b l r :
    float_rank a = Some l -> float_rank b = Some r -> (l <= r)%N -> Widens a b
| W_to_float64 a : is_numeric a = true -> Widens a TFloat64
| W_plain t : is_plain t = true -> Widens t t
| W_timestamp u v z :
    unit_rank u <= unit_rank v -> Widens (TTimestamp u z) (TTimestamp v z)
| W_list a b : Widens a b -> Widens (TList a) (TList b)
| W_struct fs gs :
    Forall2 (fun f g => id f = id g /\ name f = name g /\ metadata f = metadata g /\
                        (nullable f = true -> nullable g = true) /\
                        Widens (data_type f) (data_type g)) fs gs ->
    Widens (TStruct fs) (TStruct gs).
#[export] Hint Constructors Widens : stillflow.

Definition field_widens (f g : LogicalField) : Prop :=
  id f = id g /\ name f = name g /\ metadata f = metadata g /\
  (nullable f = true -> nullable g = true) /\ Widens (data_type f) (data_type g).

(** Inversion for the nested cases. *)
Lemma Widens_list_l a t : Widens (TList a) t -> exists b, t = TList b /\ Widens a b.
Proof. inversion 1; simplify_eq/=; eauto. Qed.
Lemma Widens_struct_l fs t :
  Widens (TStruct fs) t -> exists gs, t = TStruct gs /\ Forall2 field_widens fs gs.
Proof. inversion 1; simplify_eq/=; eauto. Qed.
Lemma Widens_timestamp_l u z t :
  Widens (TTimestamp u z) t -> exists v, t = TTimestamp v z /\ unit_rank u <= unit_rank v.
Proof. inversion 1; simplify_eq/=; eauto. Qed.

(** Widening of two atoms, decided. *)
Definition atom_le (a b : LogicalType) : bool :=
  match a, b with
  | TNull, _ => true
  | TTimestamp u z, TTimestamp v w =>
      (unit_rank u <=? unit_rank v) && bool_decide (z = w)
  | _, _ =>
      match signed_rank a, signed_rank b with
      | Some l, Some r => (l <=? r)%N
      | _, _ =>
      match unsigned_rank a, unsigned_rank b with
      | Some l, Some r => (l <=? r)%N
      | _, _ =>
      match float_rank a, float_rank b with
      | Some l, Some r => (l <=? r)%N
      | _, _ => is_numeric a && type_eqb b TFloat64 || is_plain a && type_eqb a b
      end end end
  end.
Definition is_atom (t : LogicalType) : bool :=
  match t with TList _ | TStruct _ => false | _ => true end.

Lemma atom_le_spec a b : is_atom a = true -> Widens a b <-> atom_le a b = true.
Proof.
  intros Ha. split.
  - destruct 1 as [t| | | |t|t Ht|u v z Hle| |]; simplify_eq/=; try done.
    + destruct a, b; simplify_eq/=; done.
    + destruct a, b; simplify_eq/=; done.
    + destruct a, b; simplify_eq/=; done.
    + by destruct t.
    + by destruct t.
    + rewrite andb_true_iff, bool_decide_eq_true, Nat.leb_le. done.
  - destruct a; simplify_eq/=; try (by constructor);
      destruct b; simpl; intros Hb; try done;
      try (by apply andb_true_iff in Hb as [Hb%Nat.leb_le Hz%bool_decide_eq_true];
              subst; constructor);
      try (by eapply W_signed); try (by eapply W_unsigned);
      try (by eapply W_float); by constructor.
Qed.

#[export] Instance Widens_refl : Reflexive Widens.
Proof.
  intros t. induction t as [t Hl Hs|t IH|fs IH] using LogicalType_nested_ind.
  - assert (is_atom t = true) as Ha by (destruct t; naive_solver).
    apply atom_le_spec; [done|]. destruct t; try done.
    simpl. rewrite andb_true_iff, bool_decide_eq_true, Nat.leb_le. done.
  - by apply W_list.
  - apply W_struct. by induction IH; constructor; auto 10.
Qed.

Lemma atom_le_atom a b : a <> TNull -> atom_le a b = true -> is_atom b = true.
Proof. by destruct a, b. Qed.

Lemma atom_le_trans a b c : atom_le a b = true -> atom_le b c = true -> atom_le a c = true.
Proof.
  destruct (decide (a = TNull)) as [->|Ha]; [done|]. intros Hab.
  destruct a, b; try done; simpl in *; destruct c; simpl; try done.
  rewrite !andb_true_iff, !bool_decide_eq_true, !Nat.leb_le in *.
  naive_solver lia.
Qed.

#[export] Instance Widens_trans : Transitive Widens.
Proof.
  intros a. induction a as [a Hl Hs|a IH|fs IH] using LogicalType_nested_ind;
    intros b c Hab Hbc.
  - destruct (decide (a = TNull)) as [->|Hn]; [constructor|].
    assert (is_atom a = true) as Ha by (destruct a; naive_solver).
    apply (atom_le_spec a) in Hab; [|done].
    assert (is_atom b = true) as Hb by (by eapply atom_le_atom).
    apply (atom_le_spec b) in Hbc; [|done].
    apply (atom_le_spec a); [done|]. by eapply atom_le_trans.
  - apply Widens_list_l in Hab as (b' & -> & Hab).
    apply Widens_list_l in Hbc as (c' & -> & Hbc). apply W_list. eauto.
  - apply Widens_struct_l in Hab as (gs & -> & Hab).
    apply Widens_struct_l in Hbc as (hs & -> & Hbc). apply W_struct.
    revert gs hs Hab Hbc.
    induction IH as [|f fs Hf _ IHf]; intros gs hs Hab Hbc.
    + apply Forall2_nil_inv_l in Hab as ->. by apply Forall2_nil_inv_l in Hbc as ->.
    + apply Forall2_cons_inv_l in Hab as (g & gs' & (?&?&?&?&?) & Hab & ->).
      apply Forall2_cons_inv_l in Hbc as (h & hs' & (?&?&?&?&?) & Hbc & ->).
      constructor; [|by eapply IHf]. split_and!; try congruence; naive_solver.
Qed.

#[export] Instance Widens_antisymm : AntiSymm (=) Widens.
Proof.
  intros a. induction a as [a Hl Hs|a IH|fs IH] using LogicalType_nested_ind;
    intros b Hab Hba.
  - assert (is_atom a = true) as Ha by (destruct a; naive_solver).
    apply (atom_le_spec a) in Hab; [|done].
    destruct (decide (is_atom b = true)) as [Hb|Hb].
    + apply (atom_le_spec b) in Hba; [|done].
      destruct a, b; try done; simpl in *.
      rewrite !andb_true_iff, !bool_decide_eq_true, !Nat.leb_le in *.
      destruct Hab as [Hu ->], Hba as [Hv _]. f_equal.
      destruct unit, unit0; simpl in *; done || lia.
    + destruct b; simplify_eq/=; inversion Hba; by simplify_eq/=.
  - apply Widens_list_l in Hab as (b' & -> & Hab).
    apply Widens_list_l in Hba as (c' & [= <-] & Hba). f_equal. eauto.
  - apply Widens_struct_l in Hab as (gs & -> & Hab).
    apply Widens_struct_l in Hba as (hs & [= <-] & Hba). f_equal.
    revert gs Hab Hba. induction IH as [|f fs Hf _ IHf]; intros gs Hab Hba.
    + by apply Forall2_nil_inv_l in Hab as ->.
    + apply Forall2_cons_inv_l in Hab as (g & gs' & (?&?&?&Hn&?) & Hab & ->).
      apply Forall2_cons in Hba as [(?&?&?&Hn'&?) Hba]. f_equal; [|by apply IHf].
      assert (data_type f = data_type g) by eauto.
      destruct f as [i n d u m], g as [i' n' d' u' m']; simpl in *; subst.
      f_equal. destruct u, u'; naive_solver.
Qed.

Definition is_join (a b c : LogicalType) : Prop :=
  Widens a c /\ Widens b c /\ forall d, Widens a d -> Widens b d -> Widens c d.

Lemma numeric_join a b :
  is_numeric a = true -> is_numeric b = true ->
  exists c, least_upper_bound a b = Ok c /\ is_join a b c.
Proof.
  intros Ha Hb.
  assert (forall x, is_numeric x = true -> is_atom x = true) as Hat by (by intros []).
  destruct a; try discriminate Ha; destruct b; try discriminate Hb;
    (eexists; split; [reflexivity|]);
    (split_and!; [by apply atom_le_spec|by apply atom_le_spec|]);
    intros d; rewrite !atom_le_spec by done; by destruct d.
Qed.

(** ** [least_upper_bound] computes the join of the widening order *)

Lemma type_eqb_refl t : type_eqb t t = true.
Proof. by apply type_eqb_spec. Qed.
Lemma type_eqb_ne s t : s <> t -> type_eqb s t = false.
Proof. rewrite <- type_eqb_spec. by destruct (type_eqb s t). Qed.

(** Unfold one call of [least_upper_bound], keeping the equality test. *)
Ltac lub_step :=
  cbn [least_upper_bound is_null_type signed_rank unsigned_rank float_rank
       is_numeric some_bool orb andb].

Lemma lub_refl t : least_upper_bound t t = Ok t.
Proof. destruct t; lub_step; by rewrite type_eqb_refl. Qed.
Lemma lub_null_r t : least_upper_bound t TNull = Ok t.
Proof. by destruct t. Qed.
Lemma lub_list s t : least_upper_bound (TList s) (TList t) = TList <$> least_upper_bound s t.
Proof.
  destruct (decide (s = t)) as [->|Hne]; [by rewrite !lub_refl|].
  lub_step. by rewrite type_eqb_ne by congruence.
Qed.
Lemma lub_struct fs gs :
  fs <> gs ->
  least_upper_bound (TStruct fs) (TStruct gs) =
  TStruct <$> join_struct_fields least_upper_bound fs gs.
Proof.
  intros Hne. lub_step. by rewrite type_eqb_ne by congruence.
Qed.

Lemma is_join_refl t : is_join t t t.
Proof. by split_and!. Qed.
Lemma is_join_null_l t : is_join TNull t t.
Proof. split_and!; [constructor|done|done]. Qed.
Lemma is_join_null_r t : is_join t TNull t.
Proof. split_and!; [done|constructor|done]. Qed.
Lemma is_join_comm a b c : is_join a b c -> is_join b a c.
Proof. unfold is_join. naive_solver. Qed.

(** The struct case, field by field. *)
Definition field_join (f g h : LogicalField) : Prop :=
  field_widens f h /\ field_widens g h /\
  forall k, field_widens f k -> field_widens g k -> field_widens h k.

Definition lub_sound_at (a : LogicalType) : Prop := forall b,
  match least_upper_bound a b with
  | Ok c => is_join a b c
  | Err _ => forall d, Widens a d -> ~ Widens b d
  end.

Lemma join_field_sound e f g :
  lub_sound_at (data_type f) ->
  match join_field least_upper_bound e f g with
  | Ok h => field_join f g h
  | Err _ => forall k, field_widens f k -> ~ field_widens g k
  end.
Proof.
  destruct f as [i n d u m], g as [i' n' d' u' m']. simpl. intros Hd.
  repeat case_bool_decide; simpl;
    try (intros [i'' n'' d'' u'' m''] (?&?&?&_) (?&?&?&_); simpl in *; congruence).
  subst. specialize (Hd d'). destruct (least_upper_bound d d') as [t|]; simpl.
  - destruct Hd as (Hl & Hr & Hm). split_and!.
    + split_and!; simpl; try done. by intros ->.
    + split_and!; simpl; try done. intros ->. apply orb_true_r.
    + intros k (?&?&?&?&?) (?&?&?&?&?). split_and!; simpl in *; try done.
      * rewrite orb_true_iff. naive_solver.
      * auto.
  - intros k (_&_&_&_&?) (_&_&_&_&?). by eapply Hd.
Qed.

Lemma join_struct_fields_sound fs gs :
  Forall (fun f => lub_sound_at (data_type f)) fs ->
  match join_struct_fields least_upper_bound fs gs with
  | Ok hs => is_join (TStruct fs) (TStruct gs) (TStruct hs)
  | Err _ => forall d, Widens (TStruct fs) d -> ~ Widens (TStruct gs) d
  end.
Proof.
  intros IH. unfold join_struct_fields.
  destruct (Nat.eqb_spec (length fs) (length gs)) as [Hlen|Hlen]; simpl; last first.
  { intros d (hs & -> & Hf)%Widens_struct_l (hs' & [= <-] & Hg)%Widens_struct_l.
    apply Forall2_length in Hf, Hg. congruence. }
  generalize (IncompatibleTypes (TStruct fs) (TStruct gs)); intros e.
  match goal with |- match ?go fs gs with _ => _ end => set (loop := go) end.
  enough (match loop fs gs with
          | Ok hs => Forall2 field_widens fs hs /\ Forall2 field_widens gs hs /\
              forall ks, Forall2 field_widens fs ks -> Forall2 field_widens gs ks ->
                         Forall2 field_widens hs ks
          | Err _ => forall ks, Forall2 field_widens fs ks -> ~ Forall2 field_widens gs ks
          end) as Hloop.
  { destruct (loop fs gs) as [hs|].
    - destruct Hloop as (Hf & Hg & Hm). split_and!; [by apply W_struct|by apply W_struct|].
      intros d (ks & -> & Hfk)%Widens_struct_l (ks' & [= <-] & Hgk)%Widens_struct_l.
      apply W_struct. by apply Hm.
    - intros d (ks & -> & Hfk)%Widens_struct_l (ks' & [= <-] & Hgk)%Widens_struct_l.
      by eapply Hloop. }
  revert gs Hlen. induction IH as [|f fs Hf _ IHf]; intros [|g gs] Hlen; simplify_eq/=.
  { split_and!; [constructor|constructor|done]. }
  pose proof (join_field_sound e f g Hf) as Hfg. specialize (IHf gs Hlen).
  destruct (join_field least_upper_bound e f g) as [h|]; simpl; last first.
  { intros ks (k & ks' & ? & ? & ->)%Forall2_cons_inv_l [? ?]%Forall2_cons. by eapply Hfg. }
  fold loop in IHf |- *. destruct (loop fs gs) as [hs|]; simpl; last first.
  { intros ks (k & ks' & ? & ? & ->)%Forall2_cons_inv_l [? ?]%Forall2_cons. by eapply IHf. }
  destruct Hfg as (?&?&Hm), IHf as (?&?&IHm). split_and!; [by constructor|by constructor|].
  intros ks (k & ks' & ? & ? & ->)%Forall2_cons_inv_l [? ?]%Forall2_cons.
  constructor; [by apply Hm|by apply IHm].
Qed.

(** Types of different shapes have no common upper bound. *)
Definition shape (t : LogicalType) : nat :=
  match t with
  | TNull => 0 | TBoolean => 1 | TUtf8 => 2 | TBinary => 3 | TDate32 => 4
  | TTimestamp _ _ => 5 | TList _ => 6 | TStruct _ => 7 | _ => 8
  end.

Lemma Widens_shape a b : a <> TNull -> Widens a b -> shape a = shape b.
Proof.
  intros Ha. destruct 1 as [|a b l r H1 H2|a b l r H1 H2|a b l r H1 H2|a H1| | | |]; try done.
  - by destruct a, b.
  - by destruct a, b.
  - by destruct a, b.
  - by destruct a.
Qed.

Lemma shape_clash a b d :
  a <> TNull -> b <> TNull -> shape a <> shape b -> Widens a d -> ~ Widens b d.
Proof.
  intros Ha Hb Hs Had%Widens_shape Hbd%Widens_shape; [congruence|done|done].
Qed.

Lemma lub_shape a b :
  a <> TNull -> b <> TNull -> shape a <> shape b -> exists e, least_upper_bound a b = Err e.
Proof.
  intros Ha Hb Hs. destruct a, b; simplify_eq/=; eauto.
Qed.

Lemma lub_timestamp u z v w :
  least_upper_bound (TTimestamp u z) (TTimestamp v w) =
  if bool_decide (z = w) then Ok (TTimestamp (unit_max u v) z)
  else Err (IncompatibleTypes (TTimestamp u z) (TTimestamp v w)).
Proof.
  lub_step. destruct (type_eqb (TTimestamp u z) (TTimestamp v w)) eqn:He; [|done].
  apply type_eqb_spec in He as [= -> ->]. rewrite bool_decide_true by done.
  by destruct v.
Qed.

Lemma lub_sound a : lub_sound_at a.
Proof.
  induction a as [a Hl Hs|a IH|fs IH] using LogicalType_nested_ind; intros b.
  all: destruct (decide (b = TNull)) as [->|Hb];
    [rewrite lub_null_r; apply is_join_null_r|].
  - destruct (decide (a = TNull)) as [->|Ha]; [destruct b; apply is_join_null_l|].
    destruct (decide (shape a = shape b)) as [Hsh|Hsh]; last first.
    { destruct (lub_shape a b) as [e ->]; try done. intros d. by apply shape_clash. }
    destruct (is_numeric a) eqn:Hna.
    { destruct (numeric_join a b) as (c & -> & ?); [done|by destruct a, b|done]. }
    destruct a; try discriminate Hna; try done; destruct b; try discriminate Hsh;
      try apply is_join_refl; try naive_solver.
    rewrite lub_timestamp. case_bool_decide; subst.
    + split_and!; [apply W_timestamp; by destruct unit, unit0; simpl; lia..|].
      intros d (v & -> & ?)%Widens_timestamp_l (v' & [= <-] & ?)%Widens_timestamp_l.
      apply W_timestamp. by destruct unit, unit0.
    + intros d (v & -> & ?)%Widens_timestamp_l (v' & ? & ?)%Widens_timestamp_l. congruence.
  - destruct (decide (shape (TList a) = shape b)) as [Hsh|Hsh]; last first.
    { destruct (lub_shape (TList a) b) as [e ->]; try done. intros d. by apply shape_clash. }
    destruct b as [| | | | | | | | | | | | | | | |b|]; try discriminate Hsh.
    rewrite lub_list. specialize (IH b). destruct (least_upper_bound a b) as [c|]; simpl.
    + destruct IH as (?&?&Hm). split_and!; [by apply W_list|by apply W_list|].
      intros d (d' & -> & ?)%Widens_list_l (d'' & [= <-] & ?)%Widens_list_l.
      apply W_list. by apply Hm.
    + intros d (d' & -> & ?)%Widens_list_l (d'' & [= <-] & ?)%Widens_list_l.
      by eapply IH.
  - destruct (decide (shape (TStruct fs) = shape b)) as [Hsh|Hsh]; last first.
    { destruct (lub_shape (TStruct fs) b) as [e ->]; try done. intros d. by apply shape_clash. }
    destruct b as [| | | | | | | | | | | | | | | | |gs]; try discriminate Hsh.
    destruct (decide (fs = gs)) as [->|Hne]; [rewrite lub_refl; apply is_join_refl|].
    rewrite lub_struct by done. pose proof (join_struct_fields_sound fs gs IH) as Hj.
    by destruct (join_struct_fields least_upper_bound fs gs).
Qed.

Lemma lub_is_join a b c : least_upper_bound a b = Ok c <-> is_join a b c.
Proof.
  pose proof (lub_sound a b) as Hs. split; [intros Hc; by rewrite Hc in Hs|].
  intros (Ha & Hb & Hm). destruct (least_upper_bound a b) as [c'|e].
  - f_equal. destruct Hs as (?&?&Hm'). apply (anti_symm Widens); auto.
  - by destruct (Hs c).
Qed.

Lemma lub_comm a b c : least_upper_bound a b = Ok c -> least_upper_bound b a = Ok c.
Proof. rewrite !lub_is_join. apply is_join_comm. Qed.

(** A join exists as soon as there is a common upper bound. *)
Lemma lub_total a b d :
  Widens a d -> Widens b d -> exists c, least_upper_bound a b = Ok c /\ Widens c d.
Proof.
  intros Ha Hb. pose proof (lub_sound a b) as Hs.
  destruct (least_upper_bound a b) as [c|]; [|by destruct (Hs d)].
  exists c. split; [done|]. by apply Hs.
Qed.

Lemma is_join_assoc a b c ab d :
  is_join a b ab -> is_join ab c d -> exists bc, is_join b c bc /\ is_join a bc d.
Proof.
  intros (Ha & Hb & Hm) (Hab & Hc & Hm').
  destruct (lub_total b c d) as (bc & Hbc & Hbcd); [by etransitivity|done|].
  apply lub_is_join in Hbc as (Hb' & Hc' & Hm''). exists bc. split; [by split_and!|].
  split_and!; [by etransitivity|done|]. intros k Hak Hbck. apply Hm'.
  - apply Hm; [done|by etransitivity].
  - by etransitivity.
Qed.

(** C1: widening is exactly the join of the declared widening order: the code
    returns [c] if and only if [c] is the least type both operands widen
    to, for every pair of types, lists and structs included; and it returns
    an error exactly when the operands have no common wider type. *)
Theorem least_upper_bound_is_join a b :
  (forall c, least_upper_bound a b = Ok c <-> is_join a b c) /\
  ((exists e, least_upper_bound a b = Err e) <-> forall d, ~ (Widens a d /\ Widens b d)).
Proof.
  split; [intros c; apply lub_is_join|].
  pose proof (lub_sound a b) as Hs. destruct (least_upper_bound a b) as [c|e].
  - split; [by intros [? ?]|]. intros Hn. destruct (Hn c). by destruct Hs as (?&?&_).
  - split; [|eauto]. intros _ d [? ?]. by eapply Hs.
Qed.

(** Widening is a partial semilattice on all types, not only the atomic
    ones: idempotent with [Null] as unit, commutative and associative, each
    law holding in definedness as well as in value. *)
Theorem least_upper_bound_semilattice a b c d :
  least_upper_bound a a = Ok a /\
  least_upper_bound TNull a = Ok a /\
  (least_upper_bound a b = Ok c <-> least_upper_bound b a = Ok c) /\
  ((exists ab, least_upper_bound a b = Ok ab /\ least_upper_bound ab c = Ok d) <->
   (exists bc, least_upper_bound b c = Ok bc /\ least_upper_bound a bc = Ok d)).
Proof.
  split_and!; [apply lub_refl|by destruct a|split; apply lub_comm|split].
  - intros (ab & Hab & Hd). rewrite lub_is_join in Hab, Hd.
    destruct (is_join_assoc a b c ab d) as (bc & ? & ?); [done|done|].
    exists bc. by rewrite !lub_is_join.
  - intros (bc & Hbc & Hd). rewrite lub_is_join in Hbc, Hd.
    destruct (is_join_assoc c b a bc d) as (ab & ? & ?); [by apply is_join_comm..|].
    exists ab. rewrite !lub_is_join. split; by apply is_join_comm.
Qed.
