(* ===== verification/Schema.v ===== *)
(** * Schemas and their validation: [stillflow-core/src/logical.rs]

    [LogicalSchema], the budgeted stack-machine validator, and the schema
    operations built on it.  [ValidSchema] states what validation promises;
    [schema_validate_exact] is the refinement. *)

From S2P Require Import Prelude Text Secrets Logical.

Definition LOGICAL_SCHEMA_VERSION : N := 1.
Definition MAX_SCHEMA_NESTING_DEPTH : N := 64.
Definition MAX_SCHEMA_FIELDS : N := 4096.
Definition MAX_SCHEMA_TEXT_BYTES : N := 1024 * 1024.

Record LogicalSchema := mkSchema {
  version : N;
  fields : list LogicalField;
  schema_metadata : gmap string string;
}.
#[export] Instance LogicalSchema_eq_dec : EqDecision LogicalSchema.
Proof. solve_decision. Defined.

(** ** The validator *)

Record SchemaBudget := mkBudget { budget_fields : N; text_bytes : N }.
Definition empty_budget : SchemaBudget := mkBudget 0 0.

Definition add_field (b : SchemaBudget) : result LogicalError SchemaBudget :=
  n ← ok_or (checked_add (budget_fields b) 1)
        (SchemaFieldLimitExceeded usize_max MAX_SCHEMA_FIELDS);
  if (MAX_SCHEMA_FIELDS <? n)%N
  then Err (SchemaFieldLimitExceeded n MAX_SCHEMA_FIELDS)
  else Ok (mkBudget n (text_bytes b)).

Definition add_text (b : SchemaBudget) (bytes : N) : result LogicalError SchemaBudget :=
  n ← ok_or (checked_add (text_bytes b) bytes)
        (SchemaTextLimitExceeded usize_max MAX_SCHEMA_TEXT_BYTES);
  if (MAX_SCHEMA_TEXT_BYTES <? n)%N
  then Err (SchemaTextLimitExceeded n MAX_SCHEMA_TEXT_BYTES)
  else Ok (mkBudget (budget_fields b) n).

Definition validate_metadata (metadata : gmap string string) (b : SchemaBudget)
  : result LogicalError SchemaBudget :=
  b ← fold_result (fun b (kv : string * string) =>
        b ← add_text b (str_len kv.1); add_text b (str_len kv.2)) b (btree_iter metadata);
  try! map_err (fun _ => UnsafeMetadata) (ensure_no_secret_fields (metadata_to_value metadata));
  Ok b.

Inductive ValidationNode :=
| VType (data_type : LogicalType) (depth : N)
| VFields (fields : list LogicalField) (type_depth : N).

Definition next_depth (depth : N) : result LogicalError N :=
  ok_or (checked_add depth 1) (SchemaNestingDepthExceeded usize_max MAX_SCHEMA_NESTING_DEPTH).

(** The [for field in fields] loop with its two hash sets. *)
Definition validate_field (st : SchemaBudget * gset ColumnId * gset string) (f : LogicalField)
  : result LogicalError (SchemaBudget * gset ColumnId * gset string) :=
  let '(b, ids, names) := st in
  if is_blank (name f) then Err (EmptyColumnName (id f)) else
  b ← add_field b;
  b ← add_text b (str_len (name f));
  b ← validate_metadata (metadata f) b;
  if decide (id f ∈ ids) then Err (DuplicateColumnId (id f)) else
  if decide (name f ∈ names) then Err (DuplicateColumnName (name f)) else
  Ok (b, {[id f]} ∪ ids, {[name f]} ∪ names).

(** One iteration of [validate_nodes]: the updated budget and the pushes. *)
Definition validate_node (b : SchemaBudget) (node : ValidationNode)
  : result LogicalError (SchemaBudget * list ValidationNode) :=
  match node with
  | VType t depth =>
      if (MAX_SCHEMA_NESTING_DEPTH <? depth)%N
      then Err (SchemaNestingDepthExceeded depth MAX_SCHEMA_NESTING_DEPTH)
      else match t with
      | TTimestamp _ (Some timezone) =>
          if is_blank timezone then Err EmptyTimezone
          else b ← add_text b (str_len timezone); Ok (b, [])
      | TList element =>
          d ← next_depth depth; Ok (b, [VType element d])
      | TStruct fields =>
          d ← next_depth depth; Ok (b, [VFields fields d])
      | _ => Ok (b, [])
      end
  | VFields fields type_depth =>
      st ← fold_result validate_field (b, ∅, ∅) fields;
      Ok (st.1.1, (fun f => VType (data_type f) type_depth) <$> reverse fields)
  end.

Fixpoint type_weight (t : LogicalType) : nat :=
  match t with
  | TList e => S (type_weight e)
  | TStruct fs => S (S (sum_list_with (fun f => type_weight (data_type f)) fs))
  | _ => 1
  end.

Definition node_children (node : ValidationNode) : list ValidationNode :=
  match node with
  | VType (TList e) d => [VType e (d + 1)]
  | VType (TStruct fs) d => [VFields fs (d + 1)]
  | VType _ _ => []
  | VFields fs d => (fun f => VType (data_type f) d) <$> reverse fs
  end.
Definition node_weight (node : ValidationNode) : nat :=
  match node with
  | VType t _ => type_weight t
  | VFields fs _ => S (sum_list_with (fun f => type_weight (data_type f)) fs)
  end.
Lemma node_children_weight node :
  sum_list_with node_weight (node_children node) < node_weight node.
Proof.
  destruct node as [t d|fs d]; [destruct t; cbn; lia|]. cbn [node_children node_weight].
  rewrite sum_list_with_fmap, sum_list_with_reverse. simpl. lia.
Qed.
#[export] Instance ValidationNode_tree : Tree ValidationNode := {|
  children := node_children;
  weight := node_weight;
  weight_children := node_children_weight;
|}.

Definition validate_nodes (stack : list ValidationNode) (b : SchemaBudget)
  : result LogicalError unit :=
  (fun _ => tt) <$> run validate_node (Err UnsafeMetadata) b stack.

Definition validate_type (t : LogicalType) : result LogicalError unit :=
  validate_nodes [VType t 1] empty_budget.

Definition validate_fields (fs : list LogicalField) : result LogicalError unit :=
  validate_nodes [VFields fs 1] empty_budget.

Definition validate_schema (fs : list LogicalField) (metadata : gmap string string)
  : result LogicalError unit :=
  b ← validate_metadata metadata empty_budget;
  validate_nodes [VFields fs 1] b.

(** [LogicalSchema::validate], [from_parts], [new], [empty], [field] and
    [rename_column]; [LogicalField::new] and [with_metadata]. *)
Definition schema_validate (s : LogicalSchema) : result LogicalError unit :=
  if negb (version s =? LOGICAL_SCHEMA_VERSION)%N
  then Err (UnsupportedSchemaVersion (version s))
  else validate_schema (fields s) (schema_metadata s).

Definition from_parts (version : N) (fields : list LogicalField)
  (metadata : gmap string string) : result LogicalError LogicalSchema :=
  let schema := mkSchema version fields metadata in
  try! schema_validate schema; Ok schema.

Definition schema_new (fields : list LogicalField) : result LogicalError LogicalSchema :=
  from_parts LOGICAL_SCHEMA_VERSION fields ∅.

Definition schema_empty : LogicalSchema := mkSchema LOGICAL_SCHEMA_VERSION [] ∅.

Definition find_field (fs : list LogicalField) (column : ColumnId) : option LogicalField :=
  snd <$> list_find (fun f => id f = column) fs.

Definition schema_field (s : LogicalSchema) (column : ColumnId) : option LogicalField :=
  find_field (fields s) column.

Definition field_validate (f : LogicalField) : result LogicalError unit := validate_fields [f].

Definition field_new (i : ColumnId) (n : string) (t : LogicalType) (null : bool)
  : result LogicalError LogicalField :=
  let field := mkField i n t null ∅ in
  try! field_validate field; Ok field.

Definition with_metadata (f : LogicalField) (m : gmap string string)
  : result LogicalError LogicalField :=
  let field := mkField (id f) (name f) (data_type f) (nullable f) m in
  try! field_validate field; Ok field.

Definition set_name (n : string) (f : LogicalField) : LogicalField :=
  mkField (id f) n (data_type f) (nullable f) (metadata f).

(** [iter_mut().find(|field| field.id == column)] and an update through it. *)
Fixpoint update_first (column : ColumnId) (g : LogicalField -> LogicalField)
  (fs : list LogicalField) : list LogicalField :=
  match fs with
  | [] => []
  | f :: fs => if decide (id f = column) then g f :: fs else f :: update_first column g fs
  end.

(** The renamed schema is kept when it validates; otherwise the previous
    name is written back.  The second component is the schema in place after
    the call. *)
Definition rename_column (s : LogicalSchema) (column : ColumnId) (new_name : string)
  : result LogicalError unit * LogicalSchema :=
  match find_field (fields s) column with
  | None => (Err (UnknownColumn column), s)
  | Some previous =>
      let renamed := mkSchema (version s)
        (update_first column (set_name new_name) (fields s)) (schema_metadata s) in
      match schema_validate renamed with
      | Err error =>
          (Err error, mkSchema (version s)
             (update_first column (set_name (name previous)) (fields renamed))
             (schema_metadata s))
      | Ok _ => (Ok tt, renamed)
      end
  end.

(** ** What validation promises *)

Definition max_by {A} (f : A -> N) (l : list A) : N := foldr (fun a n => N.max (f a) n) 0%N l.

Fixpoint type_depth (t : LogicalType) : N :=
  match t with
  | TList e => 1 + type_depth e
  | TStruct fs => 1 + max_by (fun f => type_depth (data_type f)) fs
  | _ => 1
  end.
Fixpoint type_fields (t : LogicalType) : N :=
  match t with
  | TList e => type_fields e
  | TStruct fs => sum_by (fun f => 1 + type_fields (data_type f))%N fs
  | _ => 0
  end.
Definition metadata_text (m : gmap string string) : N :=
  sum_by (fun kv : string * string => str_len kv.1 + str_len kv.2)%N (btree_iter m).
Definition own_text (f : LogicalField) : N := str_len (name f) + metadata_text (metadata f).
Fixpoint type_text (t : LogicalType) : N :=
  match t with
  | TTimestamp _ (Some z) => str_len z
  | TList e => type_text e
  | TStruct fs => sum_by (fun f => own_text f + type_text (data_type f))%N fs
  | _ => 0
  end.
Definition fields_count (fs : list LogicalField) : N :=
  sum_by (fun f => 1 + type_fields (data_type f))%N fs.
Definition fields_text (fs : list LogicalField) : N :=
  sum_by (fun f => own_text f + type_text (data_type f))%N fs.

(** One level of fields: non-blank distinct names, distinct identities,
    metadata free of secrets. *)
Record level_ok (fs : list LogicalField) : Prop := {
  level_ids : NoDup (id <$> fs);
  level_names : NoDup (name <$> fs);
  level_fields : Forall (fun f => is_blank (name f) = false /\ metadata_safe (metadata f)) fs;
}.

Definition timezone_ok (t : LogicalType) : Prop :=
  match t with TTimestamp _ (Some z) => is_blank z = false | _ => True end.

Inductive TypeWf : LogicalType -> Prop :=
| wf_atom t : is_atom t = true -> timezone_ok t -> TypeWf t
| wf_list e : TypeWf e -> TypeWf (TList e)
| wf_struct fs :
    level_ok fs -> Forall (fun f => TypeWf (data_type f)) fs -> TypeWf (TStruct fs).

Record ValidSchema (s : LogicalSchema) : Prop := {
  vs_version : version s = LOGICAL_SCHEMA_VERSION;
  vs_metadata : metadata_safe (schema_metadata s);
  vs_level : level_ok (fields s);
  vs_types : Forall (fun f => TypeWf (data_type f)) (fields s);
  vs_depth : Forall (fun f => type_depth (data_type f) <= MAX_SCHEMA_NESTING_DEPTH)%N (fields s);
  vs_count : (fields_count (fields s) <= MAX_SCHEMA_FIELDS)%N;
  vs_text : (metadata_text (schema_metadata s) + fields_text (fields s)
             <= MAX_SCHEMA_TEXT_BYTES)%N;
}.

(** ** The validator is exact *)

Definition within (b : SchemaBudget) : Prop :=
  (budget_fields b <= MAX_SCHEMA_FIELDS /\ text_bytes b <= MAX_SCHEMA_TEXT_BYTES)%N.
Definition spend (b : SchemaBudget) (nf nt : N) : SchemaBudget :=
  mkBudget (budget_fields b + nf) (text_bytes b + nt).

Lemma spend_spend b f t f' t' : spend (spend b f t) f' t' = spend b (f + f') (t + t').
Proof. unfold spend. simpl. f_equal; lia. Qed.
Lemma spend_0 b : spend b 0 0 = b.
Proof. destruct b. unfold spend. simpl. f_equal; lia. Qed.
Lemma within_spend b f t : within (spend b f t) -> within b.
Proof. unfold within, spend. simpl. lia. Qed.

Lemma add_text_Ok b n b' :
  within b -> add_text b n = Ok b' <-> b' = spend b 0 n /\ within b'.
Proof.
  intros [Hf Ht]. unfold add_text, spend, within in *. rewrite bind_Ok.
  setoid_rewrite ok_or_Ok. setoid_rewrite checked_add_Some. split.
  - intros (m & [-> _] & Hm). destruct (N.ltb_spec MAX_SCHEMA_TEXT_BYTES (text_bytes b + n));
      simplify_eq. simpl. split; [f_equal; lia|lia].
  - intros [-> [Hf' Ht']]. simpl in *. exists (text_bytes b + n)%N. split.
    + split; [done|]. unfold MAX_SCHEMA_TEXT_BYTES, usize_max in *. lia.
    + destruct (N.ltb_spec MAX_SCHEMA_TEXT_BYTES (text_bytes b + n)); [lia|].
      do 2 f_equal. lia.
Qed.

Lemma add_field_Ok b b' :
  within b -> add_field b = Ok b' <-> b' = spend b 1 0 /\ within b'.
Proof.
  intros [Hf Ht]. unfold add_field, spend, within in *. rewrite bind_Ok.
  setoid_rewrite ok_or_Ok. setoid_rewrite checked_add_Some. split.
  - intros (m & [-> _] & Hm). destruct (N.ltb_spec MAX_SCHEMA_FIELDS (budget_fields b + 1));
      simplify_eq. simpl. split; [f_equal; lia|lia].
  - intros [-> [Hf' Ht']]. simpl in *. exists (budget_fields b + 1)%N. split.
    + split; [done|]. unfold MAX_SCHEMA_FIELDS, usize_max in *. lia.
    + destruct (N.ltb_spec MAX_SCHEMA_FIELDS (budget_fields b + 1)); [lia|].
      do 2 f_equal. lia.
Qed.

(** A loop whose every step checks a condition and spends from the budget
    checks all the conditions and spends the sum. *)
Lemma fold_spend {A} (step : SchemaBudget -> A -> result LogicalError SchemaBudget)
  (ok : A -> Prop) (nf nt : A -> N) l :
  (forall b a b', within b -> step b a = Ok b' <->
     ok a /\ b' = spend b (nf a) (nt a) /\ within b') ->
  forall b b', within b ->
  fold_result step b l = Ok b' <->
  Forall ok l /\ b' = spend b (sum_by nf l) (sum_by nt l) /\ within b'.
Proof.
  intros Hstep. induction l as [|a l IH]; intros b b' Hb; simpl.
  - rewrite spend_0. split; [|naive_solver]. intros [= <-]. auto.
  - rewrite bind_Ok, Forall_cons. split.
    + intros (b1 & (Ha & -> & Hb1)%Hstep & Hl); [|done].
      apply IH in Hl as (Hl & -> & Hw); [|done]. by rewrite <- spend_spend.
    + intros ([Ha Hl] & -> & Hw). rewrite <- spend_spend in *.
      exists (spend b (nf a) (nt a)). apply within_spend in Hw as Hw'.
      rewrite Hstep, IH by done. auto.
Qed.

Lemma validate_metadata_Ok m b b' :
  within b -> validate_metadata m b = Ok b' <->
  metadata_safe m /\ b' = spend b 0 (metadata_text m) /\ within b'.
Proof.
  intros Hb. unfold validate_metadata. rewrite bind_Ok.
  assert (forall b', fold_result (fun b (kv : string * string) =>
        b ← add_text b (str_len kv.1); add_text b (str_len kv.2)) b (btree_iter m) = Ok b'
     <-> b' = spend b 0 (metadata_text m) /\ within b') as Hfold.
  { intros b1. rewrite (fold_spend _ (fun _ => True) (fun _ => 0%N)
      (fun kv => str_len kv.1 + str_len kv.2)%N); [|clear b b' b1 Hb|done].
    - assert (sum_by (fun _ : string * string => 0%N) (btree_iter m) = 0%N) as ->.
      { induction (btree_iter m); simpl; lia. }
      split; [by intros (_ & ? & ?)|]. intros [? ?]. split; [by apply Forall_true|done].
    - intros b [k v] b' Hb. simpl. rewrite bind_Ok. split.
      + intros (b1 & [-> Hb1]%add_text_Ok & Hv); [|done].
        apply add_text_Ok in Hv as [-> Hv]; [|done]. by rewrite spend_spend in *.
      + intros (_ & -> & Hw).
        replace (spend b 0 (str_len k + str_len v)) with
          (spend (spend b 0 (str_len k)) 0 (str_len v)) in * by (by rewrite spend_spend).
        exists (spend b 0 (str_len k)). apply within_spend in Hw as Hw'.
        by rewrite !add_text_Ok. }
  split.
  - intros (b1 & [-> Hb1]%Hfold & (u & Hs & [= <-])%bind_Ok).
    apply map_err_Ok in Hs. destruct u. by apply metadata_screen in Hs.
  - intros (Hs & -> & Hw). exists (spend b 0 (metadata_text m)). rewrite Hfold.
    split; [done|]. apply bind_Ok. exists tt. split; [|done].
    by apply map_err_Ok, metadata_screen.
Qed.

Lemma validate_field_Ok b ids names f b' ids' names' :
  within b ->
  validate_field (b, ids, names) f = Ok (b', ids', names') <->
  (is_blank (name f) = false /\ metadata_safe (metadata f)) /\
  (id f ∉ ids /\ name f ∉ names) /\
  (ids' = {[id f]} ∪ ids /\ names' = {[name f]} ∪ names) /\
  b' = spend b 1 (own_text f) /\ within b'.
Proof.
  intros Hb. simpl. destruct (is_blank (name f)); [naive_solver|].
  unfold own_text. split.
  - intros (b1 & [-> H1]%add_field_Ok & Hk)%bind_Ok; [|done].
    apply bind_Ok in Hk as (b2 & [-> H2]%add_text_Ok & Hk); [|done].
    apply bind_Ok in Hk as (b3 & (Hm & -> & H3)%validate_metadata_Ok & Hk); [|done].
    repeat case_decide; simplify_eq. by rewrite !spend_spend in *.
  - intros (Hm & [Hi Hn] & [-> ->] & -> & Hw).
    replace (spend b 1 (str_len (name f) + metadata_text (metadata f))) with
      (spend (spend (spend b 1 0) 0 (str_len (name f))) 0 (metadata_text (metadata f)))
      in * by (by rewrite !spend_spend).
    apply within_spend in Hw as H2. apply within_spend in H2 as H1.
    apply bind_Ok. eexists. rewrite add_field_Ok by done. split; [done|].
    apply bind_Ok. eexists. rewrite add_text_Ok by done. split; [done|].
    apply bind_Ok. eexists. rewrite validate_metadata_Ok by done. split; [naive_solver|].
    by rewrite !decide_False.
Qed.

Lemma validate_field_fold fs : forall b ids names b', within b ->
  (exists ids' names', fold_result validate_field (b, ids, names) fs = Ok (b', ids', names')) <->
  level_ok fs /\ (forall f, f ∈ fs -> id f ∉ ids /\ name f ∉ names) /\
  b' = spend b (len fs) (sum_by own_text fs) /\ within b'.
Proof.
  induction fs as [|f fs IH]; intros b ids names b' Hb; cbn [fold_result].
  - cbn. rewrite spend_0. split.
    + intros (? & ? & [= <- <- <-]). split_and!; try done; [|set_solver].
      by split; constructor.
    + intros (_ & _ & -> & _). eauto.
  - split.
    + intros (ids' & names' & ([[b1 i1] n1] & (Hf & [Hi Hn] & [-> ->] & -> & Hb1)%validate_field_Ok & Hl)%bind_Ok); [|done].
      destruct (IH (spend b 1 (own_text f)) ({[id f]} ∪ ids) ({[name f]} ∪ names) b' Hb1)
        as [(Hlev & Hfr & -> & Hw) _]; [eauto|].
      destruct Hlev as [Hids Hnames Hfs].
      split_and!; [split|..].
      * rewrite fmap_cons. constructor; [|done]. intros (g & Hg & ?)%list_elem_of_fmap. set_solver.
      * rewrite fmap_cons. constructor; [|done]. intros (g & Hg & ?)%list_elem_of_fmap. set_solver.
      * by constructor.
      * set_solver.
      * rewrite spend_spend. f_equal. rewrite len_cons. done.
      * done.
    + intros ([Hids Hnames Hfs] & Hfr & -> & Hw).
      rewrite len_cons in *. cbn [sum_by foldr] in *.
      assert (spend b (1 + len fs) (own_text f + sum_by own_text fs) =
              spend (spend b 1 (own_text f)) (len fs) (sum_by own_text fs)) as Hsp
        by (by rewrite spend_spend).
      change (foldr _ 0%N fs) with (sum_by own_text fs) in *. rewrite Hsp in *.
      apply within_spend in Hw as Hw1. rewrite fmap_cons in Hids. rewrite fmap_cons in Hnames.
      apply NoDup_cons in Hids as [Hid Hids]. apply NoDup_cons in Hnames as [Hnm Hnames].
      apply Forall_cons in Hfs as [Hf Hfs].
      destruct (IH (spend b 1 (own_text f)) ({[id f]} ∪ ids) ({[name f]} ∪ names)
        (spend (spend b 1 (own_text f)) (len fs) (sum_by own_text fs)) Hw1)
        as [_ (ids' & names' & Hl)].
      { split_and!; [by split| |done|done]. intros g Hg. specialize (Hfr g).
        split; [|].
        - intros [Heq%elem_of_singleton|?]%elem_of_union; [|set_solver].
          apply Hid. rewrite <- Heq. apply list_elem_of_fmap. eauto.
        - intros [Heq%elem_of_singleton|?]%elem_of_union; [|set_solver].
          apply Hnm. rewrite <- Heq. apply list_elem_of_fmap. eauto. }
      exists ids', names'. apply bind_Ok. eexists. split; [|exact Hl].
      apply validate_field_Ok; [done|]. split_and!; try done; set_solver.
Qed.

(** What one popped node checks and spends. *)
Definition node_ok (node : ValidationNode) : Prop :=
  match node with
  | VType t d => (d <= MAX_SCHEMA_NESTING_DEPTH)%N /\ timezone_ok t
  | VFields fs _ => level_ok fs
  end.
Definition node_fields (node : ValidationNode) : N :=
  match node with VType _ _ => 0 | VFields fs _ => len fs end.
Definition node_text (node : ValidationNode) : N :=
  match node with
  | VType (TTimestamp _ (Some z)) _ => str_len z
  | VType _ _ => 0
  | VFields fs _ => sum_by own_text fs
  end.

Lemma next_depth_Ok d : (d <= MAX_SCHEMA_NESTING_DEPTH)%N -> next_depth d = Ok (d + 1)%N.
Proof.
  intros Hd. apply ok_or_Ok, checked_add_Some.
  unfold MAX_SCHEMA_NESTING_DEPTH, usize_max in *. lia.
Qed.

Lemma validate_node_pushes b node b' ps :
  validate_node b node = Ok (b', ps) -> ps = children node.
Proof.
  destruct node as [t d|fs d]; simpl.
  - destruct (N.ltb_spec MAX_SCHEMA_NESTING_DEPTH d); [done|].
    destruct t as [| | | | | | | | | | | | | | |u [z|]|e|fs]; try naive_solver.
    + destruct (is_blank z); [done|]. intros (? & _ & [= <- <-])%bind_Ok. done.
    + rewrite next_depth_Ok by done. by intros [= <- <-].
    + rewrite next_depth_Ok by done. by intros [= <- <-].
  - intros (? & _ & [= <- <-])%bind_Ok. done.
Qed.

Lemma enter_node_Ok b node b' :
  within b -> enter validate_node b node = Ok b' <->
  node_ok node /\ b' = spend b (node_fields node) (node_text node) /\ within b'.
Proof.
  intros Hb. unfold enter. rewrite fmap_Ok. destruct node as [t d|fs d].
  - cbn [validate_node node_ok node_fields].
    destruct (N.ltb_spec MAX_SCHEMA_NESTING_DEPTH d); [split; [naive_solver|lia]|].
    destruct t as [| | | | | | | | | | | | | | |u [z|]|e|fs]; simpl;
      rewrite ?next_depth_Ok by done; simpl; rewrite ?spend_0;
      try by (split; [by intros (? & [= <-] & <-)|intros (_ & -> & _); eexists (_, _)]).
    destruct (is_blank z); [split; [by intros (? & ? & ?)|by intros [[] ?]]|]. split.
    + intros ([b1 ps] & Hk & <-). apply bind_Ok in Hk as (b2 & Hadd & [= <- <-]).
      by apply add_text_Ok in Hadd as [-> Hw].
    + intros (_ & -> & Hw). exists (spend b 0 (str_len z), []). split; [|done].
      apply bind_Ok. exists (spend b 0 (str_len z)). by rewrite add_text_Ok.
  - cbn [validate_node node_ok node_fields node_text].
    pose proof (validate_field_fold fs b ∅ ∅ b' Hb) as Hf. split.
    + intros ([b1 ps] & ([[b2 i2] n2] & Hl & [= <- <-])%bind_Ok & <-). simpl in *.
      destruct Hf as [Hf _]. destruct Hf as (? & _ & ? & ?); eauto.
    + intros (Hlev & -> & Hw). destruct Hf as [_ (i2 & n2 & Hl)].
      { split_and!; done. }
      eexists (_, _). split; [|reflexivity]. apply bind_Ok. eexists. split; [exact Hl|]. done.
Qed.

(** Summing what every visited node checks and spends gives the recursive
    specification. *)
Lemma max_by_le {A} (f : A -> N) l m :
  (max_by f l <= m)%N <-> Forall (fun a => f a <= m)%N l.
Proof.
  induction l as [|a l IH]; simpl; [split; [constructor|lia]|].
  rewrite Forall_cons, <- IH. lia.
Qed.

Definition spec_fields (node : ValidationNode) : N :=
  match node with VType t _ => type_fields t | VFields fs _ => fields_count fs end.
Definition spec_text (node : ValidationNode) : N :=
  match node with VType t _ => type_text t | VFields fs _ => fields_text fs end.

Lemma visits_fields node : sum_by node_fields (visits node) = spec_fields node.
Proof.
  apply children_sum_gen. intros [t d|fs d].
  - destruct t; cbn -[N.add]; by rewrite ?N.add_0_r, ?N.add_0_l.
  - cbn [spec_fields node_fields children ValidationNode_tree node_children].
    rewrite sum_by_fmap, (sum_by_permutation _ (reverse fs) fs) by apply reverse_Permutation.
    unfold fields_count. rewrite <- sum_by_one, <- sum_by_add. done.
Qed.

Lemma visits_text node : sum_by node_text (visits node) = spec_text node.
Proof.
  apply children_sum_gen. intros [t d|fs d].
  - destruct t as [| | | | | | | | | | | | | | |u [z|]|e|fs];
      cbn -[N.add]; by rewrite ?N.add_0_r, ?N.add_0_l.
  - cbn [spec_text node_text children ValidationNode_tree node_children].
    rewrite sum_by_fmap, (sum_by_permutation _ (reverse fs) fs) by apply reverse_Permutation.
    unfold fields_text. rewrite <- sum_by_add. done.
Qed.

Definition spec_ok (node : ValidationNode) : Prop :=
  match node with
  | VType t d => TypeWf t /\ (d + type_depth t <= 1 + MAX_SCHEMA_NESTING_DEPTH)%N
  | VFields fs d => level_ok fs /\
      Forall (fun f => TypeWf (data_type f) /\
                (d + type_depth (data_type f) <= 1 + MAX_SCHEMA_NESTING_DEPTH)%N) fs
  end.

Lemma spec_ok_unfold node :
  spec_ok node <-> node_ok node /\ Forall spec_ok (children node).
Proof.
  destruct node as [t d|fs d]; cbn [children ValidationNode_tree].
  - assert (forall t, 1 <= type_depth t)%N as Hpos by (intros []; simpl; lia).
    destruct t as [| | | | | | | | | | | | | | |u z|e|fs]; simpl;
      try (split; [intros [Hwf ?]; inversion Hwf; subst;
                   (split; [split; [lia|done]|constructor])
                  |intros [[? ?] _]; split; [by constructor|lia]]).
    + rewrite Forall_singleton. simpl. specialize (Hpos e). split.
      * intros [Hwf ?]. inversion Hwf; subst; [done|]. split_and!; [lia|done|done|lia].
      * intros [[? _] [? ?]]. split; [by apply wf_list|lia].
    + rewrite Forall_singleton. simpl. split.
      * intros [Hwf Hd]. inversion Hwf as [|?|? Hl Hf]; subst; [done|].
        split_and!; [lia|done|done|]. apply Forall_forall. intros f Hfs.
        rewrite Forall_forall in Hf. split; [by apply Hf|].
        assert (Forall (fun f => type_depth (data_type f) <= MAX_SCHEMA_NESTING_DEPTH - d)%N fs)
          as Hm by (apply max_by_le; lia).
        rewrite Forall_forall in Hm. specialize (Hm f Hfs). lia.
      * intros [[Hd _] [Hl Hf]]. apply Forall_and in Hf as [Hf1 Hf2].
        split; [by apply wf_struct|].
        assert (max_by (fun f => type_depth (data_type f)) fs <= MAX_SCHEMA_NESTING_DEPTH - d)%N;
          [|lia].
        apply max_by_le. eapply Forall_impl; [exact Hf2|]. simpl. lia.
  - simpl. rewrite Forall_fmap. f_equiv. by rewrite Forall_reverse.
Qed.

Lemma visits_ok node : Forall node_ok (visits node) <-> spec_ok node.
Proof. apply visits_Forall_gen, spec_ok_unfold. Qed.

Lemma validate_nodes_Ok node b :
  within b -> validate_nodes [node] b = Ok tt <->
  spec_ok node /\ within (spend b (spec_fields node) (spec_text node)).
Proof.
  intros Hb. unfold validate_nodes. rewrite fmap_Ok.
  rewrite (run_tree validate_node validate_node_pushes).
  setoid_rewrite (fold_spend _ node_ok node_fields node_text); [|apply enter_node_Ok|done].
  setoid_rewrite visits_ok. rewrite visits_fields, visits_text. naive_solver.
Qed.

Lemma empty_within : within empty_budget.
Proof. unfold within, empty_budget. simpl. unfold MAX_SCHEMA_FIELDS, MAX_SCHEMA_TEXT_BYTES. lia. Qed.
#[export] Hint Resolve empty_within : stillflow.

Lemma validate_exact s : schema_validate s = Ok tt <-> ValidSchema s.
Proof.
  unfold schema_validate. destruct (N.eqb_spec (version s) LOGICAL_SCHEMA_VERSION) as [Hv|Hv];
    simpl; [|split; [done|by intros [Hv' _]]].
  unfold validate_schema. rewrite bind_Ok.
  setoid_rewrite validate_metadata_Ok; [|apply empty_within]. split.
  - intros (b & (Hm & -> & Hb) & Hn). apply validate_nodes_Ok in Hn as [[Hl Hf] Hw]; [|done].
    rewrite spend_spend in Hw. destruct Hw as [Hw1 Hw2]. simpl in *.
    apply Forall_and in Hf as [Hf1 Hf2]. split; try done.
    eapply Forall_impl; [exact Hf2|]. simpl. lia.
  - intros [_ Hm Hl Ht Hd Hc Hx].
    assert (within (spend (spend empty_budget 0 (metadata_text (schema_metadata s)))
      (fields_count (fields s)) (fields_text (fields s)))) as Hw.
    { rewrite spend_spend. unfold within. simpl. lia. }
    eexists. split; [split_and!; [done|reflexivity|by eapply within_spend]|].
    apply validate_nodes_Ok; [by eapply within_spend|]. split; [split; [done|]|done].
    apply Forall_and. split; [done|]. eapply Forall_impl; [exact Hd|]. simpl. lia.
Qed.

Lemma from_parts_Ok v fs m s :
  from_parts v fs m = Ok s <-> s = mkSchema v fs m /\ ValidSchema s.
Proof.
  unfold from_parts. rewrite bind_Ok. split.
  - intros ([] & Hv & [= <-]). by apply validate_exact in Hv.
  - intros [-> Hv]. exists tt. by apply validate_exact in Hv.
Qed.

Lemma schema_new_Ok fs s :
  schema_new fs = Ok s <-> s = mkSchema LOGICAL_SCHEMA_VERSION fs ∅ /\ ValidSchema s.
Proof. apply from_parts_Ok. Qed.

Lemma field_new_Ok i n t nul f :
  field_new i n t nul = Ok f ->
  f = mkField i n t nul ∅ /\ is_blank n = false /\ TypeWf t /\
  (type_depth t <= MAX_SCHEMA_NESTING_DEPTH)%N.
Proof.
  unfold field_new. intros ([] & Hv & [= <-])%bind_Ok.
  apply (validate_nodes_Ok (VFields [_] 1)) in Hv as [[Hl Hf] _]; [|apply empty_within].
  apply Forall_singleton in Hf as [Hf Hd]. destruct Hl as [_ _ Hb].
  apply Forall_singleton in Hb as [Hb _]. simpl in *. split_and!; [done..|lia].
Qed.

(** ** Lookup and rename *)

Lemma find_field_Some fs c f :
  find_field fs c = Some f -> f ∈ fs /\ id f = c.
Proof.
  unfold find_field. intros ((i & g) & Hg & Hf)%fmap_Some. simpl in *. subst.
  apply list_find_Some in Hg as (Hi & Hid & _). split; [|done].
  by apply list_elem_of_lookup_2 in Hi.
Qed.

Lemma find_field_NoDup fs f :
  NoDup (id <$> fs) -> f ∈ fs -> find_field fs (id f) = Some f.
Proof.
  intros Hnd Hf. unfold find_field.
  destruct (list_find (fun g => id g = id f) fs) as [[i g]|] eqn:Hg; simpl.
  - apply list_find_Some in Hg as (Hi & Hid & _). apply list_elem_of_lookup_1 in Hf as [j Hj].
    assert (i = j) as ->; [|congruence].
    eapply NoDup_lookup; [exact Hnd| |]; rewrite list_lookup_fmap_Some; eauto.
  - apply list_find_None in Hg. rewrite Forall_forall in Hg. naive_solver.
Qed.

Lemma find_field_None fs c : find_field fs c = None <-> c ∉ (id <$> fs).
Proof.
  unfold find_field. rewrite fmap_None, list_find_None, Forall_forall, list_elem_of_fmap.
  naive_solver.
Qed.

Lemma update_first_twice c g h fs :
  (forall f, id (g f) = id f) ->
  update_first c h (update_first c g fs) = update_first c (fun f => h (g f)) fs.
Proof.
  intros Hg. induction fs as [|f fs IH]; simpl; [done|].
  case_decide; simpl; rewrite ?Hg; case_decide; congruence.
Qed.

Lemma find_field_cons f fs c :
  find_field (f :: fs) c = if decide (id f = c) then Some f else find_field fs c.
Proof.
  unfold find_field. simpl. case_decide; [done|]. by destruct (list_find _ fs) as [[]|].
Qed.

Lemma update_first_found c g fs f :
  find_field fs c = Some f -> g f = f -> update_first c g fs = fs.
Proof.
  induction fs as [|f' fs IH]; [done|]. rewrite find_field_cons. simpl.
  case_decide; [by intros [= ->] ->|]. intros Hf Hg. f_equal. by apply IH.
Qed.

Lemma update_first_ids c g fs :
  (forall f, id (g f) = id f) -> id <$> update_first c g fs = id <$> fs.
Proof.
  intros Hg. induction fs as [|f fs IH]; cbn [update_first]; [done|].
  case_decide; rewrite !fmap_cons, ?Hg, ?IH; done.
Qed.

Lemma update_first_lookup c g fs d :
  (forall f, id (g f) = id f) ->
  find_field (update_first c g fs) d =
  (if decide (d = c) then g <$> find_field fs c else find_field fs d).
Proof.
  intros Hg. induction fs as [|f fs IH]; simpl; [by case_decide|].
  destruct (decide (id f = c)) as [H1|H1]; rewrite !find_field_cons, ?Hg.
  - destruct (decide (id f = d)), (decide (d = c)), (decide (id f = c)); simpl; congruence.
  - rewrite IH. destruct (decide (id f = d)), (decide (d = c)), (decide (id f = c)); simpl; congruence.
Qed.

(** What [rename_column] promises: a valid schema in which only the one name
    changed, or the error and the schema as it was. *)
Lemma rename_column_spec s c n :
  match rename_column s c n with
  | (Ok _, s') =>
      ValidSchema s' /\ id <$> fields s' = id <$> fields s /\
      schema_metadata s' = schema_metadata s /\
      (exists f, schema_field s c = Some f /\ schema_field s' c = Some (set_name n f)) /\
      forall d, d <> c -> schema_field s' d = schema_field s d
  | (Err e, s') => s' = s
  end.
Proof.
  unfold rename_column, schema_field. destruct (find_field (fields s) c) as [f|] eqn:Hf; [|done].
  destruct (schema_validate _) as [[]|e] eqn:Hv; simpl.
  - apply validate_exact in Hv. split_and!; [done|by apply update_first_ids|done|..].
    + exists f. split; [done|]. rewrite update_first_lookup, decide_True, Hf by done. done.
    + intros d Hd. by rewrite update_first_lookup, decide_False by done.
  - rewrite update_first_twice by done. destruct s as [v fs m]; simpl in *. f_equal.
    eapply update_first_found; [exact Hf|]. by destruct f.
Qed.

(** ** Claims *)

(** C3: validation is exact.  The iterative validator, with its budgets
    threaded through an explicit stack and its early returns, accepts a
    schema exactly when the declarative [ValidSchema] holds: the version is
    current, at every level the identities and names are distinct and the
    names not blank, every metadata map is free of secrets, time zones are
    not blank, nesting is at most 64, and the fields and text bytes summed over
    the whole tree are within 4,096 and 1 MiB.  In particular the traversal
    always terminates with an answer. *)
Theorem schema_validate_exact (s : LogicalSchema) :
  schema_validate s = Ok tt <-> ValidSchema s.
Proof. apply validate_exact. Qed.

(** Renaming a column is atomic.  On success the schema validates, the
    identities and their order and the schema metadata are unchanged, the
    named column has the new name and every other column is found as before;
    on any error the schema left in place is the original one. *)
Theorem rename_column_atomic (s : LogicalSchema) (c : ColumnId) (n : string) :
  match rename_column s c n with
  | (Ok _, s') =>
      ValidSchema s' /\ id <$> fields s' = id <$> fields s /\
      schema_metadata s' = schema_metadata s /\
      (exists f, schema_field s c = Some f /\ schema_field s' c = Some (set_name n f)) /\
      forall d, d <> c -> schema_field s' d = schema_field s d
  | (Err e, s') => s' = s
  end.
Proof. apply rename_column_spec. Qed.
