(* ===== verification/Codec.v ===== *)
(** * The canonical schema descriptor: [LogicalSchema::canonical_bytes]

    The encoder of [stillflow-core/src/logical.rs] runs twice over the same
    task stack, first into a [CountingSink] and then into a [VecSink].  The
    interface [EncodingSink] states what a sink promises, the encoder is
    proved against the interface, and the two sinks discharge it.
    [encode_schema] is the recursive reference encoding; it is injective. *)

From S2P Require Import Prelude Text Secrets Logical Schema.

(** ** Fixed-width integers as bytes *)

Fixpoint le_bytes (width : nat) (v : N) : list N :=
  match width with
  | 0 => []
  | S width => (v mod 256)%N :: le_bytes width (v / 256)
  end.
Definition u16_le (v : N) : list N := le_bytes 2 v.
Definition u32_le (v : N) : list N := le_bytes 4 v.
(** [Uuid::as_bytes]: big-endian. *)
Definition uuid_bytes (u : Uuid) : list N := reverse (le_bytes 16 u).

Lemma le_bytes_length w v : length (le_bytes w v) = w.
Proof. revert v; induction w; intros v; simpl; auto. Qed.

Lemma le_bytes_inj w v v' :
  (v < 256 ^ N.of_nat w)%N -> (v' < 256 ^ N.of_nat w)%N ->
  le_bytes w v = le_bytes w v' -> v = v'.
Proof.
  revert v v'; induction w as [|w IH]; intros v v' Hv Hv' Heq.
  - simpl in *. lia.
  - injection Heq as Hm Hd. rewrite Nat2N.inj_succ, N.pow_succ_r' in Hv.
    rewrite Nat2N.inj_succ, N.pow_succ_r' in Hv'.
    apply IH in Hd; [|apply N.Div0.div_lt_upper_bound; lia..].
    rewrite (N.div_mod' v 256), (N.div_mod' v' 256). congruence.
Qed.

(** ** Sinks *)

Class EncodingSink (Sink : Type) := put : Sink -> list N -> result LogicalError Sink.

Record CountingSink := mkCounting { sink_length : N }.
#[export] Instance CountingSink_put : EncodingSink CountingSink := fun s bytes =>
  n ← ok_or (checked_add (sink_length s) (len bytes)) CanonicalEncodingOverflow;
  Ok (mkCounting n).

Record VecSink := mkVec { out : list N }.
#[export] Instance VecSink_put : EncodingSink VecSink := fun s bytes =>
  Ok (mkVec (out s ++ bytes)).

(** [u32::try_from(n)?.to_le_bytes()] put into the sink. *)
Definition put_u32 `{EncodingSink Sink} (s : Sink) (n : N) : result LogicalError Sink :=
  if (u32_max <? n)%N then Err CanonicalEncodingOverflow else put s (u32_le n).

(** ** The encoder *)

Definition type_tag (t : LogicalType) : N :=
  match t with
  | TNull => 0x00 | TBoolean => 0x01 | TInt8 => 0x02 | TInt16 => 0x03
  | TInt32 => 0x04 | TInt64 => 0x05 | TUInt8 => 0x06 | TUInt16 => 0x07
  | TUInt32 => 0x08 | TUInt64 => 0x09 | TFloat32 => 0x0A | TFloat64 => 0x0B
  | TUtf8 => 0x0C | TBinary => 0x0D | TDate32 => 0x0E | TTimestamp _ _ => 0x0F
  | TList _ => 0x10 | TStruct _ => 0x11
  end.

Definition canonical_time_unit_tag (u : TimeUnit) : N :=
  match u with
  | Second => 0x00 | Millisecond => 0x01 | Microsecond => 0x02 | Nanosecond => 0x03
  end.

Definition encode_metadata_block `{EncodingSink Sink} (s : Sink) (m : gmap string string)
  : result LogicalError Sink :=
  s ← put_u32 s (len (btree_iter m));
  fold_result (fun s (kv : string * string) =>
    if (u32_max <? str_len kv.1)%N then Err CanonicalEncodingOverflow else
    if (u32_max <? str_len kv.2)%N then Err CanonicalEncodingOverflow else
    s ← put s (u32_le (str_len kv.1));
    s ← put s (bytes_of kv.1);
    s ← put s (u32_le (str_len kv.2));
    put s (bytes_of kv.2)) s (btree_iter m).

Inductive EncodeTask :=
| EField (f : LogicalField)
| EFields (fs : list LogicalField)
| EType (t : LogicalType)
| EMetadata (m : gmap string string).

(** The sink after the call and the tasks pushed. *)
Definition encode_canonical_type `{EncodingSink Sink} (s : Sink) (t : LogicalType)
  : result LogicalError (Sink * list EncodeTask) :=
  match t with
  | TTimestamp unit timezone =>
      s ← put s [type_tag t; canonical_time_unit_tag unit];
      match timezone with
      | None => s ← put s [0%N]; Ok (s, [])
      | Some timezone =>
          if (u32_max <? str_len timezone)%N then Err CanonicalEncodingOverflow else
          s ← put s [1%N];
          s ← put s (u32_le (str_len timezone));
          s ← put s (bytes_of timezone);
          Ok (s, [])
      end
  | TList element =>
      s ← put s [type_tag t]; Ok (s, [EType element])
  | TStruct fields =>
      s ← put s [type_tag t];
      s ← put_u32 s (len fields);
      Ok (s, [EFields fields])
  | _ => s ← put s [type_tag t]; Ok (s, [])
  end.

(** One iteration of [run_encode_tasks]. *)
Definition encode_task `{EncodingSink Sink} (s : Sink) (task : EncodeTask)
  : result LogicalError (Sink * list EncodeTask) :=
  match task with
  | EFields fields => Ok (s, EField <$> reverse fields)
  | EField f =>
      s ← put_u32 s (str_len (name f));
      s ← put s (bytes_of (name f));
      s ← put s (uuid_bytes (id f));
      s ← put s [if nullable f then 1%N else 0%N];
      Ok (s, [EMetadata (metadata f); EType (data_type f)])
  | EType t => encode_canonical_type s t
  | EMetadata m => s ← encode_metadata_block s m; Ok (s, [])
  end.

Fixpoint encode_weight (t : LogicalType) : nat :=
  match t with
  | TList e => S (encode_weight e)
  | TStruct fs => S (S (sum_list_with (fun f => S (S (encode_weight (data_type f)))) fs))
  | _ => 1
  end.
Definition task_children (task : EncodeTask) : list EncodeTask :=
  match task with
  | EFields fs => EField <$> reverse fs
  | EField f => [EMetadata (metadata f); EType (data_type f)]
  | EType (TList e) => [EType e]
  | EType (TStruct fs) => [EFields fs]
  | _ => []
  end.
Definition task_weight (task : EncodeTask) : nat :=
  match task with
  | EFields fs => S (sum_list_with (fun f => S (S (encode_weight (data_type f)))) fs)
  | EField f => S (S (encode_weight (data_type f)))
  | EType t => encode_weight t
  | EMetadata _ => 1
  end.
Lemma task_children_weight task :
  sum_list_with task_weight (task_children task) < task_weight task.
Proof.
  destruct task as [f|fs|t|m]; cbn [task_children task_weight]; [simpl; lia| |destruct t; simpl; lia|simpl; lia].
  rewrite sum_list_with_fmap, sum_list_with_reverse. simpl. lia.
Qed.
#[export] Instance EncodeTask_tree : Tree EncodeTask := {|
  children := task_children;
  weight := task_weight;
  weight_children := task_children_weight;
|}.

Definition run_encode_tasks `{EncodingSink Sink} (tasks : list EncodeTask) (s : Sink)
  : result LogicalError Sink :=
  run encode_task (Err CanonicalEncodingOverflow) s tasks.

Definition encode_canonical_into `{EncodingSink Sink} (schema : LogicalSchema) (s : Sink)
  : result LogicalError Sink :=
  s ← put s (u16_le (version schema));
  s ← put_u32 s (len (fields schema));
  s ← run_encode_tasks [EFields (fields schema)] s;
  encode_metadata_block s (schema_metadata schema).

(** [can_reserve] is the allocator's answer to [try_reserve_exact]. *)
Definition canonical_bytes (can_reserve : N -> bool) (schema : LogicalSchema)
  : result LogicalError (list N) :=
  counter ← encode_canonical_into schema (mkCounting 0);
  if negb (can_reserve (sink_length counter)) then Err CanonicalEncodingOverflow else
  sink ← encode_canonical_into schema (mkVec []);
  Ok (out sink).

(** ** What a sink promises *)

(** Appending in pieces is appending at once, and the only failure is
    [CanonicalEncodingOverflow]. *)
Class LawfulSink (Sink : Type) `{EncodingSink Sink} := {
  sink_ok : Sink -> Prop;
  put_ok s bytes s' : sink_ok s -> put s bytes = Ok s' -> sink_ok s';
  put_nil s : sink_ok s -> put s [] = Ok s;
  put_app s b c : sink_ok s -> (s' ← put s b; put s' c) = put s (b ++ c);
  put_err s bytes e : put s bytes = Err e -> e = CanonicalEncodingOverflow;
}.

#[export] Instance CountingSink_lawful : LawfulSink CountingSink.
Proof.
  refine {| sink_ok s := (sink_length s <= usize_max)%N |}.
  - intros [n] b s' Hs (m & Hm & [= <-])%bind_Ok.
    by apply ok_or_Ok, checked_add_Some in Hm as [-> ?].
  - intros [n] Hs. apply bind_Ok. exists n. split; [|done].
    apply ok_or_Ok, checked_add_Some. simpl in *. unfold len. simpl. lia.
  - intros [n] b c Hs. unfold put, CountingSink_put, checked_add. simpl in *.
    rewrite len_app. destruct (N.leb_spec (n + len b) usize_max); simpl.
    + replace (n + len b + len c)%N with (n + (len b + len c))%N by lia. done.
    + destruct (N.leb_spec (n + (len b + len c)) usize_max); [lia|done].
  - intros [n] b e. unfold put, CountingSink_put. simpl.
    destruct (checked_add n (len b)); simpl; congruence.
Defined.

#[export] Instance VecSink_lawful : LawfulSink VecSink.
Proof.
  refine {| sink_ok _ := True |}.
  - done.
  - intros [o] _. unfold put, VecSink_put. simpl. by rewrite app_nil_r.
  - intros [o] b c _. unfold put, VecSink_put. simpl. by rewrite app_assoc.
  - done.
Defined.

(** ** The reference encoding *)

Definition fits_u32 (n : N) : bool := (n <=? u32_max)%N.

Definition enc_text (s : string) : list N := u32_le (str_len s) ++ bytes_of s.
Definition enc_entry (kv : string * string) : list N := enc_text kv.1 ++ enc_text kv.2.
Definition enc_metadata (m : gmap string string) : list N :=
  u32_le (len (btree_iter m)) ++ (btree_iter m ≫= enc_entry).
Definition entry_fits (kv : string * string) : bool :=
  fits_u32 (str_len kv.1) && fits_u32 (str_len kv.2).
Definition metadata_fits (m : gmap string string) : bool :=
  fits_u32 (len (btree_iter m)) && forallb entry_fits (btree_iter m).

Definition enc_field {T} (enc : T -> list N) (f : Field T) : list N :=
  enc_text (name f) ++ uuid_bytes (id f) ++ [if nullable f then 1%N else 0%N]
  ++ enc (data_type f) ++ enc_metadata (metadata f).
Definition field_fits {T} (fits : T -> bool) (f : Field T) : bool :=
  fits_u32 (str_len (name f)) && fits (data_type f) && metadata_fits (metadata f).

Fixpoint enc_type (t : LogicalType) : list N :=
  type_tag t :: match t with
  | TTimestamp u None => [canonical_time_unit_tag u; 0%N]
  | TTimestamp u (Some z) => [canonical_time_unit_tag u; 1%N] ++ enc_text z
  | TList e => enc_type e
  | TStruct fs => u32_le (len fs) ++ (fs ≫= enc_field enc_type)
  | _ => []
  end.
Fixpoint type_fits (t : LogicalType) : bool :=
  match t with
  | TTimestamp _ (Some z) => fits_u32 (str_len z)
  | TList e => type_fits e
  | TStruct fs => fits_u32 (len fs) && forallb (field_fits type_fits) fs
  | _ => true
  end.

Definition encode_schema (s : LogicalSchema) : list N :=
  u16_le (version s) ++ u32_le (len (fields s)) ++ (fields s ≫= enc_field enc_type)
  ++ enc_metadata (schema_metadata s).
Definition schema_fits (s : LogicalSchema) : bool :=
  fits_u32 (len (fields s)) && forallb (field_fits type_fits) (fields s)
  && metadata_fits (schema_metadata s).

(** ** The encoder refines the reference *)

Section encoder.
Context `{LawfulSink Sink}.
Implicit Types s : Sink.

(** A guarded write, the normal form of every encoding step. *)
Definition emit s (fits : bool) (bytes : list N) : result LogicalError Sink :=
  if fits then put s bytes else Err CanonicalEncodingOverflow.

Lemma emit_emit s f b (k : Sink -> result LogicalError Sink) g c :
  sink_ok s -> (forall s', sink_ok s' -> k s' = emit s' g c) ->
  (s' ← emit s f b; k s') = emit s (f && g) (b ++ c).
Proof.
  intros Hs Hk. destruct f; [|done]. unfold emit at 1. simpl.
  destruct g; simpl.
  - rewrite <- put_app by done. destruct (put s b) as [s'|e] eqn:Hp; simpl; [|done].
    rewrite Hk by eauto using put_ok. done.
  - destruct (put s b) as [s'|e] eqn:Hp; simpl; [|by apply put_err in Hp as ->].
    rewrite Hk by eauto using put_ok. done.
Qed.

Lemma over_u32 n : (u32_max <? n)%N = negb (fits_u32 n).
Proof. unfold fits_u32. apply N.ltb_antisym. Qed.

Lemma put_u32_emit s n : put_u32 s n = emit s (fits_u32 n) (u32_le n).
Proof. unfold put_u32, emit. rewrite over_u32. by destruct (fits_u32 n). Qed.

Lemma fold_emit {A} (step : Sink -> A -> result LogicalError Sink) fits bytes l :
  (forall s a, sink_ok s -> step s a = emit s (fits a) (bytes a)) ->
  forall s, sink_ok s -> fold_result step s l = emit s (forallb fits l) (l ≫= bytes).
Proof.
  intros Hstep. induction l as [|a l IH]; intros s Hs; simpl.
  - unfold emit. by rewrite put_nil.
  - rewrite Hstep by done. by apply emit_emit.
Qed.

Lemma put_emit s b : put s b = emit s true b.
Proof. done. Qed.

Lemma encode_metadata_emit s m :
  sink_ok s -> encode_metadata_block s m = emit s (metadata_fits m) (enc_metadata m).
Proof.
  intros Hs. unfold encode_metadata_block. rewrite put_u32_emit.
  apply emit_emit; [done|]. intros s' Hs'. apply fold_emit; [|done].
  clear s s' Hs Hs'. intros s [k v] Hs. unfold enc_entry, enc_text, entry_fits. cbn [fst snd].
  rewrite !over_u32. destruct (fits_u32 (str_len k)); [|done].
  destruct (fits_u32 (str_len v)); [|done]. rewrite <- !app_assoc. cbn [andb negb].
  rewrite put_emit. apply (emit_emit _ true _ _ true); [done|]. clear s Hs. intros s Hs.
  rewrite put_emit. apply (emit_emit _ true _ _ true); [done|]. clear s Hs. intros s Hs.
  rewrite put_emit. apply (emit_emit _ true _ _ true); [done|]. done.
Qed.
End encoder.

(** What one task writes itself, and what its whole subtree writes. *)
Definition own_bytes (task : EncodeTask) : list N :=
  match task with
  | EFields _ => []
  | EField f => enc_text (name f) ++ uuid_bytes (id f) ++ [if nullable f then 1%N else 0%N]
  | EType (TTimestamp u z) => enc_type (TTimestamp u z)
  | EType (TStruct fs) => type_tag (TStruct fs) :: u32_le (len fs)
  | EType t => [type_tag t]
  | EMetadata m => enc_metadata m
  end.
Definition own_fits (task : EncodeTask) : bool :=
  match task with
  | EFields _ => true
  | EField f => fits_u32 (str_len (name f))
  | EType (TTimestamp u z) => type_fits (TTimestamp u z)
  | EType (TStruct fs) => fits_u32 (len fs)
  | EType t => true
  | EMetadata m => metadata_fits m
  end.
Definition task_bytes (task : EncodeTask) : list N :=
  match task with
  | EFields fs => fs ≫= enc_field enc_type
  | EField f => enc_field enc_type f
  | EType t => enc_type t
  | EMetadata m => enc_metadata m
  end.
Definition task_fits (task : EncodeTask) : bool :=
  match task with
  | EFields fs => forallb (field_fits type_fits) fs
  | EField f => field_fits type_fits f
  | EType t => type_fits t
  | EMetadata m => metadata_fits m
  end.

Lemma visits_bytes task : visits task ≫= own_bytes = task_bytes task.
Proof.
  induction task as [task IH] using tree_ind. rewrite visits_unfold, bind_cons, list_bind_assoc.
  rewrite (list_bind_ext_in _ task_bytes); [|intros c Hc; apply IH; set_solver]. clear IH.
  destruct task as [f|fs|t|m]; cbn [children EncodeTask_tree task_children own_bytes task_bytes].
  - cbn. unfold enc_field. by rewrite <- !app_assoc, app_nil_r.
  - by rewrite <- fmap_reverse, reverse_involutive, list_bind_fmap.
  - destruct t as [| | | | | | | | | | | | | | |u [z|]|e|fs]; cbn; rewrite ?app_nil_r; done.
  - apply app_nil_r.
Qed.

Lemma visits_fits task : forallb own_fits (visits task) = task_fits task.
Proof.
  induction task as [task IH] using tree_ind. rewrite visits_unfold. cbn [forallb].
  rewrite forallb_bind.
  rewrite (forallb_ext_in _ task_fits); [|intros c Hc; apply IH; set_solver]. clear IH.
  destruct task as [f|fs|t|m]; cbn [children EncodeTask_tree task_children own_fits task_fits].
  - cbn. unfold field_fits. by rewrite andb_true_r, andb_assoc.
  - rewrite <- fmap_reverse, reverse_involutive, forallb_fmap. done.
  - destruct t as [| | | | | | | | | | | | | | |u [z|]|e|fs]; cbn; rewrite ?andb_true_r; done.
  - apply andb_true_r.
Qed.

Lemma encode_task_pushes `{LawfulSink Sink} (s : Sink) task s' ps :
  encode_task s task = Ok (s', ps) -> ps = children task.
Proof.
  destruct task as [f|fs|t|m]; simpl.
  - repeat (intros (? & _ & Hk)%bind_Ok; revert Hk). by intros [= <- <-].
  - by intros [= <- <-].
  - destruct t as [| | | | | | | | | | | | | | |u [z|]|e|fs]; simpl;
      try (intros (? & _ & [= <- <-])%bind_Ok; done).
    + intros (? & _ & Hk)%bind_Ok. destruct (u32_max <? str_len z)%N; [done|]. revert Hk.
      repeat (intros (? & _ & Hk)%bind_Ok; revert Hk). by intros [= <- <-].
    + repeat (intros (? & _ & Hk)%bind_Ok; revert Hk). by intros [= <- <-].
    + repeat (intros (? & _ & Hk)%bind_Ok; revert Hk). by intros [= <- <-].
  - by intros (? & _ & [= <- <-])%bind_Ok.
Qed.

(** One task is a guarded write of its own bytes. *)
Section enter_task.
Context `{LawfulSink Sink}.

Lemma emit_then {P} (s : Sink) f b (k : Sink -> result LogicalError (Sink * P)) g c :
  sink_ok s -> (forall s', sink_ok s' -> fst <$> k s' = emit s' g c) ->
  fst <$> (s' ← emit s f b; k s') = emit s (f && g) (b ++ c).
Proof.
  intros Hs Hk. rewrite <- (emit_emit s f b (fun s' => fst <$> k s') g c) by done.
  by destruct (emit s f b).
Qed.

Lemma emit_done {P} (s : Sink) (p : P) : sink_ok s -> fst <$> Ok (s, p) = emit s true [].
Proof. intros Hs. unfold emit. by rewrite put_nil. Qed.

Lemma emit_last {P} (s : Sink) f b (p : P) :
  fst <$> (s' ← emit s f b; Ok (s', p)) = emit s f b.
Proof. by destruct (emit s f b). Qed.

Lemma enter_type_emit (s : Sink) t :
  sink_ok s ->
  fst <$> encode_canonical_type s t = emit s (own_fits (EType t)) (own_bytes (EType t)).
Proof.
  intros Hs.
  assert (forall tag (ps : list EncodeTask),
    fst <$> (s' ← put s [tag]; Ok (s', ps)) = emit s true [tag]) as Htag.
  { intros tag ps. rewrite put_emit. apply emit_last. }
  destruct t as [| | | | | | | | | | | | | | |u [z|]|e|fs]; try apply Htag;
    cbn [encode_canonical_type]; rewrite put_emit.
  - apply (emit_then s true [_; _] _ (fits_u32 (str_len z)) (1%N :: enc_text z)); [done|].
    clear s Hs Htag. intros s Hs.
    rewrite over_u32. unfold enc_text.
    destruct (fits_u32 (str_len z)); [|done]. cbn [negb].
    rewrite put_emit. apply (emit_then s true [1%N] _ true); [done|]. clear s Hs. intros s Hs.
    rewrite put_emit. apply (emit_then s true _ _ true); [done|]. clear s Hs. intros s Hs.
    rewrite put_emit. apply emit_last.
  - apply (emit_then s true [_; _] _ true [0%N]); [done|]. clear s Hs Htag. intros s Hs.
    rewrite put_emit. apply emit_last.
  - apply (emit_then s true [_] _ (fits_u32 (len fs)) (u32_le (len fs))); [done|].
    clear s Hs Htag. intros s Hs. rewrite put_u32_emit. apply emit_last.
Qed.

Lemma enter_task_emit (s : Sink) task :
  sink_ok s -> enter encode_task s task = emit s (own_fits task) (own_bytes task).
Proof.
  intros Hs. unfold enter. destruct task as [f|fs|t|m].
  - cbn [encode_task own_fits own_bytes]. unfold enc_text. rewrite put_u32_emit.
    rewrite <- app_assoc.
    rewrite <- (andb_true_r (fits_u32 _)) at 2.
    apply emit_then; [done|]. clear s Hs. intros s Hs.
    rewrite put_emit. apply (emit_then s true _ _ true); [done|]. clear s Hs. intros s Hs.
    rewrite put_emit. apply (emit_then s true _ _ true); [done|]. clear s Hs. intros s Hs.
    rewrite put_emit. apply emit_last.
  - by apply emit_done.
  - by apply enter_type_emit.
  - cbn [encode_task own_fits own_bytes]. rewrite encode_metadata_emit by done.
    apply emit_last.
Qed.

Lemma encode_canonical_emit (s : Sink) schema :
  sink_ok s ->
  encode_canonical_into schema s = emit s (schema_fits schema) (encode_schema schema).
Proof.
  intros Hs. unfold encode_canonical_into, schema_fits, encode_schema. rewrite put_emit.
  rewrite <- andb_assoc.
  apply (emit_emit s true _ _ _); [done|]. clear s Hs. intros s Hs. rewrite put_u32_emit.
  apply emit_emit; [done|]. clear s Hs. intros s Hs. unfold run_encode_tasks.
  rewrite (run_tree encode_task encode_task_pushes).
  rewrite (fold_emit _ own_fits own_bytes) by (done || apply enter_task_emit).
  rewrite visits_bytes, visits_fits. apply emit_emit; [done|]. clear s Hs. intros s Hs.
  by apply encode_metadata_emit.
Qed.
End enter_task.

(** The answer of [canonical_bytes], on every schema. *)
Lemma put_counting bytes :
  put (mkCounting 0) bytes =
  if (len bytes <=? usize_max)%N then Ok (mkCounting (len bytes)) else Err CanonicalEncodingOverflow.
Proof.
  unfold put, CountingSink_put, checked_add. cbn [sink_length]. rewrite N.add_0_l.
  by destruct (len bytes <=? usize_max)%N.
Qed.

Lemma canonical_bytes_eq can_reserve s :
  canonical_bytes can_reserve s =
  if schema_fits s && (len (encode_schema s) <=? usize_max)%N
     && can_reserve (len (encode_schema s))
  then Ok (encode_schema s) else Err CanonicalEncodingOverflow.
Proof.
  unfold canonical_bytes.
  rewrite !encode_canonical_emit; [|done|simpl; unfold usize_max; lia].
  unfold emit. destruct (schema_fits s); [|done]. cbn [andb]. rewrite put_counting.
  destruct (len (encode_schema s) <=? usize_max)%N; [|done]. cbn -[encode_schema].
  by destruct (can_reserve (len (encode_schema s))).
Qed.

Lemma canonical_bytes_Ok can_reserve s bytes :
  canonical_bytes can_reserve s = Ok bytes ->
  schema_fits s = true /\ bytes = encode_schema s.
Proof.
  rewrite canonical_bytes_eq. destruct (schema_fits s); [|done].
  destruct (len (encode_schema s) <=? usize_max)%N; [|done].
  destruct (can_reserve _); [|done]. by intros [= <-].
Qed.

(** ** The encoding is injective *)

(** Every piece of the encoding is self-delimiting on its domain. *)
Definition self_delimiting {A} (dom : A -> Prop) (enc : A -> list N) : Prop :=
  forall a b r s, dom a -> dom b -> enc a ++ r = enc b ++ s -> a = b /\ r = s.

Lemma app_same_length {A} (a b r s : list A) :
  List.length a = List.length b -> a ++ r = b ++ s -> a = b /\ r = s.
Proof. intros Hl Heq. by apply app_inj_1 in Heq. Qed.

Lemma le_bytes_delim w : self_delimiting (fun v => v < 256 ^ N.of_nat w)%N (le_bytes w).
Proof.
  intros v v' r s Hv Hv' Heq.
  apply app_same_length in Heq as [Heq ->]; [|by rewrite !le_bytes_length].
  split; [|done]. by eapply le_bytes_inj.
Qed.

Lemma u32_delim : self_delimiting (fun v => fits_u32 v = true) u32_le.
Proof.
  intros v v' r s Hv%N.leb_le Hv'%N.leb_le. apply le_bytes_delim; unfold u32_max in *; simpl; lia.
Qed.

Lemma uuid_delim : self_delimiting (fun v => v < uuid_bound)%N uuid_bytes.
Proof.
  intros v v' r s Hv Hv' Heq.
  apply app_same_length in Heq as [Heq ->]; [|unfold uuid_bytes; by rewrite !length_reverse, !le_bytes_length].
  split; [|done]. apply (f_equal reverse) in Heq. unfold uuid_bytes in Heq.
  rewrite !reverse_involutive in Heq. by eapply (le_bytes_inj 16).
Qed.

Lemma text_delim : self_delimiting (fun s => fits_u32 (str_len s) = true) enc_text.
Proof.
  intros t t' r s Ht Ht' Heq. unfold enc_text in Heq. rewrite <- !app_assoc in Heq.
  apply u32_delim in Heq as [Hlen Heq]; [|done..].
  apply app_same_length in Heq as [Heq ->]; [split; [by apply bytes_of_inj|done]|].
  unfold str_len, len in Hlen. by apply Nat2N.inj.
Qed.

(** A counted sequence of self-delimiting elements is self-delimiting. *)
Lemma seq_delim {A} (dom : A -> Prop) (enc : A -> list N) l l' r s :
  Forall (fun a => forall b r s, dom b -> enc a ++ r = enc b ++ s -> a = b /\ r = s) l ->
  Forall dom l' -> List.length l = List.length l' ->
  (l ≫= enc) ++ r = (l' ≫= enc) ++ s -> l = l' /\ r = s.
Proof.
  intros Hl. revert l'. induction Hl as [|a l Ha Hl IH]; intros l' Hl' Hlen Heq.
  - destruct l'; [done|discriminate].
  - destruct l' as [|b l']; [discriminate|]. apply Forall_cons in Hl' as [Hb Hl'].
    rewrite !bind_cons, <- !app_assoc in Heq. apply Ha in Heq as [-> Heq]; [|done].
    apply IH in Heq as [-> ->]; [done|done|]. by injection Hlen.
Qed.

Lemma metadata_delim : self_delimiting (fun m => metadata_fits m = true) enc_metadata.
Proof.
  intros m m' r s [Hc Hf]%andb_prop [Hc' Hf']%andb_prop Heq.
  unfold enc_metadata in Heq. rewrite <- !app_assoc in Heq.
  apply u32_delim in Heq as [Hlen Heq]; [|done..].
  apply (seq_delim (fun kv => entry_fits kv = true)) in Heq as [Heq ->].
  - split; [by apply btree_iter_inj|done].
  - apply Forall_forall. intros [k v] Hkv [k' v'] r' s' [Hk' Hv']%andb_prop Heq'.
    rewrite forallb_Forall, Forall_forall in Hf. apply Hf in Hkv as [Hk Hv]%andb_prop.
    unfold enc_entry in Heq'. rewrite <- !app_assoc in Heq'.
    apply text_delim in Heq' as [Hkk Heq']; [|done..].
    apply text_delim in Heq' as [Hvv ->]; [|done..]. simpl in *. by subst.
  - by apply forallb_Forall.
  - by apply Nat2N.inj.
Qed.

(** The column identities of a type are 128-bit. *)
Fixpoint uuids_ok (t : LogicalType) : bool :=
  match t with
  | TList e => uuids_ok e
  | TStruct fs => forallb (fun f => (id f <? uuid_bound)%N && uuids_ok (data_type f)) fs
  | _ => true
  end.
Definition field_uuids_ok (f : LogicalField) : bool :=
  (id f <? uuid_bound)%N && uuids_ok (data_type f).

Definition type_dom (t : LogicalType) : Prop := type_fits t = true /\ uuids_ok t = true.
Definition field_dom (f : LogicalField) : Prop :=
  field_fits type_fits f = true /\ field_uuids_ok f = true.

Lemma field_delim (f g : LogicalField) r s :
  (forall t r s, type_dom t -> enc_type (data_type f) ++ r = enc_type t ++ s ->
     data_type f = t /\ r = s) ->
  field_dom f -> field_dom g ->
  enc_field enc_type f ++ r = enc_field enc_type g ++ s -> f = g /\ r = s.
Proof.
  intros Ht [Hf Hu] [Hg Hv] Heq. unfold field_fits, field_uuids_ok in *.
  rewrite !andb_true_iff in Hf, Hg. rewrite !andb_true_iff, N.ltb_lt in Hu, Hv.
  destruct Hf as [[Hfn Hft] Hfm], Hg as [[Hgn Hgt] Hgm], Hu as [Hfi Hfu], Hv as [Hgi Hgu].
  unfold enc_field in Heq. rewrite <- !app_assoc in Heq.
  apply text_delim in Heq as [Hname Heq]; [|done..].
  apply uuid_delim in Heq as [Hid Heq]; [|done..]. injection Heq as Hnull Heq.
  apply Ht in Heq as [Htype Heq]; [|by split].
  apply metadata_delim in Heq as [Hmeta ->]; [|done..].
  destruct f, g; simpl in *; subst. split; [|done]. f_equal. by repeat case_match.
Qed.

Lemma type_delim : self_delimiting type_dom enc_type.
Proof.
  intros t. induction t as [t Hl Hs|e IH|fs IH] using LogicalType_nested_ind;
    intros t' r s [Hf Hu] [Hf' Hu'] Heq.
  - destruct t as [| | | | | | | | | | | | | | |u z|e|fs]; [..|by destruct (Hl e)|by destruct (Hs fs)];
      destruct t' as [| | | | | | | | | | | | | | |u' z'|e'|fs']; try discriminate Heq;
      try (injection Heq as ->; done).
    destruct z as [z|], z' as [z'|]; try (injection Heq as Htag Hb Heq; destruct u, u'; done).
    + apply (app_same_length [_; _; _] [_; _; _] (enc_text z ++ r) (enc_text z' ++ s))
        in Heq as [Hh Heq]; [|done].
      apply text_delim in Heq as [-> ->]; [|done..]. by destruct u, u'.
    + injection Heq as Htag ->. by destruct u, u'.
  - destruct t' as [| | | | | | | | | | | | | | |u' [z'|]|e'|fs']; try discriminate Heq.
    injection Heq as Heq. apply IH in Heq as [-> ->]; done.
  - destruct t' as [| | | | | | | | | | | | | | |u' [z'|]|e'|fs']; try discriminate Heq.
    apply (app_same_length [_] [_] ((u32_le (len fs) ++ (fs ≫= enc_field enc_type)) ++ r)
      ((u32_le (len fs') ++ (fs' ≫= enc_field enc_type)) ++ s)) in Heq as [_ Heq]; [|done].
    rewrite <- !app_assoc in Heq.
    apply andb_prop in Hf as [Hn Hf], Hf' as [Hn' Hf'].
    apply u32_delim in Heq as [Hlen Heq]; [|done..].
    apply (seq_delim field_dom) in Heq as [-> ->].
    + done.
    + apply Forall_forall. intros f Hfs g r' s' Hg.
      rewrite forallb_Forall, Forall_forall in Hf. simpl in Hu.
      rewrite forallb_Forall, Forall_forall in Hu. rewrite Forall_forall in IH.
      specialize (Hf f Hfs). specialize (Hu f Hfs).
      apply field_delim; [|by split|done]. intros t r1 s1 Ht. apply IH; [done| |done].
      unfold field_fits in Hf. rewrite !andb_true_iff in Hf. apply andb_prop in Hu.
      split; naive_solver.
    + simpl in Hu'. rewrite forallb_Forall in Hf', Hu'. by apply Forall_and.
    + by apply Nat2N.inj.
Qed.

Definition schema_dom (s : LogicalSchema) : Prop :=
  schema_fits s = true /\ (version s < 2 ^ 16)%N /\ Forall (fun f => field_uuids_ok f = true) (fields s).

Lemma encode_schema_inj s1 s2 :
  schema_dom s1 -> schema_dom s2 -> encode_schema s1 = encode_schema s2 -> s1 = s2.
Proof.
  intros (Hf1 & Hv1 & Hu1) (Hf2 & Hv2 & Hu2) Heq. unfold schema_fits in *.
  rewrite !andb_true_iff, forallb_Forall in Hf1, Hf2.
  destruct Hf1 as [[Hn1 Hf1] Hm1], Hf2 as [[Hn2 Hf2] Hm2].
  unfold encode_schema in Heq. apply (le_bytes_delim 2) in Heq as [Hv Heq]; [|done..].
  apply u32_delim in Heq as [Hlen Heq]; [|done..].
  apply (seq_delim field_dom) in Heq as [Hfs Heq].
  - rewrite <- (app_nil_r (enc_metadata (schema_metadata s1))) in Heq.
    rewrite <- (app_nil_r (enc_metadata (schema_metadata s2))) in Heq.
    apply metadata_delim in Heq as [Hm _]; [|done..]. destruct s1, s2; simpl in *. by subst.
  - apply Forall_forall. intros f Hf g r s Hg. rewrite Forall_forall in Hf1, Hu1.
    specialize (Hf1 f Hf). specialize (Hu1 f Hf). apply field_delim; [|by split|done].
    intros t r1 s1' Ht. apply type_delim; [|done].
    unfold field_fits in Hf1. rewrite !andb_true_iff in Hf1. apply andb_prop in Hu1.
    split; naive_solver.
  - by apply Forall_and.
  - by apply Nat2N.inj.
Qed.

(** ** A valid schema always has an encoding *)

Lemma len_le_bytes w v : len (le_bytes w v) = N.of_nat w.
Proof. unfold len. by rewrite le_bytes_length. Qed.

Lemma len_enc_text t : len (enc_text t) = (4 + str_len t)%N.
Proof. unfold enc_text. rewrite len_app. unfold u32_le. by rewrite len_le_bytes. Qed.

(** Distinct keys: at most one of them is empty. *)
Lemma entries_le_text (l : list (string * string)) :
  NoDup l.*1 ->
  (len l <= sum_by (fun kv => str_len kv.1 + str_len kv.2) l + 1)%N /\
  (EmptyString ∉ l.*1 -> len l <= sum_by (fun kv => str_len kv.1 + str_len kv.2) l)%N.
Proof.
  induction l as [|[k v] l IH]; intros Hnd; [done|].
  apply NoDup_cons in Hnd as [Hk Hnd]. destruct (IH Hnd) as [IH1 IH2]. rewrite len_cons, sum_by_cons. cbn [fst snd].
  destruct (decide (k = EmptyString)) as [->|Hne].
  - specialize (IH2 Hk). split; [lia|]. intros []. left.
  - assert (1 <= str_len k)%N.
    { destruct k; [done|]. unfold str_len, bytes_of. cbn [String.list_ascii_of_string].
      rewrite len_fmap, len_cons. lia. }
    split; [lia|]. intros Hnil. 
    assert (EmptyString ∉ l.*1) as Hl by (intros ?; apply Hnil; by right). specialize (IH2 Hl). lia.
Qed.

Lemma btree_iter_keys {V} (m : gmap string V) : NoDup (btree_iter m).*1.
Proof. rewrite btree_iter_Permutation. apply NoDup_fst_map_to_list. Qed.

Lemma len_enc_metadata m : (len (enc_metadata m) <= 12 + 9 * metadata_text m)%N.
Proof.
  unfold enc_metadata, u32_le. rewrite len_app, len_le_bytes, len_bind.
  destruct (entries_le_text (btree_iter m)) as [Hc _]; [apply btree_iter_keys|].
  rewrite (sum_by_ext_in _ (fun kv => 8 * 1 + (str_len kv.1 + str_len kv.2))%N).
  - rewrite (sum_by_add (fun _ => 8 * 1)%N). unfold metadata_text in *.
    assert (forall l : list (string * string), sum_by (fun _ => 8 * 1)%N l = 8 * len l)%N as ->; [|lia].
    induction l as [|a l IH]; [done|]. rewrite len_cons, sum_by_cons. lia.
  - intros [k v] _. unfold enc_entry. rewrite len_app, !len_enc_text. simpl. lia.
Qed.

Lemma metadata_fits_text m :
  (metadata_text m <= MAX_SCHEMA_TEXT_BYTES)%N -> metadata_fits m = true.
Proof.
  intros Hm. unfold MAX_SCHEMA_TEXT_BYTES in Hm. unfold metadata_fits, fits_u32. apply andb_true_iff. split.
  - apply N.leb_le. destruct (entries_le_text (btree_iter m)) as [Hc _]; [apply btree_iter_keys|].
    unfold metadata_text, u32_max in *. lia.
  - apply forallb_Forall, Forall_forall. intros [k v] Hkv.
    apply (sum_by_elem (fun kv : string * string => str_len kv.1 + str_len kv.2)%N) in Hkv.
    unfold entry_fits, fits_u32. rewrite andb_true_iff, !N.leb_le.
    unfold metadata_text, u32_max in *. simpl in *. lia.
Qed.

Lemma type_fits_bounds t :
  (type_fields t <= MAX_SCHEMA_FIELDS)%N -> (type_text t <= MAX_SCHEMA_TEXT_BYTES)%N ->
  type_fits t = true.
Proof.
  induction t as [t Hl Hs|e IH|fs IH] using LogicalType_nested_ind; intros Hf Ht.
  - destruct t as [| | | | | | | | | | | | | | |u [z|]|e|fs]; try done;
      [|by destruct (Hl e)|by destruct (Hs fs)].
    simpl in *. apply N.leb_le. unfold MAX_SCHEMA_TEXT_BYTES, u32_max in *. lia.
  - by apply IH.
  - cbn [type_fits type_fields type_text] in *. apply andb_true_iff. split.
    + rewrite sum_by_add, sum_by_one in Hf. apply N.leb_le.
      unfold MAX_SCHEMA_FIELDS, u32_max in *. lia.
    + apply forallb_Forall, Forall_forall. intros f Hfs.
      rewrite Forall_forall in IH. specialize (IH f Hfs).
      apply (sum_by_elem (fun f => 1 + type_fields (data_type f))%N) in Hfs as Hf1.
      apply (sum_by_elem (fun f => own_text f + type_text (data_type f))%N) in Hfs as Ht1.
      unfold own_text in Ht1. unfold field_fits. rewrite !andb_true_iff. split_and!.
      * apply N.leb_le. unfold MAX_SCHEMA_TEXT_BYTES, u32_max in *. unfold own_text in Ht. lia.
      * apply IH; unfold own_text in Ht; lia.
      * apply metadata_fits_text. unfold own_text in Ht. lia.
Qed.

Lemma len_enc_struct fs :
  Forall (fun f => type_depth (data_type f) <= MAX_SCHEMA_NESTING_DEPTH)%N fs ->
  Forall (fun f => len (enc_type (data_type f)) <= type_depth (data_type f) + 8
    + 9 * type_text (data_type f) + 105 * type_fields (data_type f))%N fs ->
  (sum_by (fun f => len (enc_field enc_type f)) fs <=
   9 * fields_text fs + 105 * fields_count fs)%N.
Proof.
  intros Hd Ht. unfold fields_text, fields_count. rewrite <- !sum_by_scale, <- sum_by_add.
  apply sum_by_le. intros f Hf. rewrite Forall_forall in Hd, Ht.
  specialize (Hd f Hf). specialize (Ht f Hf). simpl in Hd, Ht.
  unfold enc_field, uuid_bytes. rewrite !len_app, len_enc_text, len_cons.
  unfold len at 1. rewrite length_reverse, le_bytes_length. change (len []) with 0%N.
  pose proof (len_enc_metadata (metadata f)).
  unfold own_text, MAX_SCHEMA_NESTING_DEPTH in *. lia.
Qed.

Lemma len_enc_type t :
  (type_depth t <= MAX_SCHEMA_NESTING_DEPTH)%N ->
  (len (enc_type t) <= type_depth t + 8 + 9 * type_text t + 105 * type_fields t)%N.
Proof.
  induction t as [t Hl Hs|e IH|fs IH] using LogicalType_nested_ind; intros Hd.
  - destruct t as [| | | | | | | | | | | | | | |u [z|]|e|fs];
      try (by destruct (Hl e)); try (by destruct (Hs fs)); try (vm_compute; discriminate).
    cbn [enc_type app]. rewrite !len_cons, len_enc_text. simpl. lia.
  - cbn [enc_type type_depth type_text type_fields] in *. rewrite len_cons.
    specialize (IH ltac:(lia)). lia.
  - cbn [enc_type type_depth type_text type_fields] in *. rewrite len_cons, len_app.
    unfold u32_le. rewrite len_le_bytes, len_bind.
    assert (Forall (fun f => type_depth (data_type f) <= MAX_SCHEMA_NESTING_DEPTH)%N fs) as Hdf
      by (apply max_by_le; lia).
    assert (Forall (fun f => len (enc_type (data_type f)) <= type_depth (data_type f) + 8
      + 9 * type_text (data_type f) + 105 * type_fields (data_type f))%N fs) as Hlen.
    { rewrite Forall_forall in *. auto. }
    pose proof (len_enc_struct fs Hdf Hlen) as Hle. unfold fields_text, fields_count in Hle. lia.
Qed.

Lemma len_enc_fields fs :
  Forall (fun f => type_depth (data_type f) <= MAX_SCHEMA_NESTING_DEPTH)%N fs ->
  (sum_by (fun f => len (enc_field enc_type f)) fs <=
   9 * fields_text fs + 105 * fields_count fs)%N.
Proof.
  intros Hd. apply len_enc_struct; [done|]. eapply Forall_impl; [exact Hd|].
  intros f Hf. by apply len_enc_type.
Qed.

Lemma valid_encodes s :
  ValidSchema s -> schema_fits s = true /\ (len (encode_schema s) <= usize_max)%N.
Proof.
  intros [_ _ _ _ Hd Hc Ht].
  assert (type_depth (TStruct (fields s)) <= 1 + MAX_SCHEMA_NESTING_DEPTH)%N as Hds.
  { cbn [type_depth]. apply max_by_le in Hd. lia. }
  assert (type_fits (TStruct (fields s)) = true) as Hfits.
  { apply type_fits_bounds; [done|]. unfold fields_text in Ht. cbn [type_text]. lia. }
  split.
  - unfold schema_fits. apply andb_true_iff. split; [exact Hfits|].
    apply metadata_fits_text. lia.
  - assert (sum_by (fun f => len (enc_field enc_type f)) (fields s) <=
      9 * fields_text (fields s) + 105 * fields_count (fields s))%N as Hle by (by apply len_enc_fields).
    unfold encode_schema. rewrite !len_app, len_bind. unfold u16_le, u32_le. rewrite !len_le_bytes.
    pose proof (len_enc_metadata (schema_metadata s)).
    unfold MAX_SCHEMA_FIELDS, MAX_SCHEMA_TEXT_BYTES, usize_max in *. lia.
Qed.

(** The facts the Rust types state: [version : u16], identities [u128]. *)
Definition schema_typed (s : LogicalSchema) : bool :=
  (version s <? 2 ^ 16)%N && forallb field_uuids_ok (fields s).

(** ** Claims *)

(** The canonical descriptor exists for every schema that validates.
    The counting pass never overflows and agrees with the writing pass, so
    unless the allocator refuses the exact length the result is the
    reference encoding [encode_schema]. *)
Theorem canonical_bytes_valid (can_reserve : N -> bool) (s : LogicalSchema) :
  schema_validate s = Ok tt ->
  canonical_bytes can_reserve s =
  if can_reserve (len (encode_schema s)) then Ok (encode_schema s)
  else Err CanonicalEncodingOverflow.
Proof.
  intros Hv%validate_exact. destruct (valid_encodes s Hv) as [Hf Hl].
  apply N.leb_le in Hl. by rewrite canonical_bytes_eq, Hf, Hl.
Qed.

Definition example_schema : LogicalSchema := mkSchema 1%N
  [mkField 7%N "amount" (TTimestamp Second (Some "UTC"%string)) true ∅;
   mkField 8%N "tags" (TList (TStruct [mkField 9%N "k" TUtf8 false ∅])) false {["unit"%string := "x"%string]}]
  ∅.

Lemma canonical_bytes_valid_witness :
  canonical_bytes (fun _ => true) example_schema = Ok (encode_schema example_schema).
Proof. apply (canonical_bytes_valid (fun _ => true)). vm_compute. reflexivity. Defined.

(** C6: the descriptor identifies the schema: two schemas with the same
    canonical bytes are equal, whatever their nesting and metadata. *)
Theorem canonical_bytes_injective (r1 r2 : N -> bool) (s1 s2 : LogicalSchema) (bytes : list N) :
  schema_typed s1 = true -> schema_typed s2 = true ->
  canonical_bytes r1 s1 = Ok bytes -> canonical_bytes r2 s2 = Ok bytes -> s1 = s2.
Proof.
  intros [Hv1 Hu1]%andb_prop [Hv2 Hu2]%andb_prop
    [Hf1 ->]%canonical_bytes_Ok [Hf2 Heq]%canonical_bytes_Ok.
  apply N.ltb_lt in Hv1, Hv2. rewrite forallb_Forall in Hu1, Hu2.
  by apply encode_schema_inj.
Qed.

Lemma canonical_bytes_injective_witness : example_schema = example_schema.
Proof.
  apply (canonical_bytes_injective (fun _ => true) (fun _ => true) example_schema example_schema
    (encode_schema example_schema)); vm_compute; reflexivity.
Defined.
