(* ===== verification/Expression.v ===== *)
(** * Logical expressions: [stillflow-core/src/expression.rs]

    The expression language, its iterative traversals and the local shape
    check.  The traversals keep an explicit [pending] stack; the theorems
    relate them to structural recursion. *)

From S2P Require Import Prelude Text Secrets Logical Schema.

(** ** Literals *)

(** An [f64] is its IEEE-754 bit pattern, a [u64]. *)
Definition F64 := N.
Definition f64_magnitude (bits : F64) : N := (bits mod 2 ^ 63)%N.
Definition f64_exponent (bits : F64) : N := (N.shiftr bits 52 mod 2 ^ 11)%N.
Definition f64_is_finite (bits : F64) : bool := negb (f64_exponent bits =? 0x7FF)%N.
(** [value == 0.0], true of both zeros. *)
Definition f64_is_zero (bits : F64) : bool := (f64_magnitude bits =? 0)%N.
Arguments f64_is_finite : simpl never.
Arguments f64_is_zero : simpl never.

Record FiniteF64 := mkFinite { finite_bits : F64 }.
#[export] Instance FiniteF64_eq_dec : EqDecision FiniteF64.
Proof. solve_decision. Defined.

Definition FiniteF64_new (value : F64) : result LogicalError FiniteF64 :=
  if negb (f64_is_finite value) then Err NonFiniteFloat else
  let canonical := if f64_is_zero value then 0%N else value in
  Ok (mkFinite canonical).

(** [i64] and [u64] literals are integers in range; the range is a fact of
    the Rust type. *)
Inductive ScalarValue :=
| SNull
| SBoolean (b : bool)
| SInt64 (i : Z)
| SUInt64 (n : N)
| SFloat64 (f : FiniteF64)
| SUtf8 (s : string).
#[export] Instance ScalarValue_eq_dec : EqDecision ScalarValue.
Proof. solve_decision. Defined.

Definition scalar_float64 (value : F64) : result LogicalError ScalarValue :=
  SFloat64 <$> FiniteF64_new value.

(** ** Expressions *)

Inductive UnaryOperator := Not | Negate.
Inductive BinaryOperator :=
| Equal | NotEqual | LessThan | LessThanOrEqual | GreaterThan | GreaterThanOrEqual
| And | Or | Add | Subtract | Multiply | Divide | Modulo | Contains.
#[export] Instance UnaryOperator_eq_dec : EqDecision UnaryOperator.
Proof. solve_decision. Defined.
#[export] Instance BinaryOperator_eq_dec : EqDecision BinaryOperator.
Proof. solve_decision. Defined.

Inductive Expr :=
| Column (column : ColumnId)
| Literal (value : ScalarValue)
| Unary (operator : UnaryOperator) (expression : Expr)
| Binary (left : Expr) (operator : BinaryOperator) (right : Expr)
| IsNull (expression : Expr) (negated : bool)
| Cast (expression : Expr) (target : LogicalType)
| Coalesce (expressions : list Expr)
| Concat (expressions : list Expr)
| Conditional (predicate then_ otherwise : Expr)
| Substring (expression : Expr) (start length : N).

(** The pushes of the [pending] loops, in the order of the [push] calls. *)
Definition expr_pushes (e : Expr) : list Expr :=
  match e with
  | Column _ | Literal _ => []
  | Unary _ e | IsNull e _ | Cast e _ | Substring e _ _ => [e]
  | Binary l _ r => [r; l]
  | Conditional predicate then_ otherwise => [otherwise; then_; predicate]
  | Coalesce es | Concat es => es
  end.

Fixpoint expr_weight (e : Expr) : nat :=
  match e with
  | Column _ | Literal _ => 1
  | Unary _ e | IsNull e _ | Cast e _ | Substring e _ _ => S (expr_weight e)
  | Binary l _ r => S (expr_weight l + expr_weight r)
  | Conditional p t o => S (expr_weight p + expr_weight t + expr_weight o)
  | Coalesce es | Concat es => S (sum_list_with expr_weight es)
  end.

Lemma expr_pushes_weight e : sum_list_with expr_weight (expr_pushes e) < expr_weight e.
Proof. destruct e; simpl; lia. Qed.
#[export] Instance Expr_tree : Tree Expr := {|
  children := expr_pushes;
  weight := expr_weight;
  weight_children := expr_pushes_weight;
|}.

(** One iteration of the loop of [referenced_columns]; it never fails. *)
Definition collect_column (columns : gset ColumnId) (e : Expr)
  : result Empty_set (gset ColumnId * list Expr) :=
  match e with
  | Column column => Ok ({[column]} ∪ columns, [])
  | Literal _ => Ok (columns, [])
  | Unary _ e | IsNull e _ | Cast e _ => Ok (columns, [e])
  | Binary l _ r => Ok (columns, [r; l])
  | Substring e _ _ => Ok (columns, [e])
  | Conditional predicate then_ otherwise => Ok (columns, [otherwise; then_; predicate])
  | Coalesce es | Concat es => Ok (columns, es)
  end.

Definition referenced_columns (e : Expr) : gset ColumnId :=
  match run collect_column (Ok ∅) ∅ [e] with
  | Ok columns => columns
  | Err absurd => match absurd with end
  end.

(** One iteration of the loop of [validate_shape]. *)
Definition shape_step (_ : unit) (e : Expr) : result LogicalError (unit * list Expr) :=
  match e with
  | Column _ => Ok (tt, [])
  | Literal (SUtf8 value) =>
      try! map_err (fun _ => UnsafeLiteral) (ensure_no_secret_fields (JString value));
      Ok (tt, [])
  | Literal _ => Ok (tt, [])
  | Unary _ e | IsNull e _ => Ok (tt, [e])
  | Cast e target => try! validate_type target; Ok (tt, [e])
  | Binary l _ r => Ok (tt, [r; l])
  | Concat es => Ok (tt, es)
  | Substring e start _ =>
      if (start <? 1)%N then Err SubstringStartBelowOne else Ok (tt, [e])
  | Conditional predicate then_ otherwise => Ok (tt, [otherwise; then_; predicate])
  | Coalesce es => match es with [] => Err EmptyCoalesce | _ => Ok (tt, es) end
  end.

Definition validate_shape (e : Expr) : result LogicalError unit :=
  run shape_step (Err UnsafeLiteral) tt [e].

(** Iteration of a [BTreeSet<ColumnId>]: ascending. *)
Definition btree_set_iter (columns : gset ColumnId) : list ColumnId :=
  merge_sort N.le (elements columns).

Definition expr_validate (e : Expr) (schema : LogicalSchema) : result LogicalError unit :=
  try! validate_shape e;
  try! schema_validate schema;
  each (fun column =>
    match schema_field schema column with
    | None => Err (UnknownColumn column)
    | Some _ => Ok tt
    end) (btree_set_iter (referenced_columns e)).

Record SourceFilter := mkFilter { filter_expression : Expr }.
Definition SourceFilter_new (e : Expr) : result LogicalError SourceFilter :=
  try! validate_shape e; Ok (mkFilter e).

(** ** Structural reading of the traversals *)

Fixpoint columns_of (e : Expr) : list ColumnId :=
  match e with
  | Column c => [c]
  | Literal _ => []
  | Unary _ e | IsNull e _ | Cast e _ | Substring e _ _ => columns_of e
  | Binary l _ r => columns_of l ++ columns_of r
  | Conditional p t o => columns_of p ++ columns_of t ++ columns_of o
  | Coalesce es | Concat es => es ≫= columns_of
  end.

(** Literals carry no secret, casts target well-formed types, [Coalesce] is
    not empty and substrings start at one or later, everywhere in the tree. *)
Inductive ShapeOk : Expr -> Prop :=
| shape_column c : ShapeOk (Column c)
| shape_literal v :
    (forall s, v = SUtf8 s -> json_safe (JString s)) -> ShapeOk (Literal v)
| shape_unary o e : ShapeOk e -> ShapeOk (Unary o e)
| shape_binary l o r : ShapeOk l -> ShapeOk r -> ShapeOk (Binary l o r)
| shape_is_null e n : ShapeOk e -> ShapeOk (IsNull e n)
| shape_cast e t : ShapeOk e -> validate_type t = Ok tt -> ShapeOk (Cast e t)
| shape_coalesce es : es <> [] -> Forall ShapeOk es -> ShapeOk (Coalesce es)
| shape_concat es : Forall ShapeOk es -> ShapeOk (Concat es)
| shape_conditional p t o :
    ShapeOk p -> ShapeOk t -> ShapeOk o -> ShapeOk (Conditional p t o)
| shape_substring e s n : (1 <= s)%N -> ShapeOk e -> ShapeOk (Substring e s n).

Lemma collect_column_pushes s e s' ps :
  collect_column s e = Ok (s', ps) -> ps = children e.
Proof. destruct e; simpl; congruence. Qed.

Lemma shape_step_pushes s e s' ps : shape_step s e = Ok (s', ps) -> ps = children e.
Proof.
  destruct e as [| [] | | | | |[]| | |]; simpl; try congruence.
  - by intros (? & _ & [= <- <-])%bind_Ok.
  - by intros (? & _ & [= <- <-])%bind_Ok.
  - case_match; congruence.
Qed.

(** A set collected over the visits is the union over the children. *)
Lemma elem_of_columns_of_children e c :
  c ∈ columns_of e <-> e = Column c \/ exists e', e' ∈ children e /\ c ∈ columns_of e'.
Proof.
  destruct e; simpl; rewrite ?elem_of_app, ?elem_of_list_singleton, ?list_elem_of_bind; set_solver.
Qed.

Lemma elem_of_columns_of_visits e c : c ∈ columns_of e <-> Column c ∈ visits e.
Proof.
  induction e as [e IH] using tree_ind.
  rewrite elem_of_columns_of_children, elem_of_visits_inv. naive_solver.
Qed.

Lemma collect_column_fold l s :
  exists s', fold_result (enter collect_column) s l = Ok s' /\
    forall c, c ∈ s' <-> c ∈ s \/ Column c ∈ l.
Proof.
  revert s. induction l as [|e l IH]; intros s; simpl; [exists s; set_solver|].
  assert (exists s1, enter collect_column s e = Ok s1 /\
    forall c, c ∈ s1 <-> c ∈ s \/ e = Column c) as (s1 & -> & H1).
  { destruct e; eexists; (split; [reflexivity|]); set_solver. }
  destruct (IH s1) as (s2 & Hs2 & H2). exists s2. split; [done|]. set_solver.
Qed.

Lemma referenced_columns_eq e : referenced_columns e = list_to_set (columns_of e).
Proof.
  unfold referenced_columns. rewrite (run_tree collect_column collect_column_pushes).
  destruct (collect_column_fold (visits e) ∅) as (s & -> & Hs).
  apply set_eq. intros c. rewrite Hs, elem_of_list_to_set, elem_of_columns_of_visits. set_solver.
Qed.

Definition shape_check (e : Expr) : result LogicalError unit := enter shape_step tt e.

Lemma validate_shape_each e : validate_shape e = each shape_check (visits e).
Proof.
  unfold validate_shape. rewrite (run_tree shape_step shape_step_pushes).
  apply fold_result_unit.
Qed.

Lemma ShapeOk_unfold e :
  ShapeOk e <-> shape_check e = Ok tt /\ Forall ShapeOk (children e).
Proof.
  unfold shape_check, enter. rewrite fmap_Ok. split.
  - destruct 1 as [c|v Hv|o e He|l o r Hl Hr|e n He|e t He Ht|es Hne Hes|es Hes|p t o Hp Ht Ho|e s n Hs He];
      cbn [shape_step children Expr_tree expr_pushes];
      repeat constructor; try done; try by eexists (tt, _).
    + destruct v as [| | | | |s]; try by eexists (tt, _).
      exists (tt, []). split; [|done]. apply bind_Ok. exists tt. split; [|done].
      apply map_err_Ok, ensure_no_secret_fields_exact. by apply Hv.
    + exists (tt, [e]). by rewrite Ht.
    + destruct es; [done|]. by eexists (tt, _).
    + exists (tt, [e]). destruct (N.ltb_spec s 1); [lia|done].
  - intros [([] & Hstep & _) Hc]. destruct e; cbn [shape_step children Expr_tree expr_pushes] in *;
      repeat match goal with H : Forall _ (_ :: _) |- _ => apply Forall_cons in H as [? H] end;
      try by constructor.
    + constructor. intros s ->. apply bind_Ok in Hstep as ([] & Hs & _).
      by apply map_err_Ok, ensure_no_secret_fields_exact in Hs.
    + apply bind_Ok in Hstep as ([] & Ht & _). by constructor.
    + constructor; [|done]. by intros ->.
    + destruct (N.ltb_spec start 1); [done|]. by constructor.
Qed.

Lemma shape_exact e : validate_shape e = Ok tt <-> ShapeOk e.
Proof.
  rewrite validate_shape_each, each_Ok. apply visits_Forall_gen, ShapeOk_unfold.
Qed.

#[export] Instance N_le_total : Total N.le.
Proof. intros x y. lia. Qed.

Lemma elem_of_btree_set_iter s c : c ∈ btree_set_iter s <-> c ∈ s.
Proof. unfold btree_set_iter. rewrite merge_sort_Permutation. apply elem_of_elements. Qed.

Lemma expr_validate_Ok e s :
  expr_validate e s = Ok tt <->
  ShapeOk e /\ ValidSchema s /\ forall c, c ∈ columns_of e -> is_Some (schema_field s c).
Proof.
  unfold expr_validate. rewrite bind_Ok. setoid_rewrite bind_Ok. setoid_rewrite each_Ok.
  setoid_rewrite Forall_forall. setoid_rewrite elem_of_btree_set_iter.
  setoid_rewrite referenced_columns_eq. setoid_rewrite elem_of_list_to_set.
  rewrite <- shape_exact, <- validate_exact. split.
  - intros ([] & Hsh & [] & Hv & Hc). split_and!; [done..|]. intros c Hce.
    specialize (Hc c Hce). destruct (schema_field s c); [eauto|done].
  - intros (Hsh & Hv & Hc). exists tt. split; [done|]. exists tt. split; [done|].
    intros c Hce. by destruct (Hc c Hce) as [f ->].
Qed.

(** ** Claims *)

(** The iterative shape check accepts exactly the expressions that
    satisfy the recursive [ShapeOk]; it terminates on every expression,
    however deep. *)
Theorem validate_shape_exact (e : Expr) : validate_shape e = Ok tt <-> ShapeOk e.
Proof. apply shape_exact. Qed.

(** Validating an expression against a schema succeeds exactly when the
    shape is right, the schema is valid and every column the expression
    mentions anywhere is a field of the schema. *)
Theorem expr_validate_exact (e : Expr) (s : LogicalSchema) :
  expr_validate e s = Ok tt <->
  ShapeOk e /\ ValidSchema s /\ forall c, c ∈ columns_of e -> is_Some (schema_field s c).
Proof. apply expr_validate_Ok. Qed.

(** Float literals are canonical.  Two finite bit patterns give the same
    literal exactly when they are the same pattern or both are a zero, so
    derived equality of literals is equality of the numbers; infinities and
    NaNs are refused. *)
Theorem FiniteF64_canonical (v w : F64) :
  f64_is_finite v = true ->
  (FiniteF64_new v = FiniteF64_new w <->
   f64_is_finite w = true /\ (v = w \/ f64_is_zero v = true /\ f64_is_zero w = true)).
Proof.
  intros Hv. unfold FiniteF64_new. rewrite Hv. cbn [negb].
  destruct (f64_is_finite w); cbn [negb]; [|split; [discriminate|by intros []]].
  assert (f64_is_zero 0%N = true) as H0 by reflexivity. generalize dependent (f64_is_zero).
  intros zero H0. destruct (zero v) eqn:Zv, (zero w) eqn:Zw; split;
    try (intros [= Heq]); try (intros [_ [->|[? ?]]]); auto; congruence.
Qed.

Lemma FiniteF64_canonical_witness :
  FiniteF64_new 0%N = FiniteF64_new (2 ^ 63)%N.
Proof. apply (FiniteF64_canonical 0%N (2 ^ 63)%N); [|split; [|right; split]]; reflexivity. Defined.
