(* ===== verification/Rule.v ===== *)
(** * Cleaning rules: [stillflow-plan/src/rule.rs] *)

From S2P Require Import Prelude Text Secrets Logical Schema Expression.

Inductive CastFailurePolicy := FailError | SetNull.
Inductive ValidationSeverity := SeverityWarning | SeverityError.
Inductive TextOperation := OpTrim | CollapseWhitespace | Lowercase | Uppercase | UnicodeNfc.

(** The closed rule language.  Constructors carry an [R] because several of
    the names are also expression constructors. *)
Inductive Rule :=
| RRename (column : ColumnId) (to : string)
| RCast (column : ColumnId) (target : LogicalType) (on_failure : CastFailurePolicy)
| RParseTemporal (column : ColumnId) (target : LogicalType) (on_failure : CastFailurePolicy)
    (format : string)
| RTrim (column : ColumnId)
| RReplaceLiteral (column : ColumnId) (from to : ScalarValue)
| RFillNull (column : ColumnId) (value : ScalarValue)
| RDropColumn (column : ColumnId)
| RDeriveColumn (new_id : ColumnId) (new_name : string) (target : LogicalType)
    (is_nullable : bool) (expression : Expr)
| RFilterRows (predicate : Expr)
| RDeduplicate (keys : list ColumnId)
| RValidate (predicate : Expr) (severity : ValidationSeverity) (message : string)
| RNormalizeText (column : ColumnId) (operation : TextOperation).

Inductive RuleError :=
| EmptyName
| EmptyDeduplicationKeys
| DuplicateDeduplicationKey (key : ColumnId)
| EmptyValidationMessage
| RuleLogical (e : LogicalError).

Definition rule_validate (rule : Rule) : result RuleError unit :=
  match rule with
  | RRename _ to => if is_blank to then Err EmptyName else Ok tt
  | RCast _ target _ => map_err RuleLogical (validate_type target)
  | RReplaceLiteral _ from to =>
      try! map_err RuleLogical (validate_shape (Literal from));
      map_err RuleLogical (validate_shape (Literal to))
  | RFillNull _ value => map_err RuleLogical (validate_shape (Literal value))
  | RDeriveColumn _ new_name target _ expression =>
      if is_blank new_name then Err EmptyName else
      try! map_err RuleLogical (validate_type target);
      map_err RuleLogical (validate_shape expression)
  | RFilterRows predicate => map_err RuleLogical (validate_shape predicate)
  | RDeduplicate keys =>
      match keys with
      | [] => Err EmptyDeduplicationKeys
      | _ =>
          match first_repeat ∅ keys with
          | Some key => Err (DuplicateDeduplicationKey key)
          | None => Ok tt
          end
      end
  | RValidate predicate _ message =>
      if is_blank message then Err EmptyValidationMessage else
      try! map_err RuleLogical (validate_shape (Literal (SUtf8 message)));
      map_err RuleLogical (validate_shape predicate)
  | RNormalizeText _ _ => Ok tt
  | _ => Ok tt
  end.

(** What [Rule::validate] promises. *)
Definition RuleOk (rule : Rule) : Prop :=
  match rule with
  | RRename _ to => is_blank to = false
  | RCast _ target _ => validate_type target = Ok tt
  | RReplaceLiteral _ from to => ShapeOk (Literal from) /\ ShapeOk (Literal to)
  | RFillNull _ value => ShapeOk (Literal value)
  | RDeriveColumn _ n t _ e => is_blank n = false /\ validate_type t = Ok tt /\ ShapeOk e
  | RFilterRows p => ShapeOk p
  | RDeduplicate keys => keys <> [] /\ NoDup keys
  | RValidate p _ m => is_blank m = false /\ ShapeOk (Literal (SUtf8 m)) /\ ShapeOk p
  | RParseTemporal _ _ _ _ | RTrim _ | RDropColumn _ | RNormalizeText _ _ => True
  end.

Lemma try_Ok {E} (m k : result E unit) : (try! m; k) = Ok tt <-> m = Ok tt /\ k = Ok tt.
Proof. rewrite bind_Ok. split; [intros ([] & ? & ?)|intros []]; eauto. Qed.

Lemma rule_validate_Ok rule : rule_validate rule = Ok tt <-> RuleOk rule.
Proof.
  destruct rule; cbn [rule_validate RuleOk];
    rewrite ?try_Ok, ?map_err_Ok, ?shape_exact; try done.
  - by destruct (is_blank to).
  - destruct (is_blank new_name); [naive_solver|].
    rewrite try_Ok, !map_err_Ok, shape_exact. naive_solver.
  - rewrite <- first_repeat_empty. destruct keys; [naive_solver|].
    destruct (first_repeat _ _); naive_solver.
  - destruct (is_blank message); [naive_solver|].
    rewrite try_Ok, !map_err_Ok, !shape_exact. naive_solver.
Qed.
