(* ===== verification/Plan.v ===== *)
(** * Logical plans: [stillflow-plan/src/plan.rs]

    The map-backed DAG of plan nodes, node-local validation, Kahn's
    algorithm with the source's in-degree bookkeeping, and the plan
    fingerprint. *)

From S2P Require Import Prelude Text Secrets Logical Schema Codec Expression Rule.

(** ** Data *)

Definition PLAN_VERSION : N := 1.
Definition MAX_SORT_KEYS : N := 8.
Definition PlanNodeId := Uuid.

Inductive JoinType := Inner | LeftJoin | RightJoin | Full | Semi | Anti.
Record JoinKey := mkJoinKey { join_left : Expr; join_right : Expr }.
Inductive SortDirection := Ascending | Descending.
Inductive NullPlacement := NullsFirst | NullsLast.
Record SortKey := mkSortKey {
  sort_column : ColumnId;
  direction : SortDirection;
  nulls : NullPlacement;
}.

Inductive PlanNodeKind :=
| Scan (source_asset_id : Uuid) (projection : list ColumnId) (predicate : option Expr)
| Project (columns : list ColumnId)
| Filter (predicate : Expr)
| ApplyRules (rules : list Rule)
| Join (join_type : JoinType) (keys : list JoinKey)
| Union
| Sort (keys : list SortKey)
| Materialize (output_label : string).

Definition kind_name (k : PlanNodeKind) : string :=
  match k with
  | Scan _ _ _ => "scan"
  | Project _ => "project"
  | Filter _ => "filter"
  | ApplyRules _ => "applyRules"
  | Join _ _ => "join"
  | Union => "union"
  | Sort _ => "sort"
  | Materialize _ => "materialize"
  end.

Record PlanNode := mkPlanNode { inputs : list PlanNodeId; kind : PlanNodeKind }.

Record LogicalPlan := mkPlan {
  plan_version : N;
  root : PlanNodeId;
  nodes : gmap PlanNodeId PlanNode;
}.

Inductive PlanError :=
| UnsupportedVersion (version : N)
| MissingRoot (node : PlanNodeId)
| UnknownInput (node input : PlanNodeId)
| SelfEdge (node : PlanNodeId)
| InvalidArity (node : PlanNodeId) (kind : string) (minimum maximum actual : N)
| EmptyCollection (node : PlanNodeId) (field : string)
| DuplicateColumn (node : PlanNodeId) (field : string) (column : ColumnId)
| NilSourceAsset (node : PlanNodeId)
| InvalidSortKeyCount (node : PlanNodeId) (actual : N)
| DuplicateSortKey (node : PlanNodeId) (column : ColumnId)
| Cycle
| GraphInvariant
| PlanLogical (e : LogicalError)
| PlanRule (e : RuleError)
| Serialization (message : string).

(** ** Node-local validation *)

Definition validate_columns (node : PlanNodeId) (field : string) (columns : list ColumnId)
  : result PlanError unit :=
  match columns with
  | [] => Err (EmptyCollection node field)
  | _ =>
      match first_repeat ∅ columns with
      | Some column => Err (DuplicateColumn node field column)
      | None => Ok tt
      end
  end.

Definition arity (k : PlanNodeKind) : N * N :=
  match k with
  | Scan _ _ _ => (0, 0)
  | Project _ | Filter _ | ApplyRules _ | Sort _ | Materialize _ => (1, 1)
  | Join _ _ => (2, 2)
  | Union => (2, usize_max)
  end%N.

Definition plan_shape (e : Expr) : result PlanError unit := map_err PlanLogical (validate_shape e).

Definition validate_plan_node (node_id : PlanNodeId) (node : PlanNode) : result PlanError unit :=
  let '(minimum_inputs, maximum_inputs) := arity (kind node) in
  if ((len (inputs node) <? minimum_inputs) || (maximum_inputs <? len (inputs node)))%N
  then Err (InvalidArity node_id (kind_name (kind node)) minimum_inputs maximum_inputs
              (len (inputs node)))
  else match kind node with
  | Scan source_asset_id projection predicate =>
      if is_nil source_asset_id then Err (NilSourceAsset node_id) else
      try! validate_columns node_id "projection" projection;
      match predicate with Some predicate => plan_shape predicate | None => Ok tt end
  | Project columns => validate_columns node_id "columns" columns
  | Filter predicate => plan_shape predicate
  | ApplyRules rules =>
      match rules with
      | [] => Err (EmptyCollection node_id "rules")
      | _ => each (fun rule => map_err PlanRule (rule_validate rule)) rules
      end
  | Join _ keys =>
      match keys with
      | [] => Err (EmptyCollection node_id "join keys")
      | _ => each (fun key => try! plan_shape (join_left key); plan_shape (join_right key)) keys
      end
  | Union => Ok tt
  | Sort keys =>
      if ((len keys =? 0) || (MAX_SORT_KEYS <? len keys))%N
      then Err (InvalidSortKeyCount node_id (len keys))
      else match first_repeat ∅ (sort_column <$> keys) with
           | Some column => Err (DuplicateSortKey node_id column)
           | None => Ok tt
           end
  | Materialize output_label =>
      if is_blank output_label then Err (EmptyCollection node_id "output label") else Ok tt
  end.

(** ** The graph check *)

(** Iteration of a [BTreeMap<PlanNodeId, V>]: ascending identities. *)
Definition id_le {V} (x y : PlanNodeId * V) : Prop := (x.1 <= y.1)%N.
#[export] Instance id_le_dec {V} : RelDecision (@id_le V).
Proof. intros x y. unfold id_le. apply _. Defined.
Definition plan_iter {V} (m : gmap PlanNodeId V) : list (PlanNodeId * V) :=
  merge_sort id_le (map_to_list m).

Record Degrees := mkDegrees {
  indegree : gmap PlanNodeId N;
  outgoing : gmap PlanNodeId (list PlanNodeId);
}.

(** The [for input in &node.inputs] loop of one node. *)
Definition add_edge (all : gmap PlanNodeId PlanNode) (node_id : PlanNodeId) (d : Degrees)
  (input : PlanNodeId) : result PlanError Degrees :=
  match all !! input with
  | None => Err (UnknownInput node_id input)
  | Some _ =>
      if (input =? node_id)%N then Err (SelfEdge node_id) else
      Ok (mkDegrees
        (<[node_id := (default 0 (indegree d !! node_id) + 1)%N]> (indegree d))
        (<[input := default [] (outgoing d !! input) ++ [node_id]]> (outgoing d)))
  end.

Definition add_node (all : gmap PlanNodeId PlanNode) (d : Degrees) (entry : PlanNodeId * PlanNode)
  : result PlanError Degrees :=
  try! validate_plan_node entry.1 entry.2;
  fold_result (add_edge all entry.1) d (inputs entry.2).

(** One dependent of a popped node; the second component is the queue. *)
Definition release (st : gmap PlanNodeId N * list PlanNodeId) (dependent : PlanNodeId)
  : result PlanError (gmap PlanNodeId N * list PlanNodeId) :=
  let '(degrees, ready) := st in
  match degrees !! dependent with
  | None => Err GraphInvariant
  | Some degree =>
      if (degree =? 0)%N then Err GraphInvariant else
      let degree := (degree - 1)%N in
      Ok (<[dependent := degree]> degrees,
          if (degree =? 0)%N then ready ++ [dependent] else ready)
  end.

(** [while let Some(node_id) = ready.pop_front()]: the number of nodes
    popped.  [None] is fuel exhaustion. *)
Fixpoint kahn (fuel : nat) (outgoing : gmap PlanNodeId (list PlanNodeId))
  (degrees : gmap PlanNodeId N) (ready : list PlanNodeId) (visited : N)
  : option (result PlanError N) :=
  match ready with
  | [] => Some (Ok visited)
  | node_id :: ready =>
      match fuel with
      | 0 => None
      | S fuel =>
          match fold_result release (degrees, ready) (default [] (outgoing !! node_id)) with
          | Err e => Some (Err e)
          | Ok (degrees, ready) => kahn fuel outgoing degrees ready (visited + 1)
          end
      end
  end.

(** [hash_iter] is the iteration order of the in-degree [HashMap]; it
    decides the initial queue. *)
Definition plan_validate (hash_iter : gmap PlanNodeId N -> list (PlanNodeId * N))
  (plan : LogicalPlan) : result PlanError unit :=
  if negb (plan_version plan =? PLAN_VERSION)%N
  then Err (UnsupportedVersion (plan_version plan)) else
  match nodes plan !! root plan with
  | None => Err (MissingRoot (root plan))
  | Some _ =>
      d ← fold_result (add_node (nodes plan))
            (mkDegrees ((fun _ => 0%N) <$> nodes plan) ∅) (plan_iter (nodes plan));
      let ready := (fst <$> filter (fun e : PlanNodeId * N => e.2 = 0%N) (hash_iter (indegree d))) in
      visited ← default (Err GraphInvariant)
                  (kahn (size (nodes plan)) (outgoing d) (indegree d) ready 0);
      if negb (visited =? N.of_nat (size (nodes plan)))%N then Err Cycle else Ok tt
  end.

Definition plan_from_parts hash_iter (version : N) (root : PlanNodeId)
  (nodes : gmap PlanNodeId PlanNode) : result PlanError LogicalPlan :=
  let plan := mkPlan version root nodes in
  try! plan_validate hash_iter plan; Ok plan.

Definition plan_new hash_iter (root : PlanNodeId) (nodes : gmap PlanNodeId PlanNode)
  : result PlanError LogicalPlan := plan_from_parts hash_iter PLAN_VERSION root nodes.

(** ** Canonical bytes and fingerprint *)

(** [to_vec] is [serde_json::to_vec] on plans. *)
Definition plan_canonical_bytes hash_iter (to_vec : LogicalPlan -> result string (list N))
  (plan : LogicalPlan) : result PlanError (list N) :=
  try! plan_validate hash_iter plan;
  map_err Serialization (to_vec plan).

Definition PRIME : N := 0x00000100000001b3.
Definition fnv_lanes : list N :=
  [0xcbf29ce484222325; 0x6c62272e07bb0142; 0x9e3779b97f4a7c15; 0xd6e8feb86659fd93]%N.

Definition fnv_step (index lane byte : N) : N :=
  wrapping_mul64 (N.lxor lane (N.lxor byte (N.shiftl index 8))) PRIME.
Definition fnv_byte (lanes : list N) (byte : N) : list N :=
  imap (fun index lane => fnv_step (N.of_nat index) lane byte) lanes.
(** [u64::to_be_bytes] *)
Definition u64_be (v : N) : list N := reverse (le_bytes 8 v).
Definition fingerprint_bytes (bytes : list N) : list N :=
  foldl fnv_byte fnv_lanes bytes ≫= u64_be.

Definition plan_fingerprint hash_iter to_vec (plan : LogicalPlan) : result PlanError (list N) :=
  bytes ← plan_canonical_bytes hash_iter to_vec plan; Ok (fingerprint_bytes bytes).

(** ** Counting *)

Definition occ (x : PlanNodeId) (l : list PlanNodeId) : N := len (filter (fun y => y = x) l).
(** The inputs not yet in [P]. *)
Definition missing (P l : list PlanNodeId) : N := len (filter (fun y => y ∉ P) l).

Lemma occ_cons x y l : occ x (y :: l) = ((if decide (y = x) then 1 else 0) + occ x l)%N.
Proof. unfold occ. rewrite filter_cons. case_decide; [by rewrite len_cons|done]. Qed.

Lemma occ_snoc x l y : occ x (l ++ [y]) = (occ x l + if decide (y = x) then 1 else 0)%N.
Proof. unfold occ. rewrite filter_app, len_app, filter_cons. by case_decide. Qed.

Lemma occ_pos x l : (0 < occ x l)%N <-> x ∈ l.
Proof.
  induction l as [|y l IH]; [split; [done|by intros ?%not_elem_of_nil]|].
  rewrite occ_cons, elem_of_cons, <- IH. case_decide; [naive_solver lia|].
  split; [naive_solver lia|]. intros [->|?]; [done|lia].
Qed.

Lemma missing_cons P y l :
  missing P (y :: l) = ((if decide (y ∈ P) then 0 else 1) + missing P l)%N.
Proof.
  unfold missing. rewrite filter_cons. destruct (decide (y ∈ P)) as [Hy|Hy].
  - rewrite decide_False by (by intros []). done.
  - rewrite decide_True by done. apply len_cons.
Qed.

Lemma missing_snoc P u l :
  u ∉ P -> missing P l = (missing (P ++ [u]) l + occ u l)%N.
Proof.
  intros Hu. induction l as [|y l IH]; [done|].
  rewrite !missing_cons, occ_cons, IH. destruct (decide (y = u)) as [->|Hy].
  - rewrite (decide_False (P := u ∈ P)), (decide_True (P := u ∈ P ++ [u])) by set_solver. lia.
  - destruct (decide (y ∈ P)).
    + rewrite decide_True by set_solver. lia.
    + rewrite decide_False by set_solver. lia.
Qed.

Lemma missing_0 P l : missing P l = 0%N <-> forall x, x ∈ l -> x ∈ P.
Proof.
  induction l as [|y l IH]; [split; [by intros _ x ?%not_elem_of_nil|done]|].
  rewrite missing_cons. case_decide.
  - rewrite N.add_0_l, IH. set_solver.
  - split; [lia|]. intros Hall. specialize (Hall y). set_solver.
Qed.

Lemma missing_nil l : missing [] l = len l.
Proof.
  induction l as [|y l IH]; [done|]. rewrite missing_cons, len_cons, IH.
  by rewrite decide_False by apply not_elem_of_nil.
Qed.

(** ** What plan validation promises *)

Definition ins (ns : gmap PlanNodeId PlanNode) (v : PlanNodeId) : list PlanNodeId :=
  match ns !! v with Some n => inputs n | None => [] end.

(** An order of all the nodes in which inputs come first. *)
Record TopoOrder (ns : gmap PlanNodeId PlanNode) (l : list PlanNodeId) : Prop := {
  topo_nodup : NoDup l;
  topo_all v : v ∈ l <-> is_Some (ns !! v);
  topo_before l1 v l2 i : l = l1 ++ v :: l2 -> i ∈ ins ns v -> i ∈ l1;
}.

Lemma topo_irrefl ns l v : TopoOrder ns l -> v ∈ ins ns v -> False.
Proof.
  intros [Hnd Hall Hb] Hv. assert (v ∈ l) as Hin.
  { apply Hall. unfold ins in Hv. destruct (ns !! v); [eauto|]. by apply not_elem_of_nil in Hv. }
  apply list_elem_of_split in Hin as (l1 & l2 & ->).
  apply NoDup_app in Hnd as (_ & Hd & _). eapply (Hd v); [by eapply Hb|left].
Qed.

(** ** Building the degrees *)

Definition deg (d : Degrees) (v : PlanNodeId) : N := default 0%N (indegree d !! v).
Definition out (d : Degrees) (v : PlanNodeId) : list PlanNodeId := default [] (outgoing d !! v).

Definition input_ok (all : gmap PlanNodeId PlanNode) (v i : PlanNodeId) : Prop :=
  is_Some (all !! i) /\ i <> v.

Lemma add_edge_Ok all v d i d' :
  add_edge all v d i = Ok d' ->
  input_ok all v i /\
  (forall w, deg d' w = deg d w + if decide (w = v) then 1 else 0)%N /\
  (forall u x, occ x (out d' u) =
     occ x (out d u) + if decide (x = v) then (if decide (u = i) then 1 else 0) else 0)%N /\
  (is_Some (indegree d !! v) ->
   forall w, is_Some (indegree d' !! w) <-> is_Some (indegree d !! w)).
Proof.
  unfold add_edge, input_ok. destruct (all !! i) eqn:Hi; [|done].
  destruct (N.eqb_spec i v); [done|]. intros [= <-]. split_and!; [eauto|done|..].
  - intros w. unfold deg. simpl. case_decide as Hw.
    + subst. by rewrite lookup_insert_eq.
    + rewrite lookup_insert_ne by congruence. lia.
  - intros u x. unfold out. simpl. destruct (decide (u = i)) as [->|Hu].
    + rewrite lookup_insert_eq. simpl. rewrite occ_snoc. repeat case_decide; congruence.
    + rewrite lookup_insert_ne by congruence. case_decide; lia.
  - intros Hv w. simpl. rewrite lookup_insert_is_Some'. naive_solver.
Qed.

Lemma add_edges_Ok all v l : forall d d',
  fold_result (add_edge all v) d l = Ok d' ->
  Forall (input_ok all v) l /\
  (forall w, deg d' w = deg d w + if decide (w = v) then len l else 0)%N /\
  (forall u x, occ x (out d' u) = occ x (out d u) + if decide (x = v) then occ u l else 0)%N /\
  (is_Some (indegree d !! v) ->
   forall w, is_Some (indegree d' !! w) <-> is_Some (indegree d !! w)).
Proof.
  induction l as [|i l IH]; intros d d'; simpl.
  - intros [= <-]. split_and!; [constructor| | |done].
    + intros w. change (len []) with 0%N. case_decide; lia.
    + intros u x. change (occ u []) with 0%N. case_decide; lia.
  - intros (d1 & (Hi & Hd & Ho & Hs)%add_edge_Ok & (Hl & Hd' & Ho' & Hs')%IH)%bind_Ok.
    split_and!; [by constructor|..].
    + intros w. rewrite Hd', Hd, len_cons. case_decide; lia.
    + intros u x. rewrite Ho', Ho, occ_cons. repeat case_decide; subst; try congruence; lia.
    + intros Hv w. rewrite <- (Hs Hv w). apply Hs'. by apply Hs.
Qed.

Lemma add_edges_total all v l d :
  Forall (input_ok all v) l -> exists d', fold_result (add_edge all v) d l = Ok d'.
Proof.
  intros Hl. revert d. induction Hl as [|i l [[n Hn] Hne] Hl IH]; intros d; simpl; [eauto|].
  destruct (add_edge all v d i) as [d1|e] eqn:He; simpl; [apply IH|].
  unfold add_edge in He. rewrite Hn in He. by destruct (N.eqb_spec i v).
Qed.

(** Sums over entries with distinct keys. *)
Lemma sum_by_absent {V} (f : V -> N) (es : list (PlanNodeId * V)) w :
  w ∉ es.*1 -> sum_by (fun e => if decide (w = e.1) then f e.2 else 0)%N es = 0%N.
Proof.
  induction es as [|e es IH]; intros Hw; [done|]. rewrite fmap_cons in Hw.
  rewrite sum_by_cons, IH, decide_False by set_solver. done.
Qed.

Lemma sum_by_present {V} (f : V -> N) (es : list (PlanNodeId * V)) w n :
  NoDup es.*1 -> (w, n) ∈ es ->
  sum_by (fun e => if decide (w = e.1) then f e.2 else 0)%N es = f n.
Proof.
  induction es as [|[k m] es IH]; intros Hnd Hw; [by apply not_elem_of_nil in Hw|].
  rewrite fmap_cons in Hnd. apply NoDup_cons in Hnd as [Hk Hnd]. rewrite sum_by_cons.
  apply elem_of_cons in Hw as [[= -> ->]|Hw]; simpl in *.
  - rewrite decide_True, sum_by_absent by done. lia.
  - rewrite decide_False; [by rewrite IH|]. intros ->. apply Hk.
    apply list_elem_of_fmap. by exists (k, n).
Qed.

Definition entry_ok (all : gmap PlanNodeId PlanNode) (e : PlanNodeId * PlanNode) : Prop :=
  validate_plan_node e.1 e.2 = Ok tt /\ Forall (input_ok all e.1) (inputs e.2).

Lemma add_nodes_Ok all es : forall d d',
  fold_result (add_node all) d es = Ok d' ->
  Forall (entry_ok all) es /\
  (forall w, deg d' w = deg d w +
     sum_by (fun e => if decide (w = e.1) then len (inputs e.2) else 0) es)%N /\
  (forall u x, occ x (out d' u) = occ x (out d u) +
     sum_by (fun e => if decide (x = e.1) then occ u (inputs e.2) else 0) es)%N /\
  (Forall (fun e => is_Some (indegree d !! e.1)) es ->
   forall w, is_Some (indegree d' !! w) <-> is_Some (indegree d !! w)).
Proof.
  induction es as [|e es IH]; intros d d'; simpl.
  - intros [= <-]. split_and!; [constructor|intros; simpl; lia..|done].
  - intros (d1 & Hn & (Hl & Hd' & Ho' & Hs')%IH)%bind_Ok.
    apply bind_Ok in Hn as ([] & Hv & (Hi & Hd & Ho & Hs)%add_edges_Ok).
    split_and!; [by constructor|..].
    + intros w. rewrite Hd', Hd. simpl. case_decide; lia.
    + intros u x. rewrite Ho', Ho. simpl. case_decide; lia.
    + intros [He Hes]%Forall_cons w. rewrite <- (Hs He w). apply Hs'.
      eapply Forall_impl; [exact Hes|]. intros e' He'. simpl. by apply Hs.
Qed.

Lemma add_nodes_total all es d :
  Forall (entry_ok all) es -> exists d', fold_result (add_node all) d es = Ok d'.
Proof.
  intros Hes. revert d. induction Hes as [|e es [Hv Hi] Hes IH]; intros d; simpl; [eauto|].
  destruct (add_node all d e) as [d1|err] eqn:He; simpl; [apply IH|].
  unfold add_node in He. rewrite Hv in He. simpl in He.
  destruct (add_edges_total all e.1 (inputs e.2) d Hi) as [d1 Hd1]. congruence.
Qed.

#[export] Instance id_le_total {V} : Total (@id_le V).
Proof. intros x y. unfold id_le. lia. Qed.

Lemma plan_iter_Permutation {V} (m : gmap PlanNodeId V) : plan_iter m ≡ₚ map_to_list m.
Proof. apply merge_sort_Permutation. Qed.

Lemma elem_of_plan_iter {V} (m : gmap PlanNodeId V) k v :
  (k, v) ∈ plan_iter m <-> m !! k = Some v.
Proof. rewrite plan_iter_Permutation. apply elem_of_map_to_list. Qed.

(** What the first phase leaves: in-degrees count the inputs, and [outgoing]
    holds every edge as often as it occurs. *)
Record Built (ns : gmap PlanNodeId PlanNode) (d : Degrees) : Prop := {
  built_deg v : is_Some (ns !! v) -> indegree d !! v = Some (len (ins ns v));
  built_dom v : is_Some (indegree d !! v) -> is_Some (ns !! v);
  built_out u x : occ x (out d u) = occ u (ins ns x);
}.

Lemma build_Ok ns d :
  fold_result (add_node ns) (mkDegrees ((fun _ => 0%N) <$> ns) ∅) (plan_iter ns) = Ok d ->
  Forall (entry_ok ns) (plan_iter ns) /\ Built ns d.
Proof.
  intros (Hes & Hd & Ho & Hs)%add_nodes_Ok. split; [done|].
  assert (NoDup (plan_iter ns).*1) as Hnd.
  { rewrite plan_iter_Permutation. apply NoDup_fst_map_to_list. }
  assert (forall w, is_Some (indegree d !! w) <-> is_Some (ns !! w)) as Hdom.
  { intros w. rewrite Hs; simpl; [by rewrite lookup_fmap, fmap_is_Some|].
    apply Forall_forall. intros [k n] Hk%elem_of_plan_iter. simpl.
    rewrite lookup_fmap, fmap_is_Some. eauto. }
  split.
  - intros v Hv. apply Hdom in Hv as [x Hx]. assert (is_Some (ns !! v)) as [n Hn] by (apply Hdom; eauto).
    rewrite Hx. f_equal. specialize (Hd v). unfold deg in Hd. rewrite Hx in Hd. simpl in Hd.
    rewrite lookup_fmap, Hn in Hd. simpl in Hd. unfold ins. rewrite Hn.
    rewrite (sum_by_present (fun n => len (inputs n)) _ v n) in Hd; [done|done|].
    by apply elem_of_plan_iter.
  - intros v. apply Hdom.
  - intros u x. rewrite Ho. unfold out. simpl. rewrite lookup_empty. simpl. unfold ins.
    destruct (ns !! x) as [n|] eqn:Hx.
    + rewrite (sum_by_present (fun n => occ u (inputs n)) _ x n); [done|done|].
      by apply elem_of_plan_iter.
    + rewrite (sum_by_absent (fun n => occ u (inputs n))); [done|].
      intros ([k n] & Hk & Hin)%list_elem_of_fmap. simpl in *. subst.
      apply elem_of_plan_iter in Hin. congruence.
Qed.

(** ** The Kahn loop *)

Section kahn.
Context (ns : gmap PlanNodeId PlanNode) (og : gmap PlanNodeId (list PlanNodeId)).
Context (Hout : forall u x, occ x (default [] (og !! u)) = occ u (ins ns x)).

(** [P] lists the nodes popped so far; [D] the dependents of the last one
    still to be released. *)
Record Inv (degrees : gmap PlanNodeId N) (ready P D : list PlanNodeId) : Prop := {
  inv_deg v : is_Some (ns !! v) ->
    degrees !! v = Some (missing P (ins ns v) + occ v D)%N;
  inv_nodup : NoDup (P ++ ready);
  inv_known v : v ∈ P ++ ready -> is_Some (ns !! v);
  inv_zero v : is_Some (ns !! v) ->
    (missing P (ins ns v) + occ v D = 0)%N <-> v ∈ P ++ ready;
  inv_topo P1 v P2 i : P = P1 ++ v :: P2 -> i ∈ ins ns v -> i ∈ P1;
  inv_dependents x : x ∈ D -> is_Some (ns !! x);
}.

Lemma release_Ok degrees ready P x D :
  Inv degrees ready P (x :: D) ->
  exists degrees' ready', release (degrees, ready) x = Ok (degrees', ready') /\
    Inv degrees' ready' P D.
Proof.
  intros [Hdeg Hnd Hkn Hz Ht Hdp]. assert (is_Some (ns !! x)) as Hx by (apply Hdp; left).
  unfold release. rewrite (Hdeg x Hx), occ_cons, decide_True by done.
  destruct (N.eqb_spec (missing P (ins ns x) + (1 + occ x D)) 0); [lia|].
  set (m := (missing P (ins ns x) + occ x D)%N).
  replace (missing P (ins ns x) + (1 + occ x D) - 1)%N with m by lia.
  assert (x ∉ P ++ ready) as Hfresh.
  { rewrite <- (Hz x Hx), occ_cons, decide_True by done. lia. }
  assert (forall v, v <> x -> occ v (x :: D) = occ v D) as Hocc.
  { intros v Hv. rewrite occ_cons, decide_False by congruence. done. }
  assert (forall v, is_Some (ns !! v) ->
    <[x:=m]> degrees !! v = Some (missing P (ins ns v) + occ v D)%N) as Hdeg'.
  { intros v Hv. destruct (decide (v = x)) as [->|Hne].
    - by rewrite lookup_insert_eq.
    - rewrite lookup_insert_ne, (Hdeg v Hv), Hocc by congruence. done. }
  destruct (N.eqb_spec m 0) as [Hm|Hm]; eexists _, _; (split; [reflexivity|]); split; try done.
  - rewrite app_assoc. apply NoDup_app. split_and!; [done|set_solver|apply NoDup_singleton].
  - intros v. rewrite app_assoc, elem_of_app, list_elem_of_singleton. intros [?| ->]; auto.
  - intros v Hv. rewrite app_assoc, elem_of_app, list_elem_of_singleton.
    destruct (decide (v = x)) as [->|Hne]; [fold m; tauto|].
    rewrite <- (Hz v Hv), (Hocc v Hne). tauto.
  - intros y Hy. apply Hdp. by right.
  - intros v Hv. destruct (decide (v = x)) as [->|Hne]; [fold m; tauto|].
    rewrite <- (Hz v Hv), (Hocc v Hne). tauto.
  - intros y Hy. apply Hdp. by right.
Qed.

Lemma release_all D : forall degrees ready P,
  Inv degrees ready P D ->
  exists degrees' ready', fold_result release (degrees, ready) D = Ok (degrees', ready') /\
    Inv degrees' ready' P [].
Proof.
  induction D as [|x D IH]; intros degrees ready P HI; cbn [fold_result]; [eauto|].
  apply release_Ok in HI as (d1 & r1 & -> & HI). cbn. by apply IH.
Qed.

Lemma pop_Inv degrees u ready P :
  Inv degrees (u :: ready) P [] -> Inv degrees ready (P ++ [u]) (default [] (og !! u)).
Proof.
  intros [Hdeg Hnd Hkn Hz Ht _].
  assert (u ∉ P) as Hu.
  { apply NoDup_app in Hnd as (_ & Hd & _). intros Hu. apply (Hd u Hu). left. }
  assert (forall v, missing (P ++ [u]) (ins ns v) + occ v (default [] (og !! u)) =
            missing P (ins ns v) + occ v [])%N as Heq.
  { intros v. rewrite Hout, (missing_snoc P u) by done. change (occ v []) with 0%N. lia. }
  assert ((P ++ [u]) ++ ready = P ++ u :: ready) as Hsplit by (by rewrite <- app_assoc).
  split; rewrite ?Hsplit; try done.
  - intros v Hv. rewrite Heq. auto.
  - intros v Hv. rewrite Heq. auto.
  - intros P1 v P2 i Hs Hi.
    induction P2 as [|y P2' _] using rev_ind.
    + apply app_inj_tail in Hs as [-> ->]. revert i Hi. apply missing_0.
      assert (is_Some (ns !! v)) as Hv by (apply Hkn; set_solver).
      assert (v ∈ P1 ++ v :: ready) as Hin by set_solver.
      apply (Hz v Hv) in Hin. lia.
    + rewrite app_comm_cons, app_assoc in Hs. apply app_inj_tail in Hs as [-> _].
      by eapply Ht.
  - intros x Hx. apply occ_pos in Hx. rewrite Hout in Hx. apply occ_pos in Hx.
    unfold ins in Hx. destruct (ns !! x); [eauto|]. by apply not_elem_of_nil in Hx.
Qed.

Lemma known_size l :
  NoDup l -> (forall v, v ∈ l -> is_Some (ns !! v)) -> length l <= size ns.
Proof.
  intros Hnd Hl. rewrite <- size_dom, <- (size_list_to_set (C := gset PlanNodeId)) by done.
  apply subseteq_size. intros v. rewrite elem_of_list_to_set, elem_of_dom. auto.
Qed.

(** The loop ends within one iteration per node, never hits the
    bookkeeping error, and leaves the queue empty. *)
Lemma kahn_Ok fuel : forall degrees ready P,
  Inv degrees ready P [] -> size ns - length P <= fuel ->
  exists degrees' P', kahn fuel og degrees ready (len P) = Some (Ok (len P')) /\
    Inv degrees' [] P' [].
Proof.
  induction fuel as [|fuel IH]; intros degrees [|u ready] P HI Hfuel; simpl; eauto.
  - pose proof (known_size _ (inv_nodup _ _ _ _ HI) (inv_known _ _ _ _ HI)) as Hsz.
    rewrite length_app in Hsz. simpl in Hsz. lia.
  - apply pop_Inv in HI. apply release_all in HI as (d1 & r1 & -> & HI).
    replace (len P + 1)%N with (len (P ++ [u])) by (rewrite len_app; done).
    apply IH; [done|]. rewrite length_app. simpl. lia.
Qed.

(** When the queue is empty every node was popped exactly when the graph
    has a topological order. *)
Lemma popped_all degrees P :
  Inv degrees [] P [] ->
  len P = N.of_nat (size ns) <-> exists l, TopoOrder ns l.
Proof.
  intros [Hdeg Hnd Hkn Hz Ht _]. rewrite app_nil_r in *. split.
  - intros Hlen. exists P. split; [done| |done]. intros v. split; [apply Hkn|].
    intros Hv. assert (dom ns = list_to_set P) as Hdom; [|by rewrite <- elem_of_dom, Hdom, elem_of_list_to_set in Hv].
    symmetry. apply set_subseteq_size_eq; [intros w; rewrite elem_of_list_to_set, elem_of_dom; auto|].
    rewrite size_dom, size_list_to_set by done. unfold len in Hlen. lia.
  - intros [l [Hl Hall Hb]].
    assert (forall l1 l2, l = l1 ++ l2 -> forall v, v ∈ l1 -> v ∈ P) as Hpre.
    { intros l1. induction l1 as [|v l1 IH] using rev_ind; intros l2 Heq w Hw; [by apply not_elem_of_nil in Hw|].
      rewrite <- app_assoc in Heq. apply elem_of_app in Hw as [Hw|Hw]; [by eapply IH|].
      apply list_elem_of_singleton in Hw as ->.
      apply (Hz v). { apply Hall. rewrite Heq. set_solver. }
      change (occ v []) with 0%N. rewrite N.add_0_r. apply missing_0. intros i Hi.
      apply (IH _ Heq). by eapply Hb. }
    unfold len. f_equal. apply Nat.le_antisymm; [by apply known_size|].
    rewrite <- size_dom, <- (size_list_to_set (C := gset PlanNodeId)) by done.
    apply subseteq_size. intros v Hv%elem_of_dom. apply elem_of_list_to_set.
    apply Hall in Hv. apply (Hpre l []); [by rewrite app_nil_r|done].
Qed.
End kahn.

(** ** The whole validation *)

Definition columns_ok (columns : list ColumnId) : Prop := columns <> [] /\ NoDup columns.

(** The local rules of one node. *)
Definition KindOk (k : PlanNodeKind) : Prop :=
  match k with
  | Scan asset projection predicate =>
      asset <> 0%N /\ columns_ok projection /\ from_option ShapeOk True predicate
  | Project columns => columns_ok columns
  | Filter predicate => ShapeOk predicate
  | ApplyRules rules => rules <> [] /\ Forall RuleOk rules
  | Join _ keys =>
      keys <> [] /\ Forall (fun k => ShapeOk (join_left k) /\ ShapeOk (join_right k)) keys
  | Union => True
  | Sort keys => keys <> [] /\ (len keys <= MAX_SORT_KEYS)%N /\ NoDup (sort_column <$> keys)
  | Materialize label => is_blank label = false
  end.
Definition NodeOk (n : PlanNode) : Prop :=
  ((arity (kind n)).1 <= len (inputs n) <= (arity (kind n)).2)%N /\ KindOk (kind n).

Record PlanOk (plan : LogicalPlan) : Prop := {
  plan_ok_version : plan_version plan = PLAN_VERSION;
  plan_ok_root : is_Some (nodes plan !! root plan);
  plan_ok_nodes : map_Forall (fun _ n => NodeOk n) (nodes plan);
  plan_ok_inputs : map_Forall (fun _ n => Forall (fun i => is_Some (nodes plan !! i)) (inputs n)) (nodes plan);
  plan_ok_acyclic : exists l, TopoOrder (nodes plan) l;
}.

Lemma validate_columns_Ok v f cs : validate_columns v f cs = Ok tt <-> columns_ok cs.
Proof.
  unfold validate_columns, columns_ok. destruct cs; [naive_solver|].
  rewrite <- first_repeat_empty. destruct (first_repeat _ _); naive_solver.
Qed.

Lemma plan_shape_Ok e : plan_shape e = Ok tt <-> ShapeOk e.
Proof. unfold plan_shape. by rewrite map_err_Ok, shape_exact. Qed.

Lemma Forall_iff {A} (P Q : A -> Prop) l :
  (forall a, P a <-> Q a) -> Forall P l <-> Forall Q l.
Proof. intros HPQ. rewrite !Forall_forall. naive_solver. Qed.

Lemma validate_plan_node_Ok v n : validate_plan_node v n = Ok tt <-> NodeOk n.
Proof.
  unfold validate_plan_node, NodeOk. destruct (arity (kind n)) as [lo hi]. cbn [fst snd].
  destruct (N.ltb_spec (len (inputs n)) lo), (N.ltb_spec hi (len (inputs n))); cbn [orb];
    try (split; [done|lia]).
  transitivity (KindOk (kind n)); [|split; [split; [lia|done]|by intros []]].
  destruct (kind n) as [asset ps pr|cs|p|rs|jt ks| |ks|lb]; cbn [KindOk].
  - unfold is_nil. destruct (N.eqb_spec asset 0); [naive_solver|].
    rewrite try_Ok, validate_columns_Ok. destruct pr; simpl; rewrite ?plan_shape_Ok; naive_solver.
  - apply validate_columns_Ok.
  - apply plan_shape_Ok.
  - destruct rs; [naive_solver|]. rewrite each_Ok.
    rewrite (Forall_iff _ RuleOk); [naive_solver|]. intros rule. by rewrite map_err_Ok, rule_validate_Ok.
  - destruct ks; [naive_solver|]. rewrite each_Ok.
    rewrite (Forall_iff _ (fun k => ShapeOk (join_left k) /\ ShapeOk (join_right k))); [naive_solver|].
    intros key. by rewrite try_Ok, !plan_shape_Ok.
  - done.
  - destruct (N.eqb_spec (len ks) 0) as [Hk|Hk].
    { destruct ks; [naive_solver|]. rewrite len_cons in Hk. lia. }
    destruct (N.ltb_spec MAX_SORT_KEYS (len ks)); cbn [orb]; [split; [done|naive_solver lia]|].
    rewrite <- first_repeat_empty. destruct (first_repeat _ _); [naive_solver|].
    split; [|done]. intros _. split_and!; [by intros ->|done|done].
  - destruct (is_blank lb); naive_solver.
Qed.

(** The order in which a [HashMap] yields its entries is some permutation. *)
Class HashIter (hash_iter : gmap PlanNodeId N -> list (PlanNodeId * N)) : Prop :=
  hash_iter_Permutation m : hash_iter m ≡ₚ map_to_list m.

Section validate.
Context (hash_iter : gmap PlanNodeId N -> list (PlanNodeId * N)) `{!HashIter hash_iter}.

Definition initial_ready (d : Degrees) : list PlanNodeId :=
  fst <$> filter (fun e : PlanNodeId * N => e.2 = 0%N) (hash_iter (indegree d)).

Lemma elem_of_initial_ready d v :
  v ∈ initial_ready d <-> indegree d !! v = Some 0%N.
Proof.
  unfold initial_ready. rewrite list_elem_of_fmap. split.
  - intros ([k n] & -> & [Hn Hk]%list_elem_of_filter). simpl in *. subst.
    by rewrite hash_iter_Permutation, elem_of_map_to_list in Hk.
  - intros Hv. exists (v, 0%N). split; [done|]. apply list_elem_of_filter. split; [done|].
    by rewrite hash_iter_Permutation, elem_of_map_to_list.
Qed.

Lemma initial_Inv ns d :
  Built ns d -> Inv ns (indegree d) (initial_ready d) [] [].
Proof.
  intros [Hdeg Hdom Hout]. split; simpl.
  - intros v Hv. rewrite missing_nil. change (occ v []) with 0%N. rewrite N.add_0_r. auto.
  - unfold initial_ready. apply NoDup_fmap_fst.
    + by intros v n1 n2 [? _]%list_elem_of_filter [? _]%list_elem_of_filter; simplify_eq/=.
    + apply NoDup_filter. rewrite hash_iter_Permutation. apply NoDup_map_to_list.
  - intros v Hv%elem_of_initial_ready. apply Hdom. eauto.
  - intros v Hv. rewrite elem_of_initial_ready, (Hdeg v Hv), missing_nil.
    change (occ v []) with 0%N. rewrite N.add_0_r. split; [by intros ->|congruence].
  - intros P1 v P2 i Heq. destruct P1; discriminate.
  - intros x Hx. by apply not_elem_of_nil in Hx.
Qed.

(** After the first phase the answer is [Ok] or [Cycle]. *)
Lemma kahn_answer ns d :
  Built ns d ->
  exists n, kahn (size ns) (outgoing d) (indegree d) (initial_ready d) 0 = Some (Ok n) /\
    (n = N.of_nat (size ns) <-> exists l, TopoOrder ns l).
Proof.
  intros HB. destruct (kahn_Ok ns (outgoing d) (built_out _ _ HB) (size ns)
    (indegree d) (initial_ready d) [] (initial_Inv ns d HB)) as (d' & P & HK & HI); [simpl; lia|].
  exists (len P). split; [exact HK|]. exact (popped_all ns (outgoing d) (built_out _ _ HB) _ _ HI).
Qed.
End validate.

Lemma plan_validate_Ok hash_iter `{!HashIter hash_iter} plan :
  plan_validate hash_iter plan = Ok tt <-> PlanOk plan.
Proof.
  unfold plan_validate.
  destruct (N.eqb_spec (plan_version plan) PLAN_VERSION) as [Hv|Hv]; cbn [negb];
    [|split; [done|by intros [Hv' _]]].
  destruct (nodes plan !! root plan) as [r|] eqn:Hr; [|split; [done|intros [_ [? ?] _]; congruence]].
  rewrite bind_Ok. split.
  - intros (d & [Hes HB]%build_Ok & Hk).
    destruct (kahn_answer hash_iter (nodes plan) d HB) as (n & Hn & Htopo).
    unfold initial_ready in Hn. rewrite Hn in Hk. cbn in Hk.
    destruct (N.eqb_spec n (N.of_nat (size (nodes plan)))) as [Heq|]; [|done].
    rewrite Forall_forall in Hes. split; [done|eauto|..].
    + intros v x Hx%elem_of_plan_iter. apply Hes in Hx as [Hx _]. by apply validate_plan_node_Ok in Hx.
    + intros v x Hx%elem_of_plan_iter. apply Hes in Hx as [_ Hx].
      eapply Forall_impl; [exact Hx|]. by intros i [].
    + by apply Htopo.
  - intros [_ _ Hn Hi [l Hl]].
    assert (Forall (entry_ok (nodes plan)) (plan_iter (nodes plan))) as Hes.
    { apply Forall_forall. intros [v x] Hx%elem_of_plan_iter. split; simpl.
      - apply validate_plan_node_Ok. by eapply Hn.
      - apply Forall_forall. intros i Hin. specialize (Hi v x Hx). rewrite Forall_forall in Hi.
        split; [by apply Hi|]. intros ->. by eapply (topo_irrefl _ _ v Hl); unfold ins; rewrite Hx. }
    destruct (add_nodes_total _ _ (mkDegrees ((fun _ => 0%N) <$> nodes plan) ∅) Hes) as [d Hd].
    exists d. split; [done|]. apply build_Ok in Hd as [_ HB].
    destruct (kahn_answer hash_iter (nodes plan) d HB) as (n & Hk & Htopo).
    unfold initial_ready in Hk. rewrite Hk. cbn.
    assert (n = N.of_nat (size (nodes plan))) as -> by (apply Htopo; eauto).
    by rewrite N.eqb_refl.
Qed.

(** The answer does not depend on the hash order, and the bookkeeping error
    is unreachable. *)
Lemma plan_validate_order h1 h2 `{!HashIter h1} `{!HashIter h2} plan :
  plan_validate h1 plan = plan_validate h2 plan.
Proof.
  unfold plan_validate. destruct (negb _); [done|].
  destruct (nodes plan !! root plan); [|done].
  destruct (fold_result _ _ _) as [d|e] eqn:Hd; cbn [mbind result_bind]; [|done].
  apply build_Ok in Hd as [_ HB].
  destruct (kahn_answer h1 (nodes plan) d HB) as (n1 & H1 & Ht1).
  destruct (kahn_answer h2 (nodes plan) d HB) as (n2 & H2 & Ht2).
  unfold initial_ready in H1, H2. rewrite H1, H2. cbn.
  destruct (N.eqb_spec n1 (N.of_nat (size (nodes plan)))),
    (N.eqb_spec n2 (N.of_nat (size (nodes plan)))); tauto || done.
Qed.

Definition no_invariant_error {A} (m : result PlanError A) : Prop := m <> Err GraphInvariant.

Lemma bind_no_invariant {A B} (m : result PlanError A) (k : A -> result PlanError B) :
  no_invariant_error m -> (forall a, no_invariant_error (k a)) -> no_invariant_error (m ≫= k).
Proof. unfold no_invariant_error. destruct m; simpl; auto. congruence. Qed.

Lemma map_err_no_invariant {E A} (f : E -> PlanError) (m : result E A) :
  (forall e, f e <> GraphInvariant) -> no_invariant_error (map_err f m).
Proof. unfold no_invariant_error. destruct m; simpl; [done|]. intros Hf [= ?]. by eapply Hf. Qed.

Lemma fold_no_invariant {S A} (f : S -> A -> result PlanError S) s l :
  (forall s a, no_invariant_error (f s a)) -> no_invariant_error (fold_result f s l).
Proof.
  intros Hf. revert s. induction l as [|a l IH]; intros s; simpl; [done|].
  by apply bind_no_invariant.
Qed.

Lemma each_no_invariant {A} (f : A -> result PlanError unit) l :
  (forall a, no_invariant_error (f a)) -> no_invariant_error (each f l).
Proof.
  intros Hf. induction l as [|a l IH]; simpl; [done|]. by apply bind_no_invariant.
Qed.

Lemma plan_shape_no_invariant e : no_invariant_error (plan_shape e).
Proof. apply map_err_no_invariant. discriminate. Qed.
Lemma columns_no_invariant v f cs : no_invariant_error (validate_columns v f cs).
Proof. unfold validate_columns. destruct cs; [done|]. by destruct (first_repeat _ _). Qed.
#[export] Hint Resolve bind_no_invariant each_no_invariant plan_shape_no_invariant
  columns_no_invariant : stillflow.

Lemma plan_node_no_invariant v n : no_invariant_error (validate_plan_node v n).
Proof.
  unfold validate_plan_node. destruct (arity (kind n)). destruct (_ || _); [done|].
  destruct (kind n) as [asset ps pr|cs|p|[|r rs]|jt [|k ks]| |ks|lb]; auto with stillflow; try done.
  - destruct (is_nil asset); [done|]. apply bind_no_invariant; [auto with stillflow|].
    intros []. destruct pr; [auto with stillflow|done].
  - apply each_no_invariant. intros rule. apply map_err_no_invariant. discriminate.
  - destruct (_ || _); [done|]. by destruct (first_repeat _ _).
  - by destruct (is_blank lb).
Qed.

Lemma plan_validate_no_invariant hash_iter `{!HashIter hash_iter} plan :
  plan_validate hash_iter plan <> Err GraphInvariant.
Proof.
  change (no_invariant_error (plan_validate hash_iter plan)). unfold plan_validate.
  destruct (negb _); [done|]. destruct (nodes plan !! root plan); [|done].
  destruct (fold_result _ _ _) as [d|e] eqn:Hd; cbn [mbind result_bind].
  - apply build_Ok in Hd as [_ HB].
    destruct (kahn_answer hash_iter (nodes plan) d HB) as (n & Hn & _).
    unfold initial_ready in Hn. rewrite Hn. cbn. by destruct (negb _).
  - intros [= ->]. revert Hd. apply fold_no_invariant. intros s [v x].
    apply bind_no_invariant; [apply plan_node_no_invariant|]. intros [].
    apply fold_no_invariant. intros d i. unfold add_edge.
    cbn [fst]. destruct (nodes plan !! i); [|done]. by destruct (i =? v)%N.
Qed.

(** ** The fingerprint *)

(** The inverse of [PRIME] modulo 2^64. *)
Definition PRIME_INV : N := 0xce965057aff6957b.

Lemma wrapping_mul_inj a b :
  (a < 2 ^ 64)%N -> (b < 2 ^ 64)%N -> wrapping_mul64 a PRIME = wrapping_mul64 b PRIME -> a = b.
Proof.
  unfold wrapping_mul64. intros Ha Hb Heq.
  assert (forall x, x < 2 ^ 64 -> (x * PRIME mod 2 ^ 64 * PRIME_INV) mod 2 ^ 64 = x)%N as Hinv.
  { intros x Hx. rewrite N.Div0.mul_mod_idemp_l, <- N.mul_assoc, N.Div0.mul_mod.
    assert (PRIME * PRIME_INV mod 2 ^ 64 = 1)%N as -> by (by vm_compute).
    rewrite N.mul_1_r, N.Div0.mod_mod. by apply N.mod_small. }
  by rewrite <- (Hinv a Ha), Heq, (Hinv b Hb).
Qed.

Lemma lxor_bound n a b : (a < 2 ^ n -> b < 2 ^ n -> N.lxor a b < 2 ^ n)%N.
Proof.
  intros Ha Hb. destruct (N.eq_dec (N.lxor a b) 0) as [->|Hx]; [lia|].
  apply N.log2_lt_pow2; [lia|].
  assert (0 < n)%N.
  { destruct (N.eq_dec n 0) as [->|]; [|lia]. simpl in *. assert (a = 0 /\ b = 0)%N as [-> ->] by lia. done. }
  eapply N.le_lt_trans; [apply N.log2_lxor|]. apply N.max_lub_lt.
  - destruct (N.eq_dec a 0) as [->|]; [done|]. apply N.log2_lt_pow2; lia.
  - destruct (N.eq_dec b 0) as [->|]; [done|]. apply N.log2_lt_pow2; lia.
Qed.

Lemma lxor_cancel_l a b c : N.lxor a b = N.lxor a c -> b = c.
Proof.
  intros Heq. apply (f_equal (N.lxor a)) in Heq.
  by rewrite <- !N.lxor_assoc, !N.lxor_nilpotent, !N.lxor_0_l in Heq.
Qed.

Lemma fnv_step_bound i l b : (fnv_step i l b < 2 ^ 64)%N.
Proof. apply N.mod_lt. done. Qed.

Lemma fnv_step_inj l l' b b' :
  (l < 2 ^ 64)%N -> (l' < 2 ^ 64)%N -> (b < 256)%N -> (b' < 256)%N ->
  fnv_step 0 l b = fnv_step 0 l' b' -> N.lxor l b = N.lxor l' b'.
Proof.
  intros Hl Hl' Hb Hb'. unfold fnv_step. rewrite N.shiftl_0_l, !N.lxor_0_r.
  apply wrapping_mul_inj; apply lxor_bound; lia.
Qed.

(** The first lane, which the other three mirror with another seed. *)
Definition lane_run (i : N) (l : N) (bytes : list N) : N := foldl (fnv_step i) l bytes.

Lemma lanes_run a b c d bytes :
  foldl fnv_byte [a; b; c; d] bytes =
  [lane_run 0 a bytes; lane_run 1 b bytes; lane_run 2 c bytes; lane_run 3 d bytes].
Proof. revert a b c d. induction bytes as [|x bytes IH]; intros a b c d; [done|]. apply IH. Qed.

Lemma lane_run_bound i l bytes : (l < 2 ^ 64)%N -> (lane_run i l bytes < 2 ^ 64)%N.
Proof.
  revert l. induction bytes as [|x bytes IH]; intros l Hl; [done|].
  simpl. apply IH, fnv_step_bound.
Qed.

Lemma lane_run_inj l l' bytes :
  Forall (fun b => b < 256)%N bytes -> (l < 2 ^ 64)%N -> (l' < 2 ^ 64)%N ->
  lane_run 0 l bytes = lane_run 0 l' bytes -> l = l'.
Proof.
  intros Hb. revert l l'. induction Hb as [|x bytes Hx Hb IH]; intros l l' Hl Hl' Heq; [done|].
  simpl in Heq. apply IH in Heq; [|apply fnv_step_bound..].
  apply fnv_step_inj in Heq; [|done..]. rewrite (N.lxor_comm l), (N.lxor_comm l') in Heq.
  by apply lxor_cancel_l in Heq.
Qed.

Lemma u64_be_inj v w r s :
  (v < 2 ^ 64)%N -> (w < 2 ^ 64)%N -> u64_be v ++ r = u64_be w ++ s -> v = w /\ r = s.
Proof.
  intros Hv Hw Heq. unfold u64_be in Heq.
  apply app_same_length in Heq as [Heq ->]; [|by rewrite !length_reverse, !le_bytes_length].
  apply (f_equal reverse) in Heq. rewrite !reverse_involutive in Heq.
  split; [|done]. by eapply (le_bytes_inj 8).
Qed.

Lemma fingerprint_length bytes : length (fingerprint_bytes bytes) = 32.
Proof.
  unfold fingerprint_bytes, fnv_lanes. rewrite lanes_run. cbn [mbind list_bind].
  rewrite !length_app. unfold u64_be. by rewrite !length_reverse, !le_bytes_length.
Qed.

(** ** Claims *)

#[export] Instance map_to_list_hash_iter : HashIter map_to_list.
Proof. intros m. done. Qed.

Definition example_plan : LogicalPlan := mkPlan 1 2%N
  (<[2%N := mkPlanNode [1%N] (Project [1%N])]>
  (<[1%N := mkPlanNode [] (Scan 100%N [1%N; 3%N] None)]> ∅)).

(** C25: plan validation is exact and terminates.  The in-degree algorithm
    over hash maps accepts a plan exactly when the version is current, the
    root and every input exist, every node satisfies its local rules, and the
    nodes have a topological order.  For every plan whose edges can be
    counted, cyclic ones included, Kahn's loop has emptied its queue after at
    most one iteration per node, without an invariant error, so that the
    fuel it is given here is never used up. *)
Theorem plan_validate_exact (hash_iter : gmap PlanNodeId N -> list (PlanNodeId * N))
  (plan : LogicalPlan) :
  HashIter hash_iter ->
  (plan_validate hash_iter plan = Ok tt <-> PlanOk plan) /\
  (forall d, fold_result (add_node (nodes plan)) (mkDegrees ((fun _ => 0%N) <$> nodes plan) ∅) (plan_iter (nodes plan)) = Ok d ->
     exists visited, kahn (size (nodes plan)) (outgoing d) (indegree d) (initial_ready hash_iter d) 0 = Some (Ok visited) /\
       (visited = N.of_nat (size (nodes plan)) <-> exists order, TopoOrder (nodes plan) order)) /\
  plan_validate hash_iter plan <> Err GraphInvariant.
Proof.
  intros H. split_and!; [by apply plan_validate_Ok| |by apply plan_validate_no_invariant].
  intros d [_ HB]%build_Ok. by apply kahn_answer.
Qed.

Lemma plan_validate_exact_witness : PlanOk example_plan.
Proof.
  apply (proj1 (plan_validate_exact map_to_list example_plan _)). vm_compute. reflexivity.
Defined.

(** The verdict, the error included, does not depend on the iteration
    order of the hash map that seeds the queue, and the
    [GraphInvariant] error is unreachable. *)
Theorem plan_validate_deterministic (h1 h2 : gmap PlanNodeId N -> list (PlanNodeId * N))
  (plan : LogicalPlan) :
  HashIter h1 -> HashIter h2 ->
  plan_validate h1 plan = plan_validate h2 plan /\ plan_validate h1 plan <> Err GraphInvariant.
Proof.
  intros H1 H2. split; [by apply plan_validate_order|by apply plan_validate_no_invariant].
Qed.

Definition cyclic_plan : LogicalPlan := mkPlan 1 2%N
  (<[2%N := mkPlanNode [3%N] (Project [1%N])]>
  (<[3%N := mkPlanNode [2%N] (Project [1%N])]> ∅)).

#[export] Instance reversed_hash_iter : HashIter (fun m => reverse (map_to_list m)).
Proof. intros m. apply reverse_Permutation. Qed.

Lemma plan_validate_deterministic_witness :
  plan_validate map_to_list cyclic_plan = Err Cycle /\
  plan_validate (fun m => reverse (map_to_list m)) cyclic_plan = Err Cycle.
Proof.
  destruct (plan_validate_deterministic (fun m => reverse (map_to_list m)) map_to_list
    cyclic_plan reversed_hash_iter map_to_list_hash_iter) as [Heq _].
  rewrite Heq. split; vm_compute; reflexivity.
Defined.

(** The fingerprint is 32 bytes long and changes whenever a single byte
    of the canonical plan changes: the 64-bit multiplication is undone by
    the inverse of the odd FNV prime, so no lane loses the difference. *)
Theorem fingerprint_detects_byte_change (p s : list N) (a b : N) :
  Forall (fun x => x < 256)%N (p ++ a :: b :: s) ->
  length (fingerprint_bytes (p ++ a :: s)) = 32 /\
  (fingerprint_bytes (p ++ a :: s) = fingerprint_bytes (p ++ b :: s) -> a = b).
Proof.
  intros [_ Hall]%Forall_app. apply Forall_cons in Hall as [Ha Hall].
  apply Forall_cons in Hall as [Hb Hs]. split; [apply fingerprint_length|].
  unfold fingerprint_bytes, fnv_lanes. rewrite !lanes_run. cbn [mbind list_bind]. intros Heq.
  assert (forall q, lane_run 0 0xcbf29ce484222325 q < 2 ^ 64)%N as Hl
    by (intros q; by apply lane_run_bound).
  apply u64_be_inj in Heq as [Heq _]; [|apply Hl..]. revert Heq.
  unfold lane_run. rewrite !foldl_app. intros Heq.
  apply (lane_run_inj _ _ s Hs) in Heq; [|apply fnv_step_bound..].
  apply fnv_step_inj in Heq; [|apply Hl|apply Hl|done..]. by apply lxor_cancel_l in Heq.
Qed.

Lemma fingerprint_detects_byte_change_witness :
  fingerprint_bytes [1; 2; 3]%N <> fingerprint_bytes [1; 7; 3]%N.
Proof.
  intros Heq. destruct (fingerprint_detects_byte_change [1%N] [3%N] 2 7) as [_ H].
  - repeat constructor.
  - discriminate (H Heq).
Defined.
