(* ===== verification/Semantics.v ===== *)
(** * Shared semantic analysis: [stillflow-plan/src/semantics.rs]

    Type and nullability inference of expressions against a working schema,
    the capability gate, and the schema effect of every rule.  Columns are
    resolved through the interface [ColumnResolver], which the linear
    [LogicalSchema] and the engine's indexed schemas both implement. *)

From S2P Require Import Prelude Text Secrets Logical Schema Expression Rule.

Definition MAX_EXPR_NODES : N := 1024.
Definition MAX_EXPR_DEPTH : N := 64.

(** ** Failure vocabulary *)

Module Kind.
Inductive SemanticKind :=
| ShapeInvalid | ExprBounds | UnknownColumn | NotRequiresBoolean
| LogicalOperandsMustBeBoolean | ContainsRequiresUtf8 | ConcatRequiresUtf8
| ConditionalBranchesIncompatible | SubstringRequiresUtf8 | CheckedArithmeticPaused
| ListStructPaused | TimestampSecondPaused | InvalidLogicalType | DateToUtf8CastPaused
| BinaryCastUnauthorized | ComparisonIncomparable | OrderedComparisonIncompatible
| OrderedComparisonRequiresNumeric | CoalesceArmsIncompatible | TrimRequiresUtf8
| TextRequiresUtf8 | TemporalParseRequiresUtf8 | LiteralIncompatibleWithColumn
| BinaryReplaceOnlyNullToNull | FillNullValueMustNotBeNull | FillNullNotAuthorizedOnBinary
| DropLastRemainingField | DerivedTypeMismatch | DerivedIdentityNotUnique
| DerivedNullabilityNarrower | DerivedFieldInvalid | ProjectionEmpty
| ProjectionDuplicate | SchemaRebuildInvalid | RuleNotAdmitted.
End Kind.
Notation SemanticKind := Kind.SemanticKind.

Module Code.
Inductive NodeGraphErrorCode :=
| UnsupportedGraphVersion | UnknownNodeType | UnsupportedConfigVersion | InvalidConfig
| InvalidPort | InvalidTopology | SourceBinding | UnknownColumn | IncompatibleType
| UnsupportedTarget | LimitGraphBytes | LimitNodes | LimitEdges | LimitConfigBytes
| LimitMetadataBytes | LimitStringBytes | LimitNestingDepth | LimitRulesPerNode
| LimitRules | LimitCompileWork | PlanInvalid | Internal.
End Code.
Notation NodeGraphErrorCode := Code.NodeGraphErrorCode.

(** [SemanticKind::code] *)
Definition code (kind : SemanticKind) : NodeGraphErrorCode :=
  match kind with
  | Kind.ShapeInvalid | Kind.FillNullValueMustNotBeNull | Kind.DropLastRemainingField
  | Kind.DerivedIdentityNotUnique | Kind.DerivedFieldInvalid | Kind.ProjectionEmpty
  | Kind.ProjectionDuplicate | Kind.SchemaRebuildInvalid | Kind.RuleNotAdmitted =>
      Code.InvalidConfig
  | Kind.UnknownColumn => Code.UnknownColumn
  | Kind.ExprBounds => Code.LimitNestingDepth
  | Kind.NotRequiresBoolean | Kind.LogicalOperandsMustBeBoolean | Kind.ContainsRequiresUtf8
  | Kind.ConcatRequiresUtf8 | Kind.ConditionalBranchesIncompatible
  | Kind.SubstringRequiresUtf8 | Kind.CheckedArithmeticPaused | Kind.ListStructPaused
  | Kind.TimestampSecondPaused | Kind.InvalidLogicalType | Kind.DateToUtf8CastPaused
  | Kind.BinaryCastUnauthorized | Kind.ComparisonIncomparable
  | Kind.OrderedComparisonIncompatible | Kind.OrderedComparisonRequiresNumeric
  | Kind.CoalesceArmsIncompatible | Kind.TrimRequiresUtf8 | Kind.TextRequiresUtf8
  | Kind.TemporalParseRequiresUtf8 | Kind.LiteralIncompatibleWithColumn
  | Kind.BinaryReplaceOnlyNullToNull | Kind.FillNullNotAuthorizedOnBinary
  | Kind.DerivedTypeMismatch | Kind.DerivedNullabilityNarrower => Code.IncompatibleType
  end.

(** [SemanticKind::compile_message] *)
Definition compile_message (kind : SemanticKind) : string :=
  match kind with
  | Kind.ShapeInvalid => "expression shape is invalid"
  | Kind.ExprBounds => "expression exceeds the contract limit"
  | Kind.UnknownColumn => "column is absent from the working schema"
  | Kind.NotRequiresBoolean => "not requires a boolean expression"
  | Kind.LogicalOperandsMustBeBoolean => "logical operands must be boolean"
  | Kind.ContainsRequiresUtf8 => "contains requires utf8 operands"
  | Kind.ConcatRequiresUtf8 => "concat requires utf8 operands"
  | Kind.ConditionalBranchesIncompatible => "conditional branches must share one logical type"
  | Kind.SubstringRequiresUtf8 => "substring requires a utf8 input"
  | Kind.CheckedArithmeticPaused => "checked arithmetic is not authorized"
  | Kind.ListStructPaused => "list and struct execution is paused"
  | Kind.TimestampSecondPaused => "timestamp second unit is paused"
  | Kind.InvalidLogicalType => "logical type is invalid"
  | Kind.DateToUtf8CastPaused => "date or timestamp to utf8 cast is paused"
  | Kind.BinaryCastUnauthorized => "cast to or from binary is not authorized"
  | Kind.ComparisonIncomparable => "comparison operands are not comparable"
  | Kind.OrderedComparisonIncompatible => "ordered comparison operands are not compatible"
  | Kind.OrderedComparisonRequiresNumeric => "ordered comparison requires numeric or date values"
  | Kind.CoalesceArmsIncompatible => "coalesce arms are not type-compatible"
  | Kind.TrimRequiresUtf8 => "trim requires a utf8 column"
  | Kind.TextRequiresUtf8 => "text normalization requires a utf8 column"
  | Kind.TemporalParseRequiresUtf8 => "temporal parsing requires a utf8 column"
  | Kind.LiteralIncompatibleWithColumn => "literal is not type-compatible with the column"
  | Kind.BinaryReplaceOnlyNullToNull => "binary replace-literal only permits null-to-null"
  | Kind.FillNullValueMustNotBeNull => "fill-null value must not be null"
  | Kind.FillNullNotAuthorizedOnBinary => "fill-null is not authorized on binary"
  | Kind.DropLastRemainingField => "drop-column cannot remove the final field"
  | Kind.DerivedTypeMismatch => "derived column type does not match the expression"
  | Kind.DerivedIdentityNotUnique => "derived column id or name is not unique"
  | Kind.DerivedNullabilityNarrower => "derived column nullability is narrower than the expression"
  | Kind.DerivedFieldInvalid => "derived field is invalid"
  | Kind.ProjectionEmpty => "projection must contain at least one column"
  | Kind.ProjectionDuplicate => "projection contains duplicate columns"
  | Kind.SchemaRebuildInvalid => "node produced an invalid logical schema"
  | Kind.RuleNotAdmitted => "rule is not admitted in the product path"
  end.

Record SemanticError := mkSemantic { error_kind : SemanticKind; column_id : option ColumnId }.
Definition sem_error (kind : SemanticKind) : SemanticError := mkSemantic kind None.
Definition for_column (kind : SemanticKind) (column : ColumnId) : SemanticError :=
  mkSemantic kind (Some column).

Notation Sem := (result SemanticError).
Definition fail {A} (kind : SemanticKind) : Sem A := Err (sem_error kind).
Definition fail_at {A} (kind : SemanticKind) (column : ColumnId) : Sem A :=
  Err (for_column kind column).

(** ** Column resolution *)

Class ColumnResolver (R : Type) := resolve_column : R -> ColumnId -> option LogicalField.
#[export] Instance LogicalSchema_resolver : ColumnResolver LogicalSchema := schema_field.

(** ** Bounds and references *)

Inductive Pending := At (e : Expr) (depth : N).

(** The pushes of both loops, in the order of the [push] calls. *)
Definition pending_pushes (p : Pending) : list Pending :=
  let '(At e depth) := p in
  match e with
  | Column _ | Literal _ => []
  | Unary _ e | IsNull e _ | Cast e _ | Substring e _ _ => [At e (depth + 1)]
  | Binary l _ r => [At l (depth + 1); At r (depth + 1)]
  | Conditional p t o => [At p (depth + 1); At t (depth + 1); At o (depth + 1)]
  | Coalesce es | Concat es => (fun e => At e (depth + 1)%N) <$> es
  end.
Definition pending_weight (p : Pending) : nat := let '(At e _) := p in expr_weight e.
Lemma pending_pushes_weight p :
  sum_list_with pending_weight (pending_pushes p) < pending_weight p.
Proof.
  destruct p as [e d]. destruct e; cbn -[sum_list_with]; rewrite ?sum_list_with_fmap; simpl; apply Nat.lt_succ_diag_r || lia.
Qed.
#[export] Instance Pending_tree : Tree Pending := {|
  children := pending_pushes;
  weight := pending_weight;
  weight_children := pending_pushes_weight;
|}.

Definition refs_step {R} `{ColumnResolver R} (resolver : R) (nodes : N) (p : Pending)
  : Sem (N * list Pending) :=
  let '(At current depth) := p in
  let nodes := saturating_add nodes 1 in
  if ((MAX_EXPR_NODES <? nodes) || (MAX_EXPR_DEPTH <? depth))%N then fail Kind.ExprBounds else
  match current with
  | Column id =>
      match resolve_column resolver id with
      | None => fail_at Kind.UnknownColumn id
      | Some _ => Ok (nodes, [])
      end
  | _ => Ok (nodes, pending_pushes p)
  end.

Definition validate_expr_refs {R} `{ColumnResolver R} (expr : Expr) (resolver : R) : Sem unit :=
  try! map_err (fun _ => sem_error Kind.ShapeInvalid) (validate_shape expr);
  (fun _ => tt) <$> run (refs_step resolver) (fail Kind.ExprBounds) 0%N [At expr 1].

Definition bounds_step (st : N * N) (p : Pending) : Sem (N * N * list Pending) :=
  let '(nodes, max_depth) := st in
  let '(At current depth) := p in
  let nodes := saturating_add nodes 1 in
  let max_depth := N.max max_depth depth in
  if ((MAX_EXPR_NODES <? nodes) || (MAX_EXPR_DEPTH <? max_depth))%N
  then fail Kind.ExprBounds
  else Ok (nodes, max_depth, pending_pushes p).

Definition check_shape_bounds (expr : Expr) : Sem unit :=
  (fun _ => tt) <$> run bounds_step (fail Kind.ExprBounds) (0, 0)%N [At expr 1].

(** ** The capability gate: module [capability] *)

Definition reject_paused_type (t : LogicalType) : Sem unit :=
  match t with
  | TList _ | TStruct _ => fail Kind.ListStructPaused
  | TTimestamp Second _ => fail Kind.TimestampSecondPaused
  | _ => map_err (fun _ => sem_error Kind.InvalidLogicalType) (validate_type t)
  end.

Definition is_temporal (t : LogicalType) : bool :=
  match t with TDate32 | TTimestamp _ _ => true | _ => false end.
Definition is_utf8 (t : LogicalType) : bool := match t with TUtf8 => true | _ => false end.
Definition is_binary (t : LogicalType) : bool := match t with TBinary => true | _ => false end.
Definition is_boolean (t : LogicalType) : bool := match t with TBoolean => true | _ => false end.
Definition text_operand (t : LogicalType) : bool :=
  match t with TUtf8 | TNull => true | _ => false end.

Definition reject_paused_cast (from to : LogicalType) : Sem unit :=
  if is_temporal from && is_utf8 to then fail Kind.DateToUtf8CastPaused else
  if (is_binary to && negb (is_binary from)) || (is_binary from && negb (is_binary to))
  then fail Kind.BinaryCastUnauthorized else Ok tt.

Definition is_arithmetic (o : BinaryOperator) : bool :=
  match o with Add | Subtract | Multiply | Divide | Modulo => true | _ => false end.

Fixpoint reject_paused_capability (expr : Expr) : Sem unit :=
  match expr with
  | Unary Negate _ => fail Kind.CheckedArithmeticPaused
  | Unary _ e | IsNull e _ => reject_paused_capability e
  | Substring e _ _ => reject_paused_capability e
  | Cast e t => try! reject_paused_type t; reject_paused_capability e
  | Binary l o r =>
      if is_arithmetic o then fail Kind.CheckedArithmeticPaused else
      try! reject_paused_capability l; reject_paused_capability r
  | Conditional p t o =>
      try! reject_paused_capability p;
      try! reject_paused_capability t;
      reject_paused_capability o
  | Concat es => each reject_paused_capability es
  | Coalesce es => each reject_paused_capability es
  | Column _ | Literal _ => Ok tt
  end.

(** ** Type inference *)

Record ExprAnalysis := mkAnalysis { analysis_type : LogicalType; analysis_nullable : bool }.

Definition comparable_pair (l r : LogicalType) : Sem unit :=
  (fun _ => tt) <$> map_err (fun _ => sem_error Kind.ComparisonIncomparable)
                      (least_upper_bound l r).

Definition ordered_pair (l r : LogicalType) : Sem unit :=
  joined ← map_err (fun _ => sem_error Kind.OrderedComparisonIncompatible)
             (least_upper_bound l r);
  match joined with
  | TInt8 | TInt16 | TInt32 | TInt64 | TUInt8 | TUInt16 | TUInt32 | TUInt64
  | TFloat32 | TFloat64 | TDate32 | TTimestamp _ _ => reject_paused_type joined
  | _ => fail Kind.OrderedComparisonRequiresNumeric
  end.

Definition infer_literal (v : ScalarValue) : LogicalType * bool :=
  match v with
  | SBoolean _ => (TBoolean, false)
  | SInt64 _ => (TInt64, false)
  | SUInt64 _ => (TUInt64, false)
  | SFloat64 _ => (TFloat64, false)
  | SUtf8 _ => (TUtf8, false)
  | SNull => (TNull, true)
  end.

(** The [match operator] of the [Binary] arm. *)
Definition infer_binary (o : BinaryOperator) (l r : LogicalType) (nullable : bool)
  : Sem (LogicalType * bool) :=
  match o with
  | And | Or =>
      if is_boolean l && is_boolean r then Ok (TBoolean, nullable)
      else fail Kind.LogicalOperandsMustBeBoolean
  | Contains =>
      if text_operand l && text_operand r then
        let null_operand := is_null_type l || is_null_type r in
        Ok (TBoolean, nullable || null_operand)
      else fail Kind.ContainsRequiresUtf8
  | Add | Subtract | Multiply | Divide | Modulo => fail Kind.CheckedArithmeticPaused
  | Equal | NotEqual => try! comparable_pair l r; Ok (TBoolean, nullable)
  | LessThan | LessThanOrEqual | GreaterThan | GreaterThanOrEqual =>
      try! ordered_pair l r; Ok (TBoolean, nullable)
  end.

(** The branch unification of the [Conditional] arm. *)
Definition unify_branches (t o : LogicalType) : Sem (LogicalType * bool) :=
  match t, o with
  | TNull, other => Ok (other, true)
  | other, TNull => Ok (other, true)
  | l, r => if type_eqb l r then Ok (l, false) else fail Kind.ConditionalBranchesIncompatible
  end.

(** One arm of [Concat] and of [Coalesce], after its type is inferred. *)
Definition concat_arm (nullable : bool) (arm : LogicalType * bool) : Sem bool :=
  if negb (text_operand arm.1) then fail Kind.ConcatRequiresUtf8
  else Ok (nullable || arm.2 || is_null_type arm.1).
Definition coalesce_arm (st : option LogicalType * bool) (arm : LogicalType * bool)
  : Sem (option LogicalType * bool) :=
  joined ← match st.1 with
           | Some current => map_err (fun _ => sem_error Kind.CoalesceArmsIncompatible)
                               (least_upper_bound current arm.1)
           | None => Ok arm.1
           end;
  Ok (Some joined, st.2 && arm.2).

Section infer.
Context {R} `{ColumnResolver R} (resolver : R).

Fixpoint infer_expr (expr : Expr) : Sem (LogicalType * bool) :=
  match expr with
  | Column c =>
      field ← ok_or (resolve_column resolver c) (for_column Kind.UnknownColumn c);
      try! reject_paused_type (data_type field);
      Ok (data_type field, nullable field)
  | Literal v => Ok (infer_literal v)
  | Unary Not e =>
      inner ← infer_expr e;
      if negb (is_boolean inner.1) then fail Kind.NotRequiresBoolean
      else Ok (TBoolean, inner.2)
  | Unary Negate _ => fail Kind.CheckedArithmeticPaused
  | IsNull e _ => try! infer_expr e; Ok (TBoolean, false)
  | Cast e t =>
      inner ← infer_expr e;
      try! reject_paused_type t;
      try! reject_paused_cast inner.1 t;
      Ok (t, inner.2)
  | Binary l o r =>
      left ← infer_expr l;
      right ← infer_expr r;
      infer_binary o left.1 right.1 (left.2 || right.2)
  | Substring e _ _ =>
      inner ← infer_expr e;
      if negb (text_operand inner.1) then fail Kind.SubstringRequiresUtf8
      else Ok (TUtf8, inner.2 || is_null_type inner.1)
  | Conditional p t o =>
      predicate ← infer_expr p;
      if negb (is_boolean predicate.1) then fail Kind.LogicalOperandsMustBeBoolean else
      then_ ← infer_expr t;
      otherwise ← infer_expr o;
      unified ← unify_branches then_.1 otherwise.1;
      Ok (unified.1, then_.2 || otherwise.2 || unified.2)
  | Concat es =>
      if ((len es <? 2) || (8 <? len es))%N then fail Kind.ShapeInvalid else
      nullable ← fold_result (fun nullable e => arm ← infer_expr e; concat_arm nullable arm)
                   false es;
      Ok (TUtf8, nullable)
  | Coalesce es =>
      st ← fold_result (fun st e => arm ← infer_expr e; coalesce_arm st arm) (None, true) es;
      joined ← ok_or st.1 (sem_error Kind.ShapeInvalid);
      try! reject_paused_type joined;
      Ok (joined, st.2)
  end.

Definition analyze_expr (expr : Expr) : Sem ExprAnalysis :=
  try! map_err (fun _ => sem_error Kind.ShapeInvalid) (validate_shape expr);
  try! check_shape_bounds expr;
  inferred ← infer_expr expr;
  Ok (mkAnalysis inferred.1 inferred.2).

Fixpoint reject_paused_casts_in_expr (expr : Expr) : Sem unit :=
  match expr with
  | Cast e t =>
      analysis ← analyze_expr e;
      try! reject_paused_cast (analysis_type analysis) t;
      reject_paused_casts_in_expr e
  | Unary _ e | IsNull e _ => reject_paused_casts_in_expr e
  | Substring e _ _ => reject_paused_casts_in_expr e
  | Binary l _ r => try! reject_paused_casts_in_expr l; reject_paused_casts_in_expr r
  | Conditional p t o =>
      try! reject_paused_casts_in_expr p;
      try! reject_paused_casts_in_expr t;
      reject_paused_casts_in_expr o
  | Coalesce es | Concat es => each reject_paused_casts_in_expr es
  | Column _ | Literal _ => Ok tt
  end.
End infer.

(** ** Schema effects *)

Definition rebuild (source : LogicalSchema) (fields : list LogicalField) : Sem LogicalSchema :=
  map_err (fun _ => sem_error Kind.SchemaRebuildInvalid)
    (from_parts (version source) fields (schema_metadata source)).

Definition validate_literal_for_column (column_type : LogicalType) (value : ScalarValue) : Sem unit :=
  match column_type, value with
  | _, SNull
  | TBoolean, SBoolean _
  | TInt64, SInt64 _
  | TUInt64, SUInt64 _
  | TFloat64, SFloat64 _
  | TUtf8, SUtf8 _
  | (TInt8 | TInt16 | TInt32), SInt64 _
  | (TUInt8 | TUInt16 | TUInt32), SUInt64 _
  | TFloat32, SFloat64 _ => Ok tt
  | _, _ => fail Kind.LiteralIncompatibleWithColumn
  end.

Definition is_scalar_null (v : ScalarValue) : bool := match v with SNull => true | _ => false end.
Definition sets_null (p : CastFailurePolicy) : bool :=
  match p with SetNull => true | FailError => false end.
Definition set_nullable (b : bool) (f : LogicalField) : LogicalField :=
  mkField (id f) (name f) (data_type f) b (metadata f).
(** [output.data_type = t; if on_failure is SetNull { output.nullable = true }] *)
Definition retype (t : LogicalType) (p : CastFailurePolicy) (f : LogicalField) : LogicalField :=
  mkField (id f) (name f) t (if sets_null p then true else nullable f) (metadata f).

(** [schema.field(column).ok_or(UnknownColumn)] *)
Definition field_or_unknown (s : LogicalSchema) (c : ColumnId) : Sem LogicalField :=
  ok_or (schema_field s c) (for_column Kind.UnknownColumn c).

Definition rule_effect (schema : LogicalSchema) (rule : Rule) : Sem LogicalSchema :=
  match rule with
  | RRename column to =>
      try! field_or_unknown schema column;
      rebuild schema (update_first column (set_name to) (fields schema))
  | RTrim column =>
      field ← field_or_unknown schema column;
      if negb (is_utf8 (data_type field)) then fail_at Kind.TrimRequiresUtf8 column else Ok schema
  | RNormalizeText column _ =>
      field ← field_or_unknown schema column;
      if negb (is_utf8 (data_type field)) then fail_at Kind.TextRequiresUtf8 column else Ok schema
  | RCast column t on_failure =>
      field ← field_or_unknown schema column;
      try! reject_paused_type t;
      try! reject_paused_cast (data_type field) t;
      rebuild schema (update_first column (retype t on_failure) (fields schema))
  | RParseTemporal column t on_failure _ =>
      field ← field_or_unknown schema column;
      if negb (is_utf8 (data_type field)) then fail_at Kind.TemporalParseRequiresUtf8 column else
      if negb (is_temporal t) then fail_at Kind.InvalidLogicalType column else
      try! reject_paused_type t;
      rebuild schema (update_first column (retype t on_failure) (fields schema))
  | RReplaceLiteral column from to =>
      field ← field_or_unknown schema column;
      try! validate_literal_for_column (data_type field) from;
      try! validate_literal_for_column (data_type field) to;
      if is_binary (data_type field) && negb (is_scalar_null from && is_scalar_null to)
      then fail_at Kind.BinaryReplaceOnlyNullToNull column else
      if is_scalar_null to
      then rebuild schema (update_first column (set_nullable true) (fields schema))
      else Ok schema
  | RFillNull column value =>
      if is_scalar_null value then fail_at Kind.FillNullValueMustNotBeNull column else
      field ← field_or_unknown schema column;
      if is_binary (data_type field) then fail_at Kind.FillNullNotAuthorizedOnBinary column else
      try! validate_literal_for_column (data_type field) value;
      rebuild schema (update_first column (set_nullable false) (fields schema))
  | RDropColumn column =>
      if (len (fields schema) <=? 1)%N then fail Kind.DropLastRemainingField else
      try! field_or_unknown schema column;
      rebuild schema (filter (fun f => id f <> column) (fields schema))
  | RDeriveColumn new_id new_name t is_nullable expression =>
      analysis ← analyze_expr schema expression;
      try! reject_paused_type t;
      if negb (is_null_type (analysis_type analysis)) && negb (type_eqb (analysis_type analysis) t)
      then fail Kind.DerivedTypeMismatch else
      if bool_decide (is_Some (schema_field schema new_id))
         || existsb (fun f => bool_decide (name f = new_name)) (fields schema)
      then fail Kind.DerivedIdentityNotUnique else
      try! reject_paused_casts_in_expr schema expression;
      if negb is_nullable && analysis_nullable analysis
      then fail Kind.DerivedNullabilityNarrower else
      field ← map_err (fun _ => sem_error Kind.DerivedFieldInvalid)
                (field_new new_id new_name t is_nullable);
      rebuild schema (fields schema ++ [field])
  | RFilterRows _ | RValidate _ _ _ | RDeduplicate _ => fail Kind.RuleNotAdmitted
  end.

Definition project_effect (schema : LogicalSchema) (columns : list ColumnId) : Sem LogicalSchema :=
  match columns with
  | [] => fail Kind.ProjectionEmpty
  | _ =>
      st ← fold_result (fun (st : gset ColumnId * list LogicalField) column =>
             if decide (column ∈ st.1) then fail Kind.ProjectionDuplicate else
             field ← field_or_unknown schema column;
             Ok ({[column]} ∪ st.1, st.2 ++ [field])) (∅, []) columns;
      rebuild schema st.2
  end.

(** ** Bounds are exact *)

Fixpoint expr_size (e : Expr) : N :=
  match e with
  | Column _ | Literal _ => 1
  | Unary _ e | IsNull e _ | Cast e _ | Substring e _ _ => 1 + expr_size e
  | Binary l _ r => 1 + (expr_size l + expr_size r)
  | Conditional p t o => 1 + (expr_size p + (expr_size t + expr_size o))
  | Coalesce es | Concat es => 1 + sum_by expr_size es
  end.
Fixpoint expr_depth (e : Expr) : N :=
  match e with
  | Column _ | Literal _ => 1
  | Unary _ e | IsNull e _ | Cast e _ | Substring e _ _ => 1 + expr_depth e
  | Binary l _ r => 1 + N.max (expr_depth l) (expr_depth r)
  | Conditional p t o => 1 + N.max (expr_depth p) (N.max (expr_depth t) (expr_depth o))
  | Coalesce es | Concat es => 1 + max_by expr_depth es
  end.
Definition bounded (e : Expr) : Prop :=
  (expr_size e <= MAX_EXPR_NODES /\ expr_depth e <= MAX_EXPR_DEPTH)%N.

Definition pending_expr (p : Pending) : Expr := let '(At e _) := p in e.
Definition pending_depth (p : Pending) : N := let '(At _ d) := p in d.

Lemma visits_size p : len (visits p) = expr_size (pending_expr p).
Proof.
  rewrite <- (sum_by_one (visits p)).
  apply (children_sum_gen (fun _ => 1%N) (fun p => expr_size (pending_expr p))).
  intros [e d]. destruct e; cbn -[sum_by N.add];
    rewrite ?sum_by_fmap; cbn -[N.add]; rewrite ?N.add_0_r; done.
Qed.

Lemma visits_depth p :
  Forall (fun p => pending_depth p <= MAX_EXPR_DEPTH)%N (visits p) <->
  (pending_depth p + expr_depth (pending_expr p) <= 1 + MAX_EXPR_DEPTH)%N.
Proof.
  apply (visits_Forall_gen _ (fun p => pending_depth p + expr_depth (pending_expr p)
    <= 1 + MAX_EXPR_DEPTH)%N). clear p. intros [e d].
  assert (forall e, 1 <= expr_depth e)%N as Hpos by (intros []; simpl; lia).
  assert (forall es, (d + (1 + max_by expr_depth es) <= 1 + MAX_EXPR_DEPTH)%N <->
    (d <= MAX_EXPR_DEPTH)%N /\ Forall (fun e => d + 1 + expr_depth e <= 1 + MAX_EXPR_DEPTH)%N es) as Hes.
  { intros es. split.
    - intros Hd. split; [lia|].
      assert (Forall (fun e => expr_depth e <= MAX_EXPR_DEPTH - d)%N es) as Hf by (apply max_by_le; lia).
      eapply Forall_impl; [exact Hf|]. simpl. lia.
    - intros [Hd Hf]. assert (max_by expr_depth es <= MAX_EXPR_DEPTH - d)%N; [|lia].
      apply max_by_le. eapply Forall_impl; [exact Hf|]. simpl. lia. }
  destruct e as [| |? e|l ? r|e|e|es|es|p t o|e]; cbn -[N.add MAX_EXPR_DEPTH];
    rewrite ?Forall_cons, ?Forall_nil, ?Forall_fmap; cbn -[N.add MAX_EXPR_DEPTH].
  all: try apply Hes.
  all: repeat match goal with e : Expr |- _ =>
         pose proof (Hpos e); generalize dependent (expr_depth e); intros; clear e end; lia.
Qed.

Lemma nodes_next n : (n <= MAX_EXPR_NODES)%N -> saturating_add n 1 = (n + 1)%N.
Proof. intros Hn. unfold saturating_add, usize_max, MAX_EXPR_NODES in *. lia. Qed.

Lemma enter_bounds n m e d :
  (n <= MAX_EXPR_NODES)%N ->
  enter bounds_step (n, m) (At e d) =
  if ((MAX_EXPR_NODES <? n + 1) || (MAX_EXPR_DEPTH <? N.max m d))%N
  then fail Kind.ExprBounds else Ok (n + 1, N.max m d)%N.
Proof.
  intros Hn. unfold enter, bounds_step. rewrite nodes_next by done. by destruct (_ || _).
Qed.

(** Both loops stop at the first node beyond a bound. *)
Lemma bounds_fold l : forall n m,
  (n <= MAX_EXPR_NODES)%N -> (m <= MAX_EXPR_DEPTH)%N ->
  (exists st, fold_result (enter bounds_step) (n, m) l = Ok st) <->
  (n + len l <= MAX_EXPR_NODES)%N /\ Forall (fun p => pending_depth p <= MAX_EXPR_DEPTH)%N l.
Proof.
  induction l as [|[e d] l IH]; intros n m Hn Hm; cbn [fold_result].
  - change (len []) with 0%N. split; [intros _; split; [lia|constructor]|eauto].
  - rewrite len_cons, Forall_cons. cbn [pending_depth]. rewrite enter_bounds by done.
    destruct (N.ltb_spec MAX_EXPR_NODES (n + 1)); cbn [orb].
    { split; [by intros [? ?]|lia]. }
    destruct (N.ltb_spec MAX_EXPR_DEPTH (N.max m d)).
    { split; [by intros [? ?]|]. intros (_ & ? & _). lia. }
    cbn. rewrite IH by lia. split; [intros [? ?]|intros (? & ? & ?)]; split_and?; done || lia.
Qed.

Lemma check_shape_bounds_Ok e : check_shape_bounds e = Ok tt <-> bounded e.
Proof.
  unfold check_shape_bounds, bounded. rewrite fmap_Ok.
  rewrite (run_tree bounds_step); [|by intros [] [] ? ?; cbn -[N.max]; case_match; [|intros [= <- <-]]].
  pose proof (bounds_fold (visits (At e 1)) 0 0) as Hf.
  rewrite visits_size, visits_depth in Hf. cbn [pending_expr pending_depth] in Hf.
  transitivity (exists st, fold_result (enter bounds_step) (0, 0)%N (visits (At e 1)) = Ok st);
    [naive_solver|]. rewrite Hf by (by vm_compute). lia.
Qed.

(** ** References are exact *)

Section refs.
Context {R} `{ColumnResolver R} (resolver : R).

Definition resolves (e : Expr) : Prop :=
  forall c, c ∈ columns_of e -> is_Some (resolve_column resolver c).
Definition pending_resolved (p : Pending) : Prop :=
  match pending_expr p with
  | Column c => is_Some (resolve_column resolver c)
  | _ => True
  end.

Lemma enter_refs n e d :
  (n <= MAX_EXPR_NODES)%N ->
  (exists n', enter (refs_step resolver) n (At e d) = Ok n') <->
  (n + 1 <= MAX_EXPR_NODES /\ d <= MAX_EXPR_DEPTH)%N /\ pending_resolved (At e d).
Proof.
  intros Hn. unfold enter, refs_step. rewrite nodes_next by done.
  destruct (N.ltb_spec MAX_EXPR_NODES (n + 1)); cbn [orb].
  { split; [by intros [? ?]|lia]. }
  destruct (N.ltb_spec MAX_EXPR_DEPTH d).
  { split; [by intros [? ?]|lia]. }
  unfold pending_resolved. destruct e; cbn [pending_expr];
    try (split; [split; [lia|done]|eexists; reflexivity]).
  destruct (resolve_column resolver column); cbn.
  - split; [split; [lia|eauto]|eexists; reflexivity].
  - split; [by intros [? ?]|by intros [_ [? ?]]].
Qed.

Lemma enter_refs_next n e d n' :
  (n <= MAX_EXPR_NODES)%N -> enter (refs_step resolver) n (At e d) = Ok n' -> n' = (n + 1)%N.
Proof.
  intros Hn. unfold enter, refs_step. rewrite nodes_next by done. destruct (_ || _); [done|].
  destruct e; cbn; try congruence. destruct (resolve_column _ _); cbn; congruence.
Qed.

Lemma refs_fold l : forall n,
  (n <= MAX_EXPR_NODES)%N ->
  (exists n', fold_result (enter (refs_step resolver)) n l = Ok n') <->
  (n + len l <= MAX_EXPR_NODES)%N /\
  Forall (fun p => (pending_depth p <= MAX_EXPR_DEPTH)%N /\ pending_resolved p) l.
Proof.
  induction l as [|[e d] l IH]; intros n Hn; cbn [fold_result].
  - change (len []) with 0%N. split; [intros _; split; [lia|constructor]|eauto].
  - rewrite len_cons, Forall_cons. cbn [pending_depth].
    pose proof (enter_refs n e d Hn) as He.
    destruct (enter (refs_step resolver) n (At e d)) as [n1|err] eqn:Hs; cbn.
    + apply enter_refs_next in Hs as ->; [|done].
      destruct He as [([? ?] & ?) _]; [eauto|]. rewrite IH by done.
      split; [intros [? ?]|intros (? & ? & ?)]; split_and?; done || lia.
    + split; [by intros [? ?]|]. intros (? & [? ?] & _).
      destruct He as [_ [? ?]]; [|done]. split; [lia|done].
Qed.

Lemma resolves_unfold e :
  resolves e <-> pending_resolved (At e 1) /\ Forall resolves (children e).
Proof.
  unfold resolves, pending_resolved. rewrite Forall_forall. cbn [pending_expr].
  setoid_rewrite elem_of_columns_of_children at 1. split.
  - intros Hall. split; [destruct e; eauto|]. intros e' He' c Hc. eauto.
  - intros [He Hall] c [->|(e' & He' & Hc)]; [done|eauto].
Qed.

Lemma visits_resolved p :
  Forall pending_resolved (visits p) <-> resolves (pending_expr p).
Proof.
  apply (visits_Forall_gen _ (fun p => resolves (pending_expr p))).
  clear p. intros [e d]. cbn [pending_expr]. rewrite resolves_unfold. f_equiv; [done|].
  destruct e; cbn; rewrite ?Forall_cons, ?Forall_nil, ?Forall_fmap; cbn; tauto.
Qed.

Lemma refs_pushes n p n' ps : refs_step resolver n p = Ok (n', ps) -> ps = children p.
Proof.
  destruct p as [e d]. unfold refs_step. destruct (_ || _); [done|].
  destruct e; cbn; try congruence. unfold fail_at. destruct (resolve_column _ _); cbn; congruence.
Qed.

Lemma validate_expr_refs_Ok e :
  validate_expr_refs e resolver = Ok tt <-> ShapeOk e /\ bounded e /\ resolves e.
Proof.
  unfold validate_expr_refs. rewrite try_Ok, map_err_Ok, shape_exact, fmap_Ok. f_equiv.
  rewrite (run_tree (refs_step resolver) refs_pushes).
  pose proof (refs_fold (visits (At e 1)) 0) as Hf.
  rewrite Forall_and, visits_size, visits_depth, visits_resolved in Hf.
  cbn [pending_expr pending_depth] in Hf.
  transitivity (exists n, fold_result (enter (refs_step resolver)) 0%N (visits (At e 1)) = Ok n);
    [naive_solver|]. rewrite Hf by (by vm_compute). unfold bounded.
  rewrite N.add_0_l. assert (1 + expr_depth e <= 1 + MAX_EXPR_DEPTH <-> expr_depth e <= MAX_EXPR_DEPTH)%N by lia.
  tauto.
Qed.
End refs.

(** ** Inference: what a successful analysis guarantees *)

(** The types the engine executes: flat, no second-unit timestamps, no blank
    time zone within the text budget. *)
Definition admitted (t : LogicalType) : Prop := reject_paused_type t = Ok tt.

Lemma admitted_literal v : admitted (infer_literal v).1.
Proof. destruct v; vm_compute; reflexivity. Qed.

Lemma fold_result_all {E S A B} (f : A -> result E B) (g : S -> B -> result E S) l : forall s s',
  fold_result (fun s a => b ← f a; g s b) s l = Ok s' -> Forall (fun a => exists b, f a = Ok b) l.
Proof.
  induction l as [|a l IH]; intros s s' Hf; [constructor|]. cbn in Hf.
  apply bind_Ok in Hf as (s1 & (b & Hb & _)%bind_Ok & Hl). constructor; eauto.
Qed.

Ltac peel H :=
  let x := fresh "x" in let Hx := fresh "Hx" in
  apply bind_Ok in H as (x & Hx & H).

Section infer_facts.
Context {R} `{ColumnResolver R} (r : R).

Lemma infer_children e t :
  infer_expr r e = Ok t -> Forall (fun e' => exists t', infer_expr r e' = Ok t') (children e).
Proof.
  intros Hi. destruct e as [c|v|[] e|l o rr|e n|e ty|es|es|p th ot|e s n]; cbn in Hi;
    cbn [children Expr_tree expr_pushes]; rewrite ?Forall_cons, ?Forall_nil; try done; try by constructor.
  - peel Hi. split_and!; eauto.
  - peel Hi. peel Hi. split_and!; eauto.
  - peel Hi. split_and!; eauto.
  - peel Hi. split_and!; eauto.
  - peel Hi. by eapply fold_result_all.
  - destruct (_ || _); [done|]. peel Hi. by eapply fold_result_all.
  - peel Hi. destruct (negb _); [done|]. peel Hi. peel Hi. split_and!; eauto.
  - peel Hi. split_and!; eauto.
Qed.

(** The inferred type is one the engine executes. *)
Lemma infer_admitted e t : infer_expr r e = Ok t -> admitted t.1.
Proof.
  revert t. induction e as [e IH] using tree_ind. intros t Hi.
  destruct e as [c|v|[] e|l o rr|e n|e ty|es|es|p th ot|e s n]; cbn in Hi.
  - peel Hi. peel Hi. simplify_eq/=. by destruct x0.
  - simplify_eq. apply admitted_literal.
  - peel Hi. destruct (negb _); simplify_eq. done.
  - done.
  - peel Hi. peel Hi. destruct o; cbn in Hi; try destruct (_ && _); try (peel Hi); simplify_eq; done.
  - peel Hi. simplify_eq. done.
  - peel Hi. peel Hi. peel Hi. simplify_eq/=. by destruct x0.
  - peel Hi. peel Hi. peel Hi. simplify_eq/=. by destruct x1.
  - destruct (_ || _); [done|]. peel Hi. simplify_eq. done.
  - peel Hi. destruct (negb _); [done|]. peel Hi. peel Hi. peel Hi. simplify_eq/=.
    assert (admitted x0.1) as Hth by (eapply IH; [|done]; cbn; set_solver).
    assert (admitted x1.1) as Hot by (eapply IH; [|done]; cbn; set_solver).
    unfold unify_branches in Hx2.
    destruct x0.1, x1.1; try (destruct (type_eqb _ _)); simplify_eq/=; done.
  - peel Hi. destruct (negb _); simplify_eq. done.
Qed.

(** A successful inference has passed the capability gate at every node. *)
Lemma infer_capability e t : infer_expr r e = Ok t -> reject_paused_capability e = Ok tt.
Proof.
  revert t. induction e as [e IH] using tree_ind. intros t Hi.
  pose proof (infer_children e t Hi) as Hc. rewrite Forall_forall in Hc.
  assert (forall e', e' ∈ children e -> reject_paused_capability e' = Ok tt) as Hcap.
  { intros e' He'. destruct (Hc e' He') as [t' Ht']. by eapply IH. }
  clear IH Hc. destruct e as [c|v|[] e|l o rr|e n|e ty|es|es|p th ot|e s n];
    cbn [reject_paused_capability]; rewrite ?try_Ok, ?each_Ok, ?Forall_forall; try done;
    try (apply Hcap; cbn; set_solver).
  - cbn in Hi. peel Hi. peel Hi. destruct (is_arithmetic o) eqn:Ho; [by destruct o|].
    rewrite try_Ok. split; apply Hcap; cbn; set_solver.
  - cbn in Hi. peel Hi. peel Hi. destruct x0. split; [done|]. apply Hcap. cbn. set_solver.
  - split_and!; apply Hcap; cbn; set_solver.
Qed.

Lemma infer_resolves e t : infer_expr r e = Ok t -> resolves r e.
Proof.
  revert t. induction e as [e IH] using tree_ind. intros t Hi.
  rewrite resolves_unfold. split.
  - unfold pending_resolved. cbn. destruct e; try done. cbn in Hi. peel Hi.
    apply ok_or_Ok in Hx as ->. eauto.
  - apply infer_children in Hi. rewrite Forall_forall in *. intros e' He'.
    destruct (Hi e' He') as [t' Ht']. by eapply IH.
Qed.
End infer_facts.

Lemma bounded_children e : bounded e -> Forall bounded (children e).
Proof.
  unfold bounded. intros [Hs Hd].
  destruct e as [| |? e|l ? r|e|e|es|es|p t o|e]; cbn [children Expr_tree expr_pushes];
    rewrite ?Forall_cons, ?Forall_nil; cbn [expr_size expr_depth] in *;
    try (split_and!; first [done|lia]); [done|done|..].
  all: assert (Forall (fun e => expr_depth e <= MAX_EXPR_DEPTH)%N es) as Hes by (apply max_by_le; lia).
  all: apply Forall_forall; intros e He; rewrite Forall_forall in Hes;
    apply (sum_by_elem expr_size) in He as Hsz; specialize (Hes e He); simpl in Hes; lia.
Qed.

Section analysis.
Context {R} `{ColumnResolver R} (r : R).

Lemma analyze_Ok e a :
  analyze_expr r e = Ok a <->
  ShapeOk e /\ bounded e /\ infer_expr r e = Ok (analysis_type a, analysis_nullable a).
Proof.
  rewrite <- shape_exact, <- check_shape_bounds_Ok. unfold analyze_expr. split.
  - intros Ha. peel Ha. apply map_err_Ok in Hx. peel Ha. peel Ha.
    destruct x, x0, x1. by simplify_eq/=.
  - intros (Hs & Hb & Hi). rewrite Hs, Hb, Hi. by destruct a.
Qed.

(** The cast walk is subsumed by the analysis. *)
Lemma infer_casts e t :
  ShapeOk e -> bounded e -> infer_expr r e = Ok t -> reject_paused_casts_in_expr r e = Ok tt.
Proof.
  revert t. induction e as [e IH] using tree_ind. intros t Hsh Hb Hi.
  pose proof (infer_children r e t Hi) as Hc. rewrite Forall_forall in Hc.
  apply ShapeOk_unfold in Hsh as [_ Hsh]. apply bounded_children in Hb.
  rewrite Forall_forall in Hsh, Hb.
  assert (forall e', e' ∈ children e -> reject_paused_casts_in_expr r e' = Ok tt) as Hcasts.
  { intros e' He'. destruct (Hc e' He') as [t' Ht']. eapply IH; eauto. }
  clear IH. destruct e as [c|v|u e|l o rr|e n|e ty|es|es|p th ot|e s n];
    cbn [reject_paused_casts_in_expr]; rewrite ?try_Ok, ?each_Ok, ?Forall_forall; try done;
    try (apply Hcasts; cbn; set_solver).
  - split; apply Hcasts; cbn; set_solver.
  - assert (e ∈ children (Cast e ty)) as Hin by (cbn; set_solver).
    cbn in Hi. peel Hi. peel Hi. peel Hi. apply bind_Ok. exists (mkAnalysis x.1 x.2). split.
    + apply analyze_Ok. split_and!; [auto|auto|]. rewrite Hx. by destruct x.
    + rewrite try_Ok. destruct x1. cbn. auto.
  - split_and!; apply Hcasts; cbn; set_solver.
Qed.
End analysis.

(** Resolvers that agree on every column give the same analysis: the
    backend is unobservable. *)
Section resolver_ext.
Context {R1 R2} `{ColumnResolver R1} `{ColumnResolver R2} (r1 : R1) (r2 : R2).
Context (Hagree : forall c, resolve_column r1 c = resolve_column r2 c).

Lemma infer_ext e : infer_expr r1 e = infer_expr r2 e.
Proof.
  induction e as [e IH] using tree_ind.
  destruct e as [c|v|[] e|l o rr|e n|e ty|es|es|p th ot|e s n]; cbn; try done.
  - by rewrite Hagree.
  - by rewrite IH by (cbn; set_solver).
  - by rewrite !IH by (cbn; set_solver).
  - by rewrite IH by (cbn; set_solver).
  - by rewrite IH by (cbn; set_solver).
  - rewrite (fold_result_ext _ (fun st e => arm ← infer_expr r2 e; coalesce_arm st arm)); [done|].
    intros st e He. by rewrite IH by (cbn; set_solver).
  - rewrite (fold_result_ext _ (fun st e => arm ← infer_expr r2 e; concat_arm st arm)); [done|].
    intros st e He. by rewrite IH by (cbn; set_solver).
  - by rewrite !IH by (cbn; set_solver).
  - by rewrite IH by (cbn; set_solver).
Qed.

Lemma analyze_ext e : analyze_expr r1 e = analyze_expr r2 e.
Proof. unfold analyze_expr. by rewrite infer_ext. Qed.

Lemma casts_ext e : reject_paused_casts_in_expr r1 e = reject_paused_casts_in_expr r2 e.
Proof.
  induction e as [e IH] using tree_ind.
  destruct e as [c|v|u e|l o rr|e n|e ty|es|es|p th ot|e s n]; cbn; try done;
    rewrite ?analyze_ext, ?IH by (cbn; set_solver); try done.
  - apply each_ext, Forall_forall. intros e He. apply IH. done.
  - apply each_ext, Forall_forall. intros e He. apply IH. done.
Qed.
End resolver_ext.

(** ** Schemas closed under selection and nullability changes *)

Definition shape_of (f : LogicalField) := (id f, name f, data_type f, metadata f).

Lemma valid_same_shape s fs :
  shape_of <$> fs = shape_of <$> fields s -> ValidSchema s ->
  ValidSchema (mkSchema (version s) fs (schema_metadata s)).
Proof.
  intros Hsh [Hv Hm [Hi Hn Hl] Ht Hd Hc Hx].
  assert (forall {B} (g : _ -> B), (fun f => g (shape_of f)) <$> fs =
            (fun f => g (shape_of f)) <$> fields s) as Hmap.
  { intros B g. by rewrite !(list_fmap_compose shape_of g), Hsh. }
  assert (forall (P : _ -> Prop), Forall (fun f => P (shape_of f)) (fields s) ->
            Forall (fun f => P (shape_of f)) fs) as Hall.
  { intros P. rewrite <- !(Forall_fmap shape_of P), Hsh. done. }
  assert (forall g, sum_by (fun f => g (shape_of f)) fs =
            sum_by (fun f => g (shape_of f)) (fields s)) as Hsum.
  { intros g. by rewrite <- !(sum_by_fmap g shape_of), Hsh. }
  split; cbn [version fields schema_metadata]; [done|done|split|..].
  - assert (id <$> fs = id <$> fields s) as -> by exact (Hmap _ (fun x => x.1.1.1)). done.
  - assert (name <$> fs = name <$> fields s) as -> by exact (Hmap _ (fun x => x.1.1.2)). done.
  - exact (Hall (fun x => is_blank x.1.1.2 = false /\ metadata_safe x.2) Hl).
  - exact (Hall (fun x => TypeWf x.1.2) Ht).
  - exact (Hall (fun x => type_depth x.1.2 <= MAX_SCHEMA_NESTING_DEPTH)%N Hd).
  - assert (fields_count fs = fields_count (fields s)) as ->; [|done].
    exact (Hsum (fun x => 1 + type_fields x.1.2)%N).
  - assert (fields_text fs = fields_text (fields s)) as ->; [|done].
    exact (Hsum (fun x => str_len x.1.1.2 + metadata_text x.2 + type_text x.1.2)%N).
Qed.

Lemma valid_selection s fs rest :
  fields s ≡ₚ fs ++ rest -> ValidSchema s ->
  ValidSchema (mkSchema (version s) fs (schema_metadata s)).
Proof.
  intros Hp [Hv Hm [Hi Hn Hl] Ht Hd Hc Hx].
  unfold fields_count, fields_text in *. rewrite Hp, fmap_app in Hi. rewrite Hp, fmap_app in Hn.
  rewrite Hp in Hl, Ht, Hd. rewrite (sum_by_permutation _ _ _ Hp), sum_by_app in Hc.
  rewrite (sum_by_permutation _ _ _ Hp), sum_by_app in Hx.
  apply NoDup_app in Hi as [Hi _]. apply NoDup_app in Hn as [Hn _].
  apply Forall_app in Hl as [Hl _]. apply Forall_app in Ht as [Ht _]. apply Forall_app in Hd as [Hd _].
  split; cbn [version fields schema_metadata]; [done|done|by split|done|done|..]; unfold fields_count, fields_text; lia.
Qed.

Lemma update_first_shape c g fs :
  (forall f, shape_of (g f) = shape_of f) ->
  shape_of <$> update_first c g fs = shape_of <$> fs.
Proof.
  intros Hg. induction fs as [|f fs IH]; cbn [update_first]; [done|].
  case_decide; rewrite !fmap_cons, ?Hg, ?IH; done.
Qed.

Lemma rebuild_Ok s fs s' :
  rebuild s fs = Ok s' <->
  s' = mkSchema (version s) fs (schema_metadata s) /\ ValidSchema s'.
Proof. unfold rebuild. by rewrite map_err_Ok, from_parts_Ok. Qed.

(** ** What a rule does to a schema *)

Definition unchanged_but (s : LogicalSchema) (c : ColumnId) (s' : LogicalSchema) : Prop :=
  forall d, d <> c -> schema_field s' d = schema_field s d.
Definition changes_only (s : LogicalSchema) (c : ColumnId) (g : LogicalField -> LogicalField)
  (s' : LogicalSchema) : Prop :=
  exists f, schema_field s c = Some f /\ schema_field s' c = Some (g f) /\
    id <$> fields s' = id <$> fields s /\ unchanged_but s c s'.
Definition removes (s : LogicalSchema) (c : ColumnId) (s' : LogicalSchema) : Prop :=
  is_Some (schema_field s c) /\ schema_field s' c = None /\
  id <$> fields s' = filter (fun d => d <> c) (id <$> fields s) /\ unchanged_but s c s'.
Definition adds (s : LogicalSchema) (f : LogicalField) (s' : LogicalSchema) : Prop :=
  schema_field s (id f) = None /\ fields s' = fields s ++ [f] /\
  schema_field s' (id f) = Some f /\ unchanged_but s (id f) s'.

Definition effect_spec (s : LogicalSchema) (rule : Rule) (s' : LogicalSchema) : Prop :=
  match rule with
  | RRename c to => changes_only s c (set_name to) s'
  | RCast c t p => changes_only s c (retype t p) s'
  | RParseTemporal c t p _ => changes_only s c (retype t p) s'
  | RTrim _ | RNormalizeText _ _ => s' = s
  | RReplaceLiteral c _ to =>
      if is_scalar_null to then changes_only s c (set_nullable true) s' else s' = s
  | RFillNull c _ => changes_only s c (set_nullable false) s'
  | RDropColumn c => removes s c s'
  | RDeriveColumn i n t nul _ => adds s (mkField i n t nul ∅) s'
  | RFilterRows _ | RValidate _ _ _ | RDeduplicate _ => False
  end.

Lemma changes_only_update s c g f s' :
  (forall f, id (g f) = id f) ->
  schema_field s c = Some f -> fields s' = update_first c g (fields s) -> changes_only s c g s'.
Proof.
  intros Hg Hf Hfs. exists f. unfold unchanged_but, schema_field in *. rewrite Hfs.
  split_and!; [done| |by apply update_first_ids|].
  - by rewrite update_first_lookup, decide_True, Hf by done.
  - intros d Hd. by rewrite update_first_lookup, decide_False by done.
Qed.

Lemma find_field_app fs gs c :
  find_field (fs ++ gs) c =
  match find_field fs c with Some f => Some f | None => find_field gs c end.
Proof.
  induction fs as [|f fs IH]; [done|]. rewrite <- app_comm_cons, !find_field_cons, IH.
  by case_decide.
Qed.

Lemma find_field_filter fs c d :
  find_field (filter (fun f => id f <> c) fs) d =
  if decide (d = c) then None else find_field fs d.
Proof.
  induction fs as [|f fs IH]; [by case_decide|].
  rewrite filter_cons. destruct (decide (id f <> c)) as [Hf|Hf].
  - rewrite !find_field_cons, IH. destruct (decide (id f = d)), (decide (d = c)); congruence.
  - rewrite IH, find_field_cons. apply dec_stable in Hf.
    destruct (decide (d = c)), (decide (id f = d)); congruence.
Qed.

Lemma fmap_id_filter c (fs : list LogicalField) :
  id <$> filter (fun f : LogicalField => id f <> c) fs = filter (fun d => d <> c) (id <$> fs).
Proof.
  induction fs as [|f fs IH]; [done|]. rewrite fmap_cons, !filter_cons.
  repeat case_decide; rewrite ?fmap_cons, ?IH; done.
Qed.

Lemma unknown_Ok s c f : field_or_unknown s c = Ok f <-> schema_field s c = Some f.
Proof. apply ok_or_Ok. Qed.

Lemma rule_effect_Ok s rule s' :
  ValidSchema s -> rule_effect s rule = Ok s' ->
  ValidSchema s' /\ version s' = version s /\ schema_metadata s' = schema_metadata s /\
  effect_spec s rule s'.
Proof.
  intros Hs He.
  destruct rule as [c to|c t p|c t p fmt|c|c from to|c v|c|i n t nul e|pr|ks|pr sv m|c op];
    cbn [rule_effect effect_spec] in *; try done.
  - peel He. apply unknown_Ok in Hx. apply rebuild_Ok in He as [-> Hv].
    split_and!; [done..|]. by eapply changes_only_update.
  - peel He. apply unknown_Ok in Hx. peel He. peel He. apply rebuild_Ok in He as [-> Hv].
    split_and!; [done..|]. by eapply changes_only_update.
  - peel He. apply unknown_Ok in Hx. destruct (negb _); [done|]. destruct (negb _); [done|].
    peel He. apply rebuild_Ok in He as [-> Hv].
    split_and!; [done..|]. by eapply changes_only_update.
  - peel He. destruct (negb _); simplify_eq. done.
  - peel He. apply unknown_Ok in Hx. peel He. peel He. destruct (_ && _); [done|].
    destruct (is_scalar_null to); [|by simplify_eq].
    apply rebuild_Ok in He as [-> Hv]. split_and!; [done..|]. by eapply changes_only_update.
  - destruct (is_scalar_null v); [done|]. peel He. apply unknown_Ok in Hx.
    destruct (is_binary _); [done|]. peel He. apply rebuild_Ok in He as [-> Hv].
    split_and!; [done..|]. by eapply changes_only_update.
  - destruct (_ <=? _)%N; [done|]. peel He. apply unknown_Ok in Hx.
    apply rebuild_Ok in He as [-> Hv]. split_and!; [done..|].
    unfold removes, unchanged_but, schema_field in *. cbn [fields]. split_and!.
    + eauto.
    + by rewrite find_field_filter, decide_True.
    + apply fmap_id_filter.
    + intros d Hd. by rewrite find_field_filter, decide_False.
  - peel He. peel He. destruct (_ && _); [done|].
    destruct (bool_decide _ || _) eqn:Hfresh; [done|]. peel He. destruct (_ && _); [done|].
    peel He. apply map_err_Ok, field_new_Ok in Hx2 as [-> _].
    apply rebuild_Ok in He as [-> Hv]. split_and!; [done..|].
    apply orb_false_iff in Hfresh as [Hi _]. apply bool_decide_eq_false in Hi.
    rewrite <- eq_None_not_Some in Hi.
    unfold adds, unchanged_but, schema_field in *. cbn [fields id]. split_and!; [done|done|..].
    + by rewrite find_field_app, Hi, find_field_cons, decide_True.
    + intros d Hd. rewrite find_field_app, find_field_cons. cbn [id].
      rewrite decide_False by congruence. by destruct (find_field (fields s) d).
  - peel He. destruct (negb _); simplify_eq. done.
Qed.

(** Every type a rule introduces is admitted. *)
Definition all_admitted (s : LogicalSchema) : Prop :=
  Forall (fun f => admitted (data_type f)) (fields s).

Lemma update_first_admitted c g fs :
  (forall f, admitted (data_type f) -> admitted (data_type (g f))) ->
  Forall (fun f => admitted (data_type f)) fs ->
  Forall (fun f => admitted (data_type f)) (update_first c g fs).
Proof.
  intros Hg. induction 1 as [|f fs Hf Hfs IH]; cbn [update_first]; [constructor|].
  case_decide; constructor; auto.
Qed.

Lemma rule_effect_admitted s rule s' :
  all_admitted s -> rule_effect s rule = Ok s' -> all_admitted s'.
Proof.
  unfold all_admitted. intros Hs He.
  destruct rule as [c to|c t p|c t p fmt|c|c from to|c v|c|i n t nul e|pr|ks|pr sv m|c op];
    cbn [rule_effect] in *; try done.
  - peel He. apply rebuild_Ok in He as [-> _]. by apply update_first_admitted.
  - peel He. peel He. peel He. apply rebuild_Ok in He as [-> _]. destruct x0.
    by apply update_first_admitted.
  - peel He. destruct (negb _); [done|]. destruct (negb _); [done|].
    peel He. apply rebuild_Ok in He as [-> _]. destruct x0. by apply update_first_admitted.
  - peel He. destruct (negb _); simplify_eq. done.
  - peel He. peel He. peel He. destruct (_ && _); [done|].
    destruct (is_scalar_null to); [|by simplify_eq].
    apply rebuild_Ok in He as [-> _]. by apply update_first_admitted.
  - destruct (is_scalar_null v); [done|]. peel He. destruct (is_binary _); [done|]. peel He.
    apply rebuild_Ok in He as [-> _]. by apply update_first_admitted.
  - destruct (_ <=? _)%N; [done|]. peel He. apply rebuild_Ok in He as [-> _]. cbn [fields].
    rewrite Forall_forall in *. intros f [_ Hf]%list_elem_of_filter. auto.
  - peel He. peel He. destruct (_ && _); [done|]. destruct (_ || _); [done|].
    peel He. destruct (_ && _); [done|]. peel He. apply map_err_Ok, field_new_Ok in Hx2 as [-> _].
    apply rebuild_Ok in He as [-> _]. cbn [fields]. apply Forall_app. split; [done|].
    apply Forall_singleton. by destruct x0.
  - peel He. destruct (negb _); simplify_eq. done.
Qed.

(** ** Projection *)

Definition project_step (s : LogicalSchema) (st : gset ColumnId * list LogicalField)
  (column : ColumnId) : Sem (gset ColumnId * list LogicalField) :=
  if decide (column ∈ st.1) then fail Kind.ProjectionDuplicate else
  field ← field_or_unknown s column;
  Ok ({[column]} ∪ st.1, st.2 ++ [field]).

Lemma project_step_Ok s seen acc c st :
  project_step s (seen, acc) c = Ok st <->
  c ∉ seen /\ exists f, schema_field s c = Some f /\ st = ({[c]} ∪ seen, acc ++ [f]).
Proof.
  unfold project_step. cbn [fst snd]. destruct (decide (c ∈ seen)); [split; [done|by intros []]|].
  rewrite bind_Ok. setoid_rewrite unknown_Ok. split.
  - intros (f & Hf & [= <-]). eauto.
  - intros (_ & f & Hf & ->). eauto.
Qed.

Lemma project_fold s cs : forall seen acc out,
  (exists seen', fold_result (project_step s) (seen, acc) cs = Ok (seen', out)) <->
  NoDup cs /\ (forall c, c ∈ cs -> c ∉ seen /\ is_Some (schema_field s c)) /\
  out = acc ++ omap (schema_field s) cs.
Proof.
  induction cs as [|c cs IH]; intros seen acc out; cbn [fold_result].
  - cbn. rewrite app_nil_r. split.
    + intros (seen' & [= _ <-]). split_and!; [constructor|set_solver|done].
    + intros (_ & _ & ->). eauto.
  - rewrite NoDup_cons. split.
    + intros (seen' & Hf). peel Hf. apply project_step_Ok in Hx as (Hc & f & Hf' & ->).
      destruct (IH ({[c]} ∪ seen) (acc ++ [f]) out) as [(Hnd & Hall & ->) _]; [eauto|].
      cbn. rewrite Hf', <- app_assoc. split_and!; [|done| |done].
      * intros Hin. destruct (Hall c Hin). set_solver.
      * intros d [->|Hd]%elem_of_cons; [eauto|]. destruct (Hall d Hd). set_solver.
    + intros ([Hc Hnd] & Hall & ->). destruct (Hall c) as [Hs [f Hf]]; [left|].
      destruct (IH ({[c]} ∪ seen) (acc ++ [f]) (acc ++ omap (schema_field s) (c :: cs))) as [_ [seen' Hs']].
      { split_and!; [done| |by cbn; rewrite Hf, <- app_assoc].
        intros d Hd. destruct (Hall d) as [? ?]; [by right|]. split; [|done]. set_solver. }
      exists seen'. apply bind_Ok. eexists. rewrite project_step_Ok. split; [|exact Hs']. eauto.
Qed.

Lemma project_selection s cs :
  NoDup (id <$> fields s) -> NoDup cs ->
  exists rest, fields s ≡ₚ omap (schema_field s) cs ++ rest.
Proof.
  intros Hi Hnd. apply submseteq_Permutation, NoDup_submseteq.
  - induction Hnd as [|c cs Hc Hnd IH]; [constructor|]. cbn.
    destruct (schema_field s c) as [f|] eqn:Hf; [|done]. constructor; [|done].
    intros (d & Hd & Hfd)%list_elem_of_omap. apply find_field_Some in Hf as [_ <-].
    apply find_field_Some in Hfd as [_ <-]. done.
  - intros f (c & _ & Hf)%list_elem_of_omap. by apply find_field_Some in Hf as [? _].
Qed.

Lemma project_effect_Ok s cs s' :
  ValidSchema s ->
  project_effect s cs = Ok s' <->
  cs <> [] /\ NoDup cs /\ (forall c, c ∈ cs -> is_Some (schema_field s c)) /\
  s' = mkSchema (version s) (omap (schema_field s) cs) (schema_metadata s).
Proof.
  intros Hs. unfold project_effect. destruct cs as [|c cs]; [naive_solver|].
  set (l := c :: cs). change (fun st column => if decide (column ∈ st.1) then _ else _) with (project_step s).
  rewrite bind_Ok. pose proof (project_fold s l ∅ []) as Hf. split.
  - intros ([seen out] & Hfold & [-> Hv]%rebuild_Ok). cbn [snd] in *.
    destruct (Hf out) as [(Hnd & Hall & ->) _]; [eauto|].
    split_and!; [done|done| |done]. intros d Hd. by apply Hall.
  - intros (_ & Hnd & Hall & ->).
    destruct (Hf (omap (schema_field s) l)) as [_ [seen Hfold]].
    { split_and!; [done|set_solver|done]. }
    eexists. split; [exact Hfold|]. apply rebuild_Ok. split; [done|]. cbn [snd].
    destruct (project_selection s l) as [rest Hp]; [apply Hs|done|].
    by eapply valid_selection.
Qed.

(** Rebuilding cannot fail when only nullability changes or a column goes. *)
Lemma rebuild_shape s fs :
  shape_of <$> fs = shape_of <$> fields s -> ValidSchema s ->
  rebuild s fs = Ok (mkSchema (version s) fs (schema_metadata s)).
Proof. intros Hsh Hs. apply rebuild_Ok. split; [done|]. by apply valid_same_shape. Qed.

Lemma rebuild_filter s c :
  ValidSchema s -> exists s', rebuild s (filter (fun f => id f <> c) (fields s)) = Ok s'.
Proof.
  intros Hs. eexists. apply rebuild_Ok. split; [reflexivity|].
  eapply (valid_selection s _ (filter (fun f => ~ id f <> c) (fields s))); [|done].
  symmetry. apply filter_app_complement.
Qed.

Lemma literal_error t v e :
  validate_literal_for_column t v = Err e -> e = sem_error Kind.LiteralIncompatibleWithColumn.
Proof. destruct t, v; cbn; unfold fail; congruence. Qed.

(** The documentation of the capability walk lists [contains] among the
    paused operators; the code admits it. *)
Lemma capability_gate_admits_contains (l r : Expr) :
  reject_paused_capability (Binary l Contains r) =
  (try! reject_paused_capability l; reject_paused_capability r).
Proof. done. Qed.

(** ** Claims *)

Definition sem_schema : LogicalSchema := mkSchema 1%N
  [mkField 1%N "amount" TInt64 false ∅; mkField 2%N "label" TUtf8 true ∅] ∅.

Definition sem_expr : Expr :=
  Conditional (Binary (Column 1%N) GreaterThan (Literal (SInt64 3)))
    (Concat [Column 2%N; Literal (SUtf8 "x")]) (Literal SNull).

(** Reference validation is exact for every resolver: it succeeds
    precisely on expressions of the right shape with at most 1,024 nodes and
    depth 64 whose every column resolves. *)
Theorem validate_expr_refs_exact {R : Type} `{ColumnResolver R} (expr : Expr) (resolver : R) :
  validate_expr_refs expr resolver = Ok tt <->
  ShapeOk expr /\ bounded expr /\ resolves resolver expr.
Proof. apply validate_expr_refs_Ok. Qed.

(** A successful analysis is sound for every later gate.  Its result
    type is one the engine executes (flat, no second-unit timestamp), its
    references validate, and both capability walks over the expression
    succeed; so the gates the callers run after the analysis can never
    reject what it accepted. *)
Theorem analyze_expr_sound {R : Type} `{ColumnResolver R} (resolver : R) (expr : Expr)
  (a : ExprAnalysis) :
  analyze_expr resolver expr = Ok a ->
  admitted (analysis_type a) /\
  validate_expr_refs expr resolver = Ok tt /\
  reject_paused_capability expr = Ok tt /\
  reject_paused_casts_in_expr resolver expr = Ok tt.
Proof.
  intros (Hs & Hb & Hi)%analyze_Ok. split_and!.
  - exact (infer_admitted resolver _ _ Hi).
  - apply validate_expr_refs_Ok. split_and!; [done..|]. by eapply infer_resolves.
  - by eapply infer_capability.
  - by eapply infer_casts.
Qed.

Lemma analyze_expr_sound_witness :
  analyze_expr sem_schema sem_expr = Ok (mkAnalysis TUtf8 true) /\ admitted TUtf8.
Proof.
  assert (analyze_expr sem_schema sem_expr = Ok (mkAnalysis TUtf8 true)) as H
    by (vm_compute; reflexivity).
  split; [exact H|]. apply (analyze_expr_sound sem_schema sem_expr (mkAnalysis TUtf8 true) H).
Defined.

(** C30: every accepted rule maps a valid schema to a valid schema with the
    same version and metadata, and touches only what it names: renaming,
    casting, temporal parsing, literal replacement and null filling change
    the one field as stated, dropping removes it and keeps the order of the
    rest, deriving appends exactly the declared field. *)
Theorem rule_effect_sound (s : LogicalSchema) (rule : Rule) (s' : LogicalSchema) :
  ValidSchema s -> rule_effect s rule = Ok s' ->
  ValidSchema s' /\ version s' = version s /\ schema_metadata s' = schema_metadata s /\
  effect_spec s rule s'.
Proof. apply rule_effect_Ok. Qed.

Definition sem_rule : Rule := RDeriveColumn 3%N "derived" TUtf8 true sem_expr.
Definition sem_derived : LogicalSchema := mkSchema 1%N
  (fields sem_schema ++ [mkField 3%N "derived" TUtf8 true ∅]) ∅.

Lemma rule_effect_sound_witness : effect_spec sem_schema sem_rule sem_derived.
Proof.
  apply (rule_effect_sound sem_schema sem_rule sem_derived).
  - apply validate_exact. vm_compute. reflexivity.
  - vm_compute. reflexivity.
Defined.

(** Executability is an invariant: if every column of the working
    schema has an admitted type, so has every column after any accepted
    rule. *)
Theorem rule_effect_keeps_admitted (s : LogicalSchema) (rule : Rule) (s' : LogicalSchema) :
  all_admitted s -> rule_effect s rule = Ok s' -> all_admitted s'.
Proof. apply rule_effect_admitted. Qed.

Lemma rule_effect_keeps_admitted_witness : all_admitted sem_derived.
Proof.
  apply (rule_effect_keeps_admitted sem_schema sem_rule sem_derived).
  - repeat constructor; vm_compute; reflexivity.
  - vm_compute. reflexivity.
Defined.

(** Projection is exact on valid schemas.  It succeeds precisely for a
    non-empty list of distinct known columns, yields those fields in the
    requested order, and the rebuilt schema always validates. *)
Theorem project_effect_exact (s : LogicalSchema) (columns : list ColumnId) (s' : LogicalSchema) :
  ValidSchema s ->
  project_effect s columns = Ok s' <->
  columns <> [] /\ NoDup columns /\ (forall c, c ∈ columns -> is_Some (schema_field s c)) /\
  s' = mkSchema (version s) (omap (schema_field s) columns) (schema_metadata s).
Proof. apply project_effect_Ok. Qed.

Lemma project_effect_exact_witness :
  project_effect sem_schema [2%N; 1%N] =
  Ok (mkSchema 1%N [mkField 2%N "label" TUtf8 true ∅; mkField 1%N "amount" TInt64 false ∅] ∅).
Proof.
  apply (project_effect_exact sem_schema [2%N; 1%N]).
  - apply validate_exact. vm_compute. reflexivity.
  - split; [discriminate|]. split; [repeat constructor; set_solver|]. split; [|reflexivity].
    intros c Hc. assert (c = 2%N \/ c = 1%N) as [->| ->] by set_solver; eexists; vm_compute; reflexivity.
Defined.

(** On a valid schema, changing nullability, replacing literals and
    dropping a column never fail in the final rebuild: the
    [SchemaRebuildInvalid] outcome is unreachable for these rules. *)
Theorem rule_effect_rebuild_total (s : LogicalSchema) (rule : Rule) :
  ValidSchema s ->
  match rule with
  | RFillNull _ _ | RReplaceLiteral _ _ _ | RDropColumn _ | RTrim _ | RNormalizeText _ _ =>
      rule_effect s rule <> Err (sem_error Kind.SchemaRebuildInvalid)
  | _ => True
  end.
Proof.
  intros Hs. destruct rule as [c to|c t p|c t p fmt|c|c from to|c v|c|i n t nul e|pr|ks|pr sv m|c op];
    try done; cbn [rule_effect]; unfold field_or_unknown.
  - destruct (schema_field s c); cbn; [|done]. by destruct (is_utf8 _).
  - destruct (schema_field s c); cbn; [|done].
    destruct (validate_literal_for_column _ from) as [[]|e] eqn:H1; cbn; [|apply literal_error in H1 as ->; discriminate].
    destruct (validate_literal_for_column _ to) as [[]|e] eqn:H2; cbn; [|apply literal_error in H2 as ->; discriminate].
    destruct (_ && _); [done|]. destruct (is_scalar_null to); [|done].
    by rewrite rebuild_shape by (done || by apply update_first_shape).
  - destruct (is_scalar_null v); [done|]. destruct (schema_field s c); cbn; [|done].
    destruct (is_binary _); [done|].
    destruct (validate_literal_for_column _ v) as [[]|e] eqn:H1; cbn; [|apply literal_error in H1 as ->; discriminate].
    by rewrite rebuild_shape by (done || by apply update_first_shape).
  - destruct (_ <=? _)%N; [done|]. destruct (schema_field s c); cbn; [|done].
    by destruct (rebuild_filter s c Hs) as [s' ->].
  - destruct (schema_field s c); cbn; [|done]. by destruct (is_utf8 _).
Qed.

Lemma rule_effect_rebuild_total_witness :
  rule_effect sem_schema (RDropColumn 1%N) <> Err (sem_error Kind.SchemaRebuildInvalid).
Proof.
  apply (rule_effect_rebuild_total sem_schema (RDropColumn 1%N)).
  apply validate_exact. vm_compute. reflexivity.
Defined.
