(* ===== verification/TypeSystem.v ===== *)
(** * The type system of expressions

    The typing rules that [stillflow-plan/src/semantics.rs] implements in
    [infer_expr], as a relation between an expression, its type and whether
    it may be null, and the theorem that the analysis decides exactly it. *)

From S2P Require Import Prelude Text Secrets Logical Schema Expression Rule Semantics.

(** ** The rules

    Stated with the widening order of [Logical] and without the analysis.
    Arithmetic has no rule: it is paused. *)

(** The types the engine executes: no lists, structs or second-unit
    timestamps, and a time zone that is not blank and within the text budget. *)
Definition executable (t : LogicalType) : Prop :=
  match t with
  | TList _ | TStruct _ | TTimestamp Second _ => False
  | TTimestamp _ (Some timezone) => is_blank timezone = false /\ (str_len timezone <= MAX_SCHEMA_TEXT_BYTES)%N
  | _ => True
  end.
Definition textual (t : LogicalType) : Prop := t = TUtf8 \/ t = TNull.
Definition temporal (t : LogicalType) : Prop := t = TDate32 \/ exists unit zone, t = TTimestamp unit zone.
Definition castable (from to : LogicalType) : Prop :=
  ~ (temporal from /\ to = TUtf8) /\ (from = TBinary <-> to = TBinary).
(** A value of type [Null] is null whatever its flag says. *)
Definition may_be_null (arm : LogicalType * bool) : Prop := arm.2 = true \/ arm.1 = TNull.
(** The two branches of a conditional have one type, or one of them is null. *)
Definition branches (t u v : LogicalType) : Prop := (t = u /\ v = t) \/ (t = TNull /\ v = u) \/ (u = TNull /\ v = t).
(** [w] is the join of [u] with all of [ts]. *)
Inductive joins : LogicalType -> list LogicalType -> LogicalType -> Prop :=
| joins_nil u : joins u [] u
| joins_cons u t v ts w : is_join u t v -> joins v ts w -> joins u (t :: ts) w.

Section has_type.
Context {R} `{ColumnResolver R} (resolver : R).

Inductive has_type : Expr -> LogicalType -> bool -> Prop :=
| type_column c f :
    resolve_column resolver c = Some f -> executable (data_type f) -> has_type (Column c) (data_type f) (nullable f)
| type_boolean b : has_type (Literal (SBoolean b)) TBoolean false
| type_int64 i : has_type (Literal (SInt64 i)) TInt64 false
| type_uint64 i : has_type (Literal (SUInt64 i)) TUInt64 false
| type_float64 f : has_type (Literal (SFloat64 f)) TFloat64 false
| type_utf8 s : has_type (Literal (SUtf8 s)) TUtf8 false
| type_null : has_type (Literal SNull) TNull true
| type_not e n : has_type e TBoolean n -> has_type (Unary Not e) TBoolean n
| type_is_null e t n negated : has_type e t n -> has_type (IsNull e negated) TBoolean false
| type_cast e t n target :
    has_type e t n -> executable target -> castable t target -> has_type (Cast e target) target n
| type_logical l o r n m :
    o = And \/ o = Or -> has_type l TBoolean n -> has_type r TBoolean m -> has_type (Binary l o r) TBoolean (n || m)
| type_contains l r t u n m k :
    has_type l t n -> has_type r u m -> textual t -> textual u ->
    (k = true <-> may_be_null (t, n) \/ may_be_null (u, m)) -> has_type (Binary l Contains r) TBoolean k
| type_equality l o r t u v n m :
    o = Equal \/ o = NotEqual -> has_type l t n -> has_type r u m -> is_join t u v ->
    has_type (Binary l o r) TBoolean (n || m)
| type_order l o r t u v n m :
    o = LessThan \/ o = LessThanOrEqual \/ o = GreaterThan \/ o = GreaterThanOrEqual ->
    has_type l t n -> has_type r u m -> is_join t u v -> is_numeric v = true \/ temporal v -> executable v ->
    has_type (Binary l o r) TBoolean (n || m)
| type_substring e start length t n k :
    has_type e t n -> textual t -> (k = true <-> may_be_null (t, n)) -> has_type (Substring e start length) TUtf8 k
| type_conditional p a b t u v i n m k :
    has_type p TBoolean i -> has_type a t n -> has_type b u m -> branches t u v ->
    (k = true <-> may_be_null (t, n) \/ may_be_null (u, m)) -> has_type (Conditional p a b) v k
| type_concat es arms k :
    (2 <= len es <= 8)%N -> Forall2 (fun e arm => has_type e arm.1 arm.2) es arms -> Forall (fun arm => textual arm.1) arms ->
    (k = true <-> Exists may_be_null arms) -> has_type (Concat es) TUtf8 k
| type_coalesce es arm arms v k :
    Forall2 (fun e arm => has_type e arm.1 arm.2) es (arm :: arms) -> joins arm.1 arms.*1 v -> executable v ->
    (k = true <-> Forall (fun arm => arm.2 = true) (arm :: arms)) -> has_type (Coalesce es) v k.
End has_type.

(** ** The checks of the analysis, as the rules put them *)

Lemma validate_zone unit zone :
  validate_type (TTimestamp unit (Some zone)) = Ok tt <-> is_blank zone = false /\ (str_len zone <= MAX_SCHEMA_TEXT_BYTES)%N.
Proof.
  unfold validate_type. rewrite validate_nodes_Ok by apply empty_within. cbn. unfold within, spend. cbn. split.
  - intros [[Hwf _] [_ ?]]. by inversion Hwf.
  - intros [? ?]. split_and!; try done. by constructor.
Qed.
Lemma admitted_executable t : admitted t <-> executable t.
Proof.
  unfold admitted, reject_paused_type.
  destruct t as [| | | | | | | | | | | | | | |[] [zone|]| |]; cbn [executable]; try done; by rewrite map_err_Ok, validate_zone.
Qed.
Lemma literal_typed {R} `{ColumnResolver R} (r : R) v t n : infer_literal v = (t, n) <-> has_type r (Literal v) t n.
Proof.
  split; [destruct v; intros [= <- <-]; constructor|]. inversion 1; done.
Qed.
Lemma text_operand_textual t : text_operand t = true <-> textual t.
Proof. unfold textual. destruct t; naive_solver. Qed.
Lemma null_flag t n : n || is_null_type t = true <-> may_be_null (t, n).
Proof. unfold may_be_null. cbn. rewrite orb_true_iff. destruct t; naive_solver. Qed.
Lemma paused_cast_castable from to : reject_paused_cast from to = Ok tt <-> castable from to.
Proof.
  unfold reject_paused_cast, castable, temporal.
  destruct from, to; cbn; naive_solver.
Qed.
Lemma ordered_pair_Ok t u : ordered_pair t u = Ok tt <-> exists v, is_join t u v /\ (is_numeric v = true \/ temporal v) /\ executable v.
Proof.
  unfold ordered_pair. rewrite bind_Ok. setoid_rewrite map_err_Ok. setoid_rewrite lub_is_join. unfold temporal.
  apply exist_proper. intros v. apply and_iff_compat_l. rewrite <- admitted_executable. unfold admitted.
  destruct v; naive_solver.
Qed.
Lemma comparable_pair_Ok t u : comparable_pair t u = Ok tt <-> exists v, is_join t u v.
Proof. unfold comparable_pair. rewrite fmap_Ok. setoid_rewrite map_err_Ok. setoid_rewrite lub_is_join. naive_solver. Qed.
Lemma unify_branches_Ok t u v b :
  unify_branches t u = Ok (v, b) <-> branches t u v /\ b = is_null_type t || is_null_type u.
Proof.
  unfold branches. destruct (is_null_type t) eqn:Ht, (is_null_type u) eqn:Hu.
  - destruct t, u; naive_solver.
  - destruct t; try done. destruct u; naive_solver.
  - destruct u; try done. destruct t; naive_solver.
  - assert (unify_branches t u = if type_eqb t u then Ok (t, false) else fail Kind.ConditionalBranchesIncompatible) as ->
      by (destruct t, u; done).
    destruct (type_eqb t u) eqn:Heq; [apply type_eqb_spec in Heq; destruct t; naive_solver|].
    assert (t <> u) by (intros ?%type_eqb_spec; congruence). destruct t, u; naive_solver.
Qed.

Section typed.
Context {R} `{ColumnResolver R} (r : R).

(** An arm of [Concat] or [Coalesce] and what it is found to be. *)
Definition arm_typed (e : Expr) (arm : LogicalType * bool) : Prop := has_type r e arm.1 arm.2.

Lemma concat_typed es : (forall e, e ∈ es -> forall arm, infer_expr r e = Ok arm <-> arm_typed e arm) -> forall b n,
  fold_result (fun nullable e => arm ← infer_expr r e; concat_arm nullable arm) b es = Ok n <->
  exists arms, Forall2 arm_typed es arms /\ Forall (fun arm => textual arm.1) arms /\
    (n = true <-> b = true \/ Exists may_be_null arms).
Proof.
  induction es as [|e es IH]; intros He b n; cbn [fold_result].
  { split; [intros [= <-]; exists []; split_and!; [constructor..|]; rewrite Exists_nil; naive_solver|].
    intros (arms & ->%Forall2_nil_inv_l & _ & Hn). rewrite Exists_nil in Hn. destruct n, b; naive_solver. }
  rewrite bind_Ok. setoid_rewrite bind_Ok. split.
  - intros (b1 & ([t k] & Ht & Hb) & Hf). apply IH in Hf as (arms & Ha & Htx & Hn); [|intros; apply He; by right].
    unfold concat_arm in Hb. cbn [fst snd] in Hb. destruct (text_operand t) eqn:Hop; [|done]. injection Hb as <-.
    exists ((t, k) :: arms). split_and!.
    + constructor; [apply He; [by left|done]|done].
    + constructor; [by apply text_operand_textual|done].
    + rewrite Exists_cons, <- (null_flag t k), Hn, !orb_true_iff. tauto.
  - intros (arms & ([t k] & arms' & Ht & Ha & ->)%Forall2_cons_inv_l & Htx & Hn). apply Forall_cons in Htx as [Htx Htxs].
    exists (b || k || is_null_type t). split.
    + exists (t, k). split; [apply He; [by left|done]|]. unfold concat_arm. cbn in *. by apply text_operand_textual in Htx as ->.
    + apply IH; [intros; apply He; by right|]. exists arms'. split_and!; [done..|].
      rewrite Hn, Exists_cons, <- (null_flag t k), !orb_true_iff. tauto.
Qed.

Lemma coalesce_typed es : (forall e, e ∈ es -> forall arm, infer_expr r e = Ok arm <-> arm_typed e arm) -> forall u b v n,
  fold_result (fun st e => arm ← infer_expr r e; coalesce_arm st arm) (Some u, b) es = Ok (Some v, n) <->
  exists arms, Forall2 arm_typed es arms /\ joins u arms.*1 v /\ (n = true <-> b = true /\ Forall (fun arm => arm.2 = true) arms).
Proof.
  induction es as [|e es IH]; intros He u b v n; cbn [fold_result].
  { split; [intros [= <- <-]; exists []; split_and!; [constructor..|]; rewrite Forall_nil; naive_solver|].
    intros (arms & ->%Forall2_nil_inv_l & Hj & Hn). inversion Hj; subst. rewrite Forall_nil in Hn.
    do 2 f_equal. destruct n, b; naive_solver. }
  rewrite bind_Ok. setoid_rewrite bind_Ok. split.
  - intros ([u1 b1] & ([t k] & Ht & Hc) & Hf). unfold coalesce_arm in Hc. cbn in Hc.
    apply bind_Ok in Hc as (w & Hw%map_err_Ok%lub_is_join & [= <- <-]).
    apply IH in Hf as (arms & Ha & Hj & Hn); [|intros; apply He; by right]. exists ((t, k) :: arms). split_and!.
    + constructor; [apply He; [by left|done]|done].
    + by econstructor.
    + rewrite Hn, Forall_cons, andb_true_iff. cbn. tauto.
  - intros (arms & ([t k] & arms' & Ht & Ha & ->)%Forall2_cons_inv_l & Hj & Hn). inversion Hj as [|? ? w ? ? Hw Hj']; subst.
    exists (Some w, b && k). split.
    + exists (t, k). split; [apply He; [by left|done]|]. unfold coalesce_arm. cbn. apply lub_is_join in Hw. by rewrite Hw.
    + apply IH; [intros; apply He; by right|]. exists arms'. split_and!; [done..|].
      rewrite Hn, Forall_cons, andb_true_iff. cbn. tauto.
Qed.
End typed.

(** What is inferred for an operator is what its typing rule says. *)
Lemma binary_typed {R} `{ColumnResolver R} (r : R) l o rr t n :
  (forall t n, infer_expr r l = Ok (t, n) <-> has_type r l t n) -> (forall t n, infer_expr r rr = Ok (t, n) <-> has_type r rr t n) ->
  infer_expr r (Binary l o rr) = Ok (t, n) <-> has_type r (Binary l o rr) t n.
Proof.
  intros Hl Hr. cbn [infer_expr]. rewrite bind_Ok. setoid_rewrite bind_Ok. split.
  - intros ([t1 n1] & Hl1%Hl & [t2 n2] & Hr1%Hr & Hb). cbn [fst snd] in Hb.
    destruct o; cbn [infer_binary] in Hb; try done;
      try (apply bind_Ok in Hb as ([] & (w & Hw)%comparable_pair_Ok & [= <- <-]); eapply type_equality; eauto);
      try (apply bind_Ok in Hb as ([] & (w & Hw & Hk & Hx)%ordered_pair_Ok & [= <- <-]); eapply type_order; eauto);
      try (destruct (is_boolean t1 && is_boolean t2) eqn:Hbool; [|done]; injection Hb as <- <-;
           apply andb_true_iff in Hbool as [? ?]; destruct t1, t2; try done; apply type_logical; auto).
    destruct (text_operand t1 && text_operand t2) eqn:Htx; [|done]. injection Hb as <- <-.
    apply andb_true_iff in Htx as [?%text_operand_textual ?%text_operand_textual].
    eapply type_contains; eauto. rewrite <- !null_flag, !orb_true_iff. tauto.
  - inversion 1 as [| | | | | | | | | |? ? ? n1 n2 Ho H1 H2|? ? t1 t2 n1 n2 k H1 H2 Hx1 Hx2 Hk
      |? ? ? t1 t2 w n1 n2 Ho H1 H2 Hj|? ? ? t1 t2 w n1 n2 Ho H1 H2 Hj Hk Hx| | | |]; subst.
    + exists (TBoolean, n1). split; [by apply Hl|]. exists (TBoolean, n2). split; [by apply Hr|]. by destruct Ho as [-> | ->].
    + exists (t1, n1). split; [by apply Hl|]. exists (t2, n2). split; [by apply Hr|]. cbn [infer_binary fst snd].
      apply text_operand_textual in Hx1 as ->. apply text_operand_textual in Hx2 as ->. cbn. do 2 f_equal.
      rewrite <- !null_flag in Hk. apply eq_true_iff_eq. rewrite Hk, !orb_true_iff. tauto.
    + exists (t1, n1). split; [by apply Hl|]. exists (t2, n2). split; [by apply Hr|]. cbn [fst snd].
      assert (comparable_pair t1 t2 = Ok tt) as Hc by (apply comparable_pair_Ok; eauto).
      destruct Ho as [-> | ->]; cbn [infer_binary]; by rewrite Hc.
    + exists (t1, n1). split; [by apply Hl|]. exists (t2, n2). split; [by apply Hr|]. cbn [fst snd].
      assert (ordered_pair t1 t2 = Ok tt) as Hc by (apply ordered_pair_Ok; eauto).
      destruct Ho as [-> | [-> | [-> | ->]]]; cbn [infer_binary]; by rewrite Hc.
Qed.

Lemma conditional_typed {R} `{ColumnResolver R} (r : R) p a b t n :
  (forall t n, infer_expr r p = Ok (t, n) <-> has_type r p t n) -> (forall t n, infer_expr r a = Ok (t, n) <-> has_type r a t n) ->
  (forall t n, infer_expr r b = Ok (t, n) <-> has_type r b t n) ->
  infer_expr r (Conditional p a b) = Ok (t, n) <-> has_type r (Conditional p a b) t n.
Proof.
  intros Hp Ha Hb. cbn [infer_expr]. rewrite bind_Ok. split.
  - intros ([t0 n0] & Hp1%Hp & Hi). cbn [fst] in Hi. destruct (is_boolean t0) eqn:Hbool; [|done]. destruct t0; try done.
    apply bind_Ok in Hi as ([t1 n1] & Ha1%Ha & Hi). apply bind_Ok in Hi as ([t2 n2] & Hb1%Hb & Hi).
    apply bind_Ok in Hi as ([v k] & [Hu ->]%unify_branches_Ok & [= <- <-]).
    eapply type_conditional; eauto. rewrite <- !null_flag, !orb_true_iff. cbn. tauto.
  - inversion 1 as [| | | | | | | | | | | | | | |? ? ? t1 t2 v i n1 n2 k Hp1 Ha1 Hb1 Hu Hk| |]; subst.
    exists (TBoolean, i). split; [by apply Hp|]. cbn [fst is_boolean negb]. apply bind_Ok. exists (t1, n1). split; [by apply Ha|].
    apply bind_Ok. exists (t2, n2). split; [by apply Hb|]. cbn [fst snd]. apply bind_Ok.
    exists (t, is_null_type t1 || is_null_type t2). split; [by apply unify_branches_Ok|]. cbn. do 2 f_equal.
    rewrite <- !null_flag in Hk. apply eq_true_iff_eq. rewrite Hk, !orb_true_iff. tauto.
Qed.

Lemma arms_typed {R} `{ColumnResolver R} (r : R) es t n :
  (forall e, e ∈ es -> forall arm, infer_expr r e = Ok arm <-> arm_typed r e arm) ->
  (infer_expr r (Concat es) = Ok (t, n) <-> has_type r (Concat es) t n) /\
  (infer_expr r (Coalesce es) = Ok (t, n) <-> has_type r (Coalesce es) t n).
Proof.
  intros He. cbn [infer_expr]. split.
  - destruct ((len es <? 2) || (8 <? len es))%N eqn:Hlen.
    { split; [done|]. inversion 1; subst. apply orb_true_iff in Hlen as [?%N.ltb_lt|?%N.ltb_lt]; lia. }
    apply orb_false_iff in Hlen as [?%N.ltb_ge ?%N.ltb_ge]. rewrite bind_Ok. setoid_rewrite (concat_typed r es He). split.
    + intros (k & (arms & Ha & Htx & Hn) & [= <- <-]). eapply type_concat; [lia|done|done|]. rewrite Hn. naive_solver.
    + inversion 1 as [| | | | | | | | | | | | | | | |? arms k Hl Ha Htx Hn|]; subst. exists n. split; [|done]. exists arms.
      split_and!; [done..|]. rewrite Hn. naive_solver.
  - rewrite bind_Ok. split.
    + intros ([v k] & Hf & Hi). destruct es as [|e es]; cbn [fold_result] in Hf; [by simplify_eq|].
      apply bind_Ok in Hf as (st & ([t0 n0] & Ht0 & [= <-])%bind_Ok & Hf). cbn in Hi.
      apply bind_Ok in Hi as (w & [= ->]%ok_or_Ok & Hi). apply bind_Ok in Hi as ([] & Hx%admitted_executable & [= <- <-]).
      cbn in Hf. apply coalesce_typed in Hf as (arms & Ha & Hj & Hn); [|intros; apply He; by right].
      eapply (type_coalesce _ _ (t0, n0) arms); [constructor; [apply He; [by left|done]|done]|done|done|].
      rewrite Hn, Forall_cons. done.
    + inversion 1 as [| | | | | | | | | | | | | | | | |? [t0 n0] arms v k Ha Hj Hx Hn]; subst.
      apply Forall2_cons_inv_r in Ha as (e & es' & Ht0 & Ha & ->). exists (Some t, n). split.
      * cbn [fold_result]. apply bind_Ok. exists (Some t0, n0). split.
        -- apply bind_Ok. exists (t0, n0). split; [by apply He; [left|]|done].
        -- apply coalesce_typed; [intros; apply He; by right|]. exists arms. split_and!; [done..|]. by rewrite Hn, Forall_cons.
      * cbn. apply admitted_executable in Hx. unfold admitted in Hx. by rewrite Hx.
Qed.

Lemma infer_typed {R} `{ColumnResolver R} (r : R) e : forall t n, infer_expr r e = Ok (t, n) <-> has_type r e t n.
Proof.
  induction e as [e IH] using tree_ind.
  intros t n. destruct e as [c|v|[] e|l o rr|e ng|e ty|es|es|p th ot|e s k]; cbn [children Expr_tree expr_pushes] in IH.
  - cbn [infer_expr]. rewrite bind_Ok. setoid_rewrite ok_or_Ok. split.
    + intros (f & Hf & Ht). apply bind_Ok in Ht as ([] & Hp & [= <- <-]). by constructor; [|apply admitted_executable].
    + inversion 1 as [? f Hf Hx| | | | | | | | | | | | | | | | |]; subst. exists f. split; [done|].
      apply admitted_executable in Hx. unfold admitted in Hx. by rewrite Hx.
  - rewrite <- literal_typed. cbn [infer_expr]. split; congruence.
  - cbn [infer_expr]. rewrite bind_Ok. split.
    + intros ([t' n'] & Hi & Ht). cbn in Ht. apply IH in Hi; [|by left].
      destruct t'; try done. injection Ht as <- <-. by constructor.
    + inversion 1; subst. exists (TBoolean, n). split; [|done]. by apply IH; [left|].
  - split; [done|]. by inversion 1.
  - apply binary_typed; apply IH; set_solver.
  - cbn [infer_expr]. rewrite bind_Ok. split.
    + intros ([t' n'] & Hi & [= <- <-]). apply IH in Hi; [|by left]. by econstructor.
    + inversion 1 as [| | | | | | | |? t1 n1| | | | | | | | |]; subst. exists (t1, n1). split; [|done]. by apply IH; [left|].
  - cbn [infer_expr]. rewrite bind_Ok. split.
    + intros ([t' n'] & Hi & Ht). apply IH in Hi; [|by left]. apply bind_Ok in Ht as ([] & Hx%admitted_executable & Ht).
      apply bind_Ok in Ht as ([] & Hc%paused_cast_castable & [= <- <-]). by econstructor.
    + inversion 1 as [| | | | | | | | |? t1 n1 ? Ht Hx Hc| | | | | | | |]; subst. exists (t1, n). split; [by apply IH; [left|]|].
      apply admitted_executable in Hx. unfold admitted in Hx. rewrite Hx. cbn. apply paused_cast_castable in Hc. by rewrite Hc.
  - apply arms_typed. intros e He [t1 n1]. by apply IH.
  - apply arms_typed. intros e He [t1 n1]. by apply IH.
  - apply conditional_typed; apply IH; set_solver.
  - cbn [infer_expr]. rewrite bind_Ok. split.
    + intros ([t' n'] & Hi & Ht). apply IH in Hi; [|by left]. cbn [fst snd] in Ht. destruct (text_operand t') eqn:Hop; [|done].
      injection Ht as <- <-. apply text_operand_textual in Hop. eapply type_substring; [done..|]. apply null_flag.
    + inversion 1 as [| | | | | | | | | | | | | |? ? ? t1 n1 ? Ht Htx Hn| | |]; subst. exists (t1, n1). split; [by apply IH; [left|]|].
      cbn [fst snd]. apply text_operand_textual in Htx as ->. cbn. do 2 f_equal. rewrite <- null_flag in Hn.
      apply eq_true_iff_eq. by rewrite Hn.
Qed.

(** ** Claims *)

(** C29: the analysis decides the type system.  For every resolver and every
    expression it succeeds exactly when the expression has the right shape,
    at most 1,024 nodes and depth 64 and is typed by the rules, and its
    answer is the type and the nullability that the rules give; that type is
    one the engine executes. *)
Theorem analyze_expr_exact {R : Type} `{ColumnResolver R} (resolver : R) (expr : Expr) (a : ExprAnalysis) :
  (analyze_expr resolver expr = Ok a <->
   ShapeOk expr /\ bounded expr /\ has_type resolver expr (analysis_type a) (analysis_nullable a)) /\
  (analyze_expr resolver expr = Ok a -> executable (analysis_type a)).
Proof.
  rewrite <- infer_typed, <- admitted_executable. split; [apply analyze_Ok|].
  intros (_ & _ & Hi)%analyze_Ok. exact (infer_admitted resolver _ _ Hi).
Qed.

(** A conditional of text whose other branch is a null literal. *)
Example sem_expr_typed : has_type sem_schema sem_expr TUtf8 true.
Proof. apply infer_typed. vm_compute. reflexivity. Qed.
