(* ===== verification/Lookup.v ===== *)
(** * The ordinal index: [stillflow-engine/src/lookup.rs]

    [LogicalSchema::field] is a linear scan; the engine resolves columns
    through a sorted [(ColumnId, ordinal)] table and a binary search when the
    shape-only policy [use_index] says the build pays.  On schemas with
    distinct identities the index resolves every column exactly as the scan
    does, so the choice is unobservable. *)

From S2P Require Import Prelude Text Secrets Logical Schema Expression Rule Semantics.

(** ** The index *)

Definition use_index (field_count served_lookups : N) : bool :=
  let eighth_threshold := (field_count / 8)%N in
  let threshold := if (eighth_threshold <? 32)%N then 32%N else eighth_threshold in
  (threshold <=? served_lookups)%N.

Notation Entry := (ColumnId * N)%type.
Definition entry_le (x y : Entry) : Prop := (x.1 <= y.1)%N.
#[export] Instance entry_le_dec : RelDecision entry_le.
Proof. intros x y. unfold entry_le. apply _. Defined.
#[export] Instance entry_le_total : Total entry_le.
Proof. intros x y. unfold entry_le. lia. Qed.
#[export] Instance entry_le_trans : Transitive entry_le.
Proof. intros x y z. unfold entry_le. lia. Qed.

(** [Vec::dedup_by_key]: of equal neighbours the first stays. *)
Fixpoint dedup_by_key (previous : option ColumnId) (l : list Entry) : list Entry :=
  match l with
  | [] => []
  | e :: l =>
      if bool_decide (previous = Some e.1) then dedup_by_key previous l
      else e :: dedup_by_key (Some e.1) l
  end.

(** The [sort_by_key] is stable, as is [merge_sort]; ordinals fit [u32]
    because a validated schema has at most 4,096 fields. *)
Definition build_ordinals (schema : LogicalSchema) : list Entry :=
  let entries := imap (fun ordinal f => (id f, N.of_nat ordinal)) (fields schema) in
  dedup_by_key None (merge_sort entry_le entries).

(** [slice::binary_search_by_key]: the probing loop of the standard library,
    halving [size] from [base]. *)
Fixpoint bsearch_base (fuel : nat) (l : list Entry) (key : ColumnId) (base size : nat) : nat :=
  match fuel with
  | 0 => base
  | S fuel =>
      if (size <=? 1)%nat then base else
      let half := (size / 2)%nat in
      let mid := (base + half)%nat in
      let base := match (l !! mid : option Entry) with
                  | Some e => if (key <? e.1)%N then base else mid
                  | None => base
                  end in
      bsearch_base fuel l key base (size - half)
  end.
Definition binary_search_by_key (l : list Entry) (key : ColumnId) : option nat :=
  match l with
  | [] => None
  | _ =>
      let base := bsearch_base (length l) l key 0 (length l) in
      match (l !! base : option Entry) with
      | Some e => if (e.1 =? key)%N then Some base else None
      | None => None
      end
  end.

Definition ordinal_in (entries : list Entry) (key : ColumnId) : option nat :=
  position ← binary_search_by_key entries key;
  e ← entries !! position;
  Some (N.to_nat e.2).

Record OrdinalIndex := mkIndex { index_schema : LogicalSchema; index_entries : list Entry }.
Definition index_build (schema : LogicalSchema) : OrdinalIndex :=
  mkIndex schema (build_ordinals schema).
Definition index_field (ix : OrdinalIndex) (key : ColumnId) : option LogicalField :=
  ordinal ← ordinal_in (index_entries ix) key;
  fields (index_schema ix) !! ordinal.

Inductive AuthorizedLookup :=
| Linear (schema : LogicalSchema)
| Indexed (index : OrdinalIndex).
Definition authorized_for_shape (schema : LogicalSchema) (served_lookups : N) : AuthorizedLookup :=
  if use_index (len (fields schema)) served_lookups
  then Indexed (index_build schema) else Linear schema.
#[export] Instance AuthorizedLookup_resolver : ColumnResolver AuthorizedLookup :=
  fun lookup key =>
    match lookup with
    | Linear schema => schema_field schema key
    | Indexed index => index_field index key
    end.

(** ** The binary search finds what is there *)

Definition key_lt (x y : Entry) : Prop := (x.1 < y.1)%N.

Lemma binary_search_eq (l : list Entry) key :
  binary_search_by_key l key =
  match (l !! bsearch_base (length l) l key 0 (length l) : option Entry) with
  | Some e => if (e.1 =? key)%N then Some (bsearch_base (length l) l key 0 (length l)) else None
  | None => None
  end.
Proof. by destruct l. Qed.

Section bsearch.
Context (l : list Entry) (Hsorted : StronglySorted key_lt l).

Lemma sorted_lookup i j x y :
  l !! i = Some x -> l !! j = Some y -> i < j -> (x.1 < y.1)%N.
Proof. intros Hi Hj Hij. by apply (StronglySorted_lookup key_lt l i j). Qed.

(** The probe keeps the position of the key inside its window. *)
Lemma bsearch_base_spec key i e fuel : forall base size,
  l !! i = Some e -> e.1 = key ->
  base <= i < base + size -> base + size <= length l -> size <= fuel ->
  bsearch_base fuel l key base size = i.
Proof.
  induction fuel as [|fuel IH]; intros base size Hi He Hw Hlen Hf; [lia|].
  cbn [bsearch_base]. cbv zeta. subst key.
  destruct (Nat.leb_spec size 1); [lia|].
  assert (1 <= size / 2 < size) as Hhalf.
  { split; [apply Nat.div_le_lower_bound; lia|apply Nat.div_lt; lia]. }
  pose proof (Nat.Div0.mul_div_le size 2) as Hmul.
  destruct (lookup_lt_is_Some_2 l (base + size / 2)) as [m Hm]; [lia|]. rewrite Hm.
  destruct (N.ltb_spec e.1 m.1) as [Hlt|Hge].
  - apply IH; try done; try lia. split; [lia|].
    assert (i < base + size / 2); [|lia].
    apply Nat.nle_gt. intros Hle.
    destruct (Nat.eq_dec i (base + size / 2)) as [->|]; [assert (m = e) as -> by congruence; by apply N.lt_irrefl in Hlt|].
    pose proof (sorted_lookup (base + size / 2) i m e Hm Hi ltac:(lia)) as Hme.
    by apply (N.lt_asymm _ _ Hlt) in Hme.
  - apply IH; try done; try lia. split; [|lia].
    apply Nat.nlt_ge. intros Hlt.
    pose proof (sorted_lookup i (base + size / 2) e m Hi Hm Hlt) as Hem.
    by apply N.lt_nge in Hem.
Qed.

Lemma binary_search_Some key i :
  binary_search_by_key l key = Some i <-> exists e, l !! i = Some e /\ e.1 = key.
Proof.
  split.
  - rewrite binary_search_eq. destruct (l !! _) as [e|] eqn:He; [|done].
    destruct (N.eqb_spec e.1 key); [|done]. intros [= <-]. eauto.
  - intros (e & Hi & He). apply lookup_lt_Some in Hi as Hlt. rewrite binary_search_eq.
    rewrite (bsearch_base_spec key i e); [|try done; try lia..].
    rewrite Hi, He, N.eqb_refl. done.
Qed.

Lemma binary_search_None key :
  binary_search_by_key l key = None <-> key ∉ l.*1.
Proof.
  split.
  - intros Hn (e & -> & (i & Hi)%list_elem_of_lookup_1)%list_elem_of_fmap.
    assert (binary_search_by_key l e.1 = Some i) by (apply binary_search_Some; eauto). congruence.
  - intros Hk. destruct (binary_search_by_key l key) as [i|] eqn:Hb; [|done].
    apply binary_search_Some in Hb as (e & Hi & <-). exfalso. apply Hk.
    apply list_elem_of_fmap. exists e. split; [done|]. by eapply list_elem_of_lookup_2.
Qed.
End bsearch.

(** ** The table is the sorted image of the fields *)

Lemma dedup_distinct l prev :
  NoDup l.*1 -> (forall e, e ∈ l -> prev <> Some e.1) -> dedup_by_key prev l = l.
Proof.
  revert prev. induction l as [|e l IH]; intros prev Hnd Hp; [done|]. cbn.
  apply NoDup_cons in Hnd as [He Hnd].
  rewrite bool_decide_eq_false_2 by (apply Hp; left). f_equal. apply IH; [done|].
  intros e' He' [= Heq]. apply He. rewrite Heq. apply list_elem_of_fmap. eauto.
Qed.

Definition ordinal_pairs (fs : list LogicalField) : list Entry :=
  imap (fun ordinal f => (id f, N.of_nat ordinal)) fs.

Lemma ordinal_pairs_keys fs : (ordinal_pairs fs).*1 = id <$> fs.
Proof.
  unfold ordinal_pairs. rewrite fmap_imap.
  assert (forall (l : list LogicalField), imap (fun _ f => id f) l = id <$> l) as Himap.
  { induction l as [|f l IH]; [done|]. cbn. by rewrite <- IH. }
  apply Himap.
Qed.

Section built.
Context (s : LogicalSchema) (Hids : NoDup (id <$> fields s)).

Lemma build_ordinals_Permutation : build_ordinals s ≡ₚ ordinal_pairs (fields s).
Proof.
  unfold build_ordinals. rewrite dedup_distinct; [apply merge_sort_Permutation| |done].
  rewrite merge_sort_Permutation. by rewrite ordinal_pairs_keys.
Qed.

Lemma build_ordinals_sorted : StronglySorted key_lt (build_ordinals s).
Proof.
  unfold build_ordinals.
  assert (NoDup (merge_sort entry_le (ordinal_pairs (fields s))).*1) as Hnd.
  { rewrite merge_sort_Permutation. by rewrite ordinal_pairs_keys. }
  rewrite dedup_distinct by done.
  assert (StronglySorted entry_le (merge_sort entry_le (ordinal_pairs (fields s)))) as Hs
    by (apply StronglySorted_merge_sort; apply _).
  fold (ordinal_pairs (fields s)). induction Hs as [|e l Hl IH He]; [constructor|].
  apply NoDup_cons in Hnd as [Hn Hnd]. constructor; [by apply IH|].
  rewrite Forall_forall in *. intros e' He'. specialize (He e' He').
  unfold entry_le, key_lt in *. apply N.le_neq. split; [done|]. intros Heq. apply Hn.
  rewrite Heq. apply list_elem_of_fmap. eauto.
Qed.

Lemma elem_of_build_ordinals c n :
  (c, n) ∈ build_ordinals s <->
  exists i f, n = N.of_nat i /\ fields s !! i = Some f /\ id f = c.
Proof.
  rewrite build_ordinals_Permutation. unfold ordinal_pairs. rewrite elem_of_lookup_imap.
  naive_solver.
Qed.

(** The ordinal found is the position of the column. *)
Lemma ordinal_in_spec c i :
  ordinal_in (build_ordinals s) c = Some i <->
  exists f, fields s !! i = Some f /\ id f = c.
Proof.
  unfold ordinal_in. split.
  - intros (p & Hp & (e & He & [= <-])%bind_Some)%bind_Some.
    apply (binary_search_Some _ build_ordinals_sorted) in Hp as (e' & He' & <-). simplify_eq.
    apply list_elem_of_lookup_2 in He'. destruct e' as [c n].
    apply elem_of_build_ordinals in He' as (j & f & -> & Hj & <-). cbn.
    rewrite Nat2N.id. eauto.
  - intros (f & Hf & <-).
    assert ((id f, N.of_nat i) ∈ build_ordinals s) as Hin by (apply elem_of_build_ordinals; eauto).
    apply list_elem_of_lookup_1 in Hin as [p Hp].
    assert (binary_search_by_key (build_ordinals s) (id f) = Some p) as ->.
    { apply binary_search_Some; [apply build_ordinals_sorted|]. eauto. }
    cbn. rewrite Hp. cbn. by rewrite Nat2N.id.
Qed.

Lemma ordinal_in_None c : ordinal_in (build_ordinals s) c = None <-> c ∉ (id <$> fields s).
Proof.
  rewrite eq_None_not_Some. split.
  - intros Hn (f & -> & [i Hi]%list_elem_of_lookup_1)%list_elem_of_fmap. apply Hn.
    exists i. apply ordinal_in_spec. eauto.
  - intros Hc [i (f & Hf & <-)%ordinal_in_spec]. apply Hc, list_elem_of_fmap.
    exists f. split; [done|]. by eapply list_elem_of_lookup_2.
Qed.

Lemma indexed_lookup c :
  (ordinal ← ordinal_in (build_ordinals s) c; fields s !! ordinal) = schema_field s c.
Proof.
  destruct (ordinal_in (build_ordinals s) c) as [i|] eqn:Ho; cbn.
  - apply ordinal_in_spec in Ho as (f & Hf & <-). rewrite Hf. symmetry.
    apply find_field_NoDup; [done|]. by eapply list_elem_of_lookup_2.
  - apply ordinal_in_None in Ho. symmetry. by apply find_field_None.
Qed.
End built.

Lemma authorized_lookup_eq s served c :
  NoDup (id <$> fields s) ->
  resolve_column (authorized_for_shape s served) c = schema_field s c.
Proof.
  intros Hids. unfold authorized_for_shape.
  destruct (use_index _ _); [|done]. by apply indexed_lookup.
Qed.

(** ** Claims *)

(** The index is unobservable.  Whatever the policy decides, the lookup
    view resolves every column of a valid schema as the linear scan does,
    and every analysis through the view has the answer it has on the schema
    itself. *)
Theorem authorized_lookup_transparent (s : LogicalSchema) (served : N) :
  ValidSchema s ->
  (forall c, resolve_column (authorized_for_shape s served) c = schema_field s c) /\
  (forall e, analyze_expr (authorized_for_shape s served) e = analyze_expr s e).
Proof.
  intros [_ _ [Hids _ _] _ _ _ _].
  assert (forall c, resolve_column (authorized_for_shape s served) c = schema_field s c) as Heq
    by (intros c; by apply authorized_lookup_eq).
  split; [done|]. intros e. by apply analyze_ext.
Qed.

Lemma authorized_lookup_transparent_witness :
  resolve_column (authorized_for_shape sem_schema 40) 2%N =
  Some (mkField 2%N "label" TUtf8 true ∅).
Proof.
  rewrite (proj1 (authorized_lookup_transparent sem_schema 40
    (proj1 (validate_exact sem_schema) ltac:(vm_compute; reflexivity)))).
  vm_compute. reflexivity.
Defined.
