(* ===== verification/Typing.v ===== *)
(** * The engine's error surface over the shared analysis:
      [stillflow-engine/src/typing.rs] and the expression helpers of
      [stillflow-engine/src/preflight.rs]

    The engine decides nothing itself: each helper runs the shared analyser
    and maps a [SemanticError] to an [EngineError]. *)

From S2P Require Import Prelude Text Secrets Logical Schema Expression Rule Semantics Plan.

(** [EngineError]; the wrapped storage error stays abstract as its message. *)
Module EngineError.
Inductive EngineError :=
| UnsupportedOperator (node : Uuid) (kind : string)
| UnsupportedRule (node : Uuid) (kind : string)
| UnsupportedCapability (kind : string)
| SourceBinding
| InvalidPlan (message : string)
| UnknownColumn (column : ColumnId)
| TypeError (message : string)
| CastFailure (column : ColumnId) (sequence row : N)
| Arithmetic (column : ColumnId) (sequence row : N)
| SchemaDrift (sequence : N)
| BoundExceeded (message : string)
| Ffi
| Cancelled
| Timeout
| Busy
| Internal (message : string)
| Connector (message : string)
| Storage (message : string).
End EngineError.
Notation Eng := (result EngineError.EngineError).

Definition semantic_error (e : SemanticError) : EngineError.EngineError :=
  match error_kind e with
  | Kind.ShapeInvalid => EngineError.InvalidPlan "expression failed shape validation"
  | Kind.ExprBounds => EngineError.BoundExceeded "expression exceeds node or depth limits"
  | Kind.UnknownColumn => EngineError.UnknownColumn (default 0%N (column_id e))
  | Kind.NotRequiresBoolean => EngineError.TypeError "predicate must be boolean"
  | Kind.LogicalOperandsMustBeBoolean => EngineError.TypeError "logical operands must be boolean"
  | Kind.CheckedArithmeticPaused => EngineError.TypeError
      "checked arithmetic is paused until overflow semantics are implemented"
  | Kind.ListStructPaused => EngineError.TypeError "list and struct execution is paused"
  | Kind.TimestampSecondPaused => EngineError.TypeError "timestamp second unit is paused"
  | Kind.InvalidLogicalType => EngineError.TypeError "logical type is invalid"
  | Kind.DateToUtf8CastPaused => EngineError.TypeError
      "cast from date32 or timestamp to utf8 is paused"
  | Kind.BinaryCastUnauthorized => EngineError.TypeError "cast to/from binary is not authorized"
  | Kind.ComparisonIncomparable => EngineError.TypeError "comparison operands are not comparable"
  | Kind.OrderedComparisonIncompatible => EngineError.TypeError
      "ordered comparison operands are not compatible"
  | Kind.OrderedComparisonRequiresNumeric => EngineError.TypeError
      "ordered comparison requires numeric, date32, or timestamp operands"
  | Kind.CoalesceArmsIncompatible => EngineError.TypeError "coalesce arms are not type-compatible"
  | kind => EngineError.InvalidPlan (compile_message kind)
  end.

Section engine.
Context {R} `{ColumnResolver R}.

Definition engine_analyze_expr (expr : Expr) (resolver : R) : Eng (LogicalType * bool) :=
  map_err semantic_error
    ((fun a => (analysis_type a, analysis_nullable a)) <$> analyze_expr resolver expr).
Definition type_check_expr_in (expr : Expr) (schema : R) : Eng LogicalType :=
  fst <$> engine_analyze_expr expr schema.
Definition infer_nullability (expr : Expr) (schema : R) : Eng bool :=
  snd <$> engine_analyze_expr expr schema.
Definition require_boolean_in (expr : Expr) (schema : R) : Eng unit :=
  t ← type_check_expr_in expr schema;
  if is_boolean t then Ok tt else Err (EngineError.TypeError "predicate must be boolean").
Definition validate_expr (expr : Expr) (schema : R) : Eng unit :=
  map_err semantic_error (validate_expr_refs expr schema).
Definition reject_paused_cast_in_expr (expr : Expr) (schema : R) : Eng unit :=
  map_err semantic_error (reject_paused_casts_in_expr schema expr).
End engine.

Definition reject_paused_expr (expr : Expr) : Eng unit :=
  map_err semantic_error (reject_paused_capability expr).
Definition engine_reject_paused_type (t : LogicalType) : Eng unit :=
  map_err semantic_error (reject_paused_type t).
Definition engine_reject_paused_cast (from to : LogicalType) : Eng unit :=
  map_err semantic_error (reject_paused_cast from to).

(** The engine's own copy of the literal compatibility table. *)
Definition engine_validate_literal (column_type : LogicalType) (value : ScalarValue) : Eng unit :=
  match column_type, value with
  | _, SNull => Ok tt
  | TBoolean, SBoolean _ | TInt64, SInt64 _ | TUInt64, SUInt64 _
  | TFloat64, SFloat64 _ | TUtf8, SUtf8 _ => Ok tt
  | (TInt8 | TInt16 | TInt32), SInt64 _
  | (TUInt8 | TUInt16 | TUInt32), SUInt64 _
  | TFloat32, SFloat64 _ => Ok tt
  | _, _ => Err (EngineError.TypeError "literal is not type-compatible with the column")
  end.

(** [count_expr_column_refs]: every occurrence counts. *)
Definition count_step (count : N) (e : Expr) : result Empty_set (N * list Expr) :=
  match e with
  | Column _ => Ok (count + 1, [])%N
  | Literal _ => Ok (count, [])
  | Unary _ e | IsNull e _ | Cast e _ | Substring e _ _ => Ok (count, [e])
  | Binary l _ r => Ok (count, [l; r])
  | Conditional p t o => Ok (count, [p; t; o])
  | Coalesce es | Concat es => Ok (count, es)
  end.

(** The pushes here are left to right, unlike [expr_pushes]. *)
Inductive Walk := Walking (e : Expr).
Definition walk_pushes (w : Walk) : list Walk :=
  let '(Walking e) := w in Walking <$>
  match e with
  | Column _ | Literal _ => []
  | Unary _ e | IsNull e _ | Cast e _ | Substring e _ _ => [e]
  | Binary l _ r => [l; r]
  | Conditional p t o => [p; t; o]
  | Coalesce es | Concat es => es
  end.
Definition walk_weight (w : Walk) : nat := let '(Walking e) := w in expr_weight e.
Lemma walk_pushes_weight w : sum_list_with walk_weight (walk_pushes w) < walk_weight w.
Proof.
  destruct w as [e]. cbn [walk_pushes walk_weight]. rewrite sum_list_with_fmap.
  destruct e; cbn; try lia; apply Nat.lt_succ_diag_r.
Qed.
#[export] Instance Walk_tree : Tree Walk := {|
  children := walk_pushes; weight := walk_weight; weight_children := walk_pushes_weight |}.
Definition count_walk (count : N) (w : Walk) : result Empty_set (N * list Walk) :=
  let '(Walking e) := w in
  (fun r : N * list Expr => (r.1, Walking <$> r.2)) <$> count_step count e.
Definition count_expr_column_refs (e : Expr) : N :=
  match run count_walk (Ok 0%N) 0%N [Walking e] with
  | Ok count => count
  | Err absurd => match absurd with end
  end.

(** ** Facts *)

Lemma literal_tables_agree t v :
  engine_validate_literal t v = Ok tt <-> validate_literal_for_column t v = Ok tt.
Proof. destruct t, v; done. Qed.

Lemma count_walk_pushes n w n' ps : count_walk n w = Ok (n', ps) -> ps = children w.
Proof. destruct w as [e]. destruct e; cbn; congruence. Qed.

Lemma count_walk_fold l : forall n,
  fold_result (enter count_walk) n l =
  Ok (n + sum_by (fun w => match w with Walking (Column _) => 1 | _ => 0 end) l)%N.
Proof.
  induction l as [|[e] l IH]; intros n; cbn [fold_result]; [by rewrite N.add_0_r|].
  rewrite sum_by_cons. destruct e; cbn; rewrite IH; f_equal; lia.
Qed.

(** The counter is the number of column leaves. *)
Lemma count_refs_eq e : count_expr_column_refs e = len (columns_of e).
Proof.
  unfold count_expr_column_refs. rewrite (run_tree count_walk count_walk_pushes).
  rewrite count_walk_fold, N.add_0_l.
  rewrite (children_sum_gen _ (fun w => let '(Walking e) := w in len (columns_of e))); [done|].
  clear e. intros [e]. cbn [children Walk_tree walk_pushes]. rewrite sum_by_fmap.
  destruct e; cbn -[N.add len sum_by]; rewrite ?sum_by_cons, ?len_app, ?len_bind; cbn -[N.add len sum_by];
    rewrite ?N.add_0_r, ?N.add_0_l; done.
Qed.
