(* ===== verification/Incremental.v ===== *)
(** * Incremental rule propagation: [stillflow-engine/src/incremental.rs]

    [IncrementalSchema] applies rules in place, keeps a running text budget
    and, when indexed, an ordinal table.  The refinement theorem relates it
    to the full-rebuild semantics [rule_effect]: on the states the engine
    reaches the two accept the same rules with the same schemas. *)

From S2P Require Import Prelude Text Secrets Logical Schema Expression Rule Plan Semantics Lookup Typing.

(** ** State *)

Definition field_text (f : LogicalField) : N :=
  fold_left (fun bytes (kv : string * string) => bytes + (str_len kv.1 + str_len kv.2))%N
    (btree_iter (metadata f)) (str_len (name f)).
Definition type_timezone_text (t : LogicalType) : N :=
  match t with TTimestamp _ (Some timezone) => str_len timezone | _ => 0%N end.
Definition text_bytes_of (schema : LogicalSchema) : N :=
  fold_left (fun bytes f => bytes + field_text f + type_timezone_text (data_type f))%N
    (fields schema) 0%N.

Record IncrementalSchema := mkIncremental {
  inc_schema : LogicalSchema;
  inc_text_bytes : N;
  entries : option (list Entry);
}.

Definition for_shape (schema : LogicalSchema) (served_lookups : N) : IncrementalSchema :=
  mkIncremental schema (text_bytes_of schema)
    (if use_index (len (fields schema)) served_lookups
     then Some (build_ordinals schema) else None).

Definition refresh (w : IncrementalSchema) : IncrementalSchema :=
  mkIncremental (inc_schema w) (inc_text_bytes w)
    (match entries w with
     | Some _ => Some (build_ordinals (inc_schema w))
     | None => None
     end).

Definition swap_with (w : IncrementalSchema) (schema : LogicalSchema) : IncrementalSchema :=
  refresh (mkIncremental schema (text_bytes_of schema) (entries w)).

Definition ordinal_of (w : IncrementalSchema) (column : ColumnId) : option nat :=
  match entries w with
  | Some entries => ordinal_in entries column
  | None => fst <$> list_find (fun f => id f = column) (fields (inc_schema w))
  end.

#[export] Instance IncrementalSchema_resolver : ColumnResolver IncrementalSchema :=
  fun w column =>
    match entries w with
    | Some entries =>
        ordinal ← ordinal_in entries column;
        fields (inc_schema w) !! ordinal
    | None => schema_field (inc_schema w) column
    end.

Definition with_fields (w : IncrementalSchema) (fs : list LogicalField) : IncrementalSchema :=
  mkIncremental (mkSchema (version (inc_schema w)) fs (schema_metadata (inc_schema w)))
    (inc_text_bytes w) (entries w).
Definition with_text (w : IncrementalSchema) (bytes : N) : IncrementalSchema :=
  mkIncremental (inc_schema w) bytes (entries w).

Definition resolve_or_unknown (w : IncrementalSchema) (c : ColumnId) : Eng LogicalField :=
  ok_or (resolve_column w c) (EngineError.UnknownColumn c).

(** [checked_sub(old).and_then(checked_add(new)).unwrap_or(MAX + 1)] *)
Definition retotal (total old new : N) : N :=
  default (MAX_SCHEMA_TEXT_BYTES + 1)%N
    (base ← checked_sub total old; checked_add base new).

(** ** Operations

    Every error is returned before the state is touched, so the result is
    the error or the new state. *)

Definition apply_rename (w : IncrementalSchema) (column : ColumnId) (to : string)
  : Eng IncrementalSchema :=
  index ← ok_or (ordinal_of w column) (EngineError.UnknownColumn column);
  field ← ok_or (fields (inc_schema w) !! index) (EngineError.Internal "index out of bounds");
  let new_total := retotal (inc_text_bytes w) (str_len (name field)) (str_len to) in
  if (MAX_SCHEMA_TEXT_BYTES <? new_total)%N then Err (EngineError.UnknownColumn column) else
  if is_blank to
     || existsb (fun f => negb (bool_decide (id f = column)) && bool_decide (name f = to))
          (fields (inc_schema w))
  then Err (EngineError.UnknownColumn column)
  else Ok (with_text (with_fields w
             (<[index := set_name to field]> (fields (inc_schema w)))) new_total).

Definition apply_drop (w : IncrementalSchema) (column : ColumnId) : Eng IncrementalSchema :=
  let fs := fields (inc_schema w) in
  if (len fs <=? 1)%N
  then Err (EngineError.InvalidPlan "cannot drop the last remaining column") else
  let kept := filter (fun f => id f <> column) fs in
  let removed_text :=
    fold_left (fun bytes f => bytes + (field_text f + type_timezone_text (data_type f)))%N
      (filter (fun f => id f = column) fs) 0%N in
  if (len kept =? len fs)%N then Err (EngineError.UnknownColumn column) else
  Ok (refresh (with_text (with_fields w kept)
        (saturating_sub (inc_text_bytes w) removed_text))).

Definition apply_cast (w : IncrementalSchema) (column : ColumnId) (t : LogicalType)
  (on_failure : CastFailurePolicy) : Eng IncrementalSchema :=
  try! engine_reject_paused_type t;
  field ← resolve_or_unknown w column;
  try! engine_reject_paused_cast (data_type field) t;
  let new_total := retotal (inc_text_bytes w) (type_timezone_text (data_type field))
                     (type_timezone_text t) in
  if (MAX_SCHEMA_TEXT_BYTES <? new_total)%N
  then Err (EngineError.InvalidPlan "cast produced an invalid schema") else
  try! ok_or (schema_field (inc_schema w) column) (EngineError.UnknownColumn column);
  Ok (with_text (with_fields w
        (update_first column (retype t on_failure) (fields (inc_schema w)))) new_total).

Definition apply_derive (w : IncrementalSchema) (new_id : ColumnId) (new_name : string)
  (t : LogicalType) (is_nullable : bool) (expression : Expr) : Eng IncrementalSchema :=
  try! validate_expr expression w;
  inferred ← type_check_expr_in expression w;
  try! engine_reject_paused_type t;
  if negb (is_null_type inferred) && negb (type_eqb inferred t)
  then Err (EngineError.TypeError "derived column type does not match the typed expression") else
  if bool_decide (is_Some (schema_field (inc_schema w) new_id))
     || existsb (fun f => bool_decide (name f = new_name)) (fields (inc_schema w))
  then Err (EngineError.InvalidPlan "derived column id or name is not unique") else
  try! reject_paused_cast_in_expr expression w;
  nullable_inferred ← infer_nullability expression w;
  if negb is_nullable && nullable_inferred
  then Err (EngineError.TypeError "derived column nullability is narrower than the expression") else
  field ← map_err (fun _ => EngineError.InvalidPlan "derived field is invalid")
            (field_new new_id new_name t is_nullable);
  if (MAX_SCHEMA_FIELDS <=? len (fields (inc_schema w)))%N
  then Err (EngineError.InvalidPlan "derive produced an invalid schema") else
  let added_text := (field_text field + type_timezone_text t)%N in
  let new_total := default (MAX_SCHEMA_TEXT_BYTES + 1)%N
                     (checked_add (inc_text_bytes w) added_text) in
  if (MAX_SCHEMA_TEXT_BYTES <? new_total)%N
  then Err (EngineError.InvalidPlan "derive produced an invalid schema") else
  Ok (refresh (with_text (with_fields w (fields (inc_schema w) ++ [field])) new_total)).

Definition apply_rule (w : IncrementalSchema) (rule : Rule) : Eng IncrementalSchema :=
  match rule with
  | RRename column to => apply_rename w column to
  | RDropColumn column => apply_drop w column
  | RTrim column =>
      field ← resolve_or_unknown w column;
      if negb (is_utf8 (data_type field))
      then Err (EngineError.TypeError "trim requires a utf8 column") else Ok w
  | RNormalizeText column _ =>
      field ← resolve_or_unknown w column;
      if negb (is_utf8 (data_type field))
      then Err (EngineError.TypeError "text normalization requires a utf8 column") else Ok w
  | RParseTemporal column t on_failure _ =>
      field ← resolve_or_unknown w column;
      if negb (is_utf8 (data_type field))
      then Err (EngineError.TypeError "temporal parsing requires a utf8 column")
      else apply_cast w column t on_failure
  | RCast column t on_failure => apply_cast w column t on_failure
  | RReplaceLiteral column from to =>
      field ← resolve_or_unknown w column;
      try! engine_validate_literal (data_type field) from;
      try! engine_validate_literal (data_type field) to;
      if is_binary (data_type field) && negb (is_scalar_null from && is_scalar_null to)
      then Err (EngineError.TypeError "binary replace-literal may only use null-to-null") else
      Ok (if is_scalar_null to
          then with_fields w (update_first column (set_nullable true) (fields (inc_schema w)))
          else w)
  | RFillNull column value =>
      if is_scalar_null value
      then Err (EngineError.TypeError "fill-null value must not be null") else
      field ← resolve_or_unknown w column;
      if is_binary (data_type field)
      then Err (EngineError.TypeError "fill-null is not authorized on binary") else
      try! engine_validate_literal (data_type field) value;
      Ok (with_fields w (update_first column (set_nullable false) (fields (inc_schema w))))
  | RDeriveColumn new_id new_name t is_nullable expression =>
      apply_derive w new_id new_name t is_nullable expression
  | RFilterRows predicate => try! require_boolean_in predicate w; Ok w
  | RValidate _ _ _ => Err (EngineError.UnsupportedRule 0%N "validate")
  | RDeduplicate _ => Err (EngineError.UnsupportedRule 0%N "deduplicate")
  end.

Definition into_schema (w : IncrementalSchema) : Eng LogicalSchema :=
  map_err (fun _ => EngineError.InvalidPlan "apply-rules produced an invalid schema")
    (schema_new (fields (inc_schema w))).

(** ** Text accounting *)

Lemma fold_left_sum {A} (f : A -> N) l n :
  fold_left (fun bytes a => bytes + f a)%N l n = (n + sum_by f l)%N.
Proof.
  revert n. induction l as [|a l IH]; intros n; cbn; [lia|]. rewrite IH. unfold sum_by. cbn. lia.
Qed.

Lemma field_text_eq f : field_text f = own_text f.
Proof. unfold field_text. by rewrite fold_left_sum. Qed.

Definition flat_text (f : LogicalField) : N := own_text f + type_timezone_text (data_type f).

Lemma text_bytes_of_eq s : text_bytes_of s = sum_by flat_text (fields s).
Proof.
  unfold text_bytes_of. transitivity (0 + sum_by flat_text (fields s))%N; [|lia].
  rewrite <- fold_left_sum. generalize 0%N. induction (fields s) as [|f l IH]; intros n; [done|].
  cbn [fold_left]. rewrite IH. f_equal. unfold flat_text. rewrite field_text_eq. lia.
Qed.

(** ** Flat schemas *)

Lemma admitted_flat t :
  admitted t -> TypeWf t /\ type_depth t = 1%N /\ type_fields t = 0%N /\
                type_text t = type_timezone_text t.
Proof.
  unfold admitted, reject_paused_type.
  destruct t as [| | | | | | | | | | | | | | |u z|e|fs]; try done; intros Hv;
    (split_and!; [|done..]); try (by constructor).
  destruct u; try done; apply map_err_Ok in Hv;
    (apply (validate_nodes_Ok (VType _ 1)) in Hv as [[Hwf _] _]; [done|apply empty_within]).
Qed.

(** On admitted fields without schema metadata, validity is the level check
    and two bounds. *)
Lemma flat_valid fs :
  Forall (fun f => admitted (data_type f)) fs ->
  ValidSchema (mkSchema LOGICAL_SCHEMA_VERSION fs ∅) <->
  level_ok fs /\ (len fs <= MAX_SCHEMA_FIELDS)%N /\ (sum_by flat_text fs <= MAX_SCHEMA_TEXT_BYTES)%N.
Proof.
  intros Hadm.
  assert (fields_count fs = len fs) as Hcount.
  { unfold fields_count. rewrite <- sum_by_one. apply sum_by_ext_in. intros f Hf.
    rewrite Forall_forall in Hadm. apply Hadm, admitted_flat in Hf as (_ & _ & -> & _). done. }
  assert (fields_text fs = sum_by flat_text fs) as Htext.
  { unfold fields_text. apply sum_by_ext_in. intros f Hf.
    rewrite Forall_forall in Hadm. apply Hadm, admitted_flat in Hf as (_ & _ & _ & Ht).
    unfold flat_text. by rewrite Ht. }
  split.
  - intros [_ _ Hl _ _ Hc Ht]. cbn [fields schema_metadata] in *.
    change (metadata_text ∅) with 0%N in Ht. rewrite Hcount in Hc. rewrite Htext in Ht. done.
  - intros (Hl & Hc & Ht). split; cbn [fields schema_metadata version]; try done.
    + eapply Forall_impl; [exact Hadm|]. intros f Hf. by apply admitted_flat.
    + eapply Forall_impl; [exact Hadm|]. intros f Hf. simpl.
      apply admitted_flat in Hf as (_ & -> & _). done.
    + by rewrite Hcount.
    + change (metadata_text ∅) with 0%N. by rewrite Htext, N.add_0_l.
Qed.

(** ** The invariant *)

Record Inv (w : IncrementalSchema) : Prop := {
  inv_valid : ValidSchema (inc_schema w);
  inv_plain : schema_metadata (inc_schema w) = ∅;
  inv_flat : all_admitted (inc_schema w);
  inv_exact : inc_text_bytes w = text_bytes_of (inc_schema w);
  inv_fresh es : entries w = Some es -> es = build_ordinals (inc_schema w);
}.

Lemma inv_ids w : Inv w -> NoDup (id <$> fields (inc_schema w)).
Proof. intros [[_ _ [Hi _ _] _ _ _ _] _ _ _ _]. done. Qed.

Lemma inv_resolve w c : Inv w -> resolve_column w c = schema_field (inc_schema w) c.
Proof.
  intros HI. unfold resolve_column, IncrementalSchema_resolver.
  destruct (entries w) as [es|] eqn:He; [|done].
  apply (inv_fresh w HI) in He as ->. apply indexed_lookup. by apply inv_ids.
Qed.

Lemma inv_ordinal w c i :
  Inv w -> ordinal_of w c = Some i <-> exists f, fields (inc_schema w) !! i = Some f /\ id f = c.
Proof.
  intros HI. unfold ordinal_of. destruct (entries w) as [es|] eqn:He.
  - apply (inv_fresh w HI) in He as ->. apply ordinal_in_spec. by apply inv_ids.
  - rewrite fmap_Some. split.
    + intros ([j f] & (Hj & Hid & _)%list_find_Some & ->). eauto.
    + intros (f & Hf & Hid).
      destruct (list_find (fun f => id f = c) (fields (inc_schema w))) as [[j g]|] eqn:Hfind.
      * exists (j, g). split; [done|]. cbn. apply list_find_Some in Hfind as (Hg & Hgc & _).
        apply (NoDup_lookup _ i j c (inv_ids w HI)).
        -- apply list_lookup_fmap_Some. exists f. by split.
        -- apply list_lookup_fmap_Some. exists g. by split.
      * apply list_find_None in Hfind. rewrite Forall_forall in Hfind.
        exfalso. eapply Hfind; [|exact Hid]. by eapply list_elem_of_lookup_2.
Qed.

Lemma for_shape_Inv s served :
  ValidSchema s -> schema_metadata s = ∅ -> all_admitted s -> Inv (for_shape s served).
Proof.
  intros Hv Hm Ha. split; cbn; try done. intros es. destruct (use_index _ _); congruence.
Qed.

Lemma swap_with_Inv w s :
  ValidSchema s -> schema_metadata s = ∅ -> all_admitted s -> Inv (swap_with w s).
Proof.
  intros Hv Hm Ha. split; cbn; try done. intros es. destruct (entries w); congruence.
Qed.

Lemma into_schema_Ok w : Inv w -> into_schema w = Ok (inc_schema w).
Proof.
  intros [Hv Hm _ _ _]. unfold into_schema.
  assert (mkSchema LOGICAL_SCHEMA_VERSION (fields (inc_schema w)) ∅ = inc_schema w) as Heq.
  { destruct Hv as [Hver _ _ _ _ _ _]. destruct (inc_schema w). cbn in *. congruence. }
  apply map_err_Ok, schema_new_Ok. by rewrite Heq.
Qed.

(** ** In-place updates against rebuilds *)

(** Both sides refuse, or both accept with the same schema and the invariant
    restored. *)
Definition agree (m : Eng IncrementalSchema) (e : Sem LogicalSchema) : Prop :=
  match m, e with
  | Ok w', Ok s' => inc_schema w' = s' /\ Inv w'
  | Err _, Err _ => True
  | _, _ => False
  end.

Lemma insert_update_first c g fs i f :
  NoDup (id <$> fs) -> fs !! i = Some f -> id f = c ->
  <[i := g f]> fs = update_first c g fs.
Proof.
  revert i. induction fs as [|h fs IH]; intros i Hnd Hi Hc; [done|].
  rewrite fmap_cons in Hnd. apply NoDup_cons in Hnd as [Hh Hnd]. destruct i as [|i]; cbn in *.
  - simplify_eq. by rewrite decide_True.
  - rewrite decide_False; [by rewrite IH|]. intros Hhc. apply Hh. rewrite Hhc, <- Hc.
    apply list_elem_of_fmap. exists f. split; [done|]. by eapply list_elem_of_lookup_2.
Qed.

Lemma sum_update_first (h : LogicalField -> N) c g fs f :
  find_field fs c = Some f ->
  (sum_by h (update_first c g fs) + h f = sum_by h fs + h (g f))%N.
Proof.
  induction fs as [|k fs IH]; [done|]. rewrite find_field_cons. cbn [update_first].
  destruct (decide (id k = c)).
  - intros [= ->]. rewrite !sum_by_cons. lia.
  - intros Hf. rewrite !sum_by_cons. specialize (IH Hf). lia.
Qed.

Lemma len_update_first c g fs : len (update_first c g fs) = len fs.
Proof.
  induction fs as [|k fs IH]; [done|]. cbn [update_first]. case_decide; rewrite !len_cons; lia.
Qed.

Lemma retotal_le total old new limit :
  (old <= total)%N -> (limit < usize_max)%N -> limit = MAX_SCHEMA_TEXT_BYTES ->
  (retotal total old new <= limit)%N <-> (total - old + new <= limit)%N.
Proof.
  intros Ho Hl ->. unfold retotal.
  assert (checked_sub total old = Some (total - old)%N) as -> by (apply checked_sub_Some; lia). cbn.
  destruct (checked_add (total - old) new) as [t|] eqn:Ht; cbn.
  - apply checked_add_Some in Ht as [-> _]. done.
  - apply checked_add_None in Ht. lia.
Qed.

Lemma retotal_eq total old new :
  (old <= total)%N -> (retotal total old new <= MAX_SCHEMA_TEXT_BYTES)%N ->
  retotal total old new = (total - old + new)%N.
Proof.
  intros Ho. unfold retotal.
  assert (checked_sub total old = Some (total - old)%N) as -> by (apply checked_sub_Some; lia). cbn.
  destruct (checked_add (total - old) new) as [t|] eqn:Ht; cbn.
  - by apply checked_add_Some in Ht as [-> _].
  - unfold MAX_SCHEMA_TEXT_BYTES. lia.
Qed.

Lemma elem_of_update_first c g fs f k :
  find_field fs c = Some f -> k ∈ update_first c g fs -> k ∈ fs \/ k = g f.
Proof.
  induction fs as [|m l IH]; [done|]. rewrite find_field_cons. cbn [update_first].
  case_decide.
  - intros [= ->] [->|Hk]%elem_of_cons; [by right|left; by right].
  - intros Hf [->|Hk]%elem_of_cons; [left; left|].
    destruct (IH Hf Hk); [left; by right|by right].
Qed.

Lemma update_first_found_elem c g fs f :
  (forall f, id (g f) = id f) -> find_field fs c = Some f -> g f ∈ update_first c g fs.
Proof.
  intros Hid Hf. eapply find_field_Some.
  rewrite (update_first_lookup c g fs c Hid), decide_True, Hf by done. done.
Qed.

(** No other field has the name. *)
Definition name_free (fs : list LogicalField) (c : ColumnId) (n : string) : Prop :=
  forall h, h ∈ fs -> id h <> c -> name h <> n.

Lemma update_names c g fs f :
  (forall f, id (g f) = id f) ->
  NoDup (id <$> fs) -> NoDup (name <$> fs) -> find_field fs c = Some f ->
  NoDup (name <$> update_first c g fs) <-> name_free fs c (name (g f)).
Proof.
  intros Hid. unfold name_free. induction fs as [|h l IH]; [done|].
  rewrite find_field_cons, !fmap_cons. cbn [update_first].
  intros [Hh Hids]%NoDup_cons [Hn Hnames]%NoDup_cons Hf.
  destruct (decide (id h = c)) as [Hc|Hc].
  - simplify_eq. rewrite fmap_cons, NoDup_cons. split.
    + intros [Hfree _] k Hk Hkc Heq. apply elem_of_cons in Hk as [->|Hk]; [done|].
      apply Hfree. rewrite <- Heq. apply list_elem_of_fmap. eauto.
    + intros Hfree. split; [|done]. intros (k & Heq & Hk)%list_elem_of_fmap.
      apply (Hfree k); [by right| |done]. intros Hkc. apply Hh.
      apply list_elem_of_fmap. exists k. by split.
  - rewrite fmap_cons, NoDup_cons, IH by done. split.
    + intros [Hfree Hrest] k Hk Hkc Heq. apply elem_of_cons in Hk as [->|Hk]; [|by eapply Hrest].
      apply Hfree. rewrite Heq. apply list_elem_of_fmap. exists (g f). split; [done|].
      by apply update_first_found_elem.
    + intros Hfree. split; [|intros k Hk; apply Hfree; by right].
      intros (k & Heq & Hk)%list_elem_of_fmap.
      apply (elem_of_update_first _ _ _ f) in Hk as [Hk| ->]; [|by apply (Hfree h); [left|..]|done].
      apply Hn. rewrite Heq. apply list_elem_of_fmap. eauto.
Qed.

(** The valid flat schema behind the invariant. *)
Lemma inv_plain_schema w :
  Inv w -> inc_schema w = mkSchema LOGICAL_SCHEMA_VERSION (fields (inc_schema w)) ∅.
Proof.
  intros [[Hver _ _ _ _ _ _] Hm _ _ _]. destruct (inc_schema w). cbn in *. congruence.
Qed.

Lemma inv_bounds w :
  Inv w -> level_ok (fields (inc_schema w)) /\ (len (fields (inc_schema w)) <= MAX_SCHEMA_FIELDS)%N /\
    inc_text_bytes w = sum_by flat_text (fields (inc_schema w)) /\
    (inc_text_bytes w <= MAX_SCHEMA_TEXT_BYTES)%N.
Proof.
  intros HI. pose proof (inv_valid w HI) as Hv. rewrite (inv_plain_schema w HI) in Hv.
  apply flat_valid in Hv as (Hl & Hc & Ht); [|apply (inv_flat w HI)].
  rewrite (inv_exact w HI), text_bytes_of_eq. done.
Qed.

(** What an update of one field must satisfy for the new list to be valid,
    when identities and metadata are kept. *)
Lemma update_valid w c g f :
  Inv w -> schema_field (inc_schema w) c = Some f ->
  (forall f, id (g f) = id f) -> (forall f, metadata (g f) = metadata f) ->
  (forall f, admitted (data_type f) -> admitted (data_type (g f))) ->
  ValidSchema (mkSchema LOGICAL_SCHEMA_VERSION (update_first c g (fields (inc_schema w))) ∅) <->
  is_blank (name (g f)) = false /\ name_free (fields (inc_schema w)) c (name (g f)) /\
  (inc_text_bytes w + flat_text (g f) <= MAX_SCHEMA_TEXT_BYTES + flat_text f)%N.
Proof.
  intros HI Hf Hid Hmeta Hadm. unfold schema_field in Hf. set (fs := fields (inc_schema w)) in *.
  destruct (inv_bounds w HI) as ([Hids Hnames Hl] & Hc & Hx & _). fold fs in Hids, Hnames, Hl, Hc, Hx.
  rewrite flat_valid by (apply update_first_admitted; [done|apply (inv_flat w HI)]).
  rewrite len_update_first, Hx, <- (update_names c g fs f) by done.
  pose proof (sum_update_first flat_text c g fs f Hf) as Hsum. rewrite Forall_forall in Hl. split.
  - intros ([_ Hn Hb] & _ & Ht). split_and!; [|done|lia].
    rewrite Forall_forall in Hb. apply (Hb (g f)). by apply update_first_found_elem.
  - intros (Hb & Hn & Ht). split_and!; [|done|lia]. split; [|done|].
    + by rewrite update_first_ids.
    + apply Forall_forall. intros k Hk.
      apply (elem_of_update_first _ _ _ f) in Hk as [Hk| ->]; [by apply Hl| |done].
      split; [done|]. rewrite Hmeta. apply Hl. by apply find_field_Some in Hf as [? _].
Qed.

(** The ordinal table depends only on the identities. *)
Lemma build_ordinals_ids s s' :
  id <$> fields s = id <$> fields s' -> build_ordinals s = build_ordinals s'.
Proof.
  intros Heq. unfold build_ordinals. f_equal. f_equal.
  revert Heq. generalize (fields s) (fields s'). clear s s'. intros l k. 
  assert (forall (h : nat -> N) (l : list LogicalField), imap (fun i f => (id f, h i)) l = imap (fun i c => (c, h i)) (id <$> l)) as Himap.
  { intros h l'. revert h. induction l' as [|f l' IH]; intros h; [done|]. cbn. f_equal. apply (IH (h ∘ S)). }
  intros Heq. by rewrite (Himap N.of_nat l), (Himap N.of_nat k), Heq.
Qed.

(** An accepted in-place update restores the invariant. *)
Lemma update_Inv w c g f bytes :
  Inv w -> schema_field (inc_schema w) c = Some f ->
  (forall f, id (g f) = id f) ->
  (forall f, admitted (data_type f) -> admitted (data_type (g f))) ->
  ValidSchema (mkSchema LOGICAL_SCHEMA_VERSION (update_first c g (fields (inc_schema w))) ∅) ->
  (bytes + flat_text f = inc_text_bytes w + flat_text (g f))%N ->
  Inv (with_text (with_fields w (update_first c g (fields (inc_schema w)))) bytes).
Proof.
  intros HI Hf Hid Hadm Hv Hb. destruct (inv_bounds w HI) as (_ & _ & Hx & _).
  assert (version (inc_schema w) = LOGICAL_SCHEMA_VERSION) as Hver by apply (inv_valid w HI).
  pose proof (sum_update_first flat_text c g _ f Hf) as Hsum.
  split; cbn [with_text with_fields inc_schema inc_text_bytes entries fields schema_metadata version].
  - by rewrite Hver, (inv_plain w HI).
  - apply (inv_plain w HI).
  - apply update_first_admitted; [done|apply (inv_flat w HI)].
  - rewrite text_bytes_of_eq. cbn [fields]. lia.
  - intros es Hes. apply (inv_fresh w HI) in Hes as ->. apply build_ordinals_ids. cbn [fields].
    by rewrite update_first_ids.
Qed.

Lemma rebuild_inv w fs :
  Inv w ->
  (ValidSchema (mkSchema LOGICAL_SCHEMA_VERSION fs ∅) ->
     rebuild (inc_schema w) fs = Ok (mkSchema LOGICAL_SCHEMA_VERSION fs ∅)) /\
  (~ ValidSchema (mkSchema LOGICAL_SCHEMA_VERSION fs ∅) ->
     exists e, rebuild (inc_schema w) fs = Err e).
Proof.
  intros HI. pose proof (inv_plain_schema w HI) as Hs.
  assert (mkSchema (version (inc_schema w)) fs (schema_metadata (inc_schema w)) =
          mkSchema LOGICAL_SCHEMA_VERSION fs ∅) as Heq by (by rewrite Hs).
  split; intros Hv.
  - apply rebuild_Ok. by rewrite Heq.
  - destruct (rebuild (inc_schema w) fs) as [s'|e] eqn:Hr; [|eauto].
    apply rebuild_Ok in Hr as [-> Hv']. rewrite Heq in Hv'. done.
Qed.

(** A guarded in-place update agrees with the rebuild when the guard is the
    validity of the new list. *)
Lemma agree_update w c g f bytes (bad : bool) e :
  Inv w -> schema_field (inc_schema w) c = Some f ->
  (forall f, id (g f) = id f) -> (forall f, metadata (g f) = metadata f) ->
  (forall f, admitted (data_type f) -> admitted (data_type (g f))) ->
  (bad = false <->
     is_blank (name (g f)) = false /\ name_free (fields (inc_schema w)) c (name (g f)) /\
     (inc_text_bytes w + flat_text (g f) <= MAX_SCHEMA_TEXT_BYTES + flat_text f)%N) ->
  (bad = false -> (bytes + flat_text f = inc_text_bytes w + flat_text (g f))%N) ->
  agree
    (if bad then Err e
     else Ok (with_text (with_fields w (update_first c g (fields (inc_schema w)))) bytes))
    (rebuild (inc_schema w) (update_first c g (fields (inc_schema w)))).
Proof.
  intros HI Hf Hid Hm Ha Hbad Hbytes.
  pose proof (update_valid w c g f HI Hf Hid Hm Ha) as Hv. rewrite <- Hbad in Hv.
  destruct (rebuild_inv w (update_first c g (fields (inc_schema w))) HI) as [Hok Herr].
  destruct bad; cbn.
  - destruct Herr as [e' ->]; [|done]. rewrite Hv. done.
  - rewrite Hok by (by apply Hv). cbn. split.
    + rewrite (inv_plain w HI). by rewrite (vs_version _ (inv_valid w HI)).
    + apply (update_Inv w c g f); auto. by apply Hv.
Qed.

Lemma found_text w c f :
  Inv w -> schema_field (inc_schema w) c = Some f -> (flat_text f <= inc_text_bytes w)%N.
Proof.
  intros HI [Hin _]%find_field_Some. destruct (inv_bounds w HI) as (_ & _ & -> & _).
  by apply sum_by_elem.
Qed.

Lemma existsb_false {A} (p : A -> bool) l :
  existsb p l = false <-> forall a, a ∈ l -> p a = false.
Proof.
  induction l as [|a l IH]; cbn; [split; [by intros _ a ?%not_elem_of_nil|done]|].
  rewrite orb_false_iff, IH. set_solver.
Qed.

Lemma name_free_existsb fs c n :
  existsb (fun f => negb (bool_decide (id f = c)) && bool_decide (name f = n)) fs = false <->
  name_free fs c n.
Proof.
  rewrite existsb_false. unfold name_free. split; intros Hall f Hf.
  - specialize (Hall f Hf). intros Hid Hn.
    rewrite bool_decide_eq_false_2, bool_decide_eq_true_2 in Hall by done. done.
  - specialize (Hall f Hf). destruct (decide (id f = c)).
    + by rewrite bool_decide_eq_true_2.
    + rewrite (bool_decide_eq_false_2 (name f = n)) by auto. apply andb_false_r.
Qed.

Lemma if_or {A} (a b : bool) (x y : A) :
  (if a then x else if b then x else y) = if a || b then x else y.
Proof. by destruct a. Qed.

Lemma rename_agree w c to :
  Inv w -> agree (apply_rename w c to) (rule_effect (inc_schema w) (RRename c to)).
Proof.
  intros HI. unfold apply_rename. cbn [rule_effect]. unfold field_or_unknown.
  destruct (schema_field (inc_schema w) c) as [f|] eqn:Hf; cbn [ok_or mbind result_bind].
  2:{ destruct (ordinal_of w c) as [i|] eqn:Ho; [|done].
      apply (inv_ordinal w c i HI) in Ho as (f & Hi & <-).
      apply find_field_None in Hf. exfalso. apply Hf, list_elem_of_fmap.
      exists f. split; [done|]. by eapply list_elem_of_lookup_2. }
  apply find_field_Some in Hf as Hin. destruct Hin as [Hin Hid].
  apply list_elem_of_lookup_1 in Hin as [i Hi].
  assert (ordinal_of w c = Some i) as -> by (apply (inv_ordinal w c i HI); eauto).
  cbn [ok_or mbind result_bind]. rewrite Hi. cbn [ok_or mbind result_bind].
  rewrite (insert_update_first c (set_name to) _ i f) by (done || by apply inv_ids).
  pose proof (found_text w c f HI Hf) as Hle.
  assert (str_len (name f) <= inc_text_bytes w)%N as Hle'.
  { unfold flat_text, own_text in Hle. lia. }
  set (total := retotal _ _ _).
  rewrite if_or.
  apply (agree_update w c (set_name to) f); try done.
  - rewrite !orb_false_iff, N.ltb_ge, name_free_existsb. unfold total.
    rewrite retotal_le by (done || unfold MAX_SCHEMA_TEXT_BYTES, usize_max; lia).
    unfold flat_text, own_text in *. cbn [set_name name metadata data_type]. 
    split; [intros (? & ? & ?)|intros (? & ? & ?)]; split_and!; done || lia.
  - rewrite !orb_false_iff, N.ltb_ge. intros (Ht & _).
    unfold total in *. rewrite retotal_eq by done.
    unfold flat_text, own_text in *. cbn [set_name name metadata data_type]. lia.
Qed.

Lemma names_kept w c f :
  Inv w -> schema_field (inc_schema w) c = Some f ->
  is_blank (name f) = false /\ name_free (fields (inc_schema w)) c (name f).
Proof.
  intros HI Hf. destruct (inv_bounds w HI) as ([Hids Hnames Hl] & _).
  apply find_field_Some in Hf as Hin. destruct Hin as [Hin Hid].
  rewrite Forall_forall in Hl. split; [by apply Hl|]. intros h Hh Hhc Heq. apply Hhc.
  apply list_elem_of_lookup_1 in Hin as [i Hi]. apply list_elem_of_lookup_1 in Hh as [j Hj].
  assert (i = j) as ->; [|congruence].
  apply (NoDup_lookup _ i j (name f) Hnames); apply list_lookup_fmap_Some; eauto.
Qed.

(** [agree] through a check both sides make. *)
Lemma agree_guard {A} (m : Sem A) (k : A -> Eng IncrementalSchema) (l : A -> Sem LogicalSchema) :
  (forall a, m = Ok a -> agree (k a) (l a)) ->
  agree (map_err semantic_error m ≫= k) (m ≫= l).
Proof. destruct m; cbn; auto. Qed.

Lemma cast_agree w c t p :
  Inv w ->
  agree (apply_cast w c t p)
    (field ← field_or_unknown (inc_schema w) c;
     try! reject_paused_type t;
     try! reject_paused_cast (data_type field) t;
     rebuild (inc_schema w) (update_first c (retype t p) (fields (inc_schema w)))).
Proof.
  intros HI. unfold apply_cast, engine_reject_paused_type, engine_reject_paused_cast,
    resolve_or_unknown, field_or_unknown. rewrite (inv_resolve w c HI).
  destruct (schema_field (inc_schema w) c) as [f|] eqn:Hf; cbn [ok_or mbind result_bind].
  2:{ by destruct (reject_paused_type t). }
  apply agree_guard. intros [] Ht. apply agree_guard. intros [] Hc.
  set (total := retotal _ _ _).
  replace (if (MAX_SCHEMA_TEXT_BYTES <? total)%N then _ else _) with
    (if (MAX_SCHEMA_TEXT_BYTES <? total)%N
     then Err (EngineError.InvalidPlan "cast produced an invalid schema")
     else Ok (with_text (with_fields w (update_first c (retype t p) (fields (inc_schema w)))) total))
    by done.
  pose proof (found_text w c f HI Hf) as Hle.
  assert (type_timezone_text (data_type f) <= inc_text_bytes w)%N as Hle'.
  { unfold flat_text in Hle. lia. }
  destruct (names_kept w c f HI Hf) as [Hb Hn].
  apply (agree_update w c (retype t p) f); try done.
  - rewrite N.ltb_ge. unfold total.
    rewrite retotal_le by (done || unfold MAX_SCHEMA_TEXT_BYTES, usize_max; lia).
    unfold flat_text, own_text in *. cbn [retype name metadata data_type].
    split; [intros ?|intros (? & ? & ?)]; split_and?; done || lia.
  - rewrite N.ltb_ge. intros Htot. unfold total in *. rewrite retotal_eq by done.
    unfold flat_text, own_text in *. cbn [retype name metadata data_type]. lia.
Qed.

Lemma nullable_agree w c b f :
  Inv w -> schema_field (inc_schema w) c = Some f ->
  agree (Ok (with_fields w (update_first c (set_nullable b) (fields (inc_schema w)))))
    (rebuild (inc_schema w) (update_first c (set_nullable b) (fields (inc_schema w)))).
Proof.
  intros HI Hf. destruct (names_kept w c f HI Hf) as [Hb Hn].
  destruct (inv_bounds w HI) as (_ & _ & _ & Ht).
  apply (agree_update w c (set_nullable b) f (inc_text_bytes w) false
    (EngineError.Internal "unreachable")); try done.
  unfold flat_text, own_text. cbn [set_nullable name metadata data_type].
  split; [intros _; split_and!; done || lia|done].
Qed.

Lemma literal_agree t v :
  (exists e e', engine_validate_literal t v = Err e /\ validate_literal_for_column t v = Err e') \/
  (engine_validate_literal t v = Ok tt /\ validate_literal_for_column t v = Ok tt).
Proof. destruct t, v; cbn; eauto. Qed.

Lemma agree_literal t v k l :
  agree k l -> agree (try! engine_validate_literal t v; k) (try! validate_literal_for_column t v; l).
Proof. intros Hk. by destruct (literal_agree t v) as [(e & e' & -> & ->)|[-> ->]]. Qed.

Lemma sum_filter_split (h : LogicalField -> N) c fs :
  (sum_by h (filter (fun f => id f <> c) fs) + sum_by h (filter (fun f => id f = c) fs) =
   sum_by h fs)%N.
Proof.
  induction fs as [|f fs IH]; [done|]. rewrite !filter_cons.
  destruct (decide (id f = c)) as [Hc|Hc].
  - rewrite decide_False by (by intros []). rewrite !sum_by_cons. lia.
  - rewrite decide_True by done. rewrite !sum_by_cons. lia.
Qed.

Lemma filter_len_eq c (fs : list LogicalField) :
  len (filter (fun f => id f <> c) fs) = len fs <-> find_field fs c = None.
Proof.
  rewrite find_field_None. induction fs as [|f fs IH]; [cbn; split; [set_solver|done]|].
  rewrite filter_cons, fmap_cons, not_elem_of_cons, <- IH, !len_cons.
  assert (len (filter (fun f => id f <> c) fs) <= len fs)%N as Hle.
  { unfold len. pose proof (length_filter (fun f : LogicalField => id f <> c) fs). lia. }
  destruct (decide (id f <> c)) as [Hc|Hc]; rewrite ?len_cons.
  - split; [intros ?; split; [congruence|lia]|lia].
  - apply dec_stable in Hc. split; [lia|]. intros [? _]. congruence.
Qed.

Lemma drop_agree w c :
  Inv w -> agree (apply_drop w c) (rule_effect (inc_schema w) (RDropColumn c)).
Proof.
  intros HI. unfold apply_drop. cbn [rule_effect]. set (fs := fields (inc_schema w)).
  destruct (len fs <=? 1)%N; [done|]. unfold field_or_unknown.
  pose proof (filter_len_eq c fs) as Hlen.
  destruct (N.eqb_spec (len (filter (fun f => id f <> c) fs)) (len fs)) as [Heq|Hne].
  { apply Hlen in Heq. unfold schema_field. fold fs. by rewrite Heq. }
  destruct (schema_field (inc_schema w) c) as [f|] eqn:Hf; [|by apply Hlen in Hf].
  cbn [ok_or mbind result_bind].
  assert (ValidSchema (mkSchema LOGICAL_SCHEMA_VERSION (filter (fun f => id f <> c) fs) ∅)) as Hv.
  { destruct (rebuild_filter (inc_schema w) c (inv_valid w HI)) as [s' Hs'].
    apply rebuild_Ok in Hs' as [-> Hv]. by rewrite (inv_plain_schema w HI) in Hv. }
  destruct (rebuild_inv w (filter (fun f => id f <> c) fs) HI) as [Hok _].
  rewrite (Hok Hv). cbn [agree].
  assert (version (inc_schema w) = LOGICAL_SCHEMA_VERSION) as Hver by apply (inv_valid w HI).
  assert (mkSchema (version (inc_schema w)) (filter (fun f => id f <> c) fs) (schema_metadata (inc_schema w))
    = mkSchema LOGICAL_SCHEMA_VERSION (filter (fun f => id f <> c) fs) ∅) as Hs
    by (by rewrite Hver, (inv_plain w HI)).
  split; [exact Hs|]. destruct (inv_bounds w HI) as (_ & _ & Hx & _). fold fs in Hx.
  split; cbn [refresh with_text with_fields inc_schema inc_text_bytes entries]; rewrite ?Hs; try done.
  - unfold all_admitted. cbn [fields]. pose proof (inv_flat w HI) as Ha. unfold all_admitted in Ha.
    rewrite Forall_forall in *. intros h [_ Hh]%list_elem_of_filter. auto.
  - rewrite text_bytes_of_eq. cbn [fields]. unfold saturating_sub.
    rewrite (fold_left_sum (fun f => field_text f + type_timezone_text (data_type f))%N), N.add_0_l.
    rewrite (sum_by_ext_in _ flat_text) by (intros h _; unfold flat_text; by rewrite field_text_eq).
    pose proof (sum_filter_split flat_text c fs). lia.
  - intros es. destruct (entries w); congruence.
Qed.

Lemma agree_if (b : bool) e e' k l :
  (b = false -> agree k l) -> agree (if b then Err e else k) (if b then Err e' else l).
Proof. destruct b; cbn; auto. Qed.

Lemma append_valid w f :
  Inv w -> admitted (data_type f) -> metadata f = ∅ -> is_blank (name f) = false ->
  schema_field (inc_schema w) (id f) = None -> (forall h, h ∈ fields (inc_schema w) -> name h <> name f) ->
  ValidSchema (mkSchema LOGICAL_SCHEMA_VERSION (fields (inc_schema w) ++ [f]) ∅) <->
  (len (fields (inc_schema w)) < MAX_SCHEMA_FIELDS)%N /\
  (inc_text_bytes w + flat_text f <= MAX_SCHEMA_TEXT_BYTES)%N.
Proof.
  intros HI Ha Hm Hb Hid Hname. destruct (inv_bounds w HI) as ([Hids Hnames Hl] & Hc & Hx & _).
  rewrite flat_valid.
  2:{ apply Forall_app. split; [apply (inv_flat w HI)|by apply Forall_singleton]. }
  rewrite len_app, sum_by_app, <- Hx, len_cons, sum_by_cons. change (len []) with 0%N.
  change (sum_by flat_text []) with 0%N. split; [intros (_ & ? & ?); lia|]. intros [? ?].
  split_and!; [|lia|lia]. split; rewrite ?fmap_app.
  - apply NoDup_app. split_and!; [done| |apply NoDup_singleton]. intros d Hd Hd'.
    apply list_elem_of_singleton in Hd' as ->. by apply find_field_None in Hid.
  - apply NoDup_app. split_and!; [done| |apply NoDup_singleton]. intros d Hd Hd'.
    apply list_elem_of_singleton in Hd' as ->.
    apply list_elem_of_fmap in Hd as (h & Heq & Hh). by apply (Hname h).
  - apply Forall_app. split; [done|]. apply Forall_singleton. split; [done|]. rewrite Hm.
    apply metadata_screen. vm_compute. reflexivity.
Qed.

Lemma append_Inv w f bytes :
  Inv w -> admitted (data_type f) ->
  ValidSchema (mkSchema LOGICAL_SCHEMA_VERSION (fields (inc_schema w) ++ [f]) ∅) ->
  bytes = (inc_text_bytes w + flat_text f)%N ->
  Inv (refresh (with_text (with_fields w (fields (inc_schema w) ++ [f])) bytes)).
Proof.
  intros HI Ha Hv ->. destruct (inv_bounds w HI) as (_ & _ & Hx & _).
  assert (version (inc_schema w) = LOGICAL_SCHEMA_VERSION) as Hver by apply (inv_valid w HI).
  split; cbn [refresh with_text with_fields inc_schema inc_text_bytes entries].
  - by rewrite Hver, (inv_plain w HI).
  - apply (inv_plain w HI).
  - unfold all_admitted. cbn [fields]. apply Forall_app.
    split; [apply (inv_flat w HI)|by apply Forall_singleton].
  - rewrite text_bytes_of_eq. cbn [fields]. rewrite sum_by_app, sum_by_cons.
    change (sum_by flat_text []) with 0%N. lia.
  - intros es. destruct (entries w); congruence.
Qed.

Lemma derive_tail_agree w i n t nul :
  Inv w -> admitted t ->
  bool_decide (is_Some (schema_field (inc_schema w) i))
    || existsb (fun f => bool_decide (name f = n)) (fields (inc_schema w)) = false ->
  agree
    (field ← map_err (fun _ => EngineError.InvalidPlan "derived field is invalid") (field_new i n t nul);
     if (MAX_SCHEMA_FIELDS <=? len (fields (inc_schema w)))%N
     then Err (EngineError.InvalidPlan "derive produced an invalid schema") else
     let added_text := (field_text field + type_timezone_text t)%N in
     let new_total := default (MAX_SCHEMA_TEXT_BYTES + 1)%N
                        (checked_add (inc_text_bytes w) added_text) in
     if (MAX_SCHEMA_TEXT_BYTES <? new_total)%N
     then Err (EngineError.InvalidPlan "derive produced an invalid schema") else
     Ok (refresh (with_text (with_fields w (fields (inc_schema w) ++ [field])) new_total)))
    (field ← map_err (fun _ => sem_error Kind.DerivedFieldInvalid) (field_new i n t nul);
     rebuild (inc_schema w) (fields (inc_schema w) ++ [field])).
Proof.
  intros HI Ha [Hi Hn]%orb_false_iff. apply bool_decide_eq_false in Hi.
  rewrite <- eq_None_not_Some in Hi. rewrite existsb_false in Hn.
  destruct (field_new i n t nul) as [f|e] eqn:Hf; [|done]. cbn [map_err mbind result_bind].
  apply field_new_Ok in Hf as (-> & Hb & _). set (f := mkField i n t nul ∅).
  assert (field_text f + type_timezone_text t = flat_text f)%N as ->
    by (unfold flat_text; by rewrite field_text_eq).
  pose proof (append_valid w f HI Ha eq_refl Hb Hi) as Hv.
  assert (forall h, h ∈ fields (inc_schema w) -> name h <> name f) as Hfree.
  { intros h Hh Heq. specialize (Hn h Hh). apply bool_decide_eq_false in Hn. done. }
  specialize (Hv Hfree). destruct (rebuild_inv w (fields (inc_schema w) ++ [f]) HI) as [Hok Herr].
  cbv zeta. rewrite if_or. destruct (_ || _) eqn:Hbad.
  - destruct Herr as [e ->]; [|done]. rewrite Hv. intros [Hc Ht].
    apply orb_true_iff in Hbad as [Hbad%N.leb_le|Hbad%N.ltb_lt]; [lia|].
    destruct (checked_add (inc_text_bytes w) (flat_text f)) as [x|] eqn:Hx.
    + apply checked_add_Some in Hx as [-> _]. cbn in Hbad. lia.
    + apply checked_add_None in Hx. unfold usize_max, MAX_SCHEMA_TEXT_BYTES in *. lia.
  - apply orb_false_iff in Hbad as [Hc%N.leb_gt Ht%N.ltb_ge].
    destruct (checked_add (inc_text_bytes w) (flat_text f)) as [x|] eqn:Hx; cbn [default] in Ht;
      [|unfold MAX_SCHEMA_TEXT_BYTES in Ht; cbn in Ht; lia].
    apply checked_add_Some in Hx as [-> _]. cbn in Ht. cbn [default from_option].
    assert (ValidSchema (mkSchema LOGICAL_SCHEMA_VERSION (fields (inc_schema w) ++ [f]) ∅)) as Hvalid
      by (by apply Hv).
    rewrite (Hok Hvalid). cbn [agree]. split; [|by apply append_Inv].
    cbn. by rewrite (inv_plain w HI), (vs_version _ (inv_valid w HI)).
Qed.

Lemma derive_agree w i n t nul e :
  Inv w ->
  agree (apply_derive w i n t nul e) (rule_effect (inc_schema w) (RDeriveColumn i n t nul e)).
Proof.
  intros HI. unfold apply_derive. cbn [rule_effect].
  assert (forall c, resolve_column w c = resolve_column (inc_schema w) c) as Hres
    by (intros c; by apply inv_resolve).
  unfold type_check_expr_in, infer_nullability, engine_analyze_expr, validate_expr,
    reject_paused_cast_in_expr, engine_reject_paused_type.
  rewrite (analyze_ext w (inc_schema w) Hres), (casts_ext w (inc_schema w) Hres).
  destruct (analyze_expr (inc_schema w) e) as [a|err] eqn:Hana.
  2:{ cbn. by destruct (validate_expr_refs e w). }
  assert (validate_expr_refs e w = Ok tt) as ->.
  { rewrite <- (analyze_ext w (inc_schema w) Hres) in Hana. apply analyze_Ok in Hana as (Hs & Hb & Hi).
    apply validate_expr_refs_Ok. split_and!; [done..|]. by eapply infer_resolves. }
  assert (reject_paused_casts_in_expr (inc_schema w) e = Ok tt) as ->.
  { apply analyze_Ok in Hana as (Hs & Hb & Hi). by eapply infer_casts. }
  cbn [map_err fmap result_fmap mbind result_bind fst snd].
  apply agree_guard. intros [] Ht. apply agree_if. intros _. apply agree_if. intros Hfresh.
  apply agree_if. intros _. by apply derive_tail_agree.
Qed.

(** The rules on which the two layers are comparable: the shared analysis
    does not admit row filters, and it alone insists that a temporal parse
    has a temporal target. *)
Definition comparable (rule : Rule) : Prop :=
  match rule with
  | RFilterRows _ => False
  | RParseTemporal _ t _ _ => is_temporal t = true
  | _ => True
  end.

Lemma apply_rule_agree w rule :
  Inv w -> comparable rule -> agree (apply_rule w rule) (rule_effect (inc_schema w) rule).
Proof.
  intros HI Hcmp. pose proof (fun c => inv_resolve w c HI) as Hres.
  destruct rule as [c to|c t p|c t p fmt|c|c from to|c v|c|i n t nul e|pr|ks|pr sv m|c op];
    cbn [apply_rule comparable] in *; try done.
  - by apply rename_agree.
  - by apply cast_agree.
  - cbn [rule_effect]. pose proof (cast_agree w c t p HI) as Hcast.
    unfold resolve_or_unknown, field_or_unknown in *. rewrite Hres.
    destruct (schema_field (inc_schema w) c) as [f|]; [|done]. cbn [ok_or mbind result_bind] in *.
    destruct (is_utf8 (data_type f)) eqn:Hu; [|done]. rewrite Hcmp. cbn [negb].
    assert (reject_paused_cast (data_type f) t = Ok tt) as Hc; [|by rewrite Hc in Hcast].
    destruct (data_type f); try done. by destruct t.
  - cbn [rule_effect]. unfold resolve_or_unknown, field_or_unknown. rewrite Hres.
    destruct (schema_field (inc_schema w) c) as [f|]; [|done]. cbn. by destruct (is_utf8 _).
  - cbn [rule_effect]. unfold resolve_or_unknown, field_or_unknown. rewrite Hres.
    destruct (schema_field (inc_schema w) c) as [f|] eqn:Hf; [|done]. cbn [ok_or mbind result_bind].
    apply agree_literal, agree_literal, agree_if. intros _.
    destruct (is_scalar_null to); [by eapply nullable_agree|done].
  - cbn [rule_effect]. apply agree_if. intros _. unfold resolve_or_unknown, field_or_unknown.
    rewrite Hres. destruct (schema_field (inc_schema w) c) as [f|] eqn:Hf; [|done].
    cbn [ok_or mbind result_bind]. apply agree_if. intros _. apply agree_literal.
    by eapply nullable_agree.
  - by apply drop_agree.
  - by apply derive_agree.
  - cbn [rule_effect]. unfold resolve_or_unknown, field_or_unknown. rewrite Hres.
    destruct (schema_field (inc_schema w) c) as [f|]; [|done]. cbn. by destruct (is_utf8 _).
Qed.

Lemma apply_rule_Inv w rule w' : Inv w -> apply_rule w rule = Ok w' -> Inv w'.
Proof.
  intros HI Hw.
  assert (comparable rule -> Inv w') as Hcmp.
  { intros Hc. pose proof (apply_rule_agree w rule HI Hc) as Ha. rewrite Hw in Ha. cbn in Ha.
    destruct (rule_effect _ _); [by destruct Ha|done]. }
  destruct rule as [c to|c t p|c t p fmt|c|c from to|c v|c|i n t nul e|pr|ks|pr sv m|c op];
    try (by apply Hcmp).
  - cbn [apply_rule] in Hw. peel Hw. destruct (negb _); [done|].
    pose proof (cast_agree w c t p HI) as Ha. rewrite Hw in Ha. cbn [agree] in Ha.
    destruct (_ ≫= _); [by destruct Ha|done].
  - cbn [apply_rule] in Hw. peel Hw. by simplify_eq.
Qed.

(** The exception in [comparable] is real: a temporal parse with a target
    that is not temporal is accepted here and refused by [rule_effect]. *)
Example parse_temporal_target_unchecked :
  is_ok (apply_rule (for_shape sem_schema 1) (RParseTemporal 2%N TInt64 SetNull "%Y")) = true /\
  rule_effect sem_schema (RParseTemporal 2%N TInt64 SetNull "%Y") =
  Err (for_column Kind.InvalidLogicalType 2%N).
Proof. split; vm_compute; reflexivity. Qed.

(** ** Claims *)

(** C33: the incremental layer refines the shared semantics.  From any state
    whose schema is valid, without metadata and of executable types, whose
    text counter is exact and whose ordinal table, if built, is that of the
    schema ([Inv], kept by every rule), and for any rule but a row filter,
    which the shared analysis does not admit, and a temporal parse with a
    target that is not temporal ([comparable];
    [parse_temporal_target_unchecked] shows that the layers differ there):
    applying the rule in place succeeds exactly when the full rebuild of
    [rule_effect] does, and then yields the same schema; in particular the
    text and field budgets fail at the same rule. *)
Theorem apply_rule_refines (w : IncrementalSchema) (rule : Rule) (s' : LogicalSchema) :
  Inv w -> comparable rule ->
  (exists w', apply_rule w rule = Ok w' /\ inc_schema w' = s') <->
  rule_effect (inc_schema w) rule = Ok s'.
Proof.
  intros HI Hc. pose proof (apply_rule_agree w rule HI Hc) as Ha. unfold agree in Ha.
  destruct (apply_rule w rule) as [w1|e1], (rule_effect (inc_schema w) rule) as [s1|e2];
    try done; [|split; [by intros (? & ? & ?)|done]].
  destruct Ha as [<- _]. split.
  - intros (w' & [= ->] & ->). done.
  - intros [= <-]. eauto.
Qed.

Lemma apply_rule_refines_witness :
  exists w', apply_rule (for_shape sem_schema 40) sem_rule = Ok w' /\ inc_schema w' = sem_derived.
Proof.
  apply (apply_rule_refines (for_shape sem_schema 40) sem_rule sem_derived).
  - apply for_shape_Inv.
    + apply validate_exact. vm_compute. reflexivity.
    + reflexivity.
    + repeat constructor; vm_compute; reflexivity.
  - exact I.
  - vm_compute. reflexivity.
Defined.

(** Every accepted rule, row filters included, preserves the
    invariant: the schema is valid with executable types, the running text
    counter equals a fresh recount, and the ordinal table, when there is
    one, equals a fresh rebuild, so no stale index exists and the final
    validation at the boundary never fails. *)
Theorem apply_rule_invariant (w : IncrementalSchema) (rule : Rule) (w' : IncrementalSchema) :
  Inv w -> apply_rule w rule = Ok w' -> Inv w' /\ into_schema w' = Ok (inc_schema w').
Proof.
  intros HI Hw. assert (Inv w') as HI' by (by eapply apply_rule_Inv).
  split; [done|]. by apply into_schema_Ok.
Qed.

Lemma apply_rule_invariant_witness :
  exists w', apply_rule (for_shape sem_schema 40) (RDropColumn 1%N) = Ok w' /\ Inv w'.
Proof.
  eexists. split; [reflexivity|].
  apply (apply_rule_invariant (for_shape sem_schema 40) (RDropColumn 1%N)); [|reflexivity].
  apply for_shape_Inv.
  - apply validate_exact. vm_compute. reflexivity.
  - reflexivity.
  - repeat constructor; vm_compute; reflexivity.
Defined.
