(* ===== verification/Preflight.v ===== *)
(** * Preflight: [stillflow-engine/src/preflight.rs]

    Linearisation of a plan, the budgets and gates over its expressions, the
    compilation of its nodes into steps, and the propagation of the working
    schema through them.  What preflight asks of the outside world (request
    context, connection, connector capabilities, the source schema) is the
    record [Environment]. *)

From S2P Require Import Prelude Text Secrets Logical Schema Expression Rule Plan Semantics Lookup Typing Incremental.

Definition MAX_PLAN_NODES : N := 64.
Definition MAX_RULES_PER_NODE : N := 256.
Definition MAX_COMPILED_PLAN_BYTES : N := 4 * 1024 * 1024.
Definition VERIFICATION_MAX_COMPILED_PLAN_BYTES : N := 3 * 1024 * 1024.
(** In nanoseconds. *)
Definition ENGINE_MAX_DEADLINE : N := 30 * 60 * 1000000000.

Inductive CompiledStep :=
| StepProject (columns : list ColumnId)
| StepFilter (predicate : Expr)
| StepRules (rules : list Rule)
| StepSort (keys : list SortKey).

(** ** Linearisation *)

Definition is_scan (k : PlanNodeKind) : bool := match k with Scan _ _ _ => true | _ => false end.

Definition unsupported_operator (node : PlanNodeId) (k : PlanNodeKind) : EngineError.EngineError :=
  EngineError.UnsupportedOperator node (kind_name k).
Definition invalid {A} (message : string) : Eng A := Err (EngineError.InvalidPlan message).

Record Links := mkLinks {
  scans : list PlanNodeId;
  materializes : list PlanNodeId;
  child_links : gmap PlanNodeId (list PlanNodeId);
}.

(** One iteration of the [for (id, node) in &plan.nodes] loop. *)
Definition link_node (st : Links) (entry : PlanNodeId * PlanNode) : Eng Links :=
  let '(node_id, node) := entry in
  let st := match kind node with
            | Scan _ _ _ => mkLinks (scans st ++ [node_id]) (materializes st) (child_links st)
            | Materialize _ => mkLinks (scans st) (materializes st ++ [node_id]) (child_links st)
            | _ => st
            end in
  if is_scan (kind node) then
    match inputs node with
    | [] => Ok st
    | _ => invalid "scan must not have inputs"
    end
  else
    match inputs node with
    | [parent] => Ok (mkLinks (scans st) (materializes st)
        (<[parent := default [] (child_links st !! parent) ++ [node_id]]> (child_links st)))
    | _ => Err (unsupported_operator node_id (kind node))
    end.

(** The [loop] that follows the children; [None] is fuel exhaustion. *)
Fixpoint follow (fuel : nat) (plan : LogicalPlan) (links : gmap PlanNodeId (list PlanNodeId))
  (current : PlanNodeId) (visited : gset PlanNodeId) (path : list (PlanNodeId * PlanNode))
  : option (Eng (list (PlanNodeId * PlanNode))) :=
  match fuel with
  | 0 => None
  | S fuel =>
      if decide (current ∈ visited) then Some (invalid "plan path is cyclic") else
      match nodes plan !! current with
      | None => Some (invalid "missing plan node")
      | Some node =>
          let path := path ++ [(current, node)] in
          if (current =? root plan)%N then Some (Ok path) else
          match links !! current with
          | None => Some (invalid "disconnected plan node")
          | Some [next] => follow fuel plan links next ({[current]} ∪ visited) path
          | Some _ => Some (invalid "plan path is not linear")
          end
      end
  end.

Definition linearize (plan : LogicalPlan) : Eng (list (PlanNodeId * PlanNode)) :=
  st ← fold_result link_node (mkLinks [] [] ∅) (plan_iter (nodes plan));
  match scans st, materializes st with
  | [scan], [materialize] =>
      if negb (root plan =? materialize)%N then invalid "root must be the materialize node" else
      path ← default (Err (EngineError.Internal "unreachable"))
               (follow (S (size (nodes plan))) plan (child_links st) scan ∅ []);
      if negb (len path =? N.of_nat (size (nodes plan)))%N
      then invalid "disconnected plan node" else Ok path
  | _, _ => invalid "plan must contain exactly one scan and one materialize"
  end.

(** ** Gates over the expressions of a plan *)

Definition reject_paused_schema (schema : LogicalSchema) : Eng unit :=
  each (fun f => engine_reject_paused_type (data_type f)) (fields schema).

Definition reject_paused_rule_exprs (rule : Rule) : Eng unit :=
  match rule with
  | RDeriveColumn _ _ t _ expression =>
      try! engine_reject_paused_type t; reject_paused_expr expression
  | RFilterRows predicate => reject_paused_expr predicate
  | RCast _ t _ => engine_reject_paused_type t
  | _ => Ok tt
  end.

Definition reject_paused_plan_exprs (plan : LogicalPlan) : Eng unit :=
  each (fun entry : PlanNodeId * PlanNode =>
    match kind entry.2 with
    | Scan _ _ (Some predicate) => reject_paused_expr predicate
    | Filter predicate => reject_paused_expr predicate
    | ApplyRules rules => each reject_paused_rule_exprs rules
    | _ => Ok tt
    end) (plan_iter (nodes plan)).

(** One iteration of [validate_expr_iterative]. *)
Definition iterative_step (st : N * N) (p : Pending) : Eng (N * N * list Pending) :=
  let '(nodes, max_depth) := st in
  let '(At current depth) := p in
  let nodes := (nodes + 1)%N in
  let max_depth := N.max max_depth depth in
  if ((MAX_EXPR_NODES <? nodes) || (MAX_EXPR_DEPTH <? max_depth))%N
  then Err (EngineError.BoundExceeded "expression exceeds node or depth limits") else
  let ok := Ok (nodes, max_depth, pending_pushes p) in
  match current with
  | Literal (SUtf8 value) =>
      try! map_err (fun _ => EngineError.InvalidPlan "literal contains prohibited secret pattern")
             (validate_shape (Literal (SUtf8 value)));
      ok
  | Literal (SFloat64 value) =>
      if negb (f64_is_finite (finite_bits value)) then invalid "float literal is not finite" else ok
  | Cast _ t =>
      try! map_err (fun _ => EngineError.InvalidPlan "cast target data type is invalid")
             (validate_type t);
      ok
  | Coalesce es | Concat es =>
      match es with [] => invalid "coalesce expression list is empty" | _ => ok end
  | _ => ok
  end.
Definition validate_expr_iterative (expr : Expr) : Eng unit :=
  (fun _ => tt) <$> run iterative_step (invalid "unreachable") (0, 0)%N [At expr 1].

Definition validate_plan_exprs_iterative (plan : LogicalPlan) : Eng unit :=
  each (fun entry : PlanNodeId * PlanNode =>
    match kind entry.2 with
    | Scan _ _ (Some predicate) | Filter predicate => validate_expr_iterative predicate
    | ApplyRules rules =>
        each (fun rule =>
          match rule with
          | RDeriveColumn _ _ _ _ expression => validate_expr_iterative expression
          | RFilterRows predicate => validate_expr_iterative predicate
          | RValidate predicate _ _ => validate_expr_iterative predicate
          | _ => Ok tt
          end) rules
    | Join _ keys =>
        each (fun key => try! validate_expr_iterative (join_left key);
                         validate_expr_iterative (join_right key)) keys
    | _ => Ok tt
    end) (plan_iter (nodes plan)).

(** ** The compiled-plan budget *)

Definition literal_bytes (value : ScalarValue) : N :=
  match value with SUtf8 text => str_len text | _ => 8%N end.
(** The operands of [Coalesce] and [Concat] are added with a plain [sum] of
    [usize]; they lie in memory, so it does not overflow. *)
Fixpoint expr_bytes (expr : Expr) : N :=
  match expr with
  | Literal value => literal_bytes value
  | Unary _ e | IsNull e _ | Cast e _ | Substring e _ _ => expr_bytes e
  | Binary l _ r => saturating_add (expr_bytes l) (expr_bytes r)
  | Conditional p t o =>
      saturating_add (saturating_add (expr_bytes p) (expr_bytes t)) (expr_bytes o)
  | Coalesce es | Concat es => sum_by expr_bytes es
  | Column _ => 16%N
  end.
Definition rule_bytes (rule : Rule) : N :=
  match rule with
  | RRename _ to => str_len to
  | RDeriveColumn _ new_name _ _ expression =>
      saturating_add (str_len new_name) (expr_bytes expression)
  | RReplaceLiteral _ from to => saturating_add (literal_bytes from) (literal_bytes to)
  | RFillNull _ value => literal_bytes value
  | RFilterRows predicate => expr_bytes predicate
  | RValidate predicate _ message => saturating_add (expr_bytes predicate) (str_len message)
  | RParseTemporal _ _ _ format => str_len format
  | RTrim _ | RNormalizeText _ _ | RDropColumn _ | RCast _ _ _ | RDeduplicate _ => 0%N
  end.
Definition compiled_plan_bytes (plan : LogicalPlan) : N :=
  fold_left (fun bytes (entry : PlanNodeId * PlanNode) =>
    saturating_add bytes
      match kind entry.2 with
      | Materialize output_label => str_len output_label
      | Filter predicate => expr_bytes predicate
      | Scan _ _ predicate => from_option expr_bytes 0%N predicate
      | ApplyRules rules => sum_by rule_bytes rules
      | Project columns => saturating_mul (len columns) 16
      | _ => 0%N
      end) (plan_iter (nodes plan)) (saturating_mul (N.of_nat (size (nodes plan))) 64).

(** ** Schema propagation *)

Definition projection_served_lookups (scan_projection : list ColumnId) (push_projection : bool) : N :=
  saturating_mul (len scan_projection) (if push_projection then 3 else 2).

Definition rule_served_lookups (rule : Rule) : N :=
  match rule with
  | RRename _ _ => 1
  | RDropColumn _ => 0
  | RTrim _ | RNormalizeText _ _ | RParseTemporal _ _ _ _ | RCast _ _ _
  | RReplaceLiteral _ _ _ | RFillNull _ _ => 1
  | RDeriveColumn _ _ _ _ expression => 4 * count_expr_column_refs expression + 1
  | RFilterRows predicate => count_expr_column_refs predicate
  | RValidate _ _ _ | RDeduplicate _ => 0
  end%N.
Definition step_served_lookups (step : CompiledStep) : N :=
  match step with
  | StepProject columns => len columns
  | StepFilter predicate => count_expr_column_refs predicate
  | StepRules rules => sum_by rule_served_lookups rules
  | StepSort keys => len keys
  end.
Definition steps_served_lookups (steps : list CompiledStep) : N := sum_by step_served_lookups steps.

Definition project_schema_with {R} `{ColumnResolver R} (lookup : R) (columns : list ColumnId)
  : Eng LogicalSchema :=
  st ← fold_result (fun (st : gset ColumnId * list LogicalField) column =>
         if decide (column ∈ st.1) then invalid "projection contains duplicate columns" else
         field ← ok_or (resolve_column lookup column) (EngineError.UnknownColumn column);
         Ok ({[column]} ∪ st.1, st.2 ++ [field])) (∅, []) columns;
  map_err (fun _ => EngineError.InvalidPlan "projected schema is invalid") (schema_new st.2).

Definition project_schema (schema : LogicalSchema) (columns : list ColumnId) : Eng LogicalSchema :=
  project_schema_with (authorized_for_shape schema (len columns)) columns.

(** A rule of a [Rules] step. *)
Definition propagate_rule (verification : bool) (w : IncrementalSchema) (rule : Rule)
  : Eng IncrementalSchema :=
  match rule with
  | RValidate _ _ _ | RDeduplicate _ => if verification then Ok w else apply_rule w rule
  | _ => apply_rule w rule
  end.
Definition propagate_step (verification : bool) (w : IncrementalSchema) (step : CompiledStep)
  : Eng IncrementalSchema :=
  match step with
  | StepProject columns =>
      projected ← project_schema_with w columns; Ok (swap_with w projected)
  | StepFilter predicate => try! require_boolean_in predicate w; Ok w
  | StepRules rules => fold_result (propagate_rule verification) w rules
  | StepSort _ => Ok w
  end.
Definition propagate_schema (scan_output : LogicalSchema) (steps : list CompiledStep)
  (verification : bool) : Eng LogicalSchema :=
  w ← fold_result (propagate_step verification)
        (for_shape scan_output (steps_served_lookups steps)) steps;
  into_schema w.

Definition apply_rule_schema (schema : LogicalSchema) (rule : Rule) (verification : bool)
  : Eng LogicalSchema :=
  let admitted_routing := match rule with
                          | RValidate _ _ _ | RDeduplicate _ => verification
                          | _ => false
                          end in
  if admitted_routing then Ok schema else
  w ← apply_rule (for_shape schema (rule_served_lookups rule)) rule;
  into_schema w.

(** ** Preflight *)

Inductive ConnectorKind := LocalFile | ExcelWorkbook | ObjectStore | SqlDatabase | DocumentWorker.

Record Capabilities := mkCapabilities { streaming : Eng unit; column_projection : bool }.
Record Environment := mkEnvironment {
  ensure_active : Eng unit;
  remaining : option N;
  connection_valid : bool;
  connection_id : Uuid;
  connection_kind : ConnectorKind;
  asset_id : Uuid;
  asset_connection_id : Uuid;
  capabilities : Eng Capabilities;
  inspect : Eng LogicalSchema;
}.

Definition bind_scan (env : Environment) (source_asset_id : Uuid) : Eng unit :=
  if is_nil source_asset_id || is_nil (asset_id env) || is_nil (connection_id env)
  then Err EngineError.SourceBinding else
  if negb (source_asset_id =? asset_id env)%N then Err EngineError.SourceBinding else
  if negb (asset_connection_id env =? connection_id env)%N then Err EngineError.SourceBinding
  else Ok tt.

Definition reject_phase_kinds (k : ConnectorKind) : Eng unit :=
  match k with
  | SqlDatabase => Err (EngineError.UnsupportedCapability "sqlDatabase")
  | DocumentWorker => Err (EngineError.UnsupportedCapability "documentWorker")
  | LocalFile | ExcelWorkbook | ObjectStore => Ok tt
  end.

Definition validate_output_label (label : string) : Eng unit :=
  if is_blank label then invalid "materialize label is empty" else
  map_err (fun _ => EngineError.InvalidPlan "materialize label is not secret-safe")
    (validate_shape (Literal (SUtf8 label))).

Definition authorized_source_schema (env : Environment) (schema_override : option LogicalSchema)
  : Eng LogicalSchema :=
  match schema_override with
  | Some schema =>
      try! map_err (fun _ => EngineError.InvalidPlan "schema override is invalid")
             (schema_validate schema);
      Ok schema
  | None =>
      try! ensure_active env;
      schema ← inspect env;
      try! ensure_active env;
      try! map_err (fun _ => EngineError.InvalidPlan "inspected schema is invalid")
             (schema_validate schema);
      Ok schema
  end.

(** The step of one inner node of the linear path. *)
Definition compile_node (verification : bool) (entry : PlanNodeId * PlanNode) : Eng CompiledStep :=
  let '(node_id, node) := entry in
  match kind node with
  | Project columns => Ok (StepProject columns)
  | Filter predicate => Ok (StepFilter predicate)
  | ApplyRules rules =>
      if ((len rules =? 0) || (MAX_RULES_PER_NODE <? len rules))%N
      then Err (EngineError.BoundExceeded "apply-rules count is outside the authorized range") else
      try! each (fun rule =>
             match rule with
             | RValidate _ _ _ =>
                 if verification then Ok tt else Err (EngineError.UnsupportedRule node_id "validate")
             | RDeduplicate _ =>
                 if verification then Ok tt else Err (EngineError.UnsupportedRule node_id "deduplicate")
             | _ => Ok tt
             end) rules;
      Ok (StepRules rules)
  | Join _ _ | Union => Err (unsupported_operator node_id (kind node))
  | Sort keys => Ok (StepSort keys)
  | Scan _ _ _ | Materialize _ => invalid "duplicate scan or materialize"
  end.

Record PreparedPlan := mkPrepared {
  push_projection : bool;
  scan_projection : list ColumnId;
  expected_connector : LogicalSchema;
  scan_output : LogicalSchema;
  materialize_schema : LogicalSchema;
  steps : list CompiledStep;
  target_steps : list CompiledStep;
  target_schema : LogicalSchema;
  materialize_id : PlanNodeId;
}.

(** The position of the preview target on the path, checked. *)
Definition target_position (linear : list (PlanNodeId * PlanNode)) (target : PlanNodeId) : Eng nat :=
  index ← ok_or (fst <$> list_find (fun e : PlanNodeId * PlanNode => e.1 = target) linear)
            (EngineError.InvalidPlan "preview target is not on the linear path");
  if (index =? length linear - 1)%nat
  then Err (EngineError.UnsupportedOperator target "materialize") else
  match linear !! index with
  | Some (_, node) =>
      match kind node with
      | Scan _ _ _ | Project _ | Filter _ | Sort _ | ApplyRules _ => Ok index
      | other => Err (unsupported_operator target other)
      end
  | None => Err (EngineError.Internal "unreachable")
  end.

(** The scan's own steps: a projection unless the connector pushes it down,
    and the scan predicate. *)
Definition scan_steps (push : bool) (projection : list ColumnId) (predicate : option Expr)
  : list CompiledStep :=
  (if push then [] else [StepProject projection])
  ++ match predicate with Some predicate => [StepFilter predicate] | None => [] end.

(** [linear.iter().enumerate().skip(1).take(len - 2)]: all the steps and the
    ones up to the preview target. *)
Definition compile_inner (verification : bool) (target_index : option nat)
  (linear : list (PlanNodeId * PlanNode)) : Eng (list CompiledStep * list CompiledStep) :=
  fold_result (fun (st : list CompiledStep * list CompiledStep) '(position, entry) =>
    step ← compile_node verification entry;
    let in_preview := match target_index with
                      | Some index => (position <=? index)%nat
                      | None => false
                      end in
    Ok (st.1 ++ [step], if in_preview then st.2 ++ [step] else st.2)) ([], [])
    (take (length linear - 2) (drop 1 (imap pair linear))).

(** Everything checked before the plan is linearised. *)
Definition preflight_gates hash_iter (env : Environment) (plan : LogicalPlan) (verification : bool)
  : Eng unit :=
  try! ensure_active env;
  if match remaining env with Some time => (ENGINE_MAX_DEADLINE <? time)%N | None => false end
  then Err (EngineError.BoundExceeded "request deadline exceeds ENGINE_MAX_DEADLINE") else
  try! validate_plan_exprs_iterative plan;
  try! map_err (fun _ => EngineError.InvalidPlan "logical plan failed validation")
         (plan_validate hash_iter plan);
  if ((if verification then VERIFICATION_MAX_COMPILED_PLAN_BYTES else MAX_COMPILED_PLAN_BYTES)
        <? compiled_plan_bytes plan)%N
  then Err (EngineError.BoundExceeded "compiled plan exceeds the compiled-plan budget") else
  try! each (fun entry : PlanNodeId * PlanNode =>
         match kind entry.2 with
         | Join _ _ | Union => Err (unsupported_operator entry.1 (kind entry.2))
         | _ => Ok tt
         end) (plan_iter (nodes plan));
  try! reject_paused_plan_exprs plan;
  if negb (connection_valid env) then Err EngineError.SourceBinding else
  if ((N.of_nat (size (nodes plan)) =? 0) || (MAX_PLAN_NODES <? N.of_nat (size (nodes plan))))%N
  then Err (EngineError.BoundExceeded "plan node count is outside the authorized range")
  else Ok tt.

Definition preflight_inner_with_schema hash_iter (env : Environment) (plan : LogicalPlan)
  (schema_override : option LogicalSchema) (preview_target : option PlanNodeId)
  (verification : bool) (authorized_schema : option LogicalSchema)
  (push_projection_override : option bool) : Eng PreparedPlan :=
  try! preflight_gates hash_iter env plan verification;
  linear ← linearize plan;
  target_index ← match preview_target with
                 | Some target => Some <$> target_position linear target
                 | None => Ok None
                 end;
  first ← ok_or (head linear) (EngineError.Internal "unreachable");
  scan ← match kind first.2 with
         | Scan source_asset_id projection predicate =>
             try! bind_scan env source_asset_id; Ok (projection, predicate)
         | other => Err (unsupported_operator first.1 other)
         end;
  final ← ok_or (last linear) (EngineError.Internal "unreachable");
  try! match kind final.2 with
       | Materialize output_label => validate_output_label output_label
       | other => Err (unsupported_operator final.1 other)
       end;
  try! reject_phase_kinds (connection_kind env);
  caps ← capabilities env;
  try! streaming caps;
  let push := default (column_projection caps) push_projection_override in
  inner ← compile_inner verification target_index linear;
  let own := scan_steps push scan.1 scan.2 in
  let steps := own ++ inner.1 in
  authorized ← match authorized_schema with
               | Some schema => Ok schema
               | None => authorized_source_schema env schema_override
               end;
  try! reject_paused_schema authorized;
  let lookup := authorized_for_shape authorized (projection_served_lookups scan.1 push) in
  try! each (fun column =>
         match resolve_column lookup column with
         | None => Err (EngineError.UnknownColumn column)
         | Some _ => Ok tt
         end) scan.1;
  expected ← (if push then project_schema_with lookup scan.1 else Ok authorized);
  output ← project_schema_with lookup scan.1;
  try! reject_paused_schema output;
  materialized ← propagate_schema output steps verification;
  try! reject_paused_schema materialized;
  target ← match preview_target with
           | Some _ =>
               let preview_steps := own ++ inner.2 in
               schema ← propagate_schema output preview_steps verification;
               try! reject_paused_schema schema;
               Ok (preview_steps, schema)
           | None => Ok (steps, materialized)
           end;
  Ok (mkPrepared push scan.1 expected output materialized steps target.1 target.2 final.1).

Definition preflight hash_iter env plan schema_override preview_target : Eng PreparedPlan :=
  preflight_inner_with_schema hash_iter env plan schema_override preview_target false None None.

Definition preflight_snapshot hash_iter env plan snapshot_schema verification : Eng PreparedPlan :=
  preflight_inner_with_schema hash_iter env plan None None verification
    (Some snapshot_schema) (Some false).

(** ** Linearisation finds the one path *)

Definition path_linked (path : list (PlanNodeId * PlanNode)) : Prop :=
  forall i p a q b, path !! i = Some (p, a) -> path !! S i = Some (q, b) -> inputs b = [p].

Definition parent_of (ns : gmap PlanNodeId PlanNode) (links : gmap PlanNodeId (list PlanNodeId)) : Prop :=
  forall p c, c ∈ default [] (links !! p) -> exists n, ns !! c = Some n /\ inputs n = [p].

Lemma link_nodes_Ok ns es : forall st st',
  (forall v n, (v, n) ∈ es -> ns !! v = Some n) ->
  parent_of ns (child_links st) ->
  Forall (fun v => exists n, ns !! v = Some n /\ is_scan (kind n) = true /\ inputs n = []) (scans st) ->
  fold_result link_node st es = Ok st' ->
  parent_of ns (child_links st') /\
  Forall (fun v => exists n, ns !! v = Some n /\ is_scan (kind n) = true /\ inputs n = []) (scans st').
Proof.
  induction es as [|[v n] es IH]; intros st st' Hes Hp Hs Hf; cbn [fold_result] in Hf.
  - by simplify_eq.
  - peel Hf. rename Hx into Hl. eapply IH; [|..|exact Hf]; [set_solver|..].
    + assert (ns !! v = Some n) as Hn by (apply Hes; left). unfold link_node in Hl.
      assert (forall p, inputs n = [p] -> parent_of ns (<[p := default [] (child_links st !! p) ++ [v]]> (child_links st))) as Hins.
      { intros p Hi q c. destruct (decide (q = p)) as [->|Hq].
        - rewrite lookup_insert_eq. cbn. rewrite elem_of_app, list_elem_of_singleton.
          intros [?| ->]; [by apply Hp|eauto].
        - rewrite lookup_insert_ne by done. apply Hp. }
      destruct (is_scan (kind n)).
      * destruct (inputs n); [|done]. simplify_eq. by destruct (kind n).
      * destruct (inputs n) as [|p [|]] eqn:Hi; try done. simplify_eq. cbn [child_links].
        destruct (kind n); cbn [child_links]; by apply Hins.
    + assert (ns !! v = Some n) as Hn by (apply Hes; left). unfold link_node in Hl.
      destruct (is_scan (kind n)) eqn:Hk.
      * destruct (inputs n) eqn:Hi; [|done]. simplify_eq. destruct (kind n) eqn:Hkn; try done.
        cbn [scans]. apply Forall_app. split; [done|]. apply Forall_singleton. exists n.
        by rewrite Hkn.
      * destruct (inputs n) as [|p [|]] eqn:Hi; try done. simplify_eq. cbn [scans].
        by destruct (kind n).
Qed.

Lemma path_linked_snoc path v n :
  path_linked path ->
  (forall p a, last path = Some (p, a) -> inputs n = [p]) -> path_linked (path ++ [(v, n)]).
Proof.
  intros Hl Hlast i p a q b Hi Hj.
  destruct (decide (S i < length path)) as [Hlt|Hge].
  - rewrite lookup_app_l in Hi by lia. rewrite lookup_app_l in Hj by lia. by eapply Hl.
  - apply lookup_lt_Some in Hj as Hlen. rewrite length_app in Hlen. cbn in Hlen.
    assert (S i = length path) as Heq by lia.
    rewrite lookup_app_r in Hj by lia. rewrite Heq, Nat.sub_diag in Hj. cbn in Hj. simplify_eq.
    rewrite lookup_app_l in Hi by lia. eapply Hlast. rewrite last_lookup, <- Heq. exact Hi.
Qed.

(** The partial path walked so far; [current] is the next node. *)
Record Walked (plan : LogicalPlan) (scan current : PlanNodeId) (visited : gset PlanNodeId)
  (path : list (PlanNodeId * PlanNode)) : Prop := {
  walked_visited : visited = list_to_set path.*1;
  walked_nodup : NoDup path.*1;
  walked_nodes v n : (v, n) ∈ path -> nodes plan !! v = Some n;
  walked_linked : path_linked path;
  walked_head : fst <$> head path = (if decide (path = []) then None else Some scan);
  walked_start : path = [] -> current = scan;
  walked_next v n : last path = Some (v, n) ->
    forall m, nodes plan !! current = Some m -> inputs m = [v];
}.

Lemma walked_step plan links scan current visited path node next :
  parent_of (nodes plan) links ->
  Walked plan scan current visited path -> current ∉ visited ->
  nodes plan !! current = Some node -> links !! current = Some [next] ->
  Walked plan scan next ({[current]} ∪ visited) (path ++ [(current, node)]).
Proof.
  intros Hp [-> Hnd Hn Hl Hh Hs Hx] Hc Hnode Hlink.
  rewrite elem_of_list_to_set in Hc. split.
  - rewrite fmap_app, list_to_set_app_L. cbn. set_solver.
  - rewrite fmap_app. apply NoDup_app. split_and!; [done| |apply NoDup_singleton]. set_solver.
  - intros v n [Hin|Hin]%elem_of_app; [by apply Hn|].
    apply list_elem_of_singleton in Hin. by simplify_eq.
  - apply path_linked_snoc; [done|]. intros p a Hlast. by eapply Hx.
  - rewrite decide_False by (by destruct path). destruct path as [|[v n] path]; cbn in *.
    + f_equal. by apply Hs.
    + by rewrite Hh.
  - by destruct path.
  - intros v n Hlast m Hm. rewrite last_snoc in Hlast. simplify_eq.
    destruct (Hp v next) as (k & Hk & Hi); [rewrite Hlink; left|]. by simplify_eq.
Qed.

Record LinearPath (plan : LogicalPlan) (scan : PlanNodeId) (path : list (PlanNodeId * PlanNode))
  : Prop := {
  linear_nodup : NoDup path.*1;
  linear_nodes v n : (v, n) ∈ path -> nodes plan !! v = Some n;
  linear_linked : path_linked path;
  linear_head : fst <$> head path = Some scan;
  linear_last : fst <$> last path = Some (root plan);
}.

Lemma follow_Ok plan links scan fuel : forall current visited path path',
  parent_of (nodes plan) links -> Walked plan scan current visited path ->
  follow fuel plan links current visited path = Some (Ok path') -> LinearPath plan scan path'.
Proof.
  induction fuel as [|fuel IH]; intros current visited path path' Hp HW Hf; [done|].
  cbn [follow] in Hf. destruct (decide (current ∈ visited)) as [|Hc]; [done|].
  destruct (nodes plan !! current) as [node|] eqn:Hn; [|done].
  destruct (N.eqb_spec current (root plan)) as [Hr|Hr].
  - simplify_eq. destruct HW as [-> Hnd Hns Hl Hh Hs Hx]. rewrite elem_of_list_to_set in Hc. split.
    + rewrite fmap_app. apply NoDup_app. split_and!; [done| |apply NoDup_singleton]. set_solver.
    + intros v n [Hin|Hin]%elem_of_app; [by apply Hns|].
      apply list_elem_of_singleton in Hin. by simplify_eq.
    + apply path_linked_snoc; [done|]. intros p a Hlast. by eapply Hx.
    + destruct path as [|[v n] path]; cbn in *; [f_equal; by apply Hs|by rewrite Hh].
    + rewrite last_snoc. cbn. by f_equal.
  - destruct (links !! current) as [[|next [|]]|] eqn:Hlk; try done.
    eapply IH; [done| |exact Hf]. by eapply walked_step.
Qed.

(** Every iteration visits a new node, so the fuel is never exhausted. *)
Lemma follow_total plan links fuel : forall current visited path,
  visited ⊆ dom (nodes plan) -> size (nodes plan) - size visited < fuel ->
  is_Some (follow fuel plan links current visited path).
Proof.
  induction fuel as [|fuel IH]; intros current visited path Hv Hf; [lia|]. cbn [follow].
  destruct (decide (current ∈ visited)) as [|Hc]; [eauto|].
  destruct (nodes plan !! current) as [node|] eqn:Hn; [|eauto].
  destruct (_ =? _)%N; [eauto|]. destruct (links !! current) as [[|next [|]]|]; [eauto| |eauto|eauto].
  apply IH.
  - apply union_subseteq. split; [|done]. apply singleton_subseteq_l, elem_of_dom. eauto.
  - rewrite size_union by set_solver. rewrite size_singleton.
    assert (size ({[current]} ∪ visited) <= size (dom (nodes plan))) as Hle.
    { apply subseteq_size, union_subseteq. split; [|done].
      apply singleton_subseteq_l, elem_of_dom. eauto. }
    rewrite size_union, size_singleton, size_dom in Hle by set_solver. lia.
Qed.

Lemma linearize_Ok plan path :
  linearize plan = Ok path ->
  exists scan node, head path = Some (scan, node) /\ is_scan (kind node) = true /\
    LinearPath plan scan path /\ path ≡ₚ map_to_list (nodes plan).
Proof.
  unfold linearize. intros Hl. peel Hl. rename x into st, Hx into Hst.
  destruct (link_nodes_Ok (nodes plan) (plan_iter (nodes plan)) (mkLinks [] [] ∅) st) as [Hp Hs].
  - intros v n. apply elem_of_plan_iter.
  - intros p c. cbn. rewrite lookup_empty. cbn. by intros ?%not_elem_of_nil.
  - constructor.
  - done.
  - destruct (scans st) as [|scan [|]]; try done. destruct (materializes st) as [|mat [|]]; try done.
    destruct (negb _); [done|]. peel Hl. rename x into path0.
    destruct (follow _ _ _ _ _ _) as [[path1|]|] eqn:Hfol; [|done|done]. cbn in Hx. simplify_eq.
    destruct (N.eqb_spec (len path0) (N.of_nat (size (nodes plan)))) as [Hlen|]; [|done].
    cbn in Hl. simplify_eq. apply Forall_singleton in Hs as (n & Hn & Hk & _).
    apply (follow_Ok plan _ scan) in Hfol; [|done|].
    2:{ split; cbn; [done|by apply NoDup_nil|by intros v m ?%not_elem_of_nil|by intros i|by rewrite decide_True|done|done]. }
    exists scan, n. pose proof (linear_head _ _ _ Hfol) as Hh.
    destruct path as [|[v m] rest] eqn:Hpath; [done|]. cbn in Hh. simplify_eq.
    assert (nodes plan !! scan = Some m) as Hm by (apply (linear_nodes _ _ _ Hfol); left).
    simplify_eq. split_and!; [done|done|done|].
    apply submseteq_length_Permutation.
    + apply NoDup_submseteq.
      * eapply NoDup_fmap_1, (linear_nodup _ _ _ Hfol).
      * intros [v k] Hin. apply elem_of_map_to_list. by apply (linear_nodes _ _ _ Hfol).
    + rewrite length_map_to_list. unfold len in Hlen. lia.
Qed.

(** The internal fallback of [linearize] is unreachable. *)
Lemma linearize_total plan : linearize plan <> Err (EngineError.Internal "unreachable").
Proof.
  unfold linearize. destruct (fold_result _ _ _) as [st|e] eqn:Hst; cbn [mbind result_bind].
  - destruct (scans st) as [|scan [|]]; try done. destruct (materializes st) as [|mat [|]]; try done.
    destruct (negb _); [done|].
    destruct (follow_total plan (child_links st) (S (size (nodes plan))) scan ∅ []) as [r Hr];
      [set_solver|rewrite size_empty; lia|].
    rewrite Hr. cbn. destruct r as [path|e]; cbn.
    + by destruct (negb _).
    + intros [= ->]. revert Hr. generalize (S (size (nodes plan))) (∅ : gset PlanNodeId)
        ([] : list (PlanNodeId * PlanNode)). intros fuel. revert scan.
      induction fuel as [|fuel IH]; intros scan visited path; [done|]. cbn [follow].
      destruct (decide _); [done|]. destruct (nodes plan !! scan); [|done].
      destruct (_ =? _)%N; [done|]. destruct (child_links st !! scan) as [[|next [|]]|]; try done.
      apply IH.
  - intros [= ->]. revert Hst. generalize (mkLinks [] [] ∅) as st0.
    induction (plan_iter (nodes plan)) as [|[v n] es IH]; intros st0; [done|]. cbn [fold_result].
    destruct (link_node st0 (v, n)) as [st1|e1] eqn:Hl; cbn; [apply IH|].
    intros [= ->]. unfold link_node in Hl.
    destruct (is_scan (kind n)), (inputs n) as [|p [|]]; done.
Qed.

(** ** Propagation refines the shared semantics *)

Lemma fold_map_err {E F S A} (h : E -> F) (g : S -> A -> result E S) l s :
  fold_result (fun s a => map_err h (g s a)) s l = map_err h (fold_result g s l).
Proof.
  revert s. induction l as [|a l IH]; intros s; cbn; [done|]. destruct (g s a); cbn; [apply IH|done].
Qed.

Section project.
Context {R} `{ColumnResolver R} (r : R) (s : LogicalSchema).
Context (Hres : forall c, resolve_column r c = schema_field s c).

Lemma project_schema_with_eq cs :
  project_schema_with r cs =
  (st ← map_err semantic_error (fold_result (project_step s) (∅, []) cs);
   map_err (fun _ => EngineError.InvalidPlan "projected schema is invalid") (schema_new st.2)).
Proof.
  unfold project_schema_with. rewrite <- fold_map_err. f_equal. apply fold_result_ext.
  intros [seen acc] c _. unfold project_step, field_or_unknown. cbn [fst snd]. rewrite Hres.
  destruct (decide (c ∈ seen)); [done|]. by destruct (schema_field s c).
Qed.

Lemma project_schema_with_Ok cs s' :
  ValidSchema s -> schema_metadata s = ∅ ->
  project_schema_with r cs = Ok s' <->
  NoDup cs /\ (forall c, c ∈ cs -> is_Some (schema_field s c)) /\
  s' = mkSchema (version s) (omap (schema_field s) cs) (schema_metadata s).
Proof.
  intros Hv Hm. rewrite project_schema_with_eq, bind_Ok. pose proof (project_fold s cs ∅ []) as Hf.
  rewrite Hm, (vs_version s Hv). setoid_rewrite map_err_Ok. setoid_rewrite schema_new_Ok. split.
  - intros ([seen out] & Hfold & -> & _). cbn [snd] in *.
    destruct (Hf out) as [(Hnd & Hall & ->) _]; [eauto|].
    split_and!; [done| |done]. intros d Hd. by apply Hall.
  - intros (Hnd & Hall & ->). destruct (Hf (omap (schema_field s) cs)) as [_ [seen Hfold]].
    { split_and!; [done|set_solver|done]. }
    eexists. split; [exact Hfold|]. cbn [snd]. split; [done|].
    destruct (project_selection s cs) as [rest Hp]; [apply Hv|done|].
    apply (valid_selection s _ rest Hp) in Hv as Hsel. by rewrite Hm, (vs_version s Hv) in Hsel.
Qed.
End project.

(** One step of the reference semantics: the shared analyser alone. *)
Definition reference_rule (verification : bool) (s : LogicalSchema) (rule : Rule)
  : option LogicalSchema :=
  match rule with
  | RFilterRows predicate =>
      match analyze_expr s predicate with
      | Ok a => if is_boolean (analysis_type a) then Some s else None
      | Err _ => None
      end
  | RValidate _ _ _ | RDeduplicate _ => if verification then Some s else None
  | _ => match rule_effect s rule with Ok s' => Some s' | Err _ => None end
  end.
Definition reference_step (verification : bool) (s : LogicalSchema) (step : CompiledStep)
  : option LogicalSchema :=
  match step with
  | StepProject columns => match project_effect s columns with Ok s' => Some s' | Err _ => None end
  | StepFilter predicate => reference_rule verification s (RFilterRows predicate)
  | StepRules rules => foldl (fun s rule => s ≫= fun s => reference_rule verification s rule) (Some s) rules
  | StepSort _ => Some s
  end.
Definition reference_steps (verification : bool) (s : LogicalSchema) (l : list CompiledStep)
  : option LogicalSchema :=
  foldl (fun s step => s ≫= fun s => reference_step verification s step) (Some s) l.

Definition rule_wf (rule : Rule) : Prop :=
  match rule with RParseTemporal _ t _ _ => is_temporal t = true | _ => True end.
(** Steps a validated plan produces: non-empty projections, and temporal
    parses with a temporal target. *)
Definition step_wf (step : CompiledStep) : Prop :=
  match step with
  | StepProject columns => columns <> []
  | StepRules rules =>
      Forall rule_wf rules
  | _ => True
  end.

(** The working state tracks the reference schema. *)
Definition tracks (m : Eng IncrementalSchema) (o : option LogicalSchema) : Prop :=
  match m, o with
  | Ok w, Some s => inc_schema w = s /\ Inv w
  | Err _, None => True
  | _, _ => False
  end.

Lemma fold_tracks {A} (f : IncrementalSchema -> A -> Eng IncrementalSchema)
  (g : LogicalSchema -> A -> option LogicalSchema) (P : A -> Prop) l :
  (forall w a, Inv w -> P a -> tracks (f w a) (g (inc_schema w) a)) -> Forall P l ->
  forall w, Inv w ->
  tracks (fold_result f w l) (foldl (fun s a => s ≫= fun s => g s a) (Some (inc_schema w)) l).
Proof.
  intros Hfg. induction 1 as [|a l Ha Hl IH]; intros w HI; [done|]. cbn [fold_result foldl].
  specialize (Hfg w a HI Ha). cbn. destruct (f w a) as [w1|e], (g (inc_schema w) a) as [s1|]; try done.
  - destruct Hfg as [<- HI1]. cbn. by apply IH.
  - cbn. clear. induction l; [done|]. done.
Qed.

Lemma boolean_tracks w predicate :
  Inv w ->
  tracks (try! require_boolean_in predicate w; Ok w)
         (reference_rule true (inc_schema w) (RFilterRows predicate)).
Proof.
  intros HI. cbn [reference_rule]. unfold require_boolean_in, type_check_expr_in, engine_analyze_expr.
  rewrite (analyze_ext w (inc_schema w)) by (intros; by apply inv_resolve).
  destruct (analyze_expr (inc_schema w) predicate) as [a|e]; [|done]. cbn.
  by destruct (is_boolean (analysis_type a)).
Qed.

Lemma rule_tracks verification w rule :
  Inv w -> rule_wf rule ->
  tracks (propagate_rule verification w rule) (reference_rule verification (inc_schema w) rule).
Proof.
  intros HI Hwf.
  assert (comparable rule -> tracks (apply_rule w rule)
           match rule_effect (inc_schema w) rule with Ok s' => Some s' | Err _ => None end) as Hcmp.
  { intros Hc. pose proof (apply_rule_agree w rule HI Hc) as Ha. unfold agree, tracks in *.
    by destruct (apply_rule w rule), (rule_effect (inc_schema w) rule). }
  destruct rule; try (by apply Hcmp).
  - by apply boolean_tracks.
  - by destruct verification.
  - by destruct verification.
Qed.

Lemma selection_admitted s cs fs :
  all_admitted s -> fs = omap (schema_field s) cs -> Forall (fun f => admitted (data_type f)) fs.
Proof.
  intros Ha ->. apply Forall_forall. intros f (c & _ & Hf)%list_elem_of_omap.
  apply find_field_Some in Hf as [Hin _]. by eapply (proj1 (Forall_forall _ _) Ha).
Qed.

Lemma project_tracks w cs :
  Inv w -> cs <> [] ->
  tracks (projected ← project_schema_with w cs; Ok (swap_with w projected))
         match project_effect (inc_schema w) cs with Ok s' => Some s' | Err _ => None end.
Proof.
  intros HI Hne. pose proof (inv_valid w HI) as Hv. pose proof (inv_plain w HI) as Hm.
  pose proof (project_schema_with_Ok w (inc_schema w) (fun c => inv_resolve w c HI) cs) as Hw.
  pose proof (project_effect_Ok (inc_schema w) cs) as He.
  destruct (project_schema_with w cs) as [s1|e1], (project_effect (inc_schema w) cs) as [s2|e2];
    cbn [mbind result_bind tracks]; [| | |done].
  - destruct (He s2 Hv) as [(_ & Hnd & Hall & ->) _]; [done|].
    destruct (Hw s1 Hv Hm) as [(_ & _ & ->) _]; [done|].
    destruct (project_selection (inc_schema w) cs) as [rest Hp]; [apply Hv|done|].
    split; [done|]. apply swap_with_Inv; [by eapply valid_selection|done|].
    eapply selection_admitted; [apply (inv_flat w HI)|done].
  - destruct (Hw s1 Hv Hm) as [(? & ? & ?) _]; [done|].
    destruct (He s1 Hv) as [_ Hx]. by specialize (Hx ltac:(done)).
  - destruct (He s2 Hv) as [(? & ? & ? & ?) _]; [done|].
    destruct (Hw s2 Hv Hm) as [_ Hx]. by specialize (Hx ltac:(done)).
Qed.

Lemma step_tracks verification w step :
  Inv w -> step_wf step ->
  tracks (propagate_step verification w step) (reference_step verification (inc_schema w) step).
Proof.
  intros HI Hwf. destruct step; cbn [propagate_step reference_step].
  - by apply project_tracks.
  - by apply boolean_tracks.
  - apply (fold_tracks _ _ rule_wf); [|done|done]. intros w' rule. apply rule_tracks.
  - done.
Qed.

Lemma propagate_tracks verification s steps :
  ValidSchema s -> schema_metadata s = ∅ -> all_admitted s -> Forall step_wf steps ->
  match propagate_schema s steps verification, reference_steps verification s steps with
  | Ok s1, Some s2 => s1 = s2 /\ ValidSchema s1 /\ schema_metadata s1 = ∅ /\ all_admitted s1
  | Err _, None => True
  | _, _ => False
  end.
Proof.
  intros Hv Hm Ha Hwf. unfold propagate_schema, reference_steps.
  set (w := for_shape s _). assert (Inv w) as HI by (by apply for_shape_Inv).
  pose proof (fold_tracks (propagate_step verification) (reference_step verification) step_wf
                steps (step_tracks verification) Hwf w HI) as Ht.
  change (inc_schema w) with s in Ht. unfold tracks in Ht.
  destruct (fold_result _ w steps) as [w'|e]; cbn [mbind result_bind].
  - destruct (foldl _ _ _) as [s2|]; [|done]. destruct Ht as [<- HI'].
    rewrite into_schema_Ok by done. split; [done|]. by destruct HI'.
  - by destruct (foldl _ _ _).
Qed.

(** The invariant alone needs no well-formedness of the steps. *)
Lemma propagate_rule_Inv verification w rule w' :
  Inv w -> propagate_rule verification w rule = Ok w' -> Inv w'.
Proof.
  intros HI Hw. destruct rule; try (by eapply apply_rule_Inv);
    cbn [propagate_rule] in Hw; destruct verification; simplify_eq; try done;
    by eapply apply_rule_Inv.
Qed.

Lemma fold_Inv {A} (f : IncrementalSchema -> A -> Eng IncrementalSchema) l :
  (forall w a w', Inv w -> f w a = Ok w' -> Inv w') ->
  forall w w', Inv w -> fold_result f w l = Ok w' -> Inv w'.
Proof.
  intros Hf. induction l as [|a l IH]; intros w w' HI Hw; cbn [fold_result] in Hw; [by simplify_eq|].
  peel Hw. eauto.
Qed.

Lemma project_with_sound {R} `{ColumnResolver R} (r : R) s cs s' :
  (forall c, resolve_column r c = schema_field s c) -> project_schema_with r cs = Ok s' ->
  NoDup cs /\ (forall c, c ∈ cs -> is_Some (schema_field s c)) /\
  s' = mkSchema LOGICAL_SCHEMA_VERSION (omap (schema_field s) cs) ∅ /\ ValidSchema s'.
Proof.
  intros Hres. rewrite (project_schema_with_eq r s Hres), bind_Ok. setoid_rewrite map_err_Ok.
  setoid_rewrite schema_new_Ok. intros ([seen out] & Hfold & -> & Hv). cbn [snd] in *.
  destruct (project_fold s cs ∅ [] out) as [(Hnd & Hall & ->) _]; [eauto|].
  split_and!; [done| |done|done]. intros d Hd. by apply Hall.
Qed.

Lemma propagate_step_Inv verification w step w' :
  Inv w -> propagate_step verification w step = Ok w' -> Inv w'.
Proof.
  intros HI Hw. destruct step; cbn [propagate_step] in Hw.
  - peel Hw. simplify_eq. apply (project_with_sound w (inc_schema w)) in Hx as (_ & _ & -> & Hv);
      [|intros; by apply inv_resolve].
    apply swap_with_Inv; [done|done|]. eapply selection_admitted; [apply (inv_flat w HI)|done].
  - peel Hw. by simplify_eq.
  - eapply fold_Inv; [|exact HI|exact Hw]. intros ???. apply propagate_rule_Inv.
  - by simplify_eq.
Qed.

Lemma propagate_sound verification s steps s' :
  ValidSchema s -> schema_metadata s = ∅ -> all_admitted s ->
  propagate_schema s steps verification = Ok s' -> ValidSchema s' /\ all_admitted s'.
Proof.
  intros Hv Hm Ha Hp. unfold propagate_schema in Hp. peel Hp.
  assert (Inv x) as HI.
  { eapply fold_Inv; [|by apply for_shape_Inv|exact Hx]. intros ???. apply propagate_step_Inv. }
  rewrite into_schema_Ok in Hp by done. simplify_eq. by destruct HI.
Qed.

Lemma apply_rule_schema_eq verification s s' rule :
  ValidSchema s -> schema_metadata s = ∅ -> all_admitted s -> rule_wf rule ->
  apply_rule_schema s rule verification = Ok s' <-> reference_rule verification s rule = Some s'.
Proof.
  intros Hv Hm Ha Hr. unfold apply_rule_schema.
  set (w := for_shape s _). assert (Inv w) as HI by (by apply for_shape_Inv).
  pose proof (rule_tracks verification w rule HI Hr) as Ht. change (inc_schema w) with s in Ht.
  destruct (match rule with RValidate _ _ _ | RDeduplicate _ => verification | _ => false end) eqn:Hv'.
  { destruct rule; try done; cbn [reference_rule]; rewrite Hv'; naive_solver. }
  assert (propagate_rule verification w rule = apply_rule w rule) as Heq
    by (destruct rule; try done; cbn [propagate_rule]; by rewrite Hv').
  rewrite Heq in Ht. unfold tracks in Ht.
  destruct (apply_rule w rule) as [w'|e], (reference_rule verification s rule); try done.
  cbn [mbind result_bind]. destruct Ht as [<- HI']. rewrite into_schema_Ok by done. naive_solver.
Qed.

(** ** Compilation of the inner nodes *)

Definition inner_nodes (linear : list (PlanNodeId * PlanNode)) : list (PlanNodeId * PlanNode) :=
  take (length linear - 2) (drop 1 linear).

Lemma compile_fold verification target l : forall offset st st',
  fold_result (fun (st : list CompiledStep * list CompiledStep) '(position, entry) =>
    step ← compile_node verification entry;
    let in_preview := match target with
                      | Some index => (position <=? index)%nat
                      | None => false
                      end in
    Ok (st.1 ++ [step], if in_preview then st.2 ++ [step] else st.2)) st
    (imap (fun i e => (offset + i, e)) l) = Ok st' ->
  exists compiled, Forall2 (fun e step => compile_node verification e = Ok step) l compiled /\
    st'.1 = st.1 ++ compiled /\
    st'.2 = st.2 ++ match target with Some index => take (S index - offset) compiled | None => [] end.
Proof.
  induction l as [|e l IH]; intros offset st st' Hf; cbn [imap fold_result] in Hf.
  - simplify_eq. exists []. rewrite app_nil_r. split_and!; [constructor|done|].
    destruct target; by rewrite ?take_nil, app_nil_r.
  - peel Hf. peel Hx. rename x0 into step. injection Hx as <-.
    rewrite (imap_ext _ (fun i e => (S offset + i, e))) in Hf by (intros; unfold compose; f_equal; lia).
    apply IH in Hf as (compiled & Hall & H1 & H2). cbn [fst snd] in *.
    exists (step :: compiled). split_and!; [by constructor|by rewrite H1, <- app_assoc|].
    rewrite H2. destruct target as [index|]; [|done].
    rewrite Nat.add_0_r. destruct (Nat.leb_spec offset index) as [Hle|Hgt].
    + rewrite <- app_assoc. f_equal. replace (S index - offset) with (S (S index - S offset)) by lia. done.
    + replace (S index - offset) with 0 by lia. replace (S index - S offset) with 0 by lia. done.
Qed.

Lemma take_imap {A B} (f : nat -> A -> B) n : forall l, take n (imap f l) = imap f (take n l).
Proof.
  revert f. induction n as [|n IH]; intros f [|x l]; try done. cbn [imap take]. by rewrite IH.
Qed.

Lemma imap_pair_inner (linear : list (PlanNodeId * PlanNode)) n :
  take n (drop 1 (imap pair linear)) = imap (fun i e => (1 + i, e)) (take n (drop 1 linear)).
Proof.
  destruct linear as [|e l]; [by destruct n|]. cbn [imap drop]. by rewrite drop_0, take_imap.
Qed.

Lemma compile_inner_Ok verification target linear all preview :
  compile_inner verification target linear = Ok (all, preview) ->
  Forall2 (fun e step => compile_node verification e = Ok step) (inner_nodes linear) all /\
  preview = match target with Some index => take index all | None => [] end.
Proof.
  unfold compile_inner, inner_nodes. rewrite imap_pair_inner. intros Hf.
  apply compile_fold in Hf as (compiled & Hall & H1 & H2). cbn in H1, H2. subst.
  destruct target; [|done]. by rewrite Nat.sub_0_r.
Qed.

(** ** What a prepared plan promises *)

(** Temporal parses have a temporal target (validation does not ask it). *)
Definition temporal_step (step : CompiledStep) : Prop :=
  match step with StepRules rules => Forall rule_wf rules | _ => True end.

Lemma compiled_step_wf plan verification linear all :
  PlanOk plan -> (forall v n, (v, n) ∈ linear -> nodes plan !! v = Some n) ->
  Forall2 (fun e step => compile_node verification e = Ok step) linear all ->
  Forall temporal_step all -> Forall step_wf all.
Proof.
  intros Hok Hl Hall Ht. induction Hall as [|[v n] step linear all Hc Hall IH]; [constructor|].
  apply Forall_cons in Ht as [Ht Hts]. constructor; [|apply IH; [|done]; intros; apply Hl; by right].
  assert (NodeOk n) as [_ Hk]
    by (eapply (plan_ok_nodes plan Hok); apply (Hl v); left).
  unfold compile_node in Hc. destruct (kind n); simplify_eq; try done.
  - by destruct Hk.
  - destruct (_ || _); [done|]. peel Hc. by simplify_eq.
Qed.

Record PreparedOk (plan : LogicalPlan) (preview_target : option PlanNodeId) (verification : bool)
  (source : LogicalSchema) (p : PreparedPlan) : Prop := {
  prepared_plan : PlanOk plan;
  (** The scan's projection resolves in the source schema; the projected
      schema is what the connector is asked for, or what is computed. *)
  prepared_projection : NoDup (scan_projection p) /\
    forall c, c ∈ scan_projection p -> is_Some (schema_field source c);
  prepared_output :
    scan_output p = mkSchema LOGICAL_SCHEMA_VERSION (omap (schema_field source) (scan_projection p)) ∅;
  prepared_expected : expected_connector p = if push_projection p then scan_output p else source;
  (** The steps are the nodes of the one path, in order. *)
  prepared_steps : exists linear scan asset predicate inner,
    linearize plan = Ok linear /\
    head linear = Some scan /\ kind scan.2 = Scan asset (scan_projection p) predicate /\
    fst <$> last linear = Some (materialize_id p) /\ materialize_id p = root plan /\
    Forall2 (fun e step => compile_node verification e = Ok step) (inner_nodes linear) inner /\
    steps p = scan_steps (push_projection p) (scan_projection p) predicate ++ inner /\
    match preview_target with
    | None => target_steps p = steps p /\ target_schema p = materialize_schema p
    | Some target => exists index node, linear !! index = Some (target, node) /\
        index < length linear - 1 /\
        target_steps p =
          scan_steps (push_projection p) (scan_projection p) predicate ++ take index inner
    end;
  (** Every schema on the way is valid and executable. *)
  prepared_valid : Forall (fun s => ValidSchema s /\ all_admitted s)
    [scan_output p; materialize_schema p; target_schema p];
  prepared_source : all_admitted source;
}.
(** The schemas announced are those of the reference semantics. *)
Definition announces_reference (verification : bool) (p : PreparedPlan) : Prop :=
  reference_steps verification (scan_output p) (steps p) = Some (materialize_schema p) /\
  reference_steps verification (scan_output p) (target_steps p) = Some (target_schema p).

Lemma preflight_gates_Ok hash_iter `{!HashIter hash_iter} env plan verification :
  preflight_gates hash_iter env plan verification = Ok tt -> PlanOk plan.
Proof.
  unfold preflight_gates. intros Hg. peel Hg.
  destruct (remaining env) as [time|]; [destruct (ENGINE_MAX_DEADLINE <? time)%N; [done|]|];
    peel Hg; peel Hg; apply map_err_Ok in Hx1; destruct x1; by apply plan_validate_Ok in Hx1.
Qed.

Lemma reject_paused_schema_Ok s u : reject_paused_schema s = Ok u <-> all_admitted s.
Proof.
  unfold reject_paused_schema, all_admitted, admitted, engine_reject_paused_type.
  rewrite each_Ok. apply Forall_iff. intros f. by rewrite map_err_Ok.
Qed.

Lemma authorized_source_Ok env override s :
  authorized_source_schema env override = Ok s ->
  ValidSchema s /\ match override with Some s' => s = s' | None => inspect env = Ok s end.
Proof.
  unfold authorized_source_schema. intros Hs. destruct override as [s'|].
  - peel Hs. apply map_err_Ok in Hx. destruct x. apply validate_exact in Hx. by simplify_eq.
  - peel Hs. peel Hs. peel Hs. peel Hs. apply map_err_Ok in Hx2. destruct x2.
    apply validate_exact in Hx2. by simplify_eq.
Qed.

Lemma target_position_Ok linear target index :
  target_position linear target = Ok index ->
  exists node, linear !! index = Some (target, node) /\ index < length linear - 1.
Proof.
  unfold target_position. intros Ht. peel Ht. apply ok_or_Ok, fmap_Some in Hx as ([i [v n]] & Hf & ->).
  apply list_find_Some in Hf as (Hl & Hv & _). cbn in *. subst v.
  destruct (Nat.eqb_spec i (length linear - 1)) as [|Hne]; [done|].
  rewrite Hl in Ht. apply lookup_lt_Some in Hl as Hlt.
  exists n. destruct (kind n); simplify_eq; split; try done; lia.
Qed.

Lemma reference_announced verification s l s' :
  ValidSchema s -> schema_metadata s = ∅ -> all_admitted s -> Forall step_wf l ->
  propagate_schema s l verification = Ok s' -> reference_steps verification s l = Some s'.
Proof.
  intros Hv Hm Ha Hwf Hp. pose proof (propagate_tracks verification s l Hv Hm Ha Hwf) as Ht.
  rewrite Hp in Ht. destruct (reference_steps _ _ _); [|done]. by destruct Ht as [-> _].
Qed.

Lemma scan_steps_wf push projection predicate :
  projection <> [] -> Forall step_wf (scan_steps push projection predicate).
Proof. intros Hne. destruct push, predicate; repeat constructor; done. Qed.

Tactic Notation "peel_as" hyp(H) simple_intropattern(p) simple_intropattern(E) :=
  apply bind_Ok in H as (p & E & H).

(** The parts a successful run has in hand, assembled. *)
Section assemble.
Context (plan : LogicalPlan) (target : option PlanNodeId) (verification : bool).
Context (source output expected mat tschema : LogicalSchema) (push : bool).
Context (linear : list (PlanNodeId * PlanNode)) (index : option nat) (scan fin : PlanNodeId * PlanNode).
Context (asset : Uuid) (projection : list ColumnId) (predicate : option Expr).
Context (inner preview tsteps : list CompiledStep).
Let lookup := authorized_for_shape source (projection_served_lookups projection push).
Let own := scan_steps push projection predicate.
Context (Hplan : PlanOk plan) (Hlin : linearize plan = Ok linear).
Context (Hindex : match target with
                  | Some target => Some <$> target_position linear target
                  | None => Ok None
                  end = Ok index).
Context (Hhead : head linear = Some scan) (Hkind : kind scan.2 = Scan asset projection predicate).
Context (Hlast : last linear = Some fin).
Context (Hinner : compile_inner verification index linear = Ok (inner, preview)).
Context (Hsrc : all_admitted source) (Hv : ValidSchema source).
Context (Hexp : (if push then project_schema_with lookup projection else Ok source) = Ok expected).
Context (Hout : project_schema_with lookup projection = Ok output) (Hoa : all_admitted output).
Context (Hmat : propagate_schema output (own ++ inner) verification = Ok mat).
Context (Htarget : match target with
                   | Some _ =>
                       schema ← propagate_schema output (own ++ preview) verification;
                       try! reject_paused_schema schema;
                       Ok (own ++ preview, schema)
                   | None => Ok (own ++ inner, mat)
                   end = Ok (tsteps, tschema)).

Lemma assemble_target :
  propagate_schema output tsteps verification = Ok tschema /\
  match target with
  | None => index = None /\ tsteps = own ++ inner /\ tschema = mat
  | Some target => exists i node, index = Some i /\ linear !! i = Some (target, node) /\
      i < length linear - 1 /\ tsteps = own ++ take i inner
  end.
Proof.
  apply compile_inner_Ok in Hinner as [_ Hpre]. destruct target as [v|].
  - apply fmap_Ok in Hindex as (i & Hi & <-). apply target_position_Ok in Hi as (node & Hn & Hlt).
    peel_as Htarget s Hs. peel_as Htarget u Hu. injection Htarget as <- <-. subst preview.
    split; [done|]. eauto 10.
  - injection Hindex as <-. by injection Htarget as <- <-.
Qed.

Lemma assemble (p := mkPrepared push projection expected output mat (own ++ inner) tsteps tschema fin.1) :
  PreparedOk plan target verification source p /\ (Forall temporal_step (steps p) -> announces_reference verification p).
Proof.
  destruct (linearize_Ok plan linear Hlin) as (v & n & Hh & _ & [_ Hnodes _ _ Hroot] & _).
  destruct assemble_target as [Htp Htgt]. pose proof (compile_inner_Ok _ _ _ _ _ Hinner) as [Hall _].
  assert (forall c, resolve_column lookup c = schema_field source c) as Hres
    by (intros c; apply authorized_lookup_eq, Hv).
  pose proof (project_with_sound lookup source projection output Hres Hout) as (Hnd & Hsome & Heq & Hov).
  assert (schema_metadata output = ∅) as Hom by (by rewrite Heq).
  assert (projection <> []) as Hne.
  { rewrite Hh in Hhead. injection Hhead as <-. cbn in Hkind.
    assert (NodeOk n) as [_ Hk].
    { eapply (plan_ok_nodes plan Hplan). apply (Hnodes v).
      apply head_Some_elem_of in Hh. done. }
    rewrite Hkind in Hk. by destruct Hk as (_ & [? _] & _). }
  split; [split; cbn [p push_projection scan_projection expected_connector scan_output materialize_schema
    steps target_steps target_schema materialize_id]; try done|].
  - destruct push; congruence.
  - exists linear, scan, asset, predicate, inner. rewrite Hlast in Hroot |- *.
    injection Hroot as Hroot. split_and!; try done.
    destruct target; [|by destruct Htgt as (_ & -> & ->)]. destruct Htgt as (i & node & _ & ? & ? & ?). eauto.
  - rewrite !Forall_cons. split_and!; try done; eapply propagate_sound; done.
  - unfold announces_reference. cbn [p steps scan_output materialize_schema target_steps target_schema]. intros Ht. apply Forall_app in Ht as [_ Ht].
    assert (Forall step_wf inner) as Hwf.
    { eapply (compiled_step_wf plan); [done| |exact Hall|done]. intros w m Hin.
      apply Hnodes. unfold inner_nodes in Hin. 
      apply list_elem_of_lookup in Hin as [i Hi]. apply lookup_take_Some in Hi as [Hi _].
      rewrite lookup_drop in Hi. by eapply list_elem_of_lookup_2. }
    assert (Forall step_wf own) as Hown by by apply scan_steps_wf.
    split; (eapply reference_announced; [done..| |done]); [by apply Forall_app|].
    destruct target; [destruct Htgt as (i & node & _ & _ & _ & ->)|destruct Htgt as (_ & -> & _)];
      apply Forall_app; split; try done. by apply Forall_take.
Qed.
End assemble.

Section prepared.
Context (hash_iter : gmap PlanNodeId N -> list (PlanNodeId * N)) `{!HashIter hash_iter}.

Lemma preflight_Ok env plan override target verification authorized push_override p :
  (forall s, authorized = Some s -> ValidSchema s) ->
  preflight_inner_with_schema hash_iter env plan override target verification authorized
    push_override = Ok p ->
  exists source, ValidSchema source /\
    match authorized with
    | Some s => source = s
    | None => match override with Some s => source = s | None => inspect env = Ok source end
    end /\ PreparedOk plan target verification source p /\
    (Forall temporal_step (steps p) -> announces_reference verification p).
Proof.
  intros Hauth Hp. unfold preflight_inner_with_schema in Hp.
  peel_as Hp [] Hgates. apply (preflight_gates_Ok hash_iter) in Hgates as Hplan.
  peel_as Hp linear Hlin. peel_as Hp index Hindex.
  peel_as Hp scan Hhead. apply ok_or_Ok in Hhead. peel_as Hp [projection predicate] Hscan.
  peel_as Hp fin Hlast. apply ok_or_Ok in Hlast. peel_as Hp [] _. peel_as Hp [] _.
  peel_as Hp caps _. peel_as Hp [] _. cbv zeta in Hp. set (push := default _ _) in *.
  peel_as Hp [inner preview] Hinner. peel_as Hp source Hsource.
  peel_as Hp [] Hsrc. apply reject_paused_schema_Ok in Hsrc. peel_as Hp [] _. cbn [fst snd] in *.
  peel_as Hp expected Hexp. peel_as Hp output Hout.
  peel_as Hp [] Hoa. apply reject_paused_schema_Ok in Hoa.
  peel_as Hp mat Hmat. peel_as Hp [] _. peel_as Hp [tsteps tschema] Htarget. injection Hp as <-.
  assert (ValidSchema source /\ match authorized with
    | Some s => source = s
    | None => match override with Some s => source = s | None => inspect env = Ok source end
    end) as [Hv Hid].
  { destruct authorized as [s|]; [injection Hsource as <-; eauto|]. by apply authorized_source_Ok. }
  exists source. split; [done|]. split; [done|].
  assert (exists asset, kind scan.2 = Scan asset projection predicate) as [asset Hkind].
  { destruct (kind scan.2); try done. peel_as Hscan [] _. injection Hscan as -> ->. eauto. }
  by eapply assemble.
Qed.
End prepared.

(** ** Claims *)

Definition pf_plan : LogicalPlan := mkPlan 1 4%N
  (<[4%N := mkPlanNode [3%N] (Materialize "out")]>
  (<[3%N := mkPlanNode [2%N] (Sort [mkSortKey 2%N Descending NullsLast])]>
  (<[2%N := mkPlanNode [1%N] (ApplyRules [sem_rule; RDropColumn 1%N])]>
  (<[1%N := mkPlanNode [] (Scan 100%N [1%N; 2%N]
       (Some (Binary (Column 1%N) GreaterThan (Literal (SInt64 0)))))]> ∅)))).

Definition pf_env : Environment := mkEnvironment (Ok tt) (Some 1000%N) true 7%N LocalFile 100%N 7%N
  (Ok (mkCapabilities (Ok tt) true)) (Ok sem_schema).

(** Linearisation succeeds only on a plan that is one path: the result
    lists every node of the plan exactly once, starts at a scan, ends at the
    root, and every node's only input is the node before it.  The walk never
    runs out of nodes: its loop always terminates. *)
Theorem linearize_correct (plan : LogicalPlan) :
  linearize plan <> Err (EngineError.Internal "unreachable") /\
  forall path, linearize plan = Ok path ->
  path ≡ₚ map_to_list (nodes plan) /\
  exists scan node, head path = Some (scan, node) /\ is_scan (kind node) = true /\
    LinearPath plan scan path.
Proof.
  split; [apply linearize_total|]. intros path Hp.
  destruct (linearize_Ok plan path Hp) as (scan & node & ? & ? & ? & ?). eauto 10.
Qed.

Lemma linearize_correct_witness :
  exists path, linearize pf_plan = Ok path /\ path.*1 = [1; 2; 3; 4]%N /\
    path ≡ₚ map_to_list (nodes pf_plan).
Proof.
  eexists. split; [vm_compute; reflexivity|]. split; [reflexivity|].
  apply (linearize_correct pf_plan). vm_compute. reflexivity.
Defined.

(** Schema propagation refines the shared semantics.  From any valid,
    executable schema, propagating a list of steps through the incremental
    state (with its ordinal table, text counter and in-place edits)
    succeeds exactly when folding the reference analyser over the steps
    does, and gives the same schema, which is valid and executable.  The
    steps are those of validated plans ([step_wf]).  The one-rule entry
    point [apply_rule_schema] agrees with the reference in the same way. *)
Theorem propagate_schema_refines (verification : bool) (s s' : LogicalSchema)
  (l : list CompiledStep) :
  ValidSchema s -> schema_metadata s = ∅ -> all_admitted s -> Forall step_wf l ->
  (propagate_schema s l verification = Ok s' <-> reference_steps verification s l = Some s') /\
  (propagate_schema s l verification = Ok s' -> ValidSchema s' /\ all_admitted s') /\
  (forall rule, rule_wf rule ->
   apply_rule_schema s rule verification = Ok s' <-> reference_rule verification s rule = Some s').
Proof.
  intros Hv Hm Ha Hwf. split; [|split; [by apply propagate_sound|]].
  2:{ intros rule Hr. by apply apply_rule_schema_eq. }
  pose proof (propagate_tracks verification s l Hv Hm Ha Hwf) as Ht.
  destruct (propagate_schema _ _ _), (reference_steps _ _ _); try done.
  destruct Ht as [-> _]. naive_solver.
Qed.

Lemma propagate_schema_refines_witness :
  reference_steps false sem_schema [StepRules [sem_rule; RDropColumn 1%N]; StepProject [3%N]] =
  Some (mkSchema 1%N [mkField 3%N "derived" TUtf8 true ∅] ∅).
Proof.
  apply propagate_schema_refines; [|reflexivity|..|vm_compute; reflexivity].
  - apply validate_exact. vm_compute. reflexivity.
  - repeat constructor; vm_compute; reflexivity.
  - repeat constructor. done.
Defined.

(** C36: what preflight promises.  Whenever preflight accepts a plan, the
    plan is valid and linear, the scan projection resolves in the source
    schema, the steps are the plan's nodes in path order (those of a preview
    being the prefix up to the target), and every announced schema is valid
    and executable.  If, further, every temporal parse of the plan has a
    temporal target, which preflight does not ask
    ([parse_temporal_target_unchecked]), the announced schemas are those that
    the reference semantics computes.  Nothing is said of the keys of a sort:
    preflight does not resolve them ([unknown_sort_key_accepted]). *)
Theorem preflight_sound (hash_iter : gmap PlanNodeId N -> list (PlanNodeId * N))
  (env : Environment) (plan : LogicalPlan) (schema_override : option LogicalSchema)
  (preview_target : option PlanNodeId) (p : PreparedPlan) :
  HashIter hash_iter -> preflight hash_iter env plan schema_override preview_target = Ok p ->
  exists source, ValidSchema source /\
    match schema_override with Some s => source = s | None => inspect env = Ok source end /\
    PreparedOk plan preview_target false source p /\
    (Forall temporal_step (steps p) ->
     reference_steps false (scan_output p) (steps p) = Some (materialize_schema p) /\
     reference_steps false (scan_output p) (target_steps p) = Some (target_schema p)).
Proof.
  intros Hh Hp.
  by apply (preflight_Ok hash_iter env plan schema_override preview_target false None None p).
Qed.

Lemma preflight_sound_witness :
  exists p source, preflight map_to_list pf_env pf_plan None (Some 2%N) = Ok p /\
    PreparedOk pf_plan (Some 2%N) false source p /\
    reference_steps false (scan_output p) (target_steps p) = Some (target_schema p).
Proof.
  eexists. edestruct (preflight_sound map_to_list pf_env pf_plan None (Some 2%N))
    as (source & _ & _ & Hok & Href); [apply map_to_list_hash_iter|vm_compute; reflexivity|].
  exists source. split; [vm_compute; reflexivity|]. split; [exact Hok|]. apply Href. repeat constructor.
Defined.

(** A plan that sorts by a column it has dropped is accepted; the sort
    itself refuses the key when the plan runs. *)
Definition dropped_key_plan : LogicalPlan := mkPlan 1 4%N
  (<[4%N := mkPlanNode [3%N] (Materialize "out")]>
  (<[3%N := mkPlanNode [2%N] (Sort [mkSortKey 1%N Descending NullsLast])]>
  (<[2%N := mkPlanNode [1%N] (ApplyRules [RDropColumn 1%N])]>
  (<[1%N := mkPlanNode [] (Scan 100%N [1%N; 2%N] None)]> ∅)))).
Example unknown_sort_key_accepted :
  (fun p => id <$> fields (materialize_schema p)) <$> preflight map_to_list pf_env dropped_key_plan None None = Ok [2%N].
Proof. vm_compute. reflexivity. Qed.
