(* ===== verification/Memory.v ===== *)
(** * Memory accounting: [stillflow-engine/src/memory.rs]

    The byte tracker of an engine run.  The process-wide allocator statistics
    (phase and per-phase peaks) are the record [Allocator]; outside tests the
    peaks have no writer but the reset.  An operation returns its result and
    the state it leaves behind, also when it fails. *)

From S2P Require Import Prelude Text Logical Expression Semantics Plan Typing Preflight.

Definition MAX_BATCH_BYTES : N := 64 * 1024 * 1024.
Definition MAX_LIVE_COLUMNAR_PAYLOADS : N := 3.
Definition MAX_FFI_SCRATCH_BYTES : N := 1024 * 1024.
Definition MAX_OPERATOR_STATE_BYTES : N := MAX_COMPILED_PLAN_BYTES + MAX_FFI_SCRATCH_BYTES.
Definition MAX_ENGINE_PEAK_BYTES : N :=
  MAX_LIVE_COLUMNAR_PAYLOADS * MAX_BATCH_BYTES + MAX_OPERATOR_STATE_BYTES.

Inductive AllocatorPhase := Idle | Polars | Remainder | StorageAppend.

Record Allocator := mkAllocator {
  global_phase : AllocatorPhase;
  polars_peak : N;
  remainder_peak : N;
  storage_peak : N;
}.
Definition set_alloc_phase (a : Allocator) (phase : AllocatorPhase) : Allocator :=
  mkAllocator phase (polars_peak a) (remainder_peak a) (storage_peak a).
(** [enter_phase] and the drop of its guard. *)
Definition enter_phase (a : Allocator) (phase : AllocatorPhase) : Allocator * AllocatorPhase :=
  (set_alloc_phase a phase, global_phase a).
Definition drop_guard (a : Allocator) (previous : AllocatorPhase) : Allocator :=
  set_alloc_phase a previous.
Definition reset_alloc_peaks : Allocator := mkAllocator Idle 0 0 0.

Record MemoryReport := mkReport {
  peak_engine_bytes : N;
  peak_live_payloads : N;
  polars_phase_peak : N;
  remainder_phase_peak : N;
  storage_append_phase_peak : N;
  chunk_count : N;
  min_chunk_rows : N;
  saw_split_envelope_with_remainder : bool;
}.
Definition empty_report : MemoryReport := mkReport 0 0 0 0 0 0 0 false.

Record MemoryTracker := mkTracker {
  envelope_bytes : N;
  working_bytes : N;
  remainder_bytes : N;
  operator_state_bytes : N;
  peak_limit : N;
  envelope_live : bool;
  polars_live : bool;
  incoming_live : bool;
  remainder_live : bool;
  report : MemoryReport;
  allocator : Allocator;
}.

Definition with_peak_limit (limit : N) : MemoryTracker :=
  mkTracker 0 0 0 MAX_OPERATOR_STATE_BYTES limit false false false false empty_report
    reset_alloc_peaks.
Definition PREVIEW_RESPONSE_MAX_BYTES : N := 50 * 1024 * 1024.
Definition PREVIEW_PEAK_ENGINE_BYTES : N :=
  MAX_BATCH_BYTES + MAX_BATCH_BYTES + PREVIEW_RESPONSE_MAX_BYTES + MAX_OPERATOR_STATE_BYTES.
Definition new_preview : MemoryTracker := with_peak_limit PREVIEW_PEAK_ENGINE_BYTES.
Definition tracker_new : MemoryTracker := with_peak_limit MAX_ENGINE_PEAK_BYTES.

Definition with_report (t : MemoryTracker) (r : MemoryReport) : MemoryTracker :=
  mkTracker (envelope_bytes t) (working_bytes t) (remainder_bytes t) (operator_state_bytes t)
    (peak_limit t) (envelope_live t) (polars_live t) (incoming_live t) (remainder_live t) r
    (allocator t).
Definition with_envelope (t : MemoryTracker) (live : bool) (bytes : N) : MemoryTracker :=
  mkTracker bytes (working_bytes t) (remainder_bytes t) (operator_state_bytes t)
    (peak_limit t) live (polars_live t) (incoming_live t) (remainder_live t) (report t)
    (allocator t).
Definition with_working (t : MemoryTracker) (polars incoming : bool) (bytes : N) : MemoryTracker :=
  mkTracker (envelope_bytes t) bytes (remainder_bytes t) (operator_state_bytes t)
    (peak_limit t) (envelope_live t) polars incoming (remainder_live t) (report t) (allocator t).
Definition with_remainder (t : MemoryTracker) (live : bool) (bytes : N) : MemoryTracker :=
  mkTracker (envelope_bytes t) (working_bytes t) bytes (operator_state_bytes t)
    (peak_limit t) (envelope_live t) (polars_live t) (incoming_live t) live (report t) (allocator t).
Definition with_phase (t : MemoryTracker) (phase : AllocatorPhase) : MemoryTracker :=
  mkTracker (envelope_bytes t) (working_bytes t) (remainder_bytes t) (operator_state_bytes t)
    (peak_limit t) (envelope_live t) (polars_live t) (incoming_live t) (remainder_live t) (report t)
    (set_alloc_phase (allocator t) phase).

Definition as_u8 (b : bool) : N := if b then 1 else 0.
Definition live_payloads (t : MemoryTracker) : N :=
  as_u8 (envelope_live t) + as_u8 (polars_live t || incoming_live t) + as_u8 (remainder_live t).
Definition engine_bytes (t : MemoryTracker) : N :=
  saturating_add (saturating_add (saturating_add (envelope_bytes t) (working_bytes t))
    (remainder_bytes t)) (operator_state_bytes t).

Definition peak_exceeded : EngineError.EngineError :=
  EngineError.BoundExceeded "engine live columnar payloads or peak bytes exceeded".
Definition live_payload_guard (live : N) : Eng unit :=
  if (MAX_LIVE_COLUMNAR_PAYLOADS <? live)%N then Err peak_exceeded else Ok tt.

(** An operation on the tracker: its result and the state afterwards. *)
Notation Tracked := (Eng unit * MemoryTracker)%type.

(** The allocator peaks folded into a report. *)
Definition overlay_report (a : Allocator) (operator_state : N) (r : MemoryReport) : MemoryReport :=
  mkReport
    (N.max (peak_engine_bytes r)
       (saturating_add operator_state (saturating_add (polars_peak a) (remainder_peak a))))
    (peak_live_payloads r)
    (N.max (polars_phase_peak r) (polars_peak a))
    (N.max (remainder_phase_peak r) (remainder_peak a))
    (N.max (storage_append_phase_peak r) (storage_peak a))
    (chunk_count r) (min_chunk_rows r) (saw_split_envelope_with_remainder r).
Definition tracker_report (t : MemoryTracker) : MemoryReport :=
  overlay_report (allocator t) (operator_state_bytes t) (report t).

Definition refresh_tracker (t : MemoryTracker) : Tracked :=
  if polars_live t && incoming_live t then (Err peak_exceeded, t) else
  let live := live_payloads t in
  match live_payload_guard live with
  | Err e => (Err e, t)
  | Ok _ =>
      let bytes := engine_bytes t in
      if (peak_limit t <? bytes)%N then (Err peak_exceeded, t) else
      let r := report t in
      let r := mkReport (N.max (peak_engine_bytes r) bytes) (N.max (peak_live_payloads r) live)
                 (polars_phase_peak r) (remainder_phase_peak r) (storage_append_phase_peak r)
                 (chunk_count r) (min_chunk_rows r) (saw_split_envelope_with_remainder r) in
      (Ok tt, with_report t (overlay_report (allocator t) (operator_state_bytes t) r))
  end.

Definition hold_envelope (t : MemoryTracker) (bytes : N) : Tracked :=
  refresh_tracker (with_envelope t true bytes).
Definition drop_envelope (t : MemoryTracker) : Tracked :=
  refresh_tracker (with_envelope t false 0).
Definition hold_polars (t : MemoryTracker) (bytes : N) : Tracked :=
  if (MAX_BATCH_BYTES <? bytes)%N
  then (Err (EngineError.Internal "polars working set exceeded MAX_BATCH_BYTES"), t)
  else refresh_tracker (with_working (with_phase t Polars) true false bytes).
Definition drop_polars (t : MemoryTracker) : Tracked :=
  refresh_tracker (with_working t false (incoming_live t)
                     (if incoming_live t then working_bytes t else 0%N)).
Definition hold_incoming (t : MemoryTracker) (bytes : N) : Tracked :=
  if (MAX_BATCH_BYTES <? bytes)%N
  then (Err (EngineError.BoundExceeded "incoming canonical chunk exceeds MAX_BATCH_BYTES"), t)
  else refresh_tracker (with_working t false (0 <? bytes)%N bytes).
Definition drop_incoming (t : MemoryTracker) : Tracked :=
  refresh_tracker (with_working t (polars_live t) false 0).
Definition hold_remainder (t : MemoryTracker) (bytes : N) : Tracked :=
  if (MAX_BATCH_BYTES <? bytes)%N
  then (Err (EngineError.BoundExceeded "canonical remainder exceeded MAX_BATCH_BYTES"), t)
  else refresh_tracker (with_remainder t (0 <? bytes)%N bytes).

Definition pre_check_realloc_peak (t : MemoryTracker) (transient_peak superseded_builder_bytes : N)
  : Eng unit :=
  let projected := saturating_add (saturating_sub (engine_bytes t) superseded_builder_bytes)
                     transient_peak in
  if (peak_limit t <? projected)%N then Err peak_exceeded else Ok tt.

Definition record_chunk (t : MemoryTracker) (rows : N) (remainder_live : bool) : MemoryTracker :=
  let r := report t in
  with_report t (mkReport (peak_engine_bytes r) (peak_live_payloads r) (polars_phase_peak r)
    (remainder_phase_peak r) (storage_append_phase_peak r)
    (saturating_add (chunk_count r) 1)
    (if ((min_chunk_rows r =? 0) || (rows <? min_chunk_rows r))%N then rows else min_chunk_rows r)
    (saw_split_envelope_with_remainder r
     || (remainder_live && envelope_live t && polars_live t))).

(** ** Runs of operations *)

Inductive MemoryOp :=
| HoldEnvelope (bytes : N) | DropEnvelope
| HoldPolars (bytes : N) | DropPolars
| HoldIncoming (bytes : N) | DropIncoming
| HoldRemainder (bytes : N)
| RecordChunk (rows : N) (remainder_live : bool).

Definition apply_op (t : MemoryTracker) (op : MemoryOp) : Tracked :=
  match op with
  | HoldEnvelope bytes => hold_envelope t bytes
  | DropEnvelope => drop_envelope t
  | HoldPolars bytes => hold_polars t bytes
  | DropPolars => drop_polars t
  | HoldIncoming bytes => hold_incoming t bytes
  | DropIncoming => drop_incoming t
  | HoldRemainder bytes => hold_remainder t bytes
  | RecordChunk rows remainder_live => (Ok tt, record_chunk t rows remainder_live)
  end.

(** A run is a sequence of operations that all succeed: the engine
    propagates the first error. *)
Inductive reaches : MemoryTracker -> MemoryTracker -> Prop :=
| reaches_refl t : reaches t t
| reaches_step t op t' t'' : apply_op t op = (Ok tt, t') -> reaches t' t'' -> reaches t t''.

(** What holds between operations. *)
Record Accounted (t : MemoryTracker) : Prop := {
  acc_operator : operator_state_bytes t = MAX_OPERATOR_STATE_BYTES;
  acc_exclusive : polars_live t && incoming_live t = false;
  acc_envelope : envelope_live t = false -> envelope_bytes t = 0%N;
  acc_working : polars_live t || incoming_live t = false -> working_bytes t = 0%N;
  acc_remainder : remainder_live t = false -> remainder_bytes t = 0%N;
  acc_working_bound : (working_bytes t <= MAX_BATCH_BYTES)%N;
  acc_remainder_bound : (remainder_bytes t <= MAX_BATCH_BYTES)%N;
  acc_limit : (engine_bytes t <= peak_limit t)%N;
  acc_quiet : allocator t = mkAllocator (global_phase (allocator t)) 0 0 0;
  acc_report : (peak_engine_bytes (report t) <= peak_limit t)%N;
}.

Lemma saturating_add_le a b c : (a + b <= c -> saturating_add a b <= c)%N.
Proof. unfold saturating_add. lia. Qed.

Lemma live_payloads_le t : (live_payloads t <= MAX_LIVE_COLUMNAR_PAYLOADS)%N.
Proof.
  unfold live_payloads, as_u8, MAX_LIVE_COLUMNAR_PAYLOADS. repeat case_match; lia.
Qed.

Lemma engine_bytes_state t :
  operator_state_bytes t = MAX_OPERATOR_STATE_BYTES ->
  (MAX_OPERATOR_STATE_BYTES <= engine_bytes t)%N.
Proof.
  unfold engine_bytes, saturating_add. intros ->. unfold usize_max.
  assert (MAX_OPERATOR_STATE_BYTES <= 2 ^ 64 - 1)%N by (vm_compute; done). lia.
Qed.

(** [refresh] decides on the total alone and moves only the report. *)
Lemma refresh_Ok t t' :
  refresh_tracker t = (Ok tt, t') <->
  polars_live t && incoming_live t = false /\ (engine_bytes t <= peak_limit t)%N /\
  t' = with_report t (overlay_report (allocator t) (operator_state_bytes t)
    (mkReport (N.max (peak_engine_bytes (report t)) (engine_bytes t))
       (N.max (peak_live_payloads (report t)) (live_payloads t))
       (polars_phase_peak (report t)) (remainder_phase_peak (report t))
       (storage_append_phase_peak (report t)) (chunk_count (report t)) (min_chunk_rows (report t))
       (saw_split_envelope_with_remainder (report t)))).
Proof.
  unfold refresh_tracker. destruct (_ && _); [naive_solver|].
  assert (live_payload_guard (live_payloads t) = Ok tt) as ->.
  { unfold live_payload_guard. pose proof (live_payloads_le t).
    by destruct (N.ltb_spec MAX_LIVE_COLUMNAR_PAYLOADS (live_payloads t)); [lia|]. }
  destruct (N.ltb_spec (peak_limit t) (engine_bytes t)).
  - split; [done|]. intros (_ & ? & _). lia.
  - naive_solver.
Qed.

Lemma refresh_Accounted t t' :
  operator_state_bytes t = MAX_OPERATOR_STATE_BYTES ->
  (envelope_live t = false -> envelope_bytes t = 0%N) ->
  (polars_live t || incoming_live t = false -> working_bytes t = 0%N) ->
  (remainder_live t = false -> remainder_bytes t = 0%N) ->
  (working_bytes t <= MAX_BATCH_BYTES)%N -> (remainder_bytes t <= MAX_BATCH_BYTES)%N ->
  allocator t = mkAllocator (global_phase (allocator t)) 0 0 0 ->
  (peak_engine_bytes (report t) <= peak_limit t)%N ->
  refresh_tracker t = (Ok tt, t') -> Accounted t'.
Proof.
  intros Ho He Hw Hr Hwb Hrb Ha Hrep (Hex & Hlim & ->)%refresh_Ok.
  pose proof (engine_bytes_state t Ho). split; cbn; try done.
  rewrite Ha, Ho. cbn. unfold saturating_add at 1. change (saturating_add 0 0) with 0%N. lia.
Qed.

Lemma apply_op_Accounted t op t' : Accounted t -> apply_op t op = (Ok tt, t') -> Accounted t'.
Proof.
  intros [Ho Hex He Hw Hr Hwb Hrb Hl Ha Hrep] Hop.
  destruct op as [b| |b| |b| |b|rows live]; cbn [apply_op] in Hop.
  - eapply refresh_Accounted; [..|exact Hop]; done.
  - eapply refresh_Accounted; [..|exact Hop]; done.
  - unfold hold_polars in Hop. destruct (N.ltb_spec MAX_BATCH_BYTES b); [done|].
    eapply refresh_Accounted; [..|exact Hop]; try done. cbn. by rewrite Ha.
  - eapply refresh_Accounted; [..|exact Hop]; try done; cbn [working_bytes with_working polars_live incoming_live].
    + by destruct (incoming_live t).
    + by destruct (incoming_live t).
  - unfold hold_incoming in Hop. destruct (N.ltb_spec MAX_BATCH_BYTES b); [done|].
    eapply refresh_Accounted; [..|exact Hop]; try done. cbn. intros. destruct (N.ltb_spec 0 b); [done|lia].
  - eapply refresh_Accounted; [..|exact Hop]; done.
  - unfold hold_remainder in Hop. destruct (N.ltb_spec MAX_BATCH_BYTES b); [done|].
    eapply refresh_Accounted; [..|exact Hop]; try done. cbn. intros. destruct (N.ltb_spec 0 b); [done|lia].
  - injection Hop as <-. by split.
Qed.

Lemma with_peak_limit_Accounted limit :
  (MAX_OPERATOR_STATE_BYTES <= limit)%N -> Accounted (with_peak_limit limit).
Proof.
  intros Hl. split; cbn [with_peak_limit operator_state_bytes polars_live incoming_live
    envelope_live envelope_bytes working_bytes remainder_live remainder_bytes peak_limit
    allocator report]; try done.
  etransitivity; [|exact Hl]. vm_compute. done.
Qed.

Lemma reaches_Accounted t t' : reaches t t' -> Accounted t -> Accounted t'.
Proof. induction 1; [done|]. eauto using apply_op_Accounted. Qed.

(** The peak law: the limit leaves room for the three payload slots. *)
Definition slot_bounded (t : MemoryTracker) : Prop := (envelope_bytes t <= MAX_BATCH_BYTES)%N.
Definition op_bytes (op : MemoryOp) : N :=
  match op with
  | HoldEnvelope b | HoldPolars b | HoldIncoming b | HoldRemainder b => b
  | _ => 0%N
  end.

Lemma refresh_fits t :
  operator_state_bytes t = MAX_OPERATOR_STATE_BYTES -> peak_limit t = MAX_ENGINE_PEAK_BYTES ->
  polars_live t && incoming_live t = false ->
  (envelope_bytes t <= MAX_BATCH_BYTES)%N -> (working_bytes t <= MAX_BATCH_BYTES)%N ->
  (remainder_bytes t <= MAX_BATCH_BYTES)%N ->
  exists t', refresh_tracker t = (Ok tt, t') /\ peak_limit t' = peak_limit t /\
    envelope_bytes t' = envelope_bytes t.
Proof.
  intros Ho Hp Hex He Hw Hr. eexists. rewrite refresh_Ok. split_and!; [done| |done|done|done].
  rewrite Hp. unfold engine_bytes. rewrite Ho. unfold MAX_ENGINE_PEAK_BYTES, MAX_LIVE_COLUMNAR_PAYLOADS.
  repeat (apply saturating_add_le || apply N.add_le_mono); try done; try lia.
  unfold saturating_add. lia.
Qed.

Lemma apply_op_fits t op :
  Accounted t -> peak_limit t = MAX_ENGINE_PEAK_BYTES -> slot_bounded t ->
  (op_bytes op <= MAX_BATCH_BYTES)%N ->
  exists t', apply_op t op = (Ok tt, t') /\ peak_limit t' = MAX_ENGINE_PEAK_BYTES /\ slot_bounded t'.
Proof.
  intros [Ho Hex He Hw Hr Hwb Hrb Hl Ha Hrep] Hp Hs Hb. unfold slot_bounded in *.
  assert (0 <= MAX_BATCH_BYTES)%N by lia.
  assert (forall u, operator_state_bytes u = MAX_OPERATOR_STATE_BYTES ->
    peak_limit u = MAX_ENGINE_PEAK_BYTES -> polars_live u && incoming_live u = false ->
    (envelope_bytes u <= MAX_BATCH_BYTES)%N -> (working_bytes u <= MAX_BATCH_BYTES)%N ->
    (remainder_bytes u <= MAX_BATCH_BYTES)%N ->
    exists t', refresh_tracker u = (Ok tt, t') /\ peak_limit t' = MAX_ENGINE_PEAK_BYTES /\
      (envelope_bytes t' <= MAX_BATCH_BYTES)%N) as Hfit.
  { intros u H1 H2 H3 H4 H5 H6. destruct (refresh_fits u) as (t' & Hok & Hl' & He'); [done..|].
    exists t'. by rewrite Hl', He'. }
  assert (forall b, (b <= MAX_BATCH_BYTES)%N -> (MAX_BATCH_BYTES <? b)%N = false) as Hltb
    by (intros; by apply N.ltb_ge).
  destruct op as [b| |b| |b| |b|rows live]; cbn [apply_op op_bytes] in *;
    unfold hold_polars, hold_incoming, hold_remainder; rewrite ?Hltb by done;
    try (apply Hfit; done).
  - apply Hfit; try done; cbn. by destruct (incoming_live t).
  - apply Hfit; try done; cbn. apply andb_false_r.
  - eexists. split; [done|]. by cbn.
Qed.

(** A whole run: [None] at the first error. *)
Fixpoint run_ops (t : MemoryTracker) (ops : list MemoryOp) : option MemoryTracker :=
  match ops with
  | [] => Some t
  | op :: ops =>
      match apply_op t op with
      | (Ok _, t') => run_ops t' ops
      | (Err _, _) => None
      end
  end.

Lemma run_ops_reaches ops : forall t t', run_ops t ops = Some t' -> reaches t t'.
Proof.
  induction ops as [|op ops IH]; intros t t' Hr; cbn [run_ops] in Hr; [simplify_eq; constructor|].
  destruct (apply_op t op) as [[[]|] t1] eqn:Hop; [|done]. econstructor; eauto.
Qed.

Lemma run_ops_fits ops : forall t,
  Accounted t -> peak_limit t = MAX_ENGINE_PEAK_BYTES -> slot_bounded t ->
  Forall (fun op => op_bytes op <= MAX_BATCH_BYTES)%N ops -> is_Some (run_ops t ops).
Proof.
  induction ops as [|op ops IH]; intros t Ha Hp Hs Hops; cbn [run_ops]; [eauto|].
  apply Forall_cons in Hops as [Hb Hops].
  destruct (apply_op_fits t op Ha Hp Hs Hb) as (t' & Hop & Hp' & Hs'). rewrite Hop.
  eauto using apply_op_Accounted.
Qed.

(** ** Claims *)

(** Accounting is sound.  In every state a run of successful operations
    reaches from a fresh tracker, the accounted bytes stay within the peak
    limit, the two views of the working slot are never live together, a slot
    that is not live has no bytes charged to it, the working and remainder
    slots stay within a batch, and the reported peak never exceeds the
    limit. *)
Theorem memory_accounting (limit : N) (ops : list MemoryOp) (t : MemoryTracker) :
  (MAX_OPERATOR_STATE_BYTES <= limit)%N -> run_ops (with_peak_limit limit) ops = Some t ->
  Accounted t.
Proof.
  intros Hl Hr. eapply reaches_Accounted; [by eapply run_ops_reaches|].
  by apply with_peak_limit_Accounted.
Qed.

Definition mem_ops : list MemoryOp :=
  [HoldEnvelope 1000; HoldPolars 4000; RecordChunk 10 true; DropPolars; HoldIncoming 500;
   HoldRemainder 700; DropEnvelope].

Lemma memory_accounting_witness :
  exists t, run_ops new_preview mem_ops = Some t /\ Accounted t /\
    engine_bytes t = (1200 + MAX_OPERATOR_STATE_BYTES)%N.
Proof.
  eexists. split; [vm_compute; reflexivity|]. split; [|vm_compute; reflexivity].
  apply (memory_accounting PREVIEW_PEAK_ENGINE_BYTES mem_ops); [vm_compute; discriminate|].
  vm_compute. reflexivity.
Defined.

(** C37: the peak law.  On the engine's tracker no sequence of operations
    whose payloads each fit a batch ever fails: the limit is exactly wide
    enough for the three live payload slots and the operator state, so the
    peak error cannot be raised by any interleaving of holds and drops. *)
Theorem engine_peak_law (ops : list MemoryOp) :
  Forall (fun op => op_bytes op <= MAX_BATCH_BYTES)%N ops -> is_Some (run_ops tracker_new ops).
Proof.
  intros Hops. apply run_ops_fits; [|done..]. by apply with_peak_limit_Accounted.
Qed.

Lemma engine_peak_law_witness :
  is_Some (run_ops tracker_new
    [HoldEnvelope MAX_BATCH_BYTES; HoldPolars MAX_BATCH_BYTES; HoldRemainder MAX_BATCH_BYTES]).
Proof. apply engine_peak_law. repeat constructor; vm_compute; discriminate. Defined.
