(* ===== verification/Sort.v ===== *)
(** * The sort operator: [stillflow-engine/src/sort.rs]

    Lane resolution, the row comparison, the metered buffer and its one
    stable ordering.  Arrow arrays come from a library: a column is its type
    and its cells, a null cell is [None], integers, dates and timestamps are
    their physical value and floats their bit pattern.  [as_primitive] is
    documented to panic on an array of another primitive type; a panic is
    [None].  The memory size of a batch is a parameter. *)

From S2P Require Import Prelude Text Logical Schema Expression Rule Plan Semantics Typing Preflight Memory.

Inductive DataType :=
| DInt8 | DInt16 | DInt32 | DInt64 | DUInt8 | DUInt16 | DUInt32 | DUInt64
| DFloat32 | DFloat64 | DDate32
| DTimestamp (unit : TimeUnit) (timezone : option string)
| DOther (name : string).

(** [batch.rs::logical_type_to_arrow], with the unordered Arrow types named. *)
Definition arrow_type (t : LogicalType) : DataType :=
  match t with
  | TInt8 => DInt8 | TInt16 => DInt16 | TInt32 => DInt32 | TInt64 => DInt64
  | TUInt8 => DUInt8 | TUInt16 => DUInt16 | TUInt32 => DUInt32 | TUInt64 => DUInt64
  | TFloat32 => DFloat32 | TFloat64 => DFloat64
  | TDate32 => DDate32
  | TTimestamp unit timezone => DTimestamp unit timezone
  | TNull => DOther "null" | TBoolean => DOther "boolean" | TUtf8 => DOther "utf8"
  | TBinary => DOther "binary" | TList _ => DOther "list" | TStruct _ => DOther "struct"
  end.

(** The array types [as_primitive] distinguishes. *)
Inductive Primitive :=
| Int8Type | Int16Type | Int32Type | Int64Type | UInt8Type | UInt16Type | UInt32Type | UInt64Type
| Float32Type | Float64Type | Date32Type
| TimestampSecondType | TimestampMillisecondType | TimestampMicrosecondType
| TimestampNanosecondType.
#[export] Instance Primitive_eq_dec : EqDecision Primitive.
Proof. solve_decision. Defined.

Definition primitive_of (t : DataType) : option Primitive :=
  match t with
  | DInt8 => Some Int8Type | DInt16 => Some Int16Type
  | DInt32 => Some Int32Type | DInt64 => Some Int64Type
  | DUInt8 => Some UInt8Type | DUInt16 => Some UInt16Type
  | DUInt32 => Some UInt32Type | DUInt64 => Some UInt64Type
  | DFloat32 => Some Float32Type | DFloat64 => Some Float64Type
  | DDate32 => Some Date32Type
  | DTimestamp Second _ => Some TimestampSecondType
  | DTimestamp Millisecond _ => Some TimestampMillisecondType
  | DTimestamp Microsecond _ => Some TimestampMicrosecondType
  | DTimestamp Nanosecond _ => Some TimestampNanosecondType
  | DOther _ => None
  end.

Record Column := mkColumn { array_type : DataType; cells : list (option Z) }.
Record RecordBatch := mkBatch { num_rows : nat; columns : list Column }.

(** [RecordBatch::slice(row, 1)]. *)
Definition slice_row (b : RecordBatch) (row : nat) : RecordBatch :=
  mkBatch 1 ((fun c => mkColumn (array_type c) (take 1 (drop row (cells c)))) <$> columns b).

Definition is_null (c : Column) (i : nat) : option bool := (fun v => negb (some_bool v)) <$> cells c !! i.
(** [array.as_primitive::<T>().value(0)]. *)
Definition primitive_value (t : Primitive) (c : Column) : option Z :=
  if decide (primitive_of (array_type c) = Some t) then default 0%Z <$> cells c !! 0 else None.

(** ** Comparison *)

Definition compare_primitive (t : Primitive) (left right : Column) : option comparison :=
  l ← primitive_value t left; r ← primitive_value t right; Some (l ?= r)%Z.

(** The sign-flipped bit pattern of a [width]-bit float. *)
Definition flip (width bits : Z) : Z :=
  if Z.testbit bits (width - 1)
  then Z.lxor bits (2 ^ width - 1)
  else Z.lor bits (2 ^ (width - 1)).
Definition compare_total (t : Primitive) (width : Z) (left right : Column) : option comparison :=
  l ← primitive_value t left; r ← primitive_value t right; Some (flip width l ?= flip width r)%Z.

Definition compare_values (left right : Column) : option comparison :=
  match array_type left with
  | DInt8 => compare_primitive Int8Type left right
  | DInt16 => compare_primitive Int16Type left right
  | DInt32 => compare_primitive Int32Type left right
  | DInt64 => compare_primitive Int64Type left right
  | DUInt8 => compare_primitive UInt8Type left right
  | DUInt16 => compare_primitive UInt16Type left right
  | DUInt32 => compare_primitive UInt32Type left right
  | DUInt64 => compare_primitive UInt64Type left right
  | DFloat32 => compare_total Float32Type 32 left right
  | DFloat64 => compare_total Float64Type 64 left right
  | DDate32 => compare_primitive Date32Type left right
  | DTimestamp _ _ => compare_primitive TimestampNanosecondType left right
  | DOther _ => Some Eq
  end.

Record SortLane := mkLane {
  column_index : nat;
  lane_direction : SortDirection;
  lane_nulls : NullPlacement;
}.

Definition placement_ordering (nulls : NullPlacement) (left_is_null : bool) : comparison :=
  match nulls, left_is_null with
  | NullsFirst, true | NullsLast, false => Lt
  | NullsFirst, false | NullsLast, true => Gt
  end.

(** [SortLane::compare] *)
Definition lane_compare (lane : SortLane) (left right : RecordBatch) : option comparison :=
  left_column ← columns left !! column_index lane;
  right_column ← columns right !! column_index lane;
  left_null ← is_null left_column 0;
  right_null ← is_null right_column 0;
  match left_null, right_null with
  | true, true => Some Eq
  | true, false => Some (placement_ordering (lane_nulls lane) true)
  | false, true => Some (placement_ordering (lane_nulls lane) false)
  | false, false =>
      ordering ← compare_values left_column right_column;
      Some match lane_direction lane with
           | Ascending => ordering
           | Descending => CompOpp ordering
           end
  end.

Fixpoint compare_rows (left right : RecordBatch) (lanes : list SortLane) : option comparison :=
  match lanes with
  | [] => Some Eq
  | lane :: lanes =>
      ordering ← lane_compare lane left right;
      match ordering with Eq => compare_rows left right lanes | _ => Some ordering end
  end.

Definition resolve_lanes (schema : LogicalSchema) (keys : list SortKey) : Eng (list SortLane) :=
  collect (fun key =>
    index ← ok_or (fst <$> list_find (fun f : LogicalField => id f = sort_column key) (fields schema))
              (EngineError.UnknownColumn (sort_column key));
    Ok (mkLane index (direction key) (nulls key))) keys.

(** [preview.rs::sort_step]: a sort is the only one and the last step. *)
Definition sort_step (steps : list CompiledStep) : Eng (option (list SortKey)) :=
  fold_result (fun found '(index, step) =>
    match step with
    | StepSort keys =>
        match found with
        | Some _ => invalid "a preview target may contain at most one sort step"
        | None =>
            if negb (index + 1 =? length steps)%nat
            then invalid "a sort step must be the final target step" else Ok (Some keys)
        end
    | _ => Ok found
    end) None (imap pair steps).

(** ** The stable sort of the standard library

    [slice::sort_by] is documented to be stable; a stable ordering is unique
    ([stable_unique] below), so insertion into a sorted suffix computes the
    same rows.  A panic of the comparison propagates. *)
Section sort_by.
Context {A : Type} (compare : A -> A -> option comparison).
Fixpoint insert_sorted (x : A) (l : list A) : option (list A) :=
  match l with
  | [] => Some [x]
  | y :: l' =>
      ordering ← compare x y;
      match ordering with
      | Gt => rest ← insert_sorted x l'; Some (y :: rest)
      | _ => Some (x :: y :: l')
      end
  end.
Fixpoint sort_by (l : list A) : option (list A) :=
  match l with
  | [] => Some []
  | x :: l' => sorted ← sort_by l'; insert_sorted x sorted
  end.
End sort_by.

(** ** The buffer *)

Definition MAX_SORT_INPUT_BYTES : N := MAX_OPERATOR_STATE_BYTES.
Definition SORT_ORDER_BYTES_PER_ROW : N := 8.

Definition is_ordered_arrow_type (t : DataType) : bool :=
  match t with DOther _ => false | _ => true end.
(** [None]: the column index is out of range, which panics. *)
Fixpoint check_ordered_types (batch : RecordBatch) (lanes : list SortLane) : option (Eng unit) :=
  match lanes with
  | [] => Some (Ok tt)
  | lane :: lanes =>
      column ← columns batch !! column_index lane;
      if is_ordered_arrow_type (array_type column) then check_ordered_types batch lanes
      else Some (Err (EngineError.TypeError "sort key column type is not ordered"))
  end.

Record SortBuffer := mkBuffer {
  buffer_lanes : list SortLane;
  chunks : list RecordBatch;
  buffer_bytes : N;
  types_checked : bool;
}.
Definition buffer_new (lanes : list SortLane) : SortBuffer := mkBuffer lanes [] 0 false.
Definition buffer_is_empty (b : SortBuffer) : bool :=
  match chunks b with [] => true | _ => false end.

Section buffer.
Context (get_array_memory_size : RecordBatch -> N).

Definition chunk_charge (batch : RecordBatch) : N :=
  saturating_add (get_array_memory_size batch)
    (saturating_mul (N.of_nat (num_rows batch)) SORT_ORDER_BYTES_PER_ROW).

Definition buffer_release (b : SortBuffer) (t : MemoryTracker) : Eng unit * SortBuffer * MemoryTracker :=
  let '(result, t) := drop_polars t in
  (result, mkBuffer (buffer_lanes b) [] 0 (types_checked b), t).

(** [SortBuffer::push], after the type check. *)
Definition admit_chunk (b : SortBuffer) (batch : RecordBatch) (t : MemoryTracker)
  : Eng unit * SortBuffer * MemoryTracker :=
  let charge := chunk_charge batch in
  if (MAX_SORT_INPUT_BYTES <? saturating_add (buffer_bytes b) charge)%N then
    let '(released, b, t) := buffer_release b t in
    (try! released; Err (EngineError.BoundExceeded "sort input exceeds MAX_SORT_INPUT_BYTES"), b, t)
  else
    let '(held, t) := hold_polars t charge in
    match held with
    | Err e => (Err e, b, t)
    | Ok _ => (Ok tt, mkBuffer (buffer_lanes b) (chunks b ++ [batch])
                        (saturating_add (buffer_bytes b) charge) (types_checked b), t)
    end.
Definition buffer_push (b : SortBuffer) (batch : RecordBatch) (t : MemoryTracker)
  : option (Eng unit * SortBuffer * MemoryTracker) :=
  if types_checked b then Some (admit_chunk b batch t) else
  checked ← check_ordered_types batch (buffer_lanes b);
  match checked with
  | Err e => Some (Err e, b, t)
  | Ok _ => Some (admit_chunk (mkBuffer (buffer_lanes b) (chunks b) (buffer_bytes b) true) batch t)
  end.

(** The rows of the buffer in input order, and [SortBuffer::finish]. *)
Definition buffered_rows (b : SortBuffer) : list RecordBatch :=
  chunks b ≫= fun chunk => slice_row chunk <$> seq 0 (num_rows chunk).
Definition buffer_finish (b : SortBuffer) : option (list RecordBatch * N * SortBuffer) :=
  let payload := fold_left (fun total chunk => saturating_add total (get_array_memory_size chunk))
                   (chunks b) 0%N in
  rows ← sort_by (fun left right => compare_rows left right (buffer_lanes b)) (buffered_rows b);
  Some (rows, payload, mkBuffer (buffer_lanes b) [] (buffer_bytes b) (types_checked b)).
End buffer.

(** ** Floats are compared by the total order of their sign and magnitude *)

Definition total_key (width bits : Z) : Z :=
  (if Z.testbit bits (width - 1) then -1 - (bits - 2 ^ (width - 1)) else bits)%Z.

Lemma flip_total_key width bits :
  (0 < width -> 0 <= bits < 2 ^ width -> flip width bits = total_key width bits + 2 ^ (width - 1))%Z.
Proof.
  intros Hw Hb. unfold flip, total_key.
  assert (2 ^ width = 2 * 2 ^ (width - 1))%Z as Hpow.
  { rewrite <- Z.pow_succ_r by lia. f_equal. lia. }
  assert (bits = 0 \/ Z.log2 bits < width)%Z as Hlog.
  { destruct (decide (bits = 0%Z)); [by left|right]. apply Z.log2_lt_pow2; lia. }
  assert (Z.log2 bits < width)%Z as Hlog' by (destruct Hlog as [->|]; [cbn; lia|done]).
  destruct (Z.testbit bits (width - 1)) eqn:Hs.
  - replace (2 ^ width - 1)%Z with (Z.ones width) by (rewrite Z.ones_equiv; lia).
    rewrite <- Z.ldiff_ones_l_low by lia. rewrite <- Z.sub_nocarry_ldiff by (apply Z.ldiff_ones_r_low; lia).
    rewrite Z.ones_equiv. lia.
  - assert (Z.land bits (2 ^ (width - 1)) = 0)%Z as Hland.
    { apply Z.bits_inj'. intros n Hn. rewrite Z.land_spec, Z.pow2_bits_eqb, Z.bits_0 by lia.
      destruct (Z.eqb_spec (width - 1) n) as [<-|]; [by rewrite Hs|apply andb_false_r]. }
    pose proof (Z.add_lor_land bits (2 ^ (width - 1))). lia.
Qed.

(** ** Rows are compared by integer keys *)

Fixpoint lex (l r : list Z) : comparison :=
  match l, r with
  | [], [] => Eq
  | [], _ => Lt
  | _, [] => Gt
  | x :: l, y :: r => match (x ?= y)%Z with Eq => lex l r | c => c end
  end.

Lemma lex_antisym l : forall r, lex r l = CompOpp (lex l r).
Proof.
  induction l as [|x l IH]; intros [|y r]; try done. cbn. rewrite (Z.compare_antisym x y).
  destruct (x ?= y)%Z; cbn; [apply IH|done|done].
Qed.
Lemma lex_Eq l : forall r, lex l r = Eq <-> l = r.
Proof.
  induction l as [|x l IH]; intros [|y r]; try done. cbn.
  destruct (Z.compare_spec x y) as [->|Hlt|Hgt].
  - rewrite IH. naive_solver.
  - split; [done|]. intros [= -> _]. lia.
  - split; [done|]. intros [= -> _]. lia.
Qed.
Lemma lex_refl l : lex l l = Eq.
Proof. by apply lex_Eq. Qed.
Lemma lex_trans l : forall m r, lex l m <> Gt -> lex m r <> Gt -> lex l r <> Gt.
Proof.
  induction l as [|x l IH]; intros [|y m] [|z r]; try done. cbn.
  destruct (Z.compare_spec x y) as [->|Hxy|]; [|intros _|done].
  - intros Hlm. destruct (y ?= z)%Z; [|done|done]. by apply IH.
  - destruct (Z.compare_spec y z) as [<-|Hyz|]; [intros _|intros _|done].
    + destruct (Z.compare_spec x y); [lia|done|lia].
    + destruct (Z.compare_spec x z); [lia|done|lia].
Qed.

(** The physical order of a value of an ordered type. *)
Definition sort_value (t : DataType) (v : Z) : Z :=
  match t with
  | DFloat32 => flip 32 v
  | DFloat64 => flip 64 v
  | _ => v
  end.
Definition null_rank (n : NullPlacement) : Z := match n with NullsFirst => -1 | NullsLast => 1 end.
Definition cell_key (lane : SortLane) (t : DataType) (cell : option Z) : list Z :=
  match cell with
  | None => [null_rank (lane_nulls lane); 0%Z]
  | Some v => [0%Z; match lane_direction lane with
                    | Ascending => sort_value t v
                    | Descending => (- sort_value t v)%Z
                    end]
  end.
Definition lane_cell (lane : SortLane) (row : RecordBatch) : option (DataType * option Z) :=
  c ← columns row !! column_index lane; v ← cells c !! 0; Some (array_type c, v).
Definition row_key (lanes : list SortLane) (row : RecordBatch) : list Z :=
  lanes ≫= fun lane => from_option (fun cell => cell_key lane cell.1 cell.2) [] (lane_cell lane row).

(** The key types on which the comparison is defined: every ordered type
    except timestamps coarser than a nanosecond. *)
Definition comparable_type (t : DataType) : bool :=
  match t with
  | DOther _ => false
  | DTimestamp Nanosecond _ => true
  | DTimestamp _ _ => false
  | _ => true
  end.
(** A row of a buffer whose key columns have the types [types]. *)
Definition row_fits (lanes : list SortLane) (types : SortLane -> DataType) (row : RecordBatch) : Prop :=
  Forall (fun lane => comparable_type (types lane) = true /\
            exists v, lane_cell lane row = Some (types lane, v)) lanes.

Lemma lane_cell_Some lane row t v :
  lane_cell lane row = Some (t, v) <->
  exists c, columns row !! column_index lane = Some c /\ array_type c = t /\ cells c !! 0 = Some v.
Proof.
  unfold lane_cell. split.
  - intros (c & Hc & (w & Hw & [= <- <-])%bind_Some)%bind_Some. eauto.
  - intros (c & -> & <- & Hv). cbn. by rewrite Hv.
Qed.

Lemma compare_values_key l r t a b :
  comparable_type t = true -> array_type l = t -> array_type r = t ->
  cells l !! 0 = Some (Some a) -> cells r !! 0 = Some (Some b) ->
  compare_values l r = Some (sort_value t a ?= sort_value t b)%Z.
Proof.
  intros Hc Hl Hr Ha Hb. unfold compare_values. rewrite Hl.
  destruct t as [| | | | | | | | | | |[] tz|n]; try done;
    unfold compare_primitive, compare_total, primitive_value;
    rewrite Hl, Hr, Ha, Hb, decide_True by done; done.
Qed.

Lemma lex_app k : forall k' l r, length k = length k' ->
  lex (k ++ l) (k' ++ r) = match lex k k' with Eq => lex l r | c => c end.
Proof.
  induction k as [|x k IH]; intros [|y k'] l r Hlen; try done. cbn.
  injection Hlen as Hlen. destruct (x ?= y)%Z; [by apply IH|done|done].
Qed.

Lemma lane_compare_key lane l r t a b :
  comparable_type t = true -> lane_cell lane l = Some (t, a) -> lane_cell lane r = Some (t, b) ->
  lane_compare lane l r = Some (lex (cell_key lane t a) (cell_key lane t b)).
Proof.
  intros Hc (cl & Hl & Htl & Ha)%lane_cell_Some (cr & Hr & Htr & Hb)%lane_cell_Some.
  unfold lane_compare, is_null. rewrite Hl, Hr. cbn [mbind option_bind]. rewrite Ha, Hb.
  cbn [fmap option_fmap option_map mbind option_bind].
  destruct a as [a|], b as [b|]; cbn [some_bool negb].
  - erewrite compare_values_key by done. cbn. f_equal.
    destruct (lane_direction lane); cbn; [by destruct (_ ?= _)%Z|].
    rewrite Z.compare_opp, <- Z.compare_antisym. by destruct (_ ?= _)%Z.
  - by destruct lane as [i d []].
  - by destruct lane as [i d []].
  - cbn. by destruct lane as [i d []].
Qed.

Lemma compare_rows_key lanes types l r :
  row_fits lanes types l -> row_fits lanes types r ->
  compare_rows l r lanes = Some (lex (row_key lanes l) (row_key lanes r)).
Proof.
  intros Hl Hr. induction lanes as [|lane lanes IH]; [done|].
  apply Forall_cons in Hl as [(Hc & a & Ha) Hl]. apply Forall_cons in Hr as [(_ & b & Hb) Hr].
  unfold row_key. cbn [compare_rows mbind list_bind]. rewrite Ha, Hb. cbn [from_option fst snd].
  rewrite lex_app by (by destruct a, b).
  erewrite lane_compare_key by done. cbn [mbind option_bind].
  destruct (lex (cell_key lane _ a) _); [by apply IH|done|done].
Qed.

(** ** Stable sorting by a key *)

Section keyed.
Context {A : Type} (key : A -> list Z).

Definition row_le (x y : A) : Prop := lex (key x) (key y) <> Gt.

(** The stable ordering of [l]: a sorted permutation that keeps the order of
    rows with equal keys. *)
Record StableSorted (l sorted : list A) : Prop := {
  stable_permutation : sorted ≡ₚ l;
  stable_sorted : StronglySorted row_le sorted;
  stable_ties k : filter (fun x => key x = k) sorted = filter (fun x => key x = k) l;
}.

Context (compare : A -> A -> option comparison).

Lemma insert_sorted_spec x l :
  (forall y, y ∈ l -> compare x y = Some (lex (key x) (key y))) -> StronglySorted row_le l ->
  exists l', insert_sorted compare x l = Some l' /\ StableSorted (x :: l) l'.
Proof.
  intros Hcmp Hs. induction Hs as [|y l Hs IH Hy]; cbn [insert_sorted].
  { exists [x]. split; [done|]. split; [done|repeat constructor|done]. }
  rewrite Hcmp by left. cbn [mbind option_bind].
  destruct (lex (key x) (key y)) eqn:Hxy.
  3:{ destruct IH as (l' & Hl' & [Hp Hss Ht]); [intros; apply Hcmp; by right|].
      rewrite Hl'. cbn. eexists. split; [done|]. split.
      - rewrite Hp. apply Permutation_swap.
      - constructor; [done|]. rewrite Hp. constructor; [|done].
        unfold row_le. rewrite lex_antisym, Hxy. done.
      - intros k. rewrite !filter_cons, Ht, filter_cons.
        destruct (decide (key y = k)) as [Hk|], (decide (key x = k)) as [Hk'|]; try done.
        by rewrite Hk, Hk', lex_refl in Hxy. }
  all: eexists; split; [done|]; split; [done| |done]; constructor; [by constructor|].
  all: assert (row_le x y) as Hle by (unfold row_le; by rewrite Hxy).
  all: constructor; [done|]; eapply Forall_impl; [exact Hy|]; intros z; by apply lex_trans.
Qed.

Lemma sort_by_spec l :
  (forall x y, x ∈ l -> y ∈ l -> compare x y = Some (lex (key x) (key y))) ->
  exists l', sort_by compare l = Some l' /\ StableSorted l l'.
Proof.
  intros Hcmp. induction l as [|x l IH]; cbn [sort_by].
  { exists []. split; [done|]. split; [done|constructor|done]. }
  destruct IH as (s & Hs & [Hp Hss Ht]); [intros; apply Hcmp; by right|]. rewrite Hs.
  cbn [mbind option_bind]. destruct (insert_sorted_spec x s) as (l' & Hl' & [Hp' Hss' Ht']); [|done|].
  { intros y Hy. apply Hcmp; [left|right]. by rewrite <- Hp. }
  exists l'. split; [done|]. split; [by rewrite Hp', Hp|done|].
  intros k. rewrite Ht', !filter_cons, Ht. done.
Qed.

Lemma sorted_head_le x l y : StronglySorted row_le (x :: l) -> y ∈ x :: l -> row_le x y.
Proof.
  intros Hs [->|Hy]%elem_of_cons; [unfold row_le; by rewrite lex_refl|].
  apply StronglySorted_inv in Hs as [_ Hall]. rewrite Forall_forall in Hall. by apply Hall.
Qed.

(** Sorted lists with the same ties are equal, so there is one stable
    ordering and the algorithm does not matter. *)
Lemma stable_unique l1 : forall l2,
  StronglySorted row_le l1 -> StronglySorted row_le l2 ->
  (forall k, filter (fun x => key x = k) l1 = filter (fun x => key x = k) l2) -> l1 = l2.
Proof.
  assert (forall (l m : list A) x, (forall k, filter (fun x => key x = k) l = filter (fun x => key x = k) m) ->
            x ∈ l -> x ∈ m) as Hin.
  { intros l m x Heq Hx. assert (x ∈ filter (fun y => key y = key x) m) as Hf.
    { rewrite <- Heq. apply list_elem_of_filter. by split. }
    by apply list_elem_of_filter in Hf as [_ ?]. }
  induction l1 as [|x l1 IH]; intros [|y l2] H1 H2 Heq; [done|..].
  - exfalso. apply (not_elem_of_nil y), (Hin (y :: l2)); [intros k; symmetry; apply Heq|left].
  - exfalso. apply (not_elem_of_nil x), (Hin (x :: l1)); [exact Heq|left].
  - assert (key x = key y) as Hk.
    { assert (row_le x y) as Hxy.
      { eapply sorted_head_le; [exact H1|]. apply (Hin (y :: l2)); [intros k; symmetry; apply Heq|left]. }
      assert (row_le y x) as Hyx.
      { eapply sorted_head_le; [exact H2|]. apply (Hin _ _ x Heq). left. }
      unfold row_le in *. rewrite lex_antisym in Hyx.
      destruct (lex (key x) (key y)) eqn:Hl; [by apply lex_Eq|done|done]. }
    pose proof (Heq (key x)) as Hx. rewrite !filter_cons, decide_True, decide_True in Hx by done.
    injection Hx as -> _. f_equal. apply StronglySorted_inv in H1 as [H1 _], H2 as [H2 _].
    apply IH; [done|done|]. intros k. specialize (Heq k). rewrite !filter_cons in Heq.
    by case_decide; simplify_eq.
Qed.
End keyed.

(** ** Lanes and chunks *)

Lemma list_find_id_Some (fs : list LogicalField) c i :
  fst <$> list_find (fun f : LogicalField => id f = c) fs = Some i <->
  (exists f, fs !! i = Some f /\ id f = c) /\ (forall j f, j < i -> fs !! j = Some f -> id f <> c).
Proof.
  rewrite fmap_Some. split.
  - intros ([j f] & (Hf & Hid & Hmin)%list_find_Some & ->). eauto.
  - intros [(f & Hf & Hid) Hmin]. exists (i, f). split; [|done]. apply list_find_Some. eauto.
Qed.

(** A chunk of the declared schema: one column per field, of the field's
    Arrow type, with one cell per row. *)
Definition conforms (schema : LogicalSchema) (b : RecordBatch) : Prop :=
  Forall2 (fun f c => array_type c = arrow_type (data_type f) /\ length (cells c) = num_rows b)
    (fields schema) (columns b).

Definition lane_type (schema : LogicalSchema) (lane : SortLane) : DataType :=
  from_option (fun f => arrow_type (data_type f)) (DOther "missing") (fields schema !! column_index lane).

Definition resolved (schema : LogicalSchema) (key : SortKey) (lane : SortLane) : Prop :=
  lane_direction lane = direction key /\ lane_nulls lane = nulls key /\
  exists f, fields schema !! column_index lane = Some f /\ id f = sort_column key.

Lemma resolve_lanes_Ok schema keys lanes :
  resolve_lanes schema keys = Ok lanes -> Forall2 (resolved schema) keys lanes.
Proof.
  unfold resolve_lanes. rewrite collect_Ok. intros Hall. eapply Forall2_impl; [exact Hall|]. intros key lane Hl.
  apply bind_Ok in Hl as (i & Hi & [= <-]). apply ok_or_Ok, list_find_id_Some in Hi as [Hf _].
  by split_and!.
Qed.

Lemma resolve_lanes_total schema keys :
  Forall (fun key => is_Some (schema_field schema (sort_column key))) keys ->
  exists lanes, resolve_lanes schema keys = Ok lanes.
Proof.
  induction 1 as [|key keys [f Hf] _ [lanes IH]]; [by exists []|].
  apply find_field_Some in Hf as [Hin Hid]. unfold resolve_lanes in *. cbn [collect]. rewrite IH.
  destruct (list_find (fun f : LogicalField => id f = sort_column key) (fields schema)) as [[i g]|] eqn:Hl.
  - cbn. eauto.
  - apply list_find_None in Hl. rewrite Forall_forall in Hl. by destruct (Hl f Hin).
Qed.

Lemma slice_lane schema lane b i :
  conforms schema b -> i < num_rows b -> is_Some (fields schema !! column_index lane) ->
  exists v, lane_cell lane (slice_row b i) = Some (lane_type schema lane, v).
Proof.
  intros Hc Hi [f Hf]. eapply Forall2_lookup_l in Hc as (c & Hcol & Ht & Hlen); [|exact Hf].
  destruct (lookup_lt_is_Some_2 (cells c) i) as [v Hv]; [lia|].
  exists v. apply lane_cell_Some. exists (mkColumn (array_type c) (take 1 (drop i (cells c)))).
  split_and!.
  - unfold slice_row. cbn. by rewrite list_lookup_fmap, Hcol.
  - cbn. unfold lane_type. by rewrite Hf.
  - cbn [cells]. rewrite lookup_take_lt by lia. by rewrite lookup_drop, Nat.add_0_r.
Qed.

Lemma buffered_rows_fit schema keys lanes b :
  resolve_lanes schema keys = Ok lanes -> buffer_lanes b = lanes ->
  Forall (conforms schema) (chunks b) ->
  Forall (fun lane => comparable_type (lane_type schema lane) = true) lanes ->
  Forall (row_fits lanes (lane_type schema)) (buffered_rows b).
Proof.
  intros Hl <- Hch Hcmp. apply resolve_lanes_Ok in Hl. apply Forall_forall. intros row Hrow.
  unfold buffered_rows in Hrow. apply list_elem_of_bind in Hrow as (chunk & Hrow & Hin).
  apply list_elem_of_fmap in Hrow as (i & -> & Hi%elem_of_seq).
  rewrite Forall_forall in Hch. specialize (Hch _ Hin).
  apply Forall_forall. intros lane Hlane. rewrite Forall_forall in Hcmp.
  split; [by apply Hcmp|]. eapply slice_lane; [done|lia|].
  apply list_elem_of_lookup in Hlane as [j Hj].
  eapply Forall2_lookup_r in Hl as (key & _ & _ & _ & f & Hf & _); [|exact Hj]. eauto.
Qed.

(** ** The buffer's budget *)

Section budget.
Context (size : RecordBatch -> N).

Record BufferOk (b : SortBuffer) : Prop := {
  buffer_exact : buffer_bytes b = sum_by (chunk_charge size) (chunks b);
  buffer_bound : (buffer_bytes b <= MAX_SORT_INPUT_BYTES)%N;
}.

Lemma buffer_new_Ok lanes : BufferOk (buffer_new lanes).
Proof. split; [done|]. cbn. lia. Qed.

Lemma chunk_charge_fits charge total :
  (saturating_add total charge <= MAX_SORT_INPUT_BYTES)%N ->
  saturating_add total charge = (total + charge)%N.
Proof.
  assert (MAX_SORT_INPUT_BYTES < usize_max)%N by (vm_compute; done). unfold saturating_add. lia.
Qed.

Lemma hold_polars_charges t n t' :
  Accounted t -> hold_polars t n = (Ok tt, t') ->
  Accounted t' /\ working_bytes t' = n /\ operator_state_bytes t' = MAX_OPERATOR_STATE_BYTES.
Proof.
  intros Ha Hh. assert (Accounted t') as Ha' by (by eapply (apply_op_Accounted t (HoldPolars n))).
  split; [done|]. unfold hold_polars in Hh. destruct (_ <? _)%N; [done|].
  apply refresh_Ok in Hh as (_ & _ & ->). cbn. by destruct Ha.
Qed.

(** What one admission does. *)
Definition PushOk (b : SortBuffer) (batch : RecordBatch) (t : MemoryTracker)
  (outcome : Eng unit * SortBuffer * MemoryTracker) : Prop :=
  let '(result, b', t') := outcome in
  BufferOk b' /\ buffer_lanes b' = buffer_lanes b /\
  match result with
  | Ok _ => chunks b' = chunks b ++ [batch] /\ Accounted t' /\
            (buffer_bytes b' <= engine_bytes t')%N
  | Err _ => (chunks b' = [] /\ buffer_bytes b' = 0%N) \/
             (chunks b' = chunks b /\ buffer_bytes b' = buffer_bytes b)
  end.

Lemma admit_chunk_Ok b batch t :
  BufferOk b -> Accounted t -> PushOk b batch t (admit_chunk size b batch t).
Proof.
  intros [Hex Hbd] Ha. unfold admit_chunk, buffer_release.
  destruct (N.ltb_spec MAX_SORT_INPUT_BYTES (saturating_add (buffer_bytes b) (chunk_charge size batch)))
    as [_|Hfit].
  - destruct (drop_polars t) as [released t1]. cbn.
    split_and!; [split; [done|cbn; lia]|done|]. destruct released; cbn; by left.
  - destruct (hold_polars t (chunk_charge size batch)) as [[[]|e] t1] eqn:Hh; cbn.
    + apply hold_polars_charges in Hh as (Ha1 & _ & Ho); [|done].
      pose proof (chunk_charge_fits _ _ Hfit) as Hadd. split_and!; [|done|done|done|].
      * split; cbn [buffer_bytes chunks]; [|done]. rewrite Hadd, Hex, sum_by_app, sum_by_cons. cbn. lia.
      * etransitivity; [exact Hfit|]. by apply engine_bytes_state.
    + split_and!; [by split|done|by right].
Qed.

Lemma buffer_push_Ok b batch t outcome :
  BufferOk b -> Accounted t -> buffer_push size b batch t = Some outcome -> PushOk b batch t outcome.
Proof.
  intros Hb Ha. unfold buffer_push. destruct (types_checked b).
  - intros [= <-]. by apply admit_chunk_Ok.
  - destruct (check_ordered_types batch (buffer_lanes b)) as [[u|e]|]; cbn; intros [= <-].
    + apply (admit_chunk_Ok (mkBuffer (buffer_lanes b) (chunks b) (buffer_bytes b) true)); [|done].
      by destruct Hb.
    + split_and!; [done|done|by right].
Qed.
End budget.

(** ** Where a sort may stand *)

Definition is_sort (step : CompiledStep) : bool := match step with StepSort _ => true | _ => false end.
(** One iteration of [sort_step] over [total] steps. *)
Definition sort_search (total : nat) (found : option (list SortKey)) (entry : nat * CompiledStep)
  : Eng (option (list SortKey)) :=
  let '(index, step) := entry in
  match step with
  | StepSort keys =>
      match found with
      | Some _ => invalid "a preview target may contain at most one sort step"
      | None =>
          if negb (index + 1 =? total)%nat
          then invalid "a sort step must be the final target step" else Ok (Some keys)
      end
  | _ => Ok found
  end.

Lemma sort_search_spec total l : forall offset out,
  offset + length l = total ->
  fold_result (sort_search total) None (imap (fun i s => (offset + i, s)) l) = Ok out <->
  (out = None /\ Forall (fun s => is_sort s = false) l) \/
  (exists keys init, out = Some keys /\ l = init ++ [StepSort keys] /\
     Forall (fun s => is_sort s = false) init).
Proof.
  induction l as [|s l IH]; intros offset out Hlen; cbn [imap fold_result].
  - split; [intros [= <-]; by left|]. intros [[-> _]|(keys & init & _ & Hl & _)]; [done|].
    by destruct init.
  - rewrite (imap_ext _ (fun i s => (S offset + i, s))) by (intros; unfold compose; f_equal; lia).
    cbn in Hlen. destruct (is_sort s) eqn:Hs.
    + destruct s; try done. cbn [sort_search]. rewrite Nat.add_0_r.
      destruct (Nat.eqb_spec (offset + 1) total) as [Heq|Hne]; cbn [negb mbind result_bind].
      * assert (l = []) as -> by (destruct l; [done|cbn in Hlen; lia]). cbn. split.
        -- intros [= <-]. right. exists keys, []. by split_and!.
        -- intros [[_ Hf]|(k & init & -> & Hl & _)].
           { by apply Forall_cons in Hf as [? _]. }
           destruct init as [|? [|]]; by simplify_eq/=.
      * split; [done|]. intros [[_ Hf]|(k & init & -> & Hl & Hf)].
        { by apply Forall_cons in Hf as [? _]. }
        destruct init as [|s' init]; simplify_eq/=. by apply Forall_cons in Hf as [? _].
    + assert (sort_search total None (offset + 0, s) = Ok None) as -> by (by destruct s).
      cbn [mbind result_bind]. rewrite IH by lia. rewrite Forall_cons. split.
      * intros [[-> Hf]|(k & init & -> & -> & Hf)]; [by left|]. right. exists k, (s :: init).
        rewrite Forall_cons. by split_and!.
      * intros [[-> [_ Hf]]|(k & init & -> & Hl & Hf)]; [by left|]. right.
        destruct init as [|s' init]; simplify_eq/=. apply Forall_cons in Hf as [_ Hf]. eauto.
Qed.

Lemma sort_step_eq steps :
  sort_step steps = fold_result (sort_search (length steps)) None (imap (fun i s => (0 + i, s)) steps).
Proof. done. Qed.

Lemma sort_step_None steps :
  sort_step steps = Ok None <-> Forall (fun s => is_sort s = false) steps.
Proof. rewrite sort_step_eq, sort_search_spec by done. naive_solver. Qed.

Lemma sort_step_Some steps keys :
  sort_step steps = Ok (Some keys) <->
  exists init, steps = init ++ [StepSort keys] /\ Forall (fun s => is_sort s = false) init.
Proof. rewrite sort_step_eq, sort_search_spec by done. naive_solver. Qed.

(** ** NULL placement *)

Definition key_null (lane : SortLane) (row : RecordBatch) : Prop :=
  exists t, lane_cell lane row = Some (t, None).

Lemma row_key_head lane lanes types row v :
  row_fits (lane :: lanes) types row -> lane_cell lane row = Some (types lane, v) ->
  exists rest, row_key (lane :: lanes) row =
    (match v with None => null_rank (lane_nulls lane) | Some _ => 0%Z end) :: rest.
Proof.
  intros _ Hc. unfold row_key. cbn [mbind list_bind]. rewrite Hc. cbn.
  destruct v; cbn; eauto.
Qed.

Lemma nulls_grouped lane lanes types x y :
  row_fits (lane :: lanes) types x -> row_fits (lane :: lanes) types y ->
  row_le (row_key (lane :: lanes)) x y ->
  match lane_nulls lane with
  | NullsFirst => key_null lane y -> key_null lane x
  | NullsLast => key_null lane x -> key_null lane y
  end.
Proof.
  intros Hx Hy Hle.
  pose proof (proj1 (proj1 (Forall_cons _ _ _) Hx)) as (_ & a & Ha).
  pose proof (proj1 (proj1 (Forall_cons _ _ _) Hy)) as (_ & b & Hb).
  destruct (row_key_head lane lanes types x a Hx Ha) as [rx Hkx].
  destruct (row_key_head lane lanes types y b Hy Hb) as [ry Hky].
  unfold row_le in Hle. rewrite Hkx, Hky in Hle. unfold key_null. rewrite Ha, Hb. cbn in Hle.
  destruct (lane_nulls lane), a, b; cbn in Hle; naive_solver.
Qed.

(** ** Claims *)

(** The row comparison is a total preorder given by integer keys.  On
    rows whose key columns have comparable types it never panics and equals
    the lexicographic comparison of [row_key], in which a NULL is outside
    every value on the declared side whatever the direction, and a float
    stands for its sign-and-magnitude total order (so NaN equals itself and
    negative zero precedes zero). *)
Theorem compare_rows_by_key (lanes : list SortLane) (types : SortLane -> DataType)
  (l m r : RecordBatch) :
  row_fits lanes types l -> row_fits lanes types m -> row_fits lanes types r ->
  compare_rows l r lanes = Some (lex (row_key lanes l) (row_key lanes r)) /\
  compare_rows r l lanes = CompOpp <$> compare_rows l r lanes /\
  (compare_rows l m lanes <> Some Gt -> compare_rows m r lanes <> Some Gt ->
   compare_rows l r lanes <> Some Gt) /\
  (forall width bits, (0 < width -> 0 <= bits < 2 ^ width ->
   flip width bits = total_key width bits + 2 ^ (width - 1))%Z).
Proof.
  intros Hl Hm Hr. rewrite !(compare_rows_key lanes types) by done. cbn.
  split_and!; [done|by rewrite lex_antisym| |apply flip_total_key].
  intros H1 H2 [= H3]. eapply (lex_trans _ (row_key lanes m)); [| |exact H3]; intros E; [by rewrite E in H1|by rewrite E in H2].
Qed.

Definition sort_schema : LogicalSchema := mkSchema 1%N
  [mkField 1%N "score" TFloat64 true ∅; mkField 2%N "rank" TInt64 false ∅] ∅.
Definition sort_keys : list SortKey :=
  [mkSortKey 1%N Descending NullsFirst; mkSortKey 2%N Ascending NullsLast].
Definition sort_lanes : list SortLane := [mkLane 0 Descending NullsFirst; mkLane 1 Ascending NullsLast].
(** 1.0, -1.0 and 1.0 again as bit patterns, and a NULL. *)
Definition sort_chunk : RecordBatch := mkBatch 4
  [mkColumn DFloat64 [Some 4607182418800017408; Some 13830554455654793216; None;
                      Some 4607182418800017408]%Z;
   mkColumn DInt64 [Some 7; Some 5; Some 9; Some 7]%Z].

Lemma compare_rows_by_key_witness :
  compare_rows (slice_row sort_chunk 1) (slice_row sort_chunk 0) sort_lanes = Some Gt.
Proof.
  refine (eq_trans (proj1 (compare_rows_by_key sort_lanes (lane_type sort_schema)
    (slice_row sort_chunk 1) (slice_row sort_chunk 0) (slice_row sort_chunk 0) _ _ _)) _).
  4: vm_compute; reflexivity.
  all: repeat constructor; eexists; reflexivity.
Defined.

(** C38: the sort returns the stable ordering.  For a buffer whose chunks
    conform to the schema and whose resolved key columns have comparable
    types ([comparable_type]: of the timestamps only those in nanoseconds, since
    the comparison panics on the others, [coarse_timestamp_panics]),
    [finish] returns a result, the result is the stable ordering of
    the buffered rows by their keys, it is the only such ordering (whatever
    the sorting algorithm and the chunk boundaries), rows whose first key is
    NULL are all on the declared side for both directions, and the buffer is
    left empty. *)
Theorem buffer_finish_stable (size : RecordBatch -> N) (schema : LogicalSchema)
  (keys : list SortKey) (lanes : list SortLane) (b : SortBuffer) :
  resolve_lanes schema keys = Ok lanes -> buffer_lanes b = lanes ->
  Forall (conforms schema) (chunks b) ->
  Forall (fun lane => comparable_type (lane_type schema lane) = true) lanes ->
  exists rows payload b', buffer_finish size b = Some (rows, payload, b') /\ chunks b' = [] /\
    StableSorted (row_key lanes) (buffered_rows b) rows /\
    (forall other, StableSorted (row_key lanes) (buffered_rows b) other -> other = rows) /\
    (forall lane rest i j x y, lanes = lane :: rest -> i < j ->
     rows !! i = Some x -> rows !! j = Some y ->
     match lane_nulls lane with
     | NullsFirst => key_null lane y -> key_null lane x
     | NullsLast => key_null lane x -> key_null lane y
     end).
Proof.
  intros Hl Hb Hch Hcmp. pose proof (buffered_rows_fit schema keys lanes b Hl Hb Hch Hcmp) as Hfit.
  rewrite Forall_forall in Hfit.
  destruct (sort_by_spec (row_key lanes) (fun l r => compare_rows l r lanes) (buffered_rows b))
    as (rows & Hs & Hst).
  { intros x y Hx Hy. apply (compare_rows_key lanes (lane_type schema)); by apply Hfit. }
  unfold buffer_finish. rewrite Hb, Hs. cbn [mbind option_bind].
  exists rows. eexists _, _. split_and!; [done|done|done|..].
  - intros other [Hp Ho Ht]. apply (stable_unique (row_key lanes)); [done|apply Hst|].
    intros k. rewrite Ht. symmetry. apply Hst.
  - intros lane rest i j x y -> Hij Hi Hj. destruct Hst as [Hp Hss _].
    assert (forall i z, rows !! i = Some z -> row_fits (lane :: rest) (lane_type schema) z) as Hin.
    { intros k z Hz. apply Hfit. rewrite <- Hp. by eapply list_elem_of_lookup_2. }
    eapply nulls_grouped; [by eapply Hin..|]. by eapply (StronglySorted_lookup _ rows i j).
Qed.

Definition sort_buffer : SortBuffer := mkBuffer sort_lanes [sort_chunk; sort_chunk] 0 true.

Lemma buffer_finish_stable_witness :
  exists rows payload b', buffer_finish (fun _ => 100%N) sort_buffer = Some (rows, payload, b') /\
    StableSorted (row_key sort_lanes) (buffered_rows sort_buffer) rows.
Proof.
  destruct (buffer_finish_stable (fun _ => 100%N) sort_schema sort_keys sort_lanes sort_buffer)
    as (rows & payload & b' & Hf & _ & Hst & _).
  - vm_compute. reflexivity.
  - reflexivity.
  - repeat constructor; reflexivity.
  - repeat constructor; reflexivity.
  - exists rows, payload, b'. split; [exact Hf|exact Hst].
Defined.

(** The buffer is bounded and fails closed.  Whatever the sizes of the
    chunks, after every push the recorded bytes are exactly the charges of
    the chunks kept and within the declared bound; an accepted chunk is
    appended and the tracker still accounts for at least the buffered bytes;
    a refused one leaves the buffer either empty or as it was. *)
Theorem buffer_push_bounded (size : RecordBatch -> N) (b : SortBuffer) (batch : RecordBatch)
  (t : MemoryTracker) (outcome : Eng unit * SortBuffer * MemoryTracker) :
  BufferOk size b -> Accounted t -> buffer_push size b batch t = Some outcome ->
  PushOk size b batch t outcome.
Proof. apply buffer_push_Ok. Qed.

Lemma buffer_push_bounded_witness :
  exists outcome,
    buffer_push (fun _ => 1000%N) (buffer_new sort_lanes) sort_chunk new_preview = Some outcome /\
    PushOk (fun _ => 1000%N) (buffer_new sort_lanes) sort_chunk new_preview outcome.
Proof.
  eexists. split; [vm_compute; reflexivity|].
  apply (buffer_push_bounded (fun _ => 1000%N)).
  - apply buffer_new_Ok.
  - apply with_peak_limit_Accounted. vm_compute. discriminate.
  - vm_compute. reflexivity.
Defined.

(** A sort key of a timestamp type coarser than a nanosecond passes the
    type check, but comparing two rows with a value there panics, because
    the comparison reads every timestamp array as a nanosecond array. *)
Theorem coarse_timestamp_panics (lane : SortLane) (rest : list SortLane) (unit : TimeUnit)
  (timezone : option string) (l r : RecordBatch) (a b : Z) :
  unit <> Nanosecond ->
  lane_cell lane l = Some (DTimestamp unit timezone, Some a) ->
  lane_cell lane r = Some (DTimestamp unit timezone, Some b) ->
  check_ordered_types l [lane] = Some (Ok tt) /\ compare_rows l r (lane :: rest) = None.
Proof.
  intros Hu (cl & Hl & Htl & Ha)%lane_cell_Some (cr & Hr & Htr & Hb)%lane_cell_Some.
  cbn [check_ordered_types compare_rows]. unfold lane_compare, is_null. rewrite Hl, Hr.
  cbn [mbind option_bind]. rewrite Htl, Ha, Hb. split; [done|]. cbn [fmap option_fmap option_map
    mbind option_bind some_bool negb]. unfold compare_values. rewrite Htl.
  assert (primitive_value TimestampNanosecondType cl = None) as Hp.
  { unfold primitive_value. rewrite Htl, decide_False; [done|]. by destruct unit. }
  unfold compare_primitive. by rewrite Hp.
Qed.

Lemma coarse_timestamp_panics_witness :
  compare_rows (mkBatch 1 [mkColumn (DTimestamp Microsecond None) [Some 1%Z]])
    (mkBatch 1 [mkColumn (DTimestamp Microsecond None) [Some 2%Z]])
    [mkLane 0 Ascending NullsLast] = None.
Proof.
  apply (coarse_timestamp_panics (mkLane 0 Ascending NullsLast) [] Microsecond None _ _ 1 2);
    [discriminate|reflexivity|reflexivity].
Defined.

(** A preview accepts a sort only as the single, final step: the search
    finds no sort exactly when there is none, and finds one exactly when the
    last step is the only sort. *)
Theorem sort_step_exact (steps : list CompiledStep) :
  (sort_step steps = Ok None <-> Forall (fun s => is_sort s = false) steps) /\
  (forall keys, sort_step steps = Ok (Some keys) <->
   exists init, steps = init ++ [StepSort keys] /\ Forall (fun s => is_sort s = false) init).
Proof. split; [apply sort_step_None|apply sort_step_Some]. Qed.
