(* ===== verification/Stream.v ===== *)
(** * Batch streams: [stillflow-core/src/stream/mod.rs]

    The wrapper every connector stream passes through: it enforces lineage,
    contiguous sequence numbers and one schema, honours cancellation and the
    deadline, and ends at most once.  The wrapped stream is an arbitrary
    state machine; what the request context and the timers answer during one
    poll is a [Tick]. *)

From S2P Require Import Prelude Text Logical Schema.

Module Category.
Inductive ErrorCategory :=
| Authentication | Authorization | NotFound | InvalidConfiguration | InvalidData | SchemaDrift
| RateLimited | Timeout | Cancelled | UnsupportedCapability | TransientSource | Internal.
End Category.

(** The messages of this module with the values they print. *)
Inductive StreamMessage :=
| LineageMismatch (actual expected : Uuid)
| SequenceRangeExceeded
| SequenceMismatch (actual expected : N)
| SchemaChanged (sequence : N)
| RequestCancelled
| DeadlineExceeded
| ConnectorMessage (text : string).
Record ConnectorError := mkConnectorError { category : Category.ErrorCategory; message : StreamMessage }.

Definition stream_error (c : Category.ErrorCategory) (m : StreamMessage) : ConnectorError :=
  mkConnectorError c m.
Definition cancelled_error : ConnectorError := mkConnectorError Category.Cancelled RequestCancelled.
Definition timeout_error : ConnectorError := mkConnectorError Category.Timeout DeadlineExceeded.

Inductive Poll (A : Type) := Ready (a : A) | Pending.
Arguments Ready {A} a.
Arguments Pending {A}.

(** What one poll asks of the request context and its timers. *)
Record Tick := mkTick {
  active_before : result ConnectorError unit;
  cancellation_ready : bool;
  (** [None]: no deadline; otherwise whether it has passed. *)
  deadline_passed : option bool;
  sleep_ready : bool;
  active_after : result ConnectorError unit;
}.

Section stream.
Context {Payload Fingerprint Inner : Type} `{!EqDecision Fingerprint}.

Record BatchEnvelope := mkEnvelope {
  source_asset_id : Uuid;
  sequence : N;
  schema_fingerprint : Fingerprint;
  envelope_schema : LogicalSchema;
  payload : Payload;
}.
Definition BatchItem : Type := result ConnectorError BatchEnvelope.

(** The wrapped stream: one poll. *)
Context (poll_inner : Inner -> Poll (option BatchItem) * Inner).

Record CancellableBatchStream := mkStream {
  inner : option Inner;
  expected_source_asset_id : Uuid;
  next_sequence : option N;
  stream_schema : option (Fingerprint * LogicalSchema);
  terminated : bool;
}.

Definition stream_new (i : Inner) (asset : Uuid) : CancellableBatchStream :=
  mkStream (Some i) asset (Some 0%N) None false.

Definition terminate (s : CancellableBatchStream) : CancellableBatchStream :=
  mkStream None (expected_source_asset_id s) (next_sequence s) (stream_schema s) true.
Definition terminal_error (s : CancellableBatchStream) (e : ConnectorError)
  : Poll (option BatchItem) * CancellableBatchStream :=
  (Ready (Some (Err e)), terminate s).
Definition finish (s : CancellableBatchStream) : Poll (option BatchItem) * CancellableBatchStream :=
  (Ready None, terminate s).

Definition validate_envelope (s : CancellableBatchStream) (e : BatchEnvelope)
  : result ConnectorError CancellableBatchStream :=
  if negb (source_asset_id e =? expected_source_asset_id s)%N
  then Err (stream_error Category.InvalidData
              (LineageMismatch (source_asset_id e) (expected_source_asset_id s))) else
  expected_sequence ← ok_or (next_sequence s) (stream_error Category.InvalidData SequenceRangeExceeded);
  if negb (sequence e =? expected_sequence)%N
  then Err (stream_error Category.InvalidData (SequenceMismatch (sequence e) expected_sequence)) else
  schema ← match stream_schema s with
           | None => Ok (schema_fingerprint e, envelope_schema e)
           | Some (fingerprint, schema) =>
               if bool_decide (fingerprint <> schema_fingerprint e)
                  || bool_decide (schema <> envelope_schema e)
               then Err (stream_error Category.SchemaDrift (SchemaChanged expected_sequence))
               else Ok (fingerprint, schema)
           end;
  Ok (mkStream (inner s) (expected_source_asset_id s)
        (if (expected_sequence + 1 <? 2 ^ 64)%N then Some (expected_sequence + 1)%N else None)
        (Some schema) (terminated s)).

Definition with_inner (s : CancellableBatchStream) (i : Inner) : CancellableBatchStream :=
  mkStream (Some i) (expected_source_asset_id s) (next_sequence s) (stream_schema s) (terminated s).

Definition poll_next (s : CancellableBatchStream) (t : Tick)
  : Poll (option BatchItem) * CancellableBatchStream :=
  if terminated s then (Ready None, s) else
  match active_before t with
  | Err e => terminal_error s e
  | Ok _ =>
      if cancellation_ready t then terminal_error s cancelled_error else
      if match deadline_passed t with
         | Some passed => passed || sleep_ready t
         | None => false
         end
      then terminal_error s timeout_error else
      match inner s with
      | None => finish s
      | Some i =>
          let '(polled, i) := poll_inner i in
          let s := with_inner s i in
          match polled with
          | Ready (Some (Ok envelope)) =>
              match validate_envelope s envelope with
              | Ok s =>
                  match active_after t with
                  | Ok _ => (Ready (Some (Ok envelope)), s)
                  | Err e => terminal_error s e
                  end
              | Err e => terminal_error s e
              end
          | Ready (Some (Err e)) => terminal_error s e
          | Ready None => finish s
          | Pending => (Pending, s)
          end
      end
  end.

(** The answers of a sequence of polls. *)
Fixpoint poll_all (s : CancellableBatchStream) (ticks : list Tick)
  : list (Poll (option BatchItem)) * CancellableBatchStream :=
  match ticks with
  | [] => ([], s)
  | t :: ticks =>
      let '(o, s) := poll_next s t in
      let '(os, s) := poll_all s ticks in (o :: os, s)
  end.

(** ** The contract *)

Definition yielded (os : list (Poll (option BatchItem))) : list BatchEnvelope :=
  omap (fun o => match o with Ready (Some (Ok e)) => Some e | _ => None end) os.
(** An error or the end of the stream. *)
Definition terminal (o : Poll (option BatchItem)) : bool :=
  match o with Ready None | Ready (Some (Err _)) => true | _ => false end.

(** Contiguous sequence numbers from zero, one asset, one schema. *)
Definition Contract (asset : Uuid) (ys : list BatchEnvelope) : Prop :=
  forall i e, ys !! i = Some e ->
    sequence e = N.of_nat i /\ source_asset_id e = asset /\
    forall first, head ys = Some first ->
      schema_fingerprint e = schema_fingerprint first /\ envelope_schema e = envelope_schema first.

(** After a terminal answer there is only the end. *)
Definition closes (os : list (Poll (option BatchItem))) : Prop :=
  forall i j o, os !! i = Some o -> terminal o = true -> i < j -> j < length os ->
    os !! j = Some (Ready None).

(** A stream that has yielded [ys] and is still open. *)
Record Live (asset : Uuid) (ys : list BatchEnvelope) (s : CancellableBatchStream) : Prop := {
  live_open : terminated s = false;
  live_inner : is_Some (inner s);
  live_asset : expected_source_asset_id s = asset;
  live_next : next_sequence s =
    if (N.of_nat (length ys) <? 2 ^ 64)%N then Some (N.of_nat (length ys)) else None;
  live_schema : stream_schema s = (fun e => (schema_fingerprint e, envelope_schema e)) <$> head ys;
  live_contract : Contract asset ys;
}.

Lemma stream_new_Live i asset : Live asset [] (stream_new i asset).
Proof. split; try done. Qed.

Lemma with_inner_Live asset ys s i : Live asset ys s -> Live asset ys (with_inner s i).
Proof. intros []. by split. Qed.

(** An envelope that continues the contract. *)
Definition continues (asset : Uuid) (ys : list BatchEnvelope) (e : BatchEnvelope) : Prop :=
  source_asset_id e = asset /\ sequence e = N.of_nat (length ys) /\
  (forall first, head ys = Some first ->
     schema_fingerprint e = schema_fingerprint first /\ envelope_schema e = envelope_schema first).

Lemma Contract_snoc asset ys e :
  Contract asset (ys ++ [e]) <-> Contract asset ys /\ continues asset ys e.
Proof.
  assert (forall first, head ys = Some first -> head (ys ++ [e]) = Some first) as Hhead
    by (by destruct ys).
  split.
  - intros Hc. split; [|].
    + intros i x Hx. destruct (Hc i x) as (? & ? & ?); [by apply lookup_app_l_Some|]. eauto.
    + destruct (Hc (length ys) e) as (? & ? & ?); [by apply list_lookup_middle|]. split_and!; eauto.
  - intros [Hc (Ha & Hs & Hf)] i x [Hx|[Hi Hx]]%lookup_app_Some.
    + destruct (Hc i x Hx) as (? & ? & ?). split_and!; [done|done|]. intros first Hfirst.
      apply H1. by destruct ys.
    + apply list_lookup_singleton_Some in Hx as [Hi0 <-]. split_and!; [|done|].
      * rewrite Hs. f_equal. lia.
      * intros first Hfirst. destruct ys; [by simplify_eq/=|]. by apply Hf.
Qed.

Lemma validate_envelope_Ok asset ys s e s' :
  Live asset ys s -> validate_envelope s e = Ok s' -> Live asset (ys ++ [e]) s' /\ inner s' = inner s.
Proof.
  intros [Ho Hi Ha Hn Hs Hc] Hv. unfold validate_envelope in Hv. rewrite Ha in Hv.
  destruct (N.eqb_spec (source_asset_id e) asset) as [Hasset|]; [|done]. cbn [negb] in Hv.
  apply bind_Ok in Hv as (expected & Hexp & Hv). apply ok_or_Ok in Hexp. rewrite Hn in Hexp.
  destruct (N.ltb_spec (N.of_nat (length ys)) (2 ^ 64)); [|done]. injection Hexp as <-.
  destruct (N.eqb_spec (sequence e) (N.of_nat (length ys))) as [Hseq|]; [|done]. cbn [negb] in Hv.
  apply bind_Ok in Hv as ([fp sch] & Hsch & [= <-]).
  assert (continues asset ys e /\
          Some (fp, sch) = (fun e => (schema_fingerprint e, envelope_schema e)) <$> head (ys ++ [e]))
    as [Hcont Hhead].
  { rewrite Hs in Hsch. destruct ys as [|y ys]; cbn in Hsch.
    - injection Hsch as <- <-. by split.
    - case_bool_decide as Hf; [done|]. case_bool_decide as Hg; [done|]. injection Hsch as <- <-.
      split; [|done]. split_and!; [done|done|].
      cbn. by intros first [= <-]. }
  split; [|done]. split; cbn; try done.
  - rewrite length_app. cbn. replace (N.of_nat (length ys + 1)) with (N.of_nat (length ys) + 1)%N by lia.
    done.
  - by apply Contract_snoc.
Qed.

Lemma poll_next_Live asset ys s t o s' :
  Live asset ys s -> poll_next s t = (o, s') ->
  (o = Pending /\ Live asset ys s') \/
  (exists e, o = Ready (Some (Ok e)) /\ Live asset (ys ++ [e]) s') \/
  (terminal o = true /\ terminated s' = true /\ inner s' = None).
Proof.
  intros HL Hp. unfold poll_next, terminal_error, finish in Hp. rewrite (live_open _ _ _ HL) in Hp.
  destruct (active_before t); [|simplify_eq; eauto].
  destruct (cancellation_ready t); [simplify_eq; eauto|].
  destruct (match deadline_passed t with Some p => _ | None => _ end); [simplify_eq; eauto|].
  destruct (inner s) as [i|] eqn:Hi; [|simplify_eq; eauto].
  destruct (poll_inner i) as [polled i'].
  destruct polled as [[[e|err]|]|]; [|simplify_eq; eauto..|simplify_eq; eauto using with_inner_Live].
  destruct (validate_envelope (with_inner s i') e) as [s1|err] eqn:Hv; [|simplify_eq; eauto].
  apply (validate_envelope_Ok asset ys) in Hv as [HL1 _]; [|by apply with_inner_Live].
  destruct (active_after t); injection Hp as <- <-; right; [left; eauto|by right].
Qed.

Lemma poll_all_terminated s ticks :
  terminated s = true -> poll_all s ticks = (replicate (length ticks) (Ready None), s).
Proof.
  intros Ht. induction ticks as [|t ticks IH]; [done|]. cbn [poll_all].
  unfold poll_next. rewrite Ht. by rewrite IH.
Qed.

Lemma yielded_ended n : yielded (replicate n (Ready None)) = [].
Proof. by induction n. Qed.

Lemma closes_cons o os :
  (terminal o = true -> os = replicate (length os) (Ready None)) -> closes os -> closes (o :: os).
Proof.
  intros Ho Hc [|i] [|j] x Hx Ht Hij Hj; try lia; cbn in *.
  - simplify_eq. rewrite (Ho Ht). apply lookup_replicate. split; [done|].
    rewrite (Ho Ht) in Hj. by rewrite length_replicate in Hj; lia.
  - eapply Hc; eauto; lia.
Qed.

Lemma closes_ended n : closes (replicate n (Ready None)).
Proof.
  intros i j o _ _ _ Hj. rewrite length_replicate in Hj. apply lookup_replicate. by split.
Qed.

Lemma poll_all_contract asset ticks : forall ys s os s',
  Live asset ys s -> poll_all s ticks = (os, s') ->
  Contract asset (ys ++ yielded os) /\ closes os /\
  (Exists (fun o => terminal o = true) os -> inner s' = None).
Proof.
  induction ticks as [|t ticks IH]; intros ys s os s' HL Hp; cbn [poll_all] in Hp.
  - simplify_eq. cbn. rewrite app_nil_r. split_and!; [by destruct HL|by intros i|].
    by intros ?%Exists_nil.
  - destruct (poll_next s t) as [o s1] eqn:Ho. destruct (poll_all s1 ticks) as [os1 s2] eqn:Hos.
    simplify_eq. destruct (poll_next_Live asset ys s t o s1 HL Ho) as [[-> HL1]|[(e & -> & HL1)|(Ht & Hterm & Hin)]].
    + destruct (IH _ _ _ _ HL1 Hos) as (Hc & Hcl & Hi). cbn. split_and!; [done|by apply closes_cons|].
      intros [?|?]%Exists_cons; [done|auto].
    + destruct (IH _ _ _ _ HL1 Hos) as (Hc & Hcl & Hi). cbn. rewrite <- app_assoc in Hc.
      split_and!; [done|by apply closes_cons|]. intros [?|?]%Exists_cons; [done|auto].
    + rewrite poll_all_terminated in Hos by done. simplify_eq.
      split_and!; [| |by intros].
      * assert (yielded (o :: replicate (length ticks) (Ready None)) = []) as ->.
        { unfold yielded. cbn. fold (yielded (replicate (length ticks) (Ready None))).
          destruct o as [[[|]|]|]; cbn in Ht; try done; apply yielded_ended. }
        rewrite app_nil_r. by destruct HL.
      * apply closes_cons; [|apply closes_ended]. by rewrite length_replicate.
Qed.

(** ** Transparency *)

(** What the wrapped stream alone answers to [n] polls. *)
Fixpoint inner_all (i : Inner) (n : nat) : list (Poll (option BatchItem)) :=
  match n with
  | 0 => []
  | S n => let '(o, i) := poll_inner i in o :: inner_all i n
  end.
(** The same with nothing after the first terminal answer. *)
Fixpoint cut (os : list (Poll (option BatchItem))) : list (Poll (option BatchItem)) :=
  match os with
  | [] => []
  | o :: os => o :: if terminal o then replicate (length os) (Ready None) else cut os
  end.

Definition quiet (t : Tick) : Prop :=
  active_before t = Ok tt /\ cancellation_ready t = false /\ deadline_passed t <> Some true /\
  sleep_ready t = false /\ active_after t = Ok tt.

Lemma length_inner_all n : forall i, length (inner_all i n) = n.
Proof.
  induction n as [|n IH]; intros i; [done|]. cbn. destruct (poll_inner i). cbn. by rewrite IH.
Qed.

Lemma Contract_app_l asset ys zs : Contract asset (ys ++ zs) -> Contract asset ys.
Proof.
  intros Hc i e He. destruct (Hc i e) as (? & ? & Hf); [by apply lookup_app_l_Some|].
  split_and!; [done|done|]. intros first Hh. apply Hf. by destruct ys.
Qed.

Lemma validate_envelope_complete asset ys s e :
  Live asset ys s -> continues asset ys e -> (N.of_nat (length ys) < 2 ^ 64)%N ->
  exists s', validate_envelope s e = Ok s'.
Proof.
  intros [Ho Hi Ha Hn Hs Hc] (He & Hseq & Hf) Hlt. unfold validate_envelope.
  rewrite Ha, He, N.eqb_refl, Hn, (proj2 (N.ltb_lt _ _) Hlt). cbn [negb ok_or mbind result_bind].
  rewrite Hseq, N.eqb_refl, Hs. cbn [negb]. destruct ys as [|y ys]; cbn; [eauto|].
  destruct (Hf y) as [-> ->]; [done|]. rewrite !bool_decide_false by congruence. cbn. eauto.
Qed.

Lemma poll_next_quiet s t i :
  terminated s = false -> inner s = Some i -> quiet t ->
  poll_next s t =
  let '(polled, i) := poll_inner i in
  let s := with_inner s i in
  match polled with
  | Ready (Some (Ok envelope)) =>
      match validate_envelope s envelope with
      | Ok s => (Ready (Some (Ok envelope)), s)
      | Err e => terminal_error s e
      end
  | Ready (Some (Err e)) => terminal_error s e
  | Ready None => finish s
  | Pending => (Pending, s)
  end.
Proof.
  intros Ht Hi (Hb & Hc & Hd & Hs & Ha). unfold poll_next. rewrite Ht, Hb, Hc, Hs, Ha, Hi.
  destruct (deadline_passed t) as [[]|]; [done|done|done].
Qed.

Lemma poll_all_transparent asset ticks : forall ys s i,
  Live asset ys s -> inner s = Some i -> Forall quiet ticks ->
  let out := cut (inner_all i (length ticks)) in
  Contract asset (ys ++ yielded out) -> (N.of_nat (length (ys ++ yielded out)) <= 2 ^ 64)%N ->
  (poll_all s ticks).1 = out.
Proof.
  induction ticks as [|t ticks IH]; intros ys s i HL Hi Hq out Hc Hlen; [done|].
  apply Forall_cons in Hq as [Ht Hq]. subst out. cbn [poll_all length inner_all] in *.
  rewrite (poll_next_quiet s t i); [|apply HL|done|done].
  destruct (poll_inner i) as [polled i'] eqn:Hp. cbn [cut] in *.
  assert (forall s', terminated s' = true -> (poll_all s' ticks).1 =
            replicate (length (inner_all i' (length ticks))) (Ready None)) as Hend.
  { intros s' Hs'. by rewrite poll_all_terminated, length_inner_all. }
  destruct polled as [[[e|err]|]|]; cbn [terminal] in *.
  - cbn in Hc, Hlen. rewrite (cons_middle e ys), app_assoc in Hc. rewrite (cons_middle e ys), app_assoc in Hlen.
    assert (Live asset ys (with_inner s i')) as HL' by by apply with_inner_Live.
    pose proof (Contract_app_l _ _ _ Hc) as [_ Hcont]%Contract_snoc.
    destruct (validate_envelope_complete asset ys (with_inner s i') e) as [s1 Hv]; [done|done| |].
    { rewrite !length_app in Hlen. cbn in Hlen. lia. }
    rewrite Hv. apply (validate_envelope_Ok asset ys) in Hv as [HL1 Hi1]; [|done].
    specialize (IH _ s1 i' HL1 Hi1 Hq Hc Hlen). destruct (poll_all s1 ticks). cbn in *. by subst.
  - unfold terminal_error. specialize (Hend (terminate (with_inner s i')) eq_refl).
    destruct (poll_all _ ticks). cbn in *. by subst.
  - unfold finish. specialize (Hend (terminate (with_inner s i')) eq_refl).
    destruct (poll_all _ ticks). cbn in *. by subst.
  - specialize (IH ys (with_inner s i') i' (with_inner_Live _ _ _ _ HL) eq_refl Hq Hc Hlen).
    destruct (poll_all _ ticks). cbn in *. by subst.
Qed.
End stream.

(** ** Claims *)

(** Whatever the wrapped stream answers and whenever the request is
    cancelled or times out, the batches that come out carry the sequence
    numbers 0, 1, 2, ... without a gap, the expected asset and one schema;
    an error or the end is delivered at most once and is followed by nothing
    but the end; and once that has happened the wrapped stream has been
    dropped. *)
Theorem stream_contract {Payload Fingerprint Inner : Type} `{!EqDecision Fingerprint}
  (poll_inner : Inner -> Poll (option (BatchItem (Payload := Payload) (Fingerprint := Fingerprint))) * Inner)
  (i : Inner) (asset : Uuid) (ticks : list Tick) :
  let '(outs, s) := poll_all poll_inner (stream_new i asset) ticks in
  Contract asset (yielded outs) /\ closes outs /\
  (Exists (fun o => terminal o = true) outs -> inner s = None).
Proof.
  destruct (poll_all _ _ _) as [outs s] eqn:Hp.
  by apply (poll_all_contract poll_inner asset ticks [] (stream_new i asset)); [apply stream_new_Live|].
Qed.

(** The wrapper adds nothing of its own.  While the request is neither
    cancelled nor late, a wrapped stream whose batches satisfy the contract
    is passed through unchanged, answer by answer, up to its first terminal
    answer. *)
Theorem stream_transparent {Payload Fingerprint Inner : Type} `{!EqDecision Fingerprint}
  (poll_inner : Inner -> Poll (option (BatchItem (Payload := Payload) (Fingerprint := Fingerprint))) * Inner)
  (i : Inner) (asset : Uuid) (ticks : list Tick) :
  Forall quiet ticks ->
  let out := cut (inner_all poll_inner i (length ticks)) in
  Contract asset (yielded out) -> (N.of_nat (length (yielded out)) <= 2 ^ 64)%N ->
  (poll_all poll_inner (stream_new i asset) ticks).1 = out.
Proof.
  intros Hq out Hc Hl. by apply (poll_all_transparent poll_inner asset ticks [] _ i);
    [apply stream_new_Live|..].
Qed.

(** A wrapped stream that plays a list of answers. *)
Definition play (l : list (Poll (option (BatchItem (Payload := unit) (Fingerprint := N)))))
  : Poll (option BatchItem) * list (Poll (option BatchItem)) :=
  match l with [] => (Ready None, []) | o :: l => (o, l) end.
Definition example_envelope (n : N) : BatchEnvelope (Payload := unit) (Fingerprint := N) :=
  mkEnvelope 7%N n 1%N schema_empty tt.
Definition quiet_tick : Tick := mkTick (Ok tt) false (Some false) false (Ok tt).

Definition example_answers : list (Poll (option (BatchItem (Payload := unit) (Fingerprint := N)))) :=
  [Pending; Ready (Some (Ok (example_envelope 0))); Ready (Some (Ok (example_envelope 1))); Ready None].

Lemma stream_transparent_witness :
  (poll_all play (stream_new example_answers 7%N) (replicate 5 quiet_tick)).1 =
  example_answers ++ [Ready None].
Proof.
  refine (stream_transparent play example_answers 7%N (replicate 5 quiet_tick) _ _ _).
  - repeat constructor; discriminate.
  - intros [|[|j]] e He; vm_compute in He; [injection He as <-..|discriminate];
      (split; [reflexivity|split; [reflexivity|intros first Hf; injection Hf as <-; split; reflexivity]]).
  - vm_compute. discriminate.
Defined.
