(* ===== verification/Nodes.v ===== *)
(** * Product nodes: [stillflow-core/src/node_graph]

    A node graph is made of configured nodes.  This file holds the node
    document with its local limits ([mod.rs]), the definition records with
    the shared config checks ([definition.rs]) and the thirteen built-in node
    types ([definitions/*.rs]).  Serde is a parameter: [Serde] lists the
    serialiser and the derived deserialisers the code calls. *)

From stdpp Require Import pretty.
From S2P Require Import Prelude Text Secrets Logical Schema Expression Rule Plan Semantics.

(** ** Limits and errors *)

Definition NODE_GRAPH_VERSION : N := 1.
Definition MAX_GRAPH_BYTES : N := 2 * 1024 * 1024.
Definition MAX_NODES : N := 64.
Definition MAX_EDGES : N := MAX_NODES - 1.
Definition MAX_CONFIG_BYTES : N := 64 * 1024.
Definition MAX_TOTAL_CONFIG_BYTES : N := 1024 * 1024.
Definition MAX_STRING_BYTES : N := 4 * 1024.
Definition MAX_METADATA_BYTES : N := 64 * 1024.
Definition MAX_NESTING_DEPTH : N := 64.

Definition NodeId := Uuid.
Definition PortId := string.
#[export] Instance NodeId_eq_dec : EqDecision NodeId := N.eq_dec.
#[export] Instance NodeId_countable : Countable NodeId := N_countable.
#[export] Instance PortId_eq_dec : EqDecision PortId := String.eq_dec.
#[export] Instance PortId_countable : Countable PortId := String.countable.

Record NodeGraphError := mkGraphError {
  graph_code : NodeGraphErrorCode;
  graph_node : option NodeId;
  graph_field_path : option string;
  graph_message : string;
}.
Notation Graph := (result NodeGraphError).

(** [NodeGraphError::new] *)
Definition graph_error (code : NodeGraphErrorCode) (node : option NodeId) (message : string)
  : NodeGraphError := mkGraphError code node None message.
Definition with_field_path (e : NodeGraphError) (field : string) : NodeGraphError :=
  mkGraphError (graph_code e) (graph_node e) (Some field) (graph_message e).

(** ** Bounded strings and documents *)

Definition validate_string (value : string) (node : option NodeId) (field : string) : Graph unit :=
  if (MAX_STRING_BYTES <? str_len value)%N
  then Err (graph_error Code.LimitStringBytes node
              (field +:+ " exceeds " +:+ pretty MAX_STRING_BYTES +:+ " UTF-8 bytes"))
  else Ok tt.

Definition is_ascii (s : string) : bool := forallb (fun b => (b <? 128)%N) (bytes_of s).

Definition PortId_new (value : string) : Graph PortId :=
  try! validate_string value None "port id";
  if (str_len value =? 0)%N || negb (is_ascii value)
  then Err (graph_error Code.InvalidPort None "port id must be non-empty ASCII")
  else Ok value.

(** A key or value of a [BTreeMap<String, String>] and the running size. *)
Definition metadata_entry (node : option NodeId) (bytes : N) (entry : string * string) : Graph N :=
  try! validate_string entry.1 node "metadata key";
  try! validate_string entry.2 node "metadata value";
  ok_or (total ← checked_add bytes (str_len entry.1); checked_add total (str_len entry.2))
    (graph_error Code.LimitMetadataBytes node "metadata size overflowed").

Definition validate_metadata (metadata : gmap string string) (node : option NodeId) : Graph N :=
  bytes ← fold_result (metadata_entry node) 0%N (btree_iter metadata);
  try! map_err (fun _ => graph_error Code.InvalidConfig node "metadata contains secret-like data")
    (ensure_no_secret_fields (metadata_to_value metadata));
  Ok bytes.

(** The stack of [validate_json_limits]: a value and its depth. *)
Inductive JsonAt := JAt (value : json) (depth : N).

Fixpoint json_weight (v : json) : nat :=
  match v with
  | JArray items => S (sum_list_with json_weight items)
  | JObject entries => S (sum_list_with (fun e => json_weight e.2) entries)
  | _ => 1
  end.
Definition json_pushes (p : JsonAt) : list JsonAt :=
  let '(JAt v depth) := p in
  match v with
  | JArray items => (fun item => JAt item (depth + 1)%N) <$> items
  | JObject entries => (fun e => JAt e.2 (depth + 1)%N) <$> entries
  | _ => []
  end.
Definition json_at_weight (p : JsonAt) : nat := let '(JAt v _) := p in json_weight v.
Lemma json_pushes_weight p : sum_list_with json_at_weight (json_pushes p) < json_at_weight p.
Proof.
  destruct p as [v d]. destruct v; cbn -[sum_list_with]; rewrite ?sum_list_with_fmap; simpl;
    apply Nat.lt_succ_diag_r || lia.
Qed.
#[export] Instance JsonAt_tree : Tree JsonAt := {|
  children := json_pushes;
  weight := json_at_weight;
  weight_children := json_pushes_weight;
|}.

Definition json_limit_step (node : option NodeId) (_ : unit) (p : JsonAt)
  : Graph (unit * list JsonAt) :=
  let '(JAt current depth) := p in
  if (MAX_NESTING_DEPTH <? depth)%N
  then Err (graph_error Code.LimitNestingDepth node "JSON nesting depth bound exceeded")
  else match current with
  | JObject entries =>
      try! each (fun e => validate_string e.1 node "config key") entries;
      Ok (tt, json_pushes p)
  | JArray _ => Ok (tt, json_pushes p)
  | JString text => try! validate_string text node "config string"; Ok (tt, [])
  | JNull | JBool _ | JNumber _ => Ok (tt, [])
  end.
Definition validate_json_limits (value : json) (node : option NodeId) : Graph unit :=
  run (json_limit_step node) (Ok tt) tt [JAt value 1].

(** [Map::get], [Map::contains_key], [Map::keys] *)
Definition json_get (entries : list (string * json)) (key : string) : option json :=
  (fun r => r.2.2) <$> list_find (fun e => e.1 = key) entries.
Definition as_object (v : json) : option (list (string * json)) :=
  match v with JObject entries => Some entries | _ => None end.
Definition is_object (v : json) : bool := bool_decide (is_Some (as_object v)).
Definition is_null (v : json) : bool := match v with JNull => true | _ => false end.

(** ** The typed configuration of a node *)

Inductive CastFailurePolicy := CastError | CastSetNull.
Inductive TextOperation :=
| TextTrim | TextCollapseWhitespace | TextLowercase | TextUppercase | TextUnicodeNfc.
Inductive SortDirection := SortAscending | SortDescending.
Inductive NullPlacement := PlaceFirst | PlaceLast.
Record SortKey := mkNodeSortKey {
  key_column : ColumnId;
  key_direction : SortDirection;
  key_nulls : NullPlacement;
}.

Inductive ValidatedNodeConfig :=
| VComposite (steps : list ValidatedNodeConfig)
| VSource (source_asset_id : Uuid) (projection : option (list ColumnId))
| VSelect (columns : list ColumnId)
| VFilter (predicate : Expr)
| VRename (column : ColumnId) (to : string)
| VTrim (column : ColumnId)
| VNormalizeText (column : ColumnId) (operation : TextOperation)
| VCast (column : ColumnId) (data_type : LogicalType) (on_failure : CastFailurePolicy)
    (format : option string)
| VReplaceLiteral (column : ColumnId) (from to : ScalarValue)
| VFillNull (column : ColumnId) (value : ScalarValue)
| VDropColumn (column : ColumnId)
| VDeriveColumn (id : ColumnId) (name : string) (data_type : LogicalType) (nullable : bool)
    (expression : Expr)
| VOutput (output_label : string)
| VSort (keys : list SortKey).

(** ** The config data the node types deserialise *)

Record SourceConfigData := mkSourceData {
  sd_source_asset_id : Uuid; sd_projection : option (list ColumnId) }.
Record SelectConfigData := mkSelectData { sel_columns : list ColumnId }.
Record FilterConfigData := mkFilterData { fd_predicate : Expr }.
Record RenameConfigData := mkRenameData { rd_column : ColumnId; rd_to : string }.
Record ColumnConfigData := mkColumnData { cd_column : ColumnId }.
Record NormalizeTextConfigData := mkNormalizeData {
  nd_column : ColumnId; nd_operation : TextOperation }.
Record CastConfigData := mkCastData {
  ca_column : ColumnId; ca_data_type : LogicalType; ca_on_failure : CastFailurePolicy;
  ca_format : option string; ca_timezone : option string }.
Record ReplaceLiteralConfigData := mkReplaceData {
  rl_column : ColumnId; rl_from : ScalarValue; rl_to : ScalarValue }.
Record FillNullConfigData := mkFillData { fn_column : ColumnId; fn_value : ScalarValue }.
Record DeriveColumnConfigData := mkDeriveData {
  de_id : ColumnId; de_name : string; de_data_type : LogicalType; de_nullable : bool;
  de_expression : Expr }.
Record SortConfigData := mkSortData { so_keys : list SortKey }.
Record OutputConfigData := mkOutputData { od_output_label : string }.

(** What the code uses of serde, serde_json and uuid: [to_vec] of a value and
    [from_value] at each type it is instantiated with. *)
Class Serde := {
  value_to_vec : json -> option (list N);
  from_source : json -> option SourceConfigData;
  from_select : json -> option SelectConfigData;
  from_filter : json -> option FilterConfigData;
  from_rename : json -> option RenameConfigData;
  from_column : json -> option ColumnConfigData;
  from_normalize : json -> option NormalizeTextConfigData;
  from_cast : json -> option CastConfigData;
  from_replace : json -> option ReplaceLiteralConfigData;
  from_fill : json -> option FillNullConfigData;
  from_derive : json -> option DeriveColumnConfigData;
  from_sort : json -> option SortConfigData;
  from_output : json -> option OutputConfigData;
  from_expr : json -> option Expr;
  from_type : json -> option LogicalType;
  from_scalar : json -> option ScalarValue;
  from_policy : json -> option CastFailurePolicy;
  uuid_parse_str : string -> option Uuid;
  uuid_to_string : Uuid -> string;
}.

(** ** The node document *)

Record NodeConfig := mkNodeConfig {
  node_id : NodeId;
  type_id : string;
  config_version : N;
  config : json;
  node_metadata : gmap string string;
}.

Section node_config.
Context `{Serde}.

(** The size of the serialised config. *)
Definition validate_local (node : NodeConfig) : Graph N :=
  if is_nil (node_id node)
  then Err (graph_error Code.InvalidConfig (Some (node_id node)) "node id must not be nil") else
  try! validate_string (type_id node) (Some (node_id node)) "type id";
  if (str_len (type_id node) =? 0)%N
  then Err (graph_error Code.InvalidConfig (Some (node_id node)) "type id must not be empty") else
  if negb (is_object (config node))
  then Err (graph_error Code.InvalidConfig (Some (node_id node)) "node config must be a JSON object") else
  config_bytes ← ok_or (value_to_vec (config node))
    (graph_error Code.InvalidConfig (Some (node_id node)) "node config could not be serialized");
  if (MAX_CONFIG_BYTES <? len config_bytes)%N
  then Err (graph_error Code.LimitConfigBytes (Some (node_id node))
              ("node config exceeds " +:+ pretty MAX_CONFIG_BYTES +:+ " bytes")) else
  try! validate_json_limits (config node) (Some (node_id node));
  try! map_err (fun _ => graph_error Code.InvalidConfig (Some (node_id node))
                           "node config contains secret-like data")
    (ensure_no_secret_fields (config node));
  try! validate_metadata (node_metadata node) (Some (node_id node));
  Ok (len config_bytes).

(** [NodeConfig::from_parts], behind [new] and the deserialiser. *)
Definition node_config_new (id : NodeId) (type_id : string) (config_version : N) (config : json)
  (metadata : gmap string string) : Graph NodeConfig :=
  let node := mkNodeConfig id type_id config_version config metadata in
  try! validate_local node; Ok node.
End node_config.

(** ** Definitions: the catalog vocabulary *)

Inductive ConfigValueKind :=
| KUuid | KColumnId | KColumnIdList | KString | KBoolean | KExpression | KLogicalType
| KScalarValue | KCastFailurePolicy.
#[export] Instance ConfigValueKind_eq_dec : EqDecision ConfigValueKind.
Proof. solve_decision. Defined.

Record ConfigConstraints := mkConstraints {
  enum_values : option (list string);
  min_length : option N;
  max_length : option N;
  min_items : option N;
  max_items : option N;
  unique_items : option bool;
  ordered : option bool;
  non_empty : option bool;
  non_null : option bool;
  byte_bound : option N;
}.
Definition default_for : ConfigConstraints :=
  mkConstraints None None None None None None None None None None.
Definition with_enum_values (values : list string) (c : ConfigConstraints) : ConfigConstraints :=
  mkConstraints (Some values) (min_length c) (max_length c) (min_items c) (max_items c)
    (unique_items c) (ordered c) (non_empty c) (non_null c) (byte_bound c).
Definition with_list_bounds (items : N) (unique : bool) (c : ConfigConstraints) : ConfigConstraints :=
  mkConstraints (enum_values c) (min_length c) (max_length c) (Some items) (max_items c)
    (Some unique) (ordered c) (non_empty c) (non_null c) (byte_bound c).
Definition set_ordered (c : ConfigConstraints) : ConfigConstraints :=
  mkConstraints (enum_values c) (min_length c) (max_length c) (min_items c) (max_items c)
    (unique_items c) (Some true) (non_empty c) (non_null c) (byte_bound c).
Definition set_non_empty (c : ConfigConstraints) : ConfigConstraints :=
  mkConstraints (enum_values c) (min_length c) (max_length c) (min_items c) (max_items c)
    (unique_items c) (ordered c) (Some true) (non_null c) (byte_bound c).
Definition set_non_null (c : ConfigConstraints) : ConfigConstraints :=
  mkConstraints (enum_values c) (min_length c) (max_length c) (min_items c) (max_items c)
    (unique_items c) (ordered c) (non_empty c) (Some true) (byte_bound c).
Definition with_byte_bound (bound : N) (c : ConfigConstraints) : ConfigConstraints :=
  mkConstraints (enum_values c) (min_length c) (max_length c) (min_items c) (max_items c)
    (unique_items c) (ordered c) (non_empty c) (non_null c) (Some bound).

Record ConfigField := mkConfigField {
  cf_name : string;
  value_kind : ConfigValueKind;
  required : bool;
  constraints : option ConfigConstraints;
}.
Record ConfigSchema := mkConfigSchema {
  cs_fields : list ConfigField;
  additional_properties : bool;
}.

Inductive SupportCondition :=
| RequiresType (t : LogicalType)
| RequiresNonNullable
| RequiresNullable
| ForbidsType (t : LogicalType)
| RequiresExecutableType
| MinFields (n : N).
Record PortSupportConditions := mkPortSupport { ps_port : PortId; conditions : list SupportCondition }.

Inductive NodeLoweringTarget := LScan | LProject | LFilter | LApplyRules | LMaterialize | LSort.
Inductive NodeRole := RoleSource | RoleTransform | RoleOutput.

(** Composite expansions: an operator and the bindings of its config fields. *)
Inductive CompositeBinding := Identity | LiteralBinding (value : json).
Record CompositeStep := mkStep { operator : string; bindings : gmap string CompositeBinding }.

Inductive DefinitionKind :=
| Atomic (validate : NodeConfig -> Graph ValidatedNodeConfig)
| CompositeKind (steps : list CompositeStep).

(** [support_status] has one value and is left out. *)
Record NodeDefinition := mkDefinition {
  def_type_id : string;
  def_config_version : N;
  display_name : string;
  description : string;
  config_schema : ConfigSchema;
  input_ports : list PortId;
  output_ports : list PortId;
  lowering_target : NodeLoweringTarget;
  support_conditions : list PortSupportConditions;
  role : NodeRole;
  def_kind : DefinitionKind;
}.

Definition composite_expansion (d : NodeDefinition) : option (list CompositeStep) :=
  match def_kind d with Atomic _ => None | CompositeKind steps => Some steps end.
Definition is_source (d : NodeDefinition) : bool :=
  match role d with RoleSource => true | _ => false end.
Definition is_output (d : NodeDefinition) : bool :=
  match role d with RoleOutput => true | _ => false end.

Definition validate_node_config (d : NodeDefinition) (node : NodeConfig) : Graph ValidatedNodeConfig :=
  if negb (bool_decide (type_id node = def_type_id d))
  then Err (graph_error Code.UnknownNodeType (Some (node_id node))
              "node type does not match its resolved definition") else
  if negb (config_version node =? def_config_version d)%N
  then Err (graph_error Code.UnsupportedConfigVersion (Some (node_id node))
              ("config version " +:+ pretty (config_version node) +:+ " is not supported for "
               +:+ def_type_id d)) else
  match def_kind d with
  | Atomic validate => validate node
  | CompositeKind _ =>
      Err (graph_error Code.Internal (Some (node_id node))
             "composite definitions resolve through the graph traversal")
  end.

Definition executable_input (port : PortId) : PortSupportConditions :=
  mkPortSupport port [RequiresExecutableType].

(** ** Shared config checks *)

Definition invalid_config (node : NodeConfig) (field : string) : NodeGraphError :=
  with_field_path
    (graph_error Code.InvalidConfig (Some (node_id node))
       ("node config field " +:+ field +:+ " is missing or invalid")) field.

(** [parse_config::<T>]; [from_value] is the deserialiser of [T]. *)
Definition parse_config {T} (from_value : json -> option T) (node : NodeConfig)
  (required : list (string * bool)) (optional : list string) : Graph T :=
  object ← ok_or (as_object (config node))
    (graph_error Code.InvalidConfig (Some (node_id node)) "node config must be an object");
  let allowed := required.*1 ++ optional in
  try! each (fun e => if bool_decide (e.1 ∈ allowed) then Ok tt else Err (invalid_config node e.1))
    object;
  try! each (fun r => if r.2 && negb (bool_decide (is_Some (json_get object r.1)))
                      then Err (invalid_config node r.1) else Ok tt) required;
  ok_or (from_value (config node))
    (graph_error Code.InvalidConfig (Some (node_id node))
       "node config has an invalid field shape or primitive type").

Definition validate_name (node : NodeConfig) (value field : string) : Graph unit :=
  try! validate_string value (Some (node_id node)) field;
  if is_blank value then Err (invalid_config node field) else Ok tt.

Definition validate_column (node : NodeConfig) (column : ColumnId) (field : string) : Graph unit :=
  if is_nil column then Err (invalid_config node field) else Ok tt.

(** One iteration of the loop of [validate_columns]. *)
Definition unique_column (node : NodeConfig) (field : string) (unique : gset ColumnId)
  (column : ColumnId) : Graph (gset ColumnId) :=
  try! validate_column node column field;
  if decide (column ∈ unique) then Err (invalid_config node field) else Ok ({[column]} ∪ unique).
Definition validate_columns (node : NodeConfig) (columns : list ColumnId) (field : string) : Graph unit :=
  (fun _ => tt) <$> fold_result (unique_column node field) ∅ columns.

Definition expression_step (node : NodeConfig) (field : string) (count : N) (p : Pending)
  : Graph (N * list Pending) :=
  let '(At current depth) := p in
  count ← ok_or (checked_add count 1)
    (graph_error Code.LimitCompileWork (Some (node_id node)) "expression node count overflowed");
  if (MAX_EXPR_NODES <? count)%N
  then Err (graph_error Code.LimitCompileWork (Some (node_id node)) "expression node bound exceeded") else
  if (MAX_EXPR_DEPTH <? depth)%N
  then Err (graph_error Code.LimitNestingDepth (Some (node_id node)) "expression depth bound exceeded") else
  match current with
  | Column column => if is_nil column then Err (invalid_config node field) else Ok (count, [])
  | _ => Ok (count, pending_pushes p)
  end.
Definition validate_expression (node : NodeConfig) (expression : Expr) (field : string) : Graph unit :=
  try! map_err (fun _ => invalid_config node field) (validate_shape expression);
  (fun _ => tt) <$> run (expression_step node field) (Err (invalid_config node field)) 0%N [At expression 1].

Definition validate_logical_type (node : NodeConfig) (t : LogicalType) (field : string) : Graph unit :=
  map_err (fun _ => invalid_config node field) (validate_type t).
Definition validate_scalar (node : NodeConfig) (value : ScalarValue) (field : string) : Graph unit :=
  map_err (fun _ => invalid_config node field) (validate_shape (Literal value)).

(** ** The built-in node types: [definitions/*.rs] *)

Section builtins.
Context `{Serde}.

Definition named (bound : ConfigConstraints -> ConfigConstraints) : option ConfigConstraints :=
  Some (bound default_for).
Definition bounded_name : option ConfigConstraints :=
  named (fun c => with_byte_bound MAX_STRING_BYTES (set_non_empty c)).
Definition utf8_input : list PortSupportConditions :=
  [mkPortSupport "in" [RequiresExecutableType; RequiresType TUtf8]].

(** [source.rs] *)
Definition source_validate (node : NodeConfig) : Graph ValidatedNodeConfig :=
  data ← parse_config from_source node [("sourceAssetId", true)] ["projection"];
  if is_nil (sd_source_asset_id data) then Err (invalid_config node "sourceAssetId") else
  if match as_object (config node) ≫= (fun o => json_get o "projection") with
     | Some v => is_null v | None => false end
  then Err (invalid_config node "projection") else
  try! match sd_projection data with
       | Some [] => Err (invalid_config node "projection")
       | Some projection => validate_columns node projection "projection"
       | None => Ok tt
       end;
  Ok (VSource (sd_source_asset_id data) (sd_projection data)).
Definition source_definition : NodeDefinition :=
  mkDefinition "stillflow.node.source" 1 "Source" "Authorized source asset input."
    (mkConfigSchema
       [mkConfigField "sourceAssetId" KUuid true None;
        mkConfigField "projection" KColumnIdList false
          (named (fun c => set_non_null (set_ordered (with_list_bounds 1 true c))))] false)
    [] ["out"] LScan [] RoleSource (Atomic source_validate).

(** [select.rs] *)
Definition select_validate (node : NodeConfig) : Graph ValidatedNodeConfig :=
  data ← parse_config from_select node [("columns", true)] [];
  match sel_columns data with
  | [] => Err (invalid_config node "columns")
  | _ =>
      try! validate_columns node (sel_columns data) "columns";
      Ok (VSelect (sel_columns data))
  end.
Definition select_definition : NodeDefinition :=
  mkDefinition "stillflow.node.select" 1 "Select" "Keep an ordered set of existing columns."
    (mkConfigSchema
       [mkConfigField "columns" KColumnIdList true
          (named (fun c => set_ordered (with_list_bounds 1 true c)))] false)
    ["in"] ["out"] LProject [executable_input "in"] RoleTransform (Atomic select_validate).

(** [filter.rs] *)
Definition filter_validate (node : NodeConfig) : Graph ValidatedNodeConfig :=
  data ← parse_config from_filter node [("predicate", true)] [];
  try! validate_expression node (fd_predicate data) "predicate";
  Ok (VFilter (fd_predicate data)).
Definition filter_definition : NodeDefinition :=
  mkDefinition "stillflow.node.filter" 1 "Filter" "Filter rows with a logical predicate."
    (mkConfigSchema [mkConfigField "predicate" KExpression true None] false)
    ["in"] ["out"] LFilter [executable_input "in"] RoleTransform (Atomic filter_validate).

(** [rename.rs] *)
Definition rename_validate (node : NodeConfig) : Graph ValidatedNodeConfig :=
  data ← parse_config from_rename node [("column", true); ("to", true)] [];
  try! validate_column node (rd_column data) "column";
  try! validate_name node (rd_to data) "to";
  Ok (VRename (rd_column data) (rd_to data)).
Definition rename_definition : NodeDefinition :=
  mkDefinition "stillflow.node.rename" 1 "Rename"
    "Rename one logical column without changing its identity."
    (mkConfigSchema
       [mkConfigField "column" KColumnId true None; mkConfigField "to" KString true bounded_name] false)
    ["in"] ["out"] LApplyRules [executable_input "in"] RoleTransform (Atomic rename_validate).

(** [trim.rs] *)
Definition trim_validate (node : NodeConfig) : Graph ValidatedNodeConfig :=
  data ← parse_config from_column node [("column", true)] [];
  try! validate_column node (cd_column data) "column";
  Ok (VTrim (cd_column data)).
Definition trim_definition : NodeDefinition :=
  mkDefinition "stillflow.node.trim" 1 "Trim" "Trim whitespace from one UTF-8 column."
    (mkConfigSchema [mkConfigField "column" KColumnId true None] false)
    ["in"] ["out"] LApplyRules utf8_input RoleTransform (Atomic trim_validate).

(** [cast.rs] *)
Definition cast_validate (node : NodeConfig) : Graph ValidatedNodeConfig :=
  data ← parse_config from_cast node [("column", true); ("dataType", true); ("onFailure", true)]
           ["format"; "timezone"];
  try! validate_column node (ca_column data) "column";
  try! validate_logical_type node (ca_data_type data) "dataType";
  try! match ca_format data with
       | Some format =>
           if negb (is_temporal (ca_data_type data)) then Err (invalid_config node "format") else
           if is_blank format then Err (invalid_config node "format") else Ok tt
       | None => Ok tt
       end;
  match ca_timezone data with
  | Some _ => Err (invalid_config node "timezone")
  | None => Ok (VCast (ca_column data) (ca_data_type data) (ca_on_failure data) (ca_format data))
  end.
Definition cast_definition : NodeDefinition :=
  mkDefinition "stillflow.node.cast" 1 "Cast"
    "Cast one logical column with an explicit failure policy."
    (mkConfigSchema
       [mkConfigField "column" KColumnId true None;
        mkConfigField "dataType" KLogicalType true None;
        mkConfigField "onFailure" KCastFailurePolicy true
          (named (with_enum_values ["setNull"; "error"]));
        mkConfigField "format" KString false bounded_name;
        mkConfigField "timezone" KString false bounded_name] false)
    ["in"] ["out"] LApplyRules [executable_input "in"] RoleTransform (Atomic cast_validate).

(** [replace_literal.rs] *)
Definition replace_literal_validate (node : NodeConfig) : Graph ValidatedNodeConfig :=
  data ← parse_config from_replace node [("column", true); ("from", true); ("to", true)] [];
  try! validate_column node (rl_column data) "column";
  try! validate_scalar node (rl_from data) "from";
  try! validate_scalar node (rl_to data) "to";
  Ok (VReplaceLiteral (rl_column data) (rl_from data) (rl_to data)).
Definition replace_literal_definition : NodeDefinition :=
  mkDefinition "stillflow.node.replace-literal" 1 "Replace literal"
    "Replace one typed literal in a column."
    (mkConfigSchema
       [mkConfigField "column" KColumnId true None; mkConfigField "from" KScalarValue true None;
        mkConfigField "to" KScalarValue true None] false)
    ["in"] ["out"] LApplyRules [executable_input "in"] RoleTransform
    (Atomic replace_literal_validate).

(** [fill_null.rs] *)
Definition fill_null_validate (node : NodeConfig) : Graph ValidatedNodeConfig :=
  data ← parse_config from_fill node [("column", true); ("value", true)] [];
  try! validate_column node (fn_column data) "column";
  if is_scalar_null (fn_value data) then Err (invalid_config node "value") else
  try! validate_scalar node (fn_value data) "value";
  Ok (VFillNull (fn_column data) (fn_value data)).
Definition fill_null_definition : NodeDefinition :=
  mkDefinition "stillflow.node.fill-null" 1 "Fill null"
    "Fill null values with one non-null literal."
    (mkConfigSchema
       [mkConfigField "column" KColumnId true None;
        mkConfigField "value" KScalarValue true (named set_non_null)] false)
    ["in"] ["out"] LApplyRules [executable_input "in"] RoleTransform (Atomic fill_null_validate).

(** [drop_column.rs] *)
Definition drop_column_validate (node : NodeConfig) : Graph ValidatedNodeConfig :=
  data ← parse_config from_column node [("column", true)] [];
  try! validate_column node (cd_column data) "column";
  Ok (VDropColumn (cd_column data)).
Definition drop_column_definition : NodeDefinition :=
  mkDefinition "stillflow.node.drop-column" 1 "Drop column" "Remove one logical column."
    (mkConfigSchema [mkConfigField "column" KColumnId true None] false)
    ["in"] ["out"] LApplyRules [mkPortSupport "in" [RequiresExecutableType; MinFields 2]]
    RoleTransform (Atomic drop_column_validate).

(** [derive_column.rs] *)
Definition derive_column_validate (node : NodeConfig) : Graph ValidatedNodeConfig :=
  data ← parse_config from_derive node
           [("id", true); ("name", true); ("dataType", true); ("nullable", true); ("expression", true)] [];
  try! validate_column node (de_id data) "id";
  try! validate_name node (de_name data) "name";
  try! validate_logical_type node (de_data_type data) "dataType";
  try! validate_expression node (de_expression data) "expression";
  Ok (VDeriveColumn (de_id data) (de_name data) (de_data_type data) (de_nullable data)
        (de_expression data)).
Definition derive_column_definition : NodeDefinition :=
  mkDefinition "stillflow.node.derive-column" 1 "Derive column"
    "Append one caller-identified column from a logical expression."
    (mkConfigSchema
       [mkConfigField "id" KColumnId true None; mkConfigField "name" KString true bounded_name;
        mkConfigField "dataType" KLogicalType true None; mkConfigField "nullable" KBoolean true None;
        mkConfigField "expression" KExpression true None] false)
    ["in"] ["out"] LApplyRules [executable_input "in"] RoleTransform (Atomic derive_column_validate).

(** [normalize_text.rs] *)
Definition OPERATION_VALUES : list string :=
  ["trim"; "collapseWhitespace"; "lowercase"; "uppercase"; "unicodeNfc"].
Definition normalize_text_validate (node : NodeConfig) : Graph ValidatedNodeConfig :=
  data ← parse_config from_normalize node [("column", true); ("operation", true)] [];
  try! validate_column node (nd_column data) "column";
  Ok (VNormalizeText (nd_column data) (nd_operation data)).
Definition normalize_text_definition : NodeDefinition :=
  mkDefinition "stillflow.node.normalize-text" 1 "Normalize text"
    "Apply one deterministic text normalization to one UTF-8 column."
    (mkConfigSchema
       [mkConfigField "column" KColumnId true None;
        mkConfigField "operation" KString true (named (with_enum_values OPERATION_VALUES))] false)
    ["in"] ["out"] LApplyRules utf8_input RoleTransform (Atomic normalize_text_validate).

(** [sort.rs] *)
Definition MIN_SORT_KEYS : N := 1.
Definition MAX_SORT_KEYS : N := 8.
Definition sort_key_step (node : NodeConfig) (keys : list SortKey) (key : SortKey)
  : Graph (list SortKey) :=
  if is_nil (key_column key) then Err (invalid_config node "keys") else
  if existsb (fun existing => (key_column existing =? key_column key)%N) keys
  then Err (invalid_config node "keys") else
  Ok (keys ++ [key]).
Definition sort_validate (node : NodeConfig) : Graph ValidatedNodeConfig :=
  data ← parse_config from_sort node [("keys", true)] [];
  if ((len (so_keys data) <? MIN_SORT_KEYS) || (MAX_SORT_KEYS <? len (so_keys data)))%N
  then Err (with_field_path
              (graph_error Code.InvalidConfig (Some (node_id node))
                 ("sort keys must number between " +:+ pretty MIN_SORT_KEYS +:+ " and "
                  +:+ pretty MAX_SORT_KEYS)) "keys") else
  keys ← fold_result (sort_key_step node) [] (so_keys data);
  Ok (VSort keys).
Definition sort_definition : NodeDefinition :=
  mkDefinition "stillflow.node.sort" 1 "Sort" "Stable ordering over explicit key columns."
    (mkConfigSchema
       [mkConfigField "keys" KColumnIdList true
          (Some (mkConstraints None None None (Some MIN_SORT_KEYS) (Some MAX_SORT_KEYS)
                   None None None None None))] false)
    ["in"] ["out"] LSort [mkPortSupport "in" [RequiresExecutableType; MinFields 1]]
    RoleTransform (Atomic sort_validate).

(** [output.rs] *)
Definition output_validate (node : NodeConfig) : Graph ValidatedNodeConfig :=
  data ← parse_config from_output node [("outputLabel", true)] [];
  try! validate_name node (od_output_label data) "outputLabel";
  Ok (VOutput (od_output_label data)).
Definition output_definition : NodeDefinition :=
  mkDefinition "stillflow.node.output" 1 "Output" "Declare the logical materialization label."
    (mkConfigSchema [mkConfigField "outputLabel" KString true bounded_name] false)
    ["in"] [] LMaterialize [] RoleOutput (Atomic output_validate).

(** The closed production list, in registration order. *)
Definition production_definitions : list NodeDefinition :=
  [source_definition; select_definition; filter_definition; rename_definition; trim_definition;
   cast_definition; replace_literal_definition; fill_null_definition; drop_column_definition;
   derive_column_definition; normalize_text_definition; sort_definition; output_definition].
End builtins.

(** ** What a validated configuration guarantees *)

Definition name_ok (s : string) : Prop := (str_len s <= MAX_STRING_BYTES)%N /\ is_blank s = false.
Definition distinct_columns (cs : list ColumnId) : Prop := Forall (fun c => c <> 0%N) cs /\ NoDup cs.
Definition expression_ok (e : Expr) : Prop :=
  ShapeOk e /\ bounded e /\ Forall (fun c => c <> 0%N) (columns_of e).

(** One node, or one step of a composite. *)
Definition AtomicOk (c : ValidatedNodeConfig) : Prop :=
  match c with
  | VComposite _ => False
  | VSource asset projection =>
      asset <> 0%N /\ from_option (fun cs => cs <> [] /\ distinct_columns cs) True projection
  | VSelect columns => columns <> [] /\ distinct_columns columns
  | VFilter predicate => expression_ok predicate
  | VRename column to => column <> 0%N /\ name_ok to
  | VTrim column | VNormalizeText column _ | VDropColumn column => column <> 0%N
  | VCast column t _ format =>
      column <> 0%N /\ validate_type t = Ok tt /\
      from_option (fun f => is_temporal t = true /\ is_blank f = false) True format
  | VReplaceLiteral column from to =>
      column <> 0%N /\ ShapeOk (Literal from) /\ ShapeOk (Literal to)
  | VFillNull column value => column <> 0%N /\ value <> SNull /\ ShapeOk (Literal value)
  | VDeriveColumn column name t _ e =>
      column <> 0%N /\ name_ok name /\ validate_type t = Ok tt /\ expression_ok e
  | VOutput label => name_ok label
  | VSort keys =>
      (1 <= len keys <= 8)%N /\ distinct_columns (key_column <$> keys)
  end.
Definition ConfigOk (c : ValidatedNodeConfig) : Prop :=
  match c with VComposite steps => Forall AtomicOk steps | _ => AtomicOk c end.

(** The role of a definition tells the source and the output apart. *)
Definition RoleOk (r : NodeRole) (c : ValidatedNodeConfig) : Prop :=
  match c with
  | VSource _ _ => r = RoleSource
  | VOutput _ => r = RoleOutput
  | _ => r = RoleTransform
  end.

Lemma validate_string_Ok s n f : validate_string s n f = Ok tt <-> (str_len s <= MAX_STRING_BYTES)%N.
Proof. unfold validate_string. destruct (N.ltb_spec MAX_STRING_BYTES (str_len s)); [split; [done|lia]|done]. Qed.

Lemma validate_name_Ok n s f : validate_name n s f = Ok tt <-> name_ok s.
Proof.
  unfold validate_name, name_ok. rewrite try_Ok, validate_string_Ok.
  destruct (is_blank s); naive_solver.
Qed.

Lemma validate_column_Ok n c f : validate_column n c f = Ok tt <-> c <> 0%N.
Proof. unfold validate_column, is_nil. destruct (N.eqb_spec c 0); naive_solver. Qed.

Lemma unique_column_Ok n f seen c s :
  unique_column n f seen c = Ok s <-> c <> 0%N /\ c ∉ seen /\ s = {[c]} ∪ seen.
Proof.
  unfold unique_column, validate_column, is_nil.
  destruct (N.eqb_spec c 0); cbn; [naive_solver|]. case_decide; naive_solver.
Qed.

Lemma unique_columns_fold n f cs : forall seen,
  (exists s, fold_result (unique_column n f) seen cs = Ok s) <->
  Forall (fun c => c <> 0%N) cs /\ NoDup cs /\ forall c, c ∈ cs -> c ∉ seen.
Proof.
  induction cs as [|c cs IH]; intros seen; cbn [fold_result].
  { split; [|eauto]. intros _. split_and!; [constructor..|by intros c ?%not_elem_of_nil]. }
  rewrite Forall_cons, NoDup_cons. split.
  - intros (s & (s1 & (? & ? & ->)%unique_column_Ok & Hs)%bind_Ok).
    destruct (proj1 (IH _) (ex_intro _ s Hs)) as (? & ? & ?). set_solver.
  - intros ((? & ?) & (? & ?) & Hc). destruct (proj2 (IH ({[c]} ∪ seen))) as [s Hs]; [set_solver|].
    exists s. apply bind_Ok. exists ({[c]} ∪ seen). split; [|done]. apply unique_column_Ok. set_solver.
Qed.

Lemma config_columns_Ok n cs f : validate_columns n cs f = Ok tt <-> distinct_columns cs.
Proof.
  unfold validate_columns, distinct_columns. rewrite fmap_Ok.
  pose proof (unique_columns_fold n f cs ∅) as Hf.
  transitivity (exists s, fold_result (unique_column n f) ∅ cs = Ok s); [naive_solver|].
  rewrite Hf. set_solver.
Qed.

(** The node's expression walk is the reference walk with every non-nil
    identity resolvable. *)
Inductive NonNil := non_nil_columns.
#[local] Instance NonNil_resolver : ColumnResolver NonNil := fun _ c =>
  if is_nil c then None else Some (mkField c "" TNull true ∅).

Lemma non_nil_resolves e :
  resolves non_nil_columns e <-> Forall (fun c => c <> 0%N) (columns_of e).
Proof.
  unfold resolves. rewrite Forall_forall. unfold resolve_column, NonNil_resolver, is_nil.
  apply forall_proper. intros c. destruct (N.eqb_spec c 0).
  - split; intros Hc Hin; specialize (Hc Hin); [by destruct Hc|done].
  - naive_solver.
Qed.

Lemma expression_step_refs n f count p r :
  (count <= MAX_EXPR_NODES)%N ->
  expression_step n f count p = Ok r <-> refs_step non_nil_columns count p = Ok r.
Proof.
  intros Hc. unfold expression_step, refs_step. destruct p as [e d]. rewrite nodes_next by done.
  assert (checked_add count 1 = Some (count + 1)%N) as ->.
  { apply checked_add_Some. unfold MAX_EXPR_NODES, usize_max in *. lia. }
  cbn -[MAX_EXPR_NODES MAX_EXPR_DEPTH]. destruct (MAX_EXPR_NODES <? _)%N, (MAX_EXPR_DEPTH <? d)%N; cbn; [done..|].
  destruct e as [c| | | | | | | | |]; [|split; congruence..].
  unfold resolve_column, NonNil_resolver. destruct (is_nil c); split; (done || congruence).
Qed.

Lemma expression_fold_refs n f l : forall count m,
  (count <= MAX_EXPR_NODES)%N ->
  fold_result (enter (expression_step n f)) count l = Ok m <->
  fold_result (enter (refs_step non_nil_columns)) count l = Ok m.
Proof.
  induction l as [|[e d] l IH]; intros count m Hc; cbn [fold_result]; [split; congruence|].
  rewrite !bind_Ok. apply exist_proper. intros count'. unfold enter at 1 3.
  rewrite !fmap_Ok. setoid_rewrite expression_step_refs; [|done].
  assert ((exists a, refs_step non_nil_columns count (At e d) = Ok a /\ a.1 = count') ->
    (count' <= MAX_EXPR_NODES)%N) as Hnext.
  { intros Ha. assert (enter (refs_step non_nil_columns) count (At e d) = Ok count') as He
      by (by apply fmap_Ok).
    pose proof (enter_refs_next _ _ _ _ _ Hc He) as ->.
    by apply (enter_refs non_nil_columns count e d Hc); eauto. }
  split; intros [Hr Hf]; (split; [done|]); apply IH; auto.
Qed.

Lemma expression_pushes n f count p count' ps :
  expression_step n f count p = Ok (count', ps) -> ps = children p.
Proof.
  destruct p as [e d]. unfold expression_step. destruct (checked_add _ _); [|done]. cbn -[MAX_EXPR_NODES].
  destruct (_ <? _)%N; [done|]. destruct (_ <? _)%N; [done|].
  destruct e; cbn; try congruence. destruct (is_nil _); congruence.
Qed.

Lemma validate_expression_Ok n e f : validate_expression n e f = Ok tt <-> expression_ok e.
Proof.
  transitivity (validate_expr_refs e non_nil_columns = Ok tt).
  - unfold validate_expression, validate_expr_refs. rewrite !try_Ok, !map_err_Ok, !fmap_Ok. f_equiv.
    rewrite (run_tree _ (expression_pushes n f)), (run_tree _ (refs_pushes non_nil_columns)).
    apply exist_proper. intros m. by rewrite expression_fold_refs.
  - rewrite validate_expr_refs_Ok. unfold expression_ok. by rewrite non_nil_resolves.
Qed.

Lemma sort_keys_fold node l : forall acc keys,
  distinct_columns (key_column <$> acc) ->
  fold_result (sort_key_step node) acc l = Ok keys ->
  keys = acc ++ l /\ distinct_columns (key_column <$> keys).
Proof.
  induction l as [|k l IH]; intros acc keys Hacc; cbn [fold_result].
  { intros [= <-]. by rewrite app_nil_r. }
  intros (acc' & Hstep & Hf)%bind_Ok. unfold sort_key_step, is_nil in Hstep.
  destruct (N.eqb_spec (key_column k) 0); [done|].
  destruct (existsb _ acc) eqn:He; [done|]. injection Hstep as <-.
  apply IH in Hf as [-> Hd]; [by rewrite <- app_assoc in *|].
  destruct Hacc as [Hz Hnd]. rewrite fmap_app. split; [apply Forall_app; split; [done|by repeat constructor]|].
  apply NoDup_app. split_and!; [done| |apply NoDup_singleton].
  intros c Hc ->%list_elem_of_singleton. apply list_elem_of_fmap in Hc as (k' & Heq & Hk').
  apply not_true_iff_false in He. apply He, existsb_exists. exists k'.
  split; [by apply list_elem_of_In|]. by apply N.eqb_eq.
Qed.

(** Peels the [?] operators of a successful validator. *)
Ltac peel H :=
  repeat match type of H with
  | _ ≫= _ = Ok _ =>
      let x := fresh "x" in let Hx := fresh "Hx" in
      apply bind_Ok in H as (x & Hx & H); try destruct x as [];
      rewrite ?validate_name_Ok, ?validate_column_Ok, ?config_columns_Ok, ?validate_expression_Ok in Hx
  end.

Section builtins_sound.
Context `{Serde}.

Lemma validate_logical_type_Ok node t f : validate_logical_type node t f = Ok tt <-> validate_type t = Ok tt.
Proof. apply map_err_Ok. Qed.
Lemma validate_scalar_Ok node v f : validate_scalar node v f = Ok tt <-> ShapeOk (Literal v).
Proof. unfold validate_scalar. by rewrite map_err_Ok, shape_exact. Qed.

Lemma source_sound node c : source_validate node = Ok c -> AtomicOk c /\ RoleOk RoleSource c.
Proof.
  unfold source_validate. intros (data & _ & Hc)%bind_Ok. unfold is_nil in Hc.
  destruct (N.eqb_spec (sd_source_asset_id data) 0); [done|].
  destruct (match _ with Some v => is_null v | None => false end); [done|].
  apply bind_Ok in Hc as ([] & Hp & [= <-]). split; [|done]. split; [done|].
  destruct (sd_projection data) as [[|p ps]|]; [done| |done].
  split; [done|]. by apply config_columns_Ok in Hp.
Qed.

Lemma select_sound node c : select_validate node = Ok c -> AtomicOk c /\ RoleOk RoleTransform c.
Proof.
  unfold select_validate. intros (data & _ & Hc)%bind_Ok.
  destruct (sel_columns data) as [|p ps] eqn:Hs; [done|].
  apply bind_Ok in Hc as ([] & Hp%config_columns_Ok & [= <-]). split; [|done].
  split; [done|by rewrite <- Hs in *].
Qed.

Lemma cast_sound node c : cast_validate node = Ok c -> AtomicOk c /\ RoleOk RoleTransform c.
Proof.
  unfold cast_validate. intros (data & _ & Hc)%bind_Ok.
  apply bind_Ok in Hc as ([] & Hcol%validate_column_Ok & Hc).
  apply bind_Ok in Hc as ([] & Ht%validate_logical_type_Ok & Hc).
  apply bind_Ok in Hc as ([] & Hf & Hc). destruct (ca_timezone data); [done|].
  injection Hc as <-. split; [|done]. split_and!; [done..|].
  destruct (ca_format data) as [f|]; [|done]. cbn.
  destruct (is_temporal (ca_data_type data)); [|done]. by destruct (is_blank f).
Qed.

Lemma sort_sound node c : sort_validate node = Ok c -> AtomicOk c /\ RoleOk RoleTransform c.
Proof.
  unfold sort_validate. intros (data & _ & Hc)%bind_Ok.
  destruct (N.ltb_spec (len (so_keys data)) MIN_SORT_KEYS); [done|].
  destruct (N.ltb_spec MAX_SORT_KEYS (len (so_keys data))); [done|]. cbn [orb] in Hc.
  apply bind_Ok in Hc as (keys & Hk & [= <-]).
  apply sort_keys_fold in Hk as [-> Hd]; [|split; constructor]. split; [|done].
  split; [by unfold MIN_SORT_KEYS, MAX_SORT_KEYS in *|done].
Qed.

Lemma fill_null_sound node c : fill_null_validate node = Ok c -> AtomicOk c /\ RoleOk RoleTransform c.
Proof.
  unfold fill_null_validate. intros (data & _ & Hc)%bind_Ok.
  apply bind_Ok in Hc as ([] & Hcol%validate_column_Ok & Hc).
  destruct (is_scalar_null (fn_value data)) eqn:Hn; [done|].
  apply bind_Ok in Hc as ([] & Hv%validate_scalar_Ok & [= <-]).
  split; [|done]. split_and!; [done| |done]. by intros Heq; rewrite Heq in Hn.
Qed.

(** Every built-in validator delivers a well-formed configuration of its
    role. *)
Lemma builtin_sound d validate node c :
  d ∈ production_definitions -> def_kind d = Atomic validate -> validate node = Ok c ->
  AtomicOk c /\ RoleOk (role d) c.
Proof.
  unfold production_definitions. intros Hd Hk Hc.
  repeat (apply elem_of_cons in Hd as [->|Hd]; [injection Hk as <-|]);
    [by apply (source_sound node)|by apply (select_sound node)| | | |by apply (cast_sound node)| |
     by apply (fill_null_sound node)| | | |by apply (sort_sound node)| |by apply not_elem_of_nil in Hd].
  all: cbv [filter_validate rename_validate trim_validate replace_literal_validate drop_column_validate
         derive_column_validate normalize_text_validate output_validate] in Hc;
       apply bind_Ok in Hc as (data & _ & Hc); peel Hc; injection Hc as <-; cbn;
       rewrite ?validate_logical_type_Ok, ?validate_scalar_Ok in *; done.
Qed.
Lemma production_atomic d : d ∈ production_definitions -> exists validate, def_kind d = Atomic validate.
Proof.
  unfold production_definitions. intros Hd.
  repeat (apply elem_of_cons in Hd as [->|Hd]; [by eexists|]). by apply not_elem_of_nil in Hd.
Qed.
End builtins_sound.
