(* ===== verification/Registry.v ===== *)
(** * The node registry and composite packages:
    [stillflow-core/src/node_graph/registry.rs] and [composite.rs]

    Definitions are kept sorted by type id and config version and found by
    binary search; a package adds a definition that expands into built-in
    operators. *)

From stdpp Require Import pretty.
From S2P Require Import Prelude Text Secrets Logical Schema Expression Rule Plan Semantics Nodes.

(** ** Registry *)

Record NodeRegistry := mkRegistry { definitions : list NodeDefinition }.

(** [type_id.cmp(..).then(config_version.cmp(..))] *)
Definition key_compare (t1 : string) (v1 : N) (t2 : string) (v2 : N) : comparison :=
  match String.compare t1 t2 with
  | Eq => (v1 ?= v2)%N
  | c => c
  end.
Definition def_compare (a b : NodeDefinition) : comparison :=
  key_compare (def_type_id a) (def_config_version a) (def_type_id b) (def_config_version b).
Definition def_le (a b : NodeDefinition) : Prop := def_compare a b <> Gt.
#[export] Instance def_le_dec : RelDecision def_le.
Proof. intros a b. unfold def_le. apply _. Defined.

Definition same_key (a b : NodeDefinition) : bool :=
  bool_decide (def_type_id a = def_type_id b) && (def_config_version a =? def_config_version b)%N.

(** The [windows(2)] loop. *)
Fixpoint reject_duplicates (l : list NodeDefinition) : Graph unit :=
  match l with
  | a :: ((b :: _) as rest) =>
      if same_key a b
      then Err (graph_error Code.InvalidConfig None
                  ("node type " +:+ def_type_id a +:+ " is registered more than once for config version "
                   +:+ pretty (def_config_version a)))
      else reject_duplicates rest
  | _ => Ok tt
  end.

Definition from_definitions (ds : list NodeDefinition) : Graph NodeRegistry :=
  let ds := merge_sort def_le ds in
  try! reject_duplicates ds; Ok (mkRegistry ds).

(** [slice::binary_search_by]: the window halves until one candidate is left. *)
Fixpoint probe {A} (f : A -> comparison) (fuel : nat) (l : list A) (base size : nat) : nat :=
  match fuel with
  | 0 => base
  | S fuel =>
      if (size <=? 1)%nat then base else
      let half := (size / 2)%nat in
      let mid := (base + half)%nat in
      let base := match l !! mid with
                  | Some a => match f a with Gt => base | _ => mid end
                  | None => base
                  end in
      probe f fuel l base (size - half)
  end.
Definition binary_search_by {A} (f : A -> comparison) (l : list A) : option nat :=
  let base := probe f (length l) l 0 (length l) in
  match l !! base with
  | Some a => match f a with Eq => Some base | _ => None end
  | None => None
  end.

Definition lookup_definition (r : NodeRegistry) (type_id : string) (version : N)
  : Graph NodeDefinition :=
  let type_exists := existsb (fun d => bool_decide (def_type_id d = type_id)) (definitions r) in
  match binary_search_by (fun d => key_compare (def_type_id d) (def_config_version d) type_id version)
          (definitions r) ≫= (fun index => definitions r !! index) with
  | Some d => Ok d
  | None =>
      if type_exists
      then Err (graph_error Code.UnsupportedConfigVersion None "node config version is not supported")
      else Err (graph_error Code.UnknownNodeType None "node type is not registered")
  end.

(** ** Packages *)

Definition ADMISSIBLE_OPERATORS : list string :=
  ["stillflow.node.select"; "stillflow.node.filter"; "stillflow.node.rename";
   "stillflow.node.trim"; "stillflow.node.cast"; "stillflow.node.replace-literal";
   "stillflow.node.fill-null"; "stillflow.node.drop-column"; "stillflow.node.derive-column"].
Definition MAX_PACKAGE_BYTES : N := 16 * 1024.
Definition MAX_PACKAGE_OPERATORS : N := 8.
Definition MAX_EXPANSION_STEPS : N := 4.

Record NodePackageDefinition := mkPackageDefinition {
  pd_display_name : string;
  pd_description : string;
  pd_config_schema : ConfigSchema;
  expansion : list CompositeStep;
  pd_support_conditions : list PortSupportConditions;
}.
Record NodePackage := mkPackage {
  package_format : N;
  namespace : string;
  package_name : string;
  package_version : string;
  content_digest : string;
  depends_on : list string;
  operators : list string;
  package_type_id : string;
  package_config_version : N;
  package_body : NodePackageDefinition;
}.

Inductive CompositeValue :=
| CVUuid (id : Uuid)
| CVColumnId (column : ColumnId)
| CVColumnIdList (columns : list ColumnId)
| CVString (s : string)
| CVBoolean (b : bool)
| CVExpression (e : Expr)
| CVLogicalType (t : LogicalType)
| CVScalar (v : ScalarValue)
| CVCastFailurePolicy (p : CastFailurePolicy).

Definition package_definition (package : NodePackage) : NodeDefinition :=
  mkDefinition (package_type_id package) (package_config_version package)
    (pd_display_name (package_body package)) (pd_description (package_body package))
    (pd_config_schema (package_body package)) ["in"] ["out"] LApplyRules
    (pd_support_conditions (package_body package)) RoleTransform
    (CompositeKind (expansion (package_body package))).

Definition is_ascii_digit (b : N) : bool := ((48 <=? b) && (b <=? 57))%N.
Definition is_ascii_lowercase (b : N) : bool := ((97 <=? b) && (b <=? 122))%N.

(** [str::split] at one ASCII character. *)
Fixpoint split_at (separator : N) (t : list N) : list (list N) :=
  match t with
  | [] => [[]]
  | b :: t =>
      if (b =? separator)%N then [] :: split_at separator t
      else match split_at separator t with
           | part :: parts => (b :: part) :: parts
           | [] => [[b]]
           end
  end.
Definition valid_semver (version : string) : bool :=
  let parts := split_at 46 (bytes_of version) in
  (len parts =? 3)%N &&
  forallb (fun part => negb (len part =? 0)%N && (len part <=? 6)%N && forallb is_ascii_digit part) parts.

Definition valid_namespace (namespace : string) : bool :=
  match bytes_of namespace with
  | first :: _ => is_ascii_lowercase first
  | [] => false
  end
  && (str_len namespace <=? 64)%N
  && forallb (fun b => is_ascii_lowercase b || is_ascii_digit b || (b =? 45)%N) (bytes_of namespace).

Definition invalid_package {A} (message : string) : Graph A :=
  Err (graph_error Code.InvalidConfig None message).

Section packages.
Context `{Serde}.
(** [serde_json::to_value] of a package document. *)
Context (package_to_value : NodePackage -> option json).

(** The canonical content: every field but the digest. *)
Definition package_content (package : NodePackage) : option json :=
  match package_to_value package with
  | Some (JObject entries) => Some (JObject (filter (fun e => e.1 <> "contentDigest") entries))
  | other => other
  end.

Definition validate_package (package : NodePackage) : Graph unit :=
  if negb (package_format package =? 1)%N then invalid_package "package format is not supported" else
  content ← ok_or (package_content package)
    (graph_error Code.InvalidConfig None "package document is not representable");
  if (MAX_PACKAGE_BYTES <? from_option len (MAX_PACKAGE_BYTES + 1) (value_to_vec content))%N
  then invalid_package "package document exceeds the frozen byte bound" else
  if negb (valid_namespace (namespace package)) then invalid_package "package namespace is invalid" else
  if negb (valid_semver (package_version package))
  then invalid_package "package version is not strict semver" else
  if negb (len (depends_on package) =? 0)%N
  then invalid_package "package dependencies are not authorized" else
  if (MAX_PACKAGE_OPERATORS <? len (operators package))%N
  then invalid_package "package operator list exceeds the frozen bound" else
  try! each (fun operator =>
         if bool_decide (operator ∈ ADMISSIBLE_OPERATORS) then Ok tt
         else invalid_package ("package operator " +:+ operator +:+ " is not admissible"))
    (operators package);
  if negb (starts_with (bytes_of "stillflow.composite.") (bytes_of (package_type_id package)))
     || negb (bool_decide (package_type_id package = "stillflow.composite." +:+ package_name package))
  then invalid_package "package type id must be stillflow.composite.<name>" else
  if negb (package_config_version package =? 1)%N
  then invalid_package "package config version must be 1" else
  let steps := expansion (package_body package) in
  if ((len steps =? 0) || (MAX_EXPANSION_STEPS <? len steps))%N
  then invalid_package "package expansion exceeds the frozen step bound" else
  try! each (fun step =>
         if bool_decide (operator step ∈ operators package) then Ok tt
         else invalid_package ("expansion step targets operator " +:+ operator step
                               +:+ " outside the package's declared operators")) steps;
  if negb (str_len (content_digest package) =? 71)%N
     || negb (starts_with (bytes_of "sha256-") (bytes_of (content_digest package)))
  then invalid_package "package content digest must be sha256-<64 hex>" else
  match filter (fun f => cf_name f = "column") (cs_fields (pd_config_schema (package_body package))) with
  | [f] =>
      if required f && bool_decide (value_kind f = KColumnId) then Ok tt
      else invalid_package "composite packages require one required `column` (columnId) field"
  | _ => invalid_package "composite packages require one required `column` (columnId) field"
  end.

(** One package of [with_packages]: the versions seen and the definitions. *)
Definition add_package (st : gmap (string * string * string) string * list NodeDefinition)
  (package : NodePackage) : Graph (gmap (string * string * string) string * list NodeDefinition) :=
  let '(seen_versions, ds) := st in
  try! validate_package package;
  let key := (namespace package, package_name package, package_version package) in
  try! match seen_versions !! key with
       | Some existing =>
           if bool_decide (existing = content_digest package) then Ok tt
           else invalid_package ("package content changed for " +:+ namespace package +:+ "/"
                  +:+ package_name package +:+ "/" +:+ package_version package +:+ "@" +:+ existing)
       | None => Ok tt
       end;
  Ok (<[key := content_digest package]> seen_versions, ds ++ [package_definition package]).

Definition with_packages (r : NodeRegistry) (packages : list NodePackage) : Graph NodeRegistry :=
  st ← fold_result add_package (∅, []) packages;
  from_definitions (definitions r ++ st.2).

(** ** Composite expansion *)

Definition as_str (v : json) : option string := match v with JString s => Some s | _ => None end.
Definition as_bool (v : json) : option bool := match v with JBool b => Some b | _ => None end.
Definition as_array (v : json) : option (list json) := match v with JArray l => Some l | _ => None end.
Definition as_uuid (v : json) : option Uuid := as_str v ≫= uuid_parse_str.

Definition parse_composite_value (node : NodeConfig) (kind : ConfigValueKind) (value : json)
  : Graph CompositeValue :=
  ok_or
    match kind with
    | KUuid => CVUuid <$> as_uuid value
    | KColumnId => CVColumnId <$> as_uuid value
    | KColumnIdList => items ← as_array value; CVColumnIdList <$> mapM as_uuid items
    | KString => CVString <$> as_str value
    | KBoolean => CVBoolean <$> as_bool value
    | KExpression => CVExpression <$> from_expr value
    | KLogicalType => CVLogicalType <$> from_type value
    | KScalarValue => CVScalar <$> from_scalar value
    | KCastFailurePolicy => CVCastFailurePolicy <$> from_policy value
    end
    (graph_error Code.InvalidConfig (Some (node_id node)) "composite config field is missing or invalid").

(** [field_error] is [invalid_config] of [definition.rs] under another name. *)
Definition field_error (node : NodeConfig) (field : string) : NodeGraphError :=
  with_field_path
    (graph_error Code.InvalidConfig (Some (node_id node))
       ("node config field " +:+ field +:+ " is missing or invalid")) field.

Definition composite_field (node : NodeConfig) (object : list (string * json))
  (values : gmap string CompositeValue) (field : ConfigField) : Graph (gmap string CompositeValue) :=
  match json_get object (cf_name field) with
  | Some value =>
      if is_null value then Err (field_error node (cf_name field)) else
      parsed ← parse_composite_value node (value_kind field) value;
      Ok (<[cf_name field := parsed]> values)
  | None => if required field then Err (field_error node (cf_name field)) else Ok values
  end.

Definition bind_field (node : NodeConfig) (identity_column : ColumnId)
  (entry : string * CompositeBinding) : Graph (string * json) :=
  match entry.2 with
  | Identity =>
      if negb (bool_decide (entry.1 = "column"))
      then Err (graph_error Code.InvalidConfig (Some (node_id node))
                  "identity bindings resolve to the column parameter")
      else Ok (entry.1, JString (uuid_to_string identity_column))
  | LiteralBinding value => Ok (entry.1, value)
  end.

(** One step of the expansion, at its [ordinal]. *)
Definition resolve_step (r : NodeRegistry) (node : NodeConfig) (identity_column : ColumnId)
  (entry : N * CompositeStep) : Graph ValidatedNodeConfig :=
  let '(ordinal, step) := entry in
  atomic ← map_err (fun error => graph_error Code.InvalidConfig (Some (node_id node))
             ("composite step " +:+ pretty ordinal +:+ " targets an unknown operator: "
              +:+ graph_message error)) (lookup_definition r (operator step) 1);
  step_config ← collect (bind_field node identity_column) (btree_iter (bindings step));
  synthetic ← node_config_new (node_id node) (operator step) 1 (JObject step_config) ∅;
  map_err (fun error => with_field_path
             (graph_error (graph_code error) (Some (node_id node))
                ("composite step " +:+ pretty ordinal +:+ " rejected: " +:+ graph_message error))
             ("steps[" +:+ pretty ordinal +:+ "]"))
    (validate_node_config atomic synthetic).

Definition resolve_composite (node : NodeConfig) (steps : list CompositeStep) (schema : ConfigSchema)
  (r : NodeRegistry) : Graph ValidatedNodeConfig :=
  object ← ok_or (as_object (config node))
    (graph_error Code.InvalidConfig (Some (node_id node)) "node config must be an object");
  values ← fold_result (composite_field node object) ∅ (cs_fields schema);
  try! each (fun e => if existsb (fun field => bool_decide (cf_name field = e.1)) (cs_fields schema)
                      then Ok tt else Err (field_error node e.1)) object;
  match values !! "column" with
  | Some (CVColumnId identity_column) =>
      VComposite <$> collect (resolve_step r node identity_column)
        (imap (fun ordinal step => (N.of_nat ordinal, step)) steps)
  | _ => Err (with_field_path
               (graph_error Code.InvalidConfig (Some (node_id node))
                  "composite expansion requires a column parameter") "column")
  end.

(** [NodeRegistry::new] and [deployed] unwrap these. *)
Definition registry_new : Graph NodeRegistry := from_definitions production_definitions.

Definition trim_clean_package : NodePackage :=
  mkPackage 1 "ops-clean" "trim-clean" "1.0.0"
    "sha256-997734d5099ca8d632aaeb652e59fa2b167da7c347b32b7df451365ace367e60"
    [] ["stillflow.node.trim"; "stillflow.node.replace-literal"]
    "stillflow.composite.trim-clean" 1
    (mkPackageDefinition "Trim clean" "Trim one UTF-8 column, then map empty strings to null."
       (mkConfigSchema [mkConfigField "column" KColumnId true None] false)
       [mkStep "stillflow.node.trim" {["column" := Identity]};
        mkStep "stillflow.node.replace-literal"
          (<["column" := Identity]> (<["from" := LiteralBinding
             (JObject [("kind", JString "utf8"); ("value", JString "")])]>
             {["to" := LiteralBinding (JObject [("kind", JString "null")])]}))]
       [mkPortSupport "in" [RequiresExecutableType; RequiresType TUtf8]]).
Definition deployed_packages : list NodePackage := [trim_clean_package].
Definition registry_deployed : Graph NodeRegistry :=
  r ← registry_new; with_packages r deployed_packages.
End packages.

(** ** Keys are totally ordered *)

Lemma key_compare_eq t1 v1 t2 v2 : key_compare t1 v1 t2 v2 = Eq <-> t1 = t2 /\ v1 = v2.
Proof.
  unfold key_compare. destruct (String.compare t1 t2) eqn:Ht.
  - apply String.compare_eq_iff in Ht as ->. rewrite N.compare_eq_iff. naive_solver.
  - split; [done|]. intros [-> _]. by rewrite string_compare_refl in Ht.
  - split; [done|]. intros [-> _]. by rewrite string_compare_refl in Ht.
Qed.

Lemma key_compare_antisym t1 v1 t2 v2 :
  key_compare t2 v2 t1 v1 = CompOpp (key_compare t1 v1 t2 v2).
Proof.
  unfold key_compare. rewrite (String.compare_antisym t2 t1).
  destruct (String.compare t1 t2); simpl; [apply N.compare_antisym|done..].
Qed.

Lemma key_compare_lt_trans t1 v1 t2 v2 t3 v3 :
  key_compare t1 v1 t2 v2 = Lt -> key_compare t2 v2 t3 v3 = Lt -> key_compare t1 v1 t3 v3 = Lt.
Proof.
  unfold key_compare. destruct (String.compare t1 t2) eqn:H12, (String.compare t2 t3) eqn:H23;
    try done; intros H1 H2.
  - apply String.compare_eq_iff in H12 as ->, H23 as ->. rewrite string_compare_refl.
    apply N.compare_lt_iff in H1, H2. apply N.compare_lt_iff. by eapply N.lt_trans.
  - apply String.compare_eq_iff in H12 as ->. by rewrite H23.
  - apply String.compare_eq_iff in H23 as <-. by rewrite H12.
  - by rewrite (string_compare_lt_trans _ _ _ H12 H23).
Qed.

Definition def_key (d : NodeDefinition) : string * N := (def_type_id d, def_config_version d).

Lemma def_compare_eq a b : def_compare a b = Eq <-> def_key a = def_key b.
Proof. unfold def_compare, def_key. rewrite key_compare_eq. split; [intros [-> ->]; done|by intros [= -> ->]]. Qed.

#[export] Instance def_le_total : Total def_le.
Proof.
  intros a b. unfold def_le, def_compare. rewrite (key_compare_antisym (def_type_id a)).
  destruct (key_compare _ _ _ _); simpl; [left|left|right]; done.
Qed.
#[export] Instance def_le_trans : Transitive def_le.
Proof.
  intros a b c. unfold def_le. intros Hab Hbc.
  destruct (def_compare a b) eqn:E1; [|destruct (def_compare b c) eqn:E2|done].
  - apply def_compare_eq in E1. unfold def_compare. unfold def_key in E1. injection E1 as -> ->. done.
  - apply def_compare_eq in E2. unfold def_compare in *. unfold def_key in E2.
    injection E2 as <- <-. by rewrite E1.
  - by rewrite (key_compare_lt_trans _ _ _ _ _ _ E1 E2 : def_compare a c = Lt).
  - done.
Qed.

Lemma same_key_spec a b : same_key a b = true <-> def_key a = def_key b.
Proof.
  unfold same_key, def_key. rewrite andb_true_iff, bool_decide_eq_true, N.eqb_eq. split; [intros [-> ->]; done|by intros [= -> ->]].
Qed.

(** In a sorted list equal keys are adjacent. *)
Lemma reject_duplicates_Ok l :
  StronglySorted def_le l -> reject_duplicates l = Ok tt <-> NoDup (def_key <$> l).
Proof.
  induction l as [|a l IH]; intros Hs; [by split; [constructor|]|].
  apply StronglySorted_inv in Hs as [Hs Ha]. specialize (IH Hs).
  rewrite fmap_cons, NoDup_cons. destruct l as [|b l]; [split; [intros _|done]; split;
    [apply not_elem_of_nil|constructor]|].
  change (reject_duplicates (a :: b :: l)) with
    (if same_key a b then Err (graph_error Code.InvalidConfig None
       ("node type " +:+ def_type_id a +:+ " is registered more than once for config version "
        +:+ pretty (def_config_version a))) else reject_duplicates (b :: l)).
  destruct (same_key a b) eqn:Hk.
  - apply same_key_spec in Hk. split; [done|]. intros [Hn _]. exfalso. apply Hn.
    rewrite Hk. left.
  - rewrite IH. split; [|by intros []]. intros Hnd. split; [|done].
    intros (c & Hc & Hin)%list_elem_of_fmap.
    apply not_true_iff_false in Hk. apply Hk, same_key_spec.
    apply elem_of_cons in Hin as [->|Hin]; [done|].
    apply Forall_cons in Ha as [Hab _]. apply StronglySorted_inv in Hs as [_ Hb].
    rewrite Forall_forall in Hb. specialize (Hb c Hin).
    destruct (def_compare a b) eqn:Ec; [by apply def_compare_eq| |done].
    destruct (def_compare b c) eqn:Ec'; [|exfalso|done].
    + apply def_compare_eq in Ec'. congruence.
    + pose proof (key_compare_lt_trans _ _ _ _ _ _ Ec Ec' : def_compare a c = Lt) as Hac.
      apply def_compare_eq in Hc. congruence.
Qed.

Lemma from_definitions_Ok ds r :
  from_definitions ds = Ok r <-> NoDup (def_key <$> ds) /\ r = mkRegistry (merge_sort def_le ds).
Proof.
  unfold from_definitions. rewrite bind_Ok.
  pose proof (reject_duplicates_Ok _ (StronglySorted_merge_sort def_le ds)) as Hr.
  assert (NoDup (def_key <$> merge_sort def_le ds) <-> NoDup (def_key <$> ds)) as Hp
    by (by rewrite (fmap_Permutation def_key _ _ (merge_sort_Permutation def_le ds))).
  rewrite Hp in Hr. split.
  - intros ([] & ? & [= <-]). by rewrite <- Hr.
  - intros [? ->]. exists tt. by rewrite Hr.
Qed.

(** ** Binary search *)

Section search.
Context {A : Type} (f : A -> comparison) (l : list A).
(** The comparator sees the slice as [Lt .. Lt, Eq, Gt .. Gt]. *)
Definition unimodal : Prop := forall i j a b,
  i < j -> l !! i = Some a -> l !! j = Some b -> f b <> Gt -> f a = Lt.
Definition unimodal_above : Prop := forall i j a b,
  i < j -> l !! i = Some a -> l !! j = Some b -> f a <> Lt -> f b = Gt.
Context (Hbelow : unimodal) (Habove : unimodal_above).

Lemma probe_spec i a fuel : forall base size,
  l !! i = Some a -> f a = Eq ->
  base <= i < base + size -> base + size <= length l -> size <= fuel ->
  probe f fuel l base size = i.
Proof.
  induction fuel as [|fuel IH]; intros base size Hi Ha Hw Hlen Hf; [lia|].
  cbn [probe]. cbv zeta. destruct (Nat.leb_spec size 1); [lia|].
  assert (1 <= size / 2 < size) as Hhalf.
  { split; [apply Nat.div_le_lower_bound; lia|apply Nat.div_lt; lia]. }
  pose proof (Nat.Div0.mul_div_le size 2) as Hmul.
  destruct (lookup_lt_is_Some_2 l (base + size / 2)) as [m Hm]; [lia|]. rewrite Hm.
  destruct (Nat.lt_trichotomy i (base + size / 2)) as [Hlt|[Heq|Hgt]].
  - rewrite (Habove i (base + size / 2) a m Hlt Hi Hm) by congruence.
    apply IH; [done|done|lia..].
  - rewrite <- Heq, Hi in Hm. injection Hm as <-. rewrite Ha. apply IH; [done|done|lia..].
  - rewrite (Hbelow (base + size / 2) i m a Hgt Hm Hi) by congruence.
    apply IH; [done|done|lia..].
Qed.

Lemma binary_search_by_Some i a :
  l !! i = Some a -> f a = Eq -> binary_search_by f l = Some i.
Proof.
  intros Hi Ha. unfold binary_search_by. pose proof (lookup_lt_Some _ _ _ Hi).
  rewrite (probe_spec i a) by (done || lia). by rewrite Hi, Ha.
Qed.

Lemma binary_search_by_inv i :
  binary_search_by f l = Some i -> exists a, l !! i = Some a /\ f a = Eq.
Proof.
  unfold binary_search_by. destruct (l !! _) as [a|] eqn:Hl; [|done].
  destruct (f a) eqn:Ha; [|done..]. intros [= <-]. eauto.
Qed.
End search.

(** A strictly sorted registry is unimodal for every key. *)
Section registry.
Context (ds : list NodeDefinition) (Hnd : NoDup (def_key <$> ds)).
Notation sorted := (merge_sort def_le ds).

Lemma sorted_strict i j a b :
  i < j -> sorted !! i = Some a -> sorted !! j = Some b -> def_compare a b = Lt.
Proof.
  intros Hij Hi Hj.
  pose proof (StronglySorted_lookup def_le _ i j a b (StronglySorted_merge_sort def_le ds) Hij Hi Hj) as Hle.
  unfold def_le in Hle. destruct (def_compare a b) eqn:Hc; [|done|done].
  apply def_compare_eq in Hc. exfalso.
  assert (NoDup (def_key <$> sorted)) as Hs
    by (by rewrite (fmap_Permutation def_key _ _ (merge_sort_Permutation def_le ds))).
  assert (i = j); [|lia]. eapply NoDup_lookup; [exact Hs|..].
  - by rewrite list_lookup_fmap, Hi.
  - by rewrite list_lookup_fmap, Hj; simpl; rewrite Hc.
Qed.

Notation at_key t v := (fun d => key_compare (def_type_id d) (def_config_version d) t v).

Lemma registry_below t v : unimodal (at_key t v) sorted.
Proof.
  intros i j a b Hij Hi Hj Hb. pose proof (sorted_strict i j a b Hij Hi Hj) as Hab.
  destruct (key_compare (def_type_id b) _ t v) eqn:Hc; [|by eapply key_compare_lt_trans|done].
  apply key_compare_eq in Hc as [<- <-]. exact Hab.
Qed.
Lemma registry_above t v : unimodal_above (at_key t v) sorted.
Proof.
  intros i j a b Hij Hi Hj Ha. pose proof (sorted_strict i j a b Hij Hi Hj) as Hab.
  rewrite key_compare_antisym. rewrite key_compare_antisym in Ha.
  destruct (key_compare t v (def_type_id a) _) eqn:Hc; [| |done].
  - apply key_compare_eq in Hc as [-> ->]. unfold def_compare in Hab. by rewrite Hab.
  - by rewrite (key_compare_lt_trans _ _ _ _ _ _ Hc Hab).
Qed.

Lemma lookup_registered d :
  d ∈ ds -> lookup_definition (mkRegistry sorted) (def_type_id d) (def_config_version d) = Ok d.
Proof.
  intros Hd. rewrite <- (merge_sort_Permutation def_le ds) in Hd.
  apply list_elem_of_lookup_1 in Hd as [i Hi]. unfold lookup_definition. cbn [definitions].
  rewrite (binary_search_by_Some _ _ (registry_below _ _) (registry_above _ _) i d Hi);
    [cbn; by rewrite Hi|by apply key_compare_eq].
Qed.
End registry.

Lemma lookup_definition_inv r t v d :
  lookup_definition r t v = Ok d -> d ∈ definitions r /\ def_type_id d = t /\ def_config_version d = v.
Proof.
  unfold lookup_definition. destruct (binary_search_by _ _) as [i|] eqn:Hb; cbn; [|by case_match].
  apply binary_search_by_inv in Hb as (a & Ha & [Ht Hv]%key_compare_eq). rewrite Ha. intros [= <-].
  split_and!; [by eapply list_elem_of_lookup_2|done..].
Qed.

Lemma lookup_definition_code r t v e :
  lookup_definition r t v = Err e ->
  graph_code e = if bool_decide (t ∈ def_type_id <$> definitions r)
                 then Code.UnsupportedConfigVersion else Code.UnknownNodeType.
Proof.
  unfold lookup_definition. destruct (_ ≫= _); [done|].
  destruct (existsb _ _) eqn:He; intros [= <-].
  - apply existsb_exists in He as (d & Hin%list_elem_of_In & <-%bool_decide_eq_true).
    by rewrite bool_decide_true by by apply list_elem_of_fmap_2.
  - rewrite bool_decide_false; [done|]. intros (d & -> & Hd%list_elem_of_In)%list_elem_of_fmap.
    apply not_true_iff_false in He. apply He, existsb_exists. exists d.
    by rewrite bool_decide_true.
Qed.

Lemma from_definitions_order ds ds' r :
  from_definitions ds = Ok r -> ds' ≡ₚ ds -> from_definitions ds' = Ok r.
Proof.
  rewrite !from_definitions_Ok. intros [Hnd ->] Hp.
  split; [by rewrite (fmap_Permutation def_key _ _ Hp)|]. f_equal.
  apply (StronglySorted_unique_strong def_le); [|apply StronglySorted_merge_sort; apply _..|
    by rewrite !merge_sort_Permutation].
  intros x y Hx Hy Hxy Hyx. rewrite merge_sort_Permutation in Hx. rewrite merge_sort_Permutation, Hp in Hy.
  assert (def_key x = def_key y) as Hk.
  { apply def_compare_eq. unfold def_le, def_compare in *.
    rewrite (key_compare_antisym (def_type_id x)) in Hyx. by destruct (key_compare _ _ _ _). }
  apply list_elem_of_lookup_1 in Hx as [i Hi], Hy as [j Hj].
  assert (i = j) as <-; [|congruence]. eapply NoDup_lookup; [exact Hnd|..].
  - by rewrite list_lookup_fmap, Hi.
  - by rewrite list_lookup_fmap, Hj; simpl; rewrite Hk.
Qed.

Lemma lookup_definition_exact ds r t v d :
  from_definitions ds = Ok r ->
  lookup_definition r t v = Ok d <-> d ∈ ds /\ def_type_id d = t /\ def_config_version d = v.
Proof.
  intros [Hnd ->]%from_definitions_Ok. split.
  - intros (Hd & ? & ?)%lookup_definition_inv. cbn [definitions] in Hd.
    by rewrite merge_sort_Permutation in Hd.
  - intros (Hd & <- & <-). by apply lookup_registered.
Qed.

(** ** A small concrete serde

    Identities are written as decimal numbers; the document's fields are read
    one by one.  It is enough to configure a source, a selection, a trim, a
    rename, a cast, a literal replacement and an output. *)
Definition digits_value (t : list N) : option N :=
  foldl (fun acc b => a ← acc; if is_ascii_digit b then Some (10 * a + (b - 48))%N else None)
    (Some 0%N) t.
Definition example_uuid (s : string) : option Uuid := digits_value (bytes_of s).
Definition member (key : string) (v : json) : option json := o ← as_object v; json_get o key.
Definition string_member (key : string) (v : json) : option string := member key v ≫= as_str.
Definition uuid_member (key : string) (v : json) : option Uuid := string_member key v ≫= example_uuid.
Definition uuids_member (key : string) (v : json) : option (list Uuid) :=
  items ← member key v ≫= as_array; mapM (fun i => as_str i ≫= example_uuid) items.
Definition example_scalar (v : json) : option ScalarValue :=
  kind ← string_member "kind" v;
  if bool_decide (kind = "null") then Some SNull else SUtf8 <$> string_member "value" v.

#[local] Instance example_serde : Serde := {|
  value_to_vec := fun _ => Some [123; 125]%N;
  from_source := fun v =>
    asset ← uuid_member "sourceAssetId" v;
    Some (mkSourceData asset (uuids_member "projection" v));
  from_select := fun v => mkSelectData <$> uuids_member "columns" v;
  from_filter := fun _ => None;
  from_rename := fun v => c ← uuid_member "column" v; to ← string_member "to" v; Some (mkRenameData c to);
  from_column := fun v => mkColumnData <$> uuid_member "column" v;
  from_normalize := fun _ => None;
  from_cast := fun v =>
    c ← uuid_member "column" v;
    Some (mkCastData c TInt64 CastSetNull None None);
  from_replace := fun v =>
    c ← uuid_member "column" v; from ← member "from" v ≫= example_scalar;
    to ← member "to" v ≫= example_scalar; Some (mkReplaceData c from to);
  from_fill := fun _ => None;
  from_derive := fun _ => None;
  from_sort := fun _ => None;
  from_output := fun v => mkOutputData <$> string_member "outputLabel" v;
  from_expr := fun _ => None;
  from_type := fun _ => None;
  from_scalar := example_scalar;
  from_policy := fun _ => None;
  uuid_parse_str := example_uuid;
  uuid_to_string := fun id => pretty id;
|}.
Definition example_package_value (p : NodePackage) : option json :=
  Some (JObject [("name", JString (package_name p)); ("contentDigest", JString (content_digest p))]).

(** ** Claims *)

(** The registry is a set of definitions.  The order of registration
    does not matter; the binary search finds exactly the registered
    definition of a type id and version, and a miss is reported as an unknown
    type or, when the type is known, as an unsupported version; deploying
    packages never changes what an earlier lookup answers. *)
Theorem registry_lookup_exact `{Serde} (ds ds' : list NodeDefinition) (r : NodeRegistry) :
  from_definitions ds = Ok r -> ds' ≡ₚ ds ->
  from_definitions ds' = Ok r /\
  (forall t v d, lookup_definition r t v = Ok d <->
     d ∈ ds /\ def_type_id d = t /\ def_config_version d = v) /\
  (forall t v e, lookup_definition r t v = Err e ->
     graph_code e = if bool_decide (t ∈ def_type_id <$> ds)
                    then Code.UnsupportedConfigVersion else Code.UnknownNodeType) /\
  (forall to_value packages r' t v d, with_packages to_value r packages = Ok r' ->
     lookup_definition r t v = Ok d -> lookup_definition r' t v = Ok d).
Proof.
  intros Hr Hp. split_and!.
  - by eapply from_definitions_order.
  - intros t v d. by apply lookup_definition_exact.
  - intros t v e He%lookup_definition_code. rewrite He. apply from_definitions_Ok in Hr as [_ ->].
    cbn [definitions]. erewrite bool_decide_ext; [reflexivity|].
    by rewrite (fmap_Permutation def_type_id _ _ (merge_sort_Permutation def_le ds)).
  - intros to_value packages r' t v d (st & _ & Hr')%bind_Ok Hd.
    apply (lookup_definition_exact _ r' t v d Hr').
    apply lookup_definition_inv in Hd as (? & ? & ?). split; [|done]. apply elem_of_app. by left.
Qed.

Definition production_registry : NodeRegistry := mkRegistry (merge_sort def_le production_definitions).
Definition deployed_registry : NodeRegistry :=
  mkRegistry (merge_sort def_le
    (definitions production_registry ++ (package_definition <$> deployed_packages))).

Lemma production_registry_ok : registry_new = Ok production_registry.
Proof.
  apply from_definitions_Ok. split; [|reflexivity].
  apply (bool_decide_unpack _). vm_compute. exact I.
Qed.
Lemma deployed_registry_ok :
  with_packages example_package_value production_registry deployed_packages = Ok deployed_registry.
Proof.
  apply bind_Ok. eexists. split; [reflexivity|]. apply from_definitions_Ok. split; [|reflexivity].
  apply (bool_decide_unpack _). vm_compute. exact I.
Qed.

Lemma registry_lookup_exact_witness :
  lookup_definition deployed_registry "stillflow.node.trim" 1 = Ok trim_definition.
Proof.
  destruct (registry_lookup_exact production_definitions production_definitions production_registry
    production_registry_ok (Permutation_refl _)) as (_ & Hl & _ & Hk).
  refine (Hk example_package_value deployed_packages deployed_registry "stillflow.node.trim" 1%N
    trim_definition deployed_registry_ok _).
  apply Hl. split; [|split; reflexivity]. do 4 right. left.
Defined.
