(* ===== verification/Graph.v ===== *)
(** * Node graphs: [stillflow-core/src/node_graph/mod.rs]

    The document a user edits: configured nodes and edges between their
    ports.  [validate_basic] checks limits and identities, [validated_configs]
    resolves every node against the registry and checks that the graph is one
    path from its source to its output. *)

From stdpp Require Import pretty.
From S2P Require Import Prelude Text Secrets Logical Schema Expression Rule Plan Semantics Nodes Registry.

Record NodePort := mkPort { port_node : NodeId; port : PortId }.
Record NodeEdge := mkEdge { edge_from : NodePort; edge_to : NodePort }.
Record NodeGraph := mkGraph {
  graph_version : N;
  graph_id : Uuid;
  source_node_id : NodeId;
  output_node_id : NodeId;
  graph_nodes : list NodeConfig;
  edges : list NodeEdge;
  graph_metadata : gmap string string;
}.

(** The tuple an edge is compared by. *)
Definition edge_key (e : NodeEdge) : NodeId * PortId * (NodeId * PortId) :=
  (port_node (edge_from e), port (edge_from e), (port_node (edge_to e), port (edge_to e))).
Notation from_node e := (port_node (edge_from e)).
Notation to_node e := (port_node (edge_to e)).

Definition topology {A} (node : option NodeId) (message : string) : Graph A :=
  Err (graph_error Code.InvalidTopology node message).

Section graph.
Context `{Serde}.
(** [serde_json::to_vec] of a graph. *)
Context (graph_to_vec : NodeGraph -> option (list N)).

(** ** Limits and identities: [validate_basic] *)

(** One node: the identities seen and the bytes of the configs. *)
Definition basic_node (st : gset NodeId * N) (node : NodeConfig) : Graph (gset NodeId * N) :=
  let '(node_ids, total_config_bytes) := st in
  if decide (node_id node ∈ node_ids)
  then topology (Some (node_id node)) "node ids must be unique" else
  bytes ← validate_local node;
  total ← ok_or (checked_add total_config_bytes bytes)
    (graph_error Code.LimitConfigBytes (Some (node_id node)) "aggregate config size overflowed");
  if (MAX_TOTAL_CONFIG_BYTES <? total)%N
  then Err (graph_error Code.LimitConfigBytes (Some (node_id node))
              ("aggregate config exceeds " +:+ pretty MAX_TOTAL_CONFIG_BYTES +:+ " bytes"))
  else Ok ({[node_id node]} ∪ node_ids, total).

Definition basic_edge (node_ids : gset NodeId) (edge_ids : gset (NodeId * PortId * (NodeId * PortId)))
  (edge : NodeEdge) : Graph (gset (NodeId * PortId * (NodeId * PortId))) :=
  if decide (edge_key edge ∈ edge_ids)
  then topology (Some (from_node edge)) "edge tuples must be unique" else
  if negb (bool_decide (from_node edge ∈ node_ids)) || negb (bool_decide (to_node edge ∈ node_ids))
  then topology None "edge endpoints must reference existing nodes"
  else Ok ({[edge_key edge]} ∪ edge_ids).

Definition metadata_total (total : N) (node : NodeConfig) : Graph N :=
  node_bytes ← validate_metadata (node_metadata node) (Some (node_id node));
  ok_or (checked_add total node_bytes)
    (graph_error Code.LimitMetadataBytes (Some (node_id node)) "aggregate metadata size overflowed").

Definition validate_basic (g : NodeGraph) : Graph N :=
  if negb (graph_version g =? NODE_GRAPH_VERSION)%N
  then Err (graph_error Code.UnsupportedGraphVersion None
              ("graph version " +:+ pretty (graph_version g) +:+ " is not supported")) else
  if is_nil (graph_id g) then Err (graph_error Code.InvalidConfig None "graph id must not be nil") else
  if (source_node_id g =? output_node_id g)%N
  then topology (Some (source_node_id g)) "source and output must be different nodes" else
  if (MAX_NODES <? len (graph_nodes g))%N
  then Err (graph_error Code.LimitNodes None
              ("graph contains more than " +:+ pretty MAX_NODES +:+ " nodes")) else
  if (MAX_EDGES <? len (edges g))%N
  then Err (graph_error Code.LimitEdges None
              ("graph contains more than " +:+ pretty MAX_EDGES +:+ " edges")) else
  expected_edges ← ok_or (checked_sub (len (graph_nodes g)) 1)
    (graph_error Code.InvalidTopology None "graph must contain nodes");
  if negb (len (edges g) =? expected_edges)%N
  then topology None "Phase-1 graph must have exactly nodes minus one edges" else
  st ← fold_result basic_node (∅, 0%N) (graph_nodes g);
  let '(node_ids, total_config_bytes) := st in
  if negb (bool_decide (source_node_id g ∈ node_ids)) || negb (bool_decide (output_node_id g ∈ node_ids))
  then topology None "source and output nodes must be present" else
  try! fold_result (basic_edge node_ids) ∅ (edges g);
  metadata_bytes ← validate_metadata (graph_metadata g) None;
  total_metadata_bytes ← fold_result metadata_total metadata_bytes (graph_nodes g);
  if (MAX_METADATA_BYTES <? total_metadata_bytes)%N
  then Err (graph_error Code.LimitMetadataBytes None
              ("aggregate metadata exceeds " +:+ pretty MAX_METADATA_BYTES +:+ " bytes")) else
  serialized ← ok_or (graph_to_vec g) (graph_error Code.Internal None "graph serialization failed");
  if (MAX_GRAPH_BYTES <? len serialized)%N
  then Err (graph_error Code.LimitGraphBytes None
              ("serialized graph exceeds " +:+ pretty MAX_GRAPH_BYTES +:+ " bytes"))
  else Ok total_config_bytes.

(** [NodeGraph::from_parts]; [NodeGraph::new] passes the current version. *)
Definition graph_from_parts (g : NodeGraph) : Graph NodeGraph := try! validate_basic g; Ok g.

(** ** Resolution *)

Definition node_le (a b : NodeConfig) : Prop := (node_id a <= node_id b)%N.
#[export] Instance node_le_dec : RelDecision node_le.
Proof. intros a b. unfold node_le. apply _. Defined.

Record Resolved := mkResolved {
  node_definitions : gmap NodeId NodeDefinition;
  node_configs : gmap NodeId ValidatedNodeConfig;
  source_count : N;
  output_count : N;
}.

(** The definition and the typed config of one node. *)
Definition resolve_config (r : NodeRegistry) (node : NodeConfig)
  : Graph (NodeDefinition * ValidatedNodeConfig) :=
  definition ← map_err (fun error => graph_error (graph_code error) (Some (node_id node))
                                       (graph_message error))
    (lookup_definition r (type_id node) (config_version node));
  typed ← match composite_expansion definition with
          | Some expansion => resolve_composite node expansion (config_schema definition) r
          | None => validate_node_config definition node
          end;
  Ok (definition, typed).

Definition resolve_node (r : NodeRegistry) (st : Resolved) (node : NodeConfig) : Graph Resolved :=
  entry ← resolve_config r node;
  let '(definition, typed) := entry in
  Ok (mkResolved (<[node_id node := definition]> (node_definitions st))
        (<[node_id node := typed]> (node_configs st))
        (source_count st + if is_source definition then 1 else 0)
        (output_count st + if is_output definition then 1 else 0)).

(** ** Topology *)

Notation EdgeTable := (gmap NodeId (list NodeEdge)).

Definition empty_table (g : NodeGraph) : EdgeTable :=
  list_to_map ((fun node => (node_id node, [])) <$> graph_nodes g).

(** One edge: the tables of outgoing and incoming edges. *)
Definition connect_edge (ds : gmap NodeId NodeDefinition) (st : EdgeTable * EdgeTable) (edge : NodeEdge)
  : Graph (EdgeTable * EdgeTable) :=
  let '(outgoing, incoming) := st in
  from_definition ← ok_or (ds !! from_node edge)
    (graph_error Code.InvalidTopology (Some (from_node edge)) "edge source node is absent");
  to_definition ← ok_or (ds !! to_node edge)
    (graph_error Code.InvalidTopology (Some (to_node edge)) "edge target node is absent");
  if negb (bool_decide (port (edge_from edge) ∈ output_ports from_definition))
  then Err (graph_error Code.InvalidPort (Some (from_node edge)) "edge source port is not declared") else
  if negb (bool_decide (port (edge_to edge) ∈ input_ports to_definition))
  then Err (graph_error Code.InvalidPort (Some (to_node edge)) "edge target port is not declared") else
  if (from_node edge =? to_node edge)%N
  then topology (Some (from_node edge)) "self-edge is not supported" else
  out ← ok_or (outgoing !! from_node edge)
    (graph_error Code.Internal (Some (from_node edge)) "resolved outgoing node is absent");
  inc ← ok_or (incoming !! to_node edge)
    (graph_error Code.Internal (Some (to_node edge)) "resolved incoming node is absent");
  Ok (<[from_node edge := out ++ [edge]]> outgoing, <[to_node edge := inc ++ [edge]]> incoming).

Definition check_degrees (ds : gmap NodeId NodeDefinition) (outgoing incoming : EdgeTable)
  (node : NodeConfig) : Graph unit :=
  definition ← ok_or (ds !! node_id node)
    (graph_error Code.Internal (Some (node_id node)) "resolved node definition is absent");
  inc ← ok_or (incoming !! node_id node)
    (graph_error Code.Internal (Some (node_id node)) "resolved incoming node is absent");
  out ← ok_or (outgoing !! node_id node)
    (graph_error Code.Internal (Some (node_id node)) "resolved outgoing node is absent");
  let in_count := len inc in
  let out_count := len out in
  if (is_source definition && negb (in_count =? 0)
      || negb (is_source definition) && negb (in_count =? 1)
      || is_output definition && negb (out_count =? 0)
      || negb (is_output definition) && negb (out_count =? 1))%N
  then topology (Some (node_id node)) "Phase-1 graph must be one connected linear path"
  else Ok tt.

(** The loop from the source to the output.  [None] is fuel exhaustion. *)
Fixpoint walk (fuel : nat) (outgoing : EdgeTable) (output current : NodeId) (visited : gset NodeId)
  : option (Graph (gset NodeId)) :=
  match fuel with
  | 0 => None
  | S fuel =>
      if decide (current ∈ visited) then Some (topology (Some current) "graph contains a cycle") else
      let visited := {[current]} ∪ visited in
      if (current =? output)%N then Some (Ok visited) else
      match (edges ← outgoing !! current; head edges) with
      | Some edge => walk fuel outgoing output (to_node edge) visited
      | None => Some (topology (Some current) "path terminates before output")
      end
  end.

Definition check_path (g : NodeGraph) (outgoing : EdgeTable) : Graph unit :=
  visited ← default (topology None "walk fuel exhausted")
    (walk (S (length (graph_nodes g))) outgoing (output_node_id g) (source_node_id g) ∅);
  if negb (N.of_nat (size visited) =? len (graph_nodes g))%N
  then topology None "graph contains disconnected nodes or an alternate path"
  else Ok tt.

Definition validated_configs (r : NodeRegistry) (g : NodeGraph)
  : Graph (gmap NodeId ValidatedNodeConfig) :=
  try! validate_basic g;
  if (len (graph_nodes g) <? 2)%N then topology None "graph must contain a source and output" else
  st ← fold_result (resolve_node r) (mkResolved ∅ ∅ 0 0) (merge_sort node_le (graph_nodes g));
  let ds := node_definitions st in
  if negb (source_count st =? 1)%N || negb (output_count st =? 1)%N
  then topology None "graph must contain exactly one source and one output" else
  source_definition ← ok_or (ds !! source_node_id g)
    (graph_error Code.InvalidTopology (Some (source_node_id g)) "declared source node is absent");
  if negb (is_source source_definition)
  then topology (Some (source_node_id g)) "declared source node is not a source" else
  output_definition ← ok_or (ds !! output_node_id g)
    (graph_error Code.InvalidTopology (Some (output_node_id g)) "declared output node is absent");
  if negb (is_output output_definition)
  then topology (Some (output_node_id g)) "declared output node is not an output" else
  tables ← fold_result (connect_edge ds) (empty_table g, empty_table g) (edges g);
  let '(outgoing, incoming) := tables in
  try! each (check_degrees ds outgoing incoming) (graph_nodes g);
  try! check_path g outgoing;
  Ok (node_configs st).

(** [NodeGraph::validate] *)
Definition graph_validate (r : NodeRegistry) (g : NodeGraph) : Graph unit :=
  (fun _ => tt) <$> validated_configs r g.

(** ** The canonical document *)

(** [Map::insert]: an existing key keeps its place. *)
Fixpoint map_insert (key : string) (value : json) (entries : list (string * json))
  : list (string * json) :=
  match entries with
  | [] => [(key, value)]
  | e :: entries =>
      if decide (e.1 = key) then (key, value) :: entries else e :: map_insert key value entries
  end.

Fixpoint canonicalize_json (value : json) : json :=
  match value with
  | JObject entries =>
      JObject (foldl (fun normalized e => map_insert e.1 e.2 normalized) []
        (merge_sort key_le ((fun e => (e.1, canonicalize_json e.2)) <$> entries)))
  | JArray items => JArray (canonicalize_json <$> items)
  | other => other
  end.

Definition edge_le (a b : NodeEdge) : Prop :=
  match (from_node a ?= from_node b)%N with
  | Lt => True | Gt => False
  | Eq => match String.compare (port (edge_from a)) (port (edge_from b)) with
          | Lt => True | Gt => False
          | Eq => match (to_node a ?= to_node b)%N with
                  | Lt => True | Gt => False
                  | Eq => str_le (port (edge_to a)) (port (edge_to b))
                  end
          end
  end.
#[export] Instance edge_le_dec : RelDecision edge_le.
Proof.
  intros a b. unfold edge_le. repeat case_match; apply _.
Defined.

Definition normalize (g : NodeGraph) : NodeGraph :=
  mkGraph (graph_version g) (graph_id g) (source_node_id g) (output_node_id g)
    ((fun n => mkNodeConfig (node_id n) (type_id n) (config_version n) (canonicalize_json (config n))
                 (node_metadata n)) <$> merge_sort node_le (graph_nodes g))
    (merge_sort edge_le (edges g)) (graph_metadata g).

Definition graph_canonical_bytes (g : NodeGraph) : Graph (list N) :=
  try! validate_basic g;
  ok_or (graph_to_vec (normalize g)) (graph_error Code.Internal None "graph canonicalization failed").
End graph.

(** ** Paths *)

Lemma filter_none {A} (P : A -> Prop) `{!forall x, Decision (P x)} l :
  (forall x, x ∈ l -> ~ P x) -> filter P l = [].
Proof.
  induction l as [|x l IH]; intros Hl; [done|].
  rewrite filter_cons_False by (apply Hl; left). apply IH. intros y Hy. apply Hl. by right.
Qed.

(** The consecutive pairs of a list. *)
Definition hops {A} (p : list A) : list (A * A) := zip p (tail p).

Section hops.
Context {A : Type} `{!EqDecision A}.
Implicit Types (p : list A) (x y : A).

Lemma hops_cons x y p : hops (x :: y :: p) = (x, y) :: hops (y :: p).
Proof. done. Qed.

Lemma length_hops p : length (hops p) = pred (length p).
Proof. unfold hops. rewrite length_zip_with. destruct p as [|x p]; cbn [tail length pred]; [done|]. lia. Qed.

Lemma elem_of_hops p h : h ∈ hops p -> h.1 ∈ p /\ h.2 ∈ tail p.
Proof. destruct h as [x y]. unfold hops. intros Hh. split; [by eapply elem_of_zip_l|by eapply elem_of_zip_r]. Qed.

Lemma hops_from_none p i : i ∉ p -> filter (fun h => h.1 = i) (hops p) = [].
Proof.
  intros Hi. apply filter_none. intros h Hh <-.
  by apply elem_of_hops in Hh as [? _].
Qed.
Lemma hops_to_none p i : i ∉ tail p -> filter (fun h => h.2 = i) (hops p) = [].
Proof.
  intros Hi. apply filter_none. intros h Hh <-.
  by apply elem_of_hops in Hh as [_ ?].
Qed.

Lemma hops_from_last p i : NoDup p -> last p = Some i -> filter (fun h => h.1 = i) (hops p) = [].
Proof.
  induction p as [|x [|y p] IH]; intros Hnd Hl; [done|done|].
  apply NoDup_cons in Hnd as [Hx Hnd]. rewrite hops_cons, filter_cons_False; [by apply IH|].
  intros Heq. cbn in Heq. subst. apply Hx. by eapply last_Some_elem_of.
Qed.

Lemma hops_from_one p i :
  NoDup p -> i ∈ p -> last p <> Some i -> exists j, filter (fun h => h.1 = i) (hops p) = [(i, j)].
Proof.
  induction p as [|x [|y p] IH]; intros Hnd Hi Hl.
  - by apply not_elem_of_nil in Hi.
  - apply list_elem_of_singleton in Hi as ->. done.
  - apply NoDup_cons in Hnd as [Hx Hnd]. rewrite hops_cons.
    destruct (decide (x = i)) as [->|Hne].
    + exists y. by rewrite filter_cons_True, hops_from_none.
    + rewrite filter_cons_False by done. apply IH; [done| |done].
      by apply elem_of_cons in Hi as [->|?].
Qed.

Lemma hops_to_head p i : NoDup p -> head p = Some i -> filter (fun h => h.2 = i) (hops p) = [].
Proof.
  intros Hnd Hh. apply hops_to_none. destruct p as [|x p]; [done|]. injection Hh as ->.
  by apply NoDup_cons in Hnd as [? _].
Qed.

Lemma hops_to_one p i :
  NoDup p -> i ∈ p -> head p <> Some i -> exists j, filter (fun h => h.2 = i) (hops p) = [(j, i)].
Proof.
  induction p as [|x [|y p] IH]; intros Hnd Hi Hh.
  - by apply not_elem_of_nil in Hi.
  - apply list_elem_of_singleton in Hi as ->. done.
  - apply elem_of_cons in Hi as [->|Hi]; [done|]. apply NoDup_cons in Hnd as [Hx Hnd].
    rewrite hops_cons. destruct (decide (y = i)) as [->|Hne].
    + exists x. rewrite filter_cons_True by done. f_equal. by apply hops_to_head.
    + rewrite filter_cons_False by done. apply IH; [done..|]. by intros [=].
Qed.

Lemma NoDup_hops p : NoDup p -> NoDup (hops p).
Proof.
  induction p as [|x [|y p] IH]; intros Hnd; [constructor..|]. apply NoDup_cons in Hnd as [Hx Hnd].
  rewrite hops_cons, NoDup_cons. split; [|by apply IH]. intros Hh.
  by apply elem_of_hops in Hh as [? _].
Qed.

Lemma hops_ne p x y : NoDup p -> (x, y) ∈ hops p -> x <> y.
Proof.
  induction p as [|z [|w p] IH]; intros Hnd Hh; [by apply not_elem_of_nil in Hh..|].
  rewrite hops_cons in Hh. apply NoDup_cons in Hnd as [Hz Hnd].
  apply elem_of_cons in Hh as [[= -> ->]|Hh]; [|by apply IH]. intros ->. apply Hz. left.
Qed.
End hops.

(** ** What the basic checks establish *)

Notation ids g := (node_id <$> graph_nodes g).
Notation links g := ((fun e => (from_node e, to_node e)) <$> edges g).

Section basic.
Context `{Serde} (graph_to_vec : NodeGraph -> option (list N)).

Record Basic (g : NodeGraph) : Prop := {
  basic_ids : NoDup (ids g);
  basic_source : source_node_id g ∈ ids g;
  basic_output : output_node_id g ∈ ids g;
  basic_distinct : source_node_id g <> output_node_id g;
  basic_links : Forall (fun e => from_node e ∈ ids g /\ to_node e ∈ ids g) (edges g);
  basic_edges : S (length (edges g)) = length (graph_nodes g);
  basic_size : (len (graph_nodes g) <= MAX_NODES)%N;
  basic_local : Forall (fun n => exists bytes, validate_local n = Ok bytes) (graph_nodes g);
}.

Lemma basic_nodes_fold l : forall seen t seen' t',
  fold_result basic_node (seen, t) l = Ok (seen', t') ->
  NoDup (node_id <$> l) /\ (forall i, i ∈ node_id <$> l -> i ∉ seen) /\
  (forall i, i ∈ seen' <-> i ∈ node_id <$> l \/ i ∈ seen) /\
  Forall (fun n => exists bytes, validate_local n = Ok bytes) l.
Proof.
  induction l as [|n l IH]; intros seen t seen' t'; cbn [fold_result].
  { intros [= <- <-]. split_and!; [constructor|by intros i ?%not_elem_of_nil| |constructor].
    intros i. rewrite elem_of_nil. tauto. }
  intros ([s1 t1] & Hn & Hf)%bind_Ok. apply IH in Hf as (Hnd & Hd & Hs & Hl).
  unfold basic_node in Hn. case_decide as Hin; [done|].
  apply bind_Ok in Hn as (b & Hb & Hn). apply bind_Ok in Hn as (tot & _ & Hn).
  destruct (_ <? _)%N; [done|]. injection Hn as <- <-.
  rewrite fmap_cons, NoDup_cons, Forall_cons. split_and!.
  - intros Hx. apply (Hd (node_id n)); set_solver.
  - done.
  - intros i. rewrite elem_of_cons. intros [->|Hi]; [done|]. specialize (Hd i Hi). set_solver.
  - intros i. rewrite Hs. set_solver.
  - eauto.
  - done.
Qed.

Lemma basic_edges_fold node_ids l : forall seen seen',
  fold_result (basic_edge node_ids) seen l = Ok seen' ->
  Forall (fun e => from_node e ∈ node_ids /\ to_node e ∈ node_ids) l.
Proof.
  induction l as [|e l IH]; intros seen seen'; cbn [fold_result]; [constructor|].
  intros (s1 & He & Hf)%bind_Ok. unfold basic_edge in He. case_decide; [done|].
  constructor; [|by eapply IH].
  destruct (bool_decide (from_node e ∈ node_ids)) eqn:H1; [|done].
  destruct (bool_decide (to_node e ∈ node_ids)) eqn:H2; [|done].
  by apply bool_decide_eq_true in H1, H2.
Qed.

Lemma validate_basic_Basic g n : validate_basic graph_to_vec g = Ok n -> Basic g.
Proof.
  unfold validate_basic. destruct (negb _); [done|]. destruct (is_nil _); [done|].
  destruct (N.eqb_spec (source_node_id g) (output_node_id g)) as [|Hso]; [done|].
  destruct (N.ltb_spec MAX_NODES (len (graph_nodes g))) as [|Hsize]; [done|].
  destruct (_ <? _)%N; [done|]. intros (expected & Hexp & Hg)%bind_Ok.
  apply ok_or_Ok, checked_sub_Some in Hexp as [-> Hpos].
  destruct (N.eqb_spec (len (edges g)) (len (graph_nodes g) - 1)) as [Hlen|]; [|done].
  cbn [negb] in Hg. apply bind_Ok in Hg as ([node_ids total] & Hnodes & Hg).
  apply basic_nodes_fold in Hnodes as (Hnd & _ & Hids & Hlocal).
  destruct (bool_decide (source_node_id g ∈ node_ids)) eqn:Hs; [|done].
  destruct (bool_decide (output_node_id g ∈ node_ids)) eqn:Ho; [|done]. cbn [negb orb] in Hg.
  apply bind_Ok in Hg as (es & Hedges & _). apply basic_edges_fold in Hedges.
  apply bool_decide_eq_true in Hs, Ho. rewrite Hids in Hs, Ho. split; try done.
  - set_solver.
  - set_solver.
  - eapply Forall_impl; [exact Hedges|]. intros e [? ?]. rewrite !Hids in *. set_solver.
  - unfold len in *. lia.
Qed.
End basic.

(** ** Resolution *)

Section resolution.
Context `{Serde} (r : NodeRegistry).

(** [ds] and [cs] hold the definition and the config of each listed node. *)
Record Resolves (l : list NodeConfig) (ds : gmap NodeId NodeDefinition)
  (cs : gmap NodeId ValidatedNodeConfig) : Prop := {
  resolves_node n : n ∈ l -> exists d c, resolve_config r n = Ok (d, c) /\
    ds !! node_id n = Some d /\ cs !! node_id n = Some c;
  resolves_defs i : is_Some (ds !! i) -> i ∈ node_id <$> l;
  resolves_configs i : is_Some (cs !! i) -> i ∈ node_id <$> l;
}.

(** How many of the listed nodes have a role. *)
Definition role_count (p : NodeDefinition -> bool) (ds : gmap NodeId NodeDefinition)
  (l : list NodeConfig) : N :=
  sum_by (fun n => if from_option p false (ds !! node_id n) then 1%N else 0%N) l.

Lemma resolve_fold l : forall st st',
  NoDup (node_id <$> l) ->
  fold_result (resolve_node r) st l = Ok st' ->
  (forall n, n ∈ l -> exists d c, resolve_config r n = Ok (d, c) /\
     node_definitions st' !! node_id n = Some d /\ node_configs st' !! node_id n = Some c) /\
  (forall i, i ∉ node_id <$> l -> node_definitions st' !! i = node_definitions st !! i /\
     node_configs st' !! i = node_configs st !! i) /\
  source_count st' = (source_count st + role_count is_source (node_definitions st') l)%N /\
  output_count st' = (output_count st + role_count is_output (node_definitions st') l)%N.
Proof.
  induction l as [|n l IH]; intros st st' Hnd; cbn [fold_result].
  { intros [= <-]. split_and!; [by intros n ?%not_elem_of_nil|done|by rewrite N.add_0_r..]. }
  intros (s1 & Hn & Hf)%bind_Ok. rewrite fmap_cons, NoDup_cons in Hnd. destruct Hnd as [Hni Hnd].
  apply bind_Ok in Hn as ([d c] & Hdc & [= <-]).
  apply IH in Hf as (Hin & Hout & Hs & Ho); [|done]. cbn in Hout, Hs, Ho.
  destruct (Hout (node_id n) Hni) as [Hd Hc]. rewrite lookup_insert_eq in Hd; rewrite lookup_insert_eq in Hc.
  split_and!.
  - intros m [->|Hm]%elem_of_cons; [|by apply Hin]. by exists d, c.
  - intros i Hi. rewrite fmap_cons, not_elem_of_cons in Hi. destruct Hi as [Hne Hi].
    destruct (Hout i Hi) as [-> ->]. by rewrite !lookup_insert_ne.
  - rewrite Hs. unfold role_count. rewrite sum_by_cons, Hd. cbn. lia.
  - rewrite Ho. unfold role_count. rewrite sum_by_cons, Hd. cbn. lia.
Qed.

Lemma resolve_fold_total l : forall st,
  Forall (fun n => exists e, resolve_config r n = Ok e) l ->
  exists st', fold_result (resolve_node r) st l = Ok st'.
Proof.
  induction l as [|n l IH]; intros st Hl; cbn [fold_result]; [eauto|].
  apply Forall_cons in Hl as [[[d c] Hn] Hl]. eassert (resolve_node r st n = Ok _) as ->
    by (unfold resolve_node; rewrite Hn; reflexivity). by apply IH.
Qed.

(** The fold in ascending order of identity. *)
Lemma resolve_all g st :
  NoDup (ids g) ->
  fold_result (resolve_node r) (mkResolved ∅ ∅ 0 0) (merge_sort node_le (graph_nodes g)) = Ok st ->
  Resolves (graph_nodes g) (node_definitions st) (node_configs st) /\
  source_count st = role_count is_source (node_definitions st) (graph_nodes g) /\
  output_count st = role_count is_output (node_definitions st) (graph_nodes g).
Proof.
  intros Hnd Hf. pose proof (merge_sort_Permutation node_le (graph_nodes g)) as Hp.
  apply resolve_fold in Hf as (Hin & Hout & Hs & Ho); [|by rewrite (fmap_Permutation node_id _ _ Hp)].
  cbn in Hout, Hs, Ho. unfold role_count in *.
  rewrite (sum_by_permutation _ _ _ Hp), N.add_0_l in Hs.
  rewrite (sum_by_permutation _ _ _ Hp), N.add_0_l in Ho. split; [|done]. split.
  - intros n Hn. apply Hin. by rewrite Hp.
  - intros i [d Hd]. apply dec_stable. intros Hi. rewrite <- (fmap_Permutation node_id _ _ Hp) in Hi.
    apply Hout in Hi as [Hi _]. rewrite lookup_empty in Hi. congruence.
  - intros i [d Hd]. apply dec_stable. intros Hi. rewrite <- (fmap_Permutation node_id _ _ Hp) in Hi.
    apply Hout in Hi as [_ Hi]. rewrite lookup_empty in Hi. congruence.
Qed.

Lemma Resolves_unique l ds1 cs1 ds2 cs2 :
  Resolves l ds1 cs1 -> Resolves l ds2 cs2 -> ds1 = ds2 /\ cs1 = cs2.
Proof.
  intros [H1 Hd1 Hc1] [H2 Hd2 Hc2].
  assert (forall i, i ∈ node_id <$> l -> ds1 !! i = ds2 !! i /\ cs1 !! i = cs2 !! i) as Hin.
  { intros i (n & -> & Hn)%list_elem_of_fmap.
    destruct (H1 n Hn) as (d & c & He & -> & ->), (H2 n Hn) as (d' & c' & He' & -> & ->).
    rewrite He in He'. by injection He' as -> ->. }
  split; apply map_eq; intros i; destruct (decide (i ∈ node_id <$> l)) as [Hi|Hi];
    try (by apply Hin in Hi as [? ?]).
  - by rewrite (proj2 (eq_None_not_Some (ds1 !! i))), (proj2 (eq_None_not_Some (ds2 !! i))) by eauto.
  - by rewrite (proj2 (eq_None_not_Some (cs1 !! i))), (proj2 (eq_None_not_Some (cs2 !! i))) by eauto.
Qed.
End resolution.

(** ** The edge tables *)

Section tables.
Context (ds : gmap NodeId NodeDefinition).

Definition edge_ok (e : NodeEdge) : Prop := exists df dt,
  ds !! from_node e = Some df /\ ds !! to_node e = Some dt /\
  port (edge_from e) ∈ output_ports df /\ port (edge_to e) ∈ input_ports dt /\
  from_node e <> to_node e.

Lemma connect_edge_Ok o i e o' i' :
  connect_edge ds (o, i) e = Ok (o', i') <->
  edge_ok e /\ exists out inc, o !! from_node e = Some out /\ i !! to_node e = Some inc /\
    o' = <[from_node e := out ++ [e]]> o /\ i' = <[to_node e := inc ++ [e]]> i.
Proof.
  unfold connect_edge, edge_ok. rewrite bind_Ok. setoid_rewrite ok_or_Ok. split.
  - intros (df & Hf & (dt & Ht & He)%bind_Ok). apply ok_or_Ok in Ht.
    destruct (bool_decide (port (edge_from e) ∈ _)) eqn:H1; [|done].
    destruct (bool_decide (port (edge_to e) ∈ _)) eqn:H2; [|done].
    apply bool_decide_eq_true in H1, H2. cbn [negb] in He.
    destruct (N.eqb_spec (from_node e) (to_node e)); [done|].
    apply bind_Ok in He as (out & Ho%ok_or_Ok & He). apply bind_Ok in He as (inc & Hi%ok_or_Ok & [= <- <-]).
    split; [by exists df, dt|by exists out, inc].
  - intros ((df & dt & Hf & Ht & H1 & H2 & Hne) & out & inc & Ho & Hi & -> & ->).
    exists df. split; [done|]. rewrite Ht. cbn.
    rewrite (bool_decide_true _ H1), (bool_decide_true _ H2). cbn [negb].
    destruct (N.eqb_spec (from_node e) (to_node e)); [done|]. by rewrite Ho, Hi.
Qed.

Lemma connect_fold l : forall o i o' i',
  fold_result (connect_edge ds) (o, i) l = Ok (o', i') ->
  Forall edge_ok l /\
  (forall x, o' !! x = (fun es => es ++ filter (fun e => from_node e = x) l) <$> o !! x) /\
  (forall x, i' !! x = (fun es => es ++ filter (fun e => to_node e = x) l) <$> i !! x).
Proof.
  induction l as [|e l IH]; intros o i o' i'; cbn [fold_result].
  { intros [= <- <-]. split_and!; [constructor|..]; intros x;
      [destruct (o !! x)|destruct (i !! x)]; cbn; by rewrite ?app_nil_r. }
  intros ([o1 i1] & (He & out & inc & Ho & Hi & -> & ->)%connect_edge_Ok & Hf)%bind_Ok.
  apply IH in Hf as (Hl & Hout & Hinc). split_and!; [by constructor|..]; intros x.
  - rewrite Hout. destruct (decide (from_node e = x)) as [<-|Hne].
    + rewrite lookup_insert_eq, Ho, filter_cons_True by done. cbn. by rewrite <- app_assoc.
    + rewrite lookup_insert_ne, filter_cons_False by done. done.
  - rewrite Hinc. destruct (decide (to_node e = x)) as [<-|Hne].
    + rewrite lookup_insert_eq, Hi, filter_cons_True by done. cbn. by rewrite <- app_assoc.
    + rewrite lookup_insert_ne, filter_cons_False by done. done.
Qed.

Lemma connect_fold_total l : forall o i,
  Forall edge_ok l ->
  Forall (fun e => is_Some (o !! from_node e) /\ is_Some (i !! to_node e)) l ->
  exists tables, fold_result (connect_edge ds) (o, i) l = Ok tables.
Proof.
  induction l as [|e l IH]; intros o i Hl Hs; cbn [fold_result]; [eauto|].
  apply Forall_cons in Hl as [He Hl]. apply Forall_cons in Hs as [[[out Ho] [inc Hi]] Hs].
  assert (connect_edge ds (o, i) e =
    Ok (<[from_node e := out ++ [e]]> o, <[to_node e := inc ++ [e]]> i)) as ->
    by (apply connect_edge_Ok; eauto 10).
  apply IH; [done|]. eapply Forall_impl; [exact Hs|]. intros e' [H1 H2].
  rewrite !lookup_insert_is_Some. split.
  - destruct (decide (from_node e = from_node e')); [by left|by right].
  - destruct (decide (to_node e = to_node e')); [by left|by right].
Qed.
End tables.

Lemma lookup_empty_table g x :
  empty_table g !! x = if decide (x ∈ ids g) then Some [] else None.
Proof.
  unfold empty_table. induction (graph_nodes g) as [|n l IH]; [done|].
  rewrite !fmap_cons. cbn [list_to_map foldr uncurry]. destruct (decide (node_id n = x)) as [<-|Hne].
  - rewrite lookup_insert_eq, decide_True by left. done.
  - rewrite lookup_insert_ne, IH by done. apply decide_ext. rewrite elem_of_cons. naive_solver.
Qed.

(** The edges out of and into a node. *)
Definition out_edges (g : NodeGraph) (i : NodeId) : list NodeEdge := filter (fun e => from_node e = i) (edges g).
Definition in_edges (g : NodeGraph) (i : NodeId) : list NodeEdge := filter (fun e => to_node e = i) (edges g).

Record Tables (g : NodeGraph) (outgoing incoming : gmap NodeId (list NodeEdge)) : Prop := {
  tables_out i : i ∈ ids g -> outgoing !! i = Some (out_edges g i);
  tables_in i : i ∈ ids g -> incoming !! i = Some (in_edges g i);
  tables_out_none i : i ∉ ids g -> outgoing !! i = None;
}.

Lemma connect_edges g ds o i :
  fold_result (connect_edge ds) (empty_table g, empty_table g) (edges g) = Ok (o, i) ->
  Forall (edge_ok ds) (edges g) /\ Tables g o i.
Proof.
  intros (Hl & Ho & Hi)%connect_fold. split; [done|]. split; intros x Hx.
  - by rewrite Ho, lookup_empty_table, decide_True.
  - by rewrite Hi, lookup_empty_table, decide_True.
  - by rewrite Ho, lookup_empty_table, decide_False.
Qed.

(** The degrees a definition asks for. *)
Definition degrees_ok (g : NodeGraph) (d : NodeDefinition) (i : NodeId) : Prop :=
  length (in_edges g i) = (if is_source d then 0 else 1) /\
  length (out_edges g i) = (if is_output d then 0 else 1).

Lemma check_degrees_Ok g ds o i n d :
  Tables g o i -> n ∈ graph_nodes g -> ds !! node_id n = Some d ->
  check_degrees ds o i n = Ok tt <-> degrees_ok g d (node_id n).
Proof.
  intros [Ho Hi _] Hn Hd. assert (node_id n ∈ ids g) as Hin by (by apply list_elem_of_fmap_2).
  unfold check_degrees, degrees_ok. rewrite Hd, Ho, Hi by done. cbn -[N.eqb]. unfold len.
  generalize (length (in_edges g (node_id n))) (length (out_edges g (node_id n))). intros a b.
  destruct (is_source d), (is_output d); cbn [andb negb orb];
    destruct (N.eqb_spec (N.of_nat a) 0), (N.eqb_spec (N.of_nat a) 1), (N.eqb_spec (N.of_nat b) 0),
      (N.eqb_spec (N.of_nat b) 1); cbn; split; done || lia || (intros; lia) || (intros; split; lia).
Qed.

(** ** The walk from source to output *)

Section walk.
Context (o : gmap NodeId (list NodeEdge)) (output : NodeId).

Definition hop (h : NodeId * NodeId) : Prop :=
  exists e es, o !! h.1 = Some (e :: es) /\ to_node e = h.2.

Lemma walk_sound fuel : forall cur vis vis',
  walk fuel o output cur vis = Some (Ok vis') ->
  exists p, head p = Some cur /\ last p = Some output /\ NoDup p /\
    (forall x, x ∈ p -> x ∉ vis) /\ (forall x, x ∈ vis' <-> x ∈ p \/ x ∈ vis) /\ Forall hop (hops p).
Proof.
  induction fuel as [|fuel IH]; intros cur vis vis'; cbn [walk]; [done|].
  case_decide as Hcur; [done|]. destruct (N.eqb_spec cur output) as [->|Hne].
  - intros [= <-]. exists [output]. split_and!; [done|done|apply NoDup_singleton| | |constructor].
    + by intros x ->%list_elem_of_singleton.
    + intros x. rewrite list_elem_of_singleton. set_solver.
  - destruct (o !! cur) as [[|e es]|] eqn:Ho; cbn; [done| |done].
    intros (p & Hh & Hl & Hnd & Hd & Hv & Hp)%IH. exists (cur :: p).
    destruct p as [|y p]; [done|]. cbn in Hh. injection Hh as ->.
    split_and!; [done|done| | | |].
    + apply NoDup_cons. split; [|done]. intros Hin. apply (Hd cur Hin). set_solver.
    + intros x [->|Hx]%elem_of_cons; [done|]. specialize (Hd x Hx). set_solver.
    + intros x. rewrite Hv, elem_of_cons. set_solver.
    + rewrite hops_cons. constructor; [|done]. exists e, es. done.
Qed.

Lemma walk_along p : forall fuel cur vis,
  head p = Some cur -> last p = Some output -> NoDup p -> (forall x, x ∈ p -> x ∉ vis) ->
  Forall hop (hops p) -> length p <= fuel ->
  exists vis', walk fuel o output cur vis = Some (Ok vis') /\ forall x, x ∈ vis' <-> x ∈ p \/ x ∈ vis.
Proof.
  induction p as [|x [|y p] IH]; intros fuel cur vis Hh Hl Hnd Hd Hp Hf; [done|..];
    injection Hh as <-; (destruct fuel as [|fuel]; [simpl in Hf; lia|]); cbn [walk];
    rewrite decide_False by (apply Hd; left).
  - injection Hl as ->. rewrite N.eqb_refl. eexists. split; [done|].
    intros z. rewrite list_elem_of_singleton. set_solver.
  - apply NoDup_cons in Hnd as [Hx Hnd]. rewrite hops_cons in Hp.
    apply Forall_cons in Hp as [(e & es & Ho & He) Hp]. cbn in Ho, He.
    destruct (N.eqb_spec x output) as [->|Hne].
    { exfalso. apply Hx. by apply last_Some_elem_of. }
    rewrite Ho. cbn. destruct (IH fuel (to_node e) ({[x]} ∪ vis)) as (vis' & Hw & Hv).
    + by rewrite He.
    + done.
    + done.
    + intros z Hz. specialize (Hd z). set_solver.
    + done.
    + simpl in Hf |- *. lia.
    + exists vis'. split; [done|]. intros z. rewrite Hv, !elem_of_cons. set_solver.
Qed.

(** More fuel never changes an answer. *)
Lemma walk_more fuel k : forall cur vis res,
  walk fuel o output cur vis = Some res -> walk (fuel + k) o output cur vis = Some res.
Proof.
  induction fuel as [|fuel IH]; intros cur vis res; cbn [walk Nat.add]; [done|].
  case_decide; [done|]. destruct (_ =? _)%N; [done|].
  destruct (o !! cur) as [[|e es]|]; cbn; [done| |done]. apply IH.
Qed.

(** Every step visits a new node of [I], so the walk ends. *)
Lemma walk_total (I : gset NodeId) fuel :
  (forall i e es, o !! i = Some (e :: es) -> to_node e ∈ I) ->
  forall cur vis, cur ∈ I -> vis ⊆ I -> size I < fuel + size vis ->
  exists res, walk fuel o output cur vis = Some res.
Proof.
  intros Hto. induction fuel as [|fuel IH]; intros cur vis Hcur Hvis Hf.
  { apply subseteq_size in Hvis. lia. }
  cbn [walk]. case_decide as Hin; [eauto|]. destruct (_ =? _)%N; [eauto|].
  destruct (o !! cur) as [[|e es]|] eqn:Ho; cbn; [eauto| |eauto].
  apply IH; [by eapply Hto|set_solver|]. rewrite size_union by set_solver. rewrite size_singleton. lia.
Qed.
End walk.

(** ** Linear graphs *)

(** [p] visits every node once, from the source to the output, and the edges
    are its steps. *)
Record Linear (g : NodeGraph) (p : list NodeId) : Prop := {
  linear_head : head p = Some (source_node_id g);
  linear_last : last p = Some (output_node_id g);
  linear_nodes : p ≡ₚ ids g;
  linear_edges : hops p ≡ₚ links g;
}.

(** The source is the only source and the output the only output. *)
Definition roles_ok (g : NodeGraph) (ds : gmap NodeId NodeDefinition) : Prop :=
  forall i d, ds !! i = Some d ->
    (is_source d = true <-> i = source_node_id g) /\ (is_output d = true <-> i = output_node_id g).

Lemma sum_by_flag {A} (b : A -> bool) l :
  sum_by (fun a => if b a then 1%N else 0%N) l = len (filter (fun a => b a = true) l).
Proof.
  induction l as [|a l IH]; [done|]. rewrite sum_by_cons, filter_cons, IH.
  destruct (b a); cbn [decide]; [by rewrite decide_True, len_cons|by rewrite decide_False].
Qed.

Lemma length_filter_links g (P : NodeId * NodeId -> Prop) `{!forall h, Decision (P h)} :
  length (filter (fun e => P (from_node e, to_node e)) (edges g)) = length (filter P (links g)).
Proof.
  induction (edges g) as [|e l IH]; [done|]. rewrite fmap_cons, !filter_cons.
  repeat case_decide; cbn; congruence.
Qed.

Lemma length_out_edges g i : length (out_edges g i) = length (filter (fun h => h.1 = i) (links g)).
Proof. exact (length_filter_links g (fun h => h.1 = i)). Qed.
Lemma length_in_edges g i : length (in_edges g i) = length (filter (fun h => h.2 = i) (links g)).
Proof. exact (length_filter_links g (fun h => h.2 = i)). Qed.

Section roles.
Context (ds : gmap NodeId NodeDefinition) (role_of : NodeDefinition -> bool) (l : list NodeConfig).
Context (Hnd : NoDup (node_id <$> l)).
Notation flag n := (from_option role_of false (ds !! node_id n)).

Lemma role_count_one n d m d' :
  role_count role_of ds l = 1%N -> n ∈ l -> m ∈ l ->
  ds !! node_id n = Some d -> role_of d = true ->
  ds !! node_id m = Some d' -> role_of d' = true -> m = n.
Proof.
  unfold role_count. rewrite (sum_by_flag (fun n => flag n)). intros Hc Hn Hm Hd Hr Hd' Hr'.
  destruct (filter _ l) as [|x [|y k]] eqn:Hf; [done| |rewrite !len_cons in Hc; lia].
  assert (n ∈ [x]) as ->%list_elem_of_singleton
    by (rewrite <- Hf; apply list_elem_of_filter; by rewrite Hd).
  assert (m ∈ [x]) as ->%list_elem_of_singleton
    by (rewrite <- Hf; apply list_elem_of_filter; by rewrite Hd').
  done.
Qed.

Lemma role_count_exact n d :
  n ∈ l -> ds !! node_id n = Some d -> role_of d = true ->
  (forall i d', ds !! i = Some d' -> role_of d' = true -> i = node_id n) ->
  role_count role_of ds l = 1%N.
Proof.
  intros Hn Hd Hr Huniq. unfold role_count. rewrite (sum_by_flag (fun n => flag n)).
  apply list_elem_of_split in Hn as (l1 & l2 & ->).
  rewrite fmap_app, fmap_cons in Hnd. apply NoDup_app in Hnd as (_ & Hd1 & [Hn2 _]%NoDup_cons).
  assert (forall k, node_id n ∉ node_id <$> k -> filter (fun n => flag n = true) k = []) as Hnone.
  { intros k Hk. apply filter_none. intros m Hm Hf. destruct (ds !! node_id m) as [d'|] eqn:Hm'; [|done].
    apply Hk. rewrite <- (Huniq _ _ Hm' Hf). by apply list_elem_of_fmap_2. }
  rewrite filter_app, filter_cons_True by (by rewrite Hd).
  rewrite (Hnone l1), (Hnone l2); [done|done|]. intros Hin. apply (Hd1 _ Hin). left.
Qed.
End roles.

Lemma hops_closed {A} (P : A -> Prop) p x :
  head p = Some x -> P x -> Forall (fun h => P h.2) (hops p) -> Forall P p.
Proof.
  revert x. induction p as [|y [|z p] IH]; intros x Hh Hx Hp; [done|..]; injection Hh as ->.
  - by repeat constructor.
  - rewrite hops_cons in Hp. apply Forall_cons in Hp as [Hz Hp]. constructor; [done|]. by eapply IH.
Qed.

Section linear.
Context (g : NodeGraph) (Hb : NoDup (ids g)).

Lemma linear_NoDup p : Linear g p -> NoDup p.
Proof. intros [_ _ Hp _]. by rewrite Hp. Qed.

(** The path of a linear graph is unique. *)
Lemma linear_unique p q : Linear g p -> Linear g q -> p = q.
Proof.
  intros Hp Hq. pose proof (linear_NoDup p Hp) as Hnp. pose proof (linear_NoDup q Hq) as Hnq.
  assert (forall (x y z : NodeId), (x, y) ∈ links g -> (x, z) ∈ links g -> y = z) as Hfun.
  { intros x y z. rewrite <- !(linear_edges _ _ Hp). intros Hy Hz.
    assert (x ∈ p /\ last p <> Some x) as [Hx Hl].
    { split; [by apply elem_of_hops in Hy as [? _]|]. intros Hl.
      pose proof (hops_from_last p x Hnp Hl) as Hf. apply (filter_nil_not_elem_of _ _ (x, y)) in Hf; done. }
    destruct (hops_from_one p x Hnp Hx Hl) as [w Hw].
    assert ((x, y) ∈ [(x, w)]) as [= ->]%list_elem_of_singleton
      by (rewrite <- Hw; by apply list_elem_of_filter).
    assert ((x, z) ∈ [(x, w)]) as [= ->]%list_elem_of_singleton
      by (rewrite <- Hw; by apply list_elem_of_filter).
    done. }
  assert (forall p q x, head p = Some x -> head q = Some x -> last p = last q -> NoDup p -> NoDup q ->
    (forall h, h ∈ hops p -> h ∈ links g) -> (forall h, h ∈ hops q -> h ∈ links g) -> p = q) as Hgen.
  { clear p q Hp Hq Hnp Hnq. induction p as [|a p IH]; intros q x Hhp Hhq Hl Hnp Hnq Hsp Hsq; [done|].
    injection Hhp as ->. destruct q as [|b q]; [done|]. injection Hhq as ->.
    apply NoDup_cons in Hnp as [Hxp Hnp], Hnq as [Hxq Hnq].
    destruct p as [|y p], q as [|z q]; [done|..].
    - exfalso. apply Hxq. cbn in Hl. by apply last_Some_elem_of.
    - exfalso. apply Hxp. cbn in Hl. by apply last_Some_elem_of.
    - assert (y = z) as ->.
      { apply (Hfun x); [apply Hsp|apply Hsq]; rewrite hops_cons; left. }
      f_equal. apply (IH (z :: q) z); [done|done|done|done|done|..].
      + intros h Hh. apply Hsp. rewrite hops_cons. by right.
      + intros h Hh. apply Hsq. rewrite hops_cons. by right. }
  apply (Hgen p q (source_node_id g)); [by apply linear_head..| |done|done| |].
  - by rewrite (linear_last _ _ Hp), (linear_last _ _ Hq).
  - intros h. by rewrite (linear_edges _ _ Hp).
  - intros h. by rewrite (linear_edges _ _ Hq).
Qed.
End linear.

Section exact.
Context `{Serde} (g : NodeGraph) (Hb : Basic g).

(** Hops of a path are the first outgoing edges. *)
Lemma linear_hop o i p x y :
  Tables g o i -> Linear g p -> (x, y) ∈ hops p -> hop o (x, y).
Proof.
  intros HT HL Hh. pose proof (linear_NoDup g (basic_ids g Hb) p HL) as Hnd.
  assert (x ∈ p) as Hx by (by apply elem_of_hops in Hh as [? _]).
  assert (x ∈ ids g) as Hid by (by rewrite <- (linear_nodes _ _ HL)).
  assert ((x, y) ∈ links g) as Hl by (by rewrite <- (linear_edges _ _ HL)).
  assert (last p <> Some x) as Hlast.
  { intros Hl'. pose proof (hops_from_last p x Hnd Hl') as Hf.
    by apply (filter_nil_not_elem_of _ _ (x, y)) in Hf. }
  destruct (hops_from_one p x Hnd Hx Hlast) as [w Hw].
  assert (w = y) as ->.
  { assert ((x, y) ∈ [(x, w)]) as [= ->]%list_elem_of_singleton; [|done].
    rewrite <- Hw. by apply list_elem_of_filter. }
  assert (length (out_edges g x) = 1) as Hlen.
  { rewrite length_out_edges.
    by rewrite <- (filter_Permutation _ _ _ (linear_edges _ _ HL)), Hw. }
  apply list_elem_of_fmap in Hl as (e & [= -> ->] & He).
  assert (e ∈ out_edges g (from_node e)) as Hin by (by apply list_elem_of_filter).
  exists e, []. split; [|done]. cbn. rewrite (tables_out _ _ _ HT) by done. f_equal.
  destruct (out_edges g (from_node e)) as [|e' [|? ?]]; [done| |done].
  by apply list_elem_of_singleton in Hin as ->.
Qed.

Lemma linear_degrees ds p i d :
  Linear g p -> roles_ok g ds -> ds !! i = Some d -> i ∈ ids g -> degrees_ok g d i.
Proof.
  intros HL HR Hd Hi. pose proof (linear_NoDup g (basic_ids g Hb) p HL) as Hnd.
  assert (i ∈ p) as Hp by (by rewrite (linear_nodes _ _ HL)). destruct (HR i d Hd) as [Hs Ho].
  unfold degrees_ok. rewrite length_in_edges, length_out_edges.
  rewrite <- !(filter_Permutation _ _ _ (linear_edges _ _ HL)). split.
  - destruct (is_source d).
    + rewrite hops_to_head; [done|done|]. rewrite (linear_head _ _ HL). f_equal. symmetry. by apply Hs.
    + destruct (hops_to_one p i Hnd Hp) as [j ->]; [|done]. rewrite (linear_head _ _ HL). naive_solver.
  - destruct (is_output d).
    + rewrite hops_from_last; [done|done|]. rewrite (linear_last _ _ HL). f_equal. symmetry. by apply Ho.
    + destruct (hops_from_one p i Hnd Hp) as [j ->]; [|done]. rewrite (linear_last _ _ HL). naive_solver.
Qed.

(** The walk accepts exactly linear graphs. *)
Lemma check_path_sound o i :
  Tables g o i -> check_path g o = Ok tt -> exists p, Linear g p.
Proof.
  intros HT (vis & Hw & Hsz)%bind_Ok.
  destruct (walk _ _ _ _ _) as [[v|]|] eqn:Hwalk; cbn in Hw; [|done|done]. injection Hw as ->.
  apply walk_sound in Hwalk as (p & Hh & Hl & Hnd & _ & Hv & Hp). exists p.
  destruct (N.eqb_spec (N.of_nat (size vis)) (len (graph_nodes g))) as [Hs|]; [|done].
  assert (vis = list_to_set p) as -> by (apply set_eq; intros x; rewrite Hv; set_solver).
  rewrite size_list_to_set in Hs by done.
  assert (forall h, h ∈ hops p -> h ∈ links g) as Hsub.
  { intros [x y] Hin. rewrite Forall_forall in Hp. destruct (Hp _ Hin) as (e & es & Ho & He). cbn in *.
    destruct (decide (x ∈ ids g)) as [Hx|Hx]; [|by rewrite (tables_out_none _ _ _ HT x Hx) in Ho].
    rewrite (tables_out _ _ _ HT x Hx) in Ho. injection Ho as Ho.
    assert (e ∈ out_edges g x) as [<- Hin']%list_elem_of_filter by (rewrite Ho; left).
    apply list_elem_of_fmap. exists e. by rewrite He. }
  assert (length p = length (ids g)) as Hlen by (rewrite length_fmap; unfold len in Hs; lia).
  split; [done|done|..].
  - apply submseteq_length_Permutation; [|lia]. apply NoDup_submseteq; [done|]. apply Forall_forall.
    eapply hops_closed; [exact Hh|by apply (basic_source g)|]. apply Forall_forall. intros h Hh'%Hsub.
    apply list_elem_of_fmap in Hh' as (e & -> & He). pose proof (basic_links g Hb) as Hb'.
    rewrite Forall_forall in Hb'. by apply Hb'.
  - apply submseteq_length_Permutation; [apply NoDup_submseteq; [by apply NoDup_hops|done]|].
    rewrite length_fmap, length_hops, Hlen, length_fmap, <- (basic_edges g Hb). simpl. lia.
Qed.

Lemma check_path_complete o i p : Tables g o i -> Linear g p -> check_path g o = Ok tt.
Proof.
  intros HT HL. pose proof (linear_NoDup g (basic_ids g Hb) p HL) as Hnd.
  assert (length p = length (graph_nodes g)) as Hlen
    by (rewrite (linear_nodes _ _ HL); apply length_fmap).
  destruct (walk_along o (output_node_id g) p (S (length (graph_nodes g))) (source_node_id g) ∅)
    as (vis & Hw & Hv); [by apply linear_head|by apply linear_last|done|set_solver| |lia|].
  { apply Forall_forall. intros [x y] Hh. by eapply linear_hop. }
  unfold check_path. rewrite Hw. cbn -[N.eqb].
  assert (vis = list_to_set p) as -> by (apply set_eq; intros x; rewrite Hv; set_solver).
  rewrite size_list_to_set by done. unfold len. by rewrite Hlen, N.eqb_refl.
Qed.
End exact.

(** What acceptance means. *)
Record GraphOk `{Serde} (r : NodeRegistry) (g : NodeGraph) (ds : gmap NodeId NodeDefinition)
  (cs : gmap NodeId ValidatedNodeConfig) : Prop := {
  graph_ok_resolves : Resolves r (graph_nodes g) ds cs;
  graph_ok_roles : roles_ok g ds;
  graph_ok_edges : Forall (edge_ok ds) (edges g);
  graph_ok_path : exists p, Linear g p;
}.

Section validated.
Context `{Serde} (graph_to_vec : NodeGraph -> option (list N)) (r : NodeRegistry).

Lemma node_with_id g i : i ∈ ids g -> exists n, n ∈ graph_nodes g /\ node_id n = i.
Proof. intros (n & -> & Hn)%list_elem_of_fmap. eauto. Qed.

Lemma validated_configs_sound g cs :
  validated_configs graph_to_vec r g = Ok cs -> Basic g /\ exists ds, GraphOk r g ds cs.
Proof.
  unfold validated_configs. intros (n & Hbasic%validate_basic_Basic & Hv)%bind_Ok.
  split; [done|]. destruct (_ <? _)%N; [done|]. apply bind_Ok in Hv as (st & Hst & Hv).
  pose proof (basic_ids g Hbasic) as Hnd.
  apply resolve_all in Hst as (HR & Hsc & Hoc); [|done]. set (ds := node_definitions st) in *.
  destruct (N.eqb_spec (source_count st) 1) as [Hs1|]; [|done].
  destruct (N.eqb_spec (output_count st) 1) as [Ho1|]; [|done]. cbn [negb orb] in Hv.
  apply bind_Ok in Hv as (sd & Hsd%ok_or_Ok & Hv). destruct (is_source sd) eqn:Hss; [|done]. cbn [negb] in Hv.
  apply bind_Ok in Hv as (od & Hod%ok_or_Ok & Hv). destruct (is_output od) eqn:Hoo; [|done]. cbn [negb] in Hv.
  apply bind_Ok in Hv as ([o i] & Htab & Hv). apply connect_edges in Htab as [Hedges HT].
  apply bind_Ok in Hv as ([] & Hdeg & Hv). apply bind_Ok in Hv as ([] & Hpath & [= <-]).
  exists ds. split; [done| |done|by eapply check_path_sound].
  destruct (node_with_id g _ (basic_source g Hbasic)) as (sn & Hsn & Hsid).
  destruct (node_with_id g _ (basic_output g Hbasic)) as (on & Hon & Hoid).
  intros j d Hj. assert (j ∈ ids g) as Hjin by (apply (resolves_defs _ _ _ _ HR); eauto).
  destruct (node_with_id g j Hjin) as (m & Hm & <-). split; split.
  - intros Hjs. rewrite <- Hsid in Hsd |- *.
    by rewrite (role_count_one ds is_source (graph_nodes g) sn sd m d) by congruence.
  - intros Heq. rewrite Heq in Hj. congruence.
  - intros Hjo. rewrite <- Hoid in Hod |- *.
    by rewrite (role_count_one ds is_output (graph_nodes g) on od m d) by congruence.
  - intros Heq. rewrite Heq in Hj. congruence.
Qed.

Lemma validated_configs_complete g n ds cs :
  validate_basic graph_to_vec g = Ok n -> GraphOk r g ds cs -> validated_configs graph_to_vec r g = Ok cs.
Proof.
  intros Hn [HR Hroles Hedges [p HL]]. pose proof (validate_basic_Basic _ _ _ Hn) as Hbasic.
  pose proof (basic_ids g Hbasic) as Hnd.
  destruct (node_with_id g _ (basic_source g Hbasic)) as (sn & Hsn & Hsid).
  destruct (node_with_id g _ (basic_output g Hbasic)) as (on & Hon & Hoid).
  destruct (resolves_node _ _ _ _ HR sn Hsn) as (sd & sc & _ & Hsd & _).
  destruct (resolves_node _ _ _ _ HR on Hon) as (od & oc & _ & Hod & _).
  assert (is_source sd = true) as Hss by (by apply (Hroles _ _ Hsd)).
  assert (is_output od = true) as Hoo by (by apply (Hroles _ _ Hod)).
  unfold validated_configs. rewrite Hn. cbn [mbind result_bind].
  destruct (N.ltb_spec (len (graph_nodes g)) 2) as [Hlt|_].
  { pose proof (basic_distinct g Hbasic). pose proof (basic_source g Hbasic) as Hs'.
    pose proof (basic_output g Hbasic) as Ho'. destruct (graph_nodes g) as [|a [|b l]].
    - by apply not_elem_of_nil in Hs'.
    - apply list_elem_of_singleton in Hs', Ho'. congruence.
    - rewrite !len_cons in Hlt. lia. }
  destruct (resolve_fold_total r (merge_sort node_le (graph_nodes g)) (mkResolved ∅ ∅ 0 0)) as [st Hst].
  { apply Forall_forall. intros m. rewrite (merge_sort_Permutation node_le). intros Hm.
    destruct (resolves_node _ _ _ _ HR m Hm) as (d & c & He & _). eauto. }
  rewrite Hst. apply resolve_all in Hst as (HR' & Hsc & Hoc); [|done].
  destruct (Resolves_unique _ _ _ _ _ _ HR' HR) as [Hds Hcs]. rewrite Hds in *. rewrite Hcs in *.
  rewrite (role_count_exact ds is_source (graph_nodes g) Hnd sn sd Hsn Hsd Hss) in Hsc
    by (intros i d' Hi Hr; rewrite Hsid; by apply (Hroles i d')).
  rewrite (role_count_exact ds is_output (graph_nodes g) Hnd on od Hon Hod Hoo) in Hoc
    by (intros i d' Hi Hr; rewrite Hoid; by apply (Hroles i d')).
  cbn [mbind result_bind]. rewrite Hsc, Hoc, Hds. cbn [N.eqb Pos.eqb negb orb].
  rewrite <- Hsid, Hsd. cbn [ok_or mbind result_bind]. rewrite Hss. cbn [negb].
  rewrite <- Hoid, Hod. cbn [ok_or mbind result_bind]. rewrite Hoo. cbn [negb].
  destruct (connect_fold_total ds (edges g) (empty_table g) (empty_table g) Hedges) as [[o i] Ht].
  { eapply Forall_impl; [apply (basic_links g Hbasic)|]. intros e [? ?].
    rewrite !lookup_empty_table, !decide_True by done. eauto. }
  rewrite Ht. cbn [mbind result_bind]. apply connect_edges in Ht as [_ HT].
  assert (each (check_degrees ds o i) (graph_nodes g) = Ok tt) as ->.
  { apply each_Ok, Forall_forall. intros m Hm.
    destruct (resolves_node _ _ _ _ HR m Hm) as (d & c & _ & Hd & _).
    apply (check_degrees_Ok g ds o i m d HT Hm Hd).
    eapply linear_degrees; [done..|]. by apply list_elem_of_fmap_2. }
  cbn [mbind result_bind]. by rewrite (check_path_complete g Hbasic o i p HT HL), Hcs.
Qed.
End validated.

(** ** Termination of the walk *)

Lemma walk_terminates_gen `{Serde} g o i k :
  Basic g -> Tables g o i ->
  exists res, walk (S (length (graph_nodes g)) + k) o (output_node_id g) (source_node_id g) ∅ = Some res /\
    walk (S (length (graph_nodes g))) o (output_node_id g) (source_node_id g) ∅ = Some res.
Proof.
  intros Hb HT.
  destruct (walk_total o (output_node_id g) (list_to_set (ids g)) (S (length (graph_nodes g))))
    with (cur := source_node_id g) (vis := (∅ : gset NodeId)) as [res Hres].
  - intros x e es Hx. apply elem_of_list_to_set.
    destruct (decide (x ∈ ids g)) as [Hin|Hin]; [|by rewrite (tables_out_none _ _ _ HT x Hin) in Hx].
    rewrite (tables_out _ _ _ HT x Hin) in Hx. injection Hx as Hx.
    assert (e ∈ out_edges g x) as [_ He]%list_elem_of_filter by (rewrite Hx; left).
    pose proof (basic_links g Hb) as Hl. rewrite Forall_forall in Hl. by apply Hl.
  - apply elem_of_list_to_set. apply (basic_source g Hb).
  - set_solver.
  - rewrite size_list_to_set by apply (basic_ids g Hb). rewrite length_fmap. lia.
  - exists res. split; [by apply walk_more|done].
Qed.

(** ** An example: a source, a deployed composite, a rename and an output *)

Definition example_graph_bytes (g : NodeGraph) : option (list N) := Some [].
Definition example_node (id : NodeId) (type : string) (fields : list (string * json)) : NodeConfig :=
  mkNodeConfig id type 1 (JObject fields) ∅.
Definition example_hop (a b : NodeId) : NodeEdge := mkEdge (mkPort a "out") (mkPort b "in").
Definition example_graph : NodeGraph :=
  mkGraph 1 9%N 1%N 4%N
    [example_node 4%N "stillflow.node.output" [("outputLabel", JString "cleaned")];
     example_node 1%N "stillflow.node.source" [("sourceAssetId", JString "7")];
     example_node 3%N "stillflow.node.rename" [("column", JString "12"); ("to", JString "total")];
     example_node 2%N "stillflow.composite.trim-clean" [("column", JString "11")]]
    [example_hop 3%N 4%N; example_hop 1%N 2%N; example_hop 2%N 3%N] ∅.
#[local] Existing Instance example_serde.
Definition example_definitions : gmap NodeId NodeDefinition :=
  list_to_map [(1%N, source_definition); (2%N, package_definition trim_clean_package);
               (3%N, rename_definition); (4%N, output_definition)].

(** ** Claims *)

(** Graph validation is exact.  A graph is accepted exactly when it
    passes the basic limits, every node resolves against the registry to the
    returned configuration, the declared source and output are the only ones
    of their role, every edge joins declared ports of two nodes, and there is
    a path that visits every node once, from the source to the output, whose
    steps are the edges. *)
Theorem validated_configs_exact `{Serde} (graph_to_vec : NodeGraph -> option (list N))
  (r : NodeRegistry) (g : NodeGraph) (cs : gmap NodeId ValidatedNodeConfig) :
  validated_configs graph_to_vec r g = Ok cs <->
  (exists bytes, validate_basic graph_to_vec g = Ok bytes) /\ exists ds, GraphOk r g ds cs.
Proof.
  split.
  - intros Hv. split; [|by apply validated_configs_sound in Hv as [_ ?]].
    apply bind_Ok in Hv as (bytes & Hb & _). eauto.
  - intros [[bytes Hb] [ds Hds]]. by eapply validated_configs_complete.
Qed.

(** The loop that follows the edges from the source always ends.  On any
    graph past the basic checks, cyclic or not, one more iteration than there
    are nodes is enough for an answer, and further iterations would not
    change it. *)
Theorem graph_walk_terminates `{Serde} (graph_to_vec : NodeGraph -> option (list N)) (g : NodeGraph)
  (bytes : N) (ds : gmap NodeId NodeDefinition) (outgoing incoming : gmap NodeId (list NodeEdge)) :
  validate_basic graph_to_vec g = Ok bytes ->
  fold_result (connect_edge ds) (empty_table g, empty_table g) (edges g) = Ok (outgoing, incoming) ->
  exists answer, forall k,
    walk (S (length (graph_nodes g)) + k) outgoing (output_node_id g) (source_node_id g) ∅ = Some answer.
Proof.
  intros Hb%validate_basic_Basic [_ HT]%connect_edges.
  destruct (walk_terminates_gen g outgoing incoming 0 Hb HT) as (res & _ & Hres).
  exists res. intros k. by apply walk_more.
Qed.

(** A graph whose edges lead back before the output. *)
Definition cyclic_graph : NodeGraph :=
  mkGraph 1 9%N 1%N 4%N (graph_nodes example_graph)
    [example_hop 1%N 2%N; example_hop 2%N 3%N; example_hop 3%N 2%N] ∅.

Lemma graph_walk_terminates_witness : exists outgoing answer, forall k,
  walk (5 + k) outgoing 4%N 1%N ∅ = Some answer.
Proof.
  eexists. refine (graph_walk_terminates example_graph_bytes cyclic_graph 8 example_definitions
    _ _ _ _); vm_compute; reflexivity.
Defined.
