(* ===== verification/Compiler.v ===== *)
(** * The node-graph compiler: [stillflow-plan/src/node_graph_compiler.rs]

    A validated graph becomes a logical plan: the source a scan, the output a
    materialisation, every node between them a projection, a filter, a sort
    or one rule, and every composite the chain of its steps under derived
    identities.  The compiler carries the working schema along the path and
    records the schema of every node. *)

From S2P Require Import Prelude Text Secrets Logical Schema Expression Rule Plan Semantics Nodes Registry Graph.

Definition MAX_COMPILE_WORK : N := 2000000.
Definition SCHEMA_SNAPSHOT_FIELD_COST_BYTES : N := 128.
Definition MAX_SCHEMA_SNAPSHOT_ESTIMATE_BYTES : N := 2 * 1024 * 1024.

(** ** Data *)

Record AuthorizedSourceContext := mkContext { authorized_asset : Uuid; source_schema : LogicalSchema }.
Inductive CompileTarget := Execution | Preview (node : NodeId).

Record ErrorLocation := mkLocation {
  loc_column : option ColumnId;
  loc_field_path : option string;
  loc_expected : option string;
  loc_actual : option string;
}.
Record NodeGraphCompileError := mkCompileError {
  compile_code : NodeGraphErrorCode;
  compile_node_id : option NodeId;
  compile_location : option ErrorLocation;
  compile_text : string;
}.
Notation Compile := (result NodeGraphCompileError).

Definition compile_error (code : NodeGraphErrorCode) (node : option NodeId) (message : string)
  : NodeGraphCompileError := mkCompileError code node None message.
Definition with_location (e : NodeGraphCompileError) (column : option ColumnId)
  (field_path expected actual : option string) : NodeGraphCompileError :=
  match column, field_path, expected, actual with
  | None, None, None, None => e
  | _, _, _, _ =>
      mkCompileError (compile_code e) (compile_node_id e)
        (Some (mkLocation column field_path expected actual)) (compile_text e)
  end.

(** [diagnostics] is always empty and is left out. *)
Record CompiledNodeGraph := mkCompiled {
  compiled_plan : LogicalPlan;
  output_schema : LogicalSchema;
  node_plan_ids : gmap NodeId PlanNodeId;
  node_schemas : gmap NodeId LogicalSchema;
}.

(** ** Error mapping *)

Definition limit_error : NodeGraphCompileError :=
  compile_error Code.LimitCompileWork None "compile work exceeds the contract limit".
Definition invalid_config_any (message : string) : NodeGraphCompileError :=
  compile_error Code.InvalidConfig None message.
Definition type_error (node : NodeId) (message : string) : NodeGraphCompileError :=
  compile_error Code.IncompatibleType (Some node) message.
Definition semantic_error (error : SemanticError) (node : NodeId) : NodeGraphCompileError :=
  compile_error (code (error_kind error)) (Some node) (compile_message (error_kind error)).
Definition plan_error (_ : PlanError) : NodeGraphCompileError :=
  compile_error Code.PlanInvalid None "compiled logical plan failed validation or canonicalization".

Definition graph_error_message (c : NodeGraphErrorCode) : string :=
  match c with
  | Code.UnsupportedGraphVersion => "graph version is not supported"
  | Code.UnknownNodeType => "node type is not registered"
  | Code.UnsupportedConfigVersion => "node config version is not supported"
  | Code.InvalidConfig => "node config is invalid"
  | Code.InvalidPort => "node port is invalid"
  | Code.InvalidTopology => "graph topology is not authorized"
  | Code.SourceBinding => "graph source binding is invalid"
  | Code.LimitGraphBytes => "graph byte limit exceeded"
  | Code.LimitNodes => "graph node limit exceeded"
  | Code.LimitEdges => "graph edge limit exceeded"
  | Code.LimitConfigBytes => "graph config byte limit exceeded"
  | Code.LimitMetadataBytes => "graph metadata byte limit exceeded"
  | Code.LimitStringBytes => "graph string limit exceeded"
  | Code.LimitNestingDepth => "graph nesting limit exceeded"
  | Code.LimitRulesPerNode => "node rule limit exceeded"
  | Code.LimitRules => "graph rule limit exceeded"
  | Code.LimitCompileWork => "compile work limit exceeded"
  | _ => "graph validation failed"
  end.
Definition map_graph_error (error : NodeGraphError) : NodeGraphCompileError :=
  with_location (compile_error (graph_code error) (graph_node error)
                   (graph_error_message (graph_code error)))
    None (graph_field_path error) None None.

Definition authorized_source_new (asset : Uuid) (schema : LogicalSchema)
  : Compile AuthorizedSourceContext :=
  if is_nil asset then Err (compile_error Code.SourceBinding None "authorized source asset is nil") else
  try! map_err (fun _ => compile_error Code.InvalidConfig None "authorized source schema is invalid")
    (schema_validate schema);
  Ok (mkContext asset schema).

(** [CompiledNodeGraph::preview_plan_node_id] *)
Definition preview_plan_node_id (c : CompiledNodeGraph) (target : NodeId) : Compile PlanNodeId :=
  plan_id ← ok_or (node_plan_ids c !! target : option PlanNodeId)
    (compile_error Code.UnsupportedTarget (Some target)
       "preview target is not present in the compiled graph");
  if (plan_id =? root (compiled_plan c))%N
  then Err (compile_error Code.UnsupportedTarget (Some target)
              "materialize node is not a preview target")
  else Ok plan_id.

(** The low sixteen bits of the product identity are replaced. *)
Definition internal_plan_node_id (product : PlanNodeId) (ordinal : N) : PlanNodeId :=
  N.lor (N.lor (N.land product (N.lxor (2 ^ 128 - 1) 0xFFFF)) 0x8000) ordinal.

(** [ordinal as u16] *)
Definition as_u16 (ordinal : nat) : N := (N.of_nat ordinal mod 2 ^ 16)%N.

(** ** Work limits *)

Section work.
Context `{Serde}.

(** [nodes.iter().try_fold(0, |count, node| count.checked_add(metadata.len()))]
    added to the graph's own entries. *)
Definition metadata_entries (g : NodeGraph) : Compile N :=
  nodes ← ok_or (foldl (fun count node => c ← count; checked_add c (N.of_nat (size (node_metadata node))))
                   (Some 0%N) (graph_nodes g)) limit_error;
  ok_or (checked_add (N.of_nat (size (graph_metadata g))) nodes) limit_error.

Definition shape_bytes (work : N) (node : NodeConfig) : Compile N :=
  bytes ← ok_or (value_to_vec (config node))
    (compile_error Code.InvalidConfig (Some (node_id node)) "node config could not be serialized");
  if (MAX_CONFIG_BYTES <? len bytes)%N
  then Err (compile_error Code.LimitConfigBytes (Some (node_id node))
              "node config exceeds the contract limit")
  else ok_or (checked_add work (len bytes)) limit_error.

Definition check_shape_work (g : NodeGraph) : Compile unit :=
  if (MAX_NODES <? len (graph_nodes g))%N
  then Err (compile_error Code.LimitNodes None "graph node count exceeds the contract limit") else
  entries ← metadata_entries g;
  if negb (bool_decide (is_Some (checked_mul entries 16))) || (MAX_METADATA_BYTES <? entries)%N
  then Err (compile_error Code.LimitMetadataBytes None "graph metadata limit exceeded") else
  base ← ok_or (checked_add (len (graph_nodes g)) (len (edges g))) limit_error;
  charge ← ok_or (checked_mul entries 16) limit_error;
  work ← ok_or (checked_add base charge) limit_error;
  work ← fold_result shape_bytes work (graph_nodes g);
  if (MAX_COMPILE_WORK <? work)%N then Err limit_error else Ok tt.

(** One iteration of [expression_shape]: nodes and greatest depth. *)
Definition shape_count_step (st : N * N) (p : Pending) : Compile (N * N * list Pending) :=
  let '(count, max_depth) := st in
  let '(At current depth) := p in
  count ← ok_or (checked_add count 1) limit_error;
  let max_depth := N.max max_depth depth in
  if ((MAX_EXPR_NODES <? count) || (MAX_EXPR_DEPTH <? max_depth))%N
  then Err (compile_error Code.LimitNestingDepth None "expression exceeds the contract limit") else
  match current with
  | Coalesce [] | Concat [] => Err (invalid_config_any "coalesce expression is empty")
  | _ => Ok (count, max_depth, pending_pushes p)
  end.
Definition expression_shape (expr : Expr) : Compile (N * N) :=
  run shape_count_step (Err limit_error) (0, 0)%N [At expr 1].

(** The expression of a config, counted. *)
Definition config_expression_nodes (c : ValidatedNodeConfig) : Compile N :=
  match c with
  | VFilter predicate | VDeriveColumn _ _ _ _ predicate => fst <$> expression_shape predicate
  | _ => Ok 0%N
  end.
Definition add_expression_nodes (total : N) (c : ValidatedNodeConfig) : Compile N :=
  match c with
  | VComposite steps =>
      step_expressions ← fold_result (fun sum step => n ← config_expression_nodes step; Ok (sum + n)%N)
                           0%N steps;
      ok_or (value ← checked_add total (len steps); checked_add value step_expressions) limit_error
  | _ => count ← config_expression_nodes c; ok_or (checked_add total count) limit_error
  end.

(** The stack of [schema_field_count]: a list of fields and its depth. *)
Inductive FieldsAt := FAt (fs : list LogicalField) (depth : N).
Definition nesting_error : NodeGraphCompileError :=
  compile_error Code.LimitNestingDepth None "schema nesting exceeds the contract limit".
(** The inner loop over nested lists. *)
Fixpoint list_descent (current : LogicalType) (depth : N) : Compile (list FieldsAt) :=
  if (MAX_NESTING_DEPTH <? depth)%N then Err nesting_error else
  match current with
  | TList next => list_descent next (depth + 1)
  | TStruct nested => Ok [FAt nested depth]
  | _ => Ok []
  end.
Definition field_pushes (depth : N) (f : LogicalField) : Compile (list FieldsAt) :=
  match data_type f with
  | TStruct nested => Ok [FAt nested (depth + 1)]
  | TList element => list_descent element (depth + 1)
  | _ => Ok []
  end.
Definition field_count_step (count : N) (p : FieldsAt) : Compile (N * list FieldsAt) :=
  let '(FAt fs depth) := p in
  if (MAX_NESTING_DEPTH <? depth)%N then Err nesting_error else
  count ← ok_or (checked_add count (len fs)) limit_error;
  pushes ← collect (field_pushes depth) fs;
  Ok (count, concat pushes).

(** The fields pushed when no bound is exceeded. *)
Fixpoint list_target (current : LogicalType) (depth : N) : list FieldsAt :=
  match current with
  | TList next => list_target next (depth + 1)
  | TStruct nested => [FAt nested depth]
  | _ => []
  end.
Definition fields_children (p : FieldsAt) : list FieldsAt :=
  let '(FAt fs depth) := p in
  fs ≫= (fun f => match data_type f with
                  | TStruct nested => [FAt nested (depth + 1)]
                  | TList element => list_target element (depth + 1)
                  | _ => []
                  end).
Definition fields_weight (p : FieldsAt) : nat :=
  let '(FAt fs _) := p in S (sum_list_with (fun f => type_weight (data_type f)) fs).

Lemma list_target_weight t : forall depth,
  sum_list_with fields_weight (list_target t depth) <= type_weight t.
Proof.
  induction t as [| | | | | | | | | | | | | | | |e IH|fs]; intros depth; cbn; try lia.
  specialize (IH (depth + 1)%N). lia.
Qed.
Lemma fields_children_weight p : sum_list_with fields_weight (fields_children p) < fields_weight p.
Proof.
  destruct p as [fs depth]. cbn [fields_children fields_weight].
  induction fs as [|f fs IH]; [cbn; lia|]. rewrite bind_cons, sum_list_with_app. cbn [sum_list_with].
  assert (sum_list_with fields_weight match data_type f with
    | TStruct nested => [FAt nested (depth + 1)] | TList element => list_target element (depth + 1)
    | _ => [] end <= type_weight (data_type f)); [|lia].
  destruct (data_type f) as [| | | | | | | | | | | | | | | |e|nested]; cbn; try lia.
  pose proof (list_target_weight e (depth + 1)%N). lia.
Qed.
#[export] Instance FieldsAt_tree : Tree FieldsAt := {|
  children := fields_children;
  weight := fields_weight;
  weight_children := fields_children_weight;
|}.
Definition schema_field_count (schema : LogicalSchema) : Compile N :=
  run field_count_step (Err limit_error) 0%N [FAt (fields schema) 1].

(** The accounting of the per-node schema snapshots. *)
Definition widest (width : N * N) (c : ValidatedNodeConfig) : N * N :=
  match c with
  | VSelect columns => (N.max width.1 (len columns), width.2)
  | VDeriveColumn _ _ _ _ _ => (width.1, width.2 + 1)%N
  | _ => width
  end.
Definition estimate_schema_snapshot_bytes (g : NodeGraph) (configs : gmap NodeId ValidatedNodeConfig)
  (schema : LogicalSchema) : Compile N :=
  let source_width := match configs !! source_node_id g with
                      | Some (VSource _ (Some columns)) => len columns
                      | _ => len (fields schema)
                      end in
  let '(max_width, derive_count) := foldl widest (source_width, 0%N) (plan_iter configs).*2 in
  let worst_width := saturating_add max_width derive_count in
  field_instances ← ok_or (checked_mul worst_width (len (graph_nodes g))) limit_error;
  ok_or (checked_mul field_instances SCHEMA_SNAPSHOT_FIELD_COST_BYTES) limit_error.

Definition config_bytes (total : N) (node : NodeConfig) : Compile N :=
  bytes ← ok_or (value_to_vec (config node)) limit_error;
  ok_or (checked_add total (len bytes)) limit_error.

Definition check_compile_work (g : NodeGraph) (configs : gmap NodeId ValidatedNodeConfig)
  (schema : option LogicalSchema) : Compile unit :=
  entries ← metadata_entries g;
  bytes ← fold_result config_bytes 0%N (graph_nodes g);
  expression_nodes ← fold_result add_expression_nodes 0%N (plan_iter configs).*2;
  schema_fields ← match schema with Some schema => schema_field_count schema | None => Ok 0%N end;
  try! match schema with
       | Some schema =>
           estimate ← estimate_schema_snapshot_bytes g configs schema;
           if (MAX_SCHEMA_SNAPSHOT_ESTIMATE_BYTES <? estimate)%N then Err limit_error else Ok tt
       | None => Ok tt
       end;
  work ← ok_or
    (value ← checked_add (len (graph_nodes g)) (len (edges g));
     value ← checked_add value bytes;
     e4 ← checked_mul expression_nodes 4; value ← checked_add value e4;
     f4 ← checked_mul schema_fields 4; value ← checked_add value f4;
     m16 ← checked_mul entries 16; checked_add value m16) limit_error;
  if (MAX_COMPILE_WORK <? work)%N then Err limit_error else Ok tt.
End work.

(** ** The path *)

Definition link_edge (outgoing : gmap NodeId NodeId) (edge : NodeEdge) : Compile (gmap NodeId NodeId) :=
  match outgoing !! from_node edge with
  | Some _ => Err (compile_error Code.InvalidTopology (Some (from_node edge))
                     "graph has more than one outgoing edge")
  | None => Ok (<[from_node edge := to_node edge]> outgoing)
  end.

(** The loop from the source; [None] is fuel exhaustion. *)
Fixpoint trace_path (fuel : nat) (outgoing : gmap NodeId NodeId) (output current : NodeId)
  (visited : gset NodeId) (path : list NodeId) : option (Compile (list NodeId)) :=
  match fuel with
  | 0 => None
  | S fuel =>
      if decide (current ∈ visited)
      then Some (Err (compile_error Code.InvalidTopology (Some current) "graph path contains a cycle")) else
      let path := path ++ [current] in
      if (current =? output)%N then Some (Ok path) else
      match outgoing !! current with
      | Some next => trace_path fuel outgoing output next ({[current]} ∪ visited) path
      | None => Some (Err (compile_error Code.InvalidTopology (Some current)
                             "graph path terminates before output"))
      end
  end.

Definition unique_path (g : NodeGraph) : Compile (list NodeId) :=
  outgoing ← fold_result link_edge ∅ (merge_sort edge_le (edges g));
  path ← default (Err (compile_error Code.InvalidTopology None "walk fuel exhausted"))
    (trace_path (S (length (graph_nodes g))) outgoing (output_node_id g) (source_node_id g) ∅ []);
  if negb (len path =? len (graph_nodes g))%N
  then Err (compile_error Code.InvalidTopology None "graph contains disconnected nodes")
  else Ok path.

(** ** Lowering *)

Definition project_source_schema (schema : LogicalSchema) (projection : option (list ColumnId))
  (node : NodeId) : Compile LogicalSchema :=
  let columns := match projection with Some columns => columns | None => id <$> fields schema end in
  map_err (fun error => semantic_error error node) (project_effect schema columns).

Definition lower_policy (p : CastFailurePolicy) : Rule.CastFailurePolicy :=
  match p with CastError => FailError | CastSetNull => SetNull end.
Definition lower_operation (o : TextOperation) : Rule.TextOperation :=
  match o with
  | TextTrim => OpTrim
  | TextCollapseWhitespace => CollapseWhitespace
  | TextLowercase => Lowercase
  | TextUppercase => Uppercase
  | TextUnicodeNfc => UnicodeNfc
  end.

Definition product_rule (c : ValidatedNodeConfig) : option Rule :=
  match c with
  | VRename column to => Some (RRename column to)
  | VTrim column => Some (RTrim column)
  | VNormalizeText column operation => Some (RNormalizeText column (lower_operation operation))
  | VCast column t on_failure (Some format) =>
      Some (RParseTemporal column t (lower_policy on_failure) format)
  | VCast column t on_failure None => Some (RCast column t (lower_policy on_failure))
  | VReplaceLiteral column from to => Some (RReplaceLiteral column from to)
  | VFillNull column value => Some (RFillNull column value)
  | VDropColumn column => Some (RDropColumn column)
  | VDeriveColumn id name t nullable expression => Some (RDeriveColumn id name t nullable expression)
  | VSelect _ | VFilter _ | VSource _ _ | VOutput _ | VComposite _ | VSort _ => None
  end.

Definition is_sortable_type (t : LogicalType) : bool :=
  match t with
  | TInt8 | TInt16 | TInt32 | TInt64 | TUInt8 | TUInt16 | TUInt32 | TUInt64
  | TFloat32 | TFloat64 | TDate32 | TTimestamp _ _ => true
  | _ => false
  end.

Definition lower_sort_key (node : NodeId) (schema : LogicalSchema) (key : SortKey)
  : Compile Plan.SortKey :=
  field ← ok_or (schema_field schema (key_column key))
    (compile_error Code.UnknownColumn (Some node) "sort key column is absent from the working schema");
  if negb (is_sortable_type (data_type field))
  then Err (compile_error Code.IncompatibleType (Some node) "sort key column type is not ordered") else
  try! map_err (fun error => semantic_error error node) (reject_paused_type (data_type field));
  Ok (mkSortKey (key_column key)
        match key_direction key with SortAscending => Ascending | SortDescending => Descending end
        match key_nulls key with PlaceFirst => NullsFirst | PlaceLast => NullsLast end).

Definition compile_transform (node : NodeId) (c : ValidatedNodeConfig) (schema : LogicalSchema)
  : Compile (PlanNodeKind * LogicalSchema) :=
  match product_rule c with
  | Some rule =>
      next_schema ← map_err (fun error => semantic_error error node) (rule_effect schema rule);
      Ok (ApplyRules [rule], next_schema)
  | None =>
      match c with
      | VSelect columns =>
          next_schema ← map_err (fun error => semantic_error error node) (project_effect schema columns);
          Ok (Project columns, next_schema)
      | VFilter predicate =>
          analysis ← map_err (fun error => semantic_error error node) (analyze_expr schema predicate);
          if negb (is_boolean (analysis_type analysis))
          then Err (type_error node "filter predicate must be boolean")
          else Ok (Filter predicate, schema)
      | VSort keys =>
          plan_keys ← collect (lower_sort_key node schema) keys;
          Ok (Sort plan_keys, schema)
      | VComposite _ =>
          Err (compile_error Code.InvalidTopology (Some node)
                 "composite nodes are expanded by the graph traversal")
      | _ =>
          Err (compile_error Code.InvalidTopology (Some node)
                 "source and output configs are not transform nodes")
      end
  end.

(** ** Emission *)

(** The loop's variables: the plan identities of product nodes, the emitted
    plan nodes, the schema snapshots, the working schema and the node before. *)
Record Emit := mkEmit {
  emit_plan_ids : gmap NodeId PlanNodeId;
  plan_nodes : gmap PlanNodeId PlanNode;
  snapshots : gmap NodeId LogicalSchema;
  working_schema : LogicalSchema;
  previous : option PlanNodeId;
}.

(** [plan_nodes.insert(id, PlanNode::new(kind, previous))] and the snapshot. *)
Definition emit_node (id : PlanNodeId) (kind : PlanNodeKind) (next_schema : LogicalSchema) (st : Emit)
  : Emit :=
  mkEmit (emit_plan_ids st) (<[id := mkPlanNode (option_list (previous st)) kind]> (plan_nodes st))
    (<[id := next_schema]> (snapshots st)) next_schema (Some id).

(** One step of a composite. *)
Definition emit_step (node : NodeId) (plan_id : PlanNodeId) (st : Emit) (entry : N * ValidatedNodeConfig)
  : Compile Emit :=
  let internal := internal_plan_node_id plan_id entry.1 in
  if existsb (fun id => (id =? internal)%N) (plan_iter (emit_plan_ids st)).*2
  then Err (compile_error Code.InvalidConfig (Some node)
              "internal plan node id collides with a product node id") else
  lowered ← compile_transform node entry.2 (working_schema st);
  Ok (emit_node internal lowered.1 lowered.2 st).

Definition emit_composite (node : NodeId) (plan_id : PlanNodeId) (steps : list ValidatedNodeConfig)
  (st : Emit) : Compile Emit :=
  let entries := imap (fun ordinal step => (as_u16 ordinal, step)) steps in
  st ← fold_result (emit_step node plan_id) st entries;
  let last_internal := match last entries with
                       | Some entry => internal_plan_node_id plan_id entry.1
                       | None => plan_id
                       end in
  Ok (mkEmit (<[node := last_internal]> (emit_plan_ids st)) (plan_nodes st)
        (<[node := working_schema st]> (snapshots st)) (working_schema st) (Some last_internal)).

(** [node_plan_ids[&node]]; every node of the path has an entry. *)
Definition plan_id_of (ids : gmap NodeId PlanNodeId) (node : NodeId) : PlanNodeId :=
  match (ids !! node : option PlanNodeId) with Some id => id | None => 0%N end.

(** The plan node of one product node: the branches of the loop body. *)
Definition lower_product (g : NodeGraph) (asset : Uuid) (node : NodeId) (config : ValidatedNodeConfig)
  (schema : LogicalSchema) : Compile (PlanNodeKind * LogicalSchema) :=
  if (node =? source_node_id g)%N
  then Ok (Scan asset (id <$> fields schema) None, schema)
  else if (node =? output_node_id g)%N
  then match config with
       | VOutput output_label => Ok (Materialize output_label, schema)
       | _ => Err (compile_error Code.InvalidTopology (Some node)
                     "declared output node did not resolve to an output config")
       end
  else compile_transform node config schema.

(** One node of the path. *)
Definition emit_path_node (g : NodeGraph) (configs : gmap NodeId ValidatedNodeConfig) (asset : Uuid)
  (st : Emit) (node : NodeId) : Compile Emit :=
  let plan_id := plan_id_of (emit_plan_ids st) node in
  config ← ok_or (configs !! node)
    (compile_error Code.Internal (Some node) "validated node config is absent");
  match config with
  | VComposite steps => emit_composite node plan_id steps st
  | _ =>
      lowered ← lower_product g asset node config (working_schema st);
      Ok (mkEmit (emit_plan_ids st)
            (<[plan_id := mkPlanNode (option_list (previous st)) lowered.1]> (plan_nodes st))
            (<[node := lowered.2]> (snapshots st)) lowered.2 (Some plan_id))
  end.

Section compile.
Context `{Serde} (graph_to_vec : NodeGraph -> option (list N)).
Context (hash_iter : gmap PlanNodeId N -> list (PlanNodeId * N)).
Context (plan_to_vec : LogicalPlan -> result string (list N)).

(** The asset and projection of the source node. *)
Definition source_config (g : NodeGraph) (configs : gmap NodeId ValidatedNodeConfig)
  : Compile (Uuid * option (list ColumnId)) :=
  match configs !! source_node_id g with
  | Some (VSource asset projection) => Ok (asset, projection)
  | _ => Err (compile_error Code.InvalidTopology (Some (source_node_id g))
                "declared source node did not resolve to a source config")
  end.

Definition check_target (g : NodeGraph) (configs : gmap NodeId ValidatedNodeConfig)
  (target : CompileTarget) : Compile unit :=
  match target with
  | Execution => Ok tt
  | Preview node =>
      if (node =? output_node_id g)%N || negb (bool_decide (is_Some (configs !! node)))
      then Err (compile_error Code.UnsupportedTarget (Some node)
                  "preview target is not an emitted non-materialize node")
      else Ok tt
  end.

(** [compile] up to the end of the loop over the path. *)
Definition compile_emit (r : NodeRegistry) (g : NodeGraph) (source : AuthorizedSourceContext)
  (target : CompileTarget) : Compile Emit :=
  try! check_shape_work g;
  try! map_err (fun _ => compile_error Code.InvalidConfig None "authorized source schema is invalid")
    (schema_validate (source_schema source));
  configs ← map_err map_graph_error (validated_configs graph_to_vec r g);
  try! check_compile_work g configs (Some (source_schema source));
  path ← unique_path g;
  bound ← source_config g configs;
  let '(asset, projection) := bound in
  if negb (asset =? authorized_asset source)%N
  then Err (compile_error Code.SourceBinding (Some (source_node_id g))
              "graph source asset is not the authorized source asset") else
  try! check_target g configs target;
  let ids := list_to_map ((fun node => (node, node)) <$> path) in
  working ← project_source_schema (source_schema source) projection (source_node_id g);
  fold_result (emit_path_node g configs asset) (mkEmit ids ∅ ∅ working None) path.

Definition compile (r : NodeRegistry) (g : NodeGraph) (source : AuthorizedSourceContext)
  (target : CompileTarget) : Compile CompiledNodeGraph :=
  st ← compile_emit r g source target;
  plan ← map_err plan_error (plan_new hash_iter (plan_id_of (emit_plan_ids st) (output_node_id g)) (plan_nodes st));
  try! map_err plan_error (plan_canonical_bytes hash_iter plan_to_vec plan);
  try! map_err plan_error (plan_fingerprint hash_iter plan_to_vec plan);
  let result := mkCompiled plan (working_schema st) (emit_plan_ids st) (snapshots st) in
  try! match target with
       | Preview node => (fun _ => tt) <$> preview_plan_node_id result node
       | Execution => Ok tt
       end;
  Ok result.

(** The checks that need no schema: [validate_node_graph]. *)
Definition validate_node_graph (r : NodeRegistry) (g : NodeGraph) (asset : Uuid) : Compile unit :=
  try! check_shape_work g;
  configs ← map_err map_graph_error (validated_configs graph_to_vec r g);
  try! check_compile_work g configs None;
  try! unique_path g;
  match configs !! source_node_id g with
  | Some (VSource bound _) =>
      if (bound =? asset)%N then Ok tt
      else Err (compile_error Code.SourceBinding (Some (source_node_id g))
                  "graph source asset is not the authorized source asset")
  | _ => Err (compile_error Code.InvalidTopology (Some (source_node_id g))
                "declared source node did not resolve to a source config")
  end.
End compile.

(** ** The compiler's path is the validated one *)

Lemma NoDup_hops_fst {A} (p : list A) : NoDup p -> NoDup (hops p).*1.
Proof.
  induction p as [|x [|y p] IH]; intros Hnd; [constructor..|]. apply NoDup_cons in Hnd as [Hx Hnd].
  rewrite hops_cons, fmap_cons. cbn [fst]. apply NoDup_cons. split; [|by apply IH].
  intros ([a b] & -> & Hh)%list_elem_of_fmap. by apply elem_of_hops in Hh as [? _].
Qed.

Lemma link_fold l : forall m,
  NoDup ((fun e => from_node e) <$> l) -> (forall e, e ∈ l -> m !! from_node e = None) ->
  exists m', fold_result link_edge m l = Ok m' /\
    forall x y, m' !! x = Some y <-> m !! x = Some y \/ exists e, e ∈ l /\ from_node e = x /\ to_node e = y.
Proof.
  induction l as [|e l IH]; intros m Hnd Hm; cbn [fold_result].
  { exists m. split; [done|]. intros x y. split; [by left|].
    intros [?|(e & ?%not_elem_of_nil & _)]; done. }
  rewrite fmap_cons, NoDup_cons in Hnd. destruct Hnd as [He Hnd].
  assert (link_edge m e = Ok (<[from_node e := to_node e]> m)) as ->
    by (unfold link_edge; by rewrite Hm by left).
  destruct (IH (<[from_node e := to_node e]> m) Hnd) as (m' & Hm' & Hl).
  { intros e' He'. rewrite lookup_insert_ne; [apply Hm; by right|]. intros Heq. apply He.
    rewrite Heq. apply list_elem_of_fmap. eauto. }
  exists m'. split; [done|]. intros x y. rewrite Hl, lookup_insert_Some. split.
  - intros [[[<- <-]|[? ?]]|(e' & ? & ? & ?)]; [right|by left|right].
    + exists e. split; [left|done].
    + exists e'. split; [by right|done].
  - intros [Hx|(e' & [->|He']%elem_of_cons & <- & <-)].
    + left. right. split; [|done]. intros <-. rewrite Hm in Hx by left. done.
    + by left; left.
    + right. eauto.
Qed.

Lemma trace_along o output p : forall fuel cur vis path,
  head p = Some cur -> last p = Some output -> NoDup p -> (forall x, x ∈ p -> x ∉ vis) ->
  (forall x y, (x, y) ∈ hops p -> o !! x = Some y) -> length p <= fuel ->
  trace_path fuel o output cur vis path = Some (Ok (path ++ p)).
Proof.
  induction p as [|x [|y p] IH]; intros fuel cur vis path Hh Hl Hnd Hd Hp Hf; [done|..];
    injection Hh as <-; (destruct fuel as [|fuel]; [simpl in Hf; lia|]); cbn [trace_path];
    rewrite decide_False by (apply Hd; left).
  - injection Hl as ->. by rewrite N.eqb_refl.
  - apply NoDup_cons in Hnd as [Hx Hnd].
    destruct (N.eqb_spec x output) as [->|Hne]; [exfalso; apply Hx; by apply last_Some_elem_of|].
    rewrite (Hp x y) by (rewrite hops_cons; left).
    rewrite (IH fuel y ({[x]} ∪ vis) (path ++ [x])); [by rewrite <- app_assoc|done|done|done|..].
    + intros z Hz. specialize (Hd z). set_solver.
    + intros a b Hab. apply Hp. rewrite hops_cons. by right.
    + simpl in Hf |- *. lia.
Qed.

Lemma unique_path_linear `{Serde} g p : Basic g -> Linear g p -> unique_path g = Ok p.
Proof.
  intros Hb HL. pose proof (linear_NoDup g (basic_ids g Hb) p HL) as Hnd. unfold unique_path.
  assert (length p = length (graph_nodes g)) as Hlen by (rewrite (linear_nodes _ _ HL); apply length_fmap).
  assert ((fun e => from_node e) <$> edges g ≡ₚ (hops p).*1) as Hfrom.
  { rewrite (fmap_Permutation fst _ _ (linear_edges _ _ HL)), <- list_fmap_compose. done. }
  pose proof (merge_sort_Permutation edge_le (edges g)) as Hs.
  destruct (link_fold (merge_sort edge_le (edges g)) ∅) as (o & Ho & Hl).
  - rewrite (fmap_Permutation (fun e => from_node e) _ _ Hs), Hfrom. by apply NoDup_hops_fst.
  - intros e _. apply lookup_empty.
  - rewrite Ho. cbn [mbind result_bind].
    rewrite (trace_along o (output_node_id g) p);
      [|by apply linear_head|by apply linear_last|done|set_solver| |lia].
    + cbn -[N.eqb]. unfold len. by rewrite Hlen, N.eqb_refl.
    + intros x y Hh. apply Hl. right. rewrite (linear_edges _ _ HL) in Hh.
      apply list_elem_of_fmap in Hh as (e & [= -> ->] & He). exists e. by rewrite Hs.
Qed.

(** ** Reference lowering

    The same lowering without the maps and the identities' bookkeeping: one
    block of plan nodes per product node, the schema threaded through. *)

Record Lowered := mkLowered { l_id : PlanNodeId; l_kind : PlanNodeKind; l_schema : LogicalSchema }.
Definition schema_after (s : LogicalSchema) (l : list Lowered) : LogicalSchema :=
  from_option l_schema s (last l).
Definition id_after (o : option PlanNodeId) (l : list Lowered) : option PlanNodeId :=
  match last l with Some e => Some (l_id e) | None => o end.

Fixpoint lower_steps (node : NodeId) (s : LogicalSchema) (entries : list (N * ValidatedNodeConfig))
  : Compile (list Lowered) :=
  match entries with
  | [] => Ok []
  | (ordinal, c) :: entries =>
      low ← compile_transform node c s;
      rest ← lower_steps node low.2 entries;
      Ok (mkLowered (internal_plan_node_id node ordinal) low.1 low.2 :: rest)
  end.
Notation ordinals steps := (imap (fun ordinal step => (as_u16 ordinal, step)) steps).

Definition lower_node (g : NodeGraph) (cs : gmap NodeId ValidatedNodeConfig) (asset : Uuid)
  (s : LogicalSchema) (i : NodeId) : Compile (list Lowered) :=
  config ← ok_or (cs !! i) (compile_error Code.Internal (Some i) "validated node config is absent");
  match config with
  | VComposite steps => lower_steps i s (ordinals steps)
  | _ => low ← lower_product g asset i config s; Ok [mkLowered i low.1 low.2]
  end.

Fixpoint lower_path (g : NodeGraph) (cs : gmap NodeId ValidatedNodeConfig) (asset : Uuid)
  (s : LogicalSchema) (path : list NodeId) : Compile (list (NodeId * list Lowered)) :=
  match path with
  | [] => Ok []
  | i :: path =>
      block ← lower_node g cs asset s i;
      blocks ← lower_path g cs asset (schema_after s block) path;
      Ok ((i, block) :: blocks)
  end.
Definition flat (blocks : list (NodeId * list Lowered)) : list Lowered := blocks ≫= snd.

(** The plan nodes of a list, each reading the one before. *)
Fixpoint chain (o : option PlanNodeId) (l : list Lowered) : list (PlanNodeId * PlanNode) :=
  match l with
  | [] => []
  | e :: l => (l_id e, mkPlanNode (option_list o) (l_kind e)) :: chain (Some (l_id e)) l
  end.
Definition insert_all {V} (m : gmap N V) (l : list (N * V)) : gmap N V :=
  foldl (fun m e => <[e.1 := e.2]> m) m l.
Definition snapshot_list (l : list Lowered) : list (NodeId * LogicalSchema) :=
  (fun e => (l_id e, l_schema e)) <$> l.

Lemma schema_after_app s l k : schema_after s (l ++ k) = schema_after (schema_after s l) k.
Proof. unfold schema_after. rewrite last_app. by destruct (last k). Qed.
Lemma id_after_app o l k : id_after o (l ++ k) = id_after (id_after o l) k.
Proof. unfold id_after. rewrite last_app. by destruct (last k). Qed.
Lemma schema_after_cons s e l : schema_after s (e :: l) = schema_after (l_schema e) l.
Proof. apply (schema_after_app s [e] l). Qed.
Lemma id_after_cons o e l : id_after o (e :: l) = id_after (Some (l_id e)) l.
Proof. apply (id_after_app o [e] l). Qed.
Lemma chain_app l : forall o k, chain o (l ++ k) = chain o l ++ chain (id_after o l) k.
Proof.
  induction l as [|e l IH]; intros o k; [done|]. cbn [app chain]. by rewrite IH, id_after_cons.
Qed.
Lemma insert_all_app {V} (m : gmap N V) l k : insert_all m (l ++ k) = insert_all (insert_all m l) k.
Proof. apply foldl_app. Qed.
Lemma insert_all_cons {V} (m : gmap N V) e l : insert_all m (e :: l) = insert_all (<[e.1 := e.2]> m) l.
Proof. done. Qed.
Lemma chain_ids l : forall o, (chain o l).*1 = l_id <$> l.
Proof. induction l as [|e l IH]; intros o; [done|]. cbn. by rewrite IH. Qed.

Lemma lower_steps_ids node entries : forall s l,
  lower_steps node s entries = Ok l ->
  l_id <$> l = (fun e => internal_plan_node_id node e.1) <$> entries.
Proof.
  induction entries as [|[k c] entries IH]; intros s l; cbn [lower_steps]; [by intros [= <-]|].
  intros (low & _ & (rest & Hr & [= <-])%bind_Ok)%bind_Ok. cbn. by rewrite (IH _ _ Hr).
Qed.

(** Emitting the steps of a composite; the collision check has passed. *)
Definition fresh_ids (ids : gmap NodeId PlanNodeId) (l : list Lowered) : Prop :=
  forall j (e : Lowered), e ∈ l -> (ids !! j : option PlanNodeId) <> Some (l_id e).

Lemma emit_steps_spec node entries : forall st st',
  fold_result (emit_step node node) st entries = Ok st' ->
  exists l, lower_steps node (working_schema st) entries = Ok l /\ fresh_ids (emit_plan_ids st) l /\
    st' = mkEmit (emit_plan_ids st) (insert_all (plan_nodes st) (chain (previous st) l))
            (insert_all (snapshots st) (snapshot_list l)) (schema_after (working_schema st) l)
            (id_after (previous st) l).
Proof.
  induction entries as [|[k c] entries IH]; intros st st'; cbn [fold_result lower_steps].
  { intros [= <-]. exists []. split; [done|]. split; [by intros j e ?%not_elem_of_nil|]. by destruct st. }
  intros (s1 & He & Hf)%bind_Ok. unfold emit_step in He. cbn [fst snd] in He.
  destruct (existsb _ _) eqn:Hx; [done|]. apply bind_Ok in He as (low & Hlow & [= <-]).
  apply IH in Hf as (l & Hl & Hfresh & ->). cbn in Hl. rewrite Hlow. cbn [mbind result_bind]. rewrite Hl.
  cbn [mbind result_bind]. eexists. split; [done|]. split.
  - intros j e [->|He]%elem_of_cons; [|by apply Hfresh]. intros Hj. cbn [l_id] in Hj.
    apply not_true_iff_false in Hx. apply Hx, existsb_exists. eexists. split; [|apply N.eqb_refl].
    apply list_elem_of_In, list_elem_of_fmap. eexists (j, _). split; [reflexivity|].
    by apply elem_of_plan_iter.
  - cbn. by rewrite schema_after_cons, id_after_cons.
Qed.

Lemma plan_id_of_Some ids i (x : PlanNodeId) : (ids !! i : option PlanNodeId) = Some x -> plan_id_of ids i = x.
Proof. unfold plan_id_of. by intros ->. Qed.

(** Emitting one node of the path. *)
Definition emit_block (st : Emit) (b : NodeId * list Lowered) : Emit :=
  mkEmit (<[b.1 := default (0%N : PlanNodeId) (id_after None b.2)]> (emit_plan_ids st))
    (insert_all (plan_nodes st) (chain (previous st) b.2))
    (<[b.1 := schema_after (working_schema st) b.2]> (insert_all (snapshots st) (snapshot_list b.2)))
    (schema_after (working_schema st) b.2) (id_after (previous st) b.2).

Definition no_empty_composite (cs : gmap NodeId ValidatedNodeConfig) : Prop :=
  forall i steps, cs !! i = Some (VComposite steps) -> steps <> [].

Definition is_composite (cs : gmap NodeId ValidatedNodeConfig) (i : NodeId) : Prop :=
  exists steps, cs !! i = Some (VComposite steps).

Lemma last_ordinals (steps : list ValidatedNodeConfig) node s l :
  steps <> [] -> lower_steps node s (ordinals steps) = Ok l ->
  l <> [] /\ id_after None l =
    match last (ordinals steps) with Some e => Some (internal_plan_node_id node e.1) | None => None end.
Proof.
  intros Hne Hids%lower_steps_ids. split.
  - intros ->. destruct steps; done.
  - unfold id_after. assert (last (l_id <$> l) = last ((fun e => internal_plan_node_id node e.1) <$> ordinals steps))
      as Hlast by (by rewrite Hids).
    rewrite !fmap_last in Hlast. by destruct (last l), (last (ordinals steps)).
Qed.

Lemma id_after_last o l : l <> [] -> id_after o l = id_after None l.
Proof. intros Hne. unfold id_after. destruct (last l) eqn:Hl; [done|]. by apply last_None in Hl. Qed.

Lemma emit_path_node_spec g cs asset st st' (i : NodeId) :
  no_empty_composite cs -> (emit_plan_ids st !! i : option PlanNodeId) = Some i ->
  emit_path_node g cs asset st i = Ok st' ->
  exists b, lower_node g cs asset (working_schema st) i = Ok b /\ b <> [] /\
    (is_composite cs i -> fresh_ids (emit_plan_ids st) b) /\ st' = emit_block st (i, b).
Proof.
  intros Hne Hid. unfold emit_path_node, lower_node. cbv zeta. rewrite (plan_id_of_Some _ _ _ Hid).
  intros (c & Hc & He)%bind_Ok. rewrite Hc. cbn [mbind result_bind]. apply ok_or_Ok in Hc.
  assert (forall low, lower_product g asset i c (working_schema st) = Ok low ->
    exists b, (low ← lower_product g asset i c (working_schema st); Ok [mkLowered i low.1 low.2]) = Ok b /\
      b <> [] /\ mkEmit (emit_plan_ids st)
        (<[i := mkPlanNode (option_list (previous st)) low.1]> (plan_nodes st))
        (<[i := low.2]> (snapshots st)) low.2 (Some i) = emit_block st (i, b)) as Hone.
  { intros low Hlow. rewrite Hlow. eexists. split; [done|]. split; [done|]. unfold emit_block. cbn.
    by rewrite insert_insert_eq, (insert_id (emit_plan_ids st)) by done. }
  destruct c as [steps| | | | | | | | | | | | |];
    try (apply bind_Ok in He as (low & Hlow & [= <-]); destruct (Hone low Hlow) as (b & ? & ? & ?);
         exists b; split_and!; [done|done|intros [? ?]; congruence|done]).
  unfold emit_composite in He. apply bind_Ok in He as (s1 & Hs & [= <-]).
  apply emit_steps_spec in Hs as (l & Hl & Hfresh & ->). exists l. split; [done|].
  destruct (last_ordinals steps i _ l (Hne _ _ Hc) Hl) as [Hl0 Hlast]. split; [done|]. split; [done|].
  unfold emit_block. cbn [fst snd emit_plan_ids plan_nodes snapshots working_schema previous].
  rewrite (id_after_last (previous st)), Hlast by done.
  destruct (last (ordinals steps)) as [e|] eqn:Hlo; [done|].
  apply last_None in Hlo. exfalso. apply (Hne _ _ Hc). by destruct steps.
Qed.

(** The steps of composites avoid the identities of the other nodes. *)
Definition avoids (cs : gmap NodeId ValidatedNodeConfig) (j : NodeId)
  (blocks : list (NodeId * list Lowered)) : Prop :=
  forall b (e : Lowered), b ∈ blocks -> is_composite cs b.1 -> e ∈ b.2 -> l_id e <> j.

Lemma emit_path_spec g cs asset (path : list NodeId) : forall st st',
  no_empty_composite cs -> NoDup path ->
  (forall i, i ∈ path -> (emit_plan_ids st !! i : option PlanNodeId) = Some i) ->
  fold_result (emit_path_node g cs asset) st path = Ok st' ->
  exists blocks, lower_path g cs asset (working_schema st) path = Ok blocks /\ blocks.*1 = path /\
    Forall (fun b => b.2 <> []) blocks /\ st' = foldl emit_block st blocks /\
    forall j, ~ is_composite cs j -> (emit_plan_ids st !! j : option PlanNodeId) = Some j -> avoids cs j blocks.
Proof.
  induction path as [|i path IH]; intros st st' Hne Hnd Hids; cbn [fold_result lower_path].
  { intros [= <-]. exists []. split_and!; [done..|]. by intros j _ _ b e ?%not_elem_of_nil. }
  apply NoDup_cons in Hnd as [Hi Hnd].
  intros (s1 & He & Hf)%bind_Ok. apply emit_path_node_spec in He as (b & Hb & Hb0 & Hfresh & ->);
    [|done|apply Hids; left].
  apply IH in Hf as (blocks & Hbs & Hfst & Hall & -> & Havoid); [|done|done|].
  - rewrite Hb. cbn [mbind result_bind]. cbn [emit_block working_schema snd] in Hbs. rewrite Hbs.
    cbn [mbind result_bind]. exists ((i, b) :: blocks).
    split; [done|]. split; [by cbn; rewrite Hfst|]. split; [by constructor|]. split; [done|].
    intros j Hj Hid c e [->|Hc]%elem_of_cons Hcomp He.
    + intros <-. by apply (Hfresh Hcomp _ e He) in Hid.
    + revert c e Hc Hcomp He. apply (Havoid j Hj). cbn [emit_block emit_plan_ids fst].
      destruct (decide (j = i)) as [->|Hji]; [|by rewrite lookup_insert_ne].
      rewrite lookup_insert_eq. f_equal. cbn [snd]. unfold lower_node in Hb.
      apply bind_Ok in Hb as (cfg & Hcfg%ok_or_Ok & Hb).
      destruct cfg as [steps| | | | | | | | | | | | |]; [exfalso; apply Hj; by exists steps|..];
        by apply bind_Ok in Hb as (low & _ & [= <-]).
  - intros j Hj. cbn. rewrite lookup_insert_ne by (by intros ->). apply Hids. by right.
Qed.

(** The state after all the blocks. *)
Lemma emit_blocks_plan blocks : forall st,
  plan_nodes (foldl emit_block st blocks) =
    insert_all (plan_nodes st) (chain (previous st) (flat blocks)) /\
  working_schema (foldl emit_block st blocks) = schema_after (working_schema st) (flat blocks) /\
  previous (foldl emit_block st blocks) = id_after (previous st) (flat blocks).
Proof.
  induction blocks as [|b blocks IH]; intros st; [done|]. cbn [foldl]. unfold flat. rewrite bind_cons.
  destruct (IH (emit_block st b)) as (-> & -> & ->). cbn.
  by rewrite chain_app, insert_all_app, schema_after_app, id_after_app.
Qed.

Lemma emit_blocks_ids (blocks : list (NodeId * list Lowered)) (i : NodeId) b : forall st,
  NoDup blocks.*1 -> (i, b) ∈ blocks ->
  emit_plan_ids (foldl emit_block st blocks) !! i = Some (default (0%N : PlanNodeId) (id_after None b)).
Proof.
  assert (forall blocks st, i ∉ blocks.*1 ->
    emit_plan_ids (foldl emit_block st blocks) !! i = emit_plan_ids st !! i) as Hother.
  { clear. induction blocks as [|c blocks IH]; intros st Hi; [done|]. cbn [foldl].
    rewrite fmap_cons, not_elem_of_cons in Hi. destruct Hi as [Hne Hi].
    rewrite IH by done. cbn. by rewrite lookup_insert_ne. }
  induction blocks as [|c blocks IH]; intros st Hnd Hb; [by apply not_elem_of_nil in Hb|].
  rewrite fmap_cons, NoDup_cons in Hnd. destruct Hnd as [Hc Hnd]. cbn [foldl].
  apply elem_of_cons in Hb as [<-|Hb]; [|by apply IH].
  rewrite Hother by done. cbn. by rewrite lookup_insert_eq.
Qed.

(** ** Identities that repeat make a cycle

    The collision check compares a derived identity with product identities
    and last steps only.  A repetition it misses overwrites an earlier plan
    node, and the chain then leads back into itself. *)

Lemma insert_all_notin {V} (l : list (N * V)) : forall (m : gmap N V) x,
  x ∉ l.*1 -> insert_all m l !! x = m !! x.
Proof.
  induction l as [|[y v] l IH]; intros m x Hx; [done|]. rewrite insert_all_cons.
  rewrite fmap_cons, not_elem_of_cons in Hx. destruct Hx as [Hne Hx].
  rewrite IH by done. cbn. by rewrite lookup_insert_ne.
Qed.
Lemma insert_all_last {V} (m : gmap N V) l1 x v l2 :
  x ∉ l2.*1 -> insert_all m (l1 ++ (x, v) :: l2) !! x = Some v.
Proof.
  intros Hx. rewrite insert_all_app, insert_all_cons, insert_all_notin by done. apply lookup_insert_eq.
Qed.
Lemma insert_all_list_to_map {V} (l : list (N * V)) :
  NoDup l.*1 -> insert_all ∅ l = list_to_map l.
Proof.
  intros Hnd. apply map_eq. intros x. destruct (decide (x ∈ l.*1)) as [Hx|Hx].
  - apply list_elem_of_fmap in Hx as ([y v] & -> & Hin). cbn.
    rewrite (elem_of_list_to_map_1 _ _ _ Hnd Hin).
    apply list_elem_of_split in Hin as (l1 & l2 & ->). apply insert_all_last.
    rewrite fmap_app, fmap_cons in Hnd. apply NoDup_app in Hnd as (_ & _ & [? _]%NoDup_cons). done.
  - rewrite insert_all_notin, lookup_empty by done. symmetry. by apply not_elem_of_list_to_map_1.
Qed.

Lemma topo_rank ns l :
  TopoOrder ns l -> exists rank : PlanNodeId -> nat, forall v i, i ∈ ins ns v -> rank i < rank v.
Proof.
  intros [Hnd Hall Hbefore]. exists (fun v => from_option fst 0 (list_find (fun x => x = v) l)).
  intros v i Hi. assert (v ∈ l) as Hv.
  { apply Hall. unfold ins in Hi. destruct (ns !! v); [eauto|]. by apply not_elem_of_nil in Hi. }
  apply list_elem_of_split in Hv as (l1 & l2 & Hl). pose proof (Hbefore l1 v l2 i Hl Hi) as Hi1.
  assert (list_find (fun x => x = v) l = Some (length l1, v)) as ->.
  { apply list_find_Some. rewrite Hl. split_and!; [by apply list_lookup_middle|done|].
    intros j y Hj Hlt ->. rewrite Hl in Hnd. apply NoDup_app in Hnd as (_ & Hd & _).
    apply (Hd v); [|left]. eapply list_elem_of_lookup_2. by rewrite <- (lookup_app_l l1 (v :: l2)). }
  apply list_elem_of_lookup_1 in Hi1 as [k Hk]. pose proof (lookup_lt_Some _ _ _ Hk).
  destruct (list_find (fun x => x = i) l) as [[j y]|] eqn:Hf; cbn; [|lia].
  apply list_find_Some in Hf as (_ & _ & Hmin). apply Nat.nle_gt. intros Hle.
  apply (Hmin k i); [rewrite Hl; by rewrite lookup_app_l|lia|done].
Qed.

Section repeated.
Context (l : list Lowered) (rank : PlanNodeId -> nat).
Context (Hrank : forall v i, i ∈ ins (insert_all ∅ (chain None l)) v -> rank i < rank v).

Lemma chain_ranks s : forall q e,
  l = q ++ e :: s -> NoDup (l_id <$> s) -> forall z, z ∈ l_id <$> s -> rank (l_id e) < rank z.
Proof.
  induction s as [|f s IH]; intros q e Hl Hnd z Hz; [by apply not_elem_of_nil in Hz|].
  rewrite fmap_cons in Hnd, Hz. apply NoDup_cons in Hnd as [Hf Hnd].
  assert (rank (l_id e) < rank (l_id f)) as Hef.
  { apply Hrank. unfold ins. rewrite Hl.
    replace (q ++ e :: f :: s) with ((q ++ [e]) ++ f :: s) by (by rewrite <- app_assoc).
    rewrite chain_app. cbn [chain]. rewrite insert_all_last by (by rewrite chain_ids). cbn.
    rewrite id_after_app. left. }
  apply elem_of_cons in Hz as [->|Hz]; [done|]. etrans; [exact Hef|].
  apply (IH (q ++ [e]) f); [by rewrite <- app_assoc|done|done].
Qed.

Lemma chain_NoDup s : forall q, l = q ++ s -> NoDup (l_id <$> s).
Proof.
  induction s as [|e s IH]; intros q Hl; [constructor|]. rewrite fmap_cons, NoDup_cons.
  assert (NoDup (l_id <$> s)) as Hs by (apply (IH (q ++ [e])); by rewrite <- app_assoc).
  split; [|done]. intros He. pose proof (chain_ranks s q e Hl Hs (l_id e) He). lia.
Qed.
End repeated.

Lemma acyclic_ids_distinct hash_iter `{!HashIter hash_iter} root l plan :
  plan_new hash_iter root (insert_all ∅ (chain None l)) = Ok plan ->
  plan = mkPlan PLAN_VERSION root (insert_all ∅ (chain None l)) /\ PlanOk plan /\ NoDup (l_id <$> l).
Proof.
  intros ([] & Hv & [= <-])%bind_Ok. apply plan_validate_Ok in Hv; [|done].
  split; [done|]. split; [done|]. destruct (plan_ok_acyclic _ Hv) as [o Ho]. cbn [nodes] in Ho.
  destruct (topo_rank _ _ Ho) as [rank Hrank]. by apply (chain_NoDup l rank Hrank l []).
Qed.

(** ** Derived identities *)

Lemma internal_low k : (k < 2 ^ 16)%N -> N.land k (N.lxor (2 ^ 128 - 1) 0xFFFF) = 0%N.
Proof.
  intros Hk. rewrite <- (N.mod_small k (2 ^ 16)) by done. rewrite <- N.land_ones, <- N.land_assoc.
  change (N.land (N.ones 16) (N.lxor (2 ^ 128 - 1) 65535)) with 0%N. apply N.land_0_r.
Qed.

Lemma internal_masked j k :
  (k < 2 ^ 16)%N ->
  N.land (internal_plan_node_id j k) (N.lxor (2 ^ 128 - 1) 0xFFFF) =
  N.land j (N.lxor (2 ^ 128 - 1) 0xFFFF).
Proof.
  intros Hk. unfold internal_plan_node_id. rewrite !N.land_lor_distr_l, (internal_low k Hk), N.lor_0_r.
  rewrite <- N.land_assoc, N.land_diag.
  change (N.land 32768 (N.lxor (2 ^ 128 - 1) 65535)) with 0%N. apply N.lor_0_r.
Qed.

(** The block of [j] starts at the identity every node with the same upper
    bits derives first. *)
Lemma internal_shared i j k :
  (k < 2 ^ 16)%N -> internal_plan_node_id j k = i ->
  internal_plan_node_id i 0 = internal_plan_node_id j 0.
Proof.
  intros Hk <-. unfold internal_plan_node_id at 1 3. by rewrite internal_masked.
Qed.

Lemma lower_steps_first node s steps l :
  steps <> [] -> lower_steps node s (ordinals steps) = Ok l ->
  internal_plan_node_id node 0 ∈ l_id <$> l.
Proof.
  intros Hne Hids%lower_steps_ids. rewrite Hids. destruct steps as [|c steps]; [done|].
  rewrite imap_cons, fmap_cons. left.
Qed.

Lemma lower_steps_internal node s steps l e :
  lower_steps node s (ordinals steps) = Ok l -> e ∈ l ->
  exists k, (k < 2 ^ 16)%N /\ l_id e = internal_plan_node_id node k.
Proof.
  intros Hids%lower_steps_ids He. apply (list_elem_of_fmap_2 l_id) in He. rewrite Hids in He.
  apply list_elem_of_fmap in He as ([k c] & -> & Hk). apply elem_of_lookup_imap in Hk as (n & c' & [= -> ->] & _).
  eexists. split; [|done]. apply N.mod_lt. done.
Qed.

(** ** The recorded schemas *)

Lemma emit_blocks_untouched blocks i : forall st,
  i ∉ blocks.*1 -> i ∉ l_id <$> flat blocks ->
  snapshots (foldl emit_block st blocks) !! i = snapshots st !! i.
Proof.
  induction blocks as [|b blocks IH]; intros st Hi Hf; [done|]. cbn [foldl].
  rewrite fmap_cons, not_elem_of_cons in Hi. destruct Hi as [Hne Hi].
  unfold flat in Hf. rewrite bind_cons, fmap_app, not_elem_of_app in Hf. destruct Hf as [Hb Hf].
  rewrite IH by done. cbn. rewrite lookup_insert_ne by done. apply insert_all_notin.
  unfold snapshot_list. by rewrite <- list_fmap_compose.
Qed.

Lemma emit_blocks_snapshot B1 i b B2 st :
  i ∉ B2.*1 -> i ∉ l_id <$> flat B2 ->
  snapshots (foldl emit_block st (B1 ++ (i, b) :: B2)) !! i =
  Some (schema_after (working_schema st) (flat (B1 ++ [(i, b)]))).
Proof.
  intros Hi Hf. rewrite foldl_app. cbn [foldl]. rewrite emit_blocks_untouched by done.
  cbn [emit_block snapshots fst snd]. rewrite lookup_insert_eq.
  destruct (emit_blocks_plan B1 st) as (_ & -> & _).
  unfold flat. rewrite bind_app, schema_after_app. cbn. by rewrite app_nil_r.
Qed.

Lemma lower_path_blocks g cs asset path : forall s blocks,
  lower_path g cs asset s path = Ok blocks ->
  blocks.*1 = path /\ Forall (fun b => exists s, lower_node g cs asset s b.1 = Ok b.2) blocks.
Proof.
  induction path as [|i path IH]; intros s blocks; cbn [lower_path]; [by intros [= <-]|].
  intros (b & Hb & (bs & Hbs & [= <-])%bind_Ok)%bind_Ok. apply IH in Hbs as [<- Hall].
  split; [done|]. constructor; [by exists s|done].
Qed.

(** The identities of one block: the product's own or derived ones. *)
Lemma lower_node_ids g cs asset s i b :
  lower_node g cs asset s i = Ok b ->
  (is_composite cs i /\ exists steps, cs !! i = Some (VComposite steps) /\
     lower_steps i s (ordinals steps) = Ok b) \/
  (~ is_composite cs i /\ l_id <$> b = [i]).
Proof.
  intros (c & Hc%ok_or_Ok & Hb)%bind_Ok.
  destruct c as [steps| | | | | | | | | | | | |]; [left; split; [by exists steps|by exists steps]|..];
    right; apply bind_Ok in Hb as (low & _ & [= <-]); (split; [|done]); intros [steps Hs]; congruence.
Qed.

Lemma product_not_internal g cs asset s path B1 i b B2 :
  no_empty_composite cs -> NoDup path ->
  lower_path g cs asset s path = Ok (B1 ++ (i, b) :: B2) ->
  NoDup (l_id <$> flat (B1 ++ (i, b) :: B2)) -> i ∉ l_id <$> flat B2.
Proof.
  intros Hne Hnd Hp Hids Hi. apply lower_path_blocks in Hp as [<- Hall].
  rewrite fmap_app, fmap_cons in Hnd. apply NoDup_app in Hnd as (_ & _ & [Hi2 _]%NoDup_cons).
  apply Forall_app in Hall as [_ [[s1 Hb] Hall]%Forall_cons]. cbn in Hb, Hi2.
  unfold flat in Hids. rewrite bind_app, bind_cons, !fmap_app in Hids.
  apply NoDup_app in Hids as (_ & _ & (_ & Hdisj & _)%NoDup_app). cbn in Hdisj.
  apply list_elem_of_fmap in Hi as (e & -> & ([j b2] & He & Hj)%list_elem_of_bind). cbn in He.
  assert (j <> l_id e) as Hji by (intros ->; apply Hi2; by eapply (list_elem_of_fmap_2 fst) in Hj).
  rewrite Forall_forall in Hall. destruct (Hall _ Hj) as [s2 Hb2]. cbn in Hb2.
  assert (forall x, x ∈ l_id <$> b2 -> x ∈ l_id <$> (B2 ≫= snd)) as Hsub.
  { intros x (e' & -> & He')%list_elem_of_fmap. apply list_elem_of_fmap_2, list_elem_of_bind. by exists (j, b2). }
  apply lower_node_ids in Hb2 as [(_ & steps2 & Hs2 & Hl2)|(_ & Hone)].
  - destruct (lower_steps_internal _ _ _ _ _ Hl2 He) as (k & Hk & Heq).
    pose proof (internal_shared (l_id e) j k Hk (eq_sym Heq)) as Hshare.
    pose proof (lower_steps_first _ _ _ _ (Hne _ _ Hs2) Hl2) as Hfirst2.
    apply lower_node_ids in Hb as [(_ & steps1 & Hs1 & Hl1)|(_ & Hone)].
    + pose proof (lower_steps_first _ _ _ _ (Hne _ _ Hs1) Hl1) as Hfirst1. rewrite Hshare in Hfirst1.
      by apply (Hdisj _ Hfirst1), Hsub.
    + apply (Hdisj (l_id e)); [rewrite Hone; left|]. apply Hsub. by apply list_elem_of_fmap_2.
  - apply (list_elem_of_fmap_2 l_id) in He. rewrite Hone in He. by apply list_elem_of_singleton in He.
Qed.

(** ** Registries the code builds *)

(** Built-in definitions deliver well-formed atomic configs of their role,
    packages have between one and four steps. *)
Definition definition_ok (d : NodeDefinition) : Prop :=
  match def_kind d with
  | Atomic validate => forall n c, validate n = Ok c -> AtomicOk c /\ RoleOk (role d) c
  | CompositeKind steps => steps <> [] /\ (len steps <= MAX_EXPANSION_STEPS)%N /\ role d = RoleTransform
  end.
Definition registry_ok (r : NodeRegistry) : Prop := Forall definition_ok (definitions r).

Lemma production_ok `{Serde} : Forall definition_ok production_definitions.
Proof.
  apply Forall_forall. intros d Hd. unfold definition_ok.
  destruct (production_atomic d Hd) as [validate Hk]. rewrite Hk. intros n c. by eapply builtin_sound.
Qed.

Lemma package_ok `{Serde} to_value p :
  validate_package to_value p = Ok tt -> definition_ok (package_definition p).
Proof.
  unfold validate_package. destruct (negb _); [done|]. intros (content & _ & Hv)%bind_Ok.
  destruct (_ <? _)%N; [done|]. do 3 (destruct (negb _); [done|]). destruct (_ <? _)%N; [done|].
  apply bind_Ok in Hv as (_ & _ & Hv). destruct (_ || _); [done|]. destruct (negb _); [done|].
  destruct (N.eqb_spec (len (expansion (package_body p))) 0) as [|Hne]; [done|].
  destruct (N.ltb_spec MAX_EXPANSION_STEPS (len (expansion (package_body p)))) as [|Hle]; [done|].
  split; [|done]. by intros Heq; rewrite Heq in Hne.
Qed.

Lemma from_definitions_registry_ok ds r :
  from_definitions ds = Ok r -> Forall definition_ok ds -> registry_ok r.
Proof.
  intros [_ ->]%from_definitions_Ok Hds. unfold registry_ok. cbn [definitions].
  by rewrite (merge_sort_Permutation def_le).
Qed.

Lemma with_packages_registry_ok `{Serde} to_value r packages r' :
  registry_ok r -> with_packages to_value r packages = Ok r' -> registry_ok r'.
Proof.
  intros Hr ([seen ds] & Hf & Hr')%bind_Ok. eapply from_definitions_registry_ok; [exact Hr'|].
  apply Forall_app. split; [done|]. cbn [snd].
  assert (forall st, Forall definition_ok st.2 -> forall st', fold_result (add_package to_value) st packages = Ok st' ->
    Forall definition_ok st'.2) as Hgen.
  { clear. induction packages as [|p packages IH]; intros [seen ds] Hds st'; cbn [fold_result];
      [by intros [= <-]|].
    intros (st1 & Hp & Hf)%bind_Ok. unfold add_package in Hp. apply bind_Ok in Hp as ([] & Hv & Hp).
    apply bind_Ok in Hp as (_ & _ & [= <-]). eapply IH; [|exact Hf]. cbn.
    apply Forall_app. split; [done|]. constructor; [by eapply package_ok|constructor]. }
  by apply (Hgen (∅, []) ltac:(constructor) (seen, ds)).
Qed.

Section configs.
Context `{Serde} (r : NodeRegistry) (Hr : registry_ok r).

Lemma lookup_ok t v d : lookup_definition r t v = Ok d -> definition_ok d.
Proof.
  intros (Hd & _)%lookup_definition_inv. unfold registry_ok in Hr. rewrite Forall_forall in Hr. by apply Hr.
Qed.

Lemma validate_node_config_ok d n c :
  definition_ok d -> validate_node_config d n = Ok c -> AtomicOk c /\ RoleOk (role d) c.
Proof.
  unfold definition_ok, validate_node_config. intros Hd Hc.
  destruct (negb _); [done|]. destruct (negb _); [done|]. destruct (def_kind d); [by eapply Hd|done].
Qed.

Lemma resolve_step_ok n column entry c : resolve_step r n column entry = Ok c -> AtomicOk c.
Proof.
  destruct entry as [k step]. unfold resolve_step.
  intros (d & Hd%map_err_Ok%lookup_ok & (fields & _ & (syn & _ & Hc%map_err_Ok)%bind_Ok)%bind_Ok)%bind_Ok.
  by eapply validate_node_config_ok.
Qed.

(** What the graph's resolution gives for one node. *)
Record ResolvedOk (d : NodeDefinition) (c : ValidatedNodeConfig) : Prop := {
  node_config_ok : ConfigOk c;
  node_role_ok : RoleOk (role d) c;
  node_steps_ok steps : c = VComposite steps -> steps <> [] /\ (len steps <= MAX_EXPANSION_STEPS)%N;
}.

Lemma resolve_config_ok n d c : resolve_config r n = Ok (d, c) -> ResolvedOk d c.
Proof.
  intros (d' & Hd%map_err_Ok%lookup_ok & (c' & Hc & [= -> ->])%bind_Ok)%bind_Ok.
  unfold composite_expansion in Hc. destruct (def_kind d) as [validate|steps] eqn:Hk.
  - destruct (validate_node_config_ok d n c Hd Hc) as [Ha Hrole].
    split; [by destruct c|done|]. intros steps ->. done.
  - unfold definition_ok in Hd. rewrite Hk in Hd. destruct Hd as (Hne & Hle & Hrole).
    unfold resolve_composite in Hc. apply bind_Ok in Hc as (obj & _ & Hc).
    apply bind_Ok in Hc as (values & _ & Hc). apply bind_Ok in Hc as (_ & _ & Hc).
    destruct (values !! "column") as [[]|]; try done.
    apply fmap_Ok in Hc as (cs & Hcs%collect_Ok & <-). pose proof (Forall2_length _ _ _ Hcs) as Hlen.
    rewrite length_imap in Hlen. split; [|done|].
    + cbn. apply Forall_forall. intros x Hx. apply list_elem_of_lookup_1 in Hx as [k Hx].
      destruct (Forall2_lookup_r _ _ _ _ _ Hcs Hx) as (entry & _ & He). by eapply resolve_step_ok.
    + intros steps' [= ->]. unfold len in *. rewrite <- Hlen. split; [|done].
      intros ->. apply Hne. by destruct steps.
Qed.

(** Every entry of the configs of an accepted graph. *)
Lemma graph_config_ok g ds cs i c :
  GraphOk r g ds cs -> cs !! i = Some c -> exists d, ds !! i = Some d /\ ResolvedOk d c.
Proof.
  intros [HR _ _ _] Hc. assert (i ∈ ids g) as Hi by (apply (resolves_configs _ _ _ _ HR); eauto).
  destruct (node_with_id g i Hi) as (n & Hn & <-).
  destruct (resolves_node _ _ _ _ HR n Hn) as (d & c' & He & Hd & Hc'). exists d.
  split; [done|]. rewrite Hc in Hc'. injection Hc' as <-. by eapply resolve_config_ok.
Qed.

Lemma graph_no_empty g ds cs : GraphOk r g ds cs -> no_empty_composite cs.
Proof. intros Hg i steps Hi. destruct (graph_config_ok g ds cs i _ Hg Hi) as (d & _ & [_ _ Hs]). by apply Hs. Qed.
End configs.

(** ** What an accepted compilation is *)

Record CompiledOk `{Serde} (r : NodeRegistry) (g : NodeGraph) (source : AuthorizedSourceContext)
  (c : CompiledNodeGraph) (path : list NodeId) (cs : gmap NodeId ValidatedNodeConfig)
  (s0 : LogicalSchema) (blocks : list (NodeId * list Lowered)) : Prop := {
  compiled_path : Linear g path;
  compiled_configs : exists ds, GraphOk r g ds cs;
  compiled_source : exists projection,
    cs !! source_node_id g = Some (VSource (authorized_asset source) projection) /\
    project_effect (source_schema source) (default (id <$> fields (source_schema source)) projection) = Ok s0;
  compiled_lowering : lower_path g cs (authorized_asset source) s0 path = Ok blocks;
  compiled_ids : NoDup (l_id <$> flat blocks);
  compiled_valid : PlanOk (compiled_plan c);
  compiled_nodes : nodes (compiled_plan c) = list_to_map (chain None (flat blocks));
  compiled_root : id_after None (flat blocks) = Some (root (compiled_plan c));
  compiled_output : output_schema c = schema_after s0 (flat blocks);
  compiled_products B1 i b B2 : blocks = B1 ++ (i, b) :: B2 ->
    node_plan_ids c !! i = id_after None b /\
    node_schemas c !! i = Some (schema_after s0 (flat (B1 ++ [(i, b)])));
}.

Section compiled.
Context `{Serde} (graph_to_vec : NodeGraph -> option (list N)).
Context (hash_iter : gmap PlanNodeId N -> list (PlanNodeId * N)) `{!HashIter hash_iter}.
Context (plan_to_vec : LogicalPlan -> result string (list N)).

(** The initial [node_plan_ids]. *)
Lemma initial_ids (path : list NodeId) (i : NodeId) :
  NoDup path -> i ∈ path ->
  ((list_to_map ((fun node => (node, node)) <$> path) : gmap NodeId PlanNodeId) !! i : option PlanNodeId) = Some i.
Proof.
  intros Hnd Hi. apply elem_of_list_to_map_1.
  - by rewrite <- list_fmap_compose, list_fmap_id.
  - apply list_elem_of_fmap. by exists i.
Qed.

(** The steps of [compile_emit]. *)
Lemma compile_emit_inv r g source target st :
  compile_emit graph_to_vec r g source target = Ok st ->
  exists cs path projection s0, ValidSchema (source_schema source) /\
    validated_configs graph_to_vec r g = Ok cs /\
    check_compile_work g cs (Some (source_schema source)) = Ok tt /\ unique_path g = Ok path /\
    cs !! source_node_id g = Some (VSource (authorized_asset source) projection) /\
    project_effect (source_schema source) (default (id <$> fields (source_schema source)) projection) = Ok s0 /\
    check_target g cs target = Ok tt /\
    fold_result (emit_path_node g cs (authorized_asset source))
      (mkEmit (list_to_map ((fun node => (node, node)) <$> path)) ∅ ∅ s0 None) path = Ok st.
Proof.
  unfold compile_emit. intros (_ & _ & ([] & Hv%map_err_Ok%validate_exact & (cs & Hcs%map_err_Ok & ([] & Hwork & (path & Hpath & Hc)%bind_Ok)%bind_Ok)%bind_Ok)%bind_Ok)%bind_Ok.
  apply bind_Ok in Hc as ([asset projection] & Hbound & Hc).
  unfold source_config in Hbound. destruct (cs !! source_node_id g) as [[]|] eqn:Hs; try done.
  injection Hbound as -> ->. destruct (N.eqb_spec asset (authorized_asset source)) as [->|]; [|done].
  cbn [negb] in Hc. apply bind_Ok in Hc as ([] & Ht & Hc). apply bind_Ok in Hc as (s0 & Hs0%map_err_Ok & Hc).
  exists cs, path, projection, s0. split_and!; done.
Qed.

(** What the loop leaves behind, whether or not the plan is valid. *)
Record Emitted (r : NodeRegistry) (g : NodeGraph) (source : AuthorizedSourceContext) (st : Emit)
  (path : list NodeId) (cs : gmap NodeId ValidatedNodeConfig) (s0 : LogicalSchema)
  (blocks : list (NodeId * list Lowered)) : Prop := {
  emitted_path : Linear g path;
  emitted_nodup : NoDup path;
  emitted_valid : ValidSchema (source_schema source);
  emitted_configs : exists ds, GraphOk r g ds cs;
  emitted_source : exists projection,
    cs !! source_node_id g = Some (VSource (authorized_asset source) projection) /\
    project_effect (source_schema source) (default (id <$> fields (source_schema source)) projection) = Ok s0;
  emitted_work : check_compile_work g cs (Some (source_schema source)) = Ok tt;
  emitted_lowering : lower_path g cs (authorized_asset source) s0 path = Ok blocks;
  emitted_fst : blocks.*1 = path;
  emitted_blocks : Forall (fun b => b.2 <> []) blocks;
  emitted_avoids j : j ∈ path -> ~ is_composite cs j -> avoids cs j blocks;
  emitted_state : st = foldl emit_block
    (mkEmit (list_to_map ((fun node => (node, node)) <$> path)) ∅ ∅ s0 None) blocks;
}.

Lemma compile_emit_ok r g source target st :
  registry_ok r -> compile_emit graph_to_vec r g source target = Ok st ->
  exists path cs s0 blocks, Emitted r g source st path cs s0 blocks /\ check_target g cs target = Ok tt.
Proof.
  intros Hr (cs & path & projection & s0 & Hv & Hcs & Hw & Hpath & Hsrc & Hs0 & Ht & Hst)%compile_emit_inv.
  apply validated_configs_sound in Hcs as [Hb [ds HG]]. destruct (graph_ok_path _ _ _ _ HG) as [p HL].
  rewrite (unique_path_linear g p Hb HL) in Hpath. injection Hpath as ->.
  pose proof (linear_NoDup g (basic_ids g Hb) path HL) as Hnd.
  pose proof (graph_no_empty r Hr g ds cs HG) as Hne.
  apply emit_path_spec in Hst as (blocks & Hlow & Hfst & Hall & -> & Hav); [|done|done|intros i; by apply initial_ids].
  exists path, cs, s0, blocks. split; [|done]. split; try done; [by exists ds|by exists projection|].
  intros j Hj Hc. apply Hav; [done|]. by apply initial_ids.
Qed.

Section emitted.
Context {r g source st path cs s0 blocks} (HE : Emitted r g source st path cs s0 blocks).

Lemma emitted_plan_nodes : plan_nodes st = insert_all ∅ (chain None (flat blocks)).
Proof. rewrite (emitted_state _ _ _ _ _ _ _ _ HE). apply (emit_blocks_plan blocks (mkEmit _ ∅ ∅ s0 None)). Qed.
Lemma emitted_schema : working_schema st = schema_after s0 (flat blocks).
Proof. rewrite (emitted_state _ _ _ _ _ _ _ _ HE). apply (emit_blocks_plan blocks (mkEmit _ ∅ ∅ s0 None)). Qed.

(** The identity recorded for a product node. *)
Lemma emitted_id i b : (i, b) ∈ blocks -> emit_plan_ids st !! i = id_after None b.
Proof.
  intros Hb. rewrite (emitted_state _ _ _ _ _ _ _ _ HE).
  rewrite (emit_blocks_ids blocks i b); [|rewrite (emitted_fst _ _ _ _ _ _ _ _ HE); apply HE|done].
  pose proof (emitted_blocks _ _ _ _ _ _ _ _ HE) as Hall. rewrite Forall_forall in Hall.
  specialize (Hall _ Hb). unfold id_after. destruct (last b) eqn:Hl; [done|]. by apply last_None in Hl.
Qed.

(** The output's block ends the list, and its identity is the root. *)
Lemma emitted_last : exists B b, blocks = B ++ [(output_node_id g, b)] /\ b <> [].
Proof.
  pose proof (linear_last _ _ (emitted_path _ _ _ _ _ _ _ _ HE)) as Hl.
  rewrite <- (emitted_fst _ _ _ _ _ _ _ _ HE), fmap_last in Hl.
  destruct (last blocks) as [[i b]|] eqn:Hlb; [|done]. injection Hl as ->.
  apply last_Some in Hlb as [B ->]. exists B, b. split; [done|].
  pose proof (emitted_blocks _ _ _ _ _ _ _ _ HE) as Hall. by apply Forall_app in Hall as [_ [? _]%Forall_cons].
Qed.
Lemma emitted_root : id_after None (flat blocks) = Some (plan_id_of (emit_plan_ids st) (output_node_id g)).
Proof.
  destruct emitted_last as (B & b & Heq & Hb0). pose proof (emitted_id (output_node_id g) b) as Hid.
  rewrite Heq in *. unfold flat. rewrite bind_app, id_after_app. cbn. rewrite app_nil_r, id_after_last by done.
  specialize (Hid ltac:(apply elem_of_app; right; left)). unfold id_after in *.
  destruct (last b) as [e|] eqn:Hl; [|by apply last_None in Hl]. by rewrite (plan_id_of_Some _ _ _ Hid).
Qed.
End emitted.

Lemma compile_ok r g source target c :
  registry_ok r -> compile graph_to_vec hash_iter plan_to_vec r g source target = Ok c ->
  exists path cs s0 blocks, CompiledOk r g source c path cs s0 blocks.
Proof.
  intros Hr (st & (path & cs & s0 & blocks & HE & _)%compile_emit_ok & Hc)%bind_Ok; [|done].
  apply bind_Ok in Hc as (plan & Hplan%map_err_Ok & Hc).
  apply bind_Ok in Hc as (_ & _ & Hc). apply bind_Ok in Hc as (_ & _ & Hc).
  apply bind_Ok in Hc as (_ & _ & [= <-]). rewrite (emitted_plan_nodes HE) in Hplan.
  apply acyclic_ids_distinct in Hplan as (Hplan & Hok & Hids); [|done].
  pose proof HE as [HL Hnd Hvalid [ds HG] Hsrc _ Hlow Hfst Hall _ Hst].
  exists path, cs, s0, blocks. split; cbn [compiled_plan output_schema node_plan_ids node_schemas];
    [done|by exists ds|done|done|done|done|..].
  - rewrite Hplan. cbn [nodes]. apply insert_all_list_to_map. by rewrite chain_ids.
  - rewrite Hplan. cbn [root]. apply (emitted_root HE).
  - apply (emitted_schema HE).
  - intros B1 i b B2 ->. split; [apply (emitted_id HE), elem_of_app; right; left|].
    rewrite <- Hfst, fmap_app, fmap_cons in Hnd. pose proof Hnd as (_ & _ & [Hi2 _]%NoDup_cons)%NoDup_app.
    rewrite Hst, emit_blocks_snapshot; [done|done|].
    eapply (product_not_internal g cs _ s0 path); [by eapply graph_no_empty| |exact Hlow|done].
    by rewrite <- Hfst, fmap_app, fmap_cons.
Qed.
End compiled.

(** ** An example *)

#[local] Existing Instance example_serde.
Definition example_source : AuthorizedSourceContext :=
  mkContext 7%N (mkSchema 1 [mkField 11%N "label" TUtf8 false ∅; mkField 12%N "amount" TInt64 true ∅] ∅).
Definition example_plan_bytes (_ : LogicalPlan) : result string (list N) := Ok [1%N].
Definition example_compile (g : NodeGraph) : Compile CompiledNodeGraph :=
  compile example_graph_bytes map_to_list example_plan_bytes deployed_registry g example_source Execution.

Example example_compiles : is_ok (example_compile example_graph) = true.
Proof. vm_compute. reflexivity. Qed.

Lemma deployed_ok : registry_ok deployed_registry.
Proof.
  eapply with_packages_registry_ok; [|apply deployed_registry_ok].
  eapply from_definitions_registry_ok; [apply production_registry_ok|apply production_ok].
Qed.

(** ** Claims *)

(** C40: the compiled plan refines the reference lowering.  When a graph
    compiles, it has a linear path from source to output and a lowering of
    that path, one block of plan nodes per graph node in order, such that the
    plan is the chain of those nodes with pairwise distinct identities and
    the last one as root, the plan satisfies plan validity, and the output
    schema and each product node's plan identity and schema snapshot are the
    ones reached after its block. *)
Theorem compile_refines `{Serde} (graph_to_vec : NodeGraph -> option (list N))
  (hash_iter : gmap PlanNodeId N -> list (PlanNodeId * N)) (plan_to_vec : LogicalPlan -> result string (list N))
  (r : NodeRegistry) (g : NodeGraph) (source : AuthorizedSourceContext) (target : CompileTarget)
  (c : CompiledNodeGraph) :
  HashIter hash_iter -> registry_ok r ->
  compile graph_to_vec hash_iter plan_to_vec r g source target = Ok c ->
  exists path cs s0 blocks, CompiledOk r g source c path cs s0 blocks.
Proof. intros. by eapply compile_ok. Qed.

Lemma compile_refines_witness : exists c path cs s0 blocks,
  example_compile example_graph = Ok c /\ CompiledOk deployed_registry example_graph example_source c path cs s0 blocks.
Proof.
  destruct (example_compile example_graph) as [c|e] eqn:Hc.
  - destruct (compile_refines example_graph_bytes map_to_list example_plan_bytes deployed_registry
      example_graph example_source Execution c _ deployed_ok Hc) as (path & cs & s0 & blocks & HC).
    exact (ex_intro _ c (ex_intro _ path (ex_intro _ cs (ex_intro _ s0 (ex_intro _ blocks (conj eq_refl HC)))))).
  - exfalso. pose proof example_compiles as Hex. rewrite Hc in Hex. discriminate Hex.
Defined.
