(* ===== verification/Compiled.v ===== *)
(** * A lowered graph always compiles

    What the loop of [Compiler] emits passes plan validation: the nodes are
    well-formed and of the right arity, their identities are distinct and
    they form one chain to the root.  So lowering is the last step at which
    [compile] can reject a graph. *)

From S2P Require Import Prelude Text Secrets Logical Schema Expression Rule Plan Semantics Nodes Registry Graph Compiler.

(** ** Lowered nodes pass plan validation *)

Lemma lower_sort_key_column node s k k' : lower_sort_key node s k = Ok k' -> sort_column k' = key_column k.
Proof.
  intros (f & _ & Hk)%bind_Ok. destruct (negb _); [done|]. by apply bind_Ok in Hk as (_ & _ & [= <-]).
Qed.

Lemma product_rule_ok c rule : AtomicOk c -> product_rule c = Some rule -> RuleOk rule.
Proof.
  destruct c as [| | | |column to|column|column op|column t p [format|]|column from to|column v|column|ci cn t b e| |];
    cbn; intros Hc [= <-]; cbn; try done; unfold name_ok, expression_ok in Hc; naive_solver.
Qed.

Lemma compile_transform_kind node c s k s' :
  AtomicOk c -> compile_transform node c s = Ok (k, s') -> KindOk k /\ arity k = (1, 1)%N.
Proof.
  unfold compile_transform. intros Hc. destruct (product_rule c) as [rule|] eqn:Hr.
  { intros (s1 & _ & [= <- <-])%bind_Ok. split; [|done]. split; [done|].
    apply Forall_singleton. by eapply product_rule_ok. }
  destruct c as [| |columns|predicate| | | | | | | | | |keys]; try done.
  - intros (s1 & _ & [= <- <-])%bind_Ok. split; [|done]. destruct Hc as [? [? ?]]. done.
  - intros (a & _ & Ha)%bind_Ok. destruct (negb _); [done|]. injection Ha as <- <-.
    split; [|done]. by destruct Hc as [? _].
  - intros (ks & Hks%collect_Ok & [= <- <-])%bind_Ok. split; [|done]. cbn in Hc.
    destruct Hc as [Hlen [_ Hnd]].
    assert (sort_column <$> ks = key_column <$> keys) as Hcols.
    { clear -Hks. induction Hks as [|k k' keys ks Hk _ IH]; [done|].
      by rewrite !fmap_cons, IH, (lower_sort_key_column _ _ _ _ Hk). }
    assert (len ks = len keys) as Hl by (unfold len; by rewrite (Forall2_length _ _ _ Hks)).
    cbn [KindOk]. rewrite Hl, Hcols. split_and!; [|by apply Hlen|done].
    intros ->. change (len []) with 0%N in Hl. lia.
Qed.

Definition inner_kind (e : Lowered) : Prop := KindOk (l_kind e) /\ arity (l_kind e) = (1, 1)%N.

Lemma lower_steps_kinds node entries : forall s l,
  Forall (fun e => AtomicOk e.2) entries -> lower_steps node s entries = Ok l -> Forall inner_kind l.
Proof.
  induction entries as [|[k c] entries IH]; intros s l Hc; cbn [lower_steps]; [by intros [= <-]|].
  apply Forall_cons in Hc as [Hc Hcs]. cbn in Hc.
  intros ([kd s1] & Hlow & (rest & Hr & [= <-])%bind_Ok)%bind_Ok.
  constructor; [by eapply compile_transform_kind|by eapply IH].
Qed.

Lemma Forall_ordinals (P : ValidatedNodeConfig -> Prop) steps :
  Forall P steps -> Forall (fun e => P e.2) (imap (fun ordinal step => (as_u16 ordinal, step)) steps).
Proof.
  intros HP. apply Forall_forall. intros [k c] (n & c' & [= -> ->] & Hc)%elem_of_lookup_imap.
  rewrite Forall_forall in HP. apply HP. by eapply list_elem_of_lookup_2.
Qed.

(** A node other than the source. *)
Lemma lower_node_kinds g cs asset s i b c :
  i <> source_node_id g -> cs !! i = Some c -> ConfigOk c ->
  lower_node g cs asset s i = Ok b -> Forall inner_kind b.
Proof.
  intros Hi Hc Hok. unfold lower_node. rewrite Hc. cbn [ok_or mbind result_bind].
  assert (AtomicOk c -> forall low, lower_product g asset i c s = Ok low ->
    inner_kind (mkLowered i low.1 low.2)) as Hone.
  { intros Ha [k s1]. unfold lower_product. destruct (N.eqb_spec i (source_node_id g)); [done|].
    destruct (_ =? _)%N; [|by apply compile_transform_kind].
    destruct c; try done. intros [= <- <-]. split; [|done]. by destruct Ha as [_ ?]. }
  destruct c as [steps| | | | | | | | | | | | |];
    try (intros (low & Hlow & [= <-])%bind_Ok; apply Forall_singleton; by apply Hone).
  apply lower_steps_kinds. by apply Forall_ordinals.
Qed.

Lemma lower_path_kinds g cs asset path : forall s blocks,
  source_node_id g ∉ path -> (forall i c, cs !! i = Some c -> ConfigOk c) ->
  lower_path g cs asset s path = Ok blocks -> Forall inner_kind (flat blocks).
Proof.
  induction path as [|i path IH]; intros s blocks Hs Hcs; cbn [lower_path]; [by intros [= <-]|].
  rewrite not_elem_of_cons in Hs. destruct Hs as [Hne Hs].
  intros (b & Hb & (bs & Hbs & [= <-])%bind_Ok)%bind_Ok. unfold flat. rewrite bind_cons.
  apply Forall_app. split; [|by eapply IH]. cbn.
  destruct (cs !! i) as [c|] eqn:Hc; [|unfold lower_node in Hb; by rewrite Hc in Hb].
  by eapply lower_node_kinds; [| | |exact Hb]; [|exact Hc|eauto].
Qed.

(** ** A chain of such nodes is a valid plan *)

Lemma elem_of_chain l x n : forall o,
  (x, n) ∈ chain o l -> exists q e s, l = q ++ e :: s /\ x = l_id e /\
    n = mkPlanNode (option_list (id_after o q)) (l_kind e).
Proof.
  induction l as [|e l IH]; intros o; cbn [chain]; [by intros ?%not_elem_of_nil|].
  intros [[= -> ->]|Hin]%elem_of_cons; [by exists [], e, l|].
  apply IH in Hin as (q & f & s & -> & -> & ->). exists (e :: q), f, s. by rewrite id_after_cons.
Qed.

Lemma id_after_Some q x : id_after None q = Some x -> x ∈ l_id <$> q.
Proof.
  unfold id_after. destruct (last q) as [e|] eqn:Hl; [|done]. intros [= <-].
  by apply list_elem_of_fmap_2, last_Some_elem_of.
Qed.

Section plan_ok.
Context (e0 : Lowered) (rest : list Lowered) (root : PlanNodeId).
Notation l := (e0 :: rest).
Context (Hids : NoDup (l_id <$> l)) (Hroot : root ∈ l_id <$> l).
Context (H0 : KindOk (l_kind e0)) (Ha0 : arity (l_kind e0) = (0, 0)%N) (Hrest : Forall inner_kind rest).
Notation ns := (list_to_map (chain None l) : gmap PlanNodeId PlanNode).

Lemma chain_lookup x n : ns !! x = Some n <-> (x, n) ∈ chain None l.
Proof. symmetry. apply elem_of_list_to_map. by rewrite chain_ids. Qed.

Lemma chain_dom x : is_Some (ns !! x) <-> x ∈ l_id <$> l.
Proof.
  rewrite <- (chain_ids l None), list_elem_of_fmap. split.
  - intros [n Hn%chain_lookup]. by exists (x, n).
  - intros ([y n] & -> & Hn%chain_lookup). by exists n.
Qed.

Lemma chain_node n q e s :
  l = q ++ e :: s -> n = mkPlanNode (option_list (id_after None q)) (l_kind e) ->
  Plan.NodeOk n /\ Forall (fun i => i ∈ l_id <$> q) (inputs n).
Proof.
  intros Hl ->. split.
  - destruct q as [|e' q]; injection Hl as <- Hl.
    + split; [|done]. cbn [kind inputs id_after last option_list]. by rewrite Ha0.
    + rewrite Hl in Hrest. apply Forall_app in Hrest as [_ [[Hk Ha] _]%Forall_cons].
      split; [|done]. cbn [kind inputs]. rewrite Ha, id_after_cons. unfold id_after.
      by destruct (last q).
  - cbn [inputs]. destruct (id_after None q) as [x'|] eqn:Hq; [|constructor].
    apply Forall_singleton. by apply id_after_Some.
Qed.

Lemma chain_topo : TopoOrder ns (l_id <$> l).
Proof.
  split; [done|intros v; symmetry; apply chain_dom|].
  intros l1 v l2 i Hl Hi. unfold ins in Hi. destruct (ns !! v) as [n|] eqn:Hn; [|by apply not_elem_of_nil in Hi].
  apply chain_lookup, elem_of_chain in Hn as (q & e & s & Hq & -> & Hn).
  destruct (chain_node n q e s Hq Hn) as [_ Hin]. rewrite Forall_forall in Hin. specialize (Hin i Hi).
  rewrite Hq, fmap_app, fmap_cons in Hl. rewrite Hq, fmap_app, fmap_cons in Hids.
  assert (l_id <$> q = l1) as <-; [|done].
  assert (l_id e ∉ l_id <$> q) as Hnq by (intros Hx; apply NoDup_app in Hids as (_ & Hd & _); apply (Hd _ Hx); left).
  assert (l_id e ∉ l1) as Hn1.
  { intros Hx. rewrite Hl in Hids. apply NoDup_app in Hids as (_ & Hd & _). apply (Hd _ Hx). left. }
  clear -Hl Hnq Hn1. revert l1 Hl Hn1. induction (l_id <$> q) as [|a k IH]; intros [|b l1] Hl Hn1.
  - done.
  - injection Hl as <- _. exfalso. apply Hn1. left.
  - injection Hl as -> _. exfalso. apply Hnq. left.
  - injection Hl as -> Hl. f_equal. apply IH; [|done|]; set_solver.
Qed.

Lemma chain_PlanOk : PlanOk (mkPlan PLAN_VERSION root ns).
Proof.
  split; cbn [plan_version Plan.root nodes].
  - done.
  - by apply chain_dom.
  - intros v n (q & e & s & Hq & -> & Hn)%chain_lookup%elem_of_chain. by eapply chain_node.
  - intros v n (q & e & s & Hq & -> & Hn)%chain_lookup%elem_of_chain.
    destruct (chain_node n q e s Hq Hn) as [_ Hin].
    eapply Forall_impl; [exact Hin|]. intros i Hi. apply chain_dom. rewrite Hq, fmap_app. set_solver.
  - exists (l_id <$> l). apply chain_topo.
Qed.
End plan_ok.

(** ** Distinct identities *)

(** The upper 112 bits. *)
Definition upper (i : NodeId) : N := N.land i (N.lxor (2 ^ 128 - 1) 0xFFFF).
(** No two composites of the graph agree on them. *)
Definition separate (cs : gmap NodeId ValidatedNodeConfig) : Prop :=
  forall i j, is_composite cs i -> is_composite cs j -> upper i = upper j -> i = j.

Lemma internal_ordinal i k : (k < 2 ^ 15)%N -> N.land (internal_plan_node_id i k) (N.ones 15) = k.
Proof.
  intros Hk. unfold internal_plan_node_id. rewrite !N.land_lor_distr_l, <- N.land_assoc.
  change (N.land (N.lxor (2 ^ 128 - 1) 65535) (N.ones 15)) with 0%N.
  change (N.land 32768 (N.ones 15)) with 0%N. rewrite N.land_0_r, !N.lor_0_l, N.land_ones.
  by apply N.mod_small.
Qed.

Lemma NoDup_internal node s steps l :
  (len steps <= MAX_EXPANSION_STEPS)%N ->
  lower_steps node s (imap (fun ordinal step => (as_u16 ordinal, step)) steps) = Ok l ->
  NoDup (l_id <$> l).
Proof.
  intros Hlen ->%lower_steps_ids. apply NoDup_alt. intros a b x.
  rewrite !list_lookup_fmap, !list_lookup_imap.
  destruct (steps !! a) as [ca|] eqn:Ha, (steps !! b) as [cb|] eqn:Hb; cbn; try done.
  apply lookup_lt_Some in Ha, Hb. unfold len, MAX_EXPANSION_STEPS in Hlen. intros [= <-] [= Heq].
  assert (as_u16 a = N.of_nat a /\ as_u16 b = N.of_nat b) as [Hua Hub]
    by (unfold as_u16; rewrite !N.mod_small by lia; done).
  rewrite Hua, Hub in Heq. apply (f_equal (fun x => N.land x (N.ones 15))) in Heq.
  rewrite !internal_ordinal in Heq by lia. lia.
Qed.

Section distinct.
Context (g : NodeGraph) (cs : gmap NodeId ValidatedNodeConfig) (asset : Uuid).
Context (Hsteps : forall i steps, cs !! i = Some (VComposite steps) -> (len steps <= MAX_EXPANSION_STEPS)%N).
Context (Hsep : separate cs).

(** Two blocks share no identity. *)
Lemma blocks_disjoint s1 s2 i j b1 b2 x :
  i <> j -> lower_node g cs asset s1 i = Ok b1 -> lower_node g cs asset s2 j = Ok b2 ->
  (~ is_composite cs i -> is_composite cs j -> forall e, e ∈ b2 -> l_id e <> i) ->
  (~ is_composite cs j -> is_composite cs i -> forall e, e ∈ b1 -> l_id e <> j) ->
  x ∈ l_id <$> b1 -> x ∉ l_id <$> b2.
Proof.
  intros Hij H1 H2 Ha Hb Hx1 Hx2.
  apply lower_node_ids in H1 as [(Hc1 & st1 & Hs1 & Hl1)|(Hc1 & Ho1)];
    apply lower_node_ids in H2 as [(Hc2 & st2 & Hs2 & Hl2)|(Hc2 & Ho2)].
  - apply list_elem_of_fmap in Hx1 as (e1 & -> & He1), Hx2 as (e2 & Heq & He2).
    destruct (lower_steps_internal _ _ _ _ _ Hl1 He1) as (k1 & Hk1 & Hi1).
    destruct (lower_steps_internal _ _ _ _ _ Hl2 He2) as (k2 & Hk2 & Hi2).
    apply Hij, Hsep; [done|done|]. unfold upper.
    by rewrite <- (internal_masked i k1 Hk1), <- (internal_masked j k2 Hk2), <- Hi1, <- Hi2, Heq.
  - rewrite Ho2 in Hx2. apply list_elem_of_singleton in Hx2 as ->.
    apply list_elem_of_fmap in Hx1 as (e & Heq & He). by apply (Hb Hc2 Hc1 e He).
  - rewrite Ho1 in Hx1. apply list_elem_of_singleton in Hx1 as ->.
    apply list_elem_of_fmap in Hx2 as (e & Heq & He). by apply (Ha Hc1 Hc2 e He).
  - rewrite Ho1 in Hx1. rewrite Ho2 in Hx2. apply list_elem_of_singleton in Hx1, Hx2. congruence.
Qed.

Lemma blocks_NoDup blocks :
  NoDup blocks.*1 -> Forall (fun b => exists s, lower_node g cs asset s b.1 = Ok b.2) blocks ->
  (forall j, j ∈ blocks.*1 -> ~ is_composite cs j -> avoids cs j blocks) ->
  NoDup (l_id <$> flat blocks).
Proof.
  induction blocks as [|[i b] blocks IH]; intros Hnd Hall Hav; [constructor|].
  rewrite fmap_cons in Hnd. apply NoDup_cons in Hnd as [Hi Hnd]. apply Forall_cons in Hall as [[s Hb] Hall].
  cbn in Hb, Hi. unfold flat. rewrite bind_cons, fmap_app. apply NoDup_app. split_and!.
  - pose proof Hb as [(_ & steps & Hs & Hl)|(_ & Hone)]%lower_node_ids.
    + eapply NoDup_internal; [by eapply Hsteps|exact Hl].
    + cbn [snd]. rewrite Hone. apply NoDup_singleton.
  - intros x Hx. rewrite list_elem_of_fmap. intros (e & -> & ([j b2] & He & Hj)%list_elem_of_bind).
    cbn in Hx, He. rewrite Forall_forall in Hall. destruct (Hall _ Hj) as [s2 Hb2]. cbn in Hb2.
    assert (j ∈ blocks.*1) as Hjin by (by apply (list_elem_of_fmap_2 fst) in Hj).
    revert Hx. intros Hx. eapply (blocks_disjoint s s2 i j b b2 (l_id e));
      [by intros ->|exact Hb|exact Hb2| | |exact Hx|by apply list_elem_of_fmap_2].
    + intros Hci Hcj e' He'. by eapply (Hav i ltac:(left) Hci (j, b2)); [by right|..].
    + intros Hcj Hci e' He'. by eapply (Hav j ltac:(by right) Hcj (i, b)); [by left|..].
  - apply IH; [done|done|]. intros j Hj Hc b' e Hb' Hcb He. eapply (Hav j); [by right|done|by right|done|done].
Qed.
End distinct.

(** ** A lowered graph compiles *)

Lemma project_ids s cs s' :
  ValidSchema s -> project_effect s cs = Ok s' -> columns_ok (id <$> fields s') /\ id <$> fields s' = cs.
Proof.
  intros Hv (Hne & Hnd & Hall & ->)%project_effect_Ok; [|done]. cbn [fields].
  assert (id <$> omap (schema_field s) cs = cs) as ->; [|done].
  clear Hne Hnd. induction cs as [|c cs IH]; [done|]. cbn.
  destruct (Hall c ltac:(left)) as [f Hf]. rewrite Hf. cbn.
  rewrite IH by (intros d Hd; apply Hall; by right). by apply find_field_Some in Hf as [_ ->].
Qed.

Section total.
Context `{Serde} (r : NodeRegistry) (Hr : registry_ok r).
Context {g source st path cs s0 blocks} (HE : Emitted r g source st path cs s0 blocks).

Lemma emitted_config_ok i c : cs !! i = Some c -> ConfigOk c.
Proof.
  intros Hc. destruct (emitted_configs _ _ _ _ _ _ _ _ HE) as [ds HG].
  destruct (graph_config_ok r Hr g ds cs i c HG Hc) as (d & _ & Hd). apply Hd.
Qed.
Lemma emitted_steps i steps : cs !! i = Some (VComposite steps) -> (len steps <= MAX_EXPANSION_STEPS)%N.
Proof.
  intros Hc. destruct (emitted_configs _ _ _ _ _ _ _ _ HE) as [ds HG].
  destruct (graph_config_ok r Hr g ds cs i _ HG Hc) as (d & _ & [_ _ Hs]). by apply Hs.
Qed.

(** The first plan node is the scan, the others take one input. *)
Lemma emitted_kinds : exists rest,
  flat blocks = mkLowered (source_node_id g)
    (Scan (authorized_asset source) (id <$> fields s0) None) s0 :: rest /\
  KindOk (Scan (authorized_asset source) (id <$> fields s0) None) /\ Forall inner_kind rest.
Proof.
  pose proof HE as [HL Hnd Hvalid _ (projection & Hsrc & Hs0) _ Hlow _ _ _ _].
  pose proof emitted_config_ok as Hcfg. clear HE.
  pose proof (linear_head _ _ HL) as Hh. destruct path as [|i p]; [done|]. injection Hh as ->.
  apply NoDup_cons in Hnd as [Hi Hnd]. cbn [lower_path] in Hlow.
  apply bind_Ok in Hlow as (b & Hb & Hlow). apply bind_Ok in Hlow as (bs & Hbs & [= <-]).
  unfold lower_node in Hb. rewrite Hsrc in Hb. cbn [ok_or mbind result_bind] in Hb.
  unfold lower_product in Hb. rewrite N.eqb_refl in Hb. cbn in Hb. injection Hb as <-.
  exists (flat bs). split; [done|]. split.
  - destruct (Hcfg _ _ Hsrc) as [Ha _]. split; [done|].
    split; [by apply (project_ids (source_schema source) _ _ Hvalid Hs0)|done].
  - eapply lower_path_kinds; [exact Hi|exact Hcfg|exact Hbs].
Qed.

Lemma emitted_ids_distinct : separate cs -> NoDup (l_id <$> flat blocks).
Proof.
  intros Hsep. pose proof (lower_path_blocks _ _ _ _ _ _ (emitted_lowering _ _ _ _ _ _ _ _ HE)) as [Hfst Hall].
  apply (blocks_NoDup g cs (authorized_asset source) emitted_steps Hsep); [|done|].
  - rewrite Hfst. apply HE.
  - intros j. rewrite Hfst. apply (emitted_avoids _ _ _ _ _ _ _ _ HE).
Qed.

Lemma emitted_PlanOk :
  NoDup (l_id <$> flat blocks) ->
  PlanOk (mkPlan PLAN_VERSION (plan_id_of (emit_plan_ids st) (output_node_id g)) (plan_nodes st)).
Proof.
  intros Hids. rewrite (emitted_plan_nodes HE), insert_all_list_to_map by (by rewrite chain_ids).
  pose proof (emitted_root HE) as Hroot. destruct emitted_kinds as (rest & Heq & Hk & Hrest).
  rewrite Heq in *. apply chain_PlanOk; [done| |done|done|done].
  by apply id_after_Some in Hroot.
Qed.

(** A product node other than the output does not end at the root. *)
Lemma emitted_not_root i :
  NoDup (l_id <$> flat blocks) -> i ∈ path -> i <> output_node_id g ->
  exists x, emit_plan_ids st !! i = Some x /\ x <> plan_id_of (emit_plan_ids st) (output_node_id g).
Proof.
  intros Hids Hi Hne. rewrite <- (emitted_fst _ _ _ _ _ _ _ _ HE) in Hi.
  apply list_elem_of_fmap in Hi as ([i' b] & -> & Hb). cbn in Hne.
  pose proof (emitted_blocks _ _ _ _ _ _ _ _ HE) as Hall. rewrite Forall_forall in Hall.
  pose proof (emitted_id HE i' b Hb) as Hid. specialize (Hall _ Hb). cbn in Hall.
  destruct (id_after None b) as [x|] eqn:Hx; [|unfold id_after in Hx; destruct (last b) eqn:Hl; [done|by apply last_None in Hl]].
  exists x. split; [done|]. intros ->. destruct (emitted_last HE) as (B & b' & Heq & Hb').
  pose proof (emitted_root HE) as Hroot. rewrite Heq in Hids, Hroot, Hb. unfold flat in Hids, Hroot.
  rewrite bind_app in Hids, Hroot. cbn in Hids, Hroot. rewrite app_nil_r in Hids, Hroot.
  rewrite id_after_app, id_after_last in Hroot by done.
  apply elem_of_app in Hb as [Hb|[= -> ->]%list_elem_of_singleton]; [|done].
  rewrite fmap_app in Hids. apply NoDup_app in Hids as (_ & Hd & _).
  eapply Hd; [|by apply id_after_Some]. apply id_after_Some in Hx.
  apply list_elem_of_fmap in Hx as (e & -> & He). apply list_elem_of_fmap_2, list_elem_of_bind. by exists (i', b).
Qed.

(** The configs of the lowering are the ones validation returned. *)
Lemma emitted_unique {graph_to_vec cs'} : validated_configs graph_to_vec r g = Ok cs' -> cs' = cs.
Proof.
  intros [_ [ds' HG']]%validated_configs_sound. destruct (emitted_configs _ _ _ _ _ _ _ _ HE) as [ds HG].
  by destruct (Resolves_unique r _ _ _ _ _ (graph_ok_resolves _ _ _ _ HG) (graph_ok_resolves _ _ _ _ HG')) as [_ ->].
Qed.
End total.

Lemma compile_total_gen `{Serde} graph_to_vec hash_iter plan_to_vec `{!HashIter hash_iter} r g source target st :
  registry_ok r -> (forall plan, exists bytes, plan_to_vec plan = Ok bytes) ->
  compile_emit graph_to_vec r g source target = Ok st ->
  (forall cs, validated_configs graph_to_vec r g = Ok cs -> separate cs) ->
  exists c, compile graph_to_vec hash_iter plan_to_vec r g source target = Ok c.
Proof.
  intros Hr Hvec He Hsep. pose proof He as Hemit.
  pose proof (compile_emit_inv _ _ _ _ _ _ He) as (cs' & _ & _ & _ & _ & Hcs' & _).
  apply compile_emit_ok in He as (path & cs & s0 & blocks & HE & Ht); [|done].
  pose proof (Hsep _ Hcs') as Hs. rewrite (emitted_unique r HE Hcs') in Hs.
  pose proof (emitted_ids_distinct r Hr HE Hs) as Hids. pose proof (emitted_PlanOk r Hr HE Hids) as Hok.
  set (plan := mkPlan _ _ _) in Hok. pose proof (proj2 (plan_validate_Ok hash_iter plan) Hok) as Hv.
  destruct (Hvec plan) as [bytes Hb]. unfold compile. rewrite Hemit. cbn [mbind result_bind].
  unfold plan_new, plan_from_parts, plan_canonical_bytes, plan_fingerprint, plan_canonical_bytes.
  fold plan. rewrite Hv. cbn [mbind result_bind map_err]. rewrite Hv, Hb. cbn [mbind result_bind map_err].
  destruct target as [|node]; cbn [mbind result_bind fmap result_fmap]; [eauto|].
  unfold check_target in Ht. destruct (N.eqb_spec node (output_node_id g)) as [|Hne]; [done|]. cbn in Ht.
  destruct (bool_decide (is_Some (cs !! node))) eqn:Hsome; [|done]. apply bool_decide_eq_true in Hsome.
  destruct (emitted_configs _ _ _ _ _ _ _ _ HE) as [ds HG].
  assert (node ∈ path) as Hin.
  { rewrite (linear_nodes _ _ (emitted_path _ _ _ _ _ _ _ _ HE)).
    by apply (resolves_configs _ _ _ _ (graph_ok_resolves _ _ _ _ HG)). }
  destruct (emitted_not_root r HE node Hids Hin Hne) as (x & Hx & Hxr).
  unfold preview_plan_node_id. cbn [node_plan_ids compiled_plan root plan]. rewrite Hx. cbn [ok_or mbind result_bind].
  destruct (N.eqb_spec x (plan_id_of (emit_plan_ids st) (output_node_id g))); [done|]. cbn. eauto.
Qed.

(** ** Claims *)

#[local] Existing Instance example_serde.

(** Lowering is the last step that can reject a graph.  When the loop
    over the path has emitted every node, the plan passes validation, both
    encodings succeed and a preview target has its plan node, so [compile]
    returns a result, provided that the encoder accepts every plan and no two
    composite nodes share the upper 112 bits of their identity. *)
Theorem compile_total `{Serde} (graph_to_vec : NodeGraph -> option (list N))
  (hash_iter : gmap PlanNodeId N -> list (PlanNodeId * N)) (plan_to_vec : LogicalPlan -> result string (list N))
  (r : NodeRegistry) (g : NodeGraph) (source : AuthorizedSourceContext) (target : CompileTarget) (st : Emit) :
  HashIter hash_iter -> registry_ok r -> (forall plan, exists bytes, plan_to_vec plan = Ok bytes) ->
  compile_emit graph_to_vec r g source target = Ok st ->
  (forall cs, validated_configs graph_to_vec r g = Ok cs -> separate cs) ->
  exists c, compile graph_to_vec hash_iter plan_to_vec r g source target = Ok c.
Proof. intros. by eapply compile_total_gen. Qed.

(** The composites of a graph, listed. *)
Definition composites (cs : gmap NodeId ValidatedNodeConfig) : list NodeId :=
  (filter (fun entry => match entry.2 with VComposite _ => true | _ => false end = true) (map_to_list cs)).*1.
Lemma elem_of_composites cs i steps : cs !! i = Some (VComposite steps) -> i ∈ composites cs.
Proof.
  intros Hi. apply list_elem_of_fmap. exists (i, VComposite steps). split; [done|].
  apply list_elem_of_filter. split; [done|]. by apply elem_of_map_to_list.
Qed.
Lemma composites_separate cs : length (composites cs) <=? 1 = true -> separate cs.
Proof.
  intros Hl%Nat.leb_le i j [a Ha%elem_of_composites] [b Hb%elem_of_composites] _.
  destruct (composites cs) as [|x [|y l]]; cbn in Hl; [set_solver|set_solver|lia].
Qed.
Lemma example_separate cs : validated_configs example_graph_bytes deployed_registry example_graph = Ok cs -> separate cs.
Proof.
  intros Hcs. apply composites_separate.
  assert (forall m, validated_configs example_graph_bytes deployed_registry example_graph = Ok m ->
    match validated_configs example_graph_bytes deployed_registry example_graph with
    | Ok m => length (composites m) <=? 1 | Err _ => true end = true -> length (composites m) <=? 1 = true) as Hm
    by (intros m ->; exact (fun h => h)).
  apply (Hm _ Hcs). vm_compute. reflexivity.
Qed.

Lemma compile_total_witness : exists c, example_compile example_graph = Ok c.
Proof.
  destruct (compile_emit example_graph_bytes deployed_registry example_graph example_source Execution)
    as [st|e] eqn:Hst.
  - exact (compile_total example_graph_bytes map_to_list example_plan_bytes deployed_registry example_graph
      example_source Execution st _ deployed_ok (fun _ => ex_intro _ [1%N] eq_refl) Hst example_separate).
  - exfalso. pose proof example_compiles as Hex. unfold example_compile, compile in Hex. rewrite Hst in Hex.
    discriminate Hex.
Defined.
