(* ===== verification/Snapshots.v ===== *)
(** * The budget of the schema snapshots

    [compile] keeps one schema per node and charges their size in advance
    ([check_compile_work] of [Compiler], node_graph_compiler.rs).  The charge
    assumes the widest schema the chain can produce at every node; here it is
    shown to cover what the loop stores when no node is a composite, and not
    to cover it when one is. *)

From stdpp Require Import pretty.
From S2P Require Import Prelude Text Secrets Logical Schema Expression Rule Plan Semantics Nodes Registry Graph Compiler Compiled.

(** ** Widths *)

Notation width s := (len (fields s)).
(** The width that a pair of [widest] allows for. *)
Notation allows x := (x.1 + x.2)%N.

Lemma len_le_length {A B} (l : list A) (k : list B) : (length l <= length k)%nat -> (len l <= len k)%N.
Proof. unfold len. lia. Qed.
Lemma length_omap_le {A B} (f : A -> option B) l : (length (omap f l) <= length l)%nat.
Proof. induction l as [|a l IH]; [done|]. cbn. destruct (f a); cbn; lia. Qed.
Lemma len_fmap_ids (fs gs : list LogicalField) : id <$> fs = id <$> gs -> len fs = len gs.
Proof. intros Hid. unfold len. by rewrite <- (length_fmap id fs), Hid, length_fmap. Qed.

Lemma rule_effect_width s rule s' :
  ValidSchema s -> rule_effect s rule = Ok s' ->
  (width s' <= width s + match rule with RDeriveColumn _ _ _ _ _ => 1 | _ => 0 end)%N.
Proof.
  intros Hs (_ & _ & _ & He)%rule_effect_Ok; [|done].
  destruct rule as [c to|c t p|c t p fmt|c|c from to|c v|c|i n t nul e|pr|ks|pr sv m|c op];
    cbn [effect_spec] in He; try done;
    try (destruct He as (f & _ & _ & Hid%len_fmap_ids & _); lia).
  - subst. lia.
  - destruct (is_scalar_null to); [|subst; lia]. destruct He as (f & _ & _ & Hid%len_fmap_ids & _). lia.
  - destruct He as (_ & _ & Hid & _).
    assert (length (id <$> fields s') <= length (id <$> fields s))%nat as Hl by (rewrite Hid; apply length_filter).
    rewrite !length_fmap in Hl.
    unfold len. lia.
  - destruct He as (_ & -> & _). rewrite len_app. done.
  - subst. lia.
Qed.

Lemma project_effect_width s columns s' :
  ValidSchema s -> project_effect s columns = Ok s' -> (width s' <= len columns)%N /\ ValidSchema s'.
Proof.
  intros Hs Hp. split.
  - apply project_effect_Ok in Hp as (_ & _ & _ & ->); [|done]. apply len_le_length, length_omap_le.
  - unfold project_effect in Hp. destruct columns; [done|].
    by apply bind_Ok in Hp as (st & _ & [-> Hv]%rebuild_Ok).
Qed.

(** ** One transform stays within [widest] *)

Lemma widest_le x c : (x.1 <= (widest x c).1 /\ x.2 <= (widest x c).2)%N.
Proof. destruct c; cbn; lia. Qed.
Lemma widest_foldl_le l : forall x, (x.1 <= (foldl widest x l).1 /\ x.2 <= (foldl widest x l).2)%N.
Proof.
  induction l as [|c l IH]; intros x; cbn [foldl]; [lia|]. pose proof (widest_le x c). pose proof (IH (widest x c)). lia.
Qed.

Lemma product_rule_derive c rule x :
  product_rule c = Some rule ->
  allows (widest x c) = (allows x + match rule with RDeriveColumn _ _ _ _ _ => 1 | _ => 0 end)%N.
Proof. destruct c; cbn; intros; repeat case_match; simplify_eq; cbn; lia. Qed.

Lemma compile_transform_width node c s k s' x :
  ValidSchema s -> (width s <= allows x)%N -> compile_transform node c s = Ok (k, s') ->
  ValidSchema s' /\ (width s' <= allows (widest x c))%N.
Proof.
  intros Hs Hw. unfold compile_transform. destruct (product_rule c) as [rule|] eqn:Hr.
  { intros (s1 & Hs1%map_err_Ok & [= <- <-])%bind_Ok. split; [by eapply rule_effect_Ok|].
    rewrite (product_rule_derive _ _ _ Hr). pose proof (rule_effect_width _ _ _ Hs Hs1). lia. }
  pose proof (widest_le x c) as Hle.
  destruct c as [| |columns|predicate| | | | | | | | | |keys]; try done.
  - intros (s1 & Hs1%map_err_Ok & [= <- <-])%bind_Ok.
    apply project_effect_width in Hs1 as [Hl Hv]; [|done]. split; [done|]. cbn. lia.
  - intros (a & _ & Ha)%bind_Ok. destruct (negb _); [done|]. injection Ha as <- <-. split; [done|lia].
  - intros (ks & _ & [= <- <-])%bind_Ok. split; [done|lia].
Qed.

(** ** The whole path *)

Section path.
Context (g : NodeGraph) (cs : gmap NodeId ValidatedNodeConfig) (asset : Uuid).
Context (Hatomic : forall i, ~ is_composite cs i).

Lemma lower_node_width s i b c x :
  ValidSchema s -> (width s <= allows x)%N -> cs !! i = Some c -> lower_node g cs asset s i = Ok b ->
  exists e, b = [e] /\ l_id e = i /\ ValidSchema (l_schema e) /\ (width (l_schema e) <= allows (widest x c))%N.
Proof.
  intros Hs Hw Hc. unfold lower_node. rewrite Hc. cbn [ok_or mbind result_bind].
  assert (~ exists steps, c = VComposite steps) as Hn by (intros [steps ->]; apply (Hatomic i); by exists steps).
  intros Hb. assert ((low ← lower_product g asset i c s; Ok [mkLowered i low.1 low.2]) = Ok b) as Hlow
    by (destruct c; [destruct Hn; eauto|done..]). clear Hb.
  apply bind_Ok in Hlow as ([k s'] & Hlow & [= <-]). eexists. split; [done|]. split; [done|]. cbn [l_schema snd].
  pose proof (widest_le x c). unfold lower_product in Hlow. destruct (i =? _)%N; [injection Hlow as _ <-; split; [done|lia]|].
  destruct (i =? _)%N; [|by eapply compile_transform_width].
  destruct c; try done. injection Hlow as _ <-. split; [done|lia].
Qed.

Lemma lower_path_width path : forall s blocks x,
  ValidSchema s -> (width s <= allows x)%N -> lower_path g cs asset s path = Ok blocks ->
  Forall (fun b => exists e, b.2 = [e] /\ l_id e = b.1 /\
    (width (l_schema e) <= allows (foldl widest x (omap (fun i => cs !! i) path)))%N) blocks.
Proof.
  induction path as [|i path IH]; intros s blocks x Hs Hw; cbn [lower_path]; [by intros [= <-]|].
  intros (b & Hb & (rest & Hrest & [= <-])%bind_Ok)%bind_Ok.
  destruct (cs !! i) as [c|] eqn:Hc; [|unfold lower_node in Hb; by rewrite Hc in Hb].
  cbn [omap list_omap]. rewrite Hc. cbn [foldl].
  destruct (lower_node_width _ _ _ _ _ Hs Hw Hc Hb) as (e & -> & Hid & Hv & He).
  constructor; [|by eapply IH; [| |exact Hrest]].
  exists e. split_and!; [done|done|]. etransitivity; [exact He|].
  pose proof (widest_foldl_le (omap (fun i => cs !! i) path) (widest x c)). lia.
Qed.
End path.

(** ** The estimate *)

(** The bytes the snapshots cost at the frozen price per field. *)
Definition snapshot_bytes (schemas : gmap NodeId LogicalSchema) : N :=
  (SCHEMA_SNAPSHOT_FIELD_COST_BYTES * sum_by (fun entry => width entry.2) (map_to_list schemas))%N.

Lemma snapshot_bytes_le (schemas : gmap NodeId LogicalSchema) (path : list NodeId) w :
  NoDup path -> map_Forall (fun i s => i ∈ path /\ (width s <= w)%N) schemas ->
  (snapshot_bytes schemas <= SCHEMA_SNAPSHOT_FIELD_COST_BYTES * (w * len path))%N.
Proof.
  intros Hnd Hall. unfold snapshot_bytes. apply N.mul_le_mono_l.
  etransitivity; [apply (sum_by_le _ (fun _ => w * 1)%N)|].
  - intros [i s] Hi%elem_of_map_to_list. apply Hall in Hi. cbn. lia.
  - rewrite sum_by_scale, sum_by_one. apply N.mul_le_mono_l, len_le_length.
    rewrite length_map_to_list, <- (size_dom (D := gset NodeId)), <- (size_list_to_set (C := gset NodeId) path) by done.
    apply subseteq_size. intros i [s Hi]%elem_of_dom. apply Hall in Hi. set_solver.
Qed.

Lemma widest_permutation l k : l ≡ₚ k -> forall x, foldl widest x l = foldl widest x k.
Proof.
  induction 1 as [|c l k _ IH|c d l|l k m _ IH1 _ IH2]; intros x; cbn [foldl]; [done|by apply IH| |by rewrite IH1].
  f_equal. destruct c, d; cbn; try done; f_equal; lia.
Qed.

(** The values of a map along a list of its keys. *)
Lemma lookups_permutation {V} (l : list NodeId) : forall m : gmap NodeId V,
  NoDup l -> (forall i, is_Some (m !! i) <-> i ∈ l) -> omap (fun i => m !! i) l ≡ₚ (map_to_list m).*2.
Proof.
  induction l as [|i l IH]; intros m Hnd Hdom.
  { assert (m = ∅) as ->; [|by rewrite map_to_list_empty]. apply map_empty. intros i.
    apply eq_None_not_Some. rewrite Hdom. set_solver. }
  apply NoDup_cons in Hnd as [Hi Hnd]. destruct (proj2 (Hdom i)) as [v Hv]; [set_solver|].
  rewrite <- (map_to_list_delete m i v Hv). cbn. rewrite Hv, <- IH; [|done|].
  - f_equiv. enough (omap (fun j => m !! j) l = omap (fun j => delete i m !! j) l) as -> by done.
    clear -Hi. induction l as [|j l IH]; [done|]. cbn. rewrite lookup_delete_ne, IH by set_solver. done.
  - intros j. destruct (decide (i = j)) as [->|Hne].
    + rewrite lookup_delete_eq. split; [by intros [??]|done].
    + rewrite lookup_delete_ne, Hdom by done. set_solver.
Qed.

Section budget.
Context `{Serde} (r : NodeRegistry).
Context {g source st path cs s0 blocks} (HE : Emitted r g source st path cs s0 blocks).
Context (Hatomic : forall i, ~ is_composite cs i).

Lemma emitted_path_configs : omap (fun i => cs !! i) path ≡ₚ (plan_iter cs).*2.
Proof.
  rewrite plan_iter_Permutation. apply lookups_permutation; [apply HE|].
  destruct (emitted_configs _ _ _ _ _ _ _ _ HE) as [ds HG]. pose proof (graph_ok_resolves _ _ _ _ HG) as HR.
  intros i. rewrite (linear_nodes _ _ (emitted_path _ _ _ _ _ _ _ _ HE)). split; [apply HR|].
  intros (n & -> & Hn)%list_elem_of_fmap. destruct (resolves_node _ _ _ _ HR n Hn) as (d & c & _ & _ & ->). eauto.
Qed.

Lemma emitted_source_width :
  ValidSchema s0 /\ (width s0 <= match cs !! source_node_id g with
                                 | Some (VSource _ (Some columns)) => len columns
                                 | _ => width (source_schema source)
                                 end)%N.
Proof.
  destruct (emitted_source _ _ _ _ _ _ _ _ HE) as (projection & -> & Hp).
  apply project_effect_width in Hp as [Hw Hv]; [|apply HE]. split; [done|].
  destruct projection as [columns|]; cbn in Hw; [done|]. unfold len in *. by rewrite length_fmap in Hw.
Qed.

Lemma emitted_snapshots w :
  Forall (fun b => exists e, b.2 = [e] /\ l_id e = b.1 /\ (width (l_schema e) <= w)%N) blocks ->
  map_Forall (fun i s => i ∈ path /\ (width s <= w)%N) (snapshots st).
Proof.
  intros Hb. rewrite (emitted_state _ _ _ _ _ _ _ _ HE), <- (emitted_fst _ _ _ _ _ _ _ _ HE).
  assert (forall B st, (forall b, b ∈ B -> b ∈ blocks) ->
    map_Forall (fun i s => i ∈ blocks.*1 /\ (width s <= w)%N) (snapshots st) ->
    map_Forall (fun i s => i ∈ blocks.*1 /\ (width s <= w)%N) (snapshots (foldl emit_block st B))) as Hgen.
  { intros B. induction B as [|[i b] B IH]; intros st1 HB Hst; [done|]. cbn [foldl]. apply IH; [set_solver|].
    rewrite Forall_forall in Hb. pose proof (HB (i, b) ltac:(set_solver)) as Hin.
    destruct (Hb _ Hin) as (e & He & Hid & Hw). cbn in He, Hid. subst. cbn.
    apply (list_elem_of_fmap_2 fst) in Hin. by do 2 (apply map_Forall_insert_2; [done|]). }
  by apply Hgen.
Qed.

Lemma emitted_budget : exists estimate,
  estimate_schema_snapshot_bytes g cs (source_schema source) = Ok estimate /\
  (snapshot_bytes (snapshots st) <= estimate <= MAX_SCHEMA_SNAPSHOT_ESTIMATE_BYTES)%N.
Proof.
  pose proof (emitted_work _ _ _ _ _ _ _ _ HE) as Hwork. unfold check_compile_work in Hwork.
  do 4 (apply bind_Ok in Hwork as (? & _ & Hwork)). apply bind_Ok in Hwork as (u & Hest & _).
  apply bind_Ok in Hest as (estimate & Hest & Hmax). exists estimate. split; [done|].
  destruct (N.ltb_spec MAX_SCHEMA_SNAPSHOT_ESTIMATE_BYTES estimate) as [|Hle]; [done|]. split; [|done].
  unfold estimate_schema_snapshot_bytes in Hest. destruct emitted_source_width as [Hv Hw].
  set (w0 := match cs !! source_node_id g with Some _ => _ | None => _ end) in Hest, Hw.
  rewrite <- (widest_permutation _ _ emitted_path_configs) in Hest.
  pose proof (lower_path_width g cs _ Hatomic path s0 blocks (w0, 0%N) Hv ltac:(cbn; lia)
    (emitted_lowering _ _ _ _ _ _ _ _ HE)) as Hblocks.
  destruct (foldl widest _ _) as [m d]. cbn [fst snd] in Hblocks.
  apply bind_Ok in Hest as (fi & Hfi%ok_or_Ok & He%ok_or_Ok).
  apply checked_mul_Some in Hfi as [Hfi _]. apply checked_mul_Some in He as [He _]. subst fi estimate.
  apply emitted_snapshots in Hblocks. apply snapshot_bytes_le in Hblocks; [|apply HE].
  etransitivity; [exact Hblocks|]. rewrite (N.mul_comm _ SCHEMA_SNAPSHOT_FIELD_COST_BYTES). apply N.mul_le_mono_l.
  assert (len path = len (graph_nodes g)) as Hlen.
  { unfold len. rewrite (linear_nodes _ _ (emitted_path _ _ _ _ _ _ _ _ HE)). unfold ids. by rewrite length_fmap. }
  rewrite Hlen. apply N.mul_le_mono_r.
  assert (0 < len (graph_nodes g))%N as Hn.
  { rewrite <- Hlen. pose proof (linear_head _ _ (emitted_path _ _ _ _ _ _ _ _ HE)). by destruct path. }
  unfold saturating_add in *. unfold MAX_SCHEMA_SNAPSHOT_ESTIMATE_BYTES, SCHEMA_SNAPSHOT_FIELD_COST_BYTES in *.
  destruct (N.min_spec (m + d) usize_max) as [[? ->]|[? Heq]]; [lia|]. rewrite Heq in Hle. exfalso.
  unfold usize_max in *. nia.
Qed.
End budget.

(** ** Examples *)

#[local] Existing Instance example_serde.
(** A graph without composites. *)
Definition plain_graph : NodeGraph :=
  mkGraph 1 9%N 1%N 3%N
    [example_node 3%N "stillflow.node.output" [("outputLabel", JString "cleaned")];
     example_node 1%N "stillflow.node.source" [("sourceAssetId", JString "7")];
     example_node 2%N "stillflow.node.rename" [("column", JString "12"); ("to", JString "total")]]
    [example_hop 2%N 3%N; example_hop 1%N 2%N] ∅.
(** Does [p] hold of the result? *)
Definition ok_and {E A} (x : result E A) (p : A -> bool) : bool := match x with Ok a => p a | Err _ => false end.
Lemma ok_and_inv {E A} (x : result E A) p : ok_and x p = true -> exists a, x = Ok a /\ p a = true.
Proof. destruct x as [a|]; cbn; eauto. done. Qed.

(** A source of [n] text columns, and a chain of [k] composites over it. *)
Definition wide_field (i : nat) : LogicalField := mkField (11 + N.of_nat i)%N (pretty (N.of_nat i)) TUtf8 false ∅.
Definition wide_source (n : nat) : AuthorizedSourceContext := mkContext 7%N (mkSchema 1 (wide_field <$> seq 0 n) ∅).
Definition step_id (i : nat) : NodeId := N.shiftl (N.of_nat i) 16.
Definition composite_chain (k : nat) : NodeGraph :=
  mkGraph 1 9%N (step_id 1) (step_id (2 + k))
    (example_node (step_id 1) "stillflow.node.source" [("sourceAssetId", JString "7")]
     :: example_node (step_id (2 + k)) "stillflow.node.output" [("outputLabel", JString "cleaned")]
     :: ((fun i => example_node (step_id i) "stillflow.composite.trim-clean" [("column", JString "11")]) <$> seq 2 k))
    ((fun i => example_hop (step_id i) (step_id (S i))) <$> seq 1 (S k)) ∅.
Definition wide_compile (n k : nat) : Compile CompiledNodeGraph :=
  compile example_graph_bytes map_to_list example_plan_bytes deployed_registry (composite_chain k) (wide_source n) Execution.
Example plain_compiles : is_ok (example_compile plain_graph) = true.
Proof. vm_compute. reflexivity. Qed.
Example plain_composites :
  ok_and (validated_configs example_graph_bytes deployed_registry plain_graph) (fun cs => length (composites cs) =? 0) = true.
Proof. vm_compute. reflexivity. Qed.
Lemma composites_none cs : length (composites cs) =? 0 = true -> forall i, ~ is_composite cs i.
Proof.
  intros Hl%Nat.eqb_eq%nil_length_inv i [steps Hi]. apply (not_elem_of_nil (A := NodeId) i). rewrite <- Hl.
  by eapply elem_of_composites.
Qed.
Lemma plain_atomic cs : validated_configs example_graph_bytes deployed_registry plain_graph = Ok cs ->
  forall i, ~ is_composite cs i.
Proof.
  intros Hcs. apply composites_none. destruct (ok_and_inv _ _ plain_composites) as (cs' & Hcs' & Hl).
  rewrite Hcs in Hcs'. by injection Hcs' as ->.
Qed.

(** ** Claims *)

(** The snapshots stay within the charged budget.  When a graph without
    composite nodes compiles, the schemas recorded for its nodes, at the
    frozen price per field, cost no more than the estimate that was charged
    before the loop, which is at most the frozen maximum; in particular the
    saturating addition in the estimate has not saturated. *)
Theorem snapshots_within_budget `{Serde} (graph_to_vec : NodeGraph -> option (list N))
  (hash_iter : gmap PlanNodeId N -> list (PlanNodeId * N)) (plan_to_vec : LogicalPlan -> result string (list N))
  (r : NodeRegistry) (g : NodeGraph) (source : AuthorizedSourceContext) (target : CompileTarget)
  (c : CompiledNodeGraph) :
  registry_ok r -> (forall cs, validated_configs graph_to_vec r g = Ok cs -> forall i, ~ is_composite cs i) ->
  compile graph_to_vec hash_iter plan_to_vec r g source target = Ok c ->
  exists cs estimate, validated_configs graph_to_vec r g = Ok cs /\
    estimate_schema_snapshot_bytes g cs (source_schema source) = Ok estimate /\
    (snapshot_bytes (node_schemas c) <= estimate <= MAX_SCHEMA_SNAPSHOT_ESTIMATE_BYTES)%N.
Proof.
  intros Hr Hatomic (st & He & Hc)%bind_Ok.
  pose proof (compile_emit_inv _ _ _ _ _ _ He) as (cs' & _ & _ & _ & _ & Hcs & _).
  apply compile_emit_ok in He as (path & cs & s0 & blocks & HE & _); [|done].
  pose proof (Hatomic _ Hcs) as Ha. pose proof (emitted_unique r HE Hcs). subst cs'.
  destruct (emitted_budget r HE Ha) as (estimate & Hest & Hle). exists cs, estimate.
  split; [done|]. split; [done|].
  apply bind_Ok in Hc as (plan & _ & Hc). apply bind_Ok in Hc as (? & _ & Hc). apply bind_Ok in Hc as (? & _ & Hc).
  apply bind_Ok in Hc as (? & _ & [= <-]). exact Hle.
Qed.

Lemma snapshots_within_budget_witness : exists c cs estimate,
  example_compile plain_graph = Ok c /\
  estimate_schema_snapshot_bytes plain_graph cs (source_schema example_source) = Ok estimate /\
  (snapshot_bytes (node_schemas c) <= estimate <= MAX_SCHEMA_SNAPSHOT_ESTIMATE_BYTES)%N.
Proof.
  destruct (example_compile plain_graph) as [c|e] eqn:Hc.
  - unfold example_compile in Hc.
    pose proof (snapshots_within_budget example_graph_bytes map_to_list example_plan_bytes deployed_registry
      plain_graph example_source Execution c deployed_ok plain_atomic Hc) as Hb.
    destruct Hb as (cs & estimate & _ & Hest & Hle).
    exact (ex_intro _ c (ex_intro _ cs (ex_intro _ estimate (conj eq_refl (conj Hest Hle))))).
  - exfalso. pose proof plain_compiles as Hex. rewrite Hc in Hex. discriminate Hex.
Defined.

(** Composites escape the budget.  The estimate counts one schema per
    graph node although every step of a composite records one more, so a
    chain of 62 trim-clean composites over a source of 96 columns compiles
    with an estimate within the maximum while the schemas it records cost
    more than the maximum. *)
Theorem composite_snapshots_escape_budget : exists c cs estimate,
  wide_compile 96 62 = Ok c /\
  validated_configs example_graph_bytes deployed_registry (composite_chain 62) = Ok cs /\
  estimate_schema_snapshot_bytes (composite_chain 62) cs (source_schema (wide_source 96)) = Ok estimate /\
  (estimate <= MAX_SCHEMA_SNAPSHOT_ESTIMATE_BYTES < snapshot_bytes (node_schemas c))%N.
Proof.
  assert (ok_and (wide_compile 96 62)
    (fun c => (MAX_SCHEMA_SNAPSHOT_ESTIMATE_BYTES <? snapshot_bytes (node_schemas c))%N) = true) as Hwide
    by (vm_compute; reflexivity).
  assert (ok_and (cs ← map_err map_graph_error (validated_configs example_graph_bytes deployed_registry (composite_chain 62));
    estimate_schema_snapshot_bytes (composite_chain 62) cs (source_schema (wide_source 96)))
    (fun estimate => (estimate <=? MAX_SCHEMA_SNAPSHOT_ESTIMATE_BYTES)%N) = true) as Hest
    by (vm_compute; reflexivity).
  apply ok_and_inv in Hwide as (c & Hc & Hlt%N.ltb_lt).
  apply ok_and_inv in Hest as (estimate & (cs & Hcs%map_err_Ok & Hest)%bind_Ok & Hle%N.leb_le).
  exact (ex_intro _ c (ex_intro _ cs (ex_intro _ estimate (conj Hc (conj Hcs (conj Hest (conj Hle Hlt))))))).
Qed.
