(* ===== verification/Schedule.v ===== *)
(** * Automation schedules: [stillflow-core/src/automation.rs]

    An interval schedule repeats after a fixed UTC duration, a daily schedule
    at one wall-clock time per local calendar day.  Calendar and time-zone
    arithmetic belongs to chrono and chrono-tz and is the parameter [Chrono];
    what the code relies on is the class [ChronoLaws]. *)

From stdpp Require Import pretty.
From S2P Require Import Prelude Text.

(** ** Calendar arithmetic

    A [DateTime<Utc>] is its number of nanoseconds from the epoch, a
    [NaiveDate] its day number. *)

Definition DateTime := Z.
Definition NaiveDate := Z.

Inductive LocalResult :=
| LSingle (value : DateTime)
| LAmbiguous (earlier later : DateTime)
| LNone.

Class Chrono := {
  Tz : Type;
  NaiveTime : Type;
  tz_from_str : string -> option Tz;
  date_in : Tz -> DateTime -> NaiveDate;
  from_hms_opt : N -> N -> N -> option NaiveTime;
  from_local_datetime : Tz -> NaiveDate -> NaiveTime -> LocalResult;
  succ_opt : NaiveDate -> option NaiveDate;
  checked_add_seconds : DateTime -> Z -> option DateTime;
  to_rfc3339 : DateTime -> string;
}.

Definition NANOS : Z := 1000000000.

Class ChronoLaws `(Chrono) : Prop := {
  from_hms_range h m s : (h < 24)%N -> (m < 60)%N -> (s < 60)%N -> is_Some (from_hms_opt h m s);
  local_single tz date time v : from_local_datetime tz date time = LSingle v -> date_in tz v = date;
  local_earlier tz date time v w : from_local_datetime tz date time = LAmbiguous v w -> date_in tz v = date;
  succ_opt_Some date next : succ_opt date = Some next -> next = (date + 1)%Z;
  add_seconds_Some t s u : checked_add_seconds t s = Some u -> u = (t + s * NANOS)%Z;
  to_rfc3339_inj t u : to_rfc3339 t = to_rfc3339 u -> t = u;
}.

(** ** Schedules *)

Definition MAX_SCHEDULE_PERIOD_SECONDS : N := 366 * 24 * 60 * 60.
Definition MAX_TIMEZONE_NAME_BYTES : N := 64.
Definition MAX_DAILY_SEARCH_DAYS : nat := 370.
Definition i64_max : N := 2 ^ 63 - 1.

Inductive AutomationSchedule :=
| Interval (period_seconds : N)
| Daily (hour minute second : N).

Inductive AutomationScheduleError :=
| InvalidPeriod
| InvalidLocalTime
| InvalidTimezoneName
| InvalidTimezone
| SearchHorizonExceeded
| TimestampOverflow.
Notation Scheduled := (result AutomationScheduleError).

Definition validate_schedule (s : AutomationSchedule) : Scheduled unit :=
  match s with
  | Interval period => if ((1 <=? period) && (period <=? MAX_SCHEDULE_PERIOD_SECONDS))%N
                       then Ok tt else Err InvalidPeriod
  | Daily hour minute second => if ((hour <? 24) && (minute <? 60) && (second <? 60))%N
                                then Ok tt else Err InvalidLocalTime
  end.

Section schedule.
Context `{Chrono}.

Definition validate_timezone (timezone : string) : Scheduled Tz :=
  if (str_len timezone =? 0)%N || (MAX_TIMEZONE_NAME_BYTES <? str_len timezone)%N
  then Err InvalidTimezoneName
  else ok_or (tz_from_str timezone) InvalidTimezone.

(** The instant of a wall-clock time on a date, the earlier one when it
    happens twice. *)
Definition candidate_on (tz : Tz) (time : NaiveTime) (date : NaiveDate) : option DateTime :=
  match from_local_datetime tz date time with
  | LSingle value => Some value
  | LAmbiguous earlier _ => Some earlier
  | LNone => None
  end.

(** The [for] loop over the bounded horizon. *)
Fixpoint search_days (days : nat) (tz : Tz) (time : NaiveTime) (not_before : DateTime) (date : NaiveDate)
  : Scheduled DateTime :=
  match days with
  | 0 => Err SearchHorizonExceeded
  | S days =>
      let later := next ← ok_or (succ_opt date) TimestampOverflow; search_days days tz time not_before next in
      match candidate_on tz time date with
      | Some candidate => if (not_before <=? candidate)%Z then Ok candidate else later
      | None => later
      end
  end.

Definition search_daily_from (s : AutomationSchedule) (date : NaiveDate) (not_before : DateTime) (tz : Tz)
  : Scheduled DateTime :=
  match s with
  | Daily hour minute second =>
      time ← ok_or (from_hms_opt hour minute second) InvalidLocalTime;
      search_days MAX_DAILY_SEARCH_DAYS tz time not_before date
  | Interval _ => Err InvalidLocalTime
  end.

Definition first_at_or_after (s : AutomationSchedule) (start : DateTime) (timezone : string)
  : Scheduled DateTime :=
  try! validate_schedule s;
  tz ← validate_timezone timezone;
  match s with
  | Interval _ => Ok start
  | Daily _ _ _ => search_daily_from s (date_in tz start) start tz
  end.

Definition next_after (s : AutomationSchedule) (previous : DateTime) (timezone : string)
  : Scheduled DateTime :=
  try! validate_schedule s;
  tz ← validate_timezone timezone;
  match s with
  | Interval period =>
      seconds ← (if (period <=? i64_max)%N then Ok (Z.of_N period) else Err TimestampOverflow);
      ok_or (checked_add_seconds previous seconds) TimestampOverflow
  | Daily _ _ _ =>
      date ← ok_or (succ_opt (date_in tz previous)) TimestampOverflow;
      search_daily_from s date previous tz
  end.
End schedule.

(** ** What the search finds *)

(** [t] is the occurrence on the first day from [from] on that has one not
    before [not_before]. *)
Record FirstOccurrence `{Chrono} (tz : Tz) (time : NaiveTime) (not_before : DateTime) (from date : NaiveDate)
  (t : DateTime) : Prop := {
  occurrence_date : (from <= date)%Z;
  occurrence_at : candidate_on tz time date = Some t;
  occurrence_late : (not_before <= t)%Z;
  occurrence_first d u : (from <= d < date)%Z -> candidate_on tz time d = Some u -> (u < not_before)%Z;
}.

Section laws.
Context `{CH : Chrono} `{!ChronoLaws CH}.

Lemma candidate_date tz time date t : candidate_on tz time date = Some t -> date_in tz t = date.
Proof.
  unfold candidate_on. destruct (from_local_datetime _ _ _) eqn:Hl; intros [= <-];
    [by eapply local_single|by eapply local_earlier].
Qed.

Lemma search_days_Ok tz time not_before days : forall date t,
  search_days days tz time not_before date = Ok t ->
  exists d, (d < date + Z.of_nat days)%Z /\ FirstOccurrence tz time not_before date d t.
Proof.
  induction days as [|days IH]; intros date t; cbn [search_days]; [done|].
  assert (forall Hno : forall u, candidate_on tz time date = Some u -> (u < not_before)%Z,
    (next ← ok_or (succ_opt date) TimestampOverflow; search_days days tz time not_before next) = Ok t ->
    exists d, (d < date + Z.of_nat (S days))%Z /\ FirstOccurrence tz time not_before date d t) as Hlater.
  { intros Hno (next & Hnext%ok_or_Ok%succ_opt_Some & Hs)%bind_Ok.
    apply IH in Hs as (d & Hd & [Hfrom Hat Hlate Hfirst]). exists d. split; [lia|]. split; [lia|done|done|].
    intros d' u Hd' Hu. destruct (decide (d' = date)) as [->|]; [by apply Hno|]. apply (Hfirst d'); [lia|done]. }
  destruct (candidate_on tz time date) as [c|] eqn:Hc; [|by apply Hlater].
  destruct (Z.leb_spec not_before c) as [Hle|Hlt]; [|apply Hlater; by intros u [= <-]].
  intros [= <-]. exists date. split; [lia|]. split; [lia|done|done|]. lia.
Qed.

Lemma search_days_horizon tz time not_before days : forall date,
  search_days days tz time not_before date = Err SearchHorizonExceeded ->
  forall d u, (date <= d < date + Z.of_nat days)%Z -> candidate_on tz time d = Some u -> (u < not_before)%Z.
Proof.
  induction days as [|days IH]; intros date; cbn [search_days]; [lia|].
  assert (forall Hno : forall u, candidate_on tz time date = Some u -> (u < not_before)%Z,
    (next ← ok_or (succ_opt date) TimestampOverflow; search_days days tz time not_before next) =
      Err SearchHorizonExceeded ->
    forall d u, (date <= d < date + Z.of_nat (S days))%Z -> candidate_on tz time d = Some u -> (u < not_before)%Z)
    as Hlater.
  { intros Hno. destruct (succ_opt date) as [next|] eqn:Hnext; [|done]. cbn [ok_or mbind result_bind].
    intros Hs d u Hd Hu. destruct (decide (d = date)) as [->|]; [by apply Hno|].
    apply succ_opt_Some in Hnext. eapply IH; [exact Hs| |exact Hu]. lia. }
  destruct (candidate_on tz time date) as [c|] eqn:Hc; [|by apply Hlater].
  destruct (Z.leb_spec not_before c); [done|]. apply Hlater. by intros u [= <-].
Qed.

Lemma first_at_or_after_ge s start timezone t :
  first_at_or_after s start timezone = Ok t -> (start <= t)%Z.
Proof.
  unfold first_at_or_after. intros (_ & _ & (tz & _ & Hs)%bind_Ok)%bind_Ok.
  destruct s as [p|h m sec]; [injection Hs as <-; lia|]. unfold search_daily_from in Hs.
  apply bind_Ok in Hs as (time & _ & Hs). by apply search_days_Ok in Hs as (d & _ & [_ _ ? _]).
Qed.

Lemma validate_schedule_Ok s :
  validate_schedule s = Ok tt <->
  match s with
  | Interval p => (1 <= p <= MAX_SCHEDULE_PERIOD_SECONDS)%N
  | Daily h m sec => (h < 24 /\ m < 60 /\ sec < 60)%N
  end.
Proof.
  destruct s as [p|h m sec]; cbn.
  - destruct (N.leb_spec 1 p), (N.leb_spec p MAX_SCHEDULE_PERIOD_SECONDS); cbn; split; try done; lia.
  - destruct (N.ltb_spec h 24), (N.ltb_spec m 60), (N.ltb_spec sec 60); cbn; split; try done; lia.
Qed.

Lemma next_after_daily s previous timezone t :
  next_after s previous timezone = Ok t ->
  exists tz, validate_timezone timezone = Ok tz /\ (previous < t)%Z /\
    match s with
    | Interval period => t = (previous + Z.of_N period * NANOS)%Z
    | Daily h m sec => exists time date, from_hms_opt h m sec = Some time /\ date_in tz t = date /\
        FirstOccurrence tz time previous (date_in tz previous + 1)%Z date t
    end.
Proof.
  unfold next_after. intros ([] & Hv & (tz & Htz & Hs)%bind_Ok)%bind_Ok. exists tz. split; [done|].
  apply validate_schedule_Ok in Hv. destruct s as [p|h m sec].
  - destruct (p <=? i64_max)%N; [|done]. apply ok_or_Ok, add_seconds_Some in Hs as ->. unfold NANOS. split; [lia|done].
  - apply bind_Ok in Hs as (date & Hd%ok_or_Ok%succ_opt_Some & Hs). subst date. unfold search_daily_from in Hs.
    apply bind_Ok in Hs as (time & Ht%ok_or_Ok & Hs). apply search_days_Ok in Hs as (d & _ & HF).
    pose proof (candidate_date _ _ _ _ (occurrence_at _ _ _ _ _ _ HF)) as Hdate.
    pose proof (occurrence_date _ _ _ _ _ _ HF). pose proof (occurrence_late _ _ _ _ _ _ HF).
    split; [|by exists time, d]. assert (t <> previous) by (intros ->; lia). lia.
Qed.

Lemma next_after_later s previous timezone t : next_after s previous timezone = Ok t -> (previous < t)%Z.
Proof. by intros (tz & _ & Hlt & _)%next_after_daily. Qed.
End laws.

(** ** An example: a calendar with one zone *)

Definition DAY : Z := 86400 * NANOS.
Definition example_hms (h m s : N) : option Z :=
  if ((h <? 24) && (m <? 60) && (s <? 60))%N then Some (Z.of_N (h * 3600 + m * 60 + s) * NANOS)%Z else None.
#[local] Instance example_chrono : Chrono := {|
  Tz := unit;
  NaiveTime := { t : Z | (0 <=? t)%Z && (t <? DAY)%Z = true };
  tz_from_str name := if bool_decide (name = "UTC") then Some tt else None;
  date_in _ t := (t / DAY)%Z;
  from_hms_opt h m s :=
    match example_hms h m s with
    | Some t => match Sumbool.sumbool_of_bool ((0 <=? t)%Z && (t <? DAY)%Z) with
                | left Ht => Some (exist _ t Ht)
                | right _ => None
                end
    | None => None
    end;
  from_local_datetime _ date time := LSingle (date * DAY + proj1_sig time)%Z;
  succ_opt date := if (date <? 1000000)%Z then Some (date + 1)%Z else None;
  checked_add_seconds t s := if (t + s * NANOS <? 1000000 * DAY)%Z then Some (t + s * NANOS)%Z else None;
  to_rfc3339 t := pretty t;
|}.
#[local] Instance example_chrono_laws : ChronoLaws example_chrono.
Proof.
  split; cbn -[DAY NANOS example_hms].
  - intros h m s Hh Hm Hs. unfold example_hms.
    rewrite (proj2 (N.ltb_lt h 24)), (proj2 (N.ltb_lt m 60)), (proj2 (N.ltb_lt s 60)) by done. cbn [andb].
    destruct (Sumbool.sumbool_of_bool _) as [|Hf]; [eauto|]. exfalso. apply andb_false_iff in Hf.
    unfold DAY, NANOS in Hf. rewrite Z.leb_gt, Z.ltb_ge in Hf. lia.
  - intros _ date [t Ht] v [= <-]. cbn [proj1_sig]. apply andb_true_iff in Ht as [H0%Z.leb_le H1%Z.ltb_lt].
    symmetry. apply (Z.div_unique _ _ _ t); [lia|]. unfold DAY, NANOS in *. lia.
  - done.
  - intros date next. destruct (date <? 1000000)%Z; congruence.
  - intros t s u. destruct (_ <? _)%Z; congruence.
  - intros t u Heq. by apply (inj pretty).
Qed.

(** ** Claims *)

(** C9: the next run is exact.  When a schedule has a next run it is strictly
    later than the previous one: an interval later for an interval schedule;
    for a daily schedule the wall-clock time on the first local date after
    the previous one's on which it exists and does not lie before the
    previous run, so no day is served twice and a skipped local time moves to
    the next day.  The search gives up only when no day of its horizon
    qualifies. *)
Theorem next_after_exact `{CH : Chrono} (s : AutomationSchedule) (previous : DateTime) (timezone : string) :
  ChronoLaws CH ->
  (forall t, next_after s previous timezone = Ok t ->
    exists tz, validate_timezone timezone = Ok tz /\ (previous < t)%Z /\
    match s with
    | Interval period => t = (previous + Z.of_N period * NANOS)%Z
    | Daily h m sec => exists time date, from_hms_opt h m sec = Some time /\ date_in tz t = date /\
        FirstOccurrence tz time previous (date_in tz previous + 1)%Z date t
    end) /\
  (forall tz h m sec time, s = Daily h m sec -> validate_timezone timezone = Ok tz ->
    from_hms_opt h m sec = Some time -> next_after s previous timezone = Err SearchHorizonExceeded ->
    forall d u, (date_in tz previous + 1 <= d < date_in tz previous + 371)%Z ->
      candidate_on tz time d = Some u -> (u < previous)%Z).
Proof.
  intros Hlaws. split; [intros t; apply next_after_daily|].
  intros tz h m sec time -> Htz Htime. unfold next_after. rewrite Htz.
  destruct (validate_schedule _) as [[]|e] eqn:Hv; cbn [mbind result_bind].
  - unfold search_daily_from. rewrite Htime. cbn [ok_or].
    destruct (succ_opt _) as [date|] eqn:Hd; [|done]. cbn [ok_or mbind result_bind].
    apply succ_opt_Some in Hd as ->. intros Hs d u Hrange.
    eapply search_days_horizon; [exact Hs|]. unfold MAX_DAILY_SEARCH_DAYS. lia.
  - unfold validate_schedule in Hv. by destruct (_ && _); [|injection Hv as <-].
Qed.

Lemma next_after_exact_witness :
  next_after (Daily 9 30 0) (1 * DAY + 34200 * NANOS)%Z "UTC" = Ok (2 * DAY + 34200 * NANOS)%Z /\
  (1 * DAY + 34200 * NANOS < 2 * DAY + 34200 * NANOS)%Z.
Proof.
  assert (next_after (Daily 9 30 0) (1 * DAY + 34200 * NANOS)%Z "UTC" = Ok (2 * DAY + 34200 * NANOS)%Z) as Hn
    by (vm_compute; reflexivity).
  split; [exact Hn|].
  destruct (next_after_exact (Daily 9 30 0) (1 * DAY + 34200 * NANOS)%Z "UTC" _) as [Hok _].
  destruct (Hok _ Hn) as (tz & _ & Hlt & _). exact Hlt.
Defined.
