(* ===== verification/Automation.v ===== *)
(** * Durable automation state: [stillflow-storage/src/automation.rs]

    The rows of [aut_schedules] and the operations on them, with the update
    and delete operations of [automation_api.rs].  A schedule is due at its
    next run; a scheduler claims the due occurrence under a lease, submits a
    job and then acknowledges or fails the claim.  An expired claim may be
    claimed again, with the next attempt number.

    Every operation that writes is one immediate transaction, so it is one
    function of the store; an error leaves the store as it was.  Update and
    delete first read the schedule outside their transaction: the store they
    read is an argument of its own.  Rows hold typed values; the text of a
    column is written and read back by serde, chrono and uuid.  Failures of
    the database and the activity limits of the process are left out. *)

From S2P Require Import Prelude Text Secrets Logical Nodes Schedule.

Definition MAX_AUTOMATION_TEMPLATE_BYTES : N := 256 * 1024.
Definition MAX_AUTOMATION_SUBMISSION_ATTEMPTS : N := 8.
Definition DEFAULT_AUTOMATION_CLAIM_LEASE_SECONDS : N := 60.

(** The errors the operations of the store return, and the panic that ends
    one instead. *)
Inductive StorageError :=
| InvalidDraft (message : string)
| NotFound (id : Uuid)
| AlreadyExists (id : Uuid)
| Busy (message : string)
| InvalidTimestampOrder (message : string)
| ArithmeticOverflow (message : string)
| InvalidManifest (message : string)
| InvalidConfiguration (message : string)
| Serialization (message : string)
| Database (operation : string)
| IdentityNotFound
| IdentityAlreadyExists
| Identity (message : string)
| Panic (expression : string).
Notation Stored := (result StorageError).

Inductive AutomationScheduleState := SActive | SPaused | SFailed | SDeleted.
#[export] Instance AutomationScheduleState_eq_dec : EqDecision AutomationScheduleState.
Proof. solve_decision. Defined.

Record AutomationScheduleDraft := mkDraft {
  draft_id : Uuid;
  draft_workspace_id : Uuid;
  draft_schedule : AutomationSchedule;
  draft_timezone : string;
  draft_template : json;
  draft_first_run_at : DateTime;
  draft_max_submission_attempts : N;
  draft_created_at : DateTime;
}.

Record AutomationTriggerLease := mkLease {
  lease_occurrence_key : string;
  lease_claim_id : Uuid;
  lease_attempt : N;
  lease_expires_at : DateTime;
}.

Record AutomationScheduleRecord := mkSchedule {
  sched_id : Uuid;
  sched_workspace_id : Uuid;
  schedule : AutomationSchedule;
  timezone : string;
  template : json;
  state : AutomationScheduleState;
  first_run_at : DateTime;
  next_run_at : option DateTime;
  last_submitted_at : option DateTime;
  last_occurrence_key : option string;
  in_flight : option AutomationTriggerLease;
  max_submission_attempts : N;
  last_submission_attempt : N;
  revision : N;
  last_failure : option string;
  created_at : DateTime;
  updated_at : DateTime;
}.

Record AutomationTrigger := mkTrigger {
  trig_schedule_id : Uuid;
  trig_workspace_id : Uuid;
  trig_schedule : AutomationSchedule;
  trig_timezone : string;
  trig_template : json;
  occurrence_time : DateTime;
  occurrence_key : string;
  claim_id : Uuid;
  attempt : N;
  trig_max_attempts : N;
}.

(** The tables: the states of the workspaces and the schedules. *)
Record AutomationStore := mkStore {
  workspaces : gmap Uuid string;
  schedules : gmap Uuid AutomationScheduleRecord;
}.

(** ** Screens *)

Definition STORAGE_SECRET_MARKERS : list string :=
  ["password="; "token="; "api_key="; "secret="; "bearer "].
Definition contains_secret_marker (value : string) : bool := names_secret STORAGE_SECRET_MARKERS value.

Definition FORBIDDEN_FIELDS : list string :=
  ["password"; "secret"; "token"; "api_key"; "apikey"; "access_key"; "connection_string";
   "raw_row"; "raw_data"; "preview_batch"; "backtrace"; "stack_trace"].
Definition RAW_FIELDS : list string := ["rows"; "records"; "cells"; "values"].

Fixpoint validate_safe_json (event_payload : bool) (value : json) : Stored unit :=
  match value with
  | JObject map =>
      (fix go (entries : list (string * json)) : Stored unit :=
         match entries with
         | [] => Ok tt
         | (key, child) :: entries =>
             if names_secret FORBIDDEN_FIELDS key
             then Err (InvalidDraft "secret or raw payload field is not persistable") else
             if event_payload && existsb (fun needle =>
                  bool_decide (to_ascii_lowercase (bytes_of key) = bytes_of needle)) RAW_FIELDS
             then Err (InvalidDraft "raw dataset values are not event metadata") else
             try! validate_safe_json event_payload child; go entries
         end) map
  | JArray items =>
      (fix go (items : list json) : Stored unit :=
         match items with
         | [] => Ok tt
         | child :: items => try! validate_safe_json event_payload child; go items
         end) items
  | JString text => if contains_secret_marker text
                    then Err (InvalidDraft "secret-like string is not persistable") else Ok tt
  | _ => Ok tt
  end.

Definition validate_id (id : Uuid) (label : string) : Stored unit :=
  if is_nil id then Err (InvalidDraft label) else Ok tt.
Definition later (left right : DateTime) : DateTime := Z.max left right.

(** ** Rows *)

(** The [CHECK] constraints of the table. *)
Definition row_check (r : AutomationScheduleRecord) : bool :=
  ((0 <? str_len (timezone r)) &&
   match in_flight r with Some lease => (1 <=? lease_attempt lease) && (lease_attempt lease <=? 8) | None => true end &&
   (1 <=? max_submission_attempts r) && (max_submission_attempts r <=? 8) &&
   (last_submission_attempt r <=? 8) && (0 <? revision r))%N.

Definition put_row (s : AutomationStore) (id : Uuid) (r : AutomationScheduleRecord) : AutomationStore :=
  mkStore (workspaces s) (<[id := r]> (schedules s)).

(** [UPDATE aut_schedules SET .. WHERE id AND revision AND state IN ..]
    and the test that one row changed. *)
Definition update_row (s : AutomationStore) (id : Uuid) (expected : N) (states : list AutomationScheduleState)
  (set : AutomationScheduleRecord -> AutomationScheduleRecord) (operation busy : string) : Stored AutomationStore :=
  match schedules s !! id with
  | Some row =>
      if (revision row =? expected)%N && bool_decide (state row ∈ states)
      then if row_check (set row) then Ok (put_row s id (set row)) else Err (Database operation)
      else Err (Busy busy)
  | None => Err (Busy busy)
  end.
Definition any_state : list AutomationScheduleState := [SActive; SPaused; SFailed; SDeleted].

Section store.
Context `{Chrono} `{Serde}.
(** [serde_json::to_string] of a schedule. *)
Context (schedule_to_string : AutomationSchedule -> option string).

Definition read_schedule (s : AutomationStore) (id : Uuid) : Stored AutomationScheduleRecord :=
  row ← ok_or (schedules s !! id) (NotFound id);
  try! map_err (fun _ => Serialization "invalid persisted automation schedule") (validate_schedule (schedule row));
  try! map_err (fun _ => Serialization "invalid persisted automation timezone") (validate_timezone (timezone row));
  try! validate_safe_json false (template row);
  Ok row.

Definition get_automation_schedule (s : AutomationStore) (id : Uuid) : Stored AutomationScheduleRecord :=
  try! validate_id id "automation schedule"; read_schedule s id.

Definition ensure_workspace_active (s : AutomationStore) (workspace : Uuid) : Stored unit :=
  match workspaces s !! workspace with
  | Some text => if bool_decide (text = "active") then Ok tt
                 else Err (Busy "automation workspace is not active")
  | None => Err (NotFound workspace)
  end.

Definition revision_i64 (revision : N) (label : string) : Stored N :=
  if (revision <=? i64_max)%N then Ok revision else Err (ArithmeticOverflow label).

Definition validate_template (value : json) : Stored unit :=
  try! validate_safe_json false value;
  bytes ← ok_or (value_to_vec value) (Serialization "serialize automation template");
  if (MAX_AUTOMATION_TEMPLATE_BYTES <? len bytes)%N
  then Err (InvalidDraft "automation template exceeds its byte bound") else Ok tt.

(** ** Operations *)

Definition create_automation_schedule (s : AutomationStore) (draft : AutomationScheduleDraft)
  : Stored (AutomationStore * AutomationScheduleRecord) :=
  try! validate_id (draft_id draft) "automation schedule";
  try! validate_id (draft_workspace_id draft) "automation workspace";
  try! map_err (fun _ => InvalidDraft "automation schedule is invalid") (validate_schedule (draft_schedule draft));
  try! map_err (fun _ => InvalidDraft "automation timezone is invalid") (validate_timezone (draft_timezone draft));
  if negb ((1 <=? draft_max_submission_attempts draft)
           && (draft_max_submission_attempts draft <=? MAX_AUTOMATION_SUBMISSION_ATTEMPTS))%N
  then Err (InvalidDraft "automation submission retry bound is invalid") else
  try! validate_template (draft_template draft);
  if (draft_first_run_at draft <? draft_created_at draft)%Z
  then Err (InvalidTimestampOrder "automation creation and first run") else
  next ← map_err (fun _ => InvalidDraft "automation first run is invalid")
    (first_at_or_after (draft_schedule draft) (draft_first_run_at draft) (draft_timezone draft));
  try! ok_or (schedule_to_string (draft_schedule draft)) (Serialization "serialize automation schedule");
  try! ensure_workspace_active s (draft_workspace_id draft);
  let row := mkSchedule (draft_id draft) (draft_workspace_id draft) (draft_schedule draft) (draft_timezone draft)
    (draft_template draft) SActive (draft_first_run_at draft) (Some next) None None None
    (draft_max_submission_attempts draft) 0 1 None (draft_created_at draft) (draft_created_at draft) in
  if bool_decide (is_Some (schedules s !! draft_id draft)) || negb (row_check row)
  then Err (AlreadyExists (draft_id draft)) else
  let s := put_row s (draft_id draft) row in
  record ← read_schedule s (draft_id draft);
  Ok (s, record).

(** The due schedules of a workspace, earliest first. *)
Definition due_le (a b : DateTime * Uuid) : Prop := (a.1 < b.1)%Z \/ (a.1 = b.1 /\ (a.2 <= b.2)%N).
#[export] Instance due_le_dec : RelDecision due_le.
Proof. intros a b. unfold due_le. apply _. Defined.
Definition due_entry (workspace : Uuid) (now : DateTime) (entry : Uuid * AutomationScheduleRecord)
  : option (DateTime * Uuid) :=
  let row := entry.2 in
  if (sched_workspace_id row =? workspace)%N && bool_decide (state row = SActive)
  then match next_run_at row with
       | Some next => if (next <=? now)%Z then Some (next, entry.1) else None
       | None => None
       end
  else None.
Definition list_due_automation_schedule_ids (s : AutomationStore) (workspace : Uuid) (now : DateTime) (limit : N)
  : Stored (list Uuid) :=
  if is_nil workspace || (limit =? 0)%N || (1024 <? limit)%N
  then Err (InvalidDraft "automation due-list bound is invalid") else
  Ok (take (N.to_nat limit) (merge_sort due_le (omap (due_entry workspace now) (map_to_list (schedules s)))).*2).

Definition checked_u8_succ (n : N) : option N := if (n <? 255)%N then Some (n + 1)%N else None.

(** The occurrence and the attempt number of a claim; [None] while another
    claim holds the lease. *)
Definition claim_attempt (row : AutomationScheduleRecord) (now : DateTime) : Stored (option N) :=
  match in_flight row with
  | Some lease =>
      if (now <? lease_expires_at lease)%Z then Ok None
      else Some <$> ok_or (checked_u8_succ (lease_attempt lease)) (ArithmeticOverflow "automation attempt")
  | None => Some <$> ok_or (checked_u8_succ (last_submission_attempt row)) (ArithmeticOverflow "automation attempt")
  end.

Definition set_claim (lease : AutomationTriggerLease) (at_ : DateTime) (r : AutomationScheduleRecord)
  : AutomationScheduleRecord :=
  mkSchedule (sched_id r) (sched_workspace_id r) (schedule r) (timezone r) (template r) (state r) (first_run_at r)
    (next_run_at r) (last_submitted_at r) (last_occurrence_key r) (Some lease) (max_submission_attempts r)
    (last_submission_attempt r) (revision r + 1) (last_failure r) (created_at r) at_.

Definition claim_due_automation_schedule (s : AutomationStore) (id : Uuid) (now : DateTime) (claim : Uuid)
  (lease_seconds : N) : Stored (AutomationStore * option AutomationTrigger) :=
  try! validate_id id "automation schedule";
  try! validate_id claim "automation claim";
  if (lease_seconds =? 0)%N || (3600 <? lease_seconds)%N
  then Err (InvalidDraft "automation claim lease is outside its bound") else
  expires ← ok_or (checked_add_seconds now (Z.of_N lease_seconds)) (ArithmeticOverflow "automation claim lease");
  record ← read_schedule s id;
  match next_run_at record with
  | Some occurrence =>
      if negb (bool_decide (state record = SActive)) || (now <? occurrence)%Z then Ok (s, None) else
      granted ← claim_attempt record now;
      match granted with
      | None => Ok (s, None)
      | Some attempt =>
          if (max_submission_attempts record <? attempt)%N
          then Err (Busy "automation submission attempts are exhausted") else
          let key := to_rfc3339 occurrence in
          expected ← revision_i64 (revision record) "automation schedule revision";
          s ← update_row s id expected [SActive]
            (set_claim (mkLease key claim attempt expires) (later now (updated_at record)))
            "claim automation schedule" "automation schedule changed while claiming";
          Ok (s, Some (mkTrigger id (sched_workspace_id record) (schedule record) (timezone record)
                         (template record) occurrence key claim attempt (max_submission_attempts record)))
      end
  | None => Ok (s, None)
  end.

Definition ensure_matching_claim (record : AutomationScheduleRecord) (trigger : AutomationTrigger) : Stored unit :=
  match in_flight record with
  | None => Err (Busy "automation trigger is no longer in flight")
  | Some claim =>
      if negb (sched_id record =? trig_schedule_id trigger)%N
         || negb (sched_workspace_id record =? trig_workspace_id trigger)%N
         || negb (lease_claim_id claim =? claim_id trigger)%N
         || negb (bool_decide (lease_occurrence_key claim = occurrence_key trigger))
         || negb (lease_attempt claim =? attempt trigger)%N
      then Err (Busy "automation trigger claim does not match") else Ok tt
  end.

Definition set_acknowledged (next submitted : DateTime) (key : string) (at_ : DateTime)
  (r : AutomationScheduleRecord) : AutomationScheduleRecord :=
  mkSchedule (sched_id r) (sched_workspace_id r) (schedule r) (timezone r) (template r) (state r) (first_run_at r)
    (Some next) (Some submitted) (Some key) None (max_submission_attempts r)
    0 (revision r + 1) None (created_at r) at_.

Definition acknowledge_automation_trigger (s : AutomationStore) (trigger : AutomationTrigger)
  (next submitted : DateTime) : Stored (AutomationStore * AutomationScheduleRecord) :=
  expected_next ← map_err (fun _ => InvalidDraft "automation next run is invalid")
    (next_after (trig_schedule trigger) (occurrence_time trigger) (trig_timezone trigger));
  if negb (next =? expected_next)%Z || (next <=? occurrence_time trigger)%Z
  then Err (InvalidDraft "automation next run does not match its schedule") else
  record ← read_schedule s (trig_schedule_id trigger);
  try! ensure_matching_claim record trigger;
  expected ← revision_i64 (revision record) "automation schedule revision";
  s ← update_row s (trig_schedule_id trigger) expected any_state
    (set_acknowledged next submitted (occurrence_key trigger) (later submitted (updated_at record)))
    "acknowledge automation trigger" "automation schedule changed while acknowledging";
  updated ← read_schedule s (trig_schedule_id trigger);
  Ok (s, updated).

Definition set_failed (terminal : bool) (failure : string) (attempt : N) (at_ : DateTime)
  (r : AutomationScheduleRecord) : AutomationScheduleRecord :=
  mkSchedule (sched_id r) (sched_workspace_id r) (schedule r) (timezone r) (template r)
    (if terminal then SFailed else state r) (first_run_at r)
    (if bool_decide ((if terminal then SFailed else state r) = SFailed) then None else next_run_at r)
    (last_submitted_at r) (last_occurrence_key r) None (max_submission_attempts r)
    attempt (revision r + 1) (Some failure) (created_at r) at_.

Definition fail_automation_trigger (s : AutomationStore) (trigger : AutomationTrigger) (failure : string)
  (failed_at : DateTime) : Stored (AutomationStore * AutomationScheduleRecord) :=
  if (str_len failure =? 0)%N || (1024 <? str_len failure)%N || contains_secret_marker failure
  then Err (InvalidDraft "automation failure is not safe to persist") else
  record ← read_schedule s (trig_schedule_id trigger);
  try! ensure_matching_claim record trigger;
  let terminal := (trig_max_attempts trigger <=? attempt trigger)%N in
  expected ← revision_i64 (revision record) "automation schedule revision";
  s ← update_row s (trig_schedule_id trigger) expected any_state
    (set_failed terminal failure (attempt trigger) (later failed_at (updated_at record)))
    "fail automation trigger" "automation schedule changed while failing";
  updated ← read_schedule s (trig_schedule_id trigger);
  Ok (s, updated).

Definition set_state (target : AutomationScheduleState) (at_ : DateTime) (r : AutomationScheduleRecord)
  : AutomationScheduleRecord :=
  mkSchedule (sched_id r) (sched_workspace_id r) (schedule r) (timezone r) (template r) target (first_run_at r)
    (next_run_at r) (last_submitted_at r) (last_occurrence_key r) (in_flight r) (max_submission_attempts r)
    (last_submission_attempt r) (revision r + 1) (last_failure r) (created_at r) at_.
Definition live (st : AutomationScheduleState) : bool := bool_decide (st ∈ [SActive; SPaused]).

Definition set_automation_schedule_state (s : AutomationStore) (id : Uuid) (expected_revision : N)
  (target : AutomationScheduleState) (changed_at : DateTime)
  : Stored (AutomationStore * AutomationScheduleRecord) :=
  try! validate_id id "automation schedule";
  if negb (live target)
  then Err (InvalidDraft "AUT-J1 only supports pause and resume state changes") else
  record ← read_schedule s id;
  if negb (live (state record)) then Err (Busy "automation schedule is terminal") else
  expected ← revision_i64 expected_revision "automation schedule revision";
  s ← update_row s id expected [SActive; SPaused] (set_state target (later changed_at (updated_at record)))
    "set automation schedule state" "automation schedule revision is stale";
  updated ← read_schedule s id;
  Ok (s, updated).

Definition set_definition (sch : AutomationSchedule) (tz : string) (value : json) (next at_ : DateTime)
  (r : AutomationScheduleRecord) : AutomationScheduleRecord :=
  mkSchedule (sched_id r) (sched_workspace_id r) sch tz value (state r) (first_run_at r)
    (Some next) (last_submitted_at r) (last_occurrence_key r) (in_flight r) (max_submission_attempts r)
    (last_submission_attempt r) (revision r + 1) (last_failure r) (created_at r) at_.

(** [before] is the store when the current row was read. *)
Definition update_automation_schedule (before s : AutomationStore) (id : Uuid) (expected_revision : N)
  (sch : AutomationSchedule) (tz : string) (value : json) (changed_at : DateTime)
  : Stored (AutomationStore * AutomationScheduleRecord) :=
  try! map_err (fun _ => InvalidDraft "automation schedule is invalid") (validate_schedule sch);
  try! map_err (fun _ => InvalidDraft "automation timezone is invalid") (validate_timezone tz);
  try! validate_template value;
  current ← get_automation_schedule before id;
  if negb (live (state current)) then Err (Busy "automation schedule is terminal") else
  if negb (revision current =? expected_revision)%N then Err (Busy "automation schedule revision is stale") else
  let effective := later changed_at (updated_at current) in
  next ← map_err (fun _ => InvalidDraft "automation next run is invalid") (first_at_or_after sch effective tz);
  try! ok_or (schedule_to_string sch) (Serialization "serialize automation schedule");
  expected ← revision_i64 expected_revision "automation revision";
  s ← update_row s id expected [SActive; SPaused] (set_definition sch tz value next effective)
    "update automation schedule" "automation schedule changed while updating";
  updated ← get_automation_schedule s id;
  Ok (s, updated).

Definition set_deleted (at_ : DateTime) (r : AutomationScheduleRecord) : AutomationScheduleRecord :=
  mkSchedule (sched_id r) (sched_workspace_id r) (schedule r) (timezone r) (template r) SDeleted (first_run_at r)
    None (last_submitted_at r) (last_occurrence_key r) (in_flight r) (max_submission_attempts r)
    (last_submission_attempt r) (revision r + 1) (last_failure r) (created_at r) at_.

Definition delete_automation_schedule (before s : AutomationStore) (id : Uuid) (expected_revision : N)
  (deleted_at : DateTime) : Stored (AutomationStore * AutomationScheduleRecord) :=
  current ← get_automation_schedule before id;
  if bool_decide (is_Some (in_flight current)) then Err (Busy "automation schedule has an in-flight trigger") else
  if negb (revision current =? expected_revision)%N then Err (Busy "automation schedule revision is stale") else
  expected ← revision_i64 expected_revision "automation revision";
  s ← update_row s id expected [SActive; SPaused; SFailed] (set_deleted (later deleted_at (updated_at current)))
    "delete automation schedule" "automation schedule changed while deleting";
  updated ← get_automation_schedule s id;
  Ok (s, updated).
End store.
