(* ===== verification/Keyset.v ===== *)
(** * Keyset pages

    A page of a listing is what follows the sort key of the last row of the
    page before it, up to a limit; the pages put together are the listing. *)

From S2P Require Import Prelude Text Secrets Logical Nodes Schedule Automation.

Section keyset.
Context {A : Type} `{EqDecision A} (le : relation A) `{!RelDecision le} `{!Total le} `{!Transitive le} `{!AntiSymm (=) le}.

Lemma list_filter_all (P : A -> Prop) `{!forall x, Decision (P x)} (l : list A) : (forall x, x ∈ l -> P x) -> filter P l = l.
Proof.
  induction l as [|x l IH]; intros Hl; [done|]. rewrite filter_cons_True by (apply Hl; by left).
  f_equal. apply IH. intros y Hy. apply Hl. by right.
Qed.

(** What a page may hold: everything, or what comes after the cursor. *)
Definition after (cursor : option A) (x : A) : Prop :=
  match cursor with None => True | Some c => le c x /\ c <> x end.
#[global] Instance after_dec cursor x : Decision (after cursor x).
Proof. destruct cursor; apply _. Defined.
(** [SELECT .. WHERE key > cursor ORDER BY key LIMIT limit] *)
Definition key_page (cursor : option A) (limit : nat) (l : list A) : list A :=
  take limit (merge_sort le (filter (after cursor) l)).

Lemma filter_after_prefix l1 c l2 :
  StronglySorted le (l1 ++ c :: l2) -> NoDup (l1 ++ c :: l2) -> filter (after (Some c)) (l1 ++ c :: l2) = l2.
Proof.
  intros Hs Hnd. rewrite filter_app, filter_cons_False; [|by intros [_ []]].
  apply NoDup_app in Hnd as (_ & _ & [Hc _]%NoDup_cons).
  replace (filter (after (Some c)) l1) with (@nil A).
  - apply list_filter_all. intros x Hx. split; [|by intros ->].
    apply StronglySorted_app_1_r, StronglySorted_cons in Hs as [Hs _]. rewrite Forall_forall in Hs. by apply Hs.
  - symmetry. apply elem_of_nil_inv. intros x [[Hle Hne] Hx]%list_elem_of_filter. apply Hne. apply (anti_symm le); [done|].
    eapply StronglySorted_app_1_elem_of; [exact Hs|done|by left].
Qed.

Lemma StronglySorted_filter (P : A -> Prop) `{!forall x, Decision (P x)} l : StronglySorted le l -> StronglySorted le (filter P l).
Proof.
  induction 1 as [|x l _ IH Hx]; [constructor|]. rewrite filter_cons. destruct (decide (P x)); [|done].
  apply StronglySorted_cons. split; [|done]. rewrite Forall_forall in Hx |- *. intros y [_ Hy]%list_elem_of_filter. by apply Hx.
Qed.

(** Filtering commutes with sorting. *)
Lemma key_page_sorted cursor limit l : key_page cursor limit l = take limit (filter (after cursor) (merge_sort le l)).
Proof.
  unfold key_page. f_equal. apply (StronglySorted_unique le).
  - by apply StronglySorted_merge_sort.
  - by apply StronglySorted_filter, StronglySorted_merge_sort.
  - by rewrite !merge_sort_Permutation.
Qed.

Lemma key_page_first limit l : key_page None limit l = take limit (merge_sort le l).
Proof. rewrite key_page_sorted. f_equal. by apply list_filter_all. Qed.

(** The page after the last key of a prefix is what comes next. *)
Lemma key_page_next limit l seen c rest :
  NoDup l -> merge_sort le l = seen ++ c :: rest -> key_page (Some c) limit l = take limit rest.
Proof.
  intros Hnd Hl. rewrite key_page_sorted, Hl. f_equal. apply filter_after_prefix; rewrite <- Hl.
  - by apply StronglySorted_merge_sort.
  - by rewrite merge_sort_Permutation.
Qed.
End keyset.

(** ** Newest first *)

(** Sort keys: a time or a number, and the identity. *)
Definition SortKey : Type := DateTime * Uuid.
Definition newer_le (a b : SortKey) : Prop := due_le b a.
#[export] Instance newer_le_dec : RelDecision newer_le.
Proof. intros a b. unfold newer_le. apply _. Defined.

#[export] Instance newer_le_total : Total newer_le.
Proof. intros [a i] [b j]. unfold newer_le, due_le. cbn. lia. Qed.
#[export] Instance newer_le_trans : Transitive newer_le.
Proof. intros [a i] [b j] [c k]. unfold newer_le, due_le. cbn. lia. Qed.
#[export] Instance newer_le_antisymm : AntiSymm (=) newer_le.
Proof. intros [a i] [b j]. unfold newer_le, due_le. cbn. intros ? ?. f_equal; lia. Qed.
