(* ===== verification/Triggers.v ===== *)
(** * Runs of the automation store

    The operations of [Automation] as a state machine: several schedulers
    claim, acknowledge and fail triggers while users create, edit, pause and
    delete schedules.  [RowStep] is the life of one schedule, and every
    operation refines it. *)

From S2P Require Import Prelude Text Secrets Logical Nodes Schedule Automation.

(** ** Operations and runs *)

Inductive AutomationOp :=
| OpCreate (draft : AutomationScheduleDraft)
| OpClaim (id : Uuid) (now : DateTime) (claim : Uuid) (lease_seconds : N)
| OpAck (trigger : AutomationTrigger) (next submitted : DateTime)
| OpFail (trigger : AutomationTrigger) (failure : string) (failed_at : DateTime)
| OpSetState (id : Uuid) (expected : N) (target : AutomationScheduleState) (changed_at : DateTime)
| OpUpdate (before : AutomationStore) (id : Uuid) (expected : N) (sch : AutomationSchedule) (tz : string)
    (value : json) (changed_at : DateTime)
| OpDelete (before : AutomationStore) (id : Uuid) (expected : N) (deleted_at : DateTime)
| OpWorkspaces (states : gmap Uuid string).

(** The schedule an operation is about. *)
Definition op_target (o : AutomationOp) : option Uuid :=
  match o with
  | OpCreate draft => Some (draft_id draft)
  | OpClaim id _ _ _ | OpSetState id _ _ _ | OpUpdate _ id _ _ _ _ _ | OpDelete _ id _ _ => Some id
  | OpAck trigger _ _ | OpFail trigger _ _ => Some (trig_schedule_id trigger)
  | OpWorkspaces _ => None
  end.

Section runs.
Context `{CH : Chrono} `{Serde} (schedule_to_string : AutomationSchedule -> option string).

Definition without_trigger (x : Stored (AutomationStore * AutomationScheduleRecord))
  : Stored (AutomationStore * option AutomationTrigger) := (fun p => (p.1, None)) <$> x.

(** The new store, and the trigger a claim hands out. *)
Definition apply (o : AutomationOp) (s : AutomationStore) : Stored (AutomationStore * option AutomationTrigger) :=
  match o with
  | OpCreate draft => without_trigger (create_automation_schedule schedule_to_string s draft)
  | OpClaim id now claim secs => claim_due_automation_schedule s id now claim secs
  | OpAck trigger next submitted => without_trigger (acknowledge_automation_trigger s trigger next submitted)
  | OpFail trigger failure at_ => without_trigger (fail_automation_trigger s trigger failure at_)
  | OpSetState id expected target at_ => without_trigger (set_automation_schedule_state s id expected target at_)
  | OpUpdate before id expected sch tz value at_ =>
      without_trigger (update_automation_schedule schedule_to_string before s id expected sch tz value at_)
  | OpDelete before id expected at_ => without_trigger (delete_automation_schedule before s id expected at_)
  | OpWorkspaces states => Ok (mkStore states (schedules s), None)
  end.

(** ** The life of one schedule *)

Inductive RowStep : AutomationOp -> AutomationScheduleRecord -> AutomationScheduleRecord ->
  option AutomationTrigger -> Prop :=
| row_claim id row now c secs expires occ att :
    checked_add_seconds now (Z.of_N secs) = Some expires -> state row = SActive ->
    next_run_at row = Some occ -> (occ <= now)%Z -> claim_attempt row now = Ok (Some att) ->
    (att <= max_submission_attempts row)%N ->
    RowStep (OpClaim id now c secs) row
      (set_claim (mkLease (to_rfc3339 occ) c att expires) (later now (updated_at row)) row)
      (Some (mkTrigger id (sched_workspace_id row) (schedule row) (timezone row) (template row) occ
               (to_rfc3339 occ) c att (max_submission_attempts row)))
| row_ack row t next submitted :
    ensure_matching_claim row t = Ok tt ->
    next_after (trig_schedule t) (occurrence_time t) (trig_timezone t) = Ok next ->
    RowStep (OpAck t next submitted) row
      (set_acknowledged next submitted (occurrence_key t) (later submitted (updated_at row)) row) None
| row_fail row t failure at_ :
    ensure_matching_claim row t = Ok tt ->
    RowStep (OpFail t failure at_) row
      (set_failed (trig_max_attempts t <=? attempt t)%N failure (attempt t) (later at_ (updated_at row)) row) None
| row_state id row target at_ :
    live target = true -> live (state row) = true ->
    RowStep (OpSetState id (revision row) target at_) row (set_state target (later at_ (updated_at row)) row) None
| row_update before id row current sch tz value at_ next :
    live (state row) = true -> validate_schedule sch = Ok tt -> is_ok (validate_timezone tz) = true ->
    validate_safe_json false value = Ok tt ->
    schedules before !! id = Some current -> revision current = revision row ->
    first_at_or_after sch (later at_ (updated_at current)) tz = Ok next ->
    RowStep (OpUpdate before id (revision row) sch tz value at_) row
      (set_definition sch tz value next (later at_ (updated_at current)) row) None
| row_delete before id row current at_ :
    schedules before !! id = Some current -> in_flight current = None -> revision current = revision row ->
    RowStep (OpDelete before id (revision row) at_) row (set_deleted (later at_ (updated_at current)) row) None.

(** The operations that may leave every schedule alone. *)
Definition may_idle (o : AutomationOp) : Prop :=
  match o with OpClaim _ _ _ _ | OpWorkspaces _ => True | _ => False end.

(** What an operation that succeeds does to the tables. *)
Inductive Effect (s : AutomationStore) : AutomationOp -> AutomationStore -> option AutomationTrigger -> Prop :=
| effect_idle o s' : may_idle o -> schedules s' = schedules s -> Effect s o s' None
| effect_create draft next :
    schedules s !! draft_id draft = None -> validate_schedule (draft_schedule draft) = Ok tt ->
    is_ok (validate_timezone (draft_timezone draft)) = true -> validate_safe_json false (draft_template draft) = Ok tt ->
    (1 <= draft_max_submission_attempts draft <= 8)%N ->
    first_at_or_after (draft_schedule draft) (draft_first_run_at draft) (draft_timezone draft) = Ok next ->
    Effect s (OpCreate draft) (put_row s (draft_id draft)
      (mkSchedule (draft_id draft) (draft_workspace_id draft) (draft_schedule draft) (draft_timezone draft)
         (draft_template draft) SActive (draft_first_run_at draft) (Some next) None None None
         (draft_max_submission_attempts draft) 0 1 None (draft_created_at draft) (draft_created_at draft))) None
| effect_row o id row row' g :
    op_target o = Some id -> schedules s !! id = Some row -> RowStep o row row' g ->
    Effect s o (put_row s id row') g.

Lemma update_row_Ok s id expected states set operation busy s' :
  update_row s id expected states set operation busy = Ok s' ->
  exists row, schedules s !! id = Some row /\ revision row = expected /\ state row ∈ states /\
    s' = put_row s id (set row).
Proof.
  unfold update_row. destruct (schedules s !! id) as [row|]; [|done].
  destruct (N.eqb_spec (revision row) expected) as [Hr|]; [|done]. cbn [andb].
  case_bool_decide; [|done]. destruct (row_check _); [|done]. intros [= <-]. by exists row.
Qed.

Lemma read_schedule_Ok s id row : read_schedule s id = Ok row -> schedules s !! id = Some row.
Proof.
  intros (r & Hr%ok_or_Ok & Hx)%bind_Ok. apply bind_Ok in Hx as (_ & _ & Hx). apply bind_Ok in Hx as (? & _ & Hx).
  by apply bind_Ok in Hx as (_ & _ & [= <-]).
Qed.

Lemma without_trigger_Ok x s g : without_trigger x = Ok (s, g) -> exists r, x = Ok (s, r) /\ g = None.
Proof. unfold without_trigger. destruct x as [[s' r]|]; cbn; [|done]. intros [= <- <-]. eauto. Qed.

Lemma is_ok_Ok {E A} (x : result E A) a : x = Ok a -> is_ok x = true.
Proof. by intros ->. Qed.

(** Peel the next statement of an operation, or a guard that has passed. *)
Ltac next_stmt H := let x := fresh "x" in let Hx := fresh "Hx" in apply bind_Ok in H as (x & Hx & H).
Ltac guard_passed H := match type of H with (if ?b then _ else _) = Ok _ => destruct b eqn:?; [discriminate H|] end.

Lemma get_schedule_Ok s id row : get_automation_schedule s id = Ok row -> schedules s !! id = Some row.
Proof. intros (_ & _ & Hr)%bind_Ok. by apply read_schedule_Ok. Qed.
Lemma revision_i64_Ok r label n : revision_i64 r label = Ok n -> n = r.
Proof. unfold revision_i64. destruct (_ <=? _)%N; congruence. Qed.
Lemma validate_template_Ok value : validate_template value = Ok tt -> validate_safe_json false value = Ok tt.
Proof. by intros ([] & Hv & _)%bind_Ok. Qed.

Lemma create_Effect s draft s' r :
  create_automation_schedule schedule_to_string s draft = Ok (s', r) -> Effect s (OpCreate draft) s' None.
Proof.
  intros Hc. unfold create_automation_schedule in Hc. next_stmt Hc. next_stmt Hc. next_stmt Hc. next_stmt Hc.
  guard_passed Hc. next_stmt Hc. guard_passed Hc. next_stmt Hc. next_stmt Hc. next_stmt Hc. guard_passed Hc. next_stmt Hc.
  injection Hc as <- <-. destruct x1, x3. apply orb_false_iff in Heqb1 as [Hnew%bool_decide_eq_false _].
  apply negb_false_iff, andb_true_iff in Heqb as [H1%N.leb_le H2%N.leb_le].
  apply effect_create; [by apply eq_None_not_Some|by apply map_err_Ok in Hx1| | |done|by apply map_err_Ok in Hx4].
  - by eapply is_ok_Ok, map_err_Ok.
  - by apply validate_template_Ok.
Qed.

Lemma claim_Effect s id now c secs s' g :
  claim_due_automation_schedule s id now c secs = Ok (s', g) -> Effect s (OpClaim id now c secs) s' g.
Proof.
  intros Hc. unfold claim_due_automation_schedule in Hc. next_stmt Hc. next_stmt Hc. guard_passed Hc.
  next_stmt Hc. next_stmt Hc. apply ok_or_Ok in Hx1. apply read_schedule_Ok in Hx2. rename x1 into expires, x2 into row.
  destruct (next_run_at row) as [occ|] eqn:Hocc; [|injection Hc as <- <-; by apply effect_idle].
  destruct (negb _ || _) eqn:Hidle; [injection Hc as <- <-; by apply effect_idle|].
  apply orb_false_iff in Hidle as [Hst%negb_false_iff%bool_decide_eq_true Hnow%Z.ltb_ge].
  next_stmt Hc. destruct x1 as [att|]; [|injection Hc as <- <-; by apply effect_idle].
  destruct (N.ltb_spec (max_submission_attempts row) att); [done|].
  next_stmt Hc. apply revision_i64_Ok in Hx4 as ->. next_stmt Hc. injection Hc as <- <-.
  apply update_row_Ok in Hx4 as (row' & Hrow' & _ & _ & ->). rewrite Hx2 in Hrow'. injection Hrow' as <-.
  eapply effect_row; [done|done|]. by econstructor.
Qed.

Lemma ack_Effect s t next submitted s' r :
  acknowledge_automation_trigger s t next submitted = Ok (s', r) -> Effect s (OpAck t next submitted) s' None.
Proof.
  intros Hc. unfold acknowledge_automation_trigger in Hc. next_stmt Hc. guard_passed Hc.
  apply map_err_Ok in Hx. apply orb_false_iff in Heqb as [Hn%negb_false_iff%Z.eqb_eq _]. subst x.
  next_stmt Hc. apply read_schedule_Ok in Hx0. rename x into row. next_stmt Hc. destruct x. next_stmt Hc.
  next_stmt Hc. next_stmt Hc. injection Hc as <- <-.
  apply update_row_Ok in Hx3 as (row' & Hrow' & _ & _ & ->). rewrite Hx0 in Hrow'. injection Hrow' as <-.
  eapply effect_row; [done|done|]. by constructor.
Qed.

Lemma fail_Effect s t failure at_ s' r :
  fail_automation_trigger s t failure at_ = Ok (s', r) -> Effect s (OpFail t failure at_) s' None.
Proof.
  intros Hc. unfold fail_automation_trigger in Hc. guard_passed Hc.
  next_stmt Hc. apply read_schedule_Ok in Hx. rename x into row. next_stmt Hc. destruct x. next_stmt Hc.
  next_stmt Hc. next_stmt Hc. injection Hc as <- <-.
  apply update_row_Ok in Hx2 as (row' & Hrow' & _ & _ & ->). rewrite Hx in Hrow'. injection Hrow' as <-.
  eapply effect_row; [done|done|]. by constructor.
Qed.

Lemma live_elem st : st ∈ [SActive; SPaused] -> live st = true.
Proof. intros. unfold live. by apply bool_decide_eq_true. Qed.

Lemma set_state_Effect s id expected target at_ s' r :
  set_automation_schedule_state s id expected target at_ = Ok (s', r) ->
  Effect s (OpSetState id expected target at_) s' None.
Proof.
  intros Hc. unfold set_automation_schedule_state in Hc. next_stmt Hc. guard_passed Hc.
  next_stmt Hc. apply read_schedule_Ok in Hx0. rename x0 into row. guard_passed Hc. next_stmt Hc.
  apply revision_i64_Ok in Hx1 as ->. next_stmt Hc. next_stmt Hc. injection Hc as <- <-.
  apply update_row_Ok in Hx1 as (row' & Hrow' & <- & _ & ->). rewrite Hx0 in Hrow'. injection Hrow' as <-.
  eapply effect_row; [done|done|]. constructor; by apply negb_false_iff.
Qed.

Lemma update_Effect before s id expected sch tz value at_ s' r :
  update_automation_schedule schedule_to_string before s id expected sch tz value at_ = Ok (s', r) ->
  Effect s (OpUpdate before id expected sch tz value at_) s' None.
Proof.
  intros Hc. unfold update_automation_schedule in Hc. next_stmt Hc. next_stmt Hc. next_stmt Hc. next_stmt Hc.
  apply get_schedule_Ok in Hx2. rename x2 into current. guard_passed Hc. guard_passed Hc. next_stmt Hc. next_stmt Hc.
  next_stmt Hc. apply revision_i64_Ok in Hx5 as ->. next_stmt Hc. next_stmt Hc. injection Hc as <- <-.
  apply update_row_Ok in Hx5 as (row & Hrow & <- & Hst & ->). destruct x, x1.
  apply negb_false_iff, N.eqb_eq in Heqb0.
  eapply effect_row; [done|done|]. econstructor; [by apply live_elem|by apply map_err_Ok in Hx| | |done|done|].
  - by eapply is_ok_Ok, map_err_Ok.
  - by apply validate_template_Ok.
  - by apply map_err_Ok in Hx3.
Qed.

Lemma delete_Effect before s id expected at_ s' r :
  delete_automation_schedule before s id expected at_ = Ok (s', r) -> Effect s (OpDelete before id expected at_) s' None.
Proof.
  intros Hc. unfold delete_automation_schedule in Hc. next_stmt Hc. apply get_schedule_Ok in Hx.
  rename x into current. guard_passed Hc. guard_passed Hc. next_stmt Hc. apply revision_i64_Ok in Hx0 as ->.
  next_stmt Hc. next_stmt Hc. injection Hc as <- <-.
  apply update_row_Ok in Hx0 as (row & Hrow & <- & _ & ->). apply negb_false_iff, N.eqb_eq in Heqb0.
  apply bool_decide_eq_false, eq_None_not_Some in Heqb.
  eapply effect_row; [done|done|]. by econstructor.
Qed.

(** Every operation refines the life of the schedule it names. *)
Lemma apply_Effect o s s' g : apply o s = Ok (s', g) -> Effect s o s' g.
Proof.
  destruct o as [draft|id now c secs|t next sub|t f at_|id e tg at_|b id e sch tz v at_|b id e at_|ws]; cbn [apply];
    try (intros (r & Hr & ->)%without_trigger_Ok).
  - by eapply create_Effect.
  - by apply claim_Effect.
  - by eapply ack_Effect.
  - by eapply fail_Effect.
  - by eapply set_state_Effect.
  - by eapply update_Effect.
  - by eapply delete_Effect.
  - intros [= <- <-]. by apply effect_idle.
Qed.

(** ** Worlds

    The store, the triggers handed out so far and all earlier stores.  Claim
    identities are fresh UUIDs, only a trigger that was handed out is settled,
    and what an edit has read was the store at some time. *)
Record World := mkWorld {
  store : AutomationStore;
  granted : list AutomationTrigger;
  past : list AutomationStore;
}.

Definition permitted (w : World) (o : AutomationOp) : Prop :=
  match o with
  | OpClaim _ _ c _ => c ∉ claim_id <$> granted w
  | OpAck t _ _ | OpFail t _ _ => t ∈ granted w
  | OpUpdate before _ _ _ _ _ _ | OpDelete before _ _ _ => before ∈ past w
  | _ => True
  end.

Inductive Step (w : World) (o : AutomationOp) : World -> Prop :=
| step_op s g : permitted w o -> apply o (store w) = Ok (s, g) ->
    Step w o (mkWorld s (option_list g ++ granted w) (s :: past w)).

Inductive Run (w : World) : list AutomationOp -> World -> Prop :=
| run_nil : Run w [] w
| run_snoc ops w1 o w2 : Run w ops w1 -> Step w1 o w2 -> Run w (ops ++ [o]) w2.

Definition initial (ws : gmap Uuid string) : World := mkWorld (mkStore ws ∅) [] [mkStore ws ∅].
Definition Reachable (w : World) : Prop := exists ws ops, Run (initial ws) ops w.

Lemma run_app w1 ops1 w2 ops2 w3 : Run w1 ops1 w2 -> Run w2 ops2 w3 -> Run w1 (ops1 ++ ops2) w3.
Proof.
  intros H1. induction 1 as [|ops w3 o w4 _ IH Hs]; [by rewrite app_nil_r|].
  rewrite app_assoc. by eapply run_snoc.
Qed.
Lemma reachable_run w ops w' : Reachable w -> Run w ops w' -> Reachable w'.
Proof. intros (ws & ops0 & H0) H1. exists ws, (ops0 ++ ops). by eapply run_app. Qed.

(** ** Well-formed rows *)

Record RowOk (id : Uuid) (r : AutomationScheduleRecord) : Prop := {
  row_id : sched_id r = id;
  row_schedule : validate_schedule (schedule r) = Ok tt;
  row_timezone : is_ok (validate_timezone (timezone r)) = true;
  row_template : validate_safe_json false (template r) = Ok tt;
  row_max : (1 <= max_submission_attempts r <= 8)%N;
  row_revision : (1 <= revision r)%N;
  row_next : live (state r) = true <-> is_Some (next_run_at r);
  row_dead : live (state r) = false -> in_flight r = None;
  row_last : (last_submission_attempt r <= max_submission_attempts r)%N;
  row_retry : live (state r) = true -> (last_submission_attempt r < max_submission_attempts r)%N;
  row_lease lease : in_flight r = Some lease -> (1 <= lease_attempt lease <= max_submission_attempts r)%N;
}.

Lemma RowOk_check id r : RowOk id r -> row_check r = true.
Proof.
  intros [_ _ Htz _ Hmax Hrev _ _ Hlast _ Hlease]. unfold row_check.
  assert (0 < str_len (timezone r))%N as Hlen.
  { unfold validate_timezone in Htz. destruct (N.eqb_spec (str_len (timezone r)) 0) as [|]; [done|lia]. }
  rewrite !andb_true_iff, !N.leb_le, !N.ltb_lt. split_and!; [done| |lia|lia|lia|lia].
  destruct (in_flight r) as [lease|]; [|done]. specialize (Hlease _ eq_refl).
  rewrite andb_true_iff, !N.leb_le. lia.
Qed.

Lemma RowOk_read s id r : RowOk id r -> schedules s !! id = Some r -> read_schedule s id = Ok r.
Proof.
  intros [_ Hs Htz Ht _ _ _ _ _ _ _] Hr. unfold read_schedule. rewrite Hr. cbn [ok_or mbind result_bind].
  rewrite Hs. cbn [map_err mbind result_bind]. destruct (validate_timezone _); [|done].
  cbn [map_err mbind result_bind]. by rewrite Ht.
Qed.

(** What the invariant knows about a trigger that was handed out. *)
Record GrantOk (s : AutomationStore) (t : AutomationTrigger) : Prop := {
  grant_row : exists r, schedules s !! trig_schedule_id t = Some r /\
    max_submission_attempts r = trig_max_attempts t;
  grant_key : occurrence_key t = to_rfc3339 (occurrence_time t);
}.

(** An older version of the tables: rows stay, revisions grow, and equal
    revisions mean equal rows. *)
Definition Older (b s : AutomationStore) : Prop := forall id r, schedules b !! id = Some r ->
  exists r', schedules s !! id = Some r' /\ (revision r <= revision r')%N /\ (revision r = revision r' -> r = r').

Record WorldOk (w : World) : Prop := {
  world_rows id r : schedules (store w) !! id = Some r -> RowOk id r;
  world_past b : b ∈ past w -> Older b (store w);
  world_claims : NoDup (claim_id <$> granted w);
  world_grants t : t ∈ granted w -> GrantOk (store w) t;
  world_leases id r lease : schedules (store w) !! id = Some r -> in_flight r = Some lease ->
    exists t, t ∈ granted w /\ trig_schedule_id t = id /\ claim_id t = lease_claim_id lease /\
      attempt t = lease_attempt lease /\ occurrence_key t = lease_occurrence_key lease;
}.

Lemma matching_claim r t :
  ensure_matching_claim r t = Ok tt ->
  exists lease, in_flight r = Some lease /\ sched_id r = trig_schedule_id t /\
    lease_claim_id lease = claim_id t /\ lease_occurrence_key lease = occurrence_key t /\
    lease_attempt lease = attempt t.
Proof.
  unfold ensure_matching_claim. destruct (in_flight r) as [lease|]; [|done].
  destruct (_ || _ || _ || _ || _) eqn:Hm; [done|]. intros _. rewrite !orb_false_iff, !negb_false_iff in Hm.
  destruct Hm as [[[[H1%N.eqb_eq _] H2%N.eqb_eq] H3%bool_decide_eq_true] H4%N.eqb_eq]. by exists lease.
Qed.

Lemma claim_attempt_Some r now att :
  claim_attempt r now = Ok (Some att) ->
  (in_flight r = None /\ att = last_submission_attempt r + 1 \/
   exists lease, in_flight r = Some lease /\ (lease_expires_at lease <= now)%Z /\ att = lease_attempt lease + 1)%N.
Proof.
  unfold claim_attempt, checked_u8_succ. destruct (in_flight r) as [lease|].
  - destruct (Z.ltb_spec now (lease_expires_at lease)); [done|]. destruct (_ <? _)%N; [|done].
    intros [= <-]. right. eauto.
  - destruct (_ <? _)%N; [|done]. intros [= <-]. by left.
Qed.

(** A step keeps the identity and the retry bound of a row and advances its
    revision. *)
Lemma RowStep_frame o r r' g :
  RowStep o r r' g -> sched_id r' = sched_id r /\ revision r' = (revision r + 1)%N /\
  max_submission_attempts r' = max_submission_attempts r.
Proof. by destruct 1. Qed.

Lemma live_next id r : RowOk id r -> is_Some (in_flight r) -> live (state r) = true.
Proof. intros Hr [lease Hl]. destruct (live (state r)) eqn:Hs; [done|]. by rewrite (row_dead id r Hr Hs) in Hl. Qed.
Lemma live_not_failed st : live st = true -> st <> SFailed.
Proof. by intros Hl ->. Qed.

Lemma RowStep_Ok w o id r r' g :
  WorldOk w -> permitted w o -> op_target o = Some id -> schedules (store w) !! id = Some r ->
  RowStep o r r' g -> RowOk id r'.
Proof.
  intros HW Hp Ht Hrow Hs. pose proof (world_rows w HW id r Hrow) as HR.
  pose proof HR as [Hid Hsch Htz Htm Hmax Hrev Hnext Hdead Hlast Hretry Hlease].
  destruct Hs as [? r now c secs expires occ att Hexp Hst Hocc Hnow Hatt Hle|r t next sub Hm Hn|r t f at_ Hm
    |? r tg at_ Htg Hlive|b ? r cur sch tz v at_ next Hlive Hs1 Htz1 Hv1 Hcur Hrv Hfirst|b ? r cur at_ Hcur Hfl Hrv].
  - split; cbn; try done; [lia|..].
    + by rewrite Hst.
    + intros lease [= <-]. cbn. apply claim_attempt_Some in Hatt as [[_ ->]|(l & _ & _ & ->)]; lia.
  - apply matching_claim in Hm as (lease & Hl & _). assert (live (state r) = true) as Hlive by (eapply live_next; eauto).
    split; cbn; try done; lia.
  - apply matching_claim in Hm as (lease & Hl & _ & _ & _ & Ha).
    assert (live (state r) = true) as Hlive by (eapply live_next; eauto).
    destruct (grant_row _ _ (world_grants w HW t Hp)) as (r2 & Hr2 & Hm2). injection Ht as <-.
    rewrite Hrow in Hr2. injection Hr2 as <-. specialize (Hlease _ Hl). rewrite Ha, Hm2 in *.
    destruct (N.leb_spec (trig_max_attempts t) (attempt t)) as [Hterm|Hterm]; (split; cbn; try done; try lia).
    + split; [done|by intros [? ?]].
    + rewrite bool_decide_false by by apply live_not_failed. done.
  - split; cbn; try done; try lia; [|by rewrite Htg|by intros; apply Hretry].
    rewrite Htg. split; [|done]. intros _. by apply Hnext.
  - split; cbn; try done; lia.
  - assert (cur = r) as ->.
    { destruct (world_past w HW b Hp id cur) as (r2 & Hr2 & _ & Heq); [by injection Ht as ->|].
      rewrite Hrow in Hr2. injection Hr2 as <-. by apply Heq. }
    split; cbn; try done; lia.
Qed.

Lemma create_Ok draft next :
  validate_schedule (draft_schedule draft) = Ok tt ->
  is_ok (validate_timezone (draft_timezone draft)) = true -> validate_safe_json false (draft_template draft) = Ok tt ->
  (1 <= draft_max_submission_attempts draft <= 8)%N ->
  RowOk (draft_id draft)
    (mkSchedule (draft_id draft) (draft_workspace_id draft) (draft_schedule draft) (draft_timezone draft)
       (draft_template draft) SActive (draft_first_run_at draft) (Some next) None None None
       (draft_max_submission_attempts draft) 0 1 None (draft_created_at draft) (draft_created_at draft)).
Proof. intros. split; cbn; try done; lia. Qed.

(** ** The invariant *)

Lemma Older_refl s : Older s s.
Proof. intros id r Hr. by exists r. Qed.
Lemma Older_put b s id r :
  Older b s -> (forall r0, schedules s !! id = Some r0 -> revision r0 < revision r)%N -> Older b (put_row s id r).
Proof.
  intros Hb Hr i x Hx. destruct (Hb i x Hx) as (x' & Hx' & Hle & Heq). cbn.
  destruct (decide (i = id)) as [->|Hne].
  - exists r. rewrite lookup_insert_eq. specialize (Hr _ Hx'). split_and!; [done|lia|lia].
  - exists x'. by rewrite lookup_insert_ne.
Qed.

Lemma GrantOk_put s id r t :
  GrantOk s t -> (forall r0, schedules s !! id = Some r0 -> max_submission_attempts r = max_submission_attempts r0) ->
  GrantOk (put_row s id r) t.
Proof.
  intros [(r1 & Hr1 & Hm) Hk] Hmax. split; [|done]. cbn. destruct (decide (trig_schedule_id t = id)) as [Heq|Hne].
  - exists r. rewrite Heq in *. rewrite lookup_insert_eq. split; [done|]. by rewrite (Hmax _ Hr1).
  - exists r1. by rewrite lookup_insert_ne.
Qed.

(** Adding a row or replacing one, with the trigger a claim hands out. *)
Lemma WorldOk_put w id r g :
  WorldOk w -> RowOk id r ->
  (forall r0, schedules (store w) !! id = Some r0 ->
     revision r0 < revision r /\ max_submission_attempts r = max_submission_attempts r0)%N ->
  (forall t, g = Some t -> claim_id t ∉ claim_id <$> granted w /\ GrantOk (put_row (store w) id r) t) ->
  (forall lease, in_flight r = Some lease -> exists t, t ∈ option_list g ++ granted w /\
     trig_schedule_id t = id /\ claim_id t = lease_claim_id lease /\
     attempt t = lease_attempt lease /\ occurrence_key t = lease_occurrence_key lease) ->
  WorldOk (mkWorld (put_row (store w) id r) (option_list g ++ granted w) (put_row (store w) id r :: past w)).
Proof.
  intros HW Hr Hold Hg Hl. split; cbn [store granted past].
  - intros i x. cbn. destruct (decide (i = id)) as [->|Hne].
    + rewrite lookup_insert_eq. by intros [= <-].
    + rewrite lookup_insert_ne by done. apply HW.
  - intros b [->|Hb]%elem_of_cons; [apply Older_refl|]. apply Older_put; [by apply HW|].
    intros r0 Hr0. by apply Hold.
  - destruct g as [t|]; cbn; [|apply HW]. apply NoDup_cons. split; [by apply Hg|apply HW].
  - intros t [Ht|Ht]%elem_of_app.
    + apply Hg. destruct g; [|by apply not_elem_of_nil in Ht]. by apply list_elem_of_singleton in Ht as ->.
    + apply GrantOk_put; [by apply HW|]. intros r0 Hr0. by apply Hold.
  - intros i x lease. cbn. destruct (decide (i = id)) as [->|Hne].
    + rewrite lookup_insert_eq. intros [= <-]. apply Hl.
    + rewrite lookup_insert_ne by done. intros Hx Hi. destruct (world_leases w HW i x lease Hx Hi) as (t & Ht & ?).
      exists t. split; [|done]. apply elem_of_app. by right.
Qed.

Lemma step_WorldOk w o w' : WorldOk w -> Step w o w' -> WorldOk w'.
Proof.
  intros HW [s g Hp Ha%apply_Effect]. destruct Ha as [o s' _ Hs|draft next Hnew Hv Htz Htm Hmax Hn|o id r r' g Ht Hr Hs].
  - cbn. destruct HW as [Hrows Hpast Hnd Hgr Hle]. split; cbn [store granted past]; rewrite ?Hs.
    + apply Hrows.
    + intros b [->|Hb]%elem_of_cons; [apply Older_refl|]. intros i x Hx. rewrite Hs. by apply (Hpast b).
    + done.
    + intros t Htg. destruct (Hgr t Htg) as [Hrow Hk]. split; [by rewrite Hs|done].
    + apply Hle.
  - apply (WorldOk_put w _ _ None); [done|by apply create_Ok|by rewrite Hnew|done|done].
  - pose proof (RowStep_frame _ _ _ _ Hs) as (_ & Hrev & Hmax).
    apply WorldOk_put; [done|by eapply RowStep_Ok| | |].
    + rewrite Hr. intros r0 [= <-]. lia.
    + intros t ->. inversion Hs; subst. split; [exact Hp|]. split; [|done]. cbn in Ht |- *. injection Ht as ->.
      eexists. by rewrite lookup_insert_eq.
    + pose proof (world_leases w HW id r) as Hl. destruct Hs; cbn in *; try done; intros lease Hlease;
        try (destruct (Hl lease Hr Hlease) as (t & ? & ?); by exists t).
      injection Ht as ->. injection Hlease as <-. eexists. split; [by left|done].
Qed.

Lemma initial_WorldOk ws : WorldOk (initial ws).
Proof.
  split; cbn [initial store granted past schedules].
  - intros id r Hr. by rewrite lookup_empty in Hr.
  - intros b ->%list_elem_of_singleton. apply Older_refl.
  - constructor.
  - by intros t ?%not_elem_of_nil.
  - intros id r lease Hr. by rewrite lookup_empty in Hr.
Qed.
Lemma run_WorldOk w ops w' : WorldOk w -> Run w ops w' -> WorldOk w'.
Proof. intros HW. induction 1 as [|ops w1 o w2 _ IH Hs]; [done|]. by eapply step_WorldOk. Qed.
Lemma reachable_WorldOk w : Reachable w -> WorldOk w.
Proof. intros (ws & ops & Hr). eapply run_WorldOk; [apply initial_WorldOk|exact Hr]. Qed.
End runs.
