(* ===== verification/Leases.v ===== *)
(** * What the automation store guarantees

    Claims about every run of [Triggers]: rows stay well-formed, a lease is
    exclusive, a claim is settled once, occurrences are served in order and
    without gaps, and a schedule whose last attempt is lost stays claimed for
    good. *)

From stdpp Require Import pretty.
From S2P Require Import Prelude Text Secrets Logical Nodes Registry Schedule Automation Triggers.

Section leases.
Context `{CH : Chrono} `{Serde} (schedule_to_string : AutomationSchedule -> option string).
Notation Step := (Step schedule_to_string).
Notation Run := (Run schedule_to_string).
Notation Reachable := (Reachable schedule_to_string).

(** ** One row along a step *)

Lemma step_row w o w' id r :
  Step w o w' -> schedules (store w) !! id = Some r ->
  (schedules (store w') !! id = Some r /\ (op_target o <> Some id \/ may_idle o)) \/
  op_target o = Some id /\ exists r' g, RowStep o r r' g /\ schedules (store w') !! id = Some r' /\
    granted w' = option_list g ++ granted w.
Proof.
  intros [s g Hp Ha%apply_Effect] Hr. cbn [store granted].
  destruct Ha as [o s' Hi Hs|draft next Hnew|o i x x' g Ht Hx Hs].
  - left. split; [by rewrite Hs|by right].
  - left. assert (draft_id draft <> id) as Hne by (intros Heq; rewrite Heq in Hnew; congruence). cbn. rewrite lookup_insert_ne by done.
    split; [done|]. left. congruence.
  - destruct (decide (i = id)) as [->|Hne].
    + right. split; [done|]. rewrite Hr in Hx. injection Hx as <-. exists x', g. cbn. by rewrite lookup_insert_eq.
    + left. cbn. rewrite lookup_insert_ne by done. split; [done|]. left. congruence.
Qed.

(** A trigger is handed out by a claim only. *)
Lemma step_granted w o w' t :
  Step w o w' -> t ∈ granted w' -> t ∈ granted w \/
    exists id now c secs, o = OpClaim id now c secs /\ trig_schedule_id t = id /\ claim_id t = c.
Proof.
  intros [s g Hp Ha%apply_Effect]. cbn [granted]. intros [Ht|Ht]%elem_of_app; [|by left]. right.
  destruct Ha as [o s' _ Hs|draft next Hnew|o i x x' g Hi Hx Hs]; [by apply not_elem_of_nil in Ht..|].
  destruct Hs; try by apply not_elem_of_nil in Ht. apply list_elem_of_singleton in Ht as ->.
  by repeat eexists.
Qed.

(** ** Leases *)

(** [o] acknowledges or fails the claim [c]. *)
Definition settles (c : Uuid) (o : AutomationOp) : bool :=
  match o with OpAck t _ _ | OpFail t _ _ => (claim_id t =? c)%N | _ => false end.
(** [o] is no claim of [id] at or after [expires]. *)
Definition claims_before (id : Uuid) (expires : DateTime) (o : AutomationOp) : bool :=
  match o with OpClaim i now _ _ => negb (i =? id)%N || (now <? expires)%Z | _ => true end.

Lemma row_keeps_lease o id r r' g lease :
  RowStep o r r' g -> op_target o = Some id -> in_flight r = Some lease ->
  settles (lease_claim_id lease) o = false ->
  (claims_before id (lease_expires_at lease) o = true \/ (max_submission_attempts r <= lease_attempt lease)%N) ->
  in_flight r' = Some lease.
Proof.
  intros Hs Ht Hl Hset Hb. destruct Hs as [i r now c secs expires occ att Hexp Hst Hocc Hnow Hatt Hle|r t next sub Hm Hn
    |r t f at_ Hm|i r tg at_ Htg Hlive|b i r cur sch tz v at_ next Hlive Hs1 Htz1 Hv1 Hcur Hrv Hfirst
    |b i r cur at_ Hcur Hfl Hrv]; cbn [set_state set_definition set_deleted in_flight]; try done.
  - exfalso. apply claim_attempt_Some in Hatt as [[Hno _]|(l & Hl' & He & ->)]; [congruence|].
    rewrite Hl in Hl'. injection Hl' as <-. destruct Hb as [Hb|Hb]; [|lia].
    cbn in Ht, Hb. injection Ht as ->. rewrite N.eqb_refl in Hb. cbn in Hb. apply Z.ltb_lt in Hb. lia.
  - apply matching_claim in Hm as (l & Hl' & _ & Hc & _). rewrite Hl in Hl'. injection Hl' as <-.
    cbn in Hset. by rewrite Hc, N.eqb_refl in Hset.
  - apply matching_claim in Hm as (l & Hl' & _ & Hc & _). rewrite Hl in Hl'. injection Hl' as <-.
    cbn in Hset. by rewrite Hc, N.eqb_refl in Hset.
Qed.

(** A lease survives every run that neither settles it nor claims again after
    it has expired, or cannot claim again because the attempts are used up. *)
Lemma run_keeps_lease w ops w' id r lease :
  Run w ops w' -> schedules (store w) !! id = Some r -> in_flight r = Some lease ->
  Forall (fun o => settles (lease_claim_id lease) o = false) ops ->
  (Forall (fun o => claims_before id (lease_expires_at lease) o = true) ops \/
   (max_submission_attempts r <= lease_attempt lease)%N) ->
  exists r', schedules (store w') !! id = Some r' /\ in_flight r' = Some lease /\
    max_submission_attempts r' = max_submission_attempts r.
Proof.
  intros HR Hr Hl. induction HR as [|ops w1 o w2 _ IH Hs]; intros Hset Hb; [by exists r|].
  apply Forall_app in Hset as [Hset [Ho _]%Forall_cons].
  destruct IH as (r1 & Hr1 & Hl1 & Hm1); [done|destruct Hb as [[Hb _]%Forall_app|Hb]; auto|].
  destruct (step_row _ _ _ _ _ Hs Hr1) as [[Hr2 _]|(Ht & r2 & g & Hrs & Hr2 & _)]; [by exists r1|].
  exists r2. pose proof (RowStep_frame _ _ _ _ Hrs) as (_ & _ & Hm2). split_and!; [done| |congruence].
  eapply row_keeps_lease; [done..|]. rewrite Hm1. destruct Hb as [[_ [Hb _]%Forall_cons]%Forall_app|Hb]; auto.
Qed.

(** While a lease is held, or when its attempts are used up, no claim is
    granted. *)
Lemma claim_refused s id r lease now c secs s' g :
  schedules s !! id = Some r -> in_flight r = Some lease ->
  ((now < lease_expires_at lease)%Z \/ (max_submission_attempts r <= lease_attempt lease)%N) ->
  claim_due_automation_schedule s id now c secs = Ok (s', g) -> g = None.
Proof.
  intros Hr Hl Hb Hc%claim_Effect. inversion Hc as [| |? i row row' ? Hi Hrow Hrs]; subst; [done|].
  cbn in Hi. injection Hi as <-. rewrite Hr in Hrow. injection Hrow as <-. inversion Hrs; subst.
  exfalso. match goal with Ha : claim_attempt _ _ = _ |- _ => apply claim_attempt_Some in Ha as [[Hno _]|(l & Hl' & He & ->)] end;
    [congruence|]. rewrite Hl in Hl'. injection Hl' as <-. lia.
Qed.

(** Where a lease comes from. *)
Lemma step_lease w o w' id r' lease :
  Step w o w' -> schedules (store w') !! id = Some r' -> in_flight r' = Some lease ->
  (exists r, schedules (store w) !! id = Some r /\ in_flight r = Some lease) \/
  exists now secs, o = OpClaim id now (lease_claim_id lease) secs.
Proof.
  intros [s g Hp Ha%apply_Effect] Hr' Hl. cbn [store] in Hr'.
  destruct Ha as [o s' _ Hs|draft next Hnew|o i x x' g Ht Hx Hs].
  - left. exists r'. by rewrite <- Hs.
  - cbn in Hr'. destruct (decide (draft_id draft = id)) as [Heq|Hne]; [rewrite Heq in Hr'|].
    + rewrite lookup_insert_eq in Hr'. by injection Hr' as <-.
    + rewrite lookup_insert_ne in Hr' by done. eauto.
  - cbn in Hr'. destruct (decide (i = id)) as [->|Hne]; [|rewrite lookup_insert_ne in Hr' by done; eauto].
    rewrite lookup_insert_eq in Hr'. injection Hr' as <-. destruct Hs; cbn in Hl; try done; eauto.
    injection Hl as <-. cbn in Ht. injection Ht as ->. right. by repeat eexists.
Qed.

(** Settling a claim ends the lease of its schedule. *)
Definition settled_claim (o : AutomationOp) : option Uuid :=
  match o with OpAck t _ _ | OpFail t _ _ => Some (claim_id t) | _ => None end.
Definition settled (ops : list AutomationOp) : list Uuid := omap settled_claim ops.

Lemma step_settles w o w' c :
  Step w o w' -> settled_claim o = Some c ->
  exists t r r' lease, t ∈ granted w /\ claim_id t = c /\ schedules (store w) !! trig_schedule_id t = Some r /\
    in_flight r = Some lease /\ lease_claim_id lease = c /\
    schedules (store w') !! trig_schedule_id t = Some r' /\ in_flight r' = None /\ granted w' = granted w.
Proof.
  intros [s g Hp Ha%apply_Effect] Hc. cbn [store granted].
  destruct Ha as [o s' Hi Hs|draft next Hnew|o i x x' g Ht Hx Hs]; [by destruct o|done|].
  destruct Hs as [|r t next sub Hm Hn|r t f at_ Hm| | |]; try done; injection Hc as <-; injection Ht as <-;
    apply matching_claim in Hm as (lease & Hl & _ & Hcl & _);
    exists t, r; eexists; exists lease; (split_and!; [done|done|done|done|done|by cbn; rewrite lookup_insert_eq|done|done]).
Qed.

Lemma NoDup_fmap_eq {A B} (f : A -> B) l x y : NoDup (f <$> l) -> x ∈ l -> y ∈ l -> f x = f y -> x = y.
Proof.
  induction l as [|a l IH]; intros Hnd Hx Hy Hf; [by apply not_elem_of_nil in Hx|].
  apply NoDup_cons in Hnd as [Ha Hnd].
  apply elem_of_cons in Hx as [->|Hx], Hy as [->|Hy]; [done| | |by apply IH].
  - exfalso. apply Ha. rewrite Hf. by apply list_elem_of_fmap_2.
  - exfalso. apply Ha. rewrite <- Hf. by apply list_elem_of_fmap_2.
Qed.

(** Two leases with one claim identity belong to one schedule. *)
Lemma lease_unique w t id r lease :
  WorldOk w -> t ∈ granted w -> schedules (store w) !! id = Some r -> in_flight r = Some lease ->
  lease_claim_id lease = claim_id t -> id = trig_schedule_id t.
Proof.
  intros HW Ht Hr Hl Hc. destruct (world_leases w HW id r lease Hr Hl) as (u & Hu & <- & Huc & _).
  f_equal. eapply (NoDup_fmap_eq claim_id (granted w)); [apply HW|done|done|congruence].
Qed.

Lemma run_settled ws ops w :
  Run (initial ws) ops w ->
  NoDup (settled ops) /\ forall c, c ∈ settled ops -> c ∈ claim_id <$> granted w /\
    forall id r lease, schedules (store w) !! id = Some r -> in_flight r = Some lease -> lease_claim_id lease <> c.
Proof.
  induction 1 as [|ops w1 o w2 HR [IHnd IH] Hs]; [split; [constructor|by intros c ?%not_elem_of_nil]|].
  assert (WorldOk w1) as HW by (eapply run_WorldOk; [apply initial_WorldOk|exact HR]).
  unfold settled in *. rewrite omap_app. cbn [omap list_omap].
  assert (forall c, c ∈ omap settled_claim ops -> c ∈ claim_id <$> granted w2 /\
    forall id r lease, schedules (store w2) !! id = Some r -> in_flight r = Some lease -> lease_claim_id lease <> c) as Hold.
  { intros c Hc. destruct (IH c Hc) as [Hg Hno]. split.
    - destruct Hs as [s g]. cbn [granted]. rewrite fmap_app. apply elem_of_app. by right.
    - intros id r lease Hr Hl. destruct (step_lease _ _ _ _ _ _ Hs Hr Hl) as [(r1 & Hr1 & Hl1)|(now & secs & ->)];
        [by eapply Hno|]. destruct Hs as [s g Hp]. cbn in Hp. congruence. }
  destruct (settled_claim o) as [c|] eqn:Hc; [|by rewrite app_nil_r].
  destruct (step_settles _ _ _ _ Hs Hc) as (t & r & r' & lease & Ht & Htc & Hr & Hl & Hlc & Hr' & Hl' & Hg). split.
  - apply NoDup_app. split_and!; [done| |apply NoDup_singleton]. intros x Hx ->%list_elem_of_singleton.
    destruct (IH c Hx) as [_ Hno]. by eapply Hno.
  - intros x [Hx| ->%list_elem_of_singleton]%elem_of_app; [by apply Hold|].
    split; [rewrite Hg, <- Htc; by apply list_elem_of_fmap_2|].
    intros id r2 lease2 Hr2 Hl2 Heq. destruct (step_lease _ _ _ _ _ _ Hs Hr2 Hl2) as [(r1 & Hr1 & Hl1)|(now & secs & ->)];
      [|done]. assert (id = trig_schedule_id t) as -> by (eapply lease_unique; [done|done|exact Hr1|done|congruence]).
    congruence.
Qed.

(** ** Occurrences *)

(** The occurrences acknowledged for a schedule, in order. *)
Definition acked (id : Uuid) (ops : list AutomationOp) : list DateTime :=
  omap (fun o => match o with
                 | OpAck t _ _ => if (trig_schedule_id t =? id)%N then Some (occurrence_time t) else None
                 | _ => None
                 end) ops.
(** [o] is no edit of the definition of [id]. *)
Definition no_edit (id : Uuid) (o : AutomationOp) : Prop :=
  match o with OpUpdate _ i _ _ _ _ _ => i <> id | _ => True end.

(** [ts] are the occurrences of a schedule from [x] on, and [y] comes next. *)
Fixpoint follows (sch : AutomationSchedule) (tz : string) (x : DateTime) (ts : list DateTime) (y : DateTime) : Prop :=
  match ts with
  | [] => y = x
  | t :: ts => t = x /\ exists x', next_after sch x tz = Ok x' /\ (x < x')%Z /\ follows sch tz x' ts y
  end.
Lemma follows_snoc sch tz ts : forall x y z,
  follows sch tz x ts y -> next_after sch y tz = Ok z -> (y < z)%Z -> follows sch tz x (ts ++ [y]) z.
Proof.
  induction ts as [|t ts IH]; intros x y z; cbn.
  - intros -> Hn Hlt. split; [done|]. by exists z.
  - intros [-> (x' & Hx & Hlt & Hf)] Hn Hz. split; [done|]. exists x'. split_and!; [done|done|]. by eapply IH.
Qed.

(** A row between edits: its definition is the one it started with, it waits
    for the occurrence [y], and the trigger in flight is for [y]. *)
Record Waits (w : World) (id : Uuid) (sch : AutomationSchedule) (tz : string) (y : DateTime)
  (r : AutomationScheduleRecord) : Prop := {
  waits_row : schedules (store w) !! id = Some r;
  waits_schedule : schedule r = sch;
  waits_timezone : timezone r = tz;
  waits_next z : next_run_at r = Some z -> z = y;
  waits_lease lease : in_flight r = Some lease -> exists t, t ∈ granted w /\ claim_id t = lease_claim_id lease /\
    occurrence_time t = y /\ trig_schedule t = sch /\ trig_timezone t = tz;
}.

Lemma acked_snoc id ops o : acked id (ops ++ [o]) = acked id ops ++ acked id [o].
Proof. apply omap_app. Qed.

Lemma waits_step `{!ChronoLaws CH} w o w' id sch tz y r :
  WorldOk w -> Step w o w' -> no_edit id o -> Waits w id sch tz y r ->
  exists r' y', Waits w' id sch tz y' r' /\
    (acked id [o] = [] /\ y' = y \/ acked id [o] = [y] /\ next_after sch y tz = Ok y' /\ (y < y')%Z).
Proof.
  intros HW Hs Hne [Hr Hsch Htz Hnext Hlease].
  assert (forall t, t ∈ granted w -> t ∈ granted w') as Hsub
    by (destruct Hs as [s g]; intros t Ht; apply elem_of_app; by right).
  destruct (step_row _ _ _ _ _ Hs Hr) as [[Hr' Ho]|(Ht & r' & g & Hrs & Hr' & Hg)].
  { exists r, y. split.
    - split; try done. intros lease Hl. destruct (Hlease lease Hl) as (t & Htg & Hrest). exists t. auto.
    - left. split; [|done]. cbn. destruct o; try done. destruct Ho as [Ho|Ho]; [|done]. cbn in Ho.
      destruct (N.eqb_spec (trig_schedule_id trigger) id); [congruence|done]. }
  assert (permitted w o) as Hp by by destruct Hs.
  assert (WorldOk w') as HW' by by eapply step_WorldOk.
  destruct Hrs as [i r now c secs expires occ att Hexp Hst Hocc Hnow Hatt Hle|r t next sub Hm Hn
    |r t f at_ Hm|i r tg at_ Htg Hlive|b i r cur sch' tz' v at_ next Hlive Hs1 Htz1 Hv1 Hcur Hrv Hfirst
    |b i r cur at_ Hcur Hfl Hrv]; cbn [op_target] in Ht; injection Ht as <-; eexists.
  - exists y. split; [|by left]. apply Hnext in Hocc as ->. split; [exact Hr'|done|done|by cbn; apply Hnext|].
    intros lease [= <-]. eexists. rewrite Hg. split; [by left|]. cbn. by rewrite Hsch, Htz.
  - exists next. apply matching_claim in Hm as (lease & Hl & _ & Hc & _).
    destruct (Hlease lease Hl) as (u & Hu & Huc & Huy & Hus & Hut).
    assert (t = u) as -> by (eapply (NoDup_fmap_eq claim_id); [apply HW|done|done|congruence]).
    rewrite Huy, Hus, Hut in Hn. split.
    + split; [exact Hr'|done|done|by intros z [= <-]|done].
    + right. cbn. rewrite N.eqb_refl, Huy. split_and!; [done|done|]. by eapply next_after_later.
  - exists y. split; [|left; split; [|done]; done].
    split; [exact Hr'|done|done| |done]. cbn. intros z Hz. apply Hnext. by destruct (bool_decide _).
  - exists y. split; [|by left]. split; [exact Hr'|done|done|done|].
    cbn. intros lease Hl. destruct (Hlease lease Hl) as (t & Htg' & Hrest). exists t. auto.
  - done.
  - exists y. split; [|by left]. split; [exact Hr'|done|done|done|].
    intros lease Hl. by rewrite (row_dead _ _ (world_rows _ HW' _ _ Hr')) in Hl.
  Unshelve. exact r.
Qed.

Lemma run_in_order `{!ChronoLaws CH} w ops w' id r x :
  WorldOk w -> Run w ops w' -> Forall (no_edit id) ops ->
  schedules (store w) !! id = Some r -> in_flight r = None -> next_run_at r = Some x ->
  exists r' y, Waits w' id (schedule r) (timezone r) y r' /\ follows (schedule r) (timezone r) x (acked id ops) y.
Proof.
  intros HW HR Hed Hr Hfl Hx. induction HR as [|ops w1 o w2 HR IH Hs].
  { exists r, x. split; [|done]. split; [done|done|done|congruence|by rewrite Hfl]. }
  apply Forall_app in Hed as [Hed [Ho _]%Forall_cons]. destruct (IH Hed) as (r1 & y & Hw & Hf).
  assert (WorldOk w1) as HW1 by by eapply run_WorldOk.
  destruct (waits_step _ _ _ _ _ _ _ _ HW1 Hs Ho Hw) as (r2 & y2 & Hw2 & [[Ha ->]|(Ha & Hn & Hlt)]);
    exists r2; eexists; (split; [exact Hw2|]); rewrite acked_snoc, Ha; [by rewrite app_nil_r|by eapply follows_snoc].
Qed.
End leases.

(** ** Executing a run *)

Fixpoint exec `{Chrono} `{Serde} (schedule_to_string : AutomationSchedule -> option string) (w : World)
  (ops : list AutomationOp) : option World :=
  match ops with
  | [] => Some w
  | o :: ops => match apply schedule_to_string o (store w) with
                | Ok (s, g) => exec schedule_to_string (mkWorld s (option_list g ++ granted w) (s :: past w)) ops
                | Err _ => None
                end
  end.

Lemma exec_Step `{Chrono} `{Serde} schedule_to_string w o w' :
  permitted w o -> exec schedule_to_string w [o] = Some w' -> Step schedule_to_string w o w'.
Proof.
  intros Hp He. cbn [exec] in He. destruct (apply _ o (store w)) as [[s g]|e] eqn:Ha; [|done].
  injection He as <-. by constructor.
Qed.

#[local] Existing Instance example_serde.
#[local] Existing Instance example_chrono.
#[local] Existing Instance example_chrono_laws.
Definition example_text (_ : AutomationSchedule) : option string := Some EmptyString.
Definition second (n : Z) : DateTime := (n * NANOS)%Z.
(** A schedule every minute with one attempt, its first claim, and the
    acknowledgement of that claim. *)
Definition example_create : AutomationOp :=
  OpCreate (mkDraft 2%N 1%N (Interval 60) "UTC" JNull (second 100) 1 (second 100)).
Definition example_claim : AutomationOp := OpClaim 2%N (second 100) 3%N 10.
Definition example_trigger : AutomationTrigger :=
  mkTrigger 2%N 1%N (Interval 60) "UTC" JNull (second 100) (pretty (second 100)) 3%N 1 1.
Definition example_ack : AutomationOp := OpAck example_trigger (second 160) (second 101).
Definition example_world (ops : list AutomationOp) : World :=
  default (initial ∅) (exec example_text (initial {[1%N := "active"]}) ops).


Lemma example_created : Run example_text (initial {[1%N := "active"]}) [example_create] (example_world [example_create]).
Proof.
  eapply (run_snoc _ _ []); [constructor|]. apply exec_Step; [done|vm_compute; reflexivity].
Qed.
Lemma example_step :
  Step example_text (example_world [example_create]) example_claim (example_world [example_create; example_claim]).
Proof.
  apply exec_Step; [|vm_compute; reflexivity].
  assert (granted (example_world [example_create]) = []) as Hg by (vm_compute; reflexivity).
  unfold permitted, example_claim. rewrite Hg. apply not_elem_of_nil.
Qed.
Lemma example_claimed : Run example_text (initial {[1%N := "active"]}) [example_create; example_claim]
  (example_world [example_create; example_claim]).
Proof. exact (run_snoc _ _ [example_create] _ _ _ example_created example_step). Qed.
Lemma example_granted : granted (example_world [example_create; example_claim]) = [example_trigger].
Proof. vm_compute. reflexivity. Qed.
Lemma example_settled : Step example_text (example_world [example_create; example_claim]) example_ack
  (example_world [example_create; example_claim; example_ack]).
Proof.
  apply exec_Step; [|vm_compute; reflexivity]. unfold permitted, example_ack. rewrite example_granted. by left.
Qed.

(** The row of the example, and its lease. *)
Definition example_row (ops : list AutomationOp) : AutomationScheduleRecord :=
  default (mkSchedule 0%N 0%N (Interval 0) EmptyString JNull SDeleted 0%Z None None None None 0 0 0 None 0%Z 0%Z)
    (schedules (store (example_world ops)) !! 2%N).
Definition example_lease : AutomationTriggerLease := mkLease (pretty (second 100)) 3%N 1 (second 110).

(** ** Claims *)

(** C24: rows stay well-formed.  After any run of the operations, by any
    number of schedulers and users, every schedule satisfies its declared
    bounds: it has a next run exactly while it is active or paused, a
    terminal schedule has no trigger in flight, attempts stay within the
    retry bound; so the table's CHECK constraints hold, reading the row back
    succeeds, and the trigger in flight is one that was handed out. *)
Theorem automation_rows_ok `{Chrono} `{Serde} (schedule_to_string : AutomationSchedule -> option string)
  (w : World) (id : Uuid) (r : AutomationScheduleRecord) :
  Reachable schedule_to_string w -> schedules (store w) !! id = Some r ->
  RowOk id r /\ row_check r = true /\ read_schedule (store w) id = Ok r /\
  forall lease, in_flight r = Some lease -> exists t, t ∈ granted w /\ trig_schedule_id t = id /\
    claim_id t = lease_claim_id lease /\ attempt t = lease_attempt lease.
Proof.
  intros HW%reachable_WorldOk Hr. pose proof (world_rows _ HW _ _ Hr) as HR.
  split_and!; [done|by eapply RowOk_check|by apply RowOk_read|].
  intros lease Hl. destruct (world_leases _ HW _ _ _ Hr Hl) as (t & ? & ? & ? & ? & _). by exists t.
Qed.

Lemma automation_rows_ok_witness : RowOk 2%N (example_row [example_create; example_claim]).
Proof.
  refine (proj1 (automation_rows_ok example_text (example_world [example_create; example_claim]) 2%N
    (example_row [example_create; example_claim]) _ _)).
  - exact (ex_intro _ _ (ex_intro _ _ example_claimed)).
  - vm_compute. reflexivity.
Defined.

(** C28: a lease is exclusive.  After a claim has been granted, no later
    claim of the schedule made before the lease expires is granted, whatever
    operations come in between, unless the first claim has been acknowledged
    or failed. *)
Theorem claims_exclusive `{Chrono} `{Serde} (schedule_to_string : AutomationSchedule -> option string)
  (w w1 w2 : World) (id : Uuid) (now now2 expires : DateTime) (c c2 : Uuid) (secs secs2 : N)
  (t : AutomationTrigger) (ops : list AutomationOp) (s : AutomationStore) (g : option AutomationTrigger) :
  Reachable schedule_to_string w -> Step schedule_to_string w (OpClaim id now c secs) w1 ->
  granted w1 = t :: granted w -> checked_add_seconds now (Z.of_N secs) = Some expires ->
  Run schedule_to_string w1 ops w2 -> Forall (fun o => settles c o = false) ops ->
  Forall (fun o => claims_before id expires o = true) ops -> (now2 < expires)%Z ->
  claim_due_automation_schedule (store w2) id now2 c2 secs2 = Ok (s, g) -> g = None.
Proof.
  intros _ Hs Hg Hexp HR Hset Hb Hnow Hc.
  assert (exists r lease, schedules (store w1) !! id = Some r /\ in_flight r = Some lease /\
    lease_claim_id lease = c /\ lease_expires_at lease = expires) as (r & lease & Hr & Hl & <- & <-).
  { destruct Hs as [s1 g1 Hp Ha%apply_Effect]. cbn [granted] in Hg. inversion Ha as [| |? i row row' ? Hi Hrow Hrs]; subst.
    - apply (f_equal length) in Hg. cbn in Hg. lia.
    - cbn in Hi. injection Hi as <-. inversion Hrs; subst. cbn. rewrite lookup_insert_eq. do 2 eexists.
      split_and!; [done|done|done|]. cbn. congruence. }
  destruct (run_keeps_lease _ _ _ _ _ _ _ HR Hr Hl Hset (or_introl Hb)) as (r2 & Hr2 & Hl2 & _).
  eapply claim_refused; [exact Hr2|exact Hl2|by left|exact Hc].
Qed.

Lemma claims_exclusive_witness : exists s g,
  claim_due_automation_schedule (store (example_world [example_create; example_claim])) 2%N (second 105) 4%N 10 = Ok (s, g) /\
  g = None.
Proof.
  exists (store (example_world [example_create; example_claim])), None.
  assert (claim_due_automation_schedule (store (example_world [example_create; example_claim])) 2%N (second 105) 4%N 10 =
    Ok (store (example_world [example_create; example_claim]), None)) as Hc by (vm_compute; reflexivity).
  split; [exact Hc|].
  refine (claims_exclusive example_text (example_world [example_create]) (example_world [example_create; example_claim])
    (example_world [example_create; example_claim]) 2%N (second 100) (second 105) (second 110) 3%N 4%N 10 10
    example_trigger [] (store (example_world [example_create; example_claim])) None _ example_step _ _ _ _ _ _ Hc).
  - exact (ex_intro _ _ (ex_intro _ _ example_created)).
  - vm_compute. reflexivity.
  - vm_compute. reflexivity.
  - constructor.
  - constructor.
  - constructor.
  - vm_compute. reflexivity.
Defined.

(** A claim is settled once.  In every run from the empty tables the
    acknowledged or failed claims are pairwise different, so a worker whose
    lease was taken over cannot settle the occurrence a second time: settling
    a claim again is refused. *)
Theorem claims_settled_once `{Chrono} `{Serde} (schedule_to_string : AutomationSchedule -> option string)
  (ws : gmap Uuid string) (ops : list AutomationOp) (w : World) :
  Run schedule_to_string (initial ws) ops w ->
  NoDup (settled ops) /\
  forall t o w', t ∈ granted w -> claim_id t ∈ settled ops -> settled_claim o = Some (claim_id t) ->
    ~ Step schedule_to_string w o w'.
Proof.
  intros HR. split; [by eapply run_settled|]. intros t o w' _ Ht Ho Hs.
  destruct (run_settled _ _ _ _ (run_snoc _ _ _ _ _ _ HR Hs)) as [Hnd _].
  unfold settled in *. rewrite omap_app in Hnd. cbn [omap list_omap] in Hnd. rewrite Ho in Hnd.
  apply NoDup_app in Hnd as (_ & Hd & _). apply (Hd _ Ht). by left.
Qed.

Lemma claims_settled_once_witness : NoDup (settled [example_create; example_claim; example_ack]).
Proof.
  exact (proj1 (claims_settled_once example_text _ _ _
    (run_snoc _ _ [example_create; example_claim] _ _ _ example_claimed example_settled))).
Defined.

(** Occurrences are served in order and without gaps.  While the
    definition of a schedule is not edited, the acknowledged occurrences are
    its next run, then the run after that, and so on, each once and each
    strictly later than the one before, and the schedule then waits for the
    next one. *)
Theorem occurrences_in_order `{CH : Chrono} `{Serde} (schedule_to_string : AutomationSchedule -> option string)
  (w w' : World) (ops : list AutomationOp) (id : Uuid) (r : AutomationScheduleRecord) (x : DateTime) :
  ChronoLaws CH -> Reachable schedule_to_string w -> Run schedule_to_string w ops w' -> Forall (no_edit id) ops ->
  schedules (store w) !! id = Some r -> in_flight r = None -> next_run_at r = Some x ->
  exists r' y, schedules (store w') !! id = Some r' /\
    follows (schedule r) (timezone r) x (acked id ops) y /\ forall z, next_run_at r' = Some z -> z = y.
Proof.
  intros HL HW%reachable_WorldOk HR Hed Hr Hfl Hx.
  destruct (run_in_order _ _ _ _ _ _ _ HW HR Hed Hr Hfl Hx) as (r' & y & [Hr' _ _ Hn _] & Hf). by exists r', y.
Qed.

Lemma occurrences_in_order_witness : exists r' y,
  schedules (store (example_world [example_create; example_claim; example_ack])) !! 2%N = Some r' /\
  follows (Interval 60) "UTC" (second 100) [second 100] y /\ forall z, next_run_at r' = Some z -> z = y.
Proof.
  refine (occurrences_in_order example_text (example_world [example_create])
    (example_world [example_create; example_claim; example_ack]) [example_claim; example_ack] 2%N
    (example_row [example_create]) (second 100) _ _ _ _ _ _ _).
  - exact (ex_intro _ _ (ex_intro _ _ example_created)).
  - exact (run_snoc _ _ [example_claim] _ _ _ (run_snoc _ _ [] _ _ _ (run_nil _ _) example_step) example_settled).
  - repeat constructor.
  - vm_compute. reflexivity.
  - vm_compute. reflexivity.
  - vm_compute. reflexivity.
Defined.

(** A lost last attempt blocks its schedule for good.  When a claim at
    the retry bound is neither acknowledged nor failed, for instance because
    its process died, the schedule stays in flight under it through every
    later run: no claim is ever granted again, also after the lease has
    expired, the schedule never becomes failed, and deleting it is refused. *)
Theorem lost_last_attempt_blocks `{Chrono} `{Serde} (schedule_to_string : AutomationSchedule -> option string)
  (w w' : World) (ops : list AutomationOp) (id : Uuid) (r : AutomationScheduleRecord) (lease : AutomationTriggerLease) :
  Reachable schedule_to_string w -> schedules (store w) !! id = Some r -> in_flight r = Some lease ->
  (max_submission_attempts r <= lease_attempt lease)%N ->
  Run schedule_to_string w ops w' -> Forall (fun o => settles (lease_claim_id lease) o = false) ops ->
  exists r', schedules (store w') !! id = Some r' /\ in_flight r' = Some lease /\ state r' <> SFailed /\
    (forall now c secs s g, claim_due_automation_schedule (store w') id now c secs = Ok (s, g) -> g = None) /\
    (forall expected at_, exists e, delete_automation_schedule (store w') (store w') id expected at_ = Err e).
Proof.
  intros HW Hr Hl Hm HR Hset.
  destruct (run_keeps_lease _ _ _ _ _ _ _ HR Hr Hl Hset (or_intror Hm)) as (r' & Hr' & Hl' & Hm').
  pose proof (reachable_WorldOk _ _ (reachable_run _ _ _ _ HW HR)) as HW'.
  pose proof (world_rows _ HW' _ _ Hr') as HR'. exists r'. split_and!; [done|done| | |].
  - eapply live_not_failed, live_next; [exact HR'|]. by exists lease.
  - intros now c secs s g. eapply claim_refused; [exact Hr'|exact Hl'|right; lia].
  - intros expected at_. unfold delete_automation_schedule, get_automation_schedule, validate_id.
    destruct (is_nil id); [by eexists|]. cbn [mbind result_bind]. rewrite (RowOk_read _ _ _ HR' Hr').
    cbn [mbind result_bind]. rewrite Hl'. by eexists.
Qed.

Lemma lost_last_attempt_blocks_witness : exists r',
  schedules (store (example_world [example_create; example_claim])) !! 2%N = Some r' /\
  in_flight r' = Some example_lease /\ state r' <> SFailed.
Proof.
  destruct (lost_last_attempt_blocks example_text (example_world [example_create; example_claim])
    (example_world [example_create; example_claim]) [] 2%N (example_row [example_create; example_claim]) example_lease)
    as (r' & Hr & Hl & Hst & _).
  - exact (ex_intro _ _ (ex_intro _ _ example_claimed)).
  - vm_compute. reflexivity.
  - vm_compute. reflexivity.
  - vm_compute. discriminate.
  - constructor.
  - constructor.
  - exact (ex_intro _ r' (conj Hr (conj Hl Hst))).
Defined.

(** ** An edit lost to an acknowledgement *)

(** The trigger keeps the definition it was claimed with and its
    acknowledgement writes that definition's next run over the one an edit
    has set in between. *)
Definition example_edit : AutomationOp :=
  OpUpdate (store (example_world [example_create; example_claim])) 2%N 2 (Interval 3600) "UTC" JNull (second 105).
Example edit_overwritten_by_ack :
  next_run_at (example_row [example_create; example_claim; example_edit]) = Some (second 105) /\
  schedule (example_row [example_create; example_claim; example_edit; example_ack]) = Interval 3600 /\
  next_run_at (example_row [example_create; example_claim; example_edit; example_ack]) = Some (second 160).
Proof. vm_compute. split_and!; reflexivity. Qed.
