(* ===== verification/Scheduler.v ===== *)
(** * The automation scheduler: [stillflow-engine/src/scheduler.rs]

    One tick lists the due schedules, claims each of them, has a job
    submission built and submitted and settles the claim.  The job factory
    and the job runtime are parameters; the store is [Automation].  A tick is
    a run of the store operations of [Triggers]. *)

From stdpp Require Import pretty.
From S2P Require Import Prelude Text Secrets Logical Nodes Registry Schedule Automation Triggers Leases.

Definition SCHEDULER_MAX_DUE_PER_TICK : N := 64.

(** Durations are nanoseconds. *)
Record AutomationSchedulerConfig := mkSchedulerConfig {
  poll_interval : N;
  claim_lease : N;
  max_due_per_tick : N;
}.
Definition from_secs (n : N) : N := n * 1000000000.
Definition as_secs (d : N) : N := d / 1000000000.
Definition scheduler_config_default : AutomationSchedulerConfig :=
  mkSchedulerConfig (from_secs 1) (from_secs DEFAULT_AUTOMATION_CLAIM_LEASE_SECONDS) SCHEDULER_MAX_DUE_PER_TICK.

(** A submission as far as the scheduler looks at it. *)
Record JobSubmission := mkSubmission {
  idempotency_key : string;
  submission_workspace : Uuid;
  submission_body : json;
}.

(** The runtime's own error is kept as its text; no tick returns it. *)
Inductive AutomationSchedulerError :=
| SchedulerStorage (e : StorageError)
| SchedulerJobRuntime (message : string)
| SchedulerInvalid (message : string)
| SchedulerShutdown.

Definition config_validate (c : AutomationSchedulerConfig) : result AutomationSchedulerError AutomationSchedulerConfig :=
  if ((poll_interval c =? 0) || (claim_lease c =? 0) || (from_secs 3600 <? claim_lease c)
      || (max_due_per_tick c =? 0) || (SCHEDULER_MAX_DUE_PER_TICK <? max_due_per_tick c))%N
  then Err (SchedulerInvalid "scheduler bound is outside the supported range") else Ok c.

Record AutomationTickReport := mkReport {
  due_schedules : N;
  claimed : N;
  submitted : N;
  replayed : N;
  failed : N;
}.

(** [AutomationScheduler::new], as far as it can refuse. *)
Definition scheduler_new (workspace : Uuid) (c : AutomationSchedulerConfig)
  : result AutomationSchedulerError AutomationSchedulerConfig :=
  if is_nil workspace then Err (SchedulerInvalid "scheduler workspace id must not be nil") else config_validate c.

Definition next_run_for_record `{Chrono} (r : AutomationScheduleRecord) : result AutomationSchedulerError (option DateTime) :=
  match next_run_at r with
  | None => Ok None
  | Some current =>
      Some <$> map_err (fun _ => SchedulerInvalid "automation next run is invalid") (next_after (schedule r) current (timezone r))
  end.

(** What a tick changes: the store, the jobs handed to the runtime, the
    identities drawn and the report. *)
Record Tick := mkTick {
  tick_store : AutomationStore;
  submissions : list JobSubmission;
  drawn : nat;
  report : AutomationTickReport;
}.

Section scheduler.
Context `{CH : Chrono} `{Serde}.
(** [Display] of a UUID. *)
Context (uuid_text : Uuid -> string).
(** The job factory, whose errors the tick does not look into, and the job
    runtime: given the jobs the tick has submitted before, it refuses a job or
    says whether it was a replay. *)
Context (build : AutomationTrigger -> string -> option JobSubmission).
Context (submit_job : list JobSubmission -> JobSubmission -> option bool).
(** The identities the provider hands out. *)
Context (next_id : nat -> Uuid).

Definition occurrence_idempotency_key (t : AutomationTrigger) : string :=
  "automation:" +:+ uuid_text (trig_schedule_id t) +:+ ":" +:+ to_rfc3339 (occurrence_time t).

Definition with_store (s : AutomationStore) (st : Tick) : Tick :=
  mkTick s (submissions st) (drawn st) (report st).
Definition count_claimed (r : AutomationTickReport) : AutomationTickReport :=
  mkReport (due_schedules r) (claimed r + 1) (submitted r) (replayed r) (failed r).
Definition count_failed (r : AutomationTickReport) : AutomationTickReport :=
  mkReport (due_schedules r) (claimed r) (submitted r) (replayed r) (failed r + 1).
Definition count_submitted (replay : bool) (r : AutomationTickReport) : AutomationTickReport :=
  mkReport (due_schedules r) (claimed r) (submitted r + 1) (replayed r + if replay then 1 else 0) (failed r).

(** [fail_automation_trigger(..)?; report.failed += 1; continue]. *)
Definition fail_and_count (now : DateTime) (t : AutomationTrigger) (failure : string) (st : Tick)
  : Tick * option AutomationSchedulerError :=
  match fail_automation_trigger (tick_store st) t failure now with
  | Ok (s, _) => (mkTick s (submissions st) (drawn st) (count_failed (report st)), None)
  | Err e => (st, Some (SchedulerStorage e))
  end.

(** The rest of the loop body once a trigger is claimed. *)
Definition serve_trigger (now : DateTime) (t : AutomationTrigger) (st : Tick)
  : Tick * option AutomationSchedulerError :=
  let key := occurrence_idempotency_key t in
  match build t key with
  | None => fail_and_count now t "automation could not build an E5 Job submission" st
  | Some submission =>
      if negb (bool_decide (idempotency_key submission = key))
         || negb (submission_workspace submission =? trig_workspace_id t)%N
      then fail_and_count now t "automation factory returned an invalid E5 Job submission" st else
      let earlier := submissions st in
      let st := mkTick (tick_store st) (earlier ++ [submission]) (drawn st) (report st) in
      match submit_job earlier submission with
      | None => fail_and_count now t "E5 Job submission failed" st
      | Some replay =>
          match next_after (trig_schedule t) (occurrence_time t) (trig_timezone t) with
          | Err _ => (st, Some (SchedulerInvalid "automation next run is invalid"))
          | Ok next =>
              match acknowledge_automation_trigger (tick_store st) t next now with
              | Ok (s, _) => (mkTick s (submissions st) (drawn st) (count_submitted replay (report st)), None)
              | Err e => (st, Some (SchedulerStorage e))
              end
          end
      end
  end.

(** One schedule of the due list. *)
Definition tick_schedule (now : DateTime) (lease_seconds : N) (st : Tick) (id : Uuid)
  : Tick * option AutomationSchedulerError :=
  let claim := next_id (drawn st) in
  let st := mkTick (tick_store st) (submissions st) (S (drawn st)) (report st) in
  match claim_due_automation_schedule (tick_store st) id now claim lease_seconds with
  | Ok (s, Some t) => serve_trigger now t (mkTick s (submissions st) (drawn st) (count_claimed (report st)))
  | Ok (s, None) => (with_store s st, None)
  | Err (Busy _) => (st, None)
  | Err e => (st, Some (SchedulerStorage e))
  end.

Fixpoint tick_loop (now : DateTime) (lease_seconds : N) (due : list Uuid) (st : Tick)
  : Tick * option AutomationSchedulerError :=
  match due with
  | [] => (st, None)
  | id :: due =>
      match tick_schedule now lease_seconds st id with
      | (st, None) => tick_loop now lease_seconds due st
      | (st, Some e) => (st, Some e)
      end
  end.

(** The clamped clock, the final state and the error that ended the tick. *)
Definition tick_inner (workspace : Uuid) (config : AutomationSchedulerConfig) (last_observed : option DateTime)
  (now : DateTime) (s : AutomationStore) (n : nat) : DateTime * Tick * option AutomationSchedulerError :=
  let effective := match last_observed with Some last => Z.max last now | None => now end in
  let start due := mkTick s [] n (mkReport due 0 0 0 0) in
  match list_due_automation_schedule_ids s workspace effective (max_due_per_tick config) with
  | Err e => (effective, start 0%N, Some (SchedulerStorage e))
  | Ok due =>
      let '(st, e) := tick_loop effective (as_secs (claim_lease config)) due (start (len due)) in
      (effective, st, e)
  end.

Definition tick_at (shutdown : bool) (workspace : Uuid) (config : AutomationSchedulerConfig)
  (last_observed : option DateTime) (now : DateTime) (s : AutomationStore) (n : nat)
  : option DateTime * Tick * option AutomationSchedulerError :=
  if shutdown then (last_observed, mkTick s [] n (mkReport 0 0 0 0 0), Some SchedulerShutdown) else
  let '(effective, st, e) := tick_inner workspace config last_observed now s n in (Some effective, st, e).

(** ** A tick is a run of the store *)

Context (schedule_to_string : AutomationSchedule -> option string).
Notation Step := (Step schedule_to_string).
Notation Run := (Run schedule_to_string).

(** The settled triggers a report counts. *)
Definition settled_count (r : AutomationTickReport) : N := submitted r + failed r.
Definition replays_ok (r : AutomationTickReport) : Prop := (replayed r <= submitted r)%N.

(** Serving a claimed trigger settles it, or ends the tick with the store as
    it was. *)
Inductive Served (w : World) (t : AutomationTrigger) (st st' : Tick) : option AutomationSchedulerError -> Prop :=
| served_aborted e :
    tick_store st' = store w -> drawn st' = drawn st -> report st' = report st -> Served w t st st' (Some e)
| served_settled o w' :
    Step w o w' -> settled_claim o = Some (claim_id t) -> tick_store st' = store w' -> drawn st' = drawn st ->
    due_schedules (report st') = due_schedules (report st) -> claimed (report st') = claimed (report st) ->
    settled_count (report st') = (settled_count (report st) + 1)%N ->
    (replays_ok (report st) -> replays_ok (report st')) -> Served w t st st' None.

Lemma fail_served now t failure st st1 st' e w :
  t ∈ granted w -> tick_store st1 = store w -> drawn st1 = drawn st -> report st1 = report st ->
  fail_and_count now t failure st1 = (st', e) -> Served w t st st' e.
Proof.
  intros Ht Hst Hd Hrep. unfold fail_and_count.
  destruct (fail_automation_trigger (tick_store st1) t failure now) as [[s r]|x] eqn:Hf; intros [= <- <-];
    [|by apply served_aborted].
  apply (served_settled _ _ _ _ (OpFail t failure now) (mkWorld s (granted w) (s :: past w))); try done;
    try (cbn; rewrite Hrep; unfold settled_count; cbn; done || lia).
  - apply (step_op _ w (OpFail t failure now) s None); [exact Ht|].
    cbn [apply]. unfold without_trigger. by rewrite <- Hst, Hf.
Qed.

Lemma serve_served now t st st' e w :
  t ∈ granted w -> tick_store st = store w -> serve_trigger now t st = (st', e) -> Served w t st st' e.
Proof.
  intros Ht Hst. unfold serve_trigger. destruct (build t _) as [submission|]; [|by apply fail_served].
  destruct (negb _ || _); [by apply fail_served|]. cbv zeta.
  destruct (submit_job _ _) as [replay|]; [|by apply fail_served].
  destruct (next_after _ _ _) as [next|]; [|intros [= <- <-]; by apply served_aborted]. cbn [tick_store].
  destruct (acknowledge_automation_trigger (tick_store st) t next now) as [[s r]|x] eqn:Hf; intros [= <- <-];
    [|by apply served_aborted].
  apply (served_settled _ _ _ _ (OpAck t next now) (mkWorld s (granted w) (s :: past w))); try done.
  - apply (step_op _ w (OpAck t next now) s None); [exact Ht|].
    cbn [apply]. unfold without_trigger. by rewrite <- Hst, Hf.
  - unfold settled_count. cbn. lia.
  - unfold replays_ok. cbn. destruct replay; lia.
Qed.

(** A job that was handed to the runtime carries the key of the occurrence it
    was claimed for. *)
Definition job_of (t : AutomationTrigger) (j : JobSubmission) : Prop :=
  idempotency_key j = occurrence_idempotency_key t /\ submission_workspace j = trig_workspace_id t.

Lemma fail_submissions now t failure st st' e :
  fail_and_count now t failure st = (st', e) -> submissions st' = submissions st.
Proof. unfold fail_and_count. by destruct (fail_automation_trigger _ _ _ _) as [[??]|]; intros [= <- <-]. Qed.
Lemma serve_submissions now t st st' e :
  serve_trigger now t st = (st', e) ->
  submissions st' = submissions st \/ exists j, job_of t j /\ submissions st' = submissions st ++ [j].
Proof.
  unfold serve_trigger. destruct (build t _) as [j|]; [|intros H1%fail_submissions; by left].
  destruct (negb _ || _) eqn:Hb; [intros H1%fail_submissions; by left|]. intros Hs. right. exists j.
  apply orb_false_iff in Hb as [Hk%negb_false_iff%bool_decide_eq_true Hw%negb_false_iff%N.eqb_eq]. split; [done|].
  cbv zeta in Hs. destruct (submit_job _ _); [|by apply fail_submissions in Hs].
  destruct (next_after _ _ _); [|by injection Hs as <- <-].
  destruct (acknowledge_automation_trigger _ _ _ _) as [[??]|]; by injection Hs as <- <-.
Qed.

(** ** The loop *)

(** The identities still to be drawn are new. *)
Definition fresh_from (n : nat) (w : World) : Prop := forall m, n <= m -> next_id m ∉ claim_id <$> granted w.
(** No lease of [w'] is missing in [w]. *)
Definition no_new_lease (w w' : World) : Prop := forall id r lease, schedules (store w') !! id = Some r ->
  in_flight r = Some lease -> exists r0, schedules (store w) !! id = Some r0 /\ in_flight r0 = Some lease.

(** The store operations of one turn of the loop: none when the claim is
    refused, the claim alone when nothing is due or the tick ends, or the
    claim and its settlement. *)
Inductive visit (now : DateTime) (secs : N) (id claim : Uuid) : list AutomationOp -> Prop :=
| visit_refused : visit now secs id claim []
| visit_claimed : visit now secs id claim [OpClaim id now claim secs]
| visit_settled o : settled_claim o = Some claim -> visit now secs id claim [OpClaim id now claim secs; o].
(** The operations of the turns for [due], each with an identity of its own. *)
Inductive visits (now : DateTime) (secs : N) : list Uuid -> nat -> list AutomationOp -> Prop :=
| visits_nil n : visits now secs [] n []
| visits_cons id due n ops1 ops2 :
    visit now secs id (next_id n) ops1 -> visits now secs due (S n) ops2 -> visits now secs (id :: due) n (ops1 ++ ops2).

(** The jobs [js] were each built for a trigger of its own, claimed with one
    of the identities [n], ..., [n' - 1]. *)
Definition jobs_for (w : World) (n n' : nat) (js : list JobSubmission) : Prop :=
  exists ts ks, Forall2 job_of ts js /\ ts ⊆ granted w /\ claim_id <$> ts = next_id <$> ks /\
    ks `sublist_of` seq n (n' - n).

(** What the loop has done between two states. *)
Record Progress (w w' : World) (st st' : Tick) (ops : list AutomationOp) (n : N)
  (e : option AutomationSchedulerError) : Prop := {
  progress_run : Run w ops w';
  progress_store : tick_store st' = store w';
  progress_fresh : fresh_from (drawn st') w';
  progress_due : due_schedules (report st') = due_schedules (report st);
  progress_claimed : (claimed (report st') <= claimed (report st) + n)%N;
  progress_counts : e = None ->
    (claimed (report st') + settled_count (report st) = claimed (report st) + settled_count (report st'))%N;
  progress_replays : replays_ok (report st) -> replays_ok (report st');
  progress_settled : (settled_count (report st') + claimed (report st) <= settled_count (report st) + claimed (report st'))%N;
  progress_sent : (len (submissions st') + claimed (report st) <= len (submissions st) + claimed (report st'))%N;
  progress_drawn : (drawn st <= drawn st')%nat;
  progress_jobs : exists js, submissions st' = submissions st ++ js /\ jobs_for w' (drawn st) (drawn st') js;
  progress_leases : e = None -> no_new_lease w w';
}.

Lemma jobs_for_nil w n n' : jobs_for w n n' [].
Proof. exists [], []. split_and!; [constructor|set_solver|done|apply sublist_nil_l]. Qed.
Lemma jobs_for_one w t n j : t ∈ granted w -> claim_id t = next_id n -> job_of t j -> jobs_for w n (S n) [j].
Proof.
  intros Ht Hc Hj. exists [t], [n]. split_and!; [by constructor|set_solver|by cbn; rewrite Hc|].
  by replace (S n - n) with 1 by lia.
Qed.
Lemma jobs_for_app w w' n n1 n2 js js' :
  granted w ⊆ granted w' -> n <= n1 -> n1 <= n2 -> jobs_for w n n1 js -> jobs_for w' n1 n2 js' -> jobs_for w' n n2 (js ++ js').
Proof.
  intros Hg Hn1 Hn2 (ts & ks & Hj & Ht & Hc & Hk) (ts' & ks' & Hj' & Ht' & Hc' & Hk').
  exists (ts ++ ts'), (ks ++ ks'). split_and!; [by apply Forall2_app|set_solver|by rewrite !fmap_app, Hc, Hc'|].
  replace (n2 - n) with ((n1 - n) + (n2 - n1)) by lia. rewrite seq_app. apply sublist_app; [done|].
  by replace (n + (n1 - n)) with n1 by lia.
Qed.

Lemma no_new_lease_refl w : no_new_lease w w.
Proof. intros id r lease ? ?. by exists r. Qed.

(** A schedule that is not claimed changes no row and no count. *)
Lemma progress_idle w w' st st' ops e :
  Run w ops w' -> schedules (store w') = schedules (store w) -> granted w' = granted w ->
  tick_store st' = store w' -> fresh_from (drawn st') w -> drawn st <= drawn st' ->
  report st' = report st -> submissions st' = submissions st -> Progress w w' st st' ops 1 e.
Proof.
  intros HR Hsame Hg Hs Hf Hd Hr Hj. split; rewrite ?Hr, ?Hj; try done; try lia.
  - unfold fresh_from. by rewrite Hg.
  - exists []. split; [by rewrite app_nil_r|apply jobs_for_nil].
  - intros _. unfold no_new_lease. rewrite Hsame. apply no_new_lease_refl.
Qed.

Lemma run_one w o w' : Step w o w' -> Run w [o] w'.
Proof. intros HS. exact (run_snoc _ _ [] _ _ _ (run_nil _ _) HS). Qed.

(** What a claim hands out. *)
Lemma claim_granted s id now c secs s' t :
  claim_due_automation_schedule s id now c secs = Ok (s', Some t) -> trig_schedule_id t = id /\ claim_id t = c.
Proof. intros Hc%claim_Effect. inversion Hc as [| |? ? ? ? ? _ _ Hrs]; subst. by inversion Hrs. Qed.
Lemma claim_nothing s id now c secs s' :
  claim_due_automation_schedule s id now c secs = Ok (s', None) -> schedules s' = schedules s.
Proof. intros Hc%claim_Effect. inversion Hc as [? ? _ Hsame| |? ? ? ? ? _ _ Hrs]; subst; [done|by inversion Hrs]. Qed.

(** A claim that is settled at once leaves no lease behind. *)
Lemma claim_settled_leases w id now c secs w1 t o w2 :
  WorldOk w1 -> Step w (OpClaim id now c secs) w1 -> t ∈ granted w1 -> claim_id t = c ->
  Step w1 o w2 -> settled_claim o = Some c -> no_new_lease w w2.
Proof.
  intros HW1 HS Ht Hcid HS2 Hset i x l Hx Hxl.
  destruct (step_settles _ _ _ _ _ HS2 Hset) as (u & r & r' & lease & Hu & Huc & Hr & Hl & Hlc & Hr' & Hl' & Hg).
  destruct (step_lease _ _ _ _ _ _ _ HS2 Hx Hxl) as [(x1 & Hx1 & Hxl1)|(? & ? & ->)]; [|done].
  destruct (step_lease _ _ _ _ _ _ _ HS Hx1 Hxl1) as [?|(? & ? & [= _ _ Hclaim _])]; [done|]. exfalso.
  assert (i = trig_schedule_id u) as -> by (eapply lease_unique; [exact HW1|exact Hu|exact Hx1|done|congruence]).
  congruence.
Qed.

(** The jobs of a served trigger. *)
Lemma serve_jobs now t st st' e w n :
  t ∈ granted w -> claim_id t = next_id n -> serve_trigger now t st = (st', e) ->
  (len (submissions st') <= len (submissions st) + 1)%N /\
  exists js, submissions st' = submissions st ++ js /\ jobs_for w n (S n) js.
Proof.
  intros Ht Hc [->|(j & Hj & ->)]%serve_submissions.
  - split; [lia|]. exists []. split; [by rewrite app_nil_r|apply jobs_for_nil].
  - unfold len. rewrite length_app. cbn [length]. split; [lia|]. exists [j]. split; [done|]. by eapply jobs_for_one.
Qed.

Lemma tick_schedule_progress (Hinj : Inj (=) (=) next_id) now secs st id st' e w :
  WorldOk w -> tick_store st = store w -> fresh_from (drawn st) w ->
  tick_schedule now secs st id = (st', e) ->
  drawn st' = S (drawn st) /\
  exists ops w', visit now secs id (next_id (drawn st)) ops /\ Progress w w' st st' ops 1 e.
Proof.
  intros HW Hst Hfresh. unfold tick_schedule. cbv zeta. cbn [tick_store]. rewrite Hst.
  assert (fresh_from (S (drawn st)) w) as Hf' by (intros m Hm; apply Hfresh; lia).
  set (o := OpClaim id now (next_id (drawn st)) secs).
  assert (permitted w o) as Hp by by apply Hfresh.
  destruct (claim_due_automation_schedule (store w) id now (next_id (drawn st)) secs) as [[s [t|]]|x] eqn:Hc.
  2: { intros [= <- <-]. split; [done|]. exists [o], (mkWorld s (granted w) (s :: past w)). split; [constructor|].
       apply progress_idle; try done; [|by eapply claim_nothing|by cbn; lia].
       apply run_one. by apply (step_op _ w o s None). }
  2: { destruct x; intros [= <- <-]; (split; [done|]); exists [], w; (split; [constructor|]);
         by apply progress_idle; [constructor|..|cbn; lia| |]. }
  intros Hserve. set (w1 := mkWorld s (t :: granted w) (s :: past w)).
  assert (Step w o w1) as HS by by apply (step_op _ w o s (Some t)).
  destruct (claim_granted _ _ _ _ _ _ _ Hc) as [_ Hcid].
  assert (WorldOk w1) as HW1 by by eapply step_WorldOk.
  assert (fresh_from (S (drawn st)) w1) as Hf1.
  { intros m Hm. cbn. apply not_elem_of_cons. split; [|by apply Hf']. rewrite Hcid. intros Heq%Hinj. lia. }
  assert (t ∈ granted w1) as Ht by by left.
  destruct (serve_jobs _ _ _ _ _ w1 _ Ht Hcid Hserve) as [Hsent Hjobs]. cbn [submissions] in Hsent, Hjobs.
  apply (serve_served _ _ _ _ _ w1) in Hserve; [|done..].
  destruct Hserve as [x Hs2 Hd Hrep|o2 w2 HS2 Hset Hs2 Hd Hdue Hcl Hcount Hrp].
  - split; [done|]. exists [o], w1. split; [constructor|].
    split; rewrite ?Hd, ?Hrep; cbn; try done; try lia; [by apply run_one|].
    unfold settled_count. cbn. lia.
  - destruct (step_settles _ _ _ _ _ HS2 Hset) as (_ & _ & _ & _ & _ & _ & _ & _ & _ & _ & _ & Hg).
    rewrite Hcid in Hset. split; [done|]. exists ([o] ++ [o2]), w2. split; [by constructor|].
    unfold settled_count in *. cbn in Hcl, Hcount, Hdue.
    split; rewrite ?Hcl, ?Hd, ?Hdue, ?Hcount; try done; try lia.
    + exact (run_snoc _ _ _ _ _ _ (run_one _ _ _ HS) HS2).
    + unfold fresh_from. by rewrite Hg.
    + unfold settled_count. cbn in *. lia.
    + unfold settled_count. cbn in *. lia.
    + cbn. lia.
    + unfold jobs_for in *. rewrite Hg. exact Hjobs.
    + intros _. by eapply claim_settled_leases.
Qed.

Lemma run_granted w ops w' t : Run w ops w' -> t ∈ granted w -> t ∈ granted w'.
Proof.
  intros HR Ht. induction HR as [|ops w1 o w2 _ IH [s g]]; [done|]. apply elem_of_app. by right.
Qed.

Lemma progress_app w w1 w2 st st1 st2 ops1 ops2 n1 n2 e :
  Progress w w1 st st1 ops1 n1 None -> Progress w1 w2 st1 st2 ops2 n2 e ->
  Progress w w2 st st2 (ops1 ++ ops2) (n1 + n2) e.
Proof.
  intros [R1 S1 F1 D1 C1 N1 P1 T1 J1 W1 G1 L1] [R2 S2 F2 D2 C2 N2 P2 T2 J2 W2 G2 L2]. specialize (N1 eq_refl).
  split; [by eapply run_app|done|done|congruence|lia| | |lia|lia|lia| |]; auto.
  - intros He. specialize (N2 He). lia.
  - destruct G1 as (js1 & E1 & H1), G2 as (js2 & E2 & H2). exists (js1 ++ js2).
    split; [by rewrite E2, E1, app_assoc|]. eapply jobs_for_app; [|exact W1|exact W2|exact H1|exact H2].
    intros t Ht. by eapply run_granted.
  - intros He id r lease Hr Hl. destruct (L2 He id r lease Hr Hl) as (r1 & Hr1 & Hl1). by eapply L1.
Qed.

Lemma tick_loop_progress (Hinj : Inj (=) (=) next_id) now secs due st st' e w :
  WorldOk w -> tick_store st = store w -> fresh_from (drawn st) w ->
  tick_loop now secs due st = (st', e) ->
  exists visited ops w', visited `prefix_of` due /\ (e = None -> visited = due) /\
    drawn st' = drawn st + length visited /\ visits now secs visited (drawn st) ops /\
    Progress w w' st st' ops (len visited) e.
Proof.
  revert st w. induction due as [|id due IH]; intros st w HW Hst Hf; cbn [tick_loop].
  { intros [= <- <-]. exists [], [], w. split_and!; [done|done|cbn; lia|constructor|].
    split; try done; try lia; [constructor| |intros _; apply no_new_lease_refl].
    exists []. split; [by rewrite app_nil_r|apply jobs_for_nil]. }
  destruct (tick_schedule now secs st id) as [st1 [x|]] eqn:H1;
    destruct (tick_schedule_progress Hinj _ _ _ _ _ _ _ HW Hst Hf H1) as (Hd1 & ops1 & w1 & V1 & P1).
  - intros [= <- <-]. exists [id], (ops1 ++ []), w1. split_and!; [by apply (prefix_app_r [id] [id] _)|done|cbn; lia| |by rewrite app_nil_r].
    apply visits_cons; [done|constructor].
  - intros H2. destruct (IH st1 w1) as (visited & ops2 & w2 & Hp & He & Hd & V2 & P2); [|apply P1|apply P1|exact H2|].
    + eapply run_WorldOk; [done|apply P1].
    + exists (id :: visited), (ops1 ++ ops2), w2. split_and!; [by apply prefix_cons|intros ?; by rewrite He|cbn; lia| |].
      * apply visits_cons; [done|by rewrite <- Hd1].
      * replace (len (id :: visited)) with (1 + len visited)%N by (unfold len; cbn [length]; lia).
        by eapply progress_app.
Qed.

(** The triggers the jobs were built for are new and differ in their claims. *)
Lemma jobs_for_claims (Hinj : Inj (=) (=) next_id) w0 w n n' js :
  fresh_from n w0 -> jobs_for w n n' js ->
  exists ts, Forall2 job_of ts js /\ NoDup (claim_id <$> ts) /\
    forall t, t ∈ ts -> t ∈ granted w /\ claim_id t ∉ claim_id <$> granted w0.
Proof.
  intros Hf (ts & ks & Hj & Ht & Hc & Hk). exists ts. split_and!; [done| |].
  - rewrite Hc. apply NoDup_fmap_2; [done|]. eapply sublist_NoDup; [apply NoDup_seq|exact Hk].
  - intros t Hin. split; [by apply Ht|]. assert (claim_id t ∈ next_id <$> ks) as Hin'.
    { rewrite <- Hc. by apply list_elem_of_fmap_2. }
    apply list_elem_of_fmap in Hin' as (k & -> & Hk'). apply Hf.
    eapply elem_of_sublist in Hk'; [|exact Hk]. apply elem_of_seq in Hk'. lia.
Qed.
End scheduler.

(** ** The due list *)

Lemma due_entry_Some ws now i r x id :
  due_entry ws now (i, r) = Some (x, id) ->
  id = i /\ sched_workspace_id r = ws /\ state r = SActive /\ next_run_at r = Some x /\ (x <= now)%Z.
Proof.
  unfold due_entry. cbn [fst snd]. destruct (N.eqb_spec (sched_workspace_id r) ws); [|done]. cbn [andb].
  case_bool_decide; [|done]. destruct (next_run_at r) as [y|] eqn:Hn; [|done].
  destruct (Z.leb_spec y now); [|done]. by intros [= <- <-].
Qed.
Lemma due_ids_sublist ws now l : (omap (due_entry ws now) l).*2 `sublist_of` l.*1.
Proof.
  induction l as [|[i r] l IH]; [constructor|]. cbn [omap list_omap fmap list_fmap].
  destruct (due_entry ws now (i, r)) as [[x id]|] eqn:He; [|by apply sublist_cons].
  apply due_entry_Some in He as [-> _]. by apply sublist_skip.
Qed.

(** An active schedule of the workspace whose next run has come. *)
Definition due_at (s : AutomationStore) (ws : Uuid) (now : DateTime) (id : Uuid) : Prop :=
  exists r x, schedules s !! id = Some r /\ sched_workspace_id r = ws /\ state r = SActive /\
    next_run_at r = Some x /\ (x <= now)%Z.

(** The listed schedules are due ones of the workspace, no more than asked
    for, and none is listed twice. *)
Lemma list_due_Ok s ws now limit due :
  list_due_automation_schedule_ids s ws now limit = Ok due ->
  (len due <= limit)%N /\ NoDup due /\
  forall id, id ∈ due -> due_at s ws now id.
Proof.
  unfold list_due_automation_schedule_ids. destruct (is_nil ws || _ || _); [done|]. intros [= <-].
  set (l := omap (due_entry ws now) (map_to_list (schedules s))).
  pose proof (merge_sort_Permutation due_le l) as Hperm. split_and!.
  - unfold len. rewrite length_take. lia.
  - eapply sublist_NoDup; [|apply sublist_take]. rewrite Hperm.
    eapply sublist_NoDup; [apply (NoDup_fst_map_to_list (schedules s))|apply due_ids_sublist].
  - intros id Hid. eapply elem_of_sublist in Hid; [|apply sublist_take]. rewrite Hperm in Hid.
    apply list_elem_of_fmap in Hid as ([x id'] & -> & ([i r] & Hir%elem_of_map_to_list & He)%list_elem_of_omap).
    apply due_entry_Some in He as (-> & ? & ? & ? & ?). by exists r, x.
Qed.

(** ** Claims *)

(** C4: a tick refines the store's runs.  From a store that the store's
    operations reach, with identities that are new and pairwise distinct, and
    whatever the job factory and the job runtime do: the effect of a tick on
    the tables is a run that consists, for each schedule it visits in turn, of
    no operation, of one claim with an identity of its own, or of that claim
    and then one settlement (acknowledgement or failure) of it, and of nothing
    else; the schedules visited are pairwise distinct active ones of the
    workspace whose next run has come, no more than configured, and when the
    tick reports success all that the store listed; the clock it works with
    never goes back; the jobs handed over are each built for a trigger of
    their own that this tick claimed, with its key and workspace; and a tick
    that reports success has settled each of its claims, so it leaves no lease
    behind. *)
Theorem tick_refines `{CH : Chrono} `{Serde} (uuid_text : Uuid -> string)
  (build : AutomationTrigger -> string -> option JobSubmission) (submit_job : list JobSubmission -> JobSubmission -> option bool)
  (next_id : nat -> Uuid) (schedule_to_string : AutomationSchedule -> option string)
  (w : World) (workspace : Uuid) (config : AutomationSchedulerConfig) (last : option DateTime) (now effective : DateTime)
  (n : nat) (st : Tick) (e : option AutomationSchedulerError) :
  Reachable schedule_to_string w -> Inj (=) (=) next_id -> fresh_from next_id n w ->
  tick_inner uuid_text build submit_job next_id workspace config last now (store w) n = (effective, st, e) ->
  (now <= effective)%Z /\ (forall x, last = Some x -> (x <= effective)%Z) /\
  exists visited ops w', Run schedule_to_string w ops w' /\ tick_store st = store w' /\
    visits next_id effective (as_secs (claim_lease config)) visited n ops /\
    drawn st = n + length visited /\ fresh_from next_id (drawn st) w' /\
    NoDup visited /\ (forall id, id ∈ visited -> due_at (store w) workspace effective id) /\
    (len visited <= max_due_per_tick config)%N /\
    (e = None -> list_due_automation_schedule_ids (store w) workspace effective (max_due_per_tick config) = Ok visited) /\
    (due_schedules (report st) <= max_due_per_tick config)%N /\ (claimed (report st) <= len visited)%N /\
    (submitted (report st) + failed (report st) <= claimed (report st))%N /\
    (replayed (report st) <= submitted (report st))%N /\ (len (submissions st) <= claimed (report st))%N /\
    (exists ts, Forall2 (job_of uuid_text) ts (submissions st) /\ NoDup (claim_id <$> ts) /\
       forall t, t ∈ ts -> t ∈ granted w' /\ claim_id t ∉ claim_id <$> granted w) /\
    (e = None -> claimed (report st) = (submitted (report st) + failed (report st))%N /\ no_new_lease w w').
Proof.
  intros HW%reachable_WorldOk Hinj Hf. unfold tick_inner. cbv zeta.
  set (eff := match last with Some x => Z.max x now | None => now end).
  assert ((now <= eff)%Z /\ forall x, last = Some x -> (x <= eff)%Z) as [Hclock Hlast].
  { subst eff. destruct last as [x|]; (split; [lia|]); [|done]. intros ? [= ->]. lia. }
  destruct (list_due_automation_schedule_ids _ _ _ _) as [due|x] eqn:Hd.
  - destruct (tick_loop _ _ _ _ _ _ _ _) as [st1 e1] eqn:Hl. intros [= <- <- <-].
    destruct (list_due_Ok _ _ _ _ _ Hd) as (Hlen & Hnd & Hdue).
    eapply (tick_loop_progress _ _ _ _ schedule_to_string Hinj) in Hl
      as (visited & ops & w' & Hp & He & Hdr & V & [R S F D C N P T J _ G L]); [|exact HW|done|done].
    unfold settled_count, replays_ok in *. cbn in D, C, N, P, T, J, G, Hdr, V. rewrite D.
    assert (len visited <= len due)%N as Hle by (apply prefix_length in Hp; unfold len; lia).
    split; [exact Hclock|]. split; [exact Hlast|]. exists visited, ops, w'. split_and!; try done; try lia.
    + destruct Hp as [k ->]. apply NoDup_app in Hnd. apply Hnd.
    + intros id Hid. apply Hdue. destruct Hp as [k ->]. apply elem_of_app. by left.
    + intros Hn. by rewrite (He Hn), Hd.
    + unfold len in J |- *. cbn in J. lia.
    + destruct G as (js & -> & G). cbn. by eapply jobs_for_claims.
    + intros Hn. specialize (N Hn). split; [lia|by apply L].
  - intros [= <- <- <-]. split; [exact Hclock|]. split; [exact Hlast|]. exists [], [], w. cbn.
    split_and!; try done; try lia; [exact (run_nil _ _)|exact (visits_nil _ _ _ _)|constructor|by intros id ?%not_elem_of_nil|unfold len; cbn; lia|].
    exists []. split_and!; [constructor|constructor|by intros t ?%not_elem_of_nil].
Qed.

#[local] Existing Instance example_serde.
#[local] Existing Instance example_chrono.

(** The example's schedule with a factory that builds the job and a runtime
    that accepts it: one tick claims and submits it. *)
Definition example_build (t : AutomationTrigger) (key : string) : option JobSubmission :=
  Some (mkSubmission key (trig_workspace_id t) (trig_template t)).
Definition example_submit (_ : list JobSubmission) (_ : JobSubmission) : option bool := Some false.
Definition example_ids (n : nat) : Uuid := N.of_nat (10 + n).
Definition example_tick : DateTime * Tick * option AutomationSchedulerError :=
  tick_inner pretty example_build example_submit example_ids 1%N scheduler_config_default None (second 100)
    (store (example_world [example_create])) 0.

Lemma tick_refines_witness : report example_tick.1.2 = mkReport 1 1 1 0 0 /\
  exists visited ops w', Run example_text (example_world [example_create]) ops w' /\
    tick_store example_tick.1.2 = store w' /\ visits example_ids (second 100) 60 visited 0 ops /\
    no_new_lease (example_world [example_create]) w'.
Proof.
  split; [vm_compute; reflexivity|].
  assert (example_tick = (second 100, example_tick.1.2, None)) as Ht by (vm_compute; reflexivity).
  destruct (tick_refines pretty example_build example_submit example_ids example_text (example_world [example_create])
    1%N scheduler_config_default None (second 100) (second 100) 0 example_tick.1.2 None)
    as (_ & _ & visited & ops & w' & HR & Hst & HV & _ & _ & _ & _ & _ & _ & _ & _ & _ & _ & _ & _ & Hend).
  - exact (ex_intro _ _ (ex_intro _ _ example_created)).
  - intros x y Hxy. unfold example_ids in Hxy. lia.
  - intros m _. assert (granted (example_world [example_create]) = []) as Hg by (vm_compute; reflexivity).
    rewrite Hg. apply not_elem_of_nil.
  - exact Ht.
  - exists visited, ops, w'. split; [exact HR|]. split; [exact Hst|]. split; [exact HV|exact (proj2 (Hend eq_refl))].
Defined.

(** A lease of half a second passes the configuration's bounds; in whole
    seconds it is zero, which every claim refuses. *)
Example sub_second_lease_never_claims :
  let config := mkSchedulerConfig (from_secs 1) 500000000 64 in
  scheduler_new 1%N config = Ok config /\
  (tick_inner pretty example_build example_submit example_ids 1%N config None (second 100)
     (store (example_world [example_create])) 0).2 =
  Some (SchedulerStorage (InvalidDraft "automation claim lease is outside its bound")).
Proof. cbv zeta. split; vm_compute; reflexivity. Qed.
