(* ===== verification/Hex.v ===== *)
(** * Hexadecimal text

    [hex_digest], [parse_digest] and [hex_nibble] of
    [stillflow-storage/src/automation_api.rs] and [hex_encode], [hex_decode]
    of [stillflow-api/src/automation.rs]: digests and cursors travel as
    lower-case hexadecimal text. *)

From Stdlib Require Ascii.
From S2P Require Import Prelude Text.

(** The [str] of a byte sequence. *)
Definition string_of_bytes (t : list N) : string := String.string_of_list_ascii (Ascii.ascii_of_N <$> t).
Definition is_byte (b : N) : Prop := (b < 256)%N.

Lemma bytes_of_string_of_bytes t : Forall is_byte t -> bytes_of (string_of_bytes t) = t.
Proof.
  intros Ht. unfold bytes_of, string_of_bytes. rewrite String.list_ascii_of_string_of_list_ascii, <- list_fmap_compose.
  induction Ht as [|b t Hb _ IH]; [done|]. cbn [fmap list_fmap]. f_equal; [|exact IH]. by apply Ascii.N_ascii_embedding.
Qed.

(** ** Encoding *)

Definition hex_char (n : N) : N := if (n <? 10)%N then (48 + n)%N else (87 + n)%N.
(** [format!("{byte:02x}")] *)
Definition hex_byte (b : N) : list N := [hex_char (N.shiftr b 4); hex_char (N.land b 15)].
Definition hex_encode (t : list N) : string := string_of_bytes (t ≫= hex_byte).

(** ** Decoding *)

Definition hex_nibble (c : N) : option N :=
  (if (48 <=? c) && (c <=? 57) then Some (c - 48)
   else if (97 <=? c) && (c <=? 102) then Some (c - 97 + 10)
   else if (65 <=? c) && (c <=? 70) then Some (c - 65 + 10)
   else None)%N.

(** The pairs of [as_chunks::<2>]; an odd byte at the end is the remainder. *)
Fixpoint hex_pairs (t : list N) : option (list N) :=
  match t with
  | high :: low :: t =>
      high ← hex_nibble high; low ← hex_nibble low; rest ← hex_pairs t;
      Some (N.lor (N.shiftl high 4) low :: rest)
  | _ => Some []
  end.

Definition hex_decode (value : string) : option (list N) :=
  if (str_len value mod 2 =? 0)%N then hex_pairs (bytes_of value) else None.

(** ** Round trip *)

Lemma byte_cases (P : N -> bool) b : forallb P (N.of_nat <$> seq 0 256) = true -> is_byte b -> P b = true.
Proof.
  intros HP Hb. rewrite forallb_forall in HP. apply HP, list_elem_of_In, list_elem_of_fmap. exists (N.to_nat b).
  split; [lia|]. apply elem_of_seq. unfold is_byte in Hb. lia.
Qed.

(** One byte, by trying all of them. *)
Definition hex_byte_ok (b : N) : bool :=
  (hex_char (N.shiftr b 4) <? 256)%N && (hex_char (N.land b 15) <? 256)%N &&
  bool_decide (hex_pairs (hex_byte b) = Some [b]).
Lemma hex_byte_roundtrip b : is_byte b -> hex_byte_ok b = true.
Proof. apply (byte_cases hex_byte_ok). vm_compute. reflexivity. Qed.

Lemma hex_pairs_byte b rest : is_byte b -> hex_pairs (hex_byte b ++ rest) = (b ::.) <$> hex_pairs rest.
Proof.
  intros Hb%hex_byte_roundtrip. unfold hex_byte_ok in Hb. apply andb_true_iff in Hb as [_ Hb%bool_decide_eq_true].
  unfold hex_byte in *. cbn [app]. revert Hb. generalize (hex_char (N.shiftr b 4)) (hex_char (N.land b 15)). intros h l.
  cbn [hex_pairs]. destruct (hex_nibble h) as [high|]; [|done]. destruct (hex_nibble l) as [low|]; [|done].
  cbn [mbind option_bind]. intros [= Hb]. rewrite Hb. by destruct (hex_pairs rest).
Qed.

Lemma hex_pairs_encode t : Forall is_byte t -> hex_pairs (t ≫= hex_byte) = Some t.
Proof.
  induction 1 as [|b t Hb _ IH]; [done|]. rewrite bind_cons, hex_pairs_byte by done.
  by rewrite IH.
Qed.

Lemma hex_bytes t : Forall is_byte t -> bytes_of (hex_encode t) = t ≫= hex_byte.
Proof.
  intros Ht. apply bytes_of_string_of_bytes. induction Ht as [|b t Hb _ IH]; [constructor|].
  rewrite bind_cons. apply hex_byte_roundtrip in Hb. unfold hex_byte_ok in Hb. rewrite !andb_true_iff, !N.ltb_lt in Hb.
  destruct Hb as [[? ?] _]. by repeat constructor.
Qed.

Lemma hex_length t : Forall is_byte t -> str_len (hex_encode t) = (2 * len t)%N.
Proof.
  intros Ht. unfold str_len, len. rewrite hex_bytes by done. clear Ht.
  induction t as [|b t IH]; [done|]. rewrite bind_cons, length_app. cbn [length hex_byte]. lia.
Qed.

Lemma hex_roundtrip t : Forall is_byte t -> hex_decode (hex_encode t) = Some t.
Proof.
  intros Ht. unfold hex_decode. rewrite hex_length, hex_bytes, hex_pairs_encode by done.
  by rewrite N.mul_comm, N.Div0.mod_mul.
Qed.
