(* ===== verification/Executions.v ===== *)
(** * Executions: the hand-off history of [stillflow-storage/src/automation_api.rs]

    A trigger, by hand or by schedule, is recorded as an execution before its
    job is submitted, and marked when the job has been accepted.  A request
    that is repeated finds the execution it has made before, by its identity
    or by its idempotency key, and so gets the same job. *)

From S2P Require Import Prelude Text Secrets Logical Nodes Schedule Automation Hex.

Definition MAX_AUTOMATION_HISTORY_PAGE_SIZE : N := 100.
Definition MAX_AUTOMATION_TRIGGER_KEY_BYTES : N := 128.

Inductive AutomationExecutionState := EAccepted | ESubmitted | EFailed | ESkipped.
#[export] Instance AutomationExecutionState_eq_dec : EqDecision AutomationExecutionState.
Proof. solve_decision. Defined.

Record AutomationExecutionDraft := mkExecutionDraft {
  exd_execution_id : Uuid;
  exd_workspace_id : Uuid;
  exd_schedule_id : Uuid;
  exd_trigger_kind : string;
  exd_occurrence_key : string;
  exd_idempotency_key : string;
  exd_request_digest : list N;
  exd_job_id : Uuid;
  exd_created_at : DateTime;
}.

(** An execution with its digest: 32 bytes in a record, hexadecimal text in
    a row. *)
Record Execution (D : Type) := mkExecution {
  execution_id : Uuid;
  ex_workspace_id : Uuid;
  ex_schedule_id : Uuid;
  ex_trigger_kind : string;
  ex_occurrence_key : string;
  ex_idempotency_key : string;
  ex_request_digest : D;
  ex_job_id : Uuid;
  ex_state : AutomationExecutionState;
  ex_failure : option string;
  ex_created_at : DateTime;
  ex_updated_at : DateTime;
}.
Arguments mkExecution {D} _ _ _ _ _ _ _ _ _ _ _ _.
Arguments execution_id {D} _.
Arguments ex_workspace_id {D} _.
Arguments ex_schedule_id {D} _.
Arguments ex_trigger_kind {D} _.
Arguments ex_occurrence_key {D} _.
Arguments ex_idempotency_key {D} _.
Arguments ex_request_digest {D} _.
Arguments ex_job_id {D} _.
Arguments ex_state {D} _.
Arguments ex_failure {D} _.
Arguments ex_created_at {D} _.
Arguments ex_updated_at {D} _.
Notation AutomationExecutionRecord := (Execution (list N)).
Notation ExecutionRow := (Execution string).

Definition with_digest {D E} (d : E) (x : Execution D) : Execution E :=
  mkExecution (execution_id x) (ex_workspace_id x) (ex_schedule_id x) (ex_trigger_kind x) (ex_occurrence_key x)
    (ex_idempotency_key x) d (ex_job_id x) (ex_state x) (ex_failure x) (ex_created_at x) (ex_updated_at x).

Inductive AutomationExecutionCreateOutcome :=
| Created (record : AutomationExecutionRecord)
| Replayed (record : AutomationExecutionRecord).
Definition outcome_record (o : AutomationExecutionCreateOutcome) : AutomationExecutionRecord :=
  match o with Created r | Replayed r => r end.

Record ExecutionTables := mkTables {
  automation : AutomationStore;
  executions : gmap Uuid ExecutionRow;
}.

(** ** Checks on drafts *)

(** [value.trim() != value]: a whitespace character at either end. *)
Definition ends_blank (t : list N) : bool :=
  existsb (fun k => bool_decide (whitespace_width (drop (length t - k) t) = Some k)) [1; 2; 3].
(** [char::is_control] of some character: U+0000..U+001F and U+007F..U+009F. *)
Fixpoint has_control (t : list N) : bool :=
  match t with
  | [] => false
  | b :: rest =>
      ((b <? 32) || (b =? 127)
       || match rest with c :: _ => (b =? 0xC2) && (0x80 <=? c) && (c <=? 0x9F) | [] => false end)%N
      || has_control rest
  end.

Definition validate_text (value : string) (max_bytes : N) (label : string) : Stored unit :=
  if (str_len value =? 0)%N || (max_bytes <? str_len value)%N
     || bool_decide (is_Some (whitespace_width (bytes_of value))) || ends_blank (bytes_of value)
     || has_control (bytes_of value) || contains_secret_marker value
  then Err (InvalidDraft label) else Ok tt.

Definition validate_execution_draft (d : AutomationExecutionDraft) : Stored unit :=
  if is_nil (exd_execution_id d) || is_nil (exd_workspace_id d) || is_nil (exd_schedule_id d) || is_nil (exd_job_id d)
  then Err (InvalidDraft "automation execution identity") else
  try! validate_text (exd_trigger_kind d) 32 "automation trigger kind";
  try! validate_text (exd_occurrence_key d) MAX_AUTOMATION_TRIGGER_KEY_BYTES "automation occurrence key";
  validate_text (exd_idempotency_key d) MAX_AUTOMATION_TRIGGER_KEY_BYTES "automation idempotency key".

(** ** Rows *)

Definition parse_digest (value : string) : Stored (list N) :=
  if negb (str_len value =? 64)%N then Err (Serialization "automation request digest") else
  ok_or (hex_pairs (bytes_of value)) (Serialization "automation digest").

Definition execution_from_connection (t : ExecutionTables) (id : Uuid) : Stored AutomationExecutionRecord :=
  row ← ok_or (executions t !! id) (NotFound id);
  digest ← parse_digest (ex_request_digest row);
  Ok (with_digest digest row).

(** [SELECT execution_id .. WHERE ..] of at most one row. *)
Definition find_row (p : ExecutionRow -> bool) (t : ExecutionTables) : option Uuid :=
  head (filter (fun e => p e.2) (map_to_list (executions t))).*1.
Definition same_identity {D} (d : AutomationExecutionDraft) (x : Execution D) : bool :=
  (ex_workspace_id x =? exd_workspace_id d)%N && (ex_schedule_id x =? exd_schedule_id d)%N
  && bool_decide (ex_trigger_kind x = exd_trigger_kind d) && bool_decide (ex_occurrence_key x = exd_occurrence_key d).
Definition same_idempotency_key {D} (d : AutomationExecutionDraft) (x : Execution D) : bool :=
  (ex_workspace_id x =? exd_workspace_id d)%N && bool_decide (ex_idempotency_key x = exd_idempotency_key d).

Definition find_execution_by_identity (t : ExecutionTables) (d : AutomationExecutionDraft)
  : Stored (option AutomationExecutionRecord) :=
  match find_row (same_identity d) t with
  | Some id => Some <$> execution_from_connection t id
  | None => Ok None
  end.

Definition TRIGGER_KINDS : list string := ["manual"; "schedule"; "event"].
(** The primary key, the [CHECK]s, the foreign keys and the two [UNIQUE]
    constraints of the table. *)
Definition may_insert (t : ExecutionTables) (d : AutomationExecutionDraft) (row : ExecutionRow) : bool :=
  bool_decide (executions t !! execution_id row = None) && bool_decide (ex_trigger_kind row ∈ TRIGGER_KINDS)
  && (str_len (ex_request_digest row) =? 64)%N
  && bool_decide (is_Some (workspaces (automation t) !! ex_workspace_id row))
  && bool_decide (is_Some (schedules (automation t) !! ex_schedule_id row))
  && bool_decide (find_row (same_identity d) t = None) && bool_decide (find_row (same_idempotency_key d) t = None).
Definition draft_row (d : AutomationExecutionDraft) : ExecutionRow :=
  mkExecution (exd_execution_id d) (exd_workspace_id d) (exd_schedule_id d) (exd_trigger_kind d) (exd_occurrence_key d)
    (exd_idempotency_key d) (hex_encode (exd_request_digest d)) (exd_job_id d) EAccepted None
    (exd_created_at d) (exd_created_at d).
Definition put_execution (t : ExecutionTables) (row : ExecutionRow) : ExecutionTables :=
  mkTables (automation t) (<[execution_id row := row]> (executions t)).

(** ** Operations *)

(** The execution a repeated request has made before. *)
Definition find_existing (t : ExecutionTables) (d : AutomationExecutionDraft) : Stored (option AutomationExecutionRecord) :=
  by_identity ← find_execution_by_identity t d;
  match by_identity, find_row (same_idempotency_key d) t with
  | Some identity, Some key =>
      if negb (execution_id identity =? key)%N
      then Err (InvalidDraft "automation idempotency identity conflicts") else Ok (Some identity)
  | Some identity, None => Ok (Some identity)
  | None, Some key => Some <$> execution_from_connection t key
  | None, None => Ok None
  end.

Definition create_automation_execution (t : ExecutionTables) (d : AutomationExecutionDraft)
  : Stored (ExecutionTables * AutomationExecutionCreateOutcome) :=
  try! validate_execution_draft d;
  match schedules (automation t) !! exd_schedule_id d with
  | None => Err (NotFound (exd_schedule_id d))
  | Some row =>
      if negb (sched_workspace_id row =? exd_workspace_id d)%N then Err (NotFound (exd_schedule_id d)) else
      existing ← find_existing t d;
      match existing with
      | Some existing =>
          if negb (bool_decide (ex_request_digest existing = exd_request_digest d))
          then Err (InvalidDraft "automation idempotency key was reused with a different request")
          else Ok (t, Replayed existing)
      | None =>
          if negb (may_insert t d (draft_row d)) then Err (AlreadyExists (exd_execution_id d)) else
          let t := put_execution t (draft_row d) in
          record ← execution_from_connection t (exd_execution_id d);
          Ok (t, Created record)
      end
  end.

Definition set_submitted (at_ : DateTime) (x : ExecutionRow) : ExecutionRow :=
  mkExecution (execution_id x) (ex_workspace_id x) (ex_schedule_id x) (ex_trigger_kind x) (ex_occurrence_key x)
    (ex_idempotency_key x) (ex_request_digest x) (ex_job_id x) ESubmitted None (ex_created_at x) at_.

Definition mark_automation_execution_submitted (t : ExecutionTables) (id job : Uuid) (submitted_at : DateTime)
  : Stored (ExecutionTables * AutomationExecutionRecord) :=
  if is_nil id || is_nil job then Err (InvalidDraft "automation execution identity") else
  existing ← execution_from_connection t id;
  if negb (ex_job_id existing =? job)%N then Err (Busy "automation execution Job identity changed") else
  if bool_decide (ex_state existing = ESubmitted) then Ok (t, existing) else
  match executions t !! id with
  | Some row =>
      if (ex_job_id row =? job)%N && bool_decide (ex_state row = EAccepted)
      then let t := put_execution t (set_submitted submitted_at row) in
           updated ← execution_from_connection t id;
           Ok (t, updated)
      else Err (Busy "automation execution changed while submitting")
  | None => Err (Busy "automation execution changed while submitting")
  end.

Definition get_automation_execution (t : ExecutionTables) (id : Uuid) : Stored AutomationExecutionRecord :=
  if is_nil id then Err (InvalidDraft "automation execution identity") else execution_from_connection t id.

(** ** Runs *)

(** [\[u8; 32\]] *)
Definition digest_ok (d : list N) : Prop := length d = 32 /\ Forall is_byte d.
(** A UUID has 128 bits, and an instant lies within 262143 years of the
    epoch. *)
Definition is_uuid (u : Uuid) : Prop := (u < 2 ^ 128)%N.
Definition is_instant (t : DateTime) : Prop := (- 2 ^ 73 < t < 2 ^ 73)%Z.
(** What the types of a draft's fields promise. *)
Record DraftTyped (d : AutomationExecutionDraft) : Prop := {
  typed_digest : digest_ok (exd_request_digest d);
  typed_id : is_uuid (exd_execution_id d);
  typed_created : is_instant (exd_created_at d);
}.

(** Requests arrive in any order, and the schedules change in between. *)
Inductive ExStep (t : ExecutionTables) : ExecutionTables -> Prop :=
| ex_create d t' o : DraftTyped d -> create_automation_execution t d = Ok (t', o) -> ExStep t t'
| ex_mark id job at_ t' r : mark_automation_execution_submitted t id job at_ = Ok (t', r) -> ExStep t t'
| ex_automation s : ExStep t (mkTables s (executions t)).
Definition ExReachable (t : ExecutionTables) : Prop := exists s, rtc ExStep (mkTables s ∅) t.

(** What the two [UNIQUE] constraints speak of, and what never changes. *)
Definition identity_of {D} (x : Execution D) : Uuid * Uuid * string * string :=
  (ex_workspace_id x, ex_schedule_id x, ex_trigger_kind x, ex_occurrence_key x).
Definition key_of {D} (x : Execution D) : Uuid * string := (ex_workspace_id x, ex_idempotency_key x).
Definition draft_identity (d : AutomationExecutionDraft) : Uuid * Uuid * string * string :=
  (exd_workspace_id d, exd_schedule_id d, exd_trigger_kind d, exd_occurrence_key d).
Definition draft_key (d : AutomationExecutionDraft) : Uuid * string := (exd_workspace_id d, exd_idempotency_key d).
Definition handoff {D} (x : Execution D) : Uuid * Uuid * (Uuid * Uuid * string * string) * (Uuid * string) * DateTime :=
  (execution_id x, ex_job_id x, identity_of x, key_of x, ex_created_at x).

Lemma same_identity_spec {D} d (x : Execution D) : same_identity d x = true <-> identity_of x = draft_identity d.
Proof.
  unfold same_identity, identity_of, draft_identity.
  rewrite !andb_true_iff, !N.eqb_eq, !bool_decide_eq_true. split; [by intros [[[-> ->] ->] ->]|by intros [= -> -> -> ->]].
Qed.
Lemma same_idempotency_key_spec {D} d (x : Execution D) : same_idempotency_key d x = true <-> key_of x = draft_key d.
Proof.
  unfold same_idempotency_key, key_of, draft_key. rewrite !andb_true_iff, !N.eqb_eq, !bool_decide_eq_true.
  split; [by intros [-> ->]|by intros [= -> ->]].
Qed.

Lemma find_row_Some p t id : find_row p t = Some id -> exists row, executions t !! id = Some row /\ p row = true.
Proof.
  unfold find_row. intros Hh%head_Some_elem_of. apply list_elem_of_fmap in Hh as ([i row] & -> & Hf).
  apply list_elem_of_filter in Hf as [Hp Hin%elem_of_map_to_list]. exists row. split; [done|]. by apply Is_true_true_1.
Qed.
Lemma find_row_None p t : find_row p t = None <-> forall id row, executions t !! id = Some row -> p row = false.
Proof.
  unfold find_row. rewrite head_None. split.
  - intros Hf%fmap_nil_inv id row Hr. apply not_true_is_false. intros Hp.
    assert ((id, row) ∈ filter (fun e : Uuid * ExecutionRow => p e.2) (map_to_list (executions t))) as Hin.
    { apply list_elem_of_filter. split; [by apply Is_true_true_2|by apply elem_of_map_to_list]. }
    rewrite Hf in Hin. by apply not_elem_of_nil in Hin.
  - intros Hno. replace (filter _ _) with (@nil (Uuid * ExecutionRow)); [done|]. symmetry.
    apply elem_of_nil_inv. intros [id row] [Hp Hin%elem_of_map_to_list]%list_elem_of_filter.
    apply Hno in Hin. cbn in Hp. by rewrite Hin in Hp.
Qed.

(** ** Well-formed tables *)

Record ExecutionOk (id : Uuid) (x : ExecutionRow) : Prop := {
  execution_key : execution_id x = id;
  execution_not_nil : id <> 0%N;
  execution_uuid : is_uuid id;
  execution_instant : is_instant (ex_created_at x);
  execution_digest : exists d, digest_ok d /\ ex_request_digest x = hex_encode d;
  execution_state : ex_state x = EAccepted \/ ex_state x = ESubmitted;
  execution_failure : ex_failure x = None;
}.
Record TablesOk (t : ExecutionTables) : Prop := {
  tables_rows id x : executions t !! id = Some x -> ExecutionOk id x;
  tables_identity i j x y : executions t !! i = Some x -> executions t !! j = Some y -> identity_of x = identity_of y -> i = j;
  tables_key i j x y : executions t !! i = Some x -> executions t !! j = Some y -> key_of x = key_of y -> i = j;
}.

Lemma parse_hex_digest d : digest_ok d -> parse_digest (hex_encode d) = Ok d.
Proof.
  intros [Hlen Hd]. unfold parse_digest. rewrite hex_length, hex_bytes, hex_pairs_encode by done.
  unfold len. by rewrite Hlen.
Qed.

Lemma execution_read t id x :
  TablesOk t -> executions t !! id = Some x ->
  exists d, digest_ok d /\ ex_request_digest x = hex_encode d /\ execution_from_connection t id = Ok (with_digest d x).
Proof.
  intros HT Hx. destruct (execution_digest _ _ (tables_rows _ HT _ _ Hx)) as (d & Hd & Heq). exists d.
  split_and!; [done|done|]. unfold execution_from_connection. rewrite Hx. cbn. by rewrite Heq, parse_hex_digest.
Qed.
Lemma execution_read_Ok t id r :
  execution_from_connection t id = Ok r ->
  exists x d, executions t !! id = Some x /\ parse_digest (ex_request_digest x) = Ok d /\ r = with_digest d x.
Proof. intros (x & Hx%ok_or_Ok & Hd)%bind_Ok. apply bind_Ok in Hd as (d & Hd & [= <-]). by exists x, d. Qed.

(** A new row, and a row that changes state only. *)
Lemma TablesOk_put t x :
  TablesOk t -> ExecutionOk (execution_id x) x ->
  (forall j y, j <> execution_id x -> executions t !! j = Some y -> identity_of y <> identity_of x /\ key_of y <> key_of x) ->
  TablesOk (put_execution t x).
Proof.
  intros [Hrows Hid Hkey] Hx Hnew.
  split; cbn [executions put_execution].
  - intros id y [[<- <-]|[_ Hy]]%lookup_insert_Some; [done|by apply Hrows].
  - intros i j y z [[<- <-]|[Hi Hy]]%lookup_insert_Some [[<- <-]|[Hj Hz]]%lookup_insert_Some Heq; [done| | |by eapply Hid].
    + by destruct (Hnew j z) as [[] _].
    + by destruct (Hnew i y) as [[] _].
  - intros i j y z [[<- <-]|[Hi Hy]]%lookup_insert_Some [[<- <-]|[Hj Hz]]%lookup_insert_Some Heq; [done| | |by eapply Hkey].
    + by destruct (Hnew j z) as [_ []].
    + by destruct (Hnew i y) as [_ []].
Qed.

(** What a successful creation has done. *)
Inductive CreateEffect (t : ExecutionTables) (d : AutomationExecutionDraft)
  : ExecutionTables -> AutomationExecutionCreateOutcome -> Prop :=
| create_replays id x digest :
    executions t !! id = Some x -> (identity_of x = draft_identity d \/ key_of x = draft_key d) ->
    parse_digest (ex_request_digest x) = Ok digest -> digest = exd_request_digest d ->
    CreateEffect t d t (Replayed (with_digest digest x))
| create_inserts digest :
    exd_execution_id d <> 0%N -> executions t !! exd_execution_id d = None ->
    (forall id x, executions t !! id = Some x -> identity_of x <> draft_identity d /\ key_of x <> draft_key d) ->
    parse_digest (hex_encode (exd_request_digest d)) = Ok digest ->
    CreateEffect t d (put_execution t (draft_row d)) (Created (with_digest digest (draft_row d))).

Lemma find_existing_Some t d r :
  find_existing t d = Ok (Some r) ->
  exists id x digest, executions t !! id = Some x /\ (identity_of x = draft_identity d \/ key_of x = draft_key d) /\
    parse_digest (ex_request_digest x) = Ok digest /\ r = with_digest digest x.
Proof.
  intros (by_identity & Hi & Hm)%bind_Ok. unfold find_execution_by_identity in Hi.
  destruct (find_row (same_identity d) t) as [id|] eqn:Hf.
  - apply fmap_Ok in Hi as (r' & Hr & <-). apply execution_read_Ok in Hr as (x & digest & Hx & Hd & ->).
    apply find_row_Some in Hf as (x' & Hx' & Hid%same_identity_spec). rewrite Hx in Hx'. injection Hx' as <-.
    exists id, x, digest. split_and!; [done|by left|done|].
    destruct (find_row (same_idempotency_key d) t); [destruct (negb _)|]; congruence.
  - injection Hi as <-. destruct (find_row (same_idempotency_key d) t) as [id|] eqn:Hk; [|done].
    apply fmap_Ok in Hm as (r' & Hr & [= <-]). apply execution_read_Ok in Hr as (x & digest & Hx & Hd & ->).
    apply find_row_Some in Hk as (x' & Hx' & Hkey%same_idempotency_key_spec). rewrite Hx in Hx'. injection Hx' as <-.
    exists id, x, digest. split_and!; [done|by right|done|done].
Qed.

Lemma draft_not_nil d : validate_execution_draft d = Ok tt -> exd_execution_id d <> 0%N.
Proof. intros Hv Hz. unfold validate_execution_draft in Hv. by rewrite Hz in Hv. Qed.

Lemma create_Effect_execution t d t' o : create_automation_execution t d = Ok (t', o) -> CreateEffect t d t' o.
Proof.
  intros ([] & Hv%draft_not_nil & Hc)%bind_Ok. destruct (schedules _ !! _) as [row|]; [|done].
  destruct (negb _); [done|]. apply bind_Ok in Hc as (existing & He & Hc). destruct existing as [r|].
  - apply find_existing_Some in He as (id & x & digest & Hx & Hsame & Hd & ->). case_bool_decide as Hdig; [|done].
    injection Hc as <- <-. by econstructor.
  - destruct (may_insert t d (draft_row d)) eqn:Hm; [|done]. cbn [negb] in Hc. cbv zeta in Hc.
    apply bind_Ok in Hc as (r & Hr & [= <- <-]). apply execution_read_Ok in Hr as (x & digest & Hx & Hd & ->).
    cbn [put_execution executions] in Hx. change (execution_id (draft_row d)) with (exd_execution_id d) in Hx.
    rewrite lookup_insert_eq in Hx. injection Hx as <-. unfold may_insert in Hm.
    rewrite !andb_true_iff, !bool_decide_eq_true in Hm. destruct Hm as [[[[[[Hnew _] _] _] _] Hi] Hk].
    constructor; [done|done| |done]. intros id x Hx. rewrite <- same_identity_spec, <- same_idempotency_key_spec.
    rewrite (proj1 (find_row_None _ _) Hi _ _ Hx), (proj1 (find_row_None _ _) Hk _ _ Hx). done.
Qed.

(** What marking does. *)
Lemma mark_Effect t id job at_ t' r :
  mark_automation_execution_submitted t id job at_ = Ok (t', r) ->
  exists x, executions t !! id = Some x /\ ex_job_id x = job /\
    (t' = t /\ ex_state x = ESubmitted /\ ex_state r = ESubmitted \/
     t' = put_execution t (set_submitted at_ x) /\ ex_state x = EAccepted /\
     (execution_id x = id -> ex_state r = ESubmitted)).
Proof.
  unfold mark_automation_execution_submitted. destruct (is_nil id || is_nil job); [done|].
  intros (existing & He & Hc)%bind_Ok. apply execution_read_Ok in He as (x & d & Hx & Hd & ->).
  destruct (N.eqb_spec (ex_job_id (with_digest d x)) job) as [Hj|]; [|done]. cbn [negb] in Hc. exists x.
  split; [done|]. split; [exact Hj|]. case_bool_decide as Hs; [injection Hc as <- <-; by left|]. right. rewrite Hx in Hc.
  destruct (N.eqb_spec (ex_job_id x) job) as [_|]; [|done]. cbn [andb] in Hc. case_bool_decide; [|done].
  cbv zeta in Hc. apply bind_Ok in Hc as (r' & Hr & [= <- <-]). split_and!; [done|done|]. intros Hid.
  apply execution_read_Ok in Hr as (y & e & Hy & _ & ->). cbn in Hy. rewrite Hid, lookup_insert_eq in Hy. by injection Hy as <-.
Qed.

Lemma step_TablesOk t t' : TablesOk t -> ExStep t t' -> TablesOk t'.
Proof.
  intros HT [d ? o Hd Hc%create_Effect_execution|id job at_ ? r Hm|s].
  - destruct Hc as [id x digest|digest Hnil Hnew Hno Hp]; [done|]. apply TablesOk_put; [done| |intros j y _; by apply Hno].
    destruct Hd as [Hdig Hu Hc]. split; [done|done|done|done|by exists (exd_request_digest d)|by left|done].
  - apply mark_Effect in Hm as (x & Hx & _ & [(-> & _)|(-> & Hs & _)]); [done|].
    pose proof (tables_rows _ HT _ _ Hx) as [Hid Hnil Hu Hc Hd _ _]. apply TablesOk_put; [done| |].
    + split; [done|by cbn; rewrite Hid|by cbn; rewrite Hid|done|done|by right|done].
    + cbn. intros j y Hj Hy. rewrite Hid in Hj. split; intros Heq; apply Hj;
        [by eapply (tables_identity _ HT)|by eapply (tables_key _ HT)].
  - destruct HT as [Hr Hi Hk]. by split.
Qed.
Lemma ex_reachable_Ok t : ExReachable t -> TablesOk t.
Proof.
  intros [s Hr]. assert (TablesOk (mkTables s ∅)) as H0 by (split; cbn; intros *; rewrite lookup_empty; done).
  induction Hr as [|t1 t2 t3 Hs _ IH]; [done|]. apply IH. by eapply step_TablesOk.
Qed.

(** A row keeps its hand-off, and a submitted row does not change at all. *)
Lemma step_row_kept t t' id x :
  TablesOk t -> ExStep t t' -> executions t !! id = Some x ->
  exists x', executions t' !! id = Some x' /\ handoff x' = handoff x /\ ex_request_digest x' = ex_request_digest x /\
    (ex_state x = ESubmitted -> x' = x).
Proof.
  intros HT [d ? o Hd Hc%create_Effect_execution|i job at_ ? r Hm|s] Hx; [| |by exists x].
  - destruct Hc as [|digest _ Hnew Hno Hp]; [by exists x|]. exists x. cbn [put_execution executions].
    rewrite lookup_insert_ne; [done|]. cbn. congruence.
  - apply mark_Effect in Hm as (y & Hy & _ & [(-> & _)|(-> & Hs & _)]); [by exists x|].
    pose proof (execution_key _ _ (tables_rows _ HT _ _ Hy)) as Hi. cbn. rewrite Hi.
    destruct (decide (i = id)) as [->|Hne]; [|exists x; by rewrite lookup_insert_ne].
    rewrite Hx in Hy. injection Hy as <-. rewrite lookup_insert_eq. eexists. split_and!; [done..|congruence].
Qed.
Lemma run_row_kept t t' id x :
  TablesOk t -> rtc ExStep t t' -> executions t !! id = Some x ->
  exists x', executions t' !! id = Some x' /\ handoff x' = handoff x /\ ex_request_digest x' = ex_request_digest x.
Proof.
  intros HT HR. revert x. induction HR as [t0|t1 t2 t3 Hs _ IH]; intros x Hx; [by exists x|].
  destruct (step_row_kept _ _ _ _ HT Hs Hx) as (x2 & Hx2 & Hh & Hd & _).
  destruct (IH (step_TablesOk _ _ HT Hs) x2 Hx2) as (x3 & ? & ? & ?). exists x3. split_and!; congruence.
Qed.
Lemma run_TablesOk t t' : TablesOk t -> rtc ExStep t t' -> TablesOk t'.
Proof. intros HT. induction 1 as [|t1 t2 t3 Hs _ IH]; [done|]. apply IH. by eapply step_TablesOk. Qed.

(** A draft that matches a row finds that row. *)
Lemma find_row_found p t id x :
  executions t !! id = Some x -> p x = true -> (forall j y, executions t !! j = Some y -> p y = true -> j = id) ->
  find_row p t = Some id.
Proof.
  intros Hx Hp Hu. destruct (find_row p t) as [j|] eqn:Hf.
  - apply find_row_Some in Hf as (y & Hy & Hpy). f_equal. by eapply Hu.
  - by rewrite (proj1 (find_row_None _ _) Hf _ _ Hx) in Hp.
Qed.

Lemma find_existing_found t d id x digest :
  TablesOk t -> executions t !! id = Some x -> identity_of x = draft_identity d -> key_of x = draft_key d ->
  execution_from_connection t id = Ok (with_digest digest x) ->
  find_existing t d = Ok (Some (with_digest digest x)).
Proof.
  intros HT Hx Hi Hk Hread. unfold find_existing, find_execution_by_identity.
  rewrite (find_row_found (same_identity d) t id x), (find_row_found (same_idempotency_key d) t id x), Hread; try done.
  - cbn. rewrite (execution_key _ _ (tables_rows _ HT _ _ Hx)), N.eqb_refl. done.
  - by apply same_idempotency_key_spec.
  - intros j y Hy Hs%same_idempotency_key_spec. eapply (tables_key _ HT); [done..|congruence].
  - by apply same_identity_spec.
  - intros j y Hy Hs%same_identity_spec. eapply (tables_identity _ HT); [done..|congruence].
Qed.

(** A request sent again: new identities and another time, the same
    content. *)
Record Retry (d d' : AutomationExecutionDraft) : Prop := {
  retry_identity : draft_identity d' = draft_identity d;
  retry_key : draft_key d' = draft_key d;
  retry_digest : exd_request_digest d' = exd_request_digest d;
  retry_ids : exd_execution_id d' <> 0%N /\ exd_job_id d' <> 0%N;
}.

Lemma retry_validates d d' : validate_execution_draft d = Ok tt -> Retry d d' -> validate_execution_draft d' = Ok tt.
Proof.
  intros Hv [Hi Hk _ [He Hj]]. unfold validate_execution_draft in *. injection Hi as Hw Hs Ht Ho. injection Hk as _ Hk.
  rewrite Hw, Hs, Ht, Ho, Hk. unfold is_nil in *.
  rewrite (proj2 (N.eqb_neq _ _) He), (proj2 (N.eqb_neq _ _) Hj).
  destruct (exd_workspace_id d =? 0)%N, (exd_schedule_id d =? 0)%N, (exd_execution_id d =? 0)%N, (exd_job_id d =? 0)%N;
    done.
Qed.

(** The execution found is the only one the draft matches in any way. *)
Lemma find_existing_only t d r j y :
  TablesOk t -> find_existing t d = Ok (Some r) -> executions t !! j = Some y ->
  (identity_of y = draft_identity d \/ key_of y = draft_key d) -> execution_id r = j.
Proof.
  intros HT (by_identity & Hi & Hm)%bind_Ok Hy Hmatch. unfold find_execution_by_identity in Hi.
  assert (forall id r, execution_from_connection t id = Ok r -> execution_id r = id) as Hread.
  { intros id r' (x & e & Hx & _ & ->)%execution_read_Ok. by apply (tables_rows _ HT) in Hx as []. }
  destruct Hmatch as [Hid|Hkey].
  - rewrite (find_row_found (same_identity d) t j y) in Hi; [|done|by apply same_identity_spec|].
    + apply fmap_Ok in Hi as (r' & Hr%Hread & <-). destruct (find_row (same_idempotency_key d) t); [destruct (negb _)|]; congruence.
    + intros i z Hz Hs%same_identity_spec. eapply (tables_identity _ HT); [done..|congruence].
  - rewrite (find_row_found (same_idempotency_key d) t j y) in Hm; [|done|by apply same_idempotency_key_spec|].
    + destruct by_identity as [identity|].
      * destruct (N.eqb_spec (execution_id identity) j); cbn [negb] in Hm; congruence.
      * apply fmap_Ok in Hm as (r' & Hr%Hread & [= <-]). done.
    + intros i z Hz Hs%same_idempotency_key_spec. eapply (tables_key _ HT); [done..|congruence].
Qed.

(** A creation that matches an existing row replays it. *)
Lemma create_matching t d t' o j y :
  TablesOk t -> create_automation_execution t d = Ok (t', o) -> executions t !! j = Some y ->
  (identity_of y = draft_identity d \/ key_of y = draft_key d) ->
  t' = t /\ o = Replayed (with_digest (exd_request_digest d) y) /\
  parse_digest (ex_request_digest y) = Ok (exd_request_digest d).
Proof.
  intros HT Hc Hy Hmatch. pose proof Hc as He%create_Effect_execution.
  destruct He as [id x digest Hx _ Hd ->|digest _ _ Hno _].
  2: { destruct (Hno _ _ Hy) as [? ?]. by destruct Hmatch. }
  split; [done|]. unfold create_automation_execution in Hc. apply bind_Ok in Hc as (_ & _ & Hc).
  destruct (schedules _ !! _); [|done]. destruct (negb _); [done|]. apply bind_Ok in Hc as (existing & Hf & Hc).
  destruct existing as [r|]; [|destruct (negb _); [done|]; cbv zeta in Hc; by apply bind_Ok in Hc as (? & _ & [=])].
  destruct (negb _); [done|]. injection Hc as ->.
  apply (find_existing_only _ _ _ _ _ HT Hf Hy) in Hmatch. cbn in Hmatch.
  rewrite (execution_key _ _ (tables_rows _ HT _ _ Hx)) in Hmatch. subst j. rewrite Hx in Hy. by injection Hy as <-.
Qed.

(** ** Claims *)

(** C10: an execution is handed off once.  After a request has created an
    execution, and whatever other requests, marks and schedule changes come
    in between, every request with the same identity or the same idempotency
    key that succeeds changes nothing and answers with the execution first
    made, job included, and it carried the same digest; the same request sent
    again does succeed while its schedule is in place; and the execution is
    marked submitted for that job only. *)
Theorem execution_handoff_once (t0 t1 t2 : ExecutionTables) (d : AutomationExecutionDraft) (r : AutomationExecutionRecord) :
  ExReachable t0 -> DraftTyped d -> create_automation_execution t0 d = Ok (t1, Created r) ->
  rtc ExStep t1 t2 ->
  (forall d' t3 o, (draft_identity d' = draft_identity d \/ draft_key d' = draft_key d) ->
    create_automation_execution t2 d' = Ok (t3, o) ->
    t3 = t2 /\ exists r', o = Replayed r' /\ handoff r' = handoff r /\ exd_request_digest d' = exd_request_digest d) /\
  (forall d' row, Retry d d' -> schedules (automation t2) !! exd_schedule_id d = Some row ->
    sched_workspace_id row = exd_workspace_id d ->
    exists r', create_automation_execution t2 d' = Ok (t2, Replayed r') /\ handoff r' = handoff r) /\
  (forall job at_ t3 r', mark_automation_execution_submitted t2 (execution_id r) job at_ = Ok (t3, r') ->
    job = ex_job_id r /\ ex_state r' = ESubmitted).
Proof.
  intros H0%ex_reachable_Ok Hd Hc HR. assert (TablesOk t1) as H1 by (eapply step_TablesOk; [done|by eapply ex_create]).
  pose proof (run_TablesOk _ _ H1 HR) as H2. pose proof Hc as He%create_Effect_execution.
  inversion He as [|digest _ Hnew Hno Hp]; subst. pose proof (typed_digest _ Hd) as Hdd.
  rewrite parse_hex_digest in Hp by done. injection Hp as <-.
  destruct (run_row_kept _ _ (exd_execution_id d) (draft_row d) H1 HR) as (y & Hy & Hh & Hdig);
    [apply lookup_insert_eq|].
  assert (identity_of y = draft_identity d) as Hi by exact (f_equal (fun h => h.1.1.2) Hh).
  assert (key_of y = draft_key d) as Hk by exact (f_equal (fun h => h.1.2) Hh).
  assert (parse_digest (ex_request_digest y) = Ok (exd_request_digest d)) as Hparse by by rewrite Hdig, <- parse_hex_digest.
  split_and!.
  - intros d' t3 o Hsame Hc'. destruct (create_matching _ _ _ _ _ _ H2 Hc' Hy) as (-> & -> & Hp'); [|].
    { rewrite Hi, Hk. destruct Hsame as [Hs|Hs]; rewrite Hs; auto. }
    split; [done|]. eexists. split; [done|]. split; [exact Hh|]. congruence.
  - intros d' row Hretry Hrow Hws. exists (with_digest (exd_request_digest d) y). split; [|exact Hh].
    pose proof Hc as (u & Hv & _)%bind_Ok. destruct u. unfold create_automation_execution.
    rewrite (retry_validates _ _ Hv Hretry). cbn [mbind result_bind].
    destruct Hretry as [Hi' Hk' Hd' _]. pose proof Hi' as Hi2. injection Hi2 as Hw Hs Ht Ho. rewrite Hs, Hrow, Hws, Hw, N.eqb_refl. cbn [negb].
    rewrite (find_existing_found _ d' _ y (exd_request_digest d) H2 Hy); [|congruence|congruence|].
    + cbn. rewrite bool_decide_eq_true_2 by done. done.
    + unfold execution_from_connection. rewrite Hy. cbn. by rewrite Hparse.
  - intros job at_ t3 r' Hm. change (execution_id (with_digest (exd_request_digest d) (draft_row d))) with (exd_execution_id d) in Hm.
    apply mark_Effect in Hm as (x & Hx & <- & Hm). rewrite Hy in Hx. injection Hx as <-.
    split; [exact (f_equal (fun h => h.1.1.1.2) Hh)|]. destruct Hm as [(_ & _ & ?)|(_ & _ & Hs)]; [done|].
    apply Hs. by apply (execution_key _ _ (tables_rows _ H2 _ _ Hy)).
Qed.

(** A schedule, a request by hand and the same request again. *)
Definition example_store : AutomationStore :=
  mkStore {[1%N := "active"]}
    {[2%N := mkSchedule 2%N 1%N (Interval 60) "UTC" JNull SActive 100%Z (Some 100%Z) None None None 1 0 1 None 100%Z 100%Z]}.
Definition example_request (id job : Uuid) (at_ : DateTime) : AutomationExecutionDraft :=
  mkExecutionDraft id 1%N 2%N "manual" "manual:1" "request-1" (replicate 32 7%N) job at_.
Definition example_tables : ExecutionTables := mkTables example_store ∅.
Definition example_recorded : ExecutionTables := put_execution example_tables (draft_row (example_request 5%N 6%N 100%Z)).
Definition example_record : AutomationExecutionRecord :=
  with_digest (replicate 32 7%N) (draft_row (example_request 5%N 6%N 100%Z)).

Lemma example_typed : DraftTyped (example_request 5%N 6%N 100%Z).
Proof. split; [split; [reflexivity|apply Forall_replicate; reflexivity]|reflexivity|split; reflexivity]. Qed.
Lemma example_creates :
  create_automation_execution example_tables (example_request 5%N 6%N 100%Z) = Ok (example_recorded, Created example_record).
Proof. vm_compute. reflexivity. Qed.

Lemma execution_handoff_once_witness : exists r',
  create_automation_execution example_recorded (example_request 8%N 9%N 200%Z) = Ok (example_recorded, Replayed r') /\
  handoff r' = handoff example_record.
Proof.
  refine (proj1 (proj2 (execution_handoff_once example_tables example_recorded example_recorded
    (example_request 5%N 6%N 100%Z) example_record _ _ _ _)) (example_request 8%N 9%N 200%Z)
    (mkSchedule 2%N 1%N (Interval 60) "UTC" JNull SActive 100%Z (Some 100%Z) None None None 1 0 1 None 100%Z 100%Z) _ _ _).
  - exact (ex_intro _ example_store (rtc_refl _ _)).
  - exact example_typed.
  - exact example_creates.
  - exact (rtc_refl _ _).
  - split; [reflexivity|reflexivity|reflexivity|split; discriminate].
  - vm_compute. reflexivity.
  - vm_compute. reflexivity.
Defined.
