(* ===== verification/History.v ===== *)
(** * Paging through the execution history

    [list_automation_executions] and [list_automation_schedules_page] of
    [stillflow-storage/src/automation_api.rs], and [list_automation_history]
    of [stillflow-api/src/automation.rs] with its cursors.  A cursor is the
    sort key of the last record of a page, as hexadecimal JSON. *)

From S2P Require Import Prelude Text Secrets Logical Nodes Registry Schedule Automation Keyset Hex Executions.

(** ** Storage *)

Record AutomationScheduleCursor := mkScheduleCursor {
  sc_created_at : DateTime;
  sc_execution_id : Uuid;
}.
Record AutomationExecutionCursor := mkExecutionCursor {
  ec_created_at : DateTime;
  ec_execution_id : Uuid;
}.

Definition execution_sort_key {D} (x : Execution D) : SortKey := (ex_created_at x, execution_id x).
(** The executions of a schedule, by key. *)
Definition in_scope {D} (workspace schedule : Uuid) (x : Execution D) : bool :=
  (ex_workspace_id x =? workspace)%N && (ex_schedule_id x =? schedule)%N.
Definition execution_keys (t : ExecutionTables) (workspace schedule : Uuid) : list SortKey :=
  omap (fun e => if in_scope workspace schedule e.2 then Some (ex_created_at e.2, e.1) else None)
    (map_to_list (executions t)).

Definition list_automation_executions (t : ExecutionTables) (workspace schedule : Uuid)
  (cursor : option AutomationExecutionCursor) (limit : N) : Stored (list AutomationExecutionRecord) :=
  if is_nil workspace || is_nil schedule || (limit =? 0)%N || (MAX_AUTOMATION_HISTORY_PAGE_SIZE <? limit)%N
  then Err (InvalidDraft "automation history page bound is invalid") else
  collect (fun key =>
      record ← execution_from_connection t key.2;
      if negb (ex_workspace_id record =? workspace)%N || negb (ex_schedule_id record =? schedule)%N
      then Err (Serialization "automation history scope mismatch") else Ok record)
    (key_page newer_le ((fun c => (ec_created_at c, ec_execution_id c)) <$> cursor) (N.to_nat limit)
       (execution_keys t workspace schedule)).

Definition schedule_keys (s : AutomationStore) (workspace : Uuid) : list SortKey :=
  omap (fun e => if (sched_workspace_id e.2 =? workspace)%N then Some (created_at e.2, e.1) else None)
    (map_to_list (schedules s)).
Definition list_automation_schedules_page `{Chrono} (s : AutomationStore) (workspace : Uuid)
  (cursor : option AutomationScheduleCursor) (limit : N) : Stored (list AutomationScheduleRecord) :=
  if is_nil workspace || (limit =? 0)%N || (MAX_AUTOMATION_HISTORY_PAGE_SIZE <? limit)%N
  then Err (InvalidDraft "automation list page bound is invalid") else
  collect (fun key =>
      record ← get_automation_schedule s key.2;
      if negb (sched_workspace_id record =? workspace)%N
      then Err (Serialization "automation workspace mismatch") else Ok record)
    (key_page due_le ((fun c => (sc_created_at c, sc_execution_id c)) <$> cursor) (N.to_nat limit)
       (schedule_keys s workspace)).

(** ** The API *)

Inductive ApiErrorCode :=
| UnsupportedVersion | InvalidRequest | ApiNotFound | Conflict | LimitExceeded | Unauthorized | Internal.
Record ApiError := mkApiError {
  api_code : ApiErrorCode;
  api_message : string;
}.
Notation ApiResult := (result ApiError).
Definition api_invalid (message : string) : ApiError := mkApiError InvalidRequest message.
Definition api_not_found : ApiError := mkApiError ApiNotFound "object was not found".
Definition api_conflict (message : string) : ApiError := mkApiError Conflict message.
Definition api_limit (message : string) : ApiError := mkApiError LimitExceeded message.
Definition api_internal : ApiError := mkApiError Internal "internal API error".
(** [From<StorageError>], on the errors the store returns here; a panic is
    none of them and never gets here. *)
Definition from_storage (e : StorageError) : ApiError :=
  match e with
  | NotFound _ | IdentityNotFound => api_not_found
  | AlreadyExists _ | IdentityAlreadyExists => api_conflict "object already exists or the request conflicts with current state"
  | Busy _ => api_limit "the operation is temporarily busy or bounded"
  | InvalidDraft _ | InvalidTimestampOrder _ | InvalidManifest _ | InvalidConfiguration _ | ArithmeticOverflow _
  | Database _ | Serialization _ | Identity _ =>
      api_invalid "storage rejected the request"
  | Panic _ => api_internal
  end.

Record AutomationHistoryCursorWire := mkWire {
  wire_api_version : N;
  wire_workspace_id : Uuid;
  wire_automation_id : Uuid;
  wire_created_at : DateTime;
  wire_execution_id : Uuid;
  wire_sort : string;
}.
Definition HISTORY_SORT : string := "created_at_desc_execution_id_desc".

Record AutomationExecutionView := mkView {
  view_execution_id : Uuid;
  view_automation_id : Uuid;
  view_workspace_id : Uuid;
  view_trigger_kind : string;
  view_occurrence_key : string;
  view_idempotency_key : string;
  view_job_id : Uuid;
  view_state : string;
  view_failure : option string;
  view_created_at : DateTime;
  view_updated_at : DateTime;
}.
Definition execution_view (r : AutomationExecutionRecord) : AutomationExecutionView :=
  mkView (execution_id r) (ex_schedule_id r) (ex_workspace_id r) (ex_trigger_kind r) (ex_occurrence_key r)
    (ex_idempotency_key r) (ex_job_id r)
    (match ex_state r with
     | EAccepted => "accepted" | ESubmitted => "submitted" | EFailed => "failed" | ESkipped => "skipped"
     end)
    (ex_failure r) (ex_created_at r) (ex_updated_at r).

Record AutomationHistoryPageView := mkPage {
  page_executions : list AutomationExecutionView;
  page_next : option string;
}.

(** [serde_json] on cursors and pages. *)
Class HistorySerde := {
  cursor_to_vec : AutomationHistoryCursorWire -> option (list N);
  cursor_from_slice : list N -> option AutomationHistoryCursorWire;
  page_to_vec : AutomationHistoryPageView -> option (list N);
}.
(** A cursor is a handful of short fields: it serialises, into at most two
    kibibytes, and reads back. *)
Class HistorySerdeLaws `(HistorySerde) : Prop := {
  cursor_bytes c : (wire_api_version c < 65536)%N -> is_uuid (wire_workspace_id c) -> is_uuid (wire_automation_id c) ->
    is_instant (wire_created_at c) -> is_uuid (wire_execution_id c) -> wire_sort c = HISTORY_SORT ->
    exists bytes, cursor_to_vec c = Some bytes /\ Forall is_byte bytes /\ (0 < len bytes <= 2048)%N /\
      cursor_from_slice bytes = Some c;
}.

Section api.
Context `{Chrono} `{HistorySerde}.
(** The configured bound of a response, and the version, the workspace and
    the automation of the request. *)
Context (max_response_bytes api_version : N) (workspace automation_id : Uuid).

Definition bounded_automation_limit (limit : N) : ApiResult N :=
  if (limit =? 0)%N || (MAX_AUTOMATION_HISTORY_PAGE_SIZE <? limit)%N
  then Err (api_limit "automation page size exceeds its bound") else Ok limit.
Definition ensure_scope (object_workspace request_workspace : Uuid) : ApiResult unit :=
  if (object_workspace =? request_workspace)%N then Ok tt else Err api_not_found.

Definition encode_cursor (c : AutomationHistoryCursorWire) : ApiResult string :=
  bytes ← ok_or (cursor_to_vec c) api_internal;
  if (2 * 1024 <? len bytes)%N then Err (api_limit "automation cursor exceeds its bound") else Ok (hex_encode bytes).
Definition decode_cursor (value : string) : ApiResult AutomationHistoryCursorWire :=
  if (str_len value =? 0)%N || (4096 <? str_len value)%N then Err (api_invalid "automation cursor is invalid") else
  bytes ← ok_or (hex_decode value) (api_invalid "automation cursor is invalid");
  ok_or (cursor_from_slice bytes) (api_invalid "automation cursor is invalid").
Definition decode_history_cursor (value : string) : ApiResult AutomationExecutionCursor :=
  c ← decode_cursor value;
  if negb (wire_api_version c =? api_version)%N || negb (wire_workspace_id c =? workspace)%N
     || negb (wire_automation_id c =? automation_id)%N || is_nil (wire_execution_id c)
     || negb (bool_decide (wire_sort c = HISTORY_SORT))
  then Err (api_invalid "automation history cursor is invalid")
  else Ok (mkExecutionCursor (wire_created_at c) (wire_execution_id c)).

Definition ensure_response_bound (view : AutomationHistoryPageView) : ApiResult unit :=
  bytes ← ok_or (page_to_vec view) api_internal;
  if (max_response_bytes <? len bytes)%N then Err (api_limit "API response exceeds its bound") else Ok tt.

(** The cursor of the page after [records]. *)
Definition next_cursor (limit : N) (records : list AutomationExecutionRecord) : ApiResult (option string) :=
  if (len records =? limit)%N
  then match last records with
       | Some record => Some <$> encode_cursor (mkWire api_version workspace automation_id (ex_created_at record)
                                                  (execution_id record) HISTORY_SORT)
       | None => Ok None
       end
  else Ok None.

(** The request after its metadata and capability have been checked. *)
Definition list_automation_history (t : ExecutionTables) (limit : N) (cursor : option string)
  : ApiResult AutomationHistoryPageView :=
  limit ← bounded_automation_limit limit;
  schedule ← map_err from_storage (get_automation_schedule (automation t) automation_id);
  try! ensure_scope (sched_workspace_id schedule) workspace;
  cursor ← match cursor with
           | Some value => Some <$> decode_history_cursor value
           | None => Ok None
           end;
  records ← map_err from_storage (list_automation_executions t workspace automation_id cursor limit);
  next ← next_cursor limit records;
  let view := mkPage (execution_view <$> records) next in
  try! ensure_response_bound view;
  Ok view.

(** A client that follows [next] until there is none; [None] when it gives up
    after [pages] pages. *)
Fixpoint read_history (pages : nat) (t : ExecutionTables) (limit : N) (cursor : option string)
  : option (ApiResult (list AutomationExecutionView)) :=
  match pages with
  | 0 => None
  | S pages =>
      match list_automation_history t limit cursor with
      | Err e => Some (Err e)
      | Ok view =>
          match page_next view with
          | None => Some (Ok (page_executions view))
          | Some next =>
              match read_history pages t limit (Some next) with
              | Some (Ok rest) => Some (Ok (page_executions view ++ rest))
              | other => other
              end
          end
      end
  end.
End api.

(** ** The records behind the keys *)

Lemma execution_keys_elem t ws a key :
  key ∈ execution_keys t ws a <->
  exists x, executions t !! key.2 = Some x /\ in_scope ws a x = true /\ key.1 = ex_created_at x.
Proof.
  unfold execution_keys. rewrite list_elem_of_omap. split.
  - intros ([id x] & Hx%elem_of_map_to_list & Hk). cbn in Hk. destruct (in_scope ws a x) eqn:Hs; [|done].
    injection Hk as <-. by exists x.
  - intros (x & Hx & Hs & Hk). exists (key.2, x). split; [by apply elem_of_map_to_list|]. cbn. rewrite Hs, <- Hk.
    by destruct key.
Qed.
Lemma execution_keys_NoDup t ws a : NoDup (execution_keys t ws a).
Proof.
  apply (NoDup_fmap_1 snd). eapply sublist_NoDup; [apply (NoDup_fst_map_to_list (executions t))|].
  unfold execution_keys. induction (map_to_list (executions t)) as [|[id x] l IH]; [constructor|].
  cbn [omap list_omap fmap list_fmap fst snd]. destruct (in_scope ws a x); [by apply sublist_skip|by apply sublist_cons].
Qed.

(** The record of a listed key, as [list_automation_executions] reads it. *)
Definition read_key (t : ExecutionTables) (ws a : Uuid) (key : SortKey) : Stored AutomationExecutionRecord :=
  record ← execution_from_connection t key.2;
  if negb (ex_workspace_id record =? ws)%N || negb (ex_schedule_id record =? a)%N
  then Err (Serialization "automation history scope mismatch") else Ok record.
Definition listed (t : ExecutionTables) (ws a : Uuid) (r : AutomationExecutionRecord) : Prop :=
  execution_from_connection t (execution_id r) = Ok r /\ in_scope ws a r = true.

Lemma read_key_Ok t ws a key :
  TablesOk t -> key ∈ execution_keys t ws a -> exists r, read_key t ws a key = Ok r /\ execution_sort_key r = key /\ listed t ws a r.
Proof.
  intros HT (x & Hx & Hs & Hk)%execution_keys_elem. destruct (execution_read _ _ _ HT Hx) as (d & _ & _ & Hr).
  exists (with_digest d x). unfold read_key, listed, execution_sort_key. rewrite Hr. cbn [mbind result_bind].
  pose proof (execution_key _ _ (tables_rows _ HT _ _ Hx)) as Hid. cbn. rewrite Hid, Hr.
  assert (in_scope ws a (with_digest d x) = true) as Hs' by exact Hs. unfold in_scope in Hs. apply andb_true_iff in Hs as [-> ->].
  split_and!; [done| |done|done]. rewrite <- Hk. by destruct key.
Qed.

Lemma collect_keys t ws a keys :
  TablesOk t -> (forall key, key ∈ keys -> key ∈ execution_keys t ws a) ->
  exists rs, collect (read_key t ws a) keys = Ok rs /\ execution_sort_key <$> rs = keys /\ Forall (listed t ws a) rs.
Proof.
  intros HT. induction keys as [|key keys IH]; intros Hin; [by exists []|].
  destruct (read_key_Ok t ws a key HT) as (r & Hr & Hk & Hl); [apply Hin; by left|].
  destruct IH as (rs & Hrs & Hks & Hls); [intros k Hk'; apply Hin; by right|].
  exists (r :: rs). cbn [collect]. rewrite Hr. cbn [mbind result_bind]. rewrite Hrs. cbn. split_and!; [done|congruence|by constructor].
Qed.

Lemma collect_keys_app t ws a keys1 keys2 rs1 rs2 :
  collect (read_key t ws a) keys1 = Ok rs1 -> collect (read_key t ws a) keys2 = Ok rs2 ->
  collect (read_key t ws a) (keys1 ++ keys2) = Ok (rs1 ++ rs2).
Proof. rewrite !collect_Ok. apply Forall2_app. Qed.

(** Every page of at most [limit] executions of the automation, with the
    cursor it is handed out with, serialises within the bound of a response. *)
Definition pages_fit `{HistorySerde} (max_response_bytes api_version : N) (ws a : Uuid) (limit : N) (t : ExecutionTables) : Prop :=
  forall rs next, Forall (listed t ws a) rs -> (len rs <= limit)%N -> next_cursor api_version ws a limit rs = Ok next ->
    exists bytes, page_to_vec (mkPage (execution_view <$> rs) next) = Some bytes /\ (len bytes <= max_response_bytes)%N.

(** ** Cursors read back *)

Section walk.
Context `{Chrono} `{HS : HistorySerde} `{!HistorySerdeLaws HS}.
Context (max_response_bytes api_version : N) (ws a : Uuid) (limit : N) (t : ExecutionTables).
Context (Hversion : (api_version < 65536)%N) (Hwu : is_uuid ws) (Hau : is_uuid a).

Lemma history_cursor_roundtrip (r : AutomationExecutionRecord) :
  execution_id r <> 0%N -> is_uuid (execution_id r) -> is_instant (ex_created_at r) ->
  exists text, encode_cursor (mkWire api_version ws a (ex_created_at r) (execution_id r) HISTORY_SORT) = Ok text /\
    decode_history_cursor api_version ws a text = Ok (mkExecutionCursor (ex_created_at r) (execution_id r)).
Proof.
  intros Hr Hu Hc. set (c := mkWire api_version ws a (ex_created_at r) (execution_id r) HISTORY_SORT).
  destruct (cursor_bytes c) as (bytes & Hb & Hbytes & Hlen & Hread); [done..|]. exists (hex_encode bytes).
  unfold decode_history_cursor, encode_cursor, decode_cursor. rewrite Hb. cbn [ok_or mbind result_bind].
  destruct (N.ltb_spec (2 * 1024) (len bytes)); [lia|]. split; [done|].
  rewrite hex_length, hex_roundtrip by done.
  destruct (N.eqb_spec (2 * len bytes) 0); [lia|]. destruct (N.ltb_spec 4096 (2 * len bytes)); [lia|].
  cbn [orb ok_or mbind result_bind]. rewrite Hread. cbn.
  rewrite !N.eqb_refl, bool_decide_eq_true_2 by done. unfold is_nil. by rewrite (proj2 (N.eqb_neq _ _) Hr).
Qed.

(** ** Following the cursors *)

Context (HT : TablesOk t) (Hws : ws <> 0%N) (Ha : a <> 0%N) (Hlimit : (1 <= limit <= 100)%N).
Context (row : AutomationScheduleRecord) (Hrow : get_automation_schedule (automation t) a = Ok row)
  (Hscope : sched_workspace_id row = ws).
Context (Hfits : pages_fit max_response_bytes api_version ws a limit t).
Notation page := (list_automation_history max_response_bytes api_version ws a t limit).
Notation sorted_keys := (merge_sort newer_le (execution_keys t ws a)).

(** The cursor stands after the keys [seen]. *)
Definition at_cursor (seen : list SortKey) (cursor : option string) : Prop :=
  match cursor with
  | None => seen = []
  | Some text => exists c, last seen = Some (ec_created_at c, ec_execution_id c) /\
                   decode_history_cursor api_version ws a text = Ok c
  end.

Lemma page_keys seen rest (cursor : option AutomationExecutionCursor) :
  sorted_keys = seen ++ rest ->
  (seen = [] /\ cursor = None \/ exists c, cursor = Some c /\ last seen = Some (ec_created_at c, ec_execution_id c)) ->
  key_page newer_le ((fun c => (ec_created_at c, ec_execution_id c)) <$> cursor) (N.to_nat limit) (execution_keys t ws a) =
  take (N.to_nat limit) rest.
Proof.
  intros Hk [[-> ->]|(c & -> & Hl)].
  - change (key_page newer_le None (N.to_nat limit) (execution_keys t ws a) = take (N.to_nat limit) rest).
    rewrite (key_page_first newer_le), Hk. done.
  - apply last_Some in Hl as [seen' ->].
    eapply (key_page_next newer_le _ _ seen'); [apply execution_keys_NoDup|]. by rewrite Hk, <- app_assoc.
Qed.

(** The cursor a page of records ends with. *)
Lemma next_cursor_page seen rs :
  Forall (listed t ws a) rs ->
  exists next, next_cursor api_version ws a limit rs = Ok next /\
    ((len rs =? limit)%N = false /\ next = None \/
     (len rs =? limit)%N = true /\ exists text, next = Some text /\ at_cursor (seen ++ (execution_sort_key <$> rs)) (Some text)).
Proof.
  intros Hl. unfold next_cursor. destruct (N.eqb_spec (len rs) limit) as [Hlen|]; [|eauto].
  destruct (last rs) as [r|] eqn:Hlast.
  2: { apply last_None in Hlast as ->. unfold len in Hlen. cbn in Hlen. lia. }
  apply last_Some in Hlast as [rs' ->]. apply Forall_app in Hl as [_ [[Hr Hs] _]%Forall_cons].
  apply execution_read_Ok in Hr as (x & d & Hx & _ & Hr).
  destruct (history_cursor_roundtrip r) as (text & He & Hd); [by apply (tables_rows _ HT) in Hx as []| |subst r; by apply (tables_rows _ HT) in Hx as []|].
  { by apply (tables_rows _ HT) in Hx as []. }
  rewrite He. cbn. eexists. split; [done|]. right. split; [done|]. exists text. split; [done|].
  cbn [at_cursor]. eexists. split; [|exact Hd]. rewrite fmap_app, app_assoc. apply last_snoc.
Qed.

Lemma history_page seen rest cursor rs :
  sorted_keys = seen ++ rest -> at_cursor seen cursor ->
  collect (read_key t ws a) (take (N.to_nat limit) rest) = Ok rs -> Forall (listed t ws a) rs ->
  execution_sort_key <$> rs = take (N.to_nat limit) rest ->
  exists next, page cursor = Ok (mkPage (execution_view <$> rs) next) /\
    ((len rs =? limit)%N = false /\ next = None \/
     (len rs =? limit)%N = true /\ exists text, next = Some text /\
       at_cursor (seen ++ take (N.to_nat limit) rest) (Some text)).
Proof.
  intros Hk Hcur Hrs Hl Hkeys. destruct (next_cursor_page seen rs Hl) as (next & Hnext & Hcase). rewrite Hkeys in Hcase.
  exists next. split; [|done]. unfold list_automation_history, bounded_automation_limit.
  destruct (N.eqb_spec limit 0) as [|_]; [lia|].
  destruct (N.ltb_spec MAX_AUTOMATION_HISTORY_PAGE_SIZE limit) as [Hbad|_]; [unfold MAX_AUTOMATION_HISTORY_PAGE_SIZE in Hbad; lia|].
  cbn [orb mbind result_bind]. rewrite Hrow. cbn [map_err mbind result_bind]. unfold ensure_scope. rewrite Hscope, N.eqb_refl.
  cbn [mbind result_bind].
  assert (exists c, (match cursor with Some value => Some <$> decode_history_cursor api_version ws a value | None => Ok None end) = Ok c /\
    list_automation_executions t ws a c limit = Ok rs) as (c & -> & Hlist).
  { unfold list_automation_executions, is_nil. rewrite (proj2 (N.eqb_neq _ _) Hws), (proj2 (N.eqb_neq _ _) Ha).
    destruct (N.eqb_spec limit 0) as [|_]; [lia|].
    destruct (N.ltb_spec MAX_AUTOMATION_HISTORY_PAGE_SIZE limit) as [Hbad|_]; [unfold MAX_AUTOMATION_HISTORY_PAGE_SIZE in Hbad; lia|].
    cbn [orb]. destruct cursor as [text|].
    - destruct Hcur as (c & Hlast & Hdec). exists (Some c). rewrite Hdec. split; [done|].
      rewrite (page_keys seen rest) by eauto. exact Hrs.
    - exists None. split; [done|]. rewrite (page_keys seen rest) by eauto. exact Hrs. }
  cbn [mbind result_bind]. rewrite Hlist. cbn [map_err mbind result_bind]. rewrite Hnext. cbn [mbind result_bind]. cbv zeta.
  unfold ensure_response_bound. destruct (Hfits rs next Hl) as (bytes & -> & Hb); [|done|].
  { unfold len. rewrite <- (length_fmap execution_sort_key), Hkeys, length_take. lia. }
  cbn [ok_or mbind result_bind]. by rewrite (proj2 (N.ltb_ge _ _) Hb).
Qed.

Lemma read_history_rest pages : forall seen rest cursor,
  sorted_keys = seen ++ rest -> at_cursor seen cursor -> length rest < pages ->
  exists rs, collect (read_key t ws a) rest = Ok rs /\ execution_sort_key <$> rs = rest /\ Forall (listed t ws a) rs /\
    read_history max_response_bytes api_version ws a pages t limit cursor = Some (Ok (execution_view <$> rs)).
Proof.
  induction pages as [|pages IH]; intros seen rest cursor Hk Hcur Hpages; [lia|].
  assert (forall key, key ∈ rest -> key ∈ execution_keys t ws a) as Hin.
  { intros key Hkey. rewrite <- (merge_sort_Permutation newer_le), Hk. apply elem_of_app. by right. }
  destruct (collect_keys t ws a (take (N.to_nat limit) rest) HT) as (rs & Hrs & Hkeys & Hl).
  { intros key Hkey. apply Hin. eapply elem_of_sublist; [exact Hkey|apply sublist_take]. }
  destruct (history_page seen rest cursor rs Hk Hcur Hrs Hl Hkeys) as (next & Hpage & Hnext).
  assert (length rs = length (take (N.to_nat limit) rest)) as Hlen by by rewrite <- Hkeys, length_fmap.
  rewrite length_take in Hlen. cbn [read_history]. rewrite Hpage. cbn [page_next page_executions].
  destruct Hnext as [[Hshort ->]|(Hfull & text & -> & Hcur')].
  - apply N.eqb_neq in Hshort. unfold len in Hshort. rewrite take_ge in Hrs, Hkeys by lia. by exists rs.
  - apply N.eqb_eq in Hfull. unfold len in Hfull.
    destruct (IH (seen ++ take (N.to_nat limit) rest) (drop (N.to_nat limit) rest) (Some text)) as (rs2 & Hrs2 & Hkeys2 & Hl2 & Hread).
    + by rewrite <- app_assoc, take_drop.
    + done.
    + rewrite length_drop. lia.
    + exists (rs ++ rs2). rewrite Hread, !fmap_app. split_and!; [|by rewrite Hkeys, Hkeys2, take_drop|by apply Forall_app|done].
      rewrite <- (take_drop (N.to_nat limit) rest). by apply collect_keys_app.
Qed.
End walk.

(** ** Claims *)

(** C32: paging through the history is complete.  When the pages of this
    history serialise within the response bound at the page size asked for, a
    client that follows the [next] cursor, as text, until there is none gets
    every execution of the automation exactly once, newest first; it needs no
    more than one page more than there are executions, and no cursor it is
    handed is refused. *)
Theorem history_read_complete `{Chrono} `{HS : HistorySerde} (max_response_bytes api_version : N) (ws a : Uuid) (limit : N)
  (t : ExecutionTables) (row : AutomationScheduleRecord) (pages : nat) :
  HistorySerdeLaws HS -> (api_version < 65536)%N -> is_uuid ws -> is_uuid a -> ExReachable t -> (1 <= limit <= 100)%N ->
  get_automation_schedule (automation t) a = Ok row -> sched_workspace_id row = ws -> ws <> 0%N ->
  pages_fit max_response_bytes api_version ws a limit t ->
  size (executions t) < pages ->
  exists rs, read_history max_response_bytes api_version ws a pages t limit None = Some (Ok (execution_view <$> rs)) /\
    StronglySorted newer_le (execution_sort_key <$> rs) /\ NoDup rs /\
    forall r, r ∈ rs <-> listed t ws a r.
Proof.
  intros HL Hv Hwu Hau HT%ex_reachable_Ok Hlimit Hrow Hscope Hws Hfits Hpages.
  assert (a <> 0%N) as Ha by (intros ->; discriminate Hrow).
  assert (length (execution_keys t ws a) <= size (executions t)) as Hsize.
  { unfold execution_keys. rewrite <- length_map_to_list. induction (map_to_list (executions t)) as [|[i x] l IH]; [done|].
    cbn [omap list_omap length snd]. destruct (in_scope ws a x); cbn [length]; lia. }
  destruct (read_history_rest max_response_bytes api_version ws a limit t Hv Hwu Hau HT Hws Ha Hlimit row Hrow Hscope Hfits pages
    [] (merge_sort newer_le (execution_keys t ws a)) None) as (rs & _ & Hkeys & Hl & Hread).
  - done.
  - done.
  - rewrite (merge_sort_Permutation newer_le). lia.
  - exists rs. split; [done|]. split; [rewrite Hkeys; by apply (StronglySorted_merge_sort newer_le)|]. split.
    + apply (NoDup_fmap_1 execution_sort_key). rewrite Hkeys, (merge_sort_Permutation newer_le). apply execution_keys_NoDup.
    + intros r. rewrite Forall_forall in Hl. split; [apply Hl|]. intros [Hr Hs].
      pose proof Hr as (x & d & Hx & _ & Heq)%execution_read_Ok.
      assert (execution_sort_key r ∈ execution_sort_key <$> rs) as Hin.
      { rewrite Hkeys, (merge_sort_Permutation newer_le). apply execution_keys_elem. exists x. subst r. done. }
      apply list_elem_of_fmap in Hin as (r' & Hk & Hr'). destruct (Hl r' Hr') as [Hread' _].
      injection Hk as _ Hid. rewrite <- Hid, Hr in Hread'. by injection Hread' as ->.
Qed.

(** ** An instance *)

(** Numbers as sixteen bytes, for an encoding of cursors that satisfies the
    laws. *)
Fixpoint digits (k : nat) (n : N) : list N :=
  match k with 0 => [] | S k => (n mod 256)%N :: digits k (n / 256)%N end.
Fixpoint undigits (t : list N) : N := match t with [] => 0%N | b :: t => (b + 256 * undigits t)%N end.

Lemma digits_length k : forall n, length (digits k n) = k.
Proof. induction k as [|k IH]; intros n; cbn; [done|]. by rewrite IH. Qed.
Lemma digits_bytes k : forall n, Forall is_byte (digits k n).
Proof.
  induction k as [|k IH]; intros n; cbn [digits]; constructor; [|apply IH]. unfold is_byte. by apply N.mod_upper_bound.
Qed.
Lemma undigits_digits k : forall n, (n < 256 ^ N.of_nat k)%N -> undigits (digits k n) = n.
Proof.
  induction k as [|k IH]; intros n Hn; cbn [digits undigits]; [cbn in Hn; lia|].
  rewrite Nat2N.inj_succ, N.pow_succ_r' in Hn. rewrite IH by (apply N.Div0.div_lt_upper_bound; lia).
  pose proof (N.Div0.div_mod n 256). lia.
Qed.

Definition wire_fields (c : AutomationHistoryCursorWire) : list N :=
  [wire_api_version c; wire_workspace_id c; wire_automation_id c; Z.to_N (wire_created_at c + 2 ^ 73); wire_execution_id c].
Definition wire_of_fields (l : list N) : option AutomationHistoryCursorWire :=
  match l with
  | [v; w; a; t; e] => Some (mkWire v w a (Z.of_N t - 2 ^ 73)%Z e HISTORY_SORT)
  | _ => None
  end.
Definition chunk (i : nat) (t : list N) : list N := take 16 (drop (16 * i) t).
(** A page is its fields one after another. *)
Definition view_bytes (v : AutomationExecutionView) : list N :=
  ([view_execution_id v; view_automation_id v; view_workspace_id v; view_job_id v; Z.to_N (view_created_at v); Z.to_N (view_updated_at v)]
     ≫= digits 16) ++
  ([view_trigger_kind v; view_occurrence_key v; view_idempotency_key v; view_state v; default "" (view_failure v)] ≫= bytes_of).
#[local] Instance example_history_serde : HistorySerde := {|
  cursor_to_vec c := Some (wire_fields c ≫= digits 16);
  cursor_from_slice t := wire_of_fields ((fun i => undigits (chunk i t)) <$> seq 0 5);
  page_to_vec view := Some ((page_executions view ≫= view_bytes) ++ bytes_of (default EmptyString (page_next view)));
|}.

Lemma chunks_digits l i n : l !! i = Some n -> chunk i (l ≫= digits 16) = digits 16 n.
Proof.
  revert i. induction l as [|m l IH]; intros [|i] Hl; [done..| |].
  - injection Hl as ->. unfold chunk. rewrite bind_cons. rewrite Nat.mul_0_r, drop_0.
    apply take_app_length'. by rewrite digits_length.
  - rewrite bind_cons. unfold chunk. rewrite drop_app_ge by (rewrite digits_length; lia). rewrite digits_length.
    replace (16 * S i - 16) with (16 * i) by lia. by apply IH.
Qed.

#[local] Instance example_history_laws : HistorySerdeLaws example_history_serde.
Proof.
  split. intros [v w a t e sort]. unfold is_uuid, is_instant. cbn [wire_api_version wire_workspace_id wire_automation_id
    wire_created_at wire_execution_id wire_sort]. intros Hv Hw Ha Ht He ->.
  set (c := mkWire v w a t e HISTORY_SORT). exists (wire_fields c ≫= digits 16). split; [done|].
  assert (len (wire_fields c ≫= digits 16) = 80%N) as Hlen.
  { unfold len, wire_fields. rewrite !bind_cons, !length_app, !digits_length. done. }
  split; [|rewrite Hlen; split; [lia|]].
  { unfold wire_fields. rewrite !bind_cons. repeat (apply Forall_app; split; [apply digits_bytes|]). constructor. }
  assert (256 ^ N.of_nat 16 = 2 ^ 128)%N as Hpow by reflexivity.
  assert ((2 ^ 74 < 2 ^ 128)%N) as Hlt by reflexivity. assert ((65536 < 2 ^ 128)%N) as Hlt2 by reflexivity.
  assert (Z.of_N (2 ^ 74) = 2 ^ 73 + 2 ^ 73)%Z as Hz by reflexivity.
  unfold cursor_from_slice, example_history_serde. cbn [seq fmap list_fmap].
  rewrite (chunks_digits _ 0 v), (chunks_digits _ 1 w), (chunks_digits _ 2 a), (chunks_digits _ 3 (Z.to_N (t + 2 ^ 73))),
    (chunks_digits _ 4 e) by done.
  rewrite !undigits_digits by (rewrite Hpow; lia). unfold wire_of_fields, c. do 2 f_equal. rewrite Z2N.id by lia. lia.
Qed.

#[local] Existing Instance example_serde.
#[local] Existing Instance example_chrono.
Definition example_second : ExecutionTables :=
  put_execution example_recorded (draft_row (mkExecutionDraft 7%N 1%N 2%N "manual" "manual:2" "request-2" (replicate 32 7%N) 9%N 200%Z)).

Lemma example_history_reachable : ExReachable example_second.
Proof.
  exists example_store. eapply rtc_l; [|eapply rtc_l; [|apply rtc_refl]].
  - exact (ex_create _ _ _ _ example_typed example_creates).
  - eapply (ex_create _ (mkExecutionDraft 7%N 1%N 2%N "manual" "manual:2" "request-2" (replicate 32 7%N) 9%N 200%Z)).
    + split; [split; [reflexivity|apply Forall_replicate; reflexivity]|reflexivity|split; reflexivity].
    + vm_compute. reflexivity.
Qed.

(** Of this history a page of one execution, with its cursor, has at most 512
    bytes. *)
Definition page_size (r : AutomationExecutionRecord) : option N :=
  match next_cursor 1 1%N 2%N 1 [r] with
  | Ok next => len <$> page_to_vec (mkPage [execution_view r] next)
  | Err _ => None
  end.
Definition fits_512 (id : Uuid) : bool :=
  match execution_from_connection example_second id with
  | Ok r => match page_size r with Some n => (n <=? 512)%N | None => false end
  | Err _ => false
  end.
Lemma example_pages_fit : pages_fit 512 1 1%N 2%N 1 example_second.
Proof.
  intros rs next Hl Hlen Hn. destruct rs as [|r [|]]; [|clear Hlen|unfold len in Hlen; cbn in Hlen; lia].
  { injection Hn as <-. exists []. split; [reflexivity|discriminate]. }
  apply Forall_cons in Hl as [[Hr _] _]. pose proof Hr as (x & d & Hx & _)%execution_read_Ok.
  assert (forall e, e ∈ map_to_list (executions example_second) -> fits_512 e.1 = true) as Hall.
  { apply Forall_forall. vm_compute map_to_list. repeat (apply Forall_cons; split; [vm_compute; reflexivity|]). constructor. }
  specialize (Hall _ (proj2 (elem_of_map_to_list _ _ _) Hx)). unfold fits_512 in Hall. cbn [fst] in Hall. rewrite Hr in Hall.
  unfold page_size in Hall. rewrite Hn in Hall. cbn [fmap list_fmap].
  destruct (page_to_vec _) as [bytes|]; [|discriminate Hall]. exists bytes. split; [reflexivity|]. by apply N.leb_le.
Qed.

Lemma history_read_complete_witness : exists rs,
  read_history 512 1 1%N 2%N 3 example_second 1 None = Some (Ok (execution_view <$> rs)) /\
  StronglySorted newer_le (execution_sort_key <$> rs) /\ NoDup rs /\
  forall r, r ∈ rs <-> listed example_second 1%N 2%N r.
Proof.
  refine (history_read_complete 512 1 1%N 2%N 1 example_second
    (mkSchedule 2%N 1%N (Interval 60) "UTC" JNull SActive 100%Z (Some 100%Z) None None None 1 0 1 None 100%Z 100%Z) 3
    example_history_laws _ _ _ example_history_reachable _ _ _ _ example_pages_fit _).
  - reflexivity.
  - reflexivity.
  - reflexivity.
  - split; discriminate.
  - vm_compute. reflexivity.
  - reflexivity.
  - discriminate.
  - vm_compute. constructor.
Defined.
