(* ===== verification/Canonical.v ===== *)
(** * Canonical JSON: the writers of [stillflow-core/src/job_operation.rs] and
    [stillflow-storage/src/control_plane.rs]

    A job's request digest and the digest of its operation are taken of JSON
    text in a canonical form: no white space, no floating point, and the keys
    of every object in ascending order.  Both crates have a writer of their
    own; they differ in their errors only.  The text of a string is
    [serde_json::to_string]'s. *)

From S2P Require Import Prelude Text Secrets Hex.
From stdpp Require Import pretty.

Section writer.
Context {E : Type} (float_error string_error key_error : E).
(** [serde_json::to_string] of a [str]. *)
Context (json_text : string -> option (list N)).

(** The parts of an array or an object, with commas between them. *)
Definition comma_separated (parts : list (list N)) : list N :=
  match parts with [] => [] | p :: ps => p ++ (ps ≫= cons 44%N) end.

Definition write_entry (entry : string * result E (list N)) : result E (list N) :=
  key ← ok_or (json_text entry.1) key_error;
  item ← entry.2;
  Ok (key ++ [58%N] ++ item).

Fixpoint write_canonical (value : json) : result E (list N) :=
  match value with
  | JNull => Ok (bytes_of "null")
  | JBool b => Ok (bytes_of (if b then "true" else "false"))
  | JNumber (Float _) => Err float_error
  | JNumber (PosInt n) => Ok (bytes_of (pretty n))
  | JNumber (NegInt z) => Ok (bytes_of (pretty z))
  | JString text => ok_or (json_text text) string_error
  | JArray values =>
      parts ← (fix go (values : list json) : result E (list (list N)) :=
                 match values with
                 | [] => Ok []
                 | v :: values => p ← write_canonical v; ps ← go values; Ok (p :: ps)
                 end) values;
      Ok ([91%N] ++ comma_separated parts ++ [93%N])
  | JObject values =>
      let entries := (fix go (values : list (string * json)) : list (string * result E (list N)) :=
                        match values with
                        | [] => []
                        | (k, v) :: values => (k, write_canonical v) :: go values
                        end) values in
      parts ← collect write_entry (merge_sort key_le entries);
      Ok ([123%N] ++ comma_separated parts ++ [125%N])
  end.
End writer.

(** ** What the writer identifies *)

#[export] Instance str_le_trans : Transitive str_le.
Proof.
  intros s t u. unfold str_le.
  destruct (String.compare s t) eqn:Hst; [apply String.compare_eq_iff in Hst as ->; done| |done].
  destruct (String.compare t u) eqn:Htu; [apply String.compare_eq_iff in Htu as ->; by rewrite Hst| |done].
  by rewrite (string_compare_lt_trans _ _ _ Hst Htu).
Qed.
#[export] Instance str_le_antisymm : AntiSymm eq str_le.
Proof.
  intros s t. unfold str_le. rewrite (String.compare_antisym t s).
  destruct (String.compare s t) eqn:Hst; cbn; [|done..]. by apply String.compare_eq_iff in Hst.
Qed.
#[export] Instance key_le_trans {V} : Transitive (@key_le V).
Proof. intros x y z. apply (transitivity (R := str_le)). Qed.

(** Entries with distinct keys have one order. *)
Lemma sort_entries_unique {V} (l k : list (string * V)) :
  NoDup l.*1 -> l ≡ₚ k -> merge_sort key_le l = merge_sort key_le k.
Proof.
  intros Hnd Hp. apply (StronglySorted_unique_strong key_le); [|by apply (StronglySorted_merge_sort key_le); apply _..|].
  - intros [x a] [y b] Hx Hy Hxy Hyx. assert (x = y) as <- by (by apply (anti_symm str_le)).
    rewrite merge_sort_Permutation in Hx, Hy. rewrite <- Hp in Hy.
    apply list_elem_of_lookup in Hx as (i & Hi), Hy as (j & Hj).
    assert (i = j) as <-; [|congruence].
    eapply NoDup_lookup; [done| |]; by rewrite list_lookup_fmap, ?Hi, ?Hj.
  - by rewrite !merge_sort_Permutation.
Qed.

(** A value as [serde_json] builds it: keys are unique, a [NegInt] is
    negative. *)
Fixpoint json_wf (v : json) : Prop :=
  match v with
  | JNumber (NegInt z) => (z < 0)%Z
  | JArray items => (fix go l := match l with [] => True | x :: l => json_wf x /\ go l end) items
  | JObject entries =>
      NoDup entries.*1 /\
      (fix go l := match l with [] => True | (_, x) :: l => json_wf x /\ go l end) entries
  | _ => True
  end.

(** The same document up to the order of its objects' entries. *)
Inductive json_equiv : json -> json -> Prop :=
| equiv_refl v : json_equiv v v
| equiv_array l k : Forall2 json_equiv l k -> json_equiv (JArray l) (JArray k)
| equiv_object es fs gs :
    es ≡ₚ gs -> Forall2 (fun e f => e.1 = f.1 /\ json_equiv e.2 f.2) gs fs ->
    json_equiv (JObject es) (JObject fs).

(** What is relied on of a string's text: it starts with a quote and says
    where it ends. *)
Class JsonText (json_text : string -> option (list N)) : Prop := {
  text_quoted s b : json_text s = Some b -> head b = Some 34%N;
  text_delimited s t b c r q :
    json_text s = Some b -> json_text t = Some c -> b ++ r = c ++ q -> s = t /\ r = q;
}.

Lemma json_wf_array items : json_wf (JArray items) <-> Forall json_wf items.
Proof. cbn. induction items as [|v l IH]; [by split; constructor|]. by rewrite IH, Forall_cons. Qed.
Lemma json_wf_object entries :
  json_wf (JObject entries) <-> NoDup entries.*1 /\ Forall (fun e => json_wf e.2) entries.
Proof.
  cbn. apply and_iff_compat_l. induction entries as [|[k v] l IH]; [by split; constructor|]. by rewrite IH, Forall_cons.
Qed.

(** Characters of a number. *)
Definition numeric (c : N) : bool := ((c =? 45) || ((48 <=? c) && (c <=? 57)))%N.
Definition delimits (r : list N) : Prop := match r with [] => True | c :: _ => numeric c = false end.

Lemma numeric_split b c r q :
  Forall (fun x => numeric x = true) b -> Forall (fun x => numeric x = true) c ->
  delimits r -> delimits q -> b ++ r = c ++ q -> b = c /\ r = q.
Proof.
  intros Hb. revert c. induction Hb as [|x b Hx _ IH]; intros c [|y c' Hy Hc] Hr Hq Heq; cbn in Heq.
  - done.
  - subst r. cbn in Hr. congruence.
  - subst q. cbn in Hq. congruence.
  - injection Heq as -> Heq. by destruct (IH _ Hc Hr Hq Heq) as [-> ->].
Qed.

Lemma bytes_of_cons a s : bytes_of (String.String a s) = Ascii.N_of_ascii a :: bytes_of s.
Proof. done. Qed.
Lemma pretty_go_numeric x s :
  Forall (fun c => numeric c = true) (bytes_of s) -> Forall (fun c => numeric c = true) (bytes_of (pretty_N_go x s)).
Proof.
  revert s. induction (N.lt_wf_0 x) as [x _ IH]. intros s Hs.
  destruct (decide (x = 0)%N) as [->|Hx]; [by rewrite pretty_N_go_0|].
  rewrite pretty_N_go_step by lia. apply IH; [apply N.div_lt; lia|]. rewrite bytes_of_cons. constructor; [|done].
  assert (x `mod` 10 < 10)%N as Hm by (apply N.mod_lt; lia). generalize dependent (x `mod` 10)%N. intros d Hd.
  unfold pretty_N_char. repeat case_match; done.
Qed.
Lemma pretty_N_numeric (n : N) : Forall (fun c => numeric c = true) (bytes_of (pretty n)).
Proof. unfold pretty, pretty_N. case_decide; [by repeat constructor|]. by apply pretty_go_numeric. Qed.
Lemma pretty_Z_numeric (z : Z) : Forall (fun c => numeric c = true) (bytes_of (pretty z)).
Proof.
  unfold pretty, pretty_Z. destruct z as [|p|p]; [by repeat constructor|apply pretty_N_numeric|].
  change (Forall (fun c => numeric c = true) (45%N :: bytes_of (pretty (N.pos p)))).
  constructor; [done|apply pretty_N_numeric].
Qed.
Lemma pretty_N_ne (n : N) : bytes_of (pretty n) <> [].
Proof.
  intros Hn. assert (pretty n = "") as Hp by (by apply bytes_of_inj).
  destruct (decide (n = 0)%N) as [->|Hn0]; [done|]. unfold pretty, pretty_N in Hp. rewrite decide_False in Hp by done.
  assert (forall x s, (String.length s <= String.length (pretty_N_go x s))%nat) as Hlen.
  { intros x. induction (N.lt_wf_0 x) as [x _ IH]. intros s.
    destruct (decide (x = 0)%N) as [->|Hx]; [by rewrite pretty_N_go_0|].
    rewrite pretty_N_go_step by lia. etrans; [|apply IH, N.div_lt; lia]. cbn. lia. }
  rewrite pretty_N_go_step in Hp by lia.
  specialize (Hlen (n `div` 10)%N (String.String (pretty_N_char (n `mod` 10)) "")). rewrite Hp in Hlen. cbn in Hlen. lia.
Qed.

Section identity.
Context {E : Type} (float_error string_error key_error : E) (json_text : string -> option (list N)) `{JsonText json_text}.
Notation write := (write_canonical float_error string_error key_error json_text).
Notation entry := (write_entry key_error json_text).

Lemma write_array items :
  write (JArray items) = (parts ← collect write items; Ok ([91%N] ++ comma_separated parts ++ [93%N])).
Proof. cbn. f_equal. induction items as [|v l IH]; [done|]. cbn. by rewrite IH. Qed.
Lemma write_object entries :
  write (JObject entries) =
  (parts ← collect entry (merge_sort key_le (prod_map id write <$> entries));
   Ok ([123%N] ++ comma_separated parts ++ [125%N])).
Proof. cbn. do 3 f_equal. induction entries as [|[k v] l IH]; [done|]. cbn. by rewrite IH. Qed.

(** The first character tells the constructor. *)
Definition first_of (v : json) (c : N) : Prop :=
  match v with
  | JNull => c = 110%N
  | JBool b => c = (if b then 116%N else 102%N)
  | JNumber _ => numeric c = true
  | JString _ => c = 34%N
  | JArray _ => c = 91%N
  | JObject _ => c = 123%N
  end.
Lemma write_first v b : write v = Ok b -> exists c b', b = c :: b' /\ first_of v c.
Proof.
  destruct v as [|[]|[n|z|]|s|l|l]; try (intros [= <-]; by repeat eexists).
  - intros [= <-]. pose proof (pretty_N_numeric n) as Hn. pose proof (pretty_N_ne n).
    destruct (bytes_of (pretty n)) as [|c b']; [done|]. inversion Hn; subst. by exists c, b'.
  - intros [= <-]. pose proof (pretty_Z_numeric z) as Hz.
    destruct (bytes_of (pretty z)) as [|c b'] eqn:Hb; [|inversion Hz; subst; by exists c, b'].
    destruct z as [|p|p]; [done| |done]. by destruct (pretty_N_ne (N.pos p)).
  - cbn. intros Hs%ok_or_Ok. pose proof (text_quoted _ _ Hs). destruct b as [|c b']; simplify_eq/=. by exists 34%N, b'.
  - rewrite write_array. intros (parts & _ & [= <-])%bind_Ok. by repeat eexists.
  - rewrite write_object. intros (parts & _ & [= <-])%bind_Ok. by repeat eexists.
Qed.
Lemma first_of_numeric v c : first_of v c -> c <> 93%N /\ c <> 125%N.
Proof. destruct v as [|[]|n|s|l|l]; cbn; try (intros ->; done). by intros Hn; split; intros ->. Qed.

(** Comma-separated parts, read from the left. *)
Lemma separated_delimits {A} (close : N) (l : list (A * list N)) t :
  numeric close = false -> delimits ((l.*2 ≫= cons 44%N) ++ close :: t).
Proof. by destruct l. Qed.
Lemma separated_inj {A B} (R : A -> B -> Prop) (close : N) (xs : list (A * list N)) (ys : list (B * list N)) r q :
  close <> 44%N -> numeric close = false ->
  (forall x y r q, x ∈ xs -> y ∈ ys -> delimits r -> delimits q -> x.2 ++ r = y.2 ++ q -> R x.1 y.1 /\ r = q) ->
  (forall x, x ∈ xs -> exists c b, x.2 = c :: b /\ c <> close) -> (forall y, y ∈ ys -> exists c b, y.2 = c :: b /\ c <> close) ->
  comma_separated xs.*2 ++ close :: r = comma_separated ys.*2 ++ close :: q ->
  Forall2 R xs.*1 ys.*1 /\ r = q.
Proof.
  intros Hcomma Hnum Hone Hx Hy.
  assert (forall (xs' : list (A * list N)) (ys' : list (B * list N)),
    (forall x, x ∈ xs' -> x ∈ xs) -> (forall y, y ∈ ys' -> y ∈ ys) ->
    (xs'.*2 ≫= cons 44%N) ++ close :: r = (ys'.*2 ≫= cons 44%N) ++ close :: q ->
    Forall2 R xs'.*1 ys'.*1 /\ r = q) as Htail.
  { induction xs' as [|x xs' IH]; intros [|y ys'] Hxs Hys Heq; cbn in Heq; simplify_eq; [done|].
    rewrite <- !app_assoc in Heq.
    destruct (Hone x y _ _ (Hxs x ltac:(left)) (Hys y ltac:(left)) (separated_delimits _ _ _ Hnum) (separated_delimits _ _ _ Hnum) Heq) as [HR Hrest].
    destruct (IH ys') as [HF ->]; [set_solver|set_solver|done|]. split; [by constructor|done]. }
  destruct xs as [|x xs], ys as [|y ys]; cbn; intros Heq.
  - by simplify_eq.
  - destruct (Hy y ltac:(left)) as (c & b & Hc & Hne). rewrite Hc in Heq. by simplify_eq/=.
  - destruct (Hx x ltac:(left)) as (c & b & Hc & Hne). rewrite Hc in Heq. by simplify_eq/=.
  - rewrite <- !app_assoc in Heq.
    destruct (Hone x y _ _ ltac:(left) ltac:(left) (separated_delimits _ _ _ Hnum) (separated_delimits _ _ _ Hnum) Heq) as [HR Hrest].
    destruct (Htail xs ys) as [HF ->]; [set_solver|set_solver|done|]. split; [by constructor|done].
Qed.

Lemma collect_zip {A B} (f : A -> result E B) l bs :
  collect f l = Ok bs ->
  (zip l bs).*1 = l /\ (zip l bs).*2 = bs /\ forall x, x ∈ zip l bs -> x.1 ∈ l /\ f x.1 = Ok x.2.
Proof.
  intros HF%collect_Ok. induction HF as [|a b l bs Hab HF (H1 & H2 & H3)]; [by split_and!; [..|intros ? ?%not_elem_of_nil]|].
  cbn. rewrite H1, H2. split_and!; [done..|]. intros x [->|Hx]%elem_of_cons; [by split; [left|]|].
  destruct (H3 x Hx). by split; [right|].
Qed.
Lemma collect_fmap {A B C} (f : B -> result E C) (g : A -> B) l : collect f (g <$> l) = collect (f ∘ g) l.
Proof. induction l as [|a l IH]; [done|]. cbn. by rewrite IH. Qed.

(** The entries an object is written with: its own, reordered. *)
Lemma sorted_entries es parts :
  collect entry (merge_sort key_le (prod_map id write <$> es)) = Ok parts ->
  exists es', es ≡ₚ es' /\ collect (entry ∘ prod_map id write) es' = Ok parts.
Proof.
  intros Hc. pose proof (merge_sort_Permutation key_le (prod_map id write <$> es)) as Hp.
  destruct (Permutation_map_inv _ _ Hp) as (es' & Heq & Hes). exists es'. split; [done|].
  change (map ?f ?l) with (f <$> l) in Heq. by rewrite <- collect_fmap, <- Heq.
Qed.

Lemma entry_Ok k v b :
  entry (k, write v) = Ok b -> exists kb vb, json_text k = Some kb /\ write v = Ok vb /\ b = kb ++ 58%N :: vb.
Proof.
  intros (kb & Hk%ok_or_Ok & Hv)%bind_Ok. apply bind_Ok in Hv as (vb & Hv & [= <-]). by exists kb, vb.
Qed.

Lemma write_number_inj n m b c r q :
  json_wf (JNumber n) -> json_wf (JNumber m) -> write (JNumber n) = Ok b -> write (JNumber m) = Ok c ->
  delimits r -> delimits q -> b ++ r = c ++ q -> json_equiv (JNumber n) (JNumber m) /\ r = q.
Proof.
  intros Hn Hm Hb Hc Hr Hq Heq.
  assert (Forall (fun x => numeric x = true) b) as Hnb
    by (destruct n; simplify_eq/=; eauto using pretty_N_numeric, pretty_Z_numeric).
  assert (Forall (fun x => numeric x = true) c) as Hnc
    by (destruct m; simplify_eq/=; eauto using pretty_N_numeric, pretty_Z_numeric).
  destruct (numeric_split _ _ _ _ Hnb Hnc Hr Hq Heq) as [-> ->]. split; [|done].
  assert (forall (i : N) (z : Z), (z < 0)%Z -> bytes_of (pretty z) <> bytes_of (pretty i)) as Hsign.
  { intros i z Hz Hbytes%bytes_of_inj. replace (pretty i) with (pretty (Z.of_N i)) in Hbytes by (by destruct i).
    apply (inj pretty) in Hbytes. lia. }
  destruct n as [i|i|i], m as [j|j|j]; cbn in Hb, Hc, Hn, Hm; simplify_eq.
  - apply bytes_of_inj in Hb as ->%(inj pretty). constructor.
  - by destruct (Hsign i j Hm).
  - by destruct (Hsign j i Hn).
  - apply bytes_of_inj in Hb as ->%(inj pretty). constructor.
Qed.

Lemma write_objects_inj es fs b c r q :
  (forall e f r q b c, e ∈ es -> f ∈ fs -> write e.2 = Ok b -> write f.2 = Ok c ->
     delimits r -> delimits q -> b ++ r = c ++ q -> json_equiv e.2 f.2 /\ r = q) ->
  write (JObject es) = Ok b -> write (JObject fs) = Ok c -> b ++ r = c ++ q ->
  json_equiv (JObject es) (JObject fs) /\ r = q.
Proof.
  rewrite !write_object. intros IH (ps & Hps & [= <-])%bind_Ok (qs & Hqs & [= <-])%bind_Ok Heq.
  cbn in Heq. rewrite <- !app_assoc in Heq. injection Heq as Heq.
  apply sorted_entries in Hps as (es' & Hes & Hps), Hqs as (fs' & Hfs & Hqs).
  destruct (collect_zip _ _ _ Hps) as (H1 & H2 & H3), (collect_zip _ _ _ Hqs) as (H4 & H5 & H6).
  assert (forall (e : string * json) p, (entry ∘ prod_map id write) e = Ok p ->
            exists kb vb, json_text e.1 = Some kb /\ write e.2 = Ok vb /\ p = kb ++ 58%N :: vb) as Hparts
    by (intros [k v] p; apply entry_Ok).
  destruct (separated_inj (fun e f => e.1 = f.1 /\ json_equiv e.2 f.2) 125%N (zip es' ps) (zip fs' qs) r q)
    as [HF ->]; [done|done| | | |by rewrite H2, H5|].
  - intros x y r' q' Hx Hy Hr' Hq' Heq'. destruct (H3 _ Hx) as [Hxe Hwx%Hparts], (H6 _ Hy) as [Hyf Hwy%Hparts].
    destruct Hwx as (kb & vb & Hkb & Hvb & Hx2), Hwy as (kc & vc & Hkc & Hvc & Hy2).
    rewrite Hx2, Hy2, <- !app_assoc in Heq'. destruct (text_delimited _ _ _ _ _ _ Hkb Hkc Heq') as [Hkey Hrest].
    injection Hrest as Hrest.
    destruct (IH x.1 y.1 r' q' vb vc) as [Hv Hrq]; [by rewrite Hes|by rewrite Hfs|done..|]. done.
  - intros x Hx. destruct (H3 _ Hx) as [_ (kb & vb & Hkb & _ & ->)%Hparts].
    pose proof (text_quoted _ _ Hkb). destruct kb as [|k0 kb]; [done|]. cbn. exists k0, (kb ++ 58%N :: vb). by simplify_eq/=.
  - intros x Hx. destruct (H6 _ Hx) as [_ (kb & vb & Hkb & _ & ->)%Hparts].
    pose proof (text_quoted _ _ Hkb). destruct kb as [|k0 kb]; [done|]. cbn. exists k0, (kb ++ 58%N :: vb). by simplify_eq/=.
  - rewrite H1, H4 in HF. split; [|done].
    apply Forall2_flip in HF. destruct (Permutation_Forall2 (Permutation_sym Hfs) HF) as (gs & Hgs & HF').
    apply (equiv_object _ _ gs); [by rewrite Hes|]. by apply Forall2_flip.
Qed.

Lemma write_prefix v w b c r q :
  json_wf v -> json_wf w -> write v = Ok b -> write w = Ok c ->
  delimits r -> delimits q -> b ++ r = c ++ q -> json_equiv v w /\ r = q.
Proof.
  revert w b c r q. induction v as [|x|n|s|l IH|es IH] using json_nested_ind; intros w b c r q Hv Hw Hb Hc Hr Hq Heq;
    destruct (write_first _ _ Hb) as (x0 & b' & Hb' & Hx0), (write_first _ _ Hc) as (y0 & c' & Hc' & Hy0);
    assert (y0 = x0) as -> by (subst b c; by injection Heq);
    destruct w as [|y|m|t|k|fs]; cbn in Hx0, Hy0; try subst x0; try done; try (by destruct x); try (by destruct y).
  - cbn in Hb, Hc. simplify_eq/=. split; [constructor|done].
  - cbn in Hb, Hc. destruct x, y; simplify_eq/=; (split; [constructor|done]).
  - apply write_number_inj with (b := b) (c := c); done.
  - cbn in Hb, Hc. apply ok_or_Ok in Hb, Hc. destruct (text_delimited _ _ _ _ _ _ Hb Hc Heq) as [-> ->].
    split; [constructor|done].
  - rewrite json_wf_array, Forall_forall in Hv, Hw. rewrite write_array in Hb, Hc.
    apply bind_Ok in Hb as (ps & Hps & [= <-]), Hc as (qs & Hqs & [= <-]). cbn in Heq.
    rewrite <- !app_assoc in Heq. injection Heq as Heq.
    destruct (collect_zip _ _ _ Hps) as (H1 & H2 & H3), (collect_zip _ _ _ Hqs) as (H4 & H5 & H6).
    destruct (separated_inj json_equiv 93%N (zip l ps) (zip k qs) r q) as [HF ->]; [done|done| | | |by rewrite H2, H5|].
    + intros x y r' q' Hx Hy Hr' Hq' Heq'. destruct (H3 _ Hx) as [Hxl Hwx], (H6 _ Hy) as [Hyk Hwy].
      rewrite Forall_forall in IH. eapply (IH _ Hxl _ _ _ r' q'); eauto.
    + intros x Hx. destruct (H3 _ Hx) as [_ (c0 & b0 & -> & Hf)%write_first].
      exists c0, b0. by destruct (first_of_numeric _ _ Hf).
    + intros y Hy. destruct (H6 _ Hy) as [_ (c0 & b0 & -> & Hf)%write_first].
      exists c0, b0. by destruct (first_of_numeric _ _ Hf).
    + rewrite H1, H4 in HF. by split; [constructor|].
  - apply (write_objects_inj es fs b c); [|done..].
    rewrite Forall_forall in IH. intros e f r' q' b0 c0 He Hf. apply json_wf_object in Hv as [_ Hv], Hw as [_ Hw].
    rewrite Forall_forall in Hv, Hw. eapply (IH _ He); auto.
Qed.

Lemma write_equiv v w : json_wf v -> json_equiv v w -> write v = write w.
Proof.
  revert w. induction v as [|x|n|s|l IH|es IH] using json_nested_ind; intros w Hwf Hvw; inversion Hvw; subst; try done.
  - rewrite !write_array. apply json_wf_array in Hwf. f_equal.
    match goal with X : Forall2 _ l _ |- _ => rename X into HF end. clear Hvw.
    induction HF as [|a b l k Hab HF IHl]; [done|]. apply Forall_cons in IH as [IHa IH], Hwf as [Ha Hwf].
    cbn. by rewrite (IHa _ Ha Hab), IHl.
  - match goal with X : Forall2 _ gs fs, Y : es ≡ₚ gs |- _ => rename X into HF, Y into HP end.
    rewrite !write_object. do 2 f_equal. apply json_wf_object in Hwf as [Hnd Hwf].
    transitivity (merge_sort key_le (prod_map id write <$> gs)).
    + apply sort_entries_unique; [|by rewrite HP]. by rewrite <- list_fmap_compose.
    + f_equal. rewrite Forall_forall in IH, Hwf. assert (forall e, e ∈ gs -> e ∈ es) as Hin by (intros e; by rewrite HP).
      clear -HF IH Hwf Hin. induction HF as [|e f gs fs [Hk Hv] HF IHl]; [done|]. cbn. f_equal.
      * destruct e, f; cbn in *; subst. f_equal. apply (IH _ (Hin _ ltac:(left))); [apply (Hwf _ (Hin _ ltac:(left)))|done].
      * apply IHl. intros e' He'. apply Hin. by right.
Qed.
End identity.

(** C2: the canonical text identifies the document.  Whatever the errors of
    the writer are, two documents without floating point have the same
    canonical bytes exactly when they are the same up to the order of the
    entries of their objects; so a digest of the bytes identifies a request
    as far as the hash does. *)
Theorem canonical_identity {E} (float_error string_error key_error : E) json_text `{JsonText json_text} v w b c :
  json_wf v -> json_wf w ->
  write_canonical float_error string_error key_error json_text v = Ok b ->
  write_canonical float_error string_error key_error json_text w = Ok c ->
  (b = c <-> json_equiv v w).
Proof.
  intros Hv Hw Hb Hc. split.
  - intros <-. by eapply (write_prefix _ _ _ _ v w b b [] []).
  - intros Heq. rewrite (write_equiv _ _ _ _ v w Hv Heq) in Hb. congruence.
Qed.

(** ** A concrete text of strings *)

Definition escape_byte (b : N) : list N :=
  (if b =? 34 then [92; 34] else if b =? 92 then [92; 92]
   else if b =? 8 then [92; 98] else if b =? 12 then [92; 102] else if b =? 10 then [92; 110]
   else if b =? 13 then [92; 114] else if b =? 9 then [92; 116]
   else if b <? 32 then [92; 117; 48; 48] ++ hex_byte b else [b])%N.
Definition quote_text (s : string) : option (list N) := Some (34%N :: (bytes_of s ≫= escape_byte) ++ [34%N]).

(** The first byte escaped in a text, and what follows it. *)
Definition unescape (t : list N) : option (N * list N) :=
  match t with
  | 92%N :: 117%N :: 48%N :: 48%N :: h :: l :: r =>
      match hex_nibble h, hex_nibble l with Some h, Some l => Some ((h * 16 + l)%N, r) | _, _ => None end
  | 92%N :: c :: r =>
      Some ((if c =? 98 then 8 else if c =? 102 then 12 else if c =? 110 then 10
             else if c =? 114 then 13 else if c =? 116 then 9 else c)%N, r)
  | c :: r => Some (c, r)
  | [] => None
  end.
Lemma unescape_control b r : (b < 32)%N -> unescape (escape_byte b ++ r) = Some (b, r).
Proof. intros Hb. assert (b ∈ N.of_nat <$> seq 0 32) as Hin by (apply list_elem_of_fmap; exists (N.to_nat b); split; [lia|apply elem_of_seq; lia]).
  cbn in Hin. repeat (apply elem_of_cons in Hin as [->|Hin]; [done|]). by apply not_elem_of_nil in Hin. Qed.
Lemma unescape_escape b r : (b < 256)%N -> unescape (escape_byte b ++ r) = Some (b, r).
Proof.
  intros Hb. destruct (decide (b < 32)%N) as [Hc|Hc]; [by apply unescape_control|].
  destruct (decide (b = 34)%N) as [->|H34]; [done|]. destruct (decide (b = 92)%N) as [->|H92]; [done|].
  unfold escape_byte. rewrite !(proj2 (N.eqb_neq _ _)) by lia. rewrite (proj2 (N.ltb_ge _ _)) by lia. cbn.
  destruct b as [|p]; [lia|]. do 8 (try destruct p as [p|p|]; try done; try lia).
Qed.
Lemma escape_first b : (b < 256)%N -> exists c t, escape_byte b = c :: t /\ c <> 34%N.
Proof.
  intros Hb. unfold escape_byte. repeat case_match; (eexists _, _; split; [done|]); try done.
  by apply N.eqb_neq.
Qed.
Lemma escaped_inj s t r q :
  Forall is_byte s -> Forall is_byte t ->
  (s ≫= escape_byte) ++ 34%N :: r = (t ≫= escape_byte) ++ 34%N :: q -> s = t /\ r = q.
Proof.
  intros Hs. revert t. induction Hs as [|x s Hx _ IH]; intros t [|y t' Hy Ht] Heq; cbn in Heq.
  - by simplify_eq.
  - destruct (escape_first y Hy) as (c & e & He & Hne). rewrite He in Heq. by simplify_eq/=.
  - destruct (escape_first x Hx) as (c & e & He & Hne). rewrite He in Heq. by simplify_eq/=.
  - rewrite <- !app_assoc in Heq. apply (f_equal unescape) in Heq.
    rewrite !unescape_escape in Heq by done. injection Heq as -> Heq. by destruct (IH _ Ht Heq) as [-> ->].
Qed.
Lemma bytes_of_bytes s : Forall is_byte (bytes_of s).
Proof.
  apply Forall_forall. intros b Hb. apply list_elem_of_fmap in Hb as (a & -> & _). apply Ascii.N_ascii_bounded.
Qed.
#[export] Instance quote_text_spec : JsonText quote_text.
Proof.
  split.
  - by intros s b [= <-].
  - intros s t b c r q [= <-] [= <-] Heq. cbn in Heq. rewrite <- !app_assoc in Heq. injection Heq as Heq.
    destruct (escaped_inj _ _ r q (bytes_of_bytes s) (bytes_of_bytes t) Heq) as [Hst ->].
    by apply bytes_of_inj in Hst as ->.
Qed.

(** Two documents with their entries in different orders. *)
Definition example_left : json :=
  JObject [("b", JArray [JNumber (PosInt 1); JNumber (NegInt (-20))]); ("a", JString "x")].
Definition example_right : json :=
  JObject [("a", JString "x"); ("b", JArray [JNumber (PosInt 1); JNumber (NegInt (-20))])].
Lemma canonical_identity_witness :
  json_equiv example_left example_right /\ ~ json_equiv example_left (JArray [JNull]).
Proof.
  split.
  - apply (canonical_identity 0 1 2 quote_text example_left example_right
             [123; 34; 97; 34; 58; 34; 120; 34; 44; 34; 98; 34; 58; 91; 49; 44; 45; 50; 48; 93; 125]%N
             [123; 34; 97; 34; 58; 34; 120; 34; 44; 34; 98; 34; 58; 91; 49; 44; 45; 50; 48; 93; 125]%N);
      [by vm_compute; repeat first [constructor|set_solver]..|by vm_compute|by vm_compute|done].
  - intros Heq. assert ([123; 34; 97; 34; 58; 34; 120; 34; 44; 34; 98; 34; 58; 91; 49; 44; 45; 50; 48; 93; 125]%N
                        = [91; 110; 117; 108; 108; 93]%N); [|done].
    apply (canonical_identity 0 1 2 quote_text example_left (JArray [JNull])); try done.
    + by vm_compute; repeat first [constructor|set_solver].
Defined.
