(* ===== verification/Operations.v ===== *)
(** * Job operations: [stillflow-core/src/job_operation.rs]

    The closed set of operations a job can ask for, the checks on their
    descriptors and the digest that identifies them, with the values they
    are made of: inputs ([control_plane.rs], [verification.rs]), export
    destinations ([export.rs]) and drift comparisons ([drift.rs]). *)

From S2P Require Import Prelude Text Secrets Logical Nodes Hex Canonical.

Notation Digest := (list N).
Definition zero_digest : Digest := replicate 32 0%N.
Definition is_zero (d : Digest) : bool := bool_decide (d = zero_digest).

(** ** Inputs *)

Inductive InputRef := InputAsset (asset_id : Uuid) | InputSnapshot (snapshot_id : Uuid).
#[export] Instance InputRef_eq_dec : EqDecision InputRef.
Proof. solve_decision. Defined.
Record ControlPlaneInput := mkInput { input : InputRef; input_version_digest : Digest }.
#[export] Instance ControlPlaneInput_eq_dec : EqDecision ControlPlaneInput.
Proof. solve_decision. Defined.
Definition asset_input (asset_id : Uuid) (version_digest : Digest) : ControlPlaneInput :=
  mkInput (InputAsset asset_id) version_digest.
Definition snapshot_input (snapshot_id : Uuid) (version_digest : Digest) : ControlPlaneInput :=
  mkInput (InputSnapshot snapshot_id) version_digest.

(** ** Export destinations *)

Definition MAX_EXPORT_PATH_DEPTH : N := 8.
Inductive ExportFormat := Csv | Tsv | Jsonl | Parquet.
#[export] Instance ExportFormat_eq_dec : EqDecision ExportFormat.
Proof. solve_decision. Defined.
Definition extension (f : ExportFormat) : string :=
  match f with Csv => "csv" | Tsv => "tsv" | Jsonl => "jsonl" | Parquet => "parquet" end.
Inductive ExportShape := SingleFile | PartitionedSet.
#[export] Instance ExportShape_eq_dec : EqDecision ExportShape.
Proof. solve_decision. Defined.
(** The errors of [ExportDestination::local]. *)
Inductive ExportError :=
| NonAbsoluteRoot | EmptyDestinationPath | PathDepthExceeded | InvalidPathComponent | ExtensionMismatch.
Inductive ExportDestination :=
| ToLocal (root : string) (components : list string)
| ToObjectStore (prefix : string).

Definition is_ascii_alphanumeric (b : N) : bool :=
  (((48 <=? b) && (b <=? 57)) || ((65 <=? b) && (b <=? 90)) || ((97 <=? b) && (b <=? 122)))%N.
Definition validate_export_component (component : string) : result ExportError unit :=
  let bytes := bytes_of component in
  if (len bytes =? 0)%N || (128 <? len bytes)%N then Err InvalidPathComponent else
  match bytes with
  | [] => Err InvalidPathComponent
  | first :: rest =>
      if negb (is_ascii_alphanumeric first) then Err InvalidPathComponent else
      each (fun b => if is_ascii_alphanumeric b || (b =? 46)%N || (b =? 95)%N || (b =? 45)%N
                     then Ok tt else Err InvalidPathComponent) rest
  end.

(** [Path::is_absolute] on Unix. *)
Definition is_absolute (path : string) : bool := starts_with (bytes_of "/") (bytes_of path).
Definition ends_with (suffix text : string) : bool :=
  bool_decide (drop (length (bytes_of text) - length (bytes_of suffix)) (bytes_of text) = bytes_of suffix).

Definition export_destination_local (root : string) (components : list string) (format : ExportFormat) (shape : ExportShape)
  : result ExportError ExportDestination :=
  if negb (is_absolute root) then Err NonAbsoluteRoot else
  if bool_decide (components = []) then Err EmptyDestinationPath else
  if (MAX_EXPORT_PATH_DEPTH <? len components)%N then Err PathDepthExceeded else
  try! each validate_export_component components;
  try! (if bool_decide (shape = SingleFile) then
          name ← ok_or (last components) EmptyDestinationPath;
          let ext := "." +:+ extension format in
          if (str_len name <=? str_len ext)%N || negb (ends_with ext name) then Err ExtensionMismatch else Ok tt
        else Ok tt);
  Ok (ToLocal root components).

(** ** Drift comparisons *)

Definition PROFILE_HISTORY_DRIFT_CONTRACT_VERSION : N := 1.
Definition DRIFT_THRESHOLD_POLICY_VERSION : N := 1.
Inductive DriftBaselineMode := BaselineExplicit (history_id : Uuid) | LatestEligible.
#[export] Instance DriftBaselineMode_eq_dec : EqDecision DriftBaselineMode.
Proof. solve_decision. Defined.
Record DriftObservationWindow := mkWindow { start_sequence : N; end_sequence : N }.
#[export] Instance DriftObservationWindow_eq_dec : EqDecision DriftObservationWindow.
Proof. solve_decision. Defined.
Definition window_validate (w : DriftObservationWindow) : bool := (start_sequence w <? end_sequence w)%N.
Record DriftComparisonRequest := mkComparison {
  dc_workspace_id : Uuid;
  dc_dataset_id : Uuid;
  dc_candidate_history_id : Uuid;
  dc_baseline : DriftBaselineMode;
  dc_threshold_policy_version : N;
  dc_observation_window : option DriftObservationWindow;
  dc_report_contract_version : N;
}.
#[export] Instance DriftComparisonRequest_eq_dec : EqDecision DriftComparisonRequest.
Proof. solve_decision. Defined.
Definition comparison_validate (c : DriftComparisonRequest) : bool :=
  negb (is_nil (dc_workspace_id c)) && negb (is_nil (dc_dataset_id c)) && negb (is_nil (dc_candidate_history_id c))
  && (dc_threshold_policy_version c =? DRIFT_THRESHOLD_POLICY_VERSION)%N
  && (dc_report_contract_version c =? PROFILE_HISTORY_DRIFT_CONTRACT_VERSION)%N
  && match dc_observation_window c with None => true | Some w => window_validate w end.

(** ** Operations *)

Inductive OperationKind := KMaterialize | KVerification | KProfile | KExport | KDrift.
#[export] Instance OperationKind_eq_dec : EqDecision OperationKind.
Proof. solve_decision. Defined.

Record SourceAssetRef := mkSourceAssetRef {
  sa_workspace_id : Uuid;
  sa_source_connection_id : Uuid;
  sa_source_asset_id : Uuid;
  sa_version_digest : Digest;
}.
#[export] Instance SourceAssetRef_eq_dec : EqDecision SourceAssetRef.
Proof. solve_decision. Defined.
Record SnapshotRef := mkSnapshotRef {
  sr_workspace_id : Uuid;
  sr_session_id : Uuid;
  sr_dataset_id : Uuid;
  sr_snapshot_id : Uuid;
  sr_version_digest : Digest;
  sr_schema_fingerprint : Digest;
  sr_snapshot_version : N;
}.
#[export] Instance SnapshotRef_eq_dec : EqDecision SnapshotRef.
Proof. solve_decision. Defined.
Inductive ProfileColumnsV1 := AllColumns | ExplicitColumns (columns : list string).
#[export] Instance ProfileColumnsV1_eq_dec : EqDecision ProfileColumnsV1.
Proof. solve_decision. Defined.
Record ProfileRequestV1 := mkProfileRequest { pr_columns : ProfileColumnsV1; pr_top_k : N; pr_histogram_buckets : N }.
#[export] Instance ProfileRequestV1_eq_dec : EqDecision ProfileRequestV1.
Proof. solve_decision. Defined.
Inductive ExportDestinationV1 :=
| DestLocal (root : string) (components : list string)
| DestObjectStore (prefix : string).
#[export] Instance ExportDestinationV1_eq_dec : EqDecision ExportDestinationV1.
Proof. solve_decision. Defined.
Record ExportRequestV1 := mkExportRequest {
  er_export_id : Uuid; er_format : ExportFormat; er_shape : ExportShape; er_destination : ExportDestinationV1 }.
#[export] Instance ExportRequestV1_eq_dec : EqDecision ExportRequestV1.
Proof. solve_decision. Defined.

(** The policies are their batch size, and for verification whether the
    rejected rows are published. *)
Inductive OperationDescriptorV1 :=
| DMaterialize (source_asset : SourceAssetRef) (batch_size : N)
| DVerification (snapshot : SnapshotRef) (batch_size : N) (publish_rejected_rows : bool)
| DProfile (snapshot : SnapshotRef) (request : ProfileRequestV1)
| DExport (snapshot : SnapshotRef) (request : ExportRequestV1)
| DDrift (comparison : DriftComparisonRequest).
#[export] Instance OperationDescriptorV1_eq_dec : EqDecision OperationDescriptorV1.
Proof. solve_decision. Defined.

Record JobOperation := mkOperation {
  operation_kind : OperationKind;
  operation_version : N;
  descriptor : OperationDescriptorV1;
}.
#[export] Instance JobOperation_eq_dec : EqDecision JobOperation.
Proof. solve_decision. Defined.

Inductive OperationValidationError :=
| UnsupportedVersion (version : N)
| KindMismatch
| NilIdentity (identity : string)
| ZeroDigest (identity : string)
| InvalidBatchSize
| InvalidProfileBounds
| DuplicateProfileColumn
| InvalidProfileColumn
| InvalidDestination
| InvalidDriftComparison
| OperationSerialization.
Notation Checked := (result OperationValidationError).

Definition DATASET_SNAPSHOT_VERSION : N := 1.
Definition OPERATION_VERSION : N := 1.
Definition DIGEST_DOMAIN : list N := bytes_of "stillflow.job-operation.descriptor.v1" ++ [0%N].

(** ** Validation *)

Definition validate_identities (ids : list (Uuid * string)) : Checked unit :=
  each (fun p => if is_nil p.1 then Err (NilIdentity p.2) else Ok tt) ids.

Definition validate_source_asset_ref (r : SourceAssetRef) : Checked unit :=
  try! validate_identities [(sa_workspace_id r, "workspace"); (sa_source_connection_id r, "source connection");
                            (sa_source_asset_id r, "source asset")];
  if is_zero (sa_version_digest r) then Err (ZeroDigest "source asset version") else Ok tt.

Definition validate_snapshot_ref (r : SnapshotRef) : Checked unit :=
  try! validate_identities [(sr_workspace_id r, "workspace"); (sr_session_id r, "session");
                            (sr_dataset_id r, "dataset"); (sr_snapshot_id r, "snapshot")];
  if is_zero (sr_version_digest r) then Err (ZeroDigest "snapshot version") else
  if is_zero (sr_schema_fingerprint r) then Err (ZeroDigest "snapshot schema") else
  if negb (sr_snapshot_version r =? DATASET_SNAPSHOT_VERSION)%N
  then Err (UnsupportedVersion (sr_snapshot_version r)) else Ok tt.

Definition validate_batch_size (batch_size : N) : Checked unit :=
  if negb ((1 <=? batch_size) && (batch_size <=? 65536))%N then Err InvalidBatchSize else Ok tt.

Definition validate_profile_request (r : ProfileRequestV1) : Checked unit :=
  if (pr_top_k r =? 0)%N || (100 <? pr_top_k r)%N || (pr_histogram_buckets r =? 0)%N || (64 <? pr_histogram_buckets r)%N
  then Err InvalidProfileBounds else
  match pr_columns r with
  | AllColumns => Ok tt
  | ExplicitColumns columns =>
      if (256 <? len columns)%N then Err InvalidProfileBounds else
      (fun _ => tt) <$> fold_result (fun (seen : gset string) column =>
        if bool_decide (column ∈ seen) then Err DuplicateProfileColumn else
        if (str_len column =? 0)%N || (256 <? str_len column)%N then Err InvalidProfileColumn else
        try! map_err (fun _ => InvalidProfileColumn) (ensure_no_secret_fields (JString column));
        Ok ({[column]} ∪ seen)) ∅ columns
  end.

Definition validate_export_destination (d : ExportDestinationV1) (format : ExportFormat) (shape : ExportShape)
  : Checked unit :=
  match d with
  | DestLocal root components =>
      if (str_len root =? 0)%N || negb (is_absolute root) || bool_decide (components = [])
      then Err InvalidDestination else
      try! map_err (fun _ => InvalidDestination) (ensure_no_secret_fields (JString root));
      try! map_err (fun _ => InvalidDestination) (export_destination_local root components format shape);
      Ok tt
  | DestObjectStore prefix =>
      if (str_len prefix =? 0)%N then Err InvalidDestination else
      try! map_err (fun _ => InvalidDestination) (ensure_no_secret_fields (JString prefix));
      Ok tt
  end.

Definition descriptor_kind (d : OperationDescriptorV1) : OperationKind :=
  match d with
  | DMaterialize _ _ => KMaterialize | DVerification _ _ _ => KVerification | DProfile _ _ => KProfile
  | DExport _ _ => KExport | DDrift _ => KDrift
  end.

Definition operation_validate (o : JobOperation) : Checked unit :=
  if negb (operation_version o =? OPERATION_VERSION)%N then Err (UnsupportedVersion (operation_version o)) else
  if negb (bool_decide (descriptor_kind (descriptor o) = operation_kind o)) then Err KindMismatch else
  match descriptor o with
  | DMaterialize source_asset batch_size =>
      try! validate_source_asset_ref source_asset; validate_batch_size batch_size
  | DVerification snapshot batch_size _ => try! validate_snapshot_ref snapshot; validate_batch_size batch_size
  | DProfile snapshot request => try! validate_snapshot_ref snapshot; validate_profile_request request
  | DExport snapshot request =>
      try! validate_snapshot_ref snapshot;
      if is_nil (er_export_id request) then Err (NilIdentity "export") else
      validate_export_destination (er_destination request) (er_format request) (er_shape request)
  | DDrift comparison => if negb (comparison_validate comparison) then Err InvalidDriftComparison else Ok tt
  end.

Definition operation_try_new (kind : OperationKind) (d : OperationDescriptorV1) : Checked JobOperation :=
  let operation := mkOperation kind OPERATION_VERSION d in
  try! operation_validate operation;
  Ok operation.

Definition input_ref (o : JobOperation) : option ControlPlaneInput :=
  match descriptor o with
  | DMaterialize source_asset _ => Some (asset_input (sa_source_asset_id source_asset) (sa_version_digest source_asset))
  | DVerification snapshot _ _ | DProfile snapshot _ | DExport snapshot _ =>
      Some (snapshot_input (sr_snapshot_id snapshot) (sr_version_digest snapshot))
  | DDrift _ => None
  end.
Definition snapshot_ref_of (o : JobOperation) : option SnapshotRef :=
  match descriptor o with
  | DVerification snapshot _ _ | DProfile snapshot _ | DExport snapshot _ => Some snapshot
  | DMaterialize _ _ | DDrift _ => None
  end.

(** ** Identity *)

Section identity.
(** [serde_json::to_value] of an operation and [to_string] of a string, and
    the hash. *)
Context (operation_to_value : JobOperation -> option json) (json_text : string -> option (list N))
        (sha256 : list N -> Digest).

Definition write_operation_json : json -> Checked (list N) :=
  write_canonical OperationSerialization OperationSerialization OperationSerialization json_text.

Definition canonical_descriptor_bytes (o : JobOperation) : Checked (list N) :=
  try! operation_validate o;
  value ← ok_or (operation_to_value o) OperationSerialization;
  write_operation_json value.
Definition descriptor_digest (o : JobOperation) : Checked Digest :=
  bytes ← canonical_descriptor_bytes o;
  Ok (sha256 (DIGEST_DOMAIN ++ bytes)).
End identity.

(** ** Decoding *)

(** [DuplicateCheckedJson]: the document, if no object in it has the same key
    twice. *)
Fixpoint duplicate_checked (v : json) : option json :=
  match v with
  | JArray items =>
      JArray <$> (fix go (items : list json) : option (list json) :=
                    match items with
                    | [] => Some []
                    | item :: items => v ← duplicate_checked item; vs ← go items; Some (v :: vs)
                    end) items
  | JObject entries =>
      JObject <$> (fix go (values : list (string * json)) (entries : list (string * json)) : option (list (string * json)) :=
                     match entries with
                     | [] => Some values
                     | (key, item) :: entries =>
                         if bool_decide (key ∈ values.*1) then None else
                         v ← duplicate_checked item; go (values ++ [(key, v)]) entries
                     end) [] entries
  | _ => Some v
  end.

(** Every object's keys are unique. *)
Fixpoint unique_keys (v : json) : Prop :=
  match v with
  | JArray items => (fix go l := match l with [] => True | x :: l => unique_keys x /\ go l end) items
  | JObject entries =>
      NoDup entries.*1 /\
      (fix go l := match l with [] => True | (_, x) :: l => unique_keys x /\ go l end) entries
  | _ => True
  end.

Lemma unique_keys_array items : unique_keys (JArray items) <-> Forall unique_keys items.
Proof. cbn. induction items as [|v l IH]; [by split; constructor|]. by rewrite IH, Forall_cons. Qed.
Lemma unique_keys_object entries :
  unique_keys (JObject entries) <-> NoDup entries.*1 /\ Forall (fun e => unique_keys e.2) entries.
Proof.
  cbn. apply and_iff_compat_l. induction entries as [|[k v] l IH]; [by split; constructor|]. by rewrite IH, Forall_cons.
Qed.

Lemma duplicate_checked_exact v w : duplicate_checked v = Some w <-> w = v /\ unique_keys v.
Proof.
  revert w. induction v as [|b|n|s|l IH|es IH] using json_nested_ind; intros w; try (cbn; naive_solver).
  - rewrite unique_keys_array. cbn [duplicate_checked].
    match goal with |- (JArray <$> ?g l = _) <-> _ => set (go := g) end.
    assert (forall ws, go l = Some ws <-> ws = l /\ Forall unique_keys l) as Hgo.
    { induction IH as [|x l Hx _ IHl]; intros ws; cbn; [naive_solver|]. rewrite bind_Some. setoid_rewrite bind_Some.
      setoid_rewrite Hx. setoid_rewrite IHl. rewrite Forall_cons. naive_solver. }
    rewrite fmap_Some. setoid_rewrite Hgo. naive_solver.
  - rewrite unique_keys_object. cbn [duplicate_checked].
    match goal with |- (JObject <$> ?g [] es = _) <-> _ => set (go := g) end.
    assert (forall values ws, NoDup values.*1 ->
      go values es = Some ws <-> ws = values ++ es /\ NoDup (values ++ es).*1 /\ Forall (fun e => unique_keys e.2) es) as Hgo.
    { induction IH as [|[k x] es Hx _ IHl]; intros values ws Hnd; cbn.
      { rewrite app_nil_r. split; [by intros [= <-]|by intros (-> & _)]. }
      rewrite Forall_cons. case_bool_decide as Hin.
      - split; [done|]. intros (_ & Hdup & _). exfalso.
        rewrite fmap_app in Hdup. apply NoDup_app in Hdup as (_ & Hdis & _). apply (Hdis k Hin). by left.
      - rewrite bind_Some. setoid_rewrite Hx.
        assert (NoDup (values ++ [(k, x)]).*1) as Hnd'.
        { rewrite fmap_app. apply NoDup_app. split_and!; [done| |apply NoDup_singleton]. set_solver. }
        specialize (IHl (values ++ [(k, x)]) ws Hnd'). rewrite <- app_assoc in IHl. cbn in IHl. naive_solver. }
    rewrite fmap_Some. setoid_rewrite (Hgo [] _ ltac:(constructor)). cbn. naive_solver.
Qed.
