(* ===== verification/Jobs.v ===== *)
(** * Jobs: rows, decoding and events of
    [stillflow-storage/src/control_plane.rs]

    The tables of the control plane that jobs live in, what is read back from
    their rows, and the one function that appends an event.  States, instants
    and identities are typed values, as their columns are constrained to be;
    the columns with JSON text and digests keep their text, because the queue
    reader has to cope with text it cannot decode. *)

From S2P Require Import Prelude Text Secrets Logical Nodes Schedule Automation Hex Canonical Operations.

Definition EVENT_VERSION : N := 1.
Definition MAX_QUEUED_JOBS_PER_WORKSPACE : N := 256.
Definition MAX_EVENT_PAGE_SIZE : N := 1000.
Definition MAX_EVENT_PAYLOAD_BYTES : N := 64 * 1024.
Definition MAX_MAINTENANCE_CANDIDATES : N := 1024.

(** ** States *)

Inductive JobState := Queued | Running | Cancelling | Succeeded | Failed | Cancelled.
#[export] Instance JobState_eq_dec : EqDecision JobState.
Proof. solve_decision. Defined.
Definition job_is_terminal (s : JobState) : bool :=
  match s with Succeeded | Failed | Cancelled => true | _ => false end.

Inductive RunState := RRunning | RCancelling | RSucceeded | RFailed | RCancelled.
#[export] Instance RunState_eq_dec : EqDecision RunState.
Proof. solve_decision. Defined.
Definition run_is_terminal (s : RunState) : bool :=
  match s with RSucceeded | RFailed | RCancelled => true | _ => false end.

Inductive ArtifactRefState := Staged | Committed | Tombstoned | AFailed.
#[export] Instance ArtifactRefState_eq_dec : EqDecision ArtifactRefState.
Proof. solve_decision. Defined.

Definition allowed_job_transition (from to : JobState) : bool :=
  match from, to with
  | Queued, Running | Queued, Cancelling | Queued, Failed
  | Running, Cancelling | Running, Succeeded | Running, Failed
  | Cancelling, Cancelled | Cancelling, Failed => true
  | _, _ => false
  end.
Definition allowed_run_transition (from to : RunState) : bool :=
  match from, to with
  | RRunning, RSucceeded | RRunning, RFailed | RRunning, RCancelling
  | RCancelling, RCancelled | RCancelling, RFailed => true
  | _, _ => false
  end.
Definition allowed_artifact_transition (from to : ArtifactRefState) : bool :=
  match from, to with
  | Staged, Committed | Staged, AFailed | Committed, Tombstoned => true
  | _, _ => false
  end.

(** ** Events *)

Inductive EventStreamKind := JobStream | RunStream.
#[export] Instance EventStreamKind_eq_dec : EqDecision EventStreamKind.
Proof. solve_decision. Defined.
Inductive ControlPlaneEventType :=
| JobQueued | JobRunning | JobCancelling | JobSucceeded | JobFailed | JobCancelled
| RunRunning | RunCancelling | RunSucceeded | RunFailed | RunCancelled | RunReconciled
| ArtifactCommitted | ArtifactTombstoned.
#[export] Instance ControlPlaneEventType_eq_dec : EqDecision ControlPlaneEventType.
Proof. solve_decision. Defined.

Definition event_type_is_job (t : ControlPlaneEventType) : bool :=
  match t with
  | JobQueued | JobRunning | JobCancelling | JobSucceeded | JobFailed | JobCancelled => true
  | _ => false
  end.
Definition event_type_is_run (t : ControlPlaneEventType) : bool :=
  match t with
  | RunRunning | RunCancelling | RunSucceeded | RunFailed | RunCancelled | RunReconciled
  | ArtifactCommitted | ArtifactTombstoned => true
  | _ => false
  end.
Definition event_type_for_job_state (s : JobState) : ControlPlaneEventType :=
  match s with
  | Queued => JobQueued | Running => JobRunning | Cancelling => JobCancelling
  | Succeeded => JobSucceeded | Failed => JobFailed | Cancelled => JobCancelled
  end.
Definition event_type_for_run_state (s : RunState) : ControlPlaneEventType :=
  match s with
  | RRunning => RunRunning | RCancelling => RunCancelling
  | RSucceeded => RunSucceeded | RFailed => RunFailed | RCancelled => RunCancelled
  end.

Record EventDraft := mkEventDraft {
  ed_event_id : Uuid;
  ed_stream_kind : EventStreamKind;
  ed_stream_id : Uuid;
  ed_job_id : Uuid;
  ed_run_id : option Uuid;
  ed_event_type : ControlPlaneEventType;
  ed_event_version : N;
  ed_occurred_at : DateTime;
  ed_request_id : string;
  ed_correlation_id : string;
  ed_actor_ref : string;
  ed_payload : json;
}.
Definition event_draft_new (event_id : Uuid) (stream_kind : EventStreamKind) (stream_id job_id : Uuid) (run_id : option Uuid)
  (event_type : ControlPlaneEventType) (occurred_at : DateTime) (request_id correlation_id actor_ref : string)
  (payload : json) : EventDraft :=
  mkEventDraft event_id stream_kind stream_id job_id run_id event_type EVENT_VERSION occurred_at
    request_id correlation_id actor_ref payload.

Record FailureInfo := mkFailure { category : string; retryable : bool; failure_message : string }.

(** ** Terminal outputs *)

Inductive ArtifactKind :=
| KindVerificationBundle | KindAcceptedSnapshot | KindValidationReport | KindRejectedRows | KindDeduplicationReport
| KindProfileReport | KindQualityReport | KindExportArtifact | KindDriftReport.
#[export] Instance ArtifactKind_eq_dec : EqDecision ArtifactKind.
Proof. solve_decision. Defined.
Inductive DriftOutcome :=
| DriftComplete | DriftPartial | DriftNoBaseline | DriftIncompatibleVersion | DriftTombstonedInput
| DriftInvalidComparison | DriftOutputLimitExceeded.
#[export] Instance DriftOutcome_eq_dec : EqDecision DriftOutcome.
Proof. solve_decision. Defined.
Record SnapshotOutputRef := mkSnapshotOutput {
  so_workspace_id : Uuid;
  so_session_id : Uuid;
  so_dataset_id : Uuid;
  so_snapshot_id : Uuid;
  so_version_digest : Digest;
  so_schema_fingerprint : Digest;
  so_snapshot_version : N;
  so_committed : bool;
}.
Record ArtifactOutputRef := mkArtifactOutput {
  ao_workspace_id : Uuid;
  ao_run_id : Uuid;
  ao_artifact_id : Uuid;
  ao_artifact_kind : ArtifactKind;
  ao_artifact_version : N;
  ao_content_digest : Digest;
  ao_state : ArtifactRefState;
}.
Inductive TerminalOutputRef :=
| OutSnapshot (o : SnapshotOutputRef)
| OutVerificationBundle (workspace_id run_id bundle_id : Uuid) (bundle_version : N) (version_digest : Digest)
    (accepted_snapshot : SnapshotOutputRef) (members : list ArtifactOutputRef)
| OutArtifact (o : ArtifactOutputRef)
| OutDriftComparison (workspace_id run_id dataset_id candidate_history_id : Uuid) (baseline_history_id : option Uuid)
    (outcome : DriftOutcome) (report_artifact_id : option Uuid) (report_digest : option string).

Definition snapshot_output_validate (o : SnapshotOutputRef) : Stored unit :=
  try! validate_id (so_workspace_id o) "Snapshot output workspace";
  try! validate_id (so_session_id o) "Snapshot output session";
  try! validate_id (so_dataset_id o) "Snapshot output dataset";
  try! validate_id (so_snapshot_id o) "Snapshot output reference";
  if is_zero (so_version_digest o) || is_zero (so_schema_fingerprint o)
     || negb (so_snapshot_version o =? DATASET_SNAPSHOT_VERSION)%N || negb (so_committed o)
  then Err (InvalidDraft "Snapshot output identity is not committed and complete") else Ok tt.
Definition artifact_output_validate (o : ArtifactOutputRef) : Stored unit :=
  try! validate_id (ao_workspace_id o) "Artifact output workspace";
  try! validate_id (ao_run_id o) "Artifact output Run";
  try! validate_id (ao_artifact_id o) "Artifact output reference";
  if (ao_artifact_version o =? 0)%N || is_zero (ao_content_digest o) || negb (bool_decide (ao_state o = Committed))
  then Err (InvalidDraft "Artifact output identity is not committed and complete") else Ok tt.
Definition publishes_report (o : DriftOutcome) : bool :=
  match o with DriftComplete | DriftPartial => true | _ => false end.
Definition is_lower_hex (b : N) : bool := (((48 <=? b) && (b <=? 57)) || ((97 <=? b) && (b <=? 102)))%N.
Definition validate_output (o : TerminalOutputRef) : Stored unit :=
  match o with
  | OutSnapshot o => snapshot_output_validate o
  | OutVerificationBundle workspace_id run_id bundle_id bundle_version version_digest accepted_snapshot members =>
      try! validate_id workspace_id "VerificationBundle output workspace";
      try! validate_id run_id "VerificationBundle output Run";
      try! validate_id bundle_id "VerificationBundle output reference";
      if (bundle_version =? 0)%N || is_zero version_digest
      then Err (InvalidDraft "VerificationBundle output identity is invalid") else
      try! snapshot_output_validate accepted_snapshot;
      if (3 <? len members)%N
      then Err (InvalidDraft "VerificationBundle member cardinality exceeds the supported bound") else
      each artifact_output_validate members
  | OutArtifact o => artifact_output_validate o
  | OutDriftComparison workspace_id run_id dataset_id candidate baseline outcome report_artifact_id report_digest =>
      try! validate_id workspace_id "Drift output workspace";
      try! validate_id run_id "Drift output Run";
      try! validate_id dataset_id "Drift output Dataset";
      try! validate_id candidate "Drift candidate history";
      try! match baseline with
           | Some history_id =>
               try! validate_id history_id "Drift baseline history";
               if (history_id =? candidate)%N
               then Err (InvalidDraft "Drift baseline and candidate histories must differ") else Ok tt
           | None => Ok tt
           end;
      if negb (Bool.eqb (publishes_report outcome) (bool_decide (is_Some report_artifact_id)))
      then Err (InvalidDraft "Drift terminal outcome and report reference disagree") else
      try! match report_artifact_id with Some id => validate_id id "Drift report Artifact" | None => Ok tt end;
      match report_digest with
      | Some digest =>
          if negb (str_len digest =? 64)%N || negb (forallb is_lower_hex (bytes_of digest))
          then Err (InvalidDraft "Drift report digest is not lowercase hexadecimal") else Ok tt
      | None => if bool_decide (is_Some report_artifact_id)
                then Err (InvalidDraft "Drift report digest is required with its Artifact") else Ok tt
      end
  end.

(** ** Digests *)

(** [u8::from_str_radix(_, 16)] of two characters: a sign is allowed. *)
Definition hex_digit (c : N) : option N :=
  (if (48 <=? c) && (c <=? 57) then Some (c - 48) else if (97 <=? c) && (c <=? 102) then Some (c - 87)
   else if (65 <=? c) && (c <=? 70) then Some (c - 55) else None)%N.
Definition from_str_radix_16 (a b : N) : option N :=
  if (a =? 43)%N then hex_digit b else h ← hex_digit a; l ← hex_digit b; Some (h * 16 + l)%N.
(** A byte inside a character: a slice may not start there. *)
Definition continuation (b : N) : bool := ((128 <=? b) && (b <=? 191))%N.
Fixpoint digest_pairs (t : list N) : Stored Digest :=
  match t with
  | a :: b :: rest =>
      if continuation a || match rest with c :: _ => continuation c | [] => false end
      then Err (Panic "byte index is not a char boundary") else
      byte ← ok_or (from_str_radix_16 a b) (Serialization "digest contains invalid hex");
      bytes ← digest_pairs rest;
      Ok (byte :: bytes)
  | _ => Ok []
  end.
Definition parse_digest (value : string) : Stored Digest :=
  if negb (str_len value =? 64)%N then Err (Serialization "digest must be 64 hex characters") else
  digest_pairs (bytes_of value).
Definition digest_hex (value : Digest) : string := hex_encode value.

(** ** Rows *)

Record OperationColumns := mkOperationColumns {
  oc_kind : option string;
  oc_version : option Z;
  oc_descriptor_json : option string;
  oc_descriptor_digest : option string;
}.
#[export] Instance OperationColumns_eq_dec : EqDecision OperationColumns.
Proof. solve_decision. Defined.

(** The columns of a job that are written once, by its submission. *)
Record JobColumns := mkJobColumns {
  j_workspace_id : Uuid;
  j_session_id : Uuid;
  j_plan_version_id : Uuid;
  j_canonical_plan_digest : string;
  j_operation : OperationColumns;
  j_request_digest : option string;
  j_input_json : string;
  j_execution_policy_json : string;
  j_output_policy_json : string;
  j_queued_at : DateTime;
}.
Record JobRow := mkJob {
  job_columns : JobColumns;
  j_state : JobState;
  j_started_at : option DateTime;
  j_finished_at : option DateTime;
  j_run_id : option Uuid;
  j_failure_json : option string;
  j_output_refs_json : string;
}.

(** The columns of a run that are written once, by the claim. *)
Record RunColumns := mkRunColumns {
  r_workspace_id : Uuid;
  r_session_id : Uuid;
  r_job_id : Uuid;
  r_plan_id : Uuid;
  r_plan_version_id : Uuid;
  r_canonical_plan_digest : string;
  r_plan_fingerprint : string;
  r_operation : OperationColumns;
  r_input_json : string;
  r_engine_contract_version : Z;
  r_engine_build : string;
  r_started_at : DateTime;
}.
Record RunRow := mkRun {
  run_columns : RunColumns;
  r_state : RunState;
  r_finished_at : option DateTime;
  r_failure_json : option string;
  r_snapshot_ref : option Uuid;
  r_bundle_ref : option Uuid;
  r_output_refs_json : string;
}.

Record EventRow := mkEvent {
  ev_event_id : Uuid;
  ev_workspace_id : Uuid;
  ev_session_id : Uuid;
  ev_stream_kind : EventStreamKind;
  ev_stream_id : Uuid;
  ev_sequence : N;
  ev_event_type : ControlPlaneEventType;
  ev_event_version : N;
  ev_occurred_at : DateTime;
  ev_job_id : Uuid;
  ev_run_id : option Uuid;
  ev_request_id : string;
  ev_correlation_id : string;
  ev_actor_ref : string;
  ev_payload_json : string;
}.

Record KeyRow := mkKey { key_request_digest : string; key_job_id : Uuid; key_result_json : string }.

Record ArtifactRow := mkArtifact {
  a_workspace_id : Uuid;
  a_run_id : Uuid;
  a_artifact_kind : ArtifactKind;
  a_external_ref_kind : string;
  a_external_ref_id : Uuid;
  a_content_digest : string;
  a_metadata_json : string;
  a_state : ArtifactRefState;
  a_created_at : DateTime;
  a_committed_at : option DateTime;
  a_tombstoned_at : option DateTime;
}.
Record BodyRow := mkBody {
  b_artifact_kind : ArtifactKind;
  b_artifact_version : Z;
  b_content_digest : string;
  b_body : list N;
  b_provenance_json : string;
  b_state : ArtifactRefState;
  b_created_at : DateTime;
  b_committed_at : option DateTime;
}.

(** The rows jobs refer to and never change. *)
Record SessionRow := mkSession { s_workspace_id : Uuid; s_state : string; s_created_at : DateTime }.
Record PlanVersionRow := mkPlanVersion {
  pv_plan_id : Uuid;
  pv_workspace_id : Uuid;
  pv_canonical_plan_bytes : list N;
  pv_canonical_plan_digest : string;
  pv_plan_fingerprint : string;
  pv_state : string;
  pv_published_at : option DateTime;
}.
Record AssetRow := mkAsset { as_workspace_id : Uuid; as_connection_id : Uuid; as_state : string }.
Record ConnectionRow := mkConnection { co_workspace_id : Uuid; co_state : string }.
Record SnapshotRow := mkSnapshot {
  sn_dataset_id : Uuid;
  sn_session_id : Uuid;
  sn_source_asset_id : Uuid;
  sn_schema_fingerprint : string;
  sn_version : Z;
  sn_state : Z;
}.
Record HistoryRow := mkHistory {
  h_workspace_id : Uuid;
  h_dataset_id : Uuid;
  h_profile_artifact_id : Uuid;
  h_producing_run_id : Uuid;
  h_profile_digest : string;
  h_profile_sequence : Z;
  h_state : string;
}.
Record Catalog := mkCatalog {
  cp_workspaces : gmap Uuid string;
  cp_sessions : gmap Uuid SessionRow;
  cp_plans : gmap Uuid string;
  cp_plan_versions : gmap Uuid PlanVersionRow;
  cp_assets : gmap Uuid AssetRow;
  cp_connections : gmap Uuid ConnectionRow;
  cp_datasets : gmap Uuid (Uuid * string);
  snapshots : gmap Uuid SnapshotRow;
  (** run and accepted snapshot of a bundle *)
  verification_bundles : gmap Uuid (Uuid * Uuid);
  qd1_profile_history : gmap Uuid HistoryRow;
}.

(** A row of [qd1_drift_comparisons], under its key's text. *)
Record ComparisonRow := mkComparisonRow {
  cmp_workspace_id : Uuid;
  cmp_dataset_id : Uuid;
  cmp_baseline_history_id : Uuid;
  cmp_candidate_history_id : Uuid;
  cmp_report_artifact_id : Uuid;
  cmp_producing_run_id : Uuid;
  cmp_report_digest : string;
  cmp_created_at : DateTime;
}.

(** Events are in the order of their insertion. *)
Record Tables := mkTables {
  catalog : Catalog;
  cp_jobs : gmap Uuid JobRow;
  cp_runs : gmap Uuid RunRow;
  cp_events : list EventRow;
  cp_idempotency_keys : gmap (Uuid * string) KeyRow;
  cp_artifact_refs : gmap Uuid ArtifactRow;
  cp_artifact_bodies : gmap Uuid BodyRow;
  qd1_drift_comparisons : gmap string ComparisonRow;
}.

Definition set_jobs (jobs : gmap Uuid JobRow) (t : Tables) : Tables :=
  mkTables (catalog t) jobs (cp_runs t) (cp_events t) (cp_idempotency_keys t) (cp_artifact_refs t) (cp_artifact_bodies t)
    (qd1_drift_comparisons t).
Definition set_runs (runs : gmap Uuid RunRow) (t : Tables) : Tables :=
  mkTables (catalog t) (cp_jobs t) runs (cp_events t) (cp_idempotency_keys t) (cp_artifact_refs t) (cp_artifact_bodies t)
    (qd1_drift_comparisons t).
Definition set_events (events : list EventRow) (t : Tables) : Tables :=
  mkTables (catalog t) (cp_jobs t) (cp_runs t) events (cp_idempotency_keys t) (cp_artifact_refs t) (cp_artifact_bodies t)
    (qd1_drift_comparisons t).
Definition set_keys (keys : gmap (Uuid * string) KeyRow) (t : Tables) : Tables :=
  mkTables (catalog t) (cp_jobs t) (cp_runs t) (cp_events t) keys (cp_artifact_refs t) (cp_artifact_bodies t)
    (qd1_drift_comparisons t).
Definition set_artifacts (refs : gmap Uuid ArtifactRow) (bodies : gmap Uuid BodyRow) (t : Tables) : Tables :=
  mkTables (catalog t) (cp_jobs t) (cp_runs t) (cp_events t) (cp_idempotency_keys t) refs bodies
    (qd1_drift_comparisons t).
Definition set_comparisons (comparisons : gmap string ComparisonRow) (t : Tables) : Tables :=
  mkTables (catalog t) (cp_jobs t) (cp_runs t) (cp_events t) (cp_idempotency_keys t) (cp_artifact_refs t)
    (cp_artifact_bodies t) comparisons.

(** ** Records

    What is handed out of a row: its typed columns as they are, and the
    values its texts decode to. *)

Record JobRecord := mkJobRecord {
  jr_id : Uuid;
  jr_row : JobRow;
  jr_plan_id : Uuid;
  jr_canonical_plan_digest : Digest;
  jr_operation : option JobOperation;
  jr_request_digest : option Digest;
  jr_inputs : list ControlPlaneInput;
  jr_execution_policy : json;
  jr_output_policy : json;
  jr_failure : option FailureInfo;
  jr_outputs : list TerminalOutputRef;
}.
Record RunRecord := mkRunRecord {
  rr_id : Uuid;
  rr_row : RunRow;
  rr_canonical_plan_digest : Digest;
  rr_plan_fingerprint : Digest;
  rr_operation : option JobOperation;
  rr_operation_descriptor_digest : option Digest;
  rr_inputs : list ControlPlaneInput;
  rr_engine_contract_version : N;
  rr_failure : option FailureInfo;
  rr_outputs : list TerminalOutputRef;
}.

(** ** Encoding

    What serde, the hash and uuid do: the JSON text of a value and back.
    [json_tree] is the document a text is parsed to before its duplicate
    keys are looked at. *)
Class JobCodec := {
  sha256 : list N -> Digest;
  json_text : string -> option (list N);
  json_print : json -> option string;
  json_parse : string -> option json;
  json_parse_bytes : list N -> option json;
  json_tree : string -> option json;
  operation_to_value : JobOperation -> option json;
  operation_from_value : json -> option JobOperation;
  operation_print : JobOperation -> option string;
  inputs_to_value : list ControlPlaneInput -> json;
  inputs_print : list ControlPlaneInput -> option string;
  inputs_parse : string -> option (list ControlPlaneInput);
  failure_print : FailureInfo -> option string;
  failure_parse : string -> option FailureInfo;
  outputs_print : list TerminalOutputRef -> option string;
  outputs_parse : string -> option (list TerminalOutputRef);
  uuid_text : Uuid -> string;
  uuid_v5 : Uuid -> list N -> Uuid;
}.

Section rows.
Context `{JobCodec}.

Definition canonical_json_bytes (value : json) : Stored (list N) :=
  write_canonical (Serialization "floating point is not allowed in Job identity")
    (Serialization "serialize Job identity string") (Serialization "serialize Job identity key") json_text value.
Definition compact_json (value : json) (operation : string) : Stored string :=
  ok_or (json_print value) (Serialization operation).
Definition parse_json (value label : string) : Stored json := ok_or (json_parse value) (Serialization label).
Definition validate_safe_text (value label : string) : Stored unit :=
  if contains_secret_marker value then Err (InvalidDraft label) else Ok tt.

Definition operation_kind_text (k : OperationKind) : string :=
  match k with
  | KMaterialize => "materialize" | KVerification => "verification" | KProfile => "profile"
  | KExport => "export" | KDrift => "drift"
  end.
(** [serde_json::from_str::<JobOperation>] *)
Definition operation_parse (text : string) : option JobOperation :=
  tree ← json_tree text;
  value ← duplicate_checked tree;
  operation_from_value value.
Definition digest_of (o : JobOperation) : Checked Digest := descriptor_digest operation_to_value json_text sha256 o.

(** [map(..).transpose()?] over an option. *)
Definition transposed {A B} (f : A -> Stored B) (o : option A) : Stored (option B) :=
  match o with Some a => Some <$> f a | None => Ok None end.

(** *** Failures *)

Definition failure_to_value (f : FailureInfo) : json :=
  JObject [("category", JString (category f)); ("retryable", JBool (retryable f)); ("message", JString (failure_message f))].
Definition failure_try_new (cat : string) (retry : bool) (text : string) : Stored FailureInfo :=
  let value := mkFailure cat retry (string_of_bytes (sanitize_message (bytes_of text))) in
  try! validate_safe_json false (failure_to_value value);
  Ok value.
Definition failure_json (failure : option FailureInfo) : Stored (option string) :=
  transposed (fun f =>
    try! validate_safe_json false (failure_to_value f);
    ok_or (failure_print f) (Serialization "serialize failure information")) failure.
Definition parse_failure (value : string) : Stored FailureInfo :=
  failure ← ok_or (failure_parse value) (Serialization "failure information");
  try! validate_safe_json false (failure_to_value failure);
  Ok failure.
Definition validate_failure_for_target (is_failed : bool) (failure : option FailureInfo) : Stored unit :=
  if negb (Bool.eqb is_failed (bool_decide (is_Some failure)))
  then Err (InvalidDraft "failed terminal state requires exactly one sanitized failure record") else Ok tt.

(** *** Operations, inputs and outputs *)

Definition parse_operation (c : OperationColumns) : Stored (option JobOperation) :=
  match oc_kind c, oc_version c, oc_descriptor_json c, oc_descriptor_digest c with
  | None, None, None, None => Ok None
  | Some kind, Some version, Some descriptor_json, Some descriptor_digest =>
      operation ← ok_or (operation_parse descriptor_json) (Serialization "JobOperation descriptor");
      try! map_err (fun _ => Serialization "invalid JobOperation descriptor") (operation_validate operation);
      if negb (bool_decide (kind = operation_kind_text (operation_kind operation)))
         || negb (Z.of_N (operation_version operation) =? version)%Z
      then Err (Serialization "JobOperation identity does not match descriptor") else
      expected ← map_err (fun _ => Serialization "JobOperation descriptor digest") (digest_of operation);
      stored ← parse_digest descriptor_digest;
      if negb (bool_decide (stored = expected))
      then Err (Serialization "JobOperation descriptor digest mismatch") else
      Ok (Some operation)
  | _, _, _, _ => Err (Serialization "incomplete JobOperation persistence")
  end.

Definition input_id (i : ControlPlaneInput) : Uuid :=
  match input i with InputAsset id | InputSnapshot id => id end.
Definition validate_inputs (inputs : list ControlPlaneInput) : Stored unit :=
  each (fun i => validate_id (input_id i) "input reference") inputs.
(** The inputs are exactly the operation's one input, or none. *)
Definition inputs_match (operation : JobOperation) (inputs : list ControlPlaneInput) : bool :=
  match input_ref operation with
  | Some expected => bool_decide (inputs = [expected])
  | None => bool_decide (inputs = [])
  end.

Definition output_id (o : TerminalOutputRef) : Uuid :=
  match o with
  | OutSnapshot o => so_snapshot_id o
  | OutVerificationBundle _ _ bundle_id _ _ _ _ => bundle_id
  | OutArtifact o => ao_artifact_id o
  | OutDriftComparison _ _ _ candidate _ _ _ _ => candidate
  end.
Definition parse_terminal_outputs (value : string) : Stored (list TerminalOutputRef) :=
  outputs ← ok_or (outputs_parse value) (Serialization "terminal outputs");
  if (4 <? len outputs)%N then Err (InvalidDraft "terminal output cardinality exceeds the supported bound") else
  try! fold_result (fun (ids : gset Uuid) output =>
    try! validate_output output;
    if bool_decide (output_id output ∈ ids)
    then Err (InvalidDraft "terminal outputs contain duplicate identities") else
    Ok ({[output_id output]} ∪ ids)) ∅ outputs;
  Ok outputs.

(** *** The request a digest is taken of *)

Definition uuid_value (id : Uuid) : json := JString (uuid_text id).
(** [to_value] has succeeded where the operation's digest has. *)
Definition operation_value (o : option JobOperation) : json :=
  match o with Some o => default JNull (operation_to_value o) | None => JNull end.
Definition operation_digest_text (o : option JobOperation) : Stored (option string) :=
  transposed (fun o => digest_hex <$> map_err (fun _ => Serialization "JobOperation descriptor digest") (digest_of o)) o.
Definition opt_string (o : option string) : json := match o with Some s => JString s | None => JNull end.
Definition request_descriptor (workspace session plan_version : Uuid) (plan_digest : Digest) (operation : option JobOperation)
  (operation_digest : option string) (inputs : list ControlPlaneInput) (execution_policy output_policy plan_id : json) : json :=
  JObject ([("workspaceId", uuid_value workspace); ("sessionId", uuid_value session);
            ("planVersionId", uuid_value plan_version); ("canonicalPlanDigest", JString (digest_hex plan_digest));
            ("operationKind", opt_string ((fun o => operation_kind_text (operation_kind o)) <$> operation));
            ("operationVersion", match operation with Some o => JNumber (PosInt (operation_version o)) | None => JNull end);
            ("operationDescriptorDigest", opt_string operation_digest); ("operation", operation_value operation);
            ("inputs", inputs_to_value inputs); ("executionPolicy", execution_policy); ("outputPolicy", output_policy)]
           ++ match operation with Some _ => [("planId", plan_id)] | None => [] end).

(** *** Reading rows *)

(** The join with [cp_plan_versions]: the row and its plan. *)
Definition job_raw (t : Tables) (job_id : Uuid) : Stored (JobRow * Uuid) :=
  match cp_jobs t !! job_id with
  | Some row =>
      match cp_plan_versions (catalog t) !! j_plan_version_id (job_columns row) with
      | Some version => Ok (row, pv_plan_id version)
      | None => Err (NotFound job_id)
      end
  | None => Err (NotFound job_id)
  end.
Definition run_raw (t : Tables) (run_id : Uuid) : Stored RunRow := ok_or (cp_runs t !! run_id) (NotFound run_id).
Definition plan_version_raw (t : Tables) (id : Uuid) : Stored PlanVersionRow :=
  ok_or (cp_plan_versions (catalog t) !! id) (NotFound id).

Definition job_from_raw (id : Uuid) (raw : JobRow * Uuid) : Stored JobRecord :=
  let '(row, plan_id) := raw in
  let c := job_columns row in
  inputs ← ok_or (inputs_parse (j_input_json c)) (Serialization "Job input references");
  try! validate_inputs inputs;
  execution_policy ← parse_json (j_execution_policy_json c) "Job execution policy";
  try! validate_safe_json false execution_policy;
  output_policy ← parse_json (j_output_policy_json c) "Job output policy";
  try! validate_safe_json false output_policy;
  operation ← parse_operation (j_operation c);
  try! match operation with
       | Some operation =>
           if inputs_match operation inputs then Ok tt
           else Err (Serialization "typed Job inputs do not match its operation input")
       | None => Ok tt
       end;
  request_digest ← transposed parse_digest (j_request_digest c);
  if bool_decide (is_Some operation) && negb (bool_decide (is_Some request_digest))
  then Err (Serialization "typed Job request digest is missing") else
  try! match request_digest with
       | Some actual_digest =>
           operation_digest ← operation_digest_text operation;
           plan_digest ← parse_digest (j_canonical_plan_digest c);
           bytes ← canonical_json_bytes
             (request_descriptor (j_workspace_id c) (j_session_id c) (j_plan_version_id c) plan_digest operation
                operation_digest inputs execution_policy output_policy (uuid_value plan_id));
           if negb (bool_decide (sha256 bytes = actual_digest))
           then Err (Serialization "Job request digest does not match its durable descriptor") else Ok tt
       | None => Ok tt
       end;
  outputs ← parse_terminal_outputs (j_output_refs_json row);
  if negb (bool_decide (j_state row = Succeeded)) && negb (bool_decide (length outputs = 0))
  then Err (Serialization "unsuccessful Job exposes terminal outputs") else
  plan_digest ← parse_digest (j_canonical_plan_digest c);
  failure ← transposed parse_failure (j_failure_json row);
  Ok (mkJobRecord id row plan_id plan_digest operation request_digest inputs execution_policy output_policy failure outputs).
Definition job_from_transaction (t : Tables) (id : Uuid) : Stored JobRecord :=
  raw ← job_raw t id; job_from_raw id raw.
Definition get_job (t : Tables) (id : Uuid) : Stored JobRecord := job_from_transaction t id.

Definition run_from_raw (id : Uuid) (row : RunRow) : Stored RunRecord :=
  let c := run_columns row in
  inputs ← ok_or (inputs_parse (r_input_json c)) (Serialization "Run input references");
  try! validate_inputs inputs;
  let version := r_engine_contract_version c in
  if negb ((0 <=? version) && (version <=? 65535))%Z then Err (Serialization "Run engine contract version") else
  if (version =? 0)%Z || (str_len (r_engine_build c) =? 0)%N then Err (Serialization "Run execution identity") else
  operation ← parse_operation (r_operation c);
  expected_digest ← transposed (fun o => map_err (fun _ => Serialization "Run operation descriptor digest") (digest_of o))
                      operation;
  try! match operation with
       | Some operation =>
           if inputs_match operation inputs then Ok tt
           else Err (Serialization "typed Run inputs do not match its operation input")
       | None => Ok tt
       end;
  stored_digest ← transposed parse_digest (oc_descriptor_digest (r_operation c));
  if negb (bool_decide (stored_digest = expected_digest))
  then Err (Serialization "Run operation descriptor digest mismatch") else
  outputs ← parse_terminal_outputs (r_output_refs_json row);
  if negb (bool_decide (r_state row = RSucceeded)) && negb (bool_decide (length outputs = 0))
  then Err (Serialization "unsuccessful Run exposes terminal outputs") else
  plan_digest ← parse_digest (r_canonical_plan_digest c);
  fingerprint ← parse_digest (r_plan_fingerprint c);
  failure ← transposed parse_failure (r_failure_json row);
  Ok (mkRunRecord id row plan_digest fingerprint operation stored_digest inputs (Z.to_N version) failure outputs).
Definition run_from_transaction (t : Tables) (id : Uuid) : Stored RunRecord := row ← run_raw t id; run_from_raw id row.
Definition get_run (t : Tables) (id : Uuid) : Stored RunRecord := run_from_transaction t id.

(** ** Appending events *)

Definition validate_event_identity (e : EventDraft) : Stored unit :=
  try! validate_id (ed_event_id e) "event";
  try! validate_id (ed_stream_id e) "event stream";
  try! validate_id (ed_job_id e) "event Job";
  try! match ed_run_id e with Some run_id => validate_id run_id "event Run" | None => Ok tt end;
  if (ed_event_version e =? 0)%N || (str_len (ed_request_id e) =? 0)%N || (str_len (ed_correlation_id e) =? 0)%N
     || (str_len (ed_actor_ref e) =? 0)%N || contains_secret_marker (ed_request_id e)
     || contains_secret_marker (ed_correlation_id e) || contains_secret_marker (ed_actor_ref e)
  then Err (InvalidDraft "event identity must be non-empty and secret-free") else
  try! validate_safe_json true (ed_payload e);
  encoded ← compact_json (ed_payload e) "serialize Event payload";
  if (MAX_EVENT_PAYLOAD_BYTES <? str_len encoded)%N
  then Err (InvalidDraft "event payload exceeds the 64 KiB bound") else Ok tt.

Definition validate_state_event (e : EventDraft) (kind : EventStreamKind) (stream_id job_id : Uuid) (run_id : option Uuid)
  (event_type : ControlPlaneEventType) : Stored unit :=
  if negb (bool_decide (ed_stream_kind e = kind)) || negb (ed_stream_id e =? stream_id)%N || negb (ed_job_id e =? job_id)%N
     || negb (bool_decide (ed_run_id e = run_id)) || negb (bool_decide (ed_event_type e = event_type))
  then Err (InvalidDraft "event does not describe the requested state transition") else
  validate_event_identity e.

(** The events of one stream, in order. *)
Definition in_stream (kind : EventStreamKind) (id : Uuid) (e : EventRow) : Prop :=
  ev_stream_kind e = kind /\ ev_stream_id e = id.
#[global] Instance in_stream_dec kind id e : Decision (in_stream kind id e).
Proof. unfold in_stream. apply _. Defined.
Definition stream (t : Tables) (kind : EventStreamKind) (id : Uuid) : list EventRow :=
  filter (in_stream kind id) (cp_events t).
(** [SELECT COALESCE(MAX(sequence), 0)] *)
Definition last_sequence (events : list EventRow) : N := foldr (fun e n => N.max (ev_sequence e) n) 0%N events.

(** The [PRIMARY KEY] and the [UNIQUE] constraint of [cp_events]; what the row
    refers to has been read before. *)
Definition may_insert_event (t : Tables) (e : EventRow) : bool :=
  forallb (fun f => negb (ev_event_id f =? ev_event_id e)%N
                    && negb (bool_decide (in_stream (ev_stream_kind e) (ev_stream_id e) f)
                             && (ev_sequence f =? ev_sequence e)%N)) (cp_events t).

Definition append_event_tx (t : Tables) (e : EventDraft) : Stored Tables :=
  try! validate_event_identity e;
  job ← job_raw t (ed_job_id e);
  let c := job_columns job.1 in
  try! match ed_stream_kind e with
       | JobStream =>
           if negb (ed_stream_id e =? ed_job_id e)%N || bool_decide (is_Some (ed_run_id e))
              || negb (event_type_is_job (ed_event_type e))
           then Err (InvalidDraft "Job stream event identity is invalid") else Ok tt
       | RunStream =>
           run_id ← ok_or (ed_run_id e) (InvalidDraft "Run stream event must identify a Run");
           run ← run_raw t run_id;
           if negb (ed_stream_id e =? run_id)%N || negb (r_job_id (run_columns run) =? ed_job_id e)%N
              || negb (r_workspace_id (run_columns run) =? j_workspace_id c)%N
              || negb (r_session_id (run_columns run) =? j_session_id c)%N
              || negb (event_type_is_run (ed_event_type e))
           then Err (InvalidDraft "Run stream event belongs to another Job") else Ok tt
       end;
  payload_json ← compact_json (ed_payload e) "serialize Event payload";
  let last := last_sequence (stream t (ed_stream_kind e) (ed_stream_id e)) in
  if (i64_max <=? last)%N then Err (ArithmeticOverflow "Event sequence") else
  let row := mkEvent (ed_event_id e) (j_workspace_id c) (j_session_id c) (ed_stream_kind e) (ed_stream_id e) (last + 1)
               (ed_event_type e) (ed_event_version e) (ed_occurred_at e) (ed_job_id e) (ed_run_id e) (ed_request_id e)
               (ed_correlation_id e) (ed_actor_ref e) payload_json in
  if negb (may_insert_event t row) then Err (AlreadyExists (ed_event_id e)) else
  Ok (set_events (cp_events t ++ [row]) t).

(** ** Reading events *)

Record EventRecord := mkEventRecord { er_row : EventRow; er_payload : json }.
Definition event_from_raw (e : EventRow) : Stored EventRecord :=
  if (ev_sequence e =? 0)%N || (ev_event_version e =? 0)%N then Err (Serialization "invalid Event sequence or version") else
  payload ← parse_json (ev_payload_json e) "Event payload";
  try! validate_safe_json true payload;
  if (str_len (ev_request_id e) =? 0)%N || (str_len (ev_correlation_id e) =? 0)%N || (str_len (ev_actor_ref e) =? 0)%N
     || contains_secret_marker (ev_request_id e) || contains_secret_marker (ev_correlation_id e)
     || contains_secret_marker (ev_actor_ref e) || (MAX_EVENT_PAYLOAD_BYTES <? str_len (ev_payload_json e))%N
  then Err (Serialization "unsafe Event metadata") else
  if (bool_decide (ev_stream_kind e = JobStream) && negb (event_type_is_job (ev_event_type e)))
     || (bool_decide (ev_stream_kind e = RunStream) && negb (event_type_is_run (ev_event_type e)))
  then Err (Serialization "Event type does not match stream kind") else
  Ok (mkEventRecord e payload).
Definition event_from_transaction (t : Tables) (event_id : Uuid) : Stored EventRecord :=
  row ← ok_or (List.find (fun e => (ev_event_id e =? event_id)%N) (cp_events t)) (NotFound event_id);
  event_from_raw row.

Record EventCursor := mkEventCursor {
  ec_workspace_id : Uuid; ec_stream_kind : EventStreamKind; ec_stream_id : Uuid; ec_sequence : N }.
Record EventPage := mkEventPage { ep_events : list EventRecord; ep_next : option EventCursor }.
Definition validate_page_limit (limit : N) : Stored unit :=
  if (limit =? 0)%N || (MAX_EVENT_PAGE_SIZE <? limit)%N
  then Err (InvalidDraft "page size must be between 1 and 1000") else Ok tt.
Definition sequence_le (e f : EventRow) : Prop := (ev_sequence e <= ev_sequence f)%N.
#[global] Instance sequence_le_dec : RelDecision sequence_le.
Proof. intros e f. unfold sequence_le. apply _. Defined.
Definition list_events (t : Tables) (workspace : Uuid) (kind : EventStreamKind) (stream_id : Uuid) (cursor : option EventCursor)
  (limit : N) : Stored EventPage :=
  try! validate_page_limit limit;
  if match cursor with
     | Some c => negb (ec_workspace_id c =? workspace)%N || negb (bool_decide (ec_stream_kind c = kind))
                 || negb (ec_stream_id c =? stream_id)%N
     | None => false
     end
  then Err (InvalidDraft "cursor is bound to another workspace or stream") else
  let after := match cursor with Some c => ec_sequence c | None => 0%N end in
  if (i64_max <? after)%N then Err (ArithmeticOverflow "event cursor") else
  events ← collect event_from_raw
    (take (S (N.to_nat limit))
       (merge_sort sequence_le
          (filter (fun e => (ev_workspace_id e =? workspace)%N && (after <? ev_sequence e)%N) (stream t kind stream_id))));
  if (limit <? len events)%N
  then let page := take (N.to_nat limit) events in
       Ok (mkEventPage page ((fun e => mkEventCursor workspace kind stream_id (ev_sequence (er_row e))) <$> last page))
  else Ok (mkEventPage events None).

(** ** Changing state *)

Definition update_job (f : JobRow -> JobRow) (id : Uuid) (t : Tables) : Tables := set_jobs (alter f id (cp_jobs t)) t.
Definition update_run (f : RunRow -> RunRow) (id : Uuid) (t : Tables) : Tables := set_runs (alter f id (cp_runs t)) t.

(** [COALESCE(new, old)] *)
Definition coalesce {A} (new old : option A) : option A := match new with Some a => Some a | None => old end.

Definition job_set_state (target : JobState) (finished_at : option DateTime) (r : JobRow) : JobRow :=
  mkJob (job_columns r) target (j_started_at r) (coalesce finished_at (j_finished_at r)) (j_run_id r)
    (j_failure_json r) (j_output_refs_json r).
Definition job_set_failure (failure_json : option string) (r : JobRow) : JobRow :=
  mkJob (job_columns r) (j_state r) (j_started_at r) (j_finished_at r) (j_run_id r) failure_json (j_output_refs_json r).
Definition run_set_state (target : RunState) (finished_at : option DateTime) (r : RunRow) : RunRow :=
  mkRun (run_columns r) target (coalesce finished_at (r_finished_at r)) (r_failure_json r) (r_snapshot_ref r)
    (r_bundle_ref r) (r_output_refs_json r).
Definition run_set_failure (failure_json : option string) (r : RunRow) : RunRow :=
  mkRun (run_columns r) (r_state r) (r_finished_at r) failure_json (r_snapshot_ref r) (r_bundle_ref r)
    (r_output_refs_json r).

Definition transition_job_state_tx (t : Tables) (id : Uuid) (expected target : JobState) (finished_at : option DateTime)
  : Stored Tables :=
  match cp_jobs t !! id with
  | Some row =>
      if bool_decide (j_state row = expected) then Ok (update_job (job_set_state target finished_at) id t)
      else Err (Busy "control-plane object was already claimed")
  | None => Err (Busy "control-plane object was already claimed")
  end.
Definition transition_run_state_tx (t : Tables) (id : Uuid) (expected target : RunState) (finished_at : option DateTime)
  : Stored Tables :=
  match cp_runs t !! id with
  | Some row =>
      if bool_decide (r_state row = expected) then Ok (update_run (run_set_state target finished_at) id t)
      else Err (Busy "control-plane object was already claimed")
  | None => Err (Busy "control-plane object was already claimed")
  end.
End rows.
