(* ===== verification/Submissions.v ===== *)
(** * Submissions and the queue: [stillflow-storage/src/control_plane.rs]

    [submit_job] and what it checks, and the readers of the durable queue.
    Each is one immediate transaction on the tables; the queue reader runs
    one more for every row it cannot decode. *)

From S2P Require Import Prelude Text Secrets Logical Nodes Schedule Automation Hex Canonical Operations Jobs.

(** What is read from the files of committed snapshots and bundles. *)
Record LoadedBundle := mkLoadedBundle {
  lb_verification_contract_version : N;
  lb_input : ControlPlaneInput;
  lb_content_digest : Digest;
  lb_validation_report : Uuid * Digest;
  lb_deduplication_report : Uuid * Digest;
  lb_rejected_rows_artifact_id : option Uuid;
  lb_rejected_rows : option Digest;
}.
Class StoreFiles := {
  snapshot_version_digest : Uuid -> Stored Digest;
  load_bundle : Uuid -> Stored LoadedBundle;
}.

Record JobSubmission := mkSubmission {
  js_workspace_id : Uuid;
  js_session_id : Uuid;
  js_plan_id : option Uuid;
  js_plan_version_id : Uuid;
  js_canonical_plan_digest : Digest;
  js_operation : option JobOperation;
  js_job_id : Uuid;
  js_idempotency_key : string;
  js_inputs : list ControlPlaneInput;
  js_execution_policy : json;
  js_output_policy : json;
  js_request_digest : Digest;
  js_queued_at : DateTime;
  js_event_id : Uuid;
  js_request_id : string;
  js_correlation_id : string;
  js_actor_ref : string;
}.
Definition with_plan_and_digest (plan_id : option Uuid) (digest : Digest) (s : JobSubmission) : JobSubmission :=
  mkSubmission (js_workspace_id s) (js_session_id s) plan_id (js_plan_version_id s) (js_canonical_plan_digest s)
    (js_operation s) (js_job_id s) (js_idempotency_key s) (js_inputs s) (js_execution_policy s) (js_output_policy s)
    digest (js_queued_at s) (js_event_id s) (js_request_id s) (js_correlation_id s) (js_actor_ref s).

Inductive SubmitOutcome := JobCreated (job : JobRecord) | JobReplayed (job : JobRecord).
Definition submitted_job (o : SubmitOutcome) : JobRecord := match o with JobCreated j | JobReplayed j => j end.

Section submissions.
Context `{JobCodec} `{StoreFiles}.

(** ** The submission itself *)

Definition request_json (s : JobSubmission) (operation_digest : option string) : json :=
  request_descriptor (js_workspace_id s) (js_session_id s) (js_plan_version_id s) (js_canonical_plan_digest s)
    (js_operation s) operation_digest (js_inputs s) (js_execution_policy s) (js_output_policy s)
    (match js_plan_id s with Some id => uuid_value id | None => JNull end).
Definition compute_request_digest (s : JobSubmission) : Stored Digest :=
  operation_digest ← operation_digest_text (js_operation s);
  bytes ← canonical_json_bytes (request_json s operation_digest);
  Ok (sha256 bytes).

(** [try_new_inner]: the digest is computed, nothing else is checked. *)
Definition submission_try_new (s : JobSubmission) : Stored JobSubmission :=
  digest ← compute_request_digest (with_plan_and_digest (js_plan_id s) zero_digest s);
  Ok (with_plan_and_digest (js_plan_id s) digest s).

(** The descriptor belongs to the job's workspace and session. *)
Definition operation_scope (workspace session : Uuid) (d : OperationDescriptorV1) : Stored unit :=
  match d with
  | DMaterialize source_asset _ =>
      if negb (sa_workspace_id source_asset =? workspace)%N
      then Err (InvalidDraft "Materialize SourceAsset is outside the Job Workspace") else Ok tt
  | DVerification snapshot _ _ | DProfile snapshot _ | DExport snapshot _ =>
      if negb (sr_workspace_id snapshot =? workspace)%N || negb (sr_session_id snapshot =? session)%N
      then Err (InvalidDraft "Snapshot input is outside the Job Workspace or Session") else Ok tt
  | DDrift comparison =>
      if negb (dc_workspace_id comparison =? workspace)%N
      then Err (InvalidDraft "Drift comparison is outside the Job Workspace") else Ok tt
  end.

Definition submission_validate (s : JobSubmission) : Stored unit :=
  try! validate_id (js_workspace_id s) "workspace";
  try! validate_id (js_session_id s) "session";
  try! match js_plan_id s with Some plan_id => validate_id plan_id "Plan" | None => Ok tt end;
  try! validate_id (js_plan_version_id s) "PlanVersion";
  try! validate_id (js_job_id s) "job";
  try! validate_id (js_event_id s) "event";
  try! match js_operation s with
       | Some operation =>
           try! map_err (fun _ => InvalidDraft "invalid JobOperation descriptor") (operation_validate operation);
           try! operation_scope (js_workspace_id s) (js_session_id s) (descriptor operation);
           match input_ref operation with
           | Some expected =>
               if negb (bool_decide (js_inputs s = [expected]))
               then Err (InvalidDraft "Job inputs must equal the typed operation input") else Ok tt
           | None =>
               if negb (bool_decide (js_inputs s = []))
               then Err (InvalidDraft "Drift operations must not carry generic Job inputs") else Ok tt
           end
       | None => Ok tt
       end;
  if (str_len (js_idempotency_key s) =? 0)%N || (128 <? str_len (js_idempotency_key s))%N
  then Err (InvalidDraft "idempotency key must be 1 to 128 UTF-8 bytes") else
  try! validate_safe_text (js_idempotency_key s) "idempotency key";
  if (str_len (js_request_id s) =? 0)%N || (str_len (js_correlation_id s) =? 0)%N || (str_len (js_actor_ref s) =? 0)%N
  then Err (InvalidDraft "event identity fields must be non-empty") else
  try! validate_safe_text (js_request_id s) "request identity";
  try! validate_safe_text (js_correlation_id s) "correlation identity";
  try! validate_safe_text (js_actor_ref s) "actor identity";
  try! each (fun i => validate_id (input_id i) "job input") (js_inputs s);
  try! validate_safe_json false (js_execution_policy s);
  try! validate_safe_json false (js_output_policy s);
  digest ← compute_request_digest s;
  if negb (bool_decide (digest = js_request_digest s))
  then Err (InvalidDraft "request digest does not match the canonical submission descriptor") else Ok tt.

(** ** What a submission refers to *)

Definition ensure_workspace_active (t : Tables) (workspace : Uuid) : Stored unit :=
  match cp_workspaces (catalog t) !! workspace with
  | Some state =>
      if bool_decide (state = "active") then Ok tt
      else if bool_decide (state = "archived")
      then Err (InvalidDraft "archived Workspace cannot accept new control-plane objects")
      else Err (Serialization "unknown Workspace state")
  | None => Err (NotFound workspace)
  end.
Definition ensure_session_workspace (t : Tables) (workspace session : Uuid) : Stored unit :=
  match cp_sessions (catalog t) !! session with
  | Some row =>
      if (s_workspace_id row =? workspace)%N && bool_decide (s_state row = "open") then Ok tt
      else if negb (s_workspace_id row =? workspace)%N
      then Err (InvalidDraft "Session belongs to another Workspace")
      else Err (InvalidDraft "closing or closed Session cannot accept a new child or Job")
  | None => Err (NotFound session)
  end.
Definition ensure_plan_version_for_job (t : Tables) (workspace plan_version_id : Uuid) (digest : Digest) : Stored unit :=
  row ← match cp_plan_versions (catalog t) !! plan_version_id with
        | Some v => match cp_plans (catalog t) !! pv_plan_id v with
                    | Some plan_state => Ok (v, plan_state)
                    | None => Err (NotFound plan_version_id)
                    end
        | None => Err (NotFound plan_version_id)
        end;
  let '(v, plan_state) := row in
  if negb (pv_workspace_id v =? workspace)%N then Err (InvalidDraft "PlanVersion belongs to another Workspace") else
  if negb (bool_decide (pv_state v = "published"))
  then Err (InvalidDraft "only a published PlanVersion can bind a Job") else
  if negb (bool_decide (plan_state = "active")) then Err (InvalidDraft "archived Plan cannot accept a new Job") else
  if is_nil (pv_plan_id v) then Err (Serialization "invalid Plan reference") else
  if negb (bool_decide (pv_canonical_plan_digest v = digest_hex digest))
     || negb (bool_decide (digest_hex (sha256 (pv_canonical_plan_bytes v)) = pv_canonical_plan_digest v))
  then Err (Serialization "Job PlanVersion digest binding is invalid") else Ok tt.

Definition validate_submission_timestamp (t : Tables) (session plan_version_id : Uuid) (queued_at : DateTime) : Stored unit :=
  session ← ok_or (cp_sessions (catalog t) !! session) (Database "read Session creation timestamp");
  if (queued_at <? s_created_at session)%Z then Err (InvalidTimestampOrder "Job queue") else
  v ← ok_or (cp_plan_versions (catalog t) !! plan_version_id) (Database "read PlanVersion publication timestamp");
  match pv_published_at v with
  | Some published_at => if (queued_at <? published_at)%Z then Err (InvalidTimestampOrder "Job queue") else Ok tt
  | None => Ok tt
  end.

Definition validate_source_asset_input (t : Tables) (workspace connection asset : Uuid) : Stored unit :=
  row ← ok_or (cp_assets (catalog t) !! asset) (NotFound asset);
  if negb (as_workspace_id row =? workspace)%N
  then Err (InvalidDraft "Materialize SourceAsset belongs to another Workspace") else
  if negb (as_connection_id row =? connection)%N
  then Err (InvalidDraft "Materialize SourceAsset belongs to another SourceConnection") else
  if negb (bool_decide (as_state row = "active")) then Err (InvalidDraft "Materialize SourceAsset is not active") else
  con ← ok_or (cp_connections (catalog t) !! connection) (NotFound connection);
  if negb (co_workspace_id con =? workspace)%N
  then Err (InvalidDraft "Materialize SourceConnection belongs to another Workspace") else
  if negb (bool_decide (co_state con = "active")) then Err (InvalidDraft "Materialize SourceConnection is not active")
  else Ok tt.

(** A committed snapshot of an active dataset, with its workspace. *)
Definition snapshot_row (t : Tables) (id : Uuid) : Stored (SnapshotRow * Uuid * Digest * N) :=
  let missing := InvalidDraft "Snapshot input or output is not a committed active Snapshot" in
  row ← ok_or (snapshots (catalog t) !! id) missing;
  dataset ← ok_or (cp_datasets (catalog t) !! sn_dataset_id row) missing;
  if negb (sn_state row =? 1)%Z || negb (bool_decide (dataset.2 = "active")) then Err missing else
  schema ← parse_digest (sn_schema_fingerprint row);
  if negb ((0 <=? sn_version row) && (sn_version row <=? 65535))%Z then Err (Serialization "Snapshot version") else
  Ok (row, dataset.1, schema, Z.to_N (sn_version row)).

Definition validate_snapshot_input (t : Tables) (workspace session : Uuid) (reference : SnapshotRef) : Stored unit :=
  if negb (sr_workspace_id reference =? workspace)%N || negb (sr_session_id reference =? session)%N
  then Err (InvalidDraft "Snapshot input is outside the Job Workspace or Session") else
  found ← snapshot_row t (sr_snapshot_id reference);
  let '(row, actual_workspace, schema, version) := found in
  if negb (sn_dataset_id row =? sr_dataset_id reference)%N || negb (sn_session_id row =? sr_session_id reference)%N
     || negb (actual_workspace =? sr_workspace_id reference)%N || negb (bool_decide (schema = sr_schema_fingerprint reference))
     || negb (version =? sr_snapshot_version reference)%N
  then Err (InvalidDraft "Snapshot input identity does not match the committed manifest") else
  digest ← snapshot_version_digest (sr_snapshot_id reference);
  if negb (bool_decide (digest = sr_version_digest reference))
  then Err (InvalidDraft "Snapshot input version digest does not match the committed manifest") else Ok tt.

(** What an operation reads is there, at submission and again at the claim. *)
Definition validate_operation_input (t : Tables) (workspace session : Uuid) (d : OperationDescriptorV1) : Stored unit :=
  match d with
  | DMaterialize source_asset _ =>
      validate_source_asset_input t workspace (sa_source_connection_id source_asset) (sa_source_asset_id source_asset)
  | DVerification snapshot _ _ | DProfile snapshot _ | DExport snapshot _ =>
      validate_snapshot_input t workspace session snapshot
  | DDrift comparison =>
      if negb (dc_workspace_id comparison =? workspace)%N
      then Err (InvalidDraft "Drift comparison is outside the Job Workspace") else Ok tt
  end.

(** ** Submitting *)

Definition queued_in (workspace : Uuid) (r : JobRow) : bool :=
  (j_workspace_id (job_columns r) =? workspace)%N && bool_decide (j_state r = Queued).
Definition count_queued (t : Tables) (workspace : Uuid) : N :=
  len (filter (fun e => queued_in workspace e.2) (map_to_list (cp_jobs t))).

(** A typed submission gets its plan, and its digest is taken again. *)
Definition bind_plan (t : Tables) (s : JobSubmission) : Stored JobSubmission :=
  match js_operation s with
  | Some _ =>
      try! ensure_plan_version_for_job t (js_workspace_id s) (js_plan_version_id s) (js_canonical_plan_digest s);
      v ← plan_version_raw t (js_plan_version_id s);
      if match js_plan_id s with Some requested => negb (requested =? pv_plan_id v)%N | None => false end
      then Err (InvalidDraft "typed Job Plan identity does not match its PlanVersion") else
      digest ← compute_request_digest (with_plan_and_digest (Some (pv_plan_id v)) (js_request_digest s) s);
      let s := with_plan_and_digest (Some (pv_plan_id v)) digest s in
      try! submission_validate s;
      Ok s
  | None => Ok s
  end.

Definition operation_columns (operation : option JobOperation) : Stored OperationColumns :=
  match operation with
  | None => Ok (mkOperationColumns None None None None)
  | Some o =>
      text ← ok_or (operation_print o) (Serialization "serialize JobOperation descriptor");
      digest ← map_err (fun _ => Serialization "JobOperation descriptor digest") (digest_of o);
      Ok (mkOperationColumns (Some (operation_kind_text (operation_kind o))) (Some (Z.of_N (operation_version o)))
            (Some text) (Some (digest_hex digest)))
  end.

Definition job_queued_event (s : JobSubmission) : EventDraft :=
  mkEventDraft (js_event_id s) JobStream (js_job_id s) (js_job_id s) None JobQueued EVENT_VERSION (js_queued_at s)
    (js_request_id s) (js_correlation_id s) (js_actor_ref s) (JObject [("state", JString "queued")]).

Definition submit_job (t : Tables) (s : JobSubmission) : Stored (Tables * SubmitOutcome) :=
  try! submission_validate s;
  s ← bind_plan t s;
  match cp_idempotency_keys t !! (js_workspace_id s, js_idempotency_key s) with
  | Some key =>
      if negb (bool_decide (key_request_digest key = digest_hex (js_request_digest s)))
      then Err (AlreadyExists (key_job_id key)) else
      result ← parse_json (key_result_json key) "idempotency result";
      try! validate_safe_json false result;
      job ← job_from_transaction t (key_job_id key);
      Ok (t, JobReplayed job)
  | None =>
      try! ensure_workspace_active t (js_workspace_id s);
      try! ensure_session_workspace t (js_workspace_id s) (js_session_id s);
      try! ensure_plan_version_for_job t (js_workspace_id s) (js_plan_version_id s) (js_canonical_plan_digest s);
      try! match js_operation s with
           | Some operation => validate_operation_input t (js_workspace_id s) (js_session_id s) (descriptor operation)
           | None => Ok tt
           end;
      try! validate_submission_timestamp t (js_session_id s) (js_plan_version_id s) (js_queued_at s);
      if (MAX_QUEUED_JOBS_PER_WORKSPACE <=? count_queued t (js_workspace_id s))%N
      then Err (Busy "control-plane queue is full") else
      input_json ← ok_or (inputs_print (js_inputs s)) (Serialization "serialize job inputs");
      execution_policy_json ← compact_json (js_execution_policy s) "serialize execution policy";
      output_policy_json ← compact_json (js_output_policy s) "serialize output policy";
      columns ← operation_columns (js_operation s);
      (* [Value::to_string] has no error *)
      let result_json := default "" (json_print (JObject [("jobId", uuid_value (js_job_id s)); ("state", JString "queued")])) in
      if bool_decide (is_Some (cp_jobs t !! js_job_id s)) then Err (AlreadyExists (js_job_id s)) else
      let row := mkJob (mkJobColumns (js_workspace_id s) (js_session_id s) (js_plan_version_id s)
                          (digest_hex (js_canonical_plan_digest s)) columns (Some (digest_hex (js_request_digest s)))
                          input_json execution_policy_json output_policy_json (js_queued_at s))
                   Queued None None None None "[]" in
      let t := set_jobs (<[js_job_id s := row]> (cp_jobs t)) t in
      let t := set_keys (<[(js_workspace_id s, js_idempotency_key s) :=
                             mkKey (digest_hex (js_request_digest s)) (js_job_id s) result_json]>
                           (cp_idempotency_keys t)) t in
      t ← append_event_tx t (job_queued_event s);
      job ← job_from_transaction t (js_job_id s);
      Ok (t, JobCreated job)
  end.

(** ** The queue *)

Definition queue_depth (t : Tables) (workspace : Uuid) : Stored N :=
  try! validate_id workspace "workspace";
  Ok (count_queued t workspace).

(** [ORDER BY queued_at_utc, id] *)
Definition fifo_le (x y : Uuid * JobRow) : Prop :=
  (j_queued_at (job_columns x.2) < j_queued_at (job_columns y.2))%Z
  \/ j_queued_at (job_columns x.2) = j_queued_at (job_columns y.2) /\ (x.1 <= y.1)%N.
#[global] Instance fifo_le_dec : RelDecision fifo_le.
Proof. intros x y. unfold fifo_le. apply _. Defined.
(** The queued rows of a workspace that have their plan version. *)
Definition queue_rows (t : Tables) (workspace : Uuid) : list (Uuid * JobRow) :=
  merge_sort fifo_le
    (filter (fun e => queued_in workspace e.2 &&
                      bool_decide (is_Some (cp_plan_versions (catalog t) !! j_plan_version_id (job_columns e.2))))
            (map_to_list (cp_jobs t))).

Definition is_typed (c : JobColumns) : bool :=
  bool_decide (is_Some (oc_kind (j_operation c))) || bool_decide (is_Some (oc_version (j_operation c)))
  || bool_decide (is_Some (oc_descriptor_json (j_operation c)))
  || bool_decide (is_Some (oc_descriptor_digest (j_operation c))) || bool_decide (is_Some (j_request_digest c)).

Definition incompatible_event (event_id job_id : Uuid) (occurred_at : DateTime) : EventDraft :=
  event_draft_new event_id JobStream job_id job_id None JobFailed occurred_at
    ("storage:incompatible:" +:+ uuid_text job_id) ("storage:incompatible:" +:+ uuid_text job_id) "actor:control-plane"
    (JObject [("state", JString "failed"); ("category", JString "incompatible_operation")]).

(** [now] is the clock and [event_id] the fresh identity. *)
Definition fail_corrupt_queued_job (now : DateTime) (event_id : Uuid) (t : Tables) (job_id : Uuid) : Stored Tables :=
  row ← ok_or (cp_jobs t !! job_id) (NotFound job_id);
  if negb (bool_decide (j_state row = Queued)) then Ok t else
  let occurred_at := later now (j_queued_at (job_columns row)) in
  failure ← failure_try_new "incompatible_operation" false
              "queued Job contains an unsupported or corrupt typed operation";
  failure_json ← failure_json (Some failure);
  t ← transition_job_state_tx t job_id Queued Failed (Some occurred_at);
  append_event_tx (update_job (job_set_failure failure_json) job_id t) (incompatible_event event_id job_id occurred_at).

(** One turn of the loop: the answer, or the tables of the next turn. *)
Definition queue_turn (now : DateTime) (event_id workspace : Uuid) (t : Tables) : Stored (option JobRecord) + Tables :=
  match queue_rows t workspace with
  | [] => inl (Ok None)
  | (id, row) :: _ =>
      match job_raw t id ≫= job_from_raw id with
      | Ok job => inl (Ok (Some job))
      | Err error =>
          if is_typed (job_columns row) && match error with Serialization _ | InvalidDraft _ => true | _ => false end
          then match fail_corrupt_queued_job now event_id t id with
               | Ok t => inr t
               | Err error => inl (Err error)
               end
          else inl (Err error)
      end
  end.
(** What the turns before the last have committed stays.  [now] and
    [event_ids] are what the clock and the source of identities give turn by
    turn. *)
Fixpoint queue_loop (fuel : nat) (now : nat -> DateTime) (event_ids : nat -> Uuid) (workspace : Uuid) (t : Tables)
  : option (Tables * Stored (option JobRecord)) :=
  match fuel with
  | O => None
  | S fuel =>
      match queue_turn (now fuel) (event_ids fuel) workspace t with
      | inl answer => Some (t, answer)
      | inr t => queue_loop fuel now event_ids workspace t
      end
  end.
Definition next_queued_job (now : nat -> DateTime) (event_ids : nat -> Uuid) (t : Tables) (workspace : Uuid)
  : option (Tables * Stored (option JobRecord)) :=
  match validate_id workspace "workspace" with
  | Ok _ => queue_loop (S (length (queue_rows t workspace))) now event_ids workspace t
  | Err e => Some (t, Err e)
  end.

(** ** Reconciliation candidates *)

Record ReconciliationCandidate := mkCandidate {
  rc_job_id : Uuid; rc_run_id : Uuid; rc_job_state : JobState; rc_run_state : RunState }.
Definition job_active (s : JobState) : bool := match s with Running | Cancelling => true | _ => false end.
Definition run_active (s : RunState) : bool := match s with RRunning | RCancelling => true | _ => false end.
(** The inner join with [cp_runs] drops a job without a run. *)
Definition candidate_of (t : Tables) (e : Uuid * JobRow) : option ReconciliationCandidate :=
  run_id ← j_run_id e.2;
  run ← cp_runs t !! run_id;
  if job_active (j_state e.2) && run_active (r_state run)
  then Some (mkCandidate e.1 run_id (j_state e.2) (r_state run)) else None.
Definition list_reconciliation_candidates (t : Tables) (workspace : Uuid) (max_candidates : N)
  : Stored (list ReconciliationCandidate) :=
  try! validate_id workspace "workspace";
  if (max_candidates =? 0)%N || (MAX_MAINTENANCE_CANDIDATES <? max_candidates)%N
  then Err (InvalidDraft "reconciliation candidate limit is outside the maintenance bound") else
  Ok (take (N.to_nat max_candidates)
        (omap (candidate_of t)
           (merge_sort fifo_le (filter (fun e => (j_workspace_id (job_columns e.2) =? workspace)%N)
                                  (map_to_list (cp_jobs t)))))).
End submissions.
