(* ===== verification/Outputs.v ===== *)
(** * Terminal outputs: [stillflow-storage/src/control_plane.rs] and the drift
    reports of [profile_history.rs]

    A run that succeeds publishes what its operation promises: a snapshot, a
    bundle, reports, an export or a drift comparison.  The checks here are
    made, and the staged artifacts are committed, in the transaction that
    finishes the run. *)

From S2P Require Import Prelude Text Secrets Logical Nodes Schedule Automation Hex Canonical Operations Jobs Submissions.

Definition MAX_REPORT_BYTES : N := 16384 * (2 * 1024 * 1024).
Definition DRIFT_MAX_REPORT_BYTES : N := 2 * 1024 * 1024.
(** [ExternalRefKind::Artifact.as_str()] *)
Definition EXTERNAL_ARTIFACT : string := "artifact".

(** [Value::get], [as_str], [as_u64] and [as_array]. *)
Definition json_get (v : json) (key : string) : option json :=
  match v with JObject entries => snd <$> List.find (fun e => bool_decide (e.1 = key)) entries | _ => None end.
Definition as_str (v : json) : option string := match v with JString s => Some s | _ => None end.
Definition as_u64 (v : json) : option N := match v with JNumber (PosInt n) => Some n | _ => None end.
Definition as_array (v : json) : option (list json) := match v with JArray items => Some items | _ => None end.

Definition body_required (k : ArtifactKind) : bool :=
  match k with KindProfileReport | KindQualityReport | KindDriftReport => true | _ => false end.

Record DriftReportDraft := mkReportDraft {
  dr_comparison_key : Digest;
  dr_workspace_id : Uuid;
  dr_dataset_id : Uuid;
  dr_baseline_history_id : Uuid;
  dr_candidate_history_id : Uuid;
  dr_report_artifact_id : Uuid;
  dr_producing_run_id : Uuid;
  dr_report_digest : Digest;
  dr_metadata : json;
  dr_body : list N;
  dr_created_at : DateTime;
}.
Record HistoryIdentity := mkHistoryIdentity {
  hi_row : HistoryRow;
  hi_profile_digest : Digest;
  hi_profile_sequence : N;
  hi_active : bool;
}.

(** [profile_history.rs] reads digests as [control_plane.rs] does, with one
    error. *)
Definition history_digest (value : string) : Stored Digest :=
  map_err (fun e => match e with Panic s => Panic s | _ => Serialization "ProfileHistory digest" end) (parse_digest value).

Section outputs.
Context `{JobCodec} `{StoreFiles}.

Definition validate_artifact_body (kind : ArtifactKind) (content_digest : Digest) (body : list N) : Stored unit :=
  expected_type ← match kind with
                  | KindProfileReport => Ok "profile_report"
                  | KindQualityReport => Ok "quality_report"
                  | KindDriftReport => Ok "drift_report.v1"
                  | _ => Err (InvalidDraft "only profile, quality, and drift reports support canonical JSON bodies")
                  end;
  if (len body =? 0)%N || (MAX_REPORT_BYTES <? len body)%N
  then Err (InvalidDraft "Artifact body exceeds the bounded report body limit") else
  value ← ok_or (json_parse_bytes body) (Serialization "Artifact body JSON");
  try! validate_safe_json false value;
  actual_type ← ok_or (json_get value "artifact_type" ≫= as_str) (Serialization "Artifact body type");
  actual_version ← ok_or (json_get value "artifact_body_version" ≫= as_u64) (Serialization "Artifact body version");
  if negb (bool_decide (actual_type = expected_type)) || negb (actual_version =? 1)%N
  then Err (InvalidDraft "Artifact body type or version does not match its ArtifactRef") else
  if negb (bool_decide (sha256 body = content_digest))
  then Err (InvalidDraft "Artifact body digest does not match its ArtifactRef") else Ok tt.

(** ** Artifacts of a run *)

Definition staged_of (run_id : Uuid) (a : ArtifactRow) : bool :=
  (a_run_id a =? run_id)%N && bool_decide (a_state a = Staged).
Definition staged_count (t : Tables) (run_id : Uuid) : N :=
  len (filter (fun e => staged_of run_id e.2) (map_to_list (cp_artifact_refs t))).

Definition output_artifacts (outputs : list TerminalOutputRef) : list ArtifactOutputRef :=
  omap (fun o => match o with OutArtifact a => Some a | _ => None end) outputs.

(** One artifact among the outputs: staged for this run, with the body its
    kind requires and no other. *)
Definition validate_artifact_output (t : Tables) (run_id workspace : Uuid) (ids : gset Uuid) (o : ArtifactOutputRef)
  : Stored (gset Uuid) :=
  if bool_decide (ao_artifact_id o ∈ ids)
  then Err (InvalidDraft "typed terminal output contains duplicate ArtifactRefs") else
  if negb (ao_workspace_id o =? workspace)%N || negb (ao_run_id o =? run_id)%N || negb (ao_artifact_version o =? 1)%N
     || negb (bool_decide (ao_state o = Committed))
  then Err (InvalidDraft "terminal ArtifactRef ownership or version is invalid") else
  let missing := InvalidDraft "typed terminal ArtifactRef is missing or not staged" in
  row ← ok_or (cp_artifact_refs t !! ao_artifact_id o) missing;
  if negb (bool_decide (a_state row = Staged)) then Err missing else
  let mismatch := InvalidDraft "staged ArtifactRef identity does not match the typed output" in
  if negb (a_workspace_id row =? workspace)%N || negb (a_run_id row =? run_id)%N
     || negb (bool_decide (a_external_ref_kind row = EXTERNAL_ARTIFACT))
     || negb (bool_decide (a_artifact_kind row = ao_artifact_kind o)) then Err mismatch else
  digest ← parse_digest (a_content_digest row);
  if negb (bool_decide (digest = ao_content_digest o)) then Err mismatch else
  try! match body_required (ao_artifact_kind o), cp_artifact_bodies t !! ao_artifact_id o with
       | true, Some body =>
           let inconsistent := InvalidDraft "staged report Artifact body identity is inconsistent" in
           if negb (bool_decide (b_artifact_kind body = ao_artifact_kind o)) || negb (b_artifact_version body =? 1)%Z
           then Err inconsistent else
           digest ← parse_digest (b_content_digest body);
           if negb (bool_decide (digest = ao_content_digest o)) || negb (bool_decide (b_state body = Staged))
           then Err inconsistent else
           validate_artifact_body (ao_artifact_kind o) (ao_content_digest o) (b_body body)
       | true, None => Err (InvalidDraft "staged report ArtifactRef has no canonical body")
       | false, Some _ => Err (InvalidDraft "non-report ArtifactRef has an unexpected canonical body")
       | false, None => Ok tt
       end;
  Ok ({[ao_artifact_id o]} ∪ ids).
Definition validate_artifact_outputs (t : Tables) (run_id workspace : Uuid) (outputs : list TerminalOutputRef) : Stored unit :=
  if negb (staged_count t run_id =? len (output_artifacts outputs))%N
  then Err (InvalidDraft "staged ArtifactRefs do not exactly match the typed terminal output set") else
  (fun _ => tt) <$> fold_result (validate_artifact_output t run_id workspace) ∅ (output_artifacts outputs).

(** ** Snapshots and bundles *)

Definition validate_materialized_snapshot_output (t : Tables) (workspace session source_asset : Uuid) (o : SnapshotOutputRef)
  : Stored unit :=
  try! snapshot_output_validate o;
  found ← snapshot_row t (so_snapshot_id o);
  let '(row, actual_workspace, schema, version) := found in
  if negb (so_workspace_id o =? workspace)%N || negb (so_session_id o =? session)%N
     || negb (so_dataset_id o =? sn_dataset_id row)%N || negb (sn_session_id row =? session)%N
     || negb (sn_source_asset_id row =? source_asset)%N || negb (actual_workspace =? workspace)%N
     || negb (bool_decide (schema = so_schema_fingerprint o)) || negb (version =? so_snapshot_version o)%N
  then Err (InvalidDraft "Materialize Snapshot output identity is inconsistent") else
  digest ← snapshot_version_digest (so_snapshot_id o);
  if negb (bool_decide (digest = so_version_digest o))
  then Err (InvalidDraft "Materialize Snapshot output digest does not match the committed manifest") else Ok tt.

(** A member is the report the bundle has under its kind. *)
Definition validate_member (output_workspace run_id : Uuid) (m : ArtifactOutputRef) (kind : ArtifactKind) (report : Uuid * Digest)
  : Stored unit :=
  if negb (ao_workspace_id m =? output_workspace)%N || negb (ao_run_id m =? run_id)%N
     || negb (ao_artifact_id m =? report.1)%N || negb (bool_decide (ao_artifact_kind m = kind))
     || negb (ao_artifact_version m =? 1)%N || negb (bool_decide (ao_state m = Committed))
  then Err (InvalidDraft "VerificationBundle member identity is inconsistent") else
  if negb (bool_decide (ao_content_digest m = report.2))
  then Err (InvalidDraft "VerificationBundle member digest is inconsistent") else Ok tt.
Definition validate_rejected_rows (output_workspace run_id : Uuid) (b : LoadedBundle) (m : ArtifactOutputRef) : Stored unit :=
  expected_id ← ok_or (lb_rejected_rows_artifact_id b)
                  (InvalidDraft "VerificationBundle has an unexpected rejected-rows member");
  if negb (ao_workspace_id m =? output_workspace)%N || negb (ao_run_id m =? run_id)%N
     || negb (ao_artifact_id m =? expected_id)%N || negb (bool_decide (ao_artifact_kind m = KindRejectedRows))
     || negb (ao_artifact_version m =? 1)%N || negb (bool_decide (ao_state m = Committed))
  then Err (InvalidDraft "VerificationBundle rejected-rows member is inconsistent") else
  expected_digest ← ok_or (lb_rejected_rows b) (InvalidDraft "VerificationBundle rejected-rows member is missing");
  if negb (bool_decide (ao_content_digest m = expected_digest))
  then Err (InvalidDraft "VerificationBundle rejected-rows digest is inconsistent") else Ok tt.

(** The staged reference of a member; its report is in the bundle and not a
    body of its own. *)
Definition validate_staged_member (t : Tables) (run_id workspace : Uuid) (ids : gset Uuid) (m : ArtifactOutputRef)
  : Stored (gset Uuid) :=
  if bool_decide (ao_artifact_id m ∈ ids)
  then Err (InvalidDraft "VerificationBundle members contain duplicate ArtifactRefs") else
  let missing := InvalidDraft "VerificationBundle member ArtifactRef is missing or not staged" in
  row ← ok_or (cp_artifact_refs t !! ao_artifact_id m) missing;
  if negb (staged_of run_id row) then Err missing else
  let mismatch := InvalidDraft "staged VerificationBundle member identity does not match the typed member" in
  if negb (a_workspace_id row =? workspace)%N || negb (bool_decide (a_artifact_kind row = ao_artifact_kind m))
  then Err mismatch else
  digest ← parse_digest (a_content_digest row);
  if negb (bool_decide (digest = ao_content_digest m)) then Err mismatch else
  if bool_decide (is_Some (cp_artifact_bodies t !! ao_artifact_id m))
  then Err (InvalidDraft "VerificationBundle member ArtifactRef cannot carry a canonical JSON body") else
  Ok ({[ao_artifact_id m]} ∪ ids).

Definition validate_accepted_snapshot (t : Tables) (snapshot_id workspace session output_workspace : Uuid)
  (accepted : SnapshotOutputRef) : Stored unit :=
  let inconsistent := InvalidDraft "VerificationBundle accepted Snapshot reference is inconsistent" in
  try! snapshot_output_validate accepted;
  found ← snapshot_row t (so_snapshot_id accepted);
  let '(row, accepted_workspace, schema, version) := found in
  if negb (so_snapshot_id accepted =? snapshot_id)%N || negb (so_workspace_id accepted =? output_workspace)%N
     || negb (so_workspace_id accepted =? workspace)%N || negb (so_session_id accepted =? sn_session_id row)%N
     || negb (so_session_id accepted =? session)%N || negb (so_dataset_id accepted =? sn_dataset_id row)%N
     || negb (so_workspace_id accepted =? accepted_workspace)%N || negb (bool_decide (so_schema_fingerprint accepted = schema))
     || negb (so_snapshot_version accepted =? version)%N
  then Err inconsistent else
  digest ← snapshot_version_digest (so_snapshot_id accepted);
  if negb (bool_decide (so_version_digest accepted = digest)) then Err inconsistent else Ok tt.

Definition validate_verification_bundle_output (t : Tables) (run_id snapshot_id workspace session bundle_id : Uuid)
  (version_digest : Digest) (output_workspace output_run : Uuid) (bundle_version : N) (accepted : SnapshotOutputRef)
  (members : list ArtifactOutputRef) : Stored unit :=
  if is_nil output_workspace || negb (output_workspace =? workspace)%N || is_nil output_run
     || negb (output_run =? run_id)%N || (bundle_version =? 0)%N
  then Err (InvalidDraft "VerificationBundle output ownership or version is invalid") else
  row ← ok_or (verification_bundles (catalog t) !! bundle_id) (InvalidDraft "VerificationBundle output is not committed");
  if negb (row.1 =? run_id)%N then Err (InvalidDraft "VerificationBundle output is owned by another Run") else
  bundle ← load_bundle bundle_id;
  if negb (bundle_version =? lb_verification_contract_version bundle)%N
  then Err (InvalidDraft "VerificationBundle version does not match its committed provenance") else
  provenance_snapshot ← match input (lb_input bundle) with
                        | InputSnapshot id => Ok id
                        | InputAsset _ => Err (InvalidDraft "VerificationBundle provenance must bind to a Snapshot input")
                        end;
  if negb (provenance_snapshot =? snapshot_id)%N
  then Err (InvalidDraft "VerificationBundle provenance is owned by another Snapshot") else
  if negb (row.2 =? snapshot_id)%N
  then Err (InvalidDraft "VerificationBundle accepted Snapshot must equal its input Snapshot") else
  try! validate_accepted_snapshot t snapshot_id workspace session output_workspace accepted;
  if negb (length members =? if bool_decide (is_Some (lb_rejected_rows_artifact_id bundle)) then 3 else 2)%nat
  then Err (InvalidDraft "VerificationBundle members do not match its required report set") else
  try! each (fun p => validate_member output_workspace run_id p.1 p.2.1 p.2.2)
         (zip members [(KindValidationReport, lb_validation_report bundle);
                       (KindDeduplicationReport, lb_deduplication_report bundle)]);
  try! match members !! 2%nat with
       | Some rejected => validate_rejected_rows output_workspace run_id bundle rejected
       | None => Ok tt
       end;
  if negb (bool_decide (so_version_digest accepted = input_version_digest (lb_input bundle)))
  then Err (InvalidDraft "VerificationBundle accepted Snapshot digest does not match its input") else
  again ← load_bundle bundle_id;
  if negb (bool_decide (lb_content_digest again = version_digest))
  then Err (InvalidDraft "VerificationBundle output digest does not match its committed provenance") else
  if negb (staged_count t run_id =? len members)%N
  then Err (InvalidDraft "staged ArtifactRefs do not exactly match the VerificationBundle member set") else
  (fun _ => tt) <$> fold_result (validate_staged_member t run_id workspace) ∅ members.

(** ** Drift comparisons *)

Definition drift_outcome_text (o : DriftOutcome) : string :=
  match o with
  | DriftComplete => "complete" | DriftPartial => "partial" | DriftNoBaseline => "no_baseline"
  | DriftIncompatibleVersion => "incompatible_version" | DriftTombstonedInput => "tombstoned_input"
  | DriftInvalidComparison => "invalid_comparison" | DriftOutputLimitExceeded => "output_limit_exceeded"
  end.

Definition validate_committed_drift_report_output (t : Tables) (workspace : Uuid) (comparison : DriftComparisonRequest)
  (candidate : Uuid) (baseline : option Uuid) (outcome : DriftOutcome) (report_artifact_id : Uuid) (report_digest : string)
  : Stored unit :=
  report_digest ← parse_digest report_digest;
  artifact ← ok_or (cp_artifact_refs t !! report_artifact_id) (InvalidDraft "Drift report Artifact output is missing");
  let unscoped := InvalidDraft "Drift report Artifact output is not a committed scoped report" in
  if negb (a_workspace_id artifact =? workspace)%N || negb (bool_decide (a_artifact_kind artifact = KindDriftReport))
     || negb (bool_decide (a_state artifact = Committed)) then Err unscoped else
  artifact_digest ← parse_digest (a_content_digest artifact);
  if negb (bool_decide (artifact_digest = report_digest)) then Err unscoped else
  body ← ok_or (cp_artifact_bodies t !! report_artifact_id) (InvalidDraft "Drift report Artifact has no committed body");
  let inconsistent := InvalidDraft "Drift report body identity is inconsistent" in
  if negb (bool_decide (b_artifact_kind body = KindDriftReport)) || negb (b_artifact_version body =? 1)%Z
  then Err inconsistent else
  body_digest ← parse_digest (b_content_digest body);
  if negb (bool_decide (body_digest = report_digest)) || negb (bool_decide (b_state body = Committed))
  then Err inconsistent else
  value ← ok_or (json_parse_bytes (b_body body)) (Serialization "decode committed Drift report");
  key_text ← ok_or (json_get value "canonical_input_digest" ≫= as_str)
               (InvalidDraft "Drift report has no canonical comparison identity");
  key ← parse_digest key_text;
  stored ← ok_or (qd1_drift_comparisons t !! digest_hex key)
             (InvalidDraft "Drift report has no committed comparison identity");
  let mismatch := InvalidDraft "committed Drift report does not match its comparison" in
  if negb (cmp_workspace_id stored =? workspace)%N || negb (cmp_dataset_id stored =? dc_dataset_id comparison)%N
  then Err mismatch else
  baseline ← ok_or baseline (InvalidDraft "Drift report comparison has no baseline");
  if negb (cmp_baseline_history_id stored =? baseline)%N || negb (cmp_candidate_history_id stored =? candidate)%N
     || negb (cmp_report_artifact_id stored =? report_artifact_id)%N then Err mismatch else
  stored_digest ← parse_digest (cmp_report_digest stored);
  if negb (bool_decide (stored_digest = report_digest)) then Err mismatch else
  if negb (bool_decide (json_get value "outcome" ≫= as_str = Some (drift_outcome_text outcome)))
  then Err (InvalidDraft "Drift report outcome does not match its terminal output") else Ok tt.

Definition validate_drift_output (t : Tables) (run_id workspace : Uuid) (comparison : DriftComparisonRequest)
  (outputs : list TerminalOutputRef) : Stored unit :=
  if negb (dc_workspace_id comparison =? workspace)%N
  then Err (InvalidDraft "Drift comparison belongs to another Workspace") else
  if negb (length outputs =? 1)%nat && negb (length outputs =? 2)%nat
  then Err (InvalidDraft "Drift succeeds with one comparison output and an optional report Artifact") else
  match outputs with
  | OutDriftComparison output_workspace output_run dataset candidate baseline outcome report_artifact_id report_digest :: rest =>
      if negb (output_workspace =? workspace)%N || negb (output_run =? run_id)%N
         || negb (dataset =? dc_dataset_id comparison)%N || negb (candidate =? dc_candidate_history_id comparison)%N
      then Err (InvalidDraft "Drift comparison output identity is inconsistent") else
      let publishes := publishes_report outcome in
      if negb (Bool.eqb publishes (bool_decide (is_Some report_artifact_id)))
         || negb (Bool.eqb publishes (bool_decide (is_Some report_digest)))
      then Err (InvalidDraft "Drift comparison outcome and report identity disagree") else
      match publishes, rest with
      | false, [] => validate_artifact_outputs t run_id workspace outputs
      | false, _ :: _ => Err (InvalidDraft "non-report Drift outcome cannot publish an Artifact")
      | true, output :: _ =>
          if match output with
             | OutArtifact a =>
                 bool_decide (Some (ao_artifact_id a) = report_artifact_id)
                 && bool_decide (ao_artifact_kind a = KindDriftReport) && (ao_artifact_version a =? 1)%N
                 && match report_digest with
                    | Some text => match parse_digest text with
                                   | Ok digest => bool_decide (digest = ao_content_digest a)
                                   | Err _ => false
                                   end
                    | None => false
                    end
             | _ => false
             end
          then validate_artifact_outputs t run_id workspace outputs
          else Err (InvalidDraft "Drift report Artifact identity is inconsistent")
      | true, [] =>
          match report_artifact_id, report_digest with
          | Some artifact_id, Some digest =>
              validate_committed_drift_report_output t workspace comparison candidate baseline outcome artifact_id digest
          | _, _ => Err (Panic "report identity checked above")
          end
      end
  | _ => Err (InvalidDraft "Drift output must start with a comparison result")
  end.

(** ** The set an operation succeeds with *)

Definition is_report (kind : ArtifactKind) (o : TerminalOutputRef) : bool :=
  match o with
  | OutArtifact a => bool_decide (ao_artifact_kind a = kind) && (ao_artifact_version a =? 1)%N
  | _ => false
  end.

Definition validate_terminal_output_set (t : Tables) (run_id workspace session : Uuid) (operation : JobOperation)
  (outputs : list TerminalOutputRef) : Stored (option Uuid * option Uuid) :=
  if (4 <? len outputs)%N
  then Err (InvalidDraft "typed terminal output cardinality exceeds the supported bound") else
  try! each validate_output outputs;
  match descriptor operation with
  | DMaterialize source_asset _ =>
      try! validate_source_asset_input t workspace (sa_source_connection_id source_asset) (sa_source_asset_id source_asset);
      match outputs with
      | [OutSnapshot output] =>
          try! validate_materialized_snapshot_output t workspace session (sa_source_asset_id source_asset) output;
          Ok (Some (so_snapshot_id output), None)
      | [_] => Err (InvalidDraft "Materialize output must be a Snapshot reference")
      | _ => Err (InvalidDraft "Materialize succeeds with exactly one Snapshot output")
      end
  | DVerification snapshot _ _ =>
      try! validate_snapshot_input t workspace session snapshot;
      match outputs with
      | [OutVerificationBundle output_workspace output_run bundle_id bundle_version version_digest accepted members] =>
          try! validate_verification_bundle_output t run_id (sr_snapshot_id snapshot) workspace session bundle_id
                 version_digest output_workspace output_run bundle_version accepted members;
          Ok (None, Some bundle_id)
      | [_] => Err (InvalidDraft "Verification output must be a VerificationBundle reference")
      | _ => Err (InvalidDraft "Verification succeeds with exactly one VerificationBundle output")
      end
  | DProfile snapshot _ =>
      try! validate_snapshot_input t workspace session snapshot;
      if match outputs with
         | [profile; quality] => is_report KindProfileReport profile && is_report KindQualityReport quality
         | _ => false
         end
      then try! validate_artifact_outputs t run_id workspace outputs; Ok (None, None)
      else Err (InvalidDraft "Profile succeeds with profile_report.v1 and quality_report.v1 outputs")
  | DExport snapshot _ =>
      try! validate_snapshot_input t workspace session snapshot;
      if match outputs with [artifact] => is_report KindExportArtifact artifact | _ => false end
      then try! validate_artifact_outputs t run_id workspace outputs; Ok (None, None)
      else Err (InvalidDraft "Export succeeds with exactly one ExportArtifact output")
  | DDrift comparison =>
      try! validate_drift_output t run_id workspace comparison outputs;
      Ok (None, None)
  end.

(** ** Committing staged artifacts *)

Definition ref_set_state (target : ArtifactRefState) (committed_at tombstoned_at : option DateTime) (a : ArtifactRow)
  : ArtifactRow :=
  mkArtifact (a_workspace_id a) (a_run_id a) (a_artifact_kind a) (a_external_ref_kind a) (a_external_ref_id a)
    (a_content_digest a) (a_metadata_json a) target (a_created_at a) (coalesce committed_at (a_committed_at a))
    (coalesce tombstoned_at (a_tombstoned_at a)).
Definition body_set_state (target : ArtifactRefState) (committed_at : option DateTime) (b : BodyRow) : BodyRow :=
  mkBody (b_artifact_kind b) (b_artifact_version b) (b_content_digest b) (b_body b) (b_provenance_json b) target
    (b_created_at b) (coalesce committed_at (b_committed_at b)).
Definition update_ref (f : ArtifactRow -> ArtifactRow) (id : Uuid) (t : Tables) : Tables :=
  set_artifacts (alter f id (cp_artifact_refs t)) (cp_artifact_bodies t) t.
Definition update_body (f : BodyRow -> BodyRow) (id : Uuid) (t : Tables) : Tables :=
  set_artifacts (cp_artifact_refs t) (alter f id (cp_artifact_bodies t)) t.

Definition artifact_committed_event (run_event : EventDraft) (run_id job_id artifact_id : Uuid) : EventDraft :=
  event_draft_new
    (uuid_v5 (ed_event_id run_event) (bytes_of ("artifact-committed:" +:+ uuid_text artifact_id)))
    RunStream run_id job_id (Some run_id) ArtifactCommitted (ed_occurred_at run_event) (ed_request_id run_event)
    (ed_correlation_id run_event) (ed_actor_ref run_event)
    (JObject [("state", JString "committed"); ("artifactId", uuid_value artifact_id)]).

Definition commit_one_staged_artifact (run_id job_id : Uuid) (run_event : EventDraft) (t : Tables) (o : ArtifactOutputRef)
  : Stored Tables :=
  let id := ao_artifact_id o in
  match cp_artifact_refs t !! id with
  | Some row =>
      if negb (staged_of run_id row) then Err (InvalidDraft "staged ArtifactRef changed before terminal commit") else
      let t := update_ref (ref_set_state Committed (Some (ed_occurred_at run_event)) None) id t in
      let body_changed := match cp_artifact_bodies t !! id with
                          | Some body => bool_decide (b_state body = Staged)
                          | None => false
                          end in
      let t := if body_changed then update_body (body_set_state Committed (Some (ed_occurred_at run_event))) id t else t in
      if body_required (ao_artifact_kind o) && negb body_changed
      then Err (InvalidDraft "report ArtifactRef has no staged canonical body") else
      if negb (body_required (ao_artifact_kind o)) && body_changed
      then Err (InvalidDraft "non-report ArtifactRef cannot carry a canonical JSON body") else
      append_event_tx t (artifact_committed_event run_event run_id job_id id)
  | None => Err (InvalidDraft "staged ArtifactRef changed before terminal commit")
  end.
(** The artifacts of an output set, a bundle's members among them. *)
Definition published_artifacts (outputs : list TerminalOutputRef) : list ArtifactOutputRef :=
  outputs ≫= (fun o => match o with
                       | OutArtifact a => [a]
                       | OutVerificationBundle _ _ _ _ _ _ members => members
                       | _ => []
                       end).
Definition commit_staged_terminal_artifacts (t : Tables) (run_id job_id : Uuid) (outputs : list TerminalOutputRef)
  (run_event : EventDraft) : Stored Tables :=
  fold_result (commit_one_staged_artifact run_id job_id run_event) t (published_artifacts outputs).

(** The staged artifacts of a run that is not going to succeed: the
    references and then their staged bodies. *)
Definition fail_staged_artifacts (run_id : Uuid) (t : Tables) : Tables :=
  let failed_refs := (fun a => if staged_of run_id a then ref_set_state AFailed None None a else a) <$> cp_artifact_refs t in
  set_artifacts failed_refs
    (map_imap (fun id b => Some (if match failed_refs !! id with
                                    | Some a => (a_run_id a =? run_id)%N && bool_decide (a_state a = AFailed)
                                    | None => false
                                    end && bool_decide (b_state b = Staged)
                                 then body_set_state AFailed None b else b)) (cp_artifact_bodies t)) t.
(** A restart does it the other way round: the bodies of the staged
    references, whatever their state, and then the references. *)
Definition fail_reconciled_artifacts (run_id : Uuid) (t : Tables) : Tables :=
  set_artifacts
    ((fun a => if staged_of run_id a then ref_set_state AFailed None None a else a) <$> cp_artifact_refs t)
    (map_imap (fun id b => Some (if match cp_artifact_refs t !! id with Some a => staged_of run_id a | None => false end
                                 then body_set_state AFailed None b else b)) (cp_artifact_bodies t)) t.

(** ** Drift reports *)

Definition history_identity (t : Tables) (id : Uuid) : Stored HistoryIdentity :=
  row ← ok_or (qd1_profile_history (catalog t) !! id) (NotFound id);
  active ← if bool_decide (h_state row = "active") then Ok true
           else if bool_decide (h_state row = "tombstoned") then Ok false
           else Err (Serialization "drift report history state");
  digest ← history_digest (h_profile_digest row);
  if (h_profile_sequence row <? 0)%Z then Err (Serialization "drift report profile sequence") else
  Ok (mkHistoryIdentity row digest (Z.to_N (h_profile_sequence row)) active).

Definition ensure_history_pair (t : Tables) (workspace dataset baseline_id candidate_id : Uuid)
  : Stored (HistoryIdentity * HistoryIdentity) :=
  baseline ← history_identity t baseline_id;
  candidate ← history_identity t candidate_id;
  if negb (h_workspace_id (hi_row baseline) =? workspace)%N || negb (h_workspace_id (hi_row candidate) =? workspace)%N
     || negb (h_dataset_id (hi_row baseline) =? dataset)%N || negb (h_dataset_id (hi_row candidate) =? dataset)%N
     || (baseline_id =? candidate_id)%N || (hi_profile_sequence candidate <=? hi_profile_sequence baseline)%N
  then Err (InvalidDraft "drift report histories are outside one ordered Dataset scope") else
  Ok (baseline, candidate).

Definition ensure_profile_artifact (t : Tables) (h : HistoryIdentity) : Stored unit :=
  let id := h_profile_artifact_id (hi_row h) in
  match cp_artifact_refs t !! id, cp_artifact_bodies t !! id with
  | Some a, Some b =>
      if negb (a_workspace_id a =? h_workspace_id (hi_row h))%N || negb (a_run_id a =? h_producing_run_id (hi_row h))%N
         || negb (bool_decide (a_artifact_kind a = KindProfileReport)) || negb (bool_decide (b_artifact_kind b = KindProfileReport))
         || negb (bool_decide (a_state a = Committed)) || negb (bool_decide (b_state b = Committed))
         || negb (bool_decide (sha256 (b_body b) = hi_profile_digest h))
      then Err (InvalidDraft "drift report input profile Artifact is not committed and immutable") else
      digest ← history_digest (b_content_digest b);
      if negb (bool_decide (digest = hi_profile_digest h))
      then Err (InvalidManifest "drift report input profile digest mismatch") else Ok tt
  | _, _ => Err (NotFound id)
  end.

Definition validate_drift_report_draft (d : DriftReportDraft) (e : EventDraft) : Stored unit :=
  if is_nil (dr_workspace_id d) || is_nil (dr_dataset_id d) || is_nil (dr_baseline_history_id d)
     || is_nil (dr_candidate_history_id d) || is_nil (dr_report_artifact_id d) || is_nil (dr_producing_run_id d)
     || (dr_baseline_history_id d =? dr_candidate_history_id d)%N || is_zero (dr_comparison_key d) || is_zero (dr_report_digest d)
  then Err (InvalidDraft "drift report identities and digests must be non-zero and distinct") else
  if (len (dr_body d) =? 0)%N || (DRIFT_MAX_REPORT_BYTES <? len (dr_body d))%N
  then Err (InvalidDraft "drift report body exceeds the authorized bound") else
  try! validate_safe_json false (dr_metadata d);
  try! validate_artifact_body KindDriftReport (dr_report_digest d) (dr_body d);
  if negb (bool_decide (ed_stream_kind e = RunStream)) || negb (ed_stream_id e =? dr_producing_run_id d)%N
     || negb (bool_decide (ed_run_id e = Some (dr_producing_run_id d)))
     || negb (bool_decide (ed_event_type e = ArtifactCommitted))
  then Err (InvalidDraft "drift report publication requires a Run ArtifactCommitted event") else Ok tt.

Definition validate_report_body_identity (d : DriftReportDraft) (baseline candidate : HistoryIdentity) : Stored unit :=
  value ← ok_or (json_parse_bytes (dr_body d)) (Serialization "decode drift report body");
  let text key := json_get value key ≫= as_str in
  if negb (bool_decide (text "canonical_input_digest" = Some (digest_hex (dr_comparison_key d))))
     || negb (bool_decide (text "baseline_profile_digest" = Some (digest_hex (hi_profile_digest baseline))))
     || negb (bool_decide (text "candidate_profile_digest" = Some (digest_hex (hi_profile_digest candidate))))
     || negb (bool_decide (text "outcome" ∈ [Some "complete"; Some "partial"]))
  then Err (InvalidDraft "drift report body does not match its resolved comparison") else Ok tt.

(** The row of a comparison, under the constraints of its table. *)
Definition insert_comparison (d : DriftReportDraft) (t : Tables) : Stored Tables :=
  let key := digest_hex (dr_comparison_key d) in
  if bool_decide (is_Some (qd1_drift_comparisons t !! key))
     || existsb (fun e => (cmp_report_artifact_id e.2 =? dr_report_artifact_id d)%N) (map_to_list (qd1_drift_comparisons t))
     || negb (bool_decide (is_Some (cp_datasets (catalog t) !! dr_dataset_id d)))
     || negb (bool_decide (is_Some (cp_artifact_refs t !! dr_report_artifact_id d)))
  then Err (AlreadyExists (dr_report_artifact_id d)) else
  Ok (set_comparisons (<[key := mkComparisonRow (dr_workspace_id d) (dr_dataset_id d) (dr_baseline_history_id d)
        (dr_candidate_history_id d) (dr_report_artifact_id d) (dr_producing_run_id d) (digest_hex (dr_report_digest d))
        (dr_created_at d)]> (qd1_drift_comparisons t)) t).

Definition commit_drift_report_tx (t : Tables) (d : DriftReportDraft) (e : EventDraft) (expected_job_id : Uuid) : Stored Tables :=
  try! validate_drift_report_draft d e;
  if negb (ed_job_id e =? expected_job_id)%N
  then Err (InvalidDraft "drift report ArtifactCommitted event belongs to another Job") else
  try! match qd1_drift_comparisons t !! digest_hex (dr_comparison_key d) with
       | Some row =>
           try! history_digest (digest_hex (dr_comparison_key d));
           try! history_digest (cmp_report_digest row);
           Err (InvalidDraft "drift comparison was committed concurrently")
       | None => Ok tt
       end;
  pair ← ensure_history_pair t (dr_workspace_id d) (dr_dataset_id d) (dr_baseline_history_id d) (dr_candidate_history_id d);
  let '(baseline, candidate) := pair in
  if negb (hi_active baseline) || negb (hi_active candidate)
  then Err (InvalidDraft "drift report inputs must be active at publication") else
  try! ensure_profile_artifact t baseline;
  try! ensure_profile_artifact t candidate;
  try! validate_report_body_identity d baseline candidate;
  run ← ok_or (cp_runs t !! dr_producing_run_id d) (NotFound (dr_producing_run_id d));
  let c := run_columns run in
  if negb (r_workspace_id c =? dr_workspace_id d)%N || negb (r_job_id c =? expected_job_id)%N
     || negb (bool_decide (r_state run = RRunning)) || negb (bool_decide (oc_kind (r_operation c) = Some "drift"))
  then Err (InvalidDraft "typed Drift report publication requires its running E5 Run") else
  if (dr_created_at d <? r_started_at c)%Z || (ed_occurred_at e <? dr_created_at d)%Z
  then Err (InvalidTimestampOrder "terminal drift report publication") else
  t ← insert_comparison d t;
  try! history_digest (digest_hex (dr_comparison_key d));
  try! history_digest (digest_hex (dr_report_digest d));
  Ok t.
End outputs.
