(* ===== verification/Lifecycle.v ===== *)
(** * The life of a job: [stillflow-storage/src/control_plane.rs]

    Claiming, cancelling and finishing jobs and runs, the artifacts of a run,
    and the reconciliation after a restart.  Every operation is one immediate
    transaction: a function of the tables that returns new tables or an
    error, and an error leaves the tables as they were. *)

From S2P Require Import Prelude Text Secrets Logical Nodes Schedule Automation Hex Canonical Operations Jobs Submissions Outputs.

Record JobRecoveryDraft := mkRecovery {
  rd_job_id : Uuid;
  rd_run_id : Uuid;
  rd_reconciled_event : EventDraft;
  rd_run_failed_event : EventDraft;
  rd_job_failed_event : EventDraft;
  rd_failure : FailureInfo;
}.
Record JobRecoveryResult := mkRecoveryResult { res_job_id : Uuid; reconciled : bool }.

Section lifecycle.
Context `{JobCodec} `{StoreFiles}.

(** ** Claiming *)

(** SQLite's [length] of a text counts characters. *)
Definition sql_length (s : string) : N := len (filter (fun b => negb (continuation b)) (bytes_of s)).
(** The constraints of [cp_runs] on a row that is being claimed: the keys,
    what has not been read before and the lengths of the digests. *)
Definition may_insert_run (t : Tables) (run_id : Uuid) (c : RunColumns) : bool :=
  negb (bool_decide (is_Some (cp_runs t !! run_id)))
  && forallb (fun e => negb (r_job_id (run_columns e.2) =? r_job_id c)%N) (map_to_list (cp_runs t))
  && bool_decide (is_Some (cp_plans (catalog t) !! r_plan_id c))
  && (sql_length (r_canonical_plan_digest c) =? 64)%N && (sql_length (r_plan_fingerprint c) =? 64)%N.

Definition job_set_claimed (started_at : DateTime) (run_id : Uuid) (r : JobRow) : JobRow :=
  mkJob (job_columns r) Running (Some started_at) (j_finished_at r) (Some run_id) (j_failure_json r) (j_output_refs_json r).

(** The typed operation of a row that is about to run. *)
Definition validate_claimed_operation (t : Tables) (c : JobColumns) (operation : JobOperation) : Stored unit :=
  inputs ← ok_or (inputs_parse (j_input_json c)) (Serialization "Job input references");
  try! validate_inputs inputs;
  if negb (inputs_match operation inputs) then Err (Serialization "Job input does not match its typed operation") else
  try! match descriptor operation with
       | DMaterialize source_asset _ =>
           if negb (sa_workspace_id source_asset =? j_workspace_id c)%N
           then Err (InvalidDraft "Materialize SourceAsset is outside the Job Workspace") else Ok tt
       | _ => Ok tt
       end;
  validate_operation_input t (j_workspace_id c) (j_session_id c) (descriptor operation).

(** An event for the stream of a job, or of a run of the job, by its fields
    alone. *)
Definition event_is (e : EventDraft) (kind : EventStreamKind) (event_type : ControlPlaneEventType) (stream_id job_id : Uuid)
  (run_id : option Uuid) : bool :=
  bool_decide (ed_stream_kind e = kind) && bool_decide (ed_event_type e = event_type) && (ed_stream_id e =? stream_id)%N
  && (ed_job_id e =? job_id)%N && bool_decide (ed_run_id e = run_id).

Definition claim_job (t : Tables) (job_id run_id : Uuid) (started_at : DateTime) (engine_contract_version : N)
  (engine_build : string) (job_event run_event : EventDraft) : Stored (Tables * RunRecord) :=
  try! validate_id run_id "run";
  if (engine_contract_version =? 0)%N then Err (InvalidDraft "engine contract version must be non-zero") else
  if (str_len engine_build =? 0)%N then Err (InvalidDraft "engine build must be non-empty") else
  try! validate_safe_text engine_build "engine build";
  job ← job_raw t job_id;
  let row := job.1 in
  let c := job_columns row in
  if negb (bool_decide (j_state row = Queued)) then Err (Busy "control-plane object was already claimed") else
  operation ← parse_operation (j_operation c);
  try! match operation with Some operation => validate_claimed_operation t c operation | None => Ok tt end;
  if (started_at <? j_queued_at c)%Z then Err (InvalidTimestampOrder "job queue and run start") else
  version ← plan_version_raw t (j_plan_version_id c);
  if negb (event_is job_event JobStream JobRunning job_id job_id None) then Err (InvalidDraft "invalid Job running event") else
  if negb (event_is run_event RunStream RunRunning run_id job_id (Some run_id))
  then Err (InvalidDraft "invalid Run running event") else
  if (ed_occurred_at job_event <? j_queued_at c)%Z || (ed_occurred_at run_event <? started_at)%Z
  then Err (InvalidTimestampOrder "Job/Run start event") else
  let columns := mkRunColumns (j_workspace_id c) (j_session_id c) job_id (pv_plan_id version) (j_plan_version_id c)
                   (j_canonical_plan_digest c) (pv_plan_fingerprint version) (j_operation c) (j_input_json c)
                   (Z.of_N engine_contract_version) engine_build started_at in
  if negb (may_insert_run t run_id columns) then Err (AlreadyExists run_id) else
  let t := set_runs (<[run_id := mkRun columns RRunning None None None None "[]"]> (cp_runs t)) t in
  if bool_decide (is_Some (j_run_id row)) then Err (Busy "control-plane object was already claimed") else
  let t := update_job (job_set_claimed started_at run_id) job_id t in
  t ← append_event_tx t job_event;
  t ← append_event_tx t run_event;
  run ← run_from_transaction t run_id;
  Ok (t, run).

(** ** Single transitions *)

(** A terminal job has the outcome of its run; one without a run may only
    fail or be cancelled. *)
Definition validate_job_terminal_run (t : Tables) (job_id : Uuid) (row : JobRow) (from target : JobState) : Stored unit :=
  if negb (job_is_terminal target) then Ok tt else
  match j_run_id row with
  | None =>
      match from, target with
      | Queued, Failed | Cancelling, Cancelled => Ok tt
      | _, _ => Err (InvalidDraft "terminal Job state requires its Run outcome")
      end
  | Some run_id =>
      run ← run_raw t run_id;
      if negb (r_job_id (run_columns run) =? job_id)%N
         || negb (r_workspace_id (run_columns run) =? j_workspace_id (job_columns row))%N
         || negb (r_session_id (run_columns run) =? j_session_id (job_columns row))%N
      then Err (Serialization "Job and Run relationship is inconsistent") else
      match target with
      | Succeeded | Failed | Cancelled =>
          let expected := match target with Succeeded => RSucceeded | Failed => RFailed | _ => RCancelled end in
          if negb (bool_decide (r_state run = expected))
          then Err (InvalidDraft "terminal Job state must match its terminal Run state") else Ok tt
      | _ => Ok tt
      end
  end.

(** [target.is_terminal().then(|| at)] *)
Definition finished_when (terminal : bool) (at_ : DateTime) : option DateTime := if terminal then Some at_ else None.

(** This one writes the finishing time without [COALESCE]. *)
Definition job_set_outcome (target : JobState) (finished_at : option DateTime) (failure_json : option string) (r : JobRow)
  : JobRow :=
  mkJob (job_columns r) target (j_started_at r) finished_at (j_run_id r) failure_json (j_output_refs_json r).

Definition transition_job (t : Tables) (job_id : Uuid) (target : JobState) (event : EventDraft) (failure : option FailureInfo)
  : Stored (Tables * JobRecord) :=
  job ← job_raw t job_id;
  let row := job.1 in
  let from := j_state row in
  if negb (allowed_job_transition from target) then Err (InvalidDraft "Job transition is not allowed") else
  try! validate_failure_for_target (job_is_terminal target && bool_decide (target = Failed)) failure;
  try! validate_state_event event JobStream job_id job_id None (event_type_for_job_state target);
  try! validate_job_terminal_run t job_id row from target;
  let minimum_event_at := default (j_queued_at (job_columns row)) (j_started_at row) in
  if (ed_occurred_at event <? minimum_event_at)%Z then Err (InvalidTimestampOrder "Job transition") else
  failure_json ← failure_json failure;
  let t := update_job (job_set_outcome target (finished_when (job_is_terminal target) (ed_occurred_at event)) failure_json)
             job_id t in
  t ← append_event_tx t event;
  record ← job_from_transaction t job_id;
  Ok (t, record).

Definition transition_run (t : Tables) (run_id : Uuid) (target : RunState) (event : EventDraft) (failure : option FailureInfo)
  : Stored (Tables * RunRecord) :=
  run ← run_raw t run_id;
  let from := r_state run in
  if negb (allowed_run_transition from target) then Err (InvalidDraft "Run transition is not allowed") else
  try! validate_failure_for_target (run_is_terminal target && bool_decide (target = RFailed)) failure;
  try! validate_state_event event RunStream run_id (r_job_id (run_columns run)) (Some run_id) (event_type_for_run_state target);
  if (ed_occurred_at event <? r_started_at (run_columns run))%Z then Err (InvalidTimestampOrder "Run transition") else
  failure_json ← failure_json failure;
  t ← transition_run_state_tx t run_id from target (finished_when (run_is_terminal target) (ed_occurred_at event));
  t ← append_event_tx (update_run (run_set_failure failure_json) run_id t) event;
  record ← run_from_transaction t run_id;
  Ok (t, record).

(** ** Cancelling *)

Definition cancel_queued_job (t : Tables) (job_id : Uuid) (cancelling_event cancelled_event : EventDraft)
  : Stored (Tables * JobRecord) :=
  job ← job_raw t job_id;
  let row := job.1 in
  if negb (bool_decide (j_state row = Queued)) then Err (InvalidDraft "only a queued Job can use queued cancellation") else
  try! validate_state_event cancelling_event JobStream job_id job_id None JobCancelling;
  try! validate_state_event cancelled_event JobStream job_id job_id None JobCancelled;
  if (ed_occurred_at cancelling_event <? j_queued_at (job_columns row))%Z
     || (ed_occurred_at cancelled_event <? ed_occurred_at cancelling_event)%Z
  then Err (InvalidTimestampOrder "queued Job cancellation") else
  t ← transition_job_state_tx t job_id Queued Cancelling None;
  t ← append_event_tx t cancelling_event;
  t ← transition_job_state_tx t job_id Cancelling Cancelled (Some (ed_occurred_at cancelled_event));
  t ← append_event_tx t cancelled_event;
  record ← job_from_transaction t job_id;
  Ok (t, record).

Definition cancel_running_job (t : Tables) (job_id : Uuid) (job_event run_event : EventDraft)
  : Stored (Tables * (JobRecord * RunRecord)) :=
  job ← job_raw t job_id;
  let row := job.1 in
  if negb (bool_decide (j_state row = Running)) then Err (InvalidDraft "only a running Job can use running cancellation") else
  run_id ← ok_or (j_run_id row) (Serialization "running Job has no Run");
  run ← run_raw t run_id;
  if negb (bool_decide (r_state run = RRunning)) || negb (r_job_id (run_columns run) =? job_id)%N
  then Err (Serialization "running Job and Run relationship is inconsistent") else
  try! validate_state_event job_event JobStream job_id job_id None JobCancelling;
  try! validate_state_event run_event RunStream run_id job_id (Some run_id) RunCancelling;
  started ← ok_or (j_started_at row) (Serialization "running Job has no start time");
  if (ed_occurred_at job_event <? started)%Z || (ed_occurred_at run_event <? r_started_at (run_columns run))%Z
     || (ed_occurred_at run_event <? ed_occurred_at job_event)%Z
  then Err (InvalidTimestampOrder "running Job cancellation") else
  t ← transition_job_state_tx t job_id Running Cancelling None;
  t ← transition_run_state_tx t run_id RRunning RCancelling None;
  t ← append_event_tx t job_event;
  t ← append_event_tx t run_event;
  job_record ← job_from_transaction t job_id;
  run_record ← run_from_transaction t run_id;
  Ok (t, (job_record, run_record)).

(** ** Finishing *)

(** [matches!] of the three terminal states, and that the targets agree. *)
Definition targets_agree (run_target : RunState) (job_target : JobState) : bool :=
  Bool.eqb (bool_decide (run_target = RSucceeded)) (bool_decide (job_target = Succeeded))
  && Bool.eqb (bool_decide (run_target = RFailed)) (bool_decide (job_target = Failed))
  && Bool.eqb (bool_decide (run_target = RCancelled)) (bool_decide (job_target = Cancelled)).

(** The drift report that is published with the outputs. *)
Definition publish_drift_report (t : Tables) (run_id job_id : Uuid) (operation : JobOperation)
  (outputs : list TerminalOutputRef) (draft : DriftReportDraft) (run_event : EventDraft) : Stored Tables :=
  comparison ← match descriptor operation with
               | DDrift comparison => Ok comparison
               | _ => Err (InvalidDraft "drift report draft requires a Drift operation")
               end;
  first ← ok_or (outputs !! 0%nat) (Panic "outputs[0]");
  published ← match first with
              | OutDriftComparison workspace _ _ _ (Some baseline) _ (Some artifact) (Some digest) =>
                  Ok (workspace, baseline, artifact, digest)
              | _ => Err (InvalidDraft "drift report draft requires a published comparison output")
              end;
  let '(output_workspace, baseline, report_artifact_id, report_digest) := published in
  second ← ok_or (outputs !! 1%nat) (Panic "outputs[1]");
  artifact ← match second with
             | OutArtifact a => if bool_decide (ao_artifact_kind a = KindDriftReport) then Ok a
                                else Err (InvalidDraft "drift report draft requires a DriftReport Artifact output")
             | _ => Err (InvalidDraft "drift report draft requires a DriftReport Artifact output")
             end;
  let mismatch := InvalidDraft "drift report draft does not match its terminal outputs" in
  if negb (dr_workspace_id draft =? output_workspace)%N || negb (dr_dataset_id draft =? dc_dataset_id comparison)%N
     || negb (dr_candidate_history_id draft =? dc_candidate_history_id comparison)%N
     || negb (dr_baseline_history_id draft =? baseline)%N || negb (dr_producing_run_id draft =? run_id)%N
     || negb (dr_report_artifact_id draft =? report_artifact_id)%N || negb (dr_report_artifact_id draft =? ao_artifact_id artifact)%N
  then Err mismatch else
  digest ← parse_digest report_digest;
  if negb (bool_decide (digest = ao_content_digest artifact)) || negb (bool_decide (dr_report_digest draft = ao_content_digest artifact))
  then Err mismatch else
  commit_drift_report_tx t draft (artifact_committed_event run_event run_id job_id report_artifact_id) job_id.

(** The typed outputs: checked, and a drift report published.  What is left is
    the snapshot and the bundle the run is going to refer to, and the text of
    the outputs. *)
Definition typed_outputs (t : Tables) (run_id : Uuid) (run : RunRow) (job_id : Uuid) (job : JobRow) (run_target : RunState)
  (outputs : list TerminalOutputRef) (drift : option DriftReportDraft) (run_event : EventDraft)
  (refs : option Uuid * option Uuid) : Stored (Tables * (option Uuid * option Uuid) * string) :=
  operation ← parse_operation (j_operation (job_columns job));
  run_operation ← parse_operation (r_operation (run_columns run));
  if bool_decide (operation = None) || negb (bool_decide (operation = run_operation))
  then Err (Serialization "typed terminal output requires matching Job and Run operation") else
  operation ← ok_or operation (Panic "checked above");
  done_ ← (if bool_decide (run_target = RSucceeded) then
             refs ← validate_terminal_output_set t run_id (j_workspace_id (job_columns job)) (j_session_id (job_columns job))
                      operation outputs;
             t ← match drift with
                 | Some draft => publish_drift_report t run_id job_id operation outputs draft run_event
                 | None => Ok t
                 end;
             Ok (t, refs)
           else if negb (bool_decide (length outputs = 0)%nat)
           then Err (InvalidDraft "failed or cancelled typed Job cannot publish output references")
           else Ok (t, refs));
  text ← ok_or (outputs_print outputs) (Serialization "serialize terminal output references");
  Ok (done_, text).

Definition validate_output_refs (t : Tables) (run_id : Uuid) (run : RunRow) (snapshot_ref bundle_ref : option Uuid) : Stored unit :=
  try! match snapshot_ref with
       | Some snapshot_id =>
           if negb (bool_decide (sn_state <$> snapshots (catalog t) !! snapshot_id = Some 1%Z))
           then Err (InvalidDraft "Snapshot output reference is not committed") else Ok tt
       | None => Ok tt
       end;
  try! match bundle_ref with
       | Some bundle_id =>
           let missing := InvalidDraft "VerificationBundle output reference is missing or owned by another Run" in
           row ← ok_or (verification_bundles (catalog t) !! bundle_id) missing;
           if negb (row.1 =? run_id)%N then Err missing else
           match snapshot_ref with
           | Some snapshot_id =>
               if negb (row.2 =? snapshot_id)%N
               then Err (InvalidDraft "Snapshot and VerificationBundle output references disagree") else Ok tt
           | None => Ok tt
           end
       | None => Ok tt
       end;
  if bool_decide (is_Some (r_snapshot_ref run)) && negb (bool_decide (snapshot_ref = r_snapshot_ref run))
     && bool_decide (is_Some snapshot_ref)
  then Err (InvalidDraft "Snapshot output reference is write-once") else
  if bool_decide (is_Some (r_bundle_ref run)) && negb (bool_decide (bundle_ref = r_bundle_ref run))
     && bool_decide (is_Some bundle_ref)
  then Err (InvalidDraft "VerificationBundle output reference is write-once") else Ok tt.

Definition run_set_outputs (outputs_json : string) (snapshot_ref bundle_ref : option Uuid) (r : RunRow) : RunRow :=
  mkRun (run_columns r) (r_state r) (r_finished_at r) (r_failure_json r) snapshot_ref bundle_ref outputs_json.
Definition run_bind_refs (snapshot_ref bundle_ref : option Uuid) (r : RunRow) : RunRow :=
  mkRun (run_columns r) (r_state r) (r_finished_at r) (r_failure_json r) (coalesce snapshot_ref (r_snapshot_ref r))
    (coalesce bundle_ref (r_bundle_ref r)) (r_output_refs_json r).
Definition job_set_outputs (outputs_json : string) (r : JobRow) : JobRow :=
  mkJob (job_columns r) (j_state r) (j_started_at r) (j_finished_at r) (j_run_id r) (j_failure_json r) outputs_json.

(** The outputs become visible: the references on both rows, the staged
    artifacts committed, or failed with their run. *)
Definition publish_outputs (t : Tables) (run_id job_id : Uuid) (run_target : RunState) (snapshot_ref bundle_ref : option Uuid)
  (typed : option (list TerminalOutputRef * string)) (run_event : EventDraft) : Stored Tables :=
  match typed with
  | Some (outputs, text) =>
      let t := update_run (run_set_outputs text snapshot_ref bundle_ref) run_id t in
      let t := update_job (job_set_outputs text) job_id t in
      if bool_decide (run_target = RSucceeded) then commit_staged_terminal_artifacts t run_id job_id outputs run_event
      else Ok (fail_staged_artifacts run_id t)
  | None =>
      if bool_decide (is_Some snapshot_ref) || bool_decide (is_Some bundle_ref)
      then Ok (update_run (run_bind_refs snapshot_ref bundle_ref) run_id t) else Ok t
  end.

Definition finish_inner (t : Tables) (run_id : Uuid) (run_target : RunState) (job_target : JobState)
  (snapshot_ref bundle_ref : option Uuid) (outputs : option (list TerminalOutputRef)) (drift : option DriftReportDraft)
  (run_event job_event : EventDraft) (failure : option FailureInfo) : Stored (Tables * (RunRecord * JobRecord)) :=
  try! match snapshot_ref with Some id => validate_id id "Snapshot output reference" | None => Ok tt end;
  try! match bundle_ref with Some id => validate_id id "VerificationBundle output reference" | None => Ok tt end;
  if negb (run_is_terminal run_target) || negb (job_is_terminal job_target)
  then Err (InvalidDraft "terminal finish requires terminal Run and Job states") else
  run ← run_raw t run_id;
  let job_id := r_job_id (run_columns run) in
  job ← job_raw t job_id;
  let row := job.1 in
  if negb (targets_agree run_target job_target) then Err (InvalidDraft "Run and Job terminal states must agree") else
  try! validate_failure_for_target (bool_decide (run_target = RFailed)) failure;
  if negb (allowed_run_transition (r_state run) run_target) || negb (allowed_job_transition (j_state row) job_target)
  then Err (InvalidDraft "terminal state was already changed or is not allowed") else
  checked ← match outputs with
            | Some outputs =>
                done_ ← typed_outputs t run_id run job_id row run_target outputs drift run_event (snapshot_ref, bundle_ref);
                Ok (done_.1.1, done_.1.2, Some (outputs, done_.2))
            | None => Ok (t, (snapshot_ref, bundle_ref), None)
            end;
  let '(t, refs, typed) := checked in
  let '(snapshot_ref, bundle_ref) := refs in
  if negb (bool_decide (run_target = RSucceeded)) && (bool_decide (is_Some snapshot_ref) || bool_decide (is_Some bundle_ref))
  then Err (InvalidDraft "only a successful Run can publish output references") else
  try! validate_output_refs t run_id run snapshot_ref bundle_ref;
  try! validate_state_event run_event RunStream run_id job_id (Some run_id) (event_type_for_run_state run_target);
  try! validate_state_event job_event JobStream job_id job_id None (event_type_for_job_state job_target);
  if (ed_occurred_at run_event <? r_started_at (run_columns run))%Z
     || (ed_occurred_at job_event <? j_queued_at (job_columns row))%Z
  then Err (InvalidTimestampOrder "terminal Run/Job transition") else
  failure_json ← failure_json failure;
  t ← publish_outputs t run_id job_id run_target snapshot_ref bundle_ref typed run_event;
  t ← transition_run_state_tx t run_id (r_state run) run_target (Some (ed_occurred_at run_event));
  let t := update_run (run_set_failure failure_json) run_id t in
  t ← transition_job_state_tx t job_id (j_state row) job_target (Some (ed_occurred_at job_event));
  let t := update_job (job_set_failure failure_json) job_id t in
  t ← append_event_tx t run_event;
  t ← append_event_tx t job_event;
  run_record ← run_from_transaction t run_id;
  job_record ← job_from_transaction t job_id;
  Ok (t, (run_record, job_record)).

Definition finish_run_and_job_with_outputs (t : Tables) (run_id : Uuid) (run_target : RunState) (job_target : JobState)
  (snapshot_ref bundle_ref : option Uuid) (run_event job_event : EventDraft) (failure : option FailureInfo)
  : Stored (Tables * (RunRecord * JobRecord)) :=
  finish_inner t run_id run_target job_target snapshot_ref bundle_ref None None run_event job_event failure.
Definition finish_run_and_job (t : Tables) (run_id : Uuid) (run_target : RunState) (job_target : JobState)
  (run_event job_event : EventDraft) (failure : option FailureInfo) : Stored (Tables * (RunRecord * JobRecord)) :=
  finish_run_and_job_with_outputs t run_id run_target job_target None None run_event job_event failure.
Definition finish_run_and_job_with_terminal_outputs (t : Tables) (run_id : Uuid) (run_target : RunState) (job_target : JobState)
  (outputs : list TerminalOutputRef) (run_event job_event : EventDraft) (failure : option FailureInfo)
  : Stored (Tables * (RunRecord * JobRecord)) :=
  finish_inner t run_id run_target job_target None None (Some outputs) None run_event job_event failure.
Definition finish_run_and_job_with_terminal_outputs_and_drift_report (t : Tables) (run_id : Uuid) (run_target : RunState)
  (job_target : JobState) (outputs : list TerminalOutputRef) (drift : DriftReportDraft) (run_event job_event : EventDraft)
  (failure : option FailureInfo) : Stored (Tables * (RunRecord * JobRecord)) :=
  finish_inner t run_id run_target job_target None None (Some outputs) (Some drift) run_event job_event failure.

(** ** References of a run that is still running *)

Definition set_run_output_refs (t : Tables) (run_id : Uuid) (snapshot_ref bundle_ref : option Uuid)
  : Stored (Tables * RunRecord) :=
  try! match snapshot_ref with Some id => validate_id id "Snapshot reference" | None => Ok tt end;
  try! match bundle_ref with Some id => validate_id id "VerificationBundle reference" | None => Ok tt end;
  run ← run_raw t run_id;
  if negb (bool_decide (r_state run = RRunning)) then Err (InvalidDraft "only a running Run can bind output references") else
  operation ← parse_operation (r_operation (run_columns run));
  if bool_decide (is_Some operation)
  then Err (InvalidDraft "typed Run outputs must be published with the terminal output set") else
  try! match snapshot_ref with
       | Some snapshot_id =>
           if negb (bool_decide (sn_state <$> snapshots (catalog t) !! snapshot_id = Some 1%Z))
           then Err (InvalidDraft "Snapshot output reference is not committed") else Ok tt
       | None => Ok tt
       end;
  try! match bundle_ref with
       | Some bundle_id =>
           if negb (bool_decide (fst <$> verification_bundles (catalog t) !! bundle_id = Some run_id))
           then Err (InvalidDraft "VerificationBundle output reference is missing or owned by another Run") else Ok tt
       | None => Ok tt
       end;
  if bool_decide (is_Some (r_snapshot_ref run)) && negb (bool_decide (snapshot_ref = r_snapshot_ref run))
  then Err (InvalidDraft "Snapshot output reference is write-once") else
  if bool_decide (is_Some (r_bundle_ref run)) && negb (bool_decide (bundle_ref = r_bundle_ref run))
  then Err (InvalidDraft "VerificationBundle output reference is write-once") else
  let t := update_run (run_bind_refs snapshot_ref bundle_ref) run_id t in
  record ← run_from_transaction t run_id;
  Ok (t, record).

(** Only a reconciliation note may be appended by itself. *)
Definition append_event (t : Tables) (event : EventDraft) : Stored (Tables * EventRecord) :=
  if negb (bool_decide (ed_event_type event = RunReconciled))
  then Err (InvalidDraft "lifecycle events must be appended with their state transition") else
  t ← append_event_tx t event;
  record ← event_from_transaction t (ed_event_id event);
  Ok (t, record).

(** ** Artifacts *)

Definition validate_artifact_draft (workspace run_id artifact_id external_ref_id : Uuid) (content_digest : Digest) : Stored unit :=
  try! validate_id workspace "workspace";
  try! validate_id run_id "run";
  try! validate_id artifact_id "artifact";
  try! validate_id external_ref_id "artifact external reference";
  if is_zero content_digest then Err (InvalidDraft "ArtifactRef content digest must not be zero") else Ok tt.
Definition ensure_run_workspace (t : Tables) (workspace run_id : Uuid) : Stored unit :=
  match cp_runs t !! run_id with
  | Some run => if (r_workspace_id (run_columns run) =? workspace)%N then Ok tt
                else Err (InvalidDraft "Run belongs to another Workspace")
  | None => Err (NotFound run_id)
  end.

(** A record of an artifact: its row with the decoded digest and metadata. *)
Record ArtifactRefRecord := mkArtifactRecord {
  ar_id : Uuid; ar_row : ArtifactRow; ar_content_digest : Digest; ar_metadata : json }.
Definition EXTERNAL_KINDS : list string := ["snapshot"; "verificationBundle"; "artifact"].
Definition artifact_from_raw (id : Uuid) (a : ArtifactRow) : Stored ArtifactRefRecord :=
  metadata ← parse_json (a_metadata_json a) "ArtifactRef metadata";
  try! validate_safe_json false metadata;
  if negb (bool_decide (a_external_ref_kind a ∈ EXTERNAL_KINDS))
  then Err (Serialization "unknown ArtifactRef target kind") else
  digest ← parse_digest (a_content_digest a);
  Ok (mkArtifactRecord id a digest metadata).
Definition artifact_raw (t : Tables) (id : Uuid) : Stored ArtifactRow := ok_or (cp_artifact_refs t !! id) (NotFound id).
Definition artifact_from_transaction (t : Tables) (id : Uuid) : Stored ArtifactRefRecord :=
  row ← artifact_raw t id; artifact_from_raw id row.
Definition readable_artifact (r : ArtifactRefRecord) : Stored ArtifactRefRecord :=
  if negb (bool_decide (a_state (ar_row r) = Committed)) then Err (NotFound (ar_id r)) else Ok r.
Definition get_artifact_ref (t : Tables) (id : Uuid) : Stored ArtifactRefRecord :=
  record ← artifact_from_transaction t id; readable_artifact record.

(** [create_artifact_ref] and [create_artifact_ref_with_body]. *)
Definition create_artifact_ref_inner (t : Tables) (workspace run_id artifact_id : Uuid) (kind : ArtifactKind)
  (external_ref_kind : string) (external_ref_id : Uuid) (content_digest : Digest) (metadata : json) (created_at : DateTime)
  (body : option (list N)) : Stored (Tables * ArtifactRefRecord) :=
  try! validate_artifact_draft workspace run_id artifact_id external_ref_id content_digest;
  try! validate_safe_json false metadata;
  metadata_json ← compact_json metadata "serialize artifact metadata";
  try! match body with Some body => validate_artifact_body kind content_digest body | None => Ok tt end;
  try! ensure_run_workspace t workspace run_id;
  run ← run_raw t run_id;
  if negb (bool_decide (r_state run = RRunning)) then Err (InvalidDraft "ArtifactRef staging requires a running Run") else
  if (created_at <? r_started_at (run_columns run))%Z then Err (InvalidTimestampOrder "ArtifactRef creation") else
  if bool_decide (is_Some (cp_artifact_refs t !! artifact_id)) then Err (AlreadyExists artifact_id) else
  let row := mkArtifact workspace run_id kind external_ref_kind external_ref_id (digest_hex content_digest) metadata_json
               Staged created_at None None in
  if bool_decide (is_Some body) && bool_decide (is_Some (cp_artifact_bodies t !! artifact_id))
  then Err (AlreadyExists artifact_id) else
  let bodies := match body with
                | Some body => <[artifact_id := mkBody kind 1 (digest_hex content_digest) body metadata_json Staged created_at None]>
                                 (cp_artifact_bodies t)
                | None => cp_artifact_bodies t
                end in
  let t := set_artifacts (<[artifact_id := row]> (cp_artifact_refs t)) bodies t in
  record ← artifact_from_transaction t artifact_id;
  Ok (t, record).

Definition body_in_state (t : Tables) (id : Uuid) (s : ArtifactRefState) : bool :=
  match cp_artifact_bodies t !! id with Some b => bool_decide (b_state b = s) | None => false end.

Definition transition_artifact_ref (t : Tables) (artifact_id : Uuid) (target : ArtifactRefState) (event : EventDraft)
  : Stored (Tables * ArtifactRefRecord) :=
  artifact ← artifact_raw t artifact_id;
  if negb (allowed_artifact_transition (a_state artifact) target)
  then Err (InvalidDraft "ArtifactRef transition is not allowed") else
  let run_id := a_run_id artifact in
  run ← run_raw t run_id;
  let job_id := r_job_id (run_columns run) in
  try! (if bool_decide (target = Committed) then
          operation ← parse_operation (r_operation (run_columns run));
          if bool_decide (is_Some operation)
          then Err (InvalidDraft "typed ArtifactRefs must be committed with the terminal output set") else Ok tt
        else Ok tt);
  if bool_decide (target = Committed) && negb (bool_decide (r_state run = RRunning))
  then Err (InvalidDraft "ArtifactRef commit requires a running Run") else
  if (ed_occurred_at event <? a_created_at artifact)%Z then Err (InvalidTimestampOrder "ArtifactRef transition") else
  if match a_committed_at artifact with
     | Some committed_at => bool_decide (target = Tombstoned) && (ed_occurred_at event <? committed_at)%Z
     | None => false
     end then Err (InvalidTimestampOrder "ArtifactRef tombstone") else
  expected ← match target with
             | Committed => Ok ArtifactCommitted
             | Tombstoned => Ok ArtifactTombstoned
             | Staged | AFailed =>
                 Err (InvalidDraft "ArtifactRef lifecycle event requires committed or tombstoned state")
             end;
  if negb (event_is event RunStream expected run_id job_id (Some run_id)) then Err (InvalidDraft "invalid Artifact lifecycle event") else
  let committed_at := if bool_decide (target = Committed) then Some (ed_occurred_at event) else None in
  let tombstoned_at := if bool_decide (target = Tombstoned) then Some (ed_occurred_at event) else None in
  let t := update_ref (ref_set_state target committed_at tombstoned_at) artifact_id t in
  let t := match target with
           | Committed => if body_in_state t artifact_id Staged
                          then update_body (body_set_state Committed (Some (ed_occurred_at event))) artifact_id t else t
           | Tombstoned => if body_in_state t artifact_id Committed
                           then update_body (body_set_state Tombstoned None) artifact_id t else t
           | _ => t
           end in
  t ← append_event_tx t event;
  record ← artifact_from_transaction t artifact_id;
  Ok (t, record).

Definition fail_artifact_ref (t : Tables) (artifact_id : Uuid) : Stored (Tables * ArtifactRefRecord) :=
  artifact ← artifact_raw t artifact_id;
  if negb (bool_decide (a_state artifact = Staged)) then Err (InvalidDraft "only a staged ArtifactRef can fail") else
  let t := update_ref (ref_set_state AFailed None None) artifact_id t in
  let t := if body_in_state t artifact_id Staged then update_body (body_set_state AFailed None) artifact_id t else t in
  record ← artifact_from_transaction t artifact_id;
  Ok (t, record).

(** ** Reconciliation *)

Definition validate_recovery_events (d : JobRecoveryDraft) (run_started_at job_queued_at : DateTime) : Stored unit :=
  if negb (event_is (rd_reconciled_event d) RunStream RunReconciled (rd_run_id d) (rd_job_id d) (Some (rd_run_id d)))
     || negb (bool_decide (ed_event_type (rd_run_failed_event d) = RunFailed))
     || negb (bool_decide (ed_event_type (rd_job_failed_event d) = JobFailed))
  then Err (InvalidDraft "invalid restart reconciliation events") else
  try! validate_event_identity (rd_reconciled_event d);
  try! validate_state_event (rd_run_failed_event d) RunStream (rd_run_id d) (rd_job_id d) (Some (rd_run_id d)) RunFailed;
  try! validate_state_event (rd_job_failed_event d) JobStream (rd_job_id d) (rd_job_id d) None JobFailed;
  if (ed_occurred_at (rd_reconciled_event d) <? run_started_at)%Z
     || (ed_occurred_at (rd_run_failed_event d) <? ed_occurred_at (rd_reconciled_event d))%Z
     || (ed_occurred_at (rd_job_failed_event d) <? ed_occurred_at (rd_run_failed_event d))%Z
     || (ed_occurred_at (rd_job_failed_event d) <? job_queued_at)%Z
  then Err (InvalidTimestampOrder "restart reconciliation events") else Ok tt.

Definition reconcile_one (t : Tables) (d : JobRecoveryDraft) : Stored (Tables * JobRecoveryResult) :=
  try! validate_id (rd_job_id d) "reconciliation Job";
  try! validate_id (rd_run_id d) "reconciliation Run";
  if negb (bool_decide (category (rd_failure d) = "worker_lost"))
  then Err (InvalidDraft "restart reconciliation requires worker_lost failure") else
  job ← job_raw t (rd_job_id d);
  run ← run_raw t (rd_run_id d);
  let row := job.1 in
  if negb (bool_decide (j_run_id row = Some (rd_run_id d))) || negb (r_job_id (run_columns run) =? rd_job_id d)%N
     || negb (r_workspace_id (run_columns run) =? j_workspace_id (job_columns row))%N
     || negb (r_session_id (run_columns run) =? j_session_id (job_columns row))%N
  then Err (Serialization "reconciliation Job and Run relationship is inconsistent") else
  if job_is_terminal (j_state row) && run_is_terminal (r_state run)
  then Ok (t, mkRecoveryResult (rd_job_id d) false) else
  if negb (job_active (j_state row)) || negb (run_active (r_state run))
  then Err (Serialization "active Job and Run states are inconsistent for reconciliation") else
  try! validate_recovery_events d (r_started_at (run_columns run)) (j_queued_at (job_columns row));
  failure_json ← failure_json (Some (rd_failure d));
  t ← transition_run_state_tx t (rd_run_id d) (r_state run) RFailed (Some (ed_occurred_at (rd_run_failed_event d)));
  let t := update_run (run_set_failure failure_json) (rd_run_id d) t in
  t ← transition_job_state_tx t (rd_job_id d) (j_state row) Failed (Some (ed_occurred_at (rd_job_failed_event d)));
  let t := update_job (job_set_failure failure_json) (rd_job_id d) t in
  let t := fail_reconciled_artifacts (rd_run_id d) t in
  t ← append_event_tx t (rd_reconciled_event d);
  t ← append_event_tx t (rd_run_failed_event d);
  t ← append_event_tx t (rd_job_failed_event d);
  Ok (t, mkRecoveryResult (rd_job_id d) true).

Definition reconcile_jobs (t : Tables) (drafts : list JobRecoveryDraft) : Stored (Tables * list JobRecoveryResult) :=
  if (MAX_MAINTENANCE_CANDIDATES <? len drafts)%N
  then Err (InvalidDraft "reconciliation batch exceeds the maintenance bound") else
  fold_result (fun acc d => done_ ← reconcile_one acc.1 d; Ok (done_.1, acc.2 ++ [done_.2])) (t, []) drafts.
End lifecycle.
