(* ===== verification/Reports.v ===== *)
(** * Report bodies and drift reports: [stillflow-storage/src/profile_history.rs]

    The bodies of committed artifacts, the publication of a drift report by a
    generic run, with its replay, and the pages of a report's findings. *)

From S2P Require Import Prelude Text Secrets Logical Nodes Schedule Automation Hex Canonical Operations Jobs Submissions Outputs Lifecycle.

Definition DRIFT_MAX_REPORT_PAGE_SIZE : N := 100.

Record ArtifactBodyRecord := mkBodyRecord {
  ab_artifact_id : Uuid;
  ab_workspace_id : Uuid;
  ab_run_id : Uuid;
  ab_artifact_kind : ArtifactKind;
  ab_artifact_version : N;
  ab_content_digest : Digest;
  ab_body : list N;
  ab_provenance : json;
  ab_state : ArtifactRefState;
  ab_created_at : DateTime;
  ab_committed_at : option DateTime;
}.
Record DriftComparisonRecord := mkComparisonRecord {
  cr_comparison_key : Digest;
  cr_row : ComparisonRow;
  cr_report_digest : Digest;
}.
Record DriftReportCursor := mkReportCursor { rcu_report_digest : Digest; rcu_offset : N }.
Record DriftReportPage := mkReportPage {
  rp_report_artifact_id : Uuid;
  rp_report_digest : Digest;
  rp_findings : list json;
  rp_next : option DriftReportCursor;
}.

Section reports.
Context `{JobCodec} `{StoreFiles}.

(** A body is read when it and its reference are committed, and is what the
    reference says it is. *)
Definition artifact_body_from_connection (t : Tables) (id : Uuid) : Stored ArtifactBodyRecord :=
  match cp_artifact_refs t !! id, cp_artifact_bodies t !! id with
  | Some a, Some b =>
      if negb (bool_decide (a_state a = Committed)) || negb (bool_decide (b_state b = Committed)) then Err (NotFound id) else
      artifact_digest ← parse_digest (a_content_digest a);
      body_digest ← parse_digest (b_content_digest b);
      if negb ((0 <=? b_artifact_version b) && (b_artifact_version b <=? 65535))%Z
      then Err (Serialization "Artifact body version") else
      if negb (bool_decide (b_artifact_kind b = a_artifact_kind a)) || negb (bool_decide (artifact_digest = body_digest))
         || negb (bool_decide (b_state b = Committed)) || negb (b_artifact_version b =? 1)%Z
      then Err (Serialization "Artifact body identity does not match its ArtifactRef") else
      try! validate_artifact_body (a_artifact_kind a) artifact_digest (b_body b);
      provenance ← parse_json (b_provenance_json b) "Artifact body provenance";
      try! validate_safe_json false provenance;
      Ok (mkBodyRecord id (a_workspace_id a) (a_run_id a) (a_artifact_kind a) 1 body_digest (b_body b) provenance
            (b_state b) (b_created_at b) (b_committed_at b))
  | _, _ => Err (NotFound id)
  end.
Definition get_artifact_body (t : Tables) (id : Uuid) : Stored ArtifactBodyRecord := artifact_body_from_connection t id.

(** ** Comparisons *)

Definition drift_comparison_from_raw (key : string) (row : ComparisonRow) : Stored DriftComparisonRecord :=
  comparison_key ← history_digest key;
  report_digest ← history_digest (cmp_report_digest row);
  Ok (mkComparisonRecord comparison_key row report_digest).
Definition drift_comparison_from_connection (t : Tables) (comparison_key : Digest) : Stored DriftComparisonRecord :=
  let key := digest_hex comparison_key in
  row ← ok_or (qd1_drift_comparisons t !! key) (InvalidDraft "drift comparison was not found");
  drift_comparison_from_raw key row.
Definition drift_comparison_from_transaction (t : Tables) (comparison_key : Digest) : Stored DriftComparisonRecord :=
  let key := digest_hex comparison_key in
  row ← ok_or (qd1_drift_comparisons t !! key) (Database "read committed drift comparison");
  drift_comparison_from_raw key row.
Definition get_drift_comparison (t : Tables) (comparison_key : Digest) : Stored DriftComparisonRecord :=
  if is_zero comparison_key then Err (InvalidDraft "drift comparison key must not be zero") else
  drift_comparison_from_connection t comparison_key.

(** The artifact of the report and its body are committed as they are
    inserted. *)
Definition insert_report (d : DriftReportDraft) (candidate : HistoryIdentity) (metadata_json : string) (committed_at : DateTime)
  (t : Tables) : Stored Tables :=
  let id := dr_report_artifact_id d in
  if bool_decide (is_Some (cp_artifact_refs t !! id)) || bool_decide (is_Some (cp_artifact_bodies t !! id))
  then Err (AlreadyExists id) else
  let row := mkArtifact (dr_workspace_id d) (dr_producing_run_id d) KindDriftReport EXTERNAL_ARTIFACT
               (h_profile_artifact_id (hi_row candidate)) (digest_hex (dr_report_digest d)) metadata_json Committed
               (dr_created_at d) (Some committed_at) None in
  let body := mkBody KindDriftReport 1 (digest_hex (dr_report_digest d)) (dr_body d) metadata_json Committed
                (dr_created_at d) (Some committed_at) in
  Ok (set_artifacts (<[id := row]> (cp_artifact_refs t)) (<[id := body]> (cp_artifact_bodies t)) t).

(** [ControlPlaneStore::publish_drift_report] *)
Definition publish_generic_drift_report (t : Tables) (d : DriftReportDraft) (e : EventDraft)
  : Stored (Tables * DriftComparisonRecord) :=
  try! validate_drift_report_draft d e;
  metadata_json ← compact_json (dr_metadata d) "serialize drift report metadata";
  let key := digest_hex (dr_comparison_key d) in
  match qd1_drift_comparisons t !! key with
  | Some row => existing ← drift_comparison_from_raw key row; Ok (t, existing)
  | None =>
      pair ← ensure_history_pair t (dr_workspace_id d) (dr_dataset_id d) (dr_baseline_history_id d)
               (dr_candidate_history_id d);
      let '(baseline, candidate) := pair in
      if negb (hi_active baseline) || negb (hi_active candidate)
      then Err (InvalidDraft "drift report inputs must be active at publication") else
      try! ensure_profile_artifact t baseline;
      try! ensure_profile_artifact t candidate;
      try! validate_report_body_identity d baseline candidate;
      run ← ok_or (cp_runs t !! dr_producing_run_id d) (NotFound (dr_producing_run_id d));
      let c := run_columns run in
      if negb (r_workspace_id c =? dr_workspace_id d)%N || negb (bool_decide (r_state run = RRunning))
         || bool_decide (is_Some (oc_kind (r_operation c)))
      then Err (InvalidDraft "Q-D1 report publication requires a running generic E5 Run") else
      if (dr_created_at d <? r_started_at c)%Z || (ed_occurred_at e <? dr_created_at d)%Z
      then Err (InvalidTimestampOrder "drift report publication") else
      if negb (event_is e RunStream ArtifactCommitted (dr_producing_run_id d) (r_job_id c) (Some (dr_producing_run_id d)))
      then Err (InvalidDraft "invalid drift report ArtifactCommitted event") else
      t ← insert_report d candidate metadata_json (ed_occurred_at e) t;
      t ← append_event_tx t e;
      t ← insert_comparison d t;
      record ← drift_comparison_from_transaction t (dr_comparison_key d);
      Ok (t, record)
  end.

(** ** Pages of findings *)

Definition list_drift_report_findings (t : Tables) (report_artifact_id : Uuid) (cursor : option DriftReportCursor) (limit : N)
  : Stored DriftReportPage :=
  if is_nil report_artifact_id || (limit =? 0)%N || (DRIFT_MAX_REPORT_PAGE_SIZE <? limit)%N
  then Err (InvalidDraft "drift report page request is outside the authorized bound") else
  report ← get_artifact_body t report_artifact_id;
  if negb (bool_decide (ab_artifact_kind report = KindDriftReport))
  then Err (InvalidDraft "Artifact is not a committed drift report") else
  value ← ok_or (json_parse_bytes (ab_body report)) (Serialization "decode drift report page");
  findings ← ok_or (json_get value "findings" ≫= as_array) (Serialization "drift report findings");
  offset ← match cursor with
           | None => Ok 0%N
           | Some c => if bool_decide (rcu_report_digest c = ab_content_digest report) then Ok (rcu_offset c)
                       else Err (InvalidDraft "drift report cursor is bound to another report")
           end;
  if (len findings <? offset)%N then Err (InvalidDraft "drift report cursor is outside the report") else
  (* [saturating_add] stays below [usize::MAX] here or is cut by [min] *)
  let end_ := N.min (offset + limit) (len findings) in
  let next := if (end_ <? len findings)%N then Some (mkReportCursor (ab_content_digest report) end_) else None in
  Ok (mkReportPage report_artifact_id (ab_content_digest report)
        (take (N.to_nat end_ - N.to_nat offset) (drop (N.to_nat offset) findings)) next).
End reports.
