(* ===== verification/Life.v ===== *)
(** * The lifecycle of jobs, as an abstract machine

    What the operations of [Lifecycle] and [Submissions] do to jobs, runs,
    artifacts and the event log, with everything else forgotten: a job and
    its run walk through their states, and every move is logged.  [Refines]
    shows that the operations are sequences of these moves; what holds here
    holds there. *)

From S2P Require Import Prelude Text Logical Jobs.

Record JobLife := mkJobLife {
  jl_workspace : Uuid;
  jl_state : JobState;
  jl_run : option Uuid;
  jl_failure : bool;
  jl_finished : bool;
}.
Record RunLife := mkRunLife {
  rl_job : Uuid;
  rl_state : RunState;
  rl_failure : bool;
  rl_finished : bool;
  rl_typed : bool;
}.
Record Entry := mkEntry { en_kind : EventStreamKind; en_id : Uuid; en_seq : N; en_type : ControlPlaneEventType }.
Record Life := mkLife {
  l_jobs : gmap Uuid JobLife;
  l_runs : gmap Uuid RunLife;
  l_log : list Entry;
  l_artifacts : gmap Uuid (Uuid * ArtifactRefState);
}.

Definition on_stream (kind : EventStreamKind) (id : Uuid) (e : Entry) : Prop := en_kind e = kind /\ en_id e = id.
#[export] Instance on_stream_dec kind id e : Decision (on_stream kind id e).
Proof. unfold on_stream. apply _. Defined.
Definition log_of (kind : EventStreamKind) (id : Uuid) (l : Life) : list Entry := filter (on_stream kind id) (l_log l).
Arguments log_of : simpl never.
Definition top (log : list Entry) : N := foldr (fun e n => N.max (en_seq e) n) 0%N log.

Definition put_job (id : Uuid) (j : JobLife) (l : Life) : Life := mkLife (<[id := j]> (l_jobs l)) (l_runs l) (l_log l) (l_artifacts l).
Definition put_run (id : Uuid) (r : RunLife) (l : Life) : Life := mkLife (l_jobs l) (<[id := r]> (l_runs l)) (l_log l) (l_artifacts l).
Definition put_artifact (id : Uuid) (a : Uuid * ArtifactRefState) (l : Life) : Life :=
  mkLife (l_jobs l) (l_runs l) (l_log l) (<[id := a]> (l_artifacts l)).
Definition log (kind : EventStreamKind) (id : Uuid) (type : ControlPlaneEventType) (l : Life) : Life :=
  mkLife (l_jobs l) (l_runs l) (l_log l ++ [mkEntry kind id (top (log_of kind id l) + 1) type]) (l_artifacts l).

(** The staged artifacts of a run are given up together. *)
Definition dropped (run : Uuid) (a : Uuid * ArtifactRefState) : Uuid * ArtifactRefState :=
  if (a.1 =? run)%N && bool_decide (a.2 = Staged) then (a.1, AFailed) else a.
Definition drop_staged (run : Uuid) (l : Life) : Life :=
  mkLife (l_jobs l) (l_runs l) (l_log l) (dropped run <$> l_artifacts l).

(** The jobs of a workspace that wait to be claimed. *)
Definition waiting (workspace : Uuid) (j : JobLife) : bool := (jl_workspace j =? workspace)%N && bool_decide (jl_state j = Queued).
Definition waiting_count (workspace : Uuid) (jobs : gmap Uuid JobLife) : N :=
  len (filter (fun e => waiting workspace e.2) (map_to_list jobs)).

(** ** Moves *)

Definition job_moved (target : JobState) (j : JobLife) : JobLife :=
  mkJobLife (jl_workspace j) target (jl_run j) (bool_decide (target = Failed)) (job_is_terminal target).
Definition run_moved (target : RunState) (r : RunLife) : RunLife :=
  mkRunLife (rl_job r) target (bool_decide (target = RFailed)) (run_is_terminal target) (rl_typed r).

Definition run_outcome (s : JobState) : option RunState :=
  match s with Succeeded => Some RSucceeded | Failed => Some RFailed | Cancelled => Some RCancelled | _ => None end.
(** A job ends as its run has; without a run it can only fail in the queue or
    be cancelled. *)
Definition ends_well (l : Life) (j : JobLife) (target : JobState) : Prop :=
  job_is_terminal target = true ->
  match jl_run j with
  | None => (jl_state j = Queued /\ target = Failed) \/ (jl_state j = Cancelling /\ target = Cancelled)
  | Some run => exists r, l_runs l !! run = Some r /\ run_outcome target = Some (rl_state r)
  end.
Definition is_note (t : ControlPlaneEventType) : bool :=
  match t with RunReconciled | ArtifactCommitted | ArtifactTombstoned => true | _ => false end.

Inductive LifeStep (l : Life) : Life -> Prop :=
| life_submit id workspace :
    l_jobs l !! id = None -> (waiting_count workspace (l_jobs l) < MAX_QUEUED_JOBS_PER_WORKSPACE)%N ->
    LifeStep l (log JobStream id JobQueued (put_job id (mkJobLife workspace Queued None false false) l))
| life_claim id j run typed :
    l_jobs l !! id = Some j -> jl_state j = Queued -> jl_run j = None -> l_runs l !! run = None ->
    LifeStep l (log RunStream run RunRunning (log JobStream id JobRunning
      (put_run run (mkRunLife id RRunning false false typed)
        (put_job id (mkJobLife (jl_workspace j) Running (Some run) false false) l))))
| life_job id j target :
    l_jobs l !! id = Some j -> allowed_job_transition (jl_state j) target = true -> ends_well l j target ->
    LifeStep l (log JobStream id (event_type_for_job_state target) (put_job id (job_moved target j) l))
| life_run id r target :
    l_runs l !! id = Some r -> allowed_run_transition (rl_state r) target = true ->
    LifeStep l (log RunStream id (event_type_for_run_state target) (put_run id (run_moved target r) l))
| life_note id r type :
    l_runs l !! id = Some r -> is_note type = true -> LifeStep l (log RunStream id type l)
| life_stage id run r :
    l_artifacts l !! id = None -> l_runs l !! run = Some r -> LifeStep l (put_artifact id (run, Staged) l)
| life_artifact id run r from to :
    l_artifacts l !! id = Some (run, from) -> allowed_artifact_transition from to = true -> l_runs l !! run = Some r ->
    (to = Committed -> rl_typed r = true -> rl_state r = RSucceeded) ->
    LifeStep l (put_artifact id (run, to) l)
| life_drop run : LifeStep l (drop_staged run l).

(** ** Histories *)

Inductive job_path : list JobState -> JobState -> Prop :=
| job_path_queued : job_path [Queued] Queued
| job_path_move h s s' : job_path h s -> allowed_job_transition s s' = true -> job_path (h ++ [s']) s'.
Inductive run_path : list RunState -> RunState -> Prop :=
| run_path_running : run_path [RRunning] RRunning
| run_path_move h s s' : run_path h s -> allowed_run_transition s s' = true -> run_path (h ++ [s']) s'.

Definition types (log : list Entry) : list ControlPlaneEventType := en_type <$> log.
(** The moves of a run, without the notes in between. *)
Definition moves (log : list Entry) : list ControlPlaneEventType := filter (fun t => is_note t = false) (types log).

Record JobOk (l : Life) (id : Uuid) (j : JobLife) : Prop := {
  job_history : exists h, job_path h (jl_state j) /\ types (log_of JobStream id l) = event_type_for_job_state <$> h;
  job_run_back run : jl_run j = Some run -> exists r, l_runs l !! run = Some r /\ rl_job r = id;
  job_queued_alone : jl_state j = Queued -> jl_run j = None;
  job_outcome run : job_is_terminal (jl_state j) = true -> jl_run j = Some run ->
    exists r, l_runs l !! run = Some r /\ run_outcome (jl_state j) = Some (rl_state r);
  job_failure : jl_failure j = bool_decide (jl_state j = Failed);
  job_finished : jl_finished j = job_is_terminal (jl_state j);
}.
Record RunOk (l : Life) (id : Uuid) (r : RunLife) : Prop := {
  run_history : exists h, run_path h (rl_state r) /\ moves (log_of RunStream id l) = event_type_for_run_state <$> h;
  run_job : exists j, l_jobs l !! rl_job r = Some j /\ jl_run j = Some id;
  run_failure : rl_failure r = bool_decide (rl_state r = RFailed);
  run_finished : rl_finished r = run_is_terminal (rl_state r);
}.
Definition visible (s : ArtifactRefState) : bool := match s with Committed | Tombstoned => true | _ => false end.
Record LifeOk (l : Life) : Prop := {
  life_jobs id j : l_jobs l !! id = Some j -> JobOk l id j;
  life_runs id r : l_runs l !! id = Some r -> RunOk l id r;
  life_no_job id : l_jobs l !! id = None -> log_of JobStream id l = [];
  life_no_run id : l_runs l !! id = None -> log_of RunStream id l = [];
  life_sequence kind id : en_seq <$> log_of kind id l = N.of_nat <$> seq 1 (length (log_of kind id l));
  life_artifacts id run s : l_artifacts l !! id = Some (run, s) ->
    exists r, l_runs l !! run = Some r /\ (visible s = true -> rl_typed r = true -> rl_state r = RSucceeded);
}.

(** ** The log grows at the end *)

Lemma log_of_log kind id type l k i :
  log_of k i (log kind id type l) =
  log_of k i l ++ (if decide (kind = k /\ id = i) then [mkEntry kind id (top (log_of kind id l) + 1) type] else []).
Proof.
  unfold log_of, log. cbn [l_log]. rewrite filter_app. by f_equal.
Qed.
Lemma log_of_same kind id type l :
  log_of kind id (log kind id type l) = log_of kind id l ++ [mkEntry kind id (top (log_of kind id l) + 1) type].
Proof. rewrite log_of_log. by rewrite decide_True. Qed.
Lemma log_of_other kind id type l k i : (kind, id) <> (k, i) -> log_of k i (log kind id type l) = log_of k i l.
Proof. intros Hne. rewrite log_of_log, decide_False, app_nil_r; [done|]. intros [-> ->]. done. Qed.

(** The largest of 1, ..., n. *)
Lemma max_seq n : foldr N.max 0%N (N.of_nat <$> seq 1 n) = N.of_nat n.
Proof.
  induction n as [|n IH]; [done|]. rewrite seq_S, fmap_app, foldr_app. cbn.
  assert (forall (l : list N) a, foldr N.max a l = N.max a (foldr N.max 0%N l)) as Hf
    by (intros l a; induction l as [|x l IHl]; cbn; [lia|rewrite IHl; lia]).
  rewrite Hf, IH. lia.
Qed.
Lemma foldr_max_fmap {A} (f : A -> N) (l : list A) : foldr (fun e n => N.max (f e) n) 0%N l = foldr N.max 0%N (f <$> l).
Proof. induction l as [|e l IH]; cbn; [done|by rewrite IH]. Qed.
Lemma top_sequence log : en_seq <$> log = N.of_nat <$> seq 1 (length log) -> top log = N.of_nat (length log).
Proof. intros Hs. unfold top. by rewrite foldr_max_fmap, Hs, max_seq. Qed.
Lemma sequence_log kind id type l k i :
  (forall k i, en_seq <$> log_of k i l = N.of_nat <$> seq 1 (length (log_of k i l))) ->
  en_seq <$> log_of k i (log kind id type l) = N.of_nat <$> seq 1 (length (log_of k i (log kind id type l))).
Proof.
  intros Hs. destruct (decide ((kind, id) = (k, i))) as [[= <- <-]|Hne]; [|by rewrite log_of_other].
  rewrite log_of_same, fmap_app, length_app, Hs, top_sequence, seq_app, fmap_app by done. cbn. do 2 f_equal. lia.
Qed.

(** ** What a move keeps *)

Definition jobs_kept (l l' : Life) : Prop :=
  forall id j, l_jobs l !! id = Some j -> exists j', l_jobs l' !! id = Some j' /\
    jl_workspace j' = jl_workspace j /\ (is_Some (jl_run j) -> jl_run j' = jl_run j) /\
    (job_is_terminal (jl_state j) = true -> j' = j).
Definition runs_kept (l l' : Life) : Prop :=
  forall id r, l_runs l !! id = Some r -> exists r', l_runs l' !! id = Some r' /\
    rl_job r' = rl_job r /\ rl_typed r' = rl_typed r /\ (run_is_terminal (rl_state r) = true -> r' = r).

Lemma jobs_kept_put id j l l' :
  l_jobs l' = <[id := j]> (l_jobs l) ->
  (forall i, l_jobs l !! id = Some i -> jl_workspace j = jl_workspace i /\ (is_Some (jl_run i) -> jl_run j = jl_run i) /\
     job_is_terminal (jl_state i) = false) ->
  jobs_kept l l'.
Proof.
  intros Heq Hj i x Hx. rewrite Heq. destruct (decide (id = i)) as [->|Hne].
  - rewrite lookup_insert_eq. destruct (Hj x Hx) as (? & ? & Ht). exists j. by rewrite Ht.
  - rewrite lookup_insert_ne by done. by exists x.
Qed.
Lemma runs_kept_put id r l l' :
  l_runs l' = <[id := r]> (l_runs l) ->
  (forall i, l_runs l !! id = Some i -> rl_job r = rl_job i /\ rl_typed r = rl_typed i /\ run_is_terminal (rl_state i) = false) ->
  runs_kept l l'.
Proof.
  intros Heq Hr i x Hx. rewrite Heq. destruct (decide (id = i)) as [->|Hne].
  - rewrite lookup_insert_eq. destruct (Hr x Hx) as (? & ? & Ht). exists r. by rewrite Ht.
  - rewrite lookup_insert_ne by done. by exists x.
Qed.
Lemma jobs_kept_eq l l' : l_jobs l' = l_jobs l -> jobs_kept l l'.
Proof. intros Heq i x Hx. rewrite Heq. by exists x. Qed.
Lemma runs_kept_eq l l' : l_runs l' = l_runs l -> runs_kept l l'.
Proof. intros Heq i x Hx. rewrite Heq. by exists x. Qed.

Lemma allowed_job_open s s' : allowed_job_transition s s' = true -> job_is_terminal s = false.
Proof. by destruct s, s'. Qed.
Lemma allowed_run_open s s' : allowed_run_transition s s' = true -> run_is_terminal s = false.
Proof. by destruct s, s'. Qed.
Lemma allowed_job_not_queued s s' : allowed_job_transition s s' = true -> s' <> Queued.
Proof. by destruct s, s'. Qed.
#[export] Hint Resolve allowed_job_open allowed_run_open jobs_kept_eq runs_kept_eq : stillflow.

Lemma step_kept l l' : LifeStep l l' -> jobs_kept l l' /\ runs_kept l l'.
Proof.
  destruct 1 as [id ws Hid Hq|id j run ty Hj Hs Hn Hr|id j target Hj Ha _|id r target Hr Ha|id r ty Hr _|id run r _ Hr|id run r f t _ _ Hr _|run];
    split; auto with stillflow.
  - eapply jobs_kept_put; [done|]. intros i Hi. congruence.
  - eapply jobs_kept_put; [done|]. intros i Hi. simplify_eq. rewrite Hs, Hn. split_and!; [done| |done]. by intros [].
  - eapply runs_kept_put; [done|]. intros i Hi. congruence.
  - eapply jobs_kept_put; [done|]. intros i Hi. simplify_eq. eauto with stillflow.
  - eapply runs_kept_put; [done|]. intros i Hi. simplify_eq. eauto with stillflow.
Qed.

Lemma run_outcome_terminal s r : run_outcome s = Some r -> run_is_terminal r = true.
Proof. by destruct s; intros [= <-]. Qed.

Lemma JobOk_kept l l' id j : runs_kept l l' -> log_of JobStream id l' = log_of JobStream id l -> JobOk l id j -> JobOk l' id j.
Proof.
  intros Hk Hlog [Hh Hb Hq Ho Hf Hfin]. split; [by rewrite Hlog| |done| |done|done].
  - intros run Hrun. destruct (Hb run Hrun) as (r & Hr & Hj). destruct (Hk _ _ Hr) as (r' & Hr' & Hj' & _).
    exists r'. by rewrite Hj'.
  - intros run Ht Hrun. destruct (Ho run Ht Hrun) as (r & Hr & Hout). destruct (Hk _ _ Hr) as (r' & Hr' & _ & _ & Hsame).
    rewrite (Hsame (run_outcome_terminal _ _ Hout)) in Hr'. eauto.
Qed.
Lemma RunOk_kept l l' id r : jobs_kept l l' -> log_of RunStream id l' = log_of RunStream id l -> RunOk l id r -> RunOk l' id r.
Proof.
  intros Hk Hlog [Hh (j & Hj & Hrun) Hf Hfin]. split; [by rewrite Hlog| |done|done].
  destruct (Hk _ _ Hj) as (j' & Hj' & _ & Hr & _). exists j'. split; [done|]. rewrite Hr; [done|by rewrite Hrun].
Qed.

(** A state is well formed when what has changed in it is. *)
Lemma LifeOk_intro l l' :
  LifeOk l -> jobs_kept l l' -> runs_kept l l' ->
  (forall id j, l_jobs l' !! id = Some j ->
     (l_jobs l !! id = Some j /\ log_of JobStream id l' = log_of JobStream id l) \/ JobOk l' id j) ->
  (forall id r, l_runs l' !! id = Some r ->
     (l_runs l !! id = Some r /\ log_of RunStream id l' = log_of RunStream id l) \/ RunOk l' id r) ->
  (forall id, l_jobs l' !! id = None -> log_of JobStream id l' = log_of JobStream id l) ->
  (forall id, l_runs l' !! id = None -> log_of RunStream id l' = log_of RunStream id l) ->
  (forall k i, en_seq <$> log_of k i l' = N.of_nat <$> seq 1 (length (log_of k i l'))) ->
  (forall id run s, l_artifacts l' !! id = Some (run, s) -> l_artifacts l !! id = Some (run, s) \/
     exists r, l_runs l !! run = Some r /\ (visible s = true -> rl_typed r = true -> rl_state r = RSucceeded)) ->
  LifeOk l'.
Proof.
  intros Hok Hjk Hrk Hjobs Hruns Hnj Hnr Hseq Hart. split; [| | | |done|].
  - intros id j Hj. destruct (Hjobs id j Hj) as [[Hold Hlog]|?]; [|done].
    eapply JobOk_kept; [done|done|]. by apply life_jobs.
  - intros id r Hr. destruct (Hruns id r Hr) as [[Hold Hlog]|?]; [|done].
    eapply RunOk_kept; [done|done|]. by apply life_runs.
  - intros id Hn. rewrite Hnj by done. apply life_no_job; [done|].
    destruct (l_jobs l !! id) as [j|] eqn:Hj; [|done]. destruct (Hjk _ _ Hj) as (? & ? & _). congruence.
  - intros id Hn. rewrite Hnr by done. apply life_no_run; [done|].
    destruct (l_runs l !! id) as [r|] eqn:Hr; [|done]. destruct (Hrk _ _ Hr) as (? & ? & _). congruence.
  - intros id run s Ha. 
    assert (exists r, l_runs l !! run = Some r /\ (visible s = true -> rl_typed r = true -> rl_state r = RSucceeded))
      as (r & Hr & Hv) by (destruct (Hart id run s Ha) as [Hold|?]; [by eapply life_artifacts|done]).
    destruct (Hrk _ _ Hr) as (r' & Hr' & _ & Hty & Hsame). exists r'. split; [done|]. rewrite Hty. intros Hvis Htyped.
    specialize (Hv Hvis Htyped). by rewrite Hsame; [|rewrite Hv].
Qed.

(** ** Every move keeps a life well formed *)

Lemma log_of_put_job k i id j l : log_of k i (put_job id j l) = log_of k i l.
Proof. done. Qed.
Lemma log_of_put_run k i id r l : log_of k i (put_run id r l) = log_of k i l.
Proof. done. Qed.
Lemma log_of_put_artifact k i id a l : log_of k i (put_artifact id a l) = log_of k i l.
Proof. done. Qed.
Lemma log_of_drop k i run l : log_of k i (drop_staged run l) = log_of k i l.
Proof. done. Qed.
Create Rewrite HintDb life.
#[export] Hint Rewrite log_of_put_job log_of_put_run log_of_put_artifact log_of_drop : life.

(** The log of another stream, and of the stream that has moved. *)
Ltac other_log := rewrite ?log_of_other by congruence; autorewrite with life; done.
Ltac this_log := rewrite ?(log_of_other RunStream), ?(log_of_other JobStream) by congruence; rewrite log_of_same; autorewrite with life.

Lemma moved_job_ok l id j target :
  LifeOk l -> l_jobs l !! id = Some j -> allowed_job_transition (jl_state j) target = true -> ends_well l j target ->
  JobOk (log JobStream id (event_type_for_job_state target) (put_job id (job_moved target j) l)) id (job_moved target j).
Proof.
  intros Hok Hj Ha He. destruct (life_jobs _ Hok _ _ Hj) as [(h & Hp & Hlog) Hb Hq _ _ _].
  split; cbn; [|exact Hb| | |done|done].
  - exists (h ++ [target]). split; [by econstructor|]. this_log. unfold types in *. by rewrite fmap_app, Hlog, fmap_app.
  - intros ->. by apply allowed_job_not_queued in Ha.
  - intros run Ht Hrun. specialize (He Ht). rewrite Hrun in He. exact He.
Qed.
Lemma moved_run_ok l id r target :
  LifeOk l -> l_runs l !! id = Some r -> allowed_run_transition (rl_state r) target = true ->
  RunOk (log RunStream id (event_type_for_run_state target) (put_run id (run_moved target r) l)) id (run_moved target r).
Proof.
  intros Hok Hr Ha. destruct (life_runs _ Hok _ _ Hr) as [(h & Hp & Hlog) Hj _ _].
  split; cbn; [|exact Hj|done|done].
  exists (h ++ [target]). split; [by econstructor|]. this_log.
  unfold moves, types in *. rewrite fmap_app, filter_app, Hlog, fmap_app. by destruct target.
Qed.
Lemma noted_run_ok l id r type :
  LifeOk l -> l_runs l !! id = Some r -> is_note type = true -> RunOk (log RunStream id type l) id r.
Proof.
  intros Hok Hr Hn. destruct (life_runs _ Hok _ _ Hr) as [(h & Hp & Hlog) Hj Hf Hfin]. split; [|done..].
  exists h. split; [done|]. this_log. unfold moves, types in *. rewrite fmap_app, filter_app, Hlog. cbn.
  rewrite Hn. cbn. by rewrite app_nil_r.
Qed.
Lemma claimed_ok l id j run typed :
  LifeOk l -> l_jobs l !! id = Some j -> jl_state j = Queued -> l_runs l !! run = None ->
  let l' := log RunStream run RunRunning (log JobStream id JobRunning
              (put_run run (mkRunLife id RRunning false false typed)
                (put_job id (mkJobLife (jl_workspace j) Running (Some run) false false) l))) in
  JobOk l' id (mkJobLife (jl_workspace j) Running (Some run) false false) /\
  RunOk l' run (mkRunLife id RRunning false false typed).
Proof.
  intros Hok Hj Hs Hr l'. destruct (life_jobs _ Hok _ _ Hj) as [(h & Hp & Hlog) _ _ _ _ _]. rewrite Hs in Hp.
  split; split; cbn; try done.
  - exists (h ++ [Running]). split; [by econstructor|]. subst l'. rewrite (log_of_other RunStream) by congruence.
    this_log. unfold types in *. by rewrite fmap_app, Hlog, fmap_app.
  - intros run' [= <-]. rewrite lookup_insert_eq. eauto.
  - exists [RRunning]. split; [constructor|]. subst l'. this_log. rewrite (log_of_other JobStream) by congruence.
    autorewrite with life. by rewrite (life_no_run _ Hok _ Hr).
  - rewrite lookup_insert_eq. eauto.
Qed.

(** What is looked up is the new value, or an old one with its old log. *)
Ltac looked_up Hx :=
  let Hne := fresh "Hne" in
  apply lookup_insert_Some in Hx as [[<- <-]|[Hne Hx]]; [right|left; split; [done|other_log]].
Ltac not_there Hx := let Hne := fresh "Hne" in apply lookup_insert_None in Hx as [Hx Hne]; other_log.

Lemma LifeOk_submit l id ws :
  LifeOk l -> l_jobs l !! id = None -> (waiting_count ws (l_jobs l) < MAX_QUEUED_JOBS_PER_WORKSPACE)%N ->
  LifeOk (log JobStream id JobQueued (put_job id (mkJobLife ws Queued None false false) l)).
Proof.
  intros Hok Hid Hq. destruct (step_kept l _ (life_submit l id ws Hid Hq)) as [Hjk Hrk].
  apply (LifeOk_intro l); auto; cbn [l_jobs l_runs l_artifacts log put_job].
  - intros i x Hx. looked_up Hx. split; cbn; try done.
    exists [Queued]. split; [constructor|]. this_log. by rewrite (life_no_job _ Hok _ Hid).
  - intros i x Hx. left. split; [done|other_log].
  - intros i Hx. not_there Hx.
  - intros i Hx. other_log.
  - intros. apply sequence_log, (life_sequence _ Hok).
Qed.
Lemma LifeOk_claim l id j run typed :
  LifeOk l -> l_jobs l !! id = Some j -> jl_state j = Queued -> jl_run j = None -> l_runs l !! run = None ->
  LifeOk (log RunStream run RunRunning (log JobStream id JobRunning
    (put_run run (mkRunLife id RRunning false false typed)
      (put_job id (mkJobLife (jl_workspace j) Running (Some run) false false) l)))).
Proof.
  intros Hok Hj Hs Hn Hr. destruct (step_kept l _ (life_claim l id j run typed Hj Hs Hn Hr)) as [Hjk Hrk].
  destruct (claimed_ok l id j run typed Hok Hj Hs Hr) as [HJ HR].
  apply (LifeOk_intro l); auto; cbn [l_jobs l_runs l_artifacts log put_job put_run].
  - intros i x Hx. looked_up Hx. exact HJ.
  - intros i x Hx. looked_up Hx. exact HR.
  - intros i Hx. not_there Hx.
  - intros i Hx. not_there Hx.
  - intros k i. apply sequence_log. intros k' i'. apply sequence_log, (life_sequence _ Hok).
Qed.

(** Whatever move is made, every job and every run keeps a log that is exactly
    its history, and they agree with each other about their outcome. *)
Lemma LifeOk_step l l' : LifeOk l -> LifeStep l l' -> LifeOk l'.
Proof.
  intros Hok Hstep. destruct (step_kept _ _ Hstep) as [Hjk Hrk]. pose proof (life_sequence _ Hok) as Hseq.
  destruct Hstep as [id ws Hid Hq|id j run ty Hj Hs Hn Hr|id j target Hj Ha He|id r target Hr Ha|id r ty Hr Hn
                    |id run r Hnone Hr|id run r f t Hf Ha Hr Hc|run];
    [by apply LifeOk_submit|by apply LifeOk_claim|..];
    apply (LifeOk_intro l); auto; cbn [l_jobs l_runs l_artifacts log put_job put_run put_artifact drop_staged];
    try (intros; apply sequence_log, Hseq); try (intros; left; split; [done|other_log]); try (intros; other_log).
  - intros i x Hx. looked_up Hx. by apply moved_job_ok.
  - intros i Hx. not_there Hx.
  - intros i x Hx. looked_up Hx. by apply moved_run_ok.
  - intros i Hx. not_there Hx.
  - intros i x Hx. destruct (decide (id = i)) as [<-|Hne]; [right|left; split; [done|other_log]].
    simplify_eq. by apply noted_run_ok.
  - intros i run' s [[<- [= <- <-]]|[_ Hx]]%lookup_insert_Some; [right|by left]. by exists r.
  - intros i run' s [[<- [= <- <-]]|[_ Hx]]%lookup_insert_Some; [right|by left].
    destruct (life_artifacts _ Hok _ _ _ Hf) as (r' & Hr' & Hv). simplify_eq. exists r. split; [done|].
    destruct f, t; try done; auto.
  - intros i run' s Hx. rewrite lookup_fmap_Some in Hx. destruct Hx as ([run0 s0] & Hd & Hx).
    unfold dropped in Hd. cbn in Hd. case_match; simplify_eq; [right|by left].
    destruct (life_artifacts _ Hok _ _ _ Hx) as (r & Hr & _). by exists r.
Qed.

Definition empty_life : Life := mkLife ∅ ∅ [] ∅.
Lemma LifeOk_empty : LifeOk empty_life.
Proof. by split. Qed.
Lemma LifeOk_steps l l' : rtc LifeStep l l' -> LifeOk l -> LifeOk l'.
Proof. induction 1 as [|l l1 l2 Hs _ IH]; [done|]. intros Hok. eauto using LifeOk_step. Qed.
Lemma steps_kept l l' : rtc LifeStep l l' -> jobs_kept l l' /\ runs_kept l l'.
Proof.
  induction 1 as [l|l l1 l2 Hs _ [IHj IHr]]; [by auto with stillflow|]. destruct (step_kept _ _ Hs) as [Hj Hr]. split.
  - intros id j Hid. destruct (Hj _ _ Hid) as (j1 & H1 & Hw & Hrun & Hterm). destruct (IHj _ _ H1) as (j2 & H2 & Hw2 & Hrun2 & Hterm2).
    exists j2. split_and!; [done|congruence| |].
    + intros Hsome. rewrite Hrun2, Hrun; [done..|]. by rewrite Hrun.
    + intros Ht. rewrite (Hterm Ht) in *. auto.
  - intros id r Hid. destruct (Hr _ _ Hid) as (r1 & H1 & Hw & Hty & Hterm). destruct (IHr _ _ H1) as (r2 & H2 & Hw2 & Hty2 & Hterm2).
    exists r2. split_and!; [done|congruence|congruence|]. intros Ht. rewrite (Hterm Ht) in *. auto.
Qed.

(** Nothing follows the end of a job, and only notes that of a run. *)
Lemma log_after_end l l' id j :
  rtc LifeStep l l' -> l_jobs l !! id = Some j -> job_is_terminal (jl_state j) = true ->
  log_of JobStream id l' = log_of JobStream id l.
Proof.
  intros Hsteps. induction Hsteps as [l|l l1 l2 Hs _ IH]; [done|]. intros Hj Ht.
  destruct (step_kept _ _ Hs) as [Hjk _]. destruct (Hjk _ _ Hj) as (j1 & Hj1 & _ & _ & Hsame). rewrite (Hsame Ht) in Hj1.
  rewrite IH by done. destruct Hs as [i ws Hi Hq|i x run ty Hx Hxs|i x target Hx Ha|i r target Hr _|i r ty Hr _|i run r _ _|i run r f t _ _ _ _|run];
    try other_log.
  - assert (i <> id) by (intros ->; simplify_eq; by rewrite Hxs in Ht). other_log.
  - assert (i <> id) by (intros ->; simplify_eq; apply allowed_job_open in Ha; congruence). other_log.
Qed.
Lemma moves_after_end l l' id r :
  rtc LifeStep l l' -> l_runs l !! id = Some r -> run_is_terminal (rl_state r) = true ->
  moves (log_of RunStream id l') = moves (log_of RunStream id l).
Proof.
  intros Hsteps. induction Hsteps as [l|l l1 l2 Hs _ IH]; [done|]. intros Hr Ht.
  destruct (step_kept _ _ Hs) as [_ Hrk]. destruct (Hrk _ _ Hr) as (r1 & Hr1 & _ & _ & Hsame). rewrite (Hsame Ht) in Hr1.
  rewrite IH by done. destruct Hs as [i ws Hi Hq|i x run ty Hx Hxs Hn Hnone|i x target Hx Ha|i x target Hx Ha|i x ty Hx Hn|i run x _ _|i run x f t _ _ _ _|run];
    try (f_equal; other_log).
  - assert (i <> id) by (intros ->; simplify_eq; apply allowed_run_open in Ha; congruence). f_equal. other_log.
  - destruct (decide (i = id)) as [->|Hne]; [|f_equal; other_log].
    rewrite log_of_same. unfold moves, types. rewrite fmap_app, filter_app. cbn. rewrite Hn. cbn. by rewrite app_nil_r.
Qed.

(** ** The queue *)

Lemma waiting_count_insert ws id j jobs :
  jobs !! id = None ->
  waiting_count ws (<[id := j]> jobs) = ((if waiting ws j then 1 else 0) + waiting_count ws jobs)%N.
Proof.
  intros Hn. unfold waiting_count, len. rewrite (map_to_list_insert jobs id j Hn), filter_cons. cbn [snd].
  destruct (waiting ws j); cbn [decide]; [rewrite decide_True by done|rewrite decide_False by auto]; cbn [length]; lia.
Qed.
Lemma waiting_count_update ws id j j' jobs :
  jobs !! id = Some j -> (waiting ws j' = true -> waiting ws j = true) ->
  (waiting_count ws (<[id := j']> jobs) <= waiting_count ws jobs)%N.
Proof.
  intros Hj Hw. rewrite <- (insert_delete_id jobs id j Hj) at 2. rewrite <- insert_delete_eq.
  rewrite !waiting_count_insert by apply lookup_delete_eq. destruct (waiting ws j'), (waiting ws j); try lia.
Qed.
Definition queue_bounded (l : Life) : Prop := forall ws, (waiting_count ws (l_jobs l) <= MAX_QUEUED_JOBS_PER_WORKSPACE)%N.
Lemma queue_bounded_step l l' : queue_bounded l -> LifeStep l l' -> queue_bounded l'.
Proof.
  intros Hb Hstep ws. specialize (Hb ws).
  destruct Hstep as [i ws' Hi Hq|i j run ty Hj Hs Hn Hr|i j target Hj Ha _|i r target Hr Ha|i r ty Hr _|i run r _ Hr|i run r f t _ _ Hr _|run];
    try done; cbn [l_jobs log put_job put_run].
  - rewrite waiting_count_insert by done. unfold waiting at 1. cbn. destruct (ws' =? ws)%N eqn:He; cbn; [|lia].
    apply N.eqb_eq in He as ->. rewrite bool_decide_eq_true_2 by done. lia.
  - etrans; [|exact Hb]. eapply waiting_count_update; [done|]. unfold waiting. cbn. by rewrite andb_false_r.
  - etrans; [|exact Hb]. eapply waiting_count_update; [done|]. unfold waiting. cbn.
    rewrite (bool_decide_eq_false_2 (target = Queued)) by (by eapply allowed_job_not_queued). by rewrite andb_false_r.
Qed.
Lemma queue_bounded_steps l l' : rtc LifeStep l l' -> queue_bounded l -> queue_bounded l'.
Proof. induction 1 as [|l l1 l2 Hs _ IH]; [done|]. eauto using queue_bounded_step. Qed.
