(* ===== verification/Refines.v ===== *)
(** * The operations on jobs refine the abstract lifecycle

    [life] forgets everything of the tables but the states, the links and the
    log; every operation that succeeds is a sequence of moves of [Life]. *)

From S2P Require Import Prelude Text Secrets Logical Nodes Schedule Automation Hex Canonical Operations Jobs Submissions Outputs Lifecycle Reports Life.

(** ** The abstraction *)

Definition job_life (r : JobRow) : JobLife :=
  mkJobLife (j_workspace_id (job_columns r)) (j_state r) (j_run_id r)
    (bool_decide (is_Some (j_failure_json r))) (bool_decide (is_Some (j_finished_at r))).
(** A typed run has the kind of its operation. *)
Definition typed_operation (c : OperationColumns) : bool := bool_decide (is_Some (oc_kind c)).
Definition run_life (r : RunRow) : RunLife :=
  mkRunLife (r_job_id (run_columns r)) (r_state r) (bool_decide (is_Some (r_failure_json r)))
    (bool_decide (is_Some (r_finished_at r))) (typed_operation (r_operation (run_columns r))).
Definition entry_of (e : EventRow) : Entry := mkEntry (ev_stream_kind e) (ev_stream_id e) (ev_sequence e) (ev_event_type e).
Definition artifact_life (a : ArtifactRow) : Uuid * ArtifactRefState := (a_run_id a, a_state a).
Definition life (t : Tables) : Life :=
  mkLife (job_life <$> cp_jobs t) (run_life <$> cp_runs t) (entry_of <$> cp_events t) (artifact_life <$> cp_artifact_refs t).

Lemma log_of_life kind id t : log_of kind id (life t) = entry_of <$> stream t kind id.
Proof.
  unfold log_of, stream. cbn [life l_log]. induction (cp_events t) as [|e l IH]; [done|].
  rewrite fmap_cons, !filter_cons, IH. destruct (decide (on_stream kind id (entry_of e))) as [Ho|Ho].
  - by rewrite decide_True.
  - by rewrite decide_False.
Qed.
Lemma last_sequence_life kind id t : last_sequence (stream t kind id) = top (log_of kind id (life t)).
Proof. rewrite log_of_life. unfold last_sequence, top. induction (stream t kind id) as [|e l IH]; cbn; [done|]. by rewrite IH. Qed.

(** ** Statements one by one *)

Ltac inv_ok H :=
  repeat match type of H with
  | (_ ≫= _) = Ok _ => let x := fresh "x" in let Hx := fresh "Hx" in apply bind_Ok in H as (x & Hx & H)
  | (if ?b then Err _ else _) = Ok _ => let Hb := fresh "Hb" in destruct b eqn:Hb; [discriminate H|]
  | (let '(_, _) := ?p in _) = Ok _ => destruct p
  | context [let '(_, _) := ?p in _] => destruct p
  end.
Ltac bools := rewrite ?orb_false_iff, ?negb_false_iff, ?andb_true_iff, ?bool_decide_eq_true, ?bool_decide_eq_false, ?N.eqb_eq in *.

Section statements.
Context `{JobCodec} `{StoreFiles}.

Lemma job_raw_Ok t id row plan : job_raw t id = Ok (row, plan) -> cp_jobs t !! id = Some row.
Proof. unfold job_raw. intros Hr. by repeat case_match; simplify_eq. Qed.
Lemma job_raw_fst t id x : job_raw t id = Ok x -> cp_jobs t !! id = Some x.1.
Proof. destruct x. apply job_raw_Ok. Qed.
Lemma run_raw_Ok t id row : run_raw t id = Ok row -> cp_runs t !! id = Some row.
Proof. apply ok_or_Ok. Qed.

Lemma append_life t e t' :
  append_event_tx t e = Ok t' ->
  life t' = log (ed_stream_kind e) (ed_stream_id e) (ed_event_type e) (life t) /\
  exists row, t' = set_events (cp_events t ++ [row]) t.
Proof.
  unfold append_event_tx. intros Ha. inv_ok Ha. injection Ha as <-. split; [|by eexists].
  unfold life, log. cbn. rewrite fmap_app. cbn. unfold entry_of at 2. cbn. by rewrite last_sequence_life.
Qed.
Lemma append_run t e t' :
  append_event_tx t e = Ok t' -> ed_stream_kind e = RunStream ->
  exists run, cp_runs t !! ed_stream_id e = Some run /\ event_type_is_run (ed_event_type e) = true.
Proof.
  unfold append_event_tx. intros Ha Hk. inv_ok Ha. rewrite Hk in *. 
  match goal with Hx : (_ ≫= _) = Ok _ |- _ => inv_ok Hx end.
  bools. destruct_and?. match goal with Hx : run_raw _ _ = Ok _ |- _ => apply run_raw_Ok in Hx end.
  eexists. split; [|done]. by subst.
Qed.

Lemma alter_lookup {A} (f : A -> A) (m : gmap Uuid A) id x : m !! id = Some x -> alter f id m = <[id := f x]> m.
Proof.
  intros Hx. apply map_eq. intros i. destruct (decide (id = i)) as [->|Hne].
  - by rewrite lookup_alter_eq, Hx, lookup_insert_eq.
  - by rewrite lookup_alter_ne, lookup_insert_ne.
Qed.
Lemma update_job_life f id t row :
  cp_jobs t !! id = Some row -> life (update_job f id t) = put_job id (job_life (f row)) (life t).
Proof. intros Hr. unfold life, put_job, update_job. cbn. by rewrite (alter_lookup f _ _ _ Hr), fmap_insert. Qed.
Lemma update_run_life f id t row :
  cp_runs t !! id = Some row -> life (update_run f id t) = put_run id (run_life (f row)) (life t).
Proof. intros Hr. unfold life, put_run, update_run. cbn. by rewrite (alter_lookup f _ _ _ Hr), fmap_insert. Qed.
Lemma life_job_lookup t id row : cp_jobs t !! id = Some row -> l_jobs (life t) !! id = Some (job_life row).
Proof. intros Hr. apply lookup_fmap_Some. eauto. Qed.
Lemma life_run_lookup t id row : cp_runs t !! id = Some row -> l_runs (life t) !! id = Some (run_life row).
Proof. intros Hr. apply lookup_fmap_Some. eauto. Qed.

Lemma life_run_None t id : cp_runs t !! id = None -> l_runs (life t) !! id = None.
Proof. intros Hr. pose proof (lookup_fmap run_life (cp_runs t) id) as Hl. rewrite Hr in Hl. exact Hl. Qed.
Lemma life_job_None t id : cp_jobs t !! id = None -> l_jobs (life t) !! id = None.
Proof. intros Hr. pose proof (lookup_fmap job_life (cp_jobs t) id) as Hl. rewrite Hr in Hl. exact Hl. Qed.

Lemma transition_job_tx_Ok t id expected target at_ t' :
  transition_job_state_tx t id expected target at_ = Ok t' ->
  exists row, cp_jobs t !! id = Some row /\ j_state row = expected /\ t' = update_job (job_set_state target at_) id t.
Proof. unfold transition_job_state_tx. intros Ht. repeat case_match; simplify_eq. bools. eauto. Qed.
Lemma transition_run_tx_Ok t id expected target at_ t' :
  transition_run_state_tx t id expected target at_ = Ok t' ->
  exists row, cp_runs t !! id = Some row /\ r_state row = expected /\ t' = update_run (run_set_state target at_) id t.
Proof. unfold transition_run_state_tx. intros Ht. repeat case_match; simplify_eq. bools. eauto. Qed.

Lemma failure_json_Some failure j : failure_json failure = Ok j -> bool_decide (is_Some j) = bool_decide (is_Some failure).
Proof.
  unfold failure_json, transposed. destruct failure as [f|]; [|by intros [= <-]].
  intros (text & _ & <-)%fmap_Ok. done.
Qed.
Lemma validate_failure_Ok b failure u : validate_failure_for_target b failure = Ok u -> bool_decide (is_Some failure) = b.
Proof. unfold validate_failure_for_target. intros Hv. inv_ok Hv. bools. by apply eqb_prop in Hb. Qed.
Lemma validate_state_event_Ok e kind sid jid rid ty u :
  validate_state_event e kind sid jid rid ty = Ok u ->
  ed_stream_kind e = kind /\ ed_stream_id e = sid /\ ed_event_type e = ty /\ ed_job_id e = jid /\ ed_run_id e = rid.
Proof. unfold validate_state_event. intros Hv. inv_ok Hv. bools. by destruct_and?. Qed.
Lemma event_is_true e kind ty sid jid rid :
  event_is e kind ty sid jid rid = true ->
  ed_stream_kind e = kind /\ ed_stream_id e = sid /\ ed_event_type e = ty /\ ed_job_id e = jid /\ ed_run_id e = rid.
Proof. unfold event_is. bools. naive_solver. Qed.
End statements.

(** ** Operations *)

Section operations.
Context `{JobCodec} `{StoreFiles}.

(** The rows of a moved job and a moved run. *)
Lemma job_outcome_moved target at_ failure text row u :
  validate_failure_for_target (job_is_terminal target && bool_decide (target = Failed)) failure = Ok u ->
  failure_json failure = Ok text ->
  job_life (job_set_outcome target (finished_when (job_is_terminal target) at_) text row) = job_moved target (job_life row).
Proof.
  intros Hf%validate_failure_Ok Hj%failure_json_Some. unfold job_life, job_set_outcome, job_moved. cbn. f_equal.
  - rewrite Hj, Hf. by destruct target.
  - by destruct target.
Qed.
Lemma job_set_moved target at_ text row :
  job_is_terminal target = true -> bool_decide (is_Some text) = bool_decide (target = Failed) ->
  job_life (job_set_failure text (job_set_state target (Some at_) row)) = job_moved target (job_life row).
Proof. intros Ht Hf. unfold job_life, job_moved. cbn. by rewrite Hf, Ht. Qed.
Lemma run_set_moved target at_ text row :
  run_is_terminal target = true -> bool_decide (is_Some text) = bool_decide (target = RFailed) ->
  run_life (run_set_failure text (run_set_state target (Some at_) row)) = run_moved target (run_life row).
Proof. intros Ht Hf. unfold run_life, run_moved. cbn. by rewrite Hf, Ht. Qed.

Lemma validate_terminal_ends_well t id row target u :
  validate_job_terminal_run t id row (j_state row) target = Ok u -> ends_well (life t) (job_life row) target.
Proof.
  unfold validate_job_terminal_run, ends_well. intros Hv Ht. rewrite Ht in Hv. cbn in Hv |- *.
  destruct (j_run_id row) as [run_id|].
  - inv_ok Hv. apply run_raw_Ok, life_run_lookup in Hx. exists (run_life x). split; [done|].
    destruct target; try done; inv_ok Hv; bools; cbn; by rewrite Hb0.
  - destruct (j_state row), target; try done; auto.
Qed.

Lemma transition_job_refines t id target e failure t' r :
  transition_job t id target e failure = Ok (t', r) -> rtc LifeStep (life t) (life t').
Proof.
  unfold transition_job. intros Ht. inv_ok Ht. injection Ht as <- _.
  apply job_raw_fst in Hx. bools. apply validate_state_event_Ok in Hx1 as (Hk & Hs & Hty & _).
  apply append_life in Hx4 as [-> _]. rewrite Hk, Hs, Hty, (update_job_life _ _ _ _ Hx).
  rewrite (job_outcome_moved _ _ _ _ _ _ Hx0 Hx3). apply rtc_once. apply life_job; [by apply life_job_lookup|done|].
  by eapply validate_terminal_ends_well.
Qed.

Lemma update_run_twice f g id t : update_run g id (update_run f id t) = update_run (g ∘ f) id t.
Proof. unfold update_run. cbn. unfold set_runs. cbn. by rewrite alter_alter_eq. Qed.
Lemma update_job_twice f g id t : update_job g id (update_job f id t) = update_job (g ∘ f) id t.
Proof. unfold update_job. cbn. unfold set_jobs. cbn. by rewrite alter_alter_eq. Qed.

(** A row that has not ended has no outcome yet. *)
Lemma open_job_flags t id row :
  LifeOk (life t) -> cp_jobs t !! id = Some row -> job_is_terminal (j_state row) = false ->
  bool_decide (is_Some (j_failure_json row)) = false /\ bool_decide (is_Some (j_finished_at row)) = false.
Proof.
  intros Hok Hrow Ht. destruct (life_jobs _ Hok _ _ (life_job_lookup _ _ _ Hrow)) as [_ _ _ _ Hf Hfin]. cbn in Hf, Hfin.
  rewrite Hf, Hfin, Ht. by destruct (j_state row).
Qed.
Lemma open_run_flags t id row :
  LifeOk (life t) -> cp_runs t !! id = Some row -> run_is_terminal (r_state row) = false ->
  bool_decide (is_Some (r_failure_json row)) = false /\ bool_decide (is_Some (r_finished_at row)) = false.
Proof.
  intros Hok Hrow Ht. destruct (life_runs _ Hok _ _ (life_run_lookup _ _ _ Hrow)) as [_ _ Hf Hfin]. cbn in Hf, Hfin.
  rewrite Hf, Hfin, Ht. by destruct (r_state row).
Qed.
Lemma job_cancelling_moved t id row :
  LifeOk (life t) -> cp_jobs t !! id = Some row -> job_is_terminal (j_state row) = false ->
  job_life (job_set_state Cancelling None row) = job_moved Cancelling (job_life row).
Proof.
  intros Hok Hrow Ht. destruct (open_job_flags _ _ _ Hok Hrow Ht) as [Hf Hfin].
  unfold job_life, job_moved. cbn. by rewrite Hf, Hfin.
Qed.

Lemma transition_run_refines t id target e failure t' r :
  LifeOk (life t) -> transition_run t id target e failure = Ok (t', r) -> rtc LifeStep (life t) (life t').
Proof.
  unfold transition_run. intros Hok Ht. inv_ok Ht. injection Ht as <- _. apply run_raw_Ok in Hx. bools.
  apply validate_state_event_Ok in Hx1 as (Hk & Hs & Hty & _).
  apply transition_run_tx_Ok in Hx3 as (row & Hrow & Hst & ->). assert (row = x) as -> by congruence.
  apply append_life in Hx4 as [-> _]. rewrite Hk, Hs, Hty, update_run_twice, (update_run_life _ _ _ _ Hx).
  apply rtc_once. replace (run_life _) with (run_moved target (run_life x)); [by apply life_run; [apply life_run_lookup|]|].
  apply validate_failure_Ok in Hx0. apply failure_json_Some in Hx2.
  destruct (open_run_flags _ _ _ Hok Hx (allowed_run_open _ _ Hb)) as [_ Hfin].
  unfold run_life, run_moved. cbn. f_equal; [rewrite Hx2, Hx0; by destruct target|]. by destruct target.
Qed.

Lemma set_run_life id row t : life (set_runs (<[id := row]> (cp_runs t)) t) = put_run id (run_life row) (life t).
Proof. unfold life, put_run. cbn. by rewrite fmap_insert. Qed.
Lemma job_claimed_life at_ run row :
  bool_decide (is_Some (j_failure_json row)) = false -> bool_decide (is_Some (j_finished_at row)) = false ->
  job_life (job_set_claimed at_ run row) = mkJobLife (jl_workspace (job_life row)) Running (Some run) false false.
Proof. intros Hf Hfin. unfold job_life. cbn. by rewrite Hf, Hfin. Qed.

Lemma claim_refines t id run at_ v build je re t' r :
  LifeOk (life t) -> claim_job t id run at_ v build je re = Ok (t', r) -> rtc LifeStep (life t) (life t').
Proof.
  unfold claim_job. intros Hok Ht. inv_ok Ht. injection Ht as <- _. apply job_raw_fst in Hx1. bools.
  apply event_is_true in Hb3 as (Hk1 & Hs1 & Ht1 & _), Hb4 as (Hk2 & Hs2 & Ht2 & _).
  unfold may_insert_run in Hb6. rewrite !andb_true_iff, negb_true_iff, bool_decide_eq_false in Hb6.
  destruct Hb6 as ((((Hnone & _) & _) & _) & _). apply eq_None_not_Some in Hnone.
  apply append_life in Hx5 as [Hl1 _], Hx6 as [Hl2 _]. rewrite Hl2, Hl1, Hk1, Hk2, Hs1, Hs2, Ht1, Ht2.
  erewrite update_job_life by exact Hx1. rewrite set_run_life.
  destruct (open_job_flags _ _ _ Hok Hx1 ltac:(by rewrite Hb1)) as [Hf Hfin].
  rewrite (job_claimed_life _ _ _ Hf Hfin). apply rtc_once.
  apply (life_claim (life t) id (job_life x1.1) run (typed_operation (j_operation (job_columns x1.1)))).
  - by apply life_job_lookup.
  - done.
  - cbn. by apply eq_None_not_Some.
  - by apply life_run_None.
Qed.

Lemma queued_alone t id row : LifeOk (life t) -> cp_jobs t !! id = Some row -> j_state row = Queued -> j_run_id row = None.
Proof.
  intros Hok Hrow Hq. exact (job_queued_alone _ _ _ (life_jobs _ Hok _ _ (life_job_lookup _ _ _ Hrow)) Hq).
Qed.

Lemma cancel_queued_refines t id e1 e2 t' r :
  LifeOk (life t) -> cancel_queued_job t id e1 e2 = Ok (t', r) -> rtc LifeStep (life t) (life t').
Proof.
  unfold cancel_queued_job. intros Hok Ht. inv_ok Ht. injection Ht as <- _. apply job_raw_fst in Hx. bools.
  apply validate_state_event_Ok in Hx0 as (Hk1 & Hs1 & Ht1 & _), Hx1 as (Hk2 & Hs2 & Ht2 & _).
  apply transition_job_tx_Ok in Hx2 as (row & Hrow & _ & ->). assert (row = x.1) as -> by congruence.
  apply append_life in Hx3 as [Hl1 [row1 Hset1]].
  apply transition_job_tx_Ok in Hx4 as (row2 & Hrow2 & _ & ->). apply append_life in Hx5 as [Hl2 _].
  assert (job_is_terminal (j_state x.1) = false) as Hopen by (by rewrite Hb).
  assert (row2 = job_set_state Cancelling None x.1) as ->.
  { rewrite Hset1 in Hrow2. cbn in Hrow2. rewrite (alter_lookup _ _ _ _ Hx), lookup_insert_eq in Hrow2. congruence. }
  rewrite Hl2, (update_job_life _ _ _ _ Hrow2), Hl1, (update_job_life _ _ _ _ Hx), Hk1, Hk2, Hs1, Hs2, Ht1, Ht2.
  rewrite (job_cancelling_moved _ _ _ Hok Hx Hopen).
  eapply rtc_l; [apply (life_job _ id (job_life x.1) Cancelling); [by apply life_job_lookup|cbn; by rewrite Hb|done]|].
  apply rtc_once. destruct (open_job_flags _ _ _ Hok Hx Hopen) as [Hf Hfin].
  replace (job_life (job_set_state Cancelled _ _)) with (job_moved Cancelled (job_moved Cancelling (job_life x.1)))
    by (unfold job_life, job_moved; cbn; by rewrite Hf).
  apply life_job; [by cbn; rewrite lookup_insert_eq|done|]. intros _. cbn. rewrite (queued_alone _ _ _ Hok Hx Hb). auto.
Qed.

Lemma cancel_running_refines t id e1 e2 t' r :
  LifeOk (life t) -> cancel_running_job t id e1 e2 = Ok (t', r) -> rtc LifeStep (life t) (life t').
Proof.
  unfold cancel_running_job. intros Hok Ht. inv_ok Ht. injection Ht as <- _. apply job_raw_fst in Hx. bools.
  destruct Hb0 as [Hrun Hjob]. apply ok_or_Ok in Hx0. apply run_raw_Ok in Hx1.
  apply validate_state_event_Ok in Hx2 as (Hk1 & Hs1 & Ht1 & _), Hx3 as (Hk2 & Hs2 & Ht2 & _).
  apply transition_job_tx_Ok in Hx5 as (row & Hrow & _ & ->). assert (row = x.1) as -> by congruence.
  apply transition_run_tx_Ok in Hx6 as (row & Hrow2 & _ & ->). cbn in Hrow2. assert (row = x1) as -> by congruence.
  apply append_life in Hx7 as [Hl1 _], Hx8 as [Hl2 _].
  assert (job_is_terminal (j_state x.1) = false) as Hopen by (by rewrite Hb).
  assert (run_is_terminal (r_state x1) = false) as Hropen by (by rewrite Hrun).
  rewrite Hl2, Hl1, Hk1, Hk2, Hs1, Hs2, Ht1, Ht2.
  erewrite update_run_life by exact Hrow2. rewrite (update_job_life _ _ _ _ Hx), (job_cancelling_moved _ _ _ Hok Hx Hopen).
  eapply rtc_l; [apply (life_job _ id (job_life x.1) Cancelling); [by apply life_job_lookup|cbn; by rewrite Hb|done]|].
  apply rtc_once. destruct (open_run_flags _ _ _ Hok Hx1 Hropen) as [Hf Hfin].
  replace (run_life (run_set_state RCancelling None x1)) with (run_moved RCancelling (run_life x1))
    by (unfold run_life, run_moved; cbn; by rewrite Hf, Hfin).
  apply (life_run (log JobStream id JobCancelling (put_job id (job_moved Cancelling (job_life x.1)) (life t))) x0 (run_life x1) RCancelling).
  - by apply life_run_lookup.
  - cbn. by rewrite Hrun.
Qed.

Lemma set_job_life id row t : life (set_jobs (<[id := row]> (cp_jobs t)) t) = put_job id (job_life row) (life t).
Proof. unfold life, put_job. cbn. by rewrite fmap_insert. Qed.

Lemma queued_life_list ws (l : list (Uuid * JobRow)) :
  length (filter (fun e => queued_in ws e.2) l) = length (filter (fun e => waiting ws e.2) (prod_map Datatypes.id job_life <$> l)).
Proof.
  induction l as [|[i r] l IH]; [done|]. rewrite fmap_cons, !filter_cons.
  change (waiting ws (prod_map Datatypes.id job_life (i, r)).2) with (queued_in ws r).
  cbn [snd]. destruct (queued_in ws r); [rewrite !decide_True by done|rewrite !decide_False by auto]; cbn [length]; by rewrite IH.
Qed.
Lemma count_queued_life t ws : count_queued t ws = waiting_count ws (l_jobs (life t)).
Proof. unfold count_queued, waiting_count, len. cbn [life l_jobs]. rewrite map_to_list_fmap. f_equal. apply queued_life_list. Qed.
Lemma submit_refines t s t' o : submit_job t s = Ok (t', o) -> rtc LifeStep (life t) (life t').
Proof.
  unfold submit_job. intros Ht. apply bind_Ok in Ht as (u & _ & Ht). apply bind_Ok in Ht as (b & _ & Ht).
  destruct (cp_idempotency_keys t !! _); [inv_ok Ht; by injection Ht as <- _|]. inv_ok Ht. injection Ht as <- _. bools.
  match goal with Hx : append_event_tx _ _ = Ok _ |- _ => apply append_life in Hx as [-> _] end.
  apply rtc_once. apply eq_None_not_Some in Hb0.
  change (life (set_keys ?k ?t)) with (life t). rewrite set_job_life.
  apply (life_submit (life t) (js_job_id b) (js_workspace_id b)); [by apply life_job_None|].
  rewrite <- count_queued_life. by apply N.leb_gt.
Qed.

Lemma fail_corrupt_refines now eid t id t' :
  LifeOk (life t) -> fail_corrupt_queued_job now eid t id = Ok t' -> rtc LifeStep (life t) (life t').
Proof.
  unfold fail_corrupt_queued_job. intros Hok Ht. apply bind_Ok in Ht as (row & Hrow%ok_or_Ok & Ht).
  destruct (negb _) eqn:Hb in Ht; [by injection Ht as <-|]. bools. inv_ok Ht.
  apply transition_job_tx_Ok in Hx1 as (row' & Hrow' & _ & ->). assert (row' = row) as -> by congruence.
  apply append_life in Ht as [-> _]. rewrite update_job_twice, (update_job_life _ _ _ _ Hrow). unfold compose.
  rewrite job_set_moved; [|done|by rewrite (failure_json_Some _ _ Hx0)]. apply rtc_once.
  apply life_job; [by apply life_job_lookup|cbn; by rewrite Hb|]. intros _. cbn. rewrite (queued_alone _ _ _ Hok Hrow Hb). auto.
Qed.

(** *** Artifacts *)

Lemma alter_same {A B} (g : A -> B) (f : A -> A) id (m : gmap Uuid A) :
  (forall x, g (f x) = g x) -> g <$> alter f id m = g <$> m.
Proof.
  intros Hs. apply map_eq. intros i. rewrite !lookup_fmap. destruct (decide (id = i)) as [->|Hne].
  - rewrite lookup_alter_eq. destruct (m !! i); cbn; [by rewrite Hs|done].
  - by rewrite lookup_alter_ne.
Qed.
Lemma update_run_same f id t : (forall r, run_life (f r) = run_life r) -> life (update_run f id t) = life t.
Proof. intros Hs. unfold life, update_run. cbn. by rewrite alter_same. Qed.
Lemma update_job_same f id t : (forall r, job_life (f r) = job_life r) -> life (update_job f id t) = life t.
Proof. intros Hs. unfold life, update_job. cbn. by rewrite alter_same. Qed.
Lemma update_ref_life f id t a :
  cp_artifact_refs t !! id = Some a -> life (update_ref f id t) = put_artifact id (artifact_life (f a)) (life t).
Proof. intros Ha. unfold life, put_artifact, update_ref. cbn. by rewrite (alter_lookup f _ _ _ Ha), fmap_insert. Qed.
Lemma update_body_life f id t : life (update_body f id t) = life t.
Proof. done. Qed.
Lemma life_artifact_lookup t id a : cp_artifact_refs t !! id = Some a -> l_artifacts (life t) !! id = Some (a_run_id a, a_state a).
Proof. intros Ha. apply lookup_fmap_Some. exists a. done. Qed.
Lemma parse_operation_None c : parse_operation c = Ok None -> typed_operation c = false.
Proof.
  destruct c as [k v j d]. unfold parse_operation. cbn. destruct k, v, j, d; try done. intros Hp. inv_ok Hp. discriminate Hp.
Qed.
Lemma append_job_kind t e t' :
  append_event_tx t e = Ok t' -> ed_stream_kind e = JobStream -> event_type_is_job (ed_event_type e) = true.
Proof.
  unfold append_event_tx. intros Ha Hk. inv_ok Ha. rewrite Hk in *.
  match goal with Hx : (if _ then Err _ else Ok tt) = Ok _ |- _ => inv_ok Hx end. bools. by destruct_and?.
Qed.

Lemma append_event_refines t e t' r : append_event t e = Ok (t', r) -> rtc LifeStep (life t) (life t').
Proof.
  unfold append_event. intros Ha. inv_ok Ha. injection Ha as <- _. bools. pose proof (append_life _ _ _ Hx) as [-> _].
  destruct (ed_stream_kind e) eqn:Hk; [apply append_job_kind in Hx; [by rewrite Hb in Hx|done]|].
  destruct (append_run _ _ _ Hx Hk) as (run & Hrun & _). apply rtc_once. rewrite Hb.
  eapply life_note; [by apply life_run_lookup|done].
Qed.
Lemma set_refs_refines t run s b t' r : set_run_output_refs t run s b = Ok (t', r) -> life t' = life t.
Proof. unfold set_run_output_refs. intros Ha. inv_ok Ha. injection Ha as <- _. by apply update_run_same. Qed.

Lemma stage_life id row bodies t :
  life (set_artifacts (<[id := row]> (cp_artifact_refs t)) bodies t) = put_artifact id (artifact_life row) (life t).
Proof. unfold life, put_artifact. cbn. by rewrite fmap_insert. Qed.
Lemma create_artifact_refines t ws run id kind ek eid d m at_ body t' r :
  create_artifact_ref_inner t ws run id kind ek eid d m at_ body = Ok (t', r) -> rtc LifeStep (life t) (life t').
Proof.
  unfold create_artifact_ref_inner. intros Ha. inv_ok Ha. injection Ha as <- _. apply run_raw_Ok in Hx4. bools.
  apply rtc_once. apply eq_None_not_Some in Hb1.
  rewrite stage_life. eapply life_stage; [|by apply life_run_lookup].
  pose proof (lookup_fmap artifact_life (cp_artifact_refs t) id) as Hl. rewrite Hb1 in Hl. exact Hl.
Qed.

Lemma transition_artifact_refines t id target e t' r :
  transition_artifact_ref t id target e = Ok (t', r) -> rtc LifeStep (life t) (life t').
Proof.
  unfold transition_artifact_ref. intros Ha. inv_ok Ha. injection Ha as <- _. apply ok_or_Ok in Hx. apply run_raw_Ok in Hx0.
  bools. apply event_is_true in Hb3 as (Hk & Hs & Hty & _). apply append_life in Hx3 as [-> _]. rewrite Hk, Hs, Hty.
  match goal with |- rtc _ _ (log _ _ _ (life ?u)) => set (t1 := u) end.
  assert (life t1 = put_artifact id (a_run_id x, target) (life t)) as ->.
  { subst t1. rewrite <- (update_ref_life
      (ref_set_state target (if bool_decide (target = Committed) then Some (ed_occurred_at e) else None)
         (if bool_decide (target = Tombstoned) then Some (ed_occurred_at e) else None)) _ _ _ Hx
      : _ = put_artifact id (a_run_id x, target) (life t)).
    destruct target; try done; by destruct (body_in_state _ _ _). }
  eapply rtc_l.
  - apply (life_artifact _ id (a_run_id x) (run_life x0) (a_state x) target); [by apply life_artifact_lookup|done|by apply life_run_lookup|].
    intros ->. rewrite bool_decide_eq_true_2 in Hx1 by done. apply bind_Ok in Hx1 as (o & Ho & Hx1).
    destruct o as [o|]; [done|]. apply parse_operation_None in Ho. intros Htyped. cbn in Htyped. by rewrite Ho in Htyped.
  - apply rtc_once. eapply life_note; [by apply life_run_lookup|].
    destruct target; try discriminate Hx2; by injection Hx2 as <-.
Qed.

Lemma fail_artifact_refines t id t' r :
  LifeOk (life t) -> fail_artifact_ref t id = Ok (t', r) -> rtc LifeStep (life t) (life t').
Proof.
  unfold fail_artifact_ref. intros Hok Ha. inv_ok Ha. injection Ha as <- _. apply ok_or_Ok in Hx. bools.
  destruct (life_artifacts _ Hok _ _ _ (life_artifact_lookup _ _ _ Hx)) as (run & Hrun & _).
  match goal with |- rtc _ _ (life ?u) => assert (life u = put_artifact id (a_run_id x, AFailed) (life t)) as -> end.
  - rewrite <- (update_ref_life (ref_set_state AFailed None None) _ _ _ Hx : _ = put_artifact id (a_run_id x, AFailed) (life t)).
    by destruct (body_in_state _ _ _).
  - apply rtc_once. eapply life_artifact; [by apply life_artifact_lookup|by rewrite Hb|done|done].
Qed.

(** *** Reconciliation *)

Lemma failed_refs_life run (refs : gmap Uuid ArtifactRow) :
  artifact_life <$> ((fun a => if staged_of run a then ref_set_state AFailed None None a else a) <$> refs)
  = dropped run <$> (artifact_life <$> refs).
Proof.
  rewrite <- !map_fmap_compose. apply map_fmap_ext. intros i a _. unfold compose, dropped, staged_of, artifact_life. cbn.
  by destruct (_ && _).
Qed.
Lemma fail_reconciled_life run t : life (fail_reconciled_artifacts run t) = drop_staged run (life t).
Proof. unfold life, drop_staged. cbn. by rewrite failed_refs_life. Qed.
Lemma fail_staged_life run t : life (fail_staged_artifacts run t) = drop_staged run (life t).
Proof. unfold life, drop_staged. cbn. by rewrite failed_refs_life. Qed.

Lemma reconcile_one_refines t d t' r :
  reconcile_one t d = Ok (t', r) -> rtc LifeStep (life t) (life t').
Proof.
  unfold reconcile_one. intros Ht. do 2 apply bind_Ok in Ht as (? & _ & Ht). inv_ok Ht. cbv zeta in Ht. inv_ok Ht.
  destruct (_ && _) eqn:Hterm in Ht; [by injection Ht as <- _|]. clear Hterm.
  inv_ok Ht. injection Ht as <- _. apply job_raw_fst in Hx. apply run_raw_Ok in Hx0. bools.
  destruct Hb0 as (((Hlink & Hjob) & _) & _), Hb1 as [Hja Hra].
  unfold validate_recovery_events in Hx1. inv_ok Hx1. bools. destruct Hb0 as ((He1 & _) & _).
  apply event_is_true in He1 as (Hk1 & Hs1 & Ht1 & _).
  apply validate_state_event_Ok in Hx9 as (Hk2 & Hs2 & Ht2 & _), Hx10 as (Hk3 & Hs3 & Ht3 & _).
  apply transition_run_tx_Ok in Hx3 as (row & Hrow & _ & ->). assert (row = x2) as -> by congruence.
  apply transition_job_tx_Ok in Hx4 as (row & Hrow2 & _ & ->). cbn in Hrow2. assert (row = x1.1) as -> by congruence.
  apply append_life in Hx5 as [Hl1 _], Hx6 as [Hl2 _], Hx7 as [Hl3 _].
  rewrite Hl3, Hl2, Hl1, fail_reconciled_life, update_job_twice.
  erewrite update_job_life by exact Hrow2. rewrite update_run_twice, (update_run_life _ _ _ _ Hx0).
  pose proof (failure_json_Some _ _ Hx2) as Hsome. unfold compose.
  rewrite (job_set_moved Failed), (run_set_moved RFailed); [|done..].
  rewrite Hk1, Hk2, Hk3, Hs1, Hs2, Hs3, Ht1, Ht2, Ht3.
  set (l1 := log RunStream (rd_run_id d) RunReconciled (life t)).
  set (l2 := log RunStream (rd_run_id d) RunFailed (put_run (rd_run_id d) (run_moved RFailed (run_life x2)) l1)).
  set (l3 := drop_staged (rd_run_id d) l2).
  apply (rtc_l _ _ l1); [by eapply life_note; [apply life_run_lookup|]|].
  apply (rtc_l _ _ l2); [apply (life_run l1 _ (run_life x2) RFailed); [by apply life_run_lookup|by cbn; destruct (r_state x2)]|].
  apply (rtc_l _ _ l3); [apply life_drop|]. apply rtc_once.
  apply (life_job l3 (rd_job_id d) (job_life x1.1) Failed); [by apply life_job_lookup|by cbn; destruct (j_state x1.1)|].
  intros _. cbn. rewrite Hlink, lookup_insert_eq. by eexists.
Qed.
Lemma reconcile_jobs_refines t ds t' rs : reconcile_jobs t ds = Ok (t', rs) -> rtc LifeStep (life t) (life t').
Proof.
  unfold reconcile_jobs. intros Ht. inv_ok Ht. clear Hb. revert Ht. change t with (t, @nil JobRecoveryResult).1 at 2.
  generalize (t, @nil JobRecoveryResult). intros acc Ht. revert acc Ht.
  induction ds as [|d ds IH]; intros acc Ht; cbn in Ht; [by injection Ht as ->|].
  apply bind_Ok in Ht as (s & Hs & Ht). apply bind_Ok in Hs as ([t1 r1] & Hd & [= <-]).
  apply reconcile_one_refines in Hd. etrans; [exact Hd|]. exact (IH _ Ht).
Qed.

(** *** Finishing *)

(** The moves of a finish, in an order that the moves allow: the notes of the
    commits, the run, its artifacts, and the job. *)
Definition with_artifacts (arts : gmap Uuid (Uuid * ArtifactRefState)) (l : Life) : Life :=
  mkLife (l_jobs l) (l_runs l) (l_log l) arts.
Fixpoint notes (run : Uuid) (n : nat) (l : Life) : Life :=
  match n with O => l | S n => notes run n (log RunStream run ArtifactCommitted l) end.
Definition committed_all (run : Uuid) (ids : list Uuid) (arts : gmap Uuid (Uuid * ArtifactRefState)) :=
  foldl (fun arts id => <[id := (run, Committed)]> arts) arts ids.
Fixpoint staged_in_turn (run : Uuid) (ids : list Uuid) (arts : gmap Uuid (Uuid * ArtifactRefState)) : Prop :=
  match ids with
  | [] => True
  | id :: ids => arts !! id = Some (run, Staged) /\ staged_in_turn run ids (<[id := (run, Committed)]> arts)
  end.

Lemma with_artifacts_same l : with_artifacts (l_artifacts l) l = l.
Proof. by destruct l. Qed.
Lemma notes_frame run n l :
  l_jobs (notes run n l) = l_jobs l /\ l_runs (notes run n l) = l_runs l /\ l_artifacts (notes run n l) = l_artifacts l.
Proof. revert l. induction n as [|n IH]; intros l; [done|]. apply (IH (log RunStream run ArtifactCommitted l)). Qed.
Lemma notes_with run n arts l : notes run n (with_artifacts arts l) = with_artifacts arts (notes run n l).
Proof. revert l. induction n as [|n IH]; intros l; [done|]. exact (IH (log RunStream run ArtifactCommitted l)). Qed.
Lemma notes_steps run n l r : l_runs l !! run = Some r -> rtc LifeStep l (notes run n l).
Proof.
  revert l. induction n as [|n IH]; intros l Hr; cbn; [done|].
  eapply rtc_l; [by apply (life_note l run r ArtifactCommitted)|]. by apply IH.
Qed.
Lemma commits_steps run ids l r :
  l_runs l !! run = Some r -> (rl_typed r = true -> rl_state r = RSucceeded) -> staged_in_turn run ids (l_artifacts l) ->
  rtc LifeStep l (with_artifacts (committed_all run ids (l_artifacts l)) l).
Proof.
  revert l. induction ids as [|id ids IH]; intros l Hr Ht Hs; [by rewrite (with_artifacts_same l : with_artifacts (committed_all run [] _) l = l)|].
  destruct Hs as [Hid Hs]. eapply rtc_l; [by eapply (life_artifact l id run r Staged Committed)|].
  exact (IH (put_artifact id (run, Committed) l) Hr Ht Hs).
Qed.

Lemma finish_steps l run r rt id j jt n arts :
  l_runs l !! run = Some r -> allowed_run_transition (rl_state r) rt = true ->
  l_jobs l !! id = Some j -> allowed_job_transition (jl_state j) jt = true ->
  jl_run j = Some run -> run_outcome jt = Some rt ->
  (forall l', l_runs l' !! run = Some (run_moved rt r) -> l_artifacts l' = l_artifacts l -> rtc LifeStep l' (with_artifacts arts l')) ->
  rtc LifeStep l (log JobStream id (event_type_for_job_state jt) (log RunStream run (event_type_for_run_state rt)
    (put_job id (job_moved jt j) (put_run run (run_moved rt r) (with_artifacts arts (notes run n l)))))).
Proof.
  intros Hr Har Hj Haj Hlink Hout Harts. destruct (notes_frame run n l) as (Hnj & Hnr & Hna).
  etrans; [by apply (notes_steps run n l r)|]. eapply rtc_l; [apply (life_run (notes run n l) run r rt); [by rewrite Hnr|done]|].
  etrans; [apply Harts; [by cbn; rewrite lookup_insert_eq|done]|]. apply rtc_once.
  match goal with |- LifeStep ?l1 _ => apply (life_job l1 id j jt); [by cbn; rewrite Hnj|done|] end.
  intros _. rewrite Hlink. cbn. rewrite lookup_insert_eq. by eexists.
Qed.

(** What the commits write. *)
Lemma commit_one_life run job e t o t' :
  commit_one_staged_artifact run job e t o = Ok t' ->
  l_artifacts (life t) !! ao_artifact_id o = Some (run, Staged) /\
  life t' = log RunStream run ArtifactCommitted (put_artifact (ao_artifact_id o) (run, Committed) (life t)).
Proof.
  unfold commit_one_staged_artifact. intros Hc. destruct (cp_artifact_refs t !! _) as [row|] eqn:Hrow; [|done].
  destruct (negb (staged_of run row)) eqn:Hst; [done|]. unfold staged_of in Hst. bools. destruct Hst as [Hrun Hst].
  set (at_ := Some (ed_occurred_at e)) in Hc.
  pose proof (update_ref_life (ref_set_state Committed at_ None) _ _ _ Hrow) as Hl. cbn zeta in Hc.
  split; [rewrite (life_artifact_lookup _ _ _ Hrow); by rewrite Hrun, Hst|].
  replace (artifact_life _) with (run, Committed) in Hl by (unfold artifact_life; cbn; by rewrite Hrun). rewrite <- Hl.
  clear Hl. match type of Hc with context [update_body ?f ?id (update_ref _ _ _)] => set (g := f) in Hc end.
  repeat case_match; try done; apply append_life in Hc as [-> _]; done.
Qed.
Lemma commit_all_life run job e os t t' :
  fold_result (commit_one_staged_artifact run job e) t os = Ok t' ->
  staged_in_turn run (ao_artifact_id <$> os) (l_artifacts (life t)) /\
  life t' = with_artifacts (committed_all run (ao_artifact_id <$> os) (l_artifacts (life t))) (notes run (length os) (life t)).
Proof.
  revert t. induction os as [|o os IH]; intros t Hc; cbn in Hc.
  - injection Hc as <-. split; [done|]. exact (eq_sym (with_artifacts_same (life t))).
  - apply bind_Ok in Hc as (t1 & Hone & Hc). apply commit_one_life in Hone as [Hst Hl].
    apply IH in Hc as [Hturn ->]. rewrite Hl in *. split; [done|].
    exact (f_equal (with_artifacts _) (notes_with run (length os) (<[ao_artifact_id o := (run, Committed)]> (l_artifacts (life t)))
             (log RunStream run ArtifactCommitted (life t)))).
Qed.

Lemma insert_comparison_life d t t' : insert_comparison d t = Ok t' -> life t' = life t.
Proof. unfold insert_comparison. intros Hi. inv_ok Hi. by injection Hi as <-. Qed.
Lemma commit_drift_life t d e job t' : commit_drift_report_tx t d e job = Ok t' -> life t' = life t.
Proof.
  unfold commit_drift_report_tx. intros Hd. cbv zeta in Hd. inv_ok Hd. injection Hd as <-.
  by match goal with Hx : insert_comparison _ _ = Ok _ |- _ => apply insert_comparison_life in Hx end.
Qed.
Lemma publish_drift_life t run job op outs d e t' : publish_drift_report t run job op outs d e = Ok t' -> life t' = life t.
Proof.
  unfold publish_drift_report. intros Hp. cbv zeta in Hp. inv_ok Hp. by eapply commit_drift_life.
Qed.
Lemma typed_outputs_life t run r job j rt outs d e refs t' refs' text :
  typed_outputs t run r job j rt outs d e refs = Ok (t', refs', text) -> life t' = life t.
Proof.
  unfold typed_outputs. intros Ht. inv_ok Ht. injection Ht as -> _. case_match.
  - inv_ok Hx2. injection Hx2 as <- _. destruct d; [by eapply publish_drift_life|by simplify_eq].
  - inv_ok Hx2. by injection Hx2 as <- _.
Qed.

(** The outputs touch the lifecycle through artifacts only. *)
Lemma publish_outputs_life t run job rt s b typed e t' r :
  publish_outputs t run job rt s b typed e = Ok t' ->
  exists n arts, life t' = with_artifacts arts (notes run n (life t)) /\
    forall l', l_runs l' !! run = Some (run_moved rt r) -> l_artifacts l' = l_artifacts (life t) ->
      rtc LifeStep l' (with_artifacts arts l').
Proof.
  unfold publish_outputs. intros Hp. destruct typed as [[outs text]|].
  - set (t1 := update_job _ _ _) in Hp. assert (life t1 = life t) as Heq
      by (subst t1; rewrite update_job_same by done; by apply update_run_same).
    destruct (bool_decide (rt = RSucceeded)) eqn:Hrt.
    + bools. subst rt. apply commit_all_life in Hp as [Hturn ->]. rewrite Heq in *. eexists _, _. split; [done|].
      intros l' Hr Ha. rewrite <- Ha in *. by eapply commits_steps.
    + injection Hp as <-. exists 0%nat, (dropped run <$> l_artifacts (life t)).
      rewrite fail_staged_life, Heq. split; [done|]. intros l' _ <-. apply rtc_once, life_drop.
  - exists 0%nat, (l_artifacts (life t)). split.
    + cbn [notes]. rewrite with_artifacts_same. case_match; injection Hp as <-; [by apply update_run_same|done].
    + intros l' _ <-. by rewrite with_artifacts_same.
Qed.

Lemma targets_agree_outcome rt jt : job_is_terminal jt = true -> targets_agree rt jt = true -> run_outcome jt = Some rt.
Proof. by destruct rt, jt. Qed.
(** The last statements of a finish, on rows whose lifecycle is known. *)
Lemma finish_writes t run r rt id j jt text at1 at2 re je s1 s2 t1 t2 t3 t4 :
  l_runs (life t) !! run = Some r -> l_jobs (life t) !! id = Some j ->
  run_is_terminal rt = true -> job_is_terminal jt = true ->
  bool_decide (is_Some text) = bool_decide (rt = RFailed) -> bool_decide (rt = RFailed) = bool_decide (jt = Failed) ->
  transition_run_state_tx t run s1 rt (Some at1) = Ok t1 ->
  transition_job_state_tx (update_run (run_set_failure text) run t1) id s2 jt (Some at2) = Ok t2 ->
  append_event_tx (update_job (job_set_failure text) id t2) re = Ok t3 -> append_event_tx t3 je = Ok t4 ->
  life t4 = log (ed_stream_kind je) (ed_stream_id je) (ed_event_type je) (log (ed_stream_kind re) (ed_stream_id re) (ed_event_type re)
    (put_job id (job_moved jt j) (put_run run (run_moved rt r) (life t)))).
Proof.
  intros Hr Hj Hrt Hjt Hf Heq (row & Hrow & _ & ->)%transition_run_tx_Ok (row2 & Hrow2 & _ & ->)%transition_job_tx_Ok [Hl3 _]%append_life [-> _]%append_life.
  rewrite Hl3, update_job_twice. erewrite update_job_life by exact Hrow2. rewrite update_run_twice, (update_run_life _ _ _ _ Hrow).
  cbn in Hrow2. apply life_run_lookup in Hrow. rewrite Hr in Hrow. injection Hrow as ->.
  apply life_job_lookup in Hrow2. rewrite Hj in Hrow2. injection Hrow2 as ->. unfold compose.
  rewrite job_set_moved, run_set_moved by congruence. done.
Qed.
Lemma finish_inner_refines t run rt jt s b outs drift re je failure t' r :
  LifeOk (life t) -> finish_inner t run rt jt s b outs drift re je failure = Ok (t', r) -> rtc LifeStep (life t) (life t').
Proof.
  unfold finish_inner. intros Hok Ht. do 2 apply bind_Ok in Ht as (? & _ & Ht). cbv zeta in Ht. inv_ok Ht. cbv zeta in Ht. inv_ok Ht.
  injection Ht as <- _. bools. destruct Hb as [Hrt Hjt], Hb1 as [Har Haj]. apply run_raw_Ok in Hx. apply job_raw_fst in Hx0.
  apply validate_state_event_Ok in Hx4 as (Hk1 & Hs1 & Ht1 & _), Hx5 as (Hk2 & Hs2 & Ht2 & _).
  assert (life t0 = life t) as Hsame by
    (destruct outs; [apply bind_Ok in Hx2 as ([[? ?] ?] & Hty & [= <- _ _]); by eapply typed_outputs_life|by injection Hx2 as <- _]).
  apply (publish_outputs_life _ _ _ _ _ _ _ _ _ (run_life x1)) in Hx7 as (n & arts & Hl8 & Hsteps). rewrite Hsame in *.
  destruct (notes_frame run n (life t)) as (Hnj & Hnr & _). pose proof (life_run_lookup _ _ _ Hx) as Hr.
  pose proof (life_job_lookup _ _ _ Hx0) as Hj. pose proof (targets_agree_outcome _ _ Hjt Hb0) as Hout.
  destruct (run_job _ _ _ (life_runs _ Hok _ _ Hr)) as (j & Hj' & Hlink). cbn [run_life rl_job] in Hj'. rewrite Hj in Hj'. injection Hj' as <-.
  apply validate_failure_Ok in Hx1. apply failure_json_Some in Hx6.
  assert (bool_decide (rt = RFailed) = bool_decide (jt = Failed)) as Heq by (by destruct jt; simplify_eq/=).
  assert (l_runs (life x8) !! run = Some (run_life x1)) as Hr8 by (by rewrite Hl8; cbn [l_runs with_artifacts]; rewrite Hnr).
  assert (l_jobs (life x8) !! r_job_id (run_columns x1) = Some (job_life x2.1)) as Hj8
    by (by rewrite Hl8; cbn [l_jobs with_artifacts]; rewrite Hnj).
  rewrite (finish_writes _ _ _ _ _ _ _ _ _ _ _ _ _ _ _ _ _ _ Hr8 Hj8 Hrt Hjt (eq_trans Hx6 Hx1) Heq Hx8 Hx9 Hx10 Hx11).
  rewrite Hk1, Hk2, Hs1, Hs2, Ht1, Ht2, Hl8. by apply finish_steps.
Qed.

(** *** Generic drift reports and the queue *)

Lemma put_artifact_twice id a b l : put_artifact id b (put_artifact id a l) = put_artifact id b l.
Proof. unfold put_artifact. cbn. by rewrite insert_insert_eq. Qed.
Lemma insert_report_life d c m at_ t t' :
  insert_report d c m at_ t = Ok t' ->
  l_artifacts (life t) !! dr_report_artifact_id d = None /\
  life t' = put_artifact (dr_report_artifact_id d) (dr_producing_run_id d, Committed) (life t).
Proof.
  unfold insert_report. intros Hi. inv_ok Hi. injection Hi as <-. bools. destruct Hb as [Hn%eq_None_not_Some _].
  split; [|apply stage_life]. pose proof (lookup_fmap artifact_life (cp_artifact_refs t) (dr_report_artifact_id d)) as Hl.
  rewrite Hn in Hl. exact Hl.
Qed.
Lemma generic_report_refines t d e t' r :
  publish_generic_drift_report t d e = Ok (t', r) -> rtc LifeStep (life t) (life t').
Proof.
  unfold publish_generic_drift_report. intros Hp. do 2 apply bind_Ok in Hp as (? & _ & Hp).
  destruct (qd1_drift_comparisons t !! _); [inv_ok Hp; by injection Hp as <- _|]. cbv zeta in Hp. inv_ok Hp. cbv zeta in Hp. inv_ok Hp.
  injection Hp as <- _. bools. destruct_and?.
  match goal with Hx : insert_comparison _ _ = Ok _, Ha : append_event_tx _ _ = Ok _, Hr : insert_report _ _ _ _ _ = Ok _,
      Hrun : ok_or _ _ = Ok ?run, He : event_is _ _ _ _ _ _ = true |- _ =>
    apply insert_comparison_life in Hx as ->; apply append_life in Ha as [-> _]; apply insert_report_life in Hr as [Hnone ->];
    apply ok_or_Ok, life_run_lookup in Hrun; apply event_is_true in He as (-> & -> & -> & _);
    pose proof (life_stage (life t) _ _ _ Hnone Hrun) as Hstage; pose proof Hrun as Hrow;
    assert (rl_typed (run_life run) = false) as Htyped by (apply bool_decide_eq_false; assumption)
  end.
  set (l1 := put_artifact _ _ (life t)) in Hstage.
  apply (rtc_l _ _ l1 _ Hstage). eapply rtc_l.
  - eapply (life_artifact l1 (dr_report_artifact_id d) _ _ Staged Committed); [apply lookup_insert_eq|done|exact Hrow|].
    by rewrite Htyped.
  - apply rtc_once. rewrite (put_artifact_twice _ _ _ _ : put_artifact _ (_, Committed) l1 = _).
    exact (life_note (put_artifact _ (_, Committed) (life t)) _ _ ArtifactCommitted Hrow eq_refl).
Qed.
Lemma queue_loop_refines fuel now ids ws t t' answer :
  LifeOk (life t) -> queue_loop fuel now ids ws t = Some (t', answer) -> rtc LifeStep (life t) (life t').
Proof.
  revert t. induction fuel as [|fuel IH]; intros t Hok Hq; [done|]. cbn in Hq. unfold queue_turn in Hq.
  destruct (queue_rows t ws) as [|[id row] rest]; [by injection Hq as <- _|].
  destruct (job_raw t id ≫= job_from_raw id) as [job|error]; [by injection Hq as <- _|].
  destruct (_ && _); [|by injection Hq as <- _].
  destruct (fail_corrupt_queued_job _ _ t id) as [t1|] eqn:Hf; [|by injection Hq as <- _].
  apply fail_corrupt_refines in Hf; [|done]. etrans; [exact Hf|]. apply IH; [by eapply LifeOk_steps|done].
Qed.
Lemma next_queued_refines now ids t ws t' answer :
  LifeOk (life t) -> next_queued_job now ids t ws = Some (t', answer) -> rtc LifeStep (life t) (life t').
Proof.
  unfold next_queued_job. intros Hok Hn. destruct (validate_id ws _); [by eapply queue_loop_refines|by injection Hn as <- _].
Qed.
End operations.
