(* ===== verification/Reachable.v ===== *)
(** * The states the operations on jobs can reach

    [execute] runs one operation of the control plane on jobs, runs, events
    and artifacts; an operation that fails
    leaves the tables as they were, since each is one transaction.  What the
    tables hold after any sequence of operations follows from [Refines] and
    [Life]. *)

From S2P Require Import Prelude Text Secrets Logical Nodes Schedule Automation Hex Canonical Operations Jobs Submissions Outputs Lifecycle Reports Life Refines.

(** The operations of the control plane but for [collect_retention], which
    works on more than these tables ([Retention]) and only takes rows away
    ([Maintenance]). *)
Inductive JobOp :=
(** workspaces, sessions, plans, snapshots and the like, written by the rest of the store *)
| OpCatalog (c : Catalog)
| OpSubmit (s : JobSubmission)
| OpNextQueued (now : nat -> DateTime) (event_ids : nat -> Uuid) (workspace : Uuid)
| OpClaim (job_id run_id : Uuid) (started_at : DateTime) (engine_contract_version : N) (engine_build : string)
    (job_event run_event : EventDraft)
| OpTransitionJob (job_id : Uuid) (target : JobState) (event : EventDraft) (failure : option FailureInfo)
| OpTransitionRun (run_id : Uuid) (target : RunState) (event : EventDraft) (failure : option FailureInfo)
| OpCancelQueued (job_id : Uuid) (cancelling_event cancelled_event : EventDraft)
| OpCancelRunning (job_id : Uuid) (job_event run_event : EventDraft)
| OpFinish (run_id : Uuid) (run_target : RunState) (job_target : JobState) (snapshot_ref bundle_ref : option Uuid)
    (outputs : option (list TerminalOutputRef)) (drift : option DriftReportDraft) (run_event job_event : EventDraft)
    (failure : option FailureInfo)
| OpSetOutputRefs (run_id : Uuid) (snapshot_ref bundle_ref : option Uuid)
| OpAppendEvent (event : EventDraft)
| OpCreateArtifact (workspace run_id artifact_id : Uuid) (kind : ArtifactKind) (external_ref_kind : string)
    (external_ref_id : Uuid) (content_digest : Digest) (metadata : json) (created_at : DateTime) (body : option (list N))
| OpTransitionArtifact (artifact_id : Uuid) (target : ArtifactRefState) (event : EventDraft)
| OpFailArtifact (artifact_id : Uuid)
| OpPublishDriftReport (draft : DriftReportDraft) (event : EventDraft)
| OpReconcile (drafts : list JobRecoveryDraft).

Definition empty_catalog : Catalog := mkCatalog ∅ ∅ ∅ ∅ ∅ ∅ ∅ ∅ ∅ ∅.
Definition empty_tables : Tables := mkTables empty_catalog ∅ ∅ [] ∅ ∅ ∅ ∅.
Definition set_catalog (c : Catalog) (t : Tables) : Tables :=
  mkTables c (cp_jobs t) (cp_runs t) (cp_events t) (cp_idempotency_keys t) (cp_artifact_refs t) (cp_artifact_bodies t)
    (qd1_drift_comparisons t).
(** A transaction that fails is rolled back. *)
Definition committed {A} (t : Tables) (r : Stored (Tables * A)) : Tables := match r with Ok (t', _) => t' | Err _ => t end.

Section reachable.
Context `{JobCodec} `{StoreFiles}.

Definition execute (t : Tables) (op : JobOp) : Tables :=
  match op with
  | OpCatalog c => set_catalog c t
  | OpSubmit s => committed t (submit_job t s)
  | OpNextQueued now ids ws => match next_queued_job now ids t ws with Some (t', _) => t' | None => t end
  | OpClaim job run at_ v build je re => committed t (claim_job t job run at_ v build je re)
  | OpTransitionJob job target e f => committed t (transition_job t job target e f)
  | OpTransitionRun run target e f => committed t (transition_run t run target e f)
  | OpCancelQueued job e1 e2 => committed t (cancel_queued_job t job e1 e2)
  | OpCancelRunning job e1 e2 => committed t (cancel_running_job t job e1 e2)
  | OpFinish run rt jt s b outs d re je f => committed t (finish_inner t run rt jt s b outs d re je f)
  | OpSetOutputRefs run s b => committed t (set_run_output_refs t run s b)
  | OpAppendEvent e => committed t (append_event t e)
  | OpCreateArtifact ws run id k ek eid d m at_ body =>
      committed t (create_artifact_ref_inner t ws run id k ek eid d m at_ body)
  | OpTransitionArtifact id target e => committed t (transition_artifact_ref t id target e)
  | OpFailArtifact id => committed t (fail_artifact_ref t id)
  | OpPublishDriftReport d e => committed t (publish_generic_drift_report t d e)
  | OpReconcile ds => committed t (reconcile_jobs t ds)
  end.
Definition after (ops : list JobOp) : Tables := foldl execute empty_tables ops.

Lemma after_snoc ops op : after (ops ++ [op]) = execute (after ops) op.
Proof. unfold after. by rewrite foldl_app. Qed.

Lemma committed_steps {A} t (r : Stored (Tables * A)) :
  (forall t' x, r = Ok (t', x) -> rtc LifeStep (life t) (life t')) -> rtc LifeStep (life t) (life (committed t r)).
Proof. intros Hr. destruct r as [[t' x]|e]; cbn; [by eapply Hr|done]. Qed.

Lemma execute_refines t op : LifeOk (life t) -> rtc LifeStep (life t) (life (execute t op)).
Proof.
  intros Hok. destruct op; cbn [execute]; try (apply committed_steps; intros t' x Hx).
  - done.
  - by eapply submit_refines.
  - destruct (next_queued_job _ _ t _) as [[t' a]|] eqn:Hn; [by eapply next_queued_refines|done].
  - by eapply claim_refines.
  - by eapply transition_job_refines.
  - by eapply transition_run_refines.
  - by eapply cancel_queued_refines.
  - by eapply cancel_running_refines.
  - by eapply finish_inner_refines.
  - by rewrite (set_refs_refines _ _ _ _ _ _ Hx).
  - by eapply append_event_refines.
  - by eapply create_artifact_refines.
  - by eapply transition_artifact_refines.
  - by eapply fail_artifact_refines.
  - by eapply generic_report_refines.
  - by eapply reconcile_jobs_refines.
Qed.
Lemma executes_refine t ops : LifeOk (life t) -> rtc LifeStep (life t) (life (foldl execute t ops)).
Proof.
  revert t. induction ops as [|op ops IH]; intros t Hok; [done|]. pose proof (execute_refines t op Hok) as Hstep.
  etrans; [exact Hstep|]. apply IH. by eapply LifeOk_steps.
Qed.
Lemma after_ok ops : LifeOk (life (after ops)).
Proof. eapply (LifeOk_steps empty_life); [|apply LifeOk_empty]. apply (executes_refine empty_tables). apply LifeOk_empty. Qed.
End reachable.
