(* ===== verification/Frame.v ===== *)
(** * What the operations of the control plane leave alone

    Only a submission writes a key or makes a job, and nothing but the catalog's
    own operations writes the catalog: every other operation keeps the keys, the
    columns each job was submitted with, and the catalog.  No operation removes
    or changes an event: the log is only appended to. *)

From S2P Require Import Prelude Text Secrets Logical Nodes Schedule Automation Hex Canonical Operations Jobs Submissions Outputs Lifecycle Reports Life Refines Reachable.

Definition frame (t : Tables) : gmap (Uuid * string) KeyRow * gmap Uuid JobColumns * Catalog :=
  (cp_idempotency_keys t, job_columns <$> cp_jobs t, catalog t).
(** An event is of the stream it is in, and of its job's workspace. *)
Definition placed (columns : gmap Uuid JobColumns) (e : EventRow) : Prop :=
  j_workspace_id <$> columns !! ev_job_id e = Some (ev_workspace_id e) /\
  match ev_stream_kind e with
  | JobStream => ev_stream_id e = ev_job_id e
  | RunStream => ev_run_id e = Some (ev_stream_id e)
  end.
(** The frame is kept and the log is appended to. *)
Definition evolves (t t' : Tables) : Prop :=
  frame t' = frame t /\ exists new, cp_events t' = cp_events t ++ new /\ Forall (placed (frame t).1.2) new.
#[global] Instance evolves_preorder : PreOrder evolves.
Proof.
  split; [intros t; split; [done|exists []; by rewrite app_nil_r]|]. intros t1 t2 t3 [H1 (n1 & E1 & P1)] [H2 (n2 & E2 & P2)].
  split; [congruence|]. exists (n1 ++ n2). rewrite E2, E1, app_assoc. split; [done|]. apply Forall_app. split; [done|]. by rewrite <- H1.
Qed.

Section frame.
Context `{JobCodec} `{StoreFiles}.

Lemma frame_update_job f id t : (forall r, job_columns (f r) = job_columns r) -> frame (update_job f id t) = frame t.
Proof.
  intros Hf. unfold frame, update_job. cbn. f_equal. f_equal. apply map_eq. intros i. rewrite !lookup_fmap.
  destruct (decide (i = id)) as [->|Hne]; [rewrite lookup_alter_eq|by rewrite lookup_alter_ne].
  destruct (cp_jobs t !! id); cbn; [by rewrite Hf|done].
Qed.
Lemma append_placed t e t' :
  append_event_tx t e = Ok t' -> exists row, placed (frame t).1.2 row /\ t' = set_events (cp_events t ++ [row]) t.
Proof.
  unfold append_event_tx. intros Ha. inv_ok Ha. injection Ha as <-. eexists. split; [|reflexivity]. unfold placed. cbn.
  rewrite lookup_fmap. apply job_raw_fst in Hx0. rewrite Hx0. split; [done|]. clear Hb Hb0. destruct (ed_stream_kind e); inv_ok Hx1; bools; destruct_and?.
  - done.
  - match goal with Hr : ok_or (ed_run_id e) _ = Ok _ |- _ => apply ok_or_Ok in Hr end. by subst.
Qed.
Lemma evolves_job t t' f id : (forall r, job_columns (f r) = job_columns r) -> evolves t t' -> evolves t (update_job f id t').
Proof. intros Hf [Hfr Hl]. split; [by rewrite frame_update_job|done]. Qed.
Lemma evolves_append t t' row : placed (frame t').1.2 row -> evolves t t' -> evolves t (set_events (cp_events t' ++ [row]) t').
Proof.
  intros Hp [Hfr (new & Hl & Hnew)]. split; [done|]. exists (new ++ [row]). cbn. rewrite Hl, app_assoc. split; [done|].
  apply Forall_app. split; [done|]. apply Forall_singleton. change (placed (frame t).1.2 row). by rewrite <- Hfr.
Qed.
(** A step that changes neither. *)
Lemma evolves_same t t1 t2 : frame t2 = frame t1 -> cp_events t2 = cp_events t1 -> evolves t t1 -> evolves t t2.
Proof. intros Hf He [Hfr Hl]. split; [congruence|by rewrite He]. Qed.

Ltac step_frame := cbv zeta in *; repeat match goal with
  | Hx : append_event_tx _ _ = Ok _ |- _ => apply append_placed in Hx as (? & ? & ->)
  | Hx : transition_job_state_tx _ _ _ _ _ = Ok _ |- _ => apply transition_job_tx_Ok in Hx as (? & _ & _ & ->)
  | Hx : transition_run_state_tx _ _ _ _ _ = Ok _ |- _ => apply transition_run_tx_Ok in Hx as (? & _ & _ & ->)
  | |- evolves ?t ?t => reflexivity
  | |- evolves _ (update_job _ _ _) => apply evolves_job; [by intros []|]
  | |- evolves _ (set_events (cp_events ?t ++ [_]) ?t) => apply evolves_append; [assumption|]
  | |- evolves _ (update_run _ _ ?t) => apply (evolves_same _ t); [reflexivity..|]
  | |- evolves _ (set_runs _ ?t) => apply (evolves_same _ t); [reflexivity..|]
  | |- evolves _ (update_ref _ _ ?t) => apply (evolves_same _ t); [reflexivity..|]
  | |- evolves _ (update_body _ _ ?t) => apply (evolves_same _ t); [reflexivity..|]
  | |- evolves _ (set_artifacts _ _ ?t) => apply (evolves_same _ t); [reflexivity..|]
  | |- evolves _ (fail_reconciled_artifacts _ ?t) => apply (evolves_same _ t); [reflexivity..|]
  | |- evolves _ (fail_staged_artifacts _ ?t) => apply (evolves_same _ t); [reflexivity..|]
  end; try reflexivity.
Ltac whole H := cbv zeta in H; inv_ok H; cbv zeta in H; inv_ok H; injection H as <- _; step_frame.

Lemma transition_job_evolves t id target e f t' r : transition_job t id target e f = Ok (t', r) -> evolves t t'.
Proof. unfold transition_job. intros Ht. whole Ht. Qed.
Lemma transition_run_evolves t id target e f t' r : transition_run t id target e f = Ok (t', r) -> evolves t t'.
Proof. unfold transition_run. intros Ht. whole Ht. Qed.
Lemma claim_evolves t id run at_ v build je re t' r : claim_job t id run at_ v build je re = Ok (t', r) -> evolves t t'.
Proof. unfold claim_job. intros Ht. whole Ht. Qed.
Lemma cancel_queued_evolves t id e1 e2 t' r : cancel_queued_job t id e1 e2 = Ok (t', r) -> evolves t t'.
Proof. unfold cancel_queued_job. intros Ht. whole Ht. Qed.
Lemma cancel_running_evolves t id e1 e2 t' r : cancel_running_job t id e1 e2 = Ok (t', r) -> evolves t t'.
Proof. unfold cancel_running_job. intros Ht. whole Ht. Qed.
Lemma set_refs_evolves t run s b t' r : set_run_output_refs t run s b = Ok (t', r) -> evolves t t'.
Proof. unfold set_run_output_refs. intros Ht. whole Ht. Qed.
Lemma append_event_evolves t e t' r : append_event t e = Ok (t', r) -> evolves t t'.
Proof. unfold append_event. intros Ht. whole Ht. Qed.
Lemma create_artifact_evolves t ws run id k ek eid d m at_ body t' r :
  create_artifact_ref_inner t ws run id k ek eid d m at_ body = Ok (t', r) -> evolves t t'.
Proof. unfold create_artifact_ref_inner. intros Ht. whole Ht. Qed.
Lemma transition_artifact_evolves t id target e t' r : transition_artifact_ref t id target e = Ok (t', r) -> evolves t t'.
Proof. unfold transition_artifact_ref. intros Ht. whole Ht; destruct target; repeat case_match; step_frame. Qed.
Lemma fail_artifact_evolves t id t' r : fail_artifact_ref t id = Ok (t', r) -> evolves t t'.
Proof. unfold fail_artifact_ref. intros Ht. whole Ht; case_match; step_frame. Qed.
Lemma insert_comparison_evolves d t t' : insert_comparison d t = Ok t' -> evolves t t'.
Proof. unfold insert_comparison. intros Hi. inv_ok Hi. injection Hi as <-. by apply (evolves_same _ t). Qed.
Lemma insert_report_evolves d c m at_ t t' : insert_report d c m at_ t = Ok t' -> evolves t t'.
Proof. unfold insert_report. intros Hi. inv_ok Hi. injection Hi as <-. by apply (evolves_same _ t). Qed.
Lemma generic_report_evolves t d e t' r : publish_generic_drift_report t d e = Ok (t', r) -> evolves t t'.
Proof.
  unfold publish_generic_drift_report. intros Hp. do 2 apply bind_Ok in Hp as (? & _ & Hp).
  destruct (qd1_drift_comparisons t !! _); [inv_ok Hp; by injection Hp as <- _|]. cbv zeta in Hp. inv_ok Hp. cbv zeta in Hp. inv_ok Hp.
  injection Hp as <- _. match goal with Hx : insert_comparison _ _ = Ok _ |- _ => etrans; [|exact (insert_comparison_evolves _ _ _ Hx)] end.
  step_frame. match goal with Hx : insert_report _ _ _ _ _ = Ok _ |- _ => exact (insert_report_evolves _ _ _ _ _ _ Hx) end.
Qed.
Lemma reconcile_one_evolves t d t' r : reconcile_one t d = Ok (t', r) -> evolves t t'.
Proof.
  unfold reconcile_one. intros Ht. cbv zeta in Ht. inv_ok Ht. destruct (_ && _) in Ht; [by injection Ht as <- _|].
  inv_ok Ht. injection Ht as <- _. step_frame.
Qed.
Lemma reconcile_fold_evolves ds acc acc' :
  fold_result (fun acc d => done_ ← reconcile_one acc.1 d; Ok (done_.1, acc.2 ++ [done_.2])) acc ds = Ok acc' -> evolves acc.1 acc'.1.
Proof.
  revert acc. induction ds as [|d ds IH]; intros acc Ht; cbn in Ht; [by injection Ht as <-|].
  apply bind_Ok in Ht as (s & Hs & Ht). apply bind_Ok in Hs as ([t1 r1] & Hd & [= <-]).
  etrans; [|exact (IH _ Ht)]. cbn. by eapply reconcile_one_evolves.
Qed.
Lemma fail_corrupt_evolves now eid t id t' : fail_corrupt_queued_job now eid t id = Ok t' -> evolves t t'.
Proof.
  unfold fail_corrupt_queued_job. intros Ht. cbv zeta in Ht. inv_ok Ht. destruct (negb _) in Ht; [by injection Ht as <-|].
  inv_ok Ht. step_frame.
Qed.
Lemma queue_loop_evolves fuel now ids ws t t' a : queue_loop fuel now ids ws t = Some (t', a) -> evolves t t'.
Proof.
  revert t. induction fuel as [|fuel IH]; intros t Hq; [done|]. cbn in Hq. unfold queue_turn in Hq.
  destruct (queue_rows t ws) as [|[id row] rest]; [by injection Hq as <- _|].
  destruct (job_raw t id ≫= job_from_raw id) as [job|error]; [by injection Hq as <- _|].
  destruct (_ && _); [|by injection Hq as <- _].
  destruct (fail_corrupt_queued_job _ _ t id) as [t1|] eqn:Hf; [|by injection Hq as <- _].
  etrans; [|exact (IH _ Hq)]. by eapply fail_corrupt_evolves.
Qed.

(** *** Finishing *)
Lemma commit_one_evolves run job e t o t' : commit_one_staged_artifact run job e t o = Ok t' -> evolves t t'.
Proof. unfold commit_one_staged_artifact. intros Hc. cbv zeta in Hc. repeat case_match; try done; by step_frame. Qed.
Lemma commit_all_evolves run job e os t t' : fold_result (commit_one_staged_artifact run job e) t os = Ok t' -> evolves t t'.
Proof.
  revert t. induction os as [|o os IH]; intros t Hc; cbn in Hc; [by injection Hc as <-|].
  apply bind_Ok in Hc as (t1 & Hone & Hc). etrans; [|exact (IH _ Hc)]. by eapply commit_one_evolves.
Qed.
Lemma commit_drift_evolves t d e job t' : commit_drift_report_tx t d e job = Ok t' -> evolves t t'.
Proof.
  unfold commit_drift_report_tx. intros Hd. cbv zeta in Hd. inv_ok Hd. injection Hd as <-.
  by match goal with Hx : insert_comparison _ _ = Ok _ |- _ => apply insert_comparison_evolves in Hx end.
Qed.
Lemma publish_drift_evolves t run job op outs d e t' : publish_drift_report t run job op outs d e = Ok t' -> evolves t t'.
Proof. unfold publish_drift_report. intros Hp. cbv zeta in Hp. inv_ok Hp. by eapply commit_drift_evolves. Qed.
Lemma typed_outputs_evolves t run r job j rt outs d e refs t' refs' text :
  typed_outputs t run r job j rt outs d e refs = Ok (t', refs', text) -> evolves t t'.
Proof.
  unfold typed_outputs. intros Ht. inv_ok Ht. injection Ht as -> _. case_match.
  - inv_ok Hx2. injection Hx2 as <- _. destruct d; [by eapply publish_drift_evolves|by simplify_eq].
  - inv_ok Hx2. by injection Hx2 as <- _.
Qed.
Lemma publish_outputs_evolves t run job rt s b typed e t' : publish_outputs t run job rt s b typed e = Ok t' -> evolves t t'.
Proof.
  unfold publish_outputs. intros Hp. destruct typed as [[outs text]|]; [|repeat case_match; simplify_eq; step_frame].
  destruct (bool_decide _); [apply commit_all_evolves in Hp; etrans; [|exact Hp]|injection Hp as <-]; step_frame.
Qed.
Lemma finish_evolves t run rt jt s b outs drift re je f t' r :
  finish_inner t run rt jt s b outs drift re je f = Ok (t', r) -> evolves t t'.
Proof.
  unfold finish_inner. intros Ht. cbv zeta in Ht. inv_ok Ht. cbv zeta in Ht. inv_ok Ht. injection Ht as <- _. step_frame. cbn.
  match goal with Hx : publish_outputs _ _ _ _ _ _ _ _ = Ok _ |- _ => etrans; [|exact (publish_outputs_evolves _ _ _ _ _ _ _ _ _ Hx)] end.
  destruct outs as [outs|];
    match goal with Hx : _ = Ok (_, (_, _), _) |- _ =>
      first [apply bind_Ok in Hx as ([[? ?] ?] & Hty & [= <- _ _]); by eapply typed_outputs_evolves|by injection Hx as <- _] end.
Qed.

Lemma execute_evolves t op : (forall s, op <> OpSubmit s) -> (forall c, op <> OpCatalog c) -> evolves t (execute t op).
Proof.
  intros Hs Hc. destruct op; cbn [execute]; unfold committed;
    try (match goal with |- context [match ?r with Ok _ => _ | Err _ => _ end] => destruct r as [[t' x]|] eqn:Hr; [|done] end).
  - by destruct (Hc c).
  - by destruct (Hs s).
  - unfold next_queued_job. destruct (validate_id _ _); [|done]. destruct (queue_loop _ _ _ _ t) as [[t' answer]|] eqn:Hq; [|done].
    by eapply queue_loop_evolves.
  - by eapply claim_evolves.
  - by eapply transition_job_evolves.
  - by eapply transition_run_evolves.
  - by eapply cancel_queued_evolves.
  - by eapply cancel_running_evolves.
  - by eapply finish_evolves.
  - by eapply set_refs_evolves.
  - by eapply append_event_evolves.
  - by eapply create_artifact_evolves.
  - by eapply transition_artifact_evolves.
  - by eapply fail_artifact_evolves.
  - by eapply generic_report_evolves.
  - unfold reconcile_jobs in Hr. inv_ok Hr. by apply reconcile_fold_evolves in Hr.
Qed.
Lemma execute_frame t op : (forall s, op <> OpSubmit s) -> (forall c, op <> OpCatalog c) -> frame (execute t op) = frame t.
Proof. intros Hs Hc. by apply execute_evolves. Qed.

(** ** The log under every operation *)

Definition job_columns_of (t : Tables) : gmap Uuid JobColumns := job_columns <$> cp_jobs t.
Lemma submit_log t s t' o :
  submit_job t s = Ok (t', o) -> job_columns_of t ⊆ job_columns_of t' /\
  exists new, cp_events t' = cp_events t ++ new /\ Forall (placed (job_columns_of t')) new.
Proof.
  unfold submit_job. intros Ht. apply bind_Ok in Ht as (u & _ & Ht). apply bind_Ok in Ht as (b & _ & Ht).
  assert (job_columns_of t ⊆ job_columns_of t /\ exists new, cp_events t = cp_events t ++ new /\ Forall (placed (job_columns_of t)) new) as Hsame
    by (split; [done|]; exists []; by rewrite app_nil_r).
  destruct (cp_idempotency_keys t !! _); [inv_ok Ht; by injection Ht as <- _|]. inv_ok Ht. injection Ht as <- _. bools.
  match goal with Hx : append_event_tx _ _ = Ok _ |- _ => apply append_placed in Hx as (row & Hp & ->) end. split.
  - unfold job_columns_of. cbn. rewrite fmap_insert. apply insert_subseteq. rewrite lookup_fmap.
    by rewrite (proj2 (eq_None_not_Some _) Hb0).
  - exists [row]. split; [done|]. by apply Forall_singleton.
Qed.
(** Whatever is done, jobs keep their columns and events are only appended. *)
Lemma execute_log t op :
  job_columns_of t ⊆ job_columns_of (execute t op) /\
  exists new, cp_events (execute t op) = cp_events t ++ new /\ Forall (placed (job_columns_of (execute t op))) new.
Proof.
  assert ((forall s, op <> OpSubmit s) -> (forall c, op <> OpCatalog c) -> job_columns_of t ⊆ job_columns_of (execute t op) /\
    exists new, cp_events (execute t op) = cp_events t ++ new /\ Forall (placed (job_columns_of (execute t op))) new) as Hother.
  { intros Hs Hc. destruct (execute_evolves t op Hs Hc) as [Hf (new & Hn & Hp)]. injection Hf as _ Hcols _. unfold job_columns_of. rewrite Hcols.
    split; [done|by exists new]. }
  destruct op as [c|s| | | | | | | | | | | | | |]; [| |by apply Hother..].
  - split; [done|]. exists []. by rewrite app_nil_r.
  - cbn [execute]. unfold committed. destruct (submit_job t s) as [[t' o]|] eqn:Hs; [by eapply submit_log|]. split; [done|]. exists []. by rewrite app_nil_r.
Qed.
End frame.
