(* ===== verification/Sample.v ===== *)
(** * A concrete control plane

    A small instance of the codecs and files the control plane relies on, and
    the life of one export job in it: the operations are executed, so what is
    said about reachable tables can be tried on tables that have something in
    them. *)

From S2P Require Import Prelude Text Secrets Logical Nodes Schedule Automation Hex Canonical Operations Jobs Submissions Outputs Lifecycle Reports Life Refines Reachable.

#[local] Open Scope N_scope.

(** A hash of 32 equal bytes, and the texts of one operation and one output. *)
Definition sample_sha (bytes : list N) : Digest := replicate 32 (foldr N.add 0 bytes mod 255 + 1).
Definition sample_digest : Digest := replicate 32 7.
Definition sample_snapshot : SnapshotRef := mkSnapshotRef 1 2 5 6 sample_digest sample_digest DATASET_SNAPSHOT_VERSION.
Definition sample_operation : JobOperation :=
  mkOperation KExport OPERATION_VERSION
    (DExport sample_snapshot (mkExportRequest 9 Csv SingleFile (DestLocal "/exports" ["rows.csv"]))).
Definition sample_output : ArtifactOutputRef := mkArtifactOutput 1 20 30 KindExportArtifact 1 sample_digest Committed.

Definition sample_findings : list json := [JNull; JBool true; JBool false; JString "x"; JNull].

#[export] Instance sample_codec : JobCodec := {|
  sha256 := sample_sha;
  json_text s := Some (bytes_of s);
  json_print _ := Some "{}";
  json_parse _ := Some (JObject []);
  json_parse_bytes _ :=
    Some (JObject [("artifact_type", JString "drift_report.v1"); ("artifact_body_version", JNumber (PosInt 1));
                   ("findings", JArray sample_findings)]);
  json_tree _ := Some (JObject []);
  operation_to_value _ := Some (JObject []);
  operation_from_value _ := Some sample_operation;
  operation_print _ := Some "{}";
  inputs_to_value _ := JNull;
  inputs_print inputs := Some (if bool_decide (inputs = []) then "[]" else "[snapshot]");
  inputs_parse text := Some (if bool_decide (text = "[]") then [] else [snapshot_input 6 sample_digest]);
  failure_print f := Some (category f);
  failure_parse text := Some (mkFailure text false "lost");
  outputs_print outputs := Some (match outputs with [] => "[]" | _ => "[artifact]" end);
  outputs_parse text := Some (if bool_decide (text = "[]") then [] else [OutArtifact sample_output]);
  uuid_text id := string_of_bytes [(48 + id)];
  uuid_v5 id name := (1000 * id + foldr N.add 0 name);
|}.
#[export] Instance sample_files : StoreFiles := {|
  snapshot_version_digest _ := Ok sample_digest;
  load_bundle id := Err (NotFound id);
|}.

Definition sample_catalog : Catalog :=
  mkCatalog {[1 := "active"]} {[2 := mkSession 1 "open" 0%Z]} {[3 := "active"]}
    {[4 := mkPlanVersion 3 1 [] (digest_hex (sample_sha [])) (digest_hex sample_digest) "published" None]} ∅ ∅
    {[5 := (1, "active")]} {[6 := mkSnapshot 5 2 0 (digest_hex sample_digest) (Z.of_N DATASET_SNAPSHOT_VERSION) 1%Z]} ∅ ∅.

Definition sample_event (id : Uuid) (kind : EventStreamKind) (job : Uuid) (run : option Uuid) (type : ControlPlaneEventType)
  (at_ : DateTime) : EventDraft :=
  event_draft_new id kind (match kind, run with RunStream, Some run => run | _, _ => job end) job
    (match kind with JobStream => None | RunStream => run end) type at_ "request" "correlation" "actor" (JObject []).

(** Job 10 with its run 20 and artifact 30; [key] and [event] tell submissions
    apart. *)
Definition sample_submission (job event : Uuid) (key : string) : JobSubmission :=
  let draft := mkSubmission 1 2 (Some 3) 4 (sample_sha []) (Some sample_operation) job key [snapshot_input 6 sample_digest]
                 (JObject []) (JObject []) zero_digest 5%Z event "request" "correlation" "actor" in
  match submission_try_new draft with Ok s => s | Err _ => draft end.

Definition sample_submit : JobOp := OpSubmit (sample_submission 10 100 "key").
Definition sample_claim : JobOp :=
  OpClaim 10 20 6%Z 1 "engine" (sample_event 101 JobStream 10 (Some 20) JobRunning 6%Z) (sample_event 102 RunStream 10 (Some 20) RunRunning 6%Z).
Definition sample_stage : JobOp := OpCreateArtifact 1 20 30 KindExportArtifact EXTERNAL_ARTIFACT 9 sample_digest (JObject []) 7%Z None.
Definition sample_finish : JobOp :=
  OpFinish 20 RSucceeded Succeeded None None (Some [OutArtifact sample_output]) None
    (sample_event 103 RunStream 10 (Some 20) RunSucceeded 8%Z) (sample_event 104 JobStream 10 (Some 20) JobSucceeded 8%Z) None.
Definition sample_run : list JobOp := [OpCatalog sample_catalog; sample_submit; sample_claim; sample_stage].
Definition sample_done : list JobOp := sample_run ++ [sample_finish].

(** The restart of a process that has lost job 10. *)
Definition sample_recovery : JobRecoveryDraft :=
  mkRecovery 10 20 (sample_event 105 RunStream 10 (Some 20) RunReconciled 9%Z) (sample_event 106 RunStream 10 (Some 20) RunFailed 9%Z)
    (sample_event 107 JobStream 10 (Some 20) JobFailed 9%Z) (mkFailure "worker_lost" true "lost").

Example sample_done_states :
  let t := after sample_done in
  j_state <$> cp_jobs t !! 10 = Some Succeeded /\ r_state <$> cp_runs t !! 20 = Some RSucceeded /\
  a_state <$> cp_artifact_refs t !! 30 = Some Committed /\
  ev_event_type <$> stream t JobStream 10 = [JobQueued; JobRunning; JobSucceeded] /\
  ev_event_type <$> stream t RunStream 20 = [RunRunning; ArtifactCommitted; RunSucceeded].
Proof. by vm_compute. Qed.
Example sample_lost_states :
  let t := after (sample_run ++ [OpReconcile [sample_recovery]]) in
  j_state <$> cp_jobs t !! 10 = Some Failed /\ r_state <$> cp_runs t !! 20 = Some RFailed /\
  a_state <$> cp_artifact_refs t !! 30 = Some AFailed.
Proof. by vm_compute. Qed.
