(* ===== verification/Control.v ===== *)
(** * What the control plane guarantees

    Theorems about every state the operations on jobs ([JobOp]) can reach:
    the event log, jobs and their runs, the end of a job, the queue, artifacts
    and reconciliation.  They do not speak of states after a retention pass,
    which takes rows away ([Retention], [Collected], [Maintenance]). *)

From S2P Require Import Prelude Text Secrets Logical Nodes Schedule Automation Hex Canonical Operations Jobs Submissions Outputs Lifecycle Reports Life Refines Reachable Sample.

Inductive reached `{JobCodec} `{StoreFiles} : Tables -> Prop :=
| reached_empty : reached empty_tables
| reached_execute t op : reached t -> reached (execute t op).

(** The types of a job's events, and of a run's without the notes. *)
Definition job_events (t : Tables) (id : Uuid) : list ControlPlaneEventType := ev_event_type <$> stream t JobStream id.
Definition run_moves (t : Tables) (id : Uuid) : list ControlPlaneEventType :=
  filter (fun type => is_note type = false) (ev_event_type <$> stream t RunStream id).

Lemma flag_iff (P : Prop) `{!Decision P} (b : bool) : bool_decide P = b -> P <-> b = true.
Proof. intros <-. by rewrite bool_decide_eq_true. Qed.

Section control.
Context `{JobCodec} `{StoreFiles}.

Lemma reached_executes t ops : reached t -> reached (foldl execute t ops).
Proof. revert t. induction ops as [|op ops IH]; intros t Ht; [done|]. by apply IH, reached_execute. Qed.
Lemma reached_after ops : reached (after ops).
Proof. apply reached_executes, reached_empty. Qed.
Lemma reached_ok t : reached t -> LifeOk (life t).
Proof.
  induction 1 as [|t op _ IH]; [apply LifeOk_empty|]. eapply LifeOk_steps; [by apply execute_refines|done].
Qed.
Lemma reached_queue t : reached t -> queue_bounded (life t).
Proof.
  induction 1 as [|t op Ht IH]; [by intros ws|]. eapply queue_bounded_steps; [by apply execute_refines, reached_ok|done].
Qed.
Lemma job_events_life t id : job_events t id = types (log_of JobStream id (life t)).
Proof. unfold job_events, types. rewrite log_of_life. by rewrite <- list_fmap_compose. Qed.
Lemma run_moves_life t id : run_moves t id = moves (log_of RunStream id (life t)).
Proof. unfold run_moves, moves, types. rewrite log_of_life. by rewrite <- list_fmap_compose. Qed.
Lemma sequence_life t kind id : ev_sequence <$> stream t kind id = en_seq <$> log_of kind id (life t).
Proof. rewrite log_of_life. by rewrite <- list_fmap_compose. Qed.

(** C26: In every state that operations on jobs reach, retention apart, the
    event stream of a job is exactly the history of its states, from queued
    to the present one along allowed transitions; the stream of a run,
    without the notes on its artifacts and its reconciliation, is its history
    from running; and each stream is numbered 1, 2, 3, ... without a gap. *)
Theorem event_log_is_history t :
  reached t ->
  (forall id row, cp_jobs t !! id = Some row ->
     exists h, job_path h (j_state row) /\ job_events t id = event_type_for_job_state <$> h) /\
  (forall id row, cp_runs t !! id = Some row ->
     exists h, run_path h (r_state row) /\ run_moves t id = event_type_for_run_state <$> h) /\
  (forall kind id, ev_sequence <$> stream t kind id = N.of_nat <$> seq 1 (length (stream t kind id))).
Proof.
  intros Hok%reached_ok. split_and!.
  - intros id row Hrow. rewrite job_events_life. exact (job_history _ _ _ (life_jobs _ Hok _ _ (life_job_lookup _ _ _ Hrow))).
  - intros id row Hrow. rewrite run_moves_life. exact (run_history _ _ _ (life_runs _ Hok _ _ (life_run_lookup _ _ _ Hrow))).
  - intros kind id. rewrite sequence_life, (life_sequence _ Hok), log_of_life. by rewrite length_fmap.
Qed.

(** C27: In every state that operations on jobs reach, retention apart (the
    collection of a run can leave its job behind, [run_collection_exact]), a
    job and its run agree: the run a job names
    is its own and names it back, a queued job has none, a job that has ended
    with a run has the run's outcome, and a failure and a finishing time are
    recorded exactly for the failed and for the ended ones. *)
Theorem jobs_and_runs_agree t :
  reached t ->
  (forall id job, cp_jobs t !! id = Some job ->
     (j_state job = Queued -> j_run_id job = None) /\
     (is_Some (j_failure_json job) <-> j_state job = Failed) /\
     (is_Some (j_finished_at job) <-> job_is_terminal (j_state job) = true) /\
     forall run_id, j_run_id job = Some run_id ->
       exists run, cp_runs t !! run_id = Some run /\ r_job_id (run_columns run) = id /\
         (job_is_terminal (j_state job) = true -> run_outcome (j_state job) = Some (r_state run))) /\
  (forall id run, cp_runs t !! id = Some run ->
     (is_Some (r_failure_json run) <-> r_state run = RFailed) /\
     (is_Some (r_finished_at run) <-> run_is_terminal (r_state run) = true) /\
     exists job, cp_jobs t !! r_job_id (run_columns run) = Some job /\ j_run_id job = Some id).
Proof.
  intros Hok%reached_ok. split.
  - intros id job Hjob. destruct (life_jobs _ Hok _ _ (life_job_lookup _ _ _ Hjob)) as [_ Hback Hq Hout Hf Hfin]. cbn in *.
    split_and!; [done|by rewrite (flag_iff _ _ Hf), bool_decide_eq_true|exact (flag_iff _ _ Hfin)|].
    intros run_id Hrun. destruct (Hback _ Hrun) as (r & Hr & Hj). apply lookup_fmap_Some in Hr as (run & <- & Hr).
    exists run. split_and!; [done|done|]. intros Ht. destruct (Hout _ Ht Hrun) as (r' & Hr' & Ho).
    apply lookup_fmap_Some in Hr' as (run' & <- & Hr'). by simplify_eq.
  - intros id run Hrun. destruct (life_runs _ Hok _ _ (life_run_lookup _ _ _ Hrun)) as [_ (j & Hj & Hlink) Hf Hfin]. cbn in *.
    split_and!; [by rewrite (flag_iff _ _ Hf), bool_decide_eq_true|exact (flag_iff _ _ Hfin)|].
    apply lookup_fmap_Some in Hj as (job & <- & Hjob). by exists job.
Qed.

(** C31: The end of a job is final: whatever operations on jobs follow,
    retention apart, a job that has ended keeps its state, its run and its
    event stream, and a run that has ended keeps its state and the events of
    its states, so that its stream gets notes at most. *)
Theorem terminal_is_final t ops :
  reached t ->
  let t' := foldl execute t ops in
  (forall id job, cp_jobs t !! id = Some job -> job_is_terminal (j_state job) = true ->
     (exists job', cp_jobs t' !! id = Some job' /\ j_state job' = j_state job /\ j_run_id job' = j_run_id job) /\
     job_events t' id = job_events t id) /\
  (forall id run, cp_runs t !! id = Some run -> run_is_terminal (r_state run) = true ->
     (exists run', cp_runs t' !! id = Some run' /\ r_state run' = r_state run) /\ run_moves t' id = run_moves t id).
Proof.
  intros Ht. cbv zeta. pose proof (executes_refine t ops (reached_ok _ Ht)) as Hsteps. destruct (steps_kept _ _ Hsteps) as [Hj Hr]. split.
  - intros id job Hjob Hterm. apply life_job_lookup in Hjob. destruct (Hj _ _ Hjob) as (j' & Hj' & _ & _ & Hsame).
    rewrite (Hsame Hterm) in Hj'. apply lookup_fmap_Some in Hj' as (job' & Heq & Hjob'). split.
    + exists job'. by injection Heq as _ -> -> _ _.
    + rewrite !job_events_life. by rewrite (log_after_end _ _ _ _ Hsteps Hjob Hterm).
  - intros id run Hrun Hterm. apply life_run_lookup in Hrun. destruct (Hr _ _ Hrun) as (r' & Hr' & _ & _ & Hsame).
    rewrite (Hsame Hterm) in Hr'. apply lookup_fmap_Some in Hr' as (run' & Heq & Hrun'). split.
    + exists run'. by injection Heq as _ -> _ _ _.
    + rewrite !run_moves_life. by rewrite (moves_after_end _ _ _ _ Hsteps Hrun Hterm).
Qed.

(** No workspace ever has more than 256 queued jobs. *)
Theorem queue_is_bounded t workspace : reached t -> (count_queued t workspace <= MAX_QUEUED_JOBS_PER_WORKSPACE)%N.
Proof. intros Ht. rewrite count_queued_life. by apply reached_queue. Qed.

(** An artifact always belongs to a run, and an artifact of a typed run
    that can be seen, or once could, is of a run that succeeded: a run that
    fails, is cancelled or is lost never leaves an artifact visible. *)
Theorem typed_artifacts_follow_success t id a :
  reached t -> cp_artifact_refs t !! id = Some a ->
  exists run, cp_runs t !! a_run_id a = Some run /\
    (visible (a_state a) = true -> typed_operation (r_operation (run_columns run)) = true -> r_state run = RSucceeded).
Proof.
  intros Hok%reached_ok Ha. destruct (life_artifacts _ Hok _ _ _ (life_artifact_lookup _ _ _ Ha)) as (r & Hr & Hv).
  apply lookup_fmap_Some in Hr as (run & <- & Hrun). by exists run.
Qed.
End control.

(** ** On the sample job *)

#[local] Opaque after execute.

Lemma event_log_is_history_witness :
  job_events (after sample_done) 10%N = [JobQueued; JobRunning; JobSucceeded] /\
  exists h, job_path h Succeeded /\ job_events (after sample_done) 10%N = event_type_for_job_state <$> h.
Proof.
  split; [by vm_compute|]. destruct (event_log_is_history (after sample_done) (reached_after sample_done)) as (Hj & _ & _).
  destruct (cp_jobs (after sample_done) !! 10%N) as [row|] eqn:Hrow; [|by vm_compute in Hrow].
  destruct (Hj _ _ Hrow) as (h & Hh & Heq). exists h. split; [|exact Heq].
  replace Succeeded with (j_state row); [exact Hh|]. revert Hrow. vm_compute. intros Hrow. injection Hrow as <-. reflexivity.
Defined.
Lemma jobs_and_runs_agree_witness :
  exists run, cp_runs (after sample_done) !! 20%N = Some run /\ run_outcome Succeeded = Some (r_state run).
Proof.
  destruct (jobs_and_runs_agree (after sample_done) (reached_after sample_done)) as (Hj & _).
  destruct (cp_jobs (after sample_done) !! 10%N) as [row|] eqn:Hrow; [|by vm_compute in Hrow].
  destruct (Hj _ _ Hrow) as (_ & _ & _ & Hrun).
  assert (j_state row = Succeeded /\ j_run_id row = Some 20%N) as [Hs Hid]
    by (revert Hrow; vm_compute; intros Hrow; injection Hrow as <-; done).
  destruct (Hrun _ Hid) as (run & Hr & _ & Hout). exists run. rewrite Hs in Hout. split; [exact Hr|by apply Hout].
Defined.
Lemma terminal_is_final_witness :
  job_events (foldl execute (after sample_done) [OpReconcile [sample_recovery]]) 10%N = [JobQueued; JobRunning; JobSucceeded].
Proof.
  destruct (terminal_is_final (after sample_done) [OpReconcile [sample_recovery]] (reached_after sample_done)) as (Hj & _).
  destruct (cp_jobs (after sample_done) !! 10%N) as [row|] eqn:Hrow; [|by vm_compute in Hrow].
  destruct (Hj _ _ Hrow) as (_ & ->); [|by vm_compute]. revert Hrow. vm_compute. intros Hrow. by injection Hrow as <-.
Defined.
Lemma queue_is_bounded_witness : (1 <= count_queued (after [OpCatalog sample_catalog; sample_submit]) 1%N <= 256)%N.
Proof.
  split; [by vm_compute|]. exact (queue_is_bounded _ 1%N (reached_after [OpCatalog sample_catalog; sample_submit])).
Defined.
Lemma typed_artifacts_follow_success_witness :
  exists run, cp_runs (after sample_done) !! 20%N = Some run /\ r_state run = RSucceeded.
Proof.
  assert (a_run_id <$> cp_artifact_refs (after sample_done) !! 30%N = Some 20%N) as Hid by (by vm_compute).
  assert (a_state <$> cp_artifact_refs (after sample_done) !! 30%N = Some Committed) as Hst by (by vm_compute).
  assert ((fun r => typed_operation (r_operation (run_columns r))) <$> cp_runs (after sample_done) !! 20%N = Some true) as Hty by (by vm_compute).
  destruct (cp_artifact_refs (after sample_done) !! 30%N) as [a|] eqn:Ha; [|discriminate Hid].
  injection Hid as Hid. injection Hst as Hst.
  destruct (typed_artifacts_follow_success (after sample_done) 30%N a (reached_after sample_done) Ha) as (run & Hrun & Hs).
  rewrite Hid in Hrun. exists run. split; [exact Hrun|]. apply Hs; [by rewrite Hst|].
  apply (f_equal (fmap (fun r => typed_operation (r_operation (run_columns r))))) in Hrun.
  pose proof (eq_trans (eq_sym Hrun) Hty) as Hsome. by injection Hsome.
Defined.
