(* ===== verification/Queue.v ===== *)
(** * The durable queue: [ControlPlaneStore::next_queued_job]

    The reader of the queue answers, in order of submission, and fails the
    typed jobs it cannot decode on its way. *)

From Stdlib Require Import Sorted.
From S2P Require Import Prelude Text Secrets Logical Nodes Schedule Automation Hex Canonical Operations Jobs Submissions Outputs Lifecycle Reports Life Refines Reachable Sample.

#[export] Instance fifo_le_trans : Transitive fifo_le.
Proof. intros [i x] [j y] [k z]. unfold fifo_le. cbn. lia. Qed.
#[export] Instance fifo_le_total : Total fifo_le.
Proof. intros [i x] [j y]. unfold fifo_le. cbn. lia. Qed.

Section queue.
Context `{JobCodec} `{StoreFiles}.

(** A job that the queue of a workspace can give out. *)
Definition in_queue (t : Tables) (workspace : Uuid) (e : Uuid * JobRow) : Prop :=
  cp_jobs t !! e.1 = Some e.2 /\ queued_in workspace e.2 = true /\
  is_Some (cp_plan_versions (catalog t) !! j_plan_version_id (job_columns e.2)).
Lemma elem_of_queue t ws e : e ∈ queue_rows t ws <-> in_queue t ws e.
Proof.
  unfold queue_rows. rewrite merge_sort_Permutation, list_elem_of_filter. destruct e as [i r].
  rewrite elem_of_map_to_list. unfold in_queue. cbn. rewrite Is_true_true, andb_true_iff, bool_decide_eq_true. naive_solver.
Qed.
Lemma queue_sorted t ws : StronglySorted fifo_le (queue_rows t ws).
Proof. apply StronglySorted_merge_sort; apply _. Qed.

(** A turn that goes on has failed the first job of the queue. *)
Lemma queue_turn_next now eid ws t t' :
  queue_turn now eid ws t = inr t' ->
  exists id row rest row', queue_rows t ws = (id, row) :: rest /\ j_state row' = Failed /\
    cp_jobs t' = <[id := row']> (cp_jobs t) /\ catalog t' = catalog t.
Proof.
  unfold queue_turn. intros Hq. destruct (queue_rows t ws) as [|[id row] rest] eqn:Hrows; [done|].
  assert (in_queue t ws (id, row)) as (Hrow & Hqueued & _) by (apply elem_of_queue; rewrite Hrows; by left). cbn in Hrow.
  destruct (job_raw t id ≫= job_from_raw id); [done|]. destruct (_ && _); [|done].
  destruct (fail_corrupt_queued_job now eid t id) as [t1|] eqn:Hf; [|done]. injection Hq as <-.
  unfold fail_corrupt_queued_job in Hf. rewrite Hrow in Hf. cbn in Hf. unfold queued_in in Hqueued.
  apply andb_true_iff in Hqueued as [_ Hst]. cbn [snd] in Hst. rewrite Hst in Hf. cbn in Hf. inv_ok Hf.
  apply transition_job_tx_Ok in Hx1 as (row' & Hrow' & _ & ->). apply append_life in Hf as [_ [ev ->]].
  rewrite update_job_twice. do 4 eexists. split_and!; [done| |by cbn; rewrite (alter_lookup _ _ _ _ Hrow)|done]. done.
Qed.

(** The rest of the queue stays as it is. *)
Lemma in_queue_next ws t t' id row row' e :
  cp_jobs t !! id = Some row -> j_state row' = Failed -> cp_jobs t' = <[id := row']> (cp_jobs t) -> catalog t' = catalog t ->
  in_queue t' ws e <-> in_queue t ws e /\ e.1 <> id.
Proof.
  intros Hrow Hf Hj Hc. unfold in_queue. rewrite Hj, Hc. destruct e as [i r]. cbn. split.
  - intros ([[<- <-]|[Hne Hr]]%lookup_insert_Some & Hq & Hv); [|done].
    unfold queued_in in Hq. rewrite Hf in Hq. by rewrite andb_false_r in Hq.
  - intros [(Hr & Hq & Hv) Hne]. by rewrite lookup_insert_ne.
Qed.
Lemma sublist_fmap {A B} (f : A -> B) (l k : list A) : sublist l k -> sublist (f <$> l) (f <$> k).
Proof. induction 1; by constructor. Qed.
Lemma queue_rows_nodup t ws : NoDup (queue_rows t ws).*1.
Proof.
  unfold queue_rows. rewrite merge_sort_Permutation. eapply sublist_NoDup; [apply (NoDup_fst_map_to_list (cp_jobs t))|].
  apply sublist_fmap, sublist_filter.
Qed.
Lemma queue_rows_next ws t t' id row rest row' :
  queue_rows t ws = (id, row) :: rest -> j_state row' = Failed -> cp_jobs t' = <[id := row']> (cp_jobs t) -> catalog t' = catalog t ->
  queue_rows t' ws ≡ₚ rest.
Proof.
  intros Hrows Hf Hj Hc. pose proof (queue_rows_nodup t ws) as Hnd. rewrite Hrows in Hnd. cbn in Hnd.
  apply NoDup_cons in Hnd as [Hni Hnd]. apply NoDup_Permutation.
  - eapply NoDup_fmap_1, (queue_rows_nodup t' ws).
  - by eapply NoDup_fmap_1.
  - intros e. assert (in_queue t ws (id, row)) as (Hrow & _) by (apply elem_of_queue; rewrite Hrows; by left).
    rewrite elem_of_queue, (in_queue_next ws t t' id row row' e Hrow Hf Hj Hc), <- elem_of_queue, Hrows, elem_of_cons. split.
    + intros [[->|He] Hne]; [done|done].
    + intros He. split; [by right|]. intros <-. apply Hni. apply list_elem_of_fmap. by exists e.
Qed.

Lemma queue_loop_answers fuel now ids ws t :
  (length (queue_rows t ws) < fuel)%nat -> is_Some (queue_loop fuel now ids ws t).
Proof.
  revert t. induction fuel as [|fuel IH]; intros t Hl; [lia|]. cbn.
  destruct (queue_turn (now fuel) (ids fuel) ws t) as [a|t'] eqn:Hq; [by eexists|]. apply IH.
  destruct (queue_turn_next _ _ _ _ _ Hq) as (id & row & rest & row' & Hrows & Hf & Hj & Hc).
  rewrite (queue_rows_next _ _ _ _ _ _ _ Hrows Hf Hj Hc). rewrite Hrows in Hl. cbn in Hl. lia.
Qed.

(** C39: The reader of the queue always comes to an answer, however many
    corrupt jobs are in front: every turn takes one job off the queue. *)
Theorem next_queued_terminates now ids t ws : exists t' answer, next_queued_job now ids t ws = Some (t', answer).
Proof.
  unfold next_queued_job. destruct (validate_id ws "workspace") as [u|e]; [|by eauto].
  destruct (queue_loop_answers (S (length (queue_rows t ws))) now ids ws t) as [[t' a] ->]; [lia|by eauto].
Qed.

Definition failed_in (t : Tables) (e : Uuid * JobRow) : Prop := j_state <$> cp_jobs t !! e.1 = Some Failed.
(** What the answer says of the queue the reader started from. *)
Definition served (t t' : Tables) (ws : Uuid) (answer : option JobRecord) : Prop :=
  match answer with
  | None => forall e, in_queue t ws e -> failed_in t' e
  | Some job =>
      exists row, in_queue t ws (jr_id job, row) /\ cp_jobs t' !! jr_id job = Some row /\
        forall e, in_queue t ws e -> failed_in t' e \/ fifo_le (jr_id job, row) e
  end.

Lemma failed_next t t' id row row' e :
  cp_jobs t !! id = Some row -> j_state row' = Failed -> cp_jobs t' = <[id := row']> (cp_jobs t) -> failed_in t e -> failed_in t' e.
Proof.
  intros Hrow Hf Hj He. unfold failed_in in *. rewrite Hj. destruct (decide (e.1 = id)) as [->|Hne].
  - rewrite lookup_insert_eq. cbn. by rewrite Hf.
  - by rewrite lookup_insert_ne.
Qed.
Lemma queue_loop_failed fuel now ids ws t t' a e :
  queue_loop fuel now ids ws t = Some (t', a) -> failed_in t e -> failed_in t' e.
Proof.
  revert t. induction fuel as [|fuel IH]; intros t Hq He; [done|]. cbn in Hq.
  destruct (queue_turn (now fuel) (ids fuel) ws t) as [b|t1] eqn:Ht; [by injection Hq as <- _|].
  destruct (queue_turn_next _ _ _ _ _ Ht) as (id & row & rest & row' & Hrows & Hf & Hj & Hc).
  apply (IH t1 Hq). assert (in_queue t ws (id, row)) as (Hrow & _) by (apply elem_of_queue; rewrite Hrows; by left).
  by eapply failed_next.
Qed.
Lemma job_from_raw_id id raw job : job_from_raw id raw = Ok job -> jr_id job = id.
Proof. destruct raw as [row plan]. unfold job_from_raw. cbv zeta. intros Hj. inv_ok Hj. by injection Hj as <-. Qed.

Lemma queue_loop_serves fuel now ids ws t t' answer :
  queue_loop fuel now ids ws t = Some (t', Ok answer) -> served t t' ws answer.
Proof.
  revert t. induction fuel as [|fuel IH]; intros t Hq; [done|]. cbn in Hq.
  destruct (queue_turn (now fuel) (ids fuel) ws t) as [b|t1] eqn:Ht.
  - injection Hq as <- ->. unfold queue_turn in Ht. pose proof (queue_sorted t ws) as Hs.
    destruct (queue_rows t ws) as [|[id row] rest] eqn:Hrows.
    + injection Ht as <-. intros e He%elem_of_queue. rewrite Hrows in He. by apply elem_of_nil in He.
    + assert (in_queue t ws (id, row)) as Hin by (apply elem_of_queue; rewrite Hrows; by left).
      destruct (job_raw t id ≫= job_from_raw id) as [job|error] eqn:Hjob; [|by repeat case_match].
      injection Ht as <-. apply bind_Ok in Hjob as (raw & _ & Hid%job_from_raw_id). cbn. rewrite Hid.
      exists row. split_and!; [done|apply Hin|]. intros e He%elem_of_queue. rewrite Hrows in He. right.
      apply elem_of_cons in He as [->|He]; [unfold fifo_le; cbn; lia|].
      inversion_clear Hs as [|? ? _ Hall]. rewrite Forall_forall in Hall. by apply Hall.
  - destruct (queue_turn_next _ _ _ _ _ Ht) as (id & row & rest & row' & Hrows & Hf & Hj & Hc).
    assert (in_queue t ws (id, row)) as (Hrow & _) by (apply elem_of_queue; rewrite Hrows; by left). cbn in Hrow.
    pose proof (fun e => in_queue_next ws t t1 id row row' e Hrow Hf Hj Hc) as Hnext.
    assert (forall e, in_queue t ws e -> in_queue t1 ws e \/ failed_in t' e) as Hsplit.
    { intros e He. destruct (decide (e.1 = id)) as [Heq|Hne]; [right|left; by apply Hnext].
      eapply queue_loop_failed; [done|]. unfold failed_in. rewrite Heq, Hj, lookup_insert_eq. cbn. by rewrite Hf. }
    specialize (IH t1 Hq). destruct answer as [job|]; cbn in *.
    + destruct IH as (r & Hin & Hr & Hall). exists r. split_and!; [by apply Hnext|done|].
      intros e He. destruct (Hsplit e He) as [He1|?]; [by apply Hall|by left].
    + intros e He. destruct (Hsplit e He) as [He1|?]; [by apply IH|done].
Qed.

(** The queue is first in, first out: the job that is given out was
    queued and still is, every job that was queued before it has been failed
    as corrupt, and when nothing is given out every queued job has been. *)
Theorem next_queued_fifo now ids t ws t' answer :
  next_queued_job now ids t ws = Some (t', Ok answer) -> served t t' ws answer.
Proof. unfold next_queued_job. destruct (validate_id ws "workspace"); [|done]. apply queue_loop_serves. Qed.
End queue.

#[local] Opaque after execute.
Lemma next_queued_fifo_witness :
  exists t' job, next_queued_job (fun _ => 9%Z) (fun _ => 900%N) (after [OpCatalog sample_catalog; sample_submit]) 1%N = Some (t', Ok (Some job))
    /\ jr_id job = 10%N /\ served (after [OpCatalog sample_catalog; sample_submit]) t' 1%N (Some job).
Proof.
  assert (exists t' job, next_queued_job (fun _ => 9%Z) (fun _ => 900%N) (after [OpCatalog sample_catalog; sample_submit]) 1%N
            = Some (t', Ok (Some job)) /\ jr_id job = 10%N) as (t' & job & Hn & Hid) by (vm_compute; eauto).
  exists t', job. split_and!; [exact Hn|exact Hid|]. exact (next_queued_fifo _ _ _ _ _ _ Hn).
Defined.
