(* ===== verification/Recovery.v ===== *)
(** * Recovery after a restart: [ControlPlaneStore::reconcile_jobs]

    A batch of lost jobs is failed in one transaction; doing it again changes
    nothing. *)

From S2P Require Import Prelude Text Secrets Logical Nodes Schedule Automation Hex Canonical Operations Jobs Submissions Outputs Lifecycle Reports Life Refines Reachable Sample.

Section recovery.
Context `{JobCodec} `{StoreFiles}.

(** A draft whose job and run have ended: there is nothing left to do. *)
Definition settled (t : Tables) (d : JobRecoveryDraft) : Prop :=
  exists job run,
    job_raw t (rd_job_id d) = Ok job /\ run_raw t (rd_run_id d) = Ok run /\
    j_run_id job.1 = Some (rd_run_id d) /\ r_job_id (run_columns run) = rd_job_id d /\
    r_workspace_id (run_columns run) = j_workspace_id (job_columns job.1) /\
    r_session_id (run_columns run) = j_session_id (job_columns job.1) /\
    job_is_terminal (j_state job.1) = true /\ run_is_terminal (r_state run) = true.
Definition well_formed (d : JobRecoveryDraft) : Prop :=
  validate_id (rd_job_id d) "reconciliation Job" = Ok tt /\ validate_id (rd_run_id d) "reconciliation Run" = Ok tt /\
  category (rd_failure d) = "worker_lost".

Lemma reconcile_settled t d : well_formed d -> settled t d -> reconcile_one t d = Ok (t, mkRecoveryResult (rd_job_id d) false).
Proof.
  intros (Hj & Hr & Hc) (job & run & Hjob & Hrun & H1 & H2 & H3 & H4 & H5 & H6). unfold reconcile_one.
  rewrite Hj, Hr, Hjob, Hrun, Hc. cbn. by rewrite H1, H2, H3, H4, H5, H6, !bool_decide_eq_true_2, !N.eqb_refl by done.
Qed.

(** What one recovery writes: rows that were active and now have failed. *)
Lemma reconcile_one_writes t d t' r :
  reconcile_one t d = Ok (t', r) ->
  well_formed d /\ r = mkRecoveryResult (rd_job_id d) (reconciled r) /\ settled t' d /\
  (t' = t \/
   catalog t' = catalog t /\
   (exists job, cp_jobs t !! rd_job_id d = Some job /\ job_active (j_state job) = true) /\
   (exists run, cp_runs t !! rd_run_id d = Some run /\ run_active (r_state run) = true) /\
   (forall i, i <> rd_job_id d -> cp_jobs t' !! i = cp_jobs t !! i) /\
   (forall i, i <> rd_run_id d -> cp_runs t' !! i = cp_runs t !! i)).
Proof.
  unfold reconcile_one. intros Ht. apply bind_Ok in Ht as ([] & Hj & Ht). apply bind_Ok in Ht as ([] & Hr & Ht).
  inv_ok Ht. cbv zeta in Ht. inv_ok Ht. bools.
  assert (well_formed d) as Hwf by (split_and!; [exact Hj|exact Hr|exact Hb]).
  destruct Hb0 as (((Hlink & Hjob) & Hws) & Hse).
  destruct (_ && _) eqn:Hterm in Ht; [injection Ht as <- <-; bools|].
  - destruct Hterm. split_and!; [done|done| |by left]. exists x, x0. done.
  - inv_ok Ht. injection Ht as <- <-. clear Hterm. apply job_raw_fst in Hx as Hrow. apply run_raw_Ok in Hx0 as Hrun. bools.
    destruct Hb0 as [Hja Hra].
    apply transition_run_tx_Ok in Hx3 as (? & _ & _ & ->). apply transition_job_tx_Ok in Hx4 as (? & _ & _ & ->).
    apply append_life in Hx5 as [_ [e1 ->]], Hx6 as [_ [e2 ->]], Hx7 as [_ [e3 ->]].
    rewrite update_job_twice, update_run_twice. split_and!; [done|done| |right; split_and!; [done|by eauto|by eauto| |]].
    + unfold settled, job_raw, run_raw. cbn. rewrite (alter_lookup _ _ _ _ Hrow), (alter_lookup _ _ _ _ Hrun), !lookup_insert_eq. cbn.
      unfold job_raw in Hx. rewrite Hrow in Hx. destruct (cp_plan_versions _ !! _) eqn:Hv; [|done].
      eexists (_, _), _. split_and!; [done|done|done..].
    + intros i Hi. cbn. by rewrite lookup_alter_ne.
    + intros i Hi. cbn. by rewrite lookup_alter_ne.
Qed.

Lemma settled_kept t d t' r e : reconcile_one t d = Ok (t', r) -> settled t e -> settled t' e.
Proof.
  intros (_ & _ & _ & [->|(Hcat & (job & Hjob & Hja) & (run & Hrun & Hra) & Hjobs & Hruns)])%reconcile_one_writes Hs; [done|].
  destruct Hs as (j & q & Hj & Hq & Hrest).
  assert (rd_job_id e <> rd_job_id d) as Hnj.
  { intros Heq. rewrite Heq in Hj. apply job_raw_fst in Hj. destruct Hrest as (_ & _ & _ & _ & Hterm & _). simplify_eq.
    by destruct (j_state j.1). }
  assert (rd_run_id e <> rd_run_id d) as Hnr.
  { intros Heq. rewrite Heq in Hq. apply run_raw_Ok in Hq. destruct Hrest as (_ & _ & _ & _ & _ & Hterm). rewrite Hrun in Hq. injection Hq as <-.
    by destruct (r_state run). }
  exists j, q. split_and!; [| |apply Hrest..].
  - unfold job_raw. by rewrite Hjobs, Hcat.
  - unfold run_raw. by rewrite Hruns.
Qed.

Lemma reconcile_fold ds t rs t' rs' :
  fold_result (fun acc d => done_ ← reconcile_one acc.1 d; Ok (done_.1, acc.2 ++ [done_.2])) (t, rs) ds = Ok (t', rs') ->
  Forall well_formed ds /\ Forall (settled t') ds /\ (forall e, settled t e -> settled t' e) /\
  exists rest, rs' = rs ++ rest /\ res_job_id <$> rest = rd_job_id <$> ds.
Proof.
  revert t rs. induction ds as [|d ds IH]; intros t rs Ht; cbn in Ht.
  - injection Ht as <- <-. split_and!; [done|done|done|]. exists []. by rewrite app_nil_r.
  - apply bind_Ok in Ht as (s & Hs & Ht). apply bind_Ok in Hs as ([t1 r1] & Hd & [= <-]). cbn in Ht.
    destruct (IH _ _ Ht) as (Hwf & Hset & Hkeep & rest & -> & Hids).
    destruct (reconcile_one_writes _ _ _ _ Hd) as (Hw & Hr & Hsd & _). split_and!; [by constructor|constructor; auto| |].
    + intros e He. apply Hkeep. by eapply settled_kept.
    + exists (r1 :: rest). rewrite <- app_assoc. split; [done|]. rewrite !fmap_cons, Hids, Hr. done.
Qed.
Lemma settled_fold ds t rs :
  Forall well_formed ds -> Forall (settled t) ds ->
  fold_result (fun acc d => done_ ← reconcile_one acc.1 d; Ok (done_.1, acc.2 ++ [done_.2])) (t, rs) ds =
  Ok (t, rs ++ ((fun d => mkRecoveryResult (rd_job_id d) false) <$> ds)).
Proof.
  revert rs. induction ds as [|d ds IH]; intros rs Hwf Hset; cbn; [by rewrite app_nil_r|].
  apply Forall_cons in Hwf as [Hw Hwf]. apply Forall_cons in Hset as [Hs Hset].
  rewrite (reconcile_settled _ _ Hw Hs). cbn. rewrite IH by done. by rewrite <- app_assoc.
Qed.

(** A recovery that has been committed has ended every job and run of its
    batch, reports on each, and doing it again changes nothing and reports
    each as already settled: reconciliation is idempotent. *)
Theorem reconcile_idempotent t drafts t' results :
  reconcile_jobs t drafts = Ok (t', results) ->
  Forall (settled t') drafts /\ res_job_id <$> results = rd_job_id <$> drafts /\
  reconcile_jobs t' drafts = Ok (t', (fun d => mkRecoveryResult (rd_job_id d) false) <$> drafts).
Proof.
  unfold reconcile_jobs. destruct (_ <? _)%N; [done|]. intros (Hwf & Hset & _ & rest & -> & Hids)%reconcile_fold.
  split_and!; [done|done|]. by rewrite settled_fold.
Qed.
End recovery.

#[local] Opaque after execute reconcile_jobs.
Lemma reconcile_idempotent_witness :
  exists t, execute (after sample_run) (OpReconcile [sample_recovery]) = t /\ t <> after sample_run /\
    reconcile_jobs t [sample_recovery] = Ok (t, [mkRecoveryResult 10%N false]).
Proof.
  assert (exists t r, reconcile_jobs (after sample_run) [sample_recovery] = Ok (t, r)) as (t & r & Hr) by (vm_compute; eauto).
  destruct (reconcile_idempotent _ _ t r Hr) as (_ & _ & Hagain).
  exists t. split_and!; [|intros ->|exact Hagain].
  - with_strategy transparent [execute] cbn [execute]. by rewrite Hr.
  - apply (f_equal (fun x => match x with Ok (u, _) => length (cp_events u) | Err _ => 0%nat end)) in Hr. by vm_compute in Hr.
Defined.
