(* ===== verification/Replay.v ===== *)
(** * Submissions are idempotent: [ControlPlaneStore::submit_job]

    The idempotency key of a submission is kept with the job it made; no
    operation on jobs touches it again, so the same key gives the same job
    until a retention pass takes the job away. *)

From S2P Require Import Prelude Text Secrets Logical Nodes Schedule Automation Hex Canonical Operations Jobs Submissions Outputs Lifecycle Reports Life Refines Reachable Frame Sample.

Notation keys := cp_idempotency_keys.

Section replay.
Context `{JobCodec} `{StoreFiles}.

(** ** Submitting *)

Lemma bind_plan_same t s b :
  bind_plan t s = Ok b -> js_workspace_id b = js_workspace_id s /\ js_idempotency_key b = js_idempotency_key s /\ js_job_id b = js_job_id s.
Proof.
  unfold bind_plan. intros Hb. destruct (js_operation s); [|by injection Hb as <-]. cbv zeta in Hb. inv_ok Hb. by injection Hb as <-.
Qed.

(** A key that is there is answered from the table. *)
Lemma submit_known t s b key :
  submission_validate s = Ok tt -> bind_plan t s = Ok b -> keys t !! (js_workspace_id s, js_idempotency_key s) = Some key ->
  submit_job t s =
    if negb (bool_decide (key_request_digest key = digest_hex (js_request_digest b))) then Err (AlreadyExists (key_job_id key)) else
    result ← parse_json (key_result_json key) "idempotency result";
    try! validate_safe_json false result;
    job ← job_from_transaction t (key_job_id key);
    Ok (t, JobReplayed job).
Proof.
  intros Hv Hb Hk. unfold submit_job. rewrite Hv. cbn. rewrite Hb. cbn. destruct (bind_plan_same _ _ _ Hb) as (-> & -> & _). by rewrite Hk.
Qed.
Lemma job_from_transaction_id t id job : job_from_transaction t id = Ok job -> jr_id job = id.
Proof.
  unfold job_from_transaction. intros Hj. apply bind_Ok in Hj as ([row plan] & _ & Hj). unfold job_from_raw in Hj. cbv zeta in Hj.
  inv_ok Hj. by injection Hj as <-.
Qed.
(** The answer that is kept with a key. *)
Definition kept_answer (job_id : Uuid) : string :=
  default "" (json_print (JObject [("jobId", uuid_value job_id); ("state", JString "queued")])).
Lemma submit_created t s t' job :
  submit_job t s = Ok (t', JobCreated job) ->
  exists b, bind_plan t s = Ok b /\ keys t !! (js_workspace_id s, js_idempotency_key s) = None /\ jr_id job = js_job_id s /\
    keys t' = <[(js_workspace_id s, js_idempotency_key s) :=
                  mkKey (digest_hex (js_request_digest b)) (js_job_id s) (kept_answer (js_job_id s))]> (keys t).
Proof.
  unfold submit_job. intros Ht. apply bind_Ok in Ht as (u & _ & Ht). apply bind_Ok in Ht as (b & Hb & Ht).
  destruct (bind_plan_same _ _ _ Hb) as (Hw & Hk & Hj). rewrite Hw, Hk, Hj in Ht.
  destruct (keys t !! _) eqn:Hkey; [inv_ok Ht; discriminate Ht|]. cbv zeta in Ht. inv_ok Ht. injection Ht as <- <-.
  apply job_from_transaction_id in Hx9. exists b. split_and!; [done|done|done|].
  match goal with Hx : append_event_tx _ _ = Ok _ |- _ => by apply append_life in Hx as [_ [? ->]] end.
Qed.
Lemma submit_keys t s t' o k v : submit_job t s = Ok (t', o) -> keys t !! k = Some v -> keys t' !! k = Some v.
Proof.
  destruct o as [job|job]; intros Hs Hk.
  - apply submit_created in Hs as (b & _ & Hn & _ & ->). rewrite lookup_insert_ne; [done|]. intros <-. congruence.
  - unfold submit_job in Hs. apply bind_Ok in Hs as (u & _ & Hs). apply bind_Ok in Hs as (b & _ & Hs).
    destruct (keys t !! (_, _)); [inv_ok Hs; by injection Hs as <- _|]. cbv zeta in Hs. inv_ok Hs. discriminate Hs.
Qed.

Lemma execute_keys t op k v : keys t !! k = Some v -> keys (execute t op) !! k = Some v.
Proof.
  intros Hk. destruct op as [c|s| | | | | | | | | | | | | |] eqn:Hop; [done| |by change (keys ?t) with (frame t).1.1; rewrite execute_frame..].
  cbn [execute]. unfold committed. destruct (submit_job t s) as [[t' o]|] eqn:Hs; [by eapply submit_keys|done].
Qed.
Lemma executes_keys t ops k v : keys t !! k = Some v -> keys (foldl execute t ops) !! k = Some v.
Proof. revert t. induction ops as [|op ops IH]; intros t Hk; [done|]. by apply IH, execute_keys. Qed.

(** C34: Submitting is idempotent per workspace and key.  Once a submission
    has created a job, then after any further operations on jobs (retention
    apart, which deletes keys) another submission with the same workspace and
    key never creates anything.  When it succeeds, its request has the same
    digest, the tables stay as they are and the answer is the first job,
    under whatever job identity it was made; it does succeed when it is
    valid, its plan binds, its digest is the same and the kept answer and the
    job can be read; and when it is valid, its plan binds and its digest is
    another one, it is refused with the first job's identity. *)
Theorem submission_idempotent t s t1 job ops s' :
  submit_job t s = Ok (t1, JobCreated job) ->
  js_workspace_id s' = js_workspace_id s -> js_idempotency_key s' = js_idempotency_key s ->
  let t2 := foldl execute t1 ops in
  exists b, bind_plan t s = Ok b /\ jr_id job = js_job_id s /\
  (forall b', submission_validate s' = Ok tt -> bind_plan t2 s' = Ok b' ->
     digest_hex (js_request_digest b') <> digest_hex (js_request_digest b) ->
     submit_job t2 s' = Err (AlreadyExists (js_job_id s))) /\
  (forall b' v old, submission_validate s' = Ok tt -> bind_plan t2 s' = Ok b' ->
     digest_hex (js_request_digest b') = digest_hex (js_request_digest b) ->
     json_parse (kept_answer (js_job_id s)) = Some v -> validate_safe_json false v = Ok tt ->
     get_job t2 (js_job_id s) = Ok old -> submit_job t2 s' = Ok (t2, JobReplayed old)) /\
  (forall t3 o, submit_job t2 s' = Ok (t3, o) ->
     t3 = t2 /\ (exists old, o = JobReplayed old /\ jr_id old = js_job_id s) /\
     exists b', bind_plan t2 s' = Ok b' /\ digest_hex (js_request_digest b') = digest_hex (js_request_digest b)).
Proof.
  intros (b & Hb & _ & Hid & Hkeys)%submit_created Hw Hk t2.
  assert (keys t2 !! (js_workspace_id s', js_idempotency_key s') =
          Some (mkKey (digest_hex (js_request_digest b)) (js_job_id s) (kept_answer (js_job_id s))))
    as Hkey by (apply executes_keys; by rewrite Hkeys, Hw, Hk, lookup_insert_eq).
  exists b. split_and!; [done|done| | |].
  - intros b' Hv Hb' Hne. rewrite (submit_known _ _ _ _ Hv Hb' Hkey). cbn. by rewrite bool_decide_eq_false_2 by congruence.
  - intros b' v old Hv Hb' Heq Hp Hsafe Hget. rewrite (submit_known _ _ _ _ Hv Hb' Hkey). cbn [key_request_digest key_result_json key_job_id].
    rewrite bool_decide_eq_true_2 by congruence. unfold parse_json. rewrite Hp. cbn. rewrite Hsafe. cbn.
    unfold get_job in Hget. by rewrite Hget.
  - intros t3 o Hs. assert (exists b', submission_validate s' = Ok tt /\ bind_plan t2 s' = Ok b') as (b' & Hv & Hb').
    { unfold submit_job in Hs. apply bind_Ok in Hs as ([] & Hv & Hs). apply bind_Ok in Hs as (b' & Hb' & _). eauto. }
    rewrite (submit_known _ _ _ _ Hv Hb' Hkey) in Hs. cbn in Hs. inv_ok Hs. injection Hs as <- <-. bools.
    split_and!; [done|eexists; split; [done|]; by eapply job_from_transaction_id|by exists b'].
Qed.
End replay.

(** The second submission has its own job identity and gets the first job. *)
#[local] Opaque after execute.
Lemma submission_idempotent_witness :
  let t := after [OpCatalog sample_catalog] in
  let t1 := execute t (OpSubmit (sample_submission 10%N 100%N "key")) in
  exists job old, submit_job t (sample_submission 10%N 100%N "key") = Ok (t1, JobCreated job) /\
    submit_job t1 (sample_submission 11%N 200%N "key") = Ok (t1, JobReplayed old) /\ jr_id old = 10%N.
Proof.
  assert (exists job, submit_job (after [OpCatalog sample_catalog]) (sample_submission 10%N 100%N "key")
            = Ok (execute (after [OpCatalog sample_catalog]) (OpSubmit (sample_submission 10%N 100%N "key")), JobCreated job))
    as (job & Hs) by (vm_compute; eauto).
  assert (exists t3 o, submit_job (execute (after [OpCatalog sample_catalog]) (OpSubmit (sample_submission 10%N 100%N "key")))
            (sample_submission 11%N 200%N "key") = Ok (t3, o)) as (t3 & o & Hs') by (vm_compute; eauto).
  destruct (submission_idempotent _ _ _ _ [] (sample_submission 11%N 200%N "key") Hs) as (b & _ & _ & _ & _ & Hok); [by vm_compute..|].
  destruct (Hok t3 o Hs') as (Heq & (old & -> & Hid) & _). subst t3.
  exists job, old. split_and!; [exact Hs|exact Hs'|exact Hid].
Defined.
