(* ===== verification/Pages.v ===== *)
(** * Reading a drift report page by page

    A client that follows the cursors of [list_drift_report_findings]
    ([stillflow-storage/src/profile_history.rs]) reads the whole report. *)

From S2P Require Import Prelude Text Secrets Logical Nodes Schedule Automation Hex Canonical Operations Jobs Submissions Outputs Lifecycle Reports Life Refines Reachable Sample.

Section pages.
Context `{JobCodec} `{StoreFiles}.

(** The pages from a cursor to the end, as a client reads them. *)
Fixpoint read_pages (fuel : nat) (t : Tables) (id : Uuid) (cursor : option DriftReportCursor) (limit : N) : Stored (list json) :=
  match fuel with
  | O => Err (Panic "out of fuel")
  | S fuel =>
      page ← list_drift_report_findings t id cursor limit;
      match rp_next page with
      | None => Ok (rp_findings page)
      | Some next => rest ← read_pages fuel t id (Some next) limit; Ok (rp_findings page ++ rest)
      end
  end.

(** The findings of a report as a whole. *)
Definition report_findings (t : Tables) (id : Uuid) : option (Digest * list json) :=
  match get_artifact_body t id with
  | Ok report =>
      if bool_decide (ab_artifact_kind report = KindDriftReport)
      then value ← json_parse_bytes (ab_body report);
           findings ← json_get value "findings" ≫= as_array;
           Some (ab_content_digest report, findings)
      else None
  | Err _ => None
  end.

Lemma list_findings_page t id digest findings cursor limit :
  is_nil id = false -> (0 < limit <= DRIFT_MAX_REPORT_PAGE_SIZE)%N -> report_findings t id = Some (digest, findings) ->
  (forall c, cursor = Some c -> rcu_report_digest c = digest /\ (rcu_offset c <= len findings)%N) ->
  let offset := match cursor with Some c => rcu_offset c | None => 0%N end in
  let end_ := N.min (offset + limit) (len findings) in
  list_drift_report_findings t id cursor limit =
  Ok (mkReportPage id digest (take (N.to_nat end_ - N.to_nat offset) (drop (N.to_nat offset) findings))
        (if (end_ <? len findings)%N then Some (mkReportCursor digest end_) else None)).
Proof.
  intros Hid Hl Hr Hc offset end_. unfold report_findings in Hr. unfold list_drift_report_findings.
  destruct (get_artifact_body t id) as [report|]; [|done]. destruct (bool_decide (ab_artifact_kind report = _)) eqn:Hk; [|done].
  rewrite Hid. replace (limit =? 0)%N with false by (symmetry; apply N.eqb_neq; lia).
  replace (_ <? limit)%N with false by (symmetry; apply N.ltb_ge; lia). cbn. rewrite Hk. cbn.
  destruct (json_parse_bytes _) as [value|]; [|done]. cbn in Hr |- *. destruct (json_get value "findings" ≫= as_array) as [l|]; [|done].
  cbn in Hr |- *. injection Hr as <- <-. destruct cursor as [c|]; cbn.
  - destruct (Hc c eq_refl) as [-> Ho]. rewrite bool_decide_eq_true_2 by done. cbn. by rewrite (proj2 (N.ltb_ge _ _) Ho).
  - by destruct (len l <? 0)%N eqn:Hlt; [apply N.ltb_lt in Hlt; lia|].
Qed.

Lemma read_pages_from t id digest findings limit fuel cursor :
  is_nil id = false -> (0 < limit <= DRIFT_MAX_REPORT_PAGE_SIZE)%N -> report_findings t id = Some (digest, findings) ->
  (forall c, cursor = Some c -> rcu_report_digest c = digest /\ (rcu_offset c <= len findings)%N) ->
  let offset := N.to_nat (match cursor with Some c => rcu_offset c | None => 0%N end) in
  (length findings - offset < fuel)%nat ->
  read_pages fuel t id cursor limit = Ok (drop offset findings).
Proof.
  intros Hid Hl Hr. revert cursor. induction fuel as [|fuel IH]; intros cursor Hc offset Hfuel; [lia|].
  cbn [read_pages]. rewrite (list_findings_page t id digest findings cursor limit Hid Hl Hr Hc). cbn.
  set (o := match cursor with Some c => rcu_offset c | None => 0%N end) in *. subst offset.
  assert (o <= len findings)%N as Ho by (subst o; destruct cursor as [c|]; [by apply Hc|lia]). unfold len in *.
  set (end_ := N.min (o + limit) (N.of_nat (length findings))). destruct (end_ <? N.of_nat (length findings))%N eqn:Hend.
  - apply N.ltb_lt in Hend. rewrite (IH (Some (mkReportCursor digest end_))); cbn.
    + f_equal. rewrite <- (take_drop (N.to_nat end_ - N.to_nat o) (drop (N.to_nat o) findings)) at 2. f_equal.
      rewrite drop_drop. f_equal. lia.
    + intros c [= <-]. cbn. split; [done|lia].
    + lia.
  - apply N.ltb_ge in Hend. f_equal. apply take_ge. rewrite length_drop. lia.
Qed.

(** Reading a committed drift report page by page, with any page size the
    bound allows, ends and gives exactly the findings of the report in their
    order: no finding is lost or repeated at a page boundary. *)
Theorem read_pages_complete t id digest findings limit :
  is_nil id = false -> (0 < limit <= DRIFT_MAX_REPORT_PAGE_SIZE)%N -> report_findings t id = Some (digest, findings) ->
  read_pages (S (length findings)) t id None limit = Ok findings.
Proof. intros Hid Hl Hr. rewrite (read_pages_from t id digest findings limit _ None Hid Hl Hr); [done|done|]. cbn. lia. Qed.
End pages.

(** A report with five findings, read in pages of two. *)
Definition sample_report : Tables :=
  mkTables sample_catalog ∅ ∅ [] ∅
    {[30%N := mkArtifact 1%N 20%N KindDriftReport EXTERNAL_ARTIFACT 9%N (digest_hex (sample_sha [1%N])) "{}" Committed 0%Z (Some 0%Z) None]}
    {[30%N := mkBody KindDriftReport 1%Z (digest_hex (sample_sha [1%N])) [1%N] "{}" Committed 0%Z (Some 0%Z)]} ∅.
Lemma read_pages_complete_witness :
  read_pages 6 sample_report 30%N None 2%N = Ok sample_findings /\ length sample_findings = 5%nat.
Proof.
  split; [|done]. apply (read_pages_complete sample_report 30%N (sample_sha [1%N]) sample_findings 2%N); by vm_compute.
Defined.
