(* ===== verification/ProfileHistory.v ===== *)
(** * The history of profiles: [stillflow-storage/src/profile_history.rs]

    Every committed profile of a dataset is recorded under the next number of
    the dataset; entries are listed, tombstoned and chosen as the baseline of
    a comparison.  The jobs see some columns of the table
    ([qd1_profile_history] of their catalog); here is the whole table. *)

From S2P Require Import Prelude Text Secrets Logical Schema Expression Rule Plan Nodes Registry Schedule Automation Keyset Hex Canonical Operations Jobs Submissions Outputs Lifecycle Reports Life Refines Reachable.

Definition PROFILE_HISTORY_PROFILE_CONTRACT_VERSION : N := 1.
Definition PROFILE_HISTORY_POLICY_VERSION : N := 1.
Definition DRIFT_MAX_HISTORY_PAGE_SIZE : N := 100.
Definition DRIFT_MAX_HISTORY_REFERENCE_BYTES : N := 1048576.

(** ** Data *)

Inductive ProfileHistoryState := HistoryActive | HistoryTombstoned.
#[export] Instance ProfileHistoryState_eq_dec : EqDecision ProfileHistoryState.
Proof. solve_decision. Defined.
Definition history_state_text (s : ProfileHistoryState) : string :=
  match s with HistoryActive => "active" | HistoryTombstoned => "tombstoned" end.
Record ProfileHistoryDraft := mkHistoryDraft {
  pd_history_id : Uuid;
  pd_workspace_id : Uuid;
  pd_dataset_id : Uuid;
  pd_profile_artifact_id : Uuid;
  pd_producing_run_id : Uuid;
  pd_profile_digest : Digest;
  pd_profile_contract_version : N;
  pd_drift_contract_version : N;
  pd_profile_policy_version : N;
  pd_top_k : N;
  pd_histogram_buckets : N;
  pd_schema_fingerprint : Digest;
  pd_schema : LogicalSchema;
  pd_row_count_scanned : N;
  pd_scanned_bytes : N;
  pd_truncated : bool;
  pd_profile_sequence : N;
  pd_created_at : DateTime;
}.
Record ProfileHistoryEntry := mkHistoryEntry {
  ph_history_id : Uuid;
  ph_workspace_id : Uuid;
  ph_dataset_id : Uuid;
  ph_profile_artifact_id : Uuid;
  ph_producing_run_id : Uuid;
  ph_profile_digest : Digest;
  ph_profile_contract_version : N;
  ph_drift_contract_version : N;
  ph_profile_policy_version : N;
  ph_top_k : N;
  ph_histogram_buckets : N;
  ph_schema_fingerprint : Digest;
  ph_schema : LogicalSchema;
  ph_row_count_scanned : N;
  ph_scanned_bytes : N;
  ph_truncated : bool;
  ph_profile_sequence : N;
  ph_state : ProfileHistoryState;
  ph_created_at : DateTime;
  ph_tombstoned_at : option DateTime;
}.
Record ProfileHistoryCursor := mkHistoryCursor {
  hc_workspace_id : Uuid;
  hc_dataset_id : Uuid;
  hc_state : option ProfileHistoryState;
  hc_profile_sequence : N;
  hc_history_id : Uuid;
}.
Record ProfileHistoryPage := mkHistoryPage { hp_entries : list ProfileHistoryEntry; hp_next : option ProfileHistoryCursor }.

(** A row, under its history identity: what the jobs read of it and the rest. *)
Record ProfileHistoryRow := mkProfileRow {
  pr_seen : HistoryRow;
  pr_profile_contract_version : Z;
  pr_drift_contract_version : Z;
  pr_profile_policy_version : Z;
  pr_top_k : Z;
  pr_histogram_buckets : Z;
  pr_schema_fingerprint : string;
  pr_schema_json : string;
  pr_row_count_scanned : Z;
  pr_scanned_bytes : Z;
  pr_truncated : Z;
  pr_created_at : DateTime;
  pr_tombstoned_at : option DateTime;
}.
Record Histories := mkHistories { hs_tables : Tables; hs_rows : gmap Uuid ProfileHistoryRow }.
Definition set_profile_history (m : gmap Uuid HistoryRow) (c : Catalog) : Catalog :=
  mkCatalog (cp_workspaces c) (cp_sessions c) (cp_plans c) (cp_plan_versions c) (cp_assets c) (cp_connections c) (cp_datasets c) (snapshots c)
    (verification_bundles c) m.
(** A write to the table is seen by the jobs. *)
Definition put_history (id : Uuid) (row : ProfileHistoryRow) (s : Histories) : Histories :=
  mkHistories (set_catalog (set_profile_history (<[id := pr_seen row]> (qd1_profile_history (catalog (hs_tables s)))) (catalog (hs_tables s))) (hs_tables s))
    (<[id := row]> (hs_rows s)).

(** serde_json on schemas and on the entries of a page. *)
Class HistoryCodec := {
  schema_print : LogicalSchema -> option string;
  schema_parse : string -> option LogicalSchema;
  entry_size : ProfileHistoryEntry -> option N;
}.

Section profile_history.
Context `{JobCodec} `{StoreFiles} `{HistoryCodec}.

(** ** Rows *)

Definition unsigned (max : N) (label : string) (z : Z) : Stored N :=
  if ((0 <=? z) && (z <=? Z.of_N max))%Z then Ok (Z.to_N z) else Err (Serialization label).
Definition u16_max : N := 65535.
Definition u64_max : N := 2 ^ 64 - 1.
Definition profile_history_from_raw (id : Uuid) (row : ProfileHistoryRow) : Stored ProfileHistoryEntry :=
  let h := pr_seen row in
  state ← if bool_decide (h_state h = "active") then Ok HistoryActive
          else if bool_decide (h_state h = "tombstoned") then Ok HistoryTombstoned
          else Err (Serialization "ProfileHistory state");
  schema ← ok_or (schema_parse (pr_schema_json row)) (Serialization "ProfileHistory schema");
  profile_digest ← history_digest (h_profile_digest h);
  schema_fingerprint ← history_digest (pr_schema_fingerprint row);
  profile_contract_version ← unsigned u16_max "ProfileHistory profile version" (pr_profile_contract_version row);
  drift_contract_version ← unsigned u16_max "ProfileHistory drift version" (pr_drift_contract_version row);
  profile_policy_version ← unsigned u16_max "ProfileHistory policy version" (pr_profile_policy_version row);
  top_k ← unsigned u64_max "ProfileHistory top_k" (pr_top_k row);
  histogram_buckets ← unsigned u64_max "ProfileHistory histogram buckets" (pr_histogram_buckets row);
  row_count_scanned ← unsigned u64_max "ProfileHistory row count" (pr_row_count_scanned row);
  scanned_bytes ← unsigned u64_max "ProfileHistory scanned bytes" (pr_scanned_bytes row);
  profile_sequence ← unsigned u64_max "ProfileHistory sequence" (h_profile_sequence h);
  Ok (mkHistoryEntry id (h_workspace_id h) (h_dataset_id h) (h_profile_artifact_id h) (h_producing_run_id h) profile_digest
        profile_contract_version drift_contract_version profile_policy_version top_k histogram_buckets schema_fingerprint schema
        row_count_scanned scanned_bytes (negb (pr_truncated row =? 0)%Z) profile_sequence state (pr_created_at row) (pr_tombstoned_at row)).
Definition profile_history_from_connection (s : Histories) (id : Uuid) : Stored ProfileHistoryEntry :=
  row ← ok_or (hs_rows s !! id) (NotFound id);
  profile_history_from_raw id row.
Definition profile_history_from_transaction : Histories -> Uuid -> Stored ProfileHistoryEntry := profile_history_from_connection.
Definition validate_history_scope (workspace dataset history : Uuid) : Stored unit :=
  if is_nil workspace || is_nil dataset || is_nil history then Err (InvalidDraft "ProfileHistory identity is nil") else Ok tt.
Definition get_profile_history (s : Histories) (workspace dataset history : Uuid) : Stored ProfileHistoryEntry :=
  try! validate_history_scope workspace dataset history;
  entry ← profile_history_from_connection s history;
  if negb (ph_workspace_id entry =? workspace)%N || negb (ph_dataset_id entry =? dataset)%N then Err (NotFound history) else Ok entry.

(** ** Bodies *)

Definition profile_type_name (t : LogicalType) : string :=
  match t with
  | TNull => "null" | TBoolean => "boolean"
  | TInt8 => "int8" | TInt16 => "int16" | TInt32 => "int32" | TInt64 => "int64"
  | TUInt8 => "uint8" | TUInt16 => "uint16" | TUInt32 => "uint32" | TUInt64 => "uint64"
  | TFloat32 => "float32" | TFloat64 => "float64"
  | TUtf8 => "utf8" | TBinary => "binary" | TDate32 => "date32"
  | TTimestamp Second _ => "timestamp_s"
  | TTimestamp Millisecond _ => "timestamp_ms"
  | TTimestamp Microsecond _ => "timestamp_us"
  | TTimestamp Nanosecond _ => "timestamp_ns"
  | TList _ => "list"
  | TStruct _ => "struct"
  end.
Definition as_map (v : json) : option json := match v with JObject _ => Some v | _ => None end.
(** What a profile is recorded with. *)
Record ProfileFacts := mkFacts {
  fa_digest : Digest;
  fa_profile_version : N;
  fa_policy_version : N;
  fa_top_k : N;
  fa_histogram_buckets : N;
  fa_schema_fingerprint : Digest;
  fa_schema : LogicalSchema;
  fa_row_count : N;
  fa_scanned_bytes : N;
  fa_truncated : bool;
}.
Definition column_name (column : json) : Stored string :=
  ok_or (json_get column "name" ≫= as_str) (InvalidDraft "ProfileHistory body column name is missing").
(** [windows(2)]: equal neighbours. *)
Fixpoint repeated_neighbour (names : list string) : bool :=
  match names with
  | a :: (b :: _) as rest => bool_decide (a = b) || repeated_neighbour rest
  | _ => false
  end.
Definition validate_body_column (fa : ProfileFacts) (column : json) : Stored unit :=
  column_name ← column_name column;
  field ← ok_or (List.find (fun f => bool_decide (name f = column_name)) (fields (fa_schema fa)))
            (InvalidDraft "ProfileHistory body column is outside the persisted schema");
  if negb (bool_decide (json_get column "type" ≫= as_str = Some (profile_type_name (data_type field))))
  then Err (InvalidDraft "ProfileHistory body column type does not match the persisted schema") else
  try! match json_get column "histogram" with
       | Some histogram =>
           counts ← ok_or (as_array (default histogram (json_get histogram "counts"))) (InvalidDraft "ProfileHistory histogram counts are invalid");
           if negb (len counts =? fa_histogram_buckets fa)%N
           then Err (InvalidDraft "ProfileHistory histogram bucket count does not match policy") else Ok tt
       | None => Ok tt
       end;
  match json_get column "top_values" ≫= as_array with
  | Some top_values => if (fa_top_k fa <? len top_values)%N then Err (InvalidDraft "ProfileHistory top values exceed policy") else Ok tt
  | None => Ok tt
  end.
(** The first half: the body itself. *)
Definition validate_body_report (fa : ProfileFacts) (body : list N) : Stored (list string) :=
  if negb (bool_decide (sha256 body = fa_digest fa)) then Err (InvalidManifest "ProfileHistory profile body digest mismatch") else
  value ← ok_or (json_parse_bytes body) (Serialization "ProfileHistory profile body");
  if negb (bool_decide (json_get value "artifact_type" ≫= as_str = Some "profile_report"))
     || negb (bool_decide (json_get value "artifact_body_version" ≫= as_u64 = Some 1%N))
     || negb (bool_decide (json_get value "profiling_contract_version" ≫= as_u64 = Some (fa_profile_version fa)))
  then Err (InvalidDraft "ProfileHistory body is not a compatible profile_report.v1") else
  dataset ← ok_or (json_get value "dataset" ≫= as_map) (InvalidDraft "ProfileHistory body dataset metrics are missing");
  if negb (bool_decide (json_get dataset "row_count_scanned" ≫= as_u64 = Some (fa_row_count fa)))
     || negb (bool_decide (json_get dataset "truncated" ≫= as_bool = Some (fa_truncated fa)))
  then Err (InvalidDraft "ProfileHistory body scan scope does not match persisted history") else
  columns ← ok_or (json_get value "columns" ≫= as_array) (InvalidDraft "ProfileHistory body columns are missing");
  if negb (bool_decide (json_get dataset "column_count_profiled" ≫= as_u64 = Some (len columns)))
  then Err (InvalidDraft "ProfileHistory body column count is inconsistent") else
  selected_columns ← collect column_name columns;
  if repeated_neighbour selected_columns then Err (InvalidDraft "ProfileHistory body contains duplicate columns") else
  try! each (validate_body_column fa) columns;
  Ok selected_columns.
(** The second half: where it says it comes from. *)
Definition validate_body_provenance (fa : ProfileFacts) (selected_columns : list string) (artifact_provenance : json) : Stored unit :=
  metadata ← ok_or (as_map artifact_provenance) (InvalidDraft "ProfileHistory artifact provenance is missing");
  canonical ← ok_or (json_get metadata "canonicalDigest" ≫= as_str) (InvalidDraft "ProfileHistory canonical digest provenance is missing");
  canonical ← history_digest canonical;
  if negb (bool_decide (canonical = fa_digest fa))
  then Err (InvalidDraft "ProfileHistory canonical digest provenance does not match body") else
  provenance ← ok_or (json_get metadata "provenance" ≫= as_map) (InvalidDraft "ProfileHistory scan provenance is missing");
  let mismatch := InvalidDraft "ProfileHistory policy or schema provenance does not match history" in
  if negb (bool_decide (json_get provenance "profilingContractVersion" ≫= as_u64 = Some (fa_profile_version fa)))
     || negb (bool_decide (json_get provenance "profilePolicyVersion" ≫= as_u64 = Some (fa_policy_version fa)))
     || negb (bool_decide (json_get provenance "topK" ≫= as_u64 = Some (fa_top_k fa)))
     || negb (bool_decide (json_get provenance "histogramBuckets" ≫= as_u64 = Some (fa_histogram_buckets fa)))
  then Err mismatch else
  fingerprint ← ok_or (json_get provenance "schemaFingerprint" ≫= as_str) (InvalidDraft "ProfileHistory schema fingerprint provenance is missing");
  fingerprint ← history_digest fingerprint;
  if negb (bool_decide (fingerprint = fa_schema_fingerprint fa)) then Err mismatch else
  columns ← ok_or (json_get provenance "selectedColumns" ≫= as_array) (InvalidDraft "ProfileHistory selected column provenance is missing");
  columns ← collect (fun column => ok_or (as_str column) (InvalidDraft "ProfileHistory selected column provenance is invalid")) columns;
  if negb (bool_decide (columns = selected_columns))
  then Err (InvalidDraft "ProfileHistory selected column provenance does not match body") else
  scan ← ok_or (json_get provenance "scan" ≫= as_map) (InvalidDraft "ProfileHistory scan provenance is missing");
  if negb (bool_decide (json_get scan "rowCountScanned" ≫= as_u64 = Some (fa_row_count fa)))
     || negb (bool_decide (json_get scan "scannedBytes" ≫= as_u64 = Some (fa_scanned_bytes fa)))
     || negb (bool_decide (json_get scan "truncated" ≫= as_bool = Some (fa_truncated fa)))
  then Err (InvalidDraft "ProfileHistory scan provenance does not match history") else
  each (fun n => if existsb (fun f => bool_decide (name f = n)) (fields (fa_schema fa)) then Ok tt
                 else Err (InvalidDraft "ProfileHistory body column is outside the persisted schema")) selected_columns.
Definition validate_profile_body (fa : ProfileFacts) (body : list N) (artifact_provenance : json) : Stored unit :=
  selected_columns ← validate_body_report fa body;
  validate_body_provenance fa selected_columns artifact_provenance.
(** The body is that of the artifact, run, workspace and digest recorded. *)
Definition body_belongs (workspace artifact run : Uuid) (digest : Digest) (body : ArtifactBodyRecord) : bool :=
  (ab_artifact_id body =? artifact)%N && bool_decide (ab_artifact_kind body = KindProfileReport) && (ab_run_id body =? run)%N
  && (ab_workspace_id body =? workspace)%N && bool_decide (ab_content_digest body = digest).
Definition draft_facts (d : ProfileHistoryDraft) : ProfileFacts :=
  mkFacts (pd_profile_digest d) (pd_profile_contract_version d) (pd_profile_policy_version d) (pd_top_k d) (pd_histogram_buckets d)
    (pd_schema_fingerprint d) (pd_schema d) (pd_row_count_scanned d) (pd_scanned_bytes d) (pd_truncated d).
Definition entry_facts (e : ProfileHistoryEntry) : ProfileFacts :=
  mkFacts (ph_profile_digest e) (ph_profile_contract_version e) (ph_profile_policy_version e) (ph_top_k e) (ph_histogram_buckets e)
    (ph_schema_fingerprint e) (ph_schema e) (ph_row_count_scanned e) (ph_scanned_bytes e) (ph_truncated e).
Definition validate_profile_history_draft_artifact (d : ProfileHistoryDraft) (body : ArtifactBodyRecord) : Stored unit :=
  if negb (body_belongs (pd_workspace_id d) (pd_profile_artifact_id d) (pd_producing_run_id d) (pd_profile_digest d) body)
  then Err (InvalidDraft "ProfileHistory artifact identity does not match the committed body") else
  validate_profile_body (draft_facts d) (ab_body body) (ab_provenance body).
Definition validate_profile_history_artifact (e : ProfileHistoryEntry) (body : ArtifactBodyRecord) : Stored unit :=
  if negb (body_belongs (ph_workspace_id e) (ph_profile_artifact_id e) (ph_producing_run_id e) (ph_profile_digest e) body)
  then Err (InvalidDraft "ProfileHistory artifact identity does not match history") else
  validate_profile_body (entry_facts e) (ab_body body) (ab_provenance body).
(** ** Recording *)

(** [LogicalSchemaFingerprint::try_from_schema] *)
Definition schema_fingerprint_of (schema : LogicalSchema) : option Digest :=
  match schema_validate schema with
  | Ok _ => text ← schema_print schema; Some (fingerprint_bytes (bytes_of text))
  | Err _ => None
  end.
Definition validate_draft (d : ProfileHistoryDraft) (allow_unassigned_sequence : bool) : Stored unit :=
  try! validate_history_scope (pd_workspace_id d) (pd_dataset_id d) (pd_history_id d);
  if is_nil (pd_profile_artifact_id d) || is_nil (pd_producing_run_id d)
  then Err (InvalidDraft "ProfileHistory artifact and Run identities must not be nil") else
  if (negb allow_unassigned_sequence && (pd_profile_sequence d =? 0)%N)
     || negb (pd_profile_contract_version d =? PROFILE_HISTORY_PROFILE_CONTRACT_VERSION)%N
     || negb (pd_drift_contract_version d =? PROFILE_HISTORY_DRIFT_CONTRACT_VERSION)%N
     || negb (pd_profile_policy_version d =? PROFILE_HISTORY_POLICY_VERSION)%N
     || (pd_top_k d =? 0)%N || (pd_histogram_buckets d =? 0)%N
  then Err (InvalidDraft "ProfileHistory versions, knobs, and sequence must be positive") else
  if negb (is_ok (schema_validate (pd_schema d))) then Err (InvalidDraft "ProfileHistory schema is invalid") else
  expected ← ok_or (schema_fingerprint_of (pd_schema d)) (InvalidDraft "ProfileHistory schema fingerprint failed");
  if negb (bool_decide (expected = pd_schema_fingerprint d))
  then Err (InvalidDraft "ProfileHistory schema fingerprint does not match schema") else Ok tt.
(** What is checked before the transaction begins. *)
Definition record_checked (t : Tables) (d : ProfileHistoryDraft) (allocate_sequence : bool) : Stored unit :=
  try! validate_draft d allocate_sequence;
  body ← get_artifact_body t (pd_profile_artifact_id d);
  if negb (bool_decide (ab_artifact_kind body = KindProfileReport)) || negb (ab_run_id body =? pd_producing_run_id d)%N
     || negb (ab_workspace_id body =? pd_workspace_id d)%N || negb (bool_decide (ab_content_digest body = pd_profile_digest d))
  then Err (InvalidDraft "ProfileHistory artifact identity does not match the committed body") else
  validate_profile_history_draft_artifact d body.
Definition ensure_history_scope (t : Tables) (d : ProfileHistoryDraft) : Stored unit :=
  if negb (bool_decide (fst <$> cp_datasets (catalog t) !! pd_dataset_id d = Some (pd_workspace_id d)))
  then Err (InvalidDraft "ProfileHistory Dataset is outside the Workspace") else
  a ← ok_or (cp_artifact_refs t !! pd_profile_artifact_id d) (NotFound (pd_profile_artifact_id d));
  if negb (a_workspace_id a =? pd_workspace_id d)%N || negb (a_run_id a =? pd_producing_run_id d)%N
     || negb (bool_decide (a_artifact_kind a = KindProfileReport)) || negb (bool_decide (a_state a = Committed))
  then Err (InvalidDraft "ProfileHistory requires a committed Profile artifact owned by the Run") else
  let dataset := row ← snapshots (catalog t) !! a_external_ref_id a; if (sn_state row =? 1)%Z then Some (sn_dataset_id row) else None in
  if negb (bool_decide (dataset = Some (pd_dataset_id d)))
  then Err (InvalidDraft "ProfileHistory artifact input is outside the Dataset") else Ok tt.

(** The rows of a dataset of a workspace. *)
Definition in_dataset (workspace dataset : Uuid) (row : ProfileHistoryRow) : bool :=
  (h_workspace_id (pr_seen row) =? workspace)%N && (h_dataset_id (pr_seen row) =? dataset)%N.
Definition row_sequence (row : ProfileHistoryRow) : Z := h_profile_sequence (pr_seen row).
Definition history_rows (s : Histories) (workspace dataset : Uuid) : list (Uuid * ProfileHistoryRow) :=
  filter (fun e => in_dataset workspace dataset e.2) (map_to_list (hs_rows s)).
Definition same_profile (artifact run : Uuid) (row : ProfileHistoryRow) : bool :=
  (h_profile_artifact_id (pr_seen row) =? artifact)%N && (h_producing_run_id (pr_seen row) =? run)%N.
Definition profile_history_by_identity (s : Histories) (workspace dataset artifact run : Uuid) : Stored (option ProfileHistoryEntry) :=
  match List.find (fun e => same_profile artifact run e.2) (history_rows s workspace dataset) with
  | Some (id, _) => entry ← profile_history_from_transaction s id; Ok (Some entry)
  | None => Ok None
  end.
(** [SELECT MAX(profile_sequence)] *)
Definition max_sequence (rows : list (Uuid * ProfileHistoryRow)) : option Z :=
  foldr (fun e m => Some (match m with Some m => Z.max (row_sequence e.2) m | None => row_sequence e.2 end)) None rows.
Definition i64_of (label : string) (n : N) : Stored Z := if (n <=? i64_max)%N then Ok (Z.of_N n) else Err (ArithmeticOverflow label).
(** The constraints of the table. *)
Definition may_insert_history (s : Histories) (id : Uuid) (row : ProfileHistoryRow) : bool :=
  let h := pr_seen row in
  let t := hs_tables s in
  let others := history_rows s (h_workspace_id h) (h_dataset_id h) in
  bool_decide (hs_rows s !! id = None)
  && bool_decide (is_Some (cp_workspaces (catalog t) !! h_workspace_id h)) && bool_decide (is_Some (cp_datasets (catalog t) !! h_dataset_id h))
  && bool_decide (is_Some (cp_artifact_refs t !! h_profile_artifact_id h)) && bool_decide (is_Some (cp_runs t !! h_producing_run_id h))
  && (sql_length (h_profile_digest h) =? 64)%N && (0 <? pr_profile_contract_version row)%Z && (0 <? pr_drift_contract_version row)%Z
  && (0 <? pr_profile_policy_version row)%Z && (0 <? pr_top_k row)%Z && (0 <? pr_histogram_buckets row)%Z
  && (sql_length (pr_schema_fingerprint row) =? 64)%N && (0 <=? pr_row_count_scanned row)%Z && (0 <=? pr_scanned_bytes row)%Z
  && ((pr_truncated row =? 0) || (pr_truncated row =? 1))%Z && (0 <? row_sequence row)%Z
  && bool_decide (h_state h ∈ ["active"; "tombstoned"])
  && negb (existsb (fun e => same_profile (h_profile_artifact_id h) (h_producing_run_id h) e.2) others)
  && negb (existsb (fun e => (row_sequence e.2 =? row_sequence row)%Z) others).
Definition history_row_of (d : ProfileHistoryDraft) (sequence : Z) : Stored ProfileHistoryRow :=
  schema_json ← ok_or (schema_print (pd_schema d)) (Serialization "serialize ProfileHistory schema");
  top_k ← i64_of "ProfileHistory top_k" (pd_top_k d);
  histogram_buckets ← i64_of "ProfileHistory histogram buckets" (pd_histogram_buckets d);
  row_count ← i64_of "ProfileHistory row count" (pd_row_count_scanned d);
  bytes ← i64_of "ProfileHistory bytes" (pd_scanned_bytes d);
  Ok (mkProfileRow
        (mkHistory (pd_workspace_id d) (pd_dataset_id d) (pd_profile_artifact_id d) (pd_producing_run_id d) (digest_hex (pd_profile_digest d))
           sequence "active")
        (Z.of_N (pd_profile_contract_version d)) (Z.of_N (pd_drift_contract_version d)) (Z.of_N (pd_profile_policy_version d)) top_k
        histogram_buckets (digest_hex (pd_schema_fingerprint d)) schema_json row_count bytes (if pd_truncated d then 1 else 0)%Z
        (pd_created_at d) None).
(** The number a new entry gets, or has to have. *)
Definition next_sequence (s : Histories) (d : ProfileHistoryDraft) (allocate_sequence : bool) : Stored Z :=
  let maximum := default 0%Z (max_sequence (history_rows s (pd_workspace_id d) (pd_dataset_id d))) in
  if (Z.of_N i64_max <=? maximum)%Z then Err (ArithmeticOverflow "ProfileHistory sequence") else
  let next := (maximum + 1)%Z in
  if allocate_sequence then (if (next <? 0)%Z then Err (ArithmeticOverflow "ProfileHistory sequence") else Ok next) else
  if (pd_profile_sequence d <=? i64_max)%N && (Z.of_N (pd_profile_sequence d) =? next)%Z then Ok next
  else Err (InvalidDraft "ProfileHistory sequence is not the next Dataset sequence").
(** The transaction. *)
Definition record_tx (d : ProfileHistoryDraft) (allocate_sequence : bool) (s : Histories) : Stored (Histories * ProfileHistoryEntry) :=
  try! ensure_history_scope (hs_tables s) d;
  existing ← profile_history_by_identity s (pd_workspace_id d) (pd_dataset_id d) (pd_profile_artifact_id d) (pd_producing_run_id d);
  match existing with
  | Some entry => Ok (s, entry)
  | None =>
      sequence ← next_sequence s d allocate_sequence;
      row ← history_row_of d sequence;
      if negb (may_insert_history s (pd_history_id d) row) then Err (Database "insert ProfileHistory entry") else
      let s := put_history (pd_history_id d) row s in
      entry ← profile_history_from_transaction s (pd_history_id d);
      Ok (s, entry)
  end.
(** [read]: the tables as they were when the body was read. *)
Definition record_profile_history_inner (read : Tables) (d : ProfileHistoryDraft) (allocate_sequence : bool) (s : Histories)
  : Stored (Histories * ProfileHistoryEntry) :=
  try! record_checked read d allocate_sequence;
  record_tx d allocate_sequence s.
Definition record_profile_history (read : Tables) (d : ProfileHistoryDraft) := record_profile_history_inner read d false.
Definition record_profile_history_next (read : Tables) (d : ProfileHistoryDraft) := record_profile_history_inner read d true.

(** ** Tombstones *)

Definition tombstoned_row (at_ : DateTime) (row : ProfileHistoryRow) : ProfileHistoryRow :=
  let h := pr_seen row in
  mkProfileRow
    (mkHistory (h_workspace_id h) (h_dataset_id h) (h_profile_artifact_id h) (h_producing_run_id h) (h_profile_digest h) (h_profile_sequence h) "tombstoned")
    (pr_profile_contract_version row) (pr_drift_contract_version row) (pr_profile_policy_version row) (pr_top_k row) (pr_histogram_buckets row)
    (pr_schema_fingerprint row) (pr_schema_json row) (pr_row_count_scanned row) (pr_scanned_bytes row) (pr_truncated row) (pr_created_at row) (Some at_).
Definition tombstone_profile_history (workspace dataset history : Uuid) (tombstoned_at : DateTime) (s : Histories)
  : Stored (Histories * ProfileHistoryEntry) :=
  try! validate_history_scope workspace dataset history;
  row ← ok_or (hs_rows s !! history) (NotFound history);
  current ← profile_history_from_raw history row;
  if negb (ph_workspace_id current =? workspace)%N || negb (ph_dataset_id current =? dataset)%N then Err (NotFound history) else
  if bool_decide (ph_state current = HistoryTombstoned) then Ok (s, current) else
  if (tombstoned_at <? ph_created_at current)%Z then Err (InvalidTimestampOrder "ProfileHistory creation and tombstone") else
  let s := put_history history (tombstoned_row tombstoned_at row) s in
  entry ← profile_history_from_transaction s history;
  Ok (s, entry).

(** ** Pages *)

Definition state_matches (state : option ProfileHistoryState) (row : ProfileHistoryRow) : bool :=
  match state with Some state => bool_decide (h_state (pr_seen row) = history_state_text state) | None => true end.
Definition history_keys (s : Histories) (workspace dataset : Uuid) (state : option ProfileHistoryState) : list SortKey :=
  (fun e => (row_sequence e.2, e.1)) <$>
    filter (fun e => state_matches state e.2) (history_rows s workspace dataset).
(** A plain sum of [usize]: the entries summed up have serialised before, so
    their sizes are bounded by the page's byte limit and neither the fallback
    nor an overflow is met. *)
Definition page_bytes (entries : list ProfileHistoryEntry) : N := foldr N.add 0%N ((fun e => default u64_max (entry_size e)) <$> entries).
Fixpoint page_entries (s : Histories) (limit : N) (keys : list SortKey) (entries : list ProfileHistoryEntry) : Stored (list ProfileHistoryEntry) :=
  match keys with
  | [] => Ok entries
  | key :: keys =>
      entry ← profile_history_from_connection s key.2;
      try! (if (len entries <? limit)%N
            then encoded ← ok_or (entry_size entry) (Serialization "encode ProfileHistory page");
                 if (DRIFT_MAX_HISTORY_REFERENCE_BYTES <? page_bytes entries + encoded)%N
                 then Err (InvalidDraft "ProfileHistory page exceeds the metadata byte bound") else Ok tt
            else Ok tt);
      page_entries s limit keys (entries ++ [entry])
  end.
(** Without a cursor the page begins after [(i64::MAX, "")]. *)
Definition list_profile_history (s : Histories) (workspace dataset : Uuid) (state : option ProfileHistoryState)
  (cursor : option ProfileHistoryCursor) (limit : N) : Stored ProfileHistoryPage :=
  if is_nil workspace || is_nil dataset then Err (InvalidDraft "ProfileHistory scope is nil") else
  if (limit =? 0)%N || (DRIFT_MAX_HISTORY_PAGE_SIZE <? limit)%N
  then Err (InvalidDraft "ProfileHistory page limit is outside the authorized bound") else
  if match cursor with
     | Some c => negb (hc_workspace_id c =? workspace)%N || negb (hc_dataset_id c =? dataset)%N || negb (bool_decide (hc_state c = state))
     | None => false
     end
  then Err (InvalidDraft "ProfileHistory cursor is bound to another scope or filter") else
  after ← match cursor with
          | Some c => sequence ← i64_of "ProfileHistory cursor sequence" (hc_profile_sequence c); Ok (sequence, hc_history_id c)
          | None => Ok (Z.of_N i64_max, 0%N)
          end;
  entries ← page_entries s limit (key_page newer_le (Some after) (N.to_nat (limit + 1)) (history_keys s workspace dataset state)) [];
  Ok (if (limit <? len entries)%N
      then let entries := removelast entries in
           mkHistoryPage entries
             ((fun e => mkHistoryCursor workspace dataset state (ph_profile_sequence e) (ph_history_id e)) <$> last entries)
      else mkHistoryPage entries None).

(** ** Baselines *)

Definition profile_history_versions_match (baseline candidate : ProfileHistoryEntry) : bool :=
  (ph_profile_contract_version baseline =? ph_profile_contract_version candidate)%N
  && (ph_drift_contract_version baseline =? ph_drift_contract_version candidate)%N
  && (ph_profile_policy_version baseline =? ph_profile_policy_version candidate)%N
  && (ph_top_k baseline =? ph_top_k candidate)%N && (ph_histogram_buckets baseline =? ph_histogram_buckets candidate)%N
  && (ph_profile_contract_version baseline =? PROFILE_HISTORY_PROFILE_CONTRACT_VERSION)%N
  && (ph_drift_contract_version baseline =? PROFILE_HISTORY_DRIFT_CONTRACT_VERSION)%N
  && (ph_profile_policy_version baseline =? PROFILE_HISTORY_POLICY_VERSION)%N.
Definition is_ineligible_latest_error (e : StorageError) : bool :=
  match e with NotFound _ | InvalidDraft _ | InvalidManifest _ | Serialization _ => true | _ => false end.
Definition outside_range (w : DriftObservationWindow) (sequence : N) : bool := (sequence <? start_sequence w)%N || (end_sequence w <=? sequence)%N.
(** The rows the query for the latest baseline returns, newest first. *)
Definition may_be_baseline (sequence : Z) (window : option (Z * Z)) (row : ProfileHistoryRow) : bool :=
  bool_decide (h_state (pr_seen row) = "active") && (0 <? pr_row_count_scanned row)%Z && (pr_truncated row =? 0)%Z && (row_sequence row <? sequence)%Z
  && match window with Some (start, end_) => (start <=? row_sequence row)%Z && (row_sequence row <? end_)%Z | None => true end.
Definition baseline_keys (s : Histories) (workspace dataset : Uuid) (sequence : Z) (window : option (Z * Z)) : list SortKey :=
  merge_sort newer_le
    ((fun e => (row_sequence e.2, e.1)) <$> filter (fun e => may_be_baseline sequence window e.2) (history_rows s workspace dataset)).
Fixpoint first_eligible (s : Histories) (candidate : ProfileHistoryEntry) (keys : list SortKey) : Stored (option ProfileHistoryEntry) :=
  match keys with
  | [] => Ok None
  | key :: keys =>
      baseline ← profile_history_from_connection s key.2;
      if negb (profile_history_versions_match baseline candidate) then first_eligible s candidate keys else
      match get_artifact_body (hs_tables s) (ph_profile_artifact_id baseline) with
      | Ok body => if is_ok (validate_profile_history_artifact baseline body) then Ok (Some baseline) else first_eligible s candidate keys
      | Err e => if is_ineligible_latest_error e then first_eligible s candidate keys else Err e
      end
  end.
Definition explicit_baseline (s : Histories) (workspace dataset candidate_id history_id : Uuid) (candidate : ProfileHistoryEntry)
  (window : option DriftObservationWindow) : Stored ProfileHistoryEntry :=
  if (history_id =? candidate_id)%N then Err (InvalidDraft "ProfileHistory comparison cannot self-compare") else
  baseline ← get_profile_history s workspace dataset history_id;
  if (ph_profile_sequence candidate <=? ph_profile_sequence baseline)%N
  then Err (InvalidDraft "explicit ProfileHistory baseline must be older than candidate") else
  if match window with Some w => outside_range w (ph_profile_sequence baseline) | None => false end
  then Err (InvalidDraft "baseline is outside the ProfileHistory observation window") else
  Ok baseline.
Definition select_profile_history_baseline (s : Histories) (workspace dataset candidate_id : Uuid) (mode : DriftBaselineMode)
  (window : option DriftObservationWindow) : Stored (option ProfileHistoryEntry) :=
  try! validate_history_scope workspace dataset candidate_id;
  if match window with Some w => negb (window_validate w) | None => false end
  then Err (InvalidDraft "ProfileHistory observation window is invalid") else
  candidate ← get_profile_history s workspace dataset candidate_id;
  if match window with Some w => outside_range w (ph_profile_sequence candidate) | None => false end
  then Err (InvalidDraft "candidate is outside the ProfileHistory observation window") else
  match mode with
  | BaselineExplicit history_id =>
      baseline ← explicit_baseline s workspace dataset candidate_id history_id candidate window;
      Ok (Some baseline)
  | LatestEligible =>
      bounds ← match window with
               | Some w => start ← i64_of "ProfileHistory window start" (start_sequence w);
                           end_ ← i64_of "ProfileHistory window end" (end_sequence w);
                           Ok (Some (start, end_))
               | None => Ok None
               end;
      sequence ← i64_of "ProfileHistory candidate sequence" (ph_profile_sequence candidate);
      first_eligible s candidate (baseline_keys s workspace dataset sequence bounds)
  end.
End profile_history.
