(* ===== verification/SampleProfiles.v ===== *)
(** * Two recorded profiles

    A dataset whose column [at] stays as it is, whose column [extra] is new
    and whose column [value] moves from one bucket of its histogram to the
    other: the bodies, their artifacts and the history of the dataset after
    both profiles have been recorded. *)

From S2P Require Import Prelude Text Secrets Logical Schema Expression Rule Plan Nodes Registry Schedule Automation Keyset Hex Canonical Operations Jobs Submissions Outputs Lifecycle Reports Life Refines Reachable Sample ProfileHistory.

#[local] Open Scope N_scope.

Definition number (n : N) : json := JNumber (PosInt n).
Definition sample_column (column type : string) (histogram : option (list N)) : json :=
  JObject ([("name", JString column); ("type", JString type); ("status", JString "profiled"); ("null_count", number 0); ("non_null_count", number 20)]
           ++ match histogram with Some counts => [("histogram", JArray (number <$> counts))] | None => [] end).
Definition sample_profile (columns : list json) : json :=
  JObject [("artifact_type", JString "profile_report"); ("artifact_body_version", number 1); ("profiling_contract_version", number 1);
           ("dataset", JObject [("row_count_scanned", number 20); ("truncated", JBool false); ("column_count_profiled", number (len columns))]);
           ("columns", JArray columns)].
(** The bodies are [[11]] and [[12]]. *)
Definition sample_body (body : list N) : option json :=
  match body with
  | [11] => Some (sample_profile [sample_column "at" "timestamp_s" None; sample_column "value" "int64" (Some [20; 0])])
  | [12] => Some (sample_profile [sample_column "at" "timestamp_s" None; sample_column "extra" "utf8" None; sample_column "value" "int64" (Some [0; 20])])
  | _ => None
  end.
Definition sample_before : LogicalSchema :=
  mkSchema LOGICAL_SCHEMA_VERSION [mkField 1 "at" (TTimestamp Second (Some "UTC")) false ∅; mkField 2 "value" TInt64 false ∅] ∅.
Definition sample_after : LogicalSchema :=
  mkSchema LOGICAL_SCHEMA_VERSION [mkField 1 "at" (TTimestamp Second (Some "UTC")) false ∅; mkField 3 "extra" TUtf8 false ∅; mkField 2 "value" TInt64 false ∅] ∅.
#[export] Instance profile_history_codec : HistoryCodec := {|
  schema_print schema := Some (if bool_decide (schema = sample_before) then "before" else "after");
  schema_parse text := Some (if bool_decide (text = "before") then sample_before else sample_after);
  entry_size _ := Some 100;
|}.
Definition sample_fingerprint (schema : LogicalSchema) : Digest := default [] (schema_fingerprint_of schema).
Definition provenance_of (body : list N) (schema : LogicalSchema) (columns : list string) : json :=
  JObject [("canonicalDigest", JString (digest_hex (sample_sha body)));
           ("provenance", JObject [("profilingContractVersion", number 1); ("profilePolicyVersion", number 1); ("topK", number 20);
              ("histogramBuckets", number 2); ("schemaFingerprint", JString (digest_hex (sample_fingerprint schema)));
              ("selectedColumns", JArray (JString <$> columns));
              ("scan", JObject [("rowCountScanned", number 20); ("scannedBytes", number 100); ("truncated", JBool false)])])].
Definition sample_provenance (text : string) : option json :=
  if bool_decide (text = "before") then Some (provenance_of [11] sample_before ["at"; "value"])
  else Some (provenance_of [12] sample_after ["at"; "extra"; "value"]).
#[export] Instance profile_codec : JobCodec := {|
  sha256 := @sha256 sample_codec;
  json_text := @json_text sample_codec;
  json_print := @json_print sample_codec;
  json_parse := sample_provenance;
  json_parse_bytes := sample_body;
  json_tree := @json_tree sample_codec;
  operation_to_value := @operation_to_value sample_codec;
  operation_from_value := @operation_from_value sample_codec;
  operation_print := @operation_print sample_codec;
  inputs_to_value := @inputs_to_value sample_codec;
  inputs_print := @inputs_print sample_codec;
  inputs_parse := @inputs_parse sample_codec;
  failure_print := @failure_print sample_codec;
  failure_parse := @failure_parse sample_codec;
  outputs_print := @outputs_print sample_codec;
  outputs_parse := @outputs_parse sample_codec;
  uuid_text := @uuid_text sample_codec;
  uuid_v5 := @uuid_v5 sample_codec;
|}.

(** The artifacts 31 and 32 of run 20, which read snapshot 6 of dataset 2. *)
Definition sample_artifact (body : list N) (provenance : string) : ArtifactRow :=
  mkArtifact 1 20 KindProfileReport "snapshot" 6 (digest_hex (sample_sha body)) provenance Committed 0%Z (Some 1%Z) None.
Definition sample_artifact_body (body : list N) (provenance : string) : BodyRow :=
  mkBody KindProfileReport 1 (digest_hex (sample_sha body)) body provenance Committed 0%Z (Some 1%Z).
Definition profile_tables : Tables :=
  mkTables (mkCatalog {[1 := "active"]} ∅ ∅ ∅ ∅ ∅ {[2 := (1, "active")]} {[6 := mkSnapshot 2 2 0 (digest_hex sample_digest) 1 1]} ∅ ∅)
    ∅ (cp_runs (after (H := sample_codec) sample_done)) [] ∅ {[31 := sample_artifact [11] "before"; 32 := sample_artifact [12] "after"]}
    {[31 := sample_artifact_body [11] "before"; 32 := sample_artifact_body [12] "after"]} ∅.
Definition sample_history_draft (id artifact : Uuid) (schema : LogicalSchema) : ProfileHistoryDraft :=
  mkHistoryDraft id 1 2 artifact 20 (sample_sha [id]) 1 1 1 20 2 (sample_fingerprint schema) schema 20 100 false 0 5%Z.
Definition sample_entry (id : Uuid) (schema : LogicalSchema) (truncated : bool) : ProfileHistoryEntry :=
  mkHistoryEntry id 1 2 (id + 20) 20 (sample_sha [id]) 1 1 1 20 2 (sample_fingerprint schema) schema 20 100 truncated (id - 10) HistoryActive 5%Z None.
Definition recorded_or (s : Histories) (r : Stored (Histories * ProfileHistoryEntry)) : Histories := match r with Ok (s', _) => s' | Err _ => s end.
Definition histories_0 : Histories := mkHistories profile_tables ∅.
Definition histories_1 : Histories := recorded_or histories_0 (record_profile_history_next profile_tables (sample_history_draft 11 31 sample_before) histories_0).
Definition histories_2 : Histories := recorded_or histories_1 (record_profile_history_next profile_tables (sample_history_draft 12 32 sample_after) histories_1).
Definition histories_3 : Histories := recorded_or histories_2 (tombstone_profile_history 1 2 12 9%Z histories_2).
Example first_recorded : record_profile_history_next profile_tables (sample_history_draft 11 31 sample_before) histories_0 = Ok (histories_1, sample_entry 11 sample_before false).
Proof. vm_compute. reflexivity. Qed.
Example second_recorded : record_profile_history_next profile_tables (sample_history_draft 12 32 sample_after) histories_1 = Ok (histories_2, sample_entry 12 sample_after false).
Proof. vm_compute. reflexivity. Qed.
