(* ===== verification/Baselines.v ===== *)
(** * What the history of profiles guarantees

    The entries of a dataset are numbered without gaps and never change but
    for their tombstone; recording a profile again replays; the baseline
    chosen for a comparison is the newest eligible entry. *)

From S2P Require Import Prelude Text Secrets Logical Schema Expression Rule Plan Nodes Registry Schedule Automation Keyset Hex Canonical Operations Jobs Submissions Outputs Lifecycle Reports Life Refines Reachable Sample ProfileHistory SampleProfiles.

Section baselines.
Context `{JobCodec} `{StoreFiles} `{HistoryCodec}.

(** ** Steps *)

(** What a request of the store does to the table; the other requests leave
    it alone. *)
Inductive HistoryStep (s : Histories) : Histories -> Prop :=
| StepRecord read d allocate s' e : record_profile_history_inner read d allocate s = Ok (s', e) -> HistoryStep s s'
| StepTombstone workspace dataset history at_ s' e : tombstone_profile_history workspace dataset history at_ s = Ok (s', e) -> HistoryStep s s'
| StepOther t : qd1_profile_history (catalog t) = qd1_profile_history (catalog (hs_tables s)) -> HistoryStep s (mkHistories t (hs_rows s)).
Definition no_histories : Histories := mkHistories empty_tables ∅.
Notation HistorySteps := (rtc HistoryStep).

(** ** Decoded rows *)

Lemma unsigned_Ok max label z n : unsigned max label z = Ok n -> (0 <= z)%Z /\ n = Z.to_N z.
Proof.
  unfold unsigned. intros Hu. destruct (_ && _) eqn:Hb; [|done]. apply andb_true_iff in Hb as [Hz _]. injection Hu as <-. split; [|done]. by apply Z.leb_le.
Qed.
Record decodes (id : Uuid) (row : ProfileHistoryRow) (e : ProfileHistoryEntry) : Prop := {
  de_id : ph_history_id e = id;
  de_workspace : ph_workspace_id e = h_workspace_id (pr_seen row);
  de_dataset : ph_dataset_id e = h_dataset_id (pr_seen row);
  de_artifact : ph_profile_artifact_id e = h_profile_artifact_id (pr_seen row);
  de_run : ph_producing_run_id e = h_producing_run_id (pr_seen row);
  de_sequence : Z.of_N (ph_profile_sequence e) = row_sequence row;
  de_rows : Z.of_N (ph_row_count_scanned e) = pr_row_count_scanned row;
  de_truncated : ph_truncated e = negb (pr_truncated row =? 0)%Z;
  de_state : h_state (pr_seen row) = history_state_text (ph_state e);
  de_created : ph_created_at e = pr_created_at row;
}.
Lemma from_raw_decodes id row e : profile_history_from_raw id row = Ok e -> decodes id row e.
Proof.
  unfold profile_history_from_raw. intros He. inv_ok He. injection He as <-.
  repeat match goal with Hu : unsigned _ _ _ = Ok _ |- _ => apply unsigned_Ok in Hu as [? ->] end.
  constructor; cbn; rewrite ?Z2N.id by done; try done.
  repeat case_bool_decide; by simplify_eq.
Qed.
Lemma from_connection_row s id e : profile_history_from_connection s id = Ok e -> exists row, hs_rows s !! id = Some row /\ profile_history_from_raw id row = Ok e.
Proof. unfold profile_history_from_connection. intros He. inv_ok He. apply ok_or_Ok in Hx. eauto. Qed.

(** ** Rows of a dataset *)

Lemma history_rows_elem s w d id row : (id, row) ∈ history_rows s w d <-> hs_rows s !! id = Some row /\ in_dataset w d row = true.
Proof. unfold history_rows. rewrite list_elem_of_filter, elem_of_map_to_list. cbn. rewrite Is_true_true. tauto. Qed.
Lemma history_rows_fresh s id row w d :
  hs_rows s !! id = None ->
  history_rows (put_history id row s) w d ≡ₚ if in_dataset w d row then (id, row) :: history_rows s w d else history_rows s w d.
Proof.
  intros Hn. unfold history_rows. cbn. rewrite map_to_list_insert by done. rewrite filter_cons. cbn. by destruct (in_dataset w d row).
Qed.
Lemma history_rows_put s id row row' w d :
  hs_rows s !! id = Some row -> in_dataset w d row' = in_dataset w d row ->
  exists rest, history_rows s w d ≡ₚ (if in_dataset w d row then [(id, row)] else []) ++ rest /\
    history_rows (put_history id row' s) w d ≡ₚ (if in_dataset w d row then [(id, row')] else []) ++ rest.
Proof.
  intros Hr Hd. exists (filter (fun e => in_dataset w d e.2) (map_to_list (delete id (hs_rows s)))). unfold history_rows. cbn. split.
  - rewrite <- (map_to_list_delete _ _ _ Hr), filter_cons. cbn. by destruct (in_dataset w d row).
  - rewrite <- insert_delete_eq, map_to_list_insert by apply lookup_delete_eq. rewrite filter_cons. cbn. rewrite Hd. by destruct (in_dataset w d row).
Qed.
Definition sequences (s : Histories) (w d : Uuid) : list Z := (fun e => row_sequence e.2) <$> history_rows s w d.
Definition identities_of (s : Histories) (w d : Uuid) : list (Uuid * Uuid) :=
  (fun e => (h_profile_artifact_id (pr_seen e.2), h_producing_run_id (pr_seen e.2))) <$> history_rows s w d.

Lemma sequences_fresh s id row w d :
  hs_rows s !! id = None ->
  sequences (put_history id row s) w d ≡ₚ if in_dataset w d row then row_sequence row :: sequences s w d else sequences s w d.
Proof. intros Hn. unfold sequences. rewrite history_rows_fresh by done. by destruct (in_dataset w d row). Qed.
Lemma sequences_put s id row row' w d :
  hs_rows s !! id = Some row -> in_dataset w d row' = in_dataset w d row -> row_sequence row' = row_sequence row ->
  sequences (put_history id row' s) w d ≡ₚ sequences s w d.
Proof.
  intros Hr Hd Hs. unfold sequences. destruct (history_rows_put s id row row' w d Hr Hd) as (rest & -> & ->).
  destruct (in_dataset w d row); cbn; [by rewrite Hs|done].
Qed.

(** ** Numbers without gaps *)

Definition numbered (l : list Z) : Prop := l ≡ₚ seqZ 1 (Z.of_nat (length l)).
Lemma seqZ_max n : foldr Z.max 0%Z (seqZ 1 (Z.of_nat n)) = Z.of_nat n.
Proof.
  induction n as [|n IH]; [done|]. rewrite seqZ_S, foldr_app. cbn [foldr].
  assert (forall k l, (0 <= k)%Z -> foldr Z.max k l = Z.max k (foldr Z.max 0%Z l)) as Hgen by (intros k l Hk; induction l as [|x l IHl]; cbn; lia).
  rewrite Hgen, IH by lia. lia.
Qed.
Lemma foldr_max_perm l k : l ≡ₚ k -> foldr Z.max 0%Z l = foldr Z.max 0%Z k.
Proof. induction 1; cbn; lia. Qed.
Lemma numbered_pos l z : numbered l -> z ∈ l -> (1 <= z <= Z.of_nat (length l))%Z.
Proof. unfold numbered. intros Hl Hz. rewrite Hl, elem_of_seqZ in Hz. lia. Qed.
Lemma numbered_elem l z : numbered l -> (1 <= z <= Z.of_nat (length l))%Z -> z ∈ l.
Proof. unfold numbered. intros Hl Hz. rewrite Hl, elem_of_seqZ. lia. Qed.
Lemma max_sequence_default rows :
  Forall (fun e => 0 <= row_sequence e.2)%Z rows -> default 0%Z (max_sequence rows) = foldr Z.max 0%Z ((fun e => row_sequence e.2) <$> rows).
Proof.
  induction 1 as [|e rows He _ IH]; [done|]. cbn. fold (max_sequence rows). destruct (max_sequence rows); cbn in IH; lia.
Qed.
Lemma numbered_max s w d : numbered (sequences s w d) -> default 0%Z (max_sequence (history_rows s w d)) = Z.of_nat (length (history_rows s w d)).
Proof.
  intros Hn. rewrite max_sequence_default.
  - fold (sequences s w d). rewrite (foldr_max_perm _ _ Hn), seqZ_max. unfold sequences. by rewrite length_fmap.
  - apply Forall_forall. intros e He. pose proof (numbered_pos _ (row_sequence e.2) Hn (list_elem_of_fmap_2 _ _ _ He)). lia.
Qed.
Lemma numbered_snoc l : numbered l -> numbered (Z.of_nat (length l) + 1 :: l)%Z.
Proof.
  intros Hl. unfold numbered. cbn [length]. rewrite seqZ_S, <- Permutation_cons_append. replace (1 + Z.of_nat (length l))%Z with (Z.of_nat (length l) + 1)%Z by lia. by constructor.
Qed.
Lemma numbered_perm l k : l ≡ₚ k -> numbered l -> numbered k.
Proof. unfold numbered. intros Hp Hl. rewrite <- Hp at 1. by rewrite <- (Permutation_length Hp). Qed.

(** ** The invariant *)

Record HistoriesOk (s : Histories) : Prop := {
  ho_seen : qd1_profile_history (catalog (hs_tables s)) = pr_seen <$> hs_rows s;
  ho_decodes id row : hs_rows s !! id = Some row -> exists e, profile_history_from_raw id row = Ok e;
  ho_numbered w d : numbered (sequences s w d);
  ho_distinct w d : NoDup (identities_of s w d);
}.
(** Entries stay as they are; a tombstone comes once. *)
Definition row_le (x y : ProfileHistoryRow) : Prop := y = x \/ h_state (pr_seen x) = "active" /\ exists at_, y = tombstoned_row at_ x.
Definition histories_le (s s' : Histories) : Prop := forall id row, hs_rows s !! id = Some row -> exists row', hs_rows s' !! id = Some row' /\ row_le row row'.
#[export] Instance row_le_preorder : PreOrder row_le.
Proof.
  split; [by left|]. intros x y z [->|[Hx [a ->]]] [->|[Hy [b ->]]]; [by left|right; eauto|right; eauto|by cbn in Hy].
Qed.
#[export] Instance histories_le_preorder : PreOrder histories_le.
Proof.
  split; [intros s id row Hr; exists row; split; [done|reflexivity]|].
  intros s1 s2 s3 H12 H23 id row Hr. apply H12 in Hr as (row2 & (row3 & Hr3 & Hle3)%H23 & Hle2). exists row3. split; [done|by etrans].
Qed.
Lemma by_identity_Some s w d a r e :
  profile_history_by_identity s w d a r = Ok (Some e) ->
  exists row, hs_rows s !! ph_history_id e = Some row /\ profile_history_from_raw (ph_history_id e) row = Ok e /\ in_dataset w d row = true /\
    same_profile a r row = true.
Proof.
  unfold profile_history_by_identity. intros He. destruct (List.find _ _) as [[id row]|] eqn:Hf; [|done]. inv_ok He. injection He as <-.
  apply List.find_some in Hf as [Hin Hsame]. apply list_elem_of_In, history_rows_elem in Hin as [Hr Hd].
  apply from_connection_row in Hx as (row' & Hr' & Hraw). assert (row' = row) as -> by congruence. rewrite (de_id _ _ _ (from_raw_decodes _ _ _ Hraw)). eauto.
Qed.
Lemma by_identity_None s w d a r :
  profile_history_by_identity s w d a r = Ok None -> existsb (fun x => same_profile a r x.2) (history_rows s w d) = false.
Proof.
  unfold profile_history_by_identity. intros He. destruct (List.find _ _) as [[id row]|] eqn:Hf; [by inv_ok He|].
  destruct (existsb _ _) eqn:Hex; [|done]. apply existsb_exists in Hex as (x & Hin & Hx). by rewrite (List.find_none _ _ Hf _ Hin) in Hx.
Qed.
Lemma next_sequence_Ok s d allocate z :
  next_sequence s d allocate = Ok z -> z = (default 0 (max_sequence (history_rows s (pd_workspace_id d) (pd_dataset_id d))) + 1)%Z.
Proof. unfold next_sequence. intros Hz. repeat case_match; by simplify_eq. Qed.
Lemma history_row_of_Ok d z row :
  history_row_of d z = Ok row ->
  in_dataset (pd_workspace_id d) (pd_dataset_id d) row = true /\ same_profile (pd_profile_artifact_id d) (pd_producing_run_id d) row = true /\
  h_state (pr_seen row) = "active" /\ row_sequence row = z.
Proof.
  unfold history_row_of. intros Hr. inv_ok Hr. injection Hr as <-. unfold in_dataset, same_profile, row_sequence. cbn. by rewrite !N.eqb_refl.
Qed.
Lemma may_insert_fresh s id row : may_insert_history s id row = true -> hs_rows s !! id = None.
Proof. unfold may_insert_history. intros Hm. repeat (apply andb_true_iff in Hm as [Hm _]). by apply bool_decide_eq_true in Hm. Qed.
(** What a successful recording did. *)
Definition replayed (d : ProfileHistoryDraft) (s : Histories) (e : ProfileHistoryEntry) : Prop :=
  exists row, hs_rows s !! ph_history_id e = Some row /\ profile_history_from_raw (ph_history_id e) row = Ok e /\
    in_dataset (pd_workspace_id d) (pd_dataset_id d) row = true /\ same_profile (pd_profile_artifact_id d) (pd_producing_run_id d) row = true.
Definition appended (d : ProfileHistoryDraft) (s s' : Histories) (e : ProfileHistoryEntry) : Prop :=
  exists row, hs_rows s !! pd_history_id d = None /\ s' = put_history (pd_history_id d) row s /\ profile_history_from_raw (pd_history_id d) row = Ok e /\
    in_dataset (pd_workspace_id d) (pd_dataset_id d) row = true /\ same_profile (pd_profile_artifact_id d) (pd_producing_run_id d) row = true /\
    existsb (fun x => same_profile (pd_profile_artifact_id d) (pd_producing_run_id d) x.2) (history_rows s (pd_workspace_id d) (pd_dataset_id d)) = false /\
    h_state (pr_seen row) = "active" /\
    row_sequence row = (default 0 (max_sequence (history_rows s (pd_workspace_id d) (pd_dataset_id d))) + 1)%Z.
Lemma recorded read d allocate s s' e :
  record_profile_history_inner read d allocate s = Ok (s', e) -> s' = s /\ replayed d s e \/ appended d s s' e.
Proof.
  unfold record_profile_history_inner, record_tx. intros Hr. inv_ok Hr. destruct x1 as [entry|].
  { injection Hr as <- <-. left. split; [done|]. by apply by_identity_Some. }
  inv_ok Hr. rename x2 into row. destruct (may_insert_history _ _ _) eqn:Hm; cbn in Hr; [|done]. inv_ok Hr. injection Hr as <- <-. right.
  apply history_row_of_Ok in Hx3 as (Hd & Hi & Hs & Hz). apply next_sequence_Ok in Hx2 as ->. apply by_identity_None in Hx1.
  apply may_insert_fresh in Hm. apply from_connection_row in Hx4 as (row' & Hr' & Hraw). cbn in Hr'. rewrite lookup_insert_eq in Hr'. injection Hr' as <-.
  exists row. done.
Qed.
(** What a successful tombstone did. *)
Lemma buried w d id at_ s s' e :
  tombstone_profile_history w d id at_ s = Ok (s', e) ->
  exists row, hs_rows s !! id = Some row /\
    (s' = s /\ h_state (pr_seen row) = "tombstoned" \/
     h_state (pr_seen row) = "active" /\ s' = put_history id (tombstoned_row at_ row) s /\ profile_history_from_raw id (tombstoned_row at_ row) = Ok e).
Proof.
  unfold tombstone_profile_history. intros Ht. inv_ok Ht. apply ok_or_Ok in Hx0 as Hr. rename x0 into row. exists row. split; [done|].
  pose proof (de_state _ _ _ (from_raw_decodes _ _ _ Hx1)) as Hst. case_bool_decide as Hs.
  { injection Ht as <- <-. left. split; [done|]. by rewrite Hst, Hs. }
  case_match; [done|]. inv_ok Ht. injection Ht as <- <-. right. apply from_connection_row in Hx2 as (row' & Hr' & Hraw). cbn in Hr'.
  rewrite lookup_insert_eq in Hr'. injection Hr' as <-. split_and!; [|done|done]. rewrite Hst. by destruct (ph_state x1).
Qed.
Lemma identities_fresh s id row w d :
  hs_rows s !! id = None ->
  identities_of (put_history id row s) w d ≡ₚ
    if in_dataset w d row then (h_profile_artifact_id (pr_seen row), h_producing_run_id (pr_seen row)) :: identities_of s w d else identities_of s w d.
Proof. intros Hn. unfold identities_of. rewrite history_rows_fresh by done. by destruct (in_dataset w d row). Qed.
Lemma identities_put s id row at_ w d :
  hs_rows s !! id = Some row -> identities_of (put_history id (tombstoned_row at_ row) s) w d ≡ₚ identities_of s w d.
Proof.
  intros Hr. unfold identities_of. destruct (history_rows_put s id row (tombstoned_row at_ row) w d Hr eq_refl) as (rest & -> & ->).
  by destruct (in_dataset w d row).
Qed.
Lemma in_dataset_exact w d row w' d' : in_dataset w d row = true -> in_dataset w' d' row = true -> w' = w /\ d' = d.
Proof. unfold in_dataset. rewrite !andb_true_iff, !N.eqb_eq. naive_solver. Qed.
Lemma same_profile_exact a r row : same_profile a r row = true <-> h_profile_artifact_id (pr_seen row) = a /\ h_producing_run_id (pr_seen row) = r.
Proof. unfold same_profile. by rewrite andb_true_iff, !N.eqb_eq. Qed.
Lemma put_seen s id row :
  qd1_profile_history (catalog (hs_tables s)) = pr_seen <$> hs_rows s ->
  qd1_profile_history (catalog (hs_tables (put_history id row s))) = pr_seen <$> hs_rows (put_history id row s).
Proof. intros Hs. cbn. by rewrite Hs, fmap_insert. Qed.
Lemma appended_ok d s s' e : HistoriesOk s -> appended d s s' e -> HistoriesOk s'.
Proof.
  intros Hok (row & Hn & -> & Hraw & Hd & Hi & Hno & _ & Hz). constructor.
  - apply put_seen, Hok.
  - intros id row' Hr. cbn in Hr. apply lookup_insert_Some in Hr as [[<- <-]|[_ Hr]]; [by eexists|by eapply ho_decodes].
  - intros w d'. eapply numbered_perm; [symmetry; by apply sequences_fresh|]. destruct (in_dataset w d' row) eqn:Hw; [|apply Hok].
    destruct (in_dataset_exact _ _ _ _ _ Hd Hw) as [-> ->]. rewrite Hz, numbered_max by apply Hok.
    replace (length (history_rows s _ _)) with (length (sequences s (pd_workspace_id d) (pd_dataset_id d))) by apply length_fmap.
    apply numbered_snoc, Hok.
  - intros w d'. rewrite identities_fresh by done. destruct (in_dataset w d' row) eqn:Hw; [|apply Hok].
    destruct (in_dataset_exact _ _ _ _ _ Hd Hw) as [-> ->]. constructor; [|apply Hok]. apply same_profile_exact in Hi as [-> ->].
    intros ([id row'] & Heq & Hin)%list_elem_of_fmap. cbn in Heq. apply not_true_iff_false in Hno. apply Hno, existsb_exists.
    exists (id, row'). split; [by apply list_elem_of_In|]. apply same_profile_exact. by injection Heq.
Qed.
Lemma buried_ok s id row at_ e :
  HistoriesOk s -> hs_rows s !! id = Some row -> profile_history_from_raw id (tombstoned_row at_ row) = Ok e -> HistoriesOk (put_history id (tombstoned_row at_ row) s).
Proof.
  intros Hok Hr Hraw. constructor.
  - apply put_seen, Hok.
  - intros id' row' Hr'. cbn in Hr'. apply lookup_insert_Some in Hr' as [[<- <-]|[_ Hr']]; [by eexists|by eapply ho_decodes].
  - intros w d. eapply numbered_perm; [symmetry; by eapply sequences_put|apply Hok].
  - intros w d. rewrite identities_put by done. apply Hok.
Qed.
Lemma step_ok s s' : HistoryStep s s' -> HistoriesOk s -> HistoriesOk s'.
Proof.
  intros [read d allocate s1 e Hr|w d id at_ s1 e Ht|t Ht] Hok.
  - apply recorded in Hr as [[-> _]|Ha]; [done|by eapply appended_ok].
  - apply buried in Ht as (row & Hr & [[-> _]|(_ & -> & Hraw)]); [done|by eapply buried_ok].
  - constructor; cbn; try apply Hok. rewrite Ht. apply Hok.
Qed.
Lemma step_le s s' : HistoryStep s s' -> histories_le s s'.
Proof.
  intros [read d allocate s1 e Hr|w d id at_ s1 e Ht|t Ht].
  - apply recorded in Hr as [[-> _]|(row & Hn & -> & _)]; [reflexivity|]. intros id row' Hr. exists row'. split; [|reflexivity].
    cbn. rewrite lookup_insert_ne by congruence. done.
  - apply buried in Ht as (row & Hr & [[-> _]|(Ha & -> & _)]); [reflexivity|]. intros id' row' Hr'. cbn.
    destruct (decide (id = id')) as [<-|]; [|rewrite lookup_insert_ne by done; exists row'; split; [done|reflexivity]].
    rewrite lookup_insert_eq. eexists. split; [done|]. right. assert (row' = row) as -> by congruence. eauto.
  - intros id row Hr. exists row. split; [done|reflexivity].
Qed.
Lemma steps_le s s' : HistorySteps s s' -> histories_le s s'.
Proof. induction 1 as [|s1 s2 s3 Hs _ IH]; [reflexivity|]. etrans; [by apply step_le|done]. Qed.
Lemma steps_ok s s' : HistorySteps s s' -> HistoriesOk s -> HistoriesOk s'.
Proof. induction 1 as [|s1 s2 s3 Hs _ IH]; [done|]. intros Hok. apply IH. by eapply step_ok. Qed.
Lemma empty_ok : HistoriesOk no_histories.
Proof. constructor; intros; unfold sequences, identities_of, history_rows, no_histories in *; cbn in *; rewrite ?map_to_list_empty; try done; try constructor. Qed.
Lemma row_le_stays x y : row_le x y -> row_sequence y = row_sequence x /\ (forall w d, in_dataset w d y = in_dataset w d x) /\
  forall a r, same_profile a r y = same_profile a r x.
Proof. by intros [->|[_ [at_ ->]]]. Qed.
Lemma NoDup_fmap_same {A B} (f : A -> B) l x y : NoDup (f <$> l) -> x ∈ l -> y ∈ l -> f x = f y -> x = y.
Proof.
  induction l as [|a l IH]; cbn; [by intros _ ?%not_elem_of_nil|]. intros [Ha Hnd]%NoDup_cons Hx Hy Heq.
  apply elem_of_cons in Hx as [->|Hx], Hy as [->|Hy]; [done| | |by apply IH].
  - destruct Ha. rewrite Heq. by apply list_elem_of_fmap_2.
  - destruct Ha. rewrite <- Heq. by apply list_elem_of_fmap_2.
Qed.
Lemma numbered_NoDup l : numbered l -> NoDup l.
Proof. unfold numbered. intros Hl. rewrite Hl. apply NoDup_seqZ. Qed.
(** An entry that is new has a number of its own. *)
Lemma new_is_newer s s' w d id row :
  HistoriesOk s -> HistoriesOk s' -> histories_le s s' -> hs_rows s' !! id = Some row -> in_dataset w d row = true -> hs_rows s !! id = None ->
  (Z.of_nat (length (sequences s w d)) < row_sequence row)%Z.
Proof.
  intros Hok Hok' Hle Hr Hd Hn. destruct (Z.lt_ge_cases (Z.of_nat (length (sequences s w d))) (row_sequence row)) as [|Hge]; [done|exfalso].
  pose proof (proj2 (history_rows_elem _ _ _ _ _) (conj Hr Hd)) as Hin.
  pose proof (numbered_pos _ (row_sequence row) (ho_numbered _ Hok' w d) (list_elem_of_fmap_2 _ _ _ Hin)) as Hpos.
  assert (row_sequence row ∈ sequences s w d) as Hold by (apply numbered_elem; [apply Hok|lia]).
  apply list_elem_of_fmap in Hold as ([id0 row0] & Heq & [Hr0 Hd0]%history_rows_elem). cbn in Heq.
  destruct (Hle _ _ Hr0) as (row1 & Hr1 & (Hseq & Hds & _)%row_le_stays).
  assert ((id0, row1) = (id, row)) as [= -> ->]; [|congruence].
  apply (NoDup_fmap_same (fun e => row_sequence e.2) (history_rows s' w d)); [by apply numbered_NoDup, Hok'| |done|cbn; congruence].
  apply history_rows_elem. split; [done|]. by rewrite Hds.
Qed.

(** C23: whatever requests follow one another, the entries of a dataset are numbered from one without gaps or repetitions, each profile is recorded once, every row can be read back, and a row that is there stays as it is but for one tombstone, so that later entries have larger numbers. *)
Theorem profile_history_append_only s s' w d :
  rtc HistoryStep no_histories s -> rtc HistoryStep s s' ->
  sequences s' w d ≡ₚ seqZ 1 (Z.of_nat (length (sequences s' w d))) /\ NoDup (identities_of s' w d) /\
  (forall id row, hs_rows s' !! id = Some row -> exists e, profile_history_from_raw id row = Ok e) /\ histories_le s s' /\
  (forall id row, hs_rows s' !! id = Some row -> in_dataset w d row = true -> hs_rows s !! id = None ->
     (Z.of_nat (length (sequences s w d)) < row_sequence row)%Z).
Proof.
  intros Hs Hs'. pose proof (steps_ok _ _ Hs empty_ok) as Hok. pose proof (steps_ok _ _ Hs' Hok) as Hok'. split_and!.
  - apply Hok'.
  - apply Hok'.
  - apply Hok'.
  - by apply steps_le.
  - intros id row. apply new_is_newer; [done|done|by apply steps_le].
Qed.
(** Recording a profile again, under whatever identity, answers with the entry there is and changes nothing. *)
Theorem recording_replays read d allocate s s1 e read' d' allocate' s2 s3 e' :
  rtc HistoryStep no_histories s -> record_profile_history_inner read d allocate s = Ok (s1, e) -> rtc HistoryStep s1 s2 ->
  pd_workspace_id d' = pd_workspace_id d -> pd_dataset_id d' = pd_dataset_id d ->
  pd_profile_artifact_id d' = pd_profile_artifact_id d -> pd_producing_run_id d' = pd_producing_run_id d ->
  record_profile_history_inner read' d' allocate' s2 = Ok (s3, e') -> s3 = s2 /\ ph_history_id e' = ph_history_id e.
Proof.
  intros Hs Hr Hs2 Hw Hd Ha Hrun Hr'. pose proof (StepRecord _ _ _ _ _ _ Hr) as Hstep.
  assert (HistoriesOk s2) as Hok by (apply (steps_ok no_histories); [etrans; [exact Hs|]; by eapply rtc_l|apply empty_ok]).
  assert (exists row, hs_rows s1 !! ph_history_id e = Some row /\ in_dataset (pd_workspace_id d) (pd_dataset_id d) row = true /\
    same_profile (pd_profile_artifact_id d) (pd_producing_run_id d) row = true) as (row1 & Hr1 & Hd1 & Hi1).
  { apply recorded in Hr as [[-> (row & ? & _ & ? & ?)]|(row & _ & -> & Hraw & ? & ? & _)]; [by exists row|].
    exists row. rewrite (de_id _ _ _ (from_raw_decodes _ _ _ Hraw)). cbn. by rewrite lookup_insert_eq. }
  destruct (steps_le _ _ Hs2 _ _ Hr1) as (row2 & Hr2 & (_ & Hds & Hid)%row_le_stays). rewrite <- Hds in Hd1. rewrite <- Hid in Hi1.
  assert ((ph_history_id e, row2) ∈ history_rows s2 (pd_workspace_id d) (pd_dataset_id d)) as Hin by (by apply history_rows_elem).
  apply recorded in Hr' as [[-> (row3 & Hr3 & _ & Hd3 & Hi3)]|(row3 & _ & _ & _ & _ & _ & Hno & _)]; rewrite Hw, Hd, Ha, Hrun in *.
  - split; [done|]. assert ((ph_history_id e', row3) = (ph_history_id e, row2)) as [= -> _]; [|done].
    apply (NoDup_fmap_same _ _ _ _ (ho_distinct _ Hok (pd_workspace_id d) (pd_dataset_id d))); [by apply history_rows_elem|done|].
    cbn. apply same_profile_exact in Hi1 as [-> ->], Hi3 as [-> ->]. done.
  - exfalso. apply not_true_iff_false in Hno. apply Hno, existsb_exists. exists (ph_history_id e, row2). split; [by apply list_elem_of_In|done].
Qed.

(** ** Baselines *)

(** An entry that a comparison with [candidate] may take as its baseline. *)
Record eligible (s : Histories) (candidate : ProfileHistoryEntry) (window : option DriftObservationWindow) (e : ProfileHistoryEntry) : Prop := {
  el_entry : profile_history_from_connection s (ph_history_id e) = Ok e;
  el_workspace : ph_workspace_id e = ph_workspace_id candidate;
  el_dataset : ph_dataset_id e = ph_dataset_id candidate;
  el_active : ph_state e = HistoryActive;
  el_rows : (0 < ph_row_count_scanned e)%N;
  el_whole : ph_truncated e = false;
  el_older : (ph_profile_sequence e < ph_profile_sequence candidate)%N;
  el_window w : window = Some w -> (start_sequence w <= ph_profile_sequence e < end_sequence w)%N;
  el_versions : profile_history_versions_match e candidate = true;
  el_body : exists body, get_artifact_body (hs_tables s) (ph_profile_artifact_id e) = Ok body /\ validate_profile_history_artifact e body = Ok tt;
}.
Definition bounds_of (window : option DriftObservationWindow) : option (Z * Z) :=
  (fun w => (Z.of_N (start_sequence w), Z.of_N (end_sequence w))) <$> window.
Lemma baseline_keys_elem s w d z bounds key :
  key ∈ baseline_keys s w d z bounds <->
  exists row, hs_rows s !! key.2 = Some row /\ in_dataset w d row = true /\ may_be_baseline z bounds row = true /\ key.1 = row_sequence row.
Proof.
  unfold baseline_keys. rewrite merge_sort_Permutation, list_elem_of_fmap. split.
  - intros ([id row] & -> & [Hm [Hr Hd]%history_rows_elem]%list_elem_of_filter). cbn in *. exists row. by rewrite Is_true_true in Hm.
  - intros (row & Hr & Hd & Hm & Hk). exists (key.2, row). cbn. rewrite <- Hk. split; [by destruct key|].
    apply list_elem_of_filter. split; [by apply Is_true_true|]. by apply history_rows_elem.
Qed.
(** The query and the entry say the same. *)
Lemma may_be_baseline_entry id row e candidate window :
  decodes id row e ->
  may_be_baseline (Z.of_N (ph_profile_sequence candidate)) (bounds_of window) row = true <->
  ph_state e = HistoryActive /\ (0 < ph_row_count_scanned e)%N /\ ph_truncated e = false /\ (ph_profile_sequence e < ph_profile_sequence candidate)%N /\
  forall w, window = Some w -> (start_sequence w <= ph_profile_sequence e < end_sequence w)%N.
Proof.
  intros Hd. unfold may_be_baseline. rewrite !andb_true_iff, bool_decide_eq_true, !Z.ltb_lt, (de_state _ _ _ Hd), <- (de_rows _ _ _ Hd), <- (de_sequence _ _ _ Hd).
  rewrite (de_truncated _ _ _ Hd), negb_false_iff.
  assert (history_state_text (ph_state e) = "active" <-> ph_state e = HistoryActive) as -> by (by destruct (ph_state e)).
  assert (match bounds_of window with Some (a, b) => (a <=? Z.of_N (ph_profile_sequence e))%Z && (Z.of_N (ph_profile_sequence e) <? b)%Z | None => true end = true <->
          forall w, window = Some w -> (start_sequence w <= ph_profile_sequence e < end_sequence w)%N) as ->.
  { destruct window as [w|]; cbn; [|naive_solver]. rewrite andb_true_iff, Z.leb_le, Z.ltb_lt. split; [intros ? ? [= <-]; lia|intros Hw; specialize (Hw _ eq_refl); lia]. }
  split; [intros ([[[? ?] ?] ?] & ?)|intros (? & ? & ? & ? & ?)]; split_and!; try done; lia.
Qed.
Lemma eligible_key s candidate window e :
  eligible s candidate window e ->
  (Z.of_N (ph_profile_sequence e), ph_history_id e) ∈
    baseline_keys s (ph_workspace_id candidate) (ph_dataset_id candidate) (Z.of_N (ph_profile_sequence candidate)) (bounds_of window).
Proof.
  intros He. destruct (from_connection_row _ _ _ (el_entry _ _ _ _ He)) as (row & Hr & Hd%from_raw_decodes). apply baseline_keys_elem. exists row. cbn.
  split_and!; [done| |apply (may_be_baseline_entry _ _ _ _ _ Hd); split_and!; apply He|apply Hd].
  unfold in_dataset. rewrite <- (de_workspace _ _ _ Hd), <- (de_dataset _ _ _ Hd), (el_workspace _ _ _ _ He), (el_dataset _ _ _ _ He). by rewrite !N.eqb_refl.
Qed.
Lemma key_eligible s candidate window id z e body :
  (z, id) ∈ baseline_keys s (ph_workspace_id candidate) (ph_dataset_id candidate) (Z.of_N (ph_profile_sequence candidate)) (bounds_of window) ->
  profile_history_from_connection s id = Ok e -> profile_history_versions_match e candidate = true ->
  get_artifact_body (hs_tables s) (ph_profile_artifact_id e) = Ok body -> validate_profile_history_artifact e body = Ok tt ->
  eligible s candidate window e /\ z = Z.of_N (ph_profile_sequence e).
Proof.
  intros (row & Hr & Hin & Hm & Hz)%baseline_keys_elem He Hv Hb Hval. cbn in *. destruct (from_connection_row _ _ _ He) as (row' & Hr' & Hd%from_raw_decodes).
  assert (row' = row) as -> by congruence. apply (may_be_baseline_entry _ _ _ _ _ Hd) in Hm as (? & ? & ? & ? & ?).
  unfold in_dataset in Hin. apply andb_true_iff in Hin as [Hw%N.eqb_eq Hds%N.eqb_eq]. pose proof (de_id _ _ _ Hd) as <-.
  split; [|rewrite Hz; symmetry; apply Hd]. constructor; try done; [by rewrite (de_workspace _ _ _ Hd)|by rewrite (de_dataset _ _ _ Hd)|by exists body].
Qed.
Definition entry_key (e : ProfileHistoryEntry) : SortKey := (Z.of_N (ph_profile_sequence e), ph_history_id e).
Definition latest (s : Histories) (candidate : ProfileHistoryEntry) (window : option DriftObservationWindow) (r : option ProfileHistoryEntry) : Prop :=
  match r with
  | Some e => eligible s candidate window e /\ forall e', eligible s candidate window e' -> (ph_profile_sequence e' <= ph_profile_sequence e)%N
  | None => forall e', ~ eligible s candidate window e'
  end.
Section first.
Context (s : Histories) (candidate : ProfileHistoryEntry) (window : option DriftObservationWindow).
Notation keys_of := (baseline_keys s (ph_workspace_id candidate) (ph_dataset_id candidate) (Z.of_N (ph_profile_sequence candidate)) (bounds_of window)).
(** Of the keys still to be tried. *)
Definition latest_in (keys : list SortKey) (r : option ProfileHistoryEntry) : Prop :=
  match r with
  | Some e => eligible s candidate window e /\
      forall e', eligible s candidate window e' -> entry_key e' ∈ keys -> (ph_profile_sequence e' <= ph_profile_sequence e)%N
  | None => forall e', eligible s candidate window e' -> entry_key e' ∉ keys
  end.
Lemma latest_in_skip z id b keys r :
  profile_history_from_connection s id = Ok b -> ~ eligible s candidate window b -> latest_in keys r -> latest_in ((z, id) :: keys) r.
Proof.
  intros Hb Hnot Hr. assert (forall e', eligible s candidate window e' -> entry_key e' ∈ (z, id) :: keys -> entry_key e' ∈ keys) as Hskip.
  { intros e' He' Hin. apply elem_of_cons in Hin as [[= _ Hid]|Hin]; [|done]. pose proof (el_entry _ _ _ _ He') as Hc. rewrite Hid, Hb in Hc. by injection Hc as ->. }
  destruct r as [e|]; cbn in *; [|intros e' He' Hin; by eapply Hr, Hskip]. destruct Hr as [He Hr]. split; [done|]. intros e' He' Hin. auto.
Qed.
Lemma first_eligible_latest keys r :
  (forall key, key ∈ keys -> key ∈ keys_of) -> StronglySorted newer_le keys -> first_eligible s candidate keys = Ok r -> latest_in keys r.
Proof.
  induction keys as [|[z id] keys IH] in r |- *; intros Hin Hs Hr; [injection Hr as <-; by intros e' _ ?%not_elem_of_nil|].
  cbn [first_eligible] in Hr. apply bind_Ok in Hr as (b & Hb & Hr). cbn in Hb. pose proof Hs as [Hfirst Hs']%StronglySorted_cons.
  assert (forall r, first_eligible s candidate keys = Ok r -> latest_in keys r) as IH' by (intros r'; apply IH; [intros; apply Hin; by right|done]).
  destruct (profile_history_versions_match b candidate) eqn:Hv; cbn in Hr.
  2:{ apply (latest_in_skip z id b); [done|intros He; by rewrite (el_versions _ _ _ _ He) in Hv|auto]. }
  destruct (get_artifact_body _ _) as [body|err] eqn:Hbody.
  2:{ destruct (is_ineligible_latest_error err); [|done]. apply (latest_in_skip z id b); [done| |auto].
      intros He. destruct (el_body _ _ _ _ He) as (body & Hbody' & _). congruence. }
  destruct (validate_profile_history_artifact b body) as [[]|err] eqn:Hval; cbn in Hr.
  2:{ apply (latest_in_skip z id b); [done| |auto]. intros He. destruct (el_body _ _ _ _ He) as (body' & Hbody' & Hval'). congruence. }
  injection Hr as <-. destruct (key_eligible s candidate window id z b body) as [He Hz]; [apply Hin; by left|done..|]. split; [done|].
  intros e' _ Hin'. apply elem_of_cons in Hin' as [[= Hz' _]|Hin']; [lia|]. rewrite Forall_forall in Hfirst. specialize (Hfirst _ Hin').
  unfold newer_le, due_le, entry_key in Hfirst. cbn in Hfirst. lia.
Qed.
End first.
Lemma scoped_entry s w d id e : get_profile_history s w d id = Ok e ->
  profile_history_from_connection s id = Ok e /\ ph_workspace_id e = w /\ ph_dataset_id e = d /\ ph_history_id e = id.
Proof.
  unfold get_profile_history. intros He. inv_ok He. injection He as <-. apply orb_false_iff in Hb as [Hw%negb_false_iff%N.eqb_eq Hd%negb_false_iff%N.eqb_eq].
  destruct (from_connection_row _ _ _ Hx0) as (row & _ & Hdec%from_raw_decodes). split_and!; [done..|]. apply Hdec.
Qed.
Lemma i64_of_Ok label n z : i64_of label n = Ok z -> z = Z.of_N n.
Proof. unfold i64_of. intros Hz. case_match; by simplify_eq. Qed.
(** The baseline chosen for a comparison is the newest eligible entry of the dataset, and when none is chosen there is none. *)
Theorem latest_baseline_exact s w d id window r candidate :
  get_profile_history s w d id = Ok candidate -> select_profile_history_baseline s w d id LatestEligible window = Ok r -> latest s candidate window r.
Proof.
  intros Hc Hr. destruct (scoped_entry _ _ _ _ _ Hc) as (_ & <- & <- & <-). unfold select_profile_history_baseline in Hr. inv_ok Hr.
  assert (x0 = candidate) as -> by congruence. assert (x1 = bounds_of window) as ->.
  { destruct window as [w|]; [|by injection Hx1]. inv_ok Hx1. injection Hx1 as <-. cbn. by apply i64_of_Ok in Hx3 as ->, Hx4 as ->. }
  apply i64_of_Ok in Hx2 as ->. apply first_eligible_latest with (window := window) in Hr; [|done|apply (StronglySorted_merge_sort newer_le)].
  destruct r as [e|]; cbn in *.
  - destruct Hr as [He Hmax]. split; [done|]. intros e' He'. by apply Hmax, eligible_key.
  - intros e' He'. by eapply Hr, eligible_key.
Qed.

(** ** An entry read twice *)

(** An entry but for its tombstone. *)
Definition untouched (e : ProfileHistoryEntry) : ProfileHistoryEntry :=
  mkHistoryEntry (ph_history_id e) (ph_workspace_id e) (ph_dataset_id e) (ph_profile_artifact_id e) (ph_producing_run_id e) (ph_profile_digest e)
    (ph_profile_contract_version e) (ph_drift_contract_version e) (ph_profile_policy_version e) (ph_top_k e) (ph_histogram_buckets e)
    (ph_schema_fingerprint e) (ph_schema e) (ph_row_count_scanned e) (ph_scanned_bytes e) (ph_truncated e) (ph_profile_sequence e) HistoryActive
    (ph_created_at e) None.
Lemma tombstoned_untouched id row at_ e e' :
  profile_history_from_raw id row = Ok e -> profile_history_from_raw id (tombstoned_row at_ row) = Ok e' -> untouched e' = untouched e.
Proof. unfold profile_history_from_raw, row_sequence. intros He He'. inv_ok He. inv_ok He'. injection He as <-. injection He' as <-.
  unfold untouched. cbn in *. f_equal; congruence.
Qed.
Lemma read_later s s' w d id e e' :
  histories_le s s' -> get_profile_history s w d id = Ok e -> get_profile_history s' w d id = Ok e' -> untouched e' = untouched e.
Proof.
  intros Hle (Hc & _)%scoped_entry (Hc' & _)%scoped_entry. destruct (from_connection_row _ _ _ Hc) as (row & Hr & He).
  destruct (from_connection_row _ _ _ Hc') as (row' & Hr' & He'). destruct (Hle _ _ Hr) as (row2 & Hr2 & Hrow). assert (row2 = row') as -> by congruence.
  destruct Hrow as [->|[_ [at_ ->]]]; [congruence|by eapply tombstoned_untouched].
Qed.

(** ** Pages *)

Lemma history_keys_elem s w d state key :
  key ∈ history_keys s w d state -> exists row, hs_rows s !! key.2 = Some row /\ key.1 = row_sequence row.
Proof. unfold history_keys. intros ([id row] & -> & [_ [Hr _]%history_rows_elem]%list_elem_of_filter)%list_elem_of_fmap. by exists row. Qed.
Lemma history_keys_NoDup s w d state : NoDup (history_keys s w d state).
Proof.
  apply (NoDup_fmap_1 snd). unfold history_keys. rewrite <- list_fmap_compose.
  change (NoDup (fst <$> filter (fun e => state_matches state e.2) (filter (fun e => in_dataset w d e.2) (map_to_list (hs_rows s))))).
  eapply sublist_NoDup; [apply (NoDup_fst_map_to_list (hs_rows s))|]. apply fmap_sublist. etrans; apply sublist_filter.
Qed.
Lemma page_entries_keys s limit keys acc es :
  (forall key, key ∈ keys -> exists row, hs_rows s !! key.2 = Some row /\ key.1 = row_sequence row) ->
  page_entries s limit keys acc = Ok es -> entry_key <$> es = (entry_key <$> acc) ++ keys.
Proof.
  revert acc. induction keys as [|[z id] keys IH]; intros acc Hk Hp; cbn in Hp; [injection Hp as <-; by rewrite app_nil_r|].
  apply bind_Ok in Hp as (e & He & Hp). apply bind_Ok in Hp as (u & _ & Hp). apply IH in Hp; [|intros; apply Hk; by right].
  rewrite Hp, fmap_app, <- app_assoc. cbn. do 2 f_equal. destruct (Hk (z, id)) as (row & Hr & Hz); [by left|]. cbn in Hr, Hz.
  apply from_connection_row in He as (row' & Hr' & Hd%from_raw_decodes). assert (row' = row) as -> by congruence.
  unfold entry_key. rewrite (de_sequence _ _ _ Hd), (de_id _ _ _ Hd), <- Hz. done.
Qed.
(** The cursor stands after the keys [seen]. *)
Definition stands_after (seen : list SortKey) (cursor : option ProfileHistoryCursor) : Prop :=
  match cursor with None => seen = [] | Some c => last seen = Some (Z.of_N (hc_profile_sequence c), hc_history_id c) end.
Lemma listed_keys s w d state seen rest cursor limit after :
  merge_sort newer_le (history_keys s w d state) = seen ++ rest -> stands_after seen cursor ->
  match cursor with
  | Some c => after = (Z.of_N (hc_profile_sequence c), hc_history_id c)
  | None => after = (Z.of_N i64_max, 0%N) /\ Forall (fun k => (k.1 < Z.of_N i64_max)%Z) rest
  end -> key_page newer_le (Some after) limit (history_keys s w d state) = take limit rest.
Proof.
  intros Hk Hs Ha. destruct cursor as [c|]; cbn in Hs.
  - apply last_Some in Hs as [seen' ->]. subst after. eapply (key_page_next newer_le _ _ seen'); [apply history_keys_NoDup|]. by rewrite Hk, <- app_assoc.
  - subst seen. destruct Ha as [-> Hall]. rewrite (key_page_sorted newer_le), Hk. cbn. f_equal. apply list_filter_all. rewrite Forall_forall in Hall.
    intros k Hx. pose proof (Hall _ Hx) as Hz. split; [left; exact Hz|]. intros <-. exact (Z.lt_irrefl _ Hz).
Qed.
(** A page continues where its cursor stands, newest first; when more entries follow, its cursor stands after its last one, and when none follow it has none. *)
Theorem history_pages_consecutive s w d state seen rest cursor limit page :
  merge_sort newer_le (history_keys s w d state) = seen ++ rest -> stands_after seen cursor -> Forall (fun k => (k.1 < Z.of_N i64_max)%Z) rest ->
  list_profile_history s w d state cursor limit = Ok page ->
  entry_key <$> hp_entries page = take (N.to_nat limit) rest /\
  match hp_next page with
  | Some next => stands_after (seen ++ take (N.to_nat limit) rest) (Some next) /\ drop (N.to_nat limit) rest <> []
  | None => drop (N.to_nat limit) rest = []
  end.
Proof.
  intros Hk Hs Hall Hp. unfold list_profile_history in Hp. inv_ok Hp. injection Hp as <-. apply orb_false_iff in Hb0 as [Hpos%N.eqb_neq _].
  apply page_entries_keys in Hx0 as Hkeys.
  2:{ intros key Hin. apply (history_keys_elem s w d state). apply (sublist_subseteq _ _ (sublist_take _ _)) in Hin. rewrite merge_sort_Permutation in Hin. by apply list_elem_of_filter in Hin as [_ ?]. }
  rewrite (listed_keys s w d state seen rest cursor) in Hkeys; [|done|done|].
  2:{ destruct cursor as [c|]; [|by injection Hx as <-]. apply bind_Ok in Hx as (z & ->%i64_of_Ok & Hx). by injection Hx as <-. }
  cbn in Hkeys. assert (length x0 = Nat.min (N.to_nat (limit + 1)) (length rest)) as Hlen by (by rewrite <- length_take, <- Hkeys, length_fmap).
  destruct (N.ltb_spec limit (len x0)) as [Hlt|Hge]; unfold len in *; cbn [hp_entries hp_next].
  - destruct x0 as [|e0 x0] using rev_ind; [cbn in Hlt; lia|clear IHx0]. rewrite removelast_last. rewrite fmap_app, length_app in *. cbn in Hkeys, Hlen, Hlt.
    assert (entry_key <$> x0 = take (N.to_nat limit) rest) as Hfront.
    { transitivity (take (N.to_nat limit) (take (N.to_nat (limit + 1)) rest)); [|rewrite take_take; f_equal; lia].
      rewrite <- Hkeys, take_app_le, take_ge; [done|rewrite length_fmap; lia..]. }
    split; [done|]. destruct (last x0) as [e|] eqn:Hlast; cbn.
    + rewrite <- Hfront. apply last_Some in Hlast as [front ->]. rewrite fmap_app, app_assoc. cbn. rewrite last_snoc. split; [done|].
      intros Hd%(f_equal length). rewrite length_drop in Hd. cbn in Hd. lia.
    + apply last_None in Hlast as ->. cbn in *. lia.
  - split; [|apply drop_ge; lia]. rewrite Hkeys, !take_ge by lia. done.
Qed.
End baselines.

(** ** Two profiles *)

#[local] Open Scope N_scope.
Lemma first_step : rtc HistoryStep no_histories histories_1.
Proof.
  eapply rtc_l; [exact (StepOther no_histories profile_tables eq_refl)|]. eapply rtc_l; [exact (StepRecord histories_0 _ _ _ _ _ first_recorded)|]. constructor.
Qed.
Lemma second_step : rtc HistoryStep histories_1 histories_2.
Proof. eapply rtc_l; [exact (StepRecord histories_1 _ _ _ _ _ second_recorded)|]. constructor. Qed.
Lemma third_step : rtc HistoryStep histories_2 histories_3.
Proof.
  assert (exists e, tombstone_profile_history 1 2 12 9%Z histories_2 = Ok (histories_3, e)) as [e He] by (eexists; vm_compute; reflexivity).
  eapply rtc_l; [exact (StepTombstone histories_2 _ _ _ _ _ _ He)|]. constructor.
Qed.
Lemma profile_history_append_only_witness :
  length (sequences histories_2 1 2) = 2%nat /\ exists row, hs_rows histories_2 !! 12 = Some row /\ (1 < row_sequence row)%Z.
Proof.
  destruct (profile_history_append_only histories_1 histories_2 1 2 first_step second_step) as (_ & _ & _ & _ & Hnew).
  split; [vm_compute; reflexivity|]. destruct (hs_rows histories_2 !! 12) as [row|] eqn:Hr; [|vm_compute in Hr; discriminate Hr].
  exists row. split; [reflexivity|]. assert (Z.of_nat (length (sequences histories_1 1 2)) = 1%Z) as Hlen by (vm_compute; reflexivity).
  rewrite <- Hlen. apply (Hnew 12 row Hr); [|vm_compute; reflexivity]. vm_compute in Hr. injection Hr as <-. vm_compute. reflexivity.
Defined.
Lemma recording_replays_witness :
  exists s e, record_profile_history_next profile_tables (sample_history_draft 11 31 sample_before) histories_2 = Ok (s, e) /\ s = histories_2 /\ ph_history_id e = 11.
Proof.
  assert (exists s e, record_profile_history_next profile_tables (sample_history_draft 11 31 sample_before) histories_2 = Ok (s, e)) as (s & e & Hr)
    by (eexists _, _; vm_compute; reflexivity).
  exists s, e. split; [exact Hr|].
  assert (rtc HistoryStep no_histories histories_0) as H0 by (eapply rtc_l; [exact (StepOther no_histories profile_tables eq_refl)|constructor]).
  exact (recording_replays _ _ _ _ _ _ _ _ _ _ _ _ H0 first_recorded second_step eq_refl eq_refl eq_refl eq_refl Hr).
Defined.
Lemma latest_baseline_exact_witness :
  exists candidate baseline, get_profile_history histories_2 1 2 12 = Ok candidate /\
    select_profile_history_baseline histories_2 1 2 12 LatestEligible None = Ok (Some baseline) /\ ph_history_id baseline = 11 /\
    forall e', eligible histories_2 candidate None e' -> ph_profile_sequence e' <= 1.
Proof.
  exists (sample_entry 12 sample_after false), (sample_entry 11 sample_before false).
  assert (get_profile_history histories_2 1 2 12 = Ok (sample_entry 12 sample_after false)) as Hc by (vm_compute; reflexivity).
  assert (select_profile_history_baseline histories_2 1 2 12 LatestEligible None = Ok (Some (sample_entry 11 sample_before false))) as Hs by (vm_compute; reflexivity).
  split; [exact Hc|]. split; [exact Hs|]. split; [reflexivity|]. exact (proj2 (latest_baseline_exact _ _ _ _ _ _ _ Hc Hs)).
Defined.
Lemma history_pages_consecutive_witness :
  exists page, list_profile_history histories_2 1 2 None None 1 = Ok page /\ entry_key <$> hp_entries page = [(2%Z, 12)] /\ is_Some (hp_next page).
Proof.
  assert (exists page, list_profile_history histories_2 1 2 None None 1 = Ok page) as [page Hp] by (eexists; vm_compute; reflexivity).
  assert (merge_sort newer_le (history_keys histories_2 1 2 None) = [] ++ [(2%Z, 12); (1%Z, 11)]) as Hk by (vm_compute; reflexivity).
  assert (Forall (fun k : SortKey => (k.1 < Z.of_N i64_max)%Z) [(2%Z, 12); (1%Z, 11)]) as Hall by (repeat constructor).
  destruct (history_pages_consecutive histories_2 1 2 None [] _ None 1 page Hk eq_refl Hall Hp) as [He Hn]. exists page. split; [exact Hp|].
  split; [exact He|]. destruct (hp_next page) as [next|]; [by eexists|discriminate Hn].
Defined.
