(* ===== verification/Drift.v ===== *)
(** * Drift between profiles: [stillflow-engine/src/drift.rs]

    Two profiles of a dataset, a baseline and a later candidate, are compared
    column by column: schemas, null rates and histograms, in exact rationals
    ([stillflow-core/src/drift.rs]).  The findings and what could not be
    compared make a report in canonical JSON.  A failed [expect] is an
    [Internal] error. *)

From S2P Require Import Prelude Text Secrets Logical Schema Expression Rule Plan Semantics Lookup Typing Nodes Registry Schedule Automation Keyset Hex Canonical Operations Jobs Submissions Outputs Lifecycle Reports Life Refines Reachable ProfileHistory.
From stdpp Require Import pretty.

Import EngineError.

(** ** Rationals *)

Definition i128_max : Z := 2 ^ 127 - 1.
Definition u128_max : N := 2 ^ 128 - 1.
Definition i128_wrap (z : Z) : Z := (z + 2 ^ 127) mod 2 ^ 128 - 2 ^ 127.
Definition i128_mul (x y : Z) : option Z := if ((- 2 ^ 127 <=? x * y) && (x * y <=? i128_max))%Z then Some (x * y)%Z else None.
Definition u128_mul (x y : N) : option N := if (x * y <=? u128_max)%N then Some (x * y)%N else None.
Definition u128_add (x y : N) : option N := if (x + y <=? u128_max)%N then Some (x + y)%N else None.
Definition i128_of (n : N) : option Z := if (Z.of_N n <=? i128_max)%Z then Some (Z.of_N n) else None.
Definition u64_of (z : Z) : option N := if ((0 <=? z) && (z <? 2 ^ 64))%Z then Some (Z.to_N z) else None.

Record DriftRational := mkRational { numerator : Z; denominator : N }.
#[export] Instance DriftRational_eq_dec : EqDecision DriftRational.
Proof. solve_decision. Defined.
(** Euclid's loop; every second remainder is less than half, so the fuel is
    enough for any [u128]. *)
Fixpoint gcd_loop (fuel : nat) (left right : N) : N :=
  match fuel with
  | O => left
  | S fuel => if (right =? 0)%N then left else gcd_loop fuel right (left mod right)
  end.
Definition gcd_u128 (left right : N) : N := gcd_loop 258 left right.
Definition rational_new (numerator : Z) (denominator : N) : option DriftRational :=
  if (denominator =? 0)%N then None else
  let gcd := gcd_u128 (Z.abs_N numerator) denominator in
  let gcd := if (gcd =? 0)%N then 1%N else gcd in
  divisor ← i128_of gcd;
  Some (mkRational (Z.quot numerator divisor) (denominator / gcd)).
Definition cmp_value (x y : DriftRational) : option comparison :=
  yd ← i128_of (denominator y);
  left ← i128_mul (numerator x) yd;
  xd ← i128_of (denominator x);
  right ← i128_mul (numerator y) xd;
  Some (left ?= right)%Z.
Definition abs_delta (left right : DriftRational) : option DriftRational :=
  rd ← i128_of (denominator right);
  left_term ← i128_mul (numerator left) rd;
  ld ← i128_of (denominator left);
  right_term ← i128_mul (numerator right) ld;
  denominator ← u128_mul (denominator left) (denominator right);
  rational_new (i128_wrap (Z.abs (i128_wrap (left_term - right_term)))) denominator.

(** ** Profiles and reports *)

Definition DRIFT_MAX_COMPARE_COLUMNS : N := 256.
Definition DRIFT_MAX_FINDINGS_PER_REPORT : N := 4096.
Definition DRIFT_MAX_MISSING_METRICS : N := 256.
Definition DRIFT_MAX_EVIDENCE_REFS_PER_FINDING : N := 8.
Definition DRIFT_MAX_RETAINED_EVIDENCE_BYTES_PER_FINDING : N := 65536.
Definition DRIFT_MINIMUM_METRIC_ROWS : N := 20.
Definition PROFILE_MAX_ROWS : N := 1048576.
Definition DRIFT_DETECTOR_ID : string := "q-d1-v1".

Record DriftProfileInput := mkProfileInput { pi_entry : ProfileHistoryEntry; pi_body : list N }.
Record DriftRequest := mkDriftRequest {
  comparison_request : DriftComparisonRequest; baseline_input : option DriftProfileInput; candidate_input : DriftProfileInput }.
Inductive DriftFindingKind :=
| SchemaColumnAdded
| SchemaColumnRemoved
| SchemaColumnTypeChanged
| SchemaColumnNullabilityChanged
| DistributionNumericHistogramL1Exceeded
| DistributionNullRateDeltaExceeded.
#[export] Instance DriftFindingKind_eq_dec : EqDecision DriftFindingKind.
Proof. solve_decision. Defined.
Definition kind_rank (k : DriftFindingKind) : N :=
  match k with
  | SchemaColumnAdded => 0
  | SchemaColumnRemoved => 1
  | SchemaColumnTypeChanged => 2
  | SchemaColumnNullabilityChanged => 3
  | DistributionNumericHistogramL1Exceeded => 4
  | DistributionNullRateDeltaExceeded => 5
  end.
Inductive DriftMissingReason :=
| MissingNoBaseline
| MissingNoRows
| MissingTruncatedScan
| MissingUnsupportedType
| MissingMetricAbsent
| MissingTooFewRows
| MissingIncompatibleSchema
| MissingTombstonedInput
| MissingIncompatibleVersion.
#[export] Instance DriftMissingReason_eq_dec : EqDecision DriftMissingReason.
Proof. solve_decision. Defined.
Record DriftMissingMetric := mkMissing { mm_column_name : string; mm_metric_path : string; mm_reason : DriftMissingReason }.
#[export] Instance DriftMissingMetric_eq_dec : EqDecision DriftMissingMetric.
Proof. solve_decision. Defined.
Inductive FindingSeverity := SeverityInfo | SeverityWarning | SeverityError.
Record DriftFinding := mkFinding {
  fi_finding_id : string;
  fi_kind : DriftFindingKind;
  fi_category : string;
  fi_detector_id : string;
  fi_detector_contract_version : N;
  fi_origin : string;
  fi_severity : FindingSeverity;
  fi_column_name : string;
  fi_metric_path : string;
  fi_observed : option DriftRational;
  fi_threshold : option DriftRational;
  fi_baseline_profile_digest : string;
  fi_candidate_profile_digest : string;
  fi_evidence_refs : list json;
  fi_provenance : json;
  fi_message : string;
}.
Record DriftReport := mkReport {
  re_artifact_type : string;
  re_artifact_body_version : N;
  re_contract_version : N;
  re_baseline_profile_digest : string;
  re_candidate_profile_digest : string;
  re_threshold_policy_version : N;
  re_numeric_histogram_l1_threshold : DriftRational;
  re_null_rate_delta_threshold : DriftRational;
  re_observation_window : option DriftObservationWindow;
  re_outcome : DriftOutcome;
  re_completeness : bool;
  re_missing_metrics : list DriftMissingMetric;
  re_findings : list DriftFinding;
  re_canonical_input_digest : string;
}.
Record DriftResult := mkDriftResult {
  do_outcome : DriftOutcome;
  do_baseline_history_id : option Uuid;
  do_report : option DriftReport;
  do_canonical_body : option (list N);
  do_canonical_digest : option string;
  do_canonical_input_digest : string;
}.

(** ** Texts *)

Definition category_text (k : DriftFindingKind) : string :=
  match k with
  | SchemaColumnAdded | SchemaColumnRemoved | SchemaColumnTypeChanged | SchemaColumnNullabilityChanged => "Schema"
  | DistributionNumericHistogramL1Exceeded | DistributionNullRateDeltaExceeded => "Distribution"
  end.
Definition kind_text (k : DriftFindingKind) : string :=
  match k with
  | SchemaColumnAdded => "schema.column_added"
  | SchemaColumnRemoved => "schema.column_removed"
  | SchemaColumnTypeChanged => "schema.column_type_changed"
  | SchemaColumnNullabilityChanged => "schema.column_nullability_changed"
  | DistributionNumericHistogramL1Exceeded => "distribution.numeric_histogram_l1_exceeded"
  | DistributionNullRateDeltaExceeded => "distribution.null_rate_delta_exceeded"
  end.
Definition missing_reason_text (r : DriftMissingReason) : string :=
  match r with
  | MissingNoBaseline => "no_baseline"
  | MissingNoRows => "no_rows"
  | MissingTruncatedScan => "truncated_scan"
  | MissingUnsupportedType => "unsupported_type"
  | MissingMetricAbsent => "metric_absent"
  | MissingTooFewRows => "too_few_rows"
  | MissingIncompatibleSchema => "incompatible_schema"
  | MissingTombstonedInput => "tombstoned_input"
  | MissingIncompatibleVersion => "incompatible_version"
  end.
(** [{:?}] of a reason. *)
Definition reason_debug (r : DriftMissingReason) : string :=
  match r with
  | MissingNoBaseline => "NoBaseline"
  | MissingNoRows => "NoRows"
  | MissingTruncatedScan => "TruncatedScan"
  | MissingUnsupportedType => "UnsupportedType"
  | MissingMetricAbsent => "MetricAbsent"
  | MissingTooFewRows => "TooFewRows"
  | MissingIncompatibleSchema => "IncompatibleSchema"
  | MissingTombstonedInput => "TombstonedInput"
  | MissingIncompatibleVersion => "IncompatibleVersion"
  end.
Definition severity_text (s : FindingSeverity) : string :=
  match s with SeverityInfo => "Info" | SeverityWarning => "Warning" | SeverityError => "Error" end.
Definition drift_type_name (t : LogicalType) : string :=
  match t with
  | TNull => "null" | TBoolean => "boolean"
  | TInt8 => "int8" | TInt16 => "int16" | TInt32 => "int32" | TInt64 => "int64"
  | TUInt8 => "uint8" | TUInt16 => "uint16" | TUInt32 => "uint32" | TUInt64 => "uint64"
  | TFloat32 => "float32" | TFloat64 => "float64"
  | TUtf8 => "utf8" | TBinary => "binary" | TDate32 => "date32"
  | TTimestamp Second _ => "timestamp_s"
  | TTimestamp Millisecond _ => "timestamp_ms"
  | TTimestamp Microsecond _ => "timestamp_us"
  | TTimestamp Nanosecond _ => "timestamp_ns"
  | TList _ => "list"
  | TStruct _ => "struct"
  end.
Definition is_numeric_type (value : string) : bool :=
  bool_decide (value ∈ ["int8"; "int16"; "int32"; "int64"; "uint8"; "uint16"; "uint32"; "uint64"; "float32"; "float64"]).

(** ** JSON *)

Definition json_u64 (n : N) : json := JNumber (PosInt n).

Section drift.
Context `{JobCodec}.
(** The text of a number that is not an integer; there is none in a report. *)
Context (float_text : N -> list N).

Definition quoted (s : string) : list N := default [] (json_text s).
Fixpoint drift_canonical (v : json) : list N :=
  match v with
  | JNull => bytes_of "null"
  | JBool b => bytes_of (if b then "true" else "false")
  | JNumber (PosInt n) => bytes_of (pretty n)
  | JNumber (NegInt z) => bytes_of (pretty z)
  | JNumber (Float bits) => float_text bits
  | JString s => quoted s
  | JArray items => [91%N] ++ comma_separated (drift_canonical <$> items) ++ [93%N]
  | JObject entries =>
      let written := (fix go (entries : list (string * json)) : list (string * list N) :=
                        match entries with [] => [] | (k, v) :: entries => (k, drift_canonical v) :: go entries end) entries in
      [123%N] ++ comma_separated ((fun e => quoted e.1 ++ [58%N] ++ e.2) <$> merge_sort key_le written) ++ [125%N]
  end.
(** [u64::try_from(..).expect(..)] *)
Definition rational_value (r : DriftRational) : Eng json :=
  den ← ok_or (u64_of (Z.of_N (denominator r))) (Internal "profile bounds keep rational denominator");
  num ← ok_or (u64_of (numerator r)) (Internal "profile bounds keep rational numerator");
  Ok (JObject [("denominator", json_u64 den); ("numerator", json_u64 num)]).
Definition metric_evidence (metric_path : string) (rational : option DriftRational) : Eng json :=
  let head := [("kind", JString "MetricEvidence"); ("metric_path", JString metric_path)] in
  match rational with
  | Some r => value ← rational_value r; Ok (JObject (head ++ [("rational", value)]))
  | None => Ok (JObject head)
  end.
Definition finding_provenance (baseline_digest candidate_digest : string) : json :=
  JObject [("baseline_profile_digest", JString baseline_digest); ("candidate_profile_digest", JString candidate_digest);
           ("detector_contract_version", json_u64 PROFILE_HISTORY_DRIFT_CONTRACT_VERSION); ("origin", JString "Deterministic")].
Definition window_value (w : option DriftObservationWindow) : json :=
  match w with
  | None => JString "none"
  | Some w => JObject [("end_sequence", json_u64 (end_sequence w)); ("start_sequence", json_u64 (start_sequence w))]
  end.

(** ** Findings *)

Definition finding_id (kind : DriftFindingKind) (name baseline_digest candidate_digest metric_path : string) : string :=
  digest_hex (sha256 ([kind_text kind; name; baseline_digest; candidate_digest; metric_path] ≫= fun value => u64_be (str_len value) ++ bytes_of value)).
Definition finding (kind : DriftFindingKind) (severity : FindingSeverity) (name metric_path : string) (observed threshold : option DriftRational)
  (evidence_refs : list json) (baseline_digest candidate_digest message : string) : DriftFinding :=
  mkFinding (finding_id kind name baseline_digest candidate_digest metric_path) kind (category_text kind) DRIFT_DETECTOR_ID
    PROFILE_HISTORY_DRIFT_CONTRACT_VERSION "Deterministic" severity name metric_path observed threshold baseline_digest candidate_digest
    evidence_refs (finding_provenance baseline_digest candidate_digest) message.
Definition schema_finding (kind : DriftFindingKind) (severity : FindingSeverity) (name message baseline_digest candidate_digest : string) : Eng DriftFinding :=
  evidence ← metric_evidence "schema" None;
  Ok (finding kind severity name "schema" None None [evidence] baseline_digest candidate_digest message).
Definition changed_buckets (baseline candidate : list N) : list json :=
  (fun e => JObject [("bucket_index", json_u64 (N.of_nat e.1)); ("count", json_u64 e.2.2)]) <$>
    filter (fun e => e.2.1 <> e.2.2) (zip (seq 0 (length baseline)) (zip baseline candidate)).
Definition metric_finding (kind : DriftFindingKind) (name metric_path : string) (observed threshold : DriftRational)
  (baseline_digest candidate_digest : string) (histograms : option (list N * list N)) : Eng DriftFinding :=
  evidence ← metric_evidence metric_path (Some observed);
  let evidence_refs := evidence ::
    match histograms with
    | Some (baseline, candidate) =>
        [JObject [("buckets", JArray (changed_buckets baseline candidate)); ("column_ref", JString name); ("kind", JString "HistogramEvidence")]]
    | None => []
    end in
  Ok (finding kind SeverityError name metric_path (Some observed) (Some threshold) evidence_refs baseline_digest candidate_digest
        "deterministic drift threshold exceeded").
(** [then_with] *)
Definition and_then (c d : comparison) : comparison := match c with Eq => d | _ => c end.
Definition finding_order (x y : DriftFinding) : comparison :=
  and_then (kind_rank (fi_kind x) ?= kind_rank (fi_kind y))%N
    (and_then (String.compare (fi_column_name x) (fi_column_name y))
      (and_then (String.compare (fi_metric_path x) (fi_metric_path y)) (String.compare (fi_finding_id x) (fi_finding_id y)))).
Definition finding_le (x y : DriftFinding) : Prop := finding_order x y <> Gt.
#[global] Instance finding_le_dec : RelDecision finding_le.
Proof. intros x y. unfold finding_le. apply _. Defined.
Definition missing_order (x y : DriftMissingMetric) : comparison :=
  and_then (String.compare (mm_column_name x) (mm_column_name y))
    (and_then (String.compare (mm_metric_path x) (mm_metric_path y)) (String.compare (reason_debug (mm_reason x)) (reason_debug (mm_reason y)))).
Definition missing_le (x y : DriftMissingMetric) : Prop := missing_order x y <> Gt.
#[global] Instance missing_le_dec : RelDecision missing_le.
Proof. intros x y. unfold missing_le. apply _. Defined.

(** ** Profiles *)

Record ParsedColumn := mkParsedColumn {
  pc_logical_type : string;
  pc_status : string;
  pc_null_count : option N;
  pc_non_null_count : option N;
  pc_histogram : option (list N);
}.
Record ParsedProfile := mkParsedProfile { pp_rows : N; pp_columns : gmap string ParsedColumn }.
Definition histogram_counts (v : json) : option (list N) :=
  items ← match as_array v with Some items => Some items | None => json_get v "counts" ≫= as_array end;
  mapM as_u64 items.
Definition checked_total (counts : list N) : option N :=
  foldl (fun total count => total ← total; checked_add total count) (Some 0%N) counts.
Definition validate_profile_column_metrics (column : ParsedColumn) (rows : N) : Eng unit :=
  if match pc_null_count column with Some n => (rows <? n)%N | None => false end
     || match pc_non_null_count column with Some n => (rows <? n)%N | None => false end
  then Err (InvalidPlan "ProfileHistory column counts exceed its row count") else
  match pc_histogram column with
  | Some histogram =>
      match checked_total histogram with
      | Some total => if (default rows (pc_non_null_count column) <? total)%N
                      then Err (InvalidPlan "ProfileHistory histogram counts exceed its non-null count") else Ok tt
      | None => Err (InvalidPlan "ProfileHistory histogram counts exceed its non-null count")
      end
  | None => Ok tt
  end.
Definition parse_column (rows : N) (column : json) : Eng (string * ParsedColumn) :=
  column ← ok_or (as_map column) (InvalidPlan "ProfileHistory column is not an object");
  name ← ok_or (json_get column "name" ≫= as_str) (InvalidPlan "ProfileHistory column name is missing");
  logical_type ← ok_or (json_get column "type" ≫= as_str) (InvalidPlan "ProfileHistory column type is missing");
  status ← ok_or (json_get column "status" ≫= as_str) (InvalidPlan "ProfileHistory column status is missing");
  let parsed := mkParsedColumn logical_type status (json_get column "null_count" ≫= as_u64) (json_get column "non_null_count" ≫= as_u64)
                  (json_get column "histogram" ≫= histogram_counts) in
  try! validate_profile_column_metrics parsed rows;
  Ok (name, parsed).
Fixpoint parse_columns (rows : N) (columns : list json) (parsed : gmap string ParsedColumn) : Eng (gmap string ParsedColumn) :=
  match columns with
  | [] => Ok parsed
  | column :: columns =>
      entry ← parse_column rows column;
      if bool_decide (is_Some (parsed !! entry.1)) then Err (InvalidPlan "ProfileHistory profile has duplicate columns") else
      parse_columns rows columns (<[entry.1 := entry.2]> parsed)
  end.
Definition parse_profile (input : DriftProfileInput) : Eng ParsedProfile :=
  if negb (bool_decide (sha256 (pi_body input) = ph_profile_digest (pi_entry input)))
  then Err (InvalidPlan "ProfileHistory body digest does not match its entry") else
  value ← ok_or (json_parse_bytes (pi_body input)) (InvalidPlan "ProfileHistory profile body is not JSON");
  if negb (bool_decide (json_get value "artifact_type" ≫= as_str = Some "profile_report"))
     || negb (bool_decide (json_get value "artifact_body_version" ≫= as_u64 = Some 1%N))
     || negb (bool_decide (json_get value "profiling_contract_version" ≫= as_u64 = Some (ph_profile_contract_version (pi_entry input))))
  then Err (InvalidPlan "ProfileHistory profile body version is incompatible") else
  dataset ← ok_or (json_get value "dataset" ≫= as_map) (InvalidPlan "ProfileHistory profile dataset is missing");
  rows ← ok_or (json_get dataset "row_count_scanned" ≫= as_u64) (InvalidPlan "ProfileHistory row count is missing");
  if (PROFILE_MAX_ROWS <? rows)%N then Err (BoundExceeded "ProfileHistory profile rows exceed the profiling bound") else
  columns ← ok_or (json_get value "columns" ≫= as_array) (InvalidPlan "ProfileHistory profile columns are missing");
  if (DRIFT_MAX_COMPARE_COLUMNS <? len columns)%N
  then Err (BoundExceeded "ProfileHistory profile columns exceed the comparison bound") else
  parsed ← parse_columns rows columns ∅;
  Ok (mkParsedProfile rows parsed).

(** ** Metrics *)

(** What a comparison adds to the findings and to the missing metrics. *)
Definition Compared : Type := list DriftFinding * list DriftMissingMetric.
Definition only_missing (name metric_path : string) (reason : DriftMissingReason) : Eng Compared := Ok ([], [mkMissing name metric_path reason]).
Definition nothing : Eng Compared := Ok ([], []).
(** [DriftRational::new(..).expect(..)] of the two thresholds. *)
Definition NULL_RATE_THRESHOLD : DriftRational := mkRational 1 10.
Definition HISTOGRAM_THRESHOLD : DriftRational := mkRational 1 5.
Definition unavailable_reason (column : ParsedColumn) (rows : N) (truncated : bool) : option DriftMissingReason :=
  if truncated then Some MissingTruncatedScan else
  if (rows =? 0)%N then Some MissingNoRows else
  if bool_decide (pc_status column = "skipped_unsupported_type") then Some MissingUnsupportedType else
  if bool_decide (pc_null_count column = None) || bool_decide (pc_non_null_count column = None) then Some MissingMetricAbsent else None.
Definition null_rate_delta (left_nulls baseline_rows right_nulls candidate_rows : N) : option DriftRational :=
  left ← rational_new (Z.of_N left_nulls) baseline_rows;
  right ← rational_new (Z.of_N right_nulls) candidate_rows;
  abs_delta left right.
Definition compare_null_rates (name : string) (baseline candidate : ParsedColumn) (baseline_digest candidate_digest : string)
  (baseline_rows candidate_rows : N) (baseline_truncated candidate_truncated : bool) : Eng Compared :=
  match unavailable_reason baseline baseline_rows baseline_truncated, unavailable_reason candidate candidate_rows candidate_truncated with
  | Some reason, _ | None, Some reason => only_missing name "columns.null_rate" reason
  | None, None =>
      match pc_null_count baseline, pc_null_count candidate with
      | Some left_nulls, Some right_nulls =>
          match null_rate_delta left_nulls baseline_rows right_nulls candidate_rows with
          | Some observed =>
              if bool_decide (cmp_value observed NULL_RATE_THRESHOLD = Some Gt)
              then f ← metric_finding DistributionNullRateDeltaExceeded name "columns.null_rate_delta" observed NULL_RATE_THRESHOLD
                         baseline_digest candidate_digest None;
                   Ok ([f], [])
              else nothing
          | None => nothing
          end
      | _, _ => nothing
      end
  end.
Definition total_of (counts : list N) : N := foldr N.add 0%N counts.
Definition abs_diff (x y : N) : N := if (x <? y)%N then y - x else x - y.
(** The loop over the buckets. *)
Fixpoint l1_numerator (left_total right_total : N) (ls rs : list N) (numerator : N) : option N :=
  match ls, rs with
  | l :: ls, r :: rs =>
      left_term ← u128_mul l right_total;
      right_term ← u128_mul r left_total;
      numerator ← u128_add numerator (abs_diff left_term right_term);
      l1_numerator left_total right_total ls rs numerator
  | _, _ => Some numerator
  end.
Definition histogram_l1 (left right : list N) : option DriftRational :=
  if negb (length left =? length right)%nat then None else
  let left_total := total_of left in
  let right_total := total_of right in
  if (left_total =? 0)%N || (right_total =? 0)%N then None else
  numerator ← l1_numerator left_total right_total left right 0;
  numerator ← i128_of numerator;
  product ← u128_mul left_total right_total;
  denominator ← u128_mul product 2;
  rational_new numerator denominator.
Definition compare_histograms (name : string) (baseline candidate : ParsedColumn) (baseline_digest candidate_digest : string) : Eng Compared :=
  let missing := only_missing name "columns.histogram" in
  if negb (is_numeric_type (pc_logical_type baseline) && is_numeric_type (pc_logical_type candidate)) then nothing else
  match pc_histogram baseline, pc_histogram candidate with
  | Some left_histogram, Some right_histogram =>
      if negb (length left_histogram =? length right_histogram)%nat then missing MissingIncompatibleVersion else
      match checked_total left_histogram, checked_total right_histogram with
      | Some left_total, Some right_total =>
          if (left_total =? 0)%N || (right_total =? 0)%N then missing MissingMetricAbsent else
          if (default 0%N (pc_non_null_count baseline) <? DRIFT_MINIMUM_METRIC_ROWS)%N
             || (default 0%N (pc_non_null_count candidate) <? DRIFT_MINIMUM_METRIC_ROWS)%N then missing MissingTooFewRows else
          match histogram_l1 left_histogram right_histogram with
          | Some observed =>
              if bool_decide (cmp_value observed HISTOGRAM_THRESHOLD = Some Gt)
              then f ← metric_finding DistributionNumericHistogramL1Exceeded name "columns.histogram_l1" observed HISTOGRAM_THRESHOLD
                         baseline_digest candidate_digest (Some (left_histogram, right_histogram));
                   Ok ([f], [])
              else nothing
          | None => missing MissingMetricAbsent
          end
      | _, _ => missing MissingMetricAbsent
      end
  | _, _ => missing MissingMetricAbsent
  end.
Definition both (x y : Compared) : Compared := (x.1 ++ y.1, x.2 ++ y.2).
Definition compare_metrics (name : string) (type_changed : bool) (baseline candidate : option ParsedColumn) (baseline_digest candidate_digest : string)
  (baseline_rows candidate_rows : N) (baseline_truncated candidate_truncated : bool) : Eng Compared :=
  match baseline, candidate with
  | Some baseline, Some candidate =>
      if type_changed then only_missing name "columns.metrics" MissingIncompatibleSchema else
      nulls ← compare_null_rates name baseline candidate baseline_digest candidate_digest baseline_rows candidate_rows
                baseline_truncated candidate_truncated;
      histograms ← compare_histograms name baseline candidate baseline_digest candidate_digest;
      Ok (both nulls histograms)
  | _, _ => only_missing name "columns.metrics" MissingMetricAbsent
  end.

(** ** Comparison *)

(** The last field of a name stays. *)
Definition schema_fields (s : LogicalSchema) : gmap string LogicalField := foldl (fun m f => <[name f := f]> m) ∅ (fields s).
Definition compatible (left right : ProfileHistoryEntry) : bool :=
  (ph_profile_contract_version left =? ph_profile_contract_version right)%N
  && (ph_drift_contract_version left =? ph_drift_contract_version right)%N
  && (ph_profile_policy_version left =? ph_profile_policy_version right)%N
  && (ph_top_k left =? ph_top_k right)%N
  && (ph_histogram_buckets left =? ph_histogram_buckets right)%N
  && (ph_profile_contract_version left =? 1)%N
  && (ph_drift_contract_version left =? PROFILE_HISTORY_DRIFT_CONTRACT_VERSION)%N
  && (ph_profile_policy_version left =? 1)%N.
Definition comparison_digest (c : DriftComparisonRequest) (baseline candidate : string) : Digest :=
  sha256 (drift_canonical (JObject
    [("baseline_profile_digest", JString baseline); ("candidate_profile_digest", JString candidate);
     ("dataset_id", JString (uuid_text (dc_dataset_id c))); ("observation_window", window_value (dc_observation_window c));
     ("profile_history_drift_contract_version", json_u64 PROFILE_HISTORY_DRIFT_CONTRACT_VERSION);
     ("threshold_policy_version", json_u64 (dc_threshold_policy_version c)); ("workspace_id", JString (uuid_text (dc_workspace_id c)))])).
Definition no_report (outcome : DriftOutcome) (input_digest : Digest) : DriftResult :=
  mkDriftResult outcome None None None None (digest_hex input_digest).
(** A finding about the schema, if it changed. *)
Definition schema_change (changed : bool) (kind : DriftFindingKind) (severity : FindingSeverity) (column message baseline_digest candidate_digest : string)
  : Eng Compared :=
  if changed then f ← schema_finding kind severity column message baseline_digest candidate_digest; Ok ([f], []) else nothing.
(** What one name adds. *)
Definition compare_column (baseline candidate : ProfileHistoryEntry) (baseline_profile candidate_profile : ParsedProfile)
  (baseline_fields candidate_fields : gmap string LogicalField) (column : string) : Eng Compared :=
  let baseline_digest := digest_hex (ph_profile_digest baseline) in
  let candidate_digest := digest_hex (ph_profile_digest candidate) in
  let schema changed kind severity message := schema_change changed kind severity column message baseline_digest candidate_digest in
  match baseline_fields !! column, candidate_fields !! column with
  | None, Some _ => schema true SchemaColumnAdded SeverityWarning "candidate schema contains a new column"
  | Some _, None => schema true SchemaColumnRemoved SeverityWarning "candidate schema no longer contains a baseline column"
  | Some baseline_field, Some candidate_field =>
      let type_changed := negb (bool_decide (drift_type_name (data_type baseline_field) = drift_type_name (data_type candidate_field))) in
      types ← schema type_changed SchemaColumnTypeChanged SeverityError "candidate column type differs from baseline";
      nulls ← schema (negb (Bool.eqb (nullable baseline_field) (nullable candidate_field)))
                SchemaColumnNullabilityChanged SeverityWarning "candidate column nullability differs from baseline";
      metrics ← compare_metrics column type_changed (pp_columns baseline_profile !! column) (pp_columns candidate_profile !! column)
                  baseline_digest candidate_digest (pp_rows baseline_profile) (pp_rows candidate_profile)
                  (ph_truncated baseline) (ph_truncated candidate);
      Ok (both types (both nulls metrics))
  | None, None => Err (Internal "internal error: entered unreachable code")
  end.
Fixpoint compare_columns (f : string -> Eng Compared) (names : list string) : Eng Compared :=
  match names with
  | [] => nothing
  | name :: names => one ← f name; rest ← compare_columns f names; Ok (both one rest)
  end.

(** ** Reports *)

Definition opt_rational (r : option DriftRational) : Eng json := match r with Some r => rational_value r | None => Ok JNull end.
Definition finding_value (f : DriftFinding) : Eng json :=
  observed ← opt_rational (fi_observed f);
  threshold ← opt_rational (fi_threshold f);
  Ok (JObject [("baseline_profile_digest", JString (fi_baseline_profile_digest f));
               ("candidate_profile_digest", JString (fi_candidate_profile_digest f)); ("category", JString (fi_category f));
               ("column_name", JString (fi_column_name f)); ("detector_contract_version", json_u64 (fi_detector_contract_version f));
               ("detector_id", JString (fi_detector_id f)); ("evidence_refs", JArray (fi_evidence_refs f)); ("finding_id", JString (fi_finding_id f));
               ("kind", JString (kind_text (fi_kind f))); ("message", JString (fi_message f)); ("metric_path", JString (fi_metric_path f));
               ("observed", observed); ("origin", JString (fi_origin f)); ("severity", JString (severity_text (fi_severity f)));
               ("threshold", threshold)]).
Definition missing_value (m : DriftMissingMetric) : json :=
  JObject [("column_name", JString (mm_column_name m)); ("metric_path", JString (mm_metric_path m));
           ("reason", JString (missing_reason_text (mm_reason m)))].
Definition canonical_body (r : DriftReport) : Eng (list N) :=
  findings ← collect finding_value (re_findings r);
  l1 ← rational_value (re_numeric_histogram_l1_threshold r);
  delta ← rational_value (re_null_rate_delta_threshold r);
  Ok (drift_canonical (JObject
    [("artifact_body_version", json_u64 1); ("artifact_type", JString (re_artifact_type r));
     ("baseline_profile_digest", JString (re_baseline_profile_digest r)); ("candidate_profile_digest", JString (re_candidate_profile_digest r));
     ("canonical_input_digest", JString (re_canonical_input_digest r)); ("completeness", JBool (re_completeness r));
     ("findings", JArray findings); ("missing_metrics", JArray (missing_value <$> re_missing_metrics r));
     ("observation_window", window_value (re_observation_window r)); ("outcome", JString (drift_outcome_text (re_outcome r)));
     ("profile_history_drift_contract_version", json_u64 (re_contract_version r));
     ("threshold_policy_version", json_u64 (re_threshold_policy_version r));
     ("thresholds", JObject [("null_rate_delta", delta); ("numeric_histogram_l1", l1)])])).
Definition evidence_too_large (f : DriftFinding) : bool :=
  (DRIFT_MAX_EVIDENCE_REFS_PER_FINDING <? len (fi_evidence_refs f))%N
  || (DRIFT_MAX_RETAINED_EVIDENCE_BYTES_PER_FINDING <? len (drift_canonical (JArray (fi_evidence_refs f))))%N.
(** The checks that need no profile. *)
Definition outside_window (w : option DriftObservationWindow) (baseline candidate : ProfileHistoryEntry) : bool :=
  match w with
  | Some w =>
      negb (window_validate w) || (ph_profile_sequence baseline <? start_sequence w)%N || (end_sequence w <=? ph_profile_sequence baseline)%N
      || (ph_profile_sequence candidate <? start_sequence w)%N || (end_sequence w <=? ph_profile_sequence candidate)%N
  | None => false
  end.
Definition precheck (c : DriftComparisonRequest) (baseline : option ProfileHistoryEntry) (candidate : ProfileHistoryEntry) : option DriftOutcome :=
  if negb (comparison_validate c) then Some DriftInvalidComparison else
  if negb (ph_history_id candidate =? dc_candidate_history_id c)%N then Some DriftInvalidComparison else
  match baseline with
  | None => Some DriftNoBaseline
  | Some baseline =>
      if negb (bool_decide (ph_state baseline = HistoryActive)) || negb (bool_decide (ph_state candidate = HistoryActive))
      then Some DriftTombstonedInput else
      if negb (ph_workspace_id baseline =? ph_workspace_id candidate)%N || negb (ph_dataset_id baseline =? ph_dataset_id candidate)%N
         || negb (ph_workspace_id baseline =? dc_workspace_id c)%N || negb (ph_dataset_id baseline =? dc_dataset_id c)%N
         || (ph_history_id baseline =? ph_history_id candidate)%N || (ph_profile_sequence candidate <=? ph_profile_sequence baseline)%N
      then Some DriftInvalidComparison else
      if match dc_baseline c with BaselineExplicit id => negb (id =? ph_history_id baseline)%N | LatestEligible => false end
      then Some DriftInvalidComparison else
      if outside_window (dc_observation_window c) baseline candidate then Some DriftInvalidComparison else
      if negb (compatible baseline candidate) then Some DriftIncompatibleVersion else None
  end.
Definition report_of (c : DriftComparisonRequest) (baseline candidate : ProfileHistoryEntry) (input_digest : Digest)
  (findings : list DriftFinding) (missing : list DriftMissingMetric) : DriftReport :=
  let complete := bool_decide (missing = []) in
  mkReport "drift_report.v1" 1 PROFILE_HISTORY_DRIFT_CONTRACT_VERSION (digest_hex (ph_profile_digest baseline)) (digest_hex (ph_profile_digest candidate))
    DRIFT_THRESHOLD_POLICY_VERSION HISTOGRAM_THRESHOLD NULL_RATE_THRESHOLD (dc_observation_window c) (if complete then DriftComplete else DriftPartial)
    complete missing findings (digest_hex input_digest).
Definition publishable (c : DriftComparisonRequest) (baseline candidate : ProfileHistoryEntry) (input_digest : Digest) (found : Compared) : Eng DriftResult :=
  let missing := merge_sort missing_le found.2 in
  if (DRIFT_MAX_MISSING_METRICS <? len missing)%N then Ok (no_report DriftOutputLimitExceeded input_digest) else
  let findings := merge_sort finding_le found.1 in
  if (DRIFT_MAX_FINDINGS_PER_REPORT <? len findings)%N || existsb evidence_too_large findings
  then Ok (no_report DriftOutputLimitExceeded input_digest) else
  let report := report_of c baseline candidate input_digest findings missing in
  body ← canonical_body report;
  if (DRIFT_MAX_REPORT_BYTES <? len body)%N then Ok (no_report DriftOutputLimitExceeded input_digest) else
  Ok (mkDriftResult (re_outcome report) (Some (ph_history_id baseline)) (Some report) (Some body) (Some (digest_hex (sha256 body)))
        (digest_hex input_digest)).
Definition compare (request : DriftRequest) : Eng DriftResult :=
  let c := comparison_request request in
  let candidate := candidate_input request in
  match precheck c (pi_entry <$> baseline_input request) (pi_entry candidate), baseline_input request with
  | Some outcome, _ => Ok (no_report outcome zero_digest)
  | None, None => Ok (no_report DriftNoBaseline zero_digest)
  | None, Some baseline =>
      let input_digest := comparison_digest c (digest_hex (ph_profile_digest (pi_entry baseline))) (digest_hex (ph_profile_digest (pi_entry candidate))) in
      baseline_profile ← parse_profile baseline;
      candidate_profile ← parse_profile candidate;
      let baseline_fields := schema_fields (ph_schema (pi_entry baseline)) in
      let candidate_fields := schema_fields (ph_schema (pi_entry candidate)) in
      let names := (btree_iter (baseline_fields ∪ candidate_fields)).*1 in
      if (DRIFT_MAX_COMPARE_COLUMNS <? len names)%N then Ok (no_report DriftOutputLimitExceeded input_digest) else
      found ← compare_columns (compare_column (pi_entry baseline) (pi_entry candidate) baseline_profile candidate_profile baseline_fields candidate_fields) names;
      publishable c (pi_entry baseline) (pi_entry candidate) input_digest found
  end.
(** [ensure_active]: what the context of the request answers. *)
Definition drift_with_permit (ensure_active : Eng unit) (request : DriftRequest) : Eng DriftResult :=
  if negb (ph_workspace_id (pi_entry (candidate_input request)) =? dc_workspace_id (comparison_request request))%N
     || negb (ph_dataset_id (pi_entry (candidate_input request)) =? dc_dataset_id (comparison_request request))%N
  then Err (InvalidPlan "candidate is outside comparison scope") else
  try! ensure_active;
  compare request.

(** ** Recorded profiles *)

(** [EngineError::Storage] keeps the error of the store. *)
Inductive DriftRunError := OfEngine (e : EngineError) | OfStorage (e : StorageError).
(** What the context and the engine answer while a comparison runs. *)
Record DriftContext := mkDriftContext {
  dx_deadline : option DateTime;
  dx_active_first : Eng unit;
  dx_permit : Eng unit;
  dx_active_second : Eng unit;
}.
(** [request]'s own context is [x]. *)
Definition drift (x : DriftContext) (request : DriftRequest) : Eng DriftResult :=
  if bool_decide (dx_deadline x = None) then Err (InvalidPlan "drift run requires a request deadline") else
  if negb (ph_workspace_id (pi_entry (candidate_input request)) =? dc_workspace_id (comparison_request request))%N
  then Err (InvalidPlan "candidate is outside comparison scope") else
  try! dx_permit x;
  drift_with_permit (dx_active_second x) request.
(** The store as each of the reads finds it. *)
Record DriftReads := mkReads { rd_candidate : Histories; rd_baseline : Histories; rd_baseline_body : Histories; rd_candidate_body : Histories }.
Context `{StoreFiles} `{HistoryCodec}.
Definition input_of (s : Histories) (e : ProfileHistoryEntry) : Stored DriftProfileInput :=
  body ← get_artifact_body (hs_tables s) (ph_profile_artifact_id e);
  Ok (mkProfileInput e (ab_body body)).
Definition with_baseline (id : option Uuid) (r : DriftResult) : DriftResult :=
  mkDriftResult (do_outcome r) id (do_report r) (do_canonical_body r) (do_canonical_digest r) (do_canonical_input_digest r).
Definition resolve (reads : DriftReads) (c : DriftComparisonRequest) : Stored DriftRequest :=
  candidate ← get_profile_history (rd_candidate reads) (dc_workspace_id c) (dc_dataset_id c) (dc_candidate_history_id c);
  selected ← select_profile_history_baseline (rd_baseline reads) (dc_workspace_id c) (dc_dataset_id c) (dc_candidate_history_id c)
               (dc_baseline c) (dc_observation_window c);
  baseline ← transposed (input_of (rd_baseline_body reads)) selected;
  candidate ← input_of (rd_candidate_body reads) candidate;
  Ok (mkDriftRequest c baseline candidate).
Definition drift_history_inner (x : DriftContext) (reads : DriftReads) (c : DriftComparisonRequest) (permit_held : bool)
  : result DriftRunError DriftResult :=
  if bool_decide (dx_deadline x = None) then Err (OfEngine (InvalidPlan "drift run requires a request deadline")) else
  try! map_err OfEngine (dx_active_first x);
  request ← map_err OfStorage (resolve reads c);
  r ← map_err OfEngine (if permit_held then drift_with_permit (dx_active_second x) request else drift x request);
  Ok (with_baseline ((fun input => ph_history_id (pi_entry input)) <$> baseline_input request) r).
Definition drift_history (x : DriftContext) (reads : DriftReads) (c : DriftComparisonRequest) := drift_history_inner x reads c false.
Definition drift_history_with_permit (x : DriftContext) (reads : DriftReads) (c : DriftComparisonRequest) := drift_history_inner x reads c true.
End drift.
