(* ===== verification/Drifts.v ===== *)
(** * What a drift report says

    The comparison of two profiles is exact: no rational is rounded, none
    overflows, and the findings are those of the declarative definition of
    drift, each once and in order. *)

From S2P Require Import Prelude Text Secrets Logical Schema Expression Rule Plan Semantics Lookup Typing Nodes Registry Schedule Automation Keyset Hex Canonical Operations Jobs Submissions Outputs Lifecycle Reports Life Refines Reachable Sample ProfileHistory SampleProfiles Baselines Drift.

Import EngineError.

(** ** Rationals *)

Lemma gcd_loop_gcd k fuel x y : (y < 2 ^ N.of_nat k)%N -> 2 * k < fuel -> gcd_loop fuel x y = N.gcd x y.
Proof.
  revert fuel x y. induction k as [|k IH]; intros fuel x y Hy Hf.
  - destruct fuel as [|fuel]; [lia|]. assert (y = 0%N) as -> by (cbn in Hy; lia). cbn. by rewrite N.gcd_0_r.
  - destruct fuel as [|[|fuel]]; [lia|lia|]. cbn. destruct (y =? 0)%N eqn:Hy0; [apply N.eqb_eq in Hy0 as ->; by rewrite N.gcd_0_r|].
    apply N.eqb_neq in Hy0. assert (N.gcd x y = N.gcd y (x mod y)) as -> by (rewrite (N.gcd_comm y), N.Lcm0.gcd_mod; apply N.gcd_comm).
    pose proof (N.mod_lt x y Hy0) as Hr. set (r := (x mod y)%N) in *. destruct (r =? 0)%N eqn:Hr0; [apply N.eqb_eq in Hr0 as ->; by rewrite N.gcd_0_r|].
    apply N.eqb_neq in Hr0. assert (N.gcd y r = N.gcd r (y mod r)) as -> by (rewrite (N.gcd_comm r), N.Lcm0.gcd_mod; apply N.gcd_comm).
    apply IH; [|lia]. pose proof (N.mod_lt y r Hr0). pose proof (N.div_mod y r Hr0) as Hd.
    assert (1 <= y / r)%N by (apply N.div_le_lower_bound; lia). rewrite Nat2N.inj_succ, N.pow_succ_r' in Hy. nia.
Qed.
Lemma gcd_u128_gcd x y : (y <= u128_max)%N -> gcd_u128 x y = N.gcd x y.
Proof. intros Hy. apply (gcd_loop_gcd 128); [|lia]. unfold u128_max in Hy. change (N.of_nat 128) with 128%N. lia. Qed.
(** A new rational is the quotient, in lowest terms. *)
Lemma rational_new_exact n d :
  (0 < d)%N -> (Z.of_N d <= i128_max)%Z ->
  exists r, rational_new (Z.of_N n) d = Some r /\ (0 <= numerator r <= Z.of_N n)%Z /\ (0 < denominator r <= d)%N /\
    (numerator r * Z.of_N d = Z.of_N n * Z.of_N (denominator r))%Z.
Proof.
  intros Hd Hmax. unfold rational_new. destruct (d =? 0)%N eqn:Hz; [apply N.eqb_eq in Hz; lia|].
  rewrite Zabs2N.id, gcd_u128_gcd by (unfold u128_max; unfold i128_max in Hmax; lia). set (g := N.gcd n d).
  assert (0 < g)%N as Hg by (apply N.neq_0_lt_0; intros [_ ?]%N.gcd_eq_0; lia).
  destruct (N.gcd_divide_l n d) as [a Ha], (N.gcd_divide_r n d) as [b Hb]. fold g in Ha, Hb. cbv zeta.
  destruct (g =? 0)%N eqn:Hg0; [apply N.eqb_eq in Hg0; lia|]. unfold i128_of.
  assert (g <= d)%N by (apply N.divide_pos_le; [lia|by exists b]). assert (Z.of_N g <= i128_max)%Z as Hgi by lia.
  rewrite (proj2 (Z.leb_le _ _) Hgi). cbn. eexists. split; [done|]. cbn. rewrite Hb, N.div_mul by lia. rewrite Ha.
  replace (Z.of_N (a * g)) with (Z.of_N a * Z.of_N g)%Z by lia. rewrite Z.quot_mul by lia. nia.
Qed.
Lemma i128_mul_small x y : (0 <= x <= 2 ^ 62)%Z -> (0 <= y <= 2 ^ 62)%Z -> i128_mul x y = Some (x * y)%Z.
Proof.
  intros Hx Hy. unfold i128_mul, i128_max. assert (0 <= x * y <= 2 ^ 62 * 2 ^ 62)%Z as Hp by nia.
  rewrite (proj2 (Z.leb_le _ _)), (proj2 (Z.leb_le _ _)) by lia. done.
Qed.
Lemma i128_of_small n : (n <= 2 ^ 62)%N -> i128_of n = Some (Z.of_N n).
Proof. intros Hn. unfold i128_of, i128_max. by rewrite (proj2 (Z.leb_le _ _)) by lia. Qed.
Lemma i128_wrap_small z : (- 2 ^ 126 <= z <= 2 ^ 126)%Z -> i128_wrap z = z.
Proof. intros Hz. unfold i128_wrap. rewrite Z.mod_small; lia. Qed.
Lemma cmp_value_exact x y :
  (0 <= numerator x <= 2 ^ 62)%Z -> (0 <= numerator y <= 2 ^ 62)%Z -> (denominator x <= 2 ^ 62)%N -> (denominator y <= 2 ^ 62)%N ->
  cmp_value x y = Some (numerator x * Z.of_N (denominator y) ?= numerator y * Z.of_N (denominator x))%Z.
Proof. intros. unfold cmp_value. by rewrite !i128_of_small by done; cbn; rewrite !i128_mul_small by lia; cbn. Qed.
Lemma abs_delta_exact x y :
  (0 <= numerator x <= 2 ^ 20)%Z -> (0 <= numerator y <= 2 ^ 20)%Z -> (0 < denominator x <= 2 ^ 20)%N -> (0 < denominator y <= 2 ^ 20)%N ->
  exists r, abs_delta x y = Some r /\ (0 <= numerator r <= 2 ^ 41)%Z /\ (0 < denominator r <= 2 ^ 40)%N /\
    (numerator r * Z.of_N (denominator x * denominator y)
     = Z.abs (numerator x * Z.of_N (denominator y) - numerator y * Z.of_N (denominator x)) * Z.of_N (denominator r))%Z.
Proof.
  intros Hx Hy Hdx Hdy. unfold abs_delta. rewrite !i128_of_small by lia. cbn. rewrite i128_mul_small by lia. cbn. rewrite i128_mul_small by lia. cbn.
  unfold u128_mul. rewrite (proj2 (N.leb_le _ _)) by (unfold u128_max; nia). cbn.
  assert (0 <= numerator x * Z.of_N (denominator y) <= 2 ^ 40)%Z by nia. assert (0 <= numerator y * Z.of_N (denominator x) <= 2 ^ 40)%Z by nia.
  set (delta := (numerator x * Z.of_N (denominator y) - numerator y * Z.of_N (denominator x))%Z) in *.
  rewrite (i128_wrap_small delta), i128_wrap_small by lia. rewrite <- (Z2N.id (Z.abs delta)) by lia.
  destruct (rational_new_exact (Z.to_N (Z.abs delta)) (denominator x * denominator y)) as (r & Hr & Hn & Hd & Hv); [nia|unfold i128_max; nia|].
  exists r. split; [done|]. rewrite Z2N.id in * by lia. split; [lia|]. split; [nia|exact Hv].
Qed.

Definition above (threshold : DriftRational) (n d : Z) : Prop := (numerator threshold * d < n * Z.of_N (denominator threshold))%Z.
(** A rational is above a threshold when any fraction equal to it is. *)
Lemma cmp_above o threshold n d :
  (0 <= numerator o <= 2 ^ 62)%Z -> (0 <= numerator threshold <= 2 ^ 62)%Z -> (0 < denominator o <= 2 ^ 62)%N -> (denominator threshold <= 2 ^ 62)%N ->
  (0 < d)%Z -> (numerator o * d = n * Z.of_N (denominator o))%Z -> cmp_value o threshold = Some Gt <-> above threshold n d.
Proof.
  intros Ho Ht Hdo Hdt Hd Heq. rewrite cmp_value_exact by lia. unfold above.
  assert ((numerator o * Z.of_N (denominator threshold) ?= numerator threshold * Z.of_N (denominator o))%Z = Gt <->
          (numerator threshold * Z.of_N (denominator o) < numerator o * Z.of_N (denominator threshold))%Z) as Hgt by (rewrite Z.compare_gt_iff; lia).
  split; [intros [= Hc]; apply Hgt in Hc|intros Hc; f_equal; apply Hgt].
  - apply (Z.mul_lt_mono_pos_r (Z.of_N (denominator o))); [lia|]. nia.
  - apply (Z.mul_lt_mono_pos_r d); [lia|]. nia.
Qed.
Lemma rational_value_ok r : (0 <= numerator r < 2 ^ 64)%Z -> (denominator r < 2 ^ 64)%N -> exists v, rational_value r = Ok v.
Proof.
  intros Hn Hd. unfold rational_value, u64_of. rewrite (proj2 (Z.leb_le _ _)), (proj2 (Z.ltb_lt _ _)) by lia. cbn.
  rewrite (proj2 (Z.leb_le _ _)), (proj2 (Z.ltb_lt _ _)) by lia. cbn. by eexists.
Qed.
Lemma null_rate_exact n1 r1 n2 r2 :
  (n1 <= r1)%N -> (n2 <= r2)%N -> (0 < r1 <= PROFILE_MAX_ROWS)%N -> (0 < r2 <= PROFILE_MAX_ROWS)%N ->
  exists o, null_rate_delta n1 r1 n2 r2 = Some o /\ (exists v, rational_value o = Ok v) /\
    (cmp_value o NULL_RATE_THRESHOLD = Some Gt <->
     above NULL_RATE_THRESHOLD (Z.abs (Z.of_N n1 * Z.of_N r2 - Z.of_N n2 * Z.of_N r1)) (Z.of_N r1 * Z.of_N r2)).
Proof.
  unfold PROFILE_MAX_ROWS. intros H1 H2 Hr1 Hr2. unfold null_rate_delta.
  destruct (rational_new_exact n1 r1) as (x & -> & Hnx & Hdx & Hx); [lia|unfold i128_max; lia|]. cbn.
  destruct (rational_new_exact n2 r2) as (y & -> & Hny & Hdy & Hy); [lia|unfold i128_max; lia|]. cbn.
  destruct (abs_delta_exact x y) as (o & -> & Hno & Hdo & Ho); [lia|lia|lia|lia|]. exists o. split; [done|].
  split; [apply rational_value_ok; lia|]. apply cmp_above; cbn; try lia.
  set (a := numerator x) in *. set (b := Z.of_N (denominator x)) in *. set (c := numerator y) in *. set (d := Z.of_N (denominator y)) in *.
  set (p := numerator o) in *. set (q := Z.of_N (denominator o)) in *. set (m1 := Z.of_N n1) in *. set (m2 := Z.of_N n2) in *.
  set (s1 := Z.of_N r1) in *. set (s2 := Z.of_N r2) in *. assert (0 < b)%Z by lia. assert (0 < d)%Z by lia. assert (0 < s1)%Z by lia. assert (0 < s2)%Z by lia.
  assert (p * (b * d) = Z.abs (a * d - c * b) * q)%Z as Ho' by (rewrite <- Ho; f_equal; lia).
  assert (Z.abs (a * d - c * b) * (s1 * s2) = Z.abs (m1 * s2 - m2 * s1) * (b * d))%Z as Hab.
  { rewrite <- (Z.abs_eq (s1 * s2)) at 1 by nia. rewrite <- (Z.abs_eq (b * d)) by nia. rewrite <- !Z.abs_mul. f_equal.
    transitivity ((a * s1) * (d * s2) - (c * s2) * (b * s1))%Z; [ring|rewrite Hx, Hy; ring]. }
  apply (Z.mul_reg_r _ _ (b * d)); [nia|].
  transitivity (Z.abs (a * d - c * b) * (s1 * s2) * q)%Z; [|rewrite Hab; ring]. transitivity (p * (b * d) * (s1 * s2))%Z; [ring|rewrite Ho'; ring].
Qed.

(** ** Histograms *)

(** The sum over the buckets of |l R - r L|. *)
Fixpoint l1_sum (left_total right_total : N) (ls rs : list N) : N :=
  match ls, rs with
  | l :: ls, r :: rs => abs_diff (l * right_total) (r * left_total) + l1_sum left_total right_total ls rs
  | _, _ => 0
  end%N.
Lemma abs_diff_le x y : (abs_diff x y <= x + y)%N.
Proof. unfold abs_diff. destruct (x <? y)%N; lia. Qed.
Lemma l1_sum_le L R ls rs : (l1_sum L R ls rs <= R * total_of ls + L * total_of rs)%N.
Proof.
  revert rs. induction ls as [|l ls IH]; intros [|r rs]; cbn; try lia. specialize (IH rs). pose proof (abs_diff_le (l * R) (r * L)).
  fold (total_of ls) (total_of rs). nia.
Qed.
Lemma l1_numerator_exact L R ls rs acc :
  (acc + R * total_of ls + L * total_of rs <= 2 ^ 64)%N -> l1_numerator L R ls rs acc = Some (acc + l1_sum L R ls rs)%N.
Proof.
  revert rs acc. induction ls as [|l ls IH]; intros [|r rs] acc Hb; cbn; try (f_equal; lia). cbn in Hb. fold (total_of ls) (total_of rs) in Hb.
  pose proof (abs_diff_le (l * R) (r * L)) as Ha. unfold u128_mul, u128_add, u128_max. rewrite (proj2 (N.leb_le (l * R) _)) by nia. cbn.
  rewrite (proj2 (N.leb_le (r * L) _)) by nia. cbn. rewrite (proj2 (N.leb_le (acc + _) _)) by nia. cbn. rewrite IH by nia. f_equal. lia.
Qed.
Lemma checked_total_Some counts t : checked_total counts = Some t -> total_of counts = t.
Proof.
  unfold checked_total. assert (forall o, foldl (fun total count => total ← total; checked_add total count) o counts = Some t ->
    exists a, o = Some a /\ (a + total_of counts)%N = t) as Hgen.
  { induction counts as [|c counts IH]; intros o Hf; cbn in *; [exists t; split; [done|lia]|]. apply IH in Hf as (b & Hb & Ht).
    destruct o as [a|]; [|done]. exists a. split; [done|]. cbn in Hb. unfold checked_add in Hb. case_match; [|done]. injection Hb as <-.
    fold (total_of counts). lia. }
  intros (a & [= <-] & Ht)%Hgen. lia.
Qed.
Lemma histogram_exact ls rs :
  length ls = length rs -> (0 < total_of ls <= PROFILE_MAX_ROWS)%N -> (0 < total_of rs <= PROFILE_MAX_ROWS)%N ->
  exists o, histogram_l1 ls rs = Some o /\ (exists v, rational_value o = Ok v) /\
    (cmp_value o HISTOGRAM_THRESHOLD = Some Gt <->
     above HISTOGRAM_THRESHOLD (Z.of_N (l1_sum (total_of ls) (total_of rs) ls rs)) (2 * Z.of_N (total_of ls) * Z.of_N (total_of rs))).
Proof.
  unfold PROFILE_MAX_ROWS. intros Hlen Hl Hr. unfold histogram_l1. rewrite Hlen, Nat.eqb_refl. cbn. set (L := total_of ls) in *. set (R := total_of rs) in *.
  replace (L =? 0)%N with false by (symmetry; apply N.eqb_neq; lia). replace (R =? 0)%N with false by (symmetry; apply N.eqb_neq; lia). cbn.
  pose proof (l1_sum_le L R ls rs) as Hsum. fold L R in Hsum. rewrite l1_numerator_exact by (fold L R; nia). cbn.
  rewrite N.add_0_l, i128_of_small by nia. cbn. unfold u128_mul, u128_max. rewrite (proj2 (N.leb_le (L * R) _)) by nia. cbn.
  rewrite (proj2 (N.leb_le (L * R * 2) _)) by nia. cbn.
  destruct (rational_new_exact (l1_sum L R ls rs) (L * R * 2)) as (o & -> & Hno & Hdo & Ho); [nia|unfold i128_max; nia|].
  exists o. split; [done|]. assert (Z.of_N (l1_sum L R ls rs) <= 2 ^ 42)%Z by nia. assert (L * R * 2 <= 2 ^ 42)%N by nia.
  split; [apply rational_value_ok; lia|]. apply cmp_above; cbn; lia.
Qed.

(** ** Parsed profiles *)

Record ColumnOk (rows : N) (c : ParsedColumn) : Prop := {
  nulls_bounded n : pc_null_count c = Some n -> (n <= rows)%N;
  values_bounded n : pc_non_null_count c = Some n -> (n <= rows)%N;
  histogram_bounded h : pc_histogram c = Some h -> (total_of h <= rows)%N /\ checked_total h = Some (total_of h);
}.
Record ProfileOk (p : ParsedProfile) : Prop := {
  rows_bounded : (pp_rows p <= PROFILE_MAX_ROWS)%N;
  columns_ok name c : pp_columns p !! name = Some c -> ColumnOk (pp_rows p) c;
}.

(** ** Orders *)

Definition lawful {A} (cmp : A -> A -> comparison) : Prop :=
  (forall x y, cmp y x = CompOpp (cmp x y)) /\ (forall x y z, cmp x y <> Gt -> cmp y z <> Gt -> cmp x z <> Gt).
Lemma lawful_then {A} (f g : A -> A -> comparison) : lawful f -> lawful g -> lawful (fun x y => and_then (f x y) (g x y)).
Proof.
  intros [Hfa Hft] [Hga Hgt]. split; [intros x y; rewrite Hfa, Hga; by destruct (f x y)|]. intros x y z Hxy Hyz.
  assert (f x z <> Gt) as Hxz by (apply (Hft _ y); intros Hf; [by rewrite Hf in Hxy|by rewrite Hf in Hyz]).
  destruct (f x z) eqn:Hf; cbn; [|done|done].
  assert (f z x <> Gt) as Hzx by (by rewrite Hfa, Hf). assert (f x y <> Gt) as H1 by (intros Hg; by rewrite Hg in Hxy).
  assert (f y z <> Gt) as H2 by (intros Hg; by rewrite Hg in Hyz). pose proof (Hft _ _ _ H2 Hzx) as H3. pose proof (Hft _ _ _ Hzx H1) as H4.
  rewrite Hfa in H3, H4. destruct (f x y); [|done..]. destruct (f y z); [|done..]. by apply (Hgt _ y).
Qed.
Lemma lawful_by {A B} (h : A -> B) (cmp : B -> B -> comparison) : lawful cmp -> lawful (fun x y => cmp (h x) (h y)).
Proof. intros [Ha Ht]. split; [intros; apply Ha|intros x y z; apply Ht]. Qed.
Lemma lawful_string : lawful String.compare.
Proof. split; [intros; apply String.compare_antisym|exact str_le_trans]. Qed.
Lemma lawful_N : lawful N.compare.
Proof. split; [intros; apply N.compare_antisym|]. intros x y z. change ((x <= y)%N -> (y <= z)%N -> (x <= z)%N). lia. Qed.
Lemma finding_order_lawful : lawful finding_order.
Proof.
  apply lawful_then; [exact (lawful_by _ _ lawful_N)|]. apply lawful_then; [exact (lawful_by _ _ lawful_string)|].
  apply lawful_then; exact (lawful_by _ _ lawful_string).
Qed.
#[export] Instance finding_le_trans : Transitive finding_le.
Proof. exact (proj2 finding_order_lawful). Qed.
#[export] Instance finding_le_total : Total finding_le.
Proof. intros x y. unfold finding_le. rewrite (proj1 finding_order_lawful x y). destruct (finding_order x y); cbn; [left|left|right]; done. Qed.

Section drift.
Context `{JobCodec} (float_text : N -> list N).

Lemma validated_column c rows : validate_profile_column_metrics c rows = Ok tt -> ColumnOk rows c.
Proof.
  unfold validate_profile_column_metrics. intros Hv. destruct (_ || _) eqn:Hb in Hv; [done|]. apply orb_false_iff in Hb as [Hn Hm].
  assert (forall n, pc_non_null_count c = Some n -> (n <= rows)%N) as Hval by (intros n Hn'; rewrite Hn' in Hm; by apply N.ltb_ge in Hm).
  constructor; [intros n Hn'; rewrite Hn' in Hn; by apply N.ltb_ge in Hn|done|]. intros h Hh. rewrite Hh in Hv.
  destruct (checked_total h) as [t|] eqn:Ht; [|done]. pose proof (checked_total_Some _ _ Ht) as <-. split; [|done].
  destruct (_ <? _)%N eqn:Hlt in Hv; [done|]. apply N.ltb_ge in Hlt. destruct (pc_non_null_count c) as [n|]; cbn in Hlt; [|done]. specialize (Hval _ eq_refl). lia.
Qed.
Lemma parsed_columns_ok rows columns parsed parsed' :
  parse_columns rows columns parsed = Ok parsed' -> (forall name c, parsed !! name = Some c -> ColumnOk rows c) ->
  forall name c, parsed' !! name = Some c -> ColumnOk rows c.
Proof.
  revert parsed. induction columns as [|column columns IH]; intros parsed Hp Hok; cbn in Hp; [by injection Hp as <-|].
  apply bind_Ok in Hp as ([name c] & Hc & Hp). cbn in Hp. case_bool_decide; [done|]. apply (IH _ Hp). intros name' c' Hl.
  apply lookup_insert_Some in Hl as [[<- <-]|[_ Hl]]; [|by eapply Hok]. unfold parse_column in Hc. inv_ok Hc. injection Hc as _ <-.
  apply validated_column. match goal with Hx : validate_profile_column_metrics _ _ = Ok ?u |- _ => by destruct u end.
Qed.
Lemma parsed_profile_ok input p : parse_profile input = Ok p -> ProfileOk p.
Proof.
  unfold parse_profile. intros Hp. inv_ok Hp. injection Hp as <-. constructor; cbn; [by apply N.ltb_ge|].
  eapply parsed_columns_ok; [eassumption|]. intros name c Hl. by rewrite lookup_empty in Hl.
Qed.

(** ** Drift, declaratively *)

Definition counted (c : ParsedColumn) (rows : N) (truncated : bool) : Prop :=
  truncated = false /\ (0 < rows)%N /\ pc_status c <> "skipped_unsupported_type" /\ is_Some (pc_null_count c) /\ is_Some (pc_non_null_count c).
(** The null rates differ by more than a tenth. *)
Definition null_rate_drift (x y : ParsedColumn) (rx ry : N) (tx ty : bool) : Prop :=
  counted x rx tx /\ counted y ry ty /\
  exists m n, pc_null_count x = Some m /\ pc_null_count y = Some n /\
    above NULL_RATE_THRESHOLD (Z.abs (Z.of_N m * Z.of_N ry - Z.of_N n * Z.of_N rx)) (Z.of_N rx * Z.of_N ry).
(** Half the distance of the normalised histograms is more than a fifth. *)
Definition histogram_drift (x y : ParsedColumn) : Prop :=
  is_numeric_type (pc_logical_type x) = true /\ is_numeric_type (pc_logical_type y) = true /\
  exists h k, pc_histogram x = Some h /\ pc_histogram y = Some k /\ length h = length k /\ (0 < total_of h)%N /\ (0 < total_of k)%N /\
    (DRIFT_MINIMUM_METRIC_ROWS <= default 0%N (pc_non_null_count x))%N /\ (DRIFT_MINIMUM_METRIC_ROWS <= default 0%N (pc_non_null_count y))%N /\
    above HISTOGRAM_THRESHOLD (Z.of_N (l1_sum (total_of h) (total_of k) h k)) (2 * Z.of_N (total_of h) * Z.of_N (total_of k)).

(** One finding of a kind where the condition holds, and none elsewhere. *)
Definition reports (P : Prop) (k : DriftFindingKind) (column : string) (fs : list DriftFinding) : Prop :=
  (P /\ exists f, fs = [f] /\ fi_kind f = k /\ fi_column_name f = column) \/ (~ P /\ fs = []).
Lemma reports_iff P Q k column fs : (P <-> Q) -> reports P k column fs -> reports Q k column fs.
Proof. unfold reports. tauto. Qed.
Definition printable (f : DriftFinding) : Prop :=
  (exists v, opt_rational (fi_observed f) = Ok v) /\ (exists v, opt_rational (fi_threshold f) = Ok v).
Lemma metric_finding_ok kind column path o threshold bd cd hs :
  (exists v, rational_value o = Ok v) -> (exists v, rational_value threshold = Ok v) ->
  exists f, metric_finding kind column path o threshold bd cd hs = Ok f /\ fi_kind f = kind /\ fi_column_name f = column /\ printable f.
Proof. intros [v Hv] Ht. unfold metric_finding, metric_evidence. rewrite Hv. cbn. eexists. split_and!; [done|done|done|]. split; [by exists v|done]. Qed.
Lemma unavailable_counted c rows truncated : unavailable_reason c rows truncated = None <-> counted c rows truncated.
Proof.
  unfold unavailable_reason, counted. destruct truncated; [split; [done|by intros [? _]]|]. destruct (rows =? 0)%N eqn:Hz.
  { apply N.eqb_eq in Hz. split; [done|lia]. }
  apply N.eqb_neq in Hz. rewrite !is_Some_alt. case_bool_decide; [split; [done|tauto]|].
  destruct (pc_null_count c); cbn; [|split; [done|tauto]]. destruct (pc_non_null_count c); cbn; [|split; [done|tauto]].
  split; [intros _|done]. split_and!; [done|lia|done|done|done].
Qed.
Lemma compare_null_rates_exact column x y bd cd rx ry tx ty :
  ColumnOk rx x -> ColumnOk ry y -> (rx <= PROFILE_MAX_ROWS)%N -> (ry <= PROFILE_MAX_ROWS)%N ->
  exists r, compare_null_rates column x y bd cd rx ry tx ty = Ok r /\
    reports (null_rate_drift x y rx ry tx ty) DistributionNullRateDeltaExceeded column r.1 /\
    Forall printable r.1.
Proof.
  intros Hx Hy Hrx Hry. unfold compare_null_rates, null_rate_drift.
  destruct (unavailable_reason x rx tx) as [reason|] eqn:Hux.
  { eexists. split; [done|]. split; [|constructor]. right. split; [|done]. intros [Hc _]. apply unavailable_counted in Hc. congruence. }
  destruct (unavailable_reason y ry ty) as [reason|] eqn:Huy.
  { eexists. split; [done|]. split; [|constructor]. right. split; [|done]. intros (_ & Hc & _). apply unavailable_counted in Hc. congruence. }
  apply unavailable_counted in Hux as Hcx, Huy as Hcy. pose proof Hcx as (_ & Hpx & _ & [m Hm] & _). pose proof Hcy as (_ & Hpy & _ & [n Hn] & _).
  rewrite Hm, Hn. destruct (null_rate_exact m rx n ry) as (o & -> & Hv & Hcmp); [by eapply nulls_bounded|by eapply nulls_bounded|lia|lia|].
  case_bool_decide as Hgt.
  - destruct (metric_finding_ok DistributionNullRateDeltaExceeded column "columns.null_rate_delta" o NULL_RATE_THRESHOLD bd cd None Hv) as (f & -> & Hk & Hc & Hp);
      [by eexists|].
    cbn. eexists. split; [done|]. cbn. split; [|by apply Forall_singleton]. left. split; [|by exists f].
    split; [done|]. split; [done|]. exists m, n. split; [done|]. split; [done|]. by apply Hcmp.
  - eexists. split; [done|]. split; [|constructor]. right. split; [|done]. intros (_ & _ & m' & n' & [= <-] & [= <-] & Ha). by apply Hgt, Hcmp.
Qed.
Lemma compare_histograms_exact column x y bd cd rx ry :
  ColumnOk rx x -> ColumnOk ry y -> (rx <= PROFILE_MAX_ROWS)%N -> (ry <= PROFILE_MAX_ROWS)%N ->
  exists r, compare_histograms column x y bd cd = Ok r /\ reports (histogram_drift x y) DistributionNumericHistogramL1Exceeded column r.1 /\
    Forall printable r.1.
Proof.
  intros Hx Hy Hrx Hry. unfold compare_histograms.
  assert (forall r : Compared, r.1 = [] -> ~ histogram_drift x y -> exists r', Ok (E := EngineError) r = Ok r' /\
    reports (histogram_drift x y) DistributionNumericHistogramL1Exceeded column r'.1 /\
    Forall printable r'.1) as Hno.
  { intros r Hr Hd. exists r. split; [done|]. rewrite Hr. split; [by right|constructor]. }
  destruct (is_numeric_type (pc_logical_type x) && is_numeric_type (pc_logical_type y)) eqn:Hnum; cbn [negb orb].
  2:{ apply Hno; [done|]. intros (H1 & H2 & _). by rewrite H1, H2 in Hnum. }
  apply andb_true_iff in Hnum as [Hnx Hny].
  destruct (pc_histogram x) as [h|] eqn:Hh; [|apply Hno; [done|intros (_ & _ & h & k & Hh' & _); congruence]].
  destruct (pc_histogram y) as [k|] eqn:Hk; [|apply Hno; [done|intros (_ & _ & h' & k' & _ & Hk' & _); congruence]].
  destruct (histogram_bounded _ _ Hx _ Hh) as [Hbh Hch], (histogram_bounded _ _ Hy _ Hk) as [Hbk Hck].
  destruct (length h =? length k)%nat eqn:Hlen; cbn [negb]; [apply Nat.eqb_eq in Hlen|apply Nat.eqb_neq in Hlen; apply Hno; [done|]].
  2:{ intros (_ & _ & h' & k' & Hh' & Hk' & ? & _). by simplify_eq. }
  rewrite Hch, Hck. destruct (total_of h =? 0)%N eqn:Hzh; cbn [negb orb].
  { apply N.eqb_eq in Hzh. apply Hno; [done|]. intros (_ & _ & h' & k' & Hh' & Hk' & _ & ? & _). simplify_eq. lia. }
  destruct (total_of k =? 0)%N eqn:Hzk; cbn [negb orb].
  { apply N.eqb_eq in Hzk. apply Hno; [done|]. intros (_ & _ & h' & k' & Hh' & Hk' & _ & _ & ? & _). simplify_eq. lia. }
  apply N.eqb_neq in Hzh, Hzk. destruct (_ || _) eqn:Hfew.
  { apply Hno; [done|]. intros (_ & _ & h' & k' & _ & _ & _ & _ & _ & H1 & H2 & _). apply orb_true_iff in Hfew as [Hf|Hf]; apply N.ltb_lt in Hf; lia. }
  apply orb_false_iff in Hfew as [Hf1 Hf2]. apply N.ltb_ge in Hf1, Hf2.
  destruct (histogram_exact h k Hlen) as (o & -> & Hv & Hcmp); [lia|lia|]. case_bool_decide as Hgt.
  - destruct (metric_finding_ok DistributionNumericHistogramL1Exceeded column "columns.histogram_l1" o HISTOGRAM_THRESHOLD bd cd (Some (h, k)) Hv)
      as (f & -> & Hkf & Hcf & Hp); [by eexists|]. cbn. eexists. split; [done|]. cbn. split; [|by apply Forall_singleton].
    left. split; [|by exists f]. split; [done|]. split; [done|]. exists h, k. split_and!; try done; [lia|lia|by apply Hcmp].
  - apply Hno; [done|]. intros (_ & _ & h' & k' & Hh' & Hk' & _ & _ & _ & _ & _ & Ha). simplify_eq. by apply Hgt, Hcmp.
Qed.

Section columns.
Context (b c : ProfileHistoryEntry) (bp cp : ParsedProfile) (bf cf : gmap string LogicalField).
Definition comparable (column : string) (P : ParsedColumn -> ParsedColumn -> Prop) : Prop :=
  exists f g x y, bf !! column = Some f /\ cf !! column = Some g /\ drift_type_name (data_type f) = drift_type_name (data_type g) /\
    pp_columns bp !! column = Some x /\ pp_columns cp !! column = Some y /\ P x y.
(** What drift of each kind means. *)
Definition drifts (k : DriftFindingKind) (column : string) : Prop :=
  match k with
  | SchemaColumnAdded => bf !! column = None /\ is_Some (cf !! column)
  | SchemaColumnRemoved => is_Some (bf !! column) /\ cf !! column = None
  | SchemaColumnTypeChanged =>
      exists f g, bf !! column = Some f /\ cf !! column = Some g /\ drift_type_name (data_type f) <> drift_type_name (data_type g)
  | SchemaColumnNullabilityChanged => exists f g, bf !! column = Some f /\ cf !! column = Some g /\ nullable f <> nullable g
  | DistributionNumericHistogramL1Exceeded => comparable column histogram_drift
  | DistributionNullRateDeltaExceeded =>
      comparable column (fun x y => null_rate_drift x y (pp_rows bp) (pp_rows cp) (ph_truncated b) (ph_truncated c))
  end.
(** The findings of a column, kind by kind. *)
Definition exact_findings (column : string) (fs : list DriftFinding) : Prop :=
  exists added removed types nulls rates histograms, fs = added ++ removed ++ types ++ nulls ++ rates ++ histograms /\
    reports (drifts SchemaColumnAdded column) SchemaColumnAdded column added /\
    reports (drifts SchemaColumnRemoved column) SchemaColumnRemoved column removed /\
    reports (drifts SchemaColumnTypeChanged column) SchemaColumnTypeChanged column types /\
    reports (drifts SchemaColumnNullabilityChanged column) SchemaColumnNullabilityChanged column nulls /\
    reports (drifts DistributionNullRateDeltaExceeded column) DistributionNullRateDeltaExceeded column rates /\
    reports (drifts DistributionNumericHistogramL1Exceeded column) DistributionNumericHistogramL1Exceeded column histograms.
Lemma reports_none P k column : ~ P -> reports P k column [].
Proof. by right. Qed.
Lemma reports_some (P : Prop) k column f : P -> fi_kind f = k -> fi_column_name f = column -> reports P k column [f].
Proof. left. eauto. Qed.

Lemma compare_metrics_exact column (tc : bool) bd cd :
  ProfileOk bp -> ProfileOk cp ->
  let shared P := tc = false /\ exists x y, pp_columns bp !! column = Some x /\ pp_columns cp !! column = Some y /\ P x y in
  exists r rates histograms,
    compare_metrics column tc (pp_columns bp !! column) (pp_columns cp !! column) bd cd (pp_rows bp) (pp_rows cp) (ph_truncated b) (ph_truncated c) = Ok r /\
    r.1 = rates ++ histograms /\ Forall printable r.1 /\
    reports (shared (fun x y => null_rate_drift x y (pp_rows bp) (pp_rows cp) (ph_truncated b) (ph_truncated c))) DistributionNullRateDeltaExceeded column rates /\
    reports (shared histogram_drift) DistributionNumericHistogramL1Exceeded column histograms.
Proof.
  intros Hbp Hcp shared. unfold compare_metrics.
  assert (forall r : Compared, r.1 = [] -> (forall P, ~ shared P) -> exists r' rates histograms, Ok (E := EngineError) r = Ok r' /\
    r'.1 = rates ++ histograms /\ Forall printable r'.1 /\
    reports (shared (fun x y => null_rate_drift x y (pp_rows bp) (pp_rows cp) (ph_truncated b) (ph_truncated c))) DistributionNullRateDeltaExceeded column rates /\
    reports (shared histogram_drift) DistributionNumericHistogramL1Exceeded column histograms) as Hno.
  { intros r Hr Hs. exists r, [], []. rewrite Hr. split_and!; [done|done|constructor|by apply reports_none|by apply reports_none]. }
  destruct (pp_columns bp !! column) as [x|] eqn:Hx; [|apply Hno; [done|by intros P (_ & ? & ? & ? & _)]].
  destruct (pp_columns cp !! column) as [y|] eqn:Hy; [|apply Hno; [done|by intros P (_ & ? & ? & _ & ? & _)]].
  destruct tc; [apply Hno; [done|by intros P [? _]]|].
  destruct (compare_null_rates_exact column x y bd cd (pp_rows bp) (pp_rows cp) (ph_truncated b) (ph_truncated c)) as (r1 & -> & Hr1 & Hv1);
    [by eapply columns_ok|by eapply columns_ok|apply Hbp|apply Hcp|].
  destruct (compare_histograms_exact column x y bd cd (pp_rows bp) (pp_rows cp)) as (r2 & -> & Hr2 & Hv2);
    [by eapply columns_ok|by eapply columns_ok|apply Hbp|apply Hcp|].
  eexists _, r1.1, r2.1. split; [done|]. split; [done|]. split; [by apply Forall_app|].
  assert (forall P : ParsedColumn -> ParsedColumn -> Prop, P x y <-> shared P) as Hsh
    by (intros P; split; [intros HP; split; [done|by exists x, y]|intros (_ & ? & ? & [= <-] & [= <-] & HP); done]).
  split; [eapply reports_iff; [|exact Hr1]|eapply reports_iff; [|exact Hr2]];
    [exact (Hsh (fun x y => null_rate_drift x y (pp_rows bp) (pp_rows cp) (ph_truncated b) (ph_truncated c)))|exact (Hsh histogram_drift)].
Qed.
(** A finding about the schema, when there is one. *)
Lemma schema_part (changed : bool) (P : Prop) kind severity column message bd cd :
  (P <-> changed = true) ->
  exists fs, schema_change changed kind severity column message bd cd = Ok (fs, []) /\
    reports P kind column fs /\ Forall printable fs.
Proof.
  intros HP. destruct changed; cbn; eexists; (split; [reflexivity|]); (split; [|]).
  - apply reports_some; [by apply HP|done|done].
  - apply Forall_singleton. split; by eexists.
  - apply reports_none. intros Hp. by apply HP in Hp.
  - constructor.
Qed.
Lemma compare_column_exact column :
  ProfileOk bp -> ProfileOk cp -> is_Some (bf !! column) \/ is_Some (cf !! column) ->
  exists r, compare_column b c bp cp bf cf column = Ok r /\ exact_findings column r.1 /\ Forall printable r.1.
Proof.
  intros Hbp Hcp Hsome. unfold compare_column, exact_findings. cbv zeta.
  destruct (bf !! column) as [f|] eqn:Hf, (cf !! column) as [g|] eqn:Hg; [| | |by destruct Hsome as [[]|[]]].
  - set (tc := negb (bool_decide (drift_type_name (data_type f) = drift_type_name (data_type g)))).
    destruct (compare_metrics_exact column tc (digest_hex (ph_profile_digest b)) (digest_hex (ph_profile_digest c)) Hbp Hcp)
      as (r & rates & histograms & -> & Hr & Hp & Hrates & Hhist).
    assert (forall P, comparable column P <-> tc = false /\ exists x y, pp_columns bp !! column = Some x /\ pp_columns cp !! column = Some y /\ P x y) as Hcomp.
    { intros P. unfold comparable, tc. rewrite Hf, Hg. split.
      - intros (f' & g' & x & y & [= <-] & [= <-] & Ht & Hx & Hy & HP). rewrite bool_decide_eq_true_2 by done. split; [done|]. by exists x, y.
      - intros [Ht (x & y & Hx & Hy & HP)]. apply negb_false_iff, bool_decide_eq_true in Ht. exists f, g, x, y. done. }
    destruct (schema_part tc (drifts SchemaColumnTypeChanged column) SchemaColumnTypeChanged SeverityError column
      "candidate column type differs from baseline" (digest_hex (ph_profile_digest b)) (digest_hex (ph_profile_digest c))) as (ts & -> & Hts & Hpt).
    { unfold drifts, tc. rewrite Hf, Hg, negb_true_iff, bool_decide_eq_false. split; [by intros (? & ? & [= <-] & [= <-] & ?)|by exists f, g]. }
    destruct (schema_part (negb (Bool.eqb (nullable f) (nullable g))) (drifts SchemaColumnNullabilityChanged column) SchemaColumnNullabilityChanged
      SeverityWarning column "candidate column nullability differs from baseline" (digest_hex (ph_profile_digest b)) (digest_hex (ph_profile_digest c)))
      as (ns & -> & Hns & Hpn).
    { unfold drifts. rewrite Hf, Hg, negb_true_iff, eqb_false_iff. split; [by intros (? & ? & [= <-] & [= <-] & ?)|by exists f, g]. }
    eexists. split; [reflexivity|]. cbn. rewrite Hr. split.
    + exists [], [], ts, ns, rates, histograms. split; [done|]. split_and!; [apply reports_none|apply reports_none|done|done|eapply reports_iff; [|exact Hrates]|eapply reports_iff; [|exact Hhist]].
      * cbn. rewrite Hf. by intros [? _].
      * cbn. rewrite Hg. by intros [_ ?].
      * symmetry. exact (Hcomp _).
      * symmetry. exact (Hcomp _).
    + rewrite Hr in Hp. apply Forall_app. split; [done|]. by apply Forall_app.
  - destruct (schema_part true (drifts SchemaColumnRemoved column) SchemaColumnRemoved SeverityWarning column
      "candidate schema no longer contains a baseline column" (digest_hex (ph_profile_digest b)) (digest_hex (ph_profile_digest c))) as (ts & -> & Hts & Hpt);
      [unfold drifts; rewrite Hf, Hg; split; [done|by split; [eexists|]]|].
    eexists. split; [reflexivity|]. split; [|done]. exists [], ts, [], [], [], []. cbn. rewrite app_nil_r. split; [done|].
    split_and!; try done; apply reports_none; cbn; unfold comparable; rewrite ?Hf, ?Hg; naive_solver.
  - destruct (schema_part true (drifts SchemaColumnAdded column) SchemaColumnAdded SeverityWarning column
      "candidate schema contains a new column" (digest_hex (ph_profile_digest b)) (digest_hex (ph_profile_digest c))) as (ts & -> & Hts & Hpt);
      [unfold drifts; rewrite Hf, Hg; split; [done|by split; [|eexists]]|].
    eexists. split; [reflexivity|]. split; [|done]. exists ts, [], [], [], [], []. cbn. rewrite app_nil_r. split; [done|].
    split_and!; try done; apply reports_none; cbn; unfold comparable; rewrite ?Hf, ?Hg; naive_solver.
Qed.
Definition finding_key (f : DriftFinding) : DriftFindingKind * string := (fi_kind f, fi_column_name f).
Lemma reports_keys column ks parts :
  NoDup ks -> Forall2 (fun k fs => reports (drifts k column) k column fs) ks parts ->
  NoDup (finding_key <$> concat parts) /\ forall k name, (k, name) ∈ finding_key <$> concat parts <-> name = column /\ k ∈ ks /\ drifts k column.
Proof.
  intros Hnd Hparts. induction Hparts as [|k fs ks parts Hr Hparts IH]; cbn; [split; [constructor|set_solver]|].
  apply NoDup_cons in Hnd as [Hk Hnd]. destruct (IH Hnd) as [IHnd IHin]. rewrite fmap_app.
  destruct Hr as [[HP (f & -> & Hf & Hc)]|[HP ->]]; cbn.
  - assert (finding_key f = (k, column)) as -> by (unfold finding_key; by rewrite Hf, Hc). split.
    + constructor; [|done]. rewrite IHin. by intros (_ & Hin & _).
    + intros k' name. rewrite !elem_of_cons, IHin. split; [by intros [[= -> ->]|(-> & ? & ?)]; auto|]. intros (-> & [->|Hin] & Hd); auto.
  - split; [done|]. intros k' name. rewrite IHin, elem_of_cons. split; [by intros (-> & ? & ?); auto|]. intros (-> & [->|Hin] & Hd); [done|auto].
Qed.
Definition all_kinds : list DriftFindingKind :=
  [SchemaColumnAdded; SchemaColumnRemoved; SchemaColumnTypeChanged; SchemaColumnNullabilityChanged;
   DistributionNullRateDeltaExceeded; DistributionNumericHistogramL1Exceeded].
Lemma exact_keys column fs :
  exact_findings column fs ->
  NoDup (finding_key <$> fs) /\ forall k name, (k, name) ∈ finding_key <$> fs <-> name = column /\ drifts k column.
Proof.
  intros (added & removed & types & nulls & rates & histograms & -> & H1 & H2 & H3 & H4 & H5 & H6).
  destruct (reports_keys column all_kinds [added; removed; types; nulls; rates; histograms]) as [Hnd Hin].
  - apply (bool_decide_unpack (NoDup all_kinds)). vm_compute. exact I.
  - repeat (constructor; [eassumption|]). constructor.
  - cbn in Hnd, Hin. rewrite app_nil_r in Hnd, Hin. split; [exact Hnd|]. intros k name. rewrite Hin.
    split; [by intros (? & _ & ?)|]. intros [-> Hd]. split_and!; [done|destruct k; unfold all_kinds; set_solver|done].
Qed.
Lemma compare_columns_exact names :
  ProfileOk bp -> ProfileOk cp -> NoDup names -> (forall name, name ∈ names -> is_Some (bf !! name) \/ is_Some (cf !! name)) ->
  exists r, compare_columns (compare_column b c bp cp bf cf) names = Ok r /\ Forall printable r.1 /\ NoDup (finding_key <$> r.1) /\
    forall k name, (k, name) ∈ finding_key <$> r.1 <-> name ∈ names /\ drifts k name.
Proof.
  intros Hbp Hcp Hnd Hsome. induction Hnd as [|name names Hname Hnd IH]; cbn.
  { eexists. split; [reflexivity|]. cbn. split_and!; [constructor|constructor|set_solver]. }
  destruct (compare_column_exact name Hbp Hcp) as (r1 & -> & He & Hp1); [apply Hsome; set_solver|].
  destruct IH as (r2 & -> & Hp2 & Hnd2 & Hin2); [intros; apply Hsome; set_solver|]. cbn.
  apply exact_keys in He as [Hnd1 Hin1]. eexists. split; [reflexivity|]. cbn. rewrite fmap_app. split_and!; [by apply Forall_app| |].
  - apply NoDup_app. split_and!; [done| |done]. intros [k n] Hx Hy. apply Hin1 in Hx as [-> _]. by apply Hin2 in Hy as [? _].
  - intros k n. rewrite elem_of_app, Hin1, Hin2, elem_of_cons. split; [intros [[-> ?]|[? ?]]; auto|]. intros [[->|?] ?]; auto.
Qed.
End columns.

Lemma drifts_field b c bp cp bf cf k name : drifts b c bp cp bf cf k name -> is_Some (bf !! name) \/ is_Some (cf !! name).
Proof. destruct k; cbn; unfold comparable; naive_solver. Qed.
Lemma field_names (bf cf : gmap string LogicalField) name :
  name ∈ (btree_iter (bf ∪ cf)).*1 <-> is_Some (bf !! name) \/ is_Some (cf !! name).
Proof.
  rewrite list_elem_of_fmap. split.
  - intros ([? f] & -> & Hf%elem_of_btree_iter). cbn. apply lookup_union_Some_raw in Hf as [?|[_ ?]]; [left|right]; by eexists.
  - intros Hs. assert (is_Some ((bf ∪ cf) !! name)) as [f Hf] by (by apply lookup_union_is_Some). exists (name, f). split; [done|]. by apply elem_of_btree_iter.
Qed.
Lemma names_nodup (m : gmap string LogicalField) : NoDup (btree_iter m).*1.
Proof. rewrite btree_iter_Permutation. apply NoDup_fst_map_to_list. Qed.
Lemma printable_body r : Forall printable (re_findings r) ->
  re_numeric_histogram_l1_threshold r = HISTOGRAM_THRESHOLD -> re_null_rate_delta_threshold r = NULL_RATE_THRESHOLD ->
  exists body, canonical_body float_text r = Ok body.
Proof.
  intros Hp Hl Hn. unfold canonical_body. destruct (collect_all finding_value (re_findings r)) as [vs ->].
  { eapply Forall_impl; [exact Hp|]. intros f [[v1 H1] [v2 H2]]. unfold finding_value. rewrite H1, H2. cbn. by eexists. }
  rewrite Hl, Hn. cbn. by eexists.
Qed.
Lemma publishable_total c b x digest found : Forall printable found.1 -> exists r, publishable float_text c b x digest found = Ok r.
Proof.
  intros Hp. unfold publishable. case_match; [by eexists|]. case_match; [by eexists|].
  destruct (printable_body (report_of c b x digest (merge_sort finding_le found.1) (merge_sort missing_le found.2))) as [body ->]; [|done|done|].
  - cbn. by rewrite merge_sort_Permutation.
  - cbn. case_match; by eexists.
Qed.
Lemma publishable_report c b x digest found r :
  publishable float_text c b x digest found = Ok r ->
  do_outcome r = DriftOutputLimitExceeded /\ do_report r = None \/
  exists report, do_report r = Some report /\ do_outcome r = re_outcome report /\
    report = report_of c b x digest (merge_sort finding_le found.1) (merge_sort missing_le found.2).
Proof.
  unfold publishable. intros Hr. case_match; [injection Hr as <-; by left|]. case_match; [injection Hr as <-; by left|].
  apply bind_Ok in Hr as (body & _ & Hr). case_match; [injection Hr as <-; by left|]. injection Hr as <-. right. by eexists.
Qed.
Lemma validate_no_panic c rows m : validate_profile_column_metrics c rows <> Err (Internal m).
Proof. unfold validate_profile_column_metrics. repeat case_match; done. Qed.
Lemma parse_column_no_panic rows v m : parse_column rows v <> Err (Internal m).
Proof.
  unfold parse_column. intros He. repeat (apply bind_Err in He as [He|(? & _ & He)]; [try (by apply ok_or_Err in He)|]); [|done].
  by apply validate_no_panic in He.
Qed.
Lemma parse_columns_no_panic rows vs parsed m : parse_columns rows vs parsed <> Err (Internal m).
Proof.
  revert parsed. induction vs as [|v vs IH]; intros parsed He; cbn in He; [done|]. apply bind_Err in He as [He|([n col] & _ & He)]; [by apply parse_column_no_panic in He|].
  case_match; [done|]. by apply IH in He.
Qed.
Lemma parse_profile_no_panic input m : parse_profile input <> Err (Internal m).
Proof.
  unfold parse_profile. intros He. case_match; [done|]. apply bind_Err in He as [He|(v & _ & He)]; [by apply ok_or_Err in He|].
  case_match; [done|]. apply bind_Err in He as [He|(? & _ & He)]; [by apply ok_or_Err in He|].
  apply bind_Err in He as [He|(rows & _ & He)]; [by apply ok_or_Err in He|]. case_match; [done|].
  apply bind_Err in He as [He|(cols & _ & He)]; [by apply ok_or_Err in He|]. case_match; [done|].
  apply bind_Err in He as [He|(parsed & _ & He)]; [by apply parse_columns_no_panic in He|done].
Qed.

(** ** The report *)

Lemma compared b x bp cp (bf := schema_fields (ph_schema b)) (cf := schema_fields (ph_schema x)) :
  ProfileOk bp -> ProfileOk cp ->
  exists found, compare_columns (compare_column b x bp cp bf cf) (btree_iter (bf ∪ cf)).*1 = Ok found /\ Forall printable found.1 /\
    NoDup (finding_key <$> found.1) /\ forall k name, (k, name) ∈ finding_key <$> found.1 <-> drifts b x bp cp bf cf k name.
Proof.
  intros Hbp Hcp. destruct (compare_columns_exact b x bp cp bf cf (btree_iter (bf ∪ cf)).*1 Hbp Hcp) as (found & Hf & Hp & Hnd & Hin).
  - apply names_nodup.
  - intros name. by rewrite field_names.
  - exists found. split_and!; [done..|]. intros k name. rewrite Hin, field_names. split; [by intros [_ ?]|]. intros Hd. split; [|done]. by eapply drifts_field.
Qed.
(** What a report says of two profiles: the findings are ordered, there is at most one of a kind for a column, and exactly the drifts are found. *)
Definition exact_report (baseline candidate : DriftProfileInput) (report : DriftReport) : Prop :=
  exists bp cp (b := pi_entry baseline) (x := pi_entry candidate), parse_profile baseline = Ok bp /\ parse_profile candidate = Ok cp /\
    StronglySorted finding_le (re_findings report) /\ NoDup (finding_key <$> re_findings report) /\
    forall k name, (k, name) ∈ finding_key <$> re_findings report <->
      drifts b x bp cp (schema_fields (ph_schema b)) (schema_fields (ph_schema x)) k name.
(** *** Drift as the contract has it

    A changed type is a changed logical type, whatever its name; the scans
    are complete; and the distributions of a column are compared when its
    type is the same. *)
Definition contract_drift (bp cp : ParsedProfile) (bf cf : gmap string LogicalField) (k : DriftFindingKind) (column : string) : Prop :=
  let shared P := exists f g x y, bf !! column = Some f /\ cf !! column = Some g /\
                    pp_columns bp !! column = Some x /\ pp_columns cp !! column = Some y /\ P x y in
  match k with
  | SchemaColumnAdded => bf !! column = None /\ is_Some (cf !! column)
  | SchemaColumnRemoved => is_Some (bf !! column) /\ cf !! column = None
  | SchemaColumnTypeChanged => exists f g, bf !! column = Some f /\ cf !! column = Some g /\ data_type f <> data_type g
  | SchemaColumnNullabilityChanged => exists f g, bf !! column = Some f /\ cf !! column = Some g /\ nullable f <> nullable g
  | DistributionNumericHistogramL1Exceeded => shared histogram_drift
  | DistributionNullRateDeltaExceeded => shared (fun x y => null_rate_drift x y (pp_rows bp) (pp_rows cp) false false)
  end.
Definition is_distribution (k : DriftFindingKind) : bool :=
  match k with DistributionNumericHistogramL1Exceeded | DistributionNullRateDeltaExceeded => true | _ => false end.
Definition type_kept (bf cf : gmap string LogicalField) (column : string) : Prop :=
  forall f g, bf !! column = Some f -> cf !! column = Some g -> data_type f = data_type g.
(** The types of the columns that both schemas have differ in their names if
    they differ at all: not only in a zone, an item or the fields. *)
Definition types_told_apart (bf cf : gmap string LogicalField) : Prop :=
  forall column f g, bf !! column = Some f -> cf !! column = Some g ->
    drift_type_name (data_type f) = drift_type_name (data_type g) -> data_type f = data_type g.
Definition contract_report (baseline candidate : DriftProfileInput) (report : DriftReport) : Prop :=
  exists bp cp (bf := schema_fields (ph_schema (pi_entry baseline))) (cf := schema_fields (ph_schema (pi_entry candidate))),
    parse_profile baseline = Ok bp /\ parse_profile candidate = Ok cp /\
    forall k name, (is_distribution k = true -> type_kept bf cf name) ->
      (k, name) ∈ finding_key <$> re_findings report <-> contract_drift bp cp bf cf k name.
Lemma exact_contract baseline candidate report :
  ph_truncated (pi_entry baseline) = false -> ph_truncated (pi_entry candidate) = false ->
  types_told_apart (schema_fields (ph_schema (pi_entry baseline))) (schema_fields (ph_schema (pi_entry candidate))) ->
  exact_report baseline candidate report -> contract_report baseline candidate report.
Proof.
  intros Htb Htc Happ (bp & cp & Hbp & Hcp & _ & _ & Hin). exists bp, cp. split_and!; [done|done|]. intros k name Hkept. rewrite Hin.
  assert (forall P, is_distribution k = true -> comparable bp cp (schema_fields (ph_schema (pi_entry baseline))) (schema_fields (ph_schema (pi_entry candidate))) name P <->
    exists f g x y, schema_fields (ph_schema (pi_entry baseline)) !! name = Some f /\ schema_fields (ph_schema (pi_entry candidate)) !! name = Some g /\
      pp_columns bp !! name = Some x /\ pp_columns cp !! name = Some y /\ P x y) as Hcomp.
  { intros P Hk. unfold comparable. split; [naive_solver|]. intros (f & g & x & y & Hf & Hg & Hx & Hy & HP). exists f, g, x, y.
    split_and!; try done. by rewrite (Hkept Hk f g Hf Hg). }
  destruct k; cbn; try done.
  - split; intros (f & g & Hf & Hg & Hne); exists f, g; split_and!; try done; [by intros Heq; rewrite Heq in Hne|].
    intros Heq. by apply Hne, (Happ name).
  - by apply Hcomp.
  - rewrite Htb, Htc. by apply Hcomp.
Qed.
(** A comparison that is let through ends in an exact report, if it is not too large. *)
Lemma compare_exact request baseline r :
  baseline_input request = Some baseline -> precheck (comparison_request request) (Some (pi_entry baseline)) (pi_entry (candidate_input request)) = None ->
  compare float_text request = Ok r ->
  do_outcome r = DriftOutputLimitExceeded /\ do_report r = None \/
  exists report, do_report r = Some report /\ do_outcome r = re_outcome report /\ exact_report baseline (candidate_input request) report.
Proof.
  unfold compare. intros Hb Hpre Hr. rewrite Hb in Hr. cbn [fmap option_fmap option_map] in Hr. rewrite Hpre in Hr.
  apply bind_Ok in Hr as (bp & Hbp & Hr). apply bind_Ok in Hr as (cp & Hcp & Hr). case_match; [injection Hr as <-; by left|].
  destruct (compared (pi_entry baseline) (pi_entry (candidate_input request)) bp cp) as (found & Hf & _ & Hnd & Hin); [by eapply parsed_profile_ok..|].
  rewrite Hf in Hr. cbn in Hr. apply publishable_report in Hr as [?|(report & Hrep & Hout & ->)]; [by left|right]. eexists. split; [done|]. split; [done|].
  exists bp, cp. cbn. split_and!; [done..|apply (StronglySorted_merge_sort finding_le)| |]; try apply _.
  - by rewrite merge_sort_Permutation.
  - intros k name. by rewrite merge_sort_Permutation, Hin.
Qed.
(** C22: the comparison never panics: no conversion, checked sum or rational of it fails, whatever the profiles say. *)
Theorem drift_never_panics request message : compare float_text request <> Err (Internal message).
Proof.
  unfold compare. case_match; [done|]. destruct (baseline_input request) as [baseline|]; [|done]. intros He.
  apply bind_Err in He as [He|(bp & Hbp & He)]; [by apply parse_profile_no_panic in He|].
  apply bind_Err in He as [He|(cp & Hcp & He)]; [by apply parse_profile_no_panic in He|]. case_match; [done|].
  destruct (compared (pi_entry baseline) (pi_entry (candidate_input request)) bp cp) as (found & Hf & Hp & _); [by eapply parsed_profile_ok..|].
  rewrite Hf in He. cbn in He. edestruct publishable_total as [r Hr]; [exact Hp|]. rewrite Hr in He. done.
Qed.

(** ** Comparisons with the latest baseline *)

Context `{StoreFiles} `{HistoryCodec}.
Lemma untouched_versions b e e' : untouched e' = untouched e -> profile_history_versions_match b e' = profile_history_versions_match b e.
Proof. intros [=]. unfold profile_history_versions_match. congruence. Qed.
(** The checks before a comparison all hold of a candidate and its latest baseline, but for a tombstone of the candidate. *)
Lemma latest_precheck s s' c candidate now b :
  histories_le s s' -> comparison_validate c = true -> dc_baseline c = LatestEligible ->
  get_profile_history s (dc_workspace_id c) (dc_dataset_id c) (dc_candidate_history_id c) = Ok candidate ->
  get_profile_history s' (dc_workspace_id c) (dc_dataset_id c) (dc_candidate_history_id c) = Ok now ->
  (forall w, dc_observation_window c = Some w -> window_validate w = true /\ outside_range w (ph_profile_sequence now) = false) ->
  eligible s' now (dc_observation_window c) b ->
  precheck c (Some b) candidate = match ph_state candidate with HistoryActive => None | HistoryTombstoned => Some DriftTombstonedInput end.
Proof.
  intros Hle Hc Hmode Hcand Hnow Hw He. pose proof (read_later _ _ _ _ _ _ _ Hle Hcand Hnow) as Hsame. apply scoped_entry in Hcand as (_ & Hcw & Hcd & Hci).
  apply scoped_entry in Hnow as (Hn & Hnw & Hnd & Hni). destruct He as [Hb Hbw Hbd Hba Hbr Hbt Hbo Hbwin Hbv Hbb]. assert (ph_profile_sequence now = ph_profile_sequence candidate) as Hseq by (by injection Hsame).
  rewrite (untouched_versions _ _ _ Hsame) in Hbv. unfold precheck. rewrite Hc, Hci, N.eqb_refl, Hba, (bool_decide_eq_true_2 (HistoryActive = _)) by done. cbn [negb orb].
  destruct (ph_state candidate); cbn [negb orb]; [|by rewrite bool_decide_eq_false_2]. rewrite bool_decide_eq_true_2 by done. cbn [negb].
  rewrite Hbw, Hbd, Hnw, Hnd, Hcw, Hcd, !N.eqb_refl. cbn [negb orb].
  replace (ph_history_id b =? dc_candidate_history_id c)%N with false.
  2:{ symmetry. apply N.eqb_neq. intros Heq. rewrite Heq, Hn in Hb. injection Hb as ->. lia. }
  replace (ph_profile_sequence candidate <=? ph_profile_sequence b)%N with false by (symmetry; apply N.leb_gt; lia). cbn [negb orb]. rewrite Hmode.
  change (compatible b candidate) with (profile_history_versions_match b candidate). rewrite Hbv. cbn [negb].
  assert (outside_window (dc_observation_window c) b candidate = false) as ->; [|done].
  unfold outside_window. destruct (dc_observation_window c) as [w|]; [|done]. destruct (Hw _ eq_refl) as [-> Hout]. destruct (Hbwin _ eq_refl) as [Hlo Hhi].
  unfold outside_range in Hout. rewrite Hseq in Hout. apply orb_false_iff in Hout as [-> ->]. rewrite (proj2 (N.ltb_ge _ _) Hlo), (proj2 (N.leb_gt _ _) Hhi). done.
Qed.
Lemma selected_window s w d id mode window r now :
  select_profile_history_baseline s w d id mode window = Ok r -> get_profile_history s w d id = Ok now ->
  forall v, window = Some v -> window_validate v = true /\ outside_range v (ph_profile_sequence now) = false.
Proof.
  unfold select_profile_history_baseline. intros Hr Hn v ->. destruct (validate_history_scope w d id); [cbn in Hr|done].
  destruct (window_validate v); cbn in Hr; [|done]. rewrite Hn in Hr. cbn in Hr. split; [done|]. by destruct (outside_range v _).
Qed.
Lemma selected_candidate s w d id mode window r :
  select_profile_history_baseline s w d id mode window = Ok r -> exists now, get_profile_history s w d id = Ok now.
Proof. unfold select_profile_history_baseline. intros Hr. inv_ok Hr. eauto. Qed.
Lemma run_is_compare x request (permit_held : bool) r :
  (if permit_held then drift_with_permit float_text (dx_active_second x) request else drift float_text x request) = Ok r -> compare float_text request = Ok r.
Proof.
  assert (forall a, drift_with_permit float_text a request = Ok r -> compare float_text request = Ok r) as Hp by (unfold drift_with_permit; intros a Hr; by inv_ok Hr).
  destruct permit_held; [apply Hp|]. unfold drift. intros Hr. inv_ok Hr. by eapply Hp.
Qed.
Lemma input_of_entry s e i : input_of s e = Ok i -> pi_entry i = e.
Proof. unfold input_of. intros Hi. inv_ok Hi. by injection Hi as <-. Qed.
(** C21: a comparison with the latest baseline, of entries read one after
    another while other requests go on, is made with the newest eligible
    entry, and has no baseline exactly when there is none.  With a
    baseline, a tombstoned candidate is refused without a report.  Otherwise
    there is no report because it would exceed the output limits, or there is
    one, whose findings are ordered and name no column twice under one kind;
    and when the candidate's scan is complete (the baseline's always is) and
    no column that both schemas have changes its type only in a time zone, an
    item or fields, the findings are exactly the drift of the contract:
    columns added, removed, of another type or nullability, and, for columns
    that keep their type, exact null rates and histograms that differ by more
    than their threshold. *)
Theorem latest_drift_exact x reads c permit_held r :
  rtc HistoryStep no_histories (rd_candidate reads) -> rtc HistoryStep (rd_candidate reads) (rd_baseline reads) ->
  comparison_validate c = true -> dc_baseline c = LatestEligible -> drift_history_inner float_text x reads c permit_held = Ok r ->
  exists candidate now,
    get_profile_history (rd_candidate reads) (dc_workspace_id c) (dc_dataset_id c) (dc_candidate_history_id c) = Ok candidate /\
    get_profile_history (rd_baseline reads) (dc_workspace_id c) (dc_dataset_id c) (dc_candidate_history_id c) = Ok now /\
    untouched now = untouched candidate /\
    match do_baseline_history_id r with
    | None => latest (rd_baseline reads) now (dc_observation_window c) None /\ do_outcome r = DriftNoBaseline /\ do_report r = None
    | Some id => exists baseline left right, ph_history_id baseline = id /\ latest (rd_baseline reads) now (dc_observation_window c) (Some baseline) /\
        input_of (rd_baseline_body reads) baseline = Ok left /\ input_of (rd_candidate_body reads) candidate = Ok right /\
        (ph_state candidate = HistoryTombstoned /\ do_outcome r = DriftTombstonedInput /\ do_report r = None \/
         ph_state candidate = HistoryActive /\
           (do_outcome r = DriftOutputLimitExceeded /\ do_report r = None \/
            exists report, do_report r = Some report /\ do_outcome r = re_outcome report /\
              StronglySorted finding_le (re_findings report) /\ NoDup (finding_key <$> re_findings report) /\
              (ph_truncated candidate = false ->
               types_told_apart (schema_fields (ph_schema baseline)) (schema_fields (ph_schema candidate)) ->
               contract_report left right report)))
    end.
Proof.
  intros Hs Hsteps Hc Hmode Hr. unfold drift_history_inner in Hr. inv_ok Hr. injection Hr as <-. apply map_err_Ok in Hx0, Hx1. apply run_is_compare in Hx1.
  unfold resolve in Hx0. inv_ok Hx0. injection Hx0 as <-. rename Hx2 into Hcand, Hx3 into Hsel, Hx4 into Hbase, Hx5 into Hin.
  destruct (selected_candidate _ _ _ _ _ _ _ Hsel) as [now Hnow]. pose proof (selected_window _ _ _ _ _ _ _ _ Hsel Hnow) as Hwin. rewrite Hmode in Hsel.
  pose proof (latest_baseline_exact _ _ _ _ _ _ _ Hnow Hsel) as Hlatest. pose proof (steps_le _ _ Hsteps) as Hle. exists x3, now.
  split; [done|]. split; [done|]. split; [by eapply read_later|]. pose proof (input_of_entry _ _ _ Hin) as Hentry.
  pose proof (scoped_entry _ _ _ _ _ Hcand) as (_ & _ & _ & Hid). destruct x4 as [b|]; cbn in Hbase.
  - apply fmap_Ok in Hbase as (left & Hleft & <-). pose proof (input_of_entry _ _ _ Hleft) as Hle'. cbn. rewrite Hle'. exists b, left, x6. do 4 (split; [done|]).
    pose proof (latest_precheck _ _ _ _ _ _ Hle Hc Hmode Hcand Hnow Hwin (proj1 Hlatest)) as Hpre. destruct (ph_state x3) eqn:Hst.
    + right. split; [done|]. apply (compare_exact _ left) in Hx1; [|done|cbn; by rewrite Hle', Hentry].
      destruct Hx1 as [?|(report & Hrep & Hout & Hexact)]; [by left|right]. exists report. cbn in Hexact. split; [done|]. split; [done|].
      pose proof Hexact as (_ & _ & _ & _ & Hsort & Hnd & _). split; [done|]. split; [done|]. intros Htc Happ.
      apply exact_contract; rewrite ?Hle', ?Hentry; try done. exact (el_whole _ _ _ _ (proj1 Hlatest)).
    + left. split; [done|]. unfold compare in Hx1. cbn in Hx1. rewrite Hle', Hentry, Hpre in Hx1. by injection Hx1 as <-.
  - injection Hbase as <-. cbn. split; [done|]. unfold compare, precheck in Hx1. cbn in Hx1. rewrite Hc, Hentry, Hid, N.eqb_refl in Hx1. by injection Hx1 as <-.
Qed.
End drift.

(** ** Two profiles *)

#[local] Open Scope N_scope.
Definition sample_drift (after : LogicalSchema) (truncated : bool) : DriftRequest :=
  mkDriftRequest (mkComparison 1 2 12 (BaselineExplicit 11) 1 None 1)
    (Some (mkProfileInput (sample_entry 11 sample_before false) [11]%N)) (mkProfileInput (sample_entry 12 after truncated) [12]%N).
Definition zone_dropped : LogicalSchema :=
  mkSchema LOGICAL_SCHEMA_VERSION [mkField 1 "at" (TTimestamp Second None) false ∅; mkField 3 "extra" TUtf8 false ∅; mkField 2 "value" TInt64 false ∅] ∅.
Definition reported (request : DriftRequest) : option (DriftOutcome * list (DriftFindingKind * string) * list DriftMissingMetric) :=
  match compare (fun _ => []) request with
  | Ok r => (fun report => (re_outcome report, finding_key <$> re_findings report, re_missing_metrics report)) <$> do_report r
  | Err _ => None
  end.
(** The zone of a timestamp column is dropped between the two profiles, and nothing is said of it. *)
Example zone_change_unreported :
  reported (sample_drift zone_dropped false) = Some (DriftComplete, [(SchemaColumnAdded, "extra"); (DistributionNumericHistogramL1Exceeded, "value")], []).
Proof. vm_compute. reflexivity. Qed.
(** A truncated scan has no null rates, but its histograms are still compared. *)
Example truncated_scan_compared :
  reported (sample_drift sample_after true) =
    Some (DriftPartial, [(SchemaColumnAdded, "extra"); (DistributionNumericHistogramL1Exceeded, "value")],
          [mkMissing "at" "columns.null_rate" MissingTruncatedScan; mkMissing "value" "columns.null_rate" MissingTruncatedScan]).
Proof. vm_compute. reflexivity. Qed.
(** The candidate is tombstoned after it was read. *)
Definition sample_reads : DriftReads := mkReads histories_2 histories_3 histories_3 histories_3.
Definition sample_context : DriftContext := mkDriftContext (Some 100%Z) (Ok tt) (Ok tt) (Ok tt).
Definition sample_comparison : DriftComparisonRequest := mkComparison 1 2 12 LatestEligible 1 None 1.
Definition sample_result : DriftResult :=
  match drift_history (fun _ => []) sample_context sample_reads sample_comparison with Ok r => r | Err _ => no_report DriftNoBaseline [] end.
Lemma sample_told_apart : types_told_apart (schema_fields sample_before) (schema_fields sample_after).
Proof.
  intros column f g Hf Hg _.
  assert (map_Forall (fun n f => forall g, schema_fields sample_after !! n = Some g -> data_type f = data_type g) (schema_fields sample_before)) as Hall;
    [|exact (Hall _ _ Hf _ Hg)].
  clear. apply map_Forall_to_list. vm_compute map_to_list.
  repeat (apply Forall_cons; split; [intros g Hg; vm_compute in Hg; injection Hg as <-; reflexivity|]). constructor.
Qed.
Lemma latest_drift_exact_witness :
  do_baseline_history_id sample_result = Some 11%N /\
  exists report baseline candidate, do_report sample_result = Some report /\ contract_report baseline candidate report /\
    finding_key <$> re_findings report = [(SchemaColumnAdded, "extra"); (DistributionNumericHistogramL1Exceeded, "value")].
Proof.
  assert (drift_history (fun _ => []) sample_context sample_reads sample_comparison = Ok sample_result) as Hr by (vm_compute; reflexivity).
  assert (rtc HistoryStep no_histories histories_2) as H2 by (etrans; [exact first_step|exact second_step]).
  destruct (latest_drift_exact (fun _ => []) sample_context sample_reads sample_comparison false sample_result H2 third_step eq_refl eq_refl Hr)
    as (candidate & now & Hcand & _ & _ & Hcase).
  assert (do_baseline_history_id sample_result = Some 11%N) as Hb by (vm_compute; reflexivity). split; [exact Hb|]. rewrite Hb in Hcase.
  assert (get_profile_history histories_2 1 2 12 = Ok (sample_entry 12 sample_after false)) as Hc by (vm_compute; reflexivity).
  pose proof (eq_trans (eq_sym Hc) Hcand) as Heq. injection Heq as <-.
  destruct Hcase as (baseline & left & right & Hid & Hlatest & Hl & Hrt & [(_ & _ & Hno)|(_ & [[_ Hno]|(report & Hrep & _ & _ & _ & Hexact)])]);
    [vm_compute in Hno; discriminate Hno|vm_compute in Hno; discriminate Hno|].
  assert (baseline = sample_entry 11 sample_before false) as ->.
  { pose proof (el_entry _ _ _ _ (proj1 Hlatest)) as He. rewrite Hid in He.
    assert (profile_history_from_connection histories_3 11 = Ok (sample_entry 11 sample_before false)) as Hb11 by (vm_compute; reflexivity).
    pose proof (eq_trans (eq_sym Hb11) He) as Heq. by injection Heq as <-. }
  exists report, left, right. split; [exact Hrep|]. split; [exact (Hexact eq_refl sample_told_apart)|].
  vm_compute in Hrep. injection Hrep as <-. vm_compute. reflexivity.
Defined.
