(* ===== verification/Autocommit.v ===== *)
(** * Programs of single statements, and their interleavings

    The catalog's operations do not run in transactions: each statement
    commits by itself, and between two statements of one request the requests
    of others may commit theirs.  A request is a finite program of atomic
    statements; a pool runs the statements of any number of requests in any
    order.  [safe] is a rely-guarantee triple for one program, and
    [pool_safe] puts safe programs together. *)

From S2P Require Import Prelude.

Section programs.
Context {DB : Type}.

(** A statement changes the database and goes on with what it has seen. *)
Inductive Prog (A : Type) : Type :=
| Done (a : A)
| Statement (update : DB -> DB) (next : DB -> Prog A).
#[global] Arguments Done {A} a.
#[global] Arguments Statement {A} update next.

Fixpoint prog_bind {A B} (k : A -> Prog B) (p : Prog A) : Prog B :=
  match p with
  | Done a => k a
  | Statement update next => Statement update (fun d => prog_bind k (next d))
  end.
(** The program run with nothing in between. *)
Fixpoint exec {A} (p : Prog A) (d : DB) : DB * A :=
  match p with
  | Done a => (d, a)
  | Statement update next => exec (next d) (update d)
  end.

Lemma exec_bind {A B} (k : A -> Prog B) (p : Prog A) d : exec (prog_bind k p) d = let '(d', a) := exec p d in exec (k a) d'.
Proof. revert d. induction p as [a|update next IH]; intros d; [done|apply IH]. Qed.

(** ** Pools *)

Definition Pool : Type := DB * list (Prog unit).
Inductive pool_step (request : Prog unit -> Prop) : Pool -> Pool -> Prop :=
| pool_arrive d ps p : request p -> pool_step request (d, ps) (d, ps ++ [p])
| pool_run d ps i update next :
    ps !! i = Some (Statement update next) -> pool_step request (d, ps) (update d, <[i := next d]> ps).

(** ** One program among others

    [I] holds of the database between statements, and every statement, of
    this program or another, is a step of the preorder [G]. *)
Context (I : DB -> Prop) (G : DB -> DB -> Prop) `{!PreOrder G}.

Inductive safe {A} (Q : DB -> A -> Prop) (d : DB) : Prog A -> Prop :=
| safe_done a : (forall d', G d d' -> I d' -> Q d' a) -> safe Q d (Done a)
| safe_statement update next :
    (forall d', G d d' -> I d' -> G d' (update d') /\ I (update d') /\ safe Q (update d') (next d')) ->
    safe Q d (Statement update next).

Lemma safe_later {A} (Q : DB -> A -> Prop) d d' p : G d d' -> safe Q d p -> safe Q d' p.
Proof.
  intros Hg Hs. destruct Hs as [a Ha|update next Hn]; constructor; intros d2 Hg2 Hi; [apply Ha|apply Hn]; try done; by etrans.
Qed.
Lemma safe_bind {A B} (Q : DB -> A -> Prop) (R : DB -> B -> Prop) (k : A -> Prog B) d p :
  safe Q d p -> (forall d' a, G d d' -> I d' -> Q d' a -> safe R d' (k a)) -> I d -> safe R d (prog_bind k p).
Proof.
  revert d. induction p as [a|update next IH]; intros d Hs Hk Hi; inversion Hs as [? Ha|? ? Hn]; subst; cbn.
  - apply Hk; [done|done|by apply Ha].
  - constructor. intros d' Hg Hi'. destruct (Hn d' Hg Hi') as (Hg2 & Hi2 & Hs2). split_and!; [done|done|].
    apply IH; [done| |done]. intros d2 a Hg3. apply Hk. etrans; [exact Hg|]. by etrans.
Qed.
Lemma safe_mono {A} (Q R : DB -> A -> Prop) d p : (forall d' a, I d' -> Q d' a -> R d' a) -> safe Q d p -> safe R d p.
Proof.
  intros Hqr. revert d. induction p as [a|update next IH]; intros d Hs; inversion Hs as [? Ha|? ? Hn]; subst; constructor; intros d' Hg Hi.
  - by apply Hqr, Ha.
  - destruct (Hn d' Hg Hi) as (? & ? & ?). split_and!; [done|done|by apply IH].
Qed.
Lemma safe_exec {A} (Q : DB -> A -> Prop) d (p : Prog A) :
  safe Q d p -> I d -> G d (exec p d).1 /\ I (exec p d).1 /\ Q (exec p d).1 (exec p d).2.
Proof.
  revert d. induction p as [a|update next IH]; intros d Hs Hi; inversion Hs as [? Ha|? ? Hn]; subst; cbn.
  - split_and!; [done|done|by apply Ha].
  - destruct (Hn d) as (Hg & Hi' & Hs'); [done|done|]. destruct (IH _ _ Hs' Hi') as (? & ? & ?). split_and!; [by etrans|done|done].
Qed.

Definition anything {A} (d : DB) (a : A) : Prop := True.

(** Safe programs stay safe together, whatever the order of their statements. *)
Lemma pool_safe_steps (request : Prog unit -> Prop) c c' :
  (forall p d, request p -> I d -> safe anything d p) -> rtc (pool_step request) c c' ->
  I c.1 -> Forall (safe anything c.1) c.2 -> I c'.1 /\ G c.1 c'.1 /\ Forall (safe anything c'.1) c'.2.
Proof.
  intros Hreq Hsteps. induction Hsteps as [c|c1 c2 c3 Hstep _ IH]; intros Hi Hps; [done|].
  assert (I c2.1 /\ G c1.1 c2.1 /\ Forall (safe anything c2.1) c2.2) as (Hi2 & Hg2 & Hps2).
  { inversion Hstep as [d ps p Hp|d ps i update next Hl]; subst; cbn in *.
    - split_and!; [done|done|]. apply Forall_app. split; [done|]. by constructor; [apply Hreq|].
    - pose proof (Forall_lookup_1 _ _ _ _ Hps Hl) as Hsafe. inversion Hsafe as [|? ? Hn]; subst.
      destruct (Hn d) as (Hg2 & Hi2 & Hs2); [done|done|]. split_and!; [done|done|]. apply Forall_insert; [|done].
      eapply Forall_impl; [exact Hps|]. intros q. by apply safe_later. }
  destruct (IH Hi2 Hps2) as (? & ? & ?). split_and!; [done|by etrans|done].
Qed.
Lemma pool_safe (request : Prog unit -> Prop) d0 d ps :
  I d0 -> (forall p d, request p -> I d -> safe anything d p) -> rtc (pool_step request) (d0, []) (d, ps) -> I d /\ G d0 d.
Proof. intros Hi Hreq Hsteps. by destruct (pool_safe_steps request _ _ Hreq Hsteps) as (? & ? & _); [done|constructor|]. Qed.

(** ** Pools that play a list of turns *)

(** A request arrives, or the one at a place makes its next statement. *)
Inductive Turn := Arrive (p : Prog unit) | Next (i : nat).
Definition play (c : Pool) (t : Turn) : Pool :=
  match t with
  | Arrive p => (c.1, c.2 ++ [p])
  | Next i => match c.2 !! i with
              | Some (Statement update next) => (update c.1, <[i := next c.1]> c.2)
              | _ => c
              end
  end.
Definition requested_by (request : Prog unit -> Prop) (t : Turn) : Prop := match t with Arrive p => request p | Next _ => True end.
Lemma play_steps (request : Prog unit -> Prop) c ts : Forall (requested_by request) ts -> rtc (pool_step request) c (foldl play c ts).
Proof.
  intros Hts. revert c. induction Hts as [|t ts Ht _ IH]; intros [d ps]; [done|]. cbn [foldl]. etrans; [|apply IH].
  destruct t as [p|i]; [by apply rtc_once; constructor|]. unfold play. cbn. destruct (ps !! i) as [[|update next]|] eqn:Hi; [done| |done].
  apply rtc_once. by constructor.
Qed.
(** The requests one by one, the first at place [k]; what has ended makes no
    more statements. *)
Fixpoint schedule (k : nat) (ps : list (Prog unit)) : list Turn :=
  match ps with [] => [] | p :: ps => Arrive p :: replicate 8 (Next k) ++ schedule (S k) ps end.
Lemma schedule_requested (request : Prog unit -> Prop) k ps : Forall request ps -> Forall (requested_by request) (schedule k ps).
Proof.
  intros Hps. revert k. induction Hps as [|p ps Hp _ IH]; intros k; cbn [schedule]; constructor; [done|].
  apply Forall_app. split; [by apply Forall_replicate|apply IH].
Qed.
End programs.
#[global] Arguments Prog : clear implicits.
#[global] Arguments Pool : clear implicits.
#[global] Arguments Turn : clear implicits.

(** ** A program on a part of a larger state *)

Section focus.
Context {S D : Type} (get : S -> D) (put : D -> S -> S).
Fixpoint focus {A} (p : Prog D A) : Prog S A :=
  match p with
  | Done a => Done a
  | Statement update next => Statement (fun s => put (update (get s)) s) (fun s => focus (next (get s)))
  end.
Lemma exec_focus {A} (p : Prog D A) s :
  (forall d s, get (put d s) = d) -> (forall s, put (get s) s = s) -> (forall d d' s, put d' (put d s) = put d' s) ->
  exec (focus p) s = (put (exec p (get s)).1 s, (exec p (get s)).2).
Proof.
  intros Hgp Hpg Hpp. revert s. induction p as [a|update next IH]; intros s; cbn; [by rewrite Hpg|]. by rewrite IH, Hgp, Hpp.
Qed.
(** What is safe on the part is safe on the whole. *)
Lemma safe_focus (I : D -> Prop) (G : D -> D -> Prop) (J : S -> Prop) (H : S -> S -> Prop) {A} (p : Prog D A) s :
  (forall s, J s -> I (get s)) -> (forall s s', H s s' -> G (get s) (get s')) ->
  (forall s d, J s -> G (get s) d -> I d -> H s (put d s) /\ J (put d s) /\ get (put d s) = d) ->
  safe I G anything (get s) p -> safe J H anything s (focus p).
Proof.
  intros HJ HH Hput. revert s. induction p as [a|update next IH]; intros s Hs; constructor; [done|]. intros s' Hs' Hj.
  inversion Hs as [|? ? Hn]; subst. destruct (Hn (get s')) as (Hg & Hi & Hnext); [by apply HH|by apply HJ|].
  destruct (Hput s' (update (get s')) Hj Hg Hi) as (? & ? & Hget). split_and!; [done|done|]. apply IH. by rewrite Hget.
Qed.
End focus.

(** ** Requests that can fail *)

Definition request_unit {DB A} (p : Prog DB A) : Prog DB unit := prog_bind (fun _ => Done tt) p.

Section fallible.
Context {DB E : Type}.
Definition Auto (A : Type) : Type := Prog DB (result E A).
#[global] Instance auto_ret : MRet Auto := fun A a => Done (Ok a).
#[global] Instance auto_bind : MBind Auto := fun A B k =>
  prog_bind (fun r : result E A => match r with Ok a => k a | Err e => Done (Err e) end).
(** Checks on values, a query, and a statement that writes or is refused. *)
Definition check {A} (m : result E A) : Auto A := Done m.
Definition query {A} (f : DB -> result E A) : Auto A := Statement id (fun d => Done (f d)).
Definition write {A} (f : DB -> result E (DB * A)) : Auto A :=
  Statement (fun d => match f d with Ok (d', _) => d' | Err _ => d end) (fun d => Done (snd <$> f d)).

Context (I : DB -> Prop) (G : DB -> DB -> Prop) `{!PreOrder G}.
(** What is known of the answer of a request that has not failed. *)
Definition succeeds {A} (Q : DB -> A -> Prop) (d : DB) (r : result E A) : Prop :=
  match r with Ok a => Q d a | Err _ => True end.
Definition stable {A} (Q : DB -> A -> Prop) : Prop := forall d d' a, G d d' -> I d' -> Q d a -> Q d' a.

Lemma safe_ret {A} (Q : DB -> A -> Prop) d a : stable Q -> Q d a -> safe I G (succeeds Q) d (mret a : Auto A).
Proof. intros Hs Hq. constructor. intros d' Hg Hi. by eapply Hs. Qed.
Lemma safe_check {A} (Q : DB -> A -> Prop) d (m : result E A) :
  (forall a d', m = Ok a -> G d d' -> I d' -> Q d' a) -> safe I G (succeeds Q) d (check m).
Proof. intros Hq. constructor. intros d' Hg Hi. destruct m; [by apply Hq|done]. Qed.
Lemma safe_query {A} (Q : DB -> A -> Prop) d (f : DB -> result E A) :
  stable Q -> (forall a d', f d' = Ok a -> I d' -> Q d' a) -> safe I G (succeeds Q) d (query f).
Proof.
  intros Hst Hq. constructor. intros d' Hg Hi. split_and!; [done|done|]. constructor. intros d2 Hg2 Hi2.
  destruct (f d') as [a|e] eqn:Hf; [|done]. eapply Hst; [exact Hg2|done|by apply Hq].
Qed.
Lemma safe_write {A} (Q : DB -> A -> Prop) d (f : DB -> result E (DB * A)) :
  stable Q -> (forall a d' d2, G d d' -> I d' -> f d' = Ok (d2, a) -> G d' d2 /\ I d2 /\ Q d2 a) -> safe I G (succeeds Q) d (write f).
Proof.
  intros Hst Hq. constructor. intros d' Hg Hi. destruct (f d') as [[d2 a]|e] eqn:Hf; cbn.
  - destruct (Hq _ _ _ Hg Hi Hf) as (? & ? & ?). split_and!; [done|done|]. constructor. intros d3 Hg3 Hi3. by eapply Hst.
  - split_and!; [done|done|]. by constructor.
Qed.
Lemma safe_then {A B} (Q : DB -> A -> Prop) (R : DB -> B -> Prop) d (p : Auto A) (k : A -> Auto B) :
  safe I G (succeeds Q) d p -> I d -> (forall d' a, G d d' -> I d' -> Q d' a -> safe I G (succeeds R) d' (k a)) ->
  safe I G (succeeds R) d (p ≫= k).
Proof.
  intros Hp Hi Hk. eapply safe_bind; [apply _|exact Hp| |done]. intros d' [a|e] Hg Hi' Hq; [by apply Hk|]. by constructor.
Qed.
Lemma safe_request {A} (Q : DB -> A -> Prop) d (p : Auto A) : I d -> safe I G (succeeds Q) d p -> safe I G anything d (request_unit p).
Proof. intros Hi Hp. eapply safe_bind; [apply _|exact Hp| |done]. intros d' r _ _ _. by constructor. Qed.

(** ** Requests run with nothing in between *)

Lemma exec_auto_then {A B} (p : Auto A) (k : A -> Auto B) d :
  exec (p ≫= k) d = let '(d', r) := exec p d in match r with Ok a => exec (k a) d' | Err e => (d', Err e) end.
Proof. unfold mbind, auto_bind. rewrite exec_bind. by destruct (exec p d) as [d' [a|e]]. Qed.
Lemma exec_auto_query {A B} (f : DB -> result E A) (k : A -> Auto B) d :
  exec (query f ≫= k) d = match f d with Ok a => exec (k a) d | Err e => (d, Err e) end.
Proof. by rewrite exec_auto_then. Qed.
Lemma exec_auto_check {A B} (m : result E A) (k : A -> Auto B) d :
  exec (check m ≫= k) d = match m with Ok a => exec (k a) d | Err e => (d, Err e) end.
Proof. by rewrite exec_auto_then. Qed.
Lemma exec_auto_write {A B} (f : DB -> result E (DB * A)) (k : A -> Auto B) d :
  exec (write f ≫= k) d = match f d with Ok (d', a) => exec (k a) d' | Err e => (d, Err e) end.
Proof. rewrite exec_auto_then. cbn. by destruct (f d) as [[d' a]|e]. Qed.

Definition preserves (P : DB -> Prop) {A} (p : Auto A) : Prop := forall d, P d -> P (exec p d).1.
Lemma preserves_query P {A} (f : DB -> result E A) : preserves P (query f).
Proof. by intros d Hd. Qed.
Lemma preserves_check P {A} (m : result E A) : preserves P (check m).
Proof. by intros d Hd. Qed.
Lemma preserves_ret P {A} (a : A) : preserves P (mret a).
Proof. by intros d Hd. Qed.
Lemma preserves_write P {A} (f : DB -> result E (DB * A)) : (forall d d' a, P d -> f d = Ok (d', a) -> P d') -> preserves P (write f).
Proof. intros Hf d Hd. cbn. destruct (f d) as [[d' a]|e] eqn:Hw; [by eapply Hf|done]. Qed.
Lemma preserves_then P {A B} (p : Auto A) (k : A -> Auto B) : preserves P p -> (forall a, preserves P (k a)) -> preserves P (p ≫= k).
Proof.
  intros Hp Hk d Hd. rewrite exec_auto_then. specialize (Hp d Hd). destruct (exec p d) as [d' [a|e]]; [by apply Hk|done].
Qed.
Lemma preserves_unit P {A} (p : Auto A) d : preserves P p -> P d -> P (exec (request_unit p) d).1.
Proof. intros Hp Hd. unfold request_unit. rewrite exec_bind. specialize (Hp d Hd). by destruct (exec p d). Qed.
End fallible.
#[global] Arguments Auto : clear implicits.
