(* ===== verification/EventStreams.v ===== *)
(** * Event streams: [stillflow-api/src/event_stream.rs]

    A subscriber of a job or run gets a first page of its events and then what
    a worker reads from the store, through a channel of bounded size.  The
    reads of a replay are statements of their own; the worker, the reader and
    the store's operations take turns. *)

From S2P Require Import Prelude Text Secrets Logical Nodes Schedule Automation Hex Canonical Operations Jobs Submissions Outputs Lifecycle Reports Life Refines Reachable Autocommit.

(** ** Keys, cursors and frames *)

Definition MAX_REPLAY_EVENTS : N := MAX_EVENT_PAGE_SIZE.
Definition PUMP_PAGE_SIZE : N := 64.

Record StreamKey := mkStreamKey { sk_workspace_id : Uuid; sk_stream_kind : EventStreamKind; sk_stream_id : Uuid }.
#[export] Instance StreamKey_eq_dec : EqDecision StreamKey.
Proof. solve_decision. Defined.
Record ResumeCursor := mkResumeCursor { rc_workspace_id : Uuid; rc_stream_kind : EventStreamKind; rc_stream_id : Uuid; rc_sequence : N }.
Definition resume_at (key : StreamKey) (sequence : N) : ResumeCursor :=
  mkResumeCursor (sk_workspace_id key) (sk_stream_kind key) (sk_stream_id key) sequence.
Definition cursor_key (c : ResumeCursor) : StreamKey := mkStreamKey (rc_workspace_id c) (rc_stream_kind c) (rc_stream_id c).
Definition to_storage (c : ResumeCursor) : EventCursor :=
  mkEventCursor (rc_workspace_id c) (rc_stream_kind c) (rc_stream_id c) (rc_sequence c).
Record EventFrame := mkFrame {
  ef_event_id : Uuid;
  ef_workspace_id : Uuid;
  ef_session_id : Uuid;
  ef_stream_kind : EventStreamKind;
  ef_stream_id : Uuid;
  ef_sequence : N;
  ef_event_type : ControlPlaneEventType;
  ef_event_version : N;
  ef_occurred_at : DateTime;
  ef_job_id : Uuid;
  ef_run_id : option Uuid;
  ef_payload : json;
}.
Definition frame_cursor (f : EventFrame) : ResumeCursor :=
  resume_at (mkStreamKey (ef_workspace_id f) (ef_stream_kind f) (ef_stream_id f)) (ef_sequence f).
Record ReplayRequest := mkReplay { replay_key : StreamKey; replay_cursor : option ResumeCursor; replay_limit : N }.
Record ReplayPage := mkReplayPage { rp_events : list EventFrame; rp_next : option ResumeCursor }.
Inductive EventStreamError :=
| InvalidRequest
| InvalidCursor
| StreamNotFound
| SubscriberLimit
| SlowConsumer
| TerminalStateMismatch
| UnsafePayload
| DurableStateUnavailable.
Notation Streamed := (result EventStreamError).

Definition key_validate (key : StreamKey) : Streamed StreamKey :=
  if is_nil (sk_workspace_id key) || is_nil (sk_stream_id key) then Err InvalidRequest else Ok key.
Definition map_storage_error (e : StorageError) : EventStreamError :=
  match e with
  | InvalidDraft _ => InvalidCursor
  | NotFound _ => StreamNotFound
  | _ => DurableStateUnavailable
  end.

(** ** Frames *)

Section streams.
Context `{JobCodec}.

Definition expected_job_state (type : ControlPlaneEventType) : option JobState :=
  match type with JobSucceeded => Some Succeeded | JobFailed => Some Failed | JobCancelled => Some Cancelled | _ => None end.
Definition expected_run_state (type : ControlPlaneEventType) : option RunState :=
  match type with RunSucceeded => Some RSucceeded | RunFailed => Some RFailed | RunCancelled => Some RCancelled | _ => None end.
Definition unavailable {A} (m : Stored A) : Streamed A := map_err (fun _ => DurableStateUnavailable) m.
(** The last event of a job or run against the state it is in now. *)
Definition terminal_agrees (t : Tables) (e : EventRow) : Streamed unit :=
  match ev_stream_kind e with
  | JobStream =>
      match expected_job_state (ev_event_type e) with
      | Some expected =>
          job ← unavailable (get_job t (ev_job_id e));
          if negb (bool_decide (j_state (jr_row job) = expected)) then Err TerminalStateMismatch else Ok tt
      | None => Ok tt
      end
  | RunStream =>
      match expected_run_state (ev_event_type e) with
      | Some expected =>
          run_id ← ok_or (ev_run_id e) DurableStateUnavailable;
          run ← unavailable (get_run t run_id);
          if negb (bool_decide (r_state (rr_row run) = expected)) then Err TerminalStateMismatch else Ok tt
      | None => Ok tt
      end
  end.
Definition event_frame (r : EventRecord) : EventFrame :=
  let e := er_row r in
  mkFrame (ev_event_id e) (ev_workspace_id e) (ev_session_id e) (ev_stream_kind e) (ev_stream_id e) (ev_sequence e) (ev_event_type e)
    (ev_event_version e) (ev_occurred_at e) (ev_job_id e) (ev_run_id e) (er_payload r).
Definition frame_from_store (key : StreamKey) (event : EventRecord) (t : Tables) : Streamed EventFrame :=
  let e := er_row event in
  if negb (ev_workspace_id e =? sk_workspace_id key)%N || negb (bool_decide (ev_stream_kind e = sk_stream_kind key))
     || negb (ev_stream_id e =? sk_stream_id key)%N then Err DurableStateUnavailable else
  payload_bytes ← ok_or (json_print (er_payload event)) UnsafePayload;
  if (MAX_EVENT_PAYLOAD_BYTES <? str_len payload_bytes)%N then Err UnsafePayload else
  match ensure_safe_event_metadata (er_payload event) with
  | Err _ => Err UnsafePayload
  | Ok _ => try! terminal_agrees t e; Ok (event_frame event)
  end.

(** ** Replay *)

Notation Reading := (Auto Tables EventStreamError).
Definition same_workspace (key : StreamKey) (t : Tables) : Stored bool :=
  match sk_stream_kind key with
  | JobStream => (fun job => j_workspace_id (job_columns (jr_row job)) =? sk_workspace_id key)%N <$> get_job t (sk_stream_id key)
  | RunStream => (fun run => r_workspace_id (run_columns (rr_row run)) =? sk_workspace_id key)%N <$> get_run t (sk_stream_id key)
  end.
Definition validate_stream_exists (key : StreamKey) : Reading unit :=
  query (fun t => match same_workspace key t with
                  | Ok true => Ok tt
                  | Ok false | Err (NotFound _) => Err StreamNotFound
                  | Err _ => Err DurableStateUnavailable
                  end).
Definition read_page (key : StreamKey) (cursor : option ResumeCursor) (limit : N) (t : Tables) : Streamed EventPage :=
  map_err map_storage_error (list_events t (sk_workspace_id key) (sk_stream_kind key) (sk_stream_id key) (to_storage <$> cursor) limit).
Fixpoint frames (key : StreamKey) (events : list EventRecord) : Reading (list EventFrame) :=
  match events with
  | [] => mret []
  | event :: events => f ← query (frame_from_store key event); fs ← frames key events; mret (f :: fs)
  end.
Definition replay (request : ReplayRequest) : Reading ReplayPage :=
  key ← check (key_validate (replay_key request));
  try! check (if (replay_limit request =? 0)%N || (MAX_REPLAY_EVENTS <? replay_limit request)%N then Err InvalidRequest else Ok tt);
  try! check (match replay_cursor request with
              | Some cursor => if negb (bool_decide (cursor_key cursor = key)) then Err InvalidCursor else Ok tt
              | None => Ok tt
              end);
  try! validate_stream_exists key;
  page ← query (read_page key (replay_cursor request) (replay_limit request));
  events ← frames key (ep_events page);
  mret (mkReplayPage events
          ((fun c => resume_at (mkStreamKey (ec_workspace_id c) (ec_stream_kind c) (ec_stream_id c)) (ec_sequence c)) <$> ep_next page)).

(** ** Subscriptions *)

Inductive Worker :=
| Polling (cursor : ResumeCursor)
| Sending (cursor : ResumeCursor) (events : list EventRecord)
| Stopped.
(** A subscription with its worker and the channel between them. *)
Record EventSubscription := mkSubscription {
  sub_key : StreamKey;
  sub_cursor : option ResumeCursor;
  sub_replay : list EventFrame;
  receiver : list EventFrame;
  cancelled : bool;
  worker_error : option EventStreamError;
  worker : Worker;
}.
Definition subscription (request : ReplayRequest) (key : StreamKey) (page : ReplayPage) : EventSubscription :=
  let observed_cursor := default (resume_at key 0) (replay_cursor request) in
  let start_cursor := match frame_cursor <$> last (rp_events page) with
                      | Some c => c
                      | None => default observed_cursor (rp_next page)
                      end in
  mkSubscription key (Some observed_cursor) (rp_events page) [] false None (Polling start_cursor).
(** [slots]: the subscriptions that may still be opened. *)
Definition subscribe (slots : N) (request : ReplayRequest) : Reading EventSubscription :=
  try! check (if (slots =? 0)%N then Err SubscriberLimit else Ok tt);
  key ← check (key_validate (replay_key request));
  page ← replay request;
  mret (subscription request key page).

Definition set_worker (w : Worker) (s : EventSubscription) : EventSubscription :=
  mkSubscription (sub_key s) (sub_cursor s) (sub_replay s) (receiver s) (cancelled s) (worker_error s) w.
(** [set_worker_error] and the end of the worker, which closes the channel. *)
Definition stop_with (e : EventStreamError) (s : EventSubscription) : EventSubscription :=
  mkSubscription (sub_key s) (sub_cursor s) (sub_replay s) (receiver s) (cancelled s) (Some e) Stopped.
Definition send (f : EventFrame) (w : Worker) (s : EventSubscription) : EventSubscription :=
  mkSubscription (sub_key s) (sub_cursor s) (sub_replay s) (receiver s ++ [f]) (cancelled s) (worker_error s) w.
(** One turn of [pump_events]: a page is read, or one of its events is sent. A
    dropped subscription has also closed its end of the channel. *)
Definition pump (capacity : N) (t : Tables) (s : EventSubscription) : EventSubscription :=
  match worker s with
  | Stopped => s
  | Polling cursor =>
      if cancelled s then set_worker Stopped s else
      match read_page (sub_key s) (Some cursor) PUMP_PAGE_SIZE t with
      | Err e => stop_with e s
      | Ok page => match ep_events page with [] => s | events => set_worker (Sending cursor events) s end
      end
  | Sending cursor [] => set_worker (Polling cursor) s
  | Sending _ (event :: events) =>
      if cancelled s then set_worker Stopped s else
      match frame_from_store (sub_key s) event t with
      | Err e => stop_with e s
      | Ok f => if (capacity <=? len (receiver s))%N then stop_with SlowConsumer s else send f (Sending (frame_cursor f) events) s
      end
  end.

Inductive Reply := Got (f : EventFrame) | Failed_with (e : EventStreamError) | Ended | Waiting.
Definition next_event (s : EventSubscription) : EventSubscription * Reply :=
  match sub_replay s with
  | f :: rest =>
      (mkSubscription (sub_key s) (Some (frame_cursor f)) rest (receiver s) (cancelled s) (worker_error s) (worker s), Got f)
  | [] =>
      match receiver s with
      | f :: rest => (mkSubscription (sub_key s) (Some (frame_cursor f)) [] rest (cancelled s) (worker_error s) (worker s), Got f)
      | [] =>
          match worker s with
          | Stopped =>
              match worker_error s with
              | Some e => (mkSubscription (sub_key s) (sub_cursor s) [] [] (cancelled s) None Stopped, Failed_with e)
              | None => (s, Ended)
              end
          | _ => (s, Waiting)
          end
      end
  end.
(** [Drop for EventSubscription] *)
Definition drop_subscription (s : EventSubscription) : EventSubscription :=
  mkSubscription (sub_key s) (sub_cursor s) (sub_replay s) (receiver s) true (worker_error s) (worker s).
End streams.
