(* ===== verification/Subscriptions.v ===== *)
(** * What a subscriber of a stream sees

    Whatever the control plane does meanwhile, a subscriber gets the events of
    its job or run after its cursor, each once and in order, and a subscriber
    that keeps reading gets them all. *)

From S2P Require Import Prelude Text Secrets Logical Nodes Schedule Automation Hex Canonical Operations Jobs Submissions Outputs Lifecycle Reports Life Refines Reachable Frame Sample Control Autocommit EventStreams.

(** ** The log of a stream *)

(** The events of a stream that its key shows. *)
Definition watched (t : Tables) (key : StreamKey) : list EventRow :=
  filter (fun e => ev_workspace_id e = sk_workspace_id key) (stream t (sk_stream_kind key) (sk_stream_id key)).
Definition after_sequence (n : N) (log : list EventRow) : list EventRow := filter (fun e => (n < ev_sequence e)%N) log.
Definition earlier (e f : EventRow) : Prop := (ev_sequence e < ev_sequence f)%N.
Definition last_seen (n : N) (log : list EventRow) : N := from_option ev_sequence n (last log).

Lemma filter_sorted {A} (R : relation A) (P : A -> Prop) `{!forall x, Decision (P x)} l : StronglySorted R l -> StronglySorted R (filter P l).
Proof.
  induction 1 as [|x l Hs IH Hall]; [constructor|]. rewrite filter_cons. case_decide; [|done]. constructor; [done|].
  apply Forall_forall. intros y [_ Hy]%list_elem_of_filter. rewrite Forall_forall in Hall. by apply Hall.
Qed.
Lemma filter_every {A} (P : A -> Prop) `{!forall x, Decision (P x)} l : Forall P l -> filter P l = l.
Proof. induction 1 as [|x l Hx _ IH]; [done|]. by rewrite filter_cons_True, IH. Qed.
Lemma filter_refused {A} (P : A -> Prop) `{!forall x, Decision (P x)} l : Forall (fun x => ~ P x) l -> filter P l = [].
Proof. induction 1 as [|x l Hx _ IH]; [done|]. by rewrite filter_cons_False. Qed.
Lemma numbered_sorted log k : ev_sequence <$> log = N.of_nat <$> seq k (length log) -> StronglySorted earlier log.
Proof.
  revert k. induction log as [|e log IH]; intros k Hn; [constructor|]. cbn in Hn. injection Hn as He Hn. constructor; [by eapply IH|].
  apply Forall_forall. intros f Hf. unfold earlier. assert (ev_sequence f ∈ ev_sequence <$> log) as Hin by by apply list_elem_of_fmap_2.
  rewrite Hn in Hin. apply list_elem_of_fmap in Hin as (i & -> & Hi). apply elem_of_seq in Hi. lia.
Qed.
(** What comes after the last of a first part. *)
Lemma after_last n log rows rest :
  StronglySorted earlier log -> after_sequence n log = rows ++ rest -> after_sequence (last_seen n rows) log = rest.
Proof.
  intros Hs Hl. assert (StronglySorted earlier (rows ++ rest)) as Hs' by (rewrite <- Hl; by apply filter_sorted).
  destruct rows as [|x rows _] using rev_ind; [done|]. unfold last_seen. rewrite last_snoc. cbn.
  assert (n < ev_sequence x)%N as Hx.
  { assert (x ∈ after_sequence n log) as [? _]%list_elem_of_filter; [|done]. rewrite Hl. set_solver. }
  transitivity (after_sequence (ev_sequence x) (after_sequence n log)).
  { unfold after_sequence. rewrite list_filter_filter. apply list_filter_iff. intros e. lia. }
  rewrite Hl. apply StronglySorted_app in Hs' as (Hcross & Hrows & _). apply StronglySorted_app in Hrows as (Hlast & _ & _).
  unfold after_sequence. rewrite filter_app, (filter_refused _ (rows ++ [x])), (filter_every _ rest); [done| |]; apply Forall_forall; intros e He.
  - apply (Hcross x e); [set_solver|done].
  - apply elem_of_app in He as [He|He%list_elem_of_singleton]; [|subst; lia]. specialize (Hlast e x He ltac:(set_solver)). unfold earlier in Hlast. lia.
Qed.
Lemma after_prefix n log log' : log `prefix_of` log' -> after_sequence n log `prefix_of` after_sequence n log'.
Proof. intros [k ->]. unfold after_sequence. rewrite filter_app. by eexists. Qed.

Section subscriptions.
Context `{JobCodec} `{StoreFiles}.

(** Later states of the tables. *)
Definition later (t t' : Tables) : Prop := exists ops, t' = foldl execute t ops.
#[local] Instance later_preorder : PreOrder later.
Proof. split; [by intros t; exists []|]. intros t1 t2 t3 [ops1 ->] [ops2 ->]. exists (ops1 ++ ops2). by rewrite foldl_app. Qed.
Lemma later_refl t : later t t.
Proof. by exists []. Qed.
Lemma later_reached t t' : reached t -> later t t' -> reached t'.
Proof. intros Ht [ops ->]. by apply reached_executes. Qed.
Lemma events_later t t' : later t t' -> cp_events t `prefix_of` cp_events t'.
Proof.
  intros [ops ->]. revert t. induction ops as [|op ops IH]; intros t; [done|]. cbn. etrans; [|apply IH].
  destruct (execute_log t op) as [_ (new & -> & _)]. by eexists.
Qed.
Lemma watched_later t t' key : later t t' -> watched t key `prefix_of` watched t' key.
Proof. intros [k Hk]%events_later. unfold watched, stream. rewrite Hk, !filter_app. by eexists. Qed.
Lemma stream_sorted t kind id : reached t -> StronglySorted earlier (stream t kind id).
Proof.
  intros Hok%reached_ok. apply (numbered_sorted _ 1). rewrite sequence_life, (life_sequence _ Hok), log_of_life. by rewrite length_fmap.
Qed.
Lemma watched_sorted t key : reached t -> StronglySorted earlier (watched t key).
Proof. intros Ht. by apply filter_sorted, stream_sorted. Qed.

(** ** Pages *)

Lemma sorted_sort log : StronglySorted earlier log -> merge_sort sequence_le log = log.
Proof.
  intros Hs. assert (Transitive sequence_le) by (intros x y z; unfold sequence_le; lia). assert (Total sequence_le) by (intros x y; unfold sequence_le; lia).
  apply (StronglySorted_unique_strong sequence_le).
  - intros x y Hx Hy Hxy Hyx. rewrite (merge_sort_Permutation sequence_le) in Hx. unfold sequence_le in *.
    clear -Hs Hx Hy Hxy Hyx. induction Hs as [|z log Hs IH Hall]; [by apply not_elem_of_nil in Hx|]. rewrite Forall_forall in Hall. unfold earlier in Hall.
    apply elem_of_cons in Hx as [->|Hx], Hy as [->|Hy]; [done|specialize (Hall _ Hy); lia|specialize (Hall _ Hx); lia|by apply IH].
  - by apply (StronglySorted_merge_sort sequence_le).
  - clear -Hs. induction Hs as [|z log Hs IH Hall]; constructor; [done|]. eapply Forall_impl; [done|]. intros x. unfold earlier, sequence_le. lia.
  - by rewrite (merge_sort_Permutation sequence_le).
Qed.
Definition decoded (e : EventRow) (r : EventRecord) : Prop := event_from_raw e = Ok r /\ er_row r = e.
Lemma decoded_rows rows rs : Forall2 decoded rows rs -> er_row <$> rs = rows.
Proof. induction 1 as [|e r rows rs [_ <-] _ IH]; [done|]. cbn. by rewrite IH. Qed.
Lemma event_from_raw_row e r : event_from_raw e = Ok r -> er_row r = e.
Proof. unfold event_from_raw. intros He. inv_ok He. by injection He as <-. Qed.
Lemma shown_page t key n :
  reached t ->
  merge_sort sequence_le (filter (fun e => (ev_workspace_id e =? sk_workspace_id key)%N && (n <? ev_sequence e)%N)
                            (stream t (sk_stream_kind key) (sk_stream_id key))) = after_sequence n (watched t key).
Proof.
  intros Ht. transitivity (merge_sort sequence_le (after_sequence n (watched t key))).
  - f_equal. unfold after_sequence, watched. rewrite list_filter_filter. apply list_filter_iff. intros e.
    rewrite andb_True, !Is_true_true, N.eqb_eq, N.ltb_lt. tauto.
  - by apply sorted_sort, filter_sorted, watched_sorted.
Qed.
(** A page is the first of what comes after the cursor. *)
Lemma read_page_Ok key cursor limit t page :
  reached t -> read_page key cursor limit t = Ok page ->
  let log := after_sequence (from_option rc_sequence 0%N cursor) (watched t key) in
  Forall2 decoded (take (N.to_nat limit) log) (ep_events page) /\ (0 < limit)%N /\ (log = [] -> ep_next page = None).
Proof.
  intros Ht Hp log. unfold read_page in Hp. apply map_err_Ok in Hp. unfold list_events in Hp. apply bind_Ok in Hp as ([] & Hlim & Hp).
  destruct (match to_storage <$> cursor with Some _ => _ | None => _ end) in Hp; [done|]. cbv zeta in Hp.
  replace (match to_storage <$> cursor with Some c => ec_sequence c | None => 0%N end) with (from_option rc_sequence 0%N cursor) in Hp by by destruct cursor.
  destruct (i64_max <? _)%N; [done|]. rewrite shown_page in Hp by done. fold log in Hp. apply bind_Ok in Hp as (events & He & Hp).
  apply collect_Ok in He.
  assert (Forall2 decoded (take (S (N.to_nat limit)) log) events) as Hd.
  { eapply Forall2_impl; [exact He|]. intros e r Hr. split; [done|by apply event_from_raw_row]. }
  assert (0 < limit)%N as Hpos by (unfold validate_page_limit in Hlim; destruct (limit =? 0)%N eqn:Hz; [done|apply N.eqb_neq in Hz; lia]).
  pose proof (Forall2_length _ _ _ Hd) as Hlen. rewrite length_take in Hlen.
  destruct (limit <? len events)%N eqn:Hl; injection Hp as <-; cbn; (split; [|split; [done|]]).
  - apply N.ltb_lt in Hl. unfold len in Hl. replace (take (N.to_nat limit) log) with (take (N.to_nat limit) (take (S (N.to_nat limit)) log))
      by (rewrite take_take; f_equal; lia). by apply Forall2_take.
  - intros Hlog. rewrite Hlog in Hlen. cbn in Hlen. destruct events; [|done]. by rewrite take_nil.
  - apply N.ltb_ge in Hl. unfold len in Hl. rewrite (take_ge log (N.to_nat limit)) by lia. rewrite (take_ge log) in Hd by lia. done.
  - done.
Qed.

(** ** A request among operations *)

Inductive among {A} : Prog Tables A -> Tables -> Tables -> A -> Prop :=
| among_done t a : among (Done a) t t a
| among_statement update next t t' a : among (next t) (update t) t' a -> among (Statement update next) t t' a
| among_operation p op t t' a : among p (execute t op) t' a -> among p t t' a.
Lemma later_step t op t' : later (execute t op) t' -> later t t'.
Proof. intros Hl. etrans; [|exact Hl]. by exists [op]. Qed.
Lemma among_Done {A} (b a : A) t t' : among (Done b) t t' a -> a = b /\ later t t'.
Proof.
  remember (Done b) as p eqn:Hp. induction 1 as [t a|update next t t' a _ _|p op t t' a _ IH]; simplify_eq; [done|].
  destruct (IH eq_refl) as [-> Hl]. split; [done|by eapply later_step].
Qed.
Lemma among_Statement {A} update (next : Tables -> Prog Tables A) t t' a :
  among (Statement update next) t t' a -> exists t1, later t t1 /\ among (next t1) (update t1) t' a.
Proof.
  remember (Statement update next) as p eqn:Hp. induction 1 as [t a|u n t t' a Hn _|p op t t' a _ IH]; simplify_eq; [by exists t|].
  destruct (IH eq_refl) as (t1 & Hl & Hn). exists t1. split; [by eapply later_step|done].
Qed.
Lemma among_query {A B} (f : Tables -> Streamed A) (k : A -> Auto Tables EventStreamError B) t t' b :
  among (query f ≫= k) t t' (Ok b) -> exists t1 a, later t t1 /\ f t1 = Ok a /\ among (k a) t1 t' (Ok b).
Proof.
  intros Ha. change (query f ≫= k) with (Statement (fun d => d) (fun d => match f d with Ok a => k a | Err e => Done (Err e) end)) in Ha.
  apply among_Statement in Ha as (t1 & Hl & Ha). destruct (f t1) as [a|e] eqn:Hf; [by exists t1, a|]. by apply among_Done in Ha as [? _].
Qed.
Lemma among_check {A B} (m : Streamed A) (k : A -> Auto Tables EventStreamError B) t t' b :
  among (check m ≫= k) t t' (Ok b) -> exists a, m = Ok a /\ among (k a) t t' (Ok b).
Proof. destruct m as [a|e]; [by exists a|]. intros Ha. by apply (among_Done (Err e : Streamed B)) in Ha as [? _]. Qed.

Lemma among_later {A} (p : Prog Tables A) t t1 t' a : later t t1 -> among p t1 t' a -> among p t t' a.
Proof. intros [ops ->] Ha. revert t Ha. induction ops as [|op ops IH]; intros t Ha; [done|]. by apply among_operation with op, IH. Qed.
Lemma among_prog {A B} (k : A -> Prog Tables B) p t t' b :
  among (prog_bind k p) t t' b -> exists t1 a, among p t t1 a /\ among (k a) t1 t' b.
Proof.
  revert t. induction p as [a|update next IH]; intros t Ha; [exists t, a; split; [constructor|done]|]. cbn in Ha.
  apply among_Statement in Ha as (t1 & Hl & Ha). destruct (IH _ _ Ha) as (t2 & a & Hp & Hk). exists t2, a. split; [|done].
  apply (among_later _ _ t1 _ _ Hl). by constructor.
Qed.
Lemma among_then {A B} (p : Auto Tables EventStreamError A) (k : A -> Auto Tables EventStreamError B) t t' b :
  among (p ≫= k) t t' (Ok b) -> exists t1 a, among p t t1 (Ok a) /\ among (k a) t1 t' (Ok b).
Proof.
  intros Ha. apply among_prog in Ha as (t1 & [a|e] & Hp & Hk); [by exists t1, a|]. by apply (among_Done (Err e : Streamed B)) in Hk as [? _].
Qed.

(** ** Frames *)

Definition framed (key : StreamKey) (e : EventRow) (f : EventFrame) : Prop :=
  exists r, decoded e r /\ f = event_frame r /\ frame_cursor f = resume_at key (ev_sequence e).
Lemma frame_Ok key r t f e : decoded e r -> frame_from_store key r t = Ok f -> framed key e f.
Proof.
  intros [Hd <-] Hf. exists r. split; [by split|]. unfold frame_from_store in Hf. cbv zeta in Hf. destruct (_ || _) eqn:Hk; [done|].
  rewrite !orb_false_iff, !negb_false_iff, bool_decide_eq_true, !N.eqb_eq in Hk. destruct Hk as [[Hw Hk] Hi]. inv_ok Hf.
  destruct (ensure_safe_event_metadata _); [|done]. inv_ok Hf. injection Hf as <-. split; [done|]. unfold frame_cursor, resume_at. cbn. by rewrite Hw, Hk, Hi.
Qed.
Lemma frames_Ok key events t t' fs rows :
  among (frames key events) t t' (Ok fs) -> Forall2 decoded rows events -> Forall2 (framed key) rows fs /\ later t t'.
Proof.
  intros Ha Hd. revert t t' fs Ha. induction Hd as [|e r rows events Hr Hd IH]; intros t t' fs Ha; cbn [frames] in Ha.
  - apply among_Done in Ha as [[= ->] Hl]. by split; [constructor|].
  - apply among_query in Ha as (t1 & f & Hl & Hf & Ha). apply among_then in Ha as (t2 & fs' & Hfs & Ha). apply among_Done in Ha as [[= ->] Hl'].
    destruct (IH _ _ _ Hfs) as [Hall Hl2]. split; [constructor; [by eapply frame_Ok|done]|]. by etrans; [|etrans].
Qed.
Definition observed (request : ReplayRequest) : N := from_option rc_sequence 0%N (replay_cursor request).
(** What a replay answers was in the log, after the cursor, when it was read. *)
Lemma replay_Ok request t t' page :
  reached t -> among (replay request) t t' (Ok page) ->
  let key := replay_key request in
  key_validate key = Ok key /\ (forall c, replay_cursor request = Some c -> c = resume_at key (rc_sequence c)) /\
  exists rows, Forall2 (framed key) rows (rp_events page) /\ rows `prefix_of` after_sequence (observed request) (watched t' key) /\
    (rp_events page = [] -> rp_next page = None) /\ later t t'.
Proof.
  intros Ht Ha key. unfold replay in Ha. apply among_check in Ha as (key' & Hk & Ha).
  assert (key' = key) as -> by (unfold key_validate in Hk; by destruct (_ || _); simplify_eq). split; [done|].
  apply among_check in Ha as ([] & _ & Ha). apply among_check in Ha as ([] & Hc & Ha). split.
  { intros c Hrc. rewrite Hrc in Hc. case_bool_decide as Hck; [|done]. unfold resume_at. rewrite <- Hck. by destruct c. }
  apply among_query in Ha as (t1 & [] & Hl1 & _ & Ha). apply among_query in Ha as (t2 & p & Hl2 & Hp & Ha).
  apply among_then in Ha as (t3 & fs & Hfs & Ha). apply among_Done in Ha as [[= ->] Hl4]. cbn.
  apply read_page_Ok in Hp as (Hd & Hpos & Hnil); [|by eapply later_reached; [|etrans]]. destruct (frames_Ok _ _ _ _ _ _ Hfs Hd) as [Hall Hl3].
  exists (take (N.to_nat (replay_limit request)) (after_sequence (observed request) (watched t2 key))). split_and!.
  - exact Hall.
  - etrans; [apply prefix_take|]. by apply after_prefix, watched_later; etrans.
  - intros ->. apply Forall2_nil_inv_r in Hall. rewrite Hnil; [done|]. fold (observed request).
    destruct (after_sequence _ _); [done|]. destruct (N.to_nat (replay_limit request)) eqn:Hz; [lia|done].
  - by repeat (etrans; [eassumption|]).
Qed.

(** ** A subscription and its worker *)

(** The store, the subscription and what has been delivered so far. *)
Record Feed := mkFeed { store : Tables; sub : EventSubscription; delivered : list EventFrame }.
Definition got (r : Reply) : list EventFrame := match r with Got f => [f] | _ => [] end.
Inductive feed_turn (capacity : N) (x : Feed) : Feed -> Prop :=
| turn_store op : feed_turn capacity x (mkFeed (execute (store x) op) (sub x) (delivered x))
| turn_pump : feed_turn capacity x (mkFeed (store x) (pump capacity (store x) (sub x)) (delivered x))
| turn_read : feed_turn capacity x (mkFeed (store x) (next_event (sub x)).1 (delivered x ++ got (next_event (sub x)).2))
| turn_drop : feed_turn capacity x (mkFeed (store x) (drop_subscription (sub x)) (delivered x)).

Definition pending (s : EventSubscription) : list EventRecord := match worker s with Sending _ events => events | _ => [] end.
Definition on_the_way (s : EventSubscription) : list EventFrame := sub_replay s ++ receiver s.
Definition last_frame (n : N) (fs : list EventFrame) : N := from_option ef_sequence n (last fs).
Definition worker_at (key : StreamKey) (n : N) (w : Worker) : Prop :=
  match w with Polling c | Sending c _ => c = resume_at key n | Stopped => True end.
(** What has been delivered, what is on the way and what the worker holds are
    the first events after the cursor. *)
Record Following (key : StreamKey) (n : N) (x : Feed) : Prop := {
  following_reached : reached (store x);
  following_key : sub_key (sub x) = key;
  following_cursor : sub_cursor (sub x) = Some (resume_at key (last_frame n (delivered x)));
  following_worker : worker_at key (last_frame n (delivered x ++ on_the_way (sub x))) (worker (sub x));
  following_pending : Forall (fun r => decoded (er_row r) r) (pending (sub x));
  following_rows : exists rows, Forall2 (framed key) rows (delivered x ++ on_the_way (sub x)) /\
    rows ++ (er_row <$> pending (sub x)) `prefix_of` after_sequence n (watched (store x) key);
}.
Lemma framed_last key n rows fs : Forall2 (framed key) rows fs -> last_frame n fs = last_seen n rows.
Proof.
  intros Hf. unfold last_frame, last_seen. destruct fs as [|f fs _] using rev_ind; [by apply Forall2_nil_inv_r in Hf as ->|].
  apply Forall2_app_inv_r in Hf as (rows' & l & _ & Hl & ->). apply Forall2_cons_inv_r in Hl as (e & l' & He & Hl' & ->).
  apply Forall2_nil_inv_r in Hl' as ->. rewrite !last_snoc. cbn. by destruct He as (r & [_ <-] & -> & _).
Qed.
Lemma following_store key n x op :
  Following key n x -> Following key n (mkFeed (execute (store x) op) (sub x) (delivered x)).
Proof.
  intros [Ht Hk Hc Hw Hp (rows & Hf & Hr)]. constructor; cbn; try done; [by constructor|]. exists rows. split; [done|]. etrans; [exact Hr|].
  apply after_prefix, watched_later. by exists [op].
Qed.
Lemma following_drop key n x : Following key n x -> Following key n (mkFeed (store x) (drop_subscription (sub x)) (delivered x)).
Proof. intros []. by constructor. Qed.
Lemma following_stop key n x s :
  Following key n x -> sub_key s = sub_key (sub x) -> sub_cursor s = sub_cursor (sub x) -> on_the_way s = on_the_way (sub x) -> worker s = Stopped ->
  Following key n (mkFeed (store x) s (delivered x)).
Proof.
  intros [Ht Hk Hc Hw Hp (rows & Hf & Hr)] Hsk Hsc Hway Hs. constructor; cbn; unfold pending; rewrite ?Hs, ?Hsk, ?Hsc, ?Hway; try done.
  exists rows. split; [done|]. cbn. rewrite app_nil_r. etrans; [|exact Hr]. by eexists.
Qed.
(** The reader takes the first frame on its way, or nothing. *)
Lemma next_event_cases s :
  let '(s', r) := next_event s in
  sub_key s' = sub_key s /\ worker s' = worker s /\ cancelled s' = cancelled s /\
  match on_the_way s with
  | f :: rest => r = Got f /\ on_the_way s' = rest /\ sub_cursor s' = Some (frame_cursor f)
  | [] => got r = [] /\ on_the_way s' = [] /\ sub_cursor s' = sub_cursor s
  end.
Proof.
  unfold next_event, on_the_way. destruct s as [k c [|f rest] [|f' rest'] b e w]; cbn; try done. by destruct w as [?|? ?|]; [| |destruct e].
Qed.
Lemma following_read key n x :
  Following key n x -> Following key n (mkFeed (store x) (next_event (sub x)).1 (delivered x ++ got (next_event (sub x)).2)).
Proof.
  intros [Ht Hk Hc Hw Hp (rows & Hf & Hr)]. pose proof (next_event_cases (sub x)) as Hn. destruct (next_event (sub x)) as [s' r]. cbn.
  destruct Hn as (Hk' & Hw' & _ & Hn). assert (pending s' = pending (sub x)) as Hpend by (unfold pending; by rewrite Hw').
  destruct (on_the_way (sub x)) as [|f rest]; destruct Hn as (Hg & Hway & Hcur).
  - rewrite Hg, app_nil_r in *. constructor; cbn; rewrite ?Hk', ?Hcur, ?Hw', ?Hpend, ?Hway, ?app_nil_r; eauto.
  - subst r. cbn. assert (delivered x ++ f :: rest = (delivered x ++ [f]) ++ rest) as Heq by by rewrite <- app_assoc. rewrite Heq in *.
    constructor; cbn; rewrite ?Hk', ?Hcur, ?Hw', ?Hpend, ?Hway; eauto. f_equal. apply Forall2_app_inv_r in Hf as (r1 & r2 & Hf & _ & _).
    apply Forall2_app_inv_r in Hf as (r3 & r4 & _ & Hf & _). apply Forall2_cons_inv_r in Hf as (e & l & He & _ & _).
    unfold last_frame. rewrite last_snoc. cbn. by destruct He as (r & [_ <-] & -> & ->).
Qed.
Lemma following_pump key n capacity x : Following key n x -> Following key n (mkFeed (store x) (pump capacity (store x) (sub x)) (delivered x)).
Proof.
  intros Hx. unfold pump. destruct (worker (sub x)) as [c|c [|r es]|] eqn:Hwk; [| | |by destruct x].
  - destruct (cancelled (sub x)); [by apply following_stop|]. destruct (read_page _ _ _ _) as [page|e] eqn:Hp; [|by apply following_stop].
    destruct (ep_events page) as [|r es] eqn:Hes; [by destruct x|]. destruct Hx as [Ht Hk Hc Hw _ (rows & Hf & Hr)].
    rewrite Hk in Hp. rewrite Hwk in Hw. cbn in Hw. subst c. apply read_page_Ok in Hp as (Hd & _ & _); [|done]. cbn in Hd. rewrite Hes in Hd.
    constructor; cbn; try done; unfold pending; cbn.
    + apply Forall_forall. intros r' Hr'. apply list_elem_of_lookup in Hr' as [i Hi]. destruct (Forall2_lookup_r _ _ _ _ _ Hd Hi) as (e & _ & He).
      destruct He as [He <-]. by split.
    + exists rows. split; [done|]. unfold pending in Hr. rewrite Hwk in Hr. cbn in Hr. rewrite app_nil_r in Hr. destruct Hr as [rest Hrest].
      rewrite (framed_last _ _ _ _ Hf) in Hd. rewrite (after_last _ _ _ _ (watched_sorted _ _ Ht) Hrest) in Hd. rewrite Hrest.
      apply prefix_app. change (er_row r :: (er_row <$> es)) with (er_row <$> r :: es). rewrite (decoded_rows _ _ Hd). apply prefix_take.
  - destruct Hx as [Ht Hk Hc Hw Hp (rows & Hf & Hr)]. constructor; cbn; try done; [by rewrite Hwk in Hw|]. exists rows. split; [done|].
    unfold pending in *. by rewrite Hwk in Hr.
  - destruct (cancelled (sub x)); [by apply following_stop|]. destruct (frame_from_store _ _ _) as [f|e] eqn:Hfr; [|by apply following_stop].
    destruct (_ <=? _)%N; [by apply following_stop|]. destruct Hx as [Ht Hk Hc Hw Hp (rows & Hf & Hr)]. unfold pending in Hp, Hr. rewrite Hwk in Hp, Hr.
    apply Forall_cons in Hp as [Hd Hp]. rewrite Hk in Hfr. pose proof (frame_Ok _ _ _ _ _ Hd Hfr) as Hframe.
    assert (forall w, delivered x ++ on_the_way (send f w (sub x)) = (delivered x ++ on_the_way (sub x)) ++ [f]) as Hway
      by (intros w; unfold on_the_way; cbn; by rewrite !app_assoc).
    constructor; cbn [store sub delivered]; rewrite ?Hway; try done.
    + unfold last_frame. rewrite last_snoc. cbn. by destruct Hframe as (r' & [_ <-] & -> & ->).
    + exists (rows ++ [er_row r]). split; [|by rewrite <- app_assoc]. apply Forall2_app; [done|]. by repeat constructor.
Qed.

Lemma subscribed_follows slots request t t' s :
  reached t -> among (subscribe slots request) t t' (Ok s) -> Following (replay_key request) (observed request) (mkFeed t' s []).
Proof.
  intros Ht Ha. unfold subscribe in Ha. apply among_check in Ha as ([] & _ & Ha). apply among_check in Ha as (key & Hk & Ha).
  apply among_then in Ha as (t1 & page & Hr & Ha). apply among_Done in Ha as [[= ->] Hl].
  destruct (replay_Ok _ _ _ _ Ht Hr) as (Hkey & Hc & rows & Hf & Hpre & Hnil & Hl1). rewrite Hkey in Hk. injection Hk as <-.
  assert (default (resume_at (replay_key request) 0) (replay_cursor request) = resume_at (replay_key request) (observed request)) as Hobs.
  { unfold observed. destruct (replay_cursor request) as [c|]; [|done]. cbn. by apply Hc. }
  unfold subscription. rewrite Hobs. constructor; cbn; unfold on_the_way; cbn; rewrite ?app_nil_r; try done.
  - eapply later_reached; [exact Ht|]. by etrans.
  - unfold last_frame. destruct (rp_events page) as [|f fs _] eqn:Hes using rev_ind; [by rewrite Hnil|]. rewrite last_snoc. cbn.
    apply Forall2_app_inv_r in Hf as (r1 & r2 & _ & H2 & ->). apply Forall2_cons_inv_r in H2 as (e & l & He & _ & ->).
    by destruct He as (r & [_ <-] & -> & ->).
  - exists rows. split; [done|]. rewrite app_nil_r. etrans; [exact Hpre|]. by apply after_prefix, watched_later.
Qed.
Lemma following_turns key n capacity x y : rtc (feed_turn capacity) x y -> Following key n x -> Following key n y.
Proof.
  induction 1 as [|x y z Hxy _ IH]; [done|]. intros Hx. apply IH.
  destruct Hxy as [op| | |]; [by apply following_store|by apply following_pump|by apply following_read|by apply following_drop].
Qed.


(** ** Keeping up *)

(** An event that can be read and shown. *)
Definition readable (key : StreamKey) (t : Tables) (e : EventRow) : Prop :=
  (ev_sequence e <= i64_max)%N /\ exists r f, event_from_raw e = Ok r /\ frame_from_store key r t = Ok f.
Lemma read_page_total key n limit t :
  reached t -> (0 < limit <= MAX_EVENT_PAGE_SIZE)%N -> Forall (readable key t) (after_sequence n (watched t key)) -> after_sequence n (watched t key) <> [] ->
  exists page r es, read_page key (Some (resume_at key n)) limit t = Ok page /\ ep_events page = r :: es.
Proof.
  intros Ht Hlim Hall Hne. unfold read_page, list_events, validate_page_limit. cbn.
  replace (limit =? 0)%N with false by (symmetry; apply N.eqb_neq; lia). replace (MAX_EVENT_PAGE_SIZE <? limit)%N with false by (symmetry; apply N.ltb_ge; lia).
  rewrite !N.eqb_refl, bool_decide_eq_true_2 by done. cbn. rewrite shown_page by done.
  destruct (after_sequence n (watched t key)) as [|e log] eqn:Hlog; [done|].
  assert (n < ev_sequence e)%N as Hn.
  { assert (e ∈ after_sequence n (watched t key)) as [? _]%list_elem_of_filter; [|done]. rewrite Hlog. by left. }
  assert (ev_sequence e <= i64_max)%N as Hi by (apply Forall_cons in Hall as [[? _] _]; done).
  replace (i64_max <? n)%N with false by (symmetry; apply N.ltb_ge; lia).
  destruct (collect_all event_from_raw (take (S (N.to_nat limit)) (e :: log))) as [rs Hrs].
  { apply Forall_take. eapply Forall_impl; [exact Hall|]. intros x (_ & r & f & Hr & _). by exists r. }
  rewrite Hrs. cbn [mbind]. apply collect_Ok in Hrs. destruct rs as [|r rs]; [by apply Forall2_nil_inv_r in Hrs|].
  unfold mbind, result_bind. destruct (limit <? len (r :: rs))%N; cbn; [|by do 3 eexists].
  destruct (N.to_nat limit) as [|k] eqn:Hk; [lia|]. cbn. by do 3 eexists.
Qed.
Definition listening (x : Feed) : Prop := cancelled (sub x) = false /\ worker (sub x) <> Stopped.
(** A turn of the reader or the worker. *)
Inductive quiet_turn (capacity : N) (x : Feed) : Feed -> Prop :=
| quiet_pump : quiet_turn capacity x (mkFeed (store x) (pump capacity (store x) (sub x)) (delivered x))
| quiet_read : quiet_turn capacity x (mkFeed (store x) (next_event (sub x)).1 (delivered x ++ got (next_event (sub x)).2)).
Lemma quiet_turns capacity x y : rtc (quiet_turn capacity) x y -> rtc (feed_turn capacity) x y.
Proof. induction 1 as [|x y z Hxy _ IH]; [done|]. eapply rtc_l; [|exact IH]. by destruct Hxy; constructor. Qed.
(** *** Schedules of turns *)

Inductive Turn := WorkerTurn | ReaderTurn.
#[export] Instance Turn_eq_dec : EqDecision Turn.
Proof. solve_decision. Defined.
Definition take_turn (capacity : N) (x : Feed) (u : Turn) : Feed :=
  match u with
  | WorkerTurn => mkFeed (store x) (pump capacity (store x) (sub x)) (delivered x)
  | ReaderTurn => mkFeed (store x) (next_event (sub x)).1 (delivered x ++ got (next_event (sub x)).2)
  end.
Definition play (capacity : N) (ts : list Turn) (x : Feed) : Feed := foldl (take_turn capacity) x ts.
Definition count_turns (u : Turn) (ts : list Turn) : nat := length (filter (fun v => v = u) ts).
(** Whenever the worker has an event to send there is room in the channel. *)
Fixpoint roomy (capacity : N) (ts : list Turn) (x : Feed) : Prop :=
  match ts with
  | [] => True
  | u :: ts => (u = WorkerTurn -> pending (sub x) <> [] -> (len (receiver (sub x)) < capacity)%N) /\
      roomy capacity ts (take_turn capacity x u)
  end.
Lemma count_turns_cons u v ts : count_turns u (v :: ts) = (if decide (v = u) then 1 else 0) + count_turns u ts.
Proof. unfold count_turns. rewrite filter_cons. by destruct (decide (v = u)). Qed.
Lemma take_turn_quiet capacity x u : quiet_turn capacity x (take_turn capacity x u).
Proof. destruct u; constructor. Qed.
Lemma take_turn_store capacity x u : store (take_turn capacity x u) = store x.
Proof. by destruct u. Qed.

Section progress.
Context (key : StreamKey) (n capacity : N) (Hcap : (0 < capacity)%N).
Notation log x := (after_sequence n (watched (store x) key)).
(** One more is delivered. *)
Definition advances (x : Feed) : Prop :=
  exists y, rtc (quiet_turn capacity) x y /\ store y = store x /\ listening y /\ length (delivered y) = S (length (delivered x)).
Lemma advances_pump x : advances (mkFeed (store x) (pump capacity (store x) (sub x)) (delivered x)) -> advances x.
Proof. intros (y & Hy & Hs & Hl & Hd). exists y. split; [|done]. eapply rtc_l; [apply quiet_pump|exact Hy]. Qed.
Lemma advances_read x : listening x -> on_the_way (sub x) <> [] -> advances x.
Proof.
  intros [Hc Hw] Hway. eexists. split; [apply rtc_once, quiet_read|]. pose proof (next_event_cases (sub x)) as Hn.
  destruct (next_event (sub x)) as [s' r]. destruct Hn as (_ & Hw' & Hc' & Hn). destruct (on_the_way (sub x)); [done|]. destruct Hn as (-> & _).
  cbn. unfold listening. cbn. rewrite Hw', Hc'. split_and!; [done|done|done|]. rewrite length_app. cbn. lia.
Qed.
Lemma advances_send x c r es :
  Following key n x -> cancelled (sub x) = false -> worker (sub x) = Sending c (r :: es) -> on_the_way (sub x) = [] -> Forall (readable key (store x)) (log x) -> advances x.
Proof.
  intros Hx Hc Hw Hway Hall. destruct (app_eq_nil _ _ Hway) as [Hrep Hrec]. destruct Hx as [Ht Hk _ _ Hp (rows & _ & Hr)].
  unfold pending in Hp, Hr. rewrite Hw in Hp, Hr. apply Forall_cons in Hp as [[Hd _] _].
  assert (readable key (store x) (er_row r)) as (_ & r' & f & Hd' & Hf).
  { rewrite Forall_forall in Hall. apply Hall. destruct Hr as [rest ->]. cbn. set_solver. }
  rewrite Hd in Hd'. injection Hd' as <-. apply advances_pump. unfold pump. rewrite Hw, Hc, Hk, Hf, Hrec.
  replace (capacity <=? len [])%N with false by (symmetry; apply N.leb_gt; exact Hcap). apply advances_read; [split; [exact Hc|done]|]. unfold on_the_way. cbn. rewrite Hrep, Hrec. done.
Qed.
Lemma advances_poll x c :
  Following key n x -> cancelled (sub x) = false -> worker (sub x) = Polling c -> on_the_way (sub x) = [] -> Forall (readable key (store x)) (log x) ->
  (length (delivered x) < length (log x))%nat -> advances x.
Proof.
  intros Hx Hc Hw Hway Hall Hlt. assert (Following key n (mkFeed (store x) (pump capacity (store x) (sub x)) (delivered x))) as Hy by by apply following_pump.
  destruct Hx as [Ht Hk _ Hat _ (rows & Hf & Hr)]. rewrite Hw in Hat. cbn in Hat. rewrite Hway, app_nil_r in Hat, Hf. subst c.
  unfold pending in Hr. rewrite Hw in Hr. cbn in Hr. rewrite app_nil_r in Hr. destruct Hr as [rest Hr].
  assert (after_sequence (last_frame n (delivered x)) (watched (store x) key) = rest) as Hrest
    by (rewrite (framed_last _ _ _ _ Hf); apply (after_last _ _ rows); [by apply watched_sorted|done]).
  destruct (read_page_total key (last_frame n (delivered x)) PUMP_PAGE_SIZE (store x)) as (page & r & es & Hp & Hes).
  - done.
  - done.
  - rewrite Hrest. rewrite Hr in Hall. by apply Forall_app in Hall as [_ ?].
  - rewrite Hrest. intros ->. rewrite app_nil_r in Hr. rewrite Hr, (Forall2_length _ _ _ Hf) in Hlt. lia.
  - apply advances_pump. assert (pump capacity (store x) (sub x) = set_worker (Sending (resume_at key (last_frame n (delivered x))) (r :: es)) (sub x)) as Heq
      by (unfold pump; by rewrite Hw, Hc, Hk, Hp, Hes).
    rewrite Heq in *. by eapply advances_send.
Qed.
Lemma listening_advances x :
  Following key n x -> listening x -> Forall (readable key (store x)) (log x) -> (length (delivered x) < length (log x))%nat -> advances x.
Proof.
  intros Hx Hl Hall Hlt. destruct (decide (on_the_way (sub x) = [])) as [Hway|Hway]; [|by apply advances_read]. destruct Hl as [Hc Hs].
  destruct (worker (sub x)) as [c|c [|r es]|] eqn:Hw; [by eapply advances_poll| |by eapply advances_send|done].
  apply advances_pump. assert (Following key n (mkFeed (store x) (pump capacity (store x) (sub x)) (delivered x))) as Hy by by apply following_pump.
  assert (pump capacity (store x) (sub x) = set_worker (Polling c) (sub x)) as Heq by (unfold pump; by rewrite Hw). rewrite Heq in *. by eapply advances_poll.
Qed.
Lemma catches_up x :
  Following key n x -> listening x -> Forall (readable key (store x)) (log x) ->
  exists y, rtc (quiet_turn capacity) x y /\ store y = store x /\ listening y /\ Forall2 (framed key) (log x) (delivered y).
Proof.
  remember (length (log x) - length (delivered x)) as m eqn:Hm. revert x Hm. induction m as [|m IH]; intros x Hm Hx Hl Hall.
  - exists x. split_and!; try done. destruct Hx as [_ _ _ _ _ (rows & Hf & [rest Hr])]. apply Forall2_app_inv_r in Hf as (r1 & r2 & Hf & _ & ->).
    rewrite Hr in *. rewrite !length_app, (Forall2_length _ _ _ Hf) in Hm. destruct (r2); [|cbn in Hm; lia]. destruct (er_row <$> _); [|cbn in Hm; lia].
    destruct rest; [|cbn in Hm; lia]. by rewrite !app_nil_r.
  - destruct (listening_advances x Hx Hl Hall) as (y & Hxy & Hs & Hly & Hd); [lia|].
    destruct (IH y) as (z & Hyz & Hsz & Hlz & Hfz); [rewrite Hs, Hd; lia|by eapply following_turns; [apply quiet_turns|]|done|by rewrite Hs|].
    exists z. rewrite Hs in *. split_and!; [by etrans|done..].
Qed.

(** *** Every schedule with room *)

Definition sent (x : Feed) : list EventFrame := delivered x ++ on_the_way (sub x).
(** The turns the worker needs at most until everything is sent. *)
Definition to_send (x : Feed) : nat :=
  3 * (length (log x) - length (sent x)) +
  match worker (sub x) with Sending _ (_ :: _) => 0 | Polling _ => 1 | Sending _ [] => 2 | Stopped => 0 end.
Lemma take_turn_follows x u : Following key n x -> Following key n (take_turn capacity x u).
Proof. intros Hx. eapply following_turns; [|exact Hx]. apply quiet_turns, rtc_once, take_turn_quiet. Qed.
Lemma sent_bound x : Following key n x -> (length (sent x) + length (pending (sub x)) <= length (log x))%nat.
Proof.
  intros [_ _ _ _ _ (rows & Hf & [rest ->])]. unfold sent. rewrite <- (Forall2_length _ _ _ Hf), !length_app, length_fmap. lia.
Qed.
Lemma read_sent x : sent (take_turn capacity x ReaderTurn) = sent x.
Proof.
  unfold sent. cbn. pose proof (next_event_cases (sub x)) as Hn. destruct (next_event (sub x)) as [s' r]. cbn.
  destruct Hn as (_ & _ & _ & Hn). destruct (on_the_way (sub x)); destruct Hn as (Hg & -> & _); [by rewrite Hg, app_nil_r|].
  subst r. cbn. by rewrite <- app_assoc.
Qed.
Lemma pump_sent x : sent x `prefix_of` sent (take_turn capacity x WorkerTurn).
Proof.
  unfold sent. cbn. apply prefix_app. unfold pump. destruct (worker (sub x)) as [c|c [|r es]|]; [|done| |done].
  - destruct (cancelled _); [done|]. destruct (read_page _ _ _ _) as [page|]; [|done]. by destruct (ep_events page).
  - destruct (cancelled _); [done|]. destruct (frame_from_store _ _ _) as [f|]; [|done]. destruct (_ <=? _)%N; [done|].
    unfold on_the_way. cbn. rewrite app_assoc. by apply prefix_app_r.
Qed.
(** A worker that polls finds an event that has not been sent. *)
Lemma poll_turn x c :
  Following key n x -> cancelled (sub x) = false -> worker (sub x) = Polling c -> Forall (readable key (store x)) (log x) ->
  (length (sent x) < length (log x))%nat -> exists r es, pump capacity (store x) (sub x) = set_worker (Sending c (r :: es)) (sub x).
Proof.
  intros [Ht Hk _ Hat _ (rows & Hf & Hr)] Hc Hw Hall Hlt. rewrite Hw in Hat. cbn in Hat. subst c. unfold sent in Hlt.
  unfold pending in Hr. rewrite Hw in Hr. cbn in Hr. rewrite app_nil_r in Hr. destruct Hr as [rest Hr].
  set (m := last_frame n (delivered x ++ on_the_way (sub x))) in *.
  assert (after_sequence m (watched (store x) key) = rest) as Hrest
    by (unfold m; rewrite (framed_last _ _ _ _ Hf); apply (after_last _ _ rows); [by apply watched_sorted|done]).
  destruct (read_page_total key m PUMP_PAGE_SIZE (store x)) as (page & r & es & Hp & Hes).
  - done.
  - done.
  - rewrite Hrest. rewrite Hr in Hall. by apply Forall_app in Hall as [_ ?].
  - rewrite Hrest. intros ->. rewrite app_nil_r in Hr. rewrite Hr, (Forall2_length _ _ _ Hf) in Hlt. lia.
  - exists r, es. unfold pump. by rewrite Hw, Hc, Hk, Hp, Hes.
Qed.
(** A worker that holds an event and has room sends it. *)
Lemma send_turn x c r es :
  Following key n x -> cancelled (sub x) = false -> worker (sub x) = Sending c (r :: es) -> Forall (readable key (store x)) (log x) ->
  (len (receiver (sub x)) < capacity)%N -> exists f c', pump capacity (store x) (sub x) = send f (Sending c' es) (sub x).
Proof.
  intros [Ht Hk _ _ Hp (rows & _ & Hr)] Hc Hw Hall Hroom. unfold pending in Hp, Hr. rewrite Hw in Hp, Hr. apply Forall_cons in Hp as [[Hd _] _].
  assert (readable key (store x) (er_row r)) as (_ & r' & f & Hd' & Hf).
  { rewrite Forall_forall in Hall. apply Hall. destruct Hr as [rest ->]. cbn. set_solver. }
  rewrite Hd in Hd'. injection Hd' as <-. exists f, (frame_cursor f). unfold pump. rewrite Hw, Hc, Hk, Hf.
  by replace (capacity <=? len (receiver (sub x)))%N with false by (symmetry; by apply N.leb_gt).
Qed.
Lemma worker_turn x :
  Following key n x -> listening x -> Forall (readable key (store x)) (log x) -> (length (sent x) < length (log x))%nat ->
  (pending (sub x) <> [] -> (len (receiver (sub x)) < capacity)%N) ->
  listening (take_turn capacity x WorkerTurn) /\ (to_send (take_turn capacity x WorkerTurn) < to_send x)%nat.
Proof.
  intros Hx [Hc Hs] Hall Hlt Hroom. unfold listening, to_send, sent, pending in *. cbn [take_turn store sub delivered].
  destruct (worker (sub x)) as [c|c [|r es]|] eqn:Hw; [| | |done].
  - destruct (poll_turn x c Hx Hc Hw Hall Hlt) as (r & es & ->). cbn. split; [done|]. unfold on_the_way. cbn. lia.
  - assert (pump capacity (store x) (sub x) = set_worker (Polling c) (sub x)) as -> by (unfold pump; by rewrite Hw).
    cbn. split; [done|]. unfold on_the_way. cbn. lia.
  - destruct (send_turn x c r es Hx Hc Hw Hall) as (f & c' & ->); [by apply Hroom|]. cbn. split; [done|].
    unfold on_the_way in *. cbn. rewrite !length_app in *. cbn. destruct es; lia.
Qed.
Lemma reader_turn x : listening x -> listening (take_turn capacity x ReaderTurn) /\ to_send (take_turn capacity x ReaderTurn) = to_send x.
Proof.
  intros [Hc Hw]. unfold to_send. rewrite read_sent. unfold listening. cbn. pose proof (next_event_cases (sub x)) as Hn.
  destruct (next_event (sub x)) as [s' r]. cbn. by destruct Hn as (_ & -> & -> & _).
Qed.
(** Enough turns of the worker, with room, and everything has been sent. *)
Lemma all_sent ts : forall x,
  Following key n x -> listening x -> Forall (readable key (store x)) (log x) -> roomy capacity ts x ->
  (to_send x <= count_turns WorkerTurn ts)%nat -> length (sent (play capacity ts x)) = length (log x).
Proof.
  assert (forall ts x, Following key n x -> (length (sent x) = length (log x))%nat -> length (sent (play capacity ts x)) = length (log x)) as Hkeep.
  { clear ts. intros ts. induction ts as [|u ts IH]; intros x Hx Hl; [done|]. cbn [play foldl]. pose proof (take_turn_follows x u Hx) as Hy.
    pose proof (sent_bound _ Hy) as Hb. rewrite take_turn_store in Hb.
    assert (length (sent x) <= length (sent (take_turn capacity x u)))%nat as Hge
      by (destruct u; [apply prefix_length, pump_sent|by rewrite read_sent]).
    rewrite <- (take_turn_store capacity x u). apply IH; [done|]. rewrite take_turn_store. lia. }
  induction ts as [|u ts IH]; intros x Hx Hl Hall Hroom Hn.
  - pose proof (sent_bound x Hx) as Hb. unfold to_send, count_turns in Hn. cbn in Hn |- *. lia.
  - destruct (decide (length (sent x) = length (log x))) as [Heq|Hne]; [by apply Hkeep|]. cbn [play foldl].
    rewrite <- (take_turn_store capacity x u). destruct Hroom as [Hr Hroom]. pose proof (sent_bound x Hx) as Hb.
    assert (listening (take_turn capacity x u) /\ (to_send (take_turn capacity x u) <= count_turns WorkerTurn ts)%nat) as [Hl' Hn'].
    { rewrite count_turns_cons in Hn. destruct u; [rewrite decide_True in Hn by done|rewrite decide_False in Hn by done].
      - destruct (worker_turn x Hx Hl Hall) as [? ?]; [lia|by apply Hr|]. split; [done|]. lia.
      - destruct (reader_turn x Hl) as [? ->]. split; [done|]. lia. }
    apply IH; [by apply take_turn_follows|done|by rewrite take_turn_store|done|done].
Qed.
(** Once everything is sent the reader only has to read. *)
Lemma all_read ts : forall x,
  Following key n x -> length (sent x) = length (log x) -> (length (log x) - length (delivered x) <= count_turns ReaderTurn ts)%nat ->
  length (delivered (play capacity ts x)) = length (log x).
Proof.
  induction ts as [|u ts IH]; intros x Hx Hs Hn.
  - unfold sent in Hs. rewrite length_app in Hs. unfold count_turns in Hn. cbn in Hn |- *. lia.
  - cbn [play foldl]. rewrite <- (take_turn_store capacity x u). pose proof (take_turn_follows x u Hx) as Hy.
    pose proof (sent_bound _ Hy) as Hb. rewrite take_turn_store in Hb. apply IH; [done| |]; rewrite take_turn_store.
    + destruct u; [pose proof (prefix_length _ _ (pump_sent x)); lia|by rewrite read_sent].
    + rewrite count_turns_cons in Hn. destruct u; [rewrite decide_False in Hn by done; cbn; lia|rewrite decide_True in Hn by done]. cbn.
      pose proof (next_event_cases (sub x)) as Hnext. destruct (next_event (sub x)) as [s' r]. cbn.
      destruct Hnext as (_ & _ & _ & Hnext). unfold sent in Hs. rewrite length_app in Hs. destruct (on_the_way (sub x)) as [|f rest].
      * cbn in Hs. rewrite length_app. lia.
      * destruct Hnext as (-> & _). rewrite length_app. cbn. lia.
Qed.
Lemma all_delivered x : Following key n x -> length (delivered x) = length (log x) -> Forall2 (framed key) (log x) (delivered x).
Proof.
  intros [_ _ _ _ _ (rows & Hf & [rest Hr])] Hm. apply Forall2_app_inv_r in Hf as (r1 & r2 & Hf & _ & ->).
  rewrite Hr in *. rewrite !length_app, (Forall2_length _ _ _ Hf) in Hm. destruct (r2); [|cbn in Hm; lia]. destruct (er_row <$> _); [|cbn in Hm; lia].
  destruct rest; [|cbn in Hm; lia]. by rewrite !app_nil_r.
Qed.
Lemma play_follows ts : forall x, Following key n x -> Following key n (play capacity ts x) /\ store (play capacity ts x) = store x.
Proof.
  induction ts as [|u ts IH]; intros x Hx; [done|]. cbn [play foldl]. rewrite <- (take_turn_store capacity x u). by apply IH, take_turn_follows.
Qed.
Lemma to_send_bound x : (to_send x <= 3 * length (log x) + 2)%nat.
Proof. unfold to_send. destruct (worker (sub x)) as [|? []|]; lia. Qed.
Lemma schedule_delivers ts1 ts2 x :
  Following key n x -> listening x -> Forall (readable key (store x)) (log x) -> roomy capacity ts1 x ->
  (3 * length (log x) + 2 <= count_turns WorkerTurn ts1)%nat -> (length (log x) <= count_turns ReaderTurn ts2)%nat ->
  Forall2 (framed key) (log x) (delivered (play capacity (ts1 ++ ts2) x)).
Proof.
  intros Hx Hl Hall Hroom H1 H2. unfold play. rewrite foldl_app. fold (play capacity ts1 x).
  pose proof (to_send_bound x). destruct (play_follows ts1 x Hx) as [Hy Hs].
  assert (length (sent (play capacity ts1 x)) = length (log x)) as Hsent by (apply all_sent; try done; lia).
  fold (play capacity ts2 (play capacity ts1 x)). destruct (play_follows ts2 _ Hy) as [Hz Hs2]. rewrite Hs in Hs2. rewrite <- Hs2.
  apply all_delivered; [done|]. rewrite Hs2, <- Hs. apply all_read; [done|by rewrite Hs|rewrite Hs; lia].
Qed.
End progress.

(** C17: A subscriber whose channel has room sees everything.  When the store
    stands still, the worker has not stopped and the events of the stream
    after the cursor can be read, then every schedule of turns of the worker
    and the reader delivers all of them, in order, provided that the channel
    has room whenever the worker sends (otherwise the worker ends the
    subscription as that of a slow consumer) and the worker has at least
    three turns for each event and two more before the reader has one for
    each; and however small the channel, there are turns of the two that
    deliver everything and leave the worker running. *)
Theorem reader_catches_up slots capacity request t t' s x :
  reached t -> among (subscribe slots request) t t' (Ok s) -> rtc (feed_turn capacity) (mkFeed t' s []) x -> (0 < capacity)%N -> listening x ->
  let key := replay_key request in
  let log := after_sequence (observed request) (watched (store x) key) in
  Forall (readable key (store x)) log ->
  (forall ts1 ts2, roomy capacity ts1 x -> (3 * length log + 2 <= count_turns WorkerTurn ts1)%nat ->
     (length log <= count_turns ReaderTurn ts2)%nat -> Forall2 (framed key) log (delivered (play capacity (ts1 ++ ts2) x))) /\
  exists y, rtc (quiet_turn capacity) x y /\ store y = store x /\ listening y /\ Forall2 (framed key) log (delivered y).
Proof.
  intros Ht Ha Hx Hcap Hl key log Hall.
  assert (Following key (observed request) x) as Hfol by (eapply following_turns; [exact Hx|]; by eapply subscribed_follows).
  split; [|by apply catches_up]. intros ts1 ts2 Hroom H1 H2. by apply schedule_delivers.
Qed.

(** ** The end of a stream *)

Lemma reached_placed t : reached t -> Forall (placed (job_columns_of t)) (cp_events t).
Proof.
  induction 1 as [|t op Ht IH]; [constructor|]. destruct (execute_log t op) as [Hcols (new & -> & Hnew)]. apply Forall_app. split; [|done].
  eapply Forall_impl; [exact IH|]. intros e [Hw Hk]. split; [|done]. apply fmap_Some in Hw as (c & Hc & ->). by rewrite (lookup_weaken _ _ _ _ Hc Hcols).
Qed.
(** A job's stream is shown whole to its workspace. *)
Lemma job_stream_whole t ws id row :
  reached t -> cp_jobs t !! id = Some row -> j_workspace_id (job_columns row) = ws ->
  watched t (mkStreamKey ws JobStream id) = stream t JobStream id.
Proof.
  intros Ht Hrow Hws. unfold watched. cbn. apply filter_every. apply Forall_forall. intros e [[Hk Hi] He]%list_elem_of_filter.
  pose proof (reached_placed _ Ht) as Hall. rewrite Forall_forall in Hall. destruct (Hall _ He) as [Hw Hkind]. rewrite Hk in Hkind.
  unfold job_columns_of in Hw. rewrite lookup_fmap, <- Hkind, Hi, Hrow in Hw. injection Hw as Hw. congruence.
Qed.
Lemma job_path_end h s s' : job_path h s -> s' ∈ h -> job_is_terminal s' = true -> s = s'.
Proof.
  induction 1 as [|h s s1 Hp IH Ha]; intros Hin Ht; [by apply list_elem_of_singleton in Hin|].
  apply elem_of_app in Hin as [Hin|Hin%list_elem_of_singleton]; [|done]. rewrite (IH Hin Ht) in Ha. by destruct s', s1.
Qed.
Lemma run_path_end h s s' : run_path h s -> s' ∈ h -> run_is_terminal s' = true -> s = s'.
Proof.
  induction 1 as [|h s s1 Hp IH Ha]; intros Hin Ht; [by apply list_elem_of_singleton in Hin|].
  apply elem_of_app in Hin as [Hin|Hin%list_elem_of_singleton]; [|done]. rewrite (IH Hin Ht) in Ha. by destruct s', s1.
Qed.
Lemma job_event_final t id row e expected :
  reached t -> cp_jobs t !! id = Some row -> e ∈ stream t JobStream id -> expected_job_state (ev_event_type e) = Some expected -> j_state row = expected.
Proof.
  intros Hok%reached_ok Hrow He Hx. destruct (job_history _ _ _ (life_jobs _ Hok _ _ (life_job_lookup _ _ _ Hrow))) as (h & Hh & Heq).
  rewrite <- job_events_life in Heq. assert (ev_event_type e ∈ job_events t id) as Hin by by apply list_elem_of_fmap_2.
  rewrite Heq in Hin. apply list_elem_of_fmap in Hin as (s & Hs & Hin). eapply (job_path_end _ _ _ Hh) in Hin; destruct s; rewrite Hs in Hx; by simplify_eq/=.
Qed.
Lemma run_event_final t id row e expected :
  reached t -> cp_runs t !! id = Some row -> e ∈ stream t RunStream id -> expected_run_state (ev_event_type e) = Some expected -> r_state row = expected.
Proof.
  intros Hok%reached_ok Hrow He Hx. destruct (run_history _ _ _ (life_runs _ Hok _ _ (life_run_lookup _ _ _ Hrow))) as (h & Hh & Heq).
  rewrite <- run_moves_life in Heq. assert (ev_event_type e ∈ run_moves t id) as Hin.
  { unfold run_moves. apply list_elem_of_filter. split; [by destruct (ev_event_type e)|]. by apply list_elem_of_fmap_2. }
  rewrite Heq in Hin. apply list_elem_of_fmap in Hin as (s & Hs & Hin). eapply (run_path_end _ _ _ Hh) in Hin; destruct s; rewrite Hs in Hx; by simplify_eq/=.
Qed.
Lemma get_job_row t id job : get_job t id = Ok job -> cp_jobs t !! id = Some (jr_row job).
Proof.
  unfold get_job, job_from_transaction. intros Hg. apply bind_Ok in Hg as ([row plan] & Hr%job_raw_Ok & Hg). unfold job_from_raw in Hg. rewrite Hr. f_equal.
  cbv zeta in Hg. inv_ok Hg. by injection Hg as <-.
Qed.
Lemma get_run_row t id run : get_run t id = Ok run -> cp_runs t !! id = Some (rr_row run).
Proof.
  unfold get_run, run_from_transaction. intros Hg. apply bind_Ok in Hg as (row & Hr%run_raw_Ok & Hg). unfold run_from_raw in Hg. rewrite Hr. f_equal.
  cbv zeta in Hg. inv_ok Hg. by injection Hg as <-.
Qed.
Lemma terminal_ok t e : reached t -> e ∈ cp_events t -> terminal_agrees t e <> Err TerminalStateMismatch.
Proof.
  intros Ht He. pose proof (reached_placed _ Ht) as Hall. rewrite Forall_forall in Hall. destruct (Hall _ He) as [_ Hk]. unfold terminal_agrees.
  assert (e ∈ stream t (ev_stream_kind e) (ev_stream_id e)) as Hs by by apply list_elem_of_filter.
  destruct (ev_stream_kind e).
  - destruct (expected_job_state _) as [x|] eqn:Hx; [|done]. destruct (get_job t (ev_job_id e)) as [job|] eqn:Hj; [|done]. cbn. apply get_job_row in Hj.
    rewrite <- Hk in Hj. rewrite bool_decide_eq_true_2; [done|]. by eapply job_event_final.
  - destruct (expected_run_state _) as [x|] eqn:Hx; [|done]. rewrite Hk. cbn. destruct (get_run t _) as [run|] eqn:Hj; [|done]. cbn. apply get_run_row in Hj.
    rewrite bool_decide_eq_true_2; [done|]. by eapply run_event_final.
Qed.

(** The store's screen refuses whatever the stream's does. *)
Lemma names_more names names' text : (forall x, x ∈ names' -> x ∈ names) -> names_secret names text = false -> names_secret names' text = false.
Proof.
  intros Hsub Hn. unfold names_secret in *. apply not_true_iff_false. intros (x & Hx & Hc)%existsb_exists. apply not_true_iff_false in Hn. apply Hn.
  apply existsb_exists. exists x. split; [|done]. by apply list_elem_of_In, Hsub, list_elem_of_In.
Qed.
Lemma screen_weaker b v : validate_safe_json b v = Ok tt -> ensure_no_secret_fields v = Ok tt.
Proof.
  induction v as [|c|m|text|items IH|entries IH] using json_nested_ind; cbn; try done.
  - unfold contains_secret_marker, ensure_safe_string_value. change STORAGE_SECRET_MARKERS with SECRET_VALUE_MARKERS. by destruct (names_secret _ _).
  - induction IH as [|x items Hx _ IHi]; [done|]. intros Hv. apply bind_Ok in Hv as ([] & Hv & Hrest). rewrite (Hx Hv). by apply IHi.
  - induction IH as [|[k x] entries Hx _ IHi]; [done|]. intros Hv. destruct (names_secret FORBIDDEN_FIELDS k) eqn:Hk; [done|].
    rewrite (names_more FORBIDDEN_FIELDS SECRET_FIELD_NAMES k); [|intros y; unfold SECRET_FIELD_NAMES, FORBIDDEN_FIELDS; set_solver|done].
    destruct (b && _); [done|]. apply bind_Ok in Hv as ([] & Hv & Hrest). cbn in Hx. rewrite (Hx Hv). by apply IHi.
Qed.

(** The checks a stream makes of its events never fail on what the control plane
    has written: an event that ends a job or run agrees with the state the job
    or run is in when the event is shown, however much later that is, and a
    payload that the store reads passes the screen of the stream. *)
Theorem shown_events_agree key t t' r :
  reached t -> later t t' -> er_row r ∈ cp_events t -> event_from_raw (er_row r) = Ok r ->
  frame_from_store key r t' <> Err TerminalStateMismatch /\ ensure_safe_event_metadata (er_payload r) = Ok tt.
Proof.
  intros Ht Hl He Hd. assert (ensure_safe_event_metadata (er_payload r) = Ok tt) as Hsafe.
  { unfold event_from_raw in Hd. inv_ok Hd. injection Hd as <-. cbn. by eapply screen_weaker; destruct x0. }
  split; [|done]. unfold frame_from_store. cbv zeta. destruct (_ || _); [done|]. destruct (json_print _); [|done]. cbn. destruct (_ <? _)%N; [done|].
  rewrite Hsafe. pose proof (terminal_ok t' (er_row r) (later_reached _ _ Ht Hl)) as Hok.
  destruct (terminal_agrees t' (er_row r)) as [[]|e']; [done|]. cbn. intros [= ->]. apply Hok; [|done].
  destruct (events_later _ _ Hl) as [k ->]. set_solver.
Qed.

(** ** A worker that does not wait *)

Definition pumped (capacity : N) (k : nat) (x : Feed) : Feed := mkFeed (store x) (Nat.iter k (pump capacity (store x)) (sub x)) (delivered x).
Definition overrun (capacity : N) (x : Feed) : Prop :=
  exists k, worker (sub (pumped capacity k x)) = Stopped /\ worker_error (sub (pumped capacity k x)) = Some SlowConsumer.
Lemma overrun_pump capacity x s : pump capacity (store x) (sub x) = s -> overrun capacity (mkFeed (store x) s (delivered x)) -> overrun capacity x.
Proof. intros <- [k Hk]. exists (S k). unfold pumped in *. by rewrite Nat.iter_succ_r. Qed.
Section overrun.
Context (key : StreamKey) (n capacity : N).
Notation log x := (after_sequence n (watched (store x) key)).
Lemma sending_overruns free x c r es :
  (forall y, store y = store x -> delivered y = delivered x -> sub_replay (sub y) = sub_replay (sub x) ->
     N.to_nat capacity - length (receiver (sub y)) < free -> length (receiver (sub y)) <= N.to_nat capacity ->
     Following key n y -> listening y -> overrun capacity y) ->
  Following key n x -> cancelled (sub x) = false -> worker (sub x) = Sending c (r :: es) -> Forall (readable key (store x)) (log x) ->
  N.to_nat capacity - length (receiver (sub x)) = free -> length (receiver (sub x)) <= N.to_nat capacity -> overrun capacity x.
Proof.
  intros IH Hx Hc Hw Hall Hfree Hle. pose proof (following_pump key n capacity x Hx) as Hy. destruct Hx as [_ Hk _ _ Hp (rows & _ & Hr)].
  unfold pending in Hp, Hr. rewrite Hw in Hp, Hr. apply Forall_cons in Hp as [[Hd _] _].
  assert (readable key (store x) (er_row r)) as (_ & r' & f & Hd' & Hf).
  { rewrite Forall_forall in Hall. apply Hall. destruct Hr as [rest ->]. cbn. set_solver. }
  rewrite Hd in Hd'. injection Hd' as <-. eapply overrun_pump; [reflexivity|]. revert Hy. unfold pump. rewrite Hw, Hc, Hk, Hf.
  destruct (capacity <=? len (receiver (sub x)))%N eqn:Hfull; intros Hy; [by exists O|]. apply N.leb_gt in Hfull. unfold len in Hfull.
  apply IH; cbn; try done; rewrite length_app; cbn; lia.
Qed.
Lemma polling_overruns x c :
  (forall y c' r es, store y = store x -> delivered y = delivered x -> receiver (sub y) = receiver (sub x) -> sub_replay (sub y) = sub_replay (sub x) ->
     Following key n y -> cancelled (sub y) = false -> worker (sub y) = Sending c' (r :: es) -> overrun capacity y) ->
  Following key n x -> cancelled (sub x) = false -> worker (sub x) = Polling c -> Forall (readable key (store x)) (log x) ->
  length (delivered x) + length (on_the_way (sub x)) < length (log x) -> overrun capacity x.
Proof.
  intros Hsend Hx Hc Hw Hall Hlt. pose proof (following_pump key n capacity x Hx) as Hy. destruct Hx as [Ht Hk _ Hat _ (rows & Hf & Hr)].
  rewrite Hw in Hat. cbn in Hat. subst c. unfold pending in Hr. rewrite Hw in Hr. cbn in Hr. rewrite app_nil_r in Hr. destruct Hr as [rest Hr].
  set (m := last_frame n (delivered x ++ on_the_way (sub x))) in *.
  assert (after_sequence m (watched (store x) key) = rest) as Hrest
    by (unfold m; rewrite (framed_last _ _ _ _ Hf); apply (after_last _ _ rows); [by apply watched_sorted|done]).
  destruct (read_page_total key m PUMP_PAGE_SIZE (store x)) as (page & r & es & Hp & Hes); [done|done| | |].
  - rewrite Hrest. rewrite Hr in Hall. by apply Forall_app in Hall as [_ ?].
  - rewrite Hrest. intros ->. rewrite app_nil_r in Hr. rewrite Hr, (Forall2_length _ _ _ Hf), length_app in Hlt. lia.
  - assert (pump capacity (store x) (sub x) = set_worker (Sending (resume_at key m) (r :: es)) (sub x)) as Heq
      by (unfold pump; by rewrite Hw, Hc, Hk, Hp, Hes).
    eapply overrun_pump; [exact Heq|]. rewrite Heq in Hy. by eapply Hsend.
Qed.
Lemma overruns free x :
  N.to_nat capacity - length (receiver (sub x)) = free -> length (receiver (sub x)) <= N.to_nat capacity ->
  Following key n x -> listening x -> Forall (readable key (store x)) (log x) ->
  length (delivered x) + length (sub_replay (sub x)) + N.to_nat capacity < length (log x) -> overrun capacity x.
Proof.
  revert x. induction free as [free IH] using (well_founded_induction lt_wf); intros x Hfree Hle Hx [Hc Hs] Hall Hlt.
  assert (forall y c r es, store y = store x -> delivered y = delivered x -> receiver (sub y) = receiver (sub x) -> sub_replay (sub y) = sub_replay (sub x) ->
     Following key n y -> cancelled (sub y) = false -> worker (sub y) = Sending c (r :: es) -> overrun capacity y) as Hsend.
  { intros y c r es Hst Hdel Hrec Hrep Hy Hcy Hwy. eapply (sending_overruns free); try done; [|by rewrite Hst|by rewrite Hrec|by rewrite Hrec].
    intros z Hzs Hzd Hzr Hzf Hzl Hz Hlz. eapply (IH _ Hzf); try done; [by rewrite Hzs, Hst|]. rewrite Hzs, Hst, Hzd, Hdel, Hzr, Hrep. done. }
  assert (length (delivered x) + length (on_the_way (sub x)) < length (log x)) as Hroom by (unfold on_the_way; rewrite length_app; lia).
  destruct (worker (sub x)) as [c|c [|r es]|] eqn:Hw; [by eapply polling_overruns| |by eapply Hsend|done].
  assert (pump capacity (store x) (sub x) = set_worker (Polling c) (sub x)) as Heq by (unfold pump; by rewrite Hw).
  pose proof (following_pump key n capacity x Hx) as Hy. rewrite Heq in Hy. eapply overrun_pump; [exact Heq|]. by eapply polling_overruns.
Qed.
End overrun.

(** A subscriber far behind is cut off without having been slow: when more events
    are left after the first page than the channel holds, turns of the worker
    alone, which sends without ever waiting for the reader, fill the channel and
    end the subscription as that of a slow consumer. *)
Theorem worker_outruns_reader slots capacity request t t' s :
  reached t -> among (subscribe slots request) t t' (Ok s) ->
  let key := replay_key request in
  let log := after_sequence (observed request) (watched t' key) in
  Forall (readable key t') log -> length (sub_replay s) + N.to_nat capacity < length log ->
  exists k, let s' := Nat.iter k (pump capacity t') s in worker s' = Stopped /\ worker_error s' = Some SlowConsumer.
Proof.
  intros Ht Ha key log Hall Hlt. pose proof (subscribed_follows _ _ _ _ _ Ht Ha) as Hx. assert (receiver s = [] /\ listening (mkFeed t' s [])) as [Hrec Hl].
  { unfold subscribe in Ha. apply among_check in Ha as ([] & _ & Ha). apply among_check in Ha as (k & _ & Ha). apply among_then in Ha as (t1 & page & _ & Ha).
    by apply among_Done in Ha as [[= ->] _]. }
  eapply (overruns key (observed request) capacity _ (mkFeed t' s [])); [reflexivity|cbn [sub]; rewrite Hrec; apply Nat.le_0_l|done..].
Qed.

Lemma among_exec {A} (p : Prog Tables A) t : among p t (exec p t).1 (exec p t).2.
Proof. revert t. induction p as [a|update next IH]; intros t; constructor. apply IH. Qed.
Inductive Move := MoveStore (op : JobOp) | MovePump | MoveRead.
Definition move (capacity : N) (x : Feed) (m : Move) : Feed :=
  match m with
  | MoveStore op => mkFeed (execute (store x) op) (sub x) (delivered x)
  | MovePump => mkFeed (store x) (pump capacity (store x) (sub x)) (delivered x)
  | MoveRead => mkFeed (store x) (next_event (sub x)).1 (delivered x ++ got (next_event (sub x)).2)
  end.
Lemma moves_turns capacity x ms : rtc (feed_turn capacity) x (foldl (move capacity) x ms).
Proof. revert x. induction ms as [|m ms IH]; intros x; [done|]. eapply rtc_l; [|apply IH]. destruct m; constructor. Qed.
End subscriptions.

(** ** On the sample job *)

#[local] Open Scope N_scope.

Definition sample_key : StreamKey := mkStreamKey 1 JobStream 10.
Definition sample_request : ReplayRequest := mkReplay sample_key None 1.
Definition submitted : Tables := after [OpCatalog sample_catalog; sample_submit].
(** Subscribed when the job has been submitted, read while it runs and ends. *)
Definition opened (t : Tables) : EventSubscription :=
  match (exec (subscribe 1 sample_request) t).2 with Ok s => s | Err _ => mkSubscription sample_key None [] [] true None Stopped end.
Definition sample_moves : list Move :=
  [MoveRead; MoveStore sample_claim; MovePump; MoveStore sample_stage; MovePump; MoveRead; MoveStore sample_finish; MovePump; MovePump; MovePump].
Definition sample_feed : Feed := foldl (move 1) (mkFeed submitted (opened submitted) []) sample_moves.
Lemma opened_among t : (exec (subscribe 1 sample_request) t).1 = t -> (exec (subscribe 1 sample_request) t).2 = Ok (opened t) ->
  among (subscribe 1 sample_request) t t (Ok (opened t)).
Proof. intros H1 H2. pose proof (among_exec (subscribe 1 sample_request) t) as Ha. by rewrite H1, H2 in Ha. Qed.
Definition readable_now (key : StreamKey) (t : Tables) (e : EventRow) : bool :=
  (ev_sequence e <=? i64_max) && match event_from_raw e with Ok r => is_ok (frame_from_store key r t) | Err _ => false end.
Lemma all_readable key t log : forallb (readable_now key t) log = true -> Forall (readable key t) log.
Proof.
  intros Hall. apply Forall_forall. intros e He. rewrite forallb_forall in Hall. specialize (Hall e (proj1 (list_elem_of_In _ _) He)).
  unfold readable_now in Hall. apply andb_true_iff in Hall as [Hs Hr]. apply N.leb_le in Hs. split; [done|]. destruct (event_from_raw e) as [r|]; [|done].
  exists r. destruct (frame_from_store key r t) as [f|] eqn:Hf; [|done]. by exists f.
Qed.
(** The reader takes what there is after each turn of the worker. *)
Definition sample_turns : list Turn := concat (replicate 11 [WorkerTurn; ReaderTurn]).
Fixpoint roomy_check (capacity : N) (ts : list Turn) (x : Feed) : bool :=
  match ts with
  | [] => true
  | u :: ts => (negb (bool_decide (u = WorkerTurn)) || bool_decide (length (pending (sub x)) = 0%nat) || (len (receiver (sub x)) <? capacity)%N)
               && roomy_check capacity ts (take_turn capacity x u)
  end.
Lemma roomy_check_ok capacity ts : forall x, roomy_check capacity ts x = true -> roomy capacity ts x.
Proof.
  induction ts as [|u ts IH]; intros x Hc; [done|]. apply andb_true_iff in Hc as [Hu Hc]. split; [|by apply IH]. intros -> Hp.
  apply orb_true_iff in Hu as [Hu|Hu%N.ltb_lt]; [|done]. apply orb_true_iff in Hu as [Hu|Hu%bool_decide_eq_true].
  - by rewrite bool_decide_eq_true_2 in Hu.
  - by apply length_zero_iff_nil in Hu.
Qed.
Lemma sample_room : roomy 1 sample_turns sample_feed.
Proof. apply roomy_check_ok. vm_compute. reflexivity. Qed.
Lemma reader_catches_up_witness :
  length (after_sequence 0 (watched (store sample_feed) sample_key)) = 3%nat /\
  length (delivered (play 1 (sample_turns ++ replicate 3 ReaderTurn) sample_feed)) = 3%nat /\
  exists y, rtc (quiet_turn 1) sample_feed y /\ length (delivered y) = 3%nat.
Proof.
  split; [by vm_compute|].
  destruct (reader_catches_up 1 1 sample_request submitted submitted (opened submitted) sample_feed) as [Hall (y & Hy & _ & _ & Hf)].
  - apply reached_after.
  - apply opened_among; by vm_compute.
  - apply moves_turns.
  - done.
  - split; by vm_compute.
  - apply all_readable. by vm_compute.
  - split.
    + rewrite <- (Forall2_length _ _ _ (Hall sample_turns (replicate 3 ReaderTurn) sample_room ltac:(vm_compute; lia) ltac:(vm_compute; lia))). by vm_compute.
    + exists y. split; [exact Hy|]. rewrite <- (Forall2_length _ _ _ Hf). by vm_compute.
Defined.
Definition last_record : EventRecord :=
  match last (watched (after sample_done) sample_key) with
  | Some e => match event_from_raw e with Ok r => r | Err _ => mkEventRecord e JNull end
  | None => mkEventRecord (mkEvent 0 0 0 JobStream 0 0 JobQueued 0 0%Z 0 None "" "" "" "") JNull
  end.
Lemma shown_events_agree_witness :
  ev_event_type (er_row last_record) = JobSucceeded /\
  frame_from_store sample_key last_record (after sample_done) <> Err TerminalStateMismatch.
Proof.
  split; [by vm_compute|].
  apply (shown_events_agree sample_key (after sample_done) (after sample_done) last_record).
  - apply reached_after.
  - exact (later_refl _).
  - apply (list_elem_of_In (cp_events (after sample_done))). vm_compute. tauto.
  - by vm_compute.
Defined.
Lemma worker_outruns_reader_witness :
  length (sub_replay (opened (after sample_done))) = 1%nat /\
  exists k, worker_error (Nat.iter k (pump 1 (after sample_done)) (opened (after sample_done))) = Some SlowConsumer.
Proof.
  split; [by vm_compute|].
  destruct (worker_outruns_reader 1 1 sample_request (after sample_done) (after sample_done) (opened (after sample_done))) as [k [_ Hk]].
  - apply reached_after.
  - apply opened_among; by vm_compute.
  - apply all_readable. by vm_compute.
  - by vm_compute; lia.
  - exists k. exact Hk.
Defined.
