(* ===== verification/Workspaces.v ===== *)
(** * Workspaces and what belongs to them:
    [stillflow-storage/src/control_plane.rs]

    Workspaces, sessions, source connections, source assets, datasets, plans
    and plan versions.  Only the publication and the archiving of a plan
    version are transactions; every other operation is a program of
    statements that commit one by one, and so a request that has made its
    checks may find the tables changed when it writes. *)

From S2P Require Import Prelude Text Secrets Logical Nodes Schedule Automation Hex Canonical Operations Jobs Submissions Outputs Lifecycle Reports Life Refines Reachable Autocommit.

(** ** States *)

Inductive WorkspaceState := WorkspaceActive | WorkspaceArchived.
Inductive SessionState := SessionOpen | SessionClosing | SessionClosed.
Inductive SourceConnectionState := ConnectionActive | ConnectionDisabled | ConnectionRetired.
Inductive SourceAssetState := AssetActive | AssetRetired.
Inductive DatasetState := DatasetActive | DatasetArchived.
Inductive PlanState := PlanActive | PlanArchived.
Inductive PlanVersionState := VersionDraft | VersionPublished | VersionSuperseded | VersionArchived.
Inductive ConnectorKind := LocalFile | ObjectStore | SqlDatabase | ExcelWorkbook | DocumentWorker.
Inductive AssetKind := AssetFile | AssetSheet | AssetTable | AssetView | AssetDocument.
#[export] Instance WorkspaceState_eq_dec : EqDecision WorkspaceState.
Proof. solve_decision. Defined.
#[export] Instance SessionState_eq_dec : EqDecision SessionState.
Proof. solve_decision. Defined.
#[export] Instance SourceConnectionState_eq_dec : EqDecision SourceConnectionState.
Proof. solve_decision. Defined.
#[export] Instance SourceAssetState_eq_dec : EqDecision SourceAssetState.
Proof. solve_decision. Defined.
#[export] Instance DatasetState_eq_dec : EqDecision DatasetState.
Proof. solve_decision. Defined.
#[export] Instance PlanState_eq_dec : EqDecision PlanState.
Proof. solve_decision. Defined.
#[export] Instance PlanVersionState_eq_dec : EqDecision PlanVersionState.
Proof. solve_decision. Defined.

Definition workspace_state_text (s : WorkspaceState) : string :=
  match s with WorkspaceActive => "active" | WorkspaceArchived => "archived" end.
Definition session_state_text (s : SessionState) : string :=
  match s with SessionOpen => "open" | SessionClosing => "closing" | SessionClosed => "closed" end.
Definition source_connection_state_text (s : SourceConnectionState) : string :=
  match s with ConnectionActive => "active" | ConnectionDisabled => "disabled" | ConnectionRetired => "retired" end.
Definition source_asset_state_text (s : SourceAssetState) : string :=
  match s with AssetActive => "active" | AssetRetired => "retired" end.
Definition dataset_state_text (s : DatasetState) : string :=
  match s with DatasetActive => "active" | DatasetArchived => "archived" end.
Definition plan_state_text (s : PlanState) : string := match s with PlanActive => "active" | PlanArchived => "archived" end.
Definition plan_version_state_text (s : PlanVersionState) : string :=
  match s with
  | VersionDraft => "draft" | VersionPublished => "published" | VersionSuperseded => "superseded" | VersionArchived => "archived"
  end.

Definition allowed_session_transition (from to : SessionState) : bool :=
  match from, to with
  | SessionOpen, SessionClosing | SessionOpen, SessionClosed | SessionClosing, SessionClosed => true
  | _, _ => false
  end.
Definition allowed_source_connection_transition (from to : SourceConnectionState) : bool :=
  match from, to with
  | ConnectionActive, ConnectionDisabled | ConnectionDisabled, ConnectionActive | ConnectionDisabled, ConnectionRetired => true
  | _, _ => false
  end.

(** ** Rows, without their identity *)

Record WorkspaceRecord := mkWorkspaceRecord {
  w_state : WorkspaceState; w_created_at : DateTime; w_archived_at : option DateTime }.
Record SessionRecord := mkSessionRecord {
  se_workspace_id : Uuid; se_state : SessionState; se_created_at : DateTime; se_updated_at : DateTime }.
Record ConnectionEntry := mkConnectionEntry {
  c_workspace_id : Uuid;
  c_kind : ConnectorKind;
  c_name : string;
  c_config_json : string;
  c_credential_ref : string;
  c_state : SourceConnectionState;
  c_created_at : DateTime;
  c_updated_at : DateTime;
}.
Record AssetEntry := mkAssetEntry {
  sa_entry_workspace_id : Uuid;
  sa_entry_connection_id : Uuid;
  sa_kind : AssetKind;
  sa_name : string;
  sa_locator_json : string;
  sa_state : SourceAssetState;
  sa_discovered_at : DateTime;
}.
Record DatasetRecord := mkDatasetRecord {
  d_workspace_id : Uuid;
  d_session_id : Uuid;
  d_source_asset_id : Uuid;
  d_name : string;
  d_state : DatasetState;
  d_created_at : DateTime;
}.
Record PlanRecord := mkPlanRecord {
  p_workspace_id : Uuid;
  p_state : PlanState;
  p_current_version_id : option Uuid;
  p_created_at : DateTime;
  p_updated_at : DateTime;
}.
Record VersionEntry := mkVersionEntry {
  v_plan_id : Uuid;
  v_workspace_id : Uuid;
  v_version_number : N;
  v_parent_version_id : option Uuid;
  v_logical_plan_json : string;
  v_canonical_plan_bytes : list N;
  v_canonical_plan_digest : string;
  v_plan_fingerprint : string;
  v_state : PlanVersionState;
  v_created_at : DateTime;
  v_published_at : option DateTime;
  v_archived_at : option DateTime;
}.

Record Directory := mkDirectory {
  dir_workspaces : gmap Uuid WorkspaceRecord;
  dir_sessions : gmap Uuid SessionRecord;
  dir_connections : gmap Uuid ConnectionEntry;
  dir_assets : gmap Uuid AssetEntry;
  dir_datasets : gmap Uuid DatasetRecord;
  dir_plans : gmap Uuid PlanRecord;
  dir_versions : gmap Uuid VersionEntry;
}.
(** The whole database: the directory and the tables of jobs. *)
Record Store := mkStore { directory : Directory; job_tables : Tables }.

Definition on_directory (f : Directory -> Directory) (d : Store) : Store := mkStore (f (directory d)) (job_tables d).
Definition set_workspaces (m : gmap Uuid WorkspaceRecord) (d : Directory) : Directory :=
  mkDirectory m (dir_sessions d) (dir_connections d) (dir_assets d) (dir_datasets d) (dir_plans d) (dir_versions d).
Definition set_sessions (m : gmap Uuid SessionRecord) (d : Directory) : Directory :=
  mkDirectory (dir_workspaces d) m (dir_connections d) (dir_assets d) (dir_datasets d) (dir_plans d) (dir_versions d).
Definition set_connections (m : gmap Uuid ConnectionEntry) (d : Directory) : Directory :=
  mkDirectory (dir_workspaces d) (dir_sessions d) m (dir_assets d) (dir_datasets d) (dir_plans d) (dir_versions d).
Definition set_assets (m : gmap Uuid AssetEntry) (d : Directory) : Directory :=
  mkDirectory (dir_workspaces d) (dir_sessions d) (dir_connections d) m (dir_datasets d) (dir_plans d) (dir_versions d).
Definition set_directory_datasets (m : gmap Uuid DatasetRecord) (d : Directory) : Directory :=
  mkDirectory (dir_workspaces d) (dir_sessions d) (dir_connections d) (dir_assets d) m (dir_plans d) (dir_versions d).
Definition set_plans (m : gmap Uuid PlanRecord) (d : Directory) : Directory :=
  mkDirectory (dir_workspaces d) (dir_sessions d) (dir_connections d) (dir_assets d) (dir_datasets d) m (dir_versions d).
Definition set_versions (m : gmap Uuid VersionEntry) (d : Directory) : Directory :=
  mkDirectory (dir_workspaces d) (dir_sessions d) (dir_connections d) (dir_assets d) (dir_datasets d) (dir_plans d) m.

Definition Request (A : Type) : Type := Auto Store StorageError A.
#[export] Instance request_ret : MRet Request := auto_ret.
#[export] Instance request_bind : MBind Request := auto_bind.

(** What is handed out: the decoded JSON beside the columns. *)
Record SourceConnectionRecord := mkSourceConnectionRecord { scr_entry : ConnectionEntry; scr_safe_config : json }.
Record SourceAssetRecord := mkSourceAssetRecord { sar_entry : AssetEntry; sar_safe_locator : json }.
Record PlanVersionRecord := mkPlanVersionRecord {
  pvr_entry : VersionEntry; pvr_logical_plan : json; pvr_canonical_plan_digest : Digest; pvr_plan_fingerprint : Digest }.
Record PlanVersionDraft := mkPlanVersionDraft {
  pvd_workspace_id : Uuid;
  pvd_plan_id : Uuid;
  pvd_plan_version_id : Uuid;
  pvd_version_number : N;
  pvd_parent_version_id : option Uuid;
  pvd_logical_plan : json;
  pvd_canonical_plan_bytes : list N;
  pvd_canonical_plan_digest : Digest;
  pvd_plan_fingerprint : Digest;
  pvd_created_at : DateTime;
}.

Section workspaces.
Context `{JobCodec} `{StoreFiles}.

(** ** Reading *)

Definition workspace_from_connection (d : Store) (id : Uuid) : Stored WorkspaceRecord :=
  ok_or (dir_workspaces (directory d) !! id) (NotFound id).
Definition session_from_connection (d : Store) (id : Uuid) : Stored SessionRecord :=
  ok_or (dir_sessions (directory d) !! id) (NotFound id).
(** [starts_with("cred://")] without a secret. *)
Definition opaque_credential (reference : string) : bool :=
  bool_decide (take 7 (bytes_of reference) = bytes_of "cred://") && negb (contains_secret_marker reference).
Definition source_connection_from_connection (d : Store) (id : Uuid) : Stored SourceConnectionRecord :=
  row ← ok_or (dir_connections (directory d) !! id) (NotFound id);
  if negb (opaque_credential (c_credential_ref row))
  then Err (Serialization "SourceConnection contains an invalid credential reference") else
  safe_config ← parse_json (c_config_json row) "SourceConnection configuration";
  try! validate_safe_json false safe_config;
  Ok (mkSourceConnectionRecord row safe_config).
Definition source_asset_from_connection (d : Store) (id : Uuid) : Stored SourceAssetRecord :=
  row ← ok_or (dir_assets (directory d) !! id) (NotFound id);
  safe_locator ← parse_json (sa_locator_json row) "SourceAsset locator";
  try! validate_safe_json false safe_locator;
  Ok (mkSourceAssetRecord row safe_locator).
Definition dataset_from_connection (d : Store) (id : Uuid) : Stored DatasetRecord :=
  ok_or (dir_datasets (directory d) !! id) (NotFound id).
Definition plan_from_connection (d : Store) (id : Uuid) : Stored PlanRecord :=
  ok_or (dir_plans (directory d) !! id) (NotFound id).
Definition directory_version_raw (d : Store) (id : Uuid) : Stored VersionEntry :=
  ok_or (dir_versions (directory d) !! id) (NotFound id).
Definition plan_version_from_raw (row : VersionEntry) : Stored PlanVersionRecord :=
  logical_plan ← parse_json (v_logical_plan_json row) "PlanVersion logical plan";
  digest ← parse_digest (v_canonical_plan_digest row);
  if negb (bool_decide (sha256 (v_canonical_plan_bytes row) = digest)) then Err (Serialization "PlanVersion digest mismatch") else
  fingerprint ← parse_digest (v_plan_fingerprint row);
  Ok (mkPlanVersionRecord row logical_plan digest fingerprint).
Definition plan_version_from_connection (d : Store) (id : Uuid) : Stored PlanVersionRecord :=
  row ← directory_version_raw d id; plan_version_from_raw row.

Definition get_workspace (id : Uuid) : Request WorkspaceRecord := query (fun d => workspace_from_connection d id).
Definition get_session (id : Uuid) : Request SessionRecord := query (fun d => session_from_connection d id).
Definition get_source_connection (id : Uuid) : Request SourceConnectionRecord := query (fun d => source_connection_from_connection d id).
Definition get_source_asset (id : Uuid) : Request SourceAssetRecord := query (fun d => source_asset_from_connection d id).
Definition get_dataset (id : Uuid) : Request DatasetRecord := query (fun d => dataset_from_connection d id).
Definition get_plan (id : Uuid) : Request PlanRecord := query (fun d => plan_from_connection d id).
Definition get_plan_version (id : Uuid) : Request PlanVersionRecord := query (fun d => plan_version_from_connection d id).

(** *** Lists: the identities in one statement, each row in one of its own *)

Fixpoint each_request {A B} (f : A -> Request B) (l : list A) : Request (list B) :=
  match l with
  | [] => mret []
  | a :: l => b ← f a; bs ← each_request f l; mret (b :: bs)
  end.
Definition ids_where {A} (p : A -> bool) (m : gmap Uuid A) : list Uuid :=
  merge_sort N.le ((fun e : Uuid * A => e.1) <$> filter (fun e => p e.2) (map_to_list m)).
Definition list_rows {A B} (rows : Directory -> gmap Uuid A) (p : A -> bool) (f : Uuid -> Request B) (limit : N) : Request (list B) :=
  try! check (validate_page_limit limit);
  ids ← query (fun d => Ok (take (N.to_nat limit) (ids_where p (rows (directory d)))));
  each_request f ids.
Definition list_sessions (workspace : Uuid) : N -> Request (list SessionRecord) :=
  list_rows dir_sessions (fun s => (se_workspace_id s =? workspace)%N) get_session.
Definition list_source_connections (workspace : Uuid) : N -> Request (list SourceConnectionRecord) :=
  list_rows dir_connections (fun c => (c_workspace_id c =? workspace)%N) get_source_connection.
Definition list_source_assets (workspace : Uuid) : N -> Request (list SourceAssetRecord) :=
  list_rows dir_assets (fun a => (sa_entry_workspace_id a =? workspace)%N) get_source_asset.
Definition list_datasets (workspace : Uuid) : N -> Request (list DatasetRecord) :=
  list_rows dir_datasets (fun r => (d_workspace_id r =? workspace)%N) get_dataset.
Definition list_plans (workspace : Uuid) : N -> Request (list PlanRecord) :=
  list_rows dir_plans (fun p => (p_workspace_id p =? workspace)%N) get_plan.
(** [ORDER BY version_number ASC, id ASC] *)
Definition version_le (x y : Uuid * VersionEntry) : Prop :=
  (v_version_number x.2 < v_version_number y.2)%N \/ v_version_number x.2 = v_version_number y.2 /\ (x.1 <= y.1)%N.
#[global] Instance version_le_dec : RelDecision version_le.
Proof. intros x y. unfold version_le. apply _. Defined.
Definition list_plan_versions (workspace plan : Uuid) (limit : N) : Request (list PlanVersionRecord) :=
  try! check (validate_page_limit limit);
  ids ← query (fun d => Ok (take (N.to_nat limit) ((fun e : Uuid * VersionEntry => e.1) <$>
          merge_sort version_le (filter (fun e => (v_workspace_id e.2 =? workspace)%N && (v_plan_id e.2 =? plan)%N)
                                   (map_to_list (dir_versions (directory d)))))));
  each_request get_plan_version ids.

(** ** Parents *)

Definition validate_parent_active (d : Store) (parent : Uuid) (label : string) : Stored unit :=
  match dir_workspaces (directory d) !! parent with
  | Some w => match w_state w with
              | WorkspaceActive => Ok tt
              | WorkspaceArchived => Err (InvalidDraft "archived Workspace cannot accept new children")
              end
  | None => Err (InvalidDraft label)
  end.
Definition ensure_workspace_active_connection (d : Store) (workspace : Uuid) : Stored unit :=
  match dir_workspaces (directory d) !! workspace with
  | Some w => match w_state w with
              | WorkspaceActive => Ok tt
              | WorkspaceArchived => Err (InvalidDraft "archived Workspace cannot accept new control-plane objects")
              end
  | None => Err (NotFound workspace)
  end.
(** The parent is in the workspace and accepts children. *)
Definition ensure_parent (parent : option (Uuid * bool)) (id workspace : Uuid) (elsewhere closed : string) : Stored unit :=
  match parent with
  | Some (actual, accepting) =>
      if (actual =? workspace)%N && accepting then Ok tt
      else if negb (actual =? workspace)%N then Err (InvalidDraft elsewhere) else Err (InvalidDraft closed)
  | None => Err (NotFound id)
  end.
Definition ensure_open_session (d : Store) (workspace id : Uuid) : Stored unit :=
  ensure_parent ((fun s => (se_workspace_id s, bool_decide (se_state s = SessionOpen))) <$> dir_sessions (directory d) !! id)
    id workspace "Session belongs to another Workspace" "closing or closed Session cannot accept a new child or Job".
Definition ensure_connection_workspace (d : Store) (workspace id : Uuid) : Stored unit :=
  ensure_parent ((fun c => (c_workspace_id c, bool_decide (c_state c = ConnectionActive))) <$> dir_connections (directory d) !! id)
    id workspace "SourceConnection belongs to another Workspace"
    "retired or disabled SourceConnection cannot accept a new asset".
Definition ensure_asset_workspace (d : Store) (workspace id : Uuid) : Stored unit :=
  ensure_parent ((fun a => (sa_entry_workspace_id a, bool_decide (sa_state a = AssetActive))) <$> dir_assets (directory d) !! id)
    id workspace "SourceAsset belongs to another Workspace" "retired SourceAsset cannot accept a new Dataset".
Definition ensure_plan_workspace (d : Store) (workspace id : Uuid) : Stored unit :=
  ensure_parent ((fun p => (p_workspace_id p, bool_decide (p_state p = PlanActive))) <$> dir_plans (directory d) !! id)
    id workspace "Plan belongs to another Workspace" "archived Plan cannot accept a PlanVersion".
Definition ensure_parent_plan_version (d : Store) (workspace plan parent : Uuid) : Stored unit :=
  row ← ok_or (dir_versions (directory d) !! parent) (NotFound parent);
  if negb (v_workspace_id row =? workspace)%N || negb (v_plan_id row =? plan)%N
  then Err (InvalidDraft "parent PlanVersion belongs to another Plan or Workspace") else Ok tt.
(** ** Writing

    The constraints of a table refuse an insert as [AlreadyExists]: the
    primary key, the references to other tables and what is [UNIQUE]. *)

Definition insert_row {A} (get : Directory -> gmap Uuid A) (set : gmap Uuid A -> Directory -> Directory)
  (references : Directory -> bool) (id : Uuid) (row : A) (d : Store) : Stored (Store * unit) :=
  if bool_decide (is_Some (get (directory d) !! id)) || negb (references (directory d)) then Err (AlreadyExists id) else
  Ok (on_directory (set (<[id := row]> (get (directory d)))) d, tt).
Definition has {A} (m : gmap Uuid A) (id : Uuid) : bool := bool_decide (is_Some (m !! id)).
(** [UPDATE .. WHERE id = ? AND ..]: the row that satisfies the condition is
    changed, and [refused] is the error when there is none. *)
Definition update_row {A} (get : Directory -> gmap Uuid A) (set : gmap Uuid A -> Directory -> Directory) (id : Uuid)
  (condition : A -> bool) (f : A -> A) (refused : StorageError) (d : Store) : Stored (Store * unit) :=
  match get (directory d) !! id with
  | Some row => if condition row then Ok (on_directory (set (<[id := f row]> (get (directory d)))) d, tt) else Err refused
  | None => Err refused
  end.

(** *** Workspaces and sessions *)

Definition create_workspace (id : Uuid) (created_at : DateTime) : Request WorkspaceRecord :=
  try! check (validate_id id "workspace");
  try! write (insert_row dir_workspaces set_workspaces (fun _ => true) id (mkWorkspaceRecord WorkspaceActive created_at None));
  get_workspace id.
Definition workspace_archive (at_ : DateTime) (w : WorkspaceRecord) : WorkspaceRecord :=
  mkWorkspaceRecord WorkspaceArchived (w_created_at w) (Some at_).
Definition archive_workspace (id : Uuid) (archived_at : DateTime) : Request WorkspaceRecord :=
  current ← get_workspace id;
  try! check (if (archived_at <? w_created_at current)%Z then Err (InvalidTimestampOrder "Workspace archive") else Ok tt);
  try! write (update_row dir_workspaces set_workspaces id (fun w => bool_decide (w_state w = WorkspaceActive))
                (workspace_archive archived_at) (NotFound id));
  get_workspace id.

Definition create_session (workspace id : Uuid) (created_at : DateTime) : Request SessionRecord :=
  try! query (fun d => validate_parent_active d workspace "workspace");
  try! check (validate_id id "session");
  try! write (insert_row dir_sessions set_sessions (fun d => has (dir_workspaces d) workspace) id
                (mkSessionRecord workspace SessionOpen created_at created_at));
  get_session id.

Definition active_jobs (d : Store) (session : Uuid) : N :=
  len (filter (fun e : Uuid * JobRow => (j_session_id (job_columns e.2) =? session)%N && negb (job_is_terminal (j_state e.2)))
         (map_to_list (cp_jobs (job_tables d)))).
Definition session_move (target : SessionState) (at_ : DateTime) (s : SessionRecord) : SessionRecord :=
  mkSessionRecord (se_workspace_id s) target (se_created_at s) at_.
Definition closes (s : SessionState) : bool := match s with SessionClosing | SessionClosed => true | SessionOpen => false end.
Definition transition_session (id : Uuid) (target : SessionState) (updated_at : DateTime) : Request SessionRecord :=
  current ← get_session id;
  try! check (if negb (allowed_session_transition (se_state current) target)
              then Err (InvalidDraft "Session transition is not allowed") else
              if (updated_at <? se_created_at current)%Z || (updated_at <? se_updated_at current)%Z
              then Err (InvalidTimestampOrder "Session update") else Ok tt);
  try! (if closes target
        then query (fun d => if negb (active_jobs d id =? 0)%N
                             then Err (Busy "Session cannot close while a non-terminal Job exists") else Ok tt)
        else mret tt);
  try! write (update_row dir_sessions set_sessions id
                (fun s => bool_decide (se_state s = se_state current) && (se_updated_at s =? se_updated_at current)%Z)
                (session_move target updated_at) (Busy "Session changed while transitioning"));
  get_session id.

(** *** Source connections and assets *)

Definition connection_draft (name : string) (safe_config : json) (credential_ref : string) : Stored string :=
  try! validate_safe_text name "SourceConnection name";
  try! validate_safe_json false safe_config;
  config_json ← compact_json safe_config "serialize source configuration";
  if negb (opaque_credential credential_ref)
  then Err (InvalidDraft "credential reference must be an opaque cred:// reference") else Ok config_json.
Definition create_source_connection (workspace id : Uuid) (kind : ConnectorKind) (name : string) (safe_config : json)
  (credential_ref : string) (created_at : DateTime) : Request SourceConnectionRecord :=
  try! query (fun d => validate_parent_active d workspace "workspace");
  try! check (validate_id id "source connection");
  config_json ← check (connection_draft name safe_config credential_ref);
  try! write (insert_row dir_connections set_connections (fun d => has (dir_workspaces d) workspace) id
                (mkConnectionEntry workspace kind name config_json credential_ref ConnectionActive created_at created_at));
  get_source_connection id.
Definition connection_edit (name config_json credential_ref : string) (at_ : DateTime) (c : ConnectionEntry) : ConnectionEntry :=
  mkConnectionEntry (c_workspace_id c) (c_kind c) name config_json credential_ref (c_state c) (c_created_at c) at_.
Definition update_source_connection (id : Uuid) (name : string) (safe_config : json) (credential_ref : string)
  (expected_updated_at updated_at : DateTime) : Request SourceConnectionRecord :=
  config_json ← check (connection_draft name safe_config credential_ref);
  created_at ← query (fun d => c_created_at <$> ok_or (dir_connections (directory d) !! id) (NotFound id));
  try! check (if (updated_at <? created_at)%Z || (updated_at <? expected_updated_at)%Z
              then Err (InvalidTimestampOrder "SourceConnection update") else Ok tt);
  try! write (update_row dir_connections set_connections id (fun c => (c_updated_at c =? expected_updated_at)%Z)
                (connection_edit name config_json credential_ref updated_at) (Busy "SourceConnection changed while updating"));
  get_source_connection id.
Definition connection_move (target : SourceConnectionState) (at_ : DateTime) (c : ConnectionEntry) : ConnectionEntry :=
  mkConnectionEntry (c_workspace_id c) (c_kind c) (c_name c) (c_config_json c) (c_credential_ref c) target (c_created_at c) at_.
Definition transition_source_connection (id : Uuid) (target : SourceConnectionState) (updated_at : DateTime)
  : Request SourceConnectionRecord :=
  current ← query (fun d => ok_or (dir_connections (directory d) !! id) (NotFound id));
  try! check (if negb (allowed_source_connection_transition (c_state current) target)
              then Err (InvalidDraft "SourceConnection transition is not allowed") else
              if (updated_at <? c_created_at current)%Z then Err (InvalidTimestampOrder "SourceConnection update") else Ok tt);
  try! write (update_row dir_connections set_connections id (fun c => bool_decide (c_state c = c_state current))
                (connection_move target updated_at) (Busy "SourceConnection changed while transitioning"));
  get_source_connection id.

Definition create_source_asset (workspace connection id : Uuid) (kind : AssetKind) (name : string) (safe_locator : json)
  (discovered_at : DateTime) : Request SourceAssetRecord :=
  try! check (validate_id id "source asset");
  try! check (validate_safe_text name "SourceAsset name");
  try! check (validate_safe_json false safe_locator);
  locator_json ← check (compact_json safe_locator "serialize asset locator");
  try! query (fun d => ensure_workspace_active_connection d workspace);
  try! query (fun d => ensure_connection_workspace d workspace connection);
  try! write (insert_row dir_assets set_assets (fun d => has (dir_workspaces d) workspace && has (dir_connections d) connection) id
                (mkAssetEntry workspace connection kind name locator_json AssetActive discovered_at));
  get_source_asset id.
Definition asset_retire (a : AssetEntry) : AssetEntry :=
  mkAssetEntry (sa_entry_workspace_id a) (sa_entry_connection_id a) (sa_kind a) (sa_name a) (sa_locator_json a) AssetRetired
    (sa_discovered_at a).
Definition retire_source_asset (id : Uuid) : Request SourceAssetRecord :=
  try! write (update_row dir_assets set_assets id (fun a => bool_decide (sa_state a = AssetActive)) asset_retire
                (InvalidDraft "only an active SourceAsset can be retired"));
  get_source_asset id.

(** *** Datasets and plans *)

Definition create_dataset (workspace session source_asset id : Uuid) (name : string) (created_at : DateTime) : Request DatasetRecord :=
  try! check (validate_id id "dataset");
  try! check (validate_safe_text name "Dataset name");
  try! query (fun d => ensure_workspace_active_connection d workspace);
  try! query (fun d => ensure_open_session d workspace session);
  try! query (fun d => ensure_asset_workspace d workspace source_asset);
  try! write (insert_row dir_datasets set_directory_datasets
                (fun d => has (dir_workspaces d) workspace && has (dir_sessions d) session && has (dir_assets d) source_asset) id
                (mkDatasetRecord workspace session source_asset name DatasetActive created_at));
  get_dataset id.
Definition dataset_archive (r : DatasetRecord) : DatasetRecord :=
  mkDatasetRecord (d_workspace_id r) (d_session_id r) (d_source_asset_id r) (d_name r) DatasetArchived (d_created_at r).
Definition archive_dataset (id : Uuid) : Request DatasetRecord :=
  try! write (update_row dir_datasets set_directory_datasets id (fun r => bool_decide (d_state r = DatasetActive)) dataset_archive
                (InvalidDraft "only an active Dataset can be archived"));
  get_dataset id.

Definition create_plan (workspace id : Uuid) (created_at : DateTime) : Request PlanRecord :=
  try! check (validate_id id "plan");
  try! query (fun d => validate_parent_active d workspace "workspace");
  try! write (insert_row dir_plans set_plans (fun d => has (dir_workspaces d) workspace) id
                (mkPlanRecord workspace PlanActive None created_at created_at));
  get_plan id.
Definition plan_archive (p : PlanRecord) : PlanRecord :=
  mkPlanRecord (p_workspace_id p) PlanArchived (p_current_version_id p) (p_created_at p) (p_updated_at p).
Definition archive_plan (id : Uuid) : Request PlanRecord :=
  try! write (update_row dir_plans set_plans id (fun p => bool_decide (p_state p = PlanActive)) plan_archive
                (InvalidDraft "only an active Plan can be archived"));
  get_plan id.

(** *** Plan versions *)

(** The bytes are searched as they are: what is not UTF-8 in them becomes a
    character that is in no marker. *)
Definition validate_secret_free_bytes (value : list N) (label : string) : Stored unit :=
  if contains_secret_marker (string_of_bytes value) then Err (InvalidDraft label) else Ok tt.
Definition plan_version_draft_validate (d : PlanVersionDraft) : Stored unit :=
  try! validate_id (pvd_workspace_id d) "workspace";
  try! validate_id (pvd_plan_id d) "plan";
  try! validate_id (pvd_plan_version_id d) "PlanVersion";
  if (pvd_version_number d =? 0)%N then Err (InvalidDraft "PlanVersion number must be non-zero") else
  if (len (pvd_canonical_plan_bytes d) =? 0)%N then Err (InvalidDraft "canonical plan bytes must be non-empty") else
  validate_secret_free_bytes (pvd_canonical_plan_bytes d) "canonical PlanVersion bytes".
(** The references, and that the plan has no version of that number. *)
Definition version_fits (v : VersionEntry) (d : Directory) : bool :=
  has (dir_workspaces d) (v_workspace_id v) && has (dir_plans d) (v_plan_id v)
  && match v_parent_version_id v with Some parent => has (dir_versions d) parent | None => true end
  && forallb (fun e : Uuid * VersionEntry => negb ((v_plan_id e.2 =? v_plan_id v)%N && (v_version_number e.2 =? v_version_number v)%N))
       (map_to_list (dir_versions d)).
Definition create_plan_version (d : PlanVersionDraft) : Request PlanVersionRecord :=
  try! check (plan_version_draft_validate d);
  try! query (fun s => ensure_workspace_active_connection s (pvd_workspace_id d));
  try! query (fun s => ensure_plan_workspace s (pvd_workspace_id d) (pvd_plan_id d));
  try! match pvd_parent_version_id d with
       | Some parent => query (fun s => ensure_parent_plan_version s (pvd_workspace_id d) (pvd_plan_id d) parent)
       | None => mret tt
       end;
  let digest := digest_hex (sha256 (pvd_canonical_plan_bytes d)) in
  try! check (if negb (bool_decide (digest = digest_hex (pvd_canonical_plan_digest d)))
              then Err (Serialization "canonical plan digest does not match canonical bytes") else Ok tt);
  try! check (validate_safe_json false (pvd_logical_plan d));
  logical_plan_json ← check (compact_json (pvd_logical_plan d) "serialize logical plan");
  let row := mkVersionEntry (pvd_plan_id d) (pvd_workspace_id d) (pvd_version_number d) (pvd_parent_version_id d)
               logical_plan_json (pvd_canonical_plan_bytes d) digest (digest_hex (pvd_plan_fingerprint d)) VersionDraft
               (pvd_created_at d) None None in
  try! write (insert_row dir_versions set_versions (version_fits row) (pvd_plan_version_id d) row);
  get_plan_version (pvd_plan_version_id d).

Definition version_move (target : PlanVersionState) (published_at archived_at : option DateTime) (v : VersionEntry) : VersionEntry :=
  mkVersionEntry (v_plan_id v) (v_workspace_id v) (v_version_number v) (v_parent_version_id v) (v_logical_plan_json v)
    (v_canonical_plan_bytes v) (v_canonical_plan_digest v) (v_plan_fingerprint v) target (v_created_at v)
    (coalesce published_at (v_published_at v)) (coalesce archived_at (v_archived_at v)).
(** The current version, if it is published, is superseded. *)
Definition supersede (v : VersionEntry) : VersionEntry :=
  if bool_decide (v_state v = VersionPublished) then version_move VersionSuperseded None None v else v.
Definition plan_advance (version : Uuid) (at_ : DateTime) (p : PlanRecord) : PlanRecord :=
  mkPlanRecord (p_workspace_id p) (p_state p) (Some version) (p_created_at p) at_.
Definition publish_tx (id : Uuid) (expected : option Uuid) (published_at : DateTime) (d : Store) : Stored (Store * unit) :=
  version ← directory_version_raw d id;
  if negb (bool_decide (v_state version = VersionDraft)) then Err (InvalidDraft "only a draft PlanVersion can be published") else
  plan ← ok_or (dir_plans (directory d) !! v_plan_id version) (NotFound (v_plan_id version));
  if negb (bool_decide (p_state plan = PlanActive)) then Err (InvalidDraft "archived Plan cannot publish a PlanVersion") else
  if negb (bool_decide (p_current_version_id plan = expected)) then Err (InvalidDraft "PlanVersion expected-current CAS conflict") else
  if negb (bool_decide (digest_hex (sha256 (v_canonical_plan_bytes version)) = v_canonical_plan_digest version))
  then Err (Serialization "stored canonical plan digest does not match bytes") else
  if (published_at <? v_created_at version)%Z then Err (InvalidTimestampOrder "PlanVersion publication") else
  let versions := match p_current_version_id plan with
                  | Some current => alter supersede current (dir_versions (directory d))
                  | None => dir_versions (directory d)
                  end in
  if negb (bool_decide (v_state <$> versions !! id = Some VersionDraft))
  then Err (InvalidDraft "PlanVersion changed while publishing") else
  let versions := alter (version_move VersionPublished (Some published_at) None) id versions in
  let plans := alter (plan_advance id published_at) (v_plan_id version) (dir_plans (directory d)) in
  Ok (on_directory (fun r => set_plans plans (set_versions versions r)) d, tt).
Definition publish_plan_version (id : Uuid) (expected : option Uuid) (published_at : DateTime) : Request PlanVersionRecord :=
  try! write (publish_tx id expected published_at);
  get_plan_version id.
Definition archive_tx (id : Uuid) (archived_at : DateTime) (d : Store) : Stored (Store * PlanVersionRecord) :=
  version ← directory_version_raw d id;
  if negb (bool_decide (v_state version = VersionSuperseded))
  then Err (InvalidDraft "only a superseded PlanVersion can be archived") else
  if (archived_at <? v_created_at version)%Z then Err (InvalidTimestampOrder "PlanVersion archive") else
  let d := on_directory (fun r => set_versions (alter (version_move VersionArchived None (Some archived_at)) id (dir_versions r)) r) d in
  record ← plan_version_from_connection d id;
  Ok (d, record).
Definition archive_plan_version (id : Uuid) (archived_at : DateTime) : Request PlanVersionRecord := write (archive_tx id archived_at).

(** ** Jobs beside the directory

    What the operations on jobs read of the directory; snapshots, bundles and
    profile histories are not part of it. *)

Definition view (r : Directory) (c : Catalog) : Catalog :=
  mkCatalog ((fun w => workspace_state_text (w_state w)) <$> dir_workspaces r)
    ((fun s => mkSession (se_workspace_id s) (session_state_text (se_state s)) (se_created_at s)) <$> dir_sessions r)
    ((fun p => plan_state_text (p_state p)) <$> dir_plans r)
    ((fun v => mkPlanVersion (v_plan_id v) (v_workspace_id v) (v_canonical_plan_bytes v) (v_canonical_plan_digest v)
                 (v_plan_fingerprint v) (plan_version_state_text (v_state v)) (v_published_at v)) <$> dir_versions r)
    ((fun a => mkAsset (sa_entry_workspace_id a) (sa_entry_connection_id a) (source_asset_state_text (sa_state a))) <$> dir_assets r)
    ((fun c => mkConnection (c_workspace_id c) (source_connection_state_text (c_state c))) <$> dir_connections r)
    ((fun s => (d_workspace_id s, dataset_state_text (d_state s))) <$> dir_datasets r)
    (snapshots c) (verification_bundles c) (qd1_profile_history c).
(** The tables as a transaction on jobs finds them. *)
Definition seen_by_jobs (d : Store) : Tables := set_catalog (view (directory d) (catalog (job_tables d))) (job_tables d).
Definition run_job_op (op : JobOp) (d : Store) : Store := mkStore (directory d) (execute (seen_by_jobs d) op).
Definition job_request (op : JobOp) : Request unit := write (fun d => Ok (run_job_op op d, tt)).
End workspaces.
