(* ===== verification/Scopes.v ===== *)
(** * What belongs to what: the invariants of the directory

    Every row of the directory lies in one workspace, and what it refers to
    lies there too; each plan has one published version, its current one.
    Both hold in every state that any number of requests, interleaved
    statement by statement, can reach. *)

From S2P Require Import Prelude Text Secrets Logical Nodes Schedule Automation Hex Canonical Operations Jobs Submissions Outputs Lifecycle Reports Life Refines Reachable Sample Control Autocommit Workspaces.

(** ** Who owns what

    The columns of the directory that are never written again. *)

Record Scope := mkScope {
  sc_workspaces : gmap Uuid unit;
  sc_sessions : gmap Uuid Uuid;
  sc_connections : gmap Uuid Uuid;
  sc_assets : gmap Uuid (Uuid * Uuid);
  sc_datasets : gmap Uuid (Uuid * Uuid * Uuid);
  sc_plans : gmap Uuid Uuid;
  (** plan, workspace, number and parent *)
  sc_versions : gmap Uuid (Uuid * Uuid * N * option Uuid);
}.
Definition version_scope (v : VersionEntry) : Uuid * Uuid * N * option Uuid :=
  (v_plan_id v, v_workspace_id v, v_version_number v, v_parent_version_id v).
Definition scope (r : Directory) : Scope :=
  mkScope ((fun _ => tt) <$> dir_workspaces r) (se_workspace_id <$> dir_sessions r) (c_workspace_id <$> dir_connections r)
    ((fun a => (sa_entry_workspace_id a, sa_entry_connection_id a)) <$> dir_assets r)
    ((fun d => (d_workspace_id d, d_session_id d, d_source_asset_id d)) <$> dir_datasets r)
    (p_workspace_id <$> dir_plans r) (version_scope <$> dir_versions r).

Record scope_le (s s' : Scope) : Prop := {
  le_workspaces : sc_workspaces s ⊆ sc_workspaces s';
  le_sessions : sc_sessions s ⊆ sc_sessions s';
  le_connections : sc_connections s ⊆ sc_connections s';
  le_assets : sc_assets s ⊆ sc_assets s';
  le_datasets : sc_datasets s ⊆ sc_datasets s';
  le_plans : sc_plans s ⊆ sc_plans s';
  le_versions : sc_versions s ⊆ sc_versions s';
}.
#[export] Instance scope_le_preorder : PreOrder scope_le.
Proof.
  split; [intros s; by constructor|]. intros s1 s2 s3 [] []. constructor; by etrans.
Qed.

Record ScopeOk (s : Scope) : Prop := {
  scoped_session id w : sc_sessions s !! id = Some w -> is_Some (sc_workspaces s !! w);
  scoped_connection id w : sc_connections s !! id = Some w -> is_Some (sc_workspaces s !! w);
  scoped_asset id w c : sc_assets s !! id = Some (w, c) -> sc_connections s !! c = Some w;
  scoped_dataset id w se a :
    sc_datasets s !! id = Some (w, se, a) -> sc_sessions s !! se = Some w /\ exists c, sc_assets s !! a = Some (w, c);
  scoped_plan id w : sc_plans s !! id = Some w -> is_Some (sc_workspaces s !! w);
  scoped_version id p w n parent :
    sc_versions s !! id = Some (p, w, n, parent) ->
    sc_plans s !! p = Some w /\ n <> 0%N /\
    forall q, parent = Some q -> exists n' parent', sc_versions s !! q = Some (p, w, n', parent');
  scoped_numbers id id' p w w' n parent parent' :
    sc_versions s !! id = Some (p, w, n, parent) -> sc_versions s !! id' = Some (p, w', n, parent') -> id = id';
}.

(** A table that has grown by one row. *)
Ltac grown := repeat match goal with
  | Hx : <[_ := _]> _ !! _ = Some _ |- _ => apply lookup_insert_Some in Hx as [[? ?]|[? ?]]; simplify_eq
  end.
Lemma fresh_subseteq {A} (m : gmap Uuid A) id a : m !! id = None -> m ⊆ <[id := a]> m.
Proof. apply insert_subseteq. Qed.
Lemma weaken_some {A} (m m' : gmap Uuid A) id : m ⊆ m' -> is_Some (m !! id) -> is_Some (m' !! id).
Proof. intros Hm [a Ha]. exists a. by eapply lookup_weaken. Qed.

Ltac scoped Hok := destruct Hok as [Hse Hco Has Hda Hpl Hve Hnu]; constructor; cbn; intros; grown; eauto.

Lemma scope_workspace s id : ScopeOk s ->
  ScopeOk (mkScope (<[id := tt]> (sc_workspaces s)) (sc_sessions s) (sc_connections s) (sc_assets s) (sc_datasets s) (sc_plans s) (sc_versions s)).
Proof. intros Hok. scoped Hok; rewrite lookup_insert_is_Some'; eauto. Qed.
Lemma scope_session s id w : ScopeOk s -> sc_sessions s !! id = None -> is_Some (sc_workspaces s !! w) ->
  ScopeOk (mkScope (sc_workspaces s) (<[id := w]> (sc_sessions s)) (sc_connections s) (sc_assets s) (sc_datasets s) (sc_plans s) (sc_versions s)).
Proof.
  intros Hok Hn Hw. scoped Hok. edestruct Hda as [Hs Ha]; [eassumption|]. split; [|done].
  eapply lookup_weaken; [exact Hs|]. by apply fresh_subseteq.
Qed.
Lemma scope_connection s id w : ScopeOk s -> sc_connections s !! id = None -> is_Some (sc_workspaces s !! w) ->
  ScopeOk (mkScope (sc_workspaces s) (sc_sessions s) (<[id := w]> (sc_connections s)) (sc_assets s) (sc_datasets s) (sc_plans s) (sc_versions s)).
Proof.
  intros Hok Hn Hw. scoped Hok. eapply lookup_weaken; [by eapply Has|by apply fresh_subseteq].
Qed.
Lemma scope_asset s id w c : ScopeOk s -> sc_assets s !! id = None -> sc_connections s !! c = Some w ->
  ScopeOk (mkScope (sc_workspaces s) (sc_sessions s) (sc_connections s) (<[id := (w, c)]> (sc_assets s)) (sc_datasets s) (sc_plans s) (sc_versions s)).
Proof.
  intros Hok Hn Hc. scoped Hok. edestruct Hda as [Hs [c' Ha]]; [eassumption|]. split; [done|]. exists c'.
  eapply lookup_weaken; [exact Ha|by apply fresh_subseteq].
Qed.
Lemma scope_dataset s id w se a c : ScopeOk s -> sc_sessions s !! se = Some w -> sc_assets s !! a = Some (w, c) ->
  ScopeOk (mkScope (sc_workspaces s) (sc_sessions s) (sc_connections s) (sc_assets s) (<[id := (w, se, a)]> (sc_datasets s)) (sc_plans s) (sc_versions s)).
Proof. intros Hok Hs Ha. scoped Hok. Qed.
Lemma scope_plan s id w : ScopeOk s -> sc_plans s !! id = None -> is_Some (sc_workspaces s !! w) ->
  ScopeOk (mkScope (sc_workspaces s) (sc_sessions s) (sc_connections s) (sc_assets s) (sc_datasets s) (<[id := w]> (sc_plans s)) (sc_versions s)).
Proof.
  intros Hok Hn Hw. scoped Hok. edestruct Hve as (Hp & Hz & Hq); [eassumption|]. split_and!; [|done|done].
  eapply lookup_weaken; [exact Hp|by apply fresh_subseteq].
Qed.
Lemma scope_version s id p w n parent : ScopeOk s -> sc_versions s !! id = None -> sc_plans s !! p = Some w -> n <> 0%N ->
  (forall q, parent = Some q -> exists n' parent', sc_versions s !! q = Some (p, w, n', parent')) ->
  (forall id' w' parent', sc_versions s !! id' <> Some (p, w', n, parent')) ->
  ScopeOk (mkScope (sc_workspaces s) (sc_sessions s) (sc_connections s) (sc_assets s) (sc_datasets s) (sc_plans s)
             (<[id := (p, w, n, parent)]> (sc_versions s))).
Proof.
  intros Hok Hn Hp Hz Hq Hu. scoped Hok.
  - split_and!; [done|done|]. intros q Hpar. destruct (Hq q Hpar) as (n' & par' & Hl). exists n', par'.
    eapply lookup_weaken; [exact Hl|by apply fresh_subseteq].
  - edestruct Hve as (Hp' & Hz' & Hq'); [eassumption|]. split_and!; [done|done|]. intros q Hpar.
    destruct (Hq' q Hpar) as (n' & par' & Hl). exists n', par'. eapply lookup_weaken; [exact Hl|by apply fresh_subseteq].
  - by edestruct Hu.
  - by edestruct Hu.
Qed.

(** ** States only move forward *)

Definition ranked {A} (rank : A -> N) (m m' : gmap Uuid A) : Prop :=
  forall id a, m !! id = Some a -> exists a', m' !! id = Some a' /\ (rank a <= rank a')%N.
#[export] Instance ranked_preorder {A} (rank : A -> N) : PreOrder (ranked rank).
Proof.
  split; [intros m id a Ha; exists a; split; [done|lia]|]. intros m1 m2 m3 H12 H23 id a Ha.
  destruct (H12 _ _ Ha) as (b & Hb & ?). destruct (H23 _ _ Hb) as (c & Hc & ?). exists c. split; [done|lia].
Qed.
Lemma ranked_fresh {A} (rank : A -> N) m id a : m !! id = None -> ranked rank m (<[id := a]> m).
Proof. intros Hn i b Hb. exists b. split; [|lia]. rewrite lookup_insert_ne; [done|]. intros ->. congruence. Qed.
Lemma ranked_alter {A} (rank : A -> N) m id f : (forall a, m !! id = Some a -> (rank a <= rank (f a))%N) -> ranked rank m (alter f id m).
Proof.
  intros Hf i b Hb. destruct (decide (i = id)) as [->|Hne]; [exists (f b); rewrite lookup_alter_eq, Hb; auto|].
  exists b. rewrite lookup_alter_ne by done. split; [done|lia].
Qed.
Lemma ranked_insert {A} (rank : A -> N) m id a b : m !! id = Some a -> (rank a <= rank b)%N -> ranked rank m (<[id := b]> m).
Proof.
  intros Ha Hr i c Hc. destruct (decide (i = id)) as [->|Hne]; [exists b; rewrite lookup_insert_eq; split; [done|congruence]|].
  exists c. rewrite lookup_insert_ne by done. split; [done|lia].
Qed.

Definition workspace_rank (w : WorkspaceRecord) : N := match w_state w with WorkspaceActive => 0 | WorkspaceArchived => 1 end.
Definition session_rank (s : SessionRecord) : N := match se_state s with SessionOpen => 0 | SessionClosing => 1 | SessionClosed => 2 end.
Definition connection_rank (c : ConnectionEntry) : N := match c_state c with ConnectionRetired => 1 | _ => 0 end.
Definition asset_rank (a : AssetEntry) : N := match sa_state a with AssetActive => 0 | AssetRetired => 1 end.
Definition dataset_rank (d : DatasetRecord) : N := match d_state d with DatasetActive => 0 | DatasetArchived => 1 end.
Definition plan_rank (p : PlanRecord) : N := match p_state p with PlanActive => 0 | PlanArchived => 1 end.
Definition version_rank (v : VersionEntry) : N :=
  match v_state v with VersionDraft => 0 | VersionPublished => 1 | VersionSuperseded => 2 | VersionArchived => 3 end.

(** A plan that has a version keeps having one. *)
Definition current_rank (p : PlanRecord) : N := match p_current_version_id p with Some _ => 1 | None => 0 end.

(** What a version holds is never written again. *)
Definition version_content (v : VersionEntry) : string * list N * string * string :=
  (v_logical_plan_json v, v_canonical_plan_bytes v, v_canonical_plan_digest v, v_plan_fingerprint v).

Record directory_le (r r' : Directory) : Prop := {
  scopes_grow : scope_le (scope r) (scope r');
  workspaces_ranked : ranked workspace_rank (dir_workspaces r) (dir_workspaces r');
  sessions_ranked : ranked session_rank (dir_sessions r) (dir_sessions r');
  connections_ranked : ranked connection_rank (dir_connections r) (dir_connections r');
  assets_ranked : ranked asset_rank (dir_assets r) (dir_assets r');
  datasets_ranked : ranked dataset_rank (dir_datasets r) (dir_datasets r');
  plans_ranked : ranked plan_rank (dir_plans r) (dir_plans r');
  currents_ranked : ranked current_rank (dir_plans r) (dir_plans r');
  versions_ranked : ranked version_rank (dir_versions r) (dir_versions r');
  contents_kept : version_content <$> dir_versions r ⊆ version_content <$> dir_versions r';
}.
#[export] Instance directory_le_preorder : PreOrder directory_le.
Proof. split; [intros r; by constructor|]. intros r1 r2 r3 [] []. constructor; by etrans. Qed.

(** ** Versions *)

Section directory.
Context `{JobCodec} `{StoreFiles}.

Record VersionsOk (plans : gmap Uuid PlanRecord) (versions : gmap Uuid VersionEntry) : Prop := {
  current_published p plan v : plans !! p = Some plan -> p_current_version_id plan = Some v ->
    exists e, versions !! v = Some e /\ v_plan_id e = p /\ v_state e = VersionPublished;
  published_current v e : versions !! v = Some e -> v_state e = VersionPublished ->
    exists plan, plans !! v_plan_id e = Some plan /\ p_current_version_id plan = Some v;
  draft_unpublished v e : versions !! v = Some e -> (v_published_at e = None <-> v_state e = VersionDraft);
  version_digest v e : versions !! v = Some e -> v_canonical_plan_digest e = digest_hex (sha256 (v_canonical_plan_bytes e));
}.
Record DirectoryOk (r : Directory) : Prop := {
  directory_scoped : ScopeOk (scope r);
  directory_versions : VersionsOk (dir_plans r) (dir_versions r);
}.

Lemma versions_new_plan plans versions id plan :
  VersionsOk plans versions -> plans !! id = None -> p_current_version_id plan = None -> VersionsOk (<[id := plan]> plans) versions.
Proof.
  intros [Hc Hp Hd Hg] Hn Hnone. constructor; [| |done|done].
  - intros p q v Hq Hv. grown; first [congruence|by eapply Hc].
  - intros v e He Hs. destruct (Hp v e He Hs) as (q & Hq & Hv). exists q. split; [|done]. rewrite lookup_insert_ne; [done|]. intros ->. congruence.
Qed.
Lemma versions_same_plan plans versions id plan plan' :
  VersionsOk plans versions -> plans !! id = Some plan -> p_current_version_id plan' = p_current_version_id plan ->
  VersionsOk (<[id := plan']> plans) versions.
Proof.
  intros [Hc Hp Hd Hg] Hl Hsame. constructor; [| |done|done].
  - intros p q v Hq Hv. grown; [eapply Hc; [exact Hl|congruence]|by eapply Hc].
  - intros v e He Hs. destruct (Hp v e He Hs) as (q & Hq & Hv). destruct (decide (v_plan_id e = id)) as [Heq|Hne].
    + exists plan'. rewrite Heq, lookup_insert_eq. split; [done|congruence].
    + exists q. by rewrite lookup_insert_ne.
Qed.
Lemma versions_new_draft plans versions id e :
  VersionsOk plans versions -> versions !! id = None -> v_state e = VersionDraft -> v_published_at e = None ->
  v_canonical_plan_digest e = digest_hex (sha256 (v_canonical_plan_bytes e)) -> VersionsOk plans (<[id := e]> versions).
Proof.
  intros [Hc Hp Hd Hg] Hn Hs Hpub Hdig. constructor.
  - intros p plan v Hpl Hv. destruct (Hc p plan v Hpl Hv) as (e' & He' & ? & ?). exists e'. split; [|done].
    rewrite lookup_insert_ne; [done|]. intros ->. congruence.
  - intros v e' He' Hst. grown; first [congruence|by eapply Hp].
  - intros v e' He'. grown; first [by split|by apply (Hd v)].
  - intros v e' He'. grown; first [done|by apply (Hg v)].
Qed.
Lemma versions_archived plans versions id e at_ :
  VersionsOk plans versions -> versions !! id = Some e -> v_state e = VersionSuperseded ->
  VersionsOk plans (<[id := version_move VersionArchived None at_ e]> versions).
Proof.
  intros [Hc Hp Hd Hg] Hl Hs. constructor.
  - intros p plan v Hpl Hv. destruct (Hc p plan v Hpl Hv) as (e' & He' & ? & ?). exists e'. split; [|done].
    rewrite lookup_insert_ne; [done|]. intros ->. congruence.
  - intros v e' He' Hst. grown; first [done|by eapply Hp].
  - intros v e' He'. grown; [|by apply (Hd v)]. cbn. destruct (Hd _ _ Hl) as [Hd1 Hd2]. split; [intros Hx; specialize (Hd1 Hx); congruence|done].
  - intros v e' He'. grown; first [by apply (Hg _ _ Hl)|by apply (Hg v)].
Qed.
(** The current version makes room for the new one. *)
Definition published_map (current : option Uuid) (id : Uuid) (at_ : DateTime) (versions : gmap Uuid VersionEntry) : gmap Uuid VersionEntry :=
  alter (version_move VersionPublished (Some at_) None) id
    (match current with Some c => alter supersede c versions | None => versions end).
Lemma published_lookup current id at_ versions v :
  current <> Some id ->
  published_map current id at_ versions !! v =
    if decide (v = id) then version_move VersionPublished (Some at_) None <$> versions !! v
    else if decide (current = Some v) then supersede <$> versions !! v else versions !! v.
Proof.
  intros Hne. unfold published_map. destruct (decide (v = id)) as [->|Hv].
  - rewrite lookup_alter_eq. destruct current as [c|]; [|done]. rewrite lookup_alter_ne; [done|]. congruence.
  - rewrite lookup_alter_ne by done. destruct current as [c|]; [|by rewrite decide_False].
    destruct (decide (c = v)) as [->|Hc]; [by rewrite lookup_alter_eq, decide_True|]. by rewrite lookup_alter_ne, decide_False by congruence.
Qed.

Lemma versions_published plans versions id e plan at_ :
  VersionsOk plans versions -> versions !! id = Some e -> v_state e = VersionDraft -> plans !! v_plan_id e = Some plan ->
  p_current_version_id plan <> Some id /\
  VersionsOk (alter (plan_advance id at_) (v_plan_id e) plans) (published_map (p_current_version_id plan) id at_ versions).
Proof.
  intros [Hc Hp Hd Hg] He Hs Hplan.
  assert (p_current_version_id plan <> Some id) as Hne by (intros Hcur; destruct (Hc _ _ _ Hplan Hcur) as (e' & He' & _ & ?); congruence).
  split; [done|]. constructor.
  - intros p q v Hq Hv. destruct (decide (p = v_plan_id e)) as [->|Hpe].
    + rewrite lookup_alter_eq, Hplan in Hq. injection Hq as <-. injection Hv as <-. eexists.
      rewrite published_lookup, decide_True, He by done. split; [done|by split].
    + rewrite lookup_alter_ne in Hq by done. destruct (Hc _ _ _ Hq Hv) as (e' & He' & Hpe' & Hs'). exists e'. split; [|by split].
      rewrite published_lookup, decide_False by (done || congruence). rewrite decide_False; [done|]. intros Hcur.
      destruct (Hc _ _ _ Hplan Hcur) as (e2 & He2 & Hpe2 & _). congruence.
  - intros v e' He' Hs'. rewrite published_lookup in He' by done. destruct (decide (v = id)) as [->|Hv].
    + rewrite He in He'. injection He' as <-. cbn. rewrite lookup_alter_eq, Hplan. eexists. by split.
    + destruct (decide (p_current_version_id plan = Some v)) as [Hcur|Hcur].
      * destruct (versions !! v) as [e2|] eqn:He2; [|done]. injection He' as <-. unfold supersede in Hs'. case_bool_decide; [done|].
        destruct (Hc _ _ _ Hplan Hcur) as (e3 & He3 & _ & ?). congruence.
      * destruct (Hp _ _ He' Hs') as (q & Hq & Hqv). exists q. rewrite lookup_alter_ne; [done|]. intros Heq. rewrite <- Heq in Hq. congruence.
  - intros v e' He'. rewrite published_lookup in He' by done. destruct (decide (v = id)) as [->|Hv]; [rewrite He in He'; by injection He' as <-|].
    destruct (decide (p_current_version_id plan = Some v)) as [Hcur|Hcur]; [|by apply (Hd v)].
    destruct (Hc _ _ _ Hplan Hcur) as (e2 & He2 & _ & Hs2). rewrite He2 in He'. injection He' as <-. unfold supersede.
    rewrite bool_decide_eq_true_2 by done. cbn. pose proof (Hd _ _ He2) as [Hd1 _]. split; [|done]. intros Hx. specialize (Hd1 Hx). congruence.
  - intros v e' He'. rewrite published_lookup in He' by done. destruct (decide (v = id)) as [->|Hv].
    + rewrite He in He'. injection He' as <-. exact (Hg id e He).
    + destruct (decide (p_current_version_id plan = Some v)); [|by apply (Hg v)]. destruct (versions !! v) as [e2|] eqn:He2; [|done].
      injection He' as <-. unfold supersede. case_bool_decide; exact (Hg v e2 He2).
Qed.

(** ** Each request is safe *)

(** A job was submitted to a session of its workspace, with the digest of a
    version of that workspace that had been published. *)
Definition JobBound (r : Directory) (c : JobColumns) : Prop :=
  sc_sessions (scope r) !! j_session_id c = Some (j_workspace_id c) /\
  exists v, dir_versions r !! j_plan_version_id c = Some v /\ v_workspace_id v = j_workspace_id c /\ v_state v <> VersionDraft /\
    j_canonical_plan_digest c = v_canonical_plan_digest v.
Record Inv (d : Store) : Prop := {
  inv_directory : DirectoryOk (directory d);
  inv_jobs id row : cp_jobs (job_tables d) !! id = Some row -> JobBound (directory d) (job_columns row);
  inv_reached : reached (job_tables d);
}.
Definition Grow (d d' : Store) : Prop := directory_le (directory d) (directory d').
#[local] Instance Grow_preorder : PreOrder Grow.
Proof. split; [intros d; unfold Grow; reflexivity|]. intros d1 d2 d3. unfold Grow. apply transitivity. Qed.
Notation guarded := (safe Inv Grow (succeeds anything)).

Lemma JobBound_grow r r' c : directory_le r r' -> JobBound r c -> JobBound r' c.
Proof.
  intros Hle (Hs & v & Hv & Hw & Hd & Hdig). split; [eapply lookup_weaken; [exact Hs|apply Hle]|].
  destruct (versions_ranked _ _ Hle _ _ Hv) as (v' & Hv' & Hrank). exists v'.
  assert (version_scope v' = version_scope v) as [= Hp' Hw' _ _].
  { pose proof (le_versions _ _ (scopes_grow _ _ Hle)) as Hsub. eapply (lookup_weaken _ _ (j_plan_version_id c) (version_scope v)) in Hsub.
    - cbn in Hsub. rewrite lookup_fmap, Hv' in Hsub. by apply (inj Some) in Hsub.
    - cbn. by rewrite lookup_fmap, Hv. }
  assert (version_content v' = version_content v) as [= _ _ Hc' _].
  { pose proof (contents_kept _ _ Hle) as Hsub. eapply (lookup_weaken _ _ (j_plan_version_id c) (version_content v)) in Hsub.
    - rewrite lookup_fmap, Hv' in Hsub. by apply (inj Some) in Hsub.
    - by rewrite lookup_fmap, Hv. }
  split_and!; [done|congruence| |congruence]. intros Hd'. unfold version_rank in Hrank. rewrite Hd' in Hrank. by destruct (v_state v).
Qed.
(** A statement on the directory: the jobs are as they were. *)
Lemma grown_store d d' : Inv d -> job_tables d' = job_tables d -> directory_le (directory d) (directory d') /\ DirectoryOk (directory d') ->
  Grow d d' /\ Inv d'.
Proof.
  intros [Hdir Hjobs Hr] Heq [Hle Hok]. split; [done|]. constructor; [done| |by rewrite Heq]. rewrite Heq. intros id row Hl.
  eapply JobBound_grow; [done|by eapply Hjobs].
Qed.

Lemma anything_stable {A} : stable Inv Grow (fun (_ : Store) (_ : A) => True).
Proof. by intros d d' a _ _ _. Qed.
Lemma guarded_query {A} d (f : Store -> Stored A) : guarded d (query f).
Proof. apply (safe_query _ _ anything); [apply anything_stable|done]. Qed.
Lemma guarded_check {A} d (m : Stored A) : guarded d (check m).
Proof. by apply (safe_check _ _ anything). Qed.
Lemma guarded_ret {A} d (a : A) : guarded d (mret a : Request A).
Proof. apply (safe_ret _ _ anything); [apply anything_stable|done]. Qed.
(** What a write does to the directory is enough. *)
Lemma guarded_write {A} d (f : Store -> Stored (Store * A)) :
  (forall d1 d2 a, Grow d d1 -> Inv d1 -> f d1 = Ok (d2, a) -> Grow d1 d2 /\ Inv d2) -> guarded d (write f).
Proof. intros Hf. apply (safe_write _ _ anything); [apply anything_stable|]. intros a d1 d2 Hg Hi Hr. destruct (Hf _ _ _ Hg Hi Hr). done. Qed.
Lemma guarded_then {A B} d (p : Request A) (k : A -> Request B) :
  Inv d -> guarded d p -> (forall d' a, Grow d d' -> Inv d' -> guarded d' (k a)) -> guarded d (p ≫= k).
Proof. intros Hi Hp Hk. eapply (safe_then _ _ anything); [exact Hp|done|]. intros d' a Hg Hi' _. by apply Hk. Qed.
(** A query whose answer stays true of what is there later. *)
Lemma guarded_seen {B} d (f : Store -> Stored unit) (P : Store -> Prop) (k : unit -> Request B) :
  Inv d -> (forall d1 d2, Grow d1 d2 -> P d1 -> P d2) -> (forall d1 u, f d1 = Ok u -> P d1) ->
  (forall d', Grow d d' -> Inv d' -> P d' -> guarded d' (k tt)) -> guarded d (query f ≫= k).
Proof.
  intros Hi Hst Hf Hk. eapply (safe_then _ _ (fun d' _ => P d')).
  - apply (safe_query Inv Grow (fun d' _ => P d')); [intros d1 d2 a Hg _; by apply Hst|]. intros [] d1 Hr _. by eapply Hf.
  - done.
  - intros d' [] Hg Hi' HP. by apply Hk.
Qed.

Lemma insert_statement_Ok {A} get (set : gmap Uuid A -> Directory -> Directory) refs id row d d2 u :
  insert_row get set refs id row d = Ok (d2, u) ->
  get (directory d) !! id = None /\ refs (directory d) = true /\ directory d2 = set (<[id := row]> (get (directory d))) (directory d) /\ job_tables d2 = job_tables d.
Proof.
  unfold insert_row. intros Hr. inv_ok Hr. injection Hr as <- _. apply orb_false_iff in Hb as [Hn Hrefs].
  split_and!; [|by apply negb_false_iff|done|done]. apply bool_decide_eq_false in Hn. by apply eq_None_not_Some.
Qed.
Lemma update_statement_Ok {A} get (set : gmap Uuid A -> Directory -> Directory) id cond f refused d d2 u :
  update_row get set id cond f refused d = Ok (d2, u) ->
  exists row, get (directory d) !! id = Some row /\ cond row = true /\ directory d2 = set (<[id := f row]> (get (directory d))) (directory d) /\ job_tables d2 = job_tables d.
Proof. unfold update_row. intros Hr. destruct (get (directory d) !! id) as [row|]; [|done]. destruct (cond row) eqn:Hc; [|done]. injection Hr as <- _. eauto 10. Qed.
Lemma has_Some {A} (m : gmap Uuid A) id : has m id = true <-> is_Some (m !! id).
Proof. apply bool_decide_eq_true. Qed.
Lemma fmap_some {A B} (f : A -> B) (m : gmap Uuid A) id : is_Some (m !! id) -> is_Some ((f <$> m) !! id).
Proof. rewrite lookup_fmap, fmap_is_Some. done. Qed.
Lemma fmap_none {A B} (f : A -> B) (m : gmap Uuid A) id : m !! id = None -> (f <$> m) !! id = None.
Proof. intros Hn. by rewrite lookup_fmap, Hn. Qed.
(** A row that keeps its scope leaves the scope of the table as it is. *)
Lemma fmap_same {A B} (f : A -> B) (m : gmap Uuid A) id a b : m !! id = Some a -> f b = f a -> f <$> <[id := b]> m = f <$> m.
Proof. intros Ha Hf. rewrite fmap_insert. apply insert_id. by rewrite lookup_fmap, Ha, Hf. Qed.

(** The directory with one more row of a table, or one row changed. *)
Ltac rows_le := constructor; cbn; try reflexivity;
  [constructor; cbn; rewrite ?fmap_insert; try reflexivity; by apply fresh_subseteq, fmap_none
  |first [by apply ranked_fresh|rewrite fmap_insert; by apply fresh_subseteq, fmap_none]..].
Ltac new_row H := split; [rows_le|destruct H as [Hscope Hversions]; constructor; [unfold scope; cbn; rewrite fmap_insert|try done]].

Lemma new_workspace r id w :
  DirectoryOk r -> dir_workspaces r !! id = None ->
  let r' := set_workspaces (<[id := w]> (dir_workspaces r)) r in directory_le r r' /\ DirectoryOk r'.
Proof. intros Hok Hn. cbv zeta. new_row Hok. by apply (scope_workspace (scope r)). Qed.
Lemma new_session r id s :
  DirectoryOk r -> dir_sessions r !! id = None -> is_Some (dir_workspaces r !! se_workspace_id s) ->
  let r' := set_sessions (<[id := s]> (dir_sessions r)) r in directory_le r r' /\ DirectoryOk r'.
Proof. intros Hok Hn Hw. cbv zeta. new_row Hok. apply (scope_session (scope r)); [done|by apply fmap_none|by apply fmap_some]. Qed.
Lemma new_connection r id c :
  DirectoryOk r -> dir_connections r !! id = None -> is_Some (dir_workspaces r !! c_workspace_id c) ->
  let r' := set_connections (<[id := c]> (dir_connections r)) r in directory_le r r' /\ DirectoryOk r'.
Proof. intros Hok Hn Hw. cbv zeta. new_row Hok. apply (scope_connection (scope r)); [done|by apply fmap_none|by apply fmap_some]. Qed.
Lemma new_asset r id a :
  DirectoryOk r -> dir_assets r !! id = None -> sc_connections (scope r) !! sa_entry_connection_id a = Some (sa_entry_workspace_id a) ->
  let r' := set_assets (<[id := a]> (dir_assets r)) r in directory_le r r' /\ DirectoryOk r'.
Proof. intros Hok Hn Hc. cbv zeta. new_row Hok. by apply (scope_asset (scope r)); [|apply fmap_none|]. Qed.
Lemma new_dataset r id x c :
  DirectoryOk r -> dir_datasets r !! id = None -> sc_sessions (scope r) !! d_session_id x = Some (d_workspace_id x) ->
  sc_assets (scope r) !! d_source_asset_id x = Some (d_workspace_id x, c) ->
  let r' := set_directory_datasets (<[id := x]> (dir_datasets r)) r in directory_le r r' /\ DirectoryOk r'.
Proof. intros Hok Hn Hs Ha. cbv zeta. new_row Hok. by eapply (scope_dataset (scope r)). Qed.
Lemma new_plan r id p :
  DirectoryOk r -> dir_plans r !! id = None -> is_Some (dir_workspaces r !! p_workspace_id p) -> p_current_version_id p = None ->
  let r' := set_plans (<[id := p]> (dir_plans r)) r in directory_le r r' /\ DirectoryOk r'.
Proof.
  intros Hok Hn Hw Hc. cbv zeta. new_row Hok; [|by apply versions_new_plan].
  apply (scope_plan (scope r)); [done|by apply fmap_none|by apply fmap_some].
Qed.
Lemma new_version r id e :
  DirectoryOk r -> dir_versions r !! id = None -> sc_plans (scope r) !! v_plan_id e = Some (v_workspace_id e) -> v_version_number e <> 0%N ->
  (forall q, v_parent_version_id e = Some q -> exists n' parent', sc_versions (scope r) !! q = Some (v_plan_id e, v_workspace_id e, n', parent')) ->
  (forall id' e', dir_versions r !! id' = Some e' -> v_plan_id e' = v_plan_id e -> v_version_number e' <> v_version_number e) ->
  v_state e = VersionDraft -> v_published_at e = None -> v_canonical_plan_digest e = digest_hex (sha256 (v_canonical_plan_bytes e)) ->
  let r' := set_versions (<[id := e]> (dir_versions r)) r in directory_le r r' /\ DirectoryOk r'.
Proof.
  intros Hok Hn Hp Hz Hq Hu Hs Hpub Hd. cbv zeta. new_row Hok; [|by apply versions_new_draft].
  apply (scope_version (scope r)); [done|by apply fmap_none|done|done|done|].
  intros id' w' parent' Hl. apply lookup_fmap_Some in Hl as (e' & Heq & Hl). injection Heq as Hpe Hw Hne Hpar. by destruct (Hu _ _ Hl Hpe).
Qed.

Ltac changed_row H a := split;
  [constructor; cbn; try reflexivity; [unfold scope; cbn; by erewrite fmap_same|first [by eapply ranked_insert|by erewrite fmap_same]..]
  |destruct H as [Hscope Hversions]; constructor; [unfold scope in *; cbn in *; by erewrite fmap_same|try done]].
Lemma changed_workspace r id w w' :
  DirectoryOk r -> dir_workspaces r !! id = Some w -> (workspace_rank w <= workspace_rank w')%N ->
  let r' := set_workspaces (<[id := w']> (dir_workspaces r)) r in directory_le r r' /\ DirectoryOk r'.
Proof. intros Hok Hl Hr. cbv zeta. changed_row Hok w. Qed.
Lemma changed_session r id s s' :
  DirectoryOk r -> dir_sessions r !! id = Some s -> se_workspace_id s' = se_workspace_id s -> (session_rank s <= session_rank s')%N ->
  let r' := set_sessions (<[id := s']> (dir_sessions r)) r in directory_le r r' /\ DirectoryOk r'.
Proof. intros Hok Hl Hw Hr. cbv zeta. changed_row Hok s. Qed.
Lemma changed_connection r id c c' :
  DirectoryOk r -> dir_connections r !! id = Some c -> c_workspace_id c' = c_workspace_id c -> (connection_rank c <= connection_rank c')%N ->
  let r' := set_connections (<[id := c']> (dir_connections r)) r in directory_le r r' /\ DirectoryOk r'.
Proof. intros Hok Hl Hw Hr. cbv zeta. changed_row Hok c. Qed.
Lemma retired_asset r id a :
  DirectoryOk r -> dir_assets r !! id = Some a -> let r' := set_assets (<[id := asset_retire a]> (dir_assets r)) r in directory_le r r' /\ DirectoryOk r'.
Proof. intros Hok Hl. cbv zeta. assert (asset_rank a <= asset_rank (asset_retire a))%N by (unfold asset_rank; cbn; case_match; lia). changed_row Hok a. Qed.
Lemma archived_dataset r id x :
  DirectoryOk r -> dir_datasets r !! id = Some x ->
  let r' := set_directory_datasets (<[id := dataset_archive x]> (dir_datasets r)) r in directory_le r r' /\ DirectoryOk r'.
Proof. intros Hok Hl. cbv zeta. assert (dataset_rank x <= dataset_rank (dataset_archive x))%N by (unfold dataset_rank; cbn; case_match; lia). changed_row Hok x. Qed.
Lemma archived_plan r id p :
  DirectoryOk r -> dir_plans r !! id = Some p -> let r' := set_plans (<[id := plan_archive p]> (dir_plans r)) r in directory_le r r' /\ DirectoryOk r'.
Proof.
  intros Hok Hl. cbv zeta. assert (plan_rank p <= plan_rank (plan_archive p))%N by (unfold plan_rank; cbn; case_match; lia).
  assert (current_rank p <= current_rank (plan_archive p))%N by done. changed_row Hok p. by eapply versions_same_plan.
Qed.

(** *** Versions *)

Lemma fmap_alter_same {A B} (f : A -> B) (m : gmap Uuid A) id g : (forall a, f (g a) = f a) -> f <$> alter g id m = f <$> m.
Proof.
  intros Hg. apply map_eq. intros i. rewrite !lookup_fmap. destruct (decide (i = id)) as [->|Hne]; [rewrite lookup_alter_eq|by rewrite lookup_alter_ne].
  destruct (m !! id); cbn; [by rewrite Hg|done].
Qed.
Lemma supersede_scope v : version_scope (supersede v) = version_scope v.
Proof. unfold supersede. by case_match. Qed.
Lemma published_scope current id at_ versions : version_scope <$> published_map current id at_ versions = version_scope <$> versions.
Proof. unfold published_map. rewrite fmap_alter_same by done. destruct current; [by rewrite fmap_alter_same by apply supersede_scope|done]. Qed.
Lemma published_content current id at_ versions : version_content <$> published_map current id at_ versions = version_content <$> versions.
Proof.
  unfold published_map. rewrite fmap_alter_same by done. destruct current; [|done]. apply fmap_alter_same. intros v. unfold supersede. by case_match.
Qed.
Lemma published_ranked current id at_ versions e :
  current <> Some id -> versions !! id = Some e -> v_state e = VersionDraft -> ranked version_rank versions (published_map current id at_ versions).
Proof.
  intros Hne He Hs v a Ha. rewrite published_lookup by done. destruct (decide (v = id)) as [->|Hv].
  - rewrite Ha. eexists. split; [done|]. assert (a = e) as -> by congruence. unfold version_rank. rewrite Hs. cbn. lia.
  - destruct (decide (current = Some v)); [rewrite Ha; eexists; split; [done|]|exists a; split; [done|lia]].
    unfold supersede. case_bool_decide as Hp; [unfold version_rank; rewrite Hp; cbn; lia|lia].
Qed.
Lemma publish_tx_Ok id expected at_ d d2 u :
  publish_tx id expected at_ d = Ok (d2, u) ->
  exists e plan, dir_versions (directory d) !! id = Some e /\ v_state e = VersionDraft /\ dir_plans (directory d) !! v_plan_id e = Some plan /\
    p_current_version_id plan = expected /\
    directory d2 = set_plans (alter (plan_advance id at_) (v_plan_id e) (dir_plans (directory d)))
                     (set_versions (published_map expected id at_ (dir_versions (directory d))) (directory d)) /\
    job_tables d2 = job_tables d.
Proof.
  unfold publish_tx, directory_version_raw. intros Hp. apply bind_Ok in Hp as (e & He%ok_or_Ok & Hp). inv_ok Hp.
  apply ok_or_Ok in Hx. cbv zeta in Hp. inv_ok Hp. injection Hp as <- _. bools. exists e, x. split_and!; try done.
  cbn. by rewrite Hb1.
Qed.
Lemma published_version r id at_ e plan :
  DirectoryOk r -> dir_versions r !! id = Some e -> v_state e = VersionDraft -> dir_plans r !! v_plan_id e = Some plan ->
  let r' := set_plans (alter (plan_advance id at_) (v_plan_id e) (dir_plans r))
              (set_versions (published_map (p_current_version_id plan) id at_ (dir_versions r)) r) in
  directory_le r r' /\ DirectoryOk r'.
Proof.
  intros [Hs Hv] He Hd Hp. cbv zeta. destruct (versions_published _ _ _ _ _ at_ Hv He Hd Hp) as [Hne Hv'].
  assert (scope (set_plans (alter (plan_advance id at_) (v_plan_id e) (dir_plans r))
            (set_versions (published_map (p_current_version_id plan) id at_ (dir_versions r)) r)) = scope r) as Hscope.
  { unfold scope. cbn. by rewrite published_scope, fmap_alter_same. }
  split; [|constructor; [by rewrite Hscope|done]]. constructor; cbn; try reflexivity.
  - by rewrite Hscope.
  - apply ranked_alter. intros p _. unfold plan_rank. cbn. lia.
  - apply ranked_alter. intros p _. unfold current_rank. cbn. case_match; lia.
  - by eapply published_ranked.
  - by rewrite published_content.
Qed.
Lemma archive_tx_Ok id at_ d d2 rec :
  archive_tx id at_ d = Ok (d2, rec) ->
  exists e, dir_versions (directory d) !! id = Some e /\ v_state e = VersionSuperseded /\
    directory d2 = set_versions (<[id := version_move VersionArchived None (Some at_) e]> (dir_versions (directory d))) (directory d) /\
    job_tables d2 = job_tables d.
Proof.
  unfold archive_tx, directory_version_raw. intros Ha. apply bind_Ok in Ha as (e & He%ok_or_Ok & Ha). cbv zeta in Ha. inv_ok Ha.
  injection Ha as <- _. bools. exists e. split_and!; [done|done| |done]. cbn. f_equal. by apply alter_lookup.
Qed.
Lemma archived_version r id e at_ :
  DirectoryOk r -> dir_versions r !! id = Some e -> v_state e = VersionSuperseded ->
  let r' := set_versions (<[id := version_move VersionArchived None at_ e]> (dir_versions r)) r in directory_le r r' /\ DirectoryOk r'.
Proof.
  intros Hok He Hs. cbv zeta. assert (version_rank e <= version_rank (version_move VersionArchived None at_ e))%N by (unfold version_rank; rewrite Hs; cbn; lia).
  changed_row Hok e. by apply versions_archived.
Qed.
End directory.
