(* ===== verification/Interleavings.v ===== *)
(** * Requests interleaved

    Every request on the directory is safe among others, and so the
    invariants of [Scopes] hold whatever the order of the statements.  What
    does not survive the interleaving is the check that a session has no job
    left when it closes. *)

From S2P Require Import Prelude Text Secrets Logical Nodes Schedule Automation Hex Canonical Operations Jobs Submissions Outputs Lifecycle Reports Life Refines Reachable Frame Sample Control Autocommit Workspaces Scopes.

Section interleavings.
Context `{JobCodec} `{StoreFiles}.
Notation guarded := (safe Inv Grow (succeeds anything)).
#[local] Existing Instance Grow_preorder.

(** ** Every request is safe *)

Ltac next := first
  [ apply guarded_query | apply guarded_check | apply guarded_ret
  | eapply guarded_then; [done|first [apply guarded_query|apply guarded_check|apply guarded_ret]|intros ? ? ? ?] ].
Ltac inserted := apply guarded_write; intros d1 d2 u Hg1 Hi1 Hw1; apply insert_statement_Ok in Hw1 as (Hnone & Hrefs & Hdir & Hjobs);
  apply grown_store; [done|done|]; apply inv_directory in Hi1; rewrite Hdir.
Ltac updated := apply guarded_write; intros d1 d2 u Hg1 Hi1 Hw1; apply update_statement_Ok in Hw1 as (row & Hrow & Hcond & Hdir & Hjobs);
  apply grown_store; [done|done|]; apply inv_directory in Hi1; rewrite Hdir.
(** A write between queries. *)
Ltac through t := eapply guarded_then; [done|t|intros ? ? ? ?; apply guarded_query].

Lemma create_workspace_safe d id at_ : Inv d -> guarded d (create_workspace id at_).
Proof. intros Hi. unfold create_workspace. next. through inserted. by apply new_workspace. Qed.
Lemma archive_workspace_safe d id at_ : Inv d -> guarded d (archive_workspace id at_).
Proof.
  intros Hi. unfold archive_workspace, get_workspace. do 2 next. through updated. apply (changed_workspace _ _ row); [done|done|].
  unfold workspace_rank. cbn. case_match; lia.
Qed.
Lemma create_session_safe d ws id at_ : Inv d -> guarded d (create_session ws id at_).
Proof. intros Hi. unfold create_session. do 2 next. through inserted. apply new_session; [done|done|by apply has_Some]. Qed.
Lemma guarded_checked {A B} d (m : Stored A) (k : A -> Request B) :
  Inv d -> (forall a, m = Ok a -> guarded d (k a)) -> guarded d (check m ≫= k).
Proof. intros Hi Hk. destruct m as [a|e]; [by apply (Hk a)|]. by constructor. Qed.
Lemma session_forward s target current : allowed_session_transition (se_state current) target = true -> se_state s = se_state current ->
  forall at_, (session_rank s <= session_rank (session_move target at_ s))%N.
Proof. intros Ha Hs at_. unfold session_rank. rewrite Hs. cbn. by destruct (se_state current), target. Qed.
Lemma transition_session_safe d id target at_ : Inv d -> guarded d (transition_session id target at_).
Proof.
  intros Hi. unfold transition_session, get_session. eapply guarded_then; [done|apply guarded_query|]. intros d0 current Hg0 Hi0.
  apply guarded_checked; [done|]. intros [] Hc. inv_ok Hc. apply negb_false_iff in Hb.
  eapply guarded_then; [done|destruct (closes target); next|]. intros d3 [] Hg3 Hi3. through updated. bools. destruct Hcond as [Hst _].
  apply (changed_session _ _ row); [done|done|done|]. by eapply session_forward.
Qed.
Lemma create_source_connection_safe d ws id kind name config credential at_ :
  Inv d -> guarded d (create_source_connection ws id kind name config credential at_).
Proof. intros Hi. unfold create_source_connection. do 3 next. through inserted. apply new_connection; [done|done|by apply has_Some]. Qed.
Lemma update_source_connection_safe d id name config credential expected at_ :
  Inv d -> guarded d (update_source_connection id name config credential expected at_).
Proof. intros Hi. unfold update_source_connection. do 3 next. through updated. by apply (changed_connection _ _ row). Qed.
Lemma transition_source_connection_safe d id target at_ : Inv d -> guarded d (transition_source_connection id target at_).
Proof.
  intros Hi. unfold transition_source_connection. eapply guarded_then; [done|apply guarded_query|]. intros d0 current Hg0 Hi0.
  apply guarded_checked; [done|]. intros [] Hc. inv_ok Hc. apply negb_false_iff in Hb. through updated. bools.
  apply (changed_connection _ _ row); [done|done|done|]. unfold connection_rank. rewrite Hcond. cbn. by destruct (c_state current), target.
Qed.

(** What a check has seen of a parent stays true: its workspace. *)
Lemma ensure_parent_Ok parent id ws m1 m2 u : ensure_parent parent id ws m1 m2 = Ok u -> exists accepting, parent = Some (ws, accepting).
Proof.
  unfold ensure_parent. destruct parent as [[actual accepting]|]; [|done]. intros Hp. destruct (actual =? ws)%N eqn:He; [|done].
  apply N.eqb_eq in He as ->. eauto.
Qed.
Definition connection_in (ws id : Uuid) (d : Store) : Prop := sc_connections (scope (directory d)) !! id = Some ws.
Definition session_in (ws id : Uuid) (d : Store) : Prop := sc_sessions (scope (directory d)) !! id = Some ws.
Definition asset_in (ws id : Uuid) (d : Store) : Prop := exists c, sc_assets (scope (directory d)) !! id = Some (ws, c).
Definition plan_in (ws id : Uuid) (d : Store) : Prop := sc_plans (scope (directory d)) !! id = Some ws.
Definition version_in (ws plan id : Uuid) (d : Store) : Prop :=
  exists n parent, sc_versions (scope (directory d)) !! id = Some (plan, ws, n, parent).
Lemma connection_seen d ws id u : ensure_connection_workspace d ws id = Ok u -> connection_in ws id d.
Proof. intros [a Ha]%ensure_parent_Ok. apply fmap_Some in Ha as (c & Hc & [= -> _]). unfold connection_in. cbn. by rewrite lookup_fmap, Hc. Qed.
Lemma session_seen d ws id u : ensure_open_session d ws id = Ok u -> session_in ws id d.
Proof. intros [a Ha]%ensure_parent_Ok. apply fmap_Some in Ha as (c & Hc & [= -> _]). unfold session_in. cbn. by rewrite lookup_fmap, Hc. Qed.
Lemma asset_seen d ws id u : ensure_asset_workspace d ws id = Ok u -> asset_in ws id d.
Proof.
  intros [a Ha]%ensure_parent_Ok. apply fmap_Some in Ha as (c & Hc & [= -> _]). exists (sa_entry_connection_id c). cbn. by rewrite lookup_fmap, Hc.
Qed.
Lemma plan_seen d ws id u : ensure_plan_workspace d ws id = Ok u -> plan_in ws id d.
Proof. intros [a Ha]%ensure_parent_Ok. apply fmap_Some in Ha as (c & Hc & [= -> _]). unfold plan_in. cbn. by rewrite lookup_fmap, Hc. Qed.
Lemma version_seen d ws plan id u : ensure_parent_plan_version d ws plan id = Ok u -> version_in ws plan id d.
Proof.
  unfold ensure_parent_plan_version. intros Hp. apply bind_Ok in Hp as (e & He%ok_or_Ok & Hp). inv_ok Hp. bools. destruct Hb as [Hw Hpl].
  unfold version_in. cbn. rewrite lookup_fmap, He. cbn. unfold version_scope. rewrite Hw, Hpl. eauto.
Qed.
Lemma grow_connection ws id d d' : Grow d d' -> connection_in ws id d -> connection_in ws id d'.
Proof. intros [Hs _ _ _ _ _ _ _ _] Hc. eapply lookup_weaken; [exact Hc|apply Hs]. Qed.
Lemma grow_session ws id d d' : Grow d d' -> session_in ws id d -> session_in ws id d'.
Proof. intros [Hs _ _ _ _ _ _ _ _] Hc. eapply lookup_weaken; [exact Hc|apply Hs]. Qed.
Lemma grow_asset ws id d d' : Grow d d' -> asset_in ws id d -> asset_in ws id d'.
Proof. intros [Hs _ _ _ _ _ _ _ _] [c Hc]. exists c. eapply lookup_weaken; [exact Hc|apply Hs]. Qed.
Lemma grow_plan ws id d d' : Grow d d' -> plan_in ws id d -> plan_in ws id d'.
Proof. intros [Hs _ _ _ _ _ _ _ _] Hc. eapply lookup_weaken; [exact Hc|apply Hs]. Qed.
Lemma grow_version ws plan id d d' : Grow d d' -> version_in ws plan id d -> version_in ws plan id d'.
Proof. intros [Hs _ _ _ _ _ _ _ _] (n & par & Hc). exists n, par. eapply lookup_weaken; [exact Hc|apply Hs]. Qed.

Lemma create_source_asset_safe d ws con id kind name locator at_ : Inv d -> guarded d (create_source_asset ws con id kind name locator at_).
Proof.
  intros Hi. unfold create_source_asset. do 5 next.
  eapply (guarded_seen _ _ (connection_in ws con)); [done|intros ? ?; apply grow_connection|intros ? ?; apply connection_seen|]. intros d3 Hg3 Hi3 Hc. through inserted.
  apply new_asset; [done|done|]. by apply (grow_connection _ _ d3).
Qed.
Lemma retire_source_asset_safe d id : Inv d -> guarded d (retire_source_asset id).
Proof. intros Hi. unfold retire_source_asset. through updated. by apply retired_asset. Qed.
Lemma create_dataset_safe d ws se a id name at_ : Inv d -> guarded d (create_dataset ws se a id name at_).
Proof.
  intros Hi. unfold create_dataset. do 3 next.
  eapply (guarded_seen _ _ (session_in ws se)); [done|intros ? ?; apply grow_session|intros ? ?; apply session_seen|]. intros d3 Hg3 Hi3 Hs.
  eapply (guarded_seen _ _ (asset_in ws a)); [done|intros ? ?; apply grow_asset|intros ? ?; apply asset_seen|]. intros d4 Hg4 Hi4 Ha. through inserted.
  destruct (grow_asset _ _ d4 d1 Hg1 Ha) as [c Hc]. apply (new_dataset _ _ _ c); [done|done| |done].
  apply (grow_session _ _ d4 d1 Hg1), (grow_session _ _ d3 d4 Hg4), Hs.
Qed.
Lemma archive_dataset_safe d id : Inv d -> guarded d (archive_dataset id).
Proof. intros Hi. unfold archive_dataset. through updated. by apply archived_dataset. Qed.
Lemma create_plan_safe d ws id at_ : Inv d -> guarded d (create_plan ws id at_).
Proof. intros Hi. unfold create_plan. do 2 next. through inserted. by apply new_plan; [| |apply has_Some|]. Qed.
Lemma archive_plan_safe d id : Inv d -> guarded d (archive_plan id).
Proof. intros Hi. unfold archive_plan. through updated. by apply archived_plan. Qed.
Lemma publish_safe d id expected at_ : Inv d -> guarded d (publish_plan_version id expected at_).
Proof.
  intros Hi. unfold publish_plan_version.
  through ltac:(apply guarded_write; intros d1 d2 u Hg1 Hi1 (e & plan & He & Hs & Hp & <- & Hdir & Hjobs)%publish_tx_Ok;
    apply grown_store; [done|done|]; apply inv_directory in Hi1; rewrite Hdir).
  by apply published_version.
Qed.
Lemma archive_version_safe d id at_ : Inv d -> guarded d (archive_plan_version id at_).
Proof.
  intros Hi. unfold archive_plan_version. apply guarded_write. intros d1 d2 rec Hg1 Hi1 (e & He & Hs & Hdir & Hjobs)%archive_tx_Ok.
  apply grown_store; [done|done|]. apply inv_directory in Hi1. rewrite Hdir. by apply archived_version.
Qed.
Lemma parent_checked d (p : option Uuid) ws plan {B} (k : unit -> Request B) :
  Inv d -> (forall d', Grow d d' -> Inv d' -> (forall q, p = Some q -> version_in ws plan q d') -> guarded d' (k tt)) ->
  guarded d ((match p with Some parent => query (fun s => ensure_parent_plan_version s ws plan parent) | None => mret tt end) ≫= k).
Proof.
  intros Hi Hk. destruct p as [q|].
  - eapply (guarded_seen _ _ (version_in ws plan q)); [done|intros ? ?; apply grow_version|intros ? ?; apply version_seen|].
    intros d' Hg Hi' Hv. apply Hk; [done|done|]. by intros ? [= <-].
  - eapply guarded_then; [done|apply guarded_ret|]. intros d' [] Hg Hi'. by apply Hk.
Qed.
Lemma version_number_checked x u : plan_version_draft_validate x = Ok u -> pvd_version_number x <> 0%N.
Proof. unfold plan_version_draft_validate. intros Hv. inv_ok Hv. by apply N.eqb_neq. Qed.
Lemma version_fits_number v r id' e' :
  version_fits v r = true -> dir_versions r !! id' = Some e' -> v_plan_id e' = v_plan_id v -> v_version_number e' <> v_version_number v.
Proof.
  unfold version_fits. rewrite !andb_true_iff, forallb_forall. intros [_ Hall] Hl Hp Hn.
  specialize (Hall (id', e')). rewrite <- list_elem_of_In, elem_of_map_to_list in Hall. specialize (Hall Hl). cbn in Hall.
  by rewrite Hp, Hn, !N.eqb_refl in Hall.
Qed.
Lemma create_plan_version_safe d x : Inv d -> guarded d (create_plan_version x).
Proof.
  intros Hi. unfold create_plan_version. apply guarded_checked; [done|]. intros [] Hv. next.
  eapply (guarded_seen _ _ (plan_in (pvd_workspace_id x) (pvd_plan_id x))); [done|intros ? ?; apply grow_plan|intros ? ?; apply plan_seen|].
  intros d3 Hg3 Hi3 Hp. apply parent_checked; [done|]. intros d4 Hg4 Hi4 Hpar. cbv zeta. apply guarded_checked; [done|]. intros [] _.
  do 2 next. through inserted. apply new_version; cbn; try done.
  - eapply grow_plan; [exact Hg1|]. do 2 (eapply grow_plan; [eassumption|]). eapply grow_plan; eassumption.
  - by eapply version_number_checked.
  - intros q Hq. specialize (Hpar q Hq). eapply grow_version; [exact Hg1|]. eapply grow_version; [eassumption|]. eapply grow_version; eassumption.
  - intros id' e'. by apply (version_fits_number _ _ _ _ Hrefs).
Qed.

Lemma each_request_safe {A B} (f : A -> Request B) l : (forall d a, Inv d -> guarded d (f a)) -> forall d, Inv d -> guarded d (each_request f l).
Proof.
  intros Hf. induction l as [|a l IH]; intros d Hi; cbn [each_request]; [next|]. eapply guarded_then; [done|by apply Hf|]. intros d1 b Hg1 Hi1.
  eapply guarded_then; [done|by apply IH|]. intros d2 bs Hg2 Hi2. next.
Qed.

(** *** Operations on jobs *)

Lemma decide_submit (op : JobOp) : (exists s, op = OpSubmit s) \/ (exists c, op = OpCatalog c) \/ (forall s, op <> OpSubmit s) /\ (forall c, op <> OpCatalog c).
Proof. destruct op; eauto; right; right; by split. Qed.
Lemma submit_session t s t' o id row :
  submit_job t s = Ok (t', o) -> cp_jobs t' !! id = Some row ->
  cp_jobs t !! id = Some row \/
  exists digest, ensure_session_workspace t (j_workspace_id (job_columns row)) (j_session_id (job_columns row)) = Ok tt /\
    ensure_plan_version_for_job t (j_workspace_id (job_columns row)) (j_plan_version_id (job_columns row)) digest = Ok tt /\
    j_canonical_plan_digest (job_columns row) = digest_hex digest /\ j_state row = Queued.
Proof.
  unfold submit_job. intros Hs Hl. apply bind_Ok in Hs as (? & _ & Hs). apply bind_Ok in Hs as (bound & Hbound & Hs).
  destruct (cp_idempotency_keys t !! _) as [key|]; [left; inv_ok Hs; by injection Hs as <- _|].
  apply bind_Ok in Hs as ([] & _ & Hs). apply bind_Ok in Hs as ([] & Hsession & Hs). apply bind_Ok in Hs as ([] & Hplan & Hs).
  inv_ok Hs. cbv zeta in Hs. inv_ok Hs. injection Hs as <- _.
  match goal with Ha : append_event_tx _ _ = Ok _ |- _ => apply append_life in Ha as [_ [? ->]] end.
  cbn in Hl. apply lookup_insert_Some in Hl as [[<- <-]|[_ Hl]]; [right|by left]. cbn. eauto.
Qed.
Lemma JobBound_submitted d row digest :
  Inv d -> ensure_session_workspace (seen_by_jobs d) (j_workspace_id row) (j_session_id row) = Ok tt ->
  ensure_plan_version_for_job (seen_by_jobs d) (j_workspace_id row) (j_plan_version_id row) digest = Ok tt ->
  j_canonical_plan_digest row = digest_hex digest -> JobBound (directory d) row.
Proof.
  intros Hi Hs Hp Hdig. split.
  - unfold ensure_session_workspace in Hs. cbn in Hs. rewrite lookup_fmap in Hs. cbn. rewrite lookup_fmap.
    destruct (dir_sessions (directory d) !! _) as [e|]; cbn in *; [|done]. destruct (_ =? _)%N eqn:He; [|done]. by apply N.eqb_eq in He as ->.
  - unfold ensure_plan_version_for_job in Hp. cbn in Hp. rewrite lookup_fmap in Hp.
    destruct (dir_versions (directory d) !! _) as [v|]; cbn in *; [|done]. destruct ((_ <$> _) !! _) in Hp; [|done]. cbn in Hp. inv_ok Hp. bools.
    exists v. split_and!; [done|done| |destruct Hb3; congruence]. intros Hd. by rewrite Hd in *.
Qed.
Lemma job_op_bound d op id row :
  Inv d -> cp_jobs (job_tables (run_job_op op d)) !! id = Some row -> JobBound (directory d) (job_columns row).
Proof.
  intros Hi Hl. assert (forall i r, cp_jobs (seen_by_jobs d) !! i = Some r -> JobBound (directory d) (job_columns r)) as Hold
    by (intros i r; apply (inv_jobs d Hi)).
  unfold run_job_op in Hl. cbn in Hl.
  destruct (decide_submit op) as [[s ->]|[[c ->]|[Hns Hnc]]].
  - cbn in Hl. unfold committed in Hl. destruct (submit_job _ s) as [[t' o]|e] eqn:Hsub; [|by eapply Hold].
    destruct (submit_session _ _ _ _ _ _ Hsub Hl) as [Hl'|(digest & Hs & Hp & Hd & _)]; [by eapply Hold|by eapply JobBound_submitted].
  - by apply (Hold id).
  - pose proof (execute_frame (seen_by_jobs d) op Hns Hnc) as Hf. injection Hf as _ Hcols _.
    assert ((job_columns <$> cp_jobs (job_tables d)) !! id = Some (job_columns row)) as Hc by (rewrite <- Hcols, lookup_fmap, Hl; done).
    apply lookup_fmap_Some in Hc as (r & <- & Hr). by apply (Hold id).
Qed.
Lemma job_request_safe d op : guarded d (job_request op).
Proof.
  apply guarded_write. intros d1 d2 u Hg1 Hi1 [= <- _]. split; [unfold Grow; reflexivity|]. constructor; [apply Hi1| |].
  - intros id row. by apply job_op_bound.
  - apply reached_execute, (reached_execute _ (OpCatalog _)), Hi1.
Qed.

(** ** The pool *)

Inductive StoreRequest : Prog Store unit -> Prop :=
| request_read {A} (f : Store -> Stored A) : StoreRequest (request_unit (query f))
| request_create_workspace id at_ : StoreRequest (request_unit (create_workspace id at_))
| request_archive_workspace id at_ : StoreRequest (request_unit (archive_workspace id at_))
| request_create_session ws id at_ : StoreRequest (request_unit (create_session ws id at_))
| request_transition_session id target at_ : StoreRequest (request_unit (transition_session id target at_))
| request_create_source_connection ws id kind name config credential at_ :
    StoreRequest (request_unit (create_source_connection ws id kind name config credential at_))
| request_update_source_connection id name config credential expected at_ :
    StoreRequest (request_unit (update_source_connection id name config credential expected at_))
| request_transition_source_connection id target at_ : StoreRequest (request_unit (transition_source_connection id target at_))
| request_create_source_asset ws con id kind name locator at_ :
    StoreRequest (request_unit (create_source_asset ws con id kind name locator at_))
| request_retire_source_asset id : StoreRequest (request_unit (retire_source_asset id))
| request_create_dataset ws se a id name at_ : StoreRequest (request_unit (create_dataset ws se a id name at_))
| request_archive_dataset id : StoreRequest (request_unit (archive_dataset id))
| request_create_plan ws id at_ : StoreRequest (request_unit (create_plan ws id at_))
| request_archive_plan id : StoreRequest (request_unit (archive_plan id))
| request_create_plan_version x : StoreRequest (request_unit (create_plan_version x))
| request_publish_plan_version id expected at_ : StoreRequest (request_unit (publish_plan_version id expected at_))
| request_archive_plan_version id at_ : StoreRequest (request_unit (archive_plan_version id at_))
| request_job op : StoreRequest (request_unit (job_request op)).

Lemma request_safe p d : StoreRequest p -> Inv d -> safe Inv Grow anything d p.
Proof.
  intros Hr Hi. destruct Hr; (eapply safe_request; [apply _|done|]).
  - apply guarded_query.
  - by apply create_workspace_safe.
  - by apply archive_workspace_safe.
  - by apply create_session_safe.
  - by apply transition_session_safe.
  - by apply create_source_connection_safe.
  - by apply update_source_connection_safe.
  - by apply transition_source_connection_safe.
  - by apply create_source_asset_safe.
  - by apply retire_source_asset_safe.
  - by apply create_dataset_safe.
  - by apply archive_dataset_safe.
  - by apply create_plan_safe.
  - by apply archive_plan_safe.
  - by apply create_plan_version_safe.
  - by apply publish_safe.
  - by apply archive_version_safe.
  - apply job_request_safe.
Qed.

Definition empty_store : Store := mkStore (mkDirectory ∅ ∅ ∅ ∅ ∅ ∅ ∅) empty_tables.
Lemma empty_store_ok : Inv empty_store.
Proof. constructor; [constructor; constructor| |constructor]; cbn; intros; rewrite ?lookup_fmap, ?lookup_empty in *; done. Qed.
(** The states that requests can reach, with the requests under way. *)
Definition reachable_pool (c : Pool Store) : Prop := rtc (pool_step StoreRequest) (empty_store, []) c.

Lemma reachable_ok c : reachable_pool c -> Inv c.1 /\ Forall (safe Inv Grow anything c.1) c.2.
Proof.
  intros Hr. destruct (pool_safe_steps Inv Grow StoreRequest (empty_store, []) c request_safe Hr) as (? & _ & ?);
    [apply empty_store_ok|constructor|done].
Qed.
Lemma reachable_grows c c' : reachable_pool c -> rtc (pool_step StoreRequest) c c' -> Inv c'.1 /\ Grow c.1 c'.1.
Proof.
  intros Hr Hs. destruct (reachable_ok _ Hr) as [Hi Hps]. destruct (pool_safe_steps Inv Grow StoreRequest c c' request_safe Hs) as (? & ? & _); done.
Qed.
(** What was current is superseded, and what had no version has one. *)
Lemma publish_moves_on id expected at_ d d1 u :
  Inv d -> publish_tx id expected at_ d = Ok (d1, u) ->
  exists plan, v_plan_id <$> dir_versions (directory d) !! id = Some plan /\
    (exists p, dir_plans (directory d1) !! plan = Some p /\ current_rank p = 1%N) /\
    forall old, expected = Some old -> exists v, dir_versions (directory d1) !! old = Some v /\ v_state v = VersionSuperseded.
Proof.
  intros Hi%inv_directory (e & plan & He & Hs & Hp & <- & Hdir & _)%publish_tx_Ok. exists (v_plan_id e).
  destruct Hi as [_ Hv]. destruct (versions_published _ _ _ _ _ at_ Hv He Hs Hp) as [Hne _]. rewrite He, Hdir. split_and!; [done| |].
  - cbn. rewrite lookup_alter_eq, Hp. eexists. by split.
  - intros old Hold. destruct (current_published _ _ Hv _ _ _ Hp Hold) as (v & Hl & _ & Hst). exists (version_move VersionSuperseded None None v).
    cbn. rewrite published_lookup by done. rewrite decide_False by congruence. rewrite decide_True, Hl by done. cbn. unfold supersede.
    by rewrite bool_decide_eq_true_2.
Qed.

(** ** What holds whatever the order *)

(** C7: Whatever requests are under way and however their statements are
    interleaved, the store stays consistent: every session, connection, asset,
    dataset, plan and version lies in one workspace with all that it refers to;
    no plan has two versions of one number; the published version of a plan is
    its current one and its only one; and every job is of a session and of a
    once published version of its own workspace, and holds the digest of that
    version's bytes. *)
Theorem store_consistent d ps :
  reachable_pool (d, ps) ->
  ScopeOk (scope (directory d)) /\ VersionsOk (dir_plans (directory d)) (dir_versions (directory d)) /\
  forall id job, cp_jobs (job_tables d) !! id = Some job ->
    sc_sessions (scope (directory d)) !! j_session_id (job_columns job) = Some (j_workspace_id (job_columns job)) /\
    exists v, dir_versions (directory d) !! j_plan_version_id (job_columns job) = Some v /\
      v_workspace_id v = j_workspace_id (job_columns job) /\ v_state v <> VersionDraft /\
      j_canonical_plan_digest (job_columns job) = digest_hex (sha256 (v_canonical_plan_bytes v)).
Proof.
  intros [[[Hs Hv] Hj _] _]%reachable_ok. cbn in *. split_and!; [done|done|]. intros id job Hl.
  destruct (Hj _ _ Hl) as (Hse & v & Hlv & Hw & Hd & Hdig). split; [done|]. exists v. split_and!; [done|done|done|].
  rewrite Hdig. by eapply version_digest.
Qed.

(** What a request has published stays, and what was there only moves
    forward: no step of any request, from any state requests have reached, takes
    a row away, moves one to another workspace, writes over the content of a plan
    version, or takes back the archiving of a workspace, the closing of a
    session, the retirement of a connection or the publication of a version. *)
Theorem store_only_grows c c' :
  reachable_pool c -> rtc (pool_step StoreRequest) c c' -> directory_le (directory c.1) (directory c'.1).
Proof. intros Hr Hs. by destruct (reachable_grows _ _ Hr Hs). Qed.

(** C8: A publication succeeds once per expected version: when a version of a
    plan has been published against the version its author expected to be
    current, no publication that expects the same one can succeed for that plan
    any more, whatever requests have run in between. *)
Theorem publication_is_exclusive d ps id expected at_ d1 ps1 d2 ps2 id' at' :
  reachable_pool (d, ps) -> publish_tx id expected at_ d = Ok (d1, tt) -> reachable_pool (d1, ps1) ->
  rtc (pool_step StoreRequest) (d1, ps1) (d2, ps2) ->
  v_plan_id <$> dir_versions (directory d2) !! id' = v_plan_id <$> dir_versions (directory d) !! id ->
  exists e, publish_tx id' expected at' d2 = Err e.
Proof.
  intros [Hi _]%reachable_ok Hpub Hr1 Hsteps Hplan. destruct (reachable_grows _ _ Hr1 Hsteps) as [Hi2 Hg]. cbn in *.
  destruct (publish_moves_on _ _ _ _ _ _ Hi Hpub) as (plan & Hp & (p1 & Hp1 & Hcur) & Hold).
  destruct (publish_tx id' expected at' d2) as [[d3 []]|e] eqn:Hsecond; [exfalso|eauto].
  apply publish_tx_Ok in Hsecond as (v & p2 & Hv & _ & Hp2 & Hexp & _ & _). rewrite Hp, Hv in Hplan. injection Hplan as Hplan. rewrite Hplan in Hp2.
  destruct expected as [old|].
  - destruct (Hold old eq_refl) as (o & Ho & Hsup). destruct (versions_ranked _ _ Hg _ _ Ho) as (o2 & Ho2 & Hrank).
    destruct (current_published _ _ (directory_versions _ (inv_directory _ Hi2)) _ _ _ Hp2 Hexp) as (o3 & Ho3 & _ & Hst).
    rewrite Ho2 in Ho3. injection Ho3 as <-. unfold version_rank in Hrank. by rewrite Hsup, Hst in Hrank.
  - destruct (currents_ranked _ _ Hg _ _ Hp1) as (p3 & Hp3 & Hrank). rewrite Hp2 in Hp3. injection Hp3 as <-.
    unfold current_rank in *. by rewrite Hexp, Hcur in Hrank.
Qed.
End interleavings.
