(* ===== verification/Closing.v ===== *)
(** * The end of a session

    A session closes when none of its jobs is left to run.  That holds when
    requests run one after another; the count of the jobs and the change of the
    session are two statements, and a submission between them leaves a closed
    session with a queued job. *)

From S2P Require Import Prelude Text Secrets Logical Nodes Schedule Automation Hex Canonical Operations Jobs Submissions Outputs Lifecycle Reports Life Refines Reachable Frame Sample Control Autocommit Workspaces Scopes Interleavings.

Section closing.
Context `{JobCodec} `{StoreFiles}.
#[local] Existing Instance Grow_preorder.

(** ** Requests one after another *)

Inductive serial : Store -> Prop :=
| serial_empty : serial empty_store
| serial_request d p : serial d -> StoreRequest p -> serial (exec p d).1.

Lemma serial_ok d : serial d -> Inv d.
Proof.
  induction 1 as [|d p _ IH Hp]; [apply empty_store_ok|]. destruct (safe_exec Inv Grow anything d p) as (_ & Hi & _); [|done|done].
  by apply request_safe.
Qed.

Definition Idle (d : Store) : Prop :=
  forall session e id job,
    dir_sessions (directory d) !! session = Some e -> se_state e <> SessionOpen ->
    cp_jobs (job_tables d) !! id = Some job -> j_session_id (job_columns job) = session -> job_is_terminal (j_state job) = true.

(** What a request leaves of the sessions and the jobs, run with nothing in
    between. *)
Notation keeps := (preserves Idle).
Lemma exec_query_then {A B} (f : Store -> Stored A) (k : A -> Request B) d :
  exec (mbind (M:=Request) k (query f)) d = match f d with Ok a => exec (k a) d | Err e => (d, Err e) end.
Proof. apply exec_auto_query. Qed.
Lemma exec_check_then {A B} (m : Stored A) (k : A -> Request B) d :
  exec (mbind (M:=Request) k (check m)) d = match m with Ok a => exec (k a) d | Err e => (d, Err e) end.
Proof. apply exec_auto_check. Qed.
Lemma exec_write_then {A B} (f : Store -> Stored (Store * A)) (k : A -> Request B) d :
  exec (mbind (M:=Request) k (write f)) d = match f d with Ok (d', a) => exec (k a) d' | Err e => (d, Err e) end.
Proof. apply exec_auto_write. Qed.

Lemma idle_same d d' :
  dir_sessions (directory d') = dir_sessions (directory d) -> job_tables d' = job_tables d -> Idle d -> Idle d'.
Proof. intros Hs Hj Hd session e id job. rewrite Hs, Hj. apply Hd. Qed.
Lemma insert_keeps {A} get (set : gmap Uuid A -> Directory -> Directory) refs id row :
  (forall m r, dir_sessions (set m r) = dir_sessions r) -> keeps (write (insert_row get set refs id row)).
Proof.
  intros Hset. apply preserves_write. intros d d' a Hd (_ & _ & Hdir & Hj)%insert_statement_Ok. apply (idle_same d); [by rewrite Hdir, Hset|done|done].
Qed.
Lemma update_keeps {A} get (set : gmap Uuid A -> Directory -> Directory) id cond f refused :
  (forall m r, dir_sessions (set m r) = dir_sessions r) -> keeps (write (update_row get set id cond f refused)).
Proof.
  intros Hset. apply preserves_write. intros d d' a Hd (row & _ & _ & Hdir & Hj)%update_statement_Ok. apply (idle_same d); [by rewrite Hdir, Hset|done|done].
Qed.
Lemma new_session_keeps refs id ws at_ :
  keeps (write (insert_row dir_sessions set_sessions refs id (mkSessionRecord ws SessionOpen at_ at_))).
Proof.
  apply preserves_write. intros d d' a Hd (_ & _ & Hdir & Hj)%insert_statement_Ok session e i job. rewrite Hdir, Hj. cbn.
  intros [[<- <-]|[_ Hl]]%lookup_insert_Some Hs; [done|]. by eapply Hd.
Qed.
Lemma publish_keeps id expected at_ : keeps (write (publish_tx id expected at_)).
Proof.
  apply preserves_write. intros d d' [] Hd (e & plan & _ & _ & _ & _ & Hdir & Hj)%publish_tx_Ok. by apply (idle_same d); [rewrite Hdir| |].
Qed.
Lemma archive_keeps id at_ : keeps (write (archive_tx id at_)).
Proof. apply preserves_write. intros d d' r Hd (e & _ & _ & Hdir & Hj)%archive_tx_Ok. by apply (idle_same d); [rewrite Hdir| |]. Qed.

Lemma no_active_jobs d session id job :
  active_jobs d session = 0%N -> cp_jobs (job_tables d) !! id = Some job -> j_session_id (job_columns job) = session ->
  job_is_terminal (j_state job) = true.
Proof.
  unfold active_jobs, len. intros Hz Hl Hs. destruct (job_is_terminal (j_state job)) eqn:Ht; [done|exfalso].
  assert ((id, job) ∈ filter (fun e : Uuid * JobRow => (j_session_id (job_columns e.2) =? session)%N && negb (job_is_terminal (j_state e.2)))
            (map_to_list (cp_jobs (job_tables d)))) as Hin.
  { rewrite list_elem_of_filter, elem_of_map_to_list. cbn. by rewrite Hs, N.eqb_refl, Ht. }
  destruct (filter _ _); [by apply not_elem_of_nil in Hin|done].
Qed.
(** The jobs are counted in the state in which the session is changed. *)
Lemma session_update_keeps id cond target at_ refused d :
  Idle d -> (target <> SessionOpen -> active_jobs d id = 0%N) ->
  Idle (exec (mbind (M:=Request) (fun _ => query (fun r => session_from_connection r id))
          (write (update_row dir_sessions set_sessions id cond (session_move target at_) refused))) d).1.
Proof.
  intros Hd Ha. rewrite exec_write_then. destruct (update_row _ _ _ _ _ _ d) as [[d' []]|e] eqn:Hw; [|done].
  apply update_statement_Ok in Hw as (row & Hl & _ & Hdir & Hj). intros session e i job. cbn. rewrite Hdir, Hj. cbn.
  intros [[<- <-]|[_ Hs]]%lookup_insert_Some Ho; [intros; eapply no_active_jobs; [by apply Ha|done|done]|by eapply Hd].
Qed.
Lemma transition_session_keeps id target at_ : keeps (transition_session id target at_).
Proof.
  intros d Hd. unfold transition_session, get_session. rewrite exec_query_then.
  destruct (session_from_connection d id) as [current|e]; [|done].
  rewrite exec_check_then. destruct (if negb _ then _ else _) as [[]|e]; [|done]. destruct (closes target) eqn:Hc.
  - rewrite exec_query_then. destruct (active_jobs d id =? 0)%N eqn:Ha; [|done]. apply N.eqb_eq in Ha. by apply session_update_keeps.
  - apply session_update_keeps; [done|]. by destruct target.
Qed.

(** *** Jobs *)

Lemma submit_open t s t' o id row :
  submit_job t s = Ok (t', o) -> cp_jobs t' !! id = Some row ->
  cp_jobs t !! id = Some row \/ s_state <$> cp_sessions (catalog t) !! j_session_id (job_columns row) = Some "open".
Proof.
  intros Hs Hl. destruct (submit_session _ _ _ _ _ _ Hs Hl) as [Hold|(digest & Hse & _)]; [by left|right].
  unfold ensure_session_workspace in Hse. destruct (cp_sessions (catalog t) !! _) as [e|]; [|done]. cbn.
  destruct (_ && _) eqn:Hb; [|by case_match]. apply andb_true_iff in Hb as [_ Hb]. by apply bool_decide_eq_true in Hb as ->.
Qed.
(** A job that has ended keeps its state and its columns. *)
Lemma ended_job t op id job' :
  reached t -> (forall s, op <> OpSubmit s) -> (forall c, op <> OpCatalog c) -> cp_jobs (execute t op) !! id = Some job' ->
  exists job, cp_jobs t !! id = Some job /\ job_columns job = job_columns job' /\
    (job_is_terminal (j_state job) = true -> job_is_terminal (j_state job') = true).
Proof.
  intros Ht Hns Hnc Hl. pose proof (execute_frame t op Hns Hnc) as Hf. injection Hf as _ Hcols _.
  assert ((job_columns <$> cp_jobs t) !! id = Some (job_columns job')) as Hc by (rewrite <- Hcols, lookup_fmap, Hl; done).
  apply lookup_fmap_Some in Hc as (job & Heq & Hjob). exists job. split_and!; [done|done|]. intros Hterm.
  destruct (steps_kept _ _ (execute_refines t op (reached_ok _ Ht))) as [Hkept _]. apply life_job_lookup in Hjob.
  destruct (Hkept _ _ Hjob) as (j' & Hj' & _ & _ & Hsame). rewrite (Hsame Hterm) in Hj'. apply life_job_lookup in Hl.
  rewrite Hj' in Hl. injection Hl as _ Hstate _ _ _. congruence.
Qed.
Lemma job_op_keeps op d : reached (job_tables d) -> Idle d -> Idle (run_job_op op d).
Proof.
  intros Hr Hd session e id job Hs Ho Hl Hj. cbn in Hs, Hl. assert (reached (seen_by_jobs d)) as Hseen by apply (reached_execute _ (OpCatalog _)), Hr.
  destruct (decide_submit op) as [[s ->]|[[c ->]|[Hns Hnc]]].
  - cbn in Hl. unfold committed in Hl. destruct (submit_job _ s) as [[t' o]|err] eqn:Hsub; [|by eapply Hd].
    destruct (submit_open _ _ _ _ _ _ Hsub Hl) as [Hold|Hopen]; [by eapply Hd|]. exfalso. rewrite Hj in Hopen. cbn in Hopen.
    rewrite lookup_fmap, Hs in Hopen. cbn in Hopen. injection Hopen as Hopen. by destruct (se_state e).
  - by eapply Hd.
  - destruct (ended_job _ _ _ _ Hseen Hns Hnc Hl) as (old & Hold & Hcols & Hend). apply Hend. eapply Hd; [exact Hs|done|exact Hold|by rewrite Hcols].
Qed.

Ltac keep := repeat first
  [ apply preserves_query | apply preserves_check | apply preserves_ret | by apply insert_keeps | by apply update_keeps | apply new_session_keeps
  | apply publish_keeps | apply archive_keeps | apply preserves_then; [|intros ?] ].
Lemma request_keeps p d : StoreRequest p -> Inv d -> Idle d -> Idle (exec p d).1.
Proof.
  intros Hp Hi Hd. destruct Hp; lazymatch goal with |- context [job_request] => idtac | _ => apply preserves_unit; [|done] end.
  all: try apply transition_session_keeps.
  all: try (cbv delta [create_workspace archive_workspace create_session create_source_connection
    update_source_connection transition_source_connection create_source_asset retire_source_asset create_dataset archive_dataset create_plan
    archive_plan create_plan_version publish_plan_version archive_plan_version get_workspace get_session get_source_connection
    get_source_asset get_dataset get_plan get_plan_version] beta; keep; done).
  - unfold create_plan_version, get_plan_version. keep. destruct (pvd_parent_version_id x); keep.
  - apply job_op_keeps; [apply Hi|done].
Qed.

(** C35: When requests run one after another, a session that is closing or
    closed has no job left to run: it closes only when its jobs have ended, they
    stay ended, and it takes no new one. *)
Theorem closed_sessions_are_idle d session e id job :
  serial d -> dir_sessions (directory d) !! session = Some e -> se_state e <> SessionOpen ->
  cp_jobs (job_tables d) !! id = Some job -> j_session_id (job_columns job) = session -> job_is_terminal (j_state job) = true.
Proof.
  intros Hserial. revert session e id job. change (Idle d). induction Hserial as [|d p Hd IH Hp].
  - intros session e id job Hs. done.
  - apply request_keeps; [done|by apply serial_ok|done].
Qed.
End closing.

(** ** A store at work *)

#[local] Open Scope N_scope.

Notation requested := (requested_by StoreRequest).

Definition sample_draft (id number : N) : PlanVersionDraft :=
  mkPlanVersionDraft 1 3 id number None (JObject []) [id] (sample_sha [id]) sample_digest 1%Z.
Definition workspace_submission : JobSubmission :=
  let draft := mkSubmission 1 2 None 4 (sample_sha [4]) None 10 "key" [] (JObject []) (JObject []) zero_digest 5%Z 100 "request" "correlation" "actor" in
  match submission_try_new draft with Ok s => s | Err _ => draft end.
(** A workspace with a session and a plan of two drafts. *)
Definition opening : list (Prog Store unit) :=
  [request_unit (create_workspace 1 0%Z); request_unit (create_session 1 2 0%Z); request_unit (create_plan 1 3 0%Z);
   request_unit (create_plan_version (sample_draft 4 1)); request_unit (create_plan_version (sample_draft 7 2))].
Lemma opening_requests : Forall StoreRequest opening.
Proof. repeat constructor. Qed.
Definition serially (ps : list (Prog Store unit)) (d : Store) : Store := foldl (fun d p => (exec p d).1) d ps.
Lemma serially_serial ps d : Forall StoreRequest ps -> serial d -> serial (serially ps d).
Proof. intros Hps. revert d. induction Hps as [|p ps Hp _ IH]; intros d Hd; [done|]. by apply IH, serial_request. Qed.
Definition from_empty (ts : list (Turn Store)) : Pool Store := foldl play (empty_store, []) ts.
Lemma from_empty_reachable ts : Forall requested ts -> reachable_pool ((from_empty ts).1, (from_empty ts).2).
Proof. intros Hts. rewrite <- surjective_pairing. by apply play_steps. Qed.
Lemma from_empty_app ts ts' : Forall requested ts' -> rtc (pool_step StoreRequest)
  ((from_empty ts).1, (from_empty ts).2) ((from_empty (ts ++ ts')).1, (from_empty (ts ++ ts')).2).
Proof. intros Hts. rewrite <- !surjective_pairing. unfold from_empty. rewrite foldl_app. by apply play_steps. Qed.

Definition publish_first : Prog Store unit := request_unit (publish_plan_version 4 None 2%Z).
Definition submit_sample : Prog Store unit := request_unit (job_request (OpSubmit workspace_submission)).
Definition opened : list (Prog Store unit) := opening ++ [publish_first].
Definition opened_pool : list (Turn Store) := schedule 0 opened.
Lemma opened_requested : Forall requested opened_pool.
Proof. apply schedule_requested. repeat constructor. Qed.
Definition close_sample : Prog Store unit := request_unit (transition_session 2 SessionClosed 9%Z).
(** The session is read and its jobs are counted; a job is submitted; then the
    session is closed. *)
Definition racing : list (Turn Store) := [Arrive close_sample; Next 6; Next 6; Arrive submit_sample; Next 7; Next 6; Next 6].
Lemma racing_requested : Forall requested racing.
Proof. repeat constructor. Qed.

(** The check that a session has no job left does not survive other
    requests: the jobs are counted in one statement and the session is changed in
    another, and a job submitted between the two is queued in a session that is
    then closed. *)
Theorem close_races_submission :
  exists d ps, reachable_pool (d, ps) /\ se_state <$> dir_sessions (directory d) !! 2 = Some SessionClosed /\
    exists job, cp_jobs (job_tables d) !! 10 = Some job /\ j_session_id (job_columns job) = 2 /\ job_is_terminal (j_state job) = false.
Proof.
  exists (from_empty (opened_pool ++ racing)).1, (from_empty (opened_pool ++ racing)).2. split_and!.
  - apply from_empty_reachable, Forall_app. split; [apply opened_requested|apply racing_requested].
  - by vm_compute.
  - destruct (cp_jobs (job_tables (from_empty (opened_pool ++ racing)).1) !! 10) as [job|] eqn:Hjob; [|by vm_compute in Hjob].
    exists job. revert Hjob. vm_compute. intros Hjob. by injection Hjob as <-.
Qed.

(** ** On the sample *)

Definition submitted_pool : list (Turn Store) := opened_pool ++ [Arrive submit_sample; Next 6].
Lemma submitted_requested : Forall requested submitted_pool.
Proof. apply Forall_app. split; [apply opened_requested|]. repeat constructor. Qed.
Lemma store_consistent_witness :
  exists job, cp_jobs (job_tables (from_empty submitted_pool).1) !! 10 = Some job /\
    exists v, dir_versions (directory (from_empty submitted_pool).1) !! j_plan_version_id (job_columns job) = Some v /\
      j_canonical_plan_digest (job_columns job) = digest_hex (sha256 (v_canonical_plan_bytes v)).
Proof.
  destruct (store_consistent _ _ (from_empty_reachable _ submitted_requested)) as (_ & _ & Hjobs).
  destruct (cp_jobs (job_tables (from_empty submitted_pool).1) !! 10) as [job|] eqn:Hjob; [|by vm_compute in Hjob].
  exists job. split; [reflexivity|]. destruct (Hjobs _ _ Hjob) as (_ & v & Hv & _ & _ & Hd). exists v. split; [exact Hv|exact Hd].
Defined.
Lemma store_only_grows_witness : directory_le (directory (from_empty opened_pool).1) (directory (from_empty (opened_pool ++ racing)).1).
Proof.
  exact (store_only_grows ((from_empty opened_pool).1, (from_empty opened_pool).2) ((from_empty (opened_pool ++ racing)).1, (from_empty (opened_pool ++ racing)).2)
    (from_empty_reachable _ opened_requested) (from_empty_app _ _ racing_requested)).
Defined.
Definition opening_pool : list (Turn Store) := schedule 0 opening.
Lemma opening_requested : Forall requested opening_pool.
Proof. apply schedule_requested, opening_requests. Qed.
Definition published_pool : list (Turn Store) := opening_pool ++ [Arrive publish_first; Next 5].
Lemma published_requested : Forall requested published_pool.
Proof. apply Forall_app. split; [apply opening_requested|]. repeat constructor. Qed.
Lemma publication_is_exclusive_witness :
  exists e, publish_tx 7 None 3%Z (from_empty (published_pool ++ [Arrive submit_sample; Next 6])).1 = Err e.
Proof.
  apply (publication_is_exclusive (from_empty opening_pool).1 (from_empty opening_pool).2 4 None 2%Z
    (from_empty published_pool).1 (from_empty published_pool).2 _ (from_empty (published_pool ++ [Arrive submit_sample; Next 6])).2).
  - exact (from_empty_reachable _ opening_requested).
  - by vm_compute.
  - exact (from_empty_reachable _ published_requested).
  - apply from_empty_app. repeat constructor.
  - by vm_compute.
Defined.
Definition ended : list (Prog Store unit) :=
  opened ++ [submit_sample;
    request_unit (job_request (OpCancelQueued 10 (sample_event 101 JobStream 10 None JobCancelling 6%Z) (sample_event 102 JobStream 10 None JobCancelled 7%Z)));
    close_sample].
Lemma ended_requests : Forall StoreRequest ended.
Proof. repeat constructor. Qed.
Lemma closed_sessions_are_idle_witness :
  exists job, cp_jobs (job_tables (serially ended empty_store)) !! 10 = Some job /\ job_is_terminal (j_state job) = true.
Proof.
  destruct (cp_jobs (job_tables (serially ended empty_store)) !! 10) as [job|] eqn:Hjob; [|by vm_compute in Hjob].
  destruct (dir_sessions (directory (serially ended empty_store)) !! 2) as [e|] eqn:He; [|by vm_compute in He].
  exists job. split; [reflexivity|].
  apply (closed_sessions_are_idle _ 2 e 10 job (serially_serial _ _ ended_requests serial_empty) He).
  - revert He. vm_compute. intros He. by injection He as <-.
  - exact Hjob.
  - revert Hjob. vm_compute. intros Hjob. by injection Hjob as <-.
Defined.
