(* ===== verification/Identity.v ===== *)
(** * Members, roles and credentials: [stillflow-storage/src/identity.rs]

    Members, roles with their capabilities, service accounts and references to
    credentials that providers keep outside the store.  Like the operations of
    [Workspaces], most are programs of statements that commit one by one; the
    end of a rotation and the changes of roles are transactions. *)

From S2P Require Import Prelude Text Secrets Logical Nodes Schedule Automation Hex Executions Canonical Operations Jobs Submissions Outputs Lifecycle Reports Life Refines Reachable Autocommit Workspaces.

Definition MAX_IDENTITY_TEXT : N := 256.

Inductive IdentityState := IdentityActive | IdentityRevoked.
Inductive PrincipalKind := PrincipalMember | PrincipalServiceAccount.
Inductive CredentialState :=
  CredentialPending | CredentialActive | CredentialRotating | CredentialRevoked | CredentialExpired | CredentialRecoveryRequired.
#[export] Instance IdentityState_eq_dec : EqDecision IdentityState.
Proof. solve_decision. Defined.
#[export] Instance PrincipalKind_eq_dec : EqDecision PrincipalKind.
Proof. solve_decision. Defined.
#[export] Instance CredentialState_eq_dec : EqDecision CredentialState.
Proof. solve_decision. Defined.
Record CredentialOwner := mkOwner { owner_kind : PrincipalKind; owner_id : Uuid }.
#[export] Instance CredentialOwner_eq_dec : EqDecision CredentialOwner.
Proof. solve_decision. Defined.

(** ** References to credentials ([stillflow-core/src/domain/connection.rs]) *)

Definition validate_credential_reference (reference : string) : bool :=
  starts_with (bytes_of "cred://") (bytes_of reference)
  && match ensure_safe_string_value reference with Ok _ => true | Err _ => false end.
(** A [CredentialRef] is only made by its checked constructor. *)
Record CredentialRef := mkCredentialRef { as_str : string; as_str_valid : validate_credential_reference as_str = true }.
Definition credential_ref_new (reference : string) : option CredentialRef :=
  match validate_credential_reference reference as b return validate_credential_reference reference = b -> option CredentialRef with
  | true => fun Hv => Some (mkCredentialRef reference Hv)
  | false => fun _ => None
  end eq_refl.

Inductive CredentialProviderError := Unavailable | Denied | Unsupported | InvalidReference | ProviderNotRegistered.
Notation Provided := (result CredentialProviderError).

Definition ascii_alphanumeric (b : N) : bool :=
  ((48 <=? b) && (b <=? 57) || (65 <=? b) && (b <=? 90) || (97 <=? b) && (b <=? 122))%N.
Definition kind_byte (b : N) : bool := ascii_alphanumeric b || (b =? 45)%N.
(** [str::split_once('/')] *)
Fixpoint split_slash (t : list N) : option (list N * list N) :=
  match t with
  | [] => None
  | b :: t => if (b =? 47)%N then Some ([], t) else (fun '(u, v) => (b :: u, v)) <$> split_slash t
  end.
Definition strip_prefix (prefix t : list N) : option (list N) :=
  if starts_with prefix t then Some (drop (length prefix) t) else None.
Definition provider_kind (r : CredentialRef) : Provided (list N) :=
  rest ← ok_or (strip_prefix (bytes_of "cred://") (bytes_of (as_str r))) InvalidReference;
  parts ← ok_or (split_slash rest) InvalidReference;
  let '(kind, key) := parts in
  if bool_decide (kind = []) || bool_decide (key = []) || negb (forallb kind_byte kind) then Err InvalidReference else Ok kind.
Definition provider_key (r : CredentialRef) (expected : list N) : Provided (list N) :=
  kind ← provider_kind r;
  if negb (bool_decide (kind = expected)) then Err InvalidReference else
  key ← ok_or (strip_prefix (bytes_of "cred://" ++ expected ++ [47%N]) (bytes_of (as_str r))) InvalidReference;
  if bool_decide (key = []) then Err InvalidReference else Ok key.

(** ** Providers

    A provider works on a state of its own, the environment or a keychain; what
    an operation has changed stays when a later one fails. *)

Definition Effect (S A : Type) : Type := S -> S * Provided A.
Definition pure_effect {S A} (r : Provided A) : Effect S A := fun s => (s, r).
Definition unsupported {S A} : Effect S A := pure_effect (Err Unsupported).
Definition then_effect {S A B} (m : Effect S A) (k : A -> Effect S B) : Effect S B :=
  fun s => let '(s, r) := m s in match r with Ok a => k a s | Err e => (s, Err e) end.
Record CredentialProvider (S : Type) := mkProvider {
  provider_name : string;
  resolve : CredentialRef -> Effect S (list N);
  store : CredentialRef -> list N -> Effect S unit;
  rotate : CredentialRef -> CredentialRef -> list N -> Effect S unit;
  revoke : CredentialRef -> Effect S unit;
  recover : CredentialRef -> Effect S unit;
}.
#[global] Arguments mkProvider {S}.
#[global] Arguments provider_name {S}.
#[global] Arguments resolve {S}.
#[global] Arguments store {S}.
#[global] Arguments rotate {S}.
#[global] Arguments revoke {S}.
#[global] Arguments recover {S}.

Definition CredentialProviderRegistry (S : Type) : Type := gmap string (CredentialProvider S).
Definition register {S} (registry : CredentialProviderRegistry S) (p : CredentialProvider S) : Provided (CredentialProviderRegistry S) :=
  if bool_decide (provider_name p = EmptyString) || bool_decide (is_Some (registry !! provider_name p)) then Err InvalidReference
  else Ok (<[provider_name p := p]> registry).
Definition registry_resolve {S} (registry : CredentialProviderRegistry S) (r : CredentialRef) : Effect S (list N) :=
  match provider_kind r with
  | Err e => pure_effect (Err e)
  | Ok kind => match registry !! string_of_bytes kind with
               | Some p => resolve p r
               | None => pure_effect (Err ProviderNotRegistered)
               end
  end.

(** The environment only answers. *)
Definition environment_provider_new (prefix : string) : Provided string :=
  if has_control (bytes_of prefix) then Err InvalidReference else Ok prefix.
Definition variable_name (prefix : string) (r : CredentialRef) : Provided (list N) :=
  key ← provider_key r (bytes_of "env");
  if negb (forallb (fun b => ascii_alphanumeric b || (b =? 95)%N) key) then Err InvalidReference else Ok (bytes_of prefix ++ key).
Definition EnvironmentCredentialProvider {S} (var : S -> list N -> option (list N)) (prefix : string) : CredentialProvider S :=
  mkProvider "env"
    (fun r s => (s, variable ← variable_name prefix r; ok_or (var s variable) Unavailable))
    (fun _ _ => unsupported) (fun _ _ _ => unsupported) (fun _ => unsupported) (fun _ => unsupported).

Class KeychainBackend (S : Type) := {
  keychain_get : list N -> Effect S (list N);
  keychain_put : list N -> list N -> Effect S unit;
  keychain_delete : list N -> Effect S unit;
  keychain_recover : list N -> Effect S unit;
}.
Section keychain.
Context {S} `{KeychainBackend S}.
Definition with_key {A} (kind : string) (r : CredentialRef) (f : list N -> Effect S A) : Effect S A :=
  then_effect (pure_effect (provider_key r (bytes_of kind))) f.
Definition keychain_store (r : CredentialRef) (material : list N) : Effect S unit := with_key "keychain" r (fun key => keychain_put key material).
Definition keychain_revoke (r : CredentialRef) : Effect S unit := with_key "keychain" r keychain_delete.
Definition keychain_rotate (old new : CredentialRef) (replacement : list N) : Effect S unit :=
  then_effect (keychain_store new replacement) (fun _ => keychain_revoke old).
Definition OsKeychainProvider : CredentialProvider S :=
  mkProvider "keychain" (fun r => with_key "keychain" r keychain_get) keychain_store keychain_rotate keychain_revoke
    (fun r => with_key "keychain" r keychain_recover).
End keychain.

Class ExternalCredentialBackend (S : Type) := {
  external_resolve : string -> Effect S (list N);
  external_store : string -> list N -> Effect S unit;
  external_rotate : string -> string -> list N -> Effect S unit;
  external_revoke : string -> Effect S unit;
  external_recover : string -> Effect S unit;
}.
Section external.
Context {S} `{ExternalCredentialBackend S}.
Definition external {A} (r : CredentialRef) (m : Effect S A) : Effect S A :=
  then_effect (pure_effect (provider_key r (bytes_of "external"))) (fun _ => m).
Definition ExternalCredentialProvider : CredentialProvider S :=
  mkProvider "external" (fun r => external r (external_resolve (as_str r)))
    (fun r material => external r (external_store (as_str r) material))
    (fun old new replacement => external old (external new (external_rotate (as_str old) (as_str new) replacement)))
    (fun r => external r (external_revoke (as_str r))) (fun r => external r (external_recover (as_str r))).
End external.

(** ** Tables *)

Record MemberRow := mkMember {
  m_workspace_id : Uuid; m_subject_ref : string; m_state : IdentityState; m_created_at : DateTime; m_revoked_at : option DateTime }.
Record RoleRow := mkRole { ro_workspace_id : Uuid; ro_name : string; ro_created_at : DateTime }.
Record ServiceAccountRow := mkServiceAccount {
  sv_workspace_id : Uuid; sv_name : string; sv_state : IdentityState; sv_created_at : DateTime; sv_revoked_at : option DateTime }.
Record CredentialRow := mkCredential {
  cr_workspace_id : Uuid;
  cr_owner : CredentialOwner;
  cr_provider_kind : string;
  cr_credential_ref : string;
  cr_state : CredentialState;
  cr_created_at : DateTime;
  cr_expires_at : option DateTime;
  cr_revoked_at : option DateTime;
}.
Record IdentityTables := mkIdentity {
  sec_members : gmap Uuid MemberRow;
  sec_roles : gmap Uuid RoleRow;
  sec_role_capabilities : gset (Uuid * string);
  (** member and role, with their workspace *)
  sec_member_roles : gmap (Uuid * Uuid) Uuid;
  sec_service_accounts : gmap Uuid ServiceAccountRow;
  sec_credentials : gmap Uuid CredentialRow;
}.
(** The database with these tables. *)
Record Realm := mkRealm { realm_store : Store; identities : IdentityTables }.
Definition on_identities (f : IdentityTables -> IdentityTables) (d : Realm) : Realm := mkRealm (realm_store d) (f (identities d)).
Definition set_members (m : gmap Uuid MemberRow) (t : IdentityTables) : IdentityTables :=
  mkIdentity m (sec_roles t) (sec_role_capabilities t) (sec_member_roles t) (sec_service_accounts t) (sec_credentials t).
Definition set_roles (m : gmap Uuid RoleRow) (t : IdentityTables) : IdentityTables :=
  mkIdentity (sec_members t) m (sec_role_capabilities t) (sec_member_roles t) (sec_service_accounts t) (sec_credentials t).
Definition set_capabilities (m : gset (Uuid * string)) (t : IdentityTables) : IdentityTables :=
  mkIdentity (sec_members t) (sec_roles t) m (sec_member_roles t) (sec_service_accounts t) (sec_credentials t).
Definition set_member_roles (m : gmap (Uuid * Uuid) Uuid) (t : IdentityTables) : IdentityTables :=
  mkIdentity (sec_members t) (sec_roles t) (sec_role_capabilities t) m (sec_service_accounts t) (sec_credentials t).
Definition set_service_accounts (m : gmap Uuid ServiceAccountRow) (t : IdentityTables) : IdentityTables :=
  mkIdentity (sec_members t) (sec_roles t) (sec_role_capabilities t) (sec_member_roles t) m (sec_credentials t).
Definition set_credentials (m : gmap Uuid CredentialRow) (t : IdentityTables) : IdentityTables :=
  mkIdentity (sec_members t) (sec_roles t) (sec_role_capabilities t) (sec_member_roles t) (sec_service_accounts t) m.

Notation Identified := (Auto Realm StorageError).
(** A request on the rest of the store. *)
Definition lift {A} : Prog Store A -> Prog Realm A := focus realm_store (fun st d => mkRealm st (identities d)).

Record RoleRecord := mkRoleRecord { role_row : RoleRow; role_capabilities : list string }.
Record CredentialRefRecord := mkCredentialRefRecord { credential_row : CredentialRow; credential_ref : CredentialRef }.
Record CredentialRefDraft := mkCredentialRefDraft {
  cd_id : Uuid;
  cd_workspace_id : Uuid;
  cd_owner : CredentialOwner;
  cd_provider_kind : string;
  cd_credential_ref : CredentialRef;
  cd_created_at : DateTime;
  cd_expires_at : option DateTime;
}.

(** ** Checks *)

Definition validate_identity_id (value : Uuid) (label : string) : Stored unit := if is_nil value then Err (Identity label) else Ok tt.
Definition validate_identity_text (value label : string) : Stored unit :=
  if (str_len value =? 0)%N || (MAX_IDENTITY_TEXT <? str_len value)%N || has_control (bytes_of value) then Err (Identity label) else
  if existsb (fun marker => contains_sub (bytes_of marker) (to_ascii_lowercase (bytes_of value))) ["password="; "token="; "private_key="]
  then Err (Identity "plaintext secret in identity text") else Ok tt.
Definition validate_capability (value : string) : Stored unit :=
  try! validate_identity_text value "capability";
  if negb (forallb (fun b => ascii_alphanumeric b || (b =? 58)%N || (b =? 95)%N || (b =? 45)%N) (bytes_of value))
  then Err (Identity "capability contains unsafe characters") else Ok tt.
Definition validate_expiry (created_at : DateTime) (expires_at : option DateTime) : Stored unit :=
  match expires_at with
  | Some value => if (value <=? created_at)%Z then Err (InvalidTimestampOrder "credential expiry") else Ok tt
  | None => Ok tt
  end.
Definition validate_provider_reference (kind : string) (r : CredentialRef) : Stored unit :=
  reference_kind ← map_err (fun _ => Identity "invalid credential reference") (provider_kind r);
  if negb (bool_decide (reference_kind = bytes_of kind)) then Err (Identity "credential provider/reference mismatch") else
  validate_identity_text kind "credential provider kind".

(** ** Reading *)

(** [WHERE id = ?1 AND workspace_id = ?2] *)
Definition in_workspace {A} (workspace_of : A -> Uuid) (rows : gmap Uuid A) (workspace id : Uuid) : Stored A :=
  match rows !! id with
  | Some row => if (workspace_of row =? workspace)%N then Ok row else Err IdentityNotFound
  | None => Err IdentityNotFound
  end.
Definition member_from_connection (d : Realm) (workspace id : Uuid) : Stored MemberRow :=
  in_workspace m_workspace_id (sec_members (identities d)) workspace id.
Definition service_account_from_connection (d : Realm) (workspace id : Uuid) : Stored ServiceAccountRow :=
  in_workspace sv_workspace_id (sec_service_accounts (identities d)) workspace id.
Definition raw_credential (d : Realm) (workspace id : Uuid) : Stored CredentialRow :=
  in_workspace cr_workspace_id (sec_credentials (identities d)) workspace id.
Definition credential_from_connection (d : Realm) (workspace id : Uuid) : Stored CredentialRefRecord :=
  row ← raw_credential d workspace id;
  r ← ok_or (credential_ref_new (cr_credential_ref row)) (Identity "stored credential reference is invalid");
  Ok (mkCredentialRefRecord row r).
(** The role in one statement, its capabilities in another. *)
Definition capabilities_of (role : Uuid) (t : IdentityTables) : list string :=
  merge_sort str_le (snd <$> filter (fun p => p.1 = role) (elements (sec_role_capabilities t))).
Definition role_from_connection (workspace id : Uuid) : Identified RoleRecord :=
  row ← query (fun d => in_workspace ro_workspace_id (sec_roles (identities d)) workspace id);
  capabilities ← query (fun d => Ok (capabilities_of id (identities d)));
  mret (mkRoleRecord row capabilities).
Definition ensure_active_workspace (d : Realm) (workspace : Uuid) : Stored unit :=
  match dir_workspaces (directory (realm_store d)) !! workspace with
  | Some w => match w_state w with WorkspaceActive => Ok tt | WorkspaceArchived => Err IdentityNotFound end
  | None => Err IdentityNotFound
  end.
Definition ensure_member_in_workspace (t : IdentityTables) (workspace id : Uuid) : Stored unit :=
  try! in_workspace m_workspace_id (sec_members t) workspace id; Ok tt.
Definition ensure_role_in_workspace (t : IdentityTables) (workspace id : Uuid) : Stored unit :=
  try! in_workspace ro_workspace_id (sec_roles t) workspace id; Ok tt.
Definition ensure_owner_in_workspace (t : IdentityTables) (workspace : Uuid) (owner : CredentialOwner) : Stored unit :=
  match owner_kind owner with
  | PrincipalMember => ensure_member_in_workspace t workspace (owner_id owner)
  | PrincipalServiceAccount => try! in_workspace sv_workspace_id (sec_service_accounts t) workspace (owner_id owner); Ok tt
  end.

(** ** Writing

    A constraint that an insert would break is [IdentityAlreadyExists]. *)

Definition workspace_exists (d : Realm) (workspace : Uuid) : bool := has (dir_workspaces (directory (realm_store d))) workspace.
(** [UNIQUE (workspace_id, ..)] *)
Definition unused {A} (same : A -> bool) (rows : gmap Uuid A) : bool := forallb (fun e : Uuid * A => negb (same e.2)) (map_to_list rows).
Definition insert_identity {A} (get : IdentityTables -> gmap Uuid A) (set : gmap Uuid A -> IdentityTables -> IdentityTables)
  (fits : Realm -> bool) (id : Uuid) (row : A) (d : Realm) : Stored (Realm * unit) :=
  if has (get (identities d)) id || negb (fits d) then Err IdentityAlreadyExists else
  Ok (on_identities (set (<[id := row]> (get (identities d)))) d, tt).
(** An update changes the row if it is there and says nothing if it is not. *)
Definition update_identity {A} (get : IdentityTables -> gmap Uuid A) (set : gmap Uuid A -> IdentityTables -> IdentityTables)
  (id : Uuid) (condition : A -> bool) (f : A -> A) (d : Realm) : Stored (Realm * unit) :=
  match get (identities d) !! id with
  | Some row => if condition row then Ok (on_identities (set (<[id := f row]> (get (identities d)))) d, tt) else Ok (d, tt)
  | None => Ok (d, tt)
  end.

(** *** Members and service accounts *)

Definition create_member (workspace id : Uuid) (subject_ref : string) (created_at : DateTime) : Identified MemberRow :=
  try! check (validate_identity_id id "member");
  try! check (validate_identity_text subject_ref "member subject");
  try! query (fun d => ensure_active_workspace d workspace);
  try! write (insert_identity sec_members set_members
                (fun d => workspace_exists d workspace
                          && unused (fun m => (m_workspace_id m =? workspace)%N && bool_decide (m_subject_ref m = subject_ref))
                               (sec_members (identities d)))
                id (mkMember workspace subject_ref IdentityActive created_at None));
  query (fun d => member_from_connection d workspace id).
Definition member_revoke (at_ : DateTime) (m : MemberRow) : MemberRow :=
  mkMember (m_workspace_id m) (m_subject_ref m) IdentityRevoked (m_created_at m) (Some at_).
Definition revoke_member (workspace id : Uuid) (revoked_at : DateTime) : Identified MemberRow :=
  current ← query (fun d => member_from_connection d workspace id);
  try! check (if (revoked_at <? m_created_at current)%Z then Err (InvalidTimestampOrder "member revocation") else Ok tt);
  try! write (update_identity sec_members set_members id (fun m => (m_workspace_id m =? workspace)%N) (member_revoke revoked_at));
  query (fun d => member_from_connection d workspace id).
Definition get_member (workspace id : Uuid) : Identified MemberRow := query (fun d => member_from_connection d workspace id).

Definition create_service_account (workspace id : Uuid) (name : string) (created_at : DateTime) : Identified ServiceAccountRow :=
  try! check (validate_identity_id id "service account");
  try! check (validate_identity_text name "service account name");
  try! query (fun d => ensure_active_workspace d workspace);
  try! write (insert_identity sec_service_accounts set_service_accounts
                (fun d => workspace_exists d workspace
                          && unused (fun a => (sv_workspace_id a =? workspace)%N && bool_decide (sv_name a = name))
                               (sec_service_accounts (identities d)))
                id (mkServiceAccount workspace name IdentityActive created_at None));
  query (fun d => service_account_from_connection d workspace id).
Definition service_account_revoke (at_ : DateTime) (a : ServiceAccountRow) : ServiceAccountRow :=
  mkServiceAccount (sv_workspace_id a) (sv_name a) IdentityRevoked (sv_created_at a) (Some at_).
Definition revoke_service_account (workspace id : Uuid) (revoked_at : DateTime) : Identified ServiceAccountRow :=
  current ← query (fun d => service_account_from_connection d workspace id);
  try! check (if (revoked_at <? sv_created_at current)%Z then Err (InvalidTimestampOrder "service account revocation") else Ok tt);
  try! write (update_identity sec_service_accounts set_service_accounts id (fun a => (sv_workspace_id a =? workspace)%N)
                (service_account_revoke revoked_at));
  query (fun d => service_account_from_connection d workspace id).
Definition get_service_account (workspace id : Uuid) : Identified ServiceAccountRow :=
  query (fun d => service_account_from_connection d workspace id).

(** *** Roles *)

Definition create_role (workspace id : Uuid) (name : string) (created_at : DateTime) : Identified RoleRecord :=
  try! check (validate_identity_id id "role");
  try! check (validate_identity_text name "role name");
  try! query (fun d => ensure_active_workspace d workspace);
  try! write (insert_identity sec_roles set_roles
                (fun d => workspace_exists d workspace
                          && unused (fun r => (ro_workspace_id r =? workspace)%N && bool_decide (ro_name r = name)) (sec_roles (identities d)))
                id (mkRole workspace name created_at));
  role_from_connection workspace id.
Definition get_role (workspace id : Uuid) : Identified RoleRecord := role_from_connection workspace id.
Definition grant (role : Uuid) (granted : gset (Uuid * string)) (capability : string) : Stored (gset (Uuid * string)) :=
  if bool_decide ((role, capability) ∈ granted) then Err IdentityAlreadyExists else Ok ({[ (role, capability) ]} ∪ granted).
Definition set_role_capabilities_tx (workspace id : Uuid) (capabilities : list string) (d : Realm) : Stored (Realm * unit) :=
  try! ensure_role_in_workspace (identities d) workspace id;
  let cleared := filter (fun p => p.1 <> id) (sec_role_capabilities (identities d)) in
  granted ← fold_result (grant id) cleared capabilities;
  Ok (on_identities (set_capabilities granted) d, tt).
Definition set_role_capabilities (workspace id : Uuid) (capabilities : list string) : Identified RoleRecord :=
  try! check (each validate_capability capabilities);
  try! write (set_role_capabilities_tx workspace id capabilities);
  role_from_connection workspace id.
Definition assign_role_tx (workspace member role : Uuid) (d : Realm) : Stored (Realm * unit) :=
  try! ensure_member_in_workspace (identities d) workspace member;
  try! ensure_role_in_workspace (identities d) workspace role;
  if bool_decide (is_Some (sec_member_roles (identities d) !! (member, role))) || negb (workspace_exists d workspace)
  then Err IdentityAlreadyExists else
  Ok (on_identities (set_member_roles (<[(member, role) := workspace]> (sec_member_roles (identities d)))) d, tt).
Definition assign_role (workspace member role : Uuid) : Identified unit := write (assign_role_tx workspace member role).
Definition member_role_ids (workspace member : Uuid) : Identified (list Uuid) :=
  try! query (fun d => ensure_member_in_workspace (identities d) workspace member);
  query (fun d => Ok (merge_sort N.le ((fun e : Uuid * Uuid * Uuid => e.1.2) <$>
                        filter (fun e => e.1.1 = member /\ e.2 = workspace) (map_to_list (sec_member_roles (identities d)))))).

(** *** Credentials *)

Definition credential_row_of (c : CredentialRefDraft) (workspace : Uuid) : CredentialRow :=
  mkCredential workspace (cd_owner c) (cd_provider_kind c) (as_str (cd_credential_ref c)) CredentialActive (cd_created_at c)
    (cd_expires_at c) None.
(** The constraints of the table and its two triggers. *)
Definition credential_fits (row : CredentialRow) (d : Realm) : bool :=
  workspace_exists d (cr_workspace_id row)
  && unused (fun c => (cr_workspace_id c =? cr_workspace_id row)%N && bool_decide (cr_credential_ref c = cr_credential_ref row))
       (sec_credentials (identities d))
  && match ensure_owner_in_workspace (identities d) (cr_workspace_id row) (cr_owner row) with Ok _ => true | Err _ => false end.
Definition insert_credential (c : CredentialRefDraft) (workspace : Uuid) : Realm -> Stored (Realm * unit) :=
  insert_identity sec_credentials set_credentials (credential_fits (credential_row_of c workspace)) (cd_id c) (credential_row_of c workspace).
Definition register_credential_reference (c : CredentialRefDraft) : Identified CredentialRefRecord :=
  try! check (validate_identity_id (cd_id c) "credential");
  try! check (validate_identity_text (cd_provider_kind c) "credential provider kind");
  try! check (validate_provider_reference (cd_provider_kind c) (cd_credential_ref c));
  try! check (validate_expiry (cd_created_at c) (cd_expires_at c));
  try! query (fun d => ensure_active_workspace d (cd_workspace_id c));
  try! query (fun d => ensure_owner_in_workspace (identities d) (cd_workspace_id c) (cd_owner c));
  try! write (insert_credential c (cd_workspace_id c));
  query (fun d => credential_from_connection d (cd_workspace_id c) (cd_id c)).
Definition get_credential_reference (workspace id : Uuid) : Identified CredentialRefRecord :=
  query (fun d => credential_from_connection d workspace id).

Definition credential_move (target : CredentialState) (revoked_at : option DateTime) (c : CredentialRow) : CredentialRow :=
  mkCredential (cr_workspace_id c) (cr_owner c) (cr_provider_kind c) (cr_credential_ref c) target (cr_created_at c) (cr_expires_at c)
    (coalesce revoked_at (cr_revoked_at c)).
Definition rotatable (s : CredentialState) : bool := match s with CredentialActive | CredentialPending => true | _ => false end.
Definition rotating (s : CredentialState) : bool := match s with CredentialRotating | CredentialRecoveryRequired => true | _ => false end.
Definition expired_at (expires_at : option DateTime) (now : DateTime) : bool :=
  match expires_at with Some expires_at => (expires_at <=? now)%Z | None => false end.
Definition begin_credential_rotation (workspace id : Uuid) (started_at : DateTime) : Identified CredentialRefRecord :=
  current ← query (fun d => credential_from_connection d workspace id);
  try! check (if negb (rotatable (cr_state (credential_row current))) then Err (Identity "credential is not rotatable") else
              if expired_at (cr_expires_at (credential_row current)) started_at then Err (Identity "credential is expired") else Ok tt);
  try! write (update_identity sec_credentials set_credentials id (fun c => (cr_workspace_id c =? workspace)%N)
                (credential_move CredentialRotating None));
  query (fun d => credential_from_connection d workspace id).
Definition complete_rotation_tx (workspace old : Uuid) (replacement : CredentialRefDraft) (rotated_at : DateTime) (d : Realm)
  : Stored (Realm * unit) :=
  row ← raw_credential d workspace old;
  if negb (rotating (cr_state row)) then Err (Identity "credential rotation is not in progress") else
  if negb (bool_decide (cr_owner row = cd_owner replacement)) then Err (Identity "credential owner mismatch") else
  if (rotated_at <? cr_created_at row)%Z then Err (InvalidTimestampOrder "credential rotation") else
  insert_credential replacement workspace
    (on_identities (fun t => set_credentials (<[old := credential_move CredentialRevoked (Some rotated_at) row]> (sec_credentials t)) t) d).
Definition complete_credential_rotation (workspace old : Uuid) (replacement : CredentialRefDraft) (rotated_at : DateTime)
  : Identified CredentialRefRecord :=
  try! check (if negb (cd_workspace_id replacement =? workspace)%N then Err (Identity "credential workspace mismatch") else Ok tt);
  try! check (validate_provider_reference (cd_provider_kind replacement) (cd_credential_ref replacement));
  try! check (validate_expiry (cd_created_at replacement) (cd_expires_at replacement));
  try! write (complete_rotation_tx workspace old replacement rotated_at);
  query (fun d => credential_from_connection d workspace (cd_id replacement)).
Definition revoke_credential (workspace id : Uuid) (revoked_at : DateTime) : Identified CredentialRefRecord :=
  current ← query (fun d => credential_from_connection d workspace id);
  try! check (if (revoked_at <? cr_created_at (credential_row current))%Z then Err (InvalidTimestampOrder "credential revocation") else Ok tt);
  try! write (update_identity sec_credentials set_credentials id
                (fun c => (cr_workspace_id c =? workspace)%N && negb (bool_decide (cr_state c = CredentialRevoked)))
                (credential_move CredentialRevoked (Some revoked_at)));
  query (fun d => credential_from_connection d workspace id).
(** When the store is opened: a rotation that was under way has to be recovered. *)
Definition interrupted (c : CredentialRow) : CredentialRow :=
  if bool_decide (cr_state c = CredentialRotating) then credential_move CredentialRecoveryRequired None c else c.
Definition recover_incomplete_rotations : Identified N :=
  write (fun d => Ok (on_identities (fun t => set_credentials (interrupted <$> sec_credentials t) t) d,
                      len (filter (fun e : Uuid * CredentialRow => cr_state e.2 = CredentialRotating)
                             (map_to_list (sec_credentials (identities d)))))).
Definition recover_credential (workspace id : Uuid) (recovered_at : DateTime) : Identified CredentialRefRecord :=
  current ← query (fun d => credential_from_connection d workspace id);
  try! check (if negb (bool_decide (cr_state (credential_row current) = CredentialRecoveryRequired))
              then Err (Identity "credential does not require recovery") else Ok tt);
  let state := if expired_at (cr_expires_at (credential_row current)) recovered_at then CredentialExpired else CredentialActive in
  try! write (update_identity sec_credentials set_credentials id (fun c => (cr_workspace_id c =? workspace)%N) (credential_move state None));
  query (fun d => credential_from_connection d workspace id).
