(* ===== verification/Realms.v ===== *)
(** * Who is who, among other requests

    The invariant of the identity tables and the order in which they grow hold
    whatever requests, on identities or on the rest of the store, are
    interleaved: every constraint is checked by the statement that could break
    it. *)

From S2P Require Import Prelude Text Secrets Logical Nodes Schedule Automation Hex Executions Canonical Operations Jobs Submissions Outputs Lifecycle Reports Life Refines Reachable Frame Sample Control Autocommit Workspaces Scopes Interleavings Identity.

(** ** Tables of a workspace *)

Section tables.
Context {A K : Type} (workspace_of : A -> Uuid) (key : A -> K).
Record TableOk (workspaces : gmap Uuid unit) (rows : gmap Uuid A) : Prop := {
  row_homed id a : rows !! id = Some a -> is_Some (workspaces !! workspace_of a);
  row_unique id id' a a' : rows !! id = Some a -> rows !! id' = Some a' -> workspace_of a = workspace_of a' -> key a = key a' -> id = id';
}.
Lemma TableOk_insert ws rows id a :
  TableOk ws rows -> rows !! id = None -> is_Some (ws !! workspace_of a) ->
  (forall id' a', rows !! id' = Some a' -> workspace_of a' = workspace_of a -> key a' <> key a) -> TableOk ws (<[id := a]> rows).
Proof.
  intros [Hh Hu] Hn Hw Hk. constructor.
  - intros i b Hb. grown; [done|by eapply Hh].
  - intros i j b c Hb Hc Hwb Hkb. grown; [done| | |by eapply Hu].
    all: match goal with Hl : _ !! _ = Some _ |- _ => by destruct (Hk _ _ Hl) end.
Qed.
Lemma TableOk_update ws rows id a b :
  TableOk ws rows -> rows !! id = Some a -> workspace_of b = workspace_of a -> key b = key a -> TableOk ws (<[id := b]> rows).
Proof.
  intros [Hh Hu] Ha Hw Hk. constructor.
  - intros i c Hc. grown; [rewrite Hw; by eapply Hh|by eapply Hh].
  - intros i j c c' Hc Hc' Hwc Hkc. grown; [done| | |by eapply Hu]; eapply Hu; try eassumption; congruence.
Qed.
Lemma TableOk_fmap ws rows (f : A -> A) :
  (forall a, workspace_of (f a) = workspace_of a /\ key (f a) = key a) -> TableOk ws rows -> TableOk ws (f <$> rows).
Proof.
  intros Hf [Hh Hu]. constructor.
  - intros i b Hb. apply lookup_fmap_Some in Hb as (a & <- & Ha). destruct (Hf a) as [-> _]. by eapply Hh.
  - intros i j b c Hb Hc. apply lookup_fmap_Some in Hb as (a & <- & Ha). apply lookup_fmap_Some in Hc as (a' & <- & Ha').
    destruct (Hf a) as [-> ->], (Hf a') as [-> ->]. by eapply Hu.
Qed.
Lemma TableOk_grow ws ws' rows : ws ⊆ ws' -> TableOk ws rows -> TableOk ws' rows.
Proof. intros Hs [Hh Hu]. constructor; [|done]. intros i a Ha. by eapply weaken_some, Hh. Qed.
Lemma unused_spec rows (a : A) `{!EqDecision K} :
  unused (fun b => (workspace_of b =? workspace_of a)%N && bool_decide (key b = key a)) rows = true ->
  forall id' a', rows !! id' = Some a' -> workspace_of a' = workspace_of a -> key a' <> key a.
Proof.
  unfold unused. rewrite forallb_forall. intros Hall id' a' Hl Hw Hk. specialize (Hall (id', a')).
  rewrite <- list_elem_of_In, elem_of_map_to_list in Hall. specialize (Hall Hl). cbn in Hall.
  by rewrite Hw, N.eqb_refl, bool_decide_eq_true_2 in Hall by done.
Qed.
End tables.

(** ** The invariant *)

Definition owner_workspace (t : IdentityTables) (o : CredentialOwner) : option Uuid :=
  match owner_kind o with
  | PrincipalMember => m_workspace_id <$> sec_members t !! owner_id o
  | PrincipalServiceAccount => sv_workspace_id <$> sec_service_accounts t !! owner_id o
  end.
(** The reference names the provider it is registered with; a credential ends
    after it begins, and one that is revoked has a time of revocation. *)
Record CredentialOk (c : CredentialRow) : Prop := {
  reference_of_provider : exists r, as_str r = cr_credential_ref c /\ provider_kind r = Ok (bytes_of (cr_provider_kind c));
  expiry_later e : cr_expires_at c = Some e -> (cr_created_at c < e)%Z;
  revocation_dated : cr_state c = CredentialRevoked -> is_Some (cr_revoked_at c);
}.
Record IdentityOk (workspaces : gmap Uuid unit) (t : IdentityTables) : Prop := {
  members_ok : TableOk m_workspace_id m_subject_ref workspaces (sec_members t);
  roles_ok : TableOk ro_workspace_id ro_name workspaces (sec_roles t);
  accounts_ok : TableOk sv_workspace_id sv_name workspaces (sec_service_accounts t);
  credentials_ok : TableOk cr_workspace_id cr_credential_ref workspaces (sec_credentials t);
  assignment_ok m r w : sec_member_roles t !! (m, r) = Some w ->
    m_workspace_id <$> sec_members t !! m = Some w /\ ro_workspace_id <$> sec_roles t !! r = Some w;
  capability_ok r c : (r, c) ∈ sec_role_capabilities t -> is_Some (sec_roles t !! r);
  owner_ok id c : sec_credentials t !! id = Some c -> owner_workspace t (cr_owner c) = Some (cr_workspace_id c);
  credential_ok id c : sec_credentials t !! id = Some c -> CredentialOk c;
}.

(** ** What never changes and what never comes back *)

Definition identity_rank (s : IdentityState) : N := match s with IdentityActive => 0 | IdentityRevoked => 1 end.
Definition credential_scope (c : CredentialRow) : Uuid * CredentialOwner * string * string * DateTime * option DateTime :=
  (cr_workspace_id c, cr_owner c, cr_provider_kind c, cr_credential_ref c, cr_created_at c, cr_expires_at c).
Definition revoked_rank (c : CredentialRow) : N := match cr_revoked_at c with Some _ => 1 | None => 0 end.
Record identity_le (t t' : IdentityTables) : Prop := {
  members_grow : (fun m => (m_workspace_id m, m_subject_ref m, m_created_at m)) <$> sec_members t
                 ⊆ (fun m => (m_workspace_id m, m_subject_ref m, m_created_at m)) <$> sec_members t';
  roles_grow : sec_roles t ⊆ sec_roles t';
  accounts_grow : (fun a => (sv_workspace_id a, sv_name a, sv_created_at a)) <$> sec_service_accounts t
                  ⊆ (fun a => (sv_workspace_id a, sv_name a, sv_created_at a)) <$> sec_service_accounts t';
  credentials_grow : credential_scope <$> sec_credentials t ⊆ credential_scope <$> sec_credentials t';
  assignments_grow : sec_member_roles t ⊆ sec_member_roles t';
  members_revoked : ranked (fun m => identity_rank (m_state m)) (sec_members t) (sec_members t');
  accounts_revoked : ranked (fun a => identity_rank (sv_state a)) (sec_service_accounts t) (sec_service_accounts t');
  credentials_revoked : ranked revoked_rank (sec_credentials t) (sec_credentials t');
}.
#[export] Instance identity_le_preorder : PreOrder identity_le.
Proof. split; [intros t; by constructor|]. intros t1 t2 t3 [] []. constructor; by etrans. Qed.

Section realms.
Context `{JobCodec} `{StoreFiles}.
#[local] Existing Instance Grow_preorder.

Definition workspaces_of (d : Store) : gmap Uuid unit := sc_workspaces (scope (directory d)).
Record RealmInv (d : Realm) : Prop := { realm_inv : Inv (realm_store d); realm_identity : IdentityOk (workspaces_of (realm_store d)) (identities d) }.
Record RealmGrow (d d' : Realm) : Prop := { realm_grow : Grow (realm_store d) (realm_store d'); identity_grow : identity_le (identities d) (identities d') }.
#[local] Instance RealmGrow_preorder : PreOrder RealmGrow.
Proof. split; [intros d; by constructor|]. intros d1 d2 d3 [] []. constructor; by etrans. Qed.

(** ** Requests on the rest of the store *)

Lemma exec_lift {A} (p : Prog Store A) d : exec (lift p) d = (mkRealm (exec p (realm_store d)).1 (identities d), (exec p (realm_store d)).2).
Proof. unfold lift. rewrite exec_focus; [done|done|by intros []|done]. Qed.
Lemma IdentityOk_grow ws ws' t : ws ⊆ ws' -> IdentityOk ws t -> IdentityOk ws' t.
Proof. intros Hs []. constructor; try done; by eapply TableOk_grow. Qed.
Lemma workspaces_grow d d' : Grow d d' -> workspaces_of d ⊆ workspaces_of d'.
Proof. intros [Hs _ _ _ _ _ _ _ _ _]. apply Hs. Qed.
Lemma safe_lift {A} (p : Prog Store A) d : safe Inv Grow anything (realm_store d) p -> safe RealmInv RealmGrow anything d (lift p).
Proof.
  apply safe_focus; [by intros ? []|by intros ? ? []|]. intros [st t] st' [Hi Hok] Hg Hi'. cbn in *.
  split_and!; [by constructor|constructor; [done|]|done]. eapply IdentityOk_grow; [by apply workspaces_grow|done].
Qed.

(** ** Requests on identities *)

Notation guarded := (safe RealmInv RealmGrow (succeeds anything)).
Lemma realm_query {A} d (f : Realm -> Stored A) : guarded d (query f).
Proof. by apply (safe_query _ _ anything). Qed.
Lemma realm_check {A} d (m : Stored A) : guarded d (check m).
Proof. by apply (safe_check _ _ anything). Qed.
Lemma realm_ret {A} d (a : A) : guarded d (mret a : Identified A).
Proof. by apply (safe_ret _ _ anything). Qed.
Lemma realm_then {A B} d (p : Identified A) (k : A -> Identified B) :
  RealmInv d -> guarded d p -> (forall d' a, RealmGrow d d' -> RealmInv d' -> guarded d' (k a)) -> guarded d (p ≫= k).
Proof. intros Hi Hp Hk. eapply (safe_then _ _ anything); [exact Hp|done|]. intros d' a Hg Hi' _. by apply Hk. Qed.
Lemma realm_checked {A B} d (m : Stored A) (k : A -> Identified B) :
  RealmInv d -> (forall a, m = Ok a -> guarded d (k a)) -> guarded d (check m ≫= k).
Proof. intros Hi Hk. destruct m as [a|e]; [by apply (Hk a)|]. by constructor. Qed.
(** A statement on the identities: what it does to the tables is enough. *)
Lemma realm_write {A} d (f : Realm -> Stored (Realm * A)) :
  (forall d1 d2 a, RealmInv d1 -> f d1 = Ok (d2, a) ->
     realm_store d2 = realm_store d1 /\ identity_le (identities d1) (identities d2) /\ IdentityOk (workspaces_of (realm_store d1)) (identities d2)) ->
  guarded d (write f).
Proof.
  intros Hf. apply (safe_write _ _ anything); [done|]. intros a d1 d2 _ Hi Hw. destruct (Hf _ _ _ Hi Hw) as (Hs & Hle & Hok).
  split_and!; [constructor; [by rewrite Hs|done]|constructor; rewrite Hs; [apply Hi|done]|done].
Qed.
Lemma insert_identity_Ok {A} get (set : gmap Uuid A -> IdentityTables -> IdentityTables) fits id row d d2 u :
  insert_identity get set fits id row d = Ok (d2, u) ->
  get (identities d) !! id = None /\ fits d = true /\ realm_store d2 = realm_store d /\
  identities d2 = set (<[id := row]> (get (identities d))) (identities d).
Proof.
  unfold insert_identity. intros Hr. inv_ok Hr. injection Hr as <- _. apply orb_false_iff in Hb as [Hn Hfits].
  split_and!; [|by apply negb_false_iff|done|done]. apply eq_None_not_Some. intros Hs. by apply has_Some in Hs; rewrite Hs in Hn.
Qed.
Lemma update_identity_Ok {A} get (set : gmap Uuid A -> IdentityTables -> IdentityTables) id cond f d d2 u :
  update_identity get set id cond f d = Ok (d2, u) ->
  d2 = d \/ exists row, get (identities d) !! id = Some row /\ cond row = true /\ realm_store d2 = realm_store d /\
    identities d2 = set (<[id := f row]> (get (identities d))) (identities d).
Proof.
  unfold update_identity. intros Hr. destruct (get (identities d) !! id) as [row|]; [|left; by injection Hr as <- _].
  destruct (cond row) eqn:Hc; injection Hr as <- _; [right; eauto 10|by left].
Qed.
Lemma workspace_known d ws : workspace_exists d ws = true -> is_Some (workspaces_of (realm_store d) !! ws).
Proof. intros Hw. apply has_Some in Hw. by apply fmap_some. Qed.

(** What moving one table does to the others. *)
Lemma owner_grow t t' o w :
  (forall id, m_workspace_id <$> sec_members t !! id = Some w -> m_workspace_id <$> sec_members t' !! id = Some w) ->
  (forall id, sv_workspace_id <$> sec_service_accounts t !! id = Some w -> sv_workspace_id <$> sec_service_accounts t' !! id = Some w) ->
  owner_workspace t o = Some w -> owner_workspace t' o = Some w.
Proof. intros Hm Ha. unfold owner_workspace. destruct (owner_kind o); auto. Qed.
Lemma projected_insert {A B} (f : A -> B) (rows : gmap Uuid A) id a w i :
  rows !! id = None \/ (exists old, rows !! id = Some old /\ f a = f old) -> f <$> rows !! i = Some w -> f <$> <[id := a]> rows !! i = Some w.
Proof.
  intros Hold Hi. destruct (decide (i = id)) as [->|Hne]; [|by rewrite lookup_insert_ne]. rewrite lookup_insert_eq.
  destruct Hold as [Hn|(old & Ho & Hf)]; [by rewrite Hn in Hi|]. rewrite Ho in Hi. cbn in *. congruence.
Qed.

Ltac tables_le := constructor; cbn; try reflexivity;
  first [ rewrite fmap_insert; by apply fresh_subseteq, fmap_none | by erewrite fmap_same | by apply fresh_subseteq
        | by apply ranked_fresh | by eapply ranked_insert ].
(** The credentials keep their owners when a principal's row is new or changed. *)
Ltac owners Hown := intros ? ? ?; eapply owner_grow; [| |by eapply Hown]; cbn; intros ?; try done; by eapply projected_insert; eauto.
Ltac assigned Has := intros ? ? ? ?; edestruct Has as [? ?]; [eassumption|]; split; try done; by eapply projected_insert; eauto.

Lemma new_member ws t id m :
  IdentityOk ws t -> sec_members t !! id = None -> is_Some (ws !! m_workspace_id m) ->
  (forall i m', sec_members t !! i = Some m' -> m_workspace_id m' = m_workspace_id m -> m_subject_ref m' <> m_subject_ref m) ->
  let t' := set_members (<[id := m]> (sec_members t)) t in identity_le t t' /\ IdentityOk ws t'.
Proof.
  intros [Hm Hr Ha Hc Has Hcap Hown Hcr] Hn Hw Hk. cbv zeta. split; [tables_le|]. constructor; cbn; try done.
  - by apply TableOk_insert.
  - assigned Has.
  - owners Hown.
Qed.
Lemma revoked_member ws t id m at_ :
  IdentityOk ws t -> sec_members t !! id = Some m ->
  let t' := set_members (<[id := member_revoke at_ m]> (sec_members t)) t in identity_le t t' /\ IdentityOk ws t'.
Proof.
  intros [Hm Hr Ha Hc Has Hcap Hown Hcr] Hl. cbv zeta.
  assert (identity_rank (m_state m) <= identity_rank (m_state (member_revoke at_ m)))%N by (unfold identity_rank; cbn; case_match; lia).
  split; [tables_le|]. constructor; cbn; try done.
  - by eapply TableOk_update.
  - assigned Has.
  - owners Hown.
Qed.
Lemma new_account ws t id a :
  IdentityOk ws t -> sec_service_accounts t !! id = None -> is_Some (ws !! sv_workspace_id a) ->
  (forall i a', sec_service_accounts t !! i = Some a' -> sv_workspace_id a' = sv_workspace_id a -> sv_name a' <> sv_name a) ->
  let t' := set_service_accounts (<[id := a]> (sec_service_accounts t)) t in identity_le t t' /\ IdentityOk ws t'.
Proof.
  intros [Hm Hr Ha Hc Has Hcap Hown Hcr] Hn Hw Hk. cbv zeta. split; [tables_le|]. constructor; cbn; try done.
  - by apply TableOk_insert.
  - owners Hown.
Qed.
Lemma revoked_account ws t id a at_ :
  IdentityOk ws t -> sec_service_accounts t !! id = Some a ->
  let t' := set_service_accounts (<[id := service_account_revoke at_ a]> (sec_service_accounts t)) t in identity_le t t' /\ IdentityOk ws t'.
Proof.
  intros [Hm Hr Ha Hc Has Hcap Hown Hcr] Hl. cbv zeta.
  assert (identity_rank (sv_state a) <= identity_rank (sv_state (service_account_revoke at_ a)))%N by (unfold identity_rank; cbn; case_match; lia).
  split; [tables_le|]. constructor; cbn; try done.
  - by eapply TableOk_update.
  - owners Hown.
Qed.
Lemma new_role ws t id r :
  IdentityOk ws t -> sec_roles t !! id = None -> is_Some (ws !! ro_workspace_id r) ->
  (forall i r', sec_roles t !! i = Some r' -> ro_workspace_id r' = ro_workspace_id r -> ro_name r' <> ro_name r) ->
  let t' := set_roles (<[id := r]> (sec_roles t)) t in identity_le t t' /\ IdentityOk ws t'.
Proof.
  intros [Hm Hr Ha Hc Has Hcap Hown Hcr] Hn Hw Hk. cbv zeta. split; [tables_le|]. constructor; cbn; try done.
  - by apply TableOk_insert.
  - assigned Has.
  - intros i c Hi. rewrite lookup_insert_is_Some'. right. by eapply Hcap.
Qed.
Lemma changed_capabilities ws t caps :
  IdentityOk ws t -> (forall r c, (r, c) ∈ caps -> is_Some (sec_roles t !! r)) ->
  let t' := set_capabilities caps t in identity_le t t' /\ IdentityOk ws t'.
Proof. intros [Hm Hr Ha Hc Has Hcap Hown Hcr] Hcaps. cbv zeta. split; [tables_le|]. by constructor. Qed.
Lemma new_assignment ws t m r w :
  IdentityOk ws t -> sec_member_roles t !! (m, r) = None ->
  m_workspace_id <$> sec_members t !! m = Some w -> ro_workspace_id <$> sec_roles t !! r = Some w ->
  let t' := set_member_roles (<[(m, r) := w]> (sec_member_roles t)) t in identity_le t t' /\ IdentityOk ws t'.
Proof.
  intros [Hm Hr Ha Hc Has Hcap Hown Hcr] Hn Hmw Hrw. cbv zeta. split.
  - constructor; cbn; try reflexivity. by apply insert_subseteq.
  - constructor; cbn; try done. intros m' r' w' Hl. apply lookup_insert_Some in Hl as [[? ?]|[_ Hl]]; [simplify_eq; done|by apply Has].
Qed.
Lemma new_credential ws t id c :
  IdentityOk ws t -> sec_credentials t !! id = None -> is_Some (ws !! cr_workspace_id c) ->
  (forall i c', sec_credentials t !! i = Some c' -> cr_workspace_id c' = cr_workspace_id c -> cr_credential_ref c' <> cr_credential_ref c) ->
  owner_workspace t (cr_owner c) = Some (cr_workspace_id c) -> CredentialOk c ->
  let t' := set_credentials (<[id := c]> (sec_credentials t)) t in identity_le t t' /\ IdentityOk ws t'.
Proof.
  intros [Hm Hr Ha Hc Has Hcap Hown Hcr] Hn Hw Hk Ho Hok. cbv zeta. split; [tables_le|]. constructor; cbn; try done.
  - by apply TableOk_insert.
  - intros i c' Hi. grown; [done|by eapply Hown].
  - intros i c' Hi. grown; [done|by eapply Hcr].
Qed.
Lemma CredentialOk_move c target at_ : CredentialOk c -> (target = CredentialRevoked -> is_Some at_) -> CredentialOk (credential_move target at_ c).
Proof. intros [Hr He Hd] Ht. constructor; cbn; [done|done|]. intros Hs. destruct (Ht Hs) as [x ->]. by eexists. Qed.
Lemma moved_rank c target at_ : (revoked_rank c <= revoked_rank (credential_move target at_ c))%N.
Proof. unfold revoked_rank. cbn. destruct at_, (cr_revoked_at c); cbn; lia. Qed.
Lemma moved_credential ws t id c target at_ :
  IdentityOk ws t -> sec_credentials t !! id = Some c -> (target = CredentialRevoked -> is_Some at_) ->
  let t' := set_credentials (<[id := credential_move target at_ c]> (sec_credentials t)) t in identity_le t t' /\ IdentityOk ws t'.
Proof.
  intros [Hm Hr Ha Hc Has Hcap Hown Hcr] Hl Ht. cbv zeta. pose proof (moved_rank c target at_). split; [tables_le|]. constructor; cbn; try done.
  - by eapply TableOk_update.
  - intros i c' Hi. grown; [by apply (Hown _ _ Hl)|by eapply Hown].
  - intros i c' Hi. grown; [by eapply CredentialOk_move; [eapply Hcr|]|by eapply Hcr].
Qed.
Lemma interrupted_scope c : credential_scope (interrupted c) = credential_scope c.
Proof. unfold interrupted. by case_match. Qed.
Lemma interrupted_credentials ws t :
  IdentityOk ws t -> let t' := set_credentials (interrupted <$> sec_credentials t) t in identity_le t t' /\ IdentityOk ws t'.
Proof.
  intros [Hm Hr Ha Hc Has Hcap Hown Hcr]. cbv zeta. split.
  - constructor; cbn; try reflexivity.
    + rewrite <- map_fmap_compose. rewrite (map_fmap_ext (credential_scope ∘ interrupted) credential_scope); [reflexivity|]. intros i c _. apply interrupted_scope.
    + intros i c Hi. exists (interrupted c). rewrite lookup_fmap, Hi. split; [done|]. unfold interrupted. case_match; [apply moved_rank|lia].
  - constructor; cbn; try done.
    + apply TableOk_fmap; [|done]. intros c. unfold interrupted. by case_match.
    + intros i c Hi. apply lookup_fmap_Some in Hi as (c0 & <- & Hi). assert (cr_owner (interrupted c0) = cr_owner c0 /\ cr_workspace_id (interrupted c0) = cr_workspace_id c0) as [-> ->] by (unfold interrupted; by case_match).
      by eapply Hown.
    + intros i c Hi. apply lookup_fmap_Some in Hi as (c0 & <- & Hi). unfold interrupted. case_match; [|by eapply Hcr].
      by apply CredentialOk_move; [eapply Hcr|].
Qed.

(** ** Every request is safe *)

Ltac rnext := first
  [ apply realm_query | apply realm_check | apply realm_ret
  | eapply realm_then; [done|first [apply realm_query|apply realm_check|apply realm_ret]|intros ? ? ? ?] ].
Ltac rthrough t := eapply realm_then; [done|t|intros ? ? ? ?; repeat rnext].
Ltac rinserted := apply realm_write; intros d1 d2 u Hi1 (Hnone & Hfits & Hstore & Hids)%insert_identity_Ok;
  split; [done|]; rewrite Hids; apply realm_identity in Hi1.
Ltac rupdated := apply realm_write; intros d1 d2 u Hi1 [->|(row & Hrow & Hcond & Hstore & Hids)]%update_identity_Ok;
  [split_and!; [done|done|apply Hi1]|]; split; [done|]; rewrite Hids; apply realm_identity in Hi1.

Lemma create_member_safe d ws id subject at_ : RealmInv d -> guarded d (create_member ws id subject at_).
Proof.
  intros Hi. unfold create_member. do 3 rnext. rthrough rinserted. apply andb_true_iff in Hfits as [Hw Hu].
  apply new_member; [done|done|by apply workspace_known|]. by eapply (unused_spec m_workspace_id m_subject_ref).
Qed.
Lemma revoke_member_safe d ws id at_ : RealmInv d -> guarded d (revoke_member ws id at_).
Proof. intros Hi. unfold revoke_member. do 2 rnext. rthrough rupdated. by apply revoked_member. Qed.
Lemma create_service_account_safe d ws id name at_ : RealmInv d -> guarded d (create_service_account ws id name at_).
Proof.
  intros Hi. unfold create_service_account. do 3 rnext. rthrough rinserted. apply andb_true_iff in Hfits as [Hw Hu].
  apply new_account; [done|done|by apply workspace_known|]. by eapply (unused_spec sv_workspace_id sv_name).
Qed.
Lemma revoke_service_account_safe d ws id at_ : RealmInv d -> guarded d (revoke_service_account ws id at_).
Proof. intros Hi. unfold revoke_service_account. do 2 rnext. rthrough rupdated. by apply revoked_account. Qed.
Lemma role_from_connection_safe d ws id : RealmInv d -> guarded d (role_from_connection ws id).
Proof. intros Hi. unfold role_from_connection. repeat rnext. Qed.
Lemma create_role_safe d ws id name at_ : RealmInv d -> guarded d (create_role ws id name at_).
Proof.
  intros Hi. unfold create_role, role_from_connection. do 3 rnext. rthrough rinserted. apply andb_true_iff in Hfits as [Hw Hu].
  apply new_role; [done|done|by apply workspace_known|]. by eapply (unused_spec ro_workspace_id ro_name).
Qed.
Lemma in_workspace_Ok {A} (f : A -> Uuid) rows ws id a : in_workspace f rows ws id = Ok a -> rows !! id = Some a /\ f a = ws.
Proof.
  unfold in_workspace. destruct (rows !! id) as [b|]; [|done]. destruct (f b =? ws)%N eqn:Hw; [|done]. intros [= ->]. by apply N.eqb_eq in Hw.
Qed.
Lemma granted_roles id caps granted l r c :
  fold_result (grant id) caps l = Ok granted -> (r, c) ∈ granted -> r = id \/ (r, c) ∈ caps.
Proof.
  revert caps. induction l as [|x l IH]; intros caps Hf Hin; cbn in Hf; [injection Hf as <-; by right|].
  apply bind_Ok in Hf as (caps' & Hg & Hf). destruct (IH _ Hf Hin) as [->|Hin']; [by left|]. unfold grant in Hg. case_bool_decide; [done|].
  injection Hg as <-. apply elem_of_union in Hin' as [[= -> _]%elem_of_singleton|]; [by left|by right].
Qed.
Lemma set_role_capabilities_safe d ws id caps : RealmInv d -> guarded d (set_role_capabilities ws id caps).
Proof.
  intros Hi. unfold set_role_capabilities, role_from_connection. rnext.
  rthrough ltac:(apply realm_write; intros d1 d2 u Hi1 Hw; unfold set_role_capabilities_tx, ensure_role_in_workspace in Hw;
    cbv zeta in Hw; inv_ok Hw; injection Hw as <- _; split; [done|]; apply realm_identity in Hi1).
  cbn. apply changed_capabilities; [done|]. apply bind_Ok in Hx as (role & (Hrole & _)%in_workspace_Ok & _). intros r c Hin.
  match goal with Hf : fold_result _ _ _ = Ok _ |- _ => destruct (granted_roles _ _ _ _ _ _ Hf Hin) as [->|Hold] end; [by rewrite Hrole|].
  apply elem_of_filter in Hold as [_ Hold]. by eapply capability_ok.
Qed.
Lemma assign_role_safe d ws m r : RealmInv d -> guarded d (assign_role ws m r).
Proof.
  intros Hi. apply realm_write. intros d1 d2 u Hi1 Hw. unfold assign_role_tx, ensure_member_in_workspace, ensure_role_in_workspace in Hw.
  apply bind_Ok in Hw as (? & Hm & Hw). apply bind_Ok in Hm as (mr & (Hm & <-)%in_workspace_Ok & _).
  apply bind_Ok in Hw as (? & Hr & Hw). apply bind_Ok in Hr as (rr & (Hr & Hrw)%in_workspace_Ok & _).
  inv_ok Hw. injection Hw as <- _. split; [done|]. apply realm_identity in Hi1. apply orb_false_iff in Hb as [Hn _].
  apply new_assignment; [done| |by rewrite Hm|rewrite Hr; cbn; by rewrite Hrw]. apply bool_decide_eq_false in Hn. by apply eq_None_not_Some.
Qed.

Lemma owner_known t ws o u : ensure_owner_in_workspace t ws o = Ok u -> owner_workspace t o = Some ws.
Proof.
  unfold ensure_owner_in_workspace, owner_workspace, ensure_member_in_workspace. intros Ho.
  destruct (owner_kind o); apply bind_Ok in Ho as (a & (Ha & <-)%in_workspace_Ok & _); by rewrite Ha.
Qed.
Lemma reference_checked kind r u : validate_provider_reference kind r = Ok u -> provider_kind r = Ok (bytes_of kind).
Proof.
  unfold validate_provider_reference. intros Hv. apply bind_Ok in Hv as (k & Hk & Hv). inv_ok Hv. bools.
  destruct (provider_kind r) as [k'|]; [|done]. cbn in Hk. congruence.
Qed.
Lemma draft_ok c ws u u' :
  validate_provider_reference (cd_provider_kind c) (cd_credential_ref c) = Ok u ->
  validate_expiry (cd_created_at c) (cd_expires_at c) = Ok u' -> CredentialOk (credential_row_of c ws).
Proof.
  intros Hr He. constructor; cbn; [exists (cd_credential_ref c); by split; [|eapply reference_checked]| |done].
  intros e Hexp. rewrite Hexp in He. cbn in He. destruct (e <=? cd_created_at c)%Z eqn:Hle; [done|]. lia.
Qed.
Lemma inserted_credential d d2 u c ws :
  RealmInv d -> insert_credential c ws d = Ok (d2, u) -> CredentialOk (credential_row_of c ws) ->
  realm_store d2 = realm_store d /\ identity_le (identities d) (identities d2) /\ IdentityOk (workspaces_of (realm_store d)) (identities d2).
Proof.
  intros Hi (Hn & Hfits & Hstore & Hids)%insert_identity_Ok Hok. split; [done|]. rewrite Hids. apply realm_identity in Hi.
  unfold credential_fits in Hfits. apply andb_true_iff in Hfits as [[Hw Hu]%andb_true_iff Ho].
  apply new_credential; [done|done|by apply workspace_known| | |done].
  - by eapply (unused_spec cr_workspace_id cr_credential_ref).
  - destruct (ensure_owner_in_workspace _ _ _) as [v|] eqn:Hown; [|done]. by eapply owner_known.
Qed.
Lemma register_credential_safe d c : RealmInv d -> guarded d (register_credential_reference c).
Proof.
  intros Hi. unfold register_credential_reference. do 2 rnext. do 2 (apply realm_checked; [done|]; intros [] ?). do 2 rnext.
  rthrough ltac:(apply realm_write; intros d1 d2 u Hi1 Hw; eapply inserted_credential; [done|exact Hw|by eapply draft_ok]).
Qed.
Lemma begin_rotation_safe d ws id at_ : RealmInv d -> guarded d (begin_credential_rotation ws id at_).
Proof. intros Hi. unfold begin_credential_rotation. do 2 rnext. rthrough rupdated. by apply moved_credential. Qed.
Lemma revoke_credential_safe d ws id at_ : RealmInv d -> guarded d (revoke_credential ws id at_).
Proof. intros Hi. unfold revoke_credential. do 2 rnext. rthrough rupdated. by apply moved_credential. Qed.
Lemma recover_credential_safe d ws id at_ : RealmInv d -> guarded d (recover_credential ws id at_).
Proof.
  intros Hi. unfold recover_credential. do 2 rnext. cbv zeta. rthrough rupdated. apply moved_credential; [done|done|]. by case_match.
Qed.
Lemma recover_incomplete_safe d : guarded d recover_incomplete_rotations.
Proof.
  apply realm_write. intros d1 d2 n Hi1 [= <- _]. split; [done|]. by apply interrupted_credentials, realm_identity.
Qed.
Lemma complete_tx_Ok ws old c at_ d d2 u :
  complete_rotation_tx ws old c at_ d = Ok (d2, u) ->
  exists row, sec_credentials (identities d) !! old = Some row /\ cr_workspace_id row = ws /\ rotating (cr_state row) = true /\ cr_owner row = cd_owner c /\
    insert_credential c ws (on_identities (fun t => set_credentials
      (<[old := credential_move CredentialRevoked (Some at_) row]> (sec_credentials t)) t) d) = Ok (d2, u).
Proof.
  unfold complete_rotation_tx, raw_credential. intros Hc. apply bind_Ok in Hc as (row & (Hrow & Hw)%in_workspace_Ok & Hc). inv_ok Hc.
  bools. exists row. by split_and!.
Qed.
Lemma complete_rotation_safe d ws old c at_ : RealmInv d -> guarded d (complete_credential_rotation ws old c at_).
Proof.
  intros Hi. unfold complete_credential_rotation. rnext. do 2 (apply realm_checked; [done|]; intros [] ?).
  rthrough ltac:(apply realm_write; intros d1 d2 u Hi1 (row & Hrow & _ & _ & _ & Hins)%complete_tx_Ok).
  set (mid := on_identities _ d1) in Hins.
  assert (identity_le (identities d1) (identities mid) /\ IdentityOk (workspaces_of (realm_store d1)) (identities mid)) as [Hle Hok]
    by (apply moved_credential; [apply Hi1|done|done]).
  destruct (inserted_credential mid d2 u c ws) as (Hst & Hle2 & Hok2); [by constructor; [apply Hi1|]|done|by eapply draft_ok|].
  split_and!; [done|by etrans|done].
Qed.

(** ** Requests together *)

Inductive RealmRequest : Prog Realm unit -> Prop :=
| realm_on_store p : StoreRequest p -> RealmRequest (lift p)
| realm_read {A} (f : Realm -> Stored A) : RealmRequest (request_unit (query f))
| realm_read_role ws id : RealmRequest (request_unit (get_role ws id))
| realm_member_roles ws id : RealmRequest (request_unit (member_role_ids ws id))
| realm_create_member ws id subject at_ : RealmRequest (request_unit (create_member ws id subject at_))
| realm_revoke_member ws id at_ : RealmRequest (request_unit (revoke_member ws id at_))
| realm_create_account ws id name at_ : RealmRequest (request_unit (create_service_account ws id name at_))
| realm_revoke_account ws id at_ : RealmRequest (request_unit (revoke_service_account ws id at_))
| realm_create_role ws id name at_ : RealmRequest (request_unit (create_role ws id name at_))
| realm_set_capabilities ws id caps : RealmRequest (request_unit (set_role_capabilities ws id caps))
| realm_assign_role ws m r : RealmRequest (request_unit (assign_role ws m r))
| realm_register c : RealmRequest (request_unit (register_credential_reference c))
| realm_begin_rotation ws id at_ : RealmRequest (request_unit (begin_credential_rotation ws id at_))
| realm_complete_rotation ws old c at_ : RealmRequest (request_unit (complete_credential_rotation ws old c at_))
| realm_revoke_credential ws id at_ : RealmRequest (request_unit (revoke_credential ws id at_))
| realm_restart : RealmRequest (request_unit recover_incomplete_rotations)
| realm_recover ws id at_ : RealmRequest (request_unit (recover_credential ws id at_)).

Lemma realm_request_safe p d : RealmRequest p -> RealmInv d -> safe RealmInv RealmGrow anything d p.
Proof.
  intros Hp Hi. destruct Hp; [by apply safe_lift, request_safe, realm_inv|..]; (eapply safe_request; [apply _|done|]).
  - apply realm_query.
  - by apply role_from_connection_safe.
  - unfold member_role_ids. repeat rnext.
  - by apply create_member_safe.
  - by apply revoke_member_safe.
  - by apply create_service_account_safe.
  - by apply revoke_service_account_safe.
  - by apply create_role_safe.
  - by apply set_role_capabilities_safe.
  - by apply assign_role_safe.
  - by apply register_credential_safe.
  - by apply begin_rotation_safe.
  - by apply complete_rotation_safe.
  - by apply revoke_credential_safe.
  - apply recover_incomplete_safe.
  - by apply recover_credential_safe.
Qed.
Definition empty_realm : Realm := mkRealm empty_store (mkIdentity ∅ ∅ ∅ ∅ ∅ ∅).
Lemma empty_realm_ok : RealmInv empty_realm.
Proof.
  constructor; [apply empty_store_ok|]. constructor; try (constructor; cbn; intros; by rewrite lookup_empty in * ).
  all: cbn; intros; try by rewrite lookup_empty in *.
Qed.
Definition reachable_realm (c : Pool Realm) : Prop := rtc (pool_step RealmRequest) (empty_realm, []) c.
Lemma realm_ok c : reachable_realm c -> RealmInv c.1 /\ Forall (safe RealmInv RealmGrow anything c.1) c.2.
Proof.
  intros Hr. destruct (pool_safe_steps RealmInv RealmGrow RealmRequest (empty_realm, []) c realm_request_safe Hr) as (? & _ & ?);
    [apply empty_realm_ok|constructor|done].
Qed.
Lemma realm_grows c c' : reachable_realm c -> rtc (pool_step RealmRequest) c c' -> RealmInv c'.1 /\ RealmGrow c.1 c'.1.
Proof.
  intros Hr Hs. destruct (realm_ok _ Hr) as [Hi Hps].
  destruct (pool_safe_steps RealmInv RealmGrow RealmRequest c c' realm_request_safe Hs) as (? & ? & _); done.
Qed.

(** C14: Whatever requests on identities and on the rest of the store are under
    way and however their statements are interleaved: members, roles, service
    accounts and credentials lie in workspaces that exist, under a subject, name
    or reference of their own there; a role is only held by members of its
    workspace; a credential belongs to a principal of its workspace and its
    reference names its provider; and from one state to any later one no identity
    changes its workspace or its name, no credential its owner or its reference,
    and no revocation of a member or an account is undone. *)
Theorem identities_consistent d ps d' ps' :
  reachable_realm (d, ps) -> rtc (pool_step RealmRequest) (d, ps) (d', ps') ->
  IdentityOk (workspaces_of (realm_store d')) (identities d') /\ identity_le (identities d) (identities d').
Proof. intros Hr Hs. destruct (realm_grows _ _ Hr Hs) as [[_ Hok] [_ Hle]]. by split. Qed.
End realms.
