(* ===== verification/Credentials.v ===== *)
(** * The life of a credential

    What a reference names, what a rotation replaces, and the end of a
    credential: revocation is final when requests run one after another, and is
    not when they do not. *)

From S2P Require Import Prelude Text Secrets Logical Nodes Schedule Automation Hex Executions Canonical Operations Jobs Submissions Outputs Lifecycle Reports Life Refines Reachable Frame Sample Control Autocommit Workspaces Scopes Interleavings Closing Identity Realms.

(** ** References *)

Lemma split_slash_spec t u v : split_slash t = Some (u, v) <-> t = u ++ 47%N :: v /\ 47%N ∉ u.
Proof.
  revert u v. induction t as [|b t IH]; intros u v; cbn; [split; [done|]; intros [Heq _]; by destruct u|].
  destruct (N.eqb_spec b 47) as [->|Hb].
  - split; [intros [= <- <-]; split; [done|apply not_elem_of_nil]|]. intros [Heq Hn]. destruct u as [|x u]; [by injection Heq as ->|].
    injection Heq as <- _. destruct Hn. left.
  - rewrite fmap_Some. split.
    + intros ([u' v'] & Hs & [= -> ->]). apply IH in Hs as [-> Hn]. split; [done|]. by rewrite not_elem_of_cons.
    + intros [Heq Hn]. destruct u as [|x u]; injection Heq as Hx Heq; [done|]. rewrite not_elem_of_cons in Hn. destruct Hn as [_ Hn].
      exists (u, v). split; [by apply IH|by rewrite Hx].
Qed.
Lemma strip_prefix_spec prefix t u : strip_prefix prefix t = Some u <-> t = prefix ++ u.
Proof.
  unfold strip_prefix. destruct (starts_with prefix t) eqn:Hs.
  - apply starts_with_spec in Hs as [v ->]. rewrite drop_app_length. split; [by intros [= ->]|by intros ->%app_inv_head].
  - split; [done|]. intros ->. assert (starts_with prefix (prefix ++ u) = true) as Ht by (apply starts_with_spec; eauto). congruence.
Qed.
Lemma kind_no_slash k : forallb kind_byte k = true -> 47%N ∉ k.
Proof. rewrite forallb_forall. intros Hall Hin%list_elem_of_In. by specialize (Hall _ Hin). Qed.
Lemma provider_kind_spec r k :
  provider_kind r = Ok k <->
  exists key, bytes_of (as_str r) = bytes_of "cred://" ++ k ++ 47%N :: key /\ k <> [] /\ key <> [] /\ forallb kind_byte k = true.
Proof.
  unfold provider_kind. split.
  - intros Hk. apply bind_Ok in Hk as (rest & Hr%ok_or_Ok & Hk). apply strip_prefix_spec in Hr.
    apply bind_Ok in Hk as ([u v] & Hs%ok_or_Ok & Hk). apply split_slash_spec in Hs as [-> _]. inv_ok Hk. injection Hk as ->.
    apply orb_false_iff in Hb as [[Hu Hv]%orb_false_iff Hall]. apply bool_decide_eq_false in Hu, Hv. apply negb_false_iff in Hall. by exists v.
  - intros (key & Hb & Hk & Hkey & Hall). assert (strip_prefix (bytes_of "cred://") (bytes_of (as_str r)) = Some (k ++ 47%N :: key)) as ->
      by by apply strip_prefix_spec.
    cbn [ok_or mbind result_bind]. assert (split_slash (k ++ 47%N :: key) = Some (k, key)) as -> by (apply split_slash_spec; by split; [|apply kind_no_slash]).
    cbn. by rewrite !bool_decide_eq_false_2, Hall.
Qed.

(** A provider is given exactly the key its reference names: [provider_key]
    answers for the references that are [cred://], the provider's kind, a slash
    and a key that is not empty, with that key; every other reference, another
    provider's among them, is refused. *)
Theorem provider_key_exact r kind key :
  provider_key r kind = Ok key <->
  bytes_of (as_str r) = bytes_of "cred://" ++ kind ++ 47%N :: key /\ kind <> [] /\ key <> [] /\ forallb kind_byte kind = true.
Proof.
  unfold provider_key. split.
  - intros Hk. apply bind_Ok in Hk as (k & Hkind & Hk). inv_ok Hk. bools. subst k. injection Hk as ->. apply ok_or_Ok, strip_prefix_spec in Hx.
    apply provider_kind_spec in Hkind as (key' & Hb' & Hne & Hkey & Hall). rewrite Hx in Hb'. rewrite <- !app_assoc in Hb'.
    do 2 apply app_inv_head in Hb'. injection Hb' as <-. split_and!; [|done|done|done]. rewrite Hx, <- !app_assoc. done.
  - intros (Hb & Hk & Hkey & Hall). assert (provider_kind r = Ok kind) as -> by (apply provider_kind_spec; eauto). cbn [mbind result_bind].
    rewrite bool_decide_eq_true_2 by done. cbn [negb].
    assert (strip_prefix (bytes_of "cred://" ++ kind ++ [47%N]) (bytes_of (as_str r)) = Some key) as ->
      by (apply strip_prefix_spec; rewrite Hb, <- !app_assoc; done).
    cbn. by rewrite bool_decide_eq_false_2.
Qed.

(** ** Revocation *)

Section credentials.
Context `{JobCodec} `{StoreFiles}.

(** The row of a credential that has been revoked. *)
Definition ended (id : Uuid) (row : CredentialRow) (d : Realm) : Prop :=
  sec_credentials (identities d) !! id = Some row /\ cr_state row = CredentialRevoked.
Notation holds id row := (preserves (ended id row)).

Lemma insert_elsewhere {A} id row get (set : gmap Uuid A -> IdentityTables -> IdentityTables) fits i a :
  (forall m t, sec_credentials (set m t) = sec_credentials t) -> holds id row (write (insert_identity get set fits i a)).
Proof. intros Hset. apply preserves_write. intros d d' u [Hl Hs] (_ & _ & _ & Hids)%insert_identity_Ok. split; [by rewrite Hids, Hset|done]. Qed.
Lemma update_elsewhere {A} id row get (set : gmap Uuid A -> IdentityTables -> IdentityTables) i cond f :
  (forall m t, sec_credentials (set m t) = sec_credentials t) -> holds id row (write (update_identity get set i cond f)).
Proof.
  intros Hset. apply preserves_write. intros d d' u [Hl Hs] [->|(a & _ & _ & _ & Hids)]%update_identity_Ok; [done|]. split; [by rewrite Hids, Hset|done].
Qed.
Lemma capabilities_elsewhere id row ws role caps : holds id row (write (set_role_capabilities_tx ws role caps)).
Proof. apply preserves_write. intros d d' u Hd Hw. unfold set_role_capabilities_tx in Hw. cbv zeta in Hw. inv_ok Hw. by injection Hw as <- _. Qed.
Lemma assignment_elsewhere id row ws m r : holds id row (write (assign_role_tx ws m r)).
Proof. apply preserves_write. intros d d' u Hd Hw. unfold assign_role_tx in Hw. inv_ok Hw. by injection Hw as <- _. Qed.
Lemma fresh_credential id row c ws d d' u : ended id row d -> insert_credential c ws d = Ok (d', u) -> ended id row d'.
Proof.
  intros [Hl Hs] (Hn & _ & _ & Hids)%insert_identity_Ok. split; [|done]. rewrite Hids. cbn. rewrite lookup_insert_ne; [done|]. intros Heq. congruence.
Qed.

(** A revoked credential is read as revoked, and nothing that reads it goes on. *)
Lemma ended_read id row ws i d current :
  ended id row d -> credential_from_connection d ws i = Ok current -> i = id -> credential_row current = row /\ cr_workspace_id row = ws.
Proof.
  intros [Hl _] Hr ->. unfold credential_from_connection, raw_credential in Hr. apply bind_Ok in Hr as (r & (Hr' & Hw)%in_workspace_Ok & Hr).
  rewrite Hl in Hr'. injection Hr' as <-. inv_ok Hr. by injection Hr as <-.
Qed.
(** A change of a credential that was read in another state than revoked. *)
Lemma guarded_move id row ws i (guard : CredentialRefRecord -> Stored unit) (target : CredentialRefRecord -> CredentialState) :
  (forall current, cr_state (credential_row current) = CredentialRevoked -> guard current <> Ok tt) ->
  holds id row (current ← query (fun d => credential_from_connection d ws i);
                try! check (guard current);
                try! write (update_identity sec_credentials set_credentials i (fun c => (cr_workspace_id c =? ws)%N)
                              (credential_move (target current) None));
                query (fun d => credential_from_connection d ws i)).
Proof.
  intros Hg d Hd. rewrite exec_auto_query. destruct (credential_from_connection d ws i) as [current|e] eqn:Hread; [|done].
  rewrite exec_auto_check. destruct (guard current) as [[]|e] eqn:Hguard; [|done]. rewrite exec_auto_write.
  destruct (update_identity _ _ _ _ _ d) as [[d' u]|e] eqn:Hw; [|done]. cbn.
  apply update_identity_Ok in Hw as [->|(a & Ha & _ & _ & Hids)]; [done|]. destruct Hd as [Hl Hs]. split; [|done]. rewrite Hids. cbn.
  destruct (decide (i = id)) as [->|Hne]; [|by rewrite lookup_insert_ne]. destruct (Hg current); [|done].
  by destruct (ended_read id row ws id d current) as [-> _].
Qed.
Lemma revoke_ended id row ws i at_ : holds id row (revoke_credential ws i at_).
Proof.
  unfold revoke_credential. apply preserves_then; [apply preserves_query|]. intros current. apply preserves_then; [apply preserves_check|]. intros _.
  apply preserves_then; [|intros; apply preserves_query]. apply preserves_write.
  intros d d' u [Hl Hs] [->|(a & Ha & Hc & _ & Hids)]%update_identity_Ok; [done|]. split; [|done]. rewrite Hids. cbn.
  rewrite lookup_insert_ne; [done|]. intros ->. rewrite Hl in Ha. injection Ha as <-. by rewrite Hs, andb_false_r in Hc.
Qed.
Lemma restart_ended id row : holds id row recover_incomplete_rotations.
Proof.
  apply preserves_write. intros d d' n [Hl Hs] [= <- _]. split; [|done]. cbn. rewrite lookup_fmap, Hl. cbn. unfold interrupted.
  by rewrite bool_decide_eq_false_2 by congruence.
Qed.
Lemma complete_ended id row ws old c at_ : holds id row (write (complete_rotation_tx ws old c at_)).
Proof.
  apply preserves_write. intros d d' u [Hl Hs] (r & Hr & _ & Hrot & _ & Hins)%complete_tx_Ok. eapply fresh_credential; [|exact Hins].
  split; [|done]. cbn. rewrite lookup_insert_ne; [done|]. intros ->. rewrite Hl in Hr. injection Hr as <-. by rewrite Hs in Hrot.
Qed.

Ltac hold := repeat first
  [ apply preserves_query | apply preserves_check | apply preserves_ret | by apply insert_elsewhere | by apply update_elsewhere
  | apply capabilities_elsewhere | apply assignment_elsewhere | apply complete_ended | apply preserves_then; [|intros ?] ].
Lemma request_ended id row p d : RealmRequest p -> ended id row d -> ended id row (exec p d).1.
Proof.
  intros Hp Hd. destruct Hp; [by rewrite exec_lift|..]; apply preserves_unit; try done.
  all: try (cbv delta [get_role role_from_connection member_role_ids create_member revoke_member create_service_account revoke_service_account
    create_role set_role_capabilities assign_role complete_credential_rotation] beta; hold; done).
  - unfold register_credential_reference. hold. apply preserves_write. intros d0 d' u He Hw. by eapply fresh_credential.
  - apply (guarded_move id row ws id0 (fun current => if negb (rotatable (cr_state (credential_row current))) then _ else _)
      (fun _ => CredentialRotating)). intros current Hs. by rewrite Hs.
  - apply revoke_ended.
  - apply restart_ended.
  - apply (guarded_move id row ws id0 (fun current => if negb (bool_decide (cr_state (credential_row current) = CredentialRecoveryRequired)) then _ else _)
      (fun current => if expired_at _ _ then _ else _)). intros current Hs. by rewrite Hs.
Qed.

(** C15: Revocation is final when requests run one after another: whatever
    requests follow, rotations, recoveries and restarts among them, the row of a
    revoked credential stays as it is. *)
Theorem revocation_is_final d ps id row :
  Forall RealmRequest ps -> sec_credentials (identities d) !! id = Some row -> cr_state row = CredentialRevoked ->
  sec_credentials (identities (foldl (fun d p => (exec p d).1) d ps)) !! id = Some row.
Proof.
  intros Hps Hl Hs. assert (ended id row d) as Hd by done. clear Hl Hs. revert d Hd.
  induction Hps as [|p ps Hp _ IH]; intros d Hd; [apply Hd|]. by apply IH, request_ended.
Qed.

(** A rotation that is completed replaces one credential by another in one
    step: the old one, which was rotating, is revoked at that time, the new one is
    active, of the same owner and under a reference that was free, and every other
    credential is as it was; a rotation that fails changes nothing. *)
Theorem rotation_replaces workspace old c rotated_at d :
  match complete_rotation_tx workspace old c rotated_at d with
  | Ok (d', _) =>
      exists row, sec_credentials (identities d) !! old = Some row /\ rotating (cr_state row) = true /\ cr_owner row = cd_owner c /\
        old <> cd_id c /\
        sec_credentials (identities d') !! old = Some (credential_move CredentialRevoked (Some rotated_at) row) /\
        sec_credentials (identities d') !! cd_id c = Some (credential_row_of c workspace) /\
        (forall i r, sec_credentials (identities d) !! i = Some r -> cr_workspace_id r = workspace ->
           cr_credential_ref r <> as_str (cd_credential_ref c)) /\
        (forall i, i <> old -> i <> cd_id c -> sec_credentials (identities d') !! i = sec_credentials (identities d) !! i)
  | Err _ => exec (request_unit (write (complete_rotation_tx workspace old c rotated_at))) d = (d, tt)
  end.
Proof.
  destruct (complete_rotation_tx workspace old c rotated_at d) as [[d' u]|e] eqn:Hc; [|cbn; by rewrite Hc].
  apply complete_tx_Ok in Hc as (row & Hrow & Hw & Hrot & Ho & (Hn & Hfits & _ & Hids)%insert_identity_Ok). cbn in Hn, Hids.
  apply lookup_insert_None in Hn as [Hn Hne]. exists row. rewrite Hids. cbn. split_and!; try done.
  - rewrite lookup_insert_ne by done. by rewrite lookup_insert_eq.
  - by rewrite lookup_insert_eq.
  - unfold credential_fits in Hfits. apply andb_true_iff in Hfits as [[_ Hu]%andb_true_iff _]. intros i r Hi Hwr.
    pose proof (unused_spec cr_workspace_id cr_credential_ref _ (credential_row_of c workspace) Hu) as Hfree. cbn in Hfree.
    destruct (decide (i = old)) as [->|Hio].
    + rewrite Hrow in Hi. injection Hi as <-. apply (Hfree old (credential_move CredentialRevoked (Some rotated_at) row)); [by rewrite lookup_insert_eq|done].
    + apply (Hfree i); [by rewrite lookup_insert_ne|done].
  - intros i Hio Hic. by rewrite !lookup_insert_ne.
Qed.
End credentials.

(** ** A keychain *)

(** What a keychain is for: a key that was put can be read back, a key that was
    deleted cannot, and other keys are left alone. *)
Class KeychainLaws (S : Type) `{KeychainBackend S} : Prop := {
  get_put s s' key material : keychain_put key material s = (s', Ok tt) -> (keychain_get key s').2 = Ok material;
  get_delete s s' key : keychain_delete key s = (s', Ok tt) -> (keychain_get key s').2 = Err Unavailable;
  get_after_delete s s' key other r : keychain_delete key s = (s', r) -> other <> key -> (keychain_get other s').2 = (keychain_get other s).2;
}.
(** Rotating a secret in the keychain: after a rotation to another reference
    that succeeds, the new reference resolves to the replacement and the old one
    to nothing.  A rotation of a reference to itself succeeds too, and what it has
    stored is gone. *)
Theorem keychain_rotation S `{KeychainLaws S} old new replacement (s s' : S) :
  rotate OsKeychainProvider old new replacement s = (s', Ok tt) ->
  (resolve OsKeychainProvider old s').2 = Err Unavailable /\
  (as_str new <> as_str old -> (resolve OsKeychainProvider new s').2 = Ok replacement).
Proof.
  unfold OsKeychainProvider. cbn [rotate resolve]. unfold keychain_rotate, keychain_store, keychain_revoke, with_key, then_effect, pure_effect. intros Hr.
  destruct (provider_key new (bytes_of "keychain")) as [kn|] eqn:Hn; [|done].
  destruct (keychain_put kn replacement s) as [s1 [[]|]] eqn:Hput; [|done].
  destruct (provider_key old (bytes_of "keychain")) as [ko|] eqn:Ho; [|done].
  split; [by eapply get_delete|]. intros Hne. rewrite (get_after_delete _ _ _ _ _ Hr); [by eapply get_put|]. intros ->. apply Hne.
  apply provider_key_exact in Hn as [Hn _], Ho as [Ho _]. apply bytes_of_inj. congruence.
Qed.

(** ** On a sample *)

#[local] Open Scope N_scope.

Definition key_reference : CredentialRef := mkCredentialRef "cred://env/KEY" eq_refl.
Definition sample_credential (id : Uuid) (r : CredentialRef) : CredentialRefDraft :=
  mkCredentialRefDraft id 1 (mkOwner PrincipalMember 2) "env" r 1%Z (Some 100%Z).
Definition admitted : list (Prog Realm unit) :=
  [lift (request_unit (create_workspace 1 0%Z)); request_unit (create_member 1 2 "subject" 0%Z);
   request_unit (register_credential_reference (sample_credential 3 key_reference))].
Definition interrupted_rotation : list (Prog Realm unit) :=
  admitted ++ [request_unit (begin_credential_rotation 1 3 2%Z); request_unit recover_incomplete_rotations].
(** Each request by its own constructor. *)
Ltac is_request :=
  cbn [requested_by];
  lazymatch goal with
  | |- True => exact Logic.I
  | |- RealmRequest (lift _) => refine (realm_on_store _ _); constructor
  | |- RealmRequest (request_unit (create_member _ _ _ _)) => exact (realm_create_member _ _ _ _)
  | |- RealmRequest (request_unit (register_credential_reference _)) => exact (realm_register _)
  | |- RealmRequest (request_unit (begin_credential_rotation _ _ _)) => exact (realm_begin_rotation _ _ _)
  | |- RealmRequest (request_unit recover_incomplete_rotations) => exact (realm_restart)
  | |- RealmRequest (request_unit (recover_credential _ _ _)) => exact (realm_recover _ _ _)
  | |- RealmRequest (request_unit (revoke_credential _ _ _)) => exact (realm_revoke_credential _ _ _)
  end.
Lemma admitted_requests : Forall RealmRequest admitted.
Proof. repeat (apply Forall_cons; split; [is_request|]). constructor. Qed.
Lemma interrupted_requests : Forall RealmRequest interrupted_rotation.
Proof.
  apply Forall_app. split; [apply admitted_requests|]. repeat (apply Forall_cons; split; [is_request|]). constructor.
Qed.
Definition realm_from_empty (ts : list (Turn Realm)) : Pool Realm := foldl play (empty_realm, []) ts.
Lemma realm_from_empty_reachable ts :
  Forall (requested_by RealmRequest) ts -> reachable_realm ((realm_from_empty ts).1, (realm_from_empty ts).2).
Proof. intros Hts. rewrite <- surjective_pairing. by apply play_steps. Qed.
(** A recovery reads the credential; it is revoked; the recovery goes on. *)
Definition recovering : list (Turn Realm) :=
  schedule 0 interrupted_rotation ++
  [Arrive (request_unit (recover_credential 1 3 4%Z)); Next 5; Arrive (request_unit (revoke_credential 1 3 4%Z)); Next 6; Next 6].
Lemma recovering_requested : Forall (requested_by RealmRequest) recovering.
Proof.
  apply Forall_app. split; [apply schedule_requested, interrupted_requests|]. repeat (apply Forall_cons; split; [is_request|]).
  constructor.
Qed.

(** Revocation is not final among other requests: a recovery that has read a
    credential before it was revoked makes it active again afterwards, since its
    update looks at the identity of the row only. *)
Theorem revocation_undone :
  exists d ps d' ps', reachable_realm (d, ps) /\ rtc (pool_step RealmRequest) (d, ps) (d', ps') /\
    cr_state <$> sec_credentials (identities d) !! 3 = Some CredentialRevoked /\
    cr_state <$> sec_credentials (identities d') !! 3 = Some CredentialActive.
Proof.
  exists (realm_from_empty recovering).1, (realm_from_empty recovering).2, (realm_from_empty (recovering ++ [Next 5])).1,
    (realm_from_empty (recovering ++ [Next 5])).2. split_and!.
  - apply realm_from_empty_reachable, recovering_requested.
  - rewrite <- !surjective_pairing. unfold realm_from_empty. rewrite foldl_app. apply play_steps. repeat constructor.
  - by vm_compute.
  - by vm_compute.
Qed.

Definition whole (ps : list (Prog Realm unit)) : Realm := foldl (fun d p => (exec p d).1) empty_realm ps.
Definition revoked_sample : list (Prog Realm unit) := admitted ++ [request_unit (revoke_credential 1 3 4%Z)].
Definition after_revocation : list (Prog Realm unit) :=
  [request_unit (begin_credential_rotation 1 3 5%Z); request_unit recover_incomplete_rotations; request_unit (recover_credential 1 3 6%Z)].
Lemma revocation_is_final_witness :
  exists row, sec_credentials (identities (foldl (fun d p => (exec p d).1) (whole revoked_sample) after_revocation)) !! 3 = Some row /\
    cr_state row = CredentialRevoked.
Proof.
  destruct (sec_credentials (identities (whole revoked_sample)) !! 3) as [row|] eqn:Hrow; [|by vm_compute in Hrow].
  assert (cr_state row = CredentialRevoked) as Hs by (revert Hrow; vm_compute; intros Hrow; by injection Hrow as <-).
  exists row. split; [|exact Hs]. apply (revocation_is_final (whole revoked_sample) after_revocation 3 row); [|exact Hrow|exact Hs].
  repeat (apply Forall_cons; split; [is_request|]). constructor.
Defined.
Lemma identities_consistent_witness :
  IdentityOk (workspaces_of (realm_store (realm_from_empty recovering).1)) (identities (realm_from_empty recovering).1) /\
  cr_credential_ref <$> sec_credentials (identities (realm_from_empty recovering).1) !! 3 = Some "cred://env/KEY".
Proof.
  split; [|by vm_compute].
  exact (proj1 (identities_consistent _ _ _ _ (realm_from_empty_reachable _ recovering_requested) (rtc_refl _ _))).
Defined.
(** A keychain in memory. *)
#[local] Instance map_keychain : KeychainBackend (gmap (list N) (list N)) := {|
  keychain_get key s := (s, ok_or (s !! key) Unavailable);
  keychain_put key material s := (<[key := material]> s, Ok tt);
  keychain_delete key s := (delete key s, Ok tt);
  keychain_recover key s := (s, Err Unsupported);
|}.
#[local] Instance map_keychain_laws : KeychainLaws (gmap (list N) (list N)).
Proof.
  constructor; cbn.
  - intros s s' key material [= <-]. by rewrite lookup_insert_eq.
  - intros s s' key [= <-]. by rewrite lookup_delete_eq.
  - intros s s' key other r [= <- _] Hne. by rewrite lookup_delete_ne.
Qed.
Definition chain_reference (key : string) (Hk : validate_credential_reference ("cred://keychain/" ++ key) = true) : CredentialRef :=
  mkCredentialRef ("cred://keychain/" ++ key) Hk.
Lemma keychain_rotation_witness :
  (resolve OsKeychainProvider (chain_reference "b" eq_refl)
     (rotate OsKeychainProvider (chain_reference "a" eq_refl) (chain_reference "b" eq_refl) [1; 2] (∅ : gmap (list N) (list N))).1).2 = Ok [1; 2].
Proof.
  apply (keychain_rotation (gmap (list N) (list N)) (chain_reference "a" eq_refl) (chain_reference "b" eq_refl) [1; 2] ∅); [by vm_compute|done].
Defined.
