(* ===== verification/Authorization.v ===== *)
(** * The authorization gate: [stillflow-api/src/authorization.rs],
    [envelope.rs], [version.rs] and the checks of [service.rs]

    A request carries its workspace and perhaps a principal.  The gate reads
    what the principal may do from the store and keeps it in a cache; each read
    is a statement of its own, and the cache is state beside the database that
    other requests change in between. *)

From S2P Require Import Prelude Text Secrets Logical Nodes Schedule Automation Hex Executions History Canonical Operations Jobs Submissions Outputs Lifecycle Reports Life Refines Reachable Autocommit Workspaces Identity.
From stdpp Require Import pretty.

(** ** Versions and envelopes *)

Definition API_V1 : N := 1.
Definition SUPPORTED_API_VERSIONS : list N := [API_V1].
Definition is_supported (version : N) : bool := bool_decide (version ∈ SUPPORTED_API_VERSIONS).

Inductive RequestPrincipalKind := RequestMember | RequestServiceAccount.
#[export] Instance RequestPrincipalKind_eq_dec : EqDecision RequestPrincipalKind.
Proof. solve_decision. Defined.
#[export] Program Instance RequestPrincipalKind_countable : Countable RequestPrincipalKind := {|
  encode k := encode (bool_decide (k = RequestMember));
  decode n := (fun b : bool => if b then RequestMember else RequestServiceAccount) <$> decode n;
|}.
Next Obligation. intros []; by rewrite decode_encode. Qed.
Record RequestPrincipal := mkPrincipal { principal_kind : RequestPrincipalKind; principal_id : Uuid }.
#[export] Instance RequestPrincipal_eq_dec : EqDecision RequestPrincipal.
Proof. solve_decision. Defined.
Record RequestMetadata := mkMetadata {
  api_version : N;
  request_id : Uuid;
  meta_workspace_id : Uuid;
  idempotency_key : option string;
  principal : option RequestPrincipal;
}.
Record ApiResponse (A : Type) := mkResponse { response_version : N; response_request_id : Uuid; response_body : A }.
#[global] Arguments mkResponse {A}.
#[global] Arguments response_body {A}.
Definition respond {A} (meta : RequestMetadata) (body : A) : ApiResponse A := mkResponse API_V1 (request_id meta) body.
(** The text of the error that names the version. *)
Definition unsupported_version (version : N) : ApiError :=
  mkApiError History.UnsupportedVersion ("unsupported API version " ++ pretty version).
Definition validate_version (meta : RequestMetadata) : ApiResult unit :=
  if is_supported (api_version meta) then Ok tt else Err (unsupported_version (api_version meta)).
Definition unauthorized : ApiError := mkApiError Unauthorized "authorization failed".

(** The counters and the log that follow the checks are left out. *)
Definition validate_idempotency_key (key : string) : ApiResult unit :=
  if (str_len key =? 0)%N || (128 <? str_len key)%N || bool_decide (is_Some (whitespace_width (bytes_of key))) || ends_blank (bytes_of key)
  then Err (api_invalid "invalid idempotency key") else
  if has_control (bytes_of key) then Err (api_invalid "invalid idempotency key") else Ok tt.
Definition validate_meta_unscoped (meta : RequestMetadata) (mutation : bool) : ApiResult unit :=
  try! validate_version meta;
  if is_nil (request_id meta) || is_nil (meta_workspace_id meta) then Err (api_invalid "request and workspace identities are required") else
  match idempotency_key meta with
  | Some key => if mutation then validate_idempotency_key key else Ok tt
  | None => Ok tt
  end.

(** ** Capabilities *)

Inductive AuthorizationMode := LocalTrusted | Server.
#[export] Instance AuthorizationMode_eq_dec : EqDecision AuthorizationMode.
Proof. solve_decision. Defined.
Inductive Capability :=
| WorkspaceRead | WorkspaceWrite | WorkspaceAdmin | IdentityManage | ConnectorRead | ConnectorWrite | ConnectorTest | DatasetRead
| DatasetWrite | PlanRead | PlanWrite | JobRead | JobWrite | RunRead | EventRead | ArtifactRead | ArtifactDownload | ExportWrite
| AutomationRead | AutomationCreate | AutomationUpdate | AutomationPause | AutomationResume | AutomationDelete | AutomationTrigger
| CredentialManage | AuditRead | AuditExport.
#[export] Instance Capability_eq_dec : EqDecision Capability.
Proof. solve_decision. Defined.
Definition capability_as_str (c : Capability) : string :=
  match c with
  | WorkspaceRead => "workspace:read" | WorkspaceWrite => "workspace:write" | WorkspaceAdmin => "workspace:admin"
  | IdentityManage => "identity:manage" | ConnectorRead => "connector:read" | ConnectorWrite => "connector:write"
  | ConnectorTest => "connector:test" | DatasetRead => "dataset:read" | DatasetWrite => "dataset:write"
  | PlanRead => "plan:read" | PlanWrite => "plan:write" | JobRead => "job:read" | JobWrite => "job:write"
  | RunRead => "run:read" | EventRead => "event:read" | ArtifactRead => "artifact:read"
  | ArtifactDownload => "artifact:download" | ExportWrite => "export:write" | AutomationRead => "automation:read"
  | AutomationCreate => "automation:create" | AutomationUpdate => "automation:update" | AutomationPause => "automation:pause"
  | AutomationResume => "automation:resume" | AutomationDelete => "automation:delete" | AutomationTrigger => "automation:trigger"
  | CredentialManage => "credential:manage" | AuditRead => "audit:read" | AuditExport => "audit:export"
  end.
Definition capability_parse (value : string) : option Capability :=
  match value with
  | "workspace:read" => Some WorkspaceRead | "workspace:write" => Some WorkspaceWrite | "workspace:admin" => Some WorkspaceAdmin
  | "identity:manage" => Some IdentityManage | "connector:read" => Some ConnectorRead | "connector:write" => Some ConnectorWrite
  | "connector:test" => Some ConnectorTest | "dataset:read" => Some DatasetRead | "dataset:write" => Some DatasetWrite
  | "plan:read" => Some PlanRead | "plan:write" => Some PlanWrite | "job:read" => Some JobRead | "job:write" => Some JobWrite
  | "run:read" => Some RunRead | "event:read" => Some EventRead | "artifact:read" => Some ArtifactRead
  | "artifact:download" => Some ArtifactDownload | "export:write" => Some ExportWrite | "automation:read" => Some AutomationRead
  | "automation:create" => Some AutomationCreate | "automation:update" => Some AutomationUpdate
  | "automation:pause" => Some AutomationPause | "automation:resume" => Some AutomationResume
  | "automation:delete" => Some AutomationDelete | "automation:trigger" => Some AutomationTrigger
  | "credential:manage" => Some CredentialManage | "audit:read" => Some AuditRead | "audit:export" => Some AuditExport
  | _ => None
  end%string.
(** [validated.contains(..)]: what has been accepted so far. *)
Fixpoint validated_from (validated : list string) (values : list string) : ApiResult (list string) :=
  match values with
  | [] => Ok validated
  | value :: values =>
      match capability_parse value with
      | None => Err (api_invalid "unknown capability")
      | Some _ => if bool_decide (value ∈ validated) then Err (api_invalid "duplicate capability")
                  else validated_from (validated ++ [value]) values
      end
  end.
Definition validated_capabilities (values : list string) : ApiResult (list string) := validated_from [] values.

(** ** The service's state

    The database and the cache.  A lock that a panic has poisoned is not
    modelled: nothing panics while it is held. *)

(** workspace, kind and identity *)
Definition PrincipalKey : Type := Uuid * RequestPrincipalKind * Uuid.
Record Service := mkService { realm : Realm; cache : gmap PrincipalKey (gset string) }.
Notation Served := (Auto Service ApiError).

Definition within {A} : Prog Realm A -> Prog Service A := focus realm (fun d s => mkService d (cache s)).
(** A call of the store, with its errors mapped. *)
Definition attempt {A} (f : StorageError -> ApiError) (p : Identified A) : Served A :=
  prog_bind (fun r => Done (map_err f r)) (within p).
Definition stored {A} (p : Identified A) : Served A := attempt from_storage p.
Definition denied {A} (p : Identified A) : Served A := attempt (fun _ => unauthorized) p.

(** ** The gate *)

Section gate.
Context `{JobCodec} (mode : AuthorizationMode).

Fixpoint role_capabilities_of (workspace : Uuid) (roles : list Uuid) (capabilities : gset string) : Served (gset string) :=
  match roles with
  | [] => mret capabilities
  | id :: roles =>
      role ← denied (get_role workspace id);
      role_capabilities_of workspace roles (capabilities ∪ list_to_set (role_capabilities role))
  end.
Definition load_capabilities (key : PrincipalKey) : Served (gset string) :=
  let '(workspace, kind, id) := key in
  match kind with
  | RequestMember =>
      member ← denied (get_member workspace id);
      try! check (if bool_decide (m_state member = IdentityActive) then Ok tt else Err unauthorized);
      roles ← denied (member_role_ids workspace id);
      role_capabilities_of workspace roles ∅
  | RequestServiceAccount =>
      account ← denied (get_service_account workspace id);
      try! check (if bool_decide (sv_state account = IdentityActive) then Ok tt else Err unauthorized);
      mret ∅
  end.
Definition cache_get (key : PrincipalKey) : Served (option (gset string)) := query (fun s => Ok (cache s !! key)).
Definition cache_put (key : PrincipalKey) (snapshot : gset string) : Served unit :=
  write (fun s => Ok (mkService (realm s) (<[key := snapshot]> (cache s)), tt)).
Definition snapshot_of (key : PrincipalKey) : Served (gset string) :=
  cached ← cache_get key;
  match cached with
  | Some snapshot => mret snapshot
  | None => capabilities ← load_capabilities key; try! cache_put key capabilities; mret capabilities
  end.
Definition grants (capabilities : gset string) (capability : Capability) : bool :=
  bool_decide (capability_as_str capability ∈ capabilities) || bool_decide (capability_as_str WorkspaceAdmin ∈ capabilities).
Definition authorize (workspace : Uuid) (principal : option RequestPrincipal) (capability : Capability) : Served unit :=
  if bool_decide (mode = LocalTrusted) && bool_decide (principal = None) then mret tt else
  principal ← check (ok_or principal unauthorized);
  record ← denied (lift (get_workspace workspace));
  try! check (if bool_decide (w_state record = WorkspaceActive) then Ok tt else Err unauthorized);
  snapshot ← snapshot_of (workspace, principal_kind principal, principal_id principal);
  check (if grants snapshot capability then Ok tt else Err unauthorized).
Definition invalidate_workspace (workspace : Uuid) : Served unit :=
  write (fun s => Ok (mkService (realm s) (filter (fun e => e.1.1.1 <> workspace) (cache s)), tt)).
Definition is_local_trusted : bool := bool_decide (mode = LocalTrusted).

Definition require_capability (meta : RequestMetadata) (capability : Capability) : Served unit :=
  authorize (meta_workspace_id meta) (principal meta) capability.
Definition validate_meta (meta : RequestMetadata) (mutation : bool) : Served unit :=
  try! check (validate_meta_unscoped meta mutation);
  require_capability meta (if mutation then WorkspaceWrite else WorkspaceRead).
End gate.
