(* ===== verification/Endpoints.v ===== *)
(** * Requests of the API: [stillflow-api/src/service.rs]

    Workspaces, identities, sessions, connections, datasets and plans.  Each
    request checks its metadata, passes the gate and calls the store; the views
    it answers with are the records field by field, so the records stand for
    them.  Requests that call a connector, the engine or the job runtime are
    not here. *)

From S2P Require Import Prelude Text Secrets Logical Schema Expression Rule Plan Nodes Schedule Automation Hex Executions History Canonical Operations Jobs Submissions Outputs Lifecycle Reports Life Refines Reachable Autocommit Workspaces Identity Authorization.

Record PageInfo := mkPageInfo { has_more : bool }.
Record ObjectList (A : Type) := mkObjectList { items : list A; page : PageInfo }.
#[global] Arguments mkObjectList {A}.
#[global] Arguments items {A}.
#[global] Arguments page {A}.
(** The manifest, a constant table of the requests, is left out. *)
Record HandshakeResponse := mkHandshake { selected_version : N; supported_versions : list N }.
Record RoleAssignmentView := mkAssignment { ra_workspace_id : Uuid; ra_member_id : Uuid; ra_role_id : Uuid }.
Record PlanDiffView := mkPlanDiff { changed : bool; left_canonical_plan_digest : string; right_canonical_plan_digest : string }.
Record ValidatePlanView := mkValidatePlan { vp_canonical_plan_digest : string; vp_plan_fingerprint : string }.
(** A reference to a credential as it comes in: the draft's fields as text. *)
Record CredentialBody := mkCredentialBody {
  cb_id : Uuid;
  cb_owner : RequestPrincipal;
  cb_provider_kind : string;
  cb_credential_ref : string;
  cb_created_at : DateTime;
  cb_expires_at : option DateTime;
}.
Record SavePlanVersionRequest := mkSavePlanVersion {
  sp_plan_id : Uuid;
  sp_plan_version_id : Uuid;
  sp_version_number : N;
  sp_parent_version_id : option Uuid;
  sp_logical_plan : LogicalPlan;
  sp_created_at : DateTime;
}.

Notation Answer A := (Served (ApiResponse A)).

Definition credential_owner (p : RequestPrincipal) : CredentialOwner :=
  mkOwner (match principal_kind p with RequestMember => PrincipalMember | RequestServiceAccount => PrincipalServiceAccount end) (principal_id p).
(** [CredentialRef::new(..).map_err(ApiError::from)] *)
Definition parse_credential_ref (reference : string) : ApiResult CredentialRef :=
  ok_or (credential_ref_new reference) (api_invalid "connector rejected the request").
Definition credential_draft (workspace : Uuid) (b : CredentialBody) : ApiResult CredentialRefDraft :=
  r ← parse_credential_ref (cb_credential_ref b);
  Ok (mkCredentialRefDraft (cb_id b) workspace (credential_owner (cb_owner b)) (cb_provider_kind b) r (cb_created_at b) (cb_expires_at b)).
Definition ensure_scope (object_workspace request_workspace : Uuid) : ApiResult unit :=
  if (object_workspace =? request_workspace)%N then Ok tt else Err api_not_found.

Section endpoints.
Context `{JobCodec}.
Context (mode : AuthorizationMode) (max_rows_per_page : N).
(** The iteration order of the plan's hash map, and serde on plans. *)
Context (hash_iter : gmap PlanNodeId N -> list (PlanNodeId * N)) (to_vec : LogicalPlan -> result string (list N))
  (to_value : LogicalPlan -> option json).
Notation validate_meta := (validate_meta mode).
Notation require_capability := (require_capability mode).

(** A call of the control plane. *)
Definition control {A} (p : Request A) : Served A := stored (lift p).
Definition page_limit (requested : N) : ApiResult N :=
  if (requested =? 0)%N || (max_rows_per_page <? requested)%N then Err (api_limit "page size exceeds the API bound")
  else Ok (N.min requested MAX_EVENT_PAGE_SIZE).
Definition scope_workspace (object workspace : Uuid) : Served unit :=
  try! control (get_workspace object); check (ensure_scope object workspace).
Definition object_list {A} (limit : N) (records : list A) : ObjectList A := mkObjectList records (mkPageInfo (len records =? limit)%N).
Definition reply {A} (meta : RequestMetadata) (p : Served A) : Answer A := body ← p; mret (respond meta body).

Definition handshake (meta : RequestMetadata) (requested : N) : Answer HandshakeResponse :=
  try! check (validate_meta_unscoped meta false);
  try! check (if is_supported requested then Ok tt else Err (unsupported_version requested));
  mret (respond meta (mkHandshake requested SUPPORTED_API_VERSIONS)).

(** ** Workspaces *)

Definition create_workspace (meta : RequestMetadata) (workspace : Uuid) (created_at : DateTime) : Answer WorkspaceRecord :=
  try! check (validate_meta_unscoped meta true);
  try! check (if negb (is_local_trusted mode) then Err unauthorized else Ok tt);
  try! check (if negb (meta_workspace_id meta =? workspace)%N then Err (api_invalid "workspace request identity mismatch") else Ok tt);
  reply meta (control (Workspaces.create_workspace workspace created_at)).
Definition read_workspace (meta : RequestMetadata) (object : Uuid) : Answer WorkspaceRecord :=
  try! validate_meta meta false;
  record ← control (get_workspace object);
  try! check (ensure_scope object (meta_workspace_id meta));
  mret (respond meta record).
Definition archive_workspace (meta : RequestMetadata) (workspace : Uuid) (archived_at : DateTime) : Answer WorkspaceRecord :=
  try! validate_meta meta true;
  try! scope_workspace workspace (meta_workspace_id meta);
  reply meta (control (Workspaces.archive_workspace workspace archived_at)).

(** ** Members, roles and service accounts *)

(** A change of who may do what: the cache forgets the workspace. *)
Definition manage {A} (meta : RequestMetadata) (p : Identified A) : Answer A :=
  record ← stored p;
  try! invalidate_workspace (meta_workspace_id meta);
  mret (respond meta record).
Definition create_member (meta : RequestMetadata) (member : Uuid) (subject_ref : string) (created_at : DateTime) : Answer MemberRow :=
  try! validate_meta meta true;
  try! require_capability meta IdentityManage;
  manage meta (Identity.create_member (meta_workspace_id meta) member subject_ref created_at).
Definition read_member (meta : RequestMetadata) (object : Uuid) : Answer MemberRow :=
  try! validate_meta meta false;
  reply meta (stored (get_member (meta_workspace_id meta) object)).
Definition revoke_member (meta : RequestMetadata) (member : Uuid) (revoked_at : DateTime) : Answer MemberRow :=
  try! validate_meta meta true;
  try! require_capability meta IdentityManage;
  manage meta (Identity.revoke_member (meta_workspace_id meta) member revoked_at).
Definition create_role (meta : RequestMetadata) (role : Uuid) (name : string) (created_at : DateTime) : Answer RoleRecord :=
  try! validate_meta meta true;
  try! require_capability meta IdentityManage;
  manage meta (Identity.create_role (meta_workspace_id meta) role name created_at).
Definition read_role (meta : RequestMetadata) (object : Uuid) : Answer RoleRecord :=
  try! validate_meta meta false;
  reply meta (stored (get_role (meta_workspace_id meta) object)).
Definition set_role_capabilities (meta : RequestMetadata) (role : Uuid) (capabilities : list string) : Answer RoleRecord :=
  try! validate_meta meta true;
  try! require_capability meta IdentityManage;
  capabilities ← check (validated_capabilities capabilities);
  manage meta (Identity.set_role_capabilities (meta_workspace_id meta) role capabilities).
Definition assign_role (meta : RequestMetadata) (member role : Uuid) : Answer RoleAssignmentView :=
  try! validate_meta meta true;
  try! require_capability meta IdentityManage;
  try! manage meta (Identity.assign_role (meta_workspace_id meta) member role);
  mret (respond meta (mkAssignment (meta_workspace_id meta) member role)).
Definition create_service_account (meta : RequestMetadata) (account : Uuid) (name : string) (created_at : DateTime) : Answer ServiceAccountRow :=
  try! validate_meta meta true;
  try! require_capability meta IdentityManage;
  manage meta (Identity.create_service_account (meta_workspace_id meta) account name created_at).
Definition read_service_account (meta : RequestMetadata) (object : Uuid) : Answer ServiceAccountRow :=
  try! validate_meta meta false;
  reply meta (stored (get_service_account (meta_workspace_id meta) object)).
Definition revoke_service_account (meta : RequestMetadata) (account : Uuid) (revoked_at : DateTime) : Answer ServiceAccountRow :=
  try! validate_meta meta true;
  try! require_capability meta IdentityManage;
  manage meta (Identity.revoke_service_account (meta_workspace_id meta) account revoked_at).

(** ** Credentials *)

Definition register_credential_reference (meta : RequestMetadata) (b : CredentialBody) : Answer CredentialRefRecord :=
  try! validate_meta meta true;
  try! require_capability meta CredentialManage;
  draft ← check (credential_draft (meta_workspace_id meta) b);
  reply meta (stored (Identity.register_credential_reference draft)).
Definition read_credential_reference (meta : RequestMetadata) (object : Uuid) : Answer CredentialRefRecord :=
  try! validate_meta meta false;
  try! require_capability meta CredentialManage;
  reply meta (stored (get_credential_reference (meta_workspace_id meta) object)).
Definition begin_credential_rotation (meta : RequestMetadata) (credential : Uuid) (started_at : DateTime) : Answer CredentialRefRecord :=
  try! validate_meta meta true;
  try! require_capability meta CredentialManage;
  reply meta (stored (Identity.begin_credential_rotation (meta_workspace_id meta) credential started_at)).
Definition complete_credential_rotation (meta : RequestMetadata) (old : Uuid) (replacement : CredentialBody) (rotated_at : DateTime)
  : Answer CredentialRefRecord :=
  try! validate_meta meta true;
  try! require_capability meta CredentialManage;
  draft ← check (credential_draft (meta_workspace_id meta) replacement);
  reply meta (stored (Identity.complete_credential_rotation (meta_workspace_id meta) old draft rotated_at)).
Definition revoke_credential (meta : RequestMetadata) (credential : Uuid) (revoked_at : DateTime) : Answer CredentialRefRecord :=
  try! validate_meta meta true;
  try! require_capability meta CredentialManage;
  reply meta (stored (Identity.revoke_credential (meta_workspace_id meta) credential revoked_at)).
Definition recover_credential (meta : RequestMetadata) (credential : Uuid) (recovered_at : DateTime) : Answer CredentialRefRecord :=
  try! validate_meta meta true;
  try! require_capability meta CredentialManage;
  reply meta (stored (Identity.recover_credential (meta_workspace_id meta) credential recovered_at)).

(** ** Sessions *)

Definition create_session (meta : RequestMetadata) (session : Uuid) (created_at : DateTime) : Answer SessionRecord :=
  try! validate_meta meta true;
  reply meta (control (Workspaces.create_session (meta_workspace_id meta) session created_at)).
Definition list_objects {A} (meta : RequestMetadata) (requested : N) (records : N -> Request (list A)) : Answer (ObjectList A) :=
  limit ← check (page_limit requested);
  records ← control (records limit);
  mret (respond meta (object_list limit records)).
Definition list_sessions (meta : RequestMetadata) (limit : N) : Answer (ObjectList SessionRecord) :=
  try! validate_meta meta false;
  list_objects meta limit (Workspaces.list_sessions (meta_workspace_id meta)).
(** The object, if it is in the workspace of the request. *)
Definition scoped {A} (meta : RequestMetadata) (workspace_of : A -> Uuid) (p : Request A) : Served A :=
  record ← control p;
  try! check (ensure_scope (workspace_of record) (meta_workspace_id meta));
  mret record.
Definition read_session (meta : RequestMetadata) (object : Uuid) : Answer SessionRecord :=
  try! validate_meta meta false;
  reply meta (scoped meta se_workspace_id (get_session object)).
Definition close_session (meta : RequestMetadata) (session : Uuid) (updated_at : DateTime) : Answer SessionRecord :=
  try! validate_meta meta true;
  record ← scoped meta se_workspace_id (get_session session);
  match se_state record with
  | SessionClosed => mret (respond meta record)
  | SessionOpen | SessionClosing => reply meta (control (transition_session session SessionClosed updated_at))
  end.

(** ** Source connections, assets and datasets *)

Definition connection_workspace (r : SourceConnectionRecord) : Uuid := c_workspace_id (scr_entry r).
Definition register_source_connection (meta : RequestMetadata) (connection : Uuid) (kind : ConnectorKind) (name : string)
  (safe_config : json) (credential_ref : string) (created_at : DateTime) : Answer SourceConnectionRecord :=
  try! validate_meta meta true;
  r ← check (parse_credential_ref credential_ref);
  reply meta (control (create_source_connection (meta_workspace_id meta) connection kind name safe_config (as_str r) created_at)).
Definition list_source_connections (meta : RequestMetadata) (limit : N) : Answer (ObjectList SourceConnectionRecord) :=
  try! validate_meta meta false;
  list_objects meta limit (Workspaces.list_source_connections (meta_workspace_id meta)).
Definition read_source_connection (meta : RequestMetadata) (object : Uuid) : Answer SourceConnectionRecord :=
  try! validate_meta meta false;
  reply meta (scoped meta connection_workspace (get_source_connection object)).
Definition update_source_connection (meta : RequestMetadata) (connection : Uuid) (name : string) (safe_config : json)
  (credential_ref : string) (expected_updated_at updated_at : DateTime) : Answer SourceConnectionRecord :=
  try! validate_meta meta true;
  try! scoped meta connection_workspace (get_source_connection connection);
  r ← check (parse_credential_ref credential_ref);
  reply meta (control (Workspaces.update_source_connection connection name safe_config (as_str r) expected_updated_at updated_at)).
Definition transition_source_connection (meta : RequestMetadata) (connection : Uuid) (target : SourceConnectionState) (updated_at : DateTime)
  : Answer SourceConnectionRecord :=
  try! validate_meta meta true;
  try! scoped meta connection_workspace (get_source_connection connection);
  reply meta (control (Workspaces.transition_source_connection connection target updated_at)).
Definition retire_source_connection (meta : RequestMetadata) (connection : Uuid) (updated_at : DateTime) : Answer SourceConnectionRecord :=
  transition_source_connection meta connection ConnectionRetired updated_at.
Definition list_source_assets (meta : RequestMetadata) (limit : N) : Answer (ObjectList SourceAssetRecord) :=
  try! validate_meta meta false;
  list_objects meta limit (Workspaces.list_source_assets (meta_workspace_id meta)).
Definition create_dataset (meta : RequestMetadata) (session source_asset dataset : Uuid) (name : string) (created_at : DateTime)
  : Answer DatasetRecord :=
  try! validate_meta meta true;
  reply meta (control (Workspaces.create_dataset (meta_workspace_id meta) session source_asset dataset name created_at)).
Definition list_datasets (meta : RequestMetadata) (limit : N) : Answer (ObjectList DatasetRecord) :=
  try! validate_meta meta false;
  list_objects meta limit (Workspaces.list_datasets (meta_workspace_id meta)).
Definition read_dataset (meta : RequestMetadata) (object : Uuid) : Answer DatasetRecord :=
  try! validate_meta meta false;
  reply meta (scoped meta d_workspace_id (get_dataset object)).
Definition archive_dataset (meta : RequestMetadata) (object : Uuid) : Answer DatasetRecord :=
  try! validate_meta meta true;
  try! scoped meta d_workspace_id (get_dataset object);
  reply meta (control (Workspaces.archive_dataset object)).

(** ** Plans *)

Definition version_workspace (r : PlanVersionRecord) : Uuid := v_workspace_id (pvr_entry r).
Definition create_plan (meta : RequestMetadata) (plan : Uuid) (created_at : DateTime) : Answer PlanRecord :=
  try! validate_meta meta true;
  reply meta (control (Workspaces.create_plan (meta_workspace_id meta) plan created_at)).
Definition list_plans (meta : RequestMetadata) (limit : N) : Answer (ObjectList PlanRecord) :=
  try! validate_meta meta false;
  list_objects meta limit (Workspaces.list_plans (meta_workspace_id meta)).
Definition load_plan (meta : RequestMetadata) (object : Uuid) : Answer PlanRecord :=
  try! validate_meta meta false;
  reply meta (scoped meta p_workspace_id (get_plan object)).
(** The plan's canonical bytes and fingerprint. *)
Definition plan_identity (plan : LogicalPlan) : ApiResult (list N) :=
  map_err (fun _ => api_invalid "logical plan failed authoritative validation") (plan_canonical_bytes hash_iter to_vec plan).
Definition plan_print (plan : LogicalPlan) : ApiResult Digest :=
  map_err (fun _ => api_invalid "logical plan fingerprint failed") (plan_fingerprint hash_iter to_vec plan).
Definition version_draft (workspace : Uuid) (r : SavePlanVersionRequest) : ApiResult PlanVersionDraft :=
  canonical ← plan_identity (sp_logical_plan r);
  logical_plan ← ok_or (to_value (sp_logical_plan r)) (api_invalid "logical plan cannot be serialized");
  fingerprint ← plan_print (sp_logical_plan r);
  Ok (mkPlanVersionDraft workspace (sp_plan_id r) (sp_plan_version_id r) (sp_version_number r) (sp_parent_version_id r) logical_plan canonical
        (sha256 canonical) fingerprint (sp_created_at r)).
Definition save_plan_version (meta : RequestMetadata) (r : SavePlanVersionRequest) : Answer PlanVersionRecord :=
  try! validate_meta meta true;
  try! scoped meta p_workspace_id (get_plan (sp_plan_id r));
  draft ← check (version_draft (meta_workspace_id meta) r);
  reply meta (control (create_plan_version draft)).
Definition list_plan_versions (meta : RequestMetadata) (plan : Uuid) (limit : N) : Answer (ObjectList PlanVersionRecord) :=
  try! validate_meta meta false;
  try! scoped meta p_workspace_id (get_plan plan);
  list_objects meta limit (Workspaces.list_plan_versions (meta_workspace_id meta) plan).
Definition load_plan_version (meta : RequestMetadata) (object : Uuid) : Answer PlanVersionRecord :=
  try! validate_meta meta false;
  reply meta (scoped meta version_workspace (get_plan_version object)).
Definition publish_plan_version (meta : RequestMetadata) (version : Uuid) (expected : option Uuid) (published_at : DateTime)
  : Answer PlanVersionRecord :=
  try! validate_meta meta true;
  try! scoped meta version_workspace (get_plan_version version);
  reply meta (control (Workspaces.publish_plan_version version expected published_at)).
Definition clone_draft (workspace plan version : Uuid) (source : PlanVersionRecord) (created_at : DateTime) : PlanVersionDraft :=
  mkPlanVersionDraft workspace plan version 1 None (pvr_logical_plan source) (v_canonical_plan_bytes (pvr_entry source))
    (pvr_canonical_plan_digest source) (pvr_plan_fingerprint source) created_at.
Definition clone_plan (meta : RequestMetadata) (source new_plan new_version : Uuid) (created_at : DateTime) : Answer PlanVersionRecord :=
  try! validate_meta meta true;
  source ← scoped meta version_workspace (get_plan_version source);
  try! control (Workspaces.create_plan (meta_workspace_id meta) new_plan created_at);
  reply meta (control (create_plan_version (clone_draft (meta_workspace_id meta) new_plan new_version source created_at))).
Definition diff_plans (meta : RequestMetadata) (left right : Uuid) : Answer PlanDiffView :=
  try! validate_meta meta false;
  l ← control (get_plan_version left);
  r ← control (get_plan_version right);
  try! check (ensure_scope (version_workspace l) (meta_workspace_id meta));
  try! check (ensure_scope (version_workspace r) (meta_workspace_id meta));
  mret (respond meta (mkPlanDiff (negb (bool_decide (pvr_canonical_plan_digest l = pvr_canonical_plan_digest r)))
                        (digest_hex (pvr_canonical_plan_digest l)) (digest_hex (pvr_canonical_plan_digest r)))).
Definition validate_plan (meta : RequestMetadata) (plan : LogicalPlan) : Answer ValidatePlanView :=
  try! validate_meta meta false;
  canonical ← check (plan_identity plan);
  fingerprint ← check (plan_print plan);
  mret (respond meta (mkValidatePlan (digest_hex (sha256 canonical)) (digest_hex fingerprint))).

(** ** All of them *)

Inductive Call :=
| Handshake (requested : N)
| CreateWorkspace (workspace : Uuid) (created_at : DateTime)
| ReadWorkspace (object : Uuid)
| ArchiveWorkspace (workspace : Uuid) (archived_at : DateTime)
| CreateMember (member : Uuid) (subject_ref : string) (created_at : DateTime)
| ReadMember (object : Uuid)
| RevokeMember (member : Uuid) (revoked_at : DateTime)
| CreateRole (role : Uuid) (name : string) (created_at : DateTime)
| ReadRole (object : Uuid)
| SetRoleCapabilities (role : Uuid) (capabilities : list string)
| AssignRole (member role : Uuid)
| CreateServiceAccount (account : Uuid) (name : string) (created_at : DateTime)
| ReadServiceAccount (object : Uuid)
| RevokeServiceAccount (account : Uuid) (revoked_at : DateTime)
| RegisterCredentialReference (b : CredentialBody)
| ReadCredentialReference (object : Uuid)
| BeginCredentialRotation (credential : Uuid) (started_at : DateTime)
| CompleteCredentialRotation (old : Uuid) (replacement : CredentialBody) (rotated_at : DateTime)
| RevokeCredential (credential : Uuid) (revoked_at : DateTime)
| RecoverCredential (credential : Uuid) (recovered_at : DateTime)
| CreateSession (session : Uuid) (created_at : DateTime)
| ListSessions (limit : N)
| ReadSession (object : Uuid)
| CloseSession (session : Uuid) (updated_at : DateTime)
| RegisterSourceConnection (connection : Uuid) (kind : ConnectorKind) (name : string) (safe_config : json) (credential_ref : string)
    (created_at : DateTime)
| ListSourceConnections (limit : N)
| ReadSourceConnection (object : Uuid)
| UpdateSourceConnection (connection : Uuid) (name : string) (safe_config : json) (credential_ref : string)
    (expected_updated_at updated_at : DateTime)
| TransitionSourceConnection (connection : Uuid) (target : SourceConnectionState) (updated_at : DateTime)
| RetireSourceConnection (connection : Uuid) (updated_at : DateTime)
| ListSourceAssets (limit : N)
| CreateDataset (session source_asset dataset : Uuid) (name : string) (created_at : DateTime)
| ListDatasets (limit : N)
| ReadDataset (object : Uuid)
| ArchiveDataset (object : Uuid)
| CreatePlan (plan : Uuid) (created_at : DateTime)
| ListPlans (limit : N)
| LoadPlan (object : Uuid)
| SavePlanVersion (r : SavePlanVersionRequest)
| ListPlanVersions (plan : Uuid) (limit : N)
| LoadPlanVersion (object : Uuid)
| PublishPlanVersion (version : Uuid) (expected : option Uuid) (published_at : DateTime)
| ClonePlan (source new_plan new_version : Uuid) (created_at : DateTime)
| DiffPlans (left right : Uuid)
| ValidatePlan (plan : LogicalPlan).
(** The call with its metadata; of the answer only whether there is one is kept. *)
Definition answered {A} (p : Answer A) : Served unit := try! p; mret tt.
Definition serve (m : RequestMetadata) (c : Call) : Served unit :=
  match c with
  | Handshake v => answered (handshake m v)
  | CreateWorkspace w t => answered (create_workspace m w t)
  | ReadWorkspace o => answered (read_workspace m o)
  | ArchiveWorkspace w t => answered (archive_workspace m w t)
  | CreateMember i s t => answered (create_member m i s t)
  | ReadMember o => answered (read_member m o)
  | RevokeMember i t => answered (revoke_member m i t)
  | CreateRole i n t => answered (create_role m i n t)
  | ReadRole o => answered (read_role m o)
  | SetRoleCapabilities i cs => answered (set_role_capabilities m i cs)
  | AssignRole i r => answered (assign_role m i r)
  | CreateServiceAccount i n t => answered (create_service_account m i n t)
  | ReadServiceAccount o => answered (read_service_account m o)
  | RevokeServiceAccount i t => answered (revoke_service_account m i t)
  | RegisterCredentialReference b => answered (register_credential_reference m b)
  | ReadCredentialReference o => answered (read_credential_reference m o)
  | BeginCredentialRotation i t => answered (begin_credential_rotation m i t)
  | CompleteCredentialRotation o b t => answered (complete_credential_rotation m o b t)
  | RevokeCredential i t => answered (revoke_credential m i t)
  | RecoverCredential i t => answered (recover_credential m i t)
  | CreateSession i t => answered (create_session m i t)
  | ListSessions n => answered (list_sessions m n)
  | ReadSession o => answered (read_session m o)
  | CloseSession i t => answered (close_session m i t)
  | RegisterSourceConnection i k n cf cr t => answered (register_source_connection m i k n cf cr t)
  | ListSourceConnections n => answered (list_source_connections m n)
  | ReadSourceConnection o => answered (read_source_connection m o)
  | UpdateSourceConnection i n cf cr e t => answered (update_source_connection m i n cf cr e t)
  | TransitionSourceConnection i g t => answered (transition_source_connection m i g t)
  | RetireSourceConnection i t => answered (retire_source_connection m i t)
  | ListSourceAssets n => answered (list_source_assets m n)
  | CreateDataset s a i n t => answered (create_dataset m s a i n t)
  | ListDatasets n => answered (list_datasets m n)
  | ReadDataset o => answered (read_dataset m o)
  | ArchiveDataset o => answered (archive_dataset m o)
  | CreatePlan i t => answered (create_plan m i t)
  | ListPlans n => answered (list_plans m n)
  | LoadPlan o => answered (load_plan m o)
  | SavePlanVersion r => answered (save_plan_version m r)
  | ListPlanVersions p n => answered (list_plan_versions m p n)
  | LoadPlanVersion o => answered (load_plan_version m o)
  | PublishPlanVersion i e t => answered (publish_plan_version m i e t)
  | ClonePlan s p v t => answered (clone_plan m s p v t)
  | DiffPlans l r => answered (diff_plans m l r)
  | ValidatePlan p => answered (validate_plan m p)
  end.
End endpoints.

(** What a call is made of. *)
Ltac unfold_call := cbv delta [handshake create_workspace read_workspace archive_workspace create_member read_member
    revoke_member create_role read_role set_role_capabilities assign_role
    create_service_account read_service_account revoke_service_account register_credential_reference
    read_credential_reference begin_credential_rotation complete_credential_rotation revoke_credential
    recover_credential create_session list_sessions read_session close_session register_source_connection
    list_source_connections read_source_connection update_source_connection retire_source_connection
    transition_source_connection list_source_assets create_dataset
    list_datasets read_dataset archive_dataset create_plan list_plans load_plan save_plan_version
    list_plan_versions load_plan_version publish_plan_version clone_plan diff_plans validate_plan] beta.
