(* ===== verification/Gatekeeping.v ===== *)
(** * What the gate lets through

    With requests one after another the gate admits exactly the principals
    that the tables admit: whoever changes members, roles or assignments makes
    the cache forget the workspace.  Among other requests it does not: what was
    read before a change can be put into the cache after it. *)

From S2P Require Import Prelude Text Secrets Logical Schema Expression Rule Plan Nodes Schedule Automation Hex Executions History Canonical Operations Jobs Submissions Outputs Lifecycle Reports Life Refines Reachable Frame Sample Control Autocommit Workspaces Scopes Interleavings Identity Realms Authorization Endpoints.

(** ** Calls of the store, run with nothing in between *)

Lemma exec_within {A} (p : Prog Realm A) s : exec (within p) s = (mkService (exec p (realm s)).1 (cache s), (exec p (realm s)).2).
Proof. unfold within. rewrite exec_focus; [done|done|by intros []|done]. Qed.
Lemma exec_attempt {A} f (p : Identified A) s :
  exec (attempt f p) s = (mkService (exec p (realm s)).1 (cache s), map_err f (exec p (realm s)).2).
Proof. unfold attempt. by rewrite exec_bind, exec_within. Qed.
Lemma exec_attempt_then {A B} f (p : Identified A) (k : A -> Served B) s :
  exec (attempt f p ≫= k) s =
  match (exec p (realm s)).2 with
  | Ok a => exec (k a) (mkService (exec p (realm s)).1 (cache s))
  | Err e => (mkService (exec p (realm s)).1 (cache s), Err (f e))
  end.
Proof. rewrite exec_auto_then, exec_attempt. cbn. by destruct (exec p (realm s)).2. Qed.
Lemma exec_query {DB E A} (f : DB -> result E A) d : exec (query f) d = (d, f d).
Proof. done. Qed.
Lemma service_eta s : mkService (realm s) (cache s) = s.
Proof. by destruct s. Qed.

(** ** What the tables admit *)

(** The capabilities of the roles a member has in a workspace. *)
Definition capabilities_in (t : IdentityTables) (workspace member : Uuid) : gset string :=
  set_map snd (filter (fun p : Uuid * string => sec_member_roles t !! (member, p.1) = Some workspace) (sec_role_capabilities t)).
Definition loaded (t : IdentityTables) (key : PrincipalKey) : option (gset string) :=
  let '(workspace, kind, id) := key in
  match kind with
  | RequestMember =>
      match sec_members t !! id with
      | Some m => if (m_workspace_id m =? workspace)%N && bool_decide (m_state m = IdentityActive)
                  then Some (capabilities_in t workspace id) else None
      | None => None
      end
  | RequestServiceAccount =>
      match sec_service_accounts t !! id with
      | Some a => if (sv_workspace_id a =? workspace)%N && bool_decide (sv_state a = IdentityActive) then Some ∅ else None
      | None => None
      end
  end.
Definition active_workspace (d : Realm) (workspace : Uuid) : Prop :=
  exists w, dir_workspaces (directory (realm_store d)) !! workspace = Some w /\ w_state w = WorkspaceActive.
(** An active workspace, an active member of it, and a role of the member that
    has the capability or that of the administrator. *)
Definition may (d : Realm) (workspace : Uuid) (p : RequestPrincipal) (capability : Capability) : Prop :=
  active_workspace d workspace /\ principal_kind p = RequestMember /\
  (exists m, sec_members (identities d) !! principal_id p = Some m /\ m_workspace_id m = workspace /\ m_state m = IdentityActive) /\
  exists role c, sec_member_roles (identities d) !! (principal_id p, role) = Some workspace /\ (role, c) ∈ sec_role_capabilities (identities d) /\
    (c = capability_as_str capability \/ c = capability_as_str WorkspaceAdmin).

Lemma elem_of_capabilities_in t ws m c :
  c ∈ capabilities_in t ws m <-> exists role, sec_member_roles t !! (m, role) = Some ws /\ (role, c) ∈ sec_role_capabilities t.
Proof.
  unfold capabilities_in. rewrite elem_of_map. split.
  - intros ([role c'] & -> & Hin). apply elem_of_filter in Hin as [Hr Hin]. eauto.
  - intros (role & Hr & Hin). exists (role, c). split; [done|]. by apply elem_of_filter.
Qed.
Lemma may_loaded d ws p capability :
  may d ws p capability <->
  active_workspace d ws /\
  exists caps, loaded (identities d) (ws, principal_kind p, principal_id p) = Some caps /\ grants caps capability = true.
Proof.
  unfold may, loaded, grants. destruct p as [[] id]; cbn; split.
  - intros (Hw & _ & (m & Hm & <- & Hst) & role & c & Hr & Hc & Hor). split; [done|]. rewrite Hm, N.eqb_refl, Hst. cbn. eexists. split; [done|].
    assert (c ∈ capabilities_in (identities d) (m_workspace_id m) id) as Hin by (apply elem_of_capabilities_in; eauto).
    apply orb_true_iff. destruct Hor as [->| ->]; [left|right]; by apply bool_decide_eq_true.
  - intros (Hw & caps & Hl & Hg). destruct (sec_members (identities d) !! id) as [m|] eqn:Hm; [|done]. destruct (_ && _) eqn:Hb; [|done].
    apply andb_true_iff in Hb as [Hmw%N.eqb_eq Hst%bool_decide_eq_true]. injection Hl as <-. split_and!; [done|done|by exists m|].
    apply orb_true_iff in Hg as [Hg|Hg]; apply bool_decide_eq_true, elem_of_capabilities_in in Hg as (role & ? & ?); eauto 10.
  - by intros (_ & ? & _).
  - intros (_ & caps & Hl & Hg). case_match; [|done]. case_match; [|done]. injection Hl as <-.
    apply orb_true_iff in Hg as [Hg|Hg]; by apply bool_decide_eq_true, elem_of_empty in Hg.
Qed.

(** ** What the gate reads is what the tables admit *)

Lemma elem_of_capabilities_of role t c : c ∈ capabilities_of role t <-> (role, c) ∈ sec_role_capabilities t.
Proof.
  unfold capabilities_of. rewrite (merge_sort_Permutation str_le), list_elem_of_fmap. split.
  - intros ([r c'] & -> & Hin). apply list_elem_of_filter in Hin as [<- Hin]. by apply elem_of_elements in Hin.
  - intros Hin. exists (role, c). split; [done|]. apply list_elem_of_filter. by rewrite elem_of_elements.
Qed.
Lemma exec_get_role ws id d :
  exec (get_role ws id) d =
  (d, row ← in_workspace ro_workspace_id (sec_roles (identities d)) ws id; Ok (mkRoleRecord row (capabilities_of id (identities d)))).
Proof. unfold get_role, role_from_connection. rewrite exec_auto_query. by destruct (in_workspace _ _ _ _). Qed.
Lemma in_workspace_Some {A} (f : A -> Uuid) rows ws id a : rows !! id = Some a -> f a = ws -> in_workspace f rows ws id = Ok a.
Proof. intros Hl <-. unfold in_workspace. by rewrite Hl, N.eqb_refl. Qed.
Lemma gathered ws roles acc s :
  Forall (fun r => ro_workspace_id <$> sec_roles (identities (realm s)) !! r = Some ws) roles ->
  exists caps, exec (role_capabilities_of ws roles acc) s = (s, Ok caps) /\
    forall c, c ∈ caps <-> c ∈ acc \/ exists r, r ∈ roles /\ (r, c) ∈ sec_role_capabilities (identities (realm s)).
Proof.
  intros Hroles. revert acc. induction Hroles as [|r roles Hr _ IH]; intros acc; cbn [role_capabilities_of].
  - exists acc. split; [done|]. intros c. split; [by left|]. by intros [?|(r & Hr & _)]; [|apply not_elem_of_nil in Hr].
  - apply fmap_Some in Hr as (row & Hrow & Hw). unfold denied. rewrite exec_attempt_then, exec_get_role. cbn.
    rewrite (in_workspace_Some _ _ _ _ _ Hrow), service_eta by done. cbn.
    destruct (IH (acc ∪ list_to_set (capabilities_of r (identities (realm s))))) as (caps & Hexec & Hcaps).
    exists caps. split; [done|]. intros c. rewrite Hcaps. set_unfold. rewrite elem_of_capabilities_of. naive_solver.
Qed.
(** The roles of a member in a workspace. *)
Lemma exec_member_roles ws id d m :
  sec_members (identities d) !! id = Some m -> m_workspace_id m = ws ->
  exists roles, exec (member_role_ids ws id) d = (d, Ok roles) /\
    forall r, r ∈ roles <-> sec_member_roles (identities d) !! (id, r) = Some ws.
Proof.
  intros Hm Hw. unfold member_role_ids. rewrite exec_auto_query. unfold ensure_member_in_workspace. rewrite (in_workspace_Some _ _ _ _ _ Hm Hw). cbn.
  eexists. split; [done|]. intros r. rewrite (merge_sort_Permutation N.le), list_elem_of_fmap. split.
  - intros ([[i j] w] & -> & Hin). apply list_elem_of_filter in Hin as [[Hi Hj] Hin]. cbn in *. subst. by apply elem_of_map_to_list in Hin.
  - intros Hr. exists (id, r, ws). split; [done|]. apply list_elem_of_filter. by rewrite elem_of_map_to_list.
Qed.
Lemma exec_load workspaces key s :
  IdentityOk workspaces (identities (realm s)) -> exec (load_capabilities key) s = (s, ok_or (loaded (identities (realm s)) key) unauthorized).
Proof.
  intros Hok. destruct key as [[ws kind] id]. unfold load_capabilities, loaded, denied. destruct kind.
  - unfold get_member. rewrite exec_attempt_then, exec_query. cbn [fst snd]. rewrite service_eta. unfold member_from_connection, in_workspace.
    destruct (sec_members (identities (realm s)) !! id) as [m|] eqn:Hm; [|done]. destruct (m_workspace_id m =? ws)%N eqn:Hw; [|done]. apply N.eqb_eq in Hw.
    cbn [andb]. rewrite exec_auto_check. case_bool_decide as Hst; [|done]. rewrite exec_attempt_then.
    destruct (exec_member_roles ws id (realm s) m Hm Hw) as (roles & Hexec & Hroles). rewrite Hexec. cbn [fst snd]. rewrite service_eta.
    destruct (gathered ws roles ∅ s) as (caps & -> & Hcaps).
    { apply Forall_forall. intros r Hr%Hroles. by destruct (assignment_ok _ _ Hok _ _ _ Hr). }
    cbn. do 2 f_equal. apply set_eq. intros c. rewrite Hcaps, elem_of_capabilities_in. setoid_rewrite Hroles. set_solver.
  - unfold get_service_account. rewrite exec_attempt_then, exec_query. cbn [fst snd]. rewrite service_eta. unfold service_account_from_connection, in_workspace.
    destruct (sec_service_accounts (identities (realm s)) !! id) as [a|]; [|done]. destruct (sv_workspace_id a =? ws)%N; [|done].
    cbn. by case_bool_decide.
Qed.

(** ** The gate with nothing in between *)

(** Who is let through: in local mode whoever comes without a principal. *)
Definition admitted (mode : AuthorizationMode) (d : Realm) (workspace : Uuid) (p : option RequestPrincipal) (capability : Capability) : Prop :=
  match p with
  | Some p => may d workspace p capability
  | None => mode = LocalTrusted
  end.

Section gatekeeping.
Context `{JobCodec} `{StoreFiles}.
#[local] Existing Instance RealmGrow_preorder.

(** The database is consistent, and the cache holds what the tables admit. *)
Record Good (s : Service) : Prop := {
  good_realm : RealmInv (realm s);
  good_cache key caps : cache s !! key = Some caps -> loaded (identities (realm s)) key = Some caps;
}.
Lemma exec_snapshot key s :
  Good s -> exists s', exec (snapshot_of key) s = (s', ok_or (loaded (identities (realm s)) key) unauthorized) /\ realm s' = realm s /\ Good s'.
Proof.
  intros Hs. unfold snapshot_of, cache_get. rewrite exec_auto_query. destruct (cache s !! key) as [caps|] eqn:Hc.
  - exists s. rewrite (good_cache _ Hs _ _ Hc). by split_and!.
  - rewrite exec_auto_then, (exec_load _ _ _ (realm_identity _ (good_realm _ Hs))).
    destruct (loaded (identities (realm s)) key) as [caps|] eqn:Hl; cbn; [|by exists s].
    eexists. split_and!; [done|done|]. constructor; [apply Hs|]. cbn. intros k cs [[<- <-]|[_ Hk]]%lookup_insert_Some; [done|by apply Hs].
Qed.
Lemma exec_authorize mode ws p cap s :
  Good s -> exists s' r, exec (authorize mode ws p cap) s = (s', r) /\ realm s' = realm s /\ Good s' /\ (r = Ok tt <-> admitted mode (realm s) ws p cap).
Proof.
  intros Hs. unfold authorize, admitted. destruct p as [p|].
  - rewrite (bool_decide_eq_false_2 (Some p = None)), andb_false_r by done. rewrite exec_auto_check. cbn [ok_or]. unfold denied.
    rewrite exec_attempt_then, exec_lift. cbn [fst snd]. setoid_rewrite may_loaded. unfold get_workspace. rewrite exec_query. cbn [fst snd].
    assert (mkService (mkRealm (realm_store (realm s)) (identities (realm s))) (cache s) = s) as -> by by destruct s as [[] ?].
    unfold workspace_from_connection, active_workspace.
    destruct (dir_workspaces (directory (realm_store (realm s))) !! ws) as [w|]; cbn [ok_or].
    + rewrite exec_auto_check. case_bool_decide as Hw.
      * destruct (exec_snapshot (ws, principal_kind p, principal_id p) s Hs) as (s' & Hexec & Hr & Hs'). rewrite exec_auto_then, Hexec.
        destruct (loaded _ _) as [caps|]; cbn.
        -- do 2 eexists. split_and!; [done|done|done|]. destruct (grants caps cap) eqn:Hg; [|by split; [done|intros (_ & ? & [= <-] & ?); congruence]].
           split; [|done]. intros _. split; [by exists w|]. by exists caps.
        -- do 2 eexists. split_and!; [done|done|done|]. split; [done|]. by intros (_ & ? & ? & _).
      * do 2 eexists. split_and!; [done|done|done|]. split; [done|]. by intros ((? & [= <-] & ?) & _).
    + do 2 eexists. split_and!; [done|done|done|]. split; [done|]. by intros ((? & ? & _) & _).
  - rewrite (bool_decide_eq_true_2 (None = None)), andb_true_r by done. case_bool_decide as Hm.
    + exists s, (Ok tt). by split_and!.
    + exists s, (Err unauthorized). by split_and!.
Qed.

(** ** Calls keep the cache in step

    [fine]: a program that leaves a good state leaves a good state. *)

Notation fine := (preserves Good).

Lemma unit_state {DB A} (p : Prog DB A) d : (exec (request_unit p) d).1 = (exec p d).1.
Proof. unfold request_unit. rewrite exec_bind. by destruct (exec p d). Qed.
Lemma request_keeps_realm {A} (p : Identified A) d : RealmRequest (request_unit p) -> RealmInv d -> RealmInv (exec p d).1.
Proof. intros Hp Hd. rewrite <- unit_state. by destruct (safe_exec _ _ anything _ _ (realm_request_safe _ _ Hp Hd) Hd) as (_ & ? & _). Qed.
Lemma control_keeps_realm {A} (p : Request A) d : StoreRequest (request_unit p) -> RealmInv d -> RealmInv (exec (lift p) d).1.
Proof.
  intros Hp Hd. pose proof (safe_exec _ _ anything _ _ (realm_request_safe _ _ (realm_on_store _ Hp) Hd) Hd) as (_ & Hi & _).
  by rewrite exec_lift, unit_state in Hi; rewrite exec_lift.
Qed.

Lemma good_same s d : Good s -> RealmInv d -> (forall key, loaded (identities d) key = loaded (identities (realm s)) key) -> Good (mkService d (cache s)).
Proof. intros Hs Hd Hl. constructor; [done|]. cbn. intros key caps Hk. rewrite Hl. by apply Hs. Qed.
Lemma fine_gate mode ws p cap : fine (authorize mode ws p cap).
Proof. intros s Hs. by destruct (exec_authorize mode ws p cap s Hs) as (s' & r & -> & _ & Hs' & _). Qed.
Lemma fine_meta mode meta mutation : fine (validate_meta mode meta mutation).
Proof. apply preserves_then; [apply preserves_check|]. intros _. apply fine_gate. Qed.
Lemma fine_control {A} (p : Request A) : StoreRequest (request_unit p) -> fine (control p).
Proof.
  intros Hp s Hs. unfold control, stored. rewrite exec_attempt. apply good_same; [done|by apply control_keeps_realm; [|apply Hs]|].
  intros key. by rewrite exec_lift.
Qed.
(** A program that only reads. *)
Definition quiet {DB A} (p : Prog DB A) : Prop := forall d, (exec p d).1 = d.
Lemma quiet_query {DB E A} (f : DB -> result E A) : quiet (query f).
Proof. done. Qed.
Lemma quiet_check {DB E A} (m : result E A) : quiet (check (DB:=DB) m).
Proof. done. Qed.
Lemma quiet_ret {DB E A} (a : A) : quiet (mret a : Auto DB E A).
Proof. done. Qed.
Lemma quiet_then {DB E A B} (p : Auto DB E A) (k : A -> Auto DB E B) : quiet p -> (forall a, quiet (k a)) -> quiet (p ≫= k).
Proof. intros Hp Hk d. rewrite exec_auto_then. specialize (Hp d). destruct (exec p d) as [d' [a|e]]; cbn in Hp; subst; [apply Hk|done]. Qed.
Lemma quiet_attempt {A} f (p : Identified A) : quiet p -> quiet (attempt f p).
Proof. intros Hp s. rewrite exec_attempt. cbn. rewrite Hp. apply service_eta. Qed.
Lemma quiet_lift {A} (p : Request A) : quiet p -> quiet (lift p).
Proof. intros Hp d. rewrite exec_lift. cbn. rewrite Hp. by destruct d. Qed.
Lemma quiet_each {A B} (f : A -> Request B) l : (forall a, quiet (f a)) -> quiet (each_request f l).
Proof. intros Hf. induction l as [|a l IH]; [done|]. cbn. apply quiet_then; [done|]. intros b. by apply quiet_then. Qed.
Lemma quiet_fine {A} (p : Served A) : quiet p -> fine p.
Proof. intros Hp s Hs. by rewrite Hp. Qed.

(** *** Credentials say nothing about who may do what *)

Definition access (t : IdentityTables) :=
  (sec_members t, sec_role_capabilities t, sec_member_roles t, sec_service_accounts t).
Lemma loaded_access t t' key : access t' = access t -> loaded t' key = loaded t key.
Proof. intros [= Hm Hc Hr Ha]. unfold loaded, capabilities_in. by rewrite Hm, Hc, Hr, Ha. Qed.
Definition unmoved a (d : Realm) : Prop := access (identities d) = a.
Lemma update_unmoved a id cond f : preserves (unmoved a) (write (update_identity sec_credentials set_credentials id cond f)).
Proof. apply preserves_write. intros d d' u Hd [->|(row & _ & _ & _ & Hids)]%update_identity_Ok; [done|]. unfold unmoved. by rewrite Hids. Qed.
Lemma insert_unmoved a c ws : preserves (unmoved a) (write (insert_credential c ws)).
Proof. apply preserves_write. intros d d' u Hd (_ & _ & _ & Hids)%insert_identity_Ok. unfold unmoved. by rewrite Hids. Qed.
Lemma complete_unmoved a ws old c at_ : preserves (unmoved a) (write (complete_rotation_tx ws old c at_)).
Proof.
  apply preserves_write. intros d d' u Hd (row & _ & _ & _ & _ & (_ & _ & _ & Hids)%insert_identity_Ok)%complete_tx_Ok.
  unfold unmoved. by rewrite Hids.
Qed.
Lemma fine_credential {A} f (p : Identified A) :
  RealmRequest (request_unit p) -> (forall a, preserves (unmoved a) p) -> fine (attempt f p).
Proof.
  intros Hp Hu s Hs. rewrite exec_attempt. apply good_same; [done|by apply request_keeps_realm; [|apply Hs]|].
  intros key. by apply loaded_access, (Hu (access (identities (realm s)))).
Qed.
Ltac unmove := intros ?; repeat first
  [ apply preserves_query | apply preserves_check | apply preserves_ret | apply update_unmoved | apply insert_unmoved | apply complete_unmoved
  | apply preserves_then; [|intros ?] ].

(** *** Changes of who may do what stay in their workspace

    An operation that fails has changed nothing, and one that succeeds has
    changed nothing that matters for the principals of other workspaces. *)

Definition elsewhere_same (ws : Uuid) (t t' : IdentityTables) : Prop := forall key : PrincipalKey, key.1.1 <> ws -> loaded t' key = loaded t key.
Definition confined {A} (ws : Uuid) (p : Identified A) : Prop := forall d, RealmInv d ->
  match exec p d with
  | (d', Ok _) => elsewhere_same ws (identities d) (identities d')
  | (d', Err _) => d' = d
  end.
Lemma confined_query {A B} ws (f : Realm -> Stored A) (k : A -> Identified B) : (forall a, confined ws (k a)) -> confined ws (query f ≫= k).
Proof. intros Hk d Hd. rewrite exec_auto_query. destruct (f d); [by apply Hk|done]. Qed.
Lemma confined_check {A B} ws (m : Stored A) (k : A -> Identified B) : (forall a, confined ws (k a)) -> confined ws (check m ≫= k).
Proof. intros Hk d Hd. rewrite exec_auto_check. destruct m; [by apply Hk|done]. Qed.
(** The change and what is read back afterwards. *)
Lemma confined_write {A B} ws (f : Realm -> Stored (Realm * A)) (k : A -> Identified B) :
  (forall d d' a, RealmInv d -> f d = Ok (d', a) ->
     quiet (k a) /\ (d' = d \/ (exists b, (exec (k a) d').2 = Ok b) /\ elsewhere_same ws (identities d) (identities d'))) ->
  confined ws (write f ≫= k).
Proof.
  intros Hf d Hd. rewrite exec_auto_write. destruct (f d) as [[d' a]|e] eqn:Hw; [|done].
  destruct (Hf _ _ _ Hd Hw) as [Hq Hor]. specialize (Hq d'). destruct (exec (k a) d') as [d2 r] eqn:He. cbn in Hq. subst d2.
  destruct Hor as [->|[[b Hb] Hsame]]; [by destruct r|]. cbn in Hb. by subst r.
Qed.
Lemma good_forgets s d ws :
  Good s -> RealmInv d -> elsewhere_same ws (identities (realm s)) (identities d) ->
  Good (mkService d (filter (fun e : PrincipalKey * gset string => e.1.1.1 <> ws) (cache s))).
Proof.
  intros Hs Hd Hsame. constructor; [done|]. cbn. intros key caps [Hk Hne]%map_lookup_filter_Some. cbn in Hne.
  rewrite Hsame by done. by apply Hs.
Qed.
Lemma fine_manage {A} meta (p : Identified A) :
  RealmRequest (request_unit p) -> confined (meta_workspace_id meta) p -> fine (manage meta p).
Proof.
  intros Hp Hc s Hs. unfold manage, stored. rewrite exec_attempt_then. pose proof (request_keeps_realm p _ Hp (good_realm _ Hs)) as Hd.
  specialize (Hc _ (good_realm _ Hs)). destruct (exec p (realm s)) as [d [a|e]]; cbn in *; [by apply good_forgets|]. subst d. by rewrite service_eta.
Qed.

Lemma loaded_other_member t id m ws :
  (forall m', sec_members t !! id = Some m' -> m_workspace_id m' = ws) -> m_workspace_id m = ws ->
  elsewhere_same ws t (set_members (<[id := m]> (sec_members t)) t).
Proof.
  intros Hold Hm [[ws' kind] i] Hne. cbn in Hne. unfold loaded. destruct kind; [|done]. cbn.
  destruct (decide (i = id)) as [->|Hi]; [|by rewrite lookup_insert_ne]. rewrite lookup_insert_eq, Hm.
  rewrite (proj2 (N.eqb_neq ws ws')) by congruence. destruct (sec_members t !! id) as [m'|]; [|done]. rewrite (Hold m') by done.
  by rewrite (proj2 (N.eqb_neq ws ws')) by congruence.
Qed.
Lemma loaded_other_account t id a ws :
  (forall a', sec_service_accounts t !! id = Some a' -> sv_workspace_id a' = ws) -> sv_workspace_id a = ws ->
  elsewhere_same ws t (set_service_accounts (<[id := a]> (sec_service_accounts t)) t).
Proof.
  intros Hold Hm [[ws' kind] i] Hne. cbn in Hne. unfold loaded. destruct kind; [done|]. cbn.
  destruct (decide (i = id)) as [->|Hi]; [|by rewrite lookup_insert_ne]. rewrite lookup_insert_eq, Hm.
  rewrite (proj2 (N.eqb_neq ws ws')) by congruence. destruct (sec_service_accounts t !! id) as [m'|]; [|done]. rewrite (Hold m') by done.
  by rewrite (proj2 (N.eqb_neq ws ws')) by congruence.
Qed.
Lemma capabilities_ext t t' ws :
  sec_members t' = sec_members t -> sec_service_accounts t' = sec_service_accounts t ->
  (forall ws' m c, ws' <> ws -> c ∈ capabilities_in t' ws' m <-> c ∈ capabilities_in t ws' m) -> elsewhere_same ws t t'.
Proof.
  intros Hm Ha Hc [[ws' kind] i] Hne. cbn in Hne. unfold loaded. rewrite Hm, Ha.
  assert (capabilities_in t' ws' i = capabilities_in t ws' i) as -> by (apply set_eq; intros c; by apply Hc). done.
Qed.

Lemma granted_keeps id caps granted l p : fold_result (grant id) caps l = Ok granted -> p ∈ caps -> p ∈ granted.
Proof.
  revert caps. induction l as [|x l IH]; intros caps Hf Hin; cbn in Hf; [by injection Hf as <-|].
  apply bind_Ok in Hf as (caps' & Hg & Hf). apply (IH _ Hf). unfold grant in Hg. case_bool_decide; [done|]. injection Hg as <-. set_solver.
Qed.
Lemma create_member_confined ws id subject at_ : confined ws (Identity.create_member ws id subject at_).
Proof.
  do 2 (apply confined_check; intros _). apply confined_query. intros _. apply confined_write.
  intros d d' u Hd (Hn & _ & _ & Hids)%insert_identity_Ok. split; [apply quiet_query|right]. rewrite Hids. split.
  - eexists. rewrite exec_query. cbn [snd]. unfold member_from_connection. rewrite Hids. apply in_workspace_Some; [apply lookup_insert_eq|done].
  - apply loaded_other_member; [|done]. by rewrite Hn.
Qed.
Lemma revoke_member_confined ws id at_ : confined ws (Identity.revoke_member ws id at_).
Proof.
  apply confined_query. intros current. apply confined_check. intros _. apply confined_write.
  intros d d' u Hd [->|(m & Hm & Hw%N.eqb_eq & _ & Hids)]%update_identity_Ok; (split; [apply quiet_query|]); [by left|right]. rewrite Hids. split.
  - eexists. rewrite exec_query. cbn [snd]. unfold member_from_connection. rewrite Hids. apply in_workspace_Some; [apply lookup_insert_eq|done].
  - apply loaded_other_member; [|done]. rewrite Hm. by intros ? [= <-].
Qed.
Lemma create_account_confined ws id name at_ : confined ws (Identity.create_service_account ws id name at_).
Proof.
  do 2 (apply confined_check; intros _). apply confined_query. intros _. apply confined_write.
  intros d d' u Hd (Hn & _ & _ & Hids)%insert_identity_Ok. split; [apply quiet_query|right]. rewrite Hids. split.
  - eexists. rewrite exec_query. cbn [snd]. unfold service_account_from_connection. rewrite Hids. apply in_workspace_Some; [apply lookup_insert_eq|done].
  - apply loaded_other_account; [|done]. by rewrite Hn.
Qed.
Lemma revoke_account_confined ws id at_ : confined ws (Identity.revoke_service_account ws id at_).
Proof.
  apply confined_query. intros current. apply confined_check. intros _. apply confined_write.
  intros d d' u Hd [->|(m & Hm & Hw%N.eqb_eq & _ & Hids)]%update_identity_Ok; (split; [apply quiet_query|]); [by left|right]. rewrite Hids. split.
  - eexists. rewrite exec_query. cbn [snd]. unfold service_account_from_connection. rewrite Hids. apply in_workspace_Some; [apply lookup_insert_eq|done].
  - apply loaded_other_account; [|done]. rewrite Hm. by intros ? [= <-].
Qed.
Lemma role_read ws id d row :
  sec_roles (identities d) !! id = Some row -> ro_workspace_id row = ws -> exists r, (exec (role_from_connection ws id) d).2 = Ok r.
Proof. intros Hr Hw. change (role_from_connection ws id) with (get_role ws id). rewrite exec_get_role. cbn. rewrite (in_workspace_Some _ _ _ _ _ Hr Hw). by eexists. Qed.
Lemma quiet_role ws id : quiet (role_from_connection ws id).
Proof. apply quiet_then; [apply quiet_query|]. intros row. apply quiet_then; [apply quiet_query|]. intros caps. apply quiet_ret. Qed.
Lemma create_role_confined ws id name at_ : confined ws (Identity.create_role ws id name at_).
Proof.
  do 2 (apply confined_check; intros _). apply confined_query. intros _. apply confined_write.
  intros d d' u Hd (Hn & _ & _ & Hids)%insert_identity_Ok. split; [apply quiet_role|right]. rewrite Hids. split; [|by apply capabilities_ext].
  apply (role_read ws id d' (mkRole ws name at_)); [|done]. rewrite Hids. cbn. by rewrite lookup_insert_eq.
Qed.
Lemma set_capabilities_confined ws id caps : confined ws (Identity.set_role_capabilities ws id caps).
Proof.
  apply confined_check. intros _. apply confined_write. intros d d' u Hd Hw. unfold set_role_capabilities_tx, ensure_role_in_workspace in Hw.
  cbv zeta in Hw. apply bind_Ok in Hw as (? & Hrole & Hw). apply bind_Ok in Hrole as (role & (Hrole & Hrw)%in_workspace_Ok & _).
  apply bind_Ok in Hw as (granted & Hg & [= <- _]). split; [apply quiet_role|right]. split; [by eapply role_read|]. cbn. apply capabilities_ext; [done|done|].
  intros ws' m c Hne. rewrite !elem_of_capabilities_in. cbn.
  assert (forall r, sec_member_roles (identities d) !! (m, r) = Some ws' -> r <> id) as Hother.
  { intros r Hr ->. destruct (assignment_ok _ _ (realm_identity _ Hd) _ _ _ Hr) as [_ Hr2]. rewrite Hrole in Hr2. cbn in Hr2. congruence. }
  split; intros (r & Hr & Hc); exists r; (split; [done|]).
  - destruct (granted_roles _ _ _ _ _ _ Hg Hc) as [->|Hold]; [by destruct (Hother _ Hr)|]. by apply elem_of_filter in Hold as [_ Hold].
  - eapply granted_keeps; [exact Hg|]. apply elem_of_filter. split; [by apply Hother|done].
Qed.
Lemma assign_confined ws m r : confined ws (Identity.assign_role ws m r).
Proof.
  intros d Hd. unfold Identity.assign_role. cbn. destruct (assign_role_tx ws m r d) as [[d' u]|e] eqn:Hw; cbn; [|done].
  unfold assign_role_tx in Hw. inv_ok Hw. injection Hw as <- _. cbn. apply orb_false_iff in Hb as [Hn%bool_decide_eq_false _].
  apply eq_None_not_Some in Hn. apply capabilities_ext; [done|done|]. intros ws' m' c Hne. rewrite !elem_of_capabilities_in. cbn.
  split; intros (r' & Hr & Hc); exists r'; (split; [|done]).
  - apply lookup_insert_Some in Hr as [[_ ?]|[_ Hr]]; [by congruence|done].
  - rewrite lookup_insert_ne; [done|]. intros [= <- <-]. congruence.
Qed.

(** ** Every call *)

Context (mode : AuthorizationMode) (max_rows_per_page : N).
Context (hash_iter : gmap PlanNodeId N -> list (PlanNodeId * N)) (to_vec : LogicalPlan -> result string (list N))
  (to_value : LogicalPlan -> option json).
Notation serve := (serve mode max_rows_per_page hash_iter to_vec to_value).

Lemma quiet_control {A} (p : Request A) : quiet p -> quiet (control p).
Proof. intros Hp. by apply quiet_attempt, quiet_lift. Qed.
Lemma quiet_list_rows {A B} (rows : Directory -> gmap Uuid A) p (f : Uuid -> Request B) limit :
  (forall id, quiet (f id)) -> quiet (list_rows rows p f limit).
Proof. intros Hf. apply quiet_then; [apply quiet_check|]. intros _. apply quiet_then; [apply quiet_query|]. intros ids. by apply quiet_each. Qed.
Lemma quiet_scoped {A} meta (workspace_of : A -> Uuid) (p : Request A) : quiet p -> quiet (scoped meta workspace_of p).
Proof. intros Hp. apply quiet_then; [by apply quiet_control|]. intros r. by apply quiet_then. Qed.
Lemma quiet_list_objects {A} meta limit (records : N -> Request (list A)) :
  (forall n, quiet (records n)) -> quiet (list_objects max_rows_per_page meta limit records).
Proof. intros Hr. apply quiet_then; [apply quiet_check|]. intros n. apply quiet_then; [by apply quiet_control|]. intros l. apply quiet_ret. Qed.
Lemma quiet_versions ws plan n : quiet (Workspaces.list_plan_versions ws plan n).
Proof. apply quiet_then; [apply quiet_check|]. intros _. apply quiet_then; [apply quiet_query|]. intros ids. by apply quiet_each. Qed.
Lemma quiet_reply {A} meta (p : Served A) : quiet p -> quiet (reply meta p).
Proof. intros Hp. by apply quiet_then. Qed.

Ltac still :=
  lazymatch goal with
  | |- quiet (check _) => apply quiet_check
  | |- quiet (mret _) => apply quiet_ret
  | |- quiet (query _) => apply quiet_query
  | |- quiet (mbind _ _) => apply quiet_then; [|intros ?]
  | |- quiet (reply _ _) => apply quiet_reply
  | |- quiet (scoped _ _ _) => apply quiet_scoped, quiet_query
  | |- quiet (scope_workspace _ _) => apply quiet_then; [apply quiet_control, quiet_query|intros ?]
  | |- quiet (list_objects _ _ _ _) => apply quiet_list_objects; intros ?
  | |- quiet (Workspaces.list_plan_versions _ _ _) => apply quiet_versions
  | |- quiet (control _) => apply quiet_control, quiet_query
  | |- quiet (stored (get_role _ _)) => apply quiet_attempt, quiet_role
  | |- quiet (stored _) => apply quiet_attempt, quiet_query
  | |- quiet (_ _ _) => apply quiet_list_rows; intros ?; apply quiet_query
  end.
Ltac by_request c :=
  lazymatch goal with
  | |- fine (manage _ _) => apply fine_manage; [apply c|]
  | |- fine (control _) => apply fine_control, c
  | |- fine (stored _) => apply fine_credential; [apply c|unmove]
  end.
Ltac stored_fine :=
  lazymatch goal with
  | |- fine (manage _ (Identity.create_member _ _ _ _)) => by_request realm_create_member; apply create_member_confined
  | |- fine (manage _ (Identity.revoke_member _ _ _)) => by_request realm_revoke_member; apply revoke_member_confined
  | |- fine (manage _ (Identity.create_role _ _ _ _)) => by_request realm_create_role; apply create_role_confined
  | |- fine (manage _ (Identity.set_role_capabilities _ _ _)) => by_request realm_set_capabilities; apply set_capabilities_confined
  | |- fine (manage _ (Identity.assign_role _ _ _)) => by_request realm_assign_role; apply assign_confined
  | |- fine (manage _ (Identity.create_service_account _ _ _ _)) => by_request realm_create_account; apply create_account_confined
  | |- fine (manage _ (Identity.revoke_service_account _ _ _)) => by_request realm_revoke_account; apply revoke_account_confined
  | |- fine (stored (Identity.register_credential_reference _)) => by_request realm_register
  | |- fine (stored (Identity.begin_credential_rotation _ _ _)) => by_request realm_begin_rotation
  | |- fine (stored (Identity.complete_credential_rotation _ _ _ _)) => by_request realm_complete_rotation
  | |- fine (stored (Identity.revoke_credential _ _ _)) => by_request realm_revoke_credential
  | |- fine (stored (Identity.recover_credential _ _ _)) => by_request realm_recover
  | |- fine (control (Workspaces.create_workspace _ _)) => by_request request_create_workspace
  | |- fine (control (Workspaces.archive_workspace _ _)) => by_request request_archive_workspace
  | |- fine (control (Workspaces.create_session _ _ _)) => by_request request_create_session
  | |- fine (control (transition_session _ _ _)) => by_request request_transition_session
  | |- fine (control (create_source_connection _ _ _ _ _ _ _)) => by_request request_create_source_connection
  | |- fine (control (Workspaces.update_source_connection _ _ _ _ _ _)) => by_request request_update_source_connection
  | |- fine (control (Workspaces.transition_source_connection _ _ _)) => by_request request_transition_source_connection
  | |- fine (control (Workspaces.create_dataset _ _ _ _ _ _)) => by_request request_create_dataset
  | |- fine (control (Workspaces.archive_dataset _)) => by_request request_archive_dataset
  | |- fine (control (Workspaces.create_plan _ _ _)) => by_request request_create_plan
  | |- fine (control (create_plan_version _)) => by_request request_create_plan_version
  | |- fine (control (Workspaces.publish_plan_version _ _ _)) => by_request request_publish_plan_version
  end.
Lemma fine_reply {A} meta (p : Served A) : fine p -> fine (reply meta p).
Proof. intros Hp. apply preserves_then; [done|]. intros a. apply preserves_ret. Qed.
Ltac fine_step :=
  lazymatch goal with
  | |- fine (validate_meta _ _ _) => apply fine_meta
  | |- fine (require_capability _ _ _) => apply fine_gate
  | |- fine (check _) => apply preserves_check
  | |- fine (mret _) => apply preserves_ret
  | |- fine (reply _ _) => apply fine_reply
  | |- fine (mbind _ _) => apply preserves_then; [|intros ?]
  | |- fine (match _ with _ => _ end) => case_match
  | _ => first [ stored_fine | apply quiet_fine; solve [repeat still] ]
  end.

Lemma serve_fine m c : fine (serve m c).
Proof.
  destruct c; cbn [Endpoints.serve]; unfold answered; (apply preserves_then; [|intros ?; apply preserves_ret]).
  all: unfold_call.
  all: repeat fine_step.
Qed.

(** ** A service at work

    It starts on a database that any requests have left behind, with an empty
    cache, and answers one call after another; the rest of the system works on
    the store, too. *)

Inductive served : Service -> Prop :=
| served_start d ps : reachable_realm (d, ps) -> served (mkService d ∅)
| served_call s m c : served s -> served (exec (serve m c) s).1
| served_store s p : served s -> StoreRequest p -> served (exec (within (lift p)) s).1.
Lemma served_good s : served s -> Good s.
Proof.
  intros Hs. induction Hs as [d ps Hr|s m c _ IH|s p _ IH Hp].
  - constructor; [by apply (realm_ok _ Hr)|]. intros key caps. cbn. by rewrite lookup_empty.
  - by apply serve_fine.
  - rewrite exec_within. cbn. apply good_same; [done| |intros key; by rewrite exec_lift].
    by destruct (safe_exec _ _ anything _ _ (realm_request_safe _ _ (realm_on_store _ Hp) (good_realm _ IH)) (good_realm _ IH)) as (_ & ? & _).
Qed.

(** C11: The gate is exact when requests run one after another: whatever calls the
    service has answered, it lets a principal through if and only if the tables
    say so at that moment (an active workspace, an active member of it, and a role
    assigned there with the capability or the administrator's), although it
    answers from a cache; without a principal only the local mode lets anything
    through; and asking changes nothing in the database. *)
Theorem gate_exact s workspace p capability :
  served s ->
  ((exec (authorize mode workspace p capability) s).2 = Ok tt <-> admitted mode (realm s) workspace p capability) /\
  realm (exec (authorize mode workspace p capability) s).1 = realm s.
Proof.
  intros Hs%served_good. by destruct (exec_authorize mode workspace p capability s Hs) as (s' & r & -> & Hr & _ & Hiff).
Qed.

(** *** Nothing goes past the gate *)

(** What a call has to be allowed. *)
Definition required (c : Call) : list Capability :=
  match c with
  | Handshake _ | CreateWorkspace _ _ => []
  | CreateMember _ _ _ | RevokeMember _ _ | CreateRole _ _ _ | SetRoleCapabilities _ _ | AssignRole _ _ | CreateServiceAccount _ _ _
  | RevokeServiceAccount _ _ => [WorkspaceWrite; IdentityManage]
  | RegisterCredentialReference _ | BeginCredentialRotation _ _ | CompleteCredentialRotation _ _ _ | RevokeCredential _ _
  | RecoverCredential _ _ => [WorkspaceWrite; CredentialManage]
  | ReadCredentialReference _ => [WorkspaceRead; CredentialManage]
  | ReadWorkspace _ | ReadMember _ | ReadRole _ | ReadServiceAccount _ | ListSessions _ | ReadSession _ | ListSourceConnections _
  | ReadSourceConnection _ | ListSourceAssets _ | ListDatasets _ | ReadDataset _ | ListPlans _ | LoadPlan _ | ListPlanVersions _ _
  | LoadPlanVersion _ | DiffPlans _ _ | ValidatePlan _ => [WorkspaceRead]
  | ArchiveWorkspace _ _ | CreateSession _ _ | CloseSession _ _ | RegisterSourceConnection _ _ _ _ _ _ | UpdateSourceConnection _ _ _ _ _ _
  | TransitionSourceConnection _ _ _ | RetireSourceConnection _ _ | CreateDataset _ _ _ _ _ | ArchiveDataset _ | CreatePlan _ _
  | SavePlanVersion _ | PublishPlanVersion _ _ _ | ClonePlan _ _ _ _ => [WorkspaceWrite]
  end.
(** What a program does, an answer or a change, needs these capabilities. *)
Definition mediated {A} (meta : RequestMetadata) (caps : list Capability) (p : Served A) : Prop := forall s, Good s ->
  (exists a, (exec p s).2 = Ok a) \/ realm (exec p s).1 <> realm s ->
  Forall (admitted mode (realm s) (meta_workspace_id meta) (principal meta)) caps.
Lemma mediated_nil {A} meta (p : Served A) : mediated meta [] p.
Proof. by intros s Hs _. Qed.
Lemma mediated_gate {A} meta cap caps (k : unit -> Served A) :
  mediated meta caps (k tt) -> mediated meta (cap :: caps) (require_capability mode meta cap ≫= k).
Proof.
  intros Hk s Hs. unfold require_capability. rewrite exec_auto_then.
  destruct (exec_authorize mode (meta_workspace_id meta) (principal meta) cap s Hs) as (s' & r & -> & Hr & Hs' & Hiff).
  destruct r as [[]|e]; cbn; [|by intros [(? & ?)|Hn]]. intros Hdo. constructor; [by apply Hiff|]. rewrite <- Hr. apply Hk; [done|].
  destruct Hdo; [by left|right]. by rewrite Hr.
Qed.
Lemma mediated_check {A B} meta caps (m : ApiResult A) (k : A -> Served B) : (forall a, mediated meta caps (k a)) -> mediated meta caps (check m ≫= k).
Proof. intros Hk s Hs. rewrite exec_auto_check. destruct m as [a|e]; [by apply Hk|]. by intros [(? & ?)|Hn]. Qed.
Lemma bind_assoc {A B C} (p : Served A) (f : A -> Served B) (g : B -> Served C) s : exec ((p ≫= f) ≫= g) s = exec (p ≫= fun a => f a ≫= g) s.
Proof. rewrite !exec_auto_then. destruct (exec p s) as [s' [a|e]]; [by rewrite exec_auto_then|done]. Qed.
Lemma mediated_meta {A} meta (mutation : bool) caps (k : unit -> Served A) :
  mediated meta caps (k tt) ->
  mediated meta ((if mutation then WorkspaceWrite else WorkspaceRead) :: caps) (validate_meta mode meta mutation ≫= k).
Proof.
  intros Hk s Hs. unfold validate_meta. rewrite bind_assoc.
  by apply (mediated_check meta _ (validate_meta_unscoped meta mutation) (fun _ => require_capability mode meta _ ≫= k)
             (fun _ => mediated_gate meta _ caps k Hk)).
Qed.
Lemma mediated_answered {A} meta caps (p : Answer A) : mediated meta caps p -> mediated meta caps (answered p).
Proof.
  intros Hp s Hs. unfold answered. rewrite exec_auto_then. specialize (Hp s Hs). destruct (exec p s) as [s' [a|e]]; cbn in *.
  - intros _. apply Hp. left. by eexists.
  - intros [(? & ?)|Hd]; [done|]. apply Hp. by right.
Qed.
Lemma serve_mediated m c : mediated m (required c) (serve m c).
Proof.
  destruct c; cbn [Endpoints.serve required]; apply mediated_answered; try apply mediated_nil.
  all: lazymatch goal with
       | |- mediated _ [WorkspaceWrite] _ => apply (mediated_meta m true []), mediated_nil
       | |- mediated _ [WorkspaceRead] _ => apply (mediated_meta m false []), mediated_nil
       | |- mediated _ [WorkspaceWrite; ?cap] _ => apply (mediated_meta m true [cap]), mediated_gate, mediated_nil
       | |- mediated _ [WorkspaceRead; ?cap] _ => apply (mediated_meta m false [cap]), mediated_gate, mediated_nil
       end.
Qed.

(** Calls that do not write do not change the database. *)
Definition unchanged (d : Realm) (s : Service) : Prop := Good s /\ realm s = d.
Lemma unchanged_gate d ws p cap : preserves (unchanged d) (authorize mode ws p cap).
Proof. intros s [Hs Hd]. destruct (exec_authorize mode ws p cap s Hs) as (s' & r & -> & Hr & Hs' & _). split; [done|]. by rewrite <- Hd. Qed.
Lemma unchanged_meta d meta mutation : preserves (unchanged d) (validate_meta mode meta mutation).
Proof. apply preserves_then; [apply preserves_check|]. intros _. apply unchanged_gate. Qed.
Lemma unchanged_quiet {A} d (p : Served A) : quiet p -> preserves (unchanged d) p.
Proof. intros Hp s Hs. by rewrite Hp. Qed.
Lemma serve_reads m c d :
  WorkspaceWrite ∉ required c -> (forall w t, c <> CreateWorkspace w t) -> preserves (unchanged d) (serve m c).
Proof.
  intros Hw Hc. destruct c; try (exfalso; apply Hw; left); try by destruct (Hc workspace created_at).
  all: cbn [Endpoints.serve]; unfold answered; (apply preserves_then; [|intros ?; apply preserves_ret]); unfold_call.
  all: try (apply preserves_then; [apply unchanged_meta|intros _]).
  all: try (apply preserves_then; [apply unchanged_gate|intros _]).
  all: apply unchanged_quiet; solve [repeat still].
Qed.
Lemma created_locally m w t s :
  (exec (serve m (CreateWorkspace w t)) s).2 = Ok tt \/ realm (exec (serve m (CreateWorkspace w t)) s).1 <> realm s ->
  mode = LocalTrusted /\ w = meta_workspace_id m.
Proof.
  cbn [Endpoints.serve]. unfold answered, Endpoints.create_workspace, is_local_trusted. rewrite exec_auto_then, exec_auto_check.
  destruct (validate_meta_unscoped m true) as [u|e]; [|by intros [|]]. rewrite exec_auto_check. case_bool_decide as Hm; [|by intros [|]].
  cbn [negb]. rewrite exec_auto_check. destruct (meta_workspace_id m =? w)%N eqn:Hw; [|by intros [|]]. by apply N.eqb_eq in Hw.
Qed.

(** C12: Nothing goes past the gate when requests run one after another.  A
    call that is answered, or that changes the database, comes from a caller
    that is admitted for every capability the call requires, in the workspace
    it names and by the tables as they are at that moment: a principal that
    holds them, or, in local-trusted mode only, a caller without a principal.
    A call changes
    the database only if it requires [workspace:write], or if it is the
    creation of a workspace, which requires no capability and is answered
    only in local-trusted mode and for the workspace the caller names. *)
Theorem complete_mediation s m c :
  served s -> (exec (serve m c) s).2 = Ok tt \/ realm (exec (serve m c) s).1 <> realm s ->
  Forall (admitted mode (realm s) (meta_workspace_id m) (principal m)) (required c) /\
  (forall w t, c = CreateWorkspace w t -> mode = LocalTrusted /\ w = meta_workspace_id m) /\
  (realm (exec (serve m c) s).1 <> realm s -> WorkspaceWrite ∈ required c \/ exists w t, c = CreateWorkspace w t).
Proof.
  intros Hs%served_good Hdo. split_and!.
  - apply (serve_mediated m c s Hs). destruct Hdo as [Hd|Hd]; [left; by exists tt|by right].
  - intros w t ->. by eapply created_locally.
  - intros Hne. destruct (decide (WorkspaceWrite ∈ required c)) as [Hw|Hw]; [by left|right].
    destruct c; try by (eexists _, _). all: exfalso; apply Hne.
    all: by apply (serve_reads m _ (realm s) Hw).
Qed.
End gatekeeping.
