(* ===== verification/Tenancy.v ===== *)
(** * Workspaces do not touch each other

    Whatever a call does, it does to the rows of the workspace it names: the
    rest of the database is as it was. *)

From S2P Require Import Prelude Text Secrets Logical Schema Expression Rule Plan Nodes Schedule Automation Hex Executions History Canonical Operations Jobs Submissions Outputs Lifecycle Reports Life Refines Reachable Frame Sample Control Autocommit Workspaces Scopes Interleavings Closing Identity Realms Authorization Endpoints Gatekeeping.

(** ** The rest of the database *)

Section others.
Context {K : Type} `{Countable K} {A : Type} (workspace_of : A -> Uuid) (ws : Uuid).
Definition others (rows : gmap K A) : gmap K A := filter (fun e => workspace_of e.2 <> ws) rows.
Lemma others_insert rows id a :
  (forall old, rows !! id = Some old -> workspace_of old = ws) -> workspace_of a = ws -> others (<[id := a]> rows) = others rows.
Proof. intros Hold Ha. apply map_filter_insert_not'; cbn; [by intros []|]. intros y Hy. by intros []; apply Hold. Qed.
Lemma others_alter rows id f :
  (forall old, rows !! id = Some old -> workspace_of old = ws) -> (forall a, workspace_of (f a) = workspace_of a) ->
  others (alter f id rows) = others rows.
Proof.
  intros Hold Hf. destruct (rows !! id) as [a|] eqn:Ha; [|by rewrite alter_id by (intros ? ?; congruence)].
  assert (alter f id rows = <[id := f a]> rows) as ->.
  { apply map_eq. intros i. destruct (decide (i = id)) as [->|Hi]; [by rewrite lookup_alter_eq, lookup_insert_eq, Ha|].
    by rewrite lookup_alter_ne, lookup_insert_ne. }
  apply others_insert; [by rewrite Ha|]. rewrite Hf. by apply Hold.
Qed.
End others.

Definition outside_store (ws : Uuid) (d : Store) :=
  let r := directory d in
  (delete ws (dir_workspaces r), others se_workspace_id ws (dir_sessions r), others c_workspace_id ws (dir_connections r),
   others sa_entry_workspace_id ws (dir_assets r), others d_workspace_id ws (dir_datasets r), others p_workspace_id ws (dir_plans r),
   others v_workspace_id ws (dir_versions r), job_tables d).
Definition outside_identity (ws : Uuid) (t : IdentityTables) :=
  (others m_workspace_id ws (sec_members t), others ro_workspace_id ws (sec_roles t),
   filter (fun p : Uuid * string => ro_workspace_id <$> sec_roles t !! p.1 <> Some ws) (sec_role_capabilities t),
   others (fun w : Uuid => w) ws (sec_member_roles t), others sv_workspace_id ws (sec_service_accounts t),
   others cr_workspace_id ws (sec_credentials t)).
(** Everything that belongs to another workspace, and the tables of jobs. *)
Definition outside (ws : Uuid) (d : Realm) := (outside_store ws (realm_store d), outside_identity ws (identities d)).

Section tenancy.
Context `{JobCodec} `{StoreFiles}.

(** ** The directory *)

Notation apart ws o := (preserves (fun d => outside_store ws d = o)).
Lemma new_workspace_apart ws o row : apart ws o (write (insert_row dir_workspaces set_workspaces (fun _ => true) ws row)).
Proof.
  apply preserves_write. intros d d' u Hd (Hn & _ & Hdir & Hjobs)%insert_statement_Ok. unfold outside_store. rewrite Hdir, Hjobs, <- Hd.
  unfold outside_store. cbn. by rewrite delete_insert_eq.
Qed.
Lemma changed_workspace_apart ws o cond f refused : apart ws o (write (update_row dir_workspaces set_workspaces ws cond f refused)).
Proof.
  apply preserves_write. intros d d' u Hd (row & _ & _ & Hdir & Hjobs)%update_statement_Ok. unfold outside_store. rewrite Hdir, Hjobs, <- Hd.
  unfold outside_store. cbn. by rewrite delete_insert_eq.
Qed.
(** A table of rows that name their workspace. *)
Definition tabled {A} (get : Directory -> gmap Uuid A) (set : gmap Uuid A -> Directory -> Directory) (workspace_of : A -> Uuid) : Prop :=
  forall ws m d, others workspace_of ws m = others workspace_of ws (get (directory d)) ->
    outside_store ws (mkStore (set m (directory d)) (job_tables d)) = outside_store ws d.
Lemma sessions_tabled : tabled dir_sessions set_sessions se_workspace_id.
Proof. intros ws m d Hm. unfold outside_store. cbn. by rewrite Hm. Qed.
Lemma connections_tabled : tabled dir_connections set_connections c_workspace_id.
Proof. intros ws m d Hm. unfold outside_store. cbn. by rewrite Hm. Qed.
Lemma datasets_tabled : tabled dir_datasets set_directory_datasets d_workspace_id.
Proof. intros ws m d Hm. unfold outside_store. cbn. by rewrite Hm. Qed.
Lemma plans_tabled : tabled dir_plans set_plans p_workspace_id.
Proof. intros ws m d Hm. unfold outside_store. cbn. by rewrite Hm. Qed.
Lemma versions_tabled : tabled dir_versions set_versions v_workspace_id.
Proof. intros ws m d Hm. unfold outside_store. cbn. by rewrite Hm. Qed.
Lemma store_same (d d' : Store) r j : directory d' = r -> job_tables d' = j -> d' = mkStore r j.
Proof. by destruct d'; cbn; intros -> ->. Qed.
Lemma insert_apart {A} get (set : gmap Uuid A -> Directory -> Directory) workspace_of ws o refs id row :
  tabled get set workspace_of -> workspace_of row = ws -> apart ws o (write (insert_row get set refs id row)).
Proof.
  intros Ht Hw. apply preserves_write. intros d d' u Hd (Hn & _ & Hdir & Hjobs)%insert_statement_Ok. rewrite (store_same d d' _ _ Hdir Hjobs), <- Hd.
  apply Ht, others_insert; [|done]. by rewrite Hn.
Qed.
(** An object of the workspace. *)
Definition mine {A} (get : Directory -> gmap Uuid A) (workspace_of : A -> Uuid) (ws id : Uuid) (d : Store) : Prop :=
  forall a, get (directory d) !! id = Some a -> workspace_of a = ws.
Lemma update_apart {A} get (set : gmap Uuid A -> Directory -> Directory) workspace_of ws o id cond f refused :
  tabled get set workspace_of -> (forall m r, get (set m r) = m) -> (forall a, workspace_of (f a) = workspace_of a) ->
  preserves (fun d => outside_store ws d = o /\ mine get workspace_of ws id d) (write (update_row get set id cond f refused)).
Proof.
  intros Ht Hgs Hf. apply preserves_write. intros d d' u [Hd Hm] (row & Hl & _ & Hdir & Hjobs)%update_statement_Ok.
  rewrite (store_same d d' _ _ Hdir Hjobs), <- Hd. split.
  - apply Ht, others_insert; [done|]. rewrite Hf. by apply Hm.
  - intros a. cbn. rewrite Hgs, lookup_insert_eq. intros [= <-]. rewrite Hf. by apply Hm.
Qed.
Ltac apart_by t := repeat first
  [ apply preserves_query | apply preserves_check | apply preserves_ret | t | apply preserves_then; [|intros ?] ].

Lemma create_workspace_apart ws o at_ : apart ws o (Workspaces.create_workspace ws at_).
Proof. unfold Workspaces.create_workspace, get_workspace. apart_by ltac:(apply new_workspace_apart). Qed.
Lemma archive_workspace_apart ws o at_ : apart ws o (Workspaces.archive_workspace ws at_).
Proof. unfold Workspaces.archive_workspace, get_workspace. apart_by ltac:(apply changed_workspace_apart). Qed.
Lemma create_session_apart ws o id at_ : apart ws o (Workspaces.create_session ws id at_).
Proof. unfold Workspaces.create_session, get_session. apart_by ltac:(by apply (insert_apart _ _ _ _ _ _ _ _ sessions_tabled)). Qed.
Lemma create_connection_apart ws o id kind name config credential at_ : apart ws o (create_source_connection ws id kind name config credential at_).
Proof.
  unfold create_source_connection, get_source_connection. apart_by ltac:(by apply (insert_apart _ _ _ _ _ _ _ _ connections_tabled)).
Qed.
Lemma create_dataset_apart ws o se a id name at_ : apart ws o (Workspaces.create_dataset ws se a id name at_).
Proof. unfold Workspaces.create_dataset, get_dataset. apart_by ltac:(by apply (insert_apart _ _ _ _ _ _ _ _ datasets_tabled)). Qed.
Lemma create_plan_apart ws o id at_ : apart ws o (Workspaces.create_plan ws id at_).
Proof. unfold Workspaces.create_plan, get_plan. apart_by ltac:(by apply (insert_apart _ _ _ _ _ _ _ _ plans_tabled)). Qed.
Lemma create_version_apart o x : apart (pvd_workspace_id x) o (create_plan_version x).
Proof.
  unfold create_plan_version, get_plan_version. apart_by ltac:(first [by apply (insert_apart _ _ _ _ _ _ _ _ versions_tabled)|case_match]).
Qed.

(** *** Changes of an object of the workspace *)

Notation apart_at get workspace_of ws o id := (preserves (fun d => outside_store ws d = o /\ mine get workspace_of ws id d)).
Lemma transition_session_apart ws o id target at_ : apart_at dir_sessions se_workspace_id ws o id (transition_session id target at_).
Proof.
  unfold transition_session, get_session. apart_by ltac:(first [by apply (update_apart _ _ _ _ _ _ _ _ _ sessions_tabled)|case_match]).
Qed.
Lemma update_connection_apart ws o id name config credential expected at_ :
  apart_at dir_connections c_workspace_id ws o id (Workspaces.update_source_connection id name config credential expected at_).
Proof.
  unfold Workspaces.update_source_connection, get_source_connection.
  apart_by ltac:(by apply (update_apart _ _ _ _ _ _ _ _ _ connections_tabled)).
Qed.
Lemma transition_connection_apart ws o id target at_ :
  apart_at dir_connections c_workspace_id ws o id (Workspaces.transition_source_connection id target at_).
Proof.
  unfold Workspaces.transition_source_connection, get_source_connection.
  apart_by ltac:(by apply (update_apart _ _ _ _ _ _ _ _ _ connections_tabled)).
Qed.
Lemma archive_dataset_apart ws o id : apart_at dir_datasets d_workspace_id ws o id (Workspaces.archive_dataset id).
Proof. unfold Workspaces.archive_dataset, get_dataset. apart_by ltac:(by apply (update_apart _ _ _ _ _ _ _ _ _ datasets_tabled)). Qed.
(** A version, its plan and the version it replaces are in one workspace. *)
Lemma publish_apart ws id expected at_ d :
  Inv d -> mine dir_versions v_workspace_id ws id d -> outside_store ws (exec (Workspaces.publish_plan_version id expected at_) d).1 = outside_store ws d.
Proof.
  intros [[Hscope Hvers] _ _] Hm. unfold Workspaces.publish_plan_version, get_plan_version. rewrite exec_write_then.
  destruct (publish_tx id expected at_ d) as [[d' u]|e] eqn:Hw; [|done]. rewrite exec_query. cbn [fst].
  apply publish_tx_Ok in Hw as (e & plan & He & Hs & Hp & Hcur & Hdir & Hjobs). specialize (Hm _ He).
  assert (forall v r, dir_versions (directory d) !! v = Some r -> v_plan_id r = v_plan_id e -> v_workspace_id r = ws) as Hsame.
  { intros v r Hr Hpr. assert (sc_versions (scope (directory d)) !! v = Some (version_scope r)) as Hv by (cbn; by rewrite lookup_fmap, Hr).
    assert (sc_versions (scope (directory d)) !! id = Some (version_scope e)) as Hi by (cbn; by rewrite lookup_fmap, He).
    apply (scoped_version _ Hscope) in Hv as [Hv _], Hi as [Hi _]. congruence. }
  assert (p_workspace_id plan = ws) as Hpw.
  { assert (sc_versions (scope (directory d)) !! id = Some (version_scope e)) as Hi by (cbn; by rewrite lookup_fmap, He).
    apply (scoped_version _ Hscope) in Hi as [Hi _]. cbn in Hi. rewrite lookup_fmap, Hp in Hi. cbn in Hi. congruence. }
  rewrite (store_same d d' _ _ Hdir Hjobs). unfold outside_store. cbn. rewrite others_alter; [|rewrite Hp; by intros ? [= <-]|done]. do 2 f_equal.
  unfold published_map. rewrite others_alter; [|intros old Hold|done].
  - destruct expected as [c|]; [|done]. apply others_alter; [|intros a; unfold supersede; by case_bool_decide].
    intros old Hold. destruct (current_published _ _ Hvers _ _ _ Hp Hcur) as (r & Hr & Hpr & _). rewrite Hold in Hr. injection Hr as <-. by eapply Hsame.
  - destruct expected as [c|]; [|by rewrite He in Hold; injection Hold as <-]. apply lookup_alter_Some in Hold as [(-> & old2 & Ho & ->)|[_ Ho]].
    + rewrite He in Ho. injection Ho as <-. unfold supersede. by case_bool_decide.
    + rewrite He in Ho. by injection Ho as <-.
Qed.

(** ** Identities *)

Definition homely {A} (ws : Uuid) (p : Identified A) : Prop := forall d, RealmInv d -> outside ws (exec p d).1 = outside ws d.
Lemma homely_query {A B} ws (f : Realm -> Stored A) (k : A -> Identified B) : (forall a, homely ws (k a)) -> homely ws (query f ≫= k).
Proof. intros Hk d Hd. rewrite exec_auto_query. destruct (f d); [by apply Hk|done]. Qed.
Lemma homely_check {A B} ws (m : Stored A) (k : A -> Identified B) : (forall a, m = Ok a -> homely ws (k a)) -> homely ws (check m ≫= k).
Proof. intros Hk d Hd. rewrite exec_auto_check. destruct m; [by apply Hk|done]. Qed.
Lemma homely_write {A B} ws (f : Realm -> Stored (Realm * A)) (k : A -> Identified B) :
  (forall a, quiet (k a)) -> (forall d d' a, RealmInv d -> f d = Ok (d', a) -> outside ws d' = outside ws d) -> homely ws (write f ≫= k).
Proof. intros Hq Hf d Hd. rewrite exec_auto_write. destruct (f d) as [[d' a]|e] eqn:Hw; [|done]. rewrite Hq. by eapply Hf. Qed.
Lemma outside_identities ws d d' t :
  realm_store d' = realm_store d -> identities d' = t -> outside_identity ws t = outside_identity ws (identities d) -> outside ws d' = outside ws d.
Proof. intros Hs <- Ht. unfold outside. by rewrite Hs, Ht. Qed.

Lemma outside_member ws t id m :
  (forall m', sec_members t !! id = Some m' -> m_workspace_id m' = ws) -> m_workspace_id m = ws ->
  outside_identity ws (set_members (<[id := m]> (sec_members t)) t) = outside_identity ws t.
Proof. intros Hold Hm. unfold outside_identity. cbn. by rewrite others_insert. Qed.
Lemma outside_account ws t id a :
  (forall a', sec_service_accounts t !! id = Some a' -> sv_workspace_id a' = ws) -> sv_workspace_id a = ws ->
  outside_identity ws (set_service_accounts (<[id := a]> (sec_service_accounts t)) t) = outside_identity ws t.
Proof. intros Hold Ha. unfold outside_identity. cbn. by rewrite (others_insert sv_workspace_id). Qed.
Lemma outside_credential ws t id c :
  (forall c', sec_credentials t !! id = Some c' -> cr_workspace_id c' = ws) -> cr_workspace_id c = ws ->
  outside_identity ws (set_credentials (<[id := c]> (sec_credentials t)) t) = outside_identity ws t.
Proof. intros Hold Ha. unfold outside_identity. cbn. by rewrite (others_insert cr_workspace_id). Qed.
Ltac by_insert lem := intros d d' u Hd (Hn & _ & Hs & Hids)%insert_identity_Ok; apply (outside_identities _ _ _ _ Hs Hids), lem; [by rewrite Hn|done].
Ltac by_update lem := intros d d' u Hd [->|(row & Hrow & Hw & Hs & Hids)]%update_identity_Ok; [done|];
  rewrite ?andb_true_iff, ?N.eqb_eq in Hw; destruct_and? Hw; apply (outside_identities _ _ _ _ Hs Hids), lem; [rewrite Hrow; by intros ? [= <-]|done].

Lemma create_member_homely ws id subject at_ : homely ws (Identity.create_member ws id subject at_).
Proof.
  do 2 (apply homely_check; intros _ _). apply homely_query. intros _. apply homely_write; [intros ?; apply quiet_query|]. by_insert outside_member.
Qed.
Lemma revoke_member_homely ws id at_ : homely ws (Identity.revoke_member ws id at_).
Proof.
  apply homely_query. intros current. apply homely_check. intros _ _. apply homely_write; [intros ?; apply quiet_query|]. by_update outside_member.
Qed.
Lemma create_account_homely ws id name at_ : homely ws (Identity.create_service_account ws id name at_).
Proof.
  do 2 (apply homely_check; intros _ _). apply homely_query. intros _. apply homely_write; [intros ?; apply quiet_query|]. by_insert outside_account.
Qed.
Lemma revoke_account_homely ws id at_ : homely ws (Identity.revoke_service_account ws id at_).
Proof.
  apply homely_query. intros current. apply homely_check. intros _ _. apply homely_write; [intros ?; apply quiet_query|]. by_update outside_account.
Qed.
Lemma create_role_homely ws id name at_ : homely ws (Identity.create_role ws id name at_).
Proof.
  do 2 (apply homely_check; intros _ _). apply homely_query. intros _. apply homely_write; [intros ?; apply quiet_role|].
  intros d d' u Hd (Hn & _ & Hs & Hids)%insert_identity_Ok. apply (outside_identities _ _ _ _ Hs Hids). unfold outside_identity. cbn.
  rewrite (others_insert ro_workspace_id) by (rewrite ?Hn; done). do 4 f_equal. apply set_eq. intros [r c]. rewrite !elem_of_filter. cbn.
  destruct (decide (r = id)) as [->|Hr]; [|by rewrite lookup_insert_ne]. split; intros [_ Hin].
  all: destruct (capability_ok _ _ (realm_identity _ Hd) _ _ Hin) as [? Hx]; congruence.
Qed.
Lemma set_capabilities_homely ws id caps : homely ws (Identity.set_role_capabilities ws id caps).
Proof.
  apply homely_check. intros _ _. apply homely_write; [intros ?; apply quiet_role|]. intros d d' u Hd Hw.
  unfold set_role_capabilities_tx, ensure_role_in_workspace in Hw. cbv zeta in Hw. apply bind_Ok in Hw as (? & Hrole & Hw).
  apply bind_Ok in Hrole as (role & (Hrole & Hrw)%in_workspace_Ok & _). apply bind_Ok in Hw as (granted & Hg & [= <- _]).
  unfold outside, outside_identity. cbn. do 5 f_equal. apply set_eq. intros [r c]. rewrite !elem_of_filter. cbn.
  destruct (decide (r = id)) as [->|Hr]; [rewrite Hrole; cbn; naive_solver|]. split; intros [Hne Hin]; (split; [done|]).
  - destruct (granted_roles _ _ _ _ _ _ Hg Hin) as [|Hold]; [done|]. by apply elem_of_filter in Hold as [_ Hold].
  - eapply granted_keeps; [exact Hg|]. by apply elem_of_filter.
Qed.
Lemma assign_homely ws m r : homely ws (Identity.assign_role ws m r).
Proof.
  intros d Hd. unfold Identity.assign_role. cbn. destruct (assign_role_tx ws m r d) as [[d' u]|e] eqn:Hw; cbn; [|done].
  unfold assign_role_tx in Hw. inv_ok Hw. injection Hw as <- _. apply orb_false_iff in Hb as [Hn%bool_decide_eq_false _].
  apply eq_None_not_Some in Hn. unfold outside, outside_identity. cbn. by rewrite (others_insert (fun w : Uuid => w)) by (rewrite ?Hn; done).
Qed.
Lemma register_homely c : homely (cd_workspace_id c) (Identity.register_credential_reference c).
Proof.
  do 4 (apply homely_check; intros _ _). do 2 (apply homely_query; intros _). apply homely_write; [intros ?; apply quiet_query|].
  unfold insert_credential. by_insert outside_credential.
Qed.
Lemma begin_rotation_homely ws id at_ : homely ws (Identity.begin_credential_rotation ws id at_).
Proof.
  apply homely_query. intros current. apply homely_check. intros _ _. apply homely_write; [intros ?; apply quiet_query|]. by_update outside_credential.
Qed.
Lemma revoke_credential_homely ws id at_ : homely ws (Identity.revoke_credential ws id at_).
Proof.
  apply homely_query. intros current. apply homely_check. intros _ _. apply homely_write; [intros ?; apply quiet_query|]. by_update outside_credential.
Qed.
Lemma recover_homely ws id at_ : homely ws (Identity.recover_credential ws id at_).
Proof.
  apply homely_query. intros current. apply homely_check. intros _ _. cbv zeta. apply homely_write; [intros ?; apply quiet_query|].
  by_update outside_credential.
Qed.
Lemma complete_homely ws old c at_ : homely ws (Identity.complete_credential_rotation ws old c at_).
Proof.
  do 3 (apply homely_check; intros _ _). apply homely_write; [intros ?; apply quiet_query|].
  intros d d' u Hd (row & Hrow & Hw & _ & _ & (Hn & _ & Hs & Hids)%insert_identity_Ok)%complete_tx_Ok. cbn in Hs.
  apply (outside_identities _ _ _ _ Hs Hids). rewrite outside_credential; [|by rewrite Hn|done]. cbn [identities on_identities].
  apply outside_credential; [rewrite Hrow; by intros ? [= <-]|done].
Qed.

(** ** Calls *)

Context (mode : AuthorizationMode) (max_rows_per_page : N).
Context (hash_iter : gmap PlanNodeId N -> list (PlanNodeId * N)) (to_vec : LogicalPlan -> result string (list N))
  (to_value : LogicalPlan -> option json).
Notation serve := (serve mode max_rows_per_page hash_iter to_vec to_value).

Definition stays {A} (ws : Uuid) (p : Served A) (s : Service) : Prop := Good s -> outside ws (realm (exec p s).1) = outside ws (realm s).
Lemma stays_quiet {A} ws (p : Served A) s : quiet p -> stays ws p s.
Proof. intros Hp _. by rewrite Hp. Qed.
Lemma stays_check {A B} ws (r : ApiResult A) (k : A -> Served B) s : (forall a, r = Ok a -> stays ws (k a) s) -> stays ws (check r ≫= k) s.
Proof. intros Hk Hs. rewrite exec_auto_check. destruct r as [a|e]; [by apply Hk|done]. Qed.
Lemma stays_gate {B} ws meta cap (k : unit -> Served B) s : (forall s', stays ws (k tt) s') -> stays ws (require_capability mode meta cap ≫= k) s.
Proof.
  intros Hk Hs. unfold require_capability. rewrite exec_auto_then.
  destruct (exec_authorize mode (meta_workspace_id meta) (principal meta) cap s Hs) as (s' & r & -> & Hr & Hs' & _).
  destruct r as [[]|e]; [|cbn; by rewrite Hr]. rewrite (Hk s' Hs'). by rewrite Hr.
Qed.
Lemma stays_meta {B} ws meta mutation (k : unit -> Served B) s : (forall s', stays ws (k tt) s') -> stays ws (validate_meta mode meta mutation ≫= k) s.
Proof.
  intros Hk Hs. unfold validate_meta. rewrite bind_assoc.
  by apply (stays_check ws (validate_meta_unscoped meta mutation) (fun _ => require_capability mode meta _ ≫= k) s (fun _ _ => stays_gate ws meta _ k s Hk)).
Qed.
Lemma stays_then {A B} ws (p : Served A) (k : A -> Served B) s :
  preserves Good p -> stays ws p s -> (forall a s', stays ws (k a) s') -> stays ws (p ≫= k) s.
Proof.
  intros Hf Hp Hk Hs. rewrite exec_auto_then. specialize (Hp Hs). specialize (Hf s Hs). destruct (exec p s) as [s' [a|e]]; [|done].
  by rewrite (Hk a s' Hf).
Qed.
Lemma stays_last {A B} ws (p : Served A) (k : A -> Served B) s : stays ws p s -> (forall a, quiet (k a)) -> stays ws (p ≫= k) s.
Proof.
  intros Hp Hk Hs. rewrite exec_auto_then. specialize (Hp Hs). destruct (exec p s) as [s' [a|e]]; [|done]. by rewrite (Hk a s').
Qed.
Lemma stays_reply {A} ws meta (p : Served A) s : stays ws p s -> stays ws (reply meta p) s.
Proof. intros Hp. by apply stays_last. Qed.
Lemma stays_control {A} ws (p : Request A) s :
  (RealmInv (realm s) -> outside_store ws (exec p (realm_store (realm s))).1 = outside_store ws (realm_store (realm s))) -> stays ws (control p) s.
Proof. intros Hp Hs. unfold control, stored. rewrite exec_attempt, exec_lift. unfold outside. cbn. by rewrite Hp by apply Hs. Qed.
Lemma stays_created {A} ws (p : Request A) s : (forall o, apart ws o p) -> stays ws (control p) s.
Proof. intros Hp. apply stays_control. intros _. by apply Hp. Qed.
Lemma stays_stored {A} ws (p : Identified A) s : homely ws p -> stays ws (stored p) s.
Proof. intros Hp Hs. unfold stored. rewrite exec_attempt. cbn. by apply Hp, Hs. Qed.
Lemma stays_manage {A} ws meta (p : Identified A) s : homely ws p -> stays ws (manage meta p) s.
Proof.
  intros Hp Hs. unfold manage, stored. rewrite exec_attempt_then. specialize (Hp _ (good_realm _ Hs)).
  by destruct (exec p (realm s)) as [d [a|e]].
Qed.
Lemma stays_scoped {A B} meta workspace_of (g : Store -> Stored A) (k : A -> Served B) s :
  (forall a, g (realm_store (realm s)) = Ok a -> workspace_of a = meta_workspace_id meta -> stays (meta_workspace_id meta) (k a) s) ->
  stays (meta_workspace_id meta) (scoped meta workspace_of (query g) ≫= k) s.
Proof.
  intros Hk Hs. unfold scoped, control, stored. rewrite bind_assoc, exec_attempt_then, exec_lift, exec_query. cbn [fst snd].
  assert (mkService (mkRealm (realm_store (realm s)) (identities (realm s))) (cache s) = s) as -> by by destruct s as [[] ?].
  destruct (g (realm_store (realm s))) as [a|e]; [|done]. rewrite bind_assoc, exec_auto_check. unfold ensure_scope.
  destruct (workspace_of a =? meta_workspace_id meta)%N eqn:Hw; [|done]. apply N.eqb_eq in Hw. by apply Hk.
Qed.
(** A change of an object that has just been found in the workspace. *)
Lemma stays_changed {A B} get (workspace_of : A -> Uuid) ws id a (p : Request B) s :
  (forall o, apart_at get workspace_of ws o id p) -> get (directory (realm_store (realm s))) !! id = Some a -> workspace_of a = ws ->
  stays ws (control p) s.
Proof.
  intros Hp Hl Hw. apply stays_control. intros _. apply (Hp _ (realm_store (realm s))). split; [done|]. intros b Hb. congruence.
Qed.
Lemma session_found d id r : session_from_connection d id = Ok r -> dir_sessions (directory d) !! id = Some r.
Proof. apply ok_or_Ok. Qed.
Lemma dataset_found d id r : dataset_from_connection d id = Ok r -> dir_datasets (directory d) !! id = Some r.
Proof. apply ok_or_Ok. Qed.
Lemma plan_found d id r : plan_from_connection d id = Ok r -> dir_plans (directory d) !! id = Some r.
Proof. apply ok_or_Ok. Qed.
Lemma connection_found d id r : source_connection_from_connection d id = Ok r -> dir_connections (directory d) !! id = Some (scr_entry r).
Proof. unfold source_connection_from_connection. intros Hr. apply bind_Ok in Hr as (e & He%ok_or_Ok & Hr). inv_ok Hr. by injection Hr as <-. Qed.
Lemma version_found d id r : plan_version_from_connection d id = Ok r -> dir_versions (directory d) !! id = Some (pvr_entry r).
Proof.
  unfold plan_version_from_connection, plan_version_from_raw, directory_version_raw. intros Hr. apply bind_Ok in Hr as (e & He%ok_or_Ok & Hr).
  inv_ok Hr. by injection Hr as <-.
Qed.
Lemma draft_workspace ws b draft : credential_draft ws b = Ok draft -> cd_workspace_id draft = ws.
Proof. unfold credential_draft. intros Hd. apply bind_Ok in Hd as (r & _ & Hd). by injection Hd as <-. Qed.
Lemma version_draft_workspace ws r draft : version_draft hash_iter to_vec to_value ws r = Ok draft -> pvd_workspace_id draft = ws.
Proof. unfold version_draft. intros Hd. inv_ok Hd. by injection Hd as <-. Qed.

Ltac enter := lazymatch goal with
  | |- stays _ (mbind _ (validate_meta _ _ _)) _ => apply stays_meta; intros ?
  | |- stays _ (mbind _ (require_capability _ _ _)) _ => apply stays_gate; intros ?
  | |- stays _ (mbind _ (check _)) _ => apply stays_check; intros ? ?
  | |- stays _ (reply _ _) _ => apply stays_reply
  end.
Lemma answered_stays {A} ws (p : Answer A) s : stays ws p s -> stays ws (answered p) s.
Proof. intros Hp. by apply stays_last. Qed.
Lemma stays_scope_workspace {B} ws w (k : unit -> Served B) s : (w = ws -> stays ws (k tt) s) -> stays ws (scope_workspace w ws ≫= k) s.
Proof.
  intros Hk Hs. unfold scope_workspace, control, stored. rewrite bind_assoc, exec_attempt_then, exec_lift. unfold get_workspace. rewrite exec_query.
  cbn [fst snd]. assert (mkService (mkRealm (realm_store (realm s)) (identities (realm s))) (cache s) = s) as -> by by destruct s as [[] ?].
  destruct (workspace_from_connection _ _) as [r|e]; [|done]. rewrite exec_auto_check. unfold ensure_scope.
  destruct (w =? ws)%N eqn:Hw; [|done]. apply N.eqb_eq in Hw. by apply Hk.
Qed.
Ltac homely_op :=
  lazymatch goal with
  | |- homely _ (Identity.create_member _ _ _ _) => apply create_member_homely
  | |- homely _ (Identity.revoke_member _ _ _) => apply revoke_member_homely
  | |- homely _ (Identity.create_role _ _ _ _) => apply create_role_homely
  | |- homely _ (Identity.set_role_capabilities _ _ _) => apply set_capabilities_homely
  | |- homely _ (Identity.create_service_account _ _ _ _) => apply create_account_homely
  | |- homely _ (Identity.revoke_service_account _ _ _) => apply revoke_account_homely
  | |- homely _ (Identity.begin_credential_rotation _ _ _) => apply begin_rotation_homely
  | |- homely _ (Identity.complete_credential_rotation _ _ _ _) => apply complete_homely
  | |- homely _ (Identity.revoke_credential _ _ _) => apply revoke_credential_homely
  | |- homely _ (Identity.recover_credential _ _ _) => apply recover_homely
  end.
Ltac created_op :=
  lazymatch goal with
  | |- preserves _ (Workspaces.create_session _ _ _) => apply create_session_apart
  | |- preserves _ (create_source_connection _ _ _ _ _ _ _) => apply create_connection_apart
  | |- preserves _ (Workspaces.create_dataset _ _ _ _ _ _) => apply create_dataset_apart
  | |- preserves _ (Workspaces.create_plan _ _ _) => apply create_plan_apart
  end.
Ltac found lem := apply stays_scoped; intros ? Hfound%lem Hhome.
Lemma writing_stays m c s : WorkspaceWrite ∈ required c -> stays (meta_workspace_id m) (serve m c) s.
Proof.
  intros Hw. destruct c; try (exfalso; cbn in Hw; rewrite ?elem_of_cons, ?elem_of_nil in Hw; naive_solver); clear Hw.
  all: cbn [Endpoints.serve]; apply answered_stays; unfold_call; repeat enter.
  all: lazymatch goal with
       | |- stays _ (manage _ _) _ => apply stays_manage; homely_op
       | |- stays _ (stored (Identity.register_credential_reference _)) _ => idtac
       | |- stays _ (stored _) _ => apply stays_stored; homely_op
       | |- stays _ (control _) _ => apply stays_created; intros ?; created_op
       | _ => idtac
       end.
  - apply stays_scope_workspace. intros ->. enter. apply stays_created. intros o. apply archive_workspace_apart.
  - apply stays_last; [apply stays_manage, assign_homely|intros ?; apply quiet_ret].
  - apply stays_stored. rewrite <- (draft_workspace _ _ _ H1). apply register_homely.
  - found session_found. destruct (se_state _); [..|by apply stays_quiet, quiet_ret]; enter.
    all: apply (stays_changed dir_sessions se_workspace_id _ session a); [intros o; apply transition_session_apart|done|done].
  - found connection_found. repeat enter. eapply (stays_changed dir_connections c_workspace_id); [intros o; apply update_connection_apart|done|done].
  - found connection_found. repeat enter. eapply (stays_changed dir_connections c_workspace_id); [intros o; apply transition_connection_apart|done|done].
  - found connection_found. repeat enter. eapply (stays_changed dir_connections c_workspace_id); [intros o; apply transition_connection_apart|done|done].
  - found dataset_found. enter. eapply (stays_changed dir_datasets d_workspace_id); [intros o; apply archive_dataset_apart|done|done].
  - found plan_found. enter. enter. apply stays_created. intros o. rewrite <- (version_draft_workspace _ _ _ H1). apply create_version_apart.
  - found version_found. enter. apply stays_control. intros Hd. apply publish_apart; [apply Hd|]. intros e He. rewrite Hfound in He. by injection He as <-.
  - found version_found. apply stays_then; [by apply fine_control, request_create_plan|apply stays_created; intros o; apply create_plan_apart|].
    intros _ s2. enter. apply stays_created. intros o. apply (create_version_apart o (clone_draft (meta_workspace_id m) _ _ _ _)).
Qed.
Lemma reading_stays m c s : WorkspaceWrite ∉ required c -> stays (meta_workspace_id m) (serve m c) s.
Proof.
  intros Hw Hs. assert ((exists w t, c = CreateWorkspace w t) \/ forall w t, c <> CreateWorkspace w t) as [(w & t & ->)|Hc] by (destruct c; eauto; by right).
  - revert Hs. cbn [Endpoints.serve]. apply answered_stays. unfold_call. repeat enter. destruct (meta_workspace_id m =? w)%N eqn:He; [|done].
    apply N.eqb_eq in He as <-. apply stays_created. intros o. apply create_workspace_apart.
  - by destruct (serve_reads mode max_rows_per_page hash_iter to_vec to_value m c (realm s) Hw) with s as [_ ->].
Qed.

(** C13: Workspaces do not touch each other: whatever call a served request makes,
    what it changes are rows of the workspace it names; every workspace, session,
    connection, asset, dataset, plan, version, member, role, assignment, service
    account and credential of another workspace, and the tables of jobs, are
    exactly as they were. *)
Theorem tenants_isolated s m c :
  served mode max_rows_per_page hash_iter to_vec to_value s ->
  outside (meta_workspace_id m) (realm (exec (serve m c) s).1) = outside (meta_workspace_id m) (realm s).
Proof.
  intros Hs%served_good. destruct (decide (WorkspaceWrite ∈ required c)); [by apply writing_stays|by apply reading_stays].
Qed.
End tenancy.
