(* ===== verification/Caching.v ===== *)
(** * A gate among other requests

    The theorems of [Gatekeeping] and [Tenancy] at work on a sample, and what
    they do not say: with requests interleaved the cache can keep what a
    revocation has taken away. *)

From S2P Require Import Prelude Text Secrets Logical Schema Expression Rule Plan Nodes Schedule Automation Hex Executions History Canonical Operations Jobs Submissions Outputs Lifecycle Reports Life Refines Reachable Frame Sample Control Autocommit Workspaces Scopes Interleavings Closing Identity Realms Credentials Authorization Endpoints Gatekeeping Tenancy.

(** ** Requests of a service, interleaved *)

Section pools.
Context `{JobCodec} `{StoreFiles}.
Context (mode : AuthorizationMode) (max_rows_per_page : N).
Context (hash_iter : gmap PlanNodeId N -> list (PlanNodeId * N)) (to_vec : LogicalPlan -> result string (list N))
  (to_value : LogicalPlan -> option json).
Definition ServiceRequest (p : Prog Service unit) : Prop :=
  exists m c, p = request_unit (serve mode max_rows_per_page hash_iter to_vec to_value m c).
(** From a database left behind by any requests, with an empty cache. *)
Definition service_reachable (c : Pool Service) : Prop :=
  exists d ps, reachable_realm (d, ps) /\ rtc (pool_step ServiceRequest) (mkService d ∅, []) c.
End pools.

(** ** On a sample *)

#[local] Open Scope N_scope.

(** A workspace with an administrator and a reader. *)
Definition staffed : list (Prog Realm unit) :=
  [lift (request_unit (Workspaces.create_workspace 1 0%Z)); request_unit (Identity.create_member 1 2 "admin" 0%Z);
   request_unit (Identity.create_member 1 3 "reader" 0%Z); request_unit (Identity.create_role 1 4 "admins" 0%Z);
   request_unit (Identity.set_role_capabilities 1 4 ["workspace:admin"]); request_unit (Identity.create_role 1 5 "readers" 0%Z);
   request_unit (Identity.set_role_capabilities 1 5 ["workspace:read"]); request_unit (Identity.assign_role 1 2 4);
   request_unit (Identity.assign_role 1 3 5)].
Ltac is_staff_request :=
  lazymatch goal with
  | |- RealmRequest (lift _) => refine (realm_on_store _ _); constructor
  | |- RealmRequest (request_unit (Identity.create_member _ _ _ _)) => exact (realm_create_member _ _ _ _)
  | |- RealmRequest (request_unit (Identity.create_role _ _ _ _)) => exact (realm_create_role _ _ _ _)
  | |- RealmRequest (request_unit (Identity.set_role_capabilities _ _ _)) => exact (realm_set_capabilities _ _ _)
  | |- RealmRequest (request_unit (Identity.assign_role _ _ _)) => exact (realm_assign_role _ _ _)
  end.
Lemma staffed_requests : Forall RealmRequest staffed.
Proof. repeat (apply Forall_cons; split; [is_staff_request|]). constructor. Qed.
Definition staffed_pool : list (Turn Realm) := schedule 0 staffed.
Definition staffed_realm : Realm := (realm_from_empty staffed_pool).1.
Lemma staffed_reachable : reachable_realm (staffed_realm, (realm_from_empty staffed_pool).2).
Proof. apply realm_from_empty_reachable, schedule_requested, staffed_requests. Qed.

Definition sample_serve : RequestMetadata -> Call -> Served unit :=
  serve Server 100 map_to_list (fun _ => Err "not serialised"%string) (fun _ => None).
Notation sample_served := (served Server 100 map_to_list (fun _ => Err "not serialised"%string) (fun _ => None)).
Definition meta_of (member : Uuid) : RequestMetadata := mkMetadata 1 9 1 None (Some (mkPrincipal RequestMember member)).
Definition service0 : Service := mkService staffed_realm ∅.
Lemma service0_served : sample_served service0.
Proof. exact (served_start _ _ _ _ _ _ _ staffed_reachable). Qed.
(** The reader has been let in, and is then revoked. *)
Definition service1 : Service := (exec (sample_serve (meta_of 3) (ReadWorkspace 1)) service0).1.
Definition service2 : Service := (exec (sample_serve (meta_of 2) (RevokeMember 3 5%Z)) service1).1.
Lemma service1_served : sample_served service1.
Proof. exact (served_call _ _ _ _ _ _ _ _ service0_served). Qed.
Lemma service2_served : sample_served service2.
Proof. exact (served_call _ _ _ _ _ _ _ _ service1_served). Qed.

Lemma gate_exact_witness :
  (exec (authorize Server 1 (Some (mkPrincipal RequestMember 3)) WorkspaceRead) service1).2 = Ok tt /\
  ~ admitted Server (realm service2) 1 (Some (mkPrincipal RequestMember 3)) WorkspaceRead.
Proof.
  split; [by vm_compute|]. intros Ha. apply (proj1 (gate_exact _ _ _ _ _ service2 1 _ WorkspaceRead service2_served)) in Ha. by vm_compute in Ha.
Defined.
Lemma complete_mediation_witness :
  Forall (admitted Server (realm service1) 1 (Some (mkPrincipal RequestMember 2))) [WorkspaceWrite; IdentityManage].
Proof.
  apply (complete_mediation Server 100 map_to_list (fun _ => Err "not serialised"%string) (fun _ => None) service1 (meta_of 2) (RevokeMember 3 5%Z) service1_served).
  left. by vm_compute.
Defined.
Lemma tenants_isolated_witness : outside 1 (realm service2) = outside 1 (realm service1).
Proof.
  exact (tenants_isolated Server 100 map_to_list (fun _ => Err "not serialised"%string) (fun _ => None) service1 (meta_of 2) (RevokeMember 3 5%Z) service1_served).
Defined.

(** ** The race *)

Definition read_by (member : Uuid) : Prog Service unit := request_unit (sample_serve (meta_of member) (ReadWorkspace 1)).
Definition revoke_reader : Prog Service unit := request_unit (sample_serve (meta_of 2) (RevokeMember 3 5%Z)).
(** The reader's capabilities are read; the reader is revoked and the cache
    forgets the workspace; then what was read is put into the cache. *)
Definition outrun : list (Turn Service) :=
  Arrive (read_by 3) :: replicate 7 (Next 0) ++ Arrive revoke_reader :: replicate 40 (Next 1) ++ replicate 2 (Next 0).
Definition outrun_pool : Pool Service := foldl play (service0, []) outrun.
Lemma outrun_reachable : service_reachable Server 100 map_to_list (fun _ => Err "not serialised"%string) (fun _ => None) outrun_pool.
Proof.
  exists staffed_realm, (realm_from_empty staffed_pool).2. split; [apply staffed_reachable|]. apply play_steps. unfold outrun.
  assert (forall i k, Forall (requested_by (ServiceRequest Server 100 map_to_list (fun _ => Err "not serialised"%string) (fun _ => None)))
            (replicate k (Next (DB:=Service) i))) as Hnext by (intros i k; by apply Forall_replicate).
  apply Forall_cons. split; [by exists (meta_of 3), (ReadWorkspace 1)|]. apply Forall_app. split; [apply Hnext|].
  apply Forall_cons. split; [by exists (meta_of 2), (RevokeMember 3 5%Z)|]. apply Forall_app. split; apply Hnext.
Qed.

(** A revocation does not always take effect at the gate: a request that has
    read what a member may do, but has not yet put it into the cache, is overtaken
    by the member's revocation; afterwards no request is under way, the member is
    revoked in the tables and would be refused by a gate with an empty cache, and
    is let in. *)
Theorem revoked_member_let_in :
  exists s ps, service_reachable Server 100 map_to_list (fun _ => Err "not serialised"%string) (fun _ => None) (s, ps) /\
    ps = [Done tt; Done tt] /\ m_state <$> sec_members (identities (realm s)) !! 3 = Some IdentityRevoked /\
    (exec (authorize Server 1 (Some (mkPrincipal RequestMember 3)) WorkspaceRead) (mkService (realm s) ∅)).2 = Err unauthorized /\
    (exec (authorize Server 1 (Some (mkPrincipal RequestMember 3)) WorkspaceRead) s).2 = Ok tt.
Proof.
  exists outrun_pool.1, outrun_pool.2. split_and!.
  - rewrite <- surjective_pairing. apply outrun_reachable.
  - by vm_compute.
  - by vm_compute.
  - by vm_compute.
  - by vm_compute.
Qed.
