(* ===== verification/GraphRevisions.v ===== *)
(** * Revisions of graphs: [stillflow-storage/src/graph_revisions.rs] and its
    requests in [stillflow-api/src/service.rs]

    The saved versions of a graph, numbered per workspace and graph.  A save,
    a link and a migration are each one transaction followed by a read of what
    was written.  The identity of a new revision and the time are inputs. *)

From S2P Require Import Prelude Text Secrets Logical Nodes Schedule Automation Hex Executions History Canonical Operations Jobs Submissions Outputs Lifecycle Reports Life Refines Reachable Autocommit Workspaces Identity Authorization Endpoints.
From stdpp Require Import pretty.

(** ** The table *)

Record RevisionRow := mkRevision {
  gr_workspace_id : Uuid;
  gr_graph_id : Uuid;
  gr_revision_number : N;
  gr_parent_revision_id : option Uuid;
  gr_format_version : N;
  gr_graph_json : string;
  gr_graph_digest : string;
  gr_source_binding_json : option string;
  gr_package_digests_json : option string;
  gr_compiler_version : option string;
  gr_plan_version_id : option Uuid;
  gr_migration_json : option string;
  gr_created_at : DateTime;
  gr_created_by : string;
}.
(** The database with this table. *)
Record Drafts := mkDrafts { drafts_realm : Realm; cp_graph_revisions : gmap Uuid RevisionRow }.
Notation Drafted := (Auto Drafts StorageError).
Definition on_realm {A} : Prog Realm A -> Prog Drafts A := focus drafts_realm (fun r d => mkDrafts r (cp_graph_revisions d)).

(** ** Records *)

(** The row with its documents decoded; what does not decode is absent. *)
Record GraphRevisionRecord := mkGraphRevisionRecord {
  rv_id : Uuid;
  rv_row : RevisionRow;
  rv_format_version : N;
  rv_source_binding : option json;
  rv_package_digests : option json;
  rv_migration : option json;
}.
Record ExpectedRevision := mkExpectedRevision { expected_number : N; expected_digest : option string }.
Record RevisionDraft := mkRevisionDraft {
  rd_format_version : N;
  rd_graph_json : string;
  rd_graph_digest : string;
  rd_source_binding : option json;
  rd_package_digests : option json;
  rd_compiler_version : option string;
  rd_created_by : string;
}.
Inductive GraphRevisionSave := Saved (r : GraphRevisionRecord) | Current (r : GraphRevisionRecord).

Section revisions.
Context `{JobCodec}.

(** [u16::try_from(..).unwrap_or_default()] *)
Definition u16_or_zero (n : N) : N := if (n <? 65536)%N then n else 0.
Definition decode_row (e : Uuid * RevisionRow) : GraphRevisionRecord :=
  let row := e.2 in
  mkGraphRevisionRecord e.1 row (u16_or_zero (gr_format_version row)) (gr_source_binding_json row ≫= json_parse)
    (gr_package_digests_json row ≫= json_parse) (gr_migration_json row ≫= json_parse).

(** ** Reading *)

Definition of_graph (workspace graph : Uuid) (e : Uuid * RevisionRow) : Prop := gr_workspace_id e.2 = workspace /\ gr_graph_id e.2 = graph.
#[global] Instance of_graph_dec workspace graph e : Decision (of_graph workspace graph e).
Proof. unfold of_graph. apply _. Defined.
(** [ORDER BY revision_number DESC] *)
Definition newest_first (x y : Uuid * RevisionRow) : Prop := (gr_revision_number y.2 <= gr_revision_number x.2)%N.
#[global] Instance newest_first_dec : RelDecision newest_first.
Proof. intros x y. unfold newest_first. apply _. Defined.
Definition revisions_of (rows : gmap Uuid RevisionRow) (workspace graph : Uuid) : list (Uuid * RevisionRow) :=
  merge_sort newest_first (filter (of_graph workspace graph) (map_to_list rows)).
Definition fetch_full (workspace graph : Uuid) (number : option N) (d : Drafts) : Stored (option GraphRevisionRecord) :=
  try! match number with Some n => if (i64_max <? n)%N then Err (ArithmeticOverflow "revision number") else Ok tt | None => Ok tt end;
  Ok (decode_row <$> head (filter (fun e => number = None \/ number = Some (gr_revision_number e.2))
                             (revisions_of (cp_graph_revisions d) workspace graph))).
Definition get_revision (workspace graph : Uuid) (number : option N) : Drafted (option GraphRevisionRecord) :=
  query (fetch_full workspace graph number).
Definition history (workspace graph : Uuid) (limit : N) : Drafted (list GraphRevisionRecord) :=
  query (fun d => if (i64_max <? limit)%N then Err (ArithmeticOverflow "revision history limit") else
                  Ok (decode_row <$> take (N.to_nat limit) (revisions_of (cp_graph_revisions d) workspace graph))).

(** ** Writing *)

(** The number of characters of a text: continuation bytes do not count. *)
Definition char_count (t : string) : N := len (filter (fun b => negb ((128 <=? b) && (b <? 192)))%N (bytes_of t)).
(** The table's checks, its key and its references. *)
Definition revision_fits (id : Uuid) (row : RevisionRow) (d : Drafts) : bool :=
  negb (has (cp_graph_revisions d) id) && workspace_exists (drafts_realm d) (gr_workspace_id row)
  && (0 <? gr_revision_number row)%N && (0 <? gr_format_version row)%N && (char_count (gr_graph_digest row) =? 64)%N
  && match gr_parent_revision_id row with Some parent => has (cp_graph_revisions d) parent | None => true end
  && forallb (fun e => negb (gr_revision_number e.2 =? gr_revision_number row)%N)
       (revisions_of (cp_graph_revisions d) (gr_workspace_id row) (gr_graph_id row)).
Definition insert_revision (id : Uuid) (row : RevisionRow) (d : Drafts) : Stored Drafts :=
  if revision_fits id row d then Ok (mkDrafts (drafts_realm d) (<[id := row]> (cp_graph_revisions d))) else Err (AlreadyExists id).
Definition encode_document (document : option json) (what : string) : Stored (option string) :=
  match document with
  | Some value => Some <$> ok_or (json_print value) (Database what)
  | None => Ok None
  end.
Definition number_after (current : option GraphRevisionRecord) : N :=
  match current with Some c => gr_revision_number (rv_row c) + 1 | None => 1 end.
(** A new revision after the current one. *)
Definition append_revision (id : Uuid) (now : DateTime) (workspace graph : Uuid) (current : option GraphRevisionRecord)
  (draft : RevisionDraft) (migration : option json) (d : Drafts) : Stored (Drafts * N) :=
  let number := number_after current in
  if (i64_max <? number)%N then Err (ArithmeticOverflow "revision number") else
  source_binding ← encode_document (rd_source_binding draft) "encode source binding";
  package_digests ← encode_document (rd_package_digests draft) "encode package digests";
  migration ← encode_document migration "encode migration";
  d ← insert_revision id
        (mkRevision workspace graph number (rv_id <$> current) (rd_format_version draft) (rd_graph_json draft) (rd_graph_digest draft)
           source_binding package_digests (rd_compiler_version draft) None migration now (rd_created_by draft)) d;
  Ok (d, number).

Definition conflict (graph : Uuid) : StorageError := AlreadyExists graph.
Definition same_content (c : GraphRevisionRecord) (draft : RevisionDraft) : bool :=
  bool_decide (gr_graph_digest (rv_row c) = rd_graph_digest draft) && (rv_format_version c =? rd_format_version draft)%N.
Definition meets (graph : Uuid) (current : option GraphRevisionRecord) (expected : option ExpectedRevision) : Stored unit :=
  match expected with
  | None => Ok tt
  | Some expected =>
      match current with
      | None => Err (AlreadyExists graph)
      | Some c =>
          if (gr_revision_number (rv_row c) =? expected_number expected)%N
          then match expected_digest expected with
               | Some digest => if bool_decide (gr_graph_digest (rv_row c) = digest) then Ok tt else Err (conflict graph)
               | None => Ok tt
               end
          else Err (conflict graph)
      end
  end.
Inductive Saving := Unchanged (c : GraphRevisionRecord) | Appended (number : N).
Definition save_tx (id : Uuid) (now : DateTime) (workspace graph : Uuid) (expected : option ExpectedRevision) (draft : RevisionDraft)
  (d : Drafts) : Stored (Drafts * Saving) :=
  current ← fetch_full workspace graph None d;
  match current with
  | Some c =>
      if same_content c draft then Ok (d, Unchanged c) else
      try! meets graph current expected;
      appended ← append_revision id now workspace graph current draft None d;
      Ok (appended.1, Appended appended.2)
  | None =>
      try! meets graph None expected;
      appended ← append_revision id now workspace graph None draft None d;
      Ok (appended.1, Appended appended.2)
  end.
Definition read_back (workspace graph : Uuid) (number : N) (what : string) : Drafted GraphRevisionRecord :=
  found ← get_revision workspace graph (Some number);
  check (ok_or found (Database what)).
Definition save (id : Uuid) (now : DateTime) (workspace graph : Uuid) (expected : option ExpectedRevision) (draft : RevisionDraft)
  : Drafted GraphRevisionSave :=
  outcome ← write (save_tx id now workspace graph expected draft);
  match outcome with
  | Unchanged c => mret (Current c)
  | Appended number => record ← read_back workspace graph number "read back graph revision"; mret (Saved record)
  end.

Definition set_plan_version (plan_version : Uuid) (r : RevisionRow) : RevisionRow :=
  mkRevision (gr_workspace_id r) (gr_graph_id r) (gr_revision_number r) (gr_parent_revision_id r) (gr_format_version r) (gr_graph_json r)
    (gr_graph_digest r) (gr_source_binding_json r) (gr_package_digests_json r) (gr_compiler_version r) (Some plan_version) (gr_migration_json r)
    (gr_created_at r) (gr_created_by r).
(** [WHERE workspace_id = ? AND graph_id = ? AND revision_number = ?] *)
Definition link_tx (workspace graph plan_version : Uuid) (d : Drafts) : Stored (Drafts * N) :=
  current ← fetch_full workspace graph None d;
  c ← ok_or current IdentityNotFound;
  let number := gr_revision_number (rv_row c) in
  if (i64_max <? number)%N then Err (ArithmeticOverflow "revision number") else
  let linked r := if bool_decide (gr_workspace_id r = workspace /\ gr_graph_id r = graph /\ gr_revision_number r = number)
                  then set_plan_version plan_version r else r in
  Ok (mkDrafts (drafts_realm d) (linked <$> cp_graph_revisions d), number).
Definition link_plan_version (workspace graph plan_version : Uuid) : Drafted GraphRevisionRecord :=
  number ← write (link_tx workspace graph plan_version);
  read_back workspace graph number "read back linked revision".

Definition migrated_draft (parent : GraphRevisionRecord) (to_format_version : N) (graph_json digest : string) : RevisionDraft :=
  mkRevisionDraft to_format_version graph_json digest (rv_source_binding parent) (rv_package_digests parent)
    (gr_compiler_version (rv_row parent)) (gr_created_by (rv_row parent)).
Definition migrate_tx (id : Uuid) (now : DateTime) (parent : GraphRevisionRecord) (to_format_version : N) (graph_json digest : string)
  (migration : json) (d : Drafts) : Stored (Drafts * N) :=
  let '(workspace, graph) := (gr_workspace_id (rv_row parent), gr_graph_id (rv_row parent)) in
  current ← fetch_full workspace graph None d;
  if negb (bool_decide (rv_id <$> current = Some (rv_id parent))) then Err (AlreadyExists graph) else
  append_revision id now workspace graph current (migrated_draft parent to_format_version graph_json digest) (Some migration) d.
Definition append_migrated (id : Uuid) (now : DateTime) (parent : GraphRevisionRecord) (to_format_version : N) (graph_json digest : string)
  (migration : json) : Drafted GraphRevisionRecord :=
  number ← write (migrate_tx id now parent to_format_version graph_json digest migration);
  read_back (gr_workspace_id (rv_row parent)) (gr_graph_id (rv_row parent)) number "read back migrated revision".
End revisions.

(** ** Requests *)

(** The database and the gate's cache. *)
Record Workshop := mkWorkshop { drafts : Drafts; workshop_cache : gmap PrincipalKey (gset string) }.
Notation Crafted := (Auto Workshop ApiError).
Definition gate_of (w : Workshop) : Service := mkService (drafts_realm (drafts w)) (workshop_cache w).
Definition at_gate {A} : Prog Service A -> Prog Workshop A :=
  focus gate_of (fun s w => mkWorkshop (mkDrafts (realm s) (cp_graph_revisions (drafts w))) (cache s)).
Definition on_drafts {A} : Prog Drafts A -> Prog Workshop A := focus drafts (fun d w => mkWorkshop d (workshop_cache w)).
Definition kept {A} (p : Drafted A) : Crafted A := prog_bind (fun r => Done (map_err from_storage r)) (on_drafts p).

Definition NODE_GRAPH_COMPILER_VERSION : string := "ng-nodegraph-compiler-v1".

Section requests.
Context `{JobCodec} (mode : AuthorizationMode).
(** Graphs, serde on them, and the checked decoding of a document. *)
Context {G : Type} (graph_to_value : G -> option json) (graph_from_value : json -> option G) (from_json_bytes : list N -> bool).

Record GraphRevisionView := mkRevisionView { view_record : GraphRevisionRecord; view_graph : G; view_idempotent : option bool }.
Record GraphRevisionMigrationView := mkMigrationView {
  mv_revision_number : N;
  mv_from_format_version : N;
  mv_to_format_version : N;
  mv_dry_run : bool;
  mv_migrated_digest : string;
  mv_revision : option GraphRevisionView;
}.
Definition revision_created_by (meta : RequestMetadata) : string :=
  match principal meta with
  | Some p => match principal_kind p with
              | RequestMember => "member:" ++ uuid_text (principal_id p)
              | RequestServiceAccount => "service-account:" ++ uuid_text (principal_id p)
              end
  | None => "anonymous"
  end.
Definition canonical_graph_json (graph : G) : ApiResult string :=
  value ← ok_or (graph_to_value graph) api_internal;
  ok_or (json_print value) api_internal.
Definition revision_view (record : GraphRevisionRecord) (idempotent : option bool) : ApiResult GraphRevisionView :=
  value ← ok_or (json_parse (gr_graph_json (rv_row record))) api_internal;
  graph ← ok_or (graph_from_value value) api_internal;
  Ok (mkRevisionView record graph idempotent).
(** What is checked before anything is written. *)
Definition revision_draft (meta : RequestMetadata) (graph : G) (format_version : N) : ApiResult RevisionDraft :=
  if negb (format_version =? 0)%N && negb (format_version =? 1)%N
  then Err (api_invalid "graph revision format is not supported by this service") else
  let format_version := if (format_version =? 0)%N then 1%N else format_version in
  encoded ← canonical_graph_json graph;
  if negb (from_json_bytes (bytes_of encoded)) then Err (api_invalid "graph revision content failed validation") else
  graph_json ← canonical_graph_json graph;
  Ok (mkRevisionDraft format_version graph_json (digest_hex (sha256 (bytes_of graph_json))) None None (Some NODE_GRAPH_COMPILER_VERSION)
        (revision_created_by meta)).
(** The error that names the current revision; its diagnostic repeats the
    digest and is left out. *)
Definition revision_conflict (current : option GraphRevisionRecord) : ApiError :=
  api_conflict match current with
               | Some r => "graph revision conflict: current revision " ++ pretty (gr_revision_number (rv_row r)) ++ " (digest "
                           ++ gr_graph_digest (rv_row r) ++ ")"
               | None => "graph revision conflict"
               end.
Definition answer_conflict {A} (workspace graph_id : Uuid) : Crafted A :=
  prog_bind (fun r => Done (Err (revision_conflict match r with Ok current => current | Err _ => None end)))
    (on_drafts (get_revision workspace graph_id None)).
Definition save_graph_revision (id : Uuid) (now : DateTime) (meta : RequestMetadata) (graph_id : Uuid) (graph : G)
  (expected : option ExpectedRevision) (format_version : N) : Crafted (ApiResponse GraphRevisionView) :=
  try! at_gate (validate_meta mode meta true);
  draft ← check (revision_draft meta graph format_version);
  prog_bind (fun outcome => match outcome with
                            | Ok (Saved record) => check (respond meta <$> revision_view record None)
                            | Ok (Current record) => check (respond meta <$> revision_view record (Some true))
                            | Err (AlreadyExists _) => answer_conflict (meta_workspace_id meta) graph_id
                            | Err e => Done (Err (from_storage e))
                            end)
    (on_drafts (save id now (meta_workspace_id meta) graph_id expected draft)).
Definition get_graph_revision (meta : RequestMetadata) (graph_id : Uuid) (revision : option N) : Crafted (ApiResponse GraphRevisionView) :=
  try! at_gate (validate_meta mode meta false);
  found ← kept (get_revision (meta_workspace_id meta) graph_id revision);
  record ← check (ok_or found api_not_found);
  check (respond meta <$> revision_view record None).
(** The summaries are the records without their graphs. *)
Definition list_graph_revisions (meta : RequestMetadata) (graph_id : Uuid) (limit : option N) : Crafted (ApiResponse (list GraphRevisionRecord)) :=
  try! at_gate (validate_meta mode meta false);
  records ← kept (history (meta_workspace_id meta) graph_id (N.min (default 20%N limit) 100));
  mret (respond meta records).
Definition KNOWN_FORMATS : list N := [1%N].
Definition migration_note (from to : N) : json :=
  JObject [("fromFormat", JNumber (PosInt from)); ("migrationId", JString "identity-v1"); ("toFormat", JNumber (PosInt to))].
Definition migrate_graph_revision (id : Uuid) (now : DateTime) (meta : RequestMetadata) (graph_id : Uuid) (revision : option N)
  (to_format_version : N) (dry_run : bool) : Crafted (ApiResponse GraphRevisionMigrationView) :=
  try! at_gate (validate_meta mode meta false);
  try! check (if bool_decide (to_format_version ∈ KNOWN_FORMATS) then Ok tt else
              if (1 <? to_format_version)%N then Err (api_invalid "graph revision format is newer than this service")
              else Err (api_invalid "graph revision downgrade is not supported"));
  found ← kept (get_revision (meta_workspace_id meta) graph_id revision);
  record ← check (ok_or found api_not_found);
  try! check (if (to_format_version <? rv_format_version record)%N then Err (api_invalid "graph revision downgrade is not supported") else Ok tt);
  let view := mkMigrationView (gr_revision_number (rv_row record)) (rv_format_version record) to_format_version dry_run
                (gr_graph_digest (rv_row record)) in
  if dry_run || (to_format_version <=? rv_format_version record)%N then mret (respond meta (view None)) else
  migrated ← kept (append_migrated id now record to_format_version (gr_graph_json (rv_row record)) (gr_graph_digest (rv_row record))
                     (migration_note (rv_format_version record) to_format_version));
  check ((fun v => respond meta (view (Some v))) <$> revision_view migrated None).
End requests.
