(* ===== verification/Revisions.v ===== *)
(** * Saved graphs are append-only logs

    Whatever saves, links and migrations are interleaved, the revisions of a
    graph are numbered from one without gaps, each with the one before it as
    its parent; a save refines the append to a log guarded by the reader's
    expectation. *)

From S2P Require Import Prelude Text Secrets Logical Nodes Schedule Automation Hex Executions History Canonical Operations Jobs Submissions Outputs Lifecycle Reports Life Refines Reachable Frame Sample Control Autocommit Workspaces Scopes Interleavings Closing Identity Realms Credentials Authorization Endpoints GraphRevisions.

(** ** The order of revisions *)

#[local] Instance newest_first_trans : Transitive newest_first.
Proof. intros x y z. unfold newest_first. lia. Qed.
#[local] Instance newest_first_total : Total newest_first.
Proof. intros x y. unfold newest_first. lia. Qed.

Record RevisionsOk (rows : gmap Uuid RevisionRow) : Prop := {
  revision_unique id id' r r' : rows !! id = Some r -> rows !! id' = Some r' -> gr_workspace_id r' = gr_workspace_id r ->
    gr_graph_id r' = gr_graph_id r -> gr_revision_number r' = gr_revision_number r -> id' = id;
  revision_chained id r : rows !! id = Some r ->
    gr_revision_number r = 1%N /\ gr_parent_revision_id r = None \/
    exists pid p, gr_parent_revision_id r = Some pid /\ rows !! pid = Some p /\ gr_workspace_id p = gr_workspace_id r /\
      gr_graph_id p = gr_graph_id r /\ gr_revision_number r = (gr_revision_number p + 1)%N;
  revision_checked id r : rows !! id = Some r -> (1 <= gr_revision_number r <= i64_max)%N /\ (0 < gr_format_version r < 65536)%N;
}.
(** All of a revision but the link to what was made of it. *)
Definition content (r : RevisionRow) :=
  (gr_workspace_id r, gr_graph_id r, gr_revision_number r, gr_parent_revision_id r, gr_format_version r, gr_graph_json r, gr_graph_digest r,
   gr_source_binding_json r, gr_package_digests_json r, gr_compiler_version r, gr_migration_json r, gr_created_at r, gr_created_by r).
Definition rows_le (rows rows' : gmap Uuid RevisionRow) : Prop := content <$> rows ⊆ content <$> rows'.

Lemma elem_of_revisions rows ws g e : e ∈ revisions_of rows ws g <-> of_graph ws g e /\ rows !! e.1 = Some e.2.
Proof. unfold revisions_of. rewrite (merge_sort_Permutation newest_first), list_elem_of_filter. destruct e. by rewrite elem_of_map_to_list. Qed.
Lemma revisions_sorted rows ws g : StronglySorted newest_first (revisions_of rows ws g).
Proof. apply (StronglySorted_merge_sort newest_first). Qed.
(** Two numbers, two revisions. *)
Lemma revisions_distinct rows ws g x y :
  RevisionsOk rows -> x ∈ revisions_of rows ws g -> y ∈ revisions_of rows ws g -> gr_revision_number y.2 = gr_revision_number x.2 -> x = y.
Proof.
  intros Hok [[Hxw Hxg] Hx]%elem_of_revisions [[Hyw Hyg] Hy]%elem_of_revisions Hn. destruct x as [i r], y as [j r']. cbn in *.
  assert (j = i) as -> by (eapply (revision_unique _ Hok i j r r'); congruence). congruence.
Qed.
Lemma newest_of (l : list (Uuid * RevisionRow)) x y :
  StronglySorted newest_first l -> head l = Some x -> y ∈ l -> (gr_revision_number y.2 <= gr_revision_number x.2)%N.
Proof.
  intros Hs Hh Hy. destruct l as [|z l]; [done|]. injection Hh as ->. inversion Hs as [|? ? _ Hall]; subst.
  apply elem_of_cons in Hy as [->|Hy]; [done|]. rewrite Forall_forall in Hall. by apply Hall.
Qed.

(** ** What is current *)

Section current.
Context `{JobCodec}.
(** The current revision is the newest. *)
Definition is_current (rows : gmap Uuid RevisionRow) (ws g : Uuid) (current : option GraphRevisionRecord) : Prop :=
  current = decode_row <$> head (revisions_of rows ws g).
Lemma filter_all {A} (l : list A) : filter (fun _ => True) l = l.
Proof. induction l as [|a l IH]; [done|]. by rewrite filter_cons_True, IH. Qed.
Lemma fetch_current ws g d current : fetch_full ws g None d = Ok current -> is_current (cp_graph_revisions d) ws g current.
Proof.
  unfold fetch_full. cbn. intros [= <-]. unfold is_current. do 2 f_equal. transitivity (filter (fun _ : Uuid * RevisionRow => True) (revisions_of (cp_graph_revisions d) ws g));
    [|apply filter_all]. apply list_filter_iff. intros e. split; [done|by left].
Qed.
Lemma current_found rows ws g c :
  is_current rows ws g (Some c) -> rows !! rv_id c = Some (rv_row c) /\ gr_workspace_id (rv_row c) = ws /\ gr_graph_id (rv_row c) = g /\
    rv_format_version c = u16_or_zero (gr_format_version (rv_row c)) /\
    forall id r, rows !! id = Some r -> gr_workspace_id r = ws -> gr_graph_id r = g -> (gr_revision_number r <= gr_revision_number (rv_row c))%N.
Proof.
  unfold is_current. destruct (head (revisions_of rows ws g)) as [e|] eqn:Hh; [|done]. intros [= ->].
  assert (e ∈ revisions_of rows ws g) as He by by apply head_Some_elem_of. apply elem_of_revisions in He as [[Hw Hg] Hl]. split_and!; try done.
  intros id r Hr Hrw Hrg. apply (newest_of _ e (id, r) (revisions_sorted rows ws g) Hh). by apply elem_of_revisions.
Qed.
Lemma current_none rows ws g id r : is_current rows ws g None -> rows !! id = Some r -> gr_workspace_id r = ws -> gr_graph_id r <> g.
Proof.
  unfold is_current. destruct (revisions_of rows ws g) as [|e l] eqn:Hl; [|done]. intros _ Hr Hw Hg.
  assert ((id, r) ∈ revisions_of rows ws g) as Hin by by apply elem_of_revisions. rewrite Hl in Hin. by apply not_elem_of_nil in Hin.
Qed.

(** ** A new revision *)

Lemma append_Ok id now ws g current draft mig d d' n :
  append_revision id now ws g current draft mig d = Ok (d', n) ->
  n = number_after current /\ (n <= i64_max)%N /\ cp_graph_revisions d !! id = None /\ (0 < rd_format_version draft)%N /\
  exists row, d' = mkDrafts (drafts_realm d) (<[id := row]> (cp_graph_revisions d)) /\
    gr_workspace_id row = ws /\ gr_graph_id row = g /\ gr_revision_number row = n /\ gr_parent_revision_id row = rv_id <$> current /\
    gr_format_version row = rd_format_version draft /\ gr_graph_json row = rd_graph_json draft /\ gr_graph_digest row = rd_graph_digest draft.
Proof.
  unfold append_revision, insert_revision, revision_fits. cbv zeta. intros Ha. inv_ok Ha. injection Ha as <- <-.
  destruct (_ && _) eqn:Hfits in Hx2; [|done]. injection Hx2 as <-. rewrite !andb_true_iff in Hfits. cbn in Hfits.
  destruct Hfits as [[[[[[Hn _] _] Hf] _] _] _]. apply N.ltb_ge in Hb. apply N.ltb_lt in Hf. split_and!; [done|done| |done|by eexists].
  apply negb_true_iff in Hn. apply eq_None_not_Some. intros Hs. apply has_Some in Hs. congruence.
Qed.
Lemma append_ok ws g current rows id row :
  RevisionsOk rows -> is_current rows ws g current -> rows !! id = None -> gr_workspace_id row = ws -> gr_graph_id row = g ->
  gr_revision_number row = number_after current -> gr_parent_revision_id row = rv_id <$> current -> (gr_revision_number row <= i64_max)%N ->
  (0 < gr_format_version row < 65536)%N -> RevisionsOk (<[id := row]> rows).
Proof.
  intros Hok Hcur Hn Hw Hg Hnum Hpar Hmax Hfmt.
  assert (forall i r, rows !! i = Some r -> gr_workspace_id r = ws -> gr_graph_id r = g -> (gr_revision_number r < gr_revision_number row)%N) as Hlt.
  { intros i r Hr Hrw Hrg. rewrite Hnum. destruct current as [c|]; [|by destruct (current_none _ _ _ _ _ Hcur Hr Hrw)].
    destruct (current_found _ _ _ _ Hcur) as (_ & _ & _ & _ & Hmost). cbn. specialize (Hmost _ _ Hr Hrw Hrg). lia. }
  constructor.
  - intros i j r r' Hr Hr' Hww Hgg Hnn. grown; [done| | |by eapply (revision_unique _ Hok i j)].
    + exfalso. pose proof (Hlt i r ltac:(done) (eq_sym Hww) (eq_sym Hgg)). lia.
    + exfalso. pose proof (Hlt j r' ltac:(done) Hww Hgg). lia.
  - intros i r Hr. grown.
    + rewrite Hnum, Hpar. destruct current as [c|]; cbn; [right|by left]. destruct (current_found _ _ _ _ Hcur) as (Hl & Hcw & Hcg & _ & _).
      exists (rv_id c), (rv_row c). split_and!; [done| |congruence|congruence|done]. rewrite lookup_insert_ne; [done|]. intros ->. congruence.
    + destruct (revision_chained _ Hok i r ltac:(done)) as [?|(pid & p & Hp & Hl & ? & ? & ?)]; [by left|right]. exists pid, p. split_and!; try done.
      rewrite lookup_insert_ne; [done|]. intros ->. congruence.
  - intros i r Hr. grown; [|by eapply revision_checked]. rewrite Hnum in *. split; [|done]. split; [|done]. destruct current; cbn; lia.
Qed.
Lemma rows_le_insert rows id row : rows !! id = None -> rows_le rows (<[id := row]> rows).
Proof. intros Hn. unfold rows_le. rewrite fmap_insert. apply fresh_subseteq. by apply fmap_none. Qed.
(** A link changes nothing else. *)
Lemma link_ok (f : RevisionRow -> RevisionRow) rows : (forall r, content (f r) = content r) -> RevisionsOk rows -> RevisionsOk (f <$> rows) /\ rows_le rows (f <$> rows).
Proof.
  intros Hf Hok.
  assert (forall r, gr_workspace_id (f r) = gr_workspace_id r /\ gr_graph_id (f r) = gr_graph_id r /\ gr_revision_number (f r) = gr_revision_number r /\
    gr_parent_revision_id (f r) = gr_parent_revision_id r /\ gr_format_version (f r) = gr_format_version r) as Hcols.
  { intros r. pose proof (Hf r) as Hr. unfold content in Hr. by injection Hr. }
  split.
  - constructor.
    + intros i j r r' Hr Hr'. apply lookup_fmap_Some in Hr as (a & <- & Ha), Hr' as (b & <- & Hb).
      destruct (Hcols a) as (-> & -> & -> & _ & _), (Hcols b) as (-> & -> & -> & _ & _). by apply (revision_unique _ Hok i j).
    + intros i r Hr. apply lookup_fmap_Some in Hr as (a & <- & Ha). destruct (Hcols a) as (-> & -> & -> & -> & _).
      destruct (revision_chained _ Hok _ _ Ha) as [?|(pid & p & Hp & Hl & Hpw & Hpg & Hpn)]; [by left|right]. exists pid, (f p).
      destruct (Hcols p) as (-> & -> & -> & _ & _). rewrite lookup_fmap, Hl. done.
    + intros i r Hr. apply lookup_fmap_Some in Hr as (a & <- & Ha). destruct (Hcols a) as (_ & _ & -> & _ & ->). by eapply revision_checked.
  - unfold rows_le. rewrite <- map_fmap_compose. erewrite (map_fmap_ext (content ∘ f)); [reflexivity|]. intros i r _. apply Hf.
Qed.
End current.

(** ** Among other requests *)

Section drafts.
Context `{JobCodec} `{StoreFiles}.
#[local] Existing Instance RealmGrow_preorder.

Record DraftsInv (d : Drafts) : Prop := { drafts_inv : RealmInv (drafts_realm d); drafts_ok : RevisionsOk (cp_graph_revisions d) }.
Record DraftsGrow (d d' : Drafts) : Prop := {
  drafts_grow : RealmGrow (drafts_realm d) (drafts_realm d'); rows_grow : rows_le (cp_graph_revisions d) (cp_graph_revisions d') }.
#[local] Instance DraftsGrow_preorder : PreOrder DraftsGrow.
Proof. split; [intros d; constructor; [reflexivity|unfold rows_le; reflexivity]|]. intros d1 d2 d3 [] []. constructor; [by etrans|]. unfold rows_le in *. by etrans. Qed.

Lemma saved_ok id now ws g expected draft d d' out :
  (rd_format_version draft < 65536)%N -> DraftsInv d -> save_tx id now ws g expected draft d = Ok (d', out) -> DraftsGrow d d' /\ DraftsInv d'.
Proof.
  intros Hf [Hi Hok] Hs. unfold save_tx in Hs. apply bind_Ok in Hs as (current & Hcur%fetch_current & Hs).
  assert (forall e, append_revision id now ws g current draft None d = Ok e -> DraftsGrow d e.1 /\ DraftsInv e.1) as Happ.
  { intros [d1 n] (-> & Hmax & Hn & Hpos & row & -> & Hw & Hg & Hnum & Hpar & Hfmt & _ & _)%append_Ok. split.
    - constructor; [reflexivity|]. by apply rows_le_insert.
    - constructor; [done|]. apply (append_ok ws g current); try done; [by rewrite Hnum|]. rewrite Hfmt. lia. }
  destruct current as [c|].
  - destruct (same_content c draft); [injection Hs as <- _; by split; [|constructor]|]. inv_ok Hs. injection Hs as <- _. by apply Happ.
  - inv_ok Hs. injection Hs as <- _. by apply Happ.
Qed.
Lemma migrated_ok id now parent fmt text digest mig d d' n :
  (fmt < 65536)%N -> DraftsInv d -> migrate_tx id now parent fmt text digest mig d = Ok (d', n) -> DraftsGrow d d' /\ DraftsInv d'.
Proof.
  intros Hf [Hi Hok] Hs. unfold migrate_tx in Hs. apply bind_Ok in Hs as (current & Hcur%fetch_current & Hs). inv_ok Hs.
  apply append_Ok in Hs as (-> & Hmax & Hn & Hpos & row & -> & Hw & Hg & Hnum & Hpar & Hfmt & _ & _). split.
  - constructor; [reflexivity|]. by apply rows_le_insert.
  - constructor; [done|]. eapply append_ok; try done; [by rewrite Hnum|]. rewrite Hfmt. cbn in *. lia.
Qed.
Lemma linked_ok ws g v d d' n : DraftsInv d -> link_tx ws g v d = Ok (d', n) -> DraftsGrow d d' /\ DraftsInv d'.
Proof.
  intros [Hi Hok] Hl. unfold link_tx in Hl. cbv zeta in Hl. inv_ok Hl. injection Hl as <- _.
  edestruct (link_ok (fun r => if bool_decide (gr_workspace_id r = ws /\ gr_graph_id r = g /\ gr_revision_number r = gr_revision_number (rv_row x0))
                              then set_plan_version v r else r) (cp_graph_revisions d)) as [Hok2 Hle];
    [intros r; by case_bool_decide|done|]. split; by constructor.
Qed.

Inductive DraftRequest : Prog Drafts unit -> Prop :=
| draft_realm p : RealmRequest p -> DraftRequest (on_realm p)
| draft_read {A} (f : Drafts -> Stored A) : DraftRequest (request_unit (query f))
| draft_save id now ws g expected draft : (rd_format_version draft < 65536)%N -> DraftRequest (request_unit (save id now ws g expected draft))
| draft_link ws g v : DraftRequest (request_unit (link_plan_version ws g v))
| draft_migrate id now parent fmt text digest mig :
    (fmt < 65536)%N -> DraftRequest (request_unit (append_migrated id now parent fmt text digest mig)).
Notation guarded := (safe DraftsInv DraftsGrow (succeeds anything)).
Lemma read_back_safe d ws g n what : DraftsInv d -> guarded d (read_back ws g n what).
Proof.
  intros Hi. eapply (safe_then _ _ anything); [by apply (safe_query _ _ anything)|done|]. intros d' found Hg Hi' _. by apply (safe_check _ _ anything).
Qed.
Lemma written_safe {A B} d (f : Drafts -> Stored (Drafts * A)) (k : A -> Drafted B) :
  DraftsInv d -> (forall d1 d2 a, DraftsInv d1 -> f d1 = Ok (d2, a) -> DraftsGrow d1 d2 /\ DraftsInv d2) ->
  (forall d' a, DraftsInv d' -> guarded d' (k a)) -> guarded d (write f ≫= k).
Proof.
  intros Hi Hf Hk. eapply (safe_then _ _ anything); [|done|]; [apply (safe_write _ _ anything); [done|]|].
  - intros a d1 d2 _ Hi1 Hw. by destruct (Hf _ _ _ Hi1 Hw).
  - intros d' a _ Hi' _. by apply Hk.
Qed.
Lemma draft_request_safe p d : DraftRequest p -> DraftsInv d -> safe DraftsInv DraftsGrow anything d p.
Proof.
  intros Hp Hi. destruct Hp as [p Hp|A f|id now ws g expected draft Hf|ws g v|id now parent fmt text digest mig Hf].
  - apply (safe_focus _ _ RealmInv RealmGrow); [by intros ? []|by intros ? ? []| |by apply realm_request_safe; [|apply Hi]].
    intros [r rows] r' [Hr Hok] Hg Hr'. cbn in *. split_and!; [constructor; [done|unfold rows_le; reflexivity]|by constructor|done].
  - eapply safe_request; [apply _|done|]. by apply (safe_query _ _ anything).
  - eapply safe_request; [apply _|done|]. apply written_safe; [done|intros d1 d2 a Hi1 Hw; by eapply saved_ok|]. intros d' [c|n] Hi'.
    + by apply (safe_ret _ _ anything).
    + eapply (safe_then _ _ anything); [by apply read_back_safe|done|]. intros d2 r Hg Hi2 _. by apply (safe_ret _ _ anything).
  - eapply safe_request; [apply _|done|]. apply written_safe; [done|intros d1 d2 a Hi1 Hw; by eapply linked_ok|]. intros d' n Hi'. by apply read_back_safe.
  - eapply safe_request; [apply _|done|]. apply written_safe; [done|intros d1 d2 a Hi1 Hw; by eapply migrated_ok|]. intros d' n Hi'. by apply read_back_safe.
Qed.
Definition empty_drafts : Drafts := mkDrafts empty_realm ∅.
Lemma empty_drafts_ok : DraftsInv empty_drafts.
Proof. constructor; [apply empty_realm_ok|]. constructor; cbn; intros; by rewrite lookup_empty in *. Qed.
Definition reachable_drafts (c : Pool Drafts) : Prop := rtc (pool_step DraftRequest) (empty_drafts, []) c.
Lemma drafts_reach c : reachable_drafts c -> DraftsInv c.1 /\ Forall (safe DraftsInv DraftsGrow anything c.1) c.2.
Proof.
  intros Hr. destruct (pool_safe_steps DraftsInv DraftsGrow DraftRequest (empty_drafts, []) c draft_request_safe Hr) as (? & _ & ?);
    [apply empty_drafts_ok|constructor|done].
Qed.
Lemma drafts_later c c' : reachable_drafts c -> rtc (pool_step DraftRequest) c c' -> DraftsInv c'.1 /\ DraftsGrow c.1 c'.1.
Proof.
  intros Hr Hs. destruct (drafts_reach _ Hr) as [Hi Hps].
  destruct (pool_safe_steps DraftsInv DraftsGrow DraftRequest c c' draft_request_safe Hs) as (? & ? & _); done.
Qed.

(** Every number below one that is taken is taken. *)
Lemma gapless rows id r k :
  RevisionsOk rows -> rows !! id = Some r -> (1 <= k <= gr_revision_number r)%N ->
  exists id' r', rows !! id' = Some r' /\ gr_workspace_id r' = gr_workspace_id r /\ gr_graph_id r' = gr_graph_id r /\ gr_revision_number r' = k.
Proof.
  intros Hok. remember (gr_revision_number r) as n eqn:Hn. revert id r Hn. induction n as [|n IH] using N.peano_ind; intros id r Hn Hr Hk; [lia|].
  destruct (decide (k = N.succ n)) as [->|Hne]; [by exists id, r|].
  destruct (revision_chained _ Hok _ _ Hr) as [[H1 _]|(pid & p & _ & Hp & Hw & Hg & Hnum)]; [lia|].
  destruct (IH pid p) as (i & r' & ? & ? & ? & ?); [lia|done|lia|]. exists i, r'. split_and!; congruence.
Qed.

(** C18: Saved graphs are append-only logs: whatever saves, links, migrations and
    other requests are interleaved, the revisions of a graph in a workspace are
    numbered from one without gaps or repetitions, each has the one before it as
    its parent, and from one state to any later one no revision disappears or
    changes, but for the link to the plan made of it. *)
Theorem revisions_append_only d ps d' ps' :
  reachable_drafts (d, ps) -> rtc (pool_step DraftRequest) (d, ps) (d', ps') ->
  RevisionsOk (cp_graph_revisions d') /\ rows_le (cp_graph_revisions d) (cp_graph_revisions d') /\
  forall id r k, cp_graph_revisions d' !! id = Some r -> (1 <= k <= gr_revision_number r)%N ->
    exists id' r', cp_graph_revisions d' !! id' = Some r' /\ gr_workspace_id r' = gr_workspace_id r /\ gr_graph_id r' = gr_graph_id r /\
      gr_revision_number r' = k.
Proof.
  intros Hr Hs. destruct (drafts_later _ _ Hr Hs) as [[_ Hok] [_ Hle]]. split_and!; [done|done|]. intros id r k. by apply gapless.
Qed.

Lemma rows_le_lookup rows rows' id r : rows_le rows rows' -> rows !! id = Some r -> exists r', rows' !! id = Some r' /\ content r' = content r.
Proof.
  intros Hle Hr. assert ((content <$> rows) !! id = Some (content r)) as Hc by by rewrite lookup_fmap, Hr.
  eapply lookup_weaken in Hc; [|exact Hle]. apply lookup_fmap_Some in Hc as (r' & ? & ?). eauto.
Qed.
(** C20: No edit is lost: once a save that expected a revision has appended the
    next one, no later save that expects the same revision appends anything,
    whatever happened in between: it is refused, or its content is the current
    one and nothing changes. *)
Theorem edits_not_lost d ps id now ws g e draft d1 ps1 n d2 ps2 id' now' e' draft' d3 out :
  reachable_drafts (d, ps) -> save_tx id now ws g (Some e) draft d = Ok (d1, Appended n) ->
  reachable_drafts (d1, ps1) -> rtc (pool_step DraftRequest) (d1, ps1) (d2, ps2) ->
  expected_number e' = expected_number e -> save_tx id' now' ws g (Some e') draft' d2 = Ok (d3, out) ->
  d3 = d2 /\ exists c, out = Unchanged c /\ gr_graph_digest (rv_row c) = rd_graph_digest draft'.
Proof.
  intros Hr Hs Hr1 Hlater Heq Hs2. destruct (drafts_later _ _ Hr1 Hlater) as [_ [_ Hle]].
  assert (exists i r, cp_graph_revisions d1 !! i = Some r /\ gr_workspace_id r = ws /\ gr_graph_id r = g /\
    gr_revision_number r = (expected_number e + 1)%N) as (i & r & Hi & Hrw & Hrg & Hrn).
  { unfold save_tx in Hs. apply bind_Ok in Hs as (current & Hcur & Hs). destruct current as [c|]; [|done].
    destruct (same_content c draft); [done|]. apply bind_Ok in Hs as ([] & Hm & Hs). apply bind_Ok in Hs as ([d0 k] & Ha & [= <- <-]).
    apply append_Ok in Ha as (-> & _ & _ & _ & row & -> & Hw & Hg & Hnum & _). cbn. exists id, row. rewrite lookup_insert_eq. split_and!; try done.
    rewrite Hnum. cbn in Hm |- *. destruct (_ =? _)%N eqn:Hn in Hm; [|done]. apply N.eqb_eq in Hn. by rewrite Hn. }
  destruct (rows_le_lookup _ _ _ _ Hle Hi) as (r2 & Hr2 & Hc). unfold content in Hc. injection Hc as Hw2 Hg2 Hn2 _ _ _ _ _ _ _ _ _ _.
  unfold save_tx in Hs2. apply bind_Ok in Hs2 as (current & Hcur & Hs2). apply fetch_current in Hcur. destruct current as [c|].
  - destruct (same_content c draft') eqn:Hsame.
    + injection Hs2 as <- <-. split; [done|]. exists c. split; [done|]. unfold same_content in Hsame. bools. by destruct Hsame.
    + exfalso. destruct (current_found _ _ _ _ Hcur) as (_ & _ & _ & _ & Hmost). specialize (Hmost _ _ Hr2). apply bind_Ok in Hs2 as ([] & Hm & _).
      cbn in Hm. destruct (_ =? _)%N eqn:Hn in Hm; [|done]. apply N.eqb_eq in Hn. assert (gr_revision_number r2 <= gr_revision_number (rv_row c))%N by (apply Hmost; congruence). lia.
  - exfalso. apply (current_none _ _ _ _ _ Hcur Hr2); congruence.
Qed.

(** ** The log of a graph *)

(** The numbers from [n] down to one. *)
Fixpoint countdown (n : nat) : list N := match n with O => [] | S m => N.of_nat n :: countdown m end.
Lemma elem_of_countdown n k : k ∈ countdown n <-> (1 <= k <= N.of_nat n)%N.
Proof.
  induction n as [|n IH]; cbn -[N.of_nat]; [rewrite elem_of_nil; lia|]. rewrite elem_of_cons, IH. lia.
Qed.
Lemma countdown_sorted n : StronglySorted N.ge (countdown n) /\ NoDup (countdown n).
Proof.
  induction n as [|n [IHs IHn]]; cbn -[N.of_nat]; [by split; constructor|]. split; constructor; [done| |rewrite elem_of_countdown; lia|done].
  apply Forall_forall. intros k Hk%elem_of_countdown. lia.
Qed.
#[local] Instance ge_antisymm : AntiSymm (=) N.ge.
Proof. intros x y. lia. Qed.
Definition numbers (log : list (Uuid * RevisionRow)) : list N := (fun e => gr_revision_number e.2) <$> log.
Lemma sorted_numbers log : StronglySorted newest_first log -> StronglySorted N.ge (numbers log).
Proof.
  induction 1 as [|e log Hs IH Hall]; cbn; constructor; [done|]. apply Forall_fmap. eapply Forall_impl; [done|]. intros x. unfold newest_first. cbn. lia.
Qed.
Lemma revisions_nodup rows ws g : NoDup (revisions_of rows ws g).
Proof. unfold revisions_of. rewrite (merge_sort_Permutation newest_first). apply NoDup_filter, NoDup_map_to_list. Qed.
Lemma numbers_nodup rows ws g : RevisionsOk rows -> NoDup (numbers (revisions_of rows ws g)).
Proof.
  intros Hok. apply NoDup_fmap_2_strong; [|apply revisions_nodup]. intros x y Hx Hy Hn. by apply (revisions_distinct rows ws g).
Qed.
(** A log holds every number up to its length. *)
Lemma log_numbers rows ws g : RevisionsOk rows -> numbers (revisions_of rows ws g) = countdown (length (revisions_of rows ws g)).
Proof.
  intros Hok. set (log := revisions_of rows ws g). set (n := match head log with Some e => N.to_nat (gr_revision_number e.2) | None => O end).
  assert (numbers log = countdown n) as Hn.
  { apply (StronglySorted_unique N.ge); [by apply sorted_numbers, revisions_sorted|apply countdown_sorted|].
    apply NoDup_Permutation; [by apply numbers_nodup|apply countdown_sorted|]. intros k. rewrite elem_of_countdown. unfold numbers. rewrite list_elem_of_fmap.
    destruct (head log) as [top|] eqn:Hh; unfold n; rewrite ?Hh.
    - assert (top ∈ log) as [[Htw Htg] Htop]%elem_of_revisions by by apply head_Some_elem_of. split.
      + intros (e & -> & He). pose proof (newest_of _ _ _ (revisions_sorted rows ws g) Hh He). apply elem_of_revisions in He as [_ He].
        destruct (revision_checked _ Hok _ _ He). lia.
      + intros Hk. destruct (gapless rows top.1 top.2 k Hok Htop) as (i & r & Hr & Hw & Hg & Hnum); [lia|]. exists (i, r). split; [done|].
        apply elem_of_revisions. split; [by split; cbn; congruence|done].
    - destruct log; [|done]. split; [intros (e & _ & He); by apply not_elem_of_nil in He|cbn; lia]. }
  rewrite Hn. f_equal. transitivity (length (countdown n)).
  - clear. induction n; cbn; congruence.
  - rewrite <- Hn. apply length_fmap.
Qed.
(** The newest number is the length. *)
Lemma log_head rows ws g e log : RevisionsOk rows -> revisions_of rows ws g = e :: log -> gr_revision_number e.2 = len (e :: log).
Proof. intros Hok Hl. pose proof (log_numbers rows ws g Hok) as Hn. rewrite Hl in Hn. injection Hn as Hn _. exact Hn. Qed.
Lemma current_number rows ws g current : RevisionsOk rows -> is_current rows ws g current -> number_after current = (len (revisions_of rows ws g) + 1)%N.
Proof.
  intros Hok Hcur. unfold is_current in Hcur. destruct (revisions_of rows ws g) as [|e log] eqn:Hl; cbn in Hcur; subst current; [done|].
  cbn [number_after decode_row rv_row]. by rewrite (log_head _ _ _ _ _ Hok Hl).
Qed.

(** What a log makes of a save. *)
Inductive Reaction := Keep | Refuse | Extend.
Definition expectation (log : list (Uuid * RevisionRow)) (expected : option ExpectedRevision) : bool :=
  match expected, log with
  | None, _ => true
  | Some _, [] => false
  | Some e, top :: _ => (len log =? expected_number e)%N
                        && match expected_digest e with Some digest => bool_decide (gr_graph_digest top.2 = digest) | None => true end
  end.
Definition reaction (log : list (Uuid * RevisionRow)) (expected : option ExpectedRevision) (draft : RevisionDraft) : Reaction :=
  if match log with
     | top :: _ => bool_decide (gr_graph_digest top.2 = rd_graph_digest draft) && (gr_format_version top.2 =? rd_format_version draft)%N
     | [] => false
     end then Keep
  else if expectation log expected then Extend else Refuse.
Definition encodes (document : option json) : Prop := match document with Some value => is_Some (json_print value) | None => True end.
Lemma encode_document_Ok document what : encodes document <-> exists text, encode_document document what = Ok text.
Proof.
  destruct document as [value|]; cbn; [|by split; [eexists|]]. destruct (json_print value); cbn; split; try (intros [? ?]; done); by eexists.
Qed.
(** What the table can hold. *)
Definition holdable (id ws : Uuid) (log : list (Uuid * RevisionRow)) (draft : RevisionDraft) (d : Drafts) : Prop :=
  (len log < i64_max)%N /\ cp_graph_revisions d !! id = None /\ workspace_exists (drafts_realm d) ws = true /\ (0 < rd_format_version draft)%N /\
  char_count (rd_graph_digest draft) = 64%N /\ encodes (rd_source_binding draft) /\ encodes (rd_package_digests draft).

(** Reading depends on the rows of the graph only. *)
Lemma sorted_same rows (l1 l2 : list (Uuid * RevisionRow)) ws g :
  RevisionsOk rows -> (forall e, e ∈ l1 -> of_graph ws g e /\ rows !! e.1 = Some e.2) ->
  StronglySorted newest_first l1 -> StronglySorted newest_first l2 -> l1 ≡ₚ l2 -> l1 = l2.
Proof.
  intros Hok Hin Hs1 Hs2 Hp. apply (StronglySorted_unique_strong newest_first); [|done|done|done]. intros x y Hx Hy Hxy Hyx.
  rewrite <- Hp in Hy. apply (revisions_distinct rows ws g); [done|by apply elem_of_revisions, Hin|by apply elem_of_revisions, Hin|].
  unfold newest_first in *. lia.
Qed.
Lemma revisions_insert rows id row ws g :
  RevisionsOk (<[id := row]> rows) -> rows !! id = None -> of_graph ws g (id, row) ->
  (forall e, e ∈ revisions_of rows ws g -> newest_first (id, row) e) ->
  revisions_of (<[id := row]> rows) ws g = (id, row) :: revisions_of rows ws g.
Proof.
  intros Hok Hn Hof Hmost. apply (sorted_same (<[id := row]> rows) _ _ ws g); [done|by intros e He%elem_of_revisions|apply revisions_sorted| |].
  - constructor; [apply revisions_sorted|by apply Forall_forall].
  - unfold revisions_of. rewrite !(merge_sort_Permutation newest_first), (map_to_list_insert _ _ _ Hn). by rewrite filter_cons_True.
Qed.
Lemma revisions_elsewhere rows id row ws g :
  RevisionsOk (<[id := row]> rows) -> rows !! id = None -> ~ of_graph ws g (id, row) ->
  revisions_of (<[id := row]> rows) ws g = revisions_of rows ws g.
Proof.
  intros Hok Hn Hof. apply (sorted_same (<[id := row]> rows) _ _ ws g); [done|by intros e He%elem_of_revisions|apply revisions_sorted|apply revisions_sorted|].
  unfold revisions_of. rewrite !(merge_sort_Permutation newest_first), (map_to_list_insert _ _ _ Hn). by rewrite filter_cons_False.
Qed.

(** An append succeeds exactly on what the table can hold. *)
Lemma append_fits id now ws g current draft d :
  RevisionsOk (cp_graph_revisions d) -> is_current (cp_graph_revisions d) ws g current ->
  holdable id ws (revisions_of (cp_graph_revisions d) ws g) draft d <-> exists e, append_revision id now ws g current draft None d = Ok e.
Proof.
  intros Hok Hcur. pose proof (current_number _ _ _ _ Hok Hcur) as Hnum. unfold append_revision, insert_revision, revision_fits. cbv zeta. rewrite Hnum. split.
  - intros (Hmax & Hn & Hw & Hf & Hd & (sb & ->)%(encode_document_Ok _ "encode source binding") & (pd & ->)%(encode_document_Ok _ "encode package digests")).
    replace (i64_max <? _)%N with false by (symmetry; apply N.ltb_ge; lia). cbn. rewrite Hw, Hd. rewrite (proj2 (N.ltb_lt _ _) Hf).
    replace (has (cp_graph_revisions d) id) with false by (symmetry; unfold has; by rewrite Hn).
    replace (0 <? _)%N with true by (symmetry; apply N.ltb_lt; lia). cbn.
    replace (match rv_id <$> current with Some _ => _ | None => _ end) with true.
    2:{ destruct current as [c|]; [|done]. destruct (current_found _ _ _ _ Hcur) as (Hl & _). cbn. unfold has. by rewrite Hl. }
    cbn. replace (forallb _ _) with true; [by eexists|]. symmetry. apply forallb_forall. intros e He. apply negb_true_iff, N.eqb_neq.
    apply list_elem_of_In in He. assert (gr_revision_number e.2 ∈ numbers (revisions_of (cp_graph_revisions d) ws g)) as Hin by (unfold numbers; apply list_elem_of_fmap; eauto).
    rewrite log_numbers in Hin by done. apply elem_of_countdown in Hin. unfold len. lia.
  - intros [e Ha]. inv_ok Ha. destruct (_ && _) eqn:Hfits in Hx2; [|done]. rewrite !andb_true_iff in Hfits. cbn in Hfits.
    destruct Hfits as [[[[[[Hn Hw] _] Hf] Hd] _] _]. apply N.ltb_ge in Hb. apply N.ltb_lt in Hf. apply N.eqb_eq in Hd. unfold holdable. split_and!; try done; [lia| | |].
    + apply negb_true_iff in Hn. unfold has in Hn. by destruct (_ !! id).
    + by eapply encode_document_Ok; eexists.
    + by eapply encode_document_Ok; eexists.
Qed.

(** Appending extends the graph's log and no other. *)
Lemma append_extends id now ws g current draft d d' n :
  RevisionsOk (cp_graph_revisions d) -> is_current (cp_graph_revisions d) ws g current -> (rd_format_version draft < 65536)%N ->
  append_revision id now ws g current draft None d = Ok (d', n) ->
  let log := revisions_of (cp_graph_revisions d) ws g in
  n = (len log + 1)%N /\ drafts_realm d' = drafts_realm d /\
  (exists row, revisions_of (cp_graph_revisions d') ws g = (id, row) :: log /\ gr_graph_json row = rd_graph_json draft /\
     gr_graph_digest row = rd_graph_digest draft /\ gr_format_version row = rd_format_version draft) /\
  forall ws' g', (ws', g') <> (ws, g) -> revisions_of (cp_graph_revisions d') ws' g' = revisions_of (cp_graph_revisions d) ws' g'.
Proof.
  intros Hok Hcur Hf (-> & Hmax & Hn & Hpos & row & -> & Hw & Hg & Hnum & Hpar & Hfmt & Hjson & Hdig)%append_Ok log. cbn.
  assert (RevisionsOk (<[id := row]> (cp_graph_revisions d))) as Hok'.
  { apply (append_ok ws g current); try done; [by rewrite Hnum|]. rewrite Hfmt. lia. }
  pose proof (current_number _ _ _ _ Hok Hcur) as Hnext. fold log in Hnext. split_and!; [done|done| |].
  - exists row. split_and!; try done. apply revisions_insert; [done|done|done|]. intros e He. unfold newest_first. cbn. rewrite Hnum, Hnext.
    assert (gr_revision_number e.2 ∈ numbers log) as Hin by (unfold numbers; apply list_elem_of_fmap; eauto).
    unfold log in Hin. rewrite log_numbers in Hin by done. apply elem_of_countdown in Hin. unfold log, len. lia.
  - intros ws' g' Hne. apply revisions_elsewhere; [done|done|]. intros [Hw' Hg']. cbn in *. congruence.
Qed.
Lemma same_top rows ws g top log draft :
  RevisionsOk rows -> revisions_of rows ws g = top :: log ->
  same_content (decode_row top) draft = bool_decide (gr_graph_digest top.2 = rd_graph_digest draft) && (gr_format_version top.2 =? rd_format_version draft)%N.
Proof.
  intros Hok Hl. assert (top ∈ revisions_of rows ws g) as [_ Ht]%elem_of_revisions by (rewrite Hl; by left).
  destruct (revision_checked _ Hok _ _ Ht) as [_ Hf]. unfold same_content, decode_row, u16_or_zero. cbn. by rewrite (proj2 (N.ltb_lt _ _) (proj2 Hf)).
Qed.
Lemma meets_top rows ws g top log expected :
  RevisionsOk rows -> revisions_of rows ws g = top :: log ->
  meets g (Some (decode_row top)) expected = if expectation (top :: log) expected then Ok tt else Err (AlreadyExists g).
Proof.
  intros Hok Hl. pose proof (log_head _ _ _ _ _ Hok Hl) as Hn. destruct expected as [e|]; [|done]. cbn [meets expectation decode_row rv_row]. rewrite Hn.
  destruct (_ =? _)%N; [|done]. cbn. destruct (expected_digest e); [by case_bool_decide|done].
Qed.

Lemma save_reacts id now ws g expected draft d :
  RevisionsOk (cp_graph_revisions d) ->
  let log := revisions_of (cp_graph_revisions d) ws g in
  let current := decode_row <$> head log in
  save_tx id now ws g expected draft d =
    match reaction log expected draft, current with
    | Keep, Some c => Ok (d, Unchanged c)
    | Keep, None | Refuse, _ => Err (AlreadyExists g)
    | Extend, _ => e ← append_revision id now ws g current draft None d; Ok (e.1, Appended e.2)
    end.
Proof.
  intros Hok log current. unfold save_tx. destruct (fetch_full ws g None d) as [c|e] eqn:Hfetch; [|by unfold fetch_full in Hfetch].
  apply fetch_current in Hfetch. unfold is_current in Hfetch. fold log in Hfetch. fold current in Hfetch. subst c.
  change (mbind ?k (Ok current)) with (k current). subst current. cbv beta. unfold reaction. destruct log as [|top l] eqn:Hl; cbn [head fmap option_fmap option_map].
  - by destruct expected.
  - rewrite (same_top _ _ _ _ _ draft Hok Hl). destruct (_ && _); [done|]. rewrite (meets_top _ _ _ _ _ expected Hok Hl). by destruct (expectation _ _).
Qed.

(** C19: A save refines a guarded append to the log of the graph: nothing changes when
    the newest revision has the same content, the save is refused as a conflict
    when the expectation is not the newest revision (a save without one always
    meets it), and otherwise one revision is put on top of the log, numbered by
    its length, with the draft's content, if the table can hold it, and every
    other log is untouched. *)
Theorem save_refines_log d ps id now ws g expected draft :
  reachable_drafts (d, ps) -> (rd_format_version draft < 65536)%N ->
  let log := revisions_of (cp_graph_revisions d) ws g in
  let saved := save_tx id now ws g expected draft d in
  match reaction log expected draft with
  | Keep => exists top, head log = Some top /\ saved = Ok (d, Unchanged (decode_row top))
  | Refuse => saved = Err (AlreadyExists g)
  | Extend =>
      (holdable id ws log draft d <-> exists e, saved = Ok e) /\
      forall d' out, saved = Ok (d', out) ->
        out = Appended (len log + 1) /\ drafts_realm d' = drafts_realm d /\
        (exists row, revisions_of (cp_graph_revisions d') ws g = (id, row) :: log /\ gr_graph_json row = rd_graph_json draft /\
           gr_graph_digest row = rd_graph_digest draft /\ gr_format_version row = rd_format_version draft) /\
        forall ws' g', (ws', g') <> (ws, g) -> revisions_of (cp_graph_revisions d') ws' g' = revisions_of (cp_graph_revisions d) ws' g'
  end.
Proof.
  intros [[_ Hok] _]%drafts_reach Hf log saved. cbn in Hok. unfold saved. rewrite save_reacts by done. fold log.
  assert (is_current (cp_graph_revisions d) ws g (decode_row <$> head log)) as Hcur by done.
  destruct (reaction log expected draft) eqn:Hr; [|by destruct (head log)|].
  - unfold reaction in Hr. destruct log as [|top l]; [by destruct expected|]. by exists top.
  - split.
    + etrans; [apply (append_fits id now ws g _ draft d Hok Hcur)|]. destruct (append_revision _ _ _ _ _ _ _ _); cbn; split; intros [? ?]; try done; by eexists.
    + intros d' out He. apply bind_Ok in He as ([d1 n] & Ha & [= <- <-]).
      destruct (append_extends _ _ _ _ _ _ _ _ _ Hok Hcur Hf Ha) as (-> & ? & ? & ?). done.
Qed.

Lemma fetch_numbered d ws g k :
  RevisionsOk (cp_graph_revisions d) -> (k <= i64_max)%N -> exists found, fetch_full ws g (Some k) d = Ok found /\
    (fun r => gr_revision_number (rv_row r)) <$> found =
    if decide (1 <= k <= len (revisions_of (cp_graph_revisions d) ws g))%N then Some k else None.
Proof.
  intros Hok Hk. unfold fetch_full. replace (i64_max <? k)%N with false by (symmetry; by apply N.ltb_ge). cbn. eexists. split; [done|].
  pose proof (elem_of_countdown (length (revisions_of (cp_graph_revisions d) ws g)) k) as Hin. rewrite <- log_numbers in Hin by done. unfold len.
  unfold numbers in Hin. rewrite list_elem_of_fmap in Hin. destruct (filter _ _) as [|x l] eqn:Hf; case_decide as Hkn; [|done| |].
  - exfalso. apply Hin in Hkn as (e & -> & He). eapply not_elem_of_nil. rewrite <- Hf. apply list_elem_of_filter. eauto.
  - assert (x ∈ x :: l) as Hx by by left. rewrite <- Hf in Hx. apply list_elem_of_filter in Hx as [[?|[= ->]] _]; done.
  - exfalso. apply Hkn, Hin. assert (x ∈ x :: l) as Hx by by left. rewrite <- Hf in Hx. apply list_elem_of_filter in Hx as [[?|[= ->]] ?]; [done|eauto].
Qed.
(** The reads of a log are exact: the history of a graph with a limit is its
    revisions from the newest down, without a gap, at most the limit of them; a
    revision is found by its number exactly when the number is at least one and
    at most the number of revisions, and without a number the newest is found. *)
Theorem history_exact d ps ws g :
  reachable_drafts (d, ps) ->
  let n := length (revisions_of (cp_graph_revisions d) ws g) in
  (forall limit, (limit <= i64_max)%N -> exists rs, exec (history ws g limit) d = (d, Ok rs) /\
     (fun r => gr_revision_number (rv_row r)) <$> rs = take (N.to_nat limit) (countdown n)) /\
  (forall k, (k <= i64_max)%N -> exists found, exec (get_revision ws g (Some k)) d = (d, Ok found) /\
     (fun r => gr_revision_number (rv_row r)) <$> found = if decide (1 <= k <= N.of_nat n)%N then Some k else None) /\
  exists found, exec (get_revision ws g None) d = (d, Ok found) /\ (fun r => gr_revision_number (rv_row r)) <$> found = head (countdown n).
Proof.
  intros [[_ Hok] _]%drafts_reach n. cbn in Hok. pose proof (log_numbers _ ws g Hok) as Hnum. fold n in Hnum. split_and!.
  - intros limit Hl. unfold history. cbn. replace (i64_max <? limit)%N with false by (symmetry; by apply N.ltb_ge). eexists. split; [done|].
    rewrite <- Hnum. unfold numbers. rewrite <- fmap_take, <- list_fmap_compose. done.
  - intros k Hk. destruct (fetch_numbered d ws g k Hok Hk) as (found & Hf & Hfn). exists found. unfold get_revision, query. cbn [exec]. by rewrite Hf.
  - destruct (fetch_full ws g None d) as [found|e] eqn:Hf; [|by unfold fetch_full in Hf]. exists found. unfold get_revision, query. cbn [exec]. rewrite Hf. split; [done|].
    apply fetch_current in Hf. unfold is_current in Hf. subst found. rewrite <- Hnum. by destruct (revisions_of _ ws g).
Qed.
End drafts.

(** ** Migrations *)

Section migrations.
Context `{JobCodec} `{StoreFiles} (mode : AuthorizationMode) {G : Type} (graph_from_value : json -> option G).
Lemma exec_kept {A B} (p : Drafted A) (k : A -> Crafted B) w :
  exec (kept p ≫= k) w = let '(d, r) := exec p (drafts w) in
    match r with Ok a => exec (k a) (mkWorkshop d (workshop_cache w)) | Err e => (mkWorkshop d (workshop_cache w), Err (from_storage e)) end.
Proof.
  rewrite exec_auto_then. unfold kept. rewrite exec_bind. unfold on_drafts. rewrite exec_focus; [|done|by intros []|done].
  destruct (exec p (drafts w)) as [d [a|e]]; done.
Qed.
Lemma exec_at_gate {A B} (p : Auto Service ApiError A) (k : A -> Crafted B) w :
  exists w', cp_graph_revisions (drafts w') = cp_graph_revisions (drafts w) /\
    ((exists a, exec (at_gate p ≫= k) w = exec (k a) w') \/ exists e, exec (at_gate p ≫= k) w = (w', Err e)).
Proof.
  rewrite exec_auto_then. unfold at_gate. rewrite exec_focus; [|by intros []|by intros [[] ?]|done].
  destruct (exec p (gate_of w)) as [s [a|e]]; (eexists; split; [|by eauto]); done.
Qed.
(** A stored format is at least the only known one. *)
Lemma fetched_format d ws g number c :
  RevisionsOk (cp_graph_revisions d) -> fetch_full ws g number d = Ok (Some c) -> (1 <= rv_format_version c)%N.
Proof.
  intros Hok Hf. unfold fetch_full in Hf. apply bind_Ok in Hf as (? & _ & [= Hf]). apply fmap_Some in Hf as (e & He & ->).
  apply head_Some_elem_of, list_elem_of_filter in He as [_ [_ He]%elem_of_revisions]. destruct (revision_checked _ Hok _ _ He) as [_ Hv].
  unfold decode_row, u16_or_zero. cbn. rewrite (proj2 (N.ltb_lt _ _) (proj2 Hv)). lia.
Qed.

(** With the one format there is, a migration appends nothing, dry run or not: it
    answers about the revision it read, or with an error, and the revisions are
    as before. *)
Theorem migration_is_identity w id now meta graph_id revision to dry_run :
  RevisionsOk (cp_graph_revisions (drafts w)) ->
  let '(w', r) := exec (migrate_graph_revision mode graph_from_value id now meta graph_id revision to dry_run) w in
  cp_graph_revisions (drafts w') = cp_graph_revisions (drafts w) /\
  forall v, r = Ok v -> to = 1%N /\ mv_revision (response_body v) = None.
Proof.
  intros Hok. unfold migrate_graph_revision. edestruct @exec_at_gate as (w1 & Hw1 & [[a ->]|[e ->]]); [|done]. rewrite exec_auto_check.
  case_bool_decide as Hto; [|by destruct (1 <? to)%N]. apply list_elem_of_singleton in Hto as ->. rewrite exec_kept. unfold get_revision, query. cbn [exec].
  destruct (fetch_full _ _ _ _) as [found|e] eqn:Hf; [|by cbn]. rewrite exec_auto_check. destruct found as [c|]; [cbn [ok_or]|by cbn].
  apply fetched_format in Hf; [|cbn; by rewrite Hw1]. rewrite exec_auto_check. destruct (1 <? _)%N; [by cbn|]. cbv zeta.
  rewrite (proj2 (N.leb_le _ _) Hf), orb_true_r. cbn. split; [done|]. intros v [= <-]. done.
Qed.
End migrations.

(** ** On a sample *)

#[local] Open Scope N_scope.

Definition digest_of (digit : string) : string := String.concat "" (replicate 64 digit).
Definition sample_draft (digit : string) : RevisionDraft :=
  mkRevisionDraft 1 ("graph " ++ digit) (digest_of digit) None None (Some NODE_GRAPH_COMPILER_VERSION) "anonymous".
Definition saving (id : Uuid) (expected : option ExpectedRevision) (digit : string) : Prog Drafts unit :=
  request_unit (save id 0%Z 1 7 expected (sample_draft digit)).
(** A graph is saved; two readers of the first revision edit it. *)
Definition edited : list (Prog Drafts unit) :=
  [on_realm (lift (request_unit (Workspaces.create_workspace 1 0%Z))); saving 10 None "a"; saving 11 (Some (mkExpectedRevision 1 None)) "b";
   request_unit (link_plan_version 1 7 99)].
Lemma edited_requests : Forall DraftRequest edited.
Proof.
  repeat (apply Forall_cons; split;
    [lazymatch goal with
     | |- DraftRequest (on_realm _) => refine (draft_realm _ _); refine (realm_on_store _ _); constructor
     | |- DraftRequest (saving _ _ _) => refine (draft_save _ _ _ _ _ _ _); by vm_compute
     | |- DraftRequest (request_unit (link_plan_version _ _ _)) => exact (draft_link _ _ _)
     end|]).
  constructor.
Qed.
Definition drafts_from_empty (ts : list (Turn Drafts)) : Pool Drafts := foldl play (empty_drafts, []) ts.
Lemma drafts_from_empty_reachable k : reachable_drafts (drafts_from_empty (schedule 0 (take k edited))).
Proof. apply play_steps, schedule_requested, Forall_take, edited_requests. Qed.
Definition at_edit (k : nat) : Pool Drafts := drafts_from_empty (schedule 0 (take k edited)).
Lemma edit_later : rtc (pool_step DraftRequest) (at_edit 3) (at_edit 4).
Proof.
  replace (at_edit 4) with (foldl play (at_edit 3) (schedule 3 (drop 3 edited))) by (unfold at_edit, drafts_from_empty; by rewrite <- foldl_app).
  apply play_steps, schedule_requested, Forall_drop, edited_requests.
Qed.
Definition revisions_at (k : nat) : gmap Uuid RevisionRow := cp_graph_revisions (at_edit k).1.
Lemma revisions_append_only_witness :
  numbers (revisions_of (revisions_at 4) 1 7) = [2; 1] /\ gr_plan_version_id <$> revisions_at 4 !! 11 = Some (Some 99) /\
  rows_le (revisions_at 3) (revisions_at 4).
Proof.
  split; [by vm_compute|]. split; [by vm_compute|].
  refine (proj1 (proj2 (revisions_append_only (at_edit 3).1 (at_edit 3).2 (at_edit 4).1 (at_edit 4).2 _ _))); rewrite <- !surjective_pairing;
    [apply drafts_from_empty_reachable|apply edit_later].
Defined.
Lemma edits_not_lost_witness :
  snd <$> save_tx 11 0%Z 1 7 (Some (mkExpectedRevision 1 None)) (sample_draft "b") (at_edit 2).1 = Ok (Appended 2) /\
  save_tx 12 0%Z 1 7 (Some (mkExpectedRevision 1 None)) (sample_draft "c") (at_edit 4).1 = Err (AlreadyExists 7) /\
  exists c, save_tx 12 0%Z 1 7 (Some (mkExpectedRevision 1 None)) (sample_draft "b") (at_edit 4).1 = Ok ((at_edit 4).1, Unchanged c) /\
    gr_graph_digest (rv_row c) = digest_of "b".
Proof.
  split; [by vm_compute|]. split; [by vm_compute|].
  destruct (save_tx 12 0%Z 1 7 (Some (mkExpectedRevision 1 None)) (sample_draft "b") (at_edit 4).1) as [[d3 out]|e] eqn:Hs; [|by vm_compute in Hs].
  destruct (edits_not_lost (at_edit 2).1 (at_edit 2).2 11 0%Z 1 7 (mkExpectedRevision 1 None) (sample_draft "b") (at_edit 3).1 (at_edit 3).2 2
              (at_edit 4).1 (at_edit 4).2 12 0%Z (mkExpectedRevision 1 None) (sample_draft "b") d3 out) as (-> & c & -> & Hc);
    rewrite <- ?surjective_pairing; try apply drafts_from_empty_reachable; [by vm_compute|apply edit_later|reflexivity|exact Hs|]. exists c. split; [reflexivity|exact Hc].
Defined.
Lemma save_refines_log_witness :
  reaction (revisions_of (revisions_at 2) 1 7) (Some (mkExpectedRevision 1 None)) (sample_draft "b") = Extend /\
  exists d', save_tx 11 0%Z 1 7 (Some (mkExpectedRevision 1 None)) (sample_draft "b") (at_edit 2).1 = Ok (d', Appended 2).
Proof.
  split; [by vm_compute|].
  pose proof (save_refines_log (at_edit 2).1 (at_edit 2).2 11 0%Z 1 7 (Some (mkExpectedRevision 1 None)) (sample_draft "b")) as Hx.
  rewrite <- surjective_pairing in Hx. specialize (Hx (drafts_from_empty_reachable 2) ltac:(by vm_compute)). cbv zeta in Hx.
  replace (reaction _ _ _) with Extend in Hx by by vm_compute. destruct Hx as [Hh Ho].
  destruct (proj1 Hh) as [[d' out] He]; [split_and!; by vm_compute|]. destruct (Ho _ _ He) as (-> & _). exists d'. exact He.
Defined.
Lemma history_exact_witness :
  exists rs, exec (history 1 7 20) (at_edit 4).1 = ((at_edit 4).1, Ok rs) /\ (fun r => gr_revision_number (rv_row r)) <$> rs = [2; 1].
Proof.
  pose proof (history_exact (at_edit 4).1 (at_edit 4).2 1 7) as Hx. rewrite <- surjective_pairing in Hx.
  destruct (Hx (drafts_from_empty_reachable 4)) as [Hl _]. destruct (Hl 20 ltac:(by vm_compute)) as (rs & He & Hn). exists rs. split; [done|].
  by vm_compute in Hn |- *.
Defined.
Definition sample_workshop : Workshop := mkWorkshop (at_edit 4).1 ∅.
Definition sample_migration : Crafted (ApiResponse (GraphRevisionMigrationView (G:=unit))) :=
  migrate_graph_revision LocalTrusted (fun _ => Some tt) 12 0%Z (mkMetadata 1 9 1 None None) 7 (Some 1) 1 false.
Lemma migration_is_identity_witness :
  cp_graph_revisions (drafts (exec sample_migration sample_workshop).1) = cp_graph_revisions (drafts sample_workshop) /\
  (fun v => mv_revision_number (response_body v)) <$> (exec sample_migration sample_workshop).2 = Ok 1.
Proof.
  split; [|by vm_compute].
  pose proof (migration_is_identity LocalTrusted (fun _ => Some tt) sample_workshop 12 0%Z (mkMetadata 1 9 1 None None) 7 (Some 1) 1 false) as Hx.
  fold sample_migration in Hx. destruct (exec sample_migration sample_workshop) as [w' r]. apply Hx. clear Hx.
  exact (drafts_ok _ (proj1 (drafts_reach _ (drafts_from_empty_reachable 4)))).
Defined.
