(* ===== verification/AuditLog.v ===== *)
(** * The audit log: [stillflow-storage/src/audit.rs]

    Audit events are appended per workspace with a sequence of their own, are
    replayed when the same event comes again, and are never changed but for
    being marked as expired. *)

From Stdlib Require Import Sorted.
From S2P Require Import Prelude Text Secrets Logical Nodes Schedule Automation Hex Executions Canonical Operations Jobs Submissions Outputs Lifecycle Reports Life Refines Reachable Sample.

Definition AUDIT_VERSION : N := 1.
Definition MAX_AUDIT_PAGE_SIZE : N := MAX_EVENT_PAGE_SIZE.
Definition MAX_AUDIT_LINEAGE_EDGES : N := 128.
Definition MAX_AUDIT_TEXT_BYTES : N := 256.

Inductive AuditActorKind := ActorUser | ActorServiceAccount | ActorSystem.
#[export] Instance AuditActorKind_eq_dec : EqDecision AuditActorKind.
Proof. solve_decision. Defined.
Record AuditActor := mkActor { actor_kind : AuditActorKind; actor_ref : string }.
Record AuditObjectRef := mkObject { object_kind : string; object_id : Uuid }.
Record AuditLineageEdge := mkEdge { relation : string; edge_from : AuditObjectRef; edge_to : AuditObjectRef }.
Inductive AuditRetentionState := AuditActive | AuditRetained | AuditExpired.
#[export] Instance AuditRetentionState_eq_dec : EqDecision AuditRetentionState.
Proof. solve_decision. Defined.

(** What the digest of an event is taken of: everything but its idempotency
    key. *)
Record AuditDigestInput := mkAuditInput {
  ai_event_id : Uuid;
  ai_audit_version : N;
  ai_workspace_id : Uuid;
  ai_occurred_at : DateTime;
  ai_actor : AuditActor;
  ai_action : string;
  ai_reason_code : string;
  ai_request_id : string;
  ai_correlation_id : option string;
  ai_trace_id : option string;
  ai_object : AuditObjectRef;
  ai_before : option json;
  ai_after : option json;
  ai_lineage : list AuditLineageEdge;
  ai_source_event_id : option Uuid;
  ai_payload : json;
}.
Record AuditEventDraft := mkAuditDraft { ad_input : AuditDigestInput; ad_idempotency_key : option string }.

(** A row of [audit_events]; documents are texts. *)
Record AuditRow := mkAuditRow {
  au_event_id : Uuid;
  au_audit_version : N;
  au_workspace_id : Uuid;
  au_sequence : N;
  au_occurred_at : DateTime;
  au_actor : AuditActor;
  au_action : string;
  au_reason_code : string;
  au_request_id : string;
  au_correlation_id : option string;
  au_trace_id : option string;
  au_object : AuditObjectRef;
  au_before_json : option string;
  au_after_json : option string;
  au_lineage_json : string;
  au_source_event_id : option Uuid;
  au_payload_json : string;
  au_idempotency_key : option string;
  au_event_digest : string;
  au_retention : AuditRetentionState;
  au_expired_at : option DateTime;
}.
Record AuditEventRecord := mkAuditRecord {
  ae_row : AuditRow;
  ae_before : option json;
  ae_after : option json;
  ae_lineage : list AuditLineageEdge;
  ae_payload : json;
  ae_event_digest : Digest;
}.
Record AuditQueryScope := mkScope {
  aq_workspace_id : Uuid;
  aq_actor_kind : option AuditActorKind;
  aq_actor_ref : option string;
  aq_object_kind : option string;
  aq_object_id : option Uuid;
  aq_from : option DateTime;
  aq_to : option DateTime;
  aq_action : option string;
  aq_trace_id : option string;
  aq_correlation_id : option string;
  aq_include_expired : bool;
}.
Record AuditCursor := mkAuditCursor { ac_workspace_id : Uuid; ac_sequence : N; ac_filter_digest : Digest }.
Record AuditQuery := mkQuery { aq_scope : AuditQueryScope; aq_limit : N; aq_cursor : option AuditCursor }.
Record AuditPage := mkAuditPage { ap_events : list AuditEventRecord; ap_next : option AuditCursor }.

(** [serde_json] on the types of this file. *)
Class AuditCodec := {
  audit_input_bytes : AuditDigestInput -> option (list N);
  scope_bytes : AuditQueryScope -> option (list N);
  lineage_print : list AuditLineageEdge -> option string;
  lineage_parse : string -> option (list AuditLineageEdge);
}.

(** ** Checks *)

Definition validate_audit_text (value label : string) : Stored unit :=
  let lower := to_ascii_lowercase (bytes_of value) in
  if (str_len value =? 0)%N || (MAX_AUDIT_TEXT_BYTES <? str_len value)%N
     || bool_decide (is_Some (whitespace_width (bytes_of value))) || ends_blank (bytes_of value)
     || has_control (bytes_of value) || contains_sub (bytes_of "password=") lower || contains_sub (bytes_of "token=") lower
     || contains_sub (bytes_of "secret=") lower
  then Err (InvalidDraft label) else Ok tt.
Definition validate_optional_text (value : option string) (label : string) : Stored unit :=
  match value with Some value => validate_audit_text value label | None => Ok tt end.

(** SQLite's [LIKE]: [%] is any text, [_] any character, letters without
    their ASCII case. *)
Fixpoint drop_continuation (t : list N) : list N :=
  match t with b :: t' => if continuation b then drop_continuation t' else t | [] => [] end.
Definition at_char (t : list N) : bool := match t with b :: _ => negb (continuation b) | [] => true end.
Fixpoint sql_like (pattern : list N) (text : list N) : bool :=
  match pattern with
  | [] => bool_decide (text = [])
  | p :: pattern =>
      if (p =? 37)%N then
        (fix any (text : list N) : bool :=
           (at_char text && sql_like pattern text) || match text with [] => false | _ :: text => any text end) text
      else match text with
           | [] => false
           | b :: text =>
               if (p =? 95)%N then sql_like pattern (drop_continuation text)
               else (lower_byte p =? lower_byte b)%N && sql_like pattern text
           end
  end.

Section audit.
Context `{JobCodec} `{AuditCodec}.

Definition validate_audit_json (value : json) : Stored unit :=
  try! validate_safe_json true value;
  text ← ok_or (json_print value) (Serialization "serialize audit JSON");
  if (MAX_EVENT_PAYLOAD_BYTES <? str_len text)%N
  then Err (InvalidDraft "audit JSON field exceeds the 64 KiB bound") else Ok tt.
Definition validate_edge (e : AuditLineageEdge) : Stored unit :=
  try! validate_audit_text (relation e) "audit lineage relation";
  each (fun o =>
    if is_nil (object_id o) then Err (InvalidDraft "audit lineage identity must not be nil") else
    validate_audit_text (object_kind o) "audit lineage object kind") [edge_from e; edge_to e].

Definition validate_audit_draft (d : AuditEventDraft) : Stored unit :=
  let i := ad_input d in
  if is_nil (ai_event_id i) || is_nil (ai_workspace_id i) || is_nil (object_id (ai_object i))
  then Err (InvalidDraft "audit identities must not be nil") else
  if negb (ai_audit_version i =? AUDIT_VERSION)%N then Err (InvalidDraft "unsupported audit event version") else
  try! validate_audit_text (actor_ref (ai_actor i)) "audit actor reference";
  try! validate_audit_text (ai_action i) "audit action";
  try! validate_audit_text (ai_reason_code i) "audit reason code";
  try! validate_audit_text (ai_request_id i) "audit request identity";
  try! validate_optional_text (ai_correlation_id i) "audit correlation identity";
  try! validate_optional_text (ai_trace_id i) "audit trace identity";
  try! validate_audit_text (object_kind (ai_object i)) "audit object kind";
  if match ai_source_event_id i with Some id => is_nil id | None => false end
  then Err (InvalidDraft "source audit event must not be nil") else
  try! validate_optional_text (ad_idempotency_key d) "audit idempotency key";
  if match ad_idempotency_key d with Some key => (128 <? str_len key)%N | None => false end
  then Err (InvalidDraft "audit idempotency key exceeds 128 bytes") else
  if (MAX_AUDIT_LINEAGE_EDGES <? len (ai_lineage i))%N
  then Err (InvalidDraft "audit lineage exceeds the supported bound") else
  try! each validate_edge (ai_lineage i);
  each validate_audit_json (option_list (ai_before i) ++ option_list (ai_after i) ++ [ai_payload i]).

Definition audit_digest (d : AuditEventDraft) : Stored Digest :=
  bytes ← ok_or (audit_input_bytes (ad_input d)) (Serialization "serialize audit digest");
  Ok (sha256 bytes).
Definition filter_digest (s : AuditQueryScope) : Stored Digest :=
  bytes ← ok_or (scope_bytes s) (Serialization "serialize audit query scope");
  Ok (sha256 bytes).

(** ** Rows *)

Definition audit_hex_decode (value : string) : option (list N) :=
  if negb (str_len value =? 64)%N then None else hex_pairs (bytes_of value).
Definition parse_optional_json (value : option string) : option (option json) :=
  match value with Some text => Some <$> json_parse text | None => Some None end.
(** [record_from_row]; the caller gives every failure its own name. *)
Definition record_from_row (r : AuditRow) : option AuditEventRecord :=
  digest ← audit_hex_decode (au_event_digest r);
  before ← parse_optional_json (au_before_json r);
  after ← parse_optional_json (au_after_json r);
  lineage ← lineage_parse (au_lineage_json r);
  payload ← json_parse (au_payload_json r);
  Some (mkAuditRecord r before after lineage payload digest).

Definition serialize_optional (value : option json) (label : string) : Stored (option string) :=
  match value with Some v => Some <$> ok_or (json_print v) (Serialization label) | None => Ok None end.

(** Which row an event comes again under: its identity or its key.  At most
    one row has the identity and one the key. *)
Definition same_event (d : AuditEventDraft) (r : AuditRow) : bool :=
  (au_workspace_id r =? ai_workspace_id (ad_input d))%N
  && ((au_event_id r =? ai_event_id (ad_input d))%N
      || match ad_idempotency_key d with Some key => bool_decide (au_idempotency_key r = Some key) | None => false end).
Definition of_workspace (workspace : Uuid) (r : AuditRow) : bool := (au_workspace_id r =? workspace)%N.
Definition workspace_rows (workspace : Uuid) (rows : list AuditRow) : list AuditRow := filter (fun r => of_workspace workspace r) rows.
Definition last_audit_sequence (workspace : Uuid) (rows : list AuditRow) : N :=
  foldr (fun r n => N.max (au_sequence r) n) 0%N (workspace_rows workspace rows).

(** The primary key and the two [UNIQUE] constraints of [audit_events]. *)
Definition may_insert_audit (rows : list AuditRow) (r : AuditRow) : bool :=
  forallb (fun f =>
    negb (au_event_id f =? au_event_id r)%N
    && negb (of_workspace (au_workspace_id r) f
             && ((au_sequence f =? au_sequence r)%N
                 || match au_idempotency_key r with Some key => bool_decide (au_idempotency_key f = Some key) | None => false end)))
    rows.

(** The new row of an event that has not been there; the two appends differ in
    the names of their errors. *)
Definition new_audit_row (what insert : string) (rows : list AuditRow) (d : AuditEventDraft) (digest : Digest) : Stored AuditRow :=
  let i := ad_input d in
  let last := last_audit_sequence (ai_workspace_id i) rows in
  if (i64_max <=? last)%N then Err (ArithmeticOverflow (what +:+ "audit sequence")) else
  before_json ← serialize_optional (ai_before i) ("serialize " +:+ what +:+ "audit before");
  after_json ← serialize_optional (ai_after i) ("serialize " +:+ what +:+ "audit after");
  lineage_json ← ok_or (lineage_print (ai_lineage i)) (Serialization ("serialize " +:+ what +:+ "audit lineage"));
  payload_json ← ok_or (json_print (ai_payload i)) (Serialization ("serialize " +:+ what +:+ "audit payload"));
  let row := mkAuditRow (ai_event_id i) (ai_audit_version i) (ai_workspace_id i) (last + 1) (ai_occurred_at i) (ai_actor i)
               (ai_action i) (ai_reason_code i) (ai_request_id i) (ai_correlation_id i) (ai_trace_id i) (ai_object i)
               before_json after_json lineage_json (ai_source_event_id i) payload_json (ad_idempotency_key d)
               (hex_encode digest) AuditActive None in
  if negb (may_insert_audit rows row) then Err (Database insert) else Ok row.

(** ** Operations *)

Definition audit_append (workspaces : gmap Uuid string) (rows : list AuditRow) (d : AuditEventDraft)
  : Stored (list AuditRow * AuditEventRecord) :=
  try! validate_audit_draft d;
  digest ← audit_digest d;
  let workspace := ai_workspace_id (ad_input d) in
  if negb (bool_decide (is_Some (workspaces !! workspace))) then Err (NotFound workspace) else
  match List.find (same_event d) rows with
  | Some existing =>
      record ← ok_or (record_from_row existing) (Database "read existing audit event");
      if bool_decide (ae_event_digest record = digest) then Ok (rows, record)
      else Err (InvalidDraft "audit identity or idempotency key was reused with a different event")
  | None =>
      row ← new_audit_row "" "insert audit event" rows d digest;
      record ← ok_or (record_from_row row) (Database "read inserted audit event");
      Ok (rows ++ [row], record)
  end.

(** [append_maintenance_audit_tx]: the receipt of a maintenance, compared by
    the text of its digest. *)
Definition append_maintenance_audit_tx (workspaces : gmap Uuid string) (rows : list AuditRow) (d : AuditEventDraft)
  : Stored (list AuditRow) :=
  try! validate_audit_draft d;
  digest ← audit_digest d;
  let workspace := ai_workspace_id (ad_input d) in
  if negb (bool_decide (is_Some (workspaces !! workspace))) then Err (NotFound workspace) else
  match List.find (same_event d) rows with
  | Some existing =>
      if bool_decide (au_event_digest existing = hex_encode digest) then Ok rows
      else Err (InvalidDraft "maintenance audit idempotency key was reused with a different receipt")
  | None => row ← new_audit_row "maintenance " "insert maintenance audit receipt" rows d digest; Ok (rows ++ [row])
  end.

Definition expire_row (event_id : Uuid) (expired_at : DateTime) (r : AuditRow) : AuditRow :=
  if (au_event_id r =? event_id)%N && negb (bool_decide (au_retention r = AuditExpired)) then
    mkAuditRow (au_event_id r) (au_audit_version r) (au_workspace_id r) (au_sequence r) (au_occurred_at r) (au_actor r)
      (au_action r) (au_reason_code r) (au_request_id r) (au_correlation_id r) (au_trace_id r) (au_object r) (au_before_json r)
      (au_after_json r) (au_lineage_json r) (au_source_event_id r) (au_payload_json r) (au_idempotency_key r)
      (au_event_digest r) AuditExpired (Some expired_at)
  else r.
Definition audit_expire (rows : list AuditRow) (event_id : Uuid) (expired_at : DateTime)
  : Stored (list AuditRow * AuditEventRecord) :=
  if is_nil event_id then Err (InvalidDraft "audit event must not be nil") else
  let rows := expire_row event_id expired_at <$> rows in
  row ← ok_or (List.find (fun r => (au_event_id r =? event_id)%N) rows) (NotFound event_id);
  record ← ok_or (record_from_row row) (Database "read expired audit event");
  Ok (rows, record).

(** *** Queries *)

Definition opt_eq {A} `{EqDecision A} (wanted : option A) (value : A) : bool :=
  match wanted with Some w => bool_decide (value = w) | None => true end.
Definition in_lineage (needle : string) (r : AuditRow) : bool :=
  sql_like (bytes_of ("%" +:+ needle +:+ "%")) (bytes_of (au_lineage_json r)).
Definition matches_scope (s : AuditQueryScope) (r : AuditRow) : bool :=
  of_workspace (aq_workspace_id s) r
  && (aq_include_expired s || negb (bool_decide (au_retention r = AuditExpired)))
  && opt_eq (aq_actor_kind s) (actor_kind (au_actor r)) && opt_eq (aq_actor_ref s) (actor_ref (au_actor r))
  && match aq_object_kind s with
     | Some kind => bool_decide (object_kind (au_object r) = kind) || in_lineage kind r
     | None => true
     end
  && match aq_object_id s with
     | Some id => (object_id (au_object r) =? id)%N || in_lineage (uuid_text id) r
     | None => true
     end
  && match aq_from s with Some from => (from <=? au_occurred_at r)%Z | None => true end
  && match aq_to s with Some to => (au_occurred_at r <=? to)%Z | None => true end
  && opt_eq (aq_action s) (au_action r)
  && match aq_trace_id s with Some id => bool_decide (au_trace_id r = Some id) | None => true end
  && match aq_correlation_id s with Some id => bool_decide (au_correlation_id r = Some id) | None => true end.

Definition sequence_le (x y : AuditRow) : Prop := (au_sequence x <= au_sequence y)%N.
#[global] Instance sequence_le_dec : RelDecision sequence_le.
Proof. intros x y. unfold sequence_le. apply _. Defined.

Definition audit_query (rows : list AuditRow) (q : AuditQuery) : Stored AuditPage :=
  let s := aq_scope q in
  if is_nil (aq_workspace_id s) then Err (InvalidDraft "audit workspace must not be nil") else
  if (aq_limit q =? 0)%N || (MAX_AUDIT_PAGE_SIZE <? aq_limit q)%N
  then Err (InvalidDraft "audit page size must be between 1 and 1000") else
  digest ← filter_digest s;
  try! match aq_cursor q with
       | Some c =>
           if negb (ac_workspace_id c =? aq_workspace_id s)%N || negb (bool_decide (ac_filter_digest c = digest))
           then Err (InvalidDraft "audit cursor is outside its workspace or filter scope") else
           if (i64_max <? ac_sequence c)%N then Err (ArithmeticOverflow "audit cursor") else Ok tt
       | None => Ok tt
       end;
  let after := match aq_cursor q with Some c => ac_sequence c | None => 0%N end in
  let found := merge_sort sequence_le
                 (filter (fun r => matches_scope s r && match aq_cursor q with Some _ => (after <? au_sequence r)%N | None => true end) rows) in
  events ← collect (fun r => ok_or (record_from_row r) (Database "decode audit page")) (take (S (N.to_nat (aq_limit q))) found);
  if (aq_limit q <? len events)%N then
    let events := take (N.to_nat (aq_limit q)) events in
    Ok (mkAuditPage events
          ((fun e => mkAuditCursor (aq_workspace_id s) (au_sequence (ae_row e)) digest) <$> last events))
  else Ok (mkAuditPage events None).

(** ** Histories of the log *)

Inductive AuditOp :=
| AuditAppend (d : AuditEventDraft)
| AuditMaintenance (d : AuditEventDraft)
| AuditExpire (event_id : Uuid) (expired_at : DateTime).
Definition audit_execute (workspaces : gmap Uuid string) (rows : list AuditRow) (op : AuditOp) : list AuditRow :=
  match op with
  | AuditAppend d => match audit_append workspaces rows d with Ok (rows, _) => rows | Err _ => rows end
  | AuditMaintenance d => match append_maintenance_audit_tx workspaces rows d with Ok rows => rows | Err _ => rows end
  | AuditExpire id at_ => match audit_expire rows id at_ with Ok (rows, _) => rows | Err _ => rows end
  end.
Definition audit_log (workspaces : gmap Uuid string) (ops : list AuditOp) : list AuditRow := foldl (audit_execute workspaces) [] ops.

(** What of a row never changes: everything but whether it has expired. *)
Definition audit_identity (r : AuditRow) : AuditRow :=
  mkAuditRow (au_event_id r) (au_audit_version r) (au_workspace_id r) (au_sequence r) (au_occurred_at r) (au_actor r)
    (au_action r) (au_reason_code r) (au_request_id r) (au_correlation_id r) (au_trace_id r) (au_object r) (au_before_json r)
    (au_after_json r) (au_lineage_json r) (au_source_event_id r) (au_payload_json r) (au_idempotency_key r)
    (au_event_digest r) AuditActive None.

Lemma expire_identity id at_ r : audit_identity (expire_row id at_ r) = audit_identity r.
Proof. unfold expire_row. by destruct (_ && _). Qed.
Lemma new_row_fields what insert rows d digest r :
  new_audit_row what insert rows d digest = Ok r ->
  au_workspace_id r = ai_workspace_id (ad_input d) /\ au_sequence r = (last_audit_sequence (ai_workspace_id (ad_input d)) rows + 1)%N /\
  au_event_id r = ai_event_id (ad_input d) /\ au_idempotency_key r = ad_idempotency_key d /\ au_event_digest r = hex_encode digest.
Proof. unfold new_audit_row. cbv zeta. intros Hr. inv_ok Hr. by injection Hr as <-. Qed.

(** One operation: rows are kept but for their expiry, and one may be added
    with the next number of its workspace. *)
Lemma audit_execute_shape ws rows op :
  exists new, audit_identity <$> audit_execute ws rows op = (audit_identity <$> rows) ++ (audit_identity <$> new) /\
    (new = [] \/ exists r, new = [r] /\ au_sequence r = (last_audit_sequence (au_workspace_id r) rows + 1)%N).
Proof.
  destruct op as [d|d|id at_]; cbn [audit_execute].
  - unfold audit_append. destruct (_ ≫= _) as [[rows' rec]|] eqn:Ha; [|exists []; rewrite app_nil_r; auto].
    cbv zeta in Ha. inv_ok Ha. destruct (List.find _ rows).
    + inv_ok Ha. case_match; [|done]. injection Ha as <- _. exists []. rewrite app_nil_r. auto.
    + inv_ok Ha. injection Ha as <- _. exists [x1]. rewrite fmap_app. split; [done|]. right. exists x1. split; [done|].
      destruct (new_row_fields _ _ _ _ _ _ Hx1) as (-> & -> & _). done.
  - unfold append_maintenance_audit_tx. destruct (_ ≫= _) as [rows'|] eqn:Ha; [|exists []; rewrite app_nil_r; auto].
    cbv zeta in Ha. inv_ok Ha. destruct (List.find _ rows).
    + case_match; [|done]. injection Ha as <-. exists []. rewrite app_nil_r. auto.
    + inv_ok Ha. injection Ha as <-. exists [x1]. rewrite fmap_app. split; [done|]. right. exists x1. split; [done|].
      destruct (new_row_fields _ _ _ _ _ _ Hx1) as (-> & -> & _). done.
  - exists []. rewrite app_nil_r. split; [|by left]. unfold audit_expire.
    destruct (is_nil id); [done|]. cbv zeta. destruct (_ ≫= _) as [[rows' rec]|] eqn:Ha; [|done]. inv_ok Ha. injection Ha as <- _.
    rewrite <- list_fmap_compose. apply list_fmap_ext. intros i r _. apply expire_identity.
Qed.

Lemma workspace_identity ws rows : workspace_rows ws (audit_identity <$> rows) = audit_identity <$> workspace_rows ws rows.
Proof.
  induction rows as [|r rows IH]; [done|]. unfold workspace_rows in *. rewrite fmap_cons, !filter_cons, IH.
  change (of_workspace ws (audit_identity r)) with (of_workspace ws r). by case_decide.
Qed.
Lemma sequence_identity (rows : list AuditRow) : au_sequence <$> (audit_identity <$> rows) = au_sequence <$> rows.
Proof. rewrite <- list_fmap_compose. by apply list_fmap_ext. Qed.
Definition gapless (rows : list AuditRow) (ws : Uuid) : Prop :=
  au_sequence <$> workspace_rows ws rows = N.of_nat <$> seq 1 (length (workspace_rows ws rows)).
Lemma gapless_identity rows ws : gapless (audit_identity <$> rows) ws <-> gapless rows ws.
Proof. unfold gapless. by rewrite workspace_identity, sequence_identity, length_fmap. Qed.
Lemma gapless_add rows r ws :
  gapless rows ws -> au_sequence r = (last_audit_sequence (au_workspace_id r) rows + 1)%N -> gapless (rows ++ [r]) ws.
Proof.
  unfold gapless, workspace_rows. intros Hg Hr. rewrite filter_app, filter_cons, filter_nil. case_decide as Hw; [|by rewrite app_nil_r].
  apply Is_true_true, N.eqb_eq in Hw. rewrite fmap_app, length_app, seq_app, fmap_app, Hg. cbn. do 2 f_equal. rewrite Hr, Hw.
  unfold last_audit_sequence, workspace_rows. rewrite foldr_max_fmap, Hg, max_seq. lia.
Qed.
Lemma gapless_step ws rows op w : gapless rows w -> gapless (audit_execute ws rows op) w.
Proof.
  intros Hg. destruct (audit_execute_shape ws rows op) as (new & Heq & Hnew). apply gapless_identity. rewrite Heq, <- fmap_app.
  apply gapless_identity. destruct Hnew as [->|(r & -> & Hr)]; [by rewrite app_nil_r|by apply gapless_add].
Qed.

(** In every state of the audit log the events of a workspace are numbered
    1, 2, 3, ... in the order they were appended, and whatever operation
    follows, every row stays where it is with everything but its expiry, and
    at most one row is added at the end. *)
Theorem audit_log_append_only ws ops op :
  let rows := audit_log ws ops in
  (forall workspace, gapless rows workspace) /\
  exists new, audit_identity <$> audit_execute ws rows op = (audit_identity <$> rows) ++ new /\ (length new <= 1)%nat.
Proof.
  cbv zeta. split.
  - intros w. unfold audit_log. assert (gapless [] w) as Hg by done. revert Hg. generalize (@nil AuditRow).
    induction ops as [|o ops IH]; intros rows Hg; [done|]. by apply IH, gapless_step.
  - destruct (audit_execute_shape ws (audit_log ws ops) op) as (new & Heq & Hnew). eexists. split; [exact Heq|].
    rewrite length_fmap. destruct Hnew as [->|(r & -> & _)]; cbn; lia.
Qed.

(** *** Replay *)

Lemma same_event_identity d r : same_event d (audit_identity r) = same_event d r.
Proof. done. Qed.
Lemma find_identity d rows : audit_identity <$> List.find (same_event d) rows = List.find (same_event d) (audit_identity <$> rows).
Proof. induction rows as [|r rows IH]; [done|]. cbn. rewrite same_event_identity. by destruct (same_event d r). Qed.
Lemma find_kept d rows r new : List.find (same_event d) rows = Some r -> List.find (same_event d) (rows ++ new) = Some r.
Proof. induction rows as [|x rows IH]; [done|]. cbn. by destruct (same_event d x). Qed.
(** The row an event is found under stays the one. *)
Lemma find_later ws d rows r ops :
  List.find (same_event d) rows = Some r ->
  exists r', List.find (same_event d) (foldl (audit_execute ws) rows ops) = Some r' /\ audit_identity r' = audit_identity r.
Proof.
  revert rows r. induction ops as [|op ops IH]; intros rows r Hf; [by exists r|]. cbn.
  destruct (audit_execute_shape ws rows op) as (new & Heq & _).
  assert (audit_identity <$> List.find (same_event d) (audit_execute ws rows op) = Some (audit_identity r)) as Hr.
  { rewrite find_identity, Heq. apply find_kept. rewrite <- find_identity, Hf. done. }
  destruct (List.find (same_event d) (audit_execute ws rows op)) as [r1|] eqn:Hr1; [|done].
  pose proof (Some_inj _ _ Hr : audit_identity r1 = audit_identity r) as Hid. destruct (IH _ _ Hr1) as (r2 & Hf2 & Hr2). exists r2. split; [done|]. congruence.
Qed.
Lemma record_identity r rec :
  record_from_row r = Some rec ->
  forall r', audit_identity r' = audit_identity r ->
  exists rec', record_from_row r' = Some rec' /\ ae_event_digest rec' = ae_event_digest rec /\ ae_payload rec' = ae_payload rec /\
    ae_row rec' = r'.
Proof.
  unfold record_from_row. intros Hr r' Heq. injection Heq as ? ? ? ? ? ? ? ? ? ? ? ? Hb Ha Hl ? Hp ? Hd. rewrite Hb, Ha, Hl, Hp, Hd.
  destruct (audit_hex_decode _); [|done]. destruct (parse_optional_json (au_before_json r)); [|done].
  destruct (parse_optional_json (au_after_json r)); [|done]. destruct (lineage_parse _); [|done]. destruct (json_parse _); [|done].
  cbn in *. injection Hr as <-. eauto.
Qed.
End audit.

(** SHA-256 gives 32 bytes. *)
Class Sha256Bytes `{JobCodec} : Prop := {
  sha256_length b : length (sha256 b) = 32%nat;
  sha256_bytes b : Forall is_byte (sha256 b);
}.

Section replay.
Context `{JobCodec} `{!Sha256Bytes} `{AuditCodec}.

Lemma decode_encode bytes : audit_hex_decode (hex_encode (sha256 bytes)) = Some (sha256 bytes).
Proof.
  unfold audit_hex_decode. rewrite hex_length by apply sha256_bytes. unfold len. rewrite sha256_length. cbn.
  rewrite hex_bytes by apply sha256_bytes. apply hex_pairs_encode, sha256_bytes.
Qed.
Lemma record_digest r rec : record_from_row r = Some rec -> audit_hex_decode (au_event_digest r) = Some (ae_event_digest rec) /\ ae_row rec = r.
Proof.
  unfold record_from_row. destruct (audit_hex_decode _); [|done]. destruct (parse_optional_json (au_before_json r)); [|done].
  destruct (parse_optional_json (au_after_json r)); [|done]. destruct (lineage_parse _); [|done]. destruct (json_parse _); [|done].
  cbn. by intros [= <-].
Qed.
Lemma find_last d rows r : List.find (same_event d) rows = None -> same_event d r = true -> List.find (same_event d) (rows ++ [r]) = Some r.
Proof. induction rows as [|x rows IH]; cbn; [by intros _ ->|]. by destruct (same_event d x). Qed.

(** After an append the event is found, with its digest. *)
Lemma append_found ws rows d rows1 rec :
  audit_append ws rows d = Ok (rows1, rec) ->
  exists digest, audit_digest d = Ok digest /\ ae_event_digest rec = digest /\ List.find (same_event d) rows1 = Some (ae_row rec) /\
    record_from_row (ae_row rec) = Some rec.
Proof.
  unfold audit_append. intros Ha. cbv zeta in Ha. inv_ok Ha. exists x0. split; [done|]. destruct (List.find _ rows) as [old|] eqn:Hf.
  - inv_ok Ha. apply ok_or_Ok in Hx1. case_bool_decide as Hd; [|done]. injection Ha as <- <-.
    destruct (record_digest _ _ Hx1) as [_ <-] in *. done.
  - inv_ok Ha. injection Ha as <- <-. apply ok_or_Ok in Hx2. destruct (record_digest _ _ Hx2) as [Hdec Hrow].
    destruct (new_row_fields _ _ _ _ _ _ Hx1) as (Hw & _ & Hid & _ & Hdig). unfold audit_digest in Hx0. inv_ok Hx0. injection Hx0 as <-.
    rewrite Hdig, decode_encode in Hdec. injection Hdec as Hdec. rewrite Hrow. split_and!; [done| |done].
    apply find_last; [done|]. unfold same_event. by rewrite Hw, Hid, !N.eqb_refl.
Qed.
Lemma append_known ws rows d digest r rec :
  validate_audit_draft d = Ok tt -> audit_digest d = Ok digest -> is_Some (ws !! ai_workspace_id (ad_input d)) ->
  List.find (same_event d) rows = Some r -> record_from_row r = Some rec -> ae_event_digest rec = digest ->
  audit_append ws rows d = Ok (rows, rec).
Proof.
  intros Hv Hd Hw Hf Hr He. unfold audit_append. rewrite Hv, Hd. cbn. rewrite bool_decide_eq_true_2 by done. cbn.
  rewrite Hf, Hr. cbn. by rewrite bool_decide_eq_true_2.
Qed.

(** Appending an audit event is idempotent for good: once an event has
    been appended, then after any further appends, receipts and expiries,
    appending it again leaves the log as it is and returns the same event
    with the same digest, expired or not. *)
Theorem audit_append_idempotent ws rows d rows1 rec ops :
  audit_append ws rows d = Ok (rows1, rec) ->
  let rows2 := foldl (audit_execute ws) rows1 ops in
  exists rec2, audit_append ws rows2 d = Ok (rows2, rec2) /\ audit_identity (ae_row rec2) = audit_identity (ae_row rec) /\
    ae_event_digest rec2 = ae_event_digest rec /\ ae_payload rec2 = ae_payload rec.
Proof.
  intros Ha rows2. destruct (append_found _ _ _ _ _ Ha) as (digest & Hd & Hdig & Hf & Hr).
  destruct (find_later ws d rows1 (ae_row rec) ops Hf) as (r2 & Hf2 & Hid).
  destruct (record_identity _ _ Hr r2 Hid) as (rec2 & Hr2 & Hdig2 & Hpay & Hrow). exists rec2. rewrite Hrow.
  split_and!; [|exact Hid|exact Hdig2|exact Hpay]. apply (append_known ws rows2 d digest r2 rec2); [|exact Hd| |exact Hf2|exact Hr2|congruence].
  - unfold audit_append in Ha. by apply bind_Ok in Ha as ([] & Hv & _).
  - unfold audit_append in Ha. cbv zeta in Ha. inv_ok Ha. by bools.
Qed.
End replay.

(** ** On a sample *)

#[export] Instance sample_sha_bytes : Sha256Bytes.
Proof.
  split; intros b; [done|]. apply Forall_replicate. unfold is_byte.
  pose proof (N.mod_lt (foldr N.add 0%N b) 255%N). lia.
Qed.
#[export] Instance sample_audit_codec : AuditCodec := {|
  audit_input_bytes i := Some [ai_event_id i];
  scope_bytes s := Some [aq_workspace_id s];
  lineage_print _ := Some "[]";
  lineage_parse _ := Some [];
|}.
Definition sample_audit (id : Uuid) : AuditEventDraft :=
  mkAuditDraft (mkAuditInput id AUDIT_VERSION 1%N 5%Z (mkActor ActorSystem "system") "job.submit" "requested" "request" None None
                  (mkObject "job" 10%N) None None [] None (JObject [])) (Some "key").
Lemma audit_append_idempotent_witness :
  exists rows1 rec rec2, audit_append {[1%N := "active"]} [] (sample_audit 7%N) = Ok (rows1, rec) /\
    let rows2 := foldl (audit_execute {[1%N := "active"]}) rows1 [AuditExpire 7%N 9%Z] in
    audit_append {[1%N := "active"]} rows2 (sample_audit 7%N) = Ok (rows2, rec2) /\ ae_event_digest rec2 = ae_event_digest rec.
Proof.
  assert (exists rows1 rec, audit_append {[1%N := "active"]} [] (sample_audit 7%N) = Ok (rows1, rec)) as (rows1 & rec & Ha)
    by (vm_compute; eauto).
  destruct (audit_append_idempotent _ _ _ _ _ [AuditExpire 7%N 9%Z] Ha) as (rec2 & H2 & _ & Hd & _).
  exists rows1, rec, rec2. split; [exact Ha|]. split; [exact H2|exact Hd].
Defined.
