(* ===== verification/Retention.v ===== *)
(** * Retention: [stillflow-storage/src/retention.rs]

    One maintenance pass: objects that are old enough get a tombstone, and
    objects whose tombstone is old enough are deleted, in one transaction
    with its audit receipts.  The files of a snapshot are not part of the
    transaction: what has been removed stays removed. *)

From S2P Require Import Prelude Text Secrets Logical Nodes Schedule Automation Hex Executions Canonical Operations Jobs Submissions Outputs Lifecycle Reports Life Refines Reachable Sample AuditLog.

Definition RETENTION_POLICY_VERSION : N := 1.
Definition MAX_RETENTION_DAYS : N := 3650.
Definition NANOS_PER_SECOND : N := 1000000000.

Inductive RetentionObjectKind := RetDataset | RetSnapshot | RetArtifact | RetEvent | RetRun.
#[export] Instance RetentionObjectKind_eq_dec : EqDecision RetentionObjectKind.
Proof. solve_decision. Defined.
Definition retention_kind_text (k : RetentionObjectKind) : string :=
  match k with
  | RetDataset => "dataset" | RetSnapshot => "snapshot" | RetArtifact => "artifact" | RetEvent => "event" | RetRun => "run"
  end.

(** Durations in nanoseconds. *)
Record RetentionPolicy := mkPolicy {
  rp_version : N;
  rp_dataset : N;
  rp_snapshot : N;
  rp_artifact : N;
  rp_event : N;
  rp_run : N;
  rp_max_candidates : N;
}.
Definition policy_duration (p : RetentionPolicy) (k : RetentionObjectKind) : N :=
  match k with
  | RetDataset => rp_dataset p | RetSnapshot => rp_snapshot p | RetArtifact => rp_artifact p
  | RetEvent => rp_event p | RetRun => rp_run p
  end.
Definition policy_try_new (dataset snapshot artifact event run max_candidates : N) : Stored RetentionPolicy :=
  try! each (fun e => if (MAX_RETENTION_DAYS * 86400 <? e.1 / NANOS_PER_SECOND)%N then Err (InvalidConfiguration e.2) else Ok tt)
         [(dataset, "Dataset retention"); (snapshot, "Snapshot retention"); (artifact, "Artifact retention");
          (event, "Event retention"); (run, "Run retention")];
  if (max_candidates =? 0)%N || (MAX_MAINTENANCE_CANDIDATES <? max_candidates)%N
  then Err (InvalidConfiguration "retention candidate limit is outside the supported range") else
  Ok (mkPolicy RETENTION_POLICY_VERSION dataset snapshot artifact event run max_candidates).
Definition days (n : N) : N := n * 86400 * NANOS_PER_SECOND.
Definition default_policy : RetentionPolicy :=
  mkPolicy RETENTION_POLICY_VERSION (days 30) (days 30) (days 30) (days 90) (days 90) MAX_MAINTENANCE_CANDIDATES.
Definition validate_policy (p : RetentionPolicy) : Stored unit :=
  if negb (rp_version p =? RETENTION_POLICY_VERSION)%N
  then Err (InvalidConfiguration "unsupported retention policy version") else
  try! policy_try_new (rp_dataset p) (rp_snapshot p) (rp_artifact p) (rp_event p) (rp_run p) (rp_max_candidates p);
  Ok tt.

Record RetentionCandidate := mkRetentionCandidate {
  cd_kind : RetentionObjectKind;
  cd_object_id : Uuid;
  cd_workspace_id : option Uuid;
  cd_tombstoned_at : DateTime;
  cd_eligible_at : DateTime;
}.
Record RetentionReport := mkReport {
  rr_dry_run : bool;
  rr_examined : N;
  rr_tombstoned : N;
  rr_deleted : N;
  rr_retained : N;
  rr_audited : N;
  rr_candidates : list RetentionCandidate;
}.
Definition report_new (dry_run : bool) : RetentionReport := mkReport dry_run 0 0 0 0 0 [].
(** [u32::saturating_add] *)
Definition sat32 (a b : N) : N := N.min (a + b) u32_max.
Definition add_legacy (r : RetentionReport) (examined deleted retained : N) : RetentionReport :=
  mkReport (rr_dry_run r) (sat32 (rr_examined r) examined) (rr_tombstoned r) (sat32 (rr_deleted r) deleted)
    (sat32 (rr_retained r) retained) (rr_audited r) (rr_candidates r).
Definition count_tombstoned (r : RetentionReport) : RetentionReport :=
  mkReport (rr_dry_run r) (rr_examined r) (sat32 (rr_tombstoned r) 1) (rr_deleted r) (rr_retained r) (rr_audited r) (rr_candidates r).
Definition count_deleted (r : RetentionReport) : RetentionReport :=
  mkReport (rr_dry_run r) (rr_examined r) (rr_tombstoned r) (sat32 (rr_deleted r) 1) (rr_retained r) (rr_audited r) (rr_candidates r).
Definition count_retained (r : RetentionReport) : RetentionReport :=
  mkReport (rr_dry_run r) (rr_examined r) (rr_tombstoned r) (rr_deleted r) (sat32 (rr_retained r) 1) (rr_audited r) (rr_candidates r).
Definition count_audited (r : RetentionReport) : RetentionReport :=
  mkReport (rr_dry_run r) (rr_examined r) (rr_tombstoned r) (rr_deleted r) (rr_retained r) (sat32 (rr_audited r) 1) (rr_candidates r).
Definition push_candidate (c : RetentionCandidate) (r : RetentionReport) : RetentionReport :=
  mkReport (rr_dry_run r) (sat32 (rr_examined r) 1) (rr_tombstoned r) (rr_deleted r) (rr_retained r) (rr_audited r) (rr_candidates r ++ [c]).

(** ** The store, as retention sees it *)

Record TombstoneRow := mkTombstone {
  ts_kind : RetentionObjectKind;
  ts_object_id : Uuid;
  ts_workspace_id : option Uuid;
  ts_tombstoned_at : DateTime;
  ts_eligible_at : DateTime;
}.
Record Archive := mkArchive {
  tables : Tables;
  (** [created_at_utc] of the datasets, and of the snapshots with [tombstoned_at_utc] *)
  dataset_times : gmap Uuid DateTime;
  snapshot_times : gmap Uuid (DateTime * option DateTime);
  retention_tombstones : list TombstoneRow;
  audit_events : list AuditRow;
}.
Definition set_tables (t : Tables) (a : Archive) : Archive :=
  mkArchive t (dataset_times a) (snapshot_times a) (retention_tombstones a) (audit_events a).
Definition set_tombstones (l : list TombstoneRow) (a : Archive) : Archive :=
  mkArchive (tables a) (dataset_times a) (snapshot_times a) l (audit_events a).
Definition set_snapshot_times (m : gmap Uuid (DateTime * option DateTime)) (a : Archive) : Archive :=
  mkArchive (tables a) (dataset_times a) m (retention_tombstones a) (audit_events a).
Definition set_audit (rows : list AuditRow) (a : Archive) : Archive :=
  mkArchive (tables a) (dataset_times a) (snapshot_times a) (retention_tombstones a) rows.
Definition set_datasets (m : gmap Uuid (Uuid * string)) (c : Catalog) : Catalog :=
  mkCatalog (cp_workspaces c) (cp_sessions c) (cp_plans c) (cp_plan_versions c) (cp_assets c) (cp_connections c) m (snapshots c)
    (verification_bundles c) (qd1_profile_history c).
Definition set_snapshots (m : gmap Uuid SnapshotRow) (c : Catalog) : Catalog :=
  mkCatalog (cp_workspaces c) (cp_sessions c) (cp_plans c) (cp_plan_versions c) (cp_assets c) (cp_connections c) (cp_datasets c) m
    (verification_bundles c) (qd1_profile_history c).

(** ** Candidates *)

(** Of rows of some table, those that satisfy a query. *)
Definition rows_where {A} (p : Uuid * A -> bool) (m : gmap Uuid A) : list (Uuid * A) := filter (fun e => p e) (map_to_list m).
Definition any_where {A} (p : Uuid * A -> bool) (m : gmap Uuid A) : bool := existsb p (map_to_list m).

Definition snapshot_referenced (t : Tables) (id : Uuid) : bool :=
  any_where (fun e => bool_decide (a_external_ref_kind e.2 = "snapshot") && (a_external_ref_id e.2 =? id)%N
                      && bool_decide (a_state e.2 ∈ [Staged; Committed])) (cp_artifact_refs t).
Definition history_of (p : HistoryRow -> bool) (t : Tables) : bool := any_where (fun e => p e.2) (qd1_profile_history (catalog t)).
Definition comparison_of (p : ComparisonRow -> bool) (t : Tables) : bool := existsb (fun e => p e.2) (map_to_list (qd1_drift_comparisons t)).

(** A row of a query: identity, workspace and the time it is ordered by. *)
Record Aged := mkAged { ag_id : Uuid; ag_workspace : option Uuid; ag_time : DateTime }.
Definition aged_le (x y : Aged) : Prop := (ag_time x < ag_time y)%Z \/ ag_time x = ag_time y /\ (ag_id x <= ag_id y)%N.
#[export] Instance aged_le_dec : RelDecision aged_le.
Proof. intros x y. unfold aged_le. apply _. Defined.

Definition dataset_candidates (a : Archive) (cutoff : DateTime) : list Aged :=
  let t := tables a in
  filter (fun x => (ag_time x <=? cutoff)%Z)
    ((fun e => mkAged e.1 (Some e.2.1) (default 0%Z (dataset_times a !! e.1))) <$>
     rows_where (fun e => bool_decide (e.2.2 = "archived")
                          && negb (any_where (fun s => (sn_dataset_id s.2 =? e.1)%N) (snapshots (catalog t)))
                          && negb (history_of (fun h => (h_dataset_id h =? e.1)%N) t)) (cp_datasets (catalog t))).
Definition snapshot_candidates (a : Archive) (cutoff : DateTime) : list Aged :=
  let t := tables a in
  omap (fun e =>
    let times := default (0%Z, None) (snapshot_times a !! e.1) in
    let dataset := cp_datasets (catalog t) !! sn_dataset_id e.2 in
    if ((bool_decide (sn_state e.2 = 2%Z) && match times.2 with Some at_ => (at_ <=? cutoff)%Z | None => false end)
        || (bool_decide (sn_state e.2 = 1%Z) && bool_decide (snd <$> dataset = Some "archived") && (times.1 <=? cutoff)%Z))
       && negb (snapshot_referenced t e.1)
    then Some (mkAged e.1 (fst <$> dataset) (default times.1 times.2)) else None) (map_to_list (snapshots (catalog t))).
Definition artifact_candidates (a : Archive) (cutoff : DateTime) : list Aged :=
  let t := tables a in
  omap (fun e =>
    let at_ := default (a_created_at e.2) (a_tombstoned_at e.2) in
    if bool_decide (a_state e.2 ∈ [Committed; Tombstoned; AFailed]) && (at_ <=? cutoff)%Z
       && negb (history_of (fun h => (h_profile_artifact_id h =? e.1)%N) t)
       && negb (comparison_of (fun c => (cmp_report_artifact_id c =? e.1)%N) t)
    then Some (mkAged e.1 (Some (a_workspace_id e.2)) at_) else None) (map_to_list (cp_artifact_refs t)).
Definition job_ended (t : Tables) (job_id : Uuid) : bool :=
  match cp_jobs t !! job_id with Some j => job_is_terminal (j_state j) | None => false end.
Definition event_candidates (a : Archive) (cutoff : DateTime) : list Aged :=
  omap (fun e =>
    if job_ended (tables a) (ev_job_id e) && (ev_occurred_at e <=? cutoff)%Z
    then Some (mkAged (ev_event_id e) (Some (ev_workspace_id e)) (ev_occurred_at e)) else None) (cp_events (tables a)).
Definition run_candidates (a : Archive) (cutoff : DateTime) : list Aged :=
  let t := tables a in
  omap (fun e =>
    match r_finished_at e.2 with
    | Some at_ =>
        if run_is_terminal (r_state e.2) && (at_ <=? cutoff)%Z
           && negb (history_of (fun h => (h_producing_run_id h =? e.1)%N) t)
           && negb (comparison_of (fun c => (cmp_producing_run_id c =? e.1)%N) t)
        then Some (mkAged e.1 (Some (r_workspace_id (run_columns e.2))) at_) else None
    | None => None
    end) (map_to_list (cp_runs t)).

(** [exists(transaction, table, id)] selects by a column [id]; [cp_events] has
    [event_id] instead, and SQLite refuses the query. *)
Inductive RetentionTable := TDatasets | TSnapshots | TArtifactRefs | TEvents | TRuns.
Definition exists_row (a : Archive) (table : RetentionTable) (id : Uuid) : Stored bool :=
  let t := tables a in
  match table with
  | TDatasets => Ok (bool_decide (is_Some (cp_datasets (catalog t) !! id)))
  | TSnapshots => Ok (bool_decide (is_Some (snapshots (catalog t) !! id)))
  | TArtifactRefs => Ok (bool_decide (is_Some (cp_artifact_refs t !! id)))
  | TEvents => Err (Database "check retention object existence")
  | TRuns => Ok (bool_decide (is_Some (cp_runs t !! id)))
  end.

(** ** The disk: the directories of snapshots, kept through errors *)

Definition Disk (A : Type) : Type := gset Uuid -> gset Uuid * Stored A.
#[export] Instance disk_ret : MRet Disk := fun A x files => (files, Ok x).
#[export] Instance disk_bind : MBind Disk := fun A B f m files =>
  match m files with (files, Ok x) => f x files | (files, Err e) => (files, Err e) end.
Definition lift {A} (m : Stored A) : Disk A := fun files => (files, m).
Fixpoint fold_disk {S A} (f : S -> A -> Disk S) (s : S) (l : list A) : Disk S :=
  match l with [] => mret s | x :: l => s' ← f s x; fold_disk f s' l end.

Section retention.
Context `{JobCodec} `{AuditCodec}.
(** Whether a time is one [chrono] has; what [remove_uuid_directory] does with
    the directory of a snapshot ([Ok false] when it is left alone); and the
    collection of snapshots and exports that runs afterwards. *)
Context (datetime_in_range : DateTime -> bool) (remove_directory : Uuid -> Stored bool)
        (legacy_garbage : DateTime -> N -> Stored (N * N * N)).

(** *** Times *)

(** [chrono::Duration::from_std] has milliseconds in an [i64]. *)
Definition from_std (duration : N) : option Z :=
  if (duration / 1000000 <=? i64_max)%N then Some (Z.of_N duration) else None.
Definition checked_time (t : DateTime) : option DateTime := if datetime_in_range t then Some t else None.
Definition cutoff (now : DateTime) (retention : N) (label : string) : Stored DateTime :=
  duration ← ok_or (from_std retention) (ArithmeticOverflow label);
  ok_or (checked_time (now - duration)%Z) (ArithmeticOverflow label).
Definition eligible_at (tombstoned_at : DateTime) (retention : N) : Stored DateTime :=
  duration ← ok_or (from_std retention) (ArithmeticOverflow "retention eligibility");
  ok_or (checked_time (tombstoned_at + duration)%Z) (ArithmeticOverflow "retention eligibility").

(** *** Planning *)

Definition add_candidate (p : RetentionPolicy) (k : RetentionObjectKind) (r : RetentionReport) (x : Aged) : Stored RetentionReport :=
  if (rp_max_candidates p <=? len (rr_candidates r))%N then Ok r else
  eligible ← eligible_at (ag_time x) (policy_duration p k);
  Ok (push_candidate (mkRetentionCandidate k (ag_id x) (ag_workspace x) (ag_time x) eligible) r).
Definition remaining (p : RetentionPolicy) (r : RetentionReport) : N := rp_max_candidates p - len (rr_candidates r).
(** One query: nothing when the limit is reached. *)
Definition candidates_of (p : RetentionPolicy) (k : RetentionObjectKind) (rows : list Aged) (r : RetentionReport) : Stored RetentionReport :=
  if (remaining p r =? 0)%N then Ok r else
  fold_result (add_candidate p k) r (take (N.to_nat (remaining p r)) (merge_sort aged_le rows)).
Definition collect_candidates (a : Archive) (now : DateTime) (p : RetentionPolicy) (r : RetentionReport) : Stored RetentionReport :=
  dataset_cutoff ← cutoff now (rp_dataset p) "Dataset retention cutoff";
  snapshot_cutoff ← cutoff now (rp_snapshot p) "Snapshot retention cutoff";
  artifact_cutoff ← cutoff now (rp_artifact p) "Artifact retention cutoff";
  event_cutoff ← cutoff now (rp_event p) "Event retention cutoff";
  run_cutoff ← cutoff now (rp_run p) "Run retention cutoff";
  r ← candidates_of p RetDataset (dataset_candidates a dataset_cutoff) r;
  r ← candidates_of p RetSnapshot (snapshot_candidates a snapshot_cutoff) r;
  r ← candidates_of p RetArtifact (artifact_candidates a artifact_cutoff) r;
  r ← candidates_of p RetEvent (event_candidates a event_cutoff) r;
  candidates_of p RetRun (run_candidates a run_cutoff) r.
Definition plan (a : Archive) (now : DateTime) (p : RetentionPolicy) : Stored RetentionReport :=
  try! validate_policy p;
  collect_candidates a now p (report_new true).

(** *** Tombstones *)

Definition is_tombstone (k : RetentionObjectKind) (id : Uuid) (r : TombstoneRow) : bool :=
  bool_decide (ts_kind r = k) && (ts_object_id r =? id)%N.
Definition tombstone_snapshot (now : DateTime) (id : Uuid) (a : Archive) : Archive :=
  let t := tables a in
  match snapshots (catalog t) !! id with
  | Some s =>
      if snapshot_referenced t id || negb (bool_decide (sn_state s = 1%Z)) then a else
      let row := mkSnapshot (sn_dataset_id s) (sn_session_id s) (sn_source_asset_id s) (sn_schema_fingerprint s) (sn_version s) 2 in
      let times := default (0%Z, None) (snapshot_times a !! id) in
      set_snapshot_times (<[id := (times.1, Some (default now times.2))]> (snapshot_times a))
        (set_tables (set_catalog (set_snapshots (<[id := row]> (snapshots (catalog t))) (catalog t)) t) a)
  | None => a
  end.
(** [tombstoned_at_utc = COALESCE(tombstoned_at_utc, now)] *)
Definition ref_tombstoned (now : DateTime) (r : ArtifactRow) : ArtifactRow :=
  mkArtifact (a_workspace_id r) (a_run_id r) (a_artifact_kind r) (a_external_ref_kind r) (a_external_ref_id r)
    (a_content_digest r) (a_metadata_json r) Tombstoned (a_created_at r) (a_committed_at r) (Some (default now (a_tombstoned_at r))).
Definition tombstone_artifact (now : DateTime) (id : Uuid) (a : Archive) : Archive :=
  let t := tables a in
  let refs := match cp_artifact_refs t !! id with
              | Some r => if bool_decide (a_state r = Committed) then <[id := ref_tombstoned now r]> (cp_artifact_refs t)
                          else cp_artifact_refs t
              | None => cp_artifact_refs t
              end in
  let bodies := match cp_artifact_bodies t !! id with
                | Some b => if bool_decide (b_state b = Committed) then <[id := body_set_state Tombstoned None b]> (cp_artifact_bodies t)
                            else cp_artifact_bodies t
                | None => cp_artifact_bodies t
                end in
  set_tables (set_artifacts refs bodies t) a.
Definition tombstone_candidate (now : DateTime) (p : RetentionPolicy) (a : Archive) (c : RetentionCandidate)
  : Stored (Archive * bool) :=
  eligible ← eligible_at now (policy_duration p (cd_kind c));
  let known := existsb (is_tombstone (cd_kind c) (cd_object_id c)) (retention_tombstones a) in
  let row := mkTombstone (cd_kind c) (cd_object_id c) (cd_workspace_id c)
               (if (cd_tombstoned_at c <? now)%Z then cd_tombstoned_at c else now) eligible in
  let a := if known then a else set_tombstones (retention_tombstones a ++ [row]) a in
  let a := match cd_kind c with
           | RetSnapshot => tombstone_snapshot now (cd_object_id c) a
           | RetArtifact => tombstone_artifact now (cd_object_id c) a
           | _ => a
           end in
  Ok (a, negb known).

(** *** Deleting *)

Definition delete_dataset (id : Uuid) (a : Archive) : Stored (Archive * bool) :=
  let t := tables a in
  if any_where (fun e => (sn_dataset_id e.2 =? id)%N) (snapshots (catalog t))
     || history_of (fun h => (h_dataset_id h =? id)%N) t || comparison_of (fun c => (cmp_dataset_id c =? id)%N) t
  then Ok (a, false) else
  match cp_datasets (catalog t) !! id with
  | Some row =>
      if bool_decide (row.2 = "archived")
      then Ok (set_tables (set_catalog (set_datasets (delete id (cp_datasets (catalog t))) (catalog t)) t) a, true)
      else Ok (a, false)
  | None => Ok (a, true)
  end.

(** [delete_tombstoned_snapshot_files] *)
Definition delete_files (id : Uuid) : Disk bool := fun files =>
  match remove_directory id with
  | Ok true => (files ∖ {[id]}, Ok true)
  | Ok false => (files, Ok false)
  | Err e => (files, Err e)
  end.
(** The foreign key [cp_runs.snapshot_ref] of a snapshot that is deleted. *)
Definition delete_snapshot_row (id : Uuid) (a : Archive) : Stored (Archive * bool) :=
  let t := tables a in
  match snapshots (catalog t) !! id with
  | Some s =>
      if negb (bool_decide (sn_state s = 2%Z)) then Ok (a, false) else
      if any_where (fun e => bool_decide (r_snapshot_ref e.2 = Some id)) (cp_runs t)
      then Err (Database "delete Snapshot retention candidate") else
      Ok (set_tables (set_catalog (set_snapshots (delete id (snapshots (catalog t))) (catalog t)) t) a, true)
  | None => Ok (a, true)
  end.
Definition delete_snapshot (id : Uuid) (a : Archive) : Disk (Archive * bool) :=
  there ← lift (exists_row a TSnapshots id);
  if negb there then mret (a, true) else
  if snapshot_referenced (tables a) id then mret (a, false) else
  removed ← delete_files id;
  if negb removed then mret (a, false) else
  lift (delete_snapshot_row id a).

Definition delete_artifact (id : Uuid) (a : Archive) : Stored (Archive * bool) :=
  let t := tables a in
  there ← exists_row a TArtifactRefs id;
  if negb there then Ok (a, true) else
  if history_of (fun h => (h_profile_artifact_id h =? id)%N) t || comparison_of (fun c => (cmp_report_artifact_id c =? id)%N) t
     || match cp_artifact_refs t !! id with Some r => bool_decide (is_Some (cp_runs t !! a_run_id r)) | None => false end
  then Ok (a, false) else
  Ok (set_tables (set_artifacts (delete id (cp_artifact_refs t)) (delete id (cp_artifact_bodies t)) t) a, true).

Definition delete_event (id : Uuid) (a : Archive) : Stored (Archive * bool) :=
  let t := tables a in
  there ← exists_row a TEvents id;
  if negb there then Ok (a, true) else
  let kept := filter (fun e => negb ((ev_event_id e =? id)%N && job_ended t (ev_job_id e))) (cp_events t) in
  Ok (set_tables (set_events kept t) a, bool_decide (length kept < length (cp_events t))).

(** The artifacts of a run, and the keys that hold on to them. *)
Definition of_run (run_id : Uuid) (r : ArtifactRow) : Prop := a_run_id r = run_id.
#[export] Instance of_run_dec run_id r : Decision (of_run run_id r).
Proof. unfold of_run. apply _. Defined.
Definition run_artifacts (t : Tables) (run_id : Uuid) : gmap Uuid ArtifactRow := filter (fun e => of_run run_id e.2) (cp_artifact_refs t).
Definition drop_run_artifacts (run_id : Uuid) (t : Tables) : Stored Tables :=
  let gone := run_artifacts t run_id in
  let bodies := filter (fun e => gone !! e.1 = None) (cp_artifact_bodies t) in
  if history_of (fun h => bool_decide (is_Some (gone !! h_profile_artifact_id h))) t
     || comparison_of (fun c => bool_decide (is_Some (gone !! cmp_report_artifact_id c))) t
  then Err (Database "delete Run Artifact refs") else
  Ok (set_artifacts (filter (fun e => ~ of_run run_id e.2) (cp_artifact_refs t)) bodies t).
Definition drop_job_events (job_id : Uuid) (t : Tables) : Tables :=
  set_keys (filter (fun e => key_job_id e.2 <> job_id) (cp_idempotency_keys t))
    (set_events (filter (fun e => ev_job_id e <> job_id) (cp_events t)) t).
Definition drop_run_row (run_id : Uuid) (t : Tables) : Stored Tables :=
  match cp_runs t !! run_id with
  | Some run =>
      if negb (run_is_terminal (r_state run)) then Ok t else
      if existsb (fun e => bool_decide (ev_run_id e = Some run_id)) (cp_events t)
      then Err (Database "delete Run retention candidate") else
      Ok (set_runs (delete run_id (cp_runs t)) t)
  | None => Ok t
  end.
Definition drop_job_row (job_id : Uuid) (t : Tables) : Stored Tables :=
  match cp_jobs t !! job_id with
  | Some job =>
      if negb (job_is_terminal (j_state job)) then Ok t else
      if any_where (fun e => (r_job_id (run_columns e.2) =? job_id)%N) (cp_runs t)
      then Err (Database "delete Job for Run retention") else
      Ok (set_jobs (delete job_id (cp_jobs t)) t)
  | None => Ok t
  end.
Definition delete_run (id : Uuid) (a : Archive) : Stored (Archive * bool) :=
  let t := tables a in
  there ← exists_row a TRuns id;
  if negb there then Ok (a, true) else
  if history_of (fun h => (h_producing_run_id h =? id)%N) t || comparison_of (fun c => (cmp_producing_run_id c =? id)%N) t
  then Ok (a, false) else
  run ← ok_or (cp_runs t !! id) (Database "read Run retention Job");
  let job_id := r_job_id (run_columns run) in
  t ← drop_run_artifacts id t;
  t ← drop_run_row id (drop_job_events job_id t);
  t ← drop_job_row job_id t;
  Ok (set_tables t a, negb (bool_decide (is_Some (cp_runs t !! id)))).

Definition delete_candidate (a : Archive) (k : RetentionObjectKind) (id : Uuid) : Disk (Archive * bool) :=
  match k with
  | RetDataset => lift (delete_dataset id a)
  | RetSnapshot => delete_snapshot id a
  | RetArtifact => lift (delete_artifact id a)
  | RetEvent => lift (delete_event id a)
  | RetRun => lift (delete_run id a)
  end.

(** [ORDER BY CASE object_kind ... END, eligible_at_utc, object_id] *)
Definition kind_order (k : RetentionObjectKind) : N :=
  match k with RetRun => 1 | RetEvent => 2 | RetArtifact => 3 | RetSnapshot => 4 | RetDataset => 5 end.
Definition tombstone_le (x y : TombstoneRow) : Prop :=
  (kind_order (ts_kind x) < kind_order (ts_kind y))%N \/ kind_order (ts_kind x) = kind_order (ts_kind y) /\
  ((ts_eligible_at x < ts_eligible_at y)%Z \/ ts_eligible_at x = ts_eligible_at y /\ (ts_object_id x <= ts_object_id y)%N).
#[global] Instance tombstone_le_dec : RelDecision tombstone_le.
Proof. intros x y. unfold tombstone_le. apply _. Defined.
(** The tombstones a pass deletes by. *)
Definition eligible_tombstones (a : Archive) (now : DateTime) (p : RetentionPolicy) : list TombstoneRow :=
  take (N.to_nat (rp_max_candidates p))
    (merge_sort tombstone_le (filter (fun r => ts_eligible_at r <=? now)%Z (retention_tombstones a))).
Definition collect_tombstone (s : Archive * RetentionReport) (r : TombstoneRow) : Disk (Archive * RetentionReport) :=
  done_ ← delete_candidate s.1 (ts_kind r) (ts_object_id r);
  if done_.2 : bool
  then mret (set_tombstones (filter (fun x => negb (is_tombstone (ts_kind r) (ts_object_id r) x)) (retention_tombstones done_.1)) done_.1,
             count_deleted s.2)
  else mret (done_.1, count_retained s.2).
Definition collect_tombstones (a : Archive) (now : DateTime) (p : RetentionPolicy) (r : RetentionReport)
  : Disk (Archive * RetentionReport) := fold_disk collect_tombstone (a, r) (eligible_tombstones a now p).

(** *** The receipt *)

(** [Uuid::as_bytes] and [Uuid::from_bytes] of 16 bytes, the first the
    highest. *)
Definition uuid_bytes (id : Uuid) : list N := (fun i => N.land (N.shiftr id (8 * N.of_nat i)) 255) <$> reverse (seq 0 16).
Definition uuid_from_bytes (bytes : list N) : Uuid := foldl (fun acc b => N.lor (N.shiftl acc 8) b) 0%N bytes.

Section receipt.
(** [to_rfc3339_opts(SecondsFormat::Nanos, true)] *)
Context (format_timestamp : DateTime -> string).

Definition retention_receipt (workspace : Uuid) (now : DateTime) (r : RetentionReport) : AuditEventDraft :=
  let event_id := uuid_from_bytes (take 16 (sha256 (uuid_bytes workspace ++ bytes_of (format_timestamp now)))) in
  let idempotency := "ops-o2:" +:+ uuid_text workspace +:+ ":" +:+ format_timestamp now in
  let count n := JNumber (PosInt n) in
  let payload := JObject [("policyVersion", count RETENTION_POLICY_VERSION); ("dryRun", JBool false);
                          ("examined", count (rr_examined r)); ("tombstoned", count (rr_tombstoned r));
                          ("deleted", count (rr_deleted r)); ("retained", count (rr_retained r))] in
  mkAuditDraft (mkAuditInput event_id AUDIT_VERSION workspace now (mkActor ActorSystem "system:retention") "retention.collect"
                  "ops-o2-policy" idempotency (Some idempotency) None (mkObject "workspace" workspace) None (Some payload) [] None
                  payload) (Some idempotency).
Definition append_retention_audit (now : DateTime) (s : Archive * RetentionReport) (workspace : Uuid) : Stored (Archive * RetentionReport) :=
  rows ← append_maintenance_audit_tx (cp_workspaces (catalog (tables s.1))) (audit_events s.1) (retention_receipt workspace now s.2);
  Ok (set_audit rows s.1, count_audited s.2).
(** A [BTreeSet] of the workspaces of the candidates. *)
Definition audited_workspaces (cs : list RetentionCandidate) : list Uuid :=
  merge_sort (fun x y => (x <= y)%N) (elements (list_to_set (omap cd_workspace_id cs) : gset Uuid)).

(** *** A pass *)

Definition collect_tx (a : Archive) (now : DateTime) (p : RetentionPolicy) : Disk (Archive * RetentionReport) :=
  r ← lift (collect_candidates a now p (report_new false));
  marked ← lift (fold_result (fun s c =>
                    done_ ← tombstone_candidate now p s.1 c;
                    Ok (done_.1, if done_.2 : bool then count_tombstoned s.2 else s.2)) (a, r) (rr_candidates r));
  collected ← collect_tombstones marked.1 now p marked.2;
  lift (fold_result (append_retention_audit now) collected (audited_workspaces (rr_candidates r))).
(** The files, the store and the answer: what the transaction did is kept when
    it has committed, whatever the garbage collection says then. *)
Definition collect_retention (a : Archive) (files : gset Uuid) (now : DateTime) (p : RetentionPolicy) (dry_run : bool)
  : gset Uuid * Archive * Stored RetentionReport :=
  match validate_policy p with
  | Err e => (files, a, Err e)
  | Ok _ =>
      if dry_run then (files, a, plan a now p) else
      match collect_tx a now p files with
      | (files, Err e) => (files, a, Err e)
      | (files, Ok (a, report)) =>
          (files, a,
           snapshot_cutoff ← cutoff now (rp_snapshot p) "Snapshot retention cutoff";
           legacy ← legacy_garbage snapshot_cutoff (rp_max_candidates p);
           let '(examined, deleted, retained) := legacy in
           Ok (add_legacy report examined deleted retained))
      end
  end.
End receipt.
End retention.
