(* ===== verification/Collected.v ===== *)
(** * What a retention pass does

    Theorems about [Retention]: what the deletion of a run takes with it,
    what it leaves, and what stops a pass. *)

From S2P Require Import Prelude Text Secrets Logical Nodes Schedule Automation Hex Executions Canonical Operations Jobs Submissions Outputs Lifecycle Reports Life Refines Reachable Sample Control AuditLog Retention.

(** What goes with a run: its artifacts, the events and keys of its job, and
    the job if it has ended. *)
Definition taken_with (id : Uuid) (run : RunRow) (t t' : Tables) : Prop :=
  let job_id := r_job_id (run_columns run) in
  cp_runs t' = delete id (cp_runs t) /\
  cp_artifact_refs t' = filter (fun e => a_run_id e.2 <> id) (cp_artifact_refs t) /\
  cp_events t' = filter (fun e => ev_job_id e <> job_id) (cp_events t) /\
  cp_idempotency_keys t' = filter (fun e => key_job_id e.2 <> job_id) (cp_idempotency_keys t) /\
  (forall i, i <> job_id -> cp_jobs t' !! i = cp_jobs t !! i) /\
  (forall job, cp_jobs t !! job_id = Some job -> cp_jobs t' !! job_id = if job_is_terminal (j_state job) then None else Some job) /\
  catalog t' = catalog t.

Section collected.
Context `{JobCodec} `{StoreFiles} `{AuditCodec}.
Context (datetime_in_range : DateTime -> bool) (remove_directory : Uuid -> Stored bool)
        (legacy_garbage : DateTime -> N -> Stored (N * N * N)) (format_timestamp : DateTime -> string).

(** ** Passes that cannot be finished *)

Lemma fold_disk_stuck {S A} (f : S -> A -> Disk S) x l :
  x ∈ l -> (forall s files, exists files' e, f s x files = (files', Err e)) ->
  forall s files, exists files' e, fold_disk f s l files = (files', Err e).
Proof.
  intros Hx Hf. induction l as [|y l IH]; [by apply elem_of_nil in Hx|]. intros s files. cbn. unfold mbind, disk_bind.
  destruct (f s y files) as [files' [s'|e]] eqn:Hy; [|by eauto]. apply elem_of_cons in Hx as [<-|Hx]; [|by apply IH].
  destruct (Hf s files) as (? & ? & He). congruence.
Qed.
Lemma event_tombstone_stuck row s files :
  ts_kind row = RetEvent -> exists files' e, collect_tombstone remove_directory s row files = (files', Err e).
Proof. intros Hk. unfold collect_tombstone. rewrite Hk. cbn. unfold mbind, disk_bind, lift, delete_event. cbn. eauto. Qed.

(** Marking a candidate keeps the tombstones there are. *)
Definition grown (now : DateTime) (a a' : Archive) : Prop :=
  exists new, retention_tombstones a' = retention_tombstones a ++ new /\ Forall (fun r => (now < ts_eligible_at r)%Z) new.
Lemma tombstones_same now a k id :
  retention_tombstones match k with
                       | RetSnapshot => tombstone_snapshot now id a
                       | RetArtifact => tombstone_artifact now id a
                       | _ => a
                       end = retention_tombstones a.
Proof. destruct k; try done. unfold tombstone_snapshot. by repeat case_match. Qed.
Lemma eligible_at_later now d t : eligible_at datetime_in_range now d = Ok t -> (0 < d)%N -> (now < t)%Z.
Proof.
  unfold eligible_at, from_std, checked_time. intros Ht Hd. inv_ok Ht. apply ok_or_Ok in Hx, Ht. repeat case_match; simplify_eq. lia.
Qed.
Lemma tombstone_grown now p a c a' b :
  (forall k, (0 < policy_duration p k)%N) -> tombstone_candidate datetime_in_range now p a c = Ok (a', b) -> grown now a a'.
Proof.
  intros Hp. unfold tombstone_candidate. cbv zeta. intros Ht. inv_ok Ht. injection Ht as <- _.
  apply eligible_at_later in Hx; [|done]. unfold grown. rewrite tombstones_same. destruct (existsb _ _); cbn.
  - exists []. by rewrite app_nil_r.
  - eexists [_]. split; [done|]. by constructor.
Qed.
Lemma marking_grown now p cs s s' :
  (forall k, (0 < policy_duration p k)%N) ->
  fold_result (fun s c => done_ ← tombstone_candidate datetime_in_range now p s.1 c;
                 Ok (done_.1, if done_.2 : bool then count_tombstoned s.2 else s.2)) s cs = Ok s' ->
  grown now s.1 s'.1.
Proof.
  intros Hp. revert s. induction cs as [|c cs IH]; intros s Ht; cbn in Ht.
  - injection Ht as <-. exists []. by rewrite app_nil_r.
  - apply bind_Ok in Ht as (s1 & Hs1 & Ht). apply bind_Ok in Hs1 as ([a1 b1] & Hc & [= <-]).
    destruct (tombstone_grown _ _ _ _ _ _ Hp Hc) as (n1 & Hq1 & F1). destruct (IH _ Ht) as (n2 & Hq2 & F2). cbn in Hq2.
    exists (n1 ++ n2). rewrite Hq2, Hq1, <- app_assoc. split; [done|]. by apply Forall_app.
Qed.
Lemma eligible_in a now p row :
  row ∈ retention_tombstones a -> (ts_eligible_at row <= now)%Z ->
  (length (filter (fun r => ts_eligible_at r <=? now)%Z (retention_tombstones a)) <= N.to_nat (rp_max_candidates p))%nat ->
  row ∈ eligible_tombstones a now p.
Proof.
  intros Hr He Hl. unfold eligible_tombstones. rewrite take_ge by (rewrite merge_sort_Permutation; exact Hl).
  rewrite merge_sort_Permutation, list_elem_of_filter. split; [|done]. apply Is_true_true. by apply Z.leb_le.
Qed.
Lemma grown_eligible now a a' :
  grown now a a' -> filter (fun r => ts_eligible_at r <=? now)%Z (retention_tombstones a') =
                    filter (fun r => ts_eligible_at r <=? now)%Z (retention_tombstones a).
Proof.
  intros (new & -> & Hnew). rewrite filter_app. assert (filter (fun r => ts_eligible_at r <=? now)%Z new = []) as ->; [|by rewrite app_nil_r].
  induction Hnew as [|r new Hr _ IH]; [done|]. rewrite filter_cons, decide_False; [done|]. rewrite Is_true_true, Z.leb_le. lia.
Qed.

(** A retention pass that meets the tombstone of an event cannot succeed:
    with any policy of positive durations, as long as the tombstones whose
    time has come fit into one pass, an event's tombstone among them makes
    the whole pass fail and the store stays as it was, so the next pass
    fails as well. *)
Theorem event_tombstone_stops_retention a files now p row :
  (forall k, (0 < policy_duration p k)%N) -> (length (retention_tombstones a) <= N.to_nat (rp_max_candidates p))%nat ->
  row ∈ retention_tombstones a -> ts_kind row = RetEvent -> (ts_eligible_at row <= now)%Z ->
  exists files' e,
    collect_retention datetime_in_range remove_directory legacy_garbage format_timestamp a files now p false = (files', a, Err e).
Proof.
  intros Hp Hl Hrow Hk He. unfold collect_retention. destruct (validate_policy p) as [u|e]; [|by eauto].
  assert (exists files' e, collect_tx datetime_in_range remove_directory format_timestamp a now p files = (files', Err e))
    as (files' & e & ->); [|by eauto].
  unfold collect_tx. unfold mbind at 1, disk_bind at 1, lift at 1.
  destruct (collect_candidates _ a now p _) as [r|]; [|by eauto]. unfold mbind at 1, disk_bind at 1, lift at 1.
  destruct (fold_result _ (a, r) (rr_candidates r)) as [marked|] eqn:Hm; [|by eauto].
  apply marking_grown in Hm; [|done]. cbn in Hm. pose proof (grown_eligible _ _ _ Hm) as Hsame.
  unfold mbind at 1, disk_bind at 1, collect_tombstones.
  destruct (fold_disk_stuck (collect_tombstone remove_directory) row (eligible_tombstones marked.1 now p)) with (s := (marked.1, marked.2)) (files := files)
    as (files' & e & ->); [| |by eauto].
  - apply eligible_in; [|done|].
    + destruct Hm as (new & -> & _). apply elem_of_app. by left.
    + rewrite Hsame. etrans; [|exact Hl]. apply length_filter.
  - intros s fs. by apply event_tombstone_stuck.
Qed.

(** A snapshot that a run still names loses its files: its deletion
    removes the directory first and is then refused by the run's reference,
    so the row stays, the pass fails and the files are gone. *)
Theorem referenced_snapshot_loses_files a id s run_id run files :
  snapshots (catalog (tables a)) !! id = Some s -> sn_state s = 2%Z -> snapshot_referenced (tables a) id = false ->
  cp_runs (tables a) !! run_id = Some run -> r_snapshot_ref run = Some id -> remove_directory id = Ok true ->
  delete_candidate remove_directory a RetSnapshot id files = (files ∖ {[id]}, Err (Database "delete Snapshot retention candidate")).
Proof.
  intros Hs Hst Href Hrun Hr Hrm. cbn. unfold delete_snapshot, mbind, disk_bind, lift, exists_row.
  rewrite Hs, bool_decide_eq_true_2 by done. cbn. rewrite Href. unfold delete_files. rewrite Hrm. cbn.
  unfold delete_snapshot_row. rewrite Hs, Hst. cbn. unfold any_where. 
  assert (existsb (fun e => bool_decide (r_snapshot_ref e.2 = Some id)) (map_to_list (cp_runs (tables a))) = true) as ->; [|done].
  apply existsb_exists. exists (run_id, run). split; [by apply list_elem_of_In, elem_of_map_to_list|]. cbn. by rewrite bool_decide_eq_true_2.
Qed.

(** An artifact is never collected by itself: in every state the control
    plane can reach an artifact's run is there, and while it is, the artifact
    is retained; it goes with its run. *)
Theorem artifact_goes_with_its_run a id files :
  reached (tables a) -> is_Some (cp_artifact_refs (tables a) !! id) ->
  delete_candidate remove_directory a RetArtifact id files = (files, Ok (a, false)).
Proof.
  intros Hok%reached_ok [r Hr]. destruct (life_artifacts _ Hok _ _ _ (life_artifact_lookup _ _ _ Hr)) as (rl & Hrl & _).
  apply lookup_fmap_Some in Hrl as (run & _ & Hrun). cbn. unfold lift, delete_artifact, exists_row.
  rewrite Hr, bool_decide_eq_true_2 by done. cbn.
  assert (bool_decide (is_Some (cp_runs (tables a) !! a_run_id r)) = true) as -> by (apply bool_decide_eq_true_2; by exists run).
  by rewrite orb_true_r.
Qed.

(** ** The collection of a run *)

Lemma delete_run_Ok a id a' run :
  cp_runs (tables a) !! id = Some run -> delete_run id a = Ok (a', true) ->
  exists t1 t2 t3, drop_run_artifacts id (tables a) = Ok t1 /\ drop_run_row id (drop_job_events (r_job_id (run_columns run)) t1) = Ok t2 /\
    drop_job_row (r_job_id (run_columns run)) t2 = Ok t3 /\ a' = set_tables t3 a /\ cp_runs t3 !! id = None.
Proof.
  intros Hrun Hd. unfold delete_run, exists_row in Hd. rewrite Hrun, bool_decide_eq_true_2 in Hd by done. cbn in Hd.
  destruct (history_of _ _ || _); [done|]. cbn in Hd. inv_ok Hd. injection Hd as <- Hgone.
  exists x, x0, x1. split_and!; [done..|]. apply negb_true_iff, bool_decide_eq_false in Hgone. by apply eq_None_not_Some.
Qed.
Lemma drop_artifacts_Ok id t t1 :
  drop_run_artifacts id t = Ok t1 ->
  t1 = set_artifacts (filter (fun e => ~ of_run id e.2) (cp_artifact_refs t)) (cp_artifact_bodies t1) t.
Proof. unfold drop_run_artifacts. cbv zeta. intros Hd. inv_ok Hd. by injection Hd as <-. Qed.
Lemma drop_run_row_Ok id t t1 : drop_run_row id t = Ok t1 -> cp_runs t1 !! id = None -> t1 = set_runs (delete id (cp_runs t)) t.
Proof.
  unfold drop_run_row. destruct (cp_runs t !! id) as [run|] eqn:Hrun.
  - repeat case_match; intros [= <-]; [|done]. by rewrite Hrun.
  - intros [= <-] _. rewrite delete_id by done. by destruct t.
Qed.
Lemma drop_job_row_Ok id t t1 :
  drop_job_row id t = Ok t1 ->
  exists jobs, t1 = set_jobs jobs t /\ (forall i, i <> id -> jobs !! i = cp_jobs t !! i) /\
    (jobs = cp_jobs t \/ jobs = delete id (cp_jobs t)) /\
    forall job, cp_jobs t !! id = Some job -> jobs !! id = if job_is_terminal (j_state job) then None else Some job.
Proof.
  unfold drop_job_row. destruct (cp_jobs t !! id) as [job|] eqn:Hjob.
  - destruct (job_is_terminal (j_state job)) eqn:Ht; cbn; [case_match; [done|]|]; intros [= <-].
    + exists (delete id (cp_jobs t)). split_and!; [done|intros i Hi; by rewrite lookup_delete_ne|by right|].
      intros j [= <-]. by rewrite Ht, lookup_delete_eq.
    + exists (cp_jobs t). split_and!; [by destruct t|done|by left|]. intros j [= <-]. by rewrite Ht.
  - intros [= <-]. exists (cp_jobs t). split_and!; [by destruct t|done|by left|done].
Qed.

Lemma delete_run_taken a id a' run :
  cp_runs (tables a) !! id = Some run -> delete_run id a = Ok (a', true) -> taken_with id run (tables a) (tables a').
Proof.
  intros Hrun Hd. unfold taken_with. cbv zeta. destruct (delete_run_Ok _ _ _ _ Hrun Hd) as (t1 & t2 & t3 & Hq1 & Hq2 & Hq3 & -> & Hgone).
  apply drop_job_row_Ok in Hq3 as (jobs & -> & Hother & _ & Hself). cbn in Hgone.
  apply drop_run_row_Ok in Hq2; [|done]. subst t2. apply drop_artifacts_Ok in Hq1. rewrite Hq1 in *. cbn in *.
  split_and!; [done|by apply map_filter_ext|done|done|exact Hother|exact Hself|done].
Qed.


(** Collecting a run takes everything of it and nothing else: its
    artifacts, every event and key of its job, the run, and the job if it has
    ended; jobs, runs, events, keys and artifacts of others stay as they
    are.  A job that has not ended stays without its run and its events. *)
Theorem run_collection_exact a id a' run :
  cp_runs (tables a) !! id = Some run -> delete_run id a = Ok (a', true) ->
  let t := tables a in let t' := tables a' in let job_id := r_job_id (run_columns run) in
  cp_runs t' = delete id (cp_runs t) /\
  cp_artifact_refs t' = filter (fun e => a_run_id e.2 <> id) (cp_artifact_refs t) /\
  cp_events t' = filter (fun e => ev_job_id e <> job_id) (cp_events t) /\
  cp_idempotency_keys t' = filter (fun e => key_job_id e.2 <> job_id) (cp_idempotency_keys t) /\
  (forall i, i <> job_id -> cp_jobs t' !! i = cp_jobs t !! i) /\
  (forall job, cp_jobs t !! job_id = Some job -> cp_jobs t' !! job_id = if job_is_terminal (j_state job) then None else Some job) /\
  catalog t' = catalog t.
Proof. intros Hrun Hd. exact (delete_run_taken a id a' run Hrun Hd). Qed.

(** ** Bounds of a plan *)

Lemma add_candidate_len p k r x r' :
  add_candidate datetime_in_range p k r x = Ok r' ->
  len (rr_candidates r') = N.max (len (rr_candidates r)) (N.min (rp_max_candidates p) (len (rr_candidates r) + 1)).
Proof.
  unfold add_candidate. destruct (_ <=? _)%N eqn:Hl; intros Hr.
  - injection Hr as <-. apply N.leb_le in Hl. lia.
  - inv_ok Hr. injection Hr as <-. apply N.leb_gt in Hl. cbn. unfold len in *. rewrite length_app. cbn. lia.
Qed.
Lemma add_candidates_len p k l r r' :
  fold_result (add_candidate datetime_in_range p k) r l = Ok r' ->
  len (rr_candidates r') = N.max (len (rr_candidates r)) (N.min (rp_max_candidates p) (len (rr_candidates r) + len l)).
Proof.
  revert r. induction l as [|x l IH]; intros r Hr; cbn in Hr.
  - injection Hr as <-. unfold len. cbn. lia.
  - apply bind_Ok in Hr as (r1 & Hx%add_candidate_len & Hr). rewrite (IH _ Hr), Hx. unfold len. cbn. lia.
Qed.
Lemma candidates_of_len p k rows r r' :
  candidates_of datetime_in_range p k rows r = Ok r' ->
  len (rr_candidates r') = N.max (len (rr_candidates r)) (N.min (rp_max_candidates p) (len (rr_candidates r) + len rows)).
Proof.
  unfold candidates_of, remaining. destruct (_ =? 0)%N eqn:Hz; intros Hr.
  - injection Hr as <-. apply N.eqb_eq in Hz. lia.
  - apply add_candidates_len in Hr. rewrite Hr. unfold len in *. rewrite length_take, merge_sort_Permutation. lia.
Qed.
Lemma add_candidates_kinds p k l r r' :
  fold_result (add_candidate datetime_in_range p k) r l = Ok r' ->
  exists new, rr_candidates r' = rr_candidates r ++ new /\ Forall (fun c => cd_kind c = k) new.
Proof.
  revert r. induction l as [|x l IH]; intros r Hr; cbn in Hr; [injection Hr as <-; exists []; by rewrite app_nil_r|].
  apply bind_Ok in Hr as (r1 & Hx & Hr). destruct (IH _ Hr) as (new & -> & Hnew). unfold add_candidate in Hx.
  destruct (_ <=? _)%N; [injection Hx as <-; by exists new|]. inv_ok Hx. injection Hx as <-. cbn.
  eexists (_ :: new). rewrite <- app_assoc. split; [done|]. by constructor.
Qed.
Lemma candidates_of_kinds p k rows r r' :
  candidates_of datetime_in_range p k rows r = Ok r' ->
  exists new, rr_candidates r' = rr_candidates r ++ new /\ Forall (fun c => cd_kind c = k) new.
Proof.
  unfold candidates_of. destruct (_ =? 0)%N; [|apply add_candidates_kinds]. intros [= <-]. exists []. by rewrite app_nil_r.
Qed.
(** A plan that is full takes nothing more. *)
Lemma candidates_of_full p k rows r : (rp_max_candidates p <= len (rr_candidates r))%N -> candidates_of datetime_in_range p k rows r = Ok r.
Proof. intros Hl. unfold candidates_of, remaining. by replace (_ =? 0)%N with true by (symmetry; apply N.eqb_eq; lia). Qed.

(** A plan has at most as many candidates as its limit, and artifacts
    that are only waiting for their runs can crowd the runs out: when the
    artifacts that are old enough fill the limit, no event and no run is
    ever a candidate, and so those artifacts stay as well. *)
Theorem artifacts_crowd_out_runs a now p r cut :
  collect_candidates datetime_in_range a now p (report_new false) = Ok r ->
  cutoff datetime_in_range now (rp_artifact p) "Artifact retention cutoff" = Ok cut ->
  (len (rr_candidates r) <= rp_max_candidates p)%N /\
  ((rp_max_candidates p <= len (artifact_candidates a cut))%N -> Forall (fun c => cd_kind c <> RetEvent /\ cd_kind c <> RetRun) (rr_candidates r)).
Proof.
  unfold collect_candidates. intros Hc Hcut. rewrite Hcut in Hc. cbn in Hc. inv_ok Hc.
  pose proof (candidates_of_len _ _ _ _ _ Hx3) as L1. pose proof (candidates_of_len _ _ _ _ _ Hx4) as L2.
  pose proof (candidates_of_len _ _ _ _ _ Hx5) as L3. pose proof (candidates_of_len _ _ _ _ _ Hx6) as L4.
  pose proof (candidates_of_len _ _ _ _ _ Hc) as L5. change (len (rr_candidates (report_new false))) with 0%N in L1.
  split; [lia|]. intros Hfull.
  rewrite candidates_of_full in Hx6 by lia. injection Hx6 as <-. rewrite candidates_of_full in Hc by lia. injection Hc as <-.
  destruct (candidates_of_kinds _ _ _ _ _ Hx3) as (n1 & K1 & F1). destruct (candidates_of_kinds _ _ _ _ _ Hx4) as (n2 & K2 & F2).
  destruct (candidates_of_kinds _ _ _ _ _ Hx5) as (n3 & K3 & F3). rewrite K3, K2, K1. cbn.
  rewrite !Forall_app. split_and!; [eapply Forall_impl; [exact F1|]|eapply Forall_impl; [exact F2|]|eapply Forall_impl; [exact F3|]];
    by intros c ->.
Qed.
End collected.

(** ** On samples *)

#[local] Opaque after execute.
Definition sample_policy : RetentionPolicy := mkPolicy RETENTION_POLICY_VERSION 1 1 1 1 1 1.
Definition sample_archive (ops : list JobOp) (tombstones : list TombstoneRow) : Archive := mkArchive (after ops) ∅ ∅ tombstones [].
Definition sample_tombstone : TombstoneRow := mkTombstone RetEvent 100%N (Some 1%N) 0%Z 5%Z.

Lemma sample_policy_positive k : (0 < policy_duration sample_policy k)%N.
Proof. by destruct k. Qed.
Lemma event_tombstone_stops_retention_witness :
  exists files e, collect_retention (fun _ => true) (fun _ => Ok true) (fun _ _ => Ok (0, 0, 0)%N) (fun _ => "now")
    (sample_archive sample_done [sample_tombstone]) ∅ 10%Z sample_policy false = (files, sample_archive sample_done [sample_tombstone], Err e).
Proof.
  apply (event_tombstone_stops_retention (fun _ => true) (fun _ => Ok true) (fun _ _ => Ok (0, 0, 0)%N) (fun _ => "now")
           (sample_archive sample_done [sample_tombstone]) ∅ 10%Z sample_policy sample_tombstone).
  - exact sample_policy_positive.
  - cbn. lia.
  - by left.
  - reflexivity.
  - cbn. lia.
Defined.

(** Run 20 has published snapshot 6, which has a tombstone by now. *)
Definition snapshot_archive : Archive :=
  let c := sample_catalog in
  mkArchive (mkTables (set_snapshots {[6%N := mkSnapshot 5%N 2%N 0%N "" 1%Z 2%Z]} c) ∅
               {[20%N := mkRun (mkRunColumns 1%N 2%N 10%N 3%N 4%N "" "" (mkOperationColumns None None None None) "" 1%Z "engine" 0%Z)
                           RSucceeded (Some 1%Z) None (Some 6%N) None "[]"]} [] ∅ ∅ ∅ ∅) ∅ {[6%N := (0%Z, Some 1%Z)]} [] [].
Lemma referenced_snapshot_loses_files_witness :
  delete_candidate (fun _ => Ok true) snapshot_archive RetSnapshot 6%N {[6%N]} =
  ({[6%N]} ∖ {[6%N]}, Err (Database "delete Snapshot retention candidate")).
Proof.
  apply (referenced_snapshot_loses_files (fun _ => Ok true) snapshot_archive 6%N (mkSnapshot 5%N 2%N 0%N "" 1%Z 2%Z) 20%N
    (mkRun (mkRunColumns 1%N 2%N 10%N 3%N 4%N "" "" (mkOperationColumns None None None None) "" 1%Z "engine" 0%Z)
       RSucceeded (Some 1%Z) None (Some 6%N) None "[]") {[6%N]}); by vm_compute.
Defined.

Lemma artifact_goes_with_its_run_witness :
  delete_candidate (fun _ => Ok true) (sample_archive sample_done []) RetArtifact 30%N ∅ = (∅, Ok (sample_archive sample_done [], false)).
Proof.
  apply (artifact_goes_with_its_run (fun _ => Ok true) (sample_archive sample_done []) 30%N ∅ (reached_after sample_done)).
  vm_compute. eauto.
Defined.

(** The run of job 10 has failed by itself; collecting it leaves the job
    running, with no run and no event. *)
Definition sample_orphan : list JobOp :=
  sample_run ++ [OpTransitionRun 20%N RFailed (sample_event 108%N RunStream 10%N (Some 20%N) RunFailed 9%Z) (Some (mkFailure "engine" false "failed"))].
Lemma run_collection_exact_witness :
  exists a', delete_run 20%N (sample_archive sample_orphan []) = Ok (a', true) /\
    cp_runs (tables a') !! 20%N = None /\ j_state <$> cp_jobs (tables a') !! 10%N = Some Running /\ stream (tables a') JobStream 10%N = [].
Proof.
  assert (exists run, cp_runs (after sample_orphan) !! 20%N = Some run /\ r_job_id (run_columns run) = 10%N) as (run & Hrun & Hjob) by (vm_compute; eauto).
  assert (exists job, cp_jobs (after sample_orphan) !! 10%N = Some job /\ j_state job = Running) as (job & Hj & Hst) by (vm_compute; eauto).
  assert (exists a', delete_run 20%N (sample_archive sample_orphan []) = Ok (a', true)) as (a' & Hd) by (vm_compute; eauto).
  destruct (run_collection_exact (sample_archive sample_orphan []) 20%N a' run Hrun Hd) as (Hruns & _ & Hev & _ & _ & Hself & _).
  exists a'. split_and!; [exact Hd| | |].
  - rewrite Hruns. apply lookup_delete_eq.
  - rewrite Hjob in Hself. specialize (Hself job Hj). rewrite Hst in Hself.
    refine (eq_trans (f_equal (fmap j_state) Hself) _). cbn. by rewrite Hst.
  - unfold stream. rewrite Hev, Hjob. change (tables (sample_archive sample_orphan [])) with (after sample_orphan). by vm_compute.
Defined.

Lemma artifacts_crowd_out_runs_witness :
  exists r, collect_candidates (fun _ => true) (sample_archive sample_done []) 20%Z sample_policy (report_new false) = Ok r /\
    Forall (fun c => cd_kind c <> RetEvent /\ cd_kind c <> RetRun) (rr_candidates r) /\
    run_candidates (sample_archive sample_done []) 19%Z <> [].
Proof.
  assert (exists r, collect_candidates (fun _ => true) (sample_archive sample_done []) 20%Z sample_policy (report_new false) = Ok r)
    as (r & Hr) by (vm_compute; eauto).
  exists r. split_and!; [exact Hr| |by vm_compute].
  apply (artifacts_crowd_out_runs (fun _ => true) (sample_archive sample_done []) 20%Z sample_policy r 19%Z Hr); [reflexivity|by vm_compute].
Defined.
