(* ===== verification/Maintenance.v ===== *)
(** * The control plane with its maintenance

    The operations on jobs refine the life of [Life]; a retention pass takes
    rows away, which no move of that life does.  Here its effect on the
    tables is broken down into steps as well, so that every operation of the
    store that changes a job, a run, an artifact, an event or a key is
    accounted for. *)

From S2P Require Import Prelude Text Secrets Logical Nodes Schedule Automation Hex Executions Canonical Operations Jobs Submissions Outputs Lifecycle Reports Life Refines Reachable Sample Control AuditLog Retention Collected.

(** A step of a retention pass on the tables. *)
Inductive RetentionStep (t : Tables) : Tables -> Prop :=
| ret_catalog c : RetentionStep t (set_catalog c t)
| ret_tombstone id r now :
    cp_artifact_refs t !! id = Some r -> a_state r = Committed ->
    RetentionStep t (set_artifacts (<[id := ref_tombstoned now r]> (cp_artifact_refs t)) (cp_artifact_bodies t) t)
| ret_body id b :
    cp_artifact_bodies t !! id = Some b -> b_state b = Committed ->
    RetentionStep t (set_artifacts (cp_artifact_refs t) (<[id := body_set_state Tombstoned None b]> (cp_artifact_bodies t)) t)
| ret_artifact id r :
    cp_artifact_refs t !! id = Some r -> cp_runs t !! a_run_id r = None ->
    RetentionStep t (set_artifacts (delete id (cp_artifact_refs t)) (delete id (cp_artifact_bodies t)) t)
| ret_run id run t' :
    cp_runs t !! id = Some run -> run_is_terminal (r_state run) = true -> taken_with id run t t' -> RetentionStep t t'.
Notation Pass := (rtc RetentionStep).

(** The tombstone of a run names one that is there and has ended. *)
Definition ended_run (t : Tables) (id : Uuid) : Prop := exists run, cp_runs t !! id = Some run /\ run_is_terminal (r_state run) = true.
Definition tombstones_ended (a : Archive) : Prop :=
  forall row, row ∈ retention_tombstones a -> ts_kind row = RetRun -> ended_run (tables a) (ts_object_id row).

(** ** One candidate *)

Lemma set_artifacts_same t : set_artifacts (cp_artifact_refs t) (cp_artifact_bodies t) t = t.
Proof. by destruct t. Qed.
Lemma tombstone_artifact_steps now id a :
  Pass (tables a) (tables (tombstone_artifact now id a)) /\ cp_runs (tables (tombstone_artifact now id a)) = cp_runs (tables a).
Proof.
  split; [|done]. unfold tombstone_artifact. cbv zeta. cbn [tables set_tables]. set (t := tables a).
  transitivity (set_artifacts match cp_artifact_refs t !! id with
      | Some r => if bool_decide (a_state r = Committed) then <[id := ref_tombstoned now r]> (cp_artifact_refs t) else cp_artifact_refs t
      | None => cp_artifact_refs t end (cp_artifact_bodies t) t).
  - destruct (cp_artifact_refs t !! id) as [r|] eqn:Hr; [|by rewrite set_artifacts_same].
    case_bool_decide; [by apply rtc_once; econstructor|by rewrite set_artifacts_same].
  - set (refs := match cp_artifact_refs t !! id with Some _ => _ | None => _ end). clearbody refs.
    destruct (cp_artifact_bodies t !! id) as [b|] eqn:Hb; [|done]. case_bool_decide; [|done].
    apply rtc_once. by apply (ret_body (set_artifacts refs (cp_artifact_bodies t) t) id b).
Qed.
Lemma tombstone_snapshot_steps now id a :
  Pass (tables a) (tables (tombstone_snapshot now id a)) /\ cp_runs (tables (tombstone_snapshot now id a)) = cp_runs (tables a).
Proof.
  unfold tombstone_snapshot. destruct (snapshots _ !! id); [|done]. destruct (_ || _); [done|]. cbn.
  split; [apply rtc_once; constructor|done].
Qed.

Lemma delete_run_terminal a id a' b run :
  cp_runs (tables a) !! id = Some run -> run_is_terminal (r_state run) = true -> delete_run id a = Ok (a', b) ->
  (b = false /\ a' = a) \/ b = true.
Proof.
  intros Hrun Ht Hd. unfold delete_run, exists_row in Hd. rewrite Hrun, bool_decide_eq_true_2 in Hd by done. cbn in Hd.
  destruct (history_of _ _ || _); [left; by simplify_eq|]. right. cbn in Hd. inv_ok Hd. injection Hd as <- <-.
  apply drop_job_row_Ok in Hx1 as (jobs & -> & _). cbn. apply drop_artifacts_Ok in Hx.
  unfold drop_run_row in Hx0. rewrite Hx in Hx0. cbn in Hx0. rewrite Hrun, Ht in Hx0. cbn in Hx0.
  destruct (existsb _ _); [done|]. injection Hx0 as <-. cbn. by rewrite lookup_delete_eq.
Qed.

(** What deleting a candidate does to the tables, with the runs it leaves. *)
Lemma delete_candidate_steps remove_directory a k id files files' a' b :
  (k = RetRun -> forall run, cp_runs (tables a) !! id = Some run -> run_is_terminal (r_state run) = true) ->
  delete_candidate remove_directory a k id files = (files', Ok (a', b)) ->
  Pass (tables a) (tables a') /\ retention_tombstones a' = retention_tombstones a /\
  (cp_runs (tables a') = cp_runs (tables a) \/ k = RetRun /\ b = true /\ cp_runs (tables a') = delete id (cp_runs (tables a))).
Proof.
  intros Hend Hd. assert (Pass (tables a) (tables a)) as Hrefl by constructor. destruct k; cbn [delete_candidate] in Hd; unfold lift in Hd.
  - injection Hd as _ Hd. unfold delete_dataset in Hd. destruct (_ || _ || _); [by injection Hd as <- _; auto|].
    destruct (cp_datasets _ !! id) as [row|]; [|by injection Hd as <- _; auto].
    case_bool_decide; injection Hd as <- _; [|by auto]. cbn. split_and!; [apply rtc_once; constructor|done|by left].
  - unfold delete_snapshot, mbind, disk_bind, lift, exists_row, mret, disk_ret in Hd. destruct (negb _); [by injection Hd as _ <- _; auto|].
    destruct (snapshot_referenced _ _); [by injection Hd as _ <- _; auto|]. unfold delete_files in Hd.
    destruct (remove_directory id) as [[]|]; cbn in Hd; [|by injection Hd as _ <- _; auto|done].
    injection Hd as _ Hd. unfold delete_snapshot_row in Hd. destruct (snapshots _ !! id); [|by injection Hd as <- _; auto].
    destruct (negb _); [by injection Hd as <- _; auto|]. destruct (any_where _ _); [done|]. injection Hd as <- _. cbn.
    split_and!; [apply rtc_once; constructor|done|by left].
  - injection Hd as _ Hd. unfold delete_artifact in Hd. cbn in Hd.
    destruct (negb _) eqn:Ht; [by injection Hd as <- _; auto|].
    apply negb_false_iff, bool_decide_eq_true in Ht as [r Hr].
    destruct (_ || _ || _) eqn:Hg; [by injection Hd as <- _; auto|]. injection Hd as <- _. cbn.
    apply orb_false_iff in Hg as [_ Hg]. rewrite Hr in Hg. apply bool_decide_eq_false, eq_None_not_Some in Hg.
    split_and!; [apply rtc_once; by econstructor|done|by left].
  - injection Hd as _ Hd. discriminate Hd.
  - injection Hd as _ Hd. destruct (cp_runs (tables a) !! id) as [run|] eqn:Hrun.
    + specialize (Hend eq_refl run eq_refl). destruct (delete_run_terminal _ _ _ _ _ Hrun Hend Hd) as [[-> ->]| ->]; [by auto|].
      pose proof (delete_run_taken a id a' run Hrun Hd) as Htaken.
      destruct (delete_run_Ok _ _ _ _ Hrun Hd) as (t1 & t2 & t3 & _ & _ & _ & -> & _).
      split_and!; [apply rtc_once; by eapply ret_run|done|right; split_and!; [done..|apply Htaken]].
    + unfold delete_run, exists_row in Hd. rewrite Hrun in Hd. rewrite bool_decide_eq_false_2 in Hd by (by intros []).
      cbn in Hd. injection Hd as <- _. auto.
Qed.

(** ** The parts of a pass *)

(** The tables an archive holds and the tombstones it keeps. *)
Definition advanced (a a' : Archive) : Prop := Pass (tables a) (tables a') /\ tombstones_ended a'.

Lemma is_tombstone_spec k id row : is_tombstone k id row = true <-> ts_kind row = k /\ ts_object_id row = id.
Proof. unfold is_tombstone. by rewrite andb_true_iff, bool_decide_eq_true, N.eqb_eq. Qed.

Lemma collect_tombstone_steps remove_directory s row files files' s' :
  tombstones_ended s.1 ->
  (ts_kind row = RetRun -> forall run, cp_runs (tables s.1) !! ts_object_id row = Some run -> run_is_terminal (r_state run) = true) ->
  collect_tombstone remove_directory s row files = (files', Ok s') ->
  advanced s.1 s'.1 /\ forall id run, cp_runs (tables s'.1) !! id = Some run -> cp_runs (tables s.1) !! id = Some run.
Proof.
  intros Hok Hrow Hc. unfold collect_tombstone, mbind, disk_bind, mret, disk_ret in Hc.
  destruct (delete_candidate _ _ _ _ files) as [fs [[a' b]|e]] eqn:Hd; [|done].
  destruct (delete_candidate_steps _ _ _ _ _ _ _ _ Hrow Hd) as (Hp & Hts & Hruns). cbn in Hc.
  assert (forall id run, cp_runs (tables a') !! id = Some run -> cp_runs (tables s.1) !! id = Some run) as Hback.
  { intros id run Hr. destruct Hruns as [Hsame|(_ & _ & Hdel)]; [by rewrite <- Hsame|].
    rewrite Hdel in Hr. by apply lookup_delete_Some in Hr as [_ ?]. }
  destruct b; injection Hc as _ <-; cbn [fst set_tombstones tables]; (split; [|exact Hback]); (split; [exact Hp|]).
  - intros x Hx Hk. cbn in Hx |- *. apply list_elem_of_filter in Hx as [Hne Hx]. rewrite Hts in Hx.
    destruct (Hok x Hx Hk) as (run & Hrun & Ht). exists run. split; [|done].
    destruct Hruns as [-> |(Hkr & _ & ->)]; [done|]. rewrite lookup_delete_ne; [done|]. intros Heq.
    apply Is_true_true, negb_true_iff in Hne. assert (is_tombstone (ts_kind row) (ts_object_id row) x = true) as Hyes; [|congruence].
    apply is_tombstone_spec. by rewrite Hk, Hkr, Heq.
  - destruct Hruns as [Hsame|(_ & ? & _)]; [|done]. intros x Hx Hk. rewrite Hts in Hx. unfold ended_run. rewrite Hsame. by apply Hok.
Qed.
Lemma collect_tombstones_steps remove_directory rows : forall s files files' s',
  tombstones_ended s.1 ->
  (forall row, row ∈ rows -> ts_kind row = RetRun ->
     forall run, cp_runs (tables s.1) !! ts_object_id row = Some run -> run_is_terminal (r_state run) = true) ->
  fold_disk (collect_tombstone remove_directory) s rows files = (files', Ok s') -> advanced s.1 s'.1.
Proof.
  induction rows as [|row rows IH]; intros s files files' s' Hok Hrows Hf; cbn in Hf.
  - injection Hf as _ <-. split; [constructor|done].
  - unfold mbind, disk_bind in Hf. destruct (collect_tombstone _ s row files) as [fs [s1|e]] eqn:Hc; [|done].
    destruct (collect_tombstone_steps _ _ _ _ _ _ Hok (Hrows row (list_elem_of_here _ _)) Hc) as [[Hp Hok1] Hback].
    destruct (IH s1 fs files' s' Hok1) as [Hp2 Hok2]; [|exact Hf|].
    { intros x Hx Hk run Hr. eapply Hrows; [by right|done|by apply Hback]. }
    split; [by etrans|done].
Qed.

(** Marking a candidate. *)
Lemma tombstone_candidate_steps in_range now p a c a' b :
  tombstones_ended a -> (cd_kind c = RetRun -> ended_run (tables a) (cd_object_id c)) ->
  tombstone_candidate in_range now p a c = Ok (a', b) -> advanced a a' /\ cp_runs (tables a') = cp_runs (tables a).
Proof.
  intros Hok Hc Ht. unfold tombstone_candidate in Ht. cbv zeta in Ht. inv_ok Ht. injection Ht as <- _.
  set (a1 := if existsb _ _ then a else _). assert (tables a1 = tables a) as Htab by (subst a1; by destruct (existsb _ _)).
  assert (tombstones_ended a1) as Hok1.
  { intros row Hrow Hk. rewrite Htab. subst a1. destruct (existsb _ _); [by apply Hok|]. cbn in Hrow.
    apply elem_of_app in Hrow as [?| ->%list_elem_of_singleton]; [by apply Hok|by apply Hc]. }
  clearbody a1. unfold advanced. rewrite <- Htab. destruct (cd_kind c); try (split; [split; [constructor|done]|done]).
  - pose proof (tombstone_snapshot_steps now (cd_object_id c) a1) as [Hp Hr]. split; [|done]. split; [done|].
    intros row Hrow Hk. unfold ended_run. rewrite Hr. apply Hok1; [|done].
    pose proof (tombstones_same now a1 RetSnapshot (cd_object_id c)) as Hsame. cbn in Hsame. by rewrite <- Hsame.
  - pose proof (tombstone_artifact_steps now (cd_object_id c) a1) as [Hp Hr]. split; [|done]. split; [done|].
    intros row Hrow Hk. unfold ended_run. rewrite Hr. by apply Hok1.
Qed.
Lemma marking_steps in_range now p cs : forall s s',
  tombstones_ended s.1 -> (forall c, c ∈ cs -> cd_kind c = RetRun -> ended_run (tables s.1) (cd_object_id c)) ->
  fold_result (fun s c => done_ ← tombstone_candidate in_range now p s.1 c;
                 Ok (done_.1, if done_.2 : bool then count_tombstoned s.2 else s.2)) s cs = Ok s' ->
  advanced s.1 s'.1.
Proof.
  induction cs as [|c cs IH]; intros s s' Hok Hcs Hf; cbn in Hf; [injection Hf as <-; by split; [constructor|]|].
  apply bind_Ok in Hf as (s1 & Hs1 & Hf). apply bind_Ok in Hs1 as ([a1 b1] & Hc & [= <-]).
  destruct (tombstone_candidate_steps _ _ _ _ _ _ _ Hok (Hcs c (list_elem_of_here _ _)) Hc) as [[Hp1 Hok1] Hr1].
  destruct (IH (a1, if b1 then count_tombstoned s.2 else s.2) s' Hok1) as [Hp2 Hok2]; [|exact Hf|].
  { intros x Hx Hk. cbn. unfold ended_run. rewrite Hr1. apply Hcs; [by right|done]. }
  split; [by etrans|done].
Qed.

(** The runs among the candidates have ended. *)
Definition runs_ended (t : Tables) (r : RetentionReport) : Prop :=
  forall c, c ∈ rr_candidates r -> cd_kind c = RetRun -> ended_run t (cd_object_id c).
Lemma add_candidates_ended in_range t p k l : forall r r',
  (k = RetRun -> forall x, x ∈ l -> ended_run t (ag_id x)) -> runs_ended t r ->
  fold_result (add_candidate in_range p k) r l = Ok r' -> runs_ended t r'.
Proof.
  induction l as [|x l IH]; intros r r' Hl Hr Hf; cbn in Hf; [by injection Hf as <-|].
  apply bind_Ok in Hf as (r1 & Hx & Hf). apply (IH r1 r'); [|clear Hf|done]; [intros Hk y Hy; apply Hl; [done|by right]|].
  unfold add_candidate in Hx. destruct (_ <=? _)%N; [by injection Hx as <-|]. inv_ok Hx. injection Hx as <-.
  intros c Hc Hk. cbn in Hc. apply elem_of_app in Hc as [?| ->%list_elem_of_singleton]; [by apply Hr|].
  cbn in Hk |- *. apply Hl; [done|by left].
Qed.
Lemma candidates_of_ended in_range t p k rows r r' :
  (k = RetRun -> forall x, x ∈ rows -> ended_run t (ag_id x)) -> runs_ended t r ->
  candidates_of in_range p k rows r = Ok r' -> runs_ended t r'.
Proof.
  intros Hrows Hr. unfold candidates_of. destruct (_ =? 0)%N; [by intros [= <-]|]. apply add_candidates_ended; [|done].
  intros Hk x Hx. apply Hrows; [done|]. eapply elem_of_sublist in Hx; [|apply sublist_take]. by rewrite merge_sort_Permutation in Hx.
Qed.
Lemma run_candidates_ended a cut x : x ∈ run_candidates a cut -> ended_run (tables a) (ag_id x).
Proof.
  unfold run_candidates. cbv zeta. intros ([id run] & Hin%elem_of_map_to_list & Hx)%list_elem_of_omap. cbn in Hx.
  destruct (r_finished_at run); [|done]. destruct (_ && _ && _ && _) eqn:Hb; [|done]. injection Hx as <-. cbn.
  exists run. split; [done|]. by apply andb_true_iff in Hb as [[[? _]%andb_true_iff _]%andb_true_iff _].
Qed.
Lemma collect_candidates_ended in_range a now p r :
  collect_candidates in_range a now p (report_new false) = Ok r -> runs_ended (tables a) r.
Proof.
  unfold collect_candidates. intros Hc. inv_ok Hc.
  eapply candidates_of_ended; [intros _ y; apply run_candidates_ended| |exact Hc].
  do 4 (eapply candidates_of_ended; [| |eassumption]; [done|]). by intros c Hin%elem_of_nil.
Qed.

Lemma audit_tables `{JobCodec} `{AuditCodec} format_timestamp now wss : forall s s',
  fold_result (append_retention_audit format_timestamp now) s wss = Ok s' ->
  tables s'.1 = tables s.1 /\ retention_tombstones s'.1 = retention_tombstones s.1.
Proof.
  induction wss as [|ws wss IH]; intros s s' Hf; cbn in Hf; [by injection Hf as <-|].
  apply bind_Ok in Hf as (s1 & Hs1 & Hf). unfold append_retention_audit in Hs1. apply bind_Ok in Hs1 as (rows & _ & [= <-]).
  by apply IH in Hf.
Qed.

Lemma collect_tx_steps `{JobCodec} `{AuditCodec} in_range remove_directory format_timestamp a now p files files' s :
  tombstones_ended a -> collect_tx in_range remove_directory format_timestamp a now p files = (files', Ok s) -> advanced a s.1.
Proof.
  intros Hok Hc. unfold collect_tx in Hc. unfold mbind at 1, disk_bind at 1, lift at 1 in Hc.
  destruct (collect_candidates _ a now p _) as [r|] eqn:Hcand; [|done]. unfold mbind at 1, disk_bind at 1, lift at 1 in Hc.
  destruct (fold_result _ (a, r) (rr_candidates r)) as [marked|] eqn:Hm; [|done].
  unfold mbind at 1, disk_bind at 1, lift in Hc. unfold collect_tombstones in Hc.
  destruct (fold_disk _ _ _ files) as [fs [collected|]] eqn:Hcol; [|done]. injection Hc as _ Hc.
  apply audit_tables in Hc as [Ht Hts].
  apply marking_steps in Hm as [Hp1 Hok1]; [|done|by apply collect_candidates_ended in Hcand].
  apply collect_tombstones_steps in Hcol as [Hp2 Hok2]; [|done|].
  - split; [rewrite Ht; by etrans|]. unfold tombstones_ended. by rewrite Ht, Hts.
  - intros row Hrow Hk run Hrun. unfold eligible_tombstones in Hrow.
    eapply elem_of_sublist in Hrow; [|apply sublist_take]. rewrite merge_sort_Permutation, list_elem_of_filter in Hrow.
    destruct (Hok1 row (proj2 Hrow) Hk) as (run' & Hrun' & ?). cbn in Hrun. by simplify_eq.
Qed.

(** ** Claims *)

Section maintenance.
Context `{JobCodec} `{StoreFiles} `{AuditCodec}.
Context (datetime_in_range : DateTime -> bool) (remove_directory : Uuid -> Stored bool)
        (legacy_garbage : DateTime -> N -> Stored (N * N * N)) (format_timestamp : DateTime -> string).

Lemma tombstones_kept a op : reached (tables a) -> tombstones_ended a -> tombstones_ended (set_tables (execute (tables a) op) a).
Proof.
  intros Ht Hok row Hrow Hk. destruct (Hok row Hrow Hk) as (run & Hrun & Hterm). cbn.
  destruct (steps_kept _ _ (execute_refines _ op (reached_ok _ Ht))) as [_ Hr].
  destruct (Hr _ _ (life_run_lookup _ _ _ Hrun)) as (r' & Hr' & _ & _ & Hsame). rewrite (Hsame Hterm) in Hr'.
  apply lookup_fmap_Some in Hr' as (run' & Heq & Hrun'). exists run'. split; [done|].
  apply (f_equal rl_state) in Heq. cbn in Heq. by rewrite Heq.
Qed.

End maintenance.

(** ** On the sample job *)

#[local] Opaque after execute.

(** Run 20 of job 10 has ended and its tombstone is due. *)
Definition sample_due : Archive := sample_archive sample_done [mkTombstone RetRun 20%N (Some 1%N) 0%Z 5%Z].
Definition sample_pass : gset Uuid * Archive * Stored RetentionReport :=
  collect_retention (fun _ => true) (fun _ => Ok true) (fun _ _ => Ok (0, 0, 0)%N) (fun _ => "now") sample_due ∅ 20%Z sample_policy false.
Lemma sample_due_ended : tombstones_ended sample_due.
Proof.
  intros row Hrow _. apply list_elem_of_singleton in Hrow as ->. unfold ended_run. cbn.
  assert (r_state <$> cp_runs (after sample_done) !! 20%N = Some RSucceeded) as Hr by (by vm_compute).
  destruct (cp_runs (after sample_done) !! 20%N) as [run|] eqn:He; [|discriminate Hr]. injection Hr as Hr. exists run. split; [exact He|]. rewrite Hr. reflexivity.
Qed.
Lemma triple_eta {A B C} (x : A * B * C) : x = (x.1.1, x.1.2, x.2).
Proof. by destruct x as [[? ?] ?]. Qed.
